(* ===== verification/_CoqProject ===== *)
-Q . S2P
Prelude.v
Text.v
Bytes.v
Utf8.v
Net.v
Routing.v
Acl.v
Tunnel.v
Packet.v
DerpProtocol.v
Stun.v
Endpoint.v
Mesh.v
Metering.v
Ledger.v
Channels.v
Escrow.v
Quota.v
GoNetip.v
GoUnicode.v
GoDuration.v
PolicyPorts.v
Reach.v
Policy.v
PolicyEval.v
Intervals.v
IpSet.v
PrimaryRoutes.v
Resolution.v
FilterCompile.v
FilterSpec.v
NodeAttrs.v
Ssh.v
Via.v
PortAgreement.v
Registration.v
MapChange.v
Pings.v
IpAlloc.v
GivenName.v
MapBatcher.v
Registry.v
NodeStore.v
NodeUpdates.v
Sessions.v
RegistryRoutes.v
MapNodes.v
MapView.v
MapDelta.v
MapRequest.v
ControlBase.v
GoJson.v
GoScanner.v
HuJson.v
Preauth.v
GoUrl.v
Register.v
WebRegister.v
