(* ===== verification/Prelude.v ===== *)
(** * headscale-rs: a verification development

    headscale-rs is a Tailscale-compatible coordination server and mesh VPN in
    Rust.  Its parts, and how they interact:

    - the data plane (crate headscale-core): a routing table with primary
      election, an ACL evaluator, WireGuard tunnels and the packet router that
      composes them (a packet is looked up, authorised and encapsulated; a
      datagram is decapsulated and its source checked), the DERP relay protocol,
      the STUN client and responder, endpoint discovery, the mesh coordinator,
      bandwidth metering;
    - the policy (crates headscale-api-acl and headscale-api/src/policy): a
      document of groups, tags, hosts, ACLs, grants, SSH rules and node
      attributes, an evaluator of single questions and a compiler that turns
      the document into packet filters, SSH policies, via routes and capability
      maps for the nodes of the tailnet;
    - the control server (headscale-api/src/tailscale_wire): a registry of nodes
      with their streams and timers, pending registrations, the election of
      subnet routers, the changes announced to streams, and the map each node is
      sent and kept up to date with, made from the registry and the policy;
    - payments (crate headscale-payments): a ledger, payment channels and work
      escrows over the ledger; the gateway's quotas.

    ** Files

    Every definition carries the name of the Rust item it translates (with a
    prefix where two items share one).  Shared:
    - [Prelude] (this file): [result] with the [let?] notation of [?], fixed-width
      arithmetic ([checked_add], [saturating_add], [add_u] by build [profile]),
      comparators with the class [TotalCmp], stable sorting, [max_by]/[min_by];
    - [Text]: the string functions of [std]; [Bytes]: big-endian codecs, slices,
      xor, the hint database [bytes]; [Utf8]: the check and the lossy reading of UTF-8;
    - [Net]: [std::net] addresses with their parser and printer, and the class
      [IpNetLib] with its laws [IpNetLaws] for the crate [ipnet], which is not in
      the repository; [PrefixNet] is the instance the examples compute with.

    One file per component, most ending in a module of examples that instantiates
    its theorems.  The data plane and payments:
    - [Routing] (headscale-core/src/routing.rs): the table as two sorted lists and
      the primary map.  Reachable tables are well formed; lookup is longest-prefix
      match and agrees with the elected primary.
    - [Acl] (acl.rs): policies, validation, matching, evaluation.  First match wins
      with default deny; validation accepts exactly the policies whose references
      are known.
    - [Tunnel] (tunnel.rs): tunnels and the manager's maps; boringtun is the class
      [TunnLib].  Endpoints roam only on authenticated datagrams.
    - [Packet] (packet.rs, authorization.rs): the whole send and receive steps over
      [Routing], [Acl] and [Tunnel].  Only accepted packets are sent, to the
      elected peer; a delivered packet has an allowed source.
    - [DerpProtocol] (derp.rs, module protocol): frames, the incremental decoder,
      the sealed login; [CryptoBox] and [InfoJsonLib] are the libraries it calls.
      Frames round-trip, and the decoder refines the decoding of the whole stream
      for every segmentation.
    - [Stun] (stun.rs): encoding and parsing; [Network] is the socket.
    - [Endpoint] (endpoint.rs), [Mesh] (mesh.rs, node.rs): candidate endpoints by
      priority, and the coordinator with its address pool.
    - [Metering] (metering.rs): [call_step] cuts a call at its atomic operations;
      counters are exact in sequence and, modulo 2^64, under every interleaving.
    - [Ledger], [Channels], [Escrow] (headscale-payments/src): balances are
      conserved, channels stay within capacity, escrows never overpay.  [Quota]
      (headscale-api/src/gateway/quota.rs): no lease exceeds its limit.

    The policy:
    - [GoNetip], [GoUnicode], [GoDuration] (headscale-api-acl/src/go_*.rs): Go's
      texts of addresses and prefixes, case folding, durations, with round trips.
    - [GoJson], [GoScanner], [HuJson] (go_json.rs, go_json/scanner.rs, go_hujson.rs):
      the grammar of JSON; the cursor and the scanner, two readers that accept exactly
      it; the task machine that blanks comments and trailing commas, which is exactly
      the translation from the grammar of HuJSON to that of JSON.
    - [PolicyPorts], [Reach], [Policy], [PolicyEval] (headscale-api-acl/src/lib.rs):
      port patterns, the document, groups and tags with their cycles, the
      evaluator.  The expansion of groups is exact and ends.
    - [Intervals], [IpSet] (policy/filter.rs, policy/matcher.rs): intervals cut into
      CIDR blocks, address sets, rule matchers.
    - [Resolution], [FilterCompile] (policy/resolution.rs, policy/filter.rs):
      aliases to addresses, rules to filters.  [FilterSpec] states what a document
      allows, without the compiler, and proves that the compiled filters allow
      exactly that, and that a node receives exactly the rules that concern it;
      [PortAgreement] relates the compiled ports to the evaluator's.
    - [NodeAttrs], [Ssh], [Via] (policy/filter.rs, policy/ssh.rs, policy/via.rs):
      attributes, SSH rules, via grants.  An SSH rule lets in only whom the
      document names; the via election is exact.

    The control server (headscale-api/src/tailscale_wire and headscale-cli):
    - [PrimaryRoutes] (routes.rs): normalisation, the election, health marks and
      auto-approval, against the class [NetipText], whose laws [GoNetip] discharges.
    - [IpAlloc] (headscale-cli/src/server.rs): the address pools.  Addresses given
      out are unique and free ones are found.
    - [GivenName] (go_dnsname.rs, wire.rs): DNS labels; the search for a free name
      ends with the first free one.
    - [Registration] (mod.rs): pending registrations and SSH checks as a cache of
      shared entries with quotas per source, eviction and waiters.
    - [Pings], [MapChange], [MapBatcher] (mod.rs): pings, what a change is about,
      and the queues of the streams: no announcement is lost.
    - [Registry], [NodeStore], [NodeUpdates], [Sessions] (mod.rs): the records and
      the tables beside them; writes done directly or in batches, which agree; the
      operations on nodes; streams, their releases and timers as steps in any
      order, with the invariant of their counts.
    - [RegistryRoutes] (mod.rs): the election over a snapshot and the look-ups.
    - [MapNodes], [MapView] (map.rs, wire.rs, register.rs): a node as its peers see
      it, which peers a node sees and which routes it may use through them.
    - [MapDelta] (map.rs): the stream that keeps a client's map up to date, and a
      client that applies what it receives: it shows what the server remembers.
    - [MapRequest] (map.rs, mod.rs): what a node reports, what of it is announced,
      and the write that merges it into a record that may have changed.
    - [GoUrl] (headscale-api/src/go_url.rs): Go's URLs; what is printed is read back.
    - [Preauth] (admin/preauth.rs, mod.rs): the keys that admit nodes, in memory; a key
      for one use is redeemed at most once.
    - [Register] (register.rs, mod.rs, wire.rs): the registration handler with all its
      branches (logout, admission gate, known node, follow-up, interactive, auth key),
      the commit into the registry and the approval of routes.  A request reaches only
      nodes of the machine it proved; ids and names stay distinct; the node a key leaves
      is stated field by field; the page a client is sent to names its registration.
    - [WebRegister] (web_registration.rs, mod.rs): the completion of an interactive
      registration by a login, which takes the pending record of [Registration] and
      commits it as [Register] does.
    - [ControlBase] (controlbase.rs, be_transport.rs): messages, the transport with
      counters and the encrypted stream over two scripted sockets, which is a pipe.

    ** Interfaces

    [TunnLib], [CryptoBox], [InfoJsonLib], [Network], [Aead] and [IpNetLib] stand for
    code outside the repository; [Transport] is what the encrypted stream needs of its
    cipher state, and [be_transport_laws] proves it for the server's own.  [NetipText] separates the routes of the server from
    Go's texts; its instance is [go_netip_text].  [MapView.PolicyStore] is what the
    policy answers about the nodes of a snapshot; [HostTypes], [WireTypes],
    [HostValues] and [HostUpdates] are the parts of a Hostinfo and of a response the
    server only passes on, and how retained values compare, and [HostRequests] the tags a
    Hostinfo asks for.  [PreauthRedeemer] is what the registration handler needs of a key
    store, with the instance [in_memory_redeemer]; [Chrono] is the calendar's conversion
    of seconds.

    ** Modelling

    A [HashMap] or [BTreeMap] is a [gmap], iterated in the order of [map_to_list];
    integers are [Z] with their width written out where they can leave it; an
    operation that mutates [self] returns the new state with its result; a panic is
    [None].  Clocks, randomness, the outcome of a send and a policy's answers are
    arguments.  An [Arc] that is compared by pointer is the number it was made with,
    a shared entry is a reference into a store ([Registration]).  Locks are modelled
    by sequential steps where a call holds one lock throughout and by explicit steps
    where it does not ([Metering], [Ledger], [Sessions]).  The [f64] of [GoDuration] are
    rounded to 53 bits after each operation.

    Fuel: the stream decoder drains at most [S (length buffer)] frames, since every
    frame has a five-byte header; the STUN attribute scan takes [S (length data)]
    rounds, four bytes each at least; an IPv6 text has at most eight rounds of two
    bytes ([GoNetip.ipv6_loop_fuel]); [cidr_loop] takes [2 * bits + 2] rounds, as
    blocks grow and then shrink ([Intervals.cidr_loop_grows]); decimal and
    hexadecimal printing has 64 digits; the duration parser consumes a character a
    round; the expansion of groups and tags takes one round for each group or tag of
    the document, since those being expanded are remembered; the eviction of the
    registration cache removes an entry a round; a waiter is woken at most twice;
    the search for a name tries one more candidate than there are nodes; the search
    for an address one more than there are used and reserved ones; a read of the
    encrypted stream takes a round for each byte or event of the socket and two more;
    the JSON cursor two rounds for each byte and two more; the scanner hands a byte on
    three times at most; HuJSON takes four tasks for each byte and four more, and a gap
    one round for each byte and one more; the marker of a follow-up path is removed in one
    round for each byte.  Each bound is proved to be enough, or, for
    printing, is part of the round trip.

    ** Not modelled

    Sockets, TLS, HTTP and gRPC handlers, the SQL layer, the command line,
    generated code, and calls into signature libraries.  Of the control server: the
    side tables of the native store (feature "admin"), the durable
    registration store, the decoding of requests, the merging of Hostinfo values,
    GODEBUG settings, the Noise handshake, DNS settings, the encoding
    and compression of responses.  Of the policy: reloading and storing documents,
    the validation of a document and its tests, the decoding of JSON into documents and
    the removal of metadata members.  Gateway authentication and routing, MagicDNS extra records, the error texts of
    [GoNetip] (quoting) and x402. *)

From stdpp Require Import base list gmap strings sorting.
From Stdlib Require Import ZArith Lia Sorted Permutation.

Open Scope Z_scope.

(** ** Fallible code: Rust's [Result] *)

Inductive result (A E : Type) : Type :=
| Ok (a : A)
| Err (e : E).

Arguments Ok {A E} a.
Arguments Err {A E} e.

#[export] Instance result_eq_dec `{EqDecision A, EqDecision E} : EqDecision (result A E).
Proof. solve_decision. Defined.

Definition result_bind {A B E} (r : result A E) (k : A -> result B E) : result B E :=
  match r with
  | Ok a => k a
  | Err e => Err e
  end.

Definition result_map {A B E} (f : A -> B) (r : result A E) : result B E :=
  result_bind r (fun a => Ok (f a)).

Definition map_err {A E F} (f : E -> F) (r : result A E) : result A F :=
  match r with
  | Ok a => Ok a
  | Err e => Err (f e)
  end.

(** [Option::ok_or]. *)
Definition ok_or {A E} (o : option A) (e : E) : result A E :=
  match o with
  | Some a => Ok a
  | None => Err e
  end.

(** [Result::is_ok] and [Result::ok]. *)
Definition is_ok {A E} (r : result A E) : bool :=
  match r with Ok _ => true | Err _ => false end.

Definition result_ok {A E} (r : result A E) : option A :=
  match r with Ok a => Some a | Err _ => None end.

Definition is_nil {A} (l : list A) : bool := match l with [] => true | _ => false end.

(** [e?] in a Rust body is [let? x := e in ...] here. *)
Declare Scope rust_scope.
Delimit Scope rust_scope with rust.
Notation "'let?' x ':=' e 'in' k" := (result_bind e (fun x => k))
  (at level 10, x name, e at level 100, k at level 200) : rust_scope.
Notation "'let?' ' p ':=' e 'in' k" := (result_bind e (fun x => match x with p => k end))
  (at level 10, p pattern, e at level 100, k at level 200) : rust_scope.
Open Scope rust_scope.

Lemma result_bind_Ok {A B E} (r : result A E) (k : A -> result B E) b :
  result_bind r k = Ok b <-> exists a, r = Ok a /\ k a = Ok b.
Proof. destruct r; simpl; naive_solver. Qed.

Lemma result_bind_Err {A B E} (r : result A E) (k : A -> result B E) e :
  result_bind r k = Err e <-> r = Err e \/ exists a, r = Ok a /\ k a = Err e.
Proof. destruct r; simpl; naive_solver. Qed.

Lemma ok_or_Ok {A E} (o : option A) (e : E) a : ok_or o e = Ok a <-> o = Some a.
Proof. destruct o; simpl; naive_solver. Qed.

(** ** Fixed-width unsigned integers

    A [w]-bit unsigned integer is a [Z] in [[0, 2^w)]; each operation of the
    source that can leave the range is written out. *)

Definition u_max (w : Z) : Z := 2 ^ w - 1.

Definition in_u (w n : Z) : Prop := 0 <= n <= u_max w.

#[export] Instance in_u_dec w n : Decision (in_u w n).
Proof. unfold in_u. apply _. Defined.

(** [uN::checked_add], [saturating_add], [saturating_sub], [wrapping_add]. *)
Definition checked_add (w a b : Z) : option Z :=
  if a + b <=? u_max w then Some (a + b) else None.

Definition saturating_add (w a b : Z) : Z := Z.min (a + b) (u_max w).

Definition saturating_sub (a b : Z) : Z := Z.max (a - b) 0.

Definition wrapping_add (w a b : Z) : Z := (a + b) `mod` 2 ^ w.

(** The [+] of the source panics on overflow in a build with overflow checks
    and wraps in a build without them; [None] is the panic. *)
Inductive profile := Debug | Release.

Definition add_u (m : profile) (w a b : Z) : option Z :=
  match m with
  | Debug => checked_add w a b
  | Release => Some (wrapping_add w a b)
  end.

Definition mul_u (m : profile) (w a b : Z) : option Z :=
  match m with
  | Debug => if a * b <=? u_max w then Some (a * b) else None
  | Release => Some ((a * b) `mod` 2 ^ w)
  end.

Lemma checked_add_Some w a b c :
  checked_add w a b = Some c <-> c = a + b /\ a + b <= u_max w.
Proof.
  unfold checked_add. destruct (Z.leb_spec (a + b) (u_max w)); naive_solver lia.
Qed.

Lemma checked_add_None w a b : checked_add w a b = None <-> u_max w < a + b.
Proof.
  unfold checked_add. destruct (Z.leb_spec (a + b) (u_max w)); naive_solver lia.
Qed.

Lemma add_u_small m w a b :
  in_u w a -> in_u w b -> a + b <= u_max w -> add_u m w a b = Some (a + b).
Proof.
  unfold in_u, u_max. intros Ha Hb Hs. destruct m; simpl.
  - apply checked_add_Some; done.
  - unfold wrapping_add. rewrite Z.mod_small by lia. done.
Qed.

Lemma wrapping_add_range w a b : 0 <= w -> in_u w (wrapping_add w a b).
Proof.
  intros Hw. unfold in_u, u_max, wrapping_add.
  pose proof (Z.pow_pos_nonneg 2 w ltac:(lia) Hw).
  pose proof (Z.mod_pos_bound (a + b) (2 ^ w) ltac:(lia)). lia.
Qed.

(** ** Comparators

    Rust's [Ordering]-valued comparators, [Ordering::then_with], and what
    [sort_by], [max_by] and [min_by] do with them. *)

Definition then_with (c d : comparison) : comparison :=
  match c with Eq => d | _ => c end.

(** A comparator that is a total preorder. *)
Class TotalCmp {A} (cmp : A -> A -> comparison) : Prop := {
  cmp_opp : forall a b, cmp b a = CompOpp (cmp a b);
  cmp_le_trans : forall a b c, cmp a b <> Gt -> cmp b c <> Gt -> cmp a c <> Gt;
}.

Lemma cmp_refl `{TotalCmp A cmp} a : cmp a a = Eq.
Proof. pose proof (cmp_opp a a) as Ha. destruct (cmp a a); done. Qed.

Lemma cmp_total `{TotalCmp A cmp} a b : cmp a b = Gt -> cmp b a <> Gt.
Proof. intros Hab. rewrite cmp_opp, Hab. done. Qed.

#[export] Instance Zcompare_total : TotalCmp Z.compare.
Proof.
  split; intros *; [apply Z.compare_antisym|].
  rewrite !Z.compare_le_iff. lia.
Qed.

Lemma flip_total `(cmp : A -> A -> comparison) : TotalCmp cmp -> TotalCmp (fun a b => cmp b a).
Proof. intros ?. split; intros *; [apply cmp_opp | eauto using cmp_le_trans]. Qed.

Lemma on_key_total `(cmp : B -> B -> comparison) {A} (f : A -> B) :
  TotalCmp cmp -> TotalCmp (fun a b => cmp (f a) (f b)).
Proof. intros ?. split; intros *; [apply cmp_opp | apply cmp_le_trans]. Qed.

Lemma cmp_eq_trans_l `{TotalCmp A cmp} a b c : cmp a b = Eq -> cmp a c = cmp b c.
Proof.
  intros Hab. assert (cmp b a = Eq) as Hba by (rewrite cmp_opp, Hab; done).
  assert (cmp a c <> Gt -> cmp b c <> Gt) by (apply cmp_le_trans; congruence).
  assert (cmp b c <> Gt -> cmp a c <> Gt) by (apply cmp_le_trans; congruence).
  assert (cmp c a <> Gt -> cmp c b <> Gt) by (intros; eapply cmp_le_trans; eauto; congruence).
  assert (cmp c b <> Gt -> cmp c a <> Gt) by (intros; eapply cmp_le_trans; eauto; congruence).
  pose proof (cmp_opp a c) as Hac. pose proof (cmp_opp b c) as Hbc.
  destruct (cmp a c), (cmp b c), (cmp c a), (cmp c b); simpl in *; try done; exfalso; intuition congruence.
Qed.

Lemma cmp_lt_le_trans `{TotalCmp A cmp} a b c : cmp a b = Lt -> cmp b c <> Gt -> cmp a c = Lt.
Proof.
  intros Hab Hbc. assert (cmp a c <> Gt) by (eapply cmp_le_trans; eauto; congruence).
  destruct (cmp a c) eqn:Hac; try done. exfalso. apply Hbc.
  rewrite (cmp_opp c b), <-(cmp_eq_trans_l a c b Hac), Hab. done.
Qed.

Lemma then_with_total `(c1 : A -> A -> comparison) (c2 : A -> A -> comparison) :
  TotalCmp c1 -> TotalCmp c2 -> TotalCmp (fun a b => then_with (c1 a b) (c2 a b)).
Proof.
  intros ? ?. split; intros a b.
  - rewrite (cmp_opp (cmp:=c1) a b), (cmp_opp (cmp:=c2) a b). by destruct (c1 a b).
  - intros c Hab Hbc.
    destruct (c1 a b) eqn:E1; simpl in *; [| |done].
    + rewrite (cmp_eq_trans_l (cmp:=c1) a b c E1).
      destruct (c1 b c); simpl in *; [by eapply (cmp_le_trans (cmp:=c2)) | done | done].
    + rewrite (cmp_lt_le_trans (cmp:=c1) a b c E1); [done|].
      intros E2. rewrite E2 in Hbc. done.
Qed.

(** ** [sort_by], [max_by], [min_by]

    [slice::sort_by] is a stable sort: the result is the one permutation that
    is ordered and keeps equal elements in their first order, which insertion
    from the right computes. *)

(** [Iterator::reduce]. *)
Definition reduce {A} (f : A -> A -> A) (l : list A) : option A :=
  match l with
  | [] => None
  | x :: t => Some (fold_left f t x)
  end.

Lemma reduce_None {A} (f : A -> A -> A) l : reduce f l = None <-> l = [].
Proof. destruct l; simpl; naive_solver. Qed.

(** A property kept by [f] on either side holds of the reduced element. *)
Lemma fold_left_choice {A} (f : A -> A -> A) (Hf : forall x y, f x y = x \/ f x y = y) t x :
  fold_left f t x ∈ x :: t.
Proof.
  revert x. induction t as [|y t IH]; intros x; simpl; [set_solver|].
  specialize (IH (f x y)). destruct (Hf x y) as [E|E]; rewrite E in *; set_solver.
Qed.

Section comparator_ops.
Context {A : Type} (cmp : A -> A -> comparison).

Fixpoint sort_insert (x : A) (l : list A) : list A :=
  match l with
  | [] => [x]
  | y :: t => match cmp x y with Gt => y :: sort_insert x t | _ => x :: l end
  end.

Definition sort_by (l : list A) : list A := foldr sort_insert [] l.

(** [Iterator::max_by] keeps the later of two equal elements,
    [Iterator::min_by] the earlier. *)
Definition max_step (x y : A) : A := match cmp x y with Gt => x | _ => y end.
Definition min_step (x y : A) : A := match cmp x y with Gt => y | _ => x end.

Definition max_by (l : list A) : option A := reduce max_step l.
Definition min_by (l : list A) : option A := reduce min_step l.

Definition le_cmp (a b : A) : Prop := cmp a b <> Gt.

Lemma sort_insert_perm x l : sort_insert x l ≡ₚ x :: l.
Proof.
  induction l as [|y t IH]; simpl; [done|]. destruct (cmp x y); try done.
  rewrite IH. apply Permutation_swap.
Qed.

Lemma sort_by_perm l : sort_by l ≡ₚ l.
Proof. induction l as [|x l IH]; simpl; [done|]. by rewrite sort_insert_perm, IH. Qed.

Lemma sort_by_In l x : x ∈ sort_by l <-> x ∈ l.
Proof. by rewrite sort_by_perm. Qed.

Lemma length_sort_by l : length (sort_by l) = length l.
Proof. by rewrite sort_by_perm. Qed.

Lemma max_step_choice x y : max_step x y = x \/ max_step x y = y.
Proof. unfold max_step. destruct (cmp x y); auto. Qed.

Lemma min_step_choice x y : min_step x y = x \/ min_step x y = y.
Proof. unfold min_step. destruct (cmp x y); auto. Qed.

Lemma max_by_In l x : max_by l = Some x -> x ∈ l.
Proof.
  destruct l as [|y t]; simpl; [done|]. intros [= <-].
  apply fold_left_choice, max_step_choice.
Qed.

Lemma min_by_In l x : min_by l = Some x -> x ∈ l.
Proof.
  destruct l as [|y t]; simpl; [done|]. intros [= <-].
  apply fold_left_choice, min_step_choice.
Qed.

(** [max_by] with any comparator whose answers refine a preorder [R] picks an
    [R]-greatest element; the comparator itself need not be transitive. *)
Lemma max_by_refines (R : A -> A -> Prop) `{!PreOrder R} l x :
  (forall a b, a ∈ l -> b ∈ l -> cmp a b = Gt -> R b a) ->
  (forall a b, a ∈ l -> b ∈ l -> cmp a b <> Gt -> R a b) ->
  max_by l = Some x -> forall y, y ∈ l -> R y x.
Proof.
  destruct l as [|z t]; simpl; [done|]. intros Hgt Hle [= <-].
  revert z Hgt Hle. induction t as [|u t IH]; intros z Hgt Hle y Hy; simpl.
  - apply list_elem_of_singleton in Hy as ->. reflexivity.
  - assert (R z (max_step z u) /\ R u (max_step z u)) as [Hz Hu].
    { unfold max_step. destruct (cmp z u) eqn:E; split; try reflexivity.
      1,2: apply Hle; [set_solver..|congruence].
      apply Hgt; [set_solver..|congruence]. }
    assert (forall v, v ∈ max_step z u :: t -> v ∈ z :: u :: t) as Hsub.
    { intros v. destruct (max_step_choice z u) as [-> | ->]; set_solver. }
    assert (forall v, v ∈ max_step z u :: t -> R v (fold_left max_step t (max_step z u))) as IH'.
    { intros v. apply (IH (max_step z u)); eauto. }
    assert (R (max_step z u) (fold_left max_step t (max_step z u))) by (apply IH'; set_solver).
    apply elem_of_cons in Hy as [->|Hy]; [by etransitivity|].
    apply elem_of_cons in Hy as [->|Hy]; [by etransitivity|].
    apply IH'. set_solver.
Qed.

Context `{!TotalCmp cmp}.

#[local] Instance le_cmp_preorder : PreOrder le_cmp.
Proof.
  split.
  - intros a. unfold le_cmp. by rewrite cmp_refl.
  - intros a b c. apply cmp_le_trans.
Qed.

Lemma max_by_greatest l x : max_by l = Some x -> forall y, y ∈ l -> le_cmp y x.
Proof.
  apply (max_by_refines le_cmp); intros a b _ _ H; [|done].
  by apply cmp_total.
Qed.

Lemma min_by_least l x : min_by l = Some x -> forall y, y ∈ l -> le_cmp x y.
Proof.
  destruct l as [|z t]; simpl; [done|]. intros [= <-].
  revert z. induction t as [|u t IH]; intros z y Hy; simpl.
  - apply list_elem_of_singleton in Hy as ->. reflexivity.
  - assert (le_cmp (min_step z u) z /\ le_cmp (min_step z u) u) as [Hz Hu].
    { unfold min_step, le_cmp. destruct (cmp z u) eqn:E; rewrite ?cmp_refl, ?E; try done.
      split; [by apply cmp_total|done]. }
    assert (le_cmp (fold_left min_step t (min_step z u)) (min_step z u)) by (apply IH; set_solver).
    apply elem_of_cons in Hy as [->|Hy]; [by etransitivity|].
    apply elem_of_cons in Hy as [->|Hy]; [by etransitivity|].
    apply IH. set_solver.
Qed.

Lemma sort_insert_sorted x l : StronglySorted le_cmp l -> StronglySorted le_cmp (sort_insert x l).
Proof.
  induction 1 as [|y t Ht IH Hy]; simpl; [repeat constructor|].
  destruct (cmp x y) eqn:E.
  1,2: constructor; [by constructor|]; constructor; [unfold le_cmp; congruence|];
    eapply Forall_impl; [exact Hy|]; intros z Hz; unfold le_cmp in *;
    apply (cmp_le_trans x y z); congruence.
  constructor; [done|]. rewrite sort_insert_perm. constructor; [|done].
  by apply cmp_total.
Qed.

Lemma sort_by_sorted l : StronglySorted le_cmp (sort_by l).
Proof. induction l; simpl; [constructor|by apply sort_insert_sorted]. Qed.

(** Sorting an ordered slice leaves it as it is (stability). *)
Lemma sort_by_id l : StronglySorted le_cmp l -> sort_by l = l.
Proof.
  induction 1 as [|x l Hl IH Hx]; simpl; [done|]. rewrite IH.
  destruct Hx as [|y t Hxy]; simpl; [done|]. unfold le_cmp in Hxy. by destruct (cmp x y).
Qed.
End comparator_ops.

(** Only the answers on the elements matter. *)
Lemma sort_by_ext {A} (c1 c2 : A -> A -> comparison) l :
  (forall a b, a ∈ l -> b ∈ l -> c1 a b = c2 a b) -> sort_by c1 l = sort_by c2 l.
Proof.
  induction l as [|x l IH]; intros He; [done|]. cbn [sort_by foldr].
  assert (sort_by c1 l = sort_by c2 l) as E by (apply IH; set_solver).
  unfold sort_by in *. rewrite E. fold (sort_by c2 l).
  assert (forall y, y ∈ sort_by c2 l -> c1 x y = c2 x y) as Hx.
  { intros y Hy. rewrite sort_by_In in Hy. apply He; set_solver. }
  clear -Hx. induction (sort_by c2 l) as [|y t IH]; [done|]. cbn [sort_insert].
  rewrite Hx, IH by set_solver. done.
Qed.

(** [min_by_key] with an ordered key. *)
Definition min_by_key {A} (key : A -> Z) (l : list A) : option A :=
  min_by (fun a b => Z.compare (key a) (key b)) l.

Lemma StronglySorted_filter {A} (R : A -> A -> Prop) (P : A -> bool) l :
  StronglySorted R l -> StronglySorted R (List.filter P l).
Proof.
  induction 1 as [|x l Hl IH Hx]; simpl; [constructor|].
  destruct (P x); [|done]. constructor; [done|].
  apply List.Forall_forall. rewrite List.Forall_forall in Hx.
  intros y Hy. apply List.filter_In in Hy as [Hy _]. auto.
Qed.

Lemma elem_of_filter_bool {A} (P : A -> bool) l x :
  x ∈ List.filter P l <-> x ∈ l /\ P x = true.
Proof. rewrite !list_elem_of_In. apply List.filter_In. Qed.

Lemma existsb_elem {A} (P : A -> bool) l :
  existsb P l = true <-> exists x, x ∈ l /\ P x = true.
Proof. rewrite List.existsb_exists. by setoid_rewrite list_elem_of_In. Qed.

Lemma existsb_false {A} (P : A -> bool) l :
  existsb P l = false <-> forall x, x ∈ l -> P x = false.
Proof.
  rewrite <-Bool.not_true_iff_false, existsb_elem. split.
  - intros H x Hx. destruct (P x) eqn:E; [|done]. exfalso. eauto.
  - intros H (x & Hx & E). rewrite H in E; done.
Qed.

Lemma existsb_ext {A} (P Q : A -> bool) l : (forall x, P x = Q x) -> existsb P l = existsb Q l.
Proof. intros E. induction l as [|x l IH]; simpl; [done|]. by rewrite E, IH. Qed.

Lemma Forall2_elem_of_l {A B} (R : A -> B -> Prop) l k x : Forall2 R l k -> x ∈ l -> exists y, y ∈ k /\ R x y.
Proof. intros Hl [i Hi]%list_elem_of_lookup. destruct (Forall2_lookup_l _ _ _ _ _ Hl Hi) as (y & Hy & Hr). eauto using list_elem_of_lookup_2. Qed.

Lemma Forall2_elem_of_r {A B} (R : A -> B -> Prop) l k y : Forall2 R l k -> y ∈ k -> exists x, x ∈ l /\ R x y.
Proof. intros Hl [i Hi]%list_elem_of_lookup. destruct (Forall2_lookup_r _ _ _ _ _ Hl Hi) as (x & Hx & Hr). eauto using list_elem_of_lookup_2. Qed.

(** ** Strings: Rust's [str] ordering is the byte-wise lexicographic one *)

Definition str_cmp (a b : string) : comparison := String.compare a b.

Lemma str_cmp_eq a b : str_cmp a b = Eq <-> a = b.
Proof.
  split; [apply String.compare_eq_iff|]. intros ->. induction b as [|x b IH]; simpl; [done|].
  unfold str_cmp in *. simpl. unfold Ascii.compare. by rewrite N.compare_refl.
Qed.

#[export] Instance str_cmp_total : TotalCmp str_cmp.
Proof.
  split.
  - intros a b. apply String.compare_antisym.
  - unfold str_cmp. induction a as [|x a IH]; intros [|y b] [|z c]; simpl; try done.
    unfold Ascii.compare.
    destruct (N.compare_spec (Ascii.N_of_ascii x) (Ascii.N_of_ascii y));
    destruct (N.compare_spec (Ascii.N_of_ascii y) (Ascii.N_of_ascii z));
    destruct (N.compare_spec (Ascii.N_of_ascii x) (Ascii.N_of_ascii z)); try lia; eauto; done.
Qed.

(** ** Sorted lists without repetitions *)

(** [Vec::dedup] *)
Fixpoint dedup {A} `{EqDecision A} (l : list A) : list A :=
  match l with
  | [] => []
  | x :: t => match dedup t with
              | y :: u => if bool_decide (x = y) then y :: u else x :: y :: u
              | [] => [x]
              end
  end.

Lemma elem_of_dedup {A} `{EqDecision A} (x : A) l : x ∈ dedup l <-> x ∈ l.
Proof.
  induction l as [|y l IH]; simpl; [done|]. rewrite elem_of_cons, <-IH.
  destruct (dedup l) as [|z u]; [set_solver|]. case_bool_decide as E; [subst; set_solver|]. set_solver.
Qed.

(** Neighbouring duplicates of an ordered list are all its duplicates. *)
Lemma dedup_NoDup {A} `{EqDecision A} (cmp : A -> A -> comparison) l :
  StronglySorted (le_cmp cmp) l -> (forall p q, p ∈ l -> q ∈ l -> cmp p q <> Gt -> cmp q p <> Gt -> p = q) ->
  NoDup (dedup l) /\ StronglySorted (le_cmp cmp) (dedup l).
Proof.
  induction 1 as [|x l Hl IH Hx]; intros Hanti; [split; constructor|]. cbn [dedup].
  destruct IH as [Hnd Hs]; [set_solver|]. pose proof (fun y => elem_of_dedup y l) as Hin.
  destruct (dedup l) as [|y u] eqn:E.
  { split; [apply NoDup_singleton|]. constructor; [constructor|done]. }
  case_bool_decide as Exy; [done|]. rewrite Forall_forall in Hx. split.
  - apply NoDup_cons. split; [|done]. intros Hxin. apply Exy.
    assert (x ∈ l) as Hxl by (by apply Hin). assert (y ∈ l) as Hyl by (apply Hin; set_solver).
    apply Hanti; [set_solver..|by apply Hx|]. apply StronglySorted_inv in Hs as [_ Hs].
    apply elem_of_cons in Hxin as [->|Hxu]; [done|]. rewrite Forall_forall in Hs. by apply Hs.
  - constructor; [done|]. apply Forall_forall. intros z Hz. apply Hx, Hin, Hz.
Qed.

(** [sort] then [dedup]. *)
Definition sort_dedup (l : list string) : list string := dedup (sort_by str_cmp l).

Lemma sort_dedup_spec l :
  NoDup (sort_dedup l) /\ StronglySorted (le_cmp str_cmp) (sort_dedup l) /\ forall x, x ∈ sort_dedup l <-> x ∈ l.
Proof.
  unfold sort_dedup. destruct (dedup_NoDup str_cmp (sort_by str_cmp l)) as [Hn Hs].
  - by apply (sort_by_sorted str_cmp).
  - intros p q _ _ Hpq Hqp. rewrite cmp_opp in Hqp. apply str_cmp_eq. by destruct (str_cmp p q).
  - split_and!; [done..|]. intros x. by rewrite elem_of_dedup, sort_by_In.
Qed.

Lemma filter_sublist {A} (p : A -> bool) l : sublist (List.filter p l) l.
Proof. induction l as [|x l IH]; simpl; [constructor|]. destruct (p x); by constructor. Qed.
