(* ===== verification/Text.v ===== *)
(** * Text: the operations of [str] the components use

    A [str] is a [string] of bytes.  [strip_prefix], [split_once], [rsplit_once],
    [split], [contains], [trim] and ASCII case folding, with the lemmas that relate
    them to [++]. *)

From S2P Require Import Prelude.
From stdpp Require Import base list strings sets.
From Stdlib Require Import ZArith Lia Ascii.

Open Scope Z_scope.

(** ** [str] operations *)

Fixpoint strip_prefix (p s : string) : option string :=
  match p, s with
  | EmptyString, _ => Some s
  | String a p', String b s' => if Ascii.eqb a b then strip_prefix p' s' else None
  | _, EmptyString => None
  end.

Definition starts_with (p s : string) : bool :=
  match strip_prefix p s with Some _ => true | None => false end.

(** The text before and after the first, and the last, occurrence of a byte. *)
Fixpoint split_first (c : ascii) (s : string) : option (string * string) :=
  match s with
  | EmptyString => None
  | String d t =>
      if Ascii.eqb c d then Some (EmptyString, t)
      else match split_first c t with
           | Some (a, b) => Some (String d a, b)
           | None => None
           end
  end.

Fixpoint split_last (c : ascii) (s : string) : option (string * string) :=
  match s with
  | EmptyString => None
  | String d t =>
      match split_last c t with
      | Some (a, b) => Some (String d a, b)
      | None => if Ascii.eqb c d then Some (EmptyString, t) else None
      end
  end.


(** [str::contains(char)] and [strip_suffix(char)]. *)
Fixpoint has_char (c : ascii) (s : string) : bool :=
  match s with
  | EmptyString => false
  | String d t => Ascii.eqb c d || has_char c t
  end.

Fixpoint strip_suffix (c : ascii) (s : string) : option string :=
  match s with
  | EmptyString => None
  | String d EmptyString => if Ascii.eqb c d then Some EmptyString else None
  | String d t => String d <$> strip_suffix c t
  end.

(** [str::split(char)]: the pieces between the separators, one at least. *)
Fixpoint split_on (c : ascii) (s : string) : list string :=
  match s with
  | EmptyString => [EmptyString]
  | String d t =>
      if Ascii.eqb c d then EmptyString :: split_on c t
      else match split_on c t with
           | x :: l => String d x :: l
           | [] => [String d EmptyString]
           end
  end.

(** [to_ascii_lowercase], [eq_ignore_ascii_case]. *)
Definition ascii_lower (c : ascii) : ascii :=
  let n := Z.of_N (N_of_ascii c) in
  if (65 <=? n) && (n <=? 90) then ascii_of_N (Z.to_N (n + 32)) else c.

Fixpoint to_ascii_lowercase (s : string) : string :=
  match s with
  | EmptyString => EmptyString
  | String c t => String (ascii_lower c) (to_ascii_lowercase t)
  end.

Definition eq_ignore_ascii_case (a b : string) : bool :=
  bool_decide (to_ascii_lowercase a = to_ascii_lowercase b).

(** [str::contains(&str)]. *)
Fixpoint has_text (p s : string) : bool :=
  starts_with p s || match s with EmptyString => false | String _ t => has_text p t end.

(** ** Lemmas *)

Lemma str_app_cons a p t : (String a p ++ t)%string = String a (p ++ t).
Proof. reflexivity. Qed.

Lemma str_app_nil t : ("" ++ t)%string = t.
Proof. reflexivity. Qed.

Lemma strip_prefix_Some p s t : strip_prefix p s = Some t <-> s = (p ++ t)%string.
Proof.
  revert s. induction p as [|a p IH]; intros s.
  - rewrite str_app_nil. split; [by intros [= ->]|by intros ->].
  - destruct s as [|b s]; cbn; [by split|].
    destruct (Ascii.eqb_spec a b) as [->|Hne]; rewrite str_app_cons; [rewrite IH|]; split; congruence.
Qed.

Lemma strip_prefix_app p s : strip_prefix p (p ++ s) = Some s.
Proof. by apply strip_prefix_Some. Qed.

Lemma starts_with_app p s : starts_with p (p ++ s) = true.
Proof. unfold starts_with. by rewrite strip_prefix_app. Qed.

Lemma starts_with_spec p s : starts_with p s = true <-> exists t, s = (p ++ t)%string.
Proof.
  unfold starts_with. destruct (strip_prefix p s) as [t|] eqn:E.
  - apply strip_prefix_Some in E. naive_solver.
  - split; [done|]. intros [t Ht%strip_prefix_Some]. congruence.
Qed.

Lemma split_first_app c a b : has_char c a = false -> split_first c (a ++ String c b) = Some (a, b).
Proof.
  induction a as [|d a IH]; [rewrite str_app_nil; cbn; by rewrite Ascii.eqb_refl|]. rewrite str_app_cons. cbn.
  intros [-> Ha]%orb_false_iff. by rewrite IH.
Qed.

Lemma split_first_None c s : has_char c s = false -> split_first c s = None.
Proof. induction s as [|d s IH]; cbn; [done|]. intros [-> Hs]%orb_false_iff. by rewrite IH. Qed.

Lemma has_char_app c a b : has_char c (a ++ b) = has_char c a || has_char c b.
Proof. induction a as [|d a IH]; [done|]. rewrite str_app_cons. cbn. by rewrite IH, orb_assoc. Qed.

Lemma split_on_none c s : has_char c s = false -> split_on c s = [s].
Proof. induction s as [|d s IH]; cbn; [done|]. intros [-> Hs]%orb_false_iff. by rewrite IH. Qed.

Lemma split_on_app c a b : has_char c a = false -> split_on c (a ++ String c b) = a :: split_on c b.
Proof.
  induction a as [|d a IH]; [rewrite str_app_nil; cbn; by rewrite Ascii.eqb_refl|]. rewrite str_app_cons. cbn.
  intros [-> Ha]%orb_false_iff. by rewrite IH.
Qed.

Lemma split_on_pieces c s x : x ∈ split_on c s -> has_char c x = false.
Proof.
  revert x. induction s as [|d s IH]; intros x; cbn.
  - by intros ->%list_elem_of_singleton.
  - destruct (Ascii.eqb_spec c d) as [->|Hne].
    + rewrite elem_of_cons. intros [->|Hx]; [done|auto].
    + destruct (split_on c s) as [|y l] eqn:E.
      * intros ->%list_elem_of_singleton. cbn. apply Ascii.eqb_neq in Hne. by rewrite Hne.
      * rewrite elem_of_cons. intros [->|Hx]; [|apply IH; set_solver].
        cbn. apply Ascii.eqb_neq in Hne. rewrite Hne. apply IH. set_solver.
Qed.

#[global] Arguments has_char : simpl never.
#[global] Arguments split_on : simpl never.
#[global] Arguments strip_suffix : simpl never.
#[global] Arguments to_ascii_lowercase : simpl never.
#[global] Arguments has_text : simpl never.
#[global] Arguments strip_prefix : simpl never.
#[global] Arguments starts_with : simpl never.
#[global] Arguments split_first : simpl never.
#[global] Arguments split_last : simpl never.
