(* ===== verification/Bytes.v ===== *)
(** * Bytes: big-endian codecs and slices

    A [u8] is a [Z] in [[0,256)]; a [Vec<u8>] or [&[u8]] is a [list Z]; a
    [[u8; n]] is such a list of length [n].  [uN::from_be_bytes] and
    [uN::to_be_bytes] are written for any number of bytes, with the two round
    trips the wire formats rely on. *)

From S2P Require Import Prelude.
From stdpp Require Import base list.
From Stdlib Require Import ZArith Lia.

Open Scope Z_scope.

Definition byte_ok (b : Z) : Prop := 0 <= b < 256.
Definition bytes_ok (l : list Z) : Prop := Forall byte_ok l.

#[export] Instance byte_ok_dec b : Decision (byte_ok b).
Proof. unfold byte_ok. apply _. Defined.
#[export] Instance bytes_ok_dec l : Decision (bytes_ok l).
Proof. unfold bytes_ok. apply _. Defined.

Fixpoint be_combine (acc : Z) (l : list Z) : Z :=
  match l with
  | [] => acc
  | b :: t => be_combine (acc * 256 + b) t
  end.

Definition from_be_bytes (l : list Z) : Z := be_combine 0 l.

Fixpoint to_be_bytes (n : nat) (v : Z) : list Z :=
  match n with
  | O => []
  | S k => (v / 256 ^ Z.of_nat k) `mod` 256 :: to_be_bytes k v
  end.

(** [&data[a..b]] where the bounds are known to hold. *)
Definition slice (a b : nat) (l : list Z) : list Z := take (b - a) (drop a l).

(** Lengths as the source's [usize]. *)
Definition len {A} (l : list A) : Z := Z.of_nat (length l).

Lemma len_nonneg {A} (l : list A) : 0 <= len l.
Proof. unfold len. lia. Qed.

Lemma len_app {A} (l k : list A) : len (l ++ k) = len l + len k.
Proof. unfold len. rewrite length_app. lia. Qed.

Lemma length_to_be_bytes n v : length (to_be_bytes n v) = n.
Proof. induction n; simpl; congruence. Qed.

Lemma to_be_bytes_ok n v : bytes_ok (to_be_bytes n v).
Proof.
  induction n as [|n IH]; simpl; constructor; [|done].
  apply Z.mod_pos_bound. lia.
Qed.

Lemma be_combine_acc acc l : be_combine acc l = acc * 256 ^ len l + be_combine 0 l.
Proof.
  revert acc. induction l as [|b t IH]; intros acc; simpl; [unfold len; simpl; lia|].
  rewrite IH, (IH (0 * 256 + b)). unfold len. simpl length.
  rewrite Nat2Z.inj_succ, Z.pow_succ_r by lia. lia.
Qed.

Lemma from_be_bytes_cons b t : from_be_bytes (b :: t) = b * 256 ^ len t + from_be_bytes t.
Proof. unfold from_be_bytes. simpl. by rewrite be_combine_acc. Qed.

Lemma from_be_bytes_range l : bytes_ok l -> 0 <= from_be_bytes l < 256 ^ len l.
Proof.
  induction 1 as [|b t Hb _ IH]; [done|].
  rewrite from_be_bytes_cons. unfold byte_ok in Hb.
  unfold len in *. simpl length. rewrite Nat2Z.inj_succ, Z.pow_succ_r by lia. nia.
Qed.

Lemma from_to_be_bytes n v : 0 <= v < 256 ^ Z.of_nat n -> from_be_bytes (to_be_bytes n v) = v.
Proof.
  assert (forall k w, 0 <= w -> from_be_bytes (to_be_bytes k w) = w `mod` 256 ^ Z.of_nat k) as H.
  { induction k as [|k IH]; intros w Hw; [simpl; by rewrite Z.mod_1_r|].
    simpl to_be_bytes. rewrite from_be_bytes_cons, IH by done.
    unfold len. rewrite length_to_be_bytes, Nat2Z.inj_succ, Z.pow_succ_r by lia.
    rewrite (Z.mul_comm 256).
    rewrite Z.rem_mul_r by (try apply Z.pow_nonzero; lia). lia. }
  intros Hv. rewrite H by lia. apply Z.mod_small. lia.
Qed.

Lemma to_be_bytes_app_high n k v b :
  0 <= v < 256 ^ Z.of_nat n -> (k <= n)%nat -> to_be_bytes k (b * 256 ^ Z.of_nat n + v) = to_be_bytes k v.
Proof.
  intros Hv. induction k as [|k IH]; intros Hk; simpl; [done|]. f_equal; [|apply IH; lia].
  replace (Z.of_nat n) with (Z.of_nat (n - S k) + 1 + Z.of_nat k) by lia.
  rewrite !Z.pow_add_r, Z.mul_assoc, Z.div_add_l by (try apply Z.pow_nonzero; lia).
  rewrite Z.mul_assoc. change (256 ^ 1) with 256.
  rewrite (Z.add_comm (_ * 256)), Z.mod_add by lia. done.
Qed.

Lemma to_from_be_bytes l : bytes_ok l -> to_be_bytes (length l) (from_be_bytes l) = l.
Proof.
  induction 1 as [|b t Hb Ht IH]; [done|]. simpl length. simpl to_be_bytes.
  rewrite from_be_bytes_cons. pose proof (from_be_bytes_range t Ht) as Hr. unfold len in *.
  f_equal.
  - rewrite Z.div_add_l, Z.div_small, Z.add_0_r by lia. by apply Z.mod_small.
  - rewrite to_be_bytes_app_high by lia. done.
Qed.

Lemma bytes_ok_app l k : bytes_ok (l ++ k) <-> bytes_ok l /\ bytes_ok k.
Proof. apply Forall_app. Qed.

Lemma bytes_ok_take n l : bytes_ok l -> bytes_ok (take n l).
Proof. apply Forall_take. Qed.

Lemma bytes_ok_drop n l : bytes_ok l -> bytes_ok (drop n l).
Proof. apply Forall_drop. Qed.

Lemma bytes_ok_singleton b : byte_ok b -> bytes_ok [b].
Proof. intros H. by constructor. Qed.

Lemma bytes_ok_concat (chunks : list (list Z)) : bytes_ok (concat chunks) -> Forall bytes_ok chunks.
Proof.
  induction chunks as [|c cs IH]; simpl; [by constructor|]. intros [? ?]%bytes_ok_app. constructor; auto.
Qed.

(** Indexing, with zero past the end (an index the source has checked, or
    [safe_get]). *)
Definition byte_at (l : list Z) (i : nat) : Z := nth i l 0.

Lemma byte_at_ok l i : bytes_ok l -> byte_ok (byte_at l i).
Proof.
  intros Hl. unfold byte_at. destruct (decide (i < length l)%nat) as [Hi|Hi].
  - eapply Forall_forall; [exact Hl|]. apply list_elem_of_In, nth_In. lia.
  - rewrite nth_overflow by lia. unfold byte_ok. lia.
Qed.

(** The widths of the wire formats. *)
Lemma in_u_bytes w n v : 2 ^ w = 256 ^ Z.of_nat n -> in_u w v -> 0 <= v < 256 ^ Z.of_nat n.
Proof. unfold in_u, u_max. intros ->. lia. Qed.

Lemma from_be_bytes_in_u w n l :
  2 ^ w = 256 ^ Z.of_nat n -> bytes_ok l -> length l = n -> in_u w (from_be_bytes l).
Proof.
  intros Hw Hb Hl. pose proof (from_be_bytes_range l Hb) as Hr. unfold len in Hr. rewrite Hl, <-Hw in Hr.
  unfold in_u, u_max. lia.
Qed.

Lemma from_be_bytes_u16 l : bytes_ok l -> length l = 2%nat -> in_u 16 (from_be_bytes l).
Proof. by apply from_be_bytes_in_u. Qed.

Lemma from_be_bytes_u32 l : bytes_ok l -> length l = 4%nat -> in_u 32 (from_be_bytes l).
Proof. by apply from_be_bytes_in_u. Qed.

Lemma from_to_be_bytes_u w n v : 2 ^ w = 256 ^ Z.of_nat n -> in_u w v -> from_be_bytes (to_be_bytes n v) = v.
Proof. intros Hw Hv. by apply from_to_be_bytes, (in_u_bytes w). Qed.

Create HintDb bytes.
#[export] Hint Resolve to_be_bytes_ok bytes_ok_take bytes_ok_drop : bytes.
#[export] Hint Rewrite length_to_be_bytes @length_app @length_take @length_drop : bytes.

(** ** Bit-wise operations on bytes *)

Definition xor_bytes (l k : list Z) : list Z := zip_with Z.lxor l k.

Lemma lxor_range w a b : 0 <= w -> 0 <= a < 2 ^ w -> 0 <= b < 2 ^ w -> 0 <= Z.lxor a b < 2 ^ w.
Proof.
  intros Hw Ha Hb.
  assert (0 <= Z.lxor a b) by (apply Z.lxor_nonneg; lia).
  split; [done|].
  destruct (Z.eq_dec (Z.lxor a b) 0) as [E|E].
  { rewrite E. apply Z.pow_pos_nonneg; lia. }
  apply Z.log2_lt_pow2; [lia|].
  assert (forall x, 0 <= x < 2 ^ w -> x = 0 \/ Z.log2 x < w) as Hlog.
  { intros x Hx. destruct (Z.eq_dec x 0); [by left|right]. apply Z.log2_lt_pow2; lia. }
  pose proof (Z.log2_lxor a b ltac:(lia) ltac:(lia)) as Hl.
  destruct (Hlog a Ha) as [->|Ha'], (Hlog b Hb) as [->|Hb'].
  - rewrite Z.lxor_nilpotent in E. done.
  - rewrite Z.lxor_0_l. done.
  - rewrite Z.lxor_0_r. done.
  - lia.
Qed.

Lemma lxor_cancel a b : Z.lxor (Z.lxor a b) b = a.
Proof. by rewrite Z.lxor_assoc, Z.lxor_nilpotent, Z.lxor_0_r. Qed.

Lemma xor_bytes_cancel l k : length l = length k -> xor_bytes (xor_bytes l k) k = l.
Proof.
  revert k. induction l as [|a l IH]; intros [|b k]; simpl; try done.
  intros [= H]. f_equal; [apply lxor_cancel | by apply IH].
Qed.

Lemma xor_bytes_ok l k : bytes_ok l -> bytes_ok k -> bytes_ok (xor_bytes l k).
Proof.
  intros Hl. revert k. induction Hl as [|a l Ha Hl IH]; intros [|b k] Hk; try constructor.
  - inversion_clear Hk as [|? ? Hb]. apply (lxor_range 8); [lia | exact Ha | exact Hb].
  - apply IH. by inversion Hk.
Qed.

Lemma length_xor_bytes l k : length l = length k -> length (xor_bytes l k) = length l.
Proof. intros H. unfold xor_bytes. rewrite length_zip_with. lia. Qed.

#[global] Arguments to_be_bytes : simpl never.
#[global] Arguments from_be_bytes : simpl never.
