(* ===== verification/Utf8.v ===== *)
(** * Utf8: well-formed UTF-8 and [String::from_utf8_lossy]

    A Rust [String] is the list of its UTF-8 bytes. *)

From stdpp Require Import base list.
From Stdlib Require Import ZArith Lia.
From S2P Require Import Prelude Bytes.

Open Scope Z_scope.

(** ** Decoding, as [core::str] does it *)

(** How many bytes the first character takes, and whether it is well formed: an
    ill-formed start counts the bytes [Utf8Chunks] skips for one replacement. *)
Definition is_cont (b : Z) : bool := Z.land b 192 =? 128.

Definition second3_ok (b0 b1 : Z) : bool :=
  ((b0 =? 224) && (160 <=? b1) && (b1 <=? 191))
  || ((225 <=? b0) && (b0 <=? 236) && (128 <=? b1) && (b1 <=? 191))
  || ((b0 =? 237) && (128 <=? b1) && (b1 <=? 159))
  || ((238 <=? b0) && (b0 <=? 239) && (128 <=? b1) && (b1 <=? 191)).

Definition second4_ok (b0 b1 : Z) : bool :=
  ((b0 =? 240) && (144 <=? b1) && (b1 <=? 191))
  || ((241 <=? b0) && (b0 <=? 243) && (128 <=? b1) && (b1 <=? 191))
  || ((b0 =? 244) && (128 <=? b1) && (b1 <=? 143)).

Definition utf8_step (l : list Z) : nat * bool :=
  let b0 := byte_at l 0 in
  let b1 := byte_at l 1 in
  if b0 <? 128 then (1%nat, true)
  else if (194 <=? b0) && (b0 <=? 223) then
    if is_cont b1 then (2%nat, true) else (1%nat, false)
  else if (224 <=? b0) && (b0 <=? 239) then
    if negb (second3_ok b0 b1) then (1%nat, false)
    else if is_cont (byte_at l 2) then (3%nat, true) else (2%nat, false)
  else if (240 <=? b0) && (b0 <=? 244) then
    if negb (second4_ok b0 b1) then (1%nat, false)
    else if negb (is_cont (byte_at l 2)) then (2%nat, false)
    else if is_cont (byte_at l 3) then (4%nat, true) else (3%nat, false)
  else (1%nat, false).

(** U+FFFD *)
Definition replacement : list Z := [239; 191; 189].

Fixpoint lossy_from (fuel : nat) (l : list Z) : list Z :=
  match fuel, l with
  | O, _ | _, [] => []
  | S f, _ =>
      let '(n, valid) := utf8_step l in
      (if valid then take n l else replacement) ++ lossy_from f (drop n l)
  end.

Definition from_utf8_lossy (l : list Z) : list Z := lossy_from (length l) l.

(** Well-formed UTF-8: what a Rust [String] holds. *)
Inductive utf8 : list Z -> Prop :=
| utf8_nil : utf8 []
| utf8_char l n : l <> [] -> utf8_step l = (n, true) -> utf8 (drop n l) -> utf8 l.

(** [str::from_utf8] succeeds. *)
Fixpoint utf8_check (fuel : nat) (l : list Z) : bool :=
  match fuel, l with
  | _, [] => true
  | O, _ => false
  | S f, _ => let '(n, valid) := utf8_step l in valid && utf8_check f (drop n l)
  end.

Definition utf8_valid (l : list Z) : bool := utf8_check (length l) l.

(** ** Lemmas *)

Lemma utf8_step_pos l : (1 <= (utf8_step l).1)%nat.
Proof. unfold utf8_step. repeat case_match; simpl; lia. Qed.

Lemma utf8_step_valid_prefix l n r :
  l <> [] -> utf8_step l = (n, true) -> (n <= length l)%nat /\ utf8_step (take n l ++ r) = (n, true).
Proof.
  intros Hl. destruct l as [|a [|b [|c [|d l]]]]; [done|..]; unfold utf8_step, byte_at; simpl nth;
    repeat case_match; intros [= <-]; simpl; try (split; [lia|]); try done;
    repeat match goal with E : ?b = _ |- context [?b] => rewrite E end; try done.
  all: exfalso; unfold second3_ok, second4_ok, is_cont in *; simpl in *; lia.
Qed.

Lemma lossy_from_valid fuel l : (length l <= fuel)%nat -> utf8 l -> lossy_from fuel l = l.
Proof.
  intros Hf Hu. revert fuel Hf. induction Hu as [|l n Hl Hs _ IH]; intros fuel Hf; [by destruct fuel|].
  destruct fuel as [|fuel]; [destruct l; [done|simpl in Hf; lia]|].
  pose proof (utf8_step_pos l) as Hpos. rewrite Hs in Hpos. simpl in Hpos.
  destruct l as [|b l]; [done|]. simpl lossy_from. rewrite Hs, IH; [by rewrite take_drop|].
  rewrite length_drop. simpl in *. lia.
Qed.

Lemma from_utf8_lossy_valid l : utf8 l -> from_utf8_lossy l = l.
Proof. intros Hu. by apply lossy_from_valid. Qed.

Lemma lossy_from_utf8 fuel l : utf8 (lossy_from fuel l).
Proof.
  revert l. induction fuel as [|fuel IH]; intros l; [constructor|].
  destruct l as [|b l]; [constructor|]. simpl lossy_from.
  destruct (utf8_step (b :: l)) as [n valid] eqn:Es. destruct valid.
  - destruct (utf8_step_valid_prefix (b :: l) n (lossy_from fuel (drop n (b :: l)))) as [Hn Hp]; [done..|].
    pose proof (utf8_step_pos (b :: l)) as Hpos. rewrite Es in Hpos. simpl in Hpos.
    eapply utf8_char; [|exact Hp|].
    + destruct n; [lia|done].
    + rewrite drop_app_length'; [apply IH|]. rewrite length_take. lia.
  - apply (utf8_char _ 3); [done|done|]. apply IH.
Qed.

Lemma lossy_from_bytes fuel l : bytes_ok l -> bytes_ok (lossy_from fuel l).
Proof.
  revert l. induction fuel as [|fuel IH]; intros l Hl; [constructor|].
  destruct l as [|b l]; [constructor|]. simpl lossy_from.
  destruct (utf8_step (b :: l)) as [n []]; apply bytes_ok_app; split; auto with bytes.
  unfold replacement, bytes_ok, byte_ok. repeat constructor; lia.
Qed.

Lemma lossy_from_length fuel l : (length (lossy_from fuel l) <= 3 * length l)%nat.
Proof.
  revert l. induction fuel as [|fuel IH]; intros l; [simpl; lia|].
  destruct l as [|b l]; [simpl; lia|]. simpl lossy_from.
  pose proof (utf8_step_pos (b :: l)) as Hpos.
  destruct (utf8_step (b :: l)) as [n valid]. simpl in Hpos.
  pose proof (IH (drop n (b :: l))) as IHn. rewrite length_drop in IHn.
  rewrite length_app. destruct valid; [rewrite length_take|simpl length at 1]; simpl length in *; lia.
Qed.

Lemma utf8_check_spec fuel : forall l, (length l <= fuel)%nat -> utf8_check fuel l = true <-> utf8 l.
Proof.
  induction fuel as [|fuel IH]; intros [|b l] Hf; try (cbn in Hf; lia); try (by split; [constructor|]).
  cbn [utf8_check]. pose proof (utf8_step_pos (b :: l)) as Hpos. destruct (utf8_step (b :: l)) as [n valid] eqn:Es. cbn in Hpos. rewrite andb_true_iff, IH by (rewrite length_drop; cbn in *; lia). split.
  - intros [-> Hu]. by apply (utf8_char _ n).
  - intros Hu. inversion Hu as [|? m _ Hs Hd]; subst. rewrite Es in Hs. injection Hs as -> ->. done.
Qed.

Lemma utf8_valid_spec l : utf8_valid l = true <-> utf8 l.
Proof. by apply utf8_check_spec. Qed.
