(* ===== verification/Net.v ===== *)
(** * Net: addresses and the [ipnet] interface

    [std::net]'s [IpAddr] and [SocketAddr] with their parser and printer, and
    the interface [IpNetLib] of the third-party crate [ipnet], whose [IpNet]
    the routing table, the ACL evaluator and the mesh allocator use.  The crate
    is not part of the repository: the components are written against the
    class, their theorems against its documented laws [IpNetLaws], and
    [PrefixNet] is an instance that the examples compute with. *)

From S2P Require Import Prelude Bytes.
From stdpp Require Import base list gmap strings.
From Stdlib Require Import ZArith Lia Ascii.

Open Scope Z_scope.

(** ** [std::net::IpAddr]

    An [Ipv4Addr] is the [u32] and an [Ipv6Addr] the [u128] it converts to. *)

Inductive IpAddr := V4 (a : Z) | V6 (a : Z).

#[export] Instance IpAddr_eq_dec : EqDecision IpAddr.
Proof. solve_decision. Defined.

#[export] Instance IpAddr_countable : Countable IpAddr.
Proof.
  refine (inj_countable' (fun ip => match ip with V4 a => inl a | V6 a => inr a end)
                         (fun s => match s with inl a => V4 a | inr a => V6 a end) _).
  by intros [].
Defined.

Definition is_v4 (ip : IpAddr) : bool := match ip with V4 _ => true | V6 _ => false end.
Definition ip_width (ip : IpAddr) : Z := match ip with V4 _ => 32 | V6 _ => 128 end.
Definition ip_value (ip : IpAddr) : Z := match ip with V4 a | V6 a => a end.
Definition ip_ok (ip : IpAddr) : Prop := 0 <= ip_value ip < 2 ^ ip_width ip.

(** [Ipv4Addr::new(a, b, c, d)], [Ipv6Addr::from([u8; 16])], [octets], [segments]. *)
Definition ipv4_of_bytes (l : list Z) : IpAddr := V4 (from_be_bytes l).
Definition ipv6_of_bytes (l : list Z) : IpAddr := V6 (from_be_bytes l).
Definition octets (ip : IpAddr) : list Z :=
  match ip with V4 a => to_be_bytes 4 a | V6 a => to_be_bytes 16 a end.
Definition segment (a : Z) (i : Z) : Z := (a / 65536 ^ (7 - i)) `mod` 65536.
Definition segments (a : Z) : list Z := map (segment a) [0; 1; 2; 3; 4; 5; 6; 7].

(** A [SocketAddr] built by [SocketAddr::new] (flow label and scope id 0). *)
Record SocketAddr := mkSocketAddr { sa_ip : IpAddr; sa_port : Z }.

#[export] Instance SocketAddr_eq_dec : EqDecision SocketAddr.
Proof. solve_decision. Defined.

Definition sa_ok (a : SocketAddr) : Prop := ip_ok (sa_ip a) /\ in_u 16 (sa_port a).

Lemma ipv4_of_octets a : ip_ok (V4 a) -> ipv4_of_bytes (octets (V4 a)) = V4 a.
Proof. intros H. unfold ipv4_of_bytes. simpl octets. by rewrite from_to_be_bytes. Qed.

Lemma ipv6_of_octets a : ip_ok (V6 a) -> ipv6_of_bytes (octets (V6 a)) = V6 a.
Proof. intros H. unfold ipv6_of_bytes. simpl octets. by rewrite from_to_be_bytes. Qed.

Lemma ipv4_of_bytes_ok l : bytes_ok l -> length l = 4%nat -> ip_ok (ipv4_of_bytes l).
Proof.
  intros Hl Hn. unfold ip_ok, ipv4_of_bytes. simpl.
  pose proof (from_be_bytes_range l Hl) as H. unfold len in H. rewrite Hn in H. done.
Qed.

Lemma ipv6_of_bytes_ok l : bytes_ok l -> length l = 16%nat -> ip_ok (ipv6_of_bytes l).
Proof.
  intros Hl Hn. unfold ip_ok, ipv6_of_bytes. simpl.
  pose proof (from_be_bytes_range l Hl) as H. unfold len in H. rewrite Hn in H. done.
Qed.

(** ** [IpAddr::from_str] and [u16::from_str]

    The parser of [core::net]: numbers of at most three decimal or four
    hexadecimal digits, no leading zero in an IPv4 octet, one [::] in an IPv6
    address, an IPv4 tail allowed.  A parser takes the rest of the input and
    returns the value read with what is left. *)

Definition chars := list ascii.

Definition chr (c : ascii) : Z := Z.of_N (N_of_ascii c).

(** [char::to_digit]. *)
Definition to_digit (radix : Z) (c : ascii) : option Z :=
  let n := chr c in
  let v := if (48 <=? n) && (n <=? 57) then n - 48
           else if (97 <=? n) && (n <=? 122) then n - 87
           else if (65 <=? n) && (n <=? 90) then n - 55
           else radix in
  if v <? radix then Some v else None.

Fixpoint read_digits (radix : Z) (max_digits : nat) (acc : Z) (count : nat) (s : chars)
  : option (Z * nat * chars) :=
  match s with
  | [] => Some (acc, count, [])
  | c :: t =>
      match to_digit radix c with
      | None => Some (acc, count, s)
      | Some d => if (S count <=? max_digits)%nat
                  then read_digits radix max_digits (acc * radix + d) (S count) t
                  else None
      end
  end.

Definition read_number (radix : Z) (max_digits : nat) (allow_zero_prefix : bool) (limit : Z)
    (s : chars) : option (Z * chars) :=
  let has_leading_zero := match s with c :: _ => chr c =? 48 | [] => false end in
  match read_digits radix max_digits 0 0 s with
  | None => None
  | Some (v, count, rest) =>
      if (count =? 0)%nat then None
      else if negb allow_zero_prefix && has_leading_zero && (1 <? count)%nat then None
      else if v <=? limit then Some (v, rest) else None
  end.

Definition read_given_char (c : ascii) (s : chars) : option chars :=
  match s with
  | d :: t => if Ascii.eqb c d then Some t else None
  | [] => None
  end.

Definition read_separator {A} (sep : ascii) (i : nat) (inner : chars -> option (A * chars))
    (s : chars) : option (A * chars) :=
  match i with
  | O => inner s
  | S _ => match read_given_char sep s with Some t => inner t | None => None end
  end.

Fixpoint read_octets (k i : nat) (acc : list Z) (s : chars) : option (list Z * chars) :=
  match k with
  | O => Some (acc, s)
  | S k' =>
      match read_separator "."%char i (read_number 10 3 false 255) s with
      | Some (o, rest) => read_octets k' (S i) (acc ++ [o]) rest
      | None => None
      end
  end.

Definition read_ipv4_addr (s : chars) : option (Z * chars) :=
  match read_octets 4 0 [] s with
  | Some (l, rest) => Some (from_be_bytes l, rest)
  | None => None
  end.

(** [read_groups]: the groups read and whether they end in an embedded IPv4
    address; [k] is the room left. *)
Fixpoint read_groups (k i : nat) (acc : list Z) (s : chars) : list Z * bool * chars :=
  match k with
  | O => (acc, false, s)
  | S k' =>
      let ipv4 := if (1 <? k)%nat then read_separator ":"%char i read_ipv4_addr s else None in
      match ipv4 with
      | Some (a, rest) => (acc ++ [a / 65536; a `mod` 65536], true, rest)
      | None =>
          match read_separator ":"%char i (read_number 16 4 true 65535) s with
          | Some (g, rest) => read_groups k' (S i) (acc ++ [g]) rest
          | None => (acc, false, s)
          end
      end
  end.

Definition of_segments (l : list Z) : Z := fold_left (fun acc g => acc * 65536 + g) l 0.

Definition read_ipv6_addr (s : chars) : option (Z * chars) :=
  let '(head, head_ipv4, s1) := read_groups 8 0 [] s in
  if (length head =? 8)%nat then Some (of_segments head, s1)
  else if head_ipv4 then None
  else match read_given_char ":"%char s1 with
       | None => None
       | Some s2 =>
           match read_given_char ":"%char s2 with
           | None => None
           | Some s3 =>
               let '(tail, _, s4) := read_groups (8 - (length head + 1)) 0 [] s3 in
               let zeros := replicate (8 - length head - length tail) 0 in
               Some (of_segments (head ++ zeros ++ tail), s4)
           end
       end.

Definition parse_ip (s : string) : option IpAddr :=
  let r := match read_ipv4_addr (String.list_ascii_of_string s) with
           | Some (a, rest) => Some (V4 a, rest)
           | None => match read_ipv6_addr (String.list_ascii_of_string s) with
                     | Some (a, rest) => Some (V6 a, rest)
                     | None => None
                     end
           end in
  match r with
  | Some (ip, []) => Some ip
  | _ => None
  end.

Fixpoint parse_digits (limit acc : Z) (s : chars) : option Z :=
  match s with
  | [] => Some acc
  | c :: t => match to_digit 10 c with
              | None => None
              | Some d => if acc * 10 + d <=? limit then parse_digits limit (acc * 10 + d) t else None
              end
  end.

(** [str::parse::<uN>]: an optional leading [+], then at least one digit. *)
Definition parse_uint (limit : Z) (s : string) : option Z :=
  match String.list_ascii_of_string s with
  | [] => None
  | c :: t =>
      if Ascii.eqb c "+"%char
      then match t with [] => None | _ => parse_digits limit 0 t end
      else parse_digits limit 0 (c :: t)
  end.

Definition parse_u16 (s : string) : option Z := parse_uint 65535 s.

#[global] Arguments parse_ip : simpl never.
#[global] Arguments parse_uint : simpl never.
#[global] Arguments parse_u16 : simpl never.

(** ** [Display for IpAddr] *)

Definition digit_char (d : Z) : ascii :=
  ascii_of_N (Z.to_N (if d <? 10 then 48 + d else 87 + d)).

Fixpoint show_radix (fuel : nat) (radix n : Z) (acc : chars) : chars :=
  match fuel with
  | O => acc
  | S f =>
      let acc' := digit_char (n `mod` radix) :: acc in
      if n / radix =? 0 then acc' else show_radix f radix (n / radix) acc'
  end.

(** Enough fuel for any integer of at most 64 bits. *)
Definition show_dec (n : Z) : string := String.string_of_list_ascii (show_radix 64 10 n []).
Definition show_hex (n : Z) : string := String.string_of_list_ascii (show_radix 64 16 n []).

Definition show_ipv4 (a : Z) : string := String.concat "." (map show_dec (to_be_bytes 4 a)).

(** The first longest run of zero segments, as (start, length). *)
Fixpoint zero_run (l : list Z) (i : nat) (cur best : nat * nat) : nat * nat :=
  match l with
  | [] => best
  | g :: t =>
      if g =? 0 then
        let cur' := if (snd cur =? 0)%nat then (i, 1%nat) else (fst cur, S (snd cur)) in
        zero_run t (S i) cur' (if (snd best <? snd cur')%nat then cur' else best)
      else zero_run t (S i) (0%nat, 0%nat) best
  end.

Definition show_ipv6 (a : Z) : string :=
  if a / 2 ^ 32 =? 0xffff then ("::ffff:" ++ show_ipv4 (a `mod` 2 ^ 32))%string
  else
    let l := segments a in
    let '(start, n) := zero_run l 0 (0%nat, 0%nat) (0%nat, 0%nat) in
    if (1 <? n)%nat
    then (String.concat ":" (map show_hex (take start l)) ++ "::"
          ++ String.concat ":" (map show_hex (drop (start + n) l)))%string
    else String.concat ":" (map show_hex l).

Definition show_ip (ip : IpAddr) : string :=
  match ip with V4 a => show_ipv4 a | V6 a => show_ipv6 a end.

#[global] Arguments show_ip : simpl never.

(** ** The [ipnet] crate *)

(** What the source uses of [ipnet::IpNet].  The variant [IpNet::V4]/[V6] is the
    family of [net_addr]; [net_new] is [Ipv4Net::new]/[Ipv6Net::new]; [net_parse]
    and [net_show] are its [FromStr] and [Display]. *)
Class IpNetLib := {
  IpNet : Type;
  IpNet_eq_dec :: EqDecision IpNet;
  IpNet_countable :: Countable IpNet;
  net_addr : IpNet -> IpAddr;
  net_prefix_len : IpNet -> Z;
  net_network : IpNet -> IpAddr;
  net_broadcast : IpNet -> IpAddr;
  net_contains : IpNet -> IpAddr -> bool;
  net_new : IpAddr -> Z -> option IpNet;
  net_parse : string -> option IpNet;
  net_show : IpNet -> string;
}.

Definition net_is_v4 `{IpNetLib} (n : IpNet) : bool := is_v4 (net_addr n).

(** The same family with another numeric value. *)
Definition ip_with_value (ip : IpAddr) (v : Z) : IpAddr :=
  match ip with V4 _ => V4 v | V6 _ => V6 v end.

(** The number of addresses a prefix of length [l] spans in the family of [ip]. *)
Definition net_block (ip : IpAddr) (l : Z) : Z := 2 ^ (ip_width ip - l).

(** The documented behaviour of the crate: a network is an address and a prefix
    length, compared by both; [network] clears the host bits and [broadcast]
    sets them; [contains] is the range test within the family; [new] refuses a
    prefix length beyond the address width; it is printed as [addr/len]. *)
Class IpNetLaws `{IpNetLib} : Prop := {
  net_ext n m : net_addr n = net_addr m -> net_prefix_len n = net_prefix_len m -> n = m;
  net_addr_ok n : ip_ok (net_addr n);
  net_prefix_len_range n : 0 <= net_prefix_len n <= ip_width (net_addr n);
  net_network_eq n :
    let b := net_block (net_addr n) (net_prefix_len n) in
    net_network n = ip_with_value (net_addr n) (ip_value (net_addr n) / b * b);
  net_broadcast_eq n :
    let b := net_block (net_addr n) (net_prefix_len n) in
    net_broadcast n = ip_with_value (net_addr n) (ip_value (net_addr n) / b * b + b - 1);
  net_contains_spec n ip :
    net_contains n ip = true <->
    is_v4 ip = net_is_v4 n /\
    ip_value (net_network n) <= ip_value ip <= ip_value (net_broadcast n);
  net_new_Some ip l :
    ip_ok ip -> 0 <= l <= ip_width ip ->
    exists n, net_new ip l = Some n /\ net_addr n = ip /\ net_prefix_len n = l;
  net_new_None ip l : ip_width ip < l -> net_new ip l = None;
  net_show_eq n : net_show n = (show_ip (net_addr n) ++ "/" ++ show_dec (net_prefix_len n))%string;
}.

Lemma ip_with_value_value ip v : ip_value (ip_with_value ip v) = v.
Proof. by destruct ip. Qed.

Lemma ip_with_value_width ip v : ip_width (ip_with_value ip v) = ip_width ip.
Proof. by destruct ip. Qed.

Lemma ip_eq_family_value ip1 ip2 :
  is_v4 ip1 = is_v4 ip2 -> ip_value ip1 = ip_value ip2 -> ip1 = ip2.
Proof. destruct ip1, ip2; simpl; naive_solver. Qed.

Lemma family_width ip1 ip2 : is_v4 ip1 = is_v4 ip2 -> ip_width ip1 = ip_width ip2.
Proof. by destruct ip1, ip2. Qed.

(** [IpNet::trunc] would leave such a network unchanged: no host bit is set. *)
Definition canonical `{IpNetLib} (n : IpNet) : Prop := net_network n = net_addr n.

Section net_lemmas.
Context `{IpNetLaws}.

Lemma net_block_pos n : 0 < net_block (net_addr n) (net_prefix_len n).
Proof. pose proof (net_prefix_len_range n). unfold net_block. apply Z.pow_pos_nonneg; lia. Qed.

(** Membership is agreement on the leading [prefix_len] bits. *)
Lemma net_contains_div n ip :
  net_contains n ip = true <->
  is_v4 ip = net_is_v4 n /\
  let b := net_block (net_addr n) (net_prefix_len n) in
  ip_value ip / b = ip_value (net_addr n) / b.
Proof.
  rewrite net_contains_spec, net_network_eq, net_broadcast_eq, !ip_with_value_value.
  pose proof (net_block_pos n) as Hb. cbv zeta.
  set (b := net_block _ _) in *. set (a := ip_value (net_addr n)). set (v := ip_value ip).
  pose proof (Z.div_mod a b). pose proof (Z.div_mod v b).
  pose proof (Z.mod_pos_bound v b Hb). pose proof (Z.mod_pos_bound a b Hb).
  split; intros [Hf Hv]; (split; [done|]).
  - symmetry. apply Z.div_unique with (v - b * (a / b)); lia.
  - rewrite <-Hv. lia.
Qed.

Lemma net_contains_family n ip : net_contains n ip = true -> is_v4 ip = net_is_v4 n.
Proof. rewrite net_contains_spec. naive_solver. Qed.

(** Two prefixes of one length that share an address have the same network. *)
Lemma canonical_unique n m ip :
  canonical n -> canonical m -> net_prefix_len n = net_prefix_len m ->
  net_contains n ip = true -> net_contains m ip = true -> n = m.
Proof.
  unfold canonical. rewrite !net_contains_div.
  intros Hn Hm Hl [Fn Dn] [Fm Dm]. unfold net_is_v4 in *. rewrite Fn in Fm.
  assert (net_block (net_addr n) (net_prefix_len n) = net_block (net_addr m) (net_prefix_len m)) as Hb.
  { unfold net_block. rewrite Hl. f_equal. f_equal. by apply family_width. }
  cbv zeta in *. rewrite Hb in *.
  apply net_ext; [|done]. apply ip_eq_family_value; [done|].
  rewrite <-Hn, <-Hm, !net_network_eq. cbv zeta. rewrite Hb, !ip_with_value_value. congruence.
Qed.

Lemma net_new_full ip :
  ip_ok ip -> exists n, net_new ip (ip_width ip) = Some n /\ net_addr n = ip /\
    forall ip', net_contains n ip' = true <-> ip' = ip.
Proof.
  intros Hip. destruct (net_new_Some ip (ip_width ip)) as (n & Hn & Ha & Hl); [done|by destruct ip|].
  exists n. split_and!; [done..|]. intros ip'. rewrite net_contains_div. cbv zeta.
  unfold net_is_v4, net_block. rewrite Ha, Hl, Z.sub_diag. change (2 ^ 0) with 1. rewrite !Z.div_1_r.
  split; [intros [? ?]; by apply ip_eq_family_value|by intros ->].
Qed.
End net_lemmas.

(** ** An instance that computes *)

Module PrefixNet.

Definition net_ok (p : IpAddr * Z) : Prop :=
  0 <= ip_value p.1 < 2 ^ ip_width p.1 /\ 0 <= p.2 <= ip_width p.1.

#[export] Instance net_ok_dec p : Decision (net_ok p).
Proof. unfold net_ok. apply _. Defined.

Definition net : Type := dsig net_ok.

Definition base (n : net) : IpAddr * Z := proj1_sig n.
Definition nblock (n : net) : Z := net_block (base n).1 (base n).2.

Definition network (n : net) : IpAddr :=
  ip_with_value (base n).1 (ip_value (base n).1 / nblock n * nblock n).
Definition broadcast (n : net) : IpAddr :=
  ip_with_value (base n).1 (ip_value (base n).1 / nblock n * nblock n + nblock n - 1).
Definition contains (n : net) (ip : IpAddr) : bool :=
  Bool.eqb (is_v4 ip) (is_v4 (base n).1) &&
  (ip_value (network n) <=? ip_value ip) && (ip_value ip <=? ip_value (broadcast n)).
Definition new (ip : IpAddr) (l : Z) : option net :=
  match decide (net_ok (ip, l)) with left H => Some (dexist (ip, l) H) | right _ => None end.

(** The text after the last [/] is the prefix length. *)
Fixpoint split_slash (s : chars) : option (chars * chars) :=
  match s with
  | [] => None
  | c :: t =>
      match split_slash t with
      | Some (a, b) => Some (c :: a, b)
      | None => if Ascii.eqb c "/"%char then Some ([], t) else None
      end
  end.

Definition parse (s : string) : option net :=
  match split_slash (String.list_ascii_of_string s) with
  | None => None
  | Some (a, b) =>
      match parse_ip (String.string_of_list_ascii a),
            parse_uint 128 (String.string_of_list_ascii b) with
      | Some ip, Some l => new ip l
      | _, _ => None
      end
  end.

Definition show (n : net) : string :=
  (show_ip (base n).1 ++ "/" ++ show_dec (base n).2)%string.

#[export] Instance lib : IpNetLib := {|
  IpNet := net;
  net_addr n := (base n).1;
  net_prefix_len n := (base n).2;
  net_network := network;
  net_broadcast := broadcast;
  net_contains := contains;
  net_new := new;
  net_parse := parse;
  net_show := show;
|}.

#[export] Instance laws : IpNetLaws.
Proof.
  split; simpl.
  - intros n m Ha Hl. apply dsig_eq. unfold base in *. by apply injective_projections.
  - intros n. pose proof (proj2_dsig n) as [H _]. done.
  - intros n. pose proof (proj2_dsig n) as [_ H]. done.
  - done.
  - done.
  - intros n ip. unfold contains, net_is_v4. simpl.
    rewrite !andb_true_iff, Bool.eqb_true_iff, !Z.leb_le. naive_solver.
  - intros ip l Hip Hl. unfold new. destruct (decide (net_ok (ip, l))) as [H|H].
    + eexists. split; [done|]. done.
    + exfalso. apply H. done.
  - intros ip l Hl. unfold new. case_decide as H; [|done]. destruct H. simpl in *. lia.
  - done.
Qed.

End PrefixNet.
