(* ===== verification/Routing.v ===== *)
(** * Routing: the CIDR routing table (headscale-core/src/routing.rs)

    The table keeps the routes of each family in a vector that is re-sorted on
    every insertion, and a sticky primary peer per exact prefix.  The file has
    the table's operations, the invariant they keep, and the theorems on
    longest-prefix match, primary election and conflicts. *)

From S2P Require Import Prelude Bytes Net.
From stdpp Require Import base list gmap strings.
From Stdlib Require Import ZArith Lia Sorted.

Open Scope Z_scope.

Section routing.
Context `{IpNetLib}.

Record Route := mkRoute {
  route_prefix : IpNet;
  route_peer_id : string;
  route_priority : Z;
  route_approved : bool;
  route_advertised : bool;
}.

Record RoutingTable := mkTable {
  ipv4_routes : list Route;
  ipv6_routes : list Route;
  primary_routes : gmap IpNet string;
}.

Definition RoutingTable_new : RoutingTable := mkTable [] [] ∅.

Definition route_order (a b : Route) : comparison :=
  then_with
    (then_with (Z.compare (net_prefix_len (route_prefix b)) (net_prefix_len (route_prefix a)))
               (Z.compare (route_priority a) (route_priority b)))
    (str_cmp (route_peer_id a) (route_peer_id b)).

(** [match prefix { IpNet::V4(_) => &self.ipv4_routes, IpNet::V6(_) => .. }] and
    the same choice on an address. *)
Definition family_routes (t : RoutingTable) (v4 : bool) : list Route :=
  if v4 then ipv4_routes t else ipv6_routes t.

Definition with_family_routes (t : RoutingTable) (v4 : bool) (l : list Route) : RoutingTable :=
  if v4 then mkTable l (ipv6_routes t) (primary_routes t)
  else mkTable (ipv4_routes t) l (primary_routes t).

Definition with_primary (t : RoutingTable) (m : gmap IpNet string) : RoutingTable :=
  mkTable (ipv4_routes t) (ipv6_routes t) m.

Definition all_routes (t : RoutingTable) : list Route := ipv4_routes t ++ ipv6_routes t.

(** [Iterator::min] over priorities. *)
Definition list_min (l : list Z) : option Z := min_by Z.compare l.

(** The routes an election for [p] looks at. *)
Definition candidate (p : IpNet) (r : Route) : bool :=
  bool_decide (route_prefix r = p) && route_approved r.

Definition best_candidate (p : IpNet) (best : Z) (r : Route) : bool :=
  candidate p r && (route_priority r =? best).

Definition recompute_primary_for_prefix (t : RoutingTable) (p : IpNet) : RoutingTable :=
  let routes := family_routes t (net_is_v4 p) in
  match list_min (map route_priority (List.filter (candidate p) routes)) with
  | None => with_primary t (delete p (primary_routes t))
  | Some best =>
      let incumbent_ok :=
        match primary_routes t !! p with
        | Some current =>
            existsb (fun r => best_candidate p best r && bool_decide (route_peer_id r = current)) routes
        | None => false
        end in
      if incumbent_ok then t
      else
        let selected :=
          min_by (fun a b => str_cmp (route_peer_id a) (route_peer_id b))
                 (List.filter (best_candidate p best) routes) in
        match selected with
        | Some r => with_primary t (<[p := route_peer_id r]> (primary_routes t))
        | None => with_primary t (delete p (primary_routes t))
        end
  end.

Definition add_route (t : RoutingTable) (r : Route) : RoutingTable :=
  let v4 := net_is_v4 (route_prefix r) in
  let t1 := with_family_routes t v4 (sort_by route_order (family_routes t v4 ++ [r])) in
  recompute_primary_for_prefix t1 (route_prefix r).

Definition not_of_peer (peer_id : string) (r : Route) : bool :=
  negb (bool_decide (route_peer_id r = peer_id)).

Definition remove_peer_routes (t : RoutingTable) (peer_id : string) : RoutingTable :=
  let affected :=
    map route_prefix (List.filter (fun r => bool_decide (route_peer_id r = peer_id)) (all_routes t)) in
  let t1 := mkTable (List.filter (not_of_peer peer_id) (ipv4_routes t))
                    (List.filter (not_of_peer peer_id) (ipv6_routes t))
                    (primary_routes t) in
  fold_left recompute_primary_for_prefix affected t1.

Definition remove_route (t : RoutingTable) (p : IpNet) (peer_id : string) : RoutingTable :=
  let keep r := negb (bool_decide (route_prefix r = p) && bool_decide (route_peer_id r = peer_id)) in
  let v4 := net_is_v4 p in
  let t1 := with_family_routes t v4 (List.filter keep (family_routes t v4)) in
  recompute_primary_for_prefix t1 p.

Definition primary_route_for (t : RoutingTable) (p : IpNet) : option string :=
  primary_routes t !! p.

Definition primary_precedence (t : RoutingTable) (a b : Route) : comparison :=
  if negb (bool_decide (route_prefix a = route_prefix b)) || negb (route_priority a =? route_priority b)
  then Eq
  else match primary_route_for t (route_prefix a) with
       | Some primary =>
           if bool_decide (primary = route_peer_id a) && negb (bool_decide (primary = route_peer_id b))
           then Gt
           else if bool_decide (primary = route_peer_id b) && negb (bool_decide (primary = route_peer_id a))
           then Lt
           else Eq
       | None => Eq
       end.

Definition route_precedence (t : RoutingTable) (a b : Route) : comparison :=
  then_with
    (then_with
       (then_with (Z.compare (net_prefix_len (route_prefix a)) (net_prefix_len (route_prefix b)))
                  (Z.compare (route_priority b) (route_priority a)))
       (primary_precedence t a b))
    (str_cmp (route_peer_id b) (route_peer_id a)).

(** The routes that may carry traffic for [dst]. *)
Definition usable (dst : IpAddr) (r : Route) : bool :=
  route_approved r && net_contains (route_prefix r) dst.

Definition lookup_route (t : RoutingTable) (dst : IpAddr) : option Route :=
  max_by (route_precedence t) (List.filter (usable dst) (family_routes t (is_v4 dst))).

Definition route_lookup (t : RoutingTable) (dst : IpAddr) : option string :=
  route_peer_id <$> lookup_route t dst.

Definition routes_for_peer (t : RoutingTable) (peer_id : string) : list Route :=
  List.filter (fun r => bool_decide (route_peer_id r = peer_id)) (all_routes t).

Definition approved_routes (t : RoutingTable) : list Route :=
  List.filter route_approved (all_routes t).

Definition set_approved (approved : bool) (r : Route) : Route :=
  mkRoute (route_prefix r) (route_peer_id r) (route_priority r) approved (route_advertised r).

(** The routes the approval loop rewrites, and the loop's body. *)
Definition approval_hit (p : IpNet) (peer_id : string) (r : Route) : bool :=
  bool_decide (route_prefix r = p) && bool_decide (route_peer_id r = peer_id) && route_advertised r.

Definition approve_one (p : IpNet) (peer_id : string) (approved : bool) (r : Route) : Route :=
  if approval_hit p peer_id r then set_approved approved r else r.

Definition set_route_approved (t : RoutingTable) (p : IpNet) (peer_id : string) (approved : bool)
  : RoutingTable * bool :=
  let v4 := net_is_v4 p in
  let found := existsb (approval_hit p peer_id) (family_routes t v4) in
  let t1 := with_family_routes t v4 (map (approve_one p peer_id approved) (family_routes t v4)) in
  if found then (recompute_primary_for_prefix t1 p, true) else (t1, false).

Definition conflicts_with (p : IpNet) (peer_id : string) (r : Route) : bool :=
  (net_prefix_len (route_prefix r) =? net_prefix_len p)
  && negb (bool_decide (route_peer_id r = peer_id))
  && (net_contains (route_prefix r) (net_addr p) || net_contains p (net_addr (route_prefix r))).

Definition has_conflict (t : RoutingTable) (p : IpNet) (peer_id : string) : option Route :=
  List.find (conflicts_with p peer_id) (family_routes t (net_is_v4 p)).

Definition table_len (t : RoutingTable) : nat := (length (ipv4_routes t) + length (ipv6_routes t))%nat.

Definition table_is_empty (t : RoutingTable) : bool :=
  match ipv4_routes t, ipv6_routes t with [], [] => true | _, _ => false end.

(** [host_route]: the unwraps cannot fail, the lengths are the address widths. *)
Definition host_route (ip : IpAddr) : option IpNet := net_new ip (ip_width ip).

Definition parse_cidr (s : string) : option IpNet := net_parse s.

End routing.

#[export] Instance Route_eq_dec `{IpNetLib} : EqDecision Route.
Proof. solve_decision. Defined.

(** ** The invariant *)

Section routing_invariant.
Context `{IpNetLib}.

(** The primary of [p] is an approved route of best priority for [p], and is
    missing exactly when [p] has no approved route. *)
Definition primary_ok (routes : list Route) (m : gmap IpNet string) (p : IpNet) : Prop :=
  match m !! p with
  | Some peer => exists r, r ∈ routes /\ candidate p r = true /\ route_peer_id r = peer /\
      forall r', r' ∈ routes -> candidate p r' = true -> route_priority r <= route_priority r'
  | None => forall r, r ∈ routes -> candidate p r = false
  end.

Record table_wf (t : RoutingTable) : Prop := {
  wf_v4 : forall r, r ∈ ipv4_routes t -> net_is_v4 (route_prefix r) = true;
  wf_v6 : forall r, r ∈ ipv6_routes t -> net_is_v4 (route_prefix r) = false;
  wf_sorted : forall v4, StronglySorted (le_cmp route_order) (family_routes t v4);
  wf_primary : forall p, primary_ok (family_routes t (net_is_v4 p)) (primary_routes t) p;
}.

(** The operations a holder of the table can apply. *)
Inductive route_step : RoutingTable -> RoutingTable -> Prop :=
| step_add t r : route_step t (add_route t r)
| step_remove_peer t peer : route_step t (remove_peer_routes t peer)
| step_remove t p peer : route_step t (remove_route t p peer)
| step_approve t p peer b : route_step t (set_route_approved t p peer b).1.

Inductive route_reachable : RoutingTable -> Prop :=
| reach_new : route_reachable RoutingTable_new
| reach_step t t' : route_reachable t -> route_step t t' -> route_reachable t'.

#[export] Instance route_order_total : TotalCmp route_order.
Proof.
  apply (then_with_total
    (fun a b => then_with (Z.compare (net_prefix_len (route_prefix b)) (net_prefix_len (route_prefix a)))
                          (Z.compare (route_priority a) (route_priority b)))
    (fun a b => str_cmp (route_peer_id a) (route_peer_id b))).
  - apply (then_with_total
      (fun a b => Z.compare (net_prefix_len (route_prefix b)) (net_prefix_len (route_prefix a)))
      (fun a b => Z.compare (route_priority a) (route_priority b))).
    + apply (flip_total (fun a b => Z.compare (net_prefix_len (route_prefix a))
                                              (net_prefix_len (route_prefix b)))).
      apply (on_key_total Z.compare), _.
    + apply (on_key_total Z.compare), _.
  - apply (on_key_total str_cmp), _.
Qed.

Lemma family_with_family t v4 l : family_routes (with_family_routes t v4 l) v4 = l.
Proof. by destruct v4. Qed.

Lemma family_with_family_ne t v4 v4' l :
  v4 <> v4' -> family_routes (with_family_routes t v4 l) v4' = family_routes t v4'.
Proof. by destruct v4, v4'. Qed.

Lemma family_with_primary t m v4 : family_routes (with_primary t m) v4 = family_routes t v4.
Proof. by destruct v4. Qed.

Lemma primary_with_family t v4 l : primary_routes (with_family_routes t v4 l) = primary_routes t.
Proof. by destruct v4. Qed.

Lemma candidate_true p r : candidate p r = true <-> route_prefix r = p /\ route_approved r = true.
Proof. unfold candidate. by rewrite andb_true_iff, bool_decide_eq_true. Qed.

Lemma best_candidate_true p best r :
  best_candidate p best r = true <-> candidate p r = true /\ route_priority r = best.
Proof. unfold best_candidate. by rewrite andb_true_iff, Z.eqb_eq. Qed.

Lemma list_min_None l : list_min l = None <-> l = [].
Proof. apply reduce_None. Qed.

Lemma list_min_Some l m : list_min l = Some m -> m ∈ l /\ forall x, x ∈ l -> m <= x.
Proof.
  intros Hm. split; [by eapply min_by_In|]. intros x Hx.
  apply (min_by_least _ _ _ Hm) in Hx. unfold le_cmp in Hx. by rewrite Z.compare_le_iff in Hx.
Qed.

(** What an election finds: nothing when no approved route has the prefix,
    otherwise the best priority and a route that has it. *)
Lemma best_priority_cases p routes :
  (list_min (map route_priority (List.filter (candidate p) routes)) = None /\
   forall r, r ∈ routes -> candidate p r = false) \/
  exists best, list_min (map route_priority (List.filter (candidate p) routes)) = Some best /\
   (exists r, r ∈ routes /\ best_candidate p best r = true) /\
   forall r, r ∈ routes -> candidate p r = true -> best <= route_priority r.
Proof.
  destruct (list_min _) as [best|] eqn:E.
  - right. exists best. split; [done|]. apply list_min_Some in E as [Hin Hle]. split.
    + apply list_elem_of_In, List.in_map_iff in Hin as (r & Hr & Hin).
      apply List.filter_In in Hin as [Hin Hc]. exists r.
      by rewrite list_elem_of_In, best_candidate_true.
    + intros r Hr Hc. apply Hle. apply list_elem_of_In, List.in_map, List.filter_In.
      by rewrite <-list_elem_of_In.
  - left. split; [done|]. apply list_min_None, List.map_eq_nil in E. intros r Hr.
    destruct (candidate p r) eqn:Hc; [|done].
    assert (r ∈ List.filter (candidate p) routes) as Hf by by apply elem_of_filter_bool.
    rewrite E in Hf. by apply not_elem_of_nil in Hf.
Qed.

Lemma recompute_family t p v4 :
  family_routes (recompute_primary_for_prefix t p) v4 = family_routes t v4.
Proof.
  unfold recompute_primary_for_prefix. cbv zeta.
  destruct (list_min _) as [best|]; [|apply family_with_primary].
  destruct (match primary_routes t !! p with Some _ => _ | None => _ end); [done|].
  destruct (min_by _ _); apply family_with_primary.
Qed.

Lemma recompute_primary_ne t p q :
  p <> q -> primary_routes (recompute_primary_for_prefix t p) !! q = primary_routes t !! q.
Proof.
  intros Hpq. unfold recompute_primary_for_prefix. cbv zeta.
  destruct (list_min _) as [best|]; [|by apply lookup_delete_ne].
  destruct (match primary_routes t !! p with Some _ => _ | None => _ end); [done|].
  destruct (min_by _ _); [by apply lookup_insert_ne | by apply lookup_delete_ne].
Qed.

(** An election establishes the invariant at its prefix, whatever held before. *)
Lemma recompute_establishes t p :
  primary_ok (family_routes t (net_is_v4 p)) (primary_routes (recompute_primary_for_prefix t p)) p.
Proof.
  unfold recompute_primary_for_prefix. set (routes := family_routes t (net_is_v4 p)). cbv zeta.
  destruct (best_priority_cases p routes) as [[-> Hnone]|(best & -> & (r0 & Hr0 & Hc0) & Hle)].
  { unfold primary_ok. simpl. by rewrite lookup_delete_eq. }
  destruct (match primary_routes t !! p with Some _ => _ | None => _ end) eqn:Einc.
  - unfold primary_ok. destruct (primary_routes t !! p) as [cur|]; [|done].
    apply existsb_elem in Einc as (r & Hr & Hb).
    rewrite andb_true_iff, bool_decide_eq_true, best_candidate_true in Hb.
    destruct Hb as [[Hc <-] <-]. exists r. eauto.
  - destruct (min_by _ _) as [r|] eqn:Emin.
    + apply min_by_In, elem_of_filter_bool in Emin as [Hr Hb].
      apply best_candidate_true in Hb as [Hc <-].
      unfold primary_ok. simpl. rewrite lookup_insert_eq. exists r. eauto.
    + exfalso. apply reduce_None in Emin.
      assert (r0 ∈ List.filter (best_candidate p best) routes) as Hf by by apply elem_of_filter_bool.
      rewrite Emin in Hf. by apply not_elem_of_nil in Hf.
Qed.

(** [primary_ok] at [p] depends only on the routes that carry [p]. *)
Lemma primary_ok_ext routes routes' m m' p :
  (forall r, r ∈ routes /\ candidate p r = true <-> r ∈ routes' /\ candidate p r = true) ->
  m !! p = m' !! p -> primary_ok routes m p -> primary_ok routes' m' p.
Proof.
  intros Hr Hm. unfold primary_ok. rewrite <-Hm. destruct (m !! p) as [peer|].
  - intros (r & Hin & Hc & Hp & Hle). exists r.
    destruct (proj1 (Hr r)) as [Hin' _]; [done|].
    split_and!; [done..|]. intros r' Hr' Hc'. apply Hle; [|done].
    by apply Hr.
  - intros Hn r Hin. destruct (candidate p r) eqn:Hc; [|done].
    rewrite <-(Hn r), Hc; [done|]. by apply Hr.
Qed.

(** The common shape of the operations on one family: new routes that agree
    with the old ones away from [p], then an election for [p]. *)
Lemma recompute_after_wf t v4 l p :
  table_wf t -> net_is_v4 p = v4 ->
  (forall r, r ∈ l -> net_is_v4 (route_prefix r) = v4) ->
  StronglySorted (le_cmp route_order) l ->
  (forall q r, q <> p -> candidate q r = true -> r ∈ l <-> r ∈ family_routes t v4) ->
  table_wf (recompute_primary_for_prefix (with_family_routes t v4 l) p).
Proof.
  intros [W4 W6 Ws Wp] Hp Hfam Hsort Hsame. set (t1 := with_family_routes t v4 l).
  split.
  - intros r. pose proof (recompute_family t1 p true) as E. simpl in E. rewrite E.
    destruct v4; simpl; eauto.
  - intros r. pose proof (recompute_family t1 p false) as E. simpl in E. rewrite E.
    destruct v4; simpl; eauto.
  - intros v. rewrite recompute_family. unfold t1.
    destruct (decide (v4 = v)) as [<-|Hv]; [by rewrite family_with_family|].
    by rewrite family_with_family_ne.
  - intros q. rewrite recompute_family. destruct (decide (q = p)) as [->|Hqp].
    { rewrite Hp. pose proof (recompute_establishes t1 p) as E. by rewrite Hp in E. }
    pose proof (Wp q) as Hq.
    eapply primary_ok_ext; [|symmetry; rewrite recompute_primary_ne by done;
                             unfold t1; rewrite primary_with_family; reflexivity|exact Hq].
    intros r. unfold t1. destruct (decide (v4 = net_is_v4 q)) as [E|E].
    + rewrite <-E, family_with_family. split; intros [? ?]; (split; [|done]); by apply (Hsame q r).
    + by rewrite family_with_family_ne.
Qed.

Lemma add_route_wf t r : table_wf t -> table_wf (add_route t r).
Proof.
  intros W. unfold add_route. cbv zeta. apply recompute_after_wf; [done|done|..].
  - intros r'. rewrite sort_by_In, elem_of_app, list_elem_of_singleton. intros [Hr'| ->]; [|done].
    destruct (net_is_v4 (route_prefix r)); [by apply (wf_v4 t W) | by apply (wf_v6 t W)].
  - apply sort_by_sorted, _.
  - intros q r' Hq Hc. rewrite sort_by_In, elem_of_app, list_elem_of_singleton.
    apply candidate_true in Hc as [<- _]. naive_solver.
Qed.

Lemma remove_route_wf t p peer : table_wf t -> table_wf (remove_route t p peer).
Proof.
  intros W. unfold remove_route. cbv zeta. apply recompute_after_wf; [done|done|..].
  - intros r. rewrite elem_of_filter_bool. intros [Hr _].
    destruct (net_is_v4 p); [by apply (wf_v4 t W) | by apply (wf_v6 t W)].
  - by apply StronglySorted_filter, wf_sorted.
  - intros q r Hq Hc. apply candidate_true in Hc as [Hp _]. rewrite elem_of_filter_bool.
    rewrite bool_decide_eq_false_2 by congruence. naive_solver.
Qed.

(** Approval does not touch the sort keys. *)
Lemma map_approved_sorted (f : Route -> Route) l :
  (forall r, f r = r \/ exists b, f r = set_approved b r) ->
  StronglySorted (le_cmp route_order) l -> StronglySorted (le_cmp route_order) (map f l).
Proof.
  intros Hf. induction 1 as [|r l Hl IH Hr]; simpl; constructor; [done|].
  assert (forall a b, le_cmp route_order a b -> le_cmp route_order (f a) (f b)) as Hm.
  { intros a b. destruct (Hf a) as [->|[? ->]], (Hf b) as [->|[? ->]]; done. }
  apply List.Forall_map. eapply Forall_impl; [exact Hr|]. eauto.
Qed.

Lemma set_route_approved_wf t p peer b : table_wf t -> table_wf (set_route_approved t p peer b).1.
Proof.
  intros W. unfold set_route_approved. cbv zeta.
  set (f := approve_one p peer b).
  assert (forall r, f r = r \/ exists b, f r = set_approved b r) as Hf.
  { intros r. unfold f, approve_one. destruct (approval_hit p peer r); eauto. }
  destruct (existsb _ _) eqn:Efound; simpl.
  - apply recompute_after_wf; [done|done|..].
    + intros r Hr. apply list_elem_of_In, List.in_map_iff in Hr as (r0 & <- & Hr0).
      apply list_elem_of_In in Hr0.
      assert (net_is_v4 (route_prefix r0) = net_is_v4 p).
      { destruct (net_is_v4 p); [by apply (wf_v4 t W) | by apply (wf_v6 t W)]. }
      destruct (Hf r0) as [->|[? ->]]; done.
    + by apply map_approved_sorted, wf_sorted.
    + intros q r Hq Hc. apply candidate_true in Hc as [Hp _].
      rewrite !list_elem_of_In, List.in_map_iff.
      assert (forall r0, route_prefix r0 <> p -> f r0 = r0) as Hid.
      { intros r0 Hr0. unfold f, approve_one, approval_hit. by rewrite bool_decide_eq_false_2. }
      split.
      * intros (r0 & Hr0 & Hin). assert (route_prefix r0 = route_prefix r) as E.
        { rewrite <-Hr0. destruct (Hf r0) as [->|[? ->]]; done. }
        rewrite Hid in Hr0 by congruence. by subst.
      * intros Hin. exists r. rewrite Hid by congruence. done.
  - assert (with_family_routes t (net_is_v4 p) (map f (family_routes t (net_is_v4 p))) = t) as ->; [|done].
    assert (map f (family_routes t (net_is_v4 p)) = family_routes t (net_is_v4 p)) as ->.
    { rewrite existsb_false in Efound. rewrite <-(List.map_id (family_routes _ _)) at 2.
      apply List.map_ext_in. intros r Hr. unfold f, approve_one.
      rewrite Efound; [done|by apply list_elem_of_In]. }
    destruct t, (net_is_v4 p); done.
Qed.

(** The loop over the affected prefixes: each election repairs its own prefix
    and leaves the others alone. *)
Lemma recompute_all_family ps t v4 :
  family_routes (fold_left recompute_primary_for_prefix ps t) v4 = family_routes t v4.
Proof.
  revert t. induction ps as [|p ps IH]; intros t; simpl; [done|]. by rewrite IH, recompute_family.
Qed.

Lemma recompute_all_primary ps t q :
  primary_ok (family_routes t (net_is_v4 q)) (primary_routes t) q \/ q ∈ ps ->
  primary_ok (family_routes t (net_is_v4 q))
             (primary_routes (fold_left recompute_primary_for_prefix ps t)) q.
Proof.
  revert t. induction ps as [|p ps IH]; intros t Hq; simpl.
  { destruct Hq as [?|Hq]; [done|]. by apply not_elem_of_nil in Hq. }
  rewrite <-(recompute_family t p). apply IH. rewrite recompute_family.
  destruct (decide (q = p)) as [->|Hne]; [left; apply recompute_establishes|].
  destruct Hq as [Hq|Hq]; [left|right; set_solver].
  eapply primary_ok_ext; [done| |exact Hq]. by rewrite recompute_primary_ne.
Qed.

Lemma remove_peer_routes_wf t peer : table_wf t -> table_wf (remove_peer_routes t peer).
Proof.
  intros [W4 W6 Ws Wp]. unfold remove_peer_routes. set (ps := map route_prefix _). set (t1 := mkTable _ _ _).
  assert (forall v4, family_routes t1 v4 = List.filter (not_of_peer peer) (family_routes t v4)) as Ht1.
  { by intros []. }
  split.
  - intros r. pose proof (recompute_all_family ps t1 true) as E. simpl in E. rewrite E.
    rewrite elem_of_filter_bool. naive_solver.
  - intros r. pose proof (recompute_all_family ps t1 false) as E. simpl in E. rewrite E.
    rewrite elem_of_filter_bool. naive_solver.
  - intros v4. rewrite recompute_all_family, Ht1. by apply StronglySorted_filter.
  - intros q. rewrite recompute_all_family. apply recompute_all_primary.
    destruct (decide (q ∈ ps)) as [Hq|Hq]; [by right|left].
    eapply primary_ok_ext; [|reflexivity|apply (Wp q)].
    intros r. rewrite Ht1, elem_of_filter_bool. split; [|naive_solver]. intros [Hr Hc].
    split; [|done]. split; [done|]. unfold not_of_peer. apply negb_true_iff, bool_decide_eq_false.
    intros Hpeer. apply Hq. apply candidate_true in Hc as [<- _]. unfold ps.
    apply list_elem_of_In, List.in_map, List.filter_In.
    rewrite <-list_elem_of_In, bool_decide_eq_true. split; [|done]. unfold all_routes.
    rewrite elem_of_app. by destruct (net_is_v4 (route_prefix r)); simpl in Hr; [left|right].
Qed.

Lemma RoutingTable_new_wf : table_wf RoutingTable_new.
Proof.
  split; simpl; try (intros ? Hr; by apply not_elem_of_nil in Hr).
  - intros []; constructor.
  - intros p. unfold primary_ok. simpl. rewrite lookup_empty. intros r Hr.
    destruct (net_is_v4 p); by apply not_elem_of_nil in Hr.
Qed.

Lemma route_step_wf t t' : route_step t t' -> table_wf t -> table_wf t'.
Proof.
  destruct 1; eauto using add_route_wf, remove_peer_routes_wf, remove_route_wf, set_route_approved_wf.
Qed.

(** *** What the operations do to the stored routes *)

Lemma elem_of_all_routes t r : r ∈ all_routes t <-> exists v4, r ∈ family_routes t v4.
Proof.
  unfold all_routes. rewrite elem_of_app. split.
  - intros [Hr|Hr]; [by exists true|by exists false].
  - intros [[] Hr]; auto.
Qed.

Lemma all_routes_add t r r' : r' ∈ all_routes (add_route t r) <-> r' ∈ all_routes t \/ r' = r.
Proof.
  rewrite !elem_of_all_routes. unfold add_route. cbv zeta.
  set (v4 := net_is_v4 (route_prefix r)). setoid_rewrite recompute_family.
  assert (forall x, x ∈ sort_by route_order (family_routes t v4 ++ [r]) <->
                    x ∈ family_routes t v4 \/ x = r) as Hs.
  { intros x. by rewrite sort_by_In, elem_of_app, list_elem_of_singleton. }
  split.
  - intros [v Hv]. destruct (decide (v4 = v)) as [<-|Hne].
    + rewrite family_with_family, Hs in Hv. naive_solver.
    + rewrite family_with_family_ne in Hv by done. eauto.
  - intros [[v Hv]| ->].
    + exists v. destruct (decide (v4 = v)) as [<-|Hne].
      * rewrite family_with_family, Hs. auto.
      * by rewrite family_with_family_ne.
    + exists v4. rewrite family_with_family, Hs. auto.
Qed.

Lemma all_routes_remove_peer t peer r :
  r ∈ all_routes (remove_peer_routes t peer) <-> r ∈ all_routes t /\ route_peer_id r <> peer.
Proof.
  rewrite !elem_of_all_routes. unfold remove_peer_routes. setoid_rewrite recompute_all_family.
  assert (forall v4, family_routes (mkTable (List.filter (not_of_peer peer) (ipv4_routes t))
                       (List.filter (not_of_peer peer) (ipv6_routes t)) (primary_routes t)) v4 =
                     List.filter (not_of_peer peer) (family_routes t v4)) as E by by intros [].
  setoid_rewrite E. setoid_rewrite elem_of_filter_bool. unfold not_of_peer.
  setoid_rewrite negb_true_iff. setoid_rewrite bool_decide_eq_false. naive_solver.
Qed.

(** Approval keeps the prefix and peer of every route. *)
Lemma all_routes_approve t p peer b r :
  r ∈ all_routes (set_route_approved t p peer b).1 ->
  exists r0, r0 ∈ all_routes t /\ route_peer_id r = route_peer_id r0 /\ route_prefix r = route_prefix r0.
Proof.
  rewrite elem_of_all_routes. intros [v Hr].
  assert (r ∈ family_routes (with_family_routes t (net_is_v4 p)
            (map (approve_one p peer b) (family_routes t (net_is_v4 p)))) v) as Hr'.
  { unfold set_route_approved in Hr. cbv zeta in Hr.
    destruct (existsb _ _); simpl in Hr; [by rewrite recompute_family in Hr|done]. }
  clear Hr. destruct (decide (net_is_v4 p = v)) as [<-|Hne].
  - rewrite family_with_family in Hr'. apply list_elem_of_In, List.in_map_iff in Hr' as (r0 & <- & Hr0).
    exists r0. rewrite elem_of_all_routes. split; [exists (net_is_v4 p); by apply list_elem_of_In|].
    unfold approve_one. by destruct (approval_hit p peer r0).
  - rewrite family_with_family_ne in Hr' by done. exists r. rewrite elem_of_all_routes. eauto.
Qed.

(** C2. Every table reachable through the operations keeps the invariant:
    families apart, each vector ordered, and the primary of every prefix an
    approved route of best priority (present exactly when one exists). *)
Theorem routing_reachable_wf t : route_reachable t -> table_wf t.
Proof. induction 1; eauto using RoutingTable_new_wf, route_step_wf. Qed.

End routing_invariant.

(** ** Longest-prefix match *)

Section routing_lookup.
Context `{IpNetLaws}.

(** The order [lookup] promises: a longer prefix is better, then a lower
    priority number. *)
Definition rank_le (a b : Route) : Prop :=
  net_prefix_len (route_prefix a) < net_prefix_len (route_prefix b) \/
  (net_prefix_len (route_prefix a) = net_prefix_len (route_prefix b) /\
   route_priority b <= route_priority a).

(** A route is usable for [dst] in the table. *)
Definition usable_in (t : RoutingTable) (dst : IpAddr) (r : Route) : Prop :=
  r ∈ all_routes t /\ route_approved r = true /\ net_contains (route_prefix r) dst = true.

#[export] Instance rank_le_preorder : PreOrder rank_le.
Proof.
  unfold rank_le. split; [intros a; lia | intros a b c; lia].
Qed.

Lemma usable_in_family t dst r :
  table_wf t -> usable_in t dst r <-> r ∈ List.filter (usable dst) (family_routes t (is_v4 dst)).
Proof.
  intros W. unfold usable_in, all_routes. rewrite elem_of_filter_bool, elem_of_app.
  unfold usable. rewrite andb_true_iff. split.
  - intros (Hr & Ha & Hc). split; [|done]. rewrite (net_contains_family _ _ Hc).
    destruct Hr as [Hr|Hr]; [rewrite (wf_v4 t W r Hr) | rewrite (wf_v6 t W r Hr)]; done.
  - intros (Hr & Ha & Hc). split; [|done].
    destruct (is_v4 dst); simpl in Hr; auto.
Qed.

(** The comparator decides the promised order before it looks at primaries
    and names. *)
Lemma precedence_rank t a b :
  (route_precedence t a b = Gt -> rank_le b a) /\ (route_precedence t a b <> Gt -> rank_le a b).
Proof.
  unfold route_precedence, rank_le.
  destruct (Z.compare_spec (net_prefix_len (route_prefix a)) (net_prefix_len (route_prefix b)));
  destruct (Z.compare_spec (route_priority b) (route_priority a)); simpl; try lia;
  split; intros; try done; lia.
Qed.

Lemma lookup_route_best t dst r :
  table_wf t -> lookup_route t dst = Some r ->
  usable_in t dst r /\ forall r', usable_in t dst r' -> rank_le r' r.
Proof.
  intros W Hl. split.
  - apply usable_in_family; [done|]. by apply (max_by_In (route_precedence t)).
  - intros r' Hr'. apply usable_in_family in Hr'; [|done].
    eapply (max_by_refines (route_precedence t) rank_le); [..|exact Hl|exact Hr'];
      intros a b _ _; apply precedence_rank.
Qed.

Lemma lookup_route_None t dst :
  table_wf t -> lookup_route t dst = None <-> forall r, ~ usable_in t dst r.
Proof.
  intros W. setoid_rewrite usable_in_family; [|done]. unfold lookup_route, max_by.
  rewrite reduce_None. split.
  - intros -> r Hr. by apply not_elem_of_nil in Hr.
  - intros Hn. destruct (List.filter _ _) as [|r l]; [done|]. exfalso. apply (Hn r). set_solver.
Qed.

(** C3. [lookup] is longest-prefix match: on a well-formed table it answers
    exactly when some approved route contains the address, and then with the
    peer of an approved route that contains it and that no other such route
    beats on prefix length and then on priority. *)
Theorem lookup_longest_prefix_match t dst :
  table_wf t ->
  match route_lookup t dst with
  | Some peer => exists r, usable_in t dst r /\ route_peer_id r = peer /\
                           forall r', usable_in t dst r' -> rank_le r' r
  | None => forall r, ~ usable_in t dst r
  end.
Proof.
  intros W. unfold route_lookup. destruct (lookup_route t dst) as [r|] eqn:E; simpl.
  - apply lookup_route_best in E as [Hu Hb]; [|done]. eauto.
  - by apply (lookup_route_None t dst W).
Qed.

(** ** Lookup follows the elected primary *)

Definition table_canonical (t : RoutingTable) : Prop :=
  forall r, r ∈ all_routes t -> canonical (route_prefix r).

Definition is_primary (t : RoutingTable) (r : Route) : bool :=
  bool_decide (primary_routes t !! route_prefix r = Some (route_peer_id r)).

(** [rank_le] refined by the primary flag. *)
Definition rank_primary_le (t : RoutingTable) (a b : Route) : Prop :=
  rank_le a b /\ (rank_le b a -> is_primary t a = true -> is_primary t b = true).

#[export] Instance rank_primary_preorder t : PreOrder (rank_primary_le t).
Proof.
  split.
  - intros a. split; [reflexivity|done].
  - intros a b c [Hab Pab] [Hbc Pbc]. split; [by etransitivity|].
    intros Hca Ha. apply Pbc; [by etransitivity|]. apply Pab; [by etransitivity|done].
Qed.

Lemma precedence_rank_primary t a b :
  (rank_le a b -> rank_le b a -> route_prefix a = route_prefix b) ->
  (route_precedence t a b = Gt -> rank_primary_le t b a) /\
  (route_precedence t a b <> Gt -> rank_primary_le t a b).
Proof.
  intros Hsame. destruct (precedence_rank t a b) as [Hgt Hle].
  assert (rank_le a b -> rank_le b a ->
          (is_primary t a = true -> is_primary t b = false -> route_precedence t a b = Gt) /\
          (is_primary t b = true -> is_primary t a = false -> route_precedence t a b = Lt)) as Hp.
  { intros Hab Hba. specialize (Hsame Hab Hba). unfold rank_le in Hab, Hba.
    assert (route_priority a = route_priority b) as Hpr by lia.
    unfold route_precedence, primary_precedence, primary_route_for, is_primary.
    rewrite Hsame, Hpr, !Z.compare_refl, Z.eqb_refl, (bool_decide_eq_true_2 (route_prefix b = route_prefix b)) by done. simpl.
    rewrite !bool_decide_eq_true, !bool_decide_eq_false.
    split; intros E1 E2; rewrite E1.
    - rewrite bool_decide_eq_true_2, bool_decide_eq_false_2 by congruence. done.
    - rewrite (bool_decide_eq_false_2 (route_peer_id b = route_peer_id a)) by congruence. simpl.
      rewrite bool_decide_eq_true_2 by congruence. done. }
  split; intros Hc; (split; [by auto|]); intros Hr Hpr.
  - destruct (is_primary t a) eqn:Ea; [done|]. destruct Hp as [_ Hp]; [by auto..|].
    rewrite Hp in Hc; done.
  - destruct (is_primary t b) eqn:Eb; [done|]. destruct Hp as [Hp _]; [by auto..|].
    rewrite Hp in Hc; done.
Qed.

(** When every stored prefix is canonical (no host bits), [lookup] answers
    with the elected primary of the longest approved prefix that contains the
    address: the anti-flap election decides where packets go. *)
Theorem lookup_follows_primary t dst r :
  table_wf t -> table_canonical t -> lookup_route t dst = Some r ->
  primary_route_for t (route_prefix r) = Some (route_peer_id r) /\
  route_lookup t dst = primary_route_for t (route_prefix r).
Proof.
  intros W Hcan Hl. unfold route_lookup. rewrite Hl. simpl.
  enough (is_primary t r = true) as Hp.
  { unfold is_primary in Hp. apply bool_decide_eq_true in Hp. unfold primary_route_for. by rewrite Hp. }
  pose proof (lookup_route_best t dst r W Hl) as [(Hin & Happ & Hcont) Hbest].
  pose proof (wf_primary t W (route_prefix r)) as Hpok. unfold primary_ok in Hpok.
  assert (r ∈ family_routes t (net_is_v4 (route_prefix r))) as Hfam.
  { unfold all_routes in Hin. apply elem_of_app in Hin as [Hin|Hin];
      [rewrite (wf_v4 t W r Hin) | rewrite (wf_v6 t W r Hin)]; done. }
  assert (candidate (route_prefix r) r = true) as Hcr by by apply candidate_true.
  destruct (primary_routes t !! route_prefix r) as [peer|] eqn:Eprim.
  2: { by rewrite (Hpok r Hfam) in Hcr. }
  destruct Hpok as (rp & Hrp & Hcp & Hpeer & Hmin).
  apply candidate_true in Hcp as [Hpp Hpa].
  assert (usable_in t dst rp) as Hup.
  { unfold usable_in, all_routes. rewrite Hpp, elem_of_app. split_and!; [|done..].
    destruct (net_is_v4 (route_prefix r)); auto. }
  assert (rank_le rp r /\ rank_le r rp) as [Hr1 Hr2].
  { split; [by apply Hbest|]. right. rewrite Hpp. split; [done|]. by apply Hmin. }
  assert (rank_primary_le t rp r) as [_ Hfin].
  { unfold lookup_route in Hl.
    eapply (max_by_refines (route_precedence t) (rank_primary_le t)); [..|exact Hl|].
    3: by apply usable_in_family.
    all: intros a b Ha Hb; apply precedence_rank_primary; intros Hab Hba;
      apply usable_in_family in Ha as (Ia & _ & Ca); [|done];
      apply usable_in_family in Hb as (Ib & _ & Cb); [|done];
      eapply canonical_unique; eauto; unfold rank_le in *; lia. }
  apply Hfin; [done|]. unfold is_primary. apply bool_decide_eq_true. by rewrite Hpp, Eprim, Hpeer.
Qed.

(** Stickiness: advertising another route for a prefix does not move its
    primary as long as the new route is not approved at a strictly better
    priority than every approved route the prefix has. *)
Theorem add_route_keeps_primary t r peer :
  table_wf t -> primary_route_for t (route_prefix r) = Some peer ->
  (route_approved r = true -> exists r0, r0 ∈ all_routes t /\
      candidate (route_prefix r) r0 = true /\ route_priority r0 <= route_priority r) ->
  primary_route_for (add_route t r) (route_prefix r) = Some peer.
Proof.
  intros W Hp Hworse. unfold primary_route_for in *. set (p := route_prefix r) in *.
  pose proof (wf_primary t W p) as Hok. unfold primary_ok in Hok. rewrite Hp in Hok.
  destruct Hok as (rp & Hrp & Hcp & Hpeer & Hmin).
  unfold add_route. cbv zeta. fold p. set (l := sort_by route_order _). set (t1 := with_family_routes _ _ _).
  unfold recompute_primary_for_prefix. cbv zeta.
  assert (family_routes t1 (net_is_v4 p) = l) as -> by apply family_with_family.
  assert (primary_routes t1 = primary_routes t) as Ht1 by apply primary_with_family.
  assert (forall x, x ∈ l <-> x ∈ family_routes t (net_is_v4 p) \/ x = r) as Hl.
  { intros x. unfold l. by rewrite sort_by_In, elem_of_app, list_elem_of_singleton. }
  destruct (best_priority_cases p l) as [[-> Hn]|(best & -> & (rb & Hrb & Hb) & Hle)].
  { rewrite (Hn rp) in Hcp; [done|]. apply Hl. auto. }
  rewrite Ht1, Hp.
  assert (route_priority rp = best) as Hbest.
  { apply best_candidate_true in Hb as [Hb <-].
    apply Z.le_antisymm; [|apply Hle; [apply Hl; auto|done]].
    apply Hl in Hrb as [Hrb| ->]; [by apply Hmin|].
    apply candidate_true in Hb as [_ Hb]. destruct (Hworse Hb) as (r0 & Hr0 & Hc0 & Hle0).
    etransitivity; [|exact Hle0]. apply Hmin; [|done]. apply candidate_true in Hc0 as [E _].
    unfold all_routes in Hr0. apply elem_of_app in Hr0 as [Hr0|Hr0];
      [rewrite <-E, (wf_v4 t W r0 Hr0) | rewrite <-E, (wf_v6 t W r0 Hr0)]; done. }
  assert (existsb (fun r1 => best_candidate p best r1 && bool_decide (route_peer_id r1 = peer)) l = true)
    as ->; [|by rewrite Ht1].
  apply existsb_elem. exists rp. split; [apply Hl; auto|].
  rewrite andb_true_iff, bool_decide_eq_true. split; [by apply best_candidate_true|done].
Qed.

(** Two networks of one prefix length overlap exactly when one contains the
    base address of the other. *)
Lemma same_length_overlap n m :
  net_prefix_len n = net_prefix_len m ->
  (net_contains n (net_addr m) || net_contains m (net_addr n) = true <->
   exists ip, net_contains n ip = true /\ net_contains m ip = true).
Proof.
  intros Hl.
  assert (forall k, net_contains k (net_addr k) = true) as Hself.
  { intros k. apply net_contains_div. done. }
  rewrite orb_true_iff. split.
  - intros [Hc|Hc]; eauto.
  - intros (ip & Hn & Hm). left.
    apply net_contains_div in Hn as [Fn Dn]. apply net_contains_div in Hm as [Fm Dm].
    cbv zeta in *. apply net_contains_div. unfold net_is_v4 in *. split; [congruence|]. cbv zeta.
    assert (net_block (net_addr n) (net_prefix_len n) = net_block (net_addr m) (net_prefix_len m)) as Hb.
    { unfold net_block. rewrite Hl. do 2 f_equal. apply family_width. congruence. }
    rewrite Hb in *. congruence.
Qed.

(** [has_conflict] reports a route exactly when another peer holds a route
    of the same prefix length with an address in common. *)
Theorem has_conflict_spec t p peer :
  table_wf t ->
  (exists r, has_conflict t p peer = Some r) <->
  exists r, r ∈ all_routes t /\ net_prefix_len (route_prefix r) = net_prefix_len p /\
            route_peer_id r <> peer /\
            exists ip, net_contains (route_prefix r) ip = true /\ net_contains p ip = true.
Proof.
  intros W. unfold has_conflict. split.
  - intros [r Hf]. apply List.find_some in Hf as [Hin Hc]. exists r.
    unfold conflicts_with in Hc. rewrite !andb_true_iff, Z.eqb_eq, negb_true_iff, bool_decide_eq_false in Hc.
    destruct Hc as [[Hl Hp] Ho]. split_and!; [|done..|by apply same_length_overlap].
    unfold all_routes. rewrite elem_of_app, !list_elem_of_In. by destruct (net_is_v4 p); auto.
  - intros (r & Hin & Hl & Hp & ip & Hc1 & Hc2).
    destruct (List.find _ _) as [r'|] eqn:E; [by eauto|].
    pose proof (List.find_none _ _ E r) as Hn. exfalso.
    assert (conflicts_with p peer r = true) as Hc.
    { unfold conflicts_with. rewrite !andb_true_iff, Z.eqb_eq, negb_true_iff, bool_decide_eq_false.
      split_and!; [done..|]. apply same_length_overlap; eauto. }
    rewrite Hn in Hc; [done|]. apply list_elem_of_In.
    apply net_contains_family in Hc1, Hc2. rewrite <-Hc2, Hc1.
    unfold all_routes in Hin. apply elem_of_app in Hin as [Hin|Hin];
      [rewrite (wf_v4 t W r Hin) | rewrite (wf_v6 t W r Hin)]; done.
Qed.

End routing_lookup.

(** ** Worked examples *)

Module RoutingExamples.

#[local] Existing Instance PrefixNet.lib.
#[local] Existing Instance PrefixNet.laws.

(** A network from its text; [None] never occurs on the literals below. *)
Definition net_of (s : string) : option PrefixNet.net := PrefixNet.parse s.

Definition route_of (s peer : string) (prio : Z) (ok adv : bool) : option Route :=
  match net_of s with Some n => Some (mkRoute n peer prio ok adv) | None => None end.

Definition add_all (rs : list (option Route)) : RoutingTable :=
  fold_left (fun t o => match o with Some r => add_route t r | None => t end) rs RoutingTable_new.

Definition table1 : RoutingTable := add_all
  [route_of "10.0.0.0/8" "peer-b" 0 true false;
   route_of "10.0.0.0/8" "peer-a" 0 true false;
   route_of "10.1.0.0/16" "peer-c" 100 true true;
   route_of "10.1.0.0/16" "peer-d" 0 false true].

Lemma add_all_reachable rs : route_reachable (add_all rs).
Proof.
  unfold add_all. generalize reach_new. generalize RoutingTable_new.
  induction rs as [|[r|] rs IH]; intros t Ht; simpl; [done| |by apply IH].
  apply IH. eapply reach_step; [exact Ht|constructor].
Qed.

Lemma table_wf_of_reachable `{IpNetLib} t : route_reachable t -> table_wf t.
Proof. induction 1; eauto using RoutingTable_new_wf, route_step_wf. Qed.

Lemma table1_reachable : route_reachable table1.
Proof. apply add_all_reachable. Qed.

Lemma table1_wf : table_wf table1.
Proof. apply table_wf_of_reachable, table1_reachable. Qed.

#[local] Opaque table1.

Definition ip1 : IpAddr := V4 167837697. (* 10.1.0.1 *)
Definition ip2 : IpAddr := V4 168427521. (* 10.10.0.1 *)

Lemma routing_reachable_wf_witness : route_reachable table1 /\ table_wf table1.
Proof. split; [|apply routing_reachable_wf]; exact table1_reachable. Defined.

Lemma lookup_longest_prefix_match_witness :
  route_lookup table1 ip1 = Some "peer-c" /\
  exists r, usable_in table1 ip1 r /\ route_peer_id r = "peer-c" /\
            forall r', usable_in table1 ip1 r' -> rank_le r' r.
Proof.
  assert (route_lookup table1 ip1 = Some "peer-c") as E by (vm_compute; reflexivity).
  split; [exact E|].
  pose proof (lookup_longest_prefix_match table1 ip1
                table1_wf) as Hl.
  rewrite E in Hl. exact Hl.
Defined.

Definition canonicalb (n : PrefixNet.net) : bool :=
  bool_decide (PrefixNet.network n = (PrefixNet.base n).1).

Lemma table1_canonical : table_canonical table1.
Proof.
  assert (forallb (fun r => canonicalb (route_prefix r)) (all_routes table1) = true) as E
    by (vm_compute; reflexivity).
  rewrite forallb_forall in E. intros r Hr. apply list_elem_of_In, E in Hr.
  unfold canonicalb in Hr. by apply bool_decide_eq_true in Hr.
Qed.

Lemma lookup_follows_primary_witness :
  exists r, lookup_route table1 ip2 = Some r /\
            primary_route_for table1 (route_prefix r) = Some "peer-b".
Proof.
  assert (route_lookup table1 ip2 = Some "peer-b") as Eb by (vm_compute; reflexivity).
  destruct (proj1 (fmap_Some route_peer_id (lookup_route table1 ip2) "peer-b") Eb) as (r & E & _).
  exists r. split; [exact E|].
  destruct (lookup_follows_primary table1 ip2 r
              table1_wf table1_canonical E) as [_ Hl].
  rewrite <-Hl. exact Eb.
Defined.

(** Statements about a network given by its text. *)
Definition with_net (s : string) (P : PrefixNet.net -> Prop) : Prop :=
  match net_of s with Some n => P n | None => False end.

Lemma with_net_intro s (P : PrefixNet.net -> Prop) :
  (match net_of s with Some _ => true | None => false end) = true ->
  (forall n, net_of s = Some n -> P n) -> with_net s P.
Proof. unfold with_net. destruct (net_of s); naive_solver. Qed.

Definition new_route (n : PrefixNet.net) : Route := mkRoute n "peer-0" 0 true true.

Definition prim_is (o : option PrefixNet.net) (peer : string) : bool :=
  match o with
  | Some n => bool_decide (primary_route_for table1 n = Some peer)
  | None => false
  end.

Definition has_worse (o : option PrefixNet.net) : bool :=
  match o with
  | Some n => existsb (fun r0 => candidate n r0 && (route_priority r0 <=? 0)) (all_routes table1)
  | None => false
  end.

Lemma add_route_keeps_primary_witness :
  with_net "10.0.0.0/8" (fun n =>
    primary_route_for (add_route table1 (new_route n)) n = Some "peer-b").
Proof.
  apply with_net_intro; [vm_compute; reflexivity|]. intros n Hn.
  apply (add_route_keeps_primary table1 (new_route n) "peer-b").
  - exact table1_wf.
  - assert (prim_is (net_of "10.0.0.0/8") "peer-b" = true) as Hp by (vm_compute; reflexivity).
    rewrite Hn in Hp. exact (bool_decide_eq_true_1 _ Hp).
  - intros _. assert (has_worse (net_of "10.0.0.0/8") = true) as Hw by (vm_compute; reflexivity).
    rewrite Hn in Hw. apply existsb_elem in Hw as (r0 & Hr0 & Hw).
    apply andb_true_iff in Hw as [Hc Hle]. exists r0.
    split; [exact Hr0|split; [exact Hc|apply Z.leb_le; exact Hle]].
Defined.

Definition conflict_found (o : option PrefixNet.net) (peer : string) : bool :=
  match o with
  | Some n => match has_conflict table1 n peer with Some _ => true | None => false end
  | None => false
  end.

Lemma has_conflict_spec_witness :
  with_net "10.0.0.0/8" (fun n =>
    exists r, r ∈ all_routes table1 /\ net_prefix_len (route_prefix r) = net_prefix_len n /\
      route_peer_id r <> "peer-a" /\
      exists ip, net_contains (route_prefix r) ip = true /\ net_contains n ip = true).
Proof.
  apply with_net_intro; [vm_compute; reflexivity|]. intros n Hn.
  apply (proj1 (has_conflict_spec table1 n "peer-a"
                  table1_wf)).
  assert (conflict_found (net_of "10.0.0.0/8") "peer-a" = true) as Hc by (vm_compute; reflexivity).
  rewrite Hn in Hc. unfold conflict_found in Hc.
  destruct (has_conflict table1 n "peer-a") as [r|]; [exists r; reflexivity|discriminate].
Defined.

End RoutingExamples.
