(* ===== verification/Acl.v ===== *)
(** * Acl: the access-control evaluator (headscale-core/src/acl.rs)

    Policies, their validation, and the first-match evaluation of a source
    context against a destination.  [HashMap]s are [gmap]s, [HashSet]s are
    [gset]s; [ipnet] is the interface [IpNetLib].  [serde_json]'s values reach
    only the strict parser, which is written over the three accessors it uses. *)

From stdpp Require Import base list gmap strings.
From Stdlib Require Import ZArith Lia Ascii.
From S2P Require Import Prelude Text Bytes Net.

Open Scope Z_scope.
Open Scope rust_scope.

(** [for x in l { f(x)?; }] *)
Fixpoint try_each {A E} (f : A -> result unit E) (l : list A) : result unit E :=
  match l with
  | [] => Ok tt
  | x :: t => let? _ := f x in try_each f t
  end.

Lemma try_each_Ok {A E} (f : A -> result unit E) l :
  try_each f l = Ok tt <-> forall x, x ∈ l -> f x = Ok tt.
Proof.
  induction l as [|x l IH]; simpl.
  - split; [intros _ x Hx; by apply not_elem_of_nil in Hx|done].
  - rewrite result_bind_Ok. setoid_rewrite elem_of_cons. split.
    + intros ([] & Hx & Hl) y [->|Hy]; [done|]. by apply IH.
    + intros Hall. exists tt. split; [auto|]. apply IH. auto.
Qed.

(** ** Policies *)

Inductive AclError :=
| InvalidPolicy (m : string) | InvalidHost (m : string) | InvalidGroup (m : string)
| InvalidRule (m : string) | ParseError (m : string) | UnknownReference (m : string).

Inductive Action := Accept | Deny.

#[export] Instance Action_eq_dec : EqDecision Action.
Proof. solve_decision. Defined.

Record AclRule := mkRule {
  rule_action : Action;
  rule_src : list string;
  rule_dst : list string;
  rule_proto : option string;
}.

Inductive HostSpec := Single (s : string) | Multiple (l : list string).

Record AutoApprovers := mkAutoApprovers {
  aa_routes : gmap string (list string);
  aa_exit_node : list string;
}.

Record SshRule := mkSshRule {
  ssh_action : Action;
  ssh_src : list string;
  ssh_dst : list string;
  ssh_users : list string;
}.

Record AclPolicy := mkPolicy {
  hosts : gmap string HostSpec;
  groups : gmap string (list string);
  acls : list AclRule;
  tag_owners : gmap string (list string);
  auto_approvers : AutoApprovers;
  ssh : list SshRule;
}.

Definition HostSpec_ips (h : HostSpec) : list IpAddr :=
  match h with
  | Single s => match parse_ip s with Some ip => [ip] | None => [] end
  | Multiple v => omap parse_ip v
  end.

Definition AutoApprovers_default : AutoApprovers := mkAutoApprovers ∅ [].

Definition AclPolicy_default : AclPolicy :=
  mkPolicy ∅ ∅ [mkRule Accept ["*"%string] ["*:*"%string] None] ∅ AutoApprovers_default [].

Definition AclPolicy_deny_all : AclPolicy := mkPolicy ∅ ∅ [] ∅ AutoApprovers_default [].

Record AclContext := mkContext {
  ctx_src : string;
  ctx_src_ip : option IpAddr;
  ctx_src_tags : gset string;
  ctx_src_groups : gset string;
}.

Definition from_node (node_id : string) (ip : IpAddr) : AclContext :=
  mkContext ("user:" ++ node_id) (Some ip) ∅ ∅.

Definition with_tag (c : AclContext) (tag : string) : AclContext :=
  mkContext (ctx_src c) (ctx_src_ip c) ({[("tag:" ++ tag)%string]} ∪ ctx_src_tags c) (ctx_src_groups c).

Definition add_tag (c : AclContext) (tag : string) : AclContext :=
  if starts_with "tag:" tag
  then mkContext (ctx_src c) (ctx_src_ip c) ({[tag]} ∪ ctx_src_tags c) (ctx_src_groups c)
  else with_tag c tag.

Definition with_tags (c : AclContext) (tags : list string) : AclContext := fold_left add_tag tags c.

Definition with_group (c : AclContext) (group : string) : AclContext :=
  mkContext (ctx_src c) (ctx_src_ip c) (ctx_src_tags c) ({[("group:" ++ group)%string]} ∪ ctx_src_groups c).

Record AclDestination := mkDestination {
  dst_id : string;
  dst_ip : option IpAddr;
  dst_port : option Z;
  dst_proto : option string;
}.

Definition AclDestination_new (ip : IpAddr) (port : option Z) : AclDestination :=
  mkDestination (show_ip ip) (Some ip) port None.

Definition ip_only (ip : IpAddr) : AclDestination :=
  mkDestination (show_ip ip) (Some ip) None None.

(** ** Destination specifications and address classes *)

Definition is_port (p : string) : bool :=
  bool_decide (p = "*"%string) || match parse_u16 p with Some _ => true | None => false end.

(** [fe80], [fc00::/7] and the loopback of IPv6; the private and shared ranges
    of IPv4, octet by octet. *)
Definition is_private_ip (ip : IpAddr) : bool :=
  match ip with
  | V4 a =>
      let o0 := (a / 2 ^ 24) `mod` 256 in
      let o1 := (a / 2 ^ 16) `mod` 256 in
      (o0 =? 10)
      || ((o0 =? 172) && ((16 <=? o1) && (o1 <=? 31)))
      || ((o0 =? 192) && (o1 =? 168))
      || ((o0 =? 100) && ((64 <=? o1) && (o1 <=? 127)))
      || (o0 =? 127)
      || ((o0 =? 169) && (o1 =? 254))
  | V6 a =>
      (segment a 0 =? 0xfe80)
      || (Z.land (segment a 0) 0xfe00 =? 0xfc00)
      || (a =? 1)
  end.

Section evaluator.
Context `{IpNetLib}.

Definition split_destination_spec (spec : string) : string * string :=
  let last_colon :=
    match split_last ":"%char spec with
    | Some (h, p) => if is_port p then (h, p) else (spec, "*"%string)
    | None => (spec, "*"%string)
    end in
  if bool_decide (is_Some (parse_ip spec)) || bool_decide (is_Some (net_parse spec))
  then (spec, "*"%string)
  else match spec with
       | String "["%char tail =>
           match split_first "]"%char tail with
           | Some (host, rest) =>
               if bool_decide (rest = ""%string) then (host, "*"%string)
               else match strip_prefix ":" rest with
                    | Some port => if is_port port then (host, port) else last_colon
                    | None => last_colon
                    end
           | None => last_colon
           end
       | _ => last_colon
       end.

(** *** Validation *)

Definition validate_reference (p : AclPolicy) (reference : string) : result unit AclError :=
  if bool_decide (reference = "*"%string) || bool_decide (reference = "autogroup:internet"%string)
  then Ok tt
  else match strip_prefix "group:" reference with
       | Some group_name =>
           match groups p !! group_name with
           | Some _ => Ok tt
           | None => Err (UnknownReference ("Unknown group: " ++ group_name))
           end
       | None =>
           if starts_with "tag:" reference then Ok tt
           else if starts_with "user:" reference then Ok tt
           else if bool_decide (is_Some (hosts p !! reference)) then Ok tt
           else if bool_decide (is_Some (parse_ip reference)) then Ok tt
           else if bool_decide (is_Some (net_parse reference)) then Ok tt
           else Err (UnknownReference reference)
       end.

Definition validate_dst (p : AclPolicy) (dst : string) : result unit AclError :=
  let '(host, _) := split_destination_spec dst in
  if negb (bool_decide (host = "*"%string)) then validate_reference p host else Ok tt.

Definition validate_rule (p : AclPolicy) (rule : AclRule) : result unit AclError :=
  let? _ := try_each (validate_reference p) (rule_src rule) in
  try_each (validate_dst p) (rule_dst rule).

Definition validate_owners (p : AclPolicy) (entry : string * list string) : result unit AclError :=
  if negb (starts_with "tag:" entry.1)
  then Err (InvalidPolicy ("Tag owner key must start with 'tag:': " ++ entry.1))
  else try_each (validate_reference p) entry.2.

Definition validate (p : AclPolicy) : result unit AclError :=
  let? _ := try_each (validate_rule p) (acls p) in
  try_each (validate_owners p) (map_to_list (tag_owners p)).

(** *** Evaluation *)

Definition matches_group (p : AclPolicy) (group_name : string) (ctx : AclContext) : bool :=
  (match groups p !! group_name with
   | Some members =>
       bool_decide (ctx_src ctx ∈ members)
       || existsb (fun tag => bool_decide (tag ∈ members)) (elements (ctx_src_tags ctx))
   | None => false
   end)
  || bool_decide (("group:" ++ group_name)%string ∈ ctx_src_groups ctx).

(** Does an address or prefix text name the address? *)
Definition matches_ip_text (text : string) (ip : IpAddr) : bool :=
  bool_decide (parse_ip text = Some ip)
  || match net_parse text with Some cidr => net_contains cidr ip | None => false end.

Definition matches_host (p : AclPolicy) (name : string) (ip : option IpAddr) : bool :=
  match hosts p !! name, ip with
  | Some host_spec, Some a => bool_decide (a ∈ HostSpec_ips host_spec)
  | _, _ => false
  end.

Definition matches_source (p : AclPolicy) (spec : string) (ctx : AclContext) : bool :=
  if bool_decide (spec = "*"%string) then true
  else if bool_decide (spec = ctx_src ctx) then true
  else if starts_with "tag:" spec && bool_decide (spec ∈ ctx_src_tags ctx) then true
  else if match strip_prefix "group:" spec with Some g => matches_group p g ctx | None => false end then true
  else if match ctx_src_ip ctx with Some src_ip => matches_ip_text spec src_ip | None => false end then true
  else matches_host p spec (ctx_src_ip ctx).

Definition port_excluded (port_part : string) (dst : AclDestination) : bool :=
  negb (bool_decide (port_part = "*"%string))
  && match parse_u16 port_part, dst_port dst with
     | Some rule_port, Some q => negb (q =? rule_port)
     | _, _ => false
     end.

Definition matches_destination (p : AclPolicy) (spec : string) (dst : AclDestination) : bool :=
  let '(host_part, port_part) := split_destination_spec spec in
  if port_excluded port_part dst then false
  else if bool_decide (host_part = "*"%string) then true
  else if bool_decide (host_part = "autogroup:internet"%string)
  then match dst_ip dst with Some ip => negb (is_private_ip ip) | None => false end
  else if match dst_ip dst with Some ip => matches_ip_text host_part ip | None => false end then true
  else if matches_host p host_part (dst_ip dst) then true
  else bool_decide (host_part = dst_id dst).

(** The protocol of the rule excludes the destination's. *)
Definition proto_excluded (rule : AclRule) (dst : AclDestination) : bool :=
  match rule_proto rule, dst_proto dst with
  | Some rule_proto, Some dst_proto =>
      negb (bool_decide (rule_proto = "*"%string)) && negb (bool_decide (rule_proto = dst_proto))
  | _, _ => false
  end.

Definition matches_rule (p : AclPolicy) (rule : AclRule) (ctx : AclContext) (dst : AclDestination) : bool :=
  if negb (existsb (fun s => matches_source p s ctx) (rule_src rule)) then false
  else if negb (existsb (fun d => matches_destination p d dst) (rule_dst rule)) then false
  else if proto_excluded rule dst then false
  else true.

Fixpoint evaluate_rules (p : AclPolicy) (rules : list AclRule) (ctx : AclContext) (dst : AclDestination)
  : Action :=
  match rules with
  | [] => Deny
  | rule :: rest => if matches_rule p rule ctx dst then rule_action rule
                    else evaluate_rules p rest ctx dst
  end.

(** [AclEvaluator] holds a policy; [update_policy] replaces it. *)
Definition evaluate (p : AclPolicy) (ctx : AclContext) (dst : AclDestination) : Action :=
  evaluate_rules p (acls p) ctx dst.

Definition can_reach (p : AclPolicy) (ctx : AclContext) (ip : IpAddr) : bool :=
  bool_decide (evaluate p ctx (ip_only ip) = Accept).

Definition can_reach_port (p : AclPolicy) (ctx : AclContext) (ip : IpAddr) (port : Z) : bool :=
  bool_decide (evaluate p ctx (AclDestination_new ip (Some port)) = Accept).

Definition should_distribute_route (p : AclPolicy) (route : IpNet) (to_node : AclContext) : bool :=
  let route_str := net_show route in
  if existsb (fun '(pattern, approvers) =>
                (bool_decide (pattern = route_str) || bool_decide (pattern = "*"%string))
                && existsb (fun a => matches_source p a to_node) approvers)
             (map_to_list (aa_routes (auto_approvers p)))
  then true
  else true.

Definition can_be_exit_node (p : AclPolicy) (node : AclContext) : bool :=
  existsb (fun a => matches_source p a node) (aa_exit_node (auto_approvers p)).

End evaluator.

(** ** The strict JSON entry point

    [serde_json] is a parameter: its [Value] with [as_object] (the members in
    order) and [as_array], and its two deserialisers. *)

Section strict_json.
Context `{IpNetLib}.
Variable Value : Type.
Variable as_object : Value -> option (list (string * Value)).
Variable as_array : Value -> option (list Value).
Variable from_str : string -> result Value string.
Variable from_value : Value -> result AclPolicy string.

(** [Value::get] with a string index. *)
Definition value_get (v : Value) (key : string) : option Value :=
  match as_object v with
  | Some members => snd <$> List.find (fun kv => bool_decide (kv.1 = key)) members
  | None => None
  end.

Definition reject_unknown_keys (v : Value) (context : string) (allowed : list string)
  : result unit AclError :=
  match as_object v with
  | None => Err (ParseError (context ++ " must be a JSON object"))
  | Some object =>
      try_each (fun key =>
                  if negb (bool_decide (key ∈ allowed))
                  then Err (InvalidPolicy ("Unknown " ++ context ++ " field: " ++ key))
                  else Ok tt)
               (map fst object)
  end.

Definition policy_fields : list string :=
  ["hosts"; "groups"; "acls"; "tagOwners"; "autoApprovers"; "ssh"]%string.
Definition rule_fields : list string := ["action"; "src"; "dst"; "proto"]%string.
Definition ssh_fields : list string := ["action"; "src"; "dst"; "users"]%string.
Definition approver_fields : list string := ["routes"; "exitNode"]%string.

Definition array_member (v : Value) (key : string) : option (list Value) :=
  match value_get v key with Some w => as_array w | None => None end.

Definition reject_unknown_acl_fields (v : Value) : result unit AclError :=
  let? _ := reject_unknown_keys v "ACL policy" policy_fields in
  let? _ := match array_member v "acls" with
            | Some rules => try_each (fun r => reject_unknown_keys r "ACL rule" rule_fields) rules
            | None => Ok tt
            end in
  let? _ := match array_member v "ssh" with
            | Some rules => try_each (fun r => reject_unknown_keys r "SSH rule" ssh_fields) rules
            | None => Ok tt
            end in
  match value_get v "autoApprovers" with
  | Some a => reject_unknown_keys a "autoApprovers" approver_fields
  | None => Ok tt
  end.

Definition from_json_strict (json : string) : result AclPolicy AclError :=
  let? v := map_err ParseError (from_str json) in
  let? _ := reject_unknown_acl_fields v in
  let? policy := map_err ParseError (from_value v) in
  let? _ := validate policy in
  Ok policy.

(** Every member of an object is one of the allowed fields. *)
Definition only_fields (allowed : list string) (v : Value) : Prop :=
  exists members, as_object v = Some members /\ forall kv, kv ∈ members -> kv.1 ∈ allowed.

Lemma reject_unknown_keys_Ok v context allowed :
  reject_unknown_keys v context allowed = Ok tt <-> only_fields allowed v.
Proof.
  unfold reject_unknown_keys, only_fields. destruct (as_object v) as [object|]; [|naive_solver].
  rewrite try_each_Ok. split.
  - intros Hk. exists object. split; [done|]. intros kv Hkv.
    specialize (Hk kv.1). destruct (bool_decide (kv.1 ∈ allowed)) eqn:E.
    { by apply bool_decide_eq_true in E. }
    simpl in Hk. discriminate Hk. apply list_elem_of_In, List.in_map. by apply list_elem_of_In.
  - intros (members & [= <-] & Hall) key Hkey.
    apply list_elem_of_In, List.in_map_iff in Hkey as (kv & <- & Hkv).
    rewrite bool_decide_eq_true_2; [done|]. apply Hall. by apply list_elem_of_In.
Qed.

(** The strict parser accepts only policies that validate, from text whose
    policy, rule, SSH-rule and auto-approver objects carry no unknown field. *)
Lemma from_json_strict_Ok json p :
  from_json_strict json = Ok p ->
  validate p = Ok tt /\
  exists v, from_str json = Ok v /\ from_value v = Ok p /\ only_fields policy_fields v /\
    (forall rules r, array_member v "acls" = Some rules -> r ∈ rules -> only_fields rule_fields r) /\
    (forall rules r, array_member v "ssh" = Some rules -> r ∈ rules -> only_fields ssh_fields r) /\
    (forall a, value_get v "autoApprovers" = Some a -> only_fields approver_fields a).
Proof.
  unfold from_json_strict. rewrite result_bind_Ok. intros (v & Hv & Hr).
  apply result_bind_Ok in Hr as ([] & Hrej & Hr). apply result_bind_Ok in Hr as (q & Hq & Hr).
  apply result_bind_Ok in Hr as ([] & Hval & [= ->]). split; [done|]. exists v.
  unfold reject_unknown_acl_fields in Hrej.
  apply result_bind_Ok in Hrej as ([] & H1 & Hrej). apply result_bind_Ok in Hrej as ([] & H2 & Hrej).
  apply result_bind_Ok in Hrej as ([] & H3 & H4). apply reject_unknown_keys_Ok in H1.
  split_and!; [by destruct (from_str json); inversion Hv|by destruct (from_value v); inversion Hq|done|..].
  - intros rules r E Hr. rewrite E, try_each_Ok in H2. eapply reject_unknown_keys_Ok, H2, Hr.
  - intros rules r E Hr. rewrite E, try_each_Ok in H3. eapply reject_unknown_keys_Ok, H3, Hr.
  - intros a E. rewrite E in H4. by eapply reject_unknown_keys_Ok.
Qed.

End strict_json.

(** ** Theorems *)

Section acl_theorems.
Context `{IpNetLib}.

(** Rules are evaluated in order and the first match decides, with denial
    when nothing matches: traffic is accepted exactly when some rule that
    accepts matches it and no earlier rule does. *)
Theorem evaluate_first_match p ctx dst :
  evaluate p ctx dst = Accept <->
  exists i rule, acls p !! i = Some rule /\ matches_rule p rule ctx dst = true /\
    rule_action rule = Accept /\
    forall j r, (j < i)%nat -> acls p !! j = Some r -> matches_rule p r ctx dst = false.
Proof.
  unfold evaluate. induction (acls p) as [|rule rest IH]; simpl.
  { split; [done|]. intros (i & r & Hi & _). by rewrite lookup_nil in Hi. }
  destruct (matches_rule p rule ctx dst) eqn:E.
  - split.
    + intros Ha. exists 0%nat, rule. split_and!; [done..|]. intros j r Hj. lia.
    + intros ([|i] & r & Hi & Hm & Ha & Hbefore); simpl in *; [by simplify_eq|].
      rewrite (Hbefore 0%nat rule) in E; [done|lia|done].
  - rewrite IH. split.
    + intros (i & r & Hi & Hm & Ha & Hbefore). exists (S i), r. split_and!; [done..|].
      intros [|j] r' Hj Hr'; simpl in *; [by simplify_eq|]. apply (Hbefore j); [lia|done].
    + intros ([|i] & r & Hi & Hm & Ha & Hbefore); simpl in *; [simplify_eq; congruence|].
      exists i, r. split_and!; [done..|]. intros j r' Hj Hr'. apply (Hbefore (S j)); [lia|done].
Qed.

(** What a policy may name. *)
Definition ref_known (p : AclPolicy) (r : string) : Prop :=
  r = "*"%string \/ r = "autogroup:internet"%string \/
  match strip_prefix "group:" r with
  | Some g => is_Some (groups p !! g)
  | None => starts_with "tag:" r = true \/ starts_with "user:" r = true \/
            is_Some (hosts p !! r) \/ is_Some (parse_ip r) \/ is_Some (net_parse r)
  end.

Lemma validate_reference_Ok p r : validate_reference p r = Ok tt <-> ref_known p r.
Proof.
  unfold validate_reference, ref_known.
  destruct (decide (r = "*"%string)) as [->|H1]; [simpl; naive_solver|].
  rewrite (bool_decide_eq_false_2 _ H1). simpl.
  destruct (decide (r = "autogroup:internet"%string)) as [->|H2]; [simpl; naive_solver|].
  rewrite (bool_decide_eq_false_2 _ H2).
  destruct (strip_prefix "group:" r) as [g|].
  - destruct (groups p !! g) as [ms|].
    + split; [intros _; right; right; simpl; by exists ms | done].
    + split; [done | simpl; by intros [?|[?|[? ?]]]].
  - destruct (starts_with "tag:" r); [naive_solver|].
    destruct (starts_with "user:" r); [naive_solver|].
    repeat case_bool_decide; naive_solver.
Qed.

(** Validation accepts a policy exactly when every source, every
    destination host and every tag owner names something the policy knows and
    every tag-owner key is a tag. *)
Theorem validate_spec p :
  validate p = Ok tt <->
  (forall rule, rule ∈ acls p ->
     (forall s, s ∈ rule_src rule -> ref_known p s) /\
     (forall d, d ∈ rule_dst rule ->
        (split_destination_spec d).1 = "*"%string \/ ref_known p (split_destination_spec d).1)) /\
  (forall tag owners, tag_owners p !! tag = Some owners ->
     starts_with "tag:" tag = true /\ forall o, o ∈ owners -> ref_known p o).
Proof.
  assert (forall d, validate_dst p d = Ok tt <->
            (split_destination_spec d).1 = "*"%string \/ ref_known p (split_destination_spec d).1) as Hd.
  { intros d. unfold validate_dst. destruct (split_destination_spec d) as [h q]. simpl.
    case_bool_decide; simpl; [naive_solver|]. rewrite validate_reference_Ok. naive_solver. }
  assert (forall l, try_each (validate_reference p) l = Ok tt <-> forall r, r ∈ l -> ref_known p r) as Hr.
  { intros l. rewrite try_each_Ok. by setoid_rewrite validate_reference_Ok. }
  assert (forall rule, validate_rule p rule = Ok tt <->
            (forall s, s ∈ rule_src rule -> ref_known p s) /\
            (forall d, d ∈ rule_dst rule ->
               (split_destination_spec d).1 = "*"%string \/ ref_known p (split_destination_spec d).1)) as Hrule.
  { intros rule. unfold validate_rule. rewrite result_bind_Ok, <-Hr. setoid_rewrite <-Hd.
    rewrite <-try_each_Ok. split; [intros ([] & ? & ?); done|intros [? ?]; by exists tt]. }
  assert (forall tag owners, validate_owners p (tag, owners) = Ok tt <->
            starts_with "tag:" tag = true /\ forall o, o ∈ owners -> ref_known p o) as Ho.
  { intros tag owners. unfold validate_owners. simpl. destruct (starts_with "tag:" tag); simpl; [|naive_solver].
    rewrite Hr. naive_solver. }
  unfold validate. rewrite result_bind_Ok. setoid_rewrite <-Hrule. setoid_rewrite <-Ho.
  rewrite <-try_each_Ok. split.
  - intros ([] & Hacl & Hown). split; [done|]. intros tag owners Ht.
    rewrite try_each_Ok in Hown. apply Hown. by apply elem_of_map_to_list.
  - intros [Hacl Hown]. exists tt. split; [done|]. rewrite try_each_Ok. intros [tag owners] Ht.
    apply Hown. by apply elem_of_map_to_list.
Qed.

(** The forms [*], [*:*] and [*:port] have the wildcard host. *)
Lemma default_policy_matches ctx dst :
  parse_ip "*:*" = None -> net_parse "*:*" = None ->
  matches_rule AclPolicy_default (mkRule Accept ["*"%string] ["*:*"%string] None) ctx dst = true.
Proof.
  intros _ Hn. unfold matches_rule, matches_source, matches_destination. simpl.
  unfold split_destination_spec. rewrite Hn. done.
Qed.

Lemma matches_destination_any_port p spec dst q :
  matches_destination p spec (mkDestination (dst_id dst) (dst_ip dst) (Some q) (dst_proto dst)) = true ->
  matches_destination p spec (mkDestination (dst_id dst) (dst_ip dst) None (dst_proto dst)) = true.
Proof.
  unfold matches_destination. destruct (split_destination_spec spec) as [h pt]. simpl.
  assert (port_excluded pt (mkDestination (dst_id dst) (dst_ip dst) None (dst_proto dst)) = false) as ->.
  { unfold port_excluded. simpl. destruct (parse_u16 pt); apply andb_false_r. }
  by destruct (port_excluded pt _).
Qed.

Lemma matches_rule_any_port p rule ctx ip q :
  matches_rule p rule ctx (AclDestination_new ip (Some q)) = true ->
  matches_rule p rule ctx (ip_only ip) = true.
Proof.
  unfold matches_rule. destruct (existsb _ (rule_src rule)); simpl; [|done].
  destruct (existsb _ (rule_dst rule)) eqn:Ed; simpl; [|done]. intros Hp.
  assert (existsb (fun d => matches_destination p d (ip_only ip)) (rule_dst rule) = true) as ->.
  { apply existsb_elem. apply existsb_elem in Ed as (d & Hd & Hm). exists d. split; [done|].
    by apply (matches_destination_any_port p d (AclDestination_new ip (Some q)) q) in Hm. }
  simpl. unfold proto_excluded in *. simpl in *. by destruct (rule_proto rule).
Qed.

(** In a policy without deny rules, leaving the port out can only open more. *)
Lemma evaluate_any_port p ctx ip q :
  (forall rule, rule ∈ acls p -> rule_action rule = Accept) ->
  evaluate p ctx (AclDestination_new ip (Some q)) = Accept -> evaluate p ctx (ip_only ip) = Accept.
Proof.
  intros Hacc. unfold evaluate. induction (acls p) as [|rule rest IH]; simpl; [done|].
  assert (rule_action rule = Accept) as Ha by (apply Hacc; set_solver).
  destruct (matches_rule p rule ctx (AclDestination_new ip (Some q))) eqn:E.
  - rewrite (matches_rule_any_port _ _ _ _ _ E). done.
  - destruct (matches_rule p rule ctx (ip_only ip)); [done|]. apply IH. set_solver.
Qed.

(** In a policy without deny rules, what is reachable on some port is
    reachable as a host: [can_reach] is the port-insensitive relaxation of
    [can_reach_port]. *)
Theorem can_reach_port_can_reach p ctx ip q :
  (forall rule, rule ∈ acls p -> rule_action rule = Accept) ->
  can_reach_port p ctx ip q = true -> can_reach p ctx ip = true.
Proof.
  unfold can_reach_port, can_reach. rewrite !bool_decide_eq_true. apply evaluate_any_port.
Qed.

(** A destination whose rule names another port is never matched by it. *)
Lemma port_mismatch_no_match p spec dst q rq :
  (split_destination_spec spec).2 <> "*"%string ->
  parse_u16 (split_destination_spec spec).2 = Some rq -> dst_port dst = Some q -> q <> rq ->
  matches_destination p spec dst = false.
Proof.
  unfold matches_destination. destruct (split_destination_spec spec) as [h pt]. simpl.
  intros Hs Hp Hd Hq. unfold port_excluded. rewrite bool_decide_eq_false_2 by done.
  rewrite Hp, Hd. simpl. by rewrite (proj2 (Z.eqb_neq q rq) Hq).
Qed.

(** Ports are enforced when the destination carries one: a policy all of
    whose destinations name a port other than the requested one denies. *)
Theorem other_ports_denied p ctx ip q :
  (forall rule d, rule ∈ acls p -> d ∈ rule_dst rule ->
     (split_destination_spec d).2 <> "*"%string /\
     exists rq, parse_u16 (split_destination_spec d).2 = Some rq /\ rq <> q) ->
  can_reach_port p ctx ip q = false.
Proof.
  intros Hp. unfold can_reach_port. apply bool_decide_eq_false. unfold evaluate.
  induction (acls p) as [|rule rest IH]; simpl; [done|].
  assert (matches_rule p rule ctx (AclDestination_new ip (Some q)) = false) as ->.
  { unfold matches_rule. destruct (negb _); [done|].
    assert (existsb (fun d => matches_destination p d (AclDestination_new ip (Some q))) (rule_dst rule) = false)
      as ->; [|done].
    apply existsb_false. intros d Hd. destruct (Hp rule d) as (Hs & rq & Hrq & Hne); [set_solver|done|].
    eapply port_mismatch_no_match; eauto. }
  apply IH. intros r d Hr. apply Hp. set_solver.
Qed.

(** The IPv4 ranges the comments of [is_private_ip] name, as (base, length). *)
Definition private_v4 : list (Z * Z) :=
  [(167772160, 8); (2886729728, 12); (3232235520, 16); (1681915904, 10); (2130706432, 8); (2851995648, 16)].

Lemma octet_pair a o0 lo hi :
  0 <= a < 2 ^ 32 -> 0 <= o0 < 256 -> 0 <= lo <= hi -> hi < 256 ->
  ((a / 2 ^ 24) `mod` 256 = o0 /\ lo <= (a / 2 ^ 16) `mod` 256 <= hi) <->
  o0 * 256 + lo <= a / 2 ^ 16 <= o0 * 256 + hi.
Proof.
  intros Ha Ho Hlo Hhi.
  assert (a / 2 ^ 24 = a / 2 ^ 16 / 256) as -> by by rewrite Z.div_div by lia.
  assert (0 <= a / 2 ^ 16 < 65536) as Hb.
  { split; [apply Z.div_pos; lia|]. apply Z.div_lt_upper_bound; lia. }
  set (b := a / 2 ^ 16) in *.
  assert (b / 256 < 256) by (apply Z.div_lt_upper_bound; lia).
  rewrite (Z.mod_small (b / 256)) by (split; [apply Z.div_pos; lia|done]).
  pose proof (Z.div_mod b 256 ltac:(lia)). pose proof (Z.mod_pos_bound b 256 ltac:(lia)). nia.
Qed.

(** The octet tests of [is_private_ip] on IPv4 are exactly membership in
    10/8, 172.16/12, 192.168/16, 100.64/10, 127/8 and 169.254/16. *)
Theorem is_private_ip_v4 a :
  0 <= a < 2 ^ 32 ->
  is_private_ip (V4 a) = true <->
  exists base l, (base, l) ∈ private_v4 /\ a / 2 ^ (32 - l) = base / 2 ^ (32 - l).
Proof.
  intros Ha.
  assert (forall o0, 0 <= o0 < 256 -> (a / 2 ^ 24) `mod` 256 = o0 <-> a / 2 ^ 24 = o0) as H1.
  { intros o0 Ho. rewrite Z.mod_small; [done|].
    split; [apply Z.div_pos; lia|]. apply Z.div_lt_upper_bound; lia. }
  assert (forall k lo hi, 0 <= k <= 16 -> lo = (lo / 2 ^ k) * 2 ^ k -> hi = lo + 2 ^ k - 1 ->
            lo <= a / 2 ^ 16 <= hi <-> a / 2 ^ (16 + k) = lo / 2 ^ k) as H2.
  { intros k lo hi Hk Hlo Hhi. rewrite Z.pow_add_r, <-Z.div_div by (try apply Z.pow_nonzero; lia).
    assert (0 < 2 ^ k) by (apply Z.pow_pos_nonneg; lia).
    set (b := a / 2 ^ 16). set (c := lo / 2 ^ k) in *.
    pose proof (Z.div_mod b (2 ^ k) ltac:(lia)). pose proof (Z.mod_pos_bound b (2 ^ k) ltac:(lia)).
    split; [|nia]. intros Hb. symmetry. apply Z.div_unique with (b - 2 ^ k * c); nia. }
  unfold is_private_ip. rewrite !orb_true_iff, !andb_true_iff, !Z.eqb_eq, !Z.leb_le.
  rewrite (octet_pair a 172 16 31), (octet_pair a 100 64 127) by lia.
  assert (forall o0 o1, 0 <= o0 < 256 -> 0 <= o1 < 256 ->
            ((a / 2 ^ 24) `mod` 256 = o0 /\ (a / 2 ^ 16) `mod` 256 = o1) <-> a / 2 ^ 16 = o0 * 256 + o1) as H3.
  { intros o0 o1 Ho0 Ho1. pose proof (octet_pair a o0 o1 o1 Ha Ho0 ltac:(lia) ltac:(lia)). lia. }
  rewrite (H3 192 168), (H3 169 254), (H1 10), (H1 127) by lia.
  rewrite (H2 4 (172 * 256 + 16)), (H2 6 (100 * 256 + 64)) by (reflexivity || lia).
  split.
  - unfold private_v4. intros [[[[[HH|HH]|HH]|HH]|HH]|HH];
      [exists 167772160, 8|exists 2886729728, 12|exists 3232235520, 16|exists 1681915904, 10
      |exists 2130706432, 8|exists 2851995648, 16]; (split; [set_solver|exact HH]).
  - intros (base & l & Hin & E). unfold private_v4 in Hin.
    repeat (apply elem_of_cons in Hin as [[= -> ->]|Hin]; [cbn in E |- *; tauto|]).
    by apply not_elem_of_nil in Hin.
Qed.

(** [autogroup:internet] never covers a private, shared or loopback
    address, whatever the rest of the policy says. *)
Theorem internet_group_excludes_private p spec dst :
  (split_destination_spec spec).1 = "autogroup:internet"%string ->
  matches_destination p spec dst = true ->
  exists ip, dst_ip dst = Some ip /\ is_private_ip ip = false.
Proof.
  unfold matches_destination. destruct (split_destination_spec spec) as [h q]. simpl. intros -> Hm.
  destruct (port_excluded q dst); [done|].
  destruct (dst_ip dst) as [ip|]; simpl in Hm; [|done]. exists ip. by apply negb_true_iff in Hm.
Qed.

(** [should_distribute_route] answers [true] for every policy, route and
    node: the auto-approver loop in front of it has no effect. *)
Theorem should_distribute_route_always p route ctx : should_distribute_route p route ctx = true.
Proof. unfold should_distribute_route. by destruct (existsb _ _). Qed.

End acl_theorems.

(** ** Worked examples *)

Module AclExamples.

#[local] Existing Instance PrefixNet.lib.

Definition alice : AclContext := from_node "alice" (V4 1681915905).
Definition target : IpAddr := V4 167772161. (* 10.0.0.1 *)

(** Administrators may reach 10.0.0.1 on port 22. *)
Definition policy1 : AclPolicy :=
  mkPolicy ∅ {["admins"%string := ["user:alice"%string]]}
    [mkRule Accept ["group:admins"%string] ["10.0.0.1:22"%string] None] ∅ AutoApprovers_default [].

Lemma policy1_accepts rule : rule ∈ acls policy1 -> rule_action rule = Accept.
Proof. simpl. intros Hr. apply list_elem_of_singleton in Hr as ->. done. Qed.

Lemma can_reach_port_can_reach_witness :
  can_reach_port policy1 alice target 22 = true /\ can_reach policy1 alice target = true.
Proof.
  assert (can_reach_port policy1 alice target 22 = true) as E by (vm_compute; reflexivity).
  split; [exact E|]. apply (can_reach_port_can_reach policy1 alice target 22 policy1_accepts E).
Defined.

Lemma other_ports_denied_witness : can_reach_port policy1 alice target 80 = false.
Proof.
  apply other_ports_denied. intros rule d Hr Hd. simpl in Hr.
  apply list_elem_of_singleton in Hr. subst rule.
  simpl in Hd. apply list_elem_of_singleton in Hd. subst d.
  assert ((split_destination_spec "10.0.0.1:22").2 = "22"%string) as E by (vm_compute; reflexivity).
  rewrite E. split; [discriminate|]. exists 22. split; [vm_compute; reflexivity|discriminate].
Defined.

Lemma is_private_ip_v4_witness :
  is_private_ip target = true /\
  exists base l, (base, l) ∈ private_v4 /\ 167772161 / 2 ^ (32 - l) = base / 2 ^ (32 - l).
Proof.
  assert (is_private_ip target = true) as E by (vm_compute; reflexivity).
  split; [exact E|]. apply (is_private_ip_v4 167772161); [lia|exact E].
Defined.

Definition public : AclDestination := ip_only (V4 134744072). (* 8.8.8.8 *)

Lemma internet_group_excludes_private_witness :
  exists ip, dst_ip public = Some ip /\ is_private_ip ip = false.
Proof.
  apply (internet_group_excludes_private policy1 "autogroup:internet:443" public);
    vm_compute; reflexivity.
Defined.

End AclExamples.
