(* ===== verification/Tunnel.v ===== *)
(** * Tunnel: WireGuard tunnel management (headscale-core/src/tunnel.rs)

    [boringtun]'s [Tunn] is a third-party state machine: it is the class
    [TunnLib], the operations the source calls with the result type they
    return.  The manager's locked maps are the fields of one state record; the
    broadcast channel is the list of events sent; [Instant::now()] is an
    argument.  The statistics counters are unbounded. *)

From S2P Require Import Prelude Bytes Net Routing.
From stdpp Require Import base list gmap strings.
From Stdlib Require Import ZArith Lia.

Open Scope Z_scope.
Open Scope rust_scope.

(** ** [boringtun::noise] *)

(** [TunnResult]: the borrowed buffer is the data itself. *)
Inductive TunnResult :=
| TunnDone
| TunnErr (e : string)
| WriteToNetwork (data : list Z)
| WriteToTunnelV4 (data : list Z) (addr : Z)
| WriteToTunnelV6 (data : list Z) (addr : Z).

Class TunnLib := {
  Tunn : Type;
  (** secret key, peer public key, keepalive, index *)
  tunn_new : list Z -> list Z -> option Z -> Z -> Tunn;
  tunn_encapsulate : Tunn -> list Z -> Tunn * TunnResult;
  tunn_decapsulate : Tunn -> option IpAddr -> list Z -> Tunn * TunnResult;
  tunn_format_handshake_initiation : Tunn -> bool -> Tunn * TunnResult;
  tunn_update_timers : Tunn -> Tunn * TunnResult;
  tunn_is_expired : Tunn -> bool;
}.

Inductive TunnelState := Disconnected | Connecting | Connected | TunnelFailed.

#[export] Instance TunnelState_eq_dec : EqDecision TunnelState.
Proof. solve_decision. Defined.

Record TunnelStats := mkStats {
  tx_bytes : Z;
  rx_bytes : Z;
  tx_packets : Z;
  rx_packets : Z;
  last_handshake : option Z;
  last_rx : option Z;
  last_tx : option Z;
}.

Definition TunnelStats_default : TunnelStats := mkStats 0 0 0 0 None None None.

Section tunnel.
Context `{IpNetLib} `{TunnLib}.

(** ** One tunnel *)

Record Tunnel := mkTunnel {
  tunn : Tunn;
  tunnel_peer_id : string;
  tunnel_peer_public_key : list Z;
  tunnel_endpoint : option SocketAddr;
  tunnel_allowed_ips : list IpNet;
  tunnel_state : TunnelState;
  tunnel_stats : TunnelStats;
  tunnel_keepalive : option Z;
}.

Inductive TunnelError :=
| Creation (m : string)
| PeerNotFound (peer_id : string)
| RouteNotFound (peer_id : string) (prefix : IpNet)
| NoEndpoint (peer_id : string)
| UnknownPacket
| Handshake (m : string).

Definition set_tunn (t : Tunnel) (x : Tunn) : Tunnel :=
  mkTunnel x (tunnel_peer_id t) (tunnel_peer_public_key t) (tunnel_endpoint t)
    (tunnel_allowed_ips t) (tunnel_state t) (tunnel_stats t) (tunnel_keepalive t).

Definition set_state (t : Tunnel) (s : TunnelState) : Tunnel :=
  mkTunnel (tunn t) (tunnel_peer_id t) (tunnel_peer_public_key t) (tunnel_endpoint t)
    (tunnel_allowed_ips t) s (tunnel_stats t) (tunnel_keepalive t).

Definition set_stats (t : Tunnel) (s : TunnelStats) : Tunnel :=
  mkTunnel (tunn t) (tunnel_peer_id t) (tunnel_peer_public_key t) (tunnel_endpoint t)
    (tunnel_allowed_ips t) (tunnel_state t) s (tunnel_keepalive t).

Definition Tunnel_new (secret : list Z) (peer_id : string) (peer_public_key : list Z) (index : Z)
    (keepalive : option Z) : Tunnel :=
  mkTunnel (tunn_new secret peer_public_key keepalive index) peer_id peer_public_key None []
    Disconnected TunnelStats_default keepalive.

Definition set_endpoint (t : Tunnel) (endpoint : SocketAddr) : Tunnel :=
  mkTunnel (tunn t) (tunnel_peer_id t) (tunnel_peer_public_key t) (Some endpoint)
    (tunnel_allowed_ips t) (tunnel_state t) (tunnel_stats t) (tunnel_keepalive t).

(** [tunnel.endpoint = endpoint] in [add_peer]. *)
Definition assign_endpoint (t : Tunnel) (endpoint : option SocketAddr) : Tunnel :=
  mkTunnel (tunn t) (tunnel_peer_id t) (tunnel_peer_public_key t) endpoint
    (tunnel_allowed_ips t) (tunnel_state t) (tunnel_stats t) (tunnel_keepalive t).

Definition add_allowed_ip (t : Tunnel) (prefix : IpNet) : Tunnel :=
  if bool_decide (prefix ∈ tunnel_allowed_ips t) then t
  else mkTunnel (tunn t) (tunnel_peer_id t) (tunnel_peer_public_key t) (tunnel_endpoint t)
         (tunnel_allowed_ips t ++ [prefix]) (tunnel_state t) (tunnel_stats t) (tunnel_keepalive t).

Definition add_allowed_host (t : Tunnel) (ip : IpAddr) : option Tunnel :=
  match host_route ip with Some prefix => Some (add_allowed_ip t prefix) | None => None end.

Definition encapsulate (now : Z) (t : Tunnel) (src : list Z) : Tunnel * TunnResult :=
  let '(x, result) := tunn_encapsulate (tunn t) src in
  let t1 := set_tunn t x in
  let s := tunnel_stats t1 in
  let t2 :=
    match result with
    | WriteToNetwork _ =>
        let t' := set_stats t1 (mkStats (tx_bytes s + len src) (rx_bytes s) (tx_packets s + 1)
                                 (rx_packets s) (last_handshake s) (last_rx s) (Some now)) in
        if bool_decide (tunnel_state t' = Disconnected) then set_state t' Connecting else t'
    | TunnErr _ => set_state t1 TunnelFailed
    | _ => t1
    end in
  (t2, result).

Definition decapsulate (now : Z) (t : Tunnel) (src_addr : option IpAddr) (datagram : list Z)
  : Tunnel * TunnResult :=
  let '(x, result) := tunn_decapsulate (tunn t) src_addr datagram in
  let t1 := set_tunn t x in
  let s := tunnel_stats t1 in
  let t2 :=
    match result with
    | WriteToTunnelV4 _ _ | WriteToTunnelV6 _ _ =>
        let s1 := mkStats (tx_bytes s) (rx_bytes s) (tx_packets s) (rx_packets s + 1)
                    (last_handshake s) (Some now) (last_tx s) in
        if negb (bool_decide (tunnel_state t1 = Connected))
        then set_stats (set_state t1 Connected)
               (mkStats (tx_bytes s1) (rx_bytes s1) (tx_packets s1) (rx_packets s1)
                  (Some now) (last_rx s1) (last_tx s1))
        else set_stats t1 s1
    | WriteToNetwork _ =>
        set_stats t1 (mkStats (tx_bytes s) (rx_bytes s) (tx_packets s + 1) (rx_packets s)
                        (last_handshake s) (last_rx s) (Some now))
    | TunnDone | TunnErr _ => t1
    end in
  (t2, result).

Definition tunnel_initiate_handshake (t : Tunnel) : Tunnel * TunnResult :=
  let t1 := set_state t Connecting in
  let '(x, result) := tunn_format_handshake_initiation (tunn t1) false in
  (set_tunn t1 x, result).

Definition update_timers (t : Tunnel) : Tunnel * TunnResult :=
  let '(x, result) := tunn_update_timers (tunn t) in
  (set_tunn t x, result).

(** ** The manager *)

Inductive TunnelEvent :=
| TunnelCreated (peer_id : string)
| StateChanged (peer_id : string) (old_state new_state : TunnelState)
| TunnelRemoved (peer_id : string)
| HandshakeComplete (peer_id : string)
| EndpointChanged (peer_id : string) (endpoint : SocketAddr).

Record TunnelManager := mkManager {
  local_secret : list Z;
  tunnels : gmap string Tunnel;
  pubkey_to_peer : gmap (list Z) string;
  routing_table : RoutingTable;
  next_index : Z;
  tunnel_events : list TunnelEvent;
  listen_port : Z;
}.

Definition TunnelManager_new (secret : list Z) (port : Z) : TunnelManager :=
  mkManager secret ∅ ∅ RoutingTable_new 1 [] port.

Definition set_tunnels (m : TunnelManager) (x : gmap string Tunnel) : TunnelManager :=
  mkManager (local_secret m) x (pubkey_to_peer m) (routing_table m) (next_index m)
    (tunnel_events m) (listen_port m).

Definition set_routing (m : TunnelManager) (x : RoutingTable) : TunnelManager :=
  mkManager (local_secret m) (tunnels m) (pubkey_to_peer m) x (next_index m)
    (tunnel_events m) (listen_port m).

Definition emit (m : TunnelManager) (e : TunnelEvent) : TunnelManager :=
  mkManager (local_secret m) (tunnels m) (pubkey_to_peer m) (routing_table m) (next_index m)
    (tunnel_events m ++ [e]) (listen_port m).

(** The route [add_peer] installs for one allowed prefix. *)
Definition direct_route (peer_id : string) (prefix : IpNet) : Route :=
  mkRoute prefix peer_id 0 true false.

Definition add_peer (m : TunnelManager) (peer_id : string) (peer_public_key : list Z)
    (endpoint : option SocketAddr) (allowed_ips : list IpNet) (keepalive : option Z) : TunnelManager :=
  let index := next_index m in
  let tunnel := Tunnel_new (local_secret m) peer_id peer_public_key index keepalive in
  let tunnel := fold_left add_allowed_ip allowed_ips (assign_endpoint tunnel endpoint) in
  let routing := fold_left (fun t prefix => add_route t (direct_route peer_id prefix)) allowed_ips
                   (routing_table m) in
  mkManager (local_secret m) (<[peer_id := tunnel]> (tunnels m))
    (<[peer_public_key := peer_id]> (pubkey_to_peer m)) routing (wrapping_add 32 index 1)
    (tunnel_events m ++ [TunnelCreated peer_id]) (listen_port m).

Definition add_peer_with_ips (m : TunnelManager) (peer_id : string) (peer_public_key : list Z)
    (endpoint : option SocketAddr) (ips : list IpAddr) (keepalive : option Z) : TunnelManager :=
  add_peer m peer_id peer_public_key endpoint (omap host_route ips) keepalive.

Definition remove_peer (m : TunnelManager) (peer_id : string) : TunnelManager * result unit TunnelError :=
  match tunnels m !! peer_id with
  | Some tunnel =>
      (mkManager (local_secret m) (delete peer_id (tunnels m))
         (delete (tunnel_peer_public_key tunnel) (pubkey_to_peer m))
         (remove_peer_routes (routing_table m) peer_id) (next_index m)
         (tunnel_events m ++ [TunnelRemoved peer_id]) (listen_port m), Ok tt)
  | None => (m, Err (PeerNotFound peer_id))
  end.

Definition update_endpoint (m : TunnelManager) (peer_id : string) (endpoint : SocketAddr)
  : TunnelManager * result unit TunnelError :=
  match tunnels m !! peer_id with
  | Some tunnel =>
      (emit (set_tunnels m (<[peer_id := set_endpoint tunnel endpoint]> (tunnels m)))
         (EndpointChanged peer_id endpoint), Ok tt)
  | None => (m, Err (PeerNotFound peer_id))
  end.

Definition get_state (m : TunnelManager) (peer_id : string) : option TunnelState :=
  tunnel_state <$> (tunnels m !! peer_id).

Definition get_stats (m : TunnelManager) (peer_id : string) : option TunnelStats :=
  tunnel_stats <$> (tunnels m !! peer_id).

Definition list_peers (m : TunnelManager) : list string := (map_to_list (tunnels m)).*1.

Definition route_by_ip (m : TunnelManager) (dst_ip : IpAddr) : option string :=
  route_lookup (routing_table m) dst_ip.

Definition peer_allows_ip (m : TunnelManager) (peer_id : string) (ip : IpAddr) : result bool TunnelError :=
  let? tunnel := ok_or (tunnels m !! peer_id) (PeerNotFound peer_id) in
  Ok (existsb (fun prefix => net_contains prefix ip) (tunnel_allowed_ips tunnel)).

Definition advertise_route (m : TunnelManager) (peer_id : string) (prefix : IpNet) (approved : bool)
  : TunnelManager * result unit TunnelError :=
  match tunnels m !! peer_id with
  | None => (m, Err (PeerNotFound peer_id))
  | Some _ =>
      (set_routing m (add_route (routing_table m) (mkRoute prefix peer_id 100 approved true)), Ok tt)
  end.

Definition manager_set_route_approved (m : TunnelManager) (peer_id : string) (prefix : IpNet)
    (approved : bool) : TunnelManager * result unit TunnelError :=
  match tunnels m !! peer_id with
  | None => (m, Err (PeerNotFound peer_id))
  | Some _ =>
      let '(routing, found) := set_route_approved (routing_table m) prefix peer_id approved in
      if negb found then (set_routing m routing, Err (RouteNotFound peer_id prefix))
      else (set_routing m routing, Ok tt)
  end.

Definition peer_by_pubkey (m : TunnelManager) (pubkey : list Z) : option string :=
  pubkey_to_peer m !! pubkey.

Definition encapsulate_for_peer (now : Z) (m : TunnelManager) (peer_id : string) (src : list Z)
  : TunnelManager * result (TunnResult * option SocketAddr) TunnelError :=
  match tunnels m !! peer_id with
  | None => (m, Err (PeerNotFound peer_id))
  | Some tunnel =>
      let endpoint := tunnel_endpoint tunnel in
      let '(tunnel', result) := encapsulate now tunnel src in
      (set_tunnels m (<[peer_id := tunnel']> (tunnels m)), Ok (result, endpoint))
  end.

(** Does a result show that the datagram was authenticated? *)
Definition valid_data (r : TunnResult) : bool :=
  match r with
  | WriteToTunnelV4 _ _ | WriteToTunnelV6 _ _ | WriteToNetwork _ => true
  | _ => false
  end.

Definition decapsulate_for_peer (now : Z) (m : TunnelManager) (peer_id : string) (src_addr : SocketAddr)
    (datagram : list Z) : TunnelManager * result TunnResult TunnelError :=
  match tunnels m !! peer_id with
  | None => (m, Err (PeerNotFound peer_id))
  | Some tunnel =>
      let '(tunnel1, result) := decapsulate now tunnel (Some (sa_ip src_addr)) datagram in
      if valid_data result && negb (bool_decide (tunnel_endpoint tunnel1 = Some src_addr))
      then (emit (set_tunnels m (<[peer_id := set_endpoint tunnel1 src_addr]> (tunnels m)))
              (EndpointChanged peer_id src_addr), Ok result)
      else (set_tunnels m (<[peer_id := tunnel1]> (tunnels m)), Ok result)
  end.

(** Every branch of [find_peer_for_packet] leaves the choice to the caller. *)
Definition find_peer_for_packet (datagram : list Z) : option string :=
  if len datagram <? 8 then None else None.

(** [while let WriteToNetwork(data) = tunnel.update_timers(..)]: the timers of
    a tunnel are run until they have nothing to send; [None] when [fuel] rounds
    are not enough. *)
Fixpoint drain_timers (fuel : nat) (t : Tunnel) (acc : list (list Z)) : option (Tunnel * list (list Z)) :=
  match fuel with
  | O => None
  | S f =>
      match update_timers t with
      | (t', WriteToNetwork data) => drain_timers f t' (acc ++ [data])
      | (t', _) => Some (t', acc)
      end
  end.

(** One tunnel's part of [tick]: its packets go out only with an endpoint. *)
Definition tick_packets (peer_id : string) (t : Tunnel) (data : list (list Z))
  : list (string * SocketAddr * list Z) :=
  match tunnel_endpoint t with
  | Some endpoint => map (fun d => (peer_id, endpoint, d)) data
  | None => []
  end.

Definition tick_step (fuel : nat) (acc : option (gmap string Tunnel * list (string * SocketAddr * list Z)))
    (entry : string * Tunnel) : option (gmap string Tunnel * list (string * SocketAddr * list Z)) :=
  match acc, drain_timers fuel entry.2 [] with
  | Some (ts, packets), Some (t', data) =>
      Some (<[entry.1 := t']> ts, packets ++ tick_packets entry.1 entry.2 data)
  | _, _ => None
  end.

Definition tick (fuel : nat) (m : TunnelManager)
  : option (TunnelManager * list (string * SocketAddr * list Z)) :=
  match fold_left (tick_step fuel) (map_to_list (tunnels m)) (Some (tunnels m, [])) with
  | Some (ts, packets) => Some (set_tunnels m ts, packets)
  | None => None
  end.

Definition initiate_handshake (m : TunnelManager) (peer_id : string)
  : TunnelManager * result (SocketAddr * list Z) TunnelError :=
  match tunnels m !! peer_id with
  | None => (m, Err (PeerNotFound peer_id))
  | Some tunnel =>
      match tunnel_endpoint tunnel with
      | None => (m, Err (NoEndpoint peer_id))
      | Some endpoint =>
          let '(tunnel', result) := tunnel_initiate_handshake tunnel in
          (set_tunnels m (<[peer_id := tunnel']> (tunnels m)),
           match result with
           | WriteToNetwork data => Ok (endpoint, data)
           | TunnErr e => Err (Handshake e)
           | _ => Err (Handshake "Unexpected result")
           end)
      end
  end.

End tunnel.

(** ** The manager's invariant *)

Section tunnel_theorems.
Context `{IpNetLib} `{TunnLib}.

(** Tunnels are filed under their own peer id, the routing table is well
    formed, and every route belongs to a peer that has a tunnel. *)
Record manager_wf (m : TunnelManager) : Prop := {
  mwf_ids : forall id t, tunnels m !! id = Some t -> tunnel_peer_id t = id;
  mwf_table : table_wf (routing_table m);
  mwf_routes : forall r, r ∈ all_routes (routing_table m) -> is_Some (tunnels m !! route_peer_id r);
}.

(** The operations of the manager, in any order. *)
Inductive manager_step : TunnelManager -> TunnelManager -> Prop :=
| ms_add m id key ep ips ka : manager_step m (add_peer m id key ep ips ka)
| ms_remove m id : manager_step m (remove_peer m id).1
| ms_endpoint m id ep : manager_step m (update_endpoint m id ep).1
| ms_advertise m id p b : manager_step m (advertise_route m id p b).1
| ms_approve m id p b : manager_step m (manager_set_route_approved m id p b).1
| ms_encapsulate now m id src : manager_step m (encapsulate_for_peer now m id src).1
| ms_decapsulate now m id sa d : manager_step m (decapsulate_for_peer now m id sa d).1
| ms_handshake m id : manager_step m (initiate_handshake m id).1
| ms_tick fuel m m' packets : tick fuel m = Some (m', packets) -> manager_step m m'.

Inductive manager_reachable (secret : list Z) (port : Z) : TunnelManager -> Prop :=
| mr_new : manager_reachable secret port (TunnelManager_new secret port)
| mr_step m m' : manager_reachable secret port m -> manager_step m m' -> manager_reachable secret port m'.

Lemma add_allowed_ip_id t n : tunnel_peer_id (add_allowed_ip t n) = tunnel_peer_id t.
Proof. unfold add_allowed_ip. by case_bool_decide. Qed.

Lemma add_allowed_ips_id l t : tunnel_peer_id (fold_left add_allowed_ip l t) = tunnel_peer_id t.
Proof. revert t. induction l as [|n l IH]; intros t; simpl; [done|]. by rewrite IH, add_allowed_ip_id. Qed.

Lemma encapsulate_id now t src : tunnel_peer_id (encapsulate now t src).1 = tunnel_peer_id t.
Proof.
  unfold encapsulate. destruct (tunn_encapsulate _ _) as [x []]; simpl; try done. by case_bool_decide.
Qed.

Lemma decapsulate_id now t sa d : tunnel_peer_id (decapsulate now t sa d).1 = tunnel_peer_id t.
Proof.
  unfold decapsulate. destruct (tunn_decapsulate _ _ _) as [x []]; simpl; try done; by case_bool_decide.
Qed.

Lemma drain_timers_id fuel t acc t' data :
  drain_timers fuel t acc = Some (t', data) -> tunnel_peer_id t' = tunnel_peer_id t.
Proof.
  revert t acc. induction fuel as [|f IH]; intros t acc; simpl; [done|].
  unfold update_timers. destruct (tunn_update_timers (tunn t)) as [x []]; intros Hd; simplify_eq; try done.
  by apply IH in Hd.
Qed.

(** Replacing the tunnel of a known peer by one with the same id. *)
Lemma set_tunnels_wf m id t t' :
  manager_wf m -> tunnels m !! id = Some t -> tunnel_peer_id t' = tunnel_peer_id t ->
  manager_wf (set_tunnels m (<[id := t']> (tunnels m))).
Proof.
  intros [Wi Wt Wr] Ht He. split; simpl; [|done|].
  - intros id' u. destruct (decide (id = id')) as [<-|Hne]; simplify_map_eq; eauto.
    intros [= <-]. rewrite He. eauto.
  - intros r Hr. destruct (Wr r Hr) as [u Hu].
    destruct (decide (id = route_peer_id r)) as [->|Hne]; simplify_map_eq; eauto.
Qed.

Lemma emit_wf m e : manager_wf m -> manager_wf (emit m e).
Proof. intros []. by split. Qed.

Lemma add_peer_wf m id key ep ips ka : manager_wf m -> manager_wf (add_peer m id key ep ips ka).
Proof.
  intros [Wi Wt Wr]. unfold add_peer. set (tun := fold_left add_allowed_ip _ _).
  assert (forall l t, table_wf t ->
            table_wf (fold_left (fun t p => add_route t (direct_route id p)) l t)) as Hwf.
  { induction l as [|p l IH]; intros t Ht; simpl; [done|]. by apply IH, add_route_wf. }
  assert (forall l t r, r ∈ all_routes (fold_left (fun t p => add_route t (direct_route id p)) l t) ->
            r ∈ all_routes t \/ route_peer_id r = id) as Hin.
  { induction l as [|p l IH]; intros t r Hr; simpl in *; [by left|].
    apply IH in Hr as [Hr|Hr]; [|by right]. apply all_routes_add in Hr as [Hr| ->]; [by left|by right]. }
  split; simpl.
  - intros id' u. destruct (decide (id = id')) as [<-|Hne]; simplify_map_eq; eauto.
    intros [= <-]. unfold tun. by rewrite add_allowed_ips_id.
  - by apply Hwf.
  - intros r Hr. apply Hin in Hr as [Hr|Hr].
    + destruct (decide (id = route_peer_id r)) as [->|Hne]; simplify_map_eq; eauto.
    + rewrite Hr. by simplify_map_eq.
Qed.

Lemma remove_peer_wf m id : manager_wf m -> manager_wf (remove_peer m id).1.
Proof.
  intros W. unfold remove_peer. destruct (tunnels m !! id) as [t|] eqn:E; [|done].
  destruct W as [Wi Wt Wr]. split; simpl.
  - intros id' u. rewrite lookup_delete_Some. naive_solver.
  - by apply remove_peer_routes_wf.
  - intros r Hr. apply all_routes_remove_peer in Hr as [Hr Hne].
    rewrite lookup_delete_ne by done. auto.
Qed.

Lemma tick_step_fold_wf fuel l ts packets ts' packets' :
  (forall id t, (id, t) ∈ l -> tunnel_peer_id t = id) ->
  fold_left (tick_step fuel) l (Some (ts, packets)) = Some (ts', packets') ->
  (forall id t, ts !! id = Some t -> tunnel_peer_id t = id) ->
  (forall id t, ts' !! id = Some t -> tunnel_peer_id t = id) /\ (forall id, is_Some (ts !! id) -> is_Some (ts' !! id)).
Proof.
  revert ts packets. induction l as [|[id t] l IH]; intros ts packets Hl Hf Hts; simpl in Hf; [by simplify_eq|].
  destruct (drain_timers fuel t []) as [[t1 data]|] eqn:Ed; simpl in Hf.
  2: { exfalso. clear -Hf. induction l; simpl in Hf; [done|auto]. }
  destruct (IH _ _ ltac:(set_solver) Hf) as [H1 H2].
  { intros id' u. destruct (decide (id = id')) as [<-|Hne]; simplify_map_eq; eauto.
    intros [= <-]. apply drain_timers_id in Ed. rewrite Ed. apply Hl. set_solver. }
  split; [done|]. intros id' Hs. apply H2.
  destruct (decide (id = id')) as [<-|Hne]; simplify_map_eq; eauto.
Qed.

Lemma manager_step_wf m m' : manager_step m m' -> manager_wf m -> manager_wf m'.
Proof.
  intros Hs W. destruct Hs as [| | | | | | | |fuel m m' packets Ht].
  - by apply add_peer_wf.
  - by apply remove_peer_wf.
  - unfold update_endpoint. destruct (tunnels m !! id) as [t|] eqn:E; [|done].
    simpl. apply emit_wf. by eapply set_tunnels_wf.
  - unfold advertise_route. destruct (tunnels m !! id) as [t|] eqn:E; [|done]. simpl.
    destruct W as [Wi Wt Wr]. split; simpl; [done|by apply add_route_wf|].
    intros r Hr. apply all_routes_add in Hr as [Hr| ->]; [auto|]. simpl. by rewrite E.
  - unfold manager_set_route_approved. destruct (tunnels m !! id) as [t|] eqn:E; [|done].
    destruct (set_route_approved _ _ _ _) as [rt found] eqn:Es.
    assert (rt = (set_route_approved (routing_table m) p id b).1) as -> by by rewrite Es.
    assert (manager_wf (set_routing m (set_route_approved (routing_table m) p id b).1)).
    { destruct W as [Wi Wt Wr]. split; simpl; [done|by apply set_route_approved_wf|].
      intros r Hr. apply all_routes_approve in Hr as (r0 & Hr0 & -> & _). auto. }
    by destruct found.
  - unfold encapsulate_for_peer. destruct (tunnels m !! id) as [t|] eqn:E; [|done].
    destruct (encapsulate now t src) as [t' r] eqn:Ee. simpl. eapply set_tunnels_wf; [done..|].
    pose proof (encapsulate_id now t src) as Hid. by rewrite Ee in Hid.
  - unfold decapsulate_for_peer. destruct (tunnels m !! id) as [t|] eqn:E; [|done].
    destruct (decapsulate now t _ d) as [t' r] eqn:Ee.
    pose proof (decapsulate_id now t (Some (sa_ip sa)) d) as Hid. rewrite Ee in Hid. simpl in Hid.
    destruct (_ && _); simpl; [apply emit_wf|]; by eapply set_tunnels_wf.
  - unfold initiate_handshake. destruct (tunnels m !! id) as [t|] eqn:E; [|done].
    destruct (tunnel_endpoint t); [|done].
    unfold tunnel_initiate_handshake. destruct (tunn_format_handshake_initiation _ _) as [x r].
    simpl. by eapply set_tunnels_wf.
  - unfold tick in Ht. destruct (fold_left _ _ _) as [[ts ps]|] eqn:Ef; simplify_eq.
    destruct W as [Wi Wt Wr]. destruct (tick_step_fold_wf _ _ _ _ _ _ (fun id t Hin => Wi id t (proj1 (elem_of_map_to_list _ _ _) Hin)) Ef Wi) as [H1 H2].
    split; simpl; auto.
Qed.

Lemma manager_reachable_wf secret port m : manager_reachable secret port m -> manager_wf m.
Proof.
  induction 1; [|by eapply manager_step_wf].
  split; simpl; [done|apply RoutingTable_new_wf|]. intros r Hr. by apply not_elem_of_nil in Hr.
Qed.

(** However peers come and go, packets are only ever routed to a peer that
    has a tunnel: no operation leaves a route of a removed peer behind. *)
Theorem route_by_ip_has_tunnel `{!IpNetLaws} secret port m ip peer :
  manager_reachable secret port m -> route_by_ip m ip = Some peer ->
  exists t, tunnels m !! peer = Some t /\ tunnel_peer_id t = peer.
Proof.
  intros Hr Hl. apply manager_reachable_wf in Hr as [Wi Wt Wr].
  unfold route_by_ip, route_lookup in Hl. apply fmap_Some in Hl as (r & Hl & ->).
  apply lookup_route_best in Hl as [[Hin _] _]; [|done].
  destruct (Wr r Hin) as [t Ht]. eauto.
Qed.

(** Removing a peer succeeds exactly for a known peer and leaves nothing
    of it in the tunnel map or the routing table, and every other peer's
    tunnel and routes as they were. *)
Theorem remove_peer_spec m id :
  match remove_peer m id with
  | (m', Ok _) =>
      is_Some (tunnels m !! id) /\ tunnels m' = delete id (tunnels m) /\
      (forall r, r ∈ all_routes (routing_table m') <->
                 r ∈ all_routes (routing_table m) /\ route_peer_id r <> id) /\
      tunnel_events m' = tunnel_events m ++ [TunnelRemoved id]
  | (m', Err e) => tunnels m !! id = None /\ m' = m /\ e = PeerNotFound id
  end.
Proof.
  unfold remove_peer. destruct (tunnels m !! id) as [t|] eqn:E; [|done]. simpl.
  split_and!; [by eexists|done| |done]. intros r. apply all_routes_remove_peer.
Qed.

Lemma encapsulate_endpoint now t src : tunnel_endpoint (encapsulate now t src).1 = tunnel_endpoint t.
Proof.
  unfold encapsulate. destruct (tunn_encapsulate _ _) as [x []]; simpl; try done. by case_bool_decide.
Qed.

Lemma decapsulate_endpoint now t sa d : tunnel_endpoint (decapsulate now t sa d).1 = tunnel_endpoint t.
Proof.
  unfold decapsulate. destruct (tunn_decapsulate _ _ _) as [x []]; simpl; try done; by case_bool_decide.
Qed.

(** Roaming: a datagram moves a peer's endpoint only to the datagram's own
    source and only when [boringtun] authenticated it; anything else leaves the
    endpoint where it was, and no other peer's tunnel is touched at all. *)
Theorem roaming_needs_authentication now m id sa d m' r :
  decapsulate_for_peer now m id sa d = (m', r) ->
  (forall id', id' <> id -> tunnels m' !! id' = tunnels m !! id') /\
  ((tunnel_endpoint <$> (tunnels m' !! id)) = (tunnel_endpoint <$> (tunnels m !! id)) \/
   (exists tr, r = Ok tr /\ valid_data tr = true) /\
   tunnel_endpoint <$> (tunnels m' !! id) = Some (Some sa)).
Proof.
  unfold decapsulate_for_peer. destruct (tunnels m !! id) as [t|] eqn:E.
  2: { intros [= <- <-]. rewrite E. auto. }
  pose proof (decapsulate_endpoint now t (Some (sa_ip sa)) d) as He.
  destruct (decapsulate now t _ d) as [t1 tr]. simpl in He.
  destruct (valid_data tr) eqn:Ev; simpl;
    [case_bool_decide; simpl|]; intros [= <- <-]; simpl;
    (split; [intros; by rewrite lookup_insert_ne|]); rewrite lookup_insert_eq; simpl; rewrite ?He; eauto.
Qed.

(** Traffic never loses an established session silently: sending moves a
    tunnel only from [Disconnected] to [Connecting] or, on a cipher error, to
    [Failed]; receiving only to [Connected], with a handshake time. *)
Theorem traffic_state_moves now t src sa d :
  let t1 := (encapsulate now t src).1 in
  let t2 := (decapsulate now t sa d).1 in
  (tunnel_state t1 = tunnel_state t \/
   (tunnel_state t = Disconnected /\ tunnel_state t1 = Connecting) \/
   ((exists e, (encapsulate now t src).2 = TunnErr e) /\ tunnel_state t1 = TunnelFailed)) /\
  (tunnel_state t2 = tunnel_state t \/
   (tunnel_state t2 = Connected /\ last_handshake (tunnel_stats t2) = Some now)).
Proof.
  split.
  - unfold encapsulate. destruct (tunn_encapsulate _ _) as [x []]; simpl; eauto 10.
    case_bool_decide as Hd; simpl in *; auto.
  - unfold decapsulate. destruct (tunn_decapsulate _ _ _) as [x []]; simpl; auto; case_bool_decide; simpl; auto.
Qed.

(** Re-adding a peer does not retire its first configuration: after the
    key and the allowed prefixes of a peer are replaced, the old key still
    resolves to the peer and the old prefix is still routed to it, although its
    tunnel has the new key and would refuse traffic from that prefix. *)
Theorem readd_peer_keeps_old_configuration m id k1 k2 ep n ka :
  k1 <> k2 ->
  let m2 := add_peer (add_peer m id k1 ep [n] ka) id k2 ep [] ka in
  peer_by_pubkey m2 k1 = Some id /\
  direct_route id n ∈ all_routes (routing_table m2) /\
  exists t, tunnels m2 !! id = Some t /\ tunnel_peer_public_key t = k2 /\
            forall ip, peer_allows_ip m2 id ip = Ok false.
Proof.
  intros Hk. simpl. split_and!.
  - unfold peer_by_pubkey. simpl. by simplify_map_eq.
  - apply all_routes_add. by right.
  - eexists. split; [by simplify_map_eq|]. split; [done|]. intros ip. unfold peer_allows_ip. simpl.
    by simplify_map_eq.
Qed.

End tunnel_theorems.

(** ** Worked examples *)

Module TunnelExamples.

#[local] Existing Instance PrefixNet.lib.
#[local] Existing Instance PrefixNet.laws.

(** A tunnel that sends everything in the clear and accepts only datagrams that
    start with the byte 4. *)
#[local] Instance plain : TunnLib := {|
  Tunn := unit;
  tunn_new _ _ _ _ := tt;
  tunn_encapsulate t src := (t, WriteToNetwork src);
  tunn_decapsulate t _ d := (t, match d with 4 :: _ => WriteToTunnelV4 d 167837697 | _ => TunnDone end);
  tunn_format_handshake_initiation t _ := (t, WriteToNetwork [1]);
  tunn_update_timers t := (t, TunnDone);
  tunn_is_expired _ := false;
|}.

Definition nets1 : list PrefixNet.net := omap PrefixNet.parse ["10.1.0.0/16"%string].

Definition peers1 : TunnelManager :=
  add_peer (TunnelManager_new [] 51820) "peer-a" [1] None nets1 None.

Definition ep1 : SocketAddr := mkSocketAddr (V4 134744072) 51820.

Lemma peers1_reachable : manager_reachable [] 51820 peers1.
Proof. eapply mr_step; [apply mr_new|apply ms_add]. Qed.

Lemma route_by_ip_has_tunnel_witness :
  exists t, tunnels peers1 !! "peer-a"%string = Some t /\ tunnel_peer_id t = "peer-a"%string.
Proof.
  apply (route_by_ip_has_tunnel [] 51820 peers1 (V4 167837697) "peer-a" peers1_reachable).
  vm_compute. reflexivity.
Defined.

Lemma roaming_needs_authentication_witness :
  (forall id', id' <> "peer-a"%string ->
     tunnels (decapsulate_for_peer 0 peers1 "peer-a" ep1 [4; 5]).1 !! id' = tunnels peers1 !! id') /\
  ((tunnel_endpoint <$> (tunnels (decapsulate_for_peer 0 peers1 "peer-a" ep1 [4; 5]).1 !! "peer-a"%string))
     = (tunnel_endpoint <$> (tunnels peers1 !! "peer-a"%string)) \/
   (exists tr, (decapsulate_for_peer 0 peers1 "peer-a" ep1 [4; 5]).2 = Ok tr /\ valid_data tr = true) /\
   tunnel_endpoint <$> (tunnels (decapsulate_for_peer 0 peers1 "peer-a" ep1 [4; 5]).1 !! "peer-a"%string)
     = Some (Some ep1)).
Proof.
  apply (roaming_needs_authentication 0 peers1 "peer-a" ep1 [4; 5]).
  apply surjective_pairing.
Defined.

Lemma readd_peer_keeps_old_configuration_witness :
  peer_by_pubkey (add_peer (add_peer (TunnelManager_new [] 1) "p" [1] None nets1 None)
                    "p" [2] None [] None) [1]
  = Some "p"%string.
Proof.
  assert (length nets1 = 1%nat) as Hl by (vm_compute; reflexivity).
  destruct nets1 as [|n [|n' l]]; [discriminate| |discriminate].
  refine (proj1 (readd_peer_keeps_old_configuration (TunnelManager_new [] 1) "p" [1] [2] None
                   (n : IpNet) None _)).
  discriminate.
Defined.

End TunnelExamples.
