(* ===== verification/Packet.v ===== *)
(** * Packet: authorised forwarding (headscale-core/src/authorization.rs, packet.rs)

    The policy-aware packet router: which peer a packet may go to, the header
    fields it reads, and the steps that send and receive datagrams.  The UDP
    socket is the list of datagrams handed to it; whether a send succeeds is the
    argument [send_to].  The task orchestration of [run] and [run_authorized]
    (spawned loops around these steps) is not modelled. *)

From S2P Require Import Prelude Bytes Net Routing Acl Tunnel.
From stdpp Require Import base list gmap strings.
From Stdlib Require Import ZArith Lia.

Open Scope Z_scope.
Open Scope rust_scope.

(** ** Header fields *)

Definition parse_destination (packet : list Z) : option IpAddr :=
  match packet with
  | [] => None
  | b0 :: _ =>
      if (Z.shiftr b0 4 =? 4) && (20 <=? len packet) then Some (ipv4_of_bytes (slice 16 20 packet))
      else if (Z.shiftr b0 4 =? 6) && (40 <=? len packet) then Some (ipv6_of_bytes (slice 24 40 packet))
      else None
  end.

Definition parse_source (packet : list Z) : option IpAddr :=
  match packet with
  | [] => None
  | b0 :: _ =>
      if (Z.shiftr b0 4 =? 4) && (20 <=? len packet) then Some (ipv4_of_bytes (slice 12 16 packet))
      else if (Z.shiftr b0 4 =? 6) && (40 <=? len packet) then Some (ipv6_of_bytes (slice 8 24 packet))
      else None
  end.

(** ** The forwarding decision *)

Inductive ForwardDecision := Allow (peer_id : string) | NoRoute | FwdDeny.

#[export] Instance ForwardDecision_eq_dec : EqDecision ForwardDecision.
Proof. solve_decision. Defined.

Inductive RouterEvent :=
| PacketSent (peer_id : string) (bytes : Z)
| PacketReceived (peer_id : string) (bytes : Z)
| RouterEventError (message : string).

Record ReceivedPacket := mkReceived {
  rp_data : list Z;
  rp_src_ip : IpAddr;
  rp_peer_id : string;
}.

Section packet.
Context `{IpNetLib} `{TunnLib}.

Definition authorize_forward (acl : AclPolicy) (routes : RoutingTable) (ctx : AclContext)
    (dst : AclDestination) : ForwardDecision :=
  if negb (bool_decide (evaluate acl ctx dst = Accept)) then FwdDeny
  else match dst_ip dst with
       | None => NoRoute
       | Some ip => match route_lookup routes ip with
                    | Some peer_id => Allow peer_id
                    | None => NoRoute
                    end
       end.

Definition authorize_ip_forward (acl : AclPolicy) (routes : RoutingTable) (ctx : AclContext)
    (ip : IpAddr) : ForwardDecision :=
  authorize_forward acl routes ctx (ip_only ip).

(** [TunnelError]'s [Display], the text the router's error carries. *)
Definition show_tunnel_error (e : TunnelError) : string :=
  match e with
  | Creation m => "Failed to create tunnel: " ++ m
  | PeerNotFound p => "Peer not found: " ++ p
  | RouteNotFound p n => "Route not found for peer " ++ p ++ ": " ++ net_show n
  | NoEndpoint p => "No endpoint configured for peer: " ++ p
  | UnknownPacket => "Unknown packet (no matching peer)"
  | Handshake m => "Handshake failed: " ++ m
  end.

(** ** The router *)

Inductive RouterError :=
| RouterIo (m : string)
| RouterTunnel (m : string)
| RouterNoEndpoint (peer_id : string)
| InvalidPacket.

Record PacketRouter := mkRouter {
  router_manager : TunnelManager;
  router_events : list RouterEvent;
  router_sent : list (list Z * SocketAddr);
}.

(** [UdpSocket::send_to]: the error it returns, if any. *)
Variable send_to : list Z -> SocketAddr -> option string.

Definition set_manager (r : PacketRouter) (m : TunnelManager) : PacketRouter :=
  mkRouter m (router_events r) (router_sent r).

Definition log_event (r : PacketRouter) (e : RouterEvent) : PacketRouter :=
  mkRouter (router_manager r) (router_events r ++ [e]) (router_sent r).

Definition socket_send (r : PacketRouter) (data : list Z) (addr : SocketAddr)
  : PacketRouter * result unit RouterError :=
  match send_to data addr with
  | None => (mkRouter (router_manager r) (router_events r) (router_sent r ++ [(data, addr)]), Ok tt)
  | Some e => (r, Err (RouterIo e))
  end.

Definition send_to_peer (now : Z) (r : PacketRouter) (peer_id : string) (packet : list Z)
  : PacketRouter * result unit RouterError :=
  match encapsulate_for_peer now (router_manager r) peer_id packet with
  | (m, Err e) => (set_manager r m, Err (RouterTunnel (show_tunnel_error e)))
  | (m, Ok (res, endpoint)) =>
      let r1 := set_manager r m in
      match res with
      | WriteToNetwork data =>
          match endpoint with
          | Some ep =>
              match socket_send r1 data ep with
              | (r2, Ok _) => (log_event r2 (PacketSent peer_id (len packet)), Ok tt)
              | (r2, Err e) => (r2, Err e)
              end
          | None => (r1, Err (RouterNoEndpoint peer_id))
          end
      | TunnErr e => (r1, Err (RouterTunnel e))
      | _ => (r1, Ok tt)
      end
  end.

Definition send_authorized (now : Z) (acl : AclPolicy) (ctx : AclContext) (r : PacketRouter)
    (packet : list Z) : PacketRouter * result ForwardDecision RouterError :=
  match parse_destination packet with
  | None => (r, Err InvalidPacket)
  | Some dst =>
      let decision := authorize_forward acl (routing_table (router_manager r)) ctx (ip_only dst) in
      match decision with
      | Allow peer_id =>
          match send_to_peer now r peer_id packet with
          | (r', Ok _) => (r', Ok decision)
          | (r', Err e) => (r', Err e)
          end
      | _ => (r, Ok decision)
      end
  end.

(** [peer_allows_ip(..).await.unwrap_or(false)] *)
Definition source_allowed (m : TunnelManager) (peer_id : string) (ip : IpAddr) : bool :=
  match peer_allows_ip m peer_id ip with Ok b => b | Err _ => false end.

(** A decrypted packet from a peer: accepted only from an allowed source. *)
Definition accept_packet (r : PacketRouter) (peer_id : string) (data : list Z) (addr : IpAddr)
  : PacketRouter * option ReceivedPacket :=
  let src_ip := default addr (parse_source data) in
  if negb (source_allowed (router_manager r) peer_id src_ip)
  then (log_event r (RouterEventError ("Rejected packet from " ++ peer_id ++ ": unauthorized source "
                                       ++ show_ip src_ip)), None)
  else (log_event r (PacketReceived peer_id (len data)), Some (mkReceived data addr peer_id)).

(** One datagram of [recv]: the peers are tried in turn; [Ok None] is the outer
    loop going on to the next datagram. *)
Fixpoint recv_datagram (now : Z) (r : PacketRouter) (peers : list string) (src_addr : SocketAddr)
    (datagram : list Z) : PacketRouter * result (option ReceivedPacket) RouterError :=
  match peers with
  | [] => (r, Ok None)
  | peer_id :: rest =>
      let '(m, res) := decapsulate_for_peer now (router_manager r) peer_id src_addr datagram in
      let r1 := set_manager r m in
      match res with
      | Ok (WriteToTunnelV4 data addr) =>
          match accept_packet r1 peer_id data (V4 addr) with
          | (r2, Some p) => (r2, Ok (Some p))
          | (r2, None) => recv_datagram now r2 rest src_addr datagram
          end
      | Ok (WriteToTunnelV6 data addr) =>
          match accept_packet r1 peer_id data (V6 addr) with
          | (r2, Some p) => (r2, Ok (Some p))
          | (r2, None) => recv_datagram now r2 rest src_addr datagram
          end
      | Ok (WriteToNetwork response) =>
          match socket_send r1 response src_addr with
          | (r2, Ok _) => recv_datagram now r2 rest src_addr datagram
          | (r2, Err e) => (r2, Err e)
          end
      | Ok TunnDone | Ok (TunnErr _) | Err _ => recv_datagram now r1 rest src_addr datagram
      end
  end.

Definition recv_one (now : Z) (r : PacketRouter) (src_addr : SocketAddr) (datagram : list Z)
  : PacketRouter * result (option ReceivedPacket) RouterError :=
  recv_datagram now r (list_peers (router_manager r)) src_addr datagram.

Definition router_initiate_handshake (r : PacketRouter) (peer_id : string)
  : PacketRouter * result unit RouterError :=
  match initiate_handshake (router_manager r) peer_id with
  | (m, Err e) => (set_manager r m, Err (RouterTunnel (show_tunnel_error e)))
  | (m, Ok (endpoint, data)) => socket_send (set_manager r m) data endpoint
  end.

Definition send_counting (acc : PacketRouter * Z) (p : string * SocketAddr * list Z) : PacketRouter * Z :=
  match socket_send acc.1 p.2 p.1.2 with
  | (r', Ok _) => (r', acc.2 + 1)
  | (r', Err _) => (r', acc.2)
  end.

Definition router_tick (fuel : nat) (r : PacketRouter) : option (PacketRouter * Z) :=
  match tick fuel (router_manager r) with
  | Some (m, packets) => Some (fold_left send_counting packets (set_manager r m, 0))
  | None => None
  end.

(** ** Theorems *)

Lemma authorize_forward_Allow acl routes ctx dst peer :
  authorize_forward acl routes ctx dst = Allow peer <->
  evaluate acl ctx dst = Accept /\
  exists ip, dst_ip dst = Some ip /\ route_lookup routes ip = Some peer.
Proof.
  unfold authorize_forward. destruct (evaluate acl ctx dst); simpl.
  - destruct (dst_ip dst) as [ip|].
    + destruct (route_lookup routes ip) eqn:E; split.
      * intros [= ->]. eauto.
      * intros (_ & ? & [= <-] & H'). congruence.
      * done.
      * intros (_ & ? & [= <-] & H'). congruence.
    + split; [done|]. intros (_ & ? & H' & _). done.
  - split; [done|]. intros [H' _]. done.
Qed.

(** The forwarding decision: denied exactly when the policy does not
    accept the destination (whatever the routes are), forwarded to a peer
    exactly when the policy accepts it and the routing table elects that peer,
    and otherwise without a route. *)
Theorem authorize_forward_spec acl routes ctx dst :
  match authorize_forward acl routes ctx dst with
  | FwdDeny => evaluate acl ctx dst = Deny
  | Allow peer => evaluate acl ctx dst = Accept /\
      exists ip, dst_ip dst = Some ip /\ route_lookup routes ip = Some peer
  | NoRoute => evaluate acl ctx dst = Accept /\ forall ip, dst_ip dst = Some ip -> route_lookup routes ip = None
  end.
Proof.
  destruct (authorize_forward acl routes ctx dst) as [peer| |] eqn:E.
  - by apply authorize_forward_Allow.
  - unfold authorize_forward in E. destruct (evaluate acl ctx dst); [|done]. split; [done|].
    intros ip Hip. simpl in E. rewrite Hip in E. by destruct (route_lookup routes ip).
  - unfold authorize_forward in E. destruct (evaluate acl ctx dst); [|done]. simpl in E.
    destruct (dst_ip dst) as [ip|]; [|done]. by destruct (route_lookup routes ip).
Qed.

Lemma send_to_peer_sent now r peer packet r' res :
  send_to_peer now r peer packet = (r', res) ->
  router_sent r' = router_sent r \/
  exists t data ep, tunnels (router_manager r) !! peer = Some t /\ tunnel_endpoint t = Some ep /\
    (encapsulate now t packet).2 = WriteToNetwork data /\ router_sent r' = router_sent r ++ [(data, ep)].
Proof.
  unfold send_to_peer, encapsulate_for_peer.
  destruct (tunnels (router_manager r) !! peer) as [t|] eqn:Et; [|intros [= <- <-]; by left].
  destruct (encapsulate now t packet) as [t' tr] eqn:Ee.
  destruct tr; try (intros [= <- <-]; by left).
  destruct (tunnel_endpoint t) as [ep|] eqn:Eep; [|intros [= <- <-]; by left].
  unfold socket_send. destruct (send_to data ep); intros [= <- <-]; [by left|].
  right. exists t, data, ep. by rewrite Ee.
Qed.

(** Forwarding is authorised: whenever the policy-aware path hands a
    datagram to the socket, the packet has a destination address the policy
    accepts, the datagram is the encryption of that packet for the peer the
    routing table elects, and it goes to that peer's endpoint; nothing else is
    sent. *)
Theorem send_authorized_safe now acl ctx r packet r' res :
  send_authorized now acl ctx r packet = (r', res) ->
  router_sent r' = router_sent r \/
  exists dst peer t data ep,
    parse_destination packet = Some dst /\ evaluate acl ctx (ip_only dst) = Accept /\
    route_lookup (routing_table (router_manager r)) dst = Some peer /\
    tunnels (router_manager r) !! peer = Some t /\ tunnel_endpoint t = Some ep /\
    (encapsulate now t packet).2 = WriteToNetwork data /\
    router_sent r' = router_sent r ++ [(data, ep)].
Proof.
  unfold send_authorized. destruct (parse_destination packet) as [dst|] eqn:Ed; [|intros [= <- <-]; by left].
  destruct (authorize_forward _ _ _ _) as [peer| |] eqn:Ea; [|intros [= <- <-]; by left..].
  destruct (send_to_peer now r peer packet) as [r1 res1] eqn:Es.
  pose proof (send_to_peer_sent _ _ _ _ _ _ Es) as Hsent.
  apply authorize_forward_Allow in Ea as (Hacc & ip & [= <-] & Hroute).
  destruct res1; intros [= <- <-]; (destruct Hsent as [Hs|(t & data & ep & Hs)]; [by left|right]);
    exists dst, peer, t, data, ep; intuition.
Qed.

(** A packet the policy denies, or that has no IP destination, changes
    nothing: no datagram, no event, no tunnel state. *)
Theorem send_authorized_denied now acl ctx r packet :
  (forall dst, parse_destination packet = Some dst -> evaluate acl ctx (ip_only dst) = Deny) ->
  send_authorized now acl ctx r packet =
  (r, match parse_destination packet with Some _ => Ok FwdDeny | None => Err InvalidPacket end).
Proof.
  intros Hd. unfold send_authorized. destruct (parse_destination packet) as [dst|]; [|done].
  unfold authorize_forward. rewrite (Hd dst); done.
Qed.

(** The source a received packet claims, as the router reads it. *)
Definition claimed_source (p : ReceivedPacket) : IpAddr := default (rp_src_ip p) (parse_source (rp_data p)).

Lemma decapsulate_allowed now t sa d :
  tunnel_allowed_ips (decapsulate now t sa d).1 = tunnel_allowed_ips t.
Proof.
  unfold decapsulate. destruct (tunn_decapsulate _ _ _) as [x []]; simpl; try done; by case_bool_decide.
Qed.

(** Trying a datagram on a peer changes no peer's allowed prefixes. *)
Lemma decapsulate_for_peer_allowed now m id sa d id' :
  tunnel_allowed_ips <$> (tunnels (decapsulate_for_peer now m id sa d).1 !! id')
  = tunnel_allowed_ips <$> (tunnels m !! id').
Proof.
  unfold decapsulate_for_peer. destruct (tunnels m !! id) as [t|] eqn:E; [|done].
  pose proof (decapsulate_allowed now t (Some (sa_ip sa)) d) as Ha.
  destruct (decapsulate now t _ d) as [t1 tr]. simpl in Ha.
  destruct (_ && _); simpl; (destruct (decide (id = id')) as [<-|];
    [rewrite lookup_insert_eq, E; simpl; by rewrite ?Ha|by rewrite lookup_insert_ne]).
Qed.

Lemma accept_packet_Some r peer data addr r' p :
  accept_packet r peer data addr = (r', Some p) ->
  rp_peer_id p = peer /\ rp_data p = data /\ rp_src_ip p = addr /\
  source_allowed (router_manager r) peer (claimed_source p) = true.
Proof.
  unfold accept_packet. destruct (source_allowed _ _ _) eqn:E; simpl; intros [= <- <-]. done.
Qed.

Lemma source_allowed_true m peer ip :
  source_allowed m peer ip = true <->
  exists ips n, tunnel_allowed_ips <$> (tunnels m !! peer) = Some ips /\ n ∈ ips /\ net_contains n ip = true.
Proof.
  unfold source_allowed, peer_allows_ip. destruct (tunnels m !! peer) as [t|]; simpl.
  - rewrite existsb_elem. naive_solver.
  - naive_solver.
Qed.

(** Managers in which every peer has the same allowed prefixes. *)
Definition same_allowed (m1 m2 : TunnelManager) : Prop :=
  forall id, tunnel_allowed_ips <$> (tunnels m1 !! id) = tunnel_allowed_ips <$> (tunnels m2 !! id).

Lemma source_allowed_same m1 m2 peer ip :
  same_allowed m1 m2 -> source_allowed m1 peer ip = source_allowed m2 peer ip.
Proof.
  intros Hs. specialize (Hs peer). unfold source_allowed, peer_allows_ip.
  destruct (tunnels m1 !! peer), (tunnels m2 !! peer); simplify_eq/=; congruence.
Qed.

Lemma accept_packet_manager r peer data addr :
  router_manager (accept_packet r peer data addr).1 = router_manager r.
Proof. unfold accept_packet. by destruct (negb _). Qed.

Lemma recv_datagram_allowed now r peers src_addr datagram r1 r' p :
  same_allowed (router_manager r1) (router_manager r) ->
  recv_datagram now r1 peers src_addr datagram = (r', Ok (Some p)) ->
  rp_peer_id p ∈ peers /\ source_allowed (router_manager r) (rp_peer_id p) (claimed_source p) = true.
Proof.
  revert r1. induction peers as [|peer rest IH]; intros r1 Hsame Hr; simpl in Hr; [done|].
  pose proof (decapsulate_for_peer_allowed now (router_manager r1) peer src_addr datagram) as Hd.
  destruct (decapsulate_for_peer now (router_manager r1) peer src_addr datagram) as [m res]. simpl in Hd.
  assert (same_allowed (router_manager (set_manager r1 m)) (router_manager r)) as Hsame'.
  { intros id. simpl. by rewrite Hd. }
  assert (forall r2, same_allowed (router_manager r2) (router_manager r) ->
            recv_datagram now r2 rest src_addr datagram = (r', Ok (Some p)) ->
            rp_peer_id p ∈ peer :: rest /\
            source_allowed (router_manager r) (rp_peer_id p) (claimed_source p) = true) as IH'.
  { intros r2 H2 H3. destruct (IH r2 H2 H3). split; [by right|done]. }
  assert (forall data addr,
            (match accept_packet (set_manager r1 m) peer data addr with
             | (r2, Some p) => (r2, Ok (Some p))
             | (r2, None) => recv_datagram now r2 rest src_addr datagram
             end) = (r', Ok (Some p)) ->
            rp_peer_id p ∈ peer :: rest /\
            source_allowed (router_manager r) (rp_peer_id p) (claimed_source p) = true) as Hacc.
  { intros data addr Ha. pose proof (accept_packet_manager (set_manager r1 m) peer data addr) as Hm.
    destruct (accept_packet _ _ _ _) as [r2 [q|]] eqn:Ea; simpl in Hm.
    - injection Ha as <- <-. apply accept_packet_Some in Ea as (<- & _ & _ & Hs). split; [by left|].
      rewrite <-Hs. symmetry. by apply source_allowed_same.
    - apply (IH' r2); [by rewrite Hm|done]. }
  destruct res as [[|e|resp|data addr|data addr]|e]; try by eapply IH'.
  - unfold socket_send in Hr. destruct (send_to resp src_addr); [done|]. by apply IH' in Hr.
  - by apply Hacc in Hr.
  - by apply Hacc in Hr.
Qed.

(** No spoofing: whatever order the peers are tried in, a packet handed to
    the TUN side comes from one of them, and claims a source inside one of that
    peer's allowed prefixes. *)
Theorem recv_source_allowed now r peers src_addr datagram r' p :
  recv_datagram now r peers src_addr datagram = (r', Ok (Some p)) ->
  rp_peer_id p ∈ peers /\
  exists t n, tunnels (router_manager r) !! rp_peer_id p = Some t /\
    n ∈ tunnel_allowed_ips t /\ net_contains n (claimed_source p) = true.
Proof.
  intros Hr. apply (recv_datagram_allowed now r) in Hr as [Hin Hs]; [|intros ?; done]. split; [done|].
  apply source_allowed_true in Hs as (ips & n & Hi & Hn & Hc).
  apply fmap_Some in Hi as (t & Ht & ->). eauto.
Qed.

(** The forward path looks at addresses only: in a policy without deny
    rules, a rule that opens one port [q] of a host makes the router forward
    every packet to that host, whatever its protocol and port. *)
Theorem forward_ignores_ports now acl ctx r dst q peer packet :
  (forall rule, rule ∈ acls acl -> rule_action rule = Accept) ->
  can_reach_port acl ctx dst q = true ->
  route_lookup (routing_table (router_manager r)) dst = Some peer ->
  parse_destination packet = Some dst ->
  send_authorized now acl ctx r packet =
  let '(r', res) := send_to_peer now r peer packet in
  (r', match res with Ok _ => Ok (Allow peer) | Err e => Err e end).
Proof.
  intros Hacc Hq Hroute Hdst. unfold send_authorized. rewrite Hdst.
  unfold can_reach_port in Hq. apply bool_decide_eq_true in Hq.
  assert (authorize_forward acl (routing_table (router_manager r)) ctx (ip_only dst) = Allow peer) as ->.
  { apply authorize_forward_Allow. split; [by eapply evaluate_any_port|]. eauto. }
  by destruct (send_to_peer now r peer packet) as [r' []].
Qed.

End packet.

(** ** Instances of the theorems *)

Module PacketExamples.

#[local] Existing Instance PrefixNet.lib.
#[local] Existing Instance TunnelExamples.plain.

Definition no_fail (_ : list Z) (_ : SocketAddr) : option string := None.

Definition router1 : PacketRouter := mkRouter TunnelExamples.peers1 [] [].

(** The peer that routes 10.0.0.0/8. *)
Definition router2 : PacketRouter :=
  mkRouter (add_peer (TunnelManager_new [] 51820) "peer-b" [1] (Some TunnelExamples.ep1)
              (omap PrefixNet.parse ["10.0.0.0/8"%string]) None) [] [].

(** An IPv4 header from 10.1.0.1 to 10.0.0.1 (20 bytes). *)
Definition packet1 : list Z := [64; 0; 0; 0; 0; 0; 0; 0; 0; 0; 0; 0; 10; 1; 0; 1; 10; 0; 0; 1].

(** A datagram the [plain] tunnel accepts. *)
Definition datagram1 : list Z := [4; 0; 0].

Lemma send_authorized_safe_witness :
  router_sent (send_authorized no_fail 0 AclExamples.policy1 AclExamples.alice router2 packet1).1
  = router_sent router2 \/
  exists dst peer t data ep,
    parse_destination packet1 = Some dst /\
    evaluate AclExamples.policy1 AclExamples.alice (ip_only dst) = Accept /\
    route_lookup (routing_table (router_manager router2)) dst = Some peer /\
    tunnels (router_manager router2) !! peer = Some t /\ tunnel_endpoint t = Some ep /\
    (encapsulate 0 t packet1).2 = WriteToNetwork data /\
    router_sent (send_authorized no_fail 0 AclExamples.policy1 AclExamples.alice router2 packet1).1
    = router_sent router2 ++ [(data, ep)].
Proof.
  apply (send_authorized_safe no_fail 0 AclExamples.policy1 AclExamples.alice router2 packet1 _
           (send_authorized no_fail 0 AclExamples.policy1 AclExamples.alice router2 packet1).2).
  apply surjective_pairing.
Defined.

(** Nobody may reach 8.8.8.8. *)
Definition packet2 : list Z := [64; 0; 0; 0; 0; 0; 0; 0; 0; 0; 0; 0; 10; 1; 0; 1; 8; 8; 8; 8].

Lemma send_authorized_denied_witness :
  send_authorized no_fail 0 AclExamples.policy1 AclExamples.alice router1 packet2 = (router1, Ok FwdDeny).
Proof.
  apply (send_authorized_denied no_fail 0 AclExamples.policy1 AclExamples.alice router1 packet2).
  intros dst Hd. assert (dst = V4 134744072) as ->.
  { assert (parse_destination packet2 = Some (V4 134744072)) as E by (vm_compute; reflexivity). congruence. }
  vm_compute. reflexivity.
Defined.

Lemma datagram1_received :
  (recv_datagram no_fail 0 router1 ["peer-a"%string] TunnelExamples.ep1 datagram1).2
  = Ok (Some (mkReceived datagram1 (V4 167837697) "peer-a")).
Proof. vm_compute. reflexivity. Qed.

Lemma recv_source_allowed_witness :
  exists t n, tunnels (router_manager router1) !! "peer-a"%string = Some t /\
    n ∈ tunnel_allowed_ips t /\ net_contains n (V4 167837697) = true.
Proof.
  apply (recv_source_allowed no_fail 0 router1 ["peer-a"%string] TunnelExamples.ep1 datagram1
           (recv_datagram no_fail 0 router1 ["peer-a"%string] TunnelExamples.ep1 datagram1).1
           (mkReceived datagram1 (V4 167837697) "peer-a")).
  rewrite <-datagram1_received. apply surjective_pairing.
Defined.

(** Port 22 of 10.0.0.1 is the only one the policy opens; [packet1] names none
    and is forwarded. *)
Lemma forward_ignores_ports_witness :
  (send_authorized no_fail 0 AclExamples.policy1 AclExamples.alice router2 packet1).2 = Ok (Allow "peer-b").
Proof.
  rewrite (forward_ignores_ports no_fail 0 AclExamples.policy1 AclExamples.alice router2 AclExamples.target 22
             "peer-b" packet1 AclExamples.policy1_accepts); vm_compute; reflexivity.
Defined.

End PacketExamples.
