(* ===== verification/DerpProtocol.v ===== *)
(** * DerpProtocol: the DERP wire protocol (headscale-core/src/derp.rs, module protocol)

    Frames, their payload parsers and encoders, the NaCl-box information
    envelopes and the incremental decoder that cuts a byte stream into frames.
    A Rust [String] is the list of its UTF-8 bytes; [String::from_utf8_lossy] is
    in [Utf8].  The box ([crypto_box]) and the JSON codec of the information
    structures ([serde_json]) are arguments, with what the protocol relies on
    as classes of laws.  The client's sockets and the sidecar process of the
    same source file are not modelled. *)

From S2P Require Import Prelude Bytes Utf8.
From stdpp Require Import base list strings.
From Stdlib Require Import ZArith Lia.

Open Scope Z_scope.
Open Scope rust_scope.

(** ** Constants and data *)

Definition MAX_PACKET_SIZE : Z := Z.shiftl 64 10.
Definition FRAME_HEADER_LEN : nat := 5.
Definition KEY_LEN : nat := 32.
Definition NONCE_LEN : nat := 24.
Definition MAX_CLIENT_INFO_LEN : Z := Z.shiftl 256 10.
Definition MAX_INFO_LEN : Z := Z.shiftl 1 20.
Definition MAX_HANDSHAKE_FRAME_LEN : Z := Z.of_nat KEY_LEN + Z.of_nat NONCE_LEN + MAX_CLIENT_INFO_LEN.
Definition MAX_CLIENT_FRAME_LEN : Z := 2 * Z.of_nat KEY_LEN + MAX_PACKET_SIZE.
Definition PROTOCOL_VERSION : Z := 2.
Definition MAGIC : list Z := [68; 69; 82; 80; 240; 159; 148; 145].

Inductive FrameType :=
| FT_ServerKey | FT_ClientInfo | FT_ServerInfo | FT_SendPacket | FT_RecvPacket | FT_KeepAlive
| FT_NotePreferred | FT_PeerGone | FT_PeerPresent | FT_ForwardPacket | FT_WatchConns | FT_ClosePeer
| FT_Ping | FT_Pong | FT_Health | FT_Restarting.

Definition code (t : FrameType) : Z :=
  match t with
  | FT_ServerKey => 1 | FT_ClientInfo => 2 | FT_ServerInfo => 3 | FT_SendPacket => 4
  | FT_RecvPacket => 5 | FT_KeepAlive => 6 | FT_NotePreferred => 7 | FT_PeerGone => 8
  | FT_PeerPresent => 9 | FT_ForwardPacket => 10 | FT_WatchConns => 16 | FT_ClosePeer => 17
  | FT_Ping => 18 | FT_Pong => 19 | FT_Health => 20 | FT_Restarting => 21
  end.

Definition from_code (c : Z) : option FrameType :=
  if c =? 1 then Some FT_ServerKey
  else if c =? 2 then Some FT_ClientInfo
  else if c =? 3 then Some FT_ServerInfo
  else if c =? 4 then Some FT_SendPacket
  else if c =? 5 then Some FT_RecvPacket
  else if c =? 6 then Some FT_KeepAlive
  else if c =? 7 then Some FT_NotePreferred
  else if c =? 8 then Some FT_PeerGone
  else if c =? 9 then Some FT_PeerPresent
  else if c =? 10 then Some FT_ForwardPacket
  else if c =? 16 then Some FT_WatchConns
  else if c =? 17 then Some FT_ClosePeer
  else if c =? 18 then Some FT_Ping
  else if c =? 19 then Some FT_Pong
  else if c =? 20 then Some FT_Health
  else if c =? 21 then Some FT_Restarting
  else None.

Inductive PeerGoneReason := Gone_Disconnected | NotHere | MeshConnBroke | UnknownReason (c : Z).

Definition reason_code (r : PeerGoneReason) : Z :=
  match r with
  | Gone_Disconnected => 0
  | NotHere => 1
  | MeshConnBroke => 240
  | UnknownReason c => c
  end.

Definition reason_from_code (c : Z) : PeerGoneReason :=
  if c =? 0 then Gone_Disconnected
  else if c =? 1 then NotHere
  else if c =? 240 then MeshConnBroke
  else UnknownReason c.

(** The flag byte of a [PeerPresent] frame. *)
Definition PeerPresentFlags := Z.
Definition IS_REGULAR : Z := Z.shiftl 1 0.
Definition is_regular (f : PeerPresentFlags) : bool := negb (Z.land f IS_REGULAR =? 0).

Record PeerEndpoint := mkPeerEndpoint { pe_ip : list Z; pe_port : Z }.

Inductive Frame :=
| ServerKey (key extra : list Z)
| ClientInfoFrame (public_key encrypted_info : list Z)
| ServerInfoFrame (encrypted_info : list Z)
| SendPacket (destination packet : list Z)
| ForwardPacket (source destination packet : list Z)
| RecvPacket (source packet : list Z)
| KeepAlive
| NotePreferred (preferred : bool)
| PeerGone (peer : list Z) (reason : PeerGoneReason)
| PeerPresent (peer : list Z) (endpoint : option PeerEndpoint) (flags : option PeerPresentFlags)
    (extra : list Z)
| WatchConns
| ClosePeer (peer : list Z)
| Ping (payload : list Z)
| Pong (payload : list Z)
| Health (problem : list Z)
| Restarting (reconnect_in_ms try_for_ms : Z)
| UnknownFrame (frame_type : Z) (payload : list Z).

Inductive ProtocolError :=
| TruncatedHeader (actual : Z)
| FrameTooLarge (len max : Z)
| IncompleteFrame (expected actual : Z)
| InvalidPayload (frame_type : FrameType) (reason : string)
| PayloadTooLarge (len : Z)
| PacketTooLarge (len max : Z)
| ZeroKey
| InfoEnvelopeTooShort (len : Z)
| CryptoBoxError
| InfoJson (m : string).

(** ** Payload parsers *)

Definition invalid {A} (t : FrameType) (reason : string) : result A ProtocolError :=
  Err (InvalidPayload t reason).

Definition validate_packet_len (n : Z) : result unit ProtocolError :=
  if n <=? MAX_PACKET_SIZE then Ok tt else Err (PacketTooLarge n MAX_PACKET_SIZE).

Definition split_key (payload : list Z) (t : FrameType) : result (list Z * list Z) ProtocolError :=
  if len payload <? Z.of_nat KEY_LEN then invalid t "payload is shorter than a DERP key"
  else Ok (take KEY_LEN payload, drop KEY_LEN payload).

Definition require_empty (t : FrameType) (payload : list Z) : result unit ProtocolError :=
  match payload with [] => Ok tt | _ => invalid t "expected empty payload" end.

Definition parse_server_key (payload : list Z) : result Frame ProtocolError :=
  if len payload <? len MAGIC + Z.of_nat KEY_LEN
  then invalid FT_ServerKey "server greeting is shorter than magic plus key"
  else if negb (bool_decide (take (length MAGIC) payload = MAGIC))
  then invalid FT_ServerKey "server greeting magic mismatch"
  else let? ' (key, extra) := split_key (drop (length MAGIC) payload) FT_ServerKey in
       Ok (ServerKey key extra).

Definition parse_client_info (payload : list Z) : result Frame ProtocolError :=
  if len payload <? Z.of_nat KEY_LEN + Z.of_nat NONCE_LEN
  then invalid FT_ClientInfo "missing client key or encrypted info nonce"
  else let? ' (public_key, encrypted_info) := split_key payload FT_ClientInfo in
       if Z.of_nat NONCE_LEN + MAX_CLIENT_INFO_LEN <? len encrypted_info
       then invalid FT_ClientInfo "encrypted client info is too large"
       else Ok (ClientInfoFrame public_key encrypted_info).

Definition parse_server_info (payload : list Z) : result Frame ProtocolError :=
  if len payload <? Z.of_nat NONCE_LEN then invalid FT_ServerInfo "missing encrypted server info nonce"
  else if Z.of_nat NONCE_LEN + MAX_INFO_LEN <? len payload
  then invalid FT_ServerInfo "encrypted server info is too large"
  else Ok (ServerInfoFrame payload).

Definition parse_send_packet (payload : list Z) : result Frame ProtocolError :=
  let? ' (destination, packet) := split_key payload FT_SendPacket in
  let? _ := validate_packet_len (len packet) in
  Ok (SendPacket destination packet).

Definition parse_forward_packet (payload : list Z) : result Frame ProtocolError :=
  let? ' (source, rest) := split_key payload FT_ForwardPacket in
  let? ' (destination, packet) := split_key rest FT_ForwardPacket in
  let? _ := validate_packet_len (len packet) in
  Ok (ForwardPacket source destination packet).

Definition parse_recv_packet (payload : list Z) : result Frame ProtocolError :=
  let? ' (source, packet) := split_key payload FT_RecvPacket in
  let? _ := validate_packet_len (len packet) in
  Ok (RecvPacket source packet).

Definition parse_note_preferred (payload : list Z) : result Frame ProtocolError :=
  match payload with
  | [b] => Ok (NotePreferred (negb (b =? 0)))
  | _ => invalid FT_NotePreferred "expected one boolean byte"
  end.

Definition parse_peer_gone (payload : list Z) : result Frame ProtocolError :=
  let? ' (peer, rest) := split_key payload FT_PeerGone in
  Ok (PeerGone peer (match rest with [] => Gone_Disconnected | b :: _ => reason_from_code b end)).

Definition parse_peer_present (payload : list Z) : result Frame ProtocolError :=
  let? ' (peer, rest) := split_key payload FT_PeerPresent in
  let endpoint :=
    if 18 <=? len rest then Some (mkPeerEndpoint (take 16 rest) (from_be_bytes (slice 16 18 rest))) else None in
  let flags := if 19 <=? len rest then Some (byte_at rest 18) else None in
  let extra_start := match flags, endpoint with
                     | Some _, _ => 19%nat
                     | None, Some _ => 18%nat
                     | None, None => 0%nat
                     end in
  Ok (PeerPresent peer endpoint flags (drop extra_start rest)).

Definition parse_close_peer (payload : list Z) : result Frame ProtocolError :=
  let? ' (peer, _) := split_key payload FT_ClosePeer in
  Ok (ClosePeer peer).

Definition parse_ping_or_pong (t : FrameType) (payload : list Z) : result (list Z) ProtocolError :=
  if len payload <? 8 then invalid t "expected at least eight payload bytes" else Ok (take 8 payload).

Definition parse_restarting (payload : list Z) : result Frame ProtocolError :=
  if len payload <? 8 then invalid FT_Restarting "expected two u32 millisecond durations"
  else Ok (Restarting (from_be_bytes (slice 0 4 payload)) (from_be_bytes (slice 4 8 payload))).

Definition parse_payload (t : FrameType) (payload : list Z) : result Frame ProtocolError :=
  match t with
  | FT_ServerKey => parse_server_key payload
  | FT_ClientInfo => parse_client_info payload
  | FT_ServerInfo => parse_server_info payload
  | FT_SendPacket => parse_send_packet payload
  | FT_RecvPacket => parse_recv_packet payload
  | FT_KeepAlive => result_map (fun _ => KeepAlive) (require_empty t payload)
  | FT_NotePreferred => parse_note_preferred payload
  | FT_PeerGone => parse_peer_gone payload
  | FT_PeerPresent => parse_peer_present payload
  | FT_ForwardPacket => parse_forward_packet payload
  | FT_WatchConns => result_map (fun _ => WatchConns) (require_empty t payload)
  | FT_ClosePeer => parse_close_peer payload
  | FT_Ping => result_map Ping (parse_ping_or_pong t payload)
  | FT_Pong => result_map Pong (parse_ping_or_pong t payload)
  | FT_Health => Ok (Health (from_utf8_lossy payload))
  | FT_Restarting => parse_restarting payload
  end.

(** ** Encoding *)

Definition to_raw_parts (f : Frame) : Z * list Z :=
  match f with
  | ServerKey key extra => (code FT_ServerKey, MAGIC ++ key ++ extra)
  | ClientInfoFrame public_key encrypted_info => (code FT_ClientInfo, public_key ++ encrypted_info)
  | ServerInfoFrame encrypted_info => (code FT_ServerInfo, encrypted_info)
  | SendPacket destination packet => (code FT_SendPacket, destination ++ packet)
  | ForwardPacket source destination packet => (code FT_ForwardPacket, source ++ destination ++ packet)
  | RecvPacket source packet => (code FT_RecvPacket, source ++ packet)
  | KeepAlive => (code FT_KeepAlive, [])
  | NotePreferred preferred => (code FT_NotePreferred, [Z.b2z preferred])
  | PeerGone peer reason => (code FT_PeerGone, peer ++ [reason_code reason])
  | PeerPresent peer endpoint flags extra =>
      (code FT_PeerPresent,
       peer ++ (match endpoint with Some e => pe_ip e ++ to_be_bytes 2 (pe_port e) | None => [] end)
            ++ (match flags with Some b => [b] | None => [] end) ++ extra)
  | WatchConns => (code FT_WatchConns, [])
  | ClosePeer peer => (code FT_ClosePeer, peer)
  | Ping payload => (code FT_Ping, payload)
  | Pong payload => (code FT_Pong, payload)
  | Health problem => (code FT_Health, problem)
  | Restarting reconnect_in_ms try_for_ms =>
      (code FT_Restarting, to_be_bytes 4 reconnect_in_ms ++ to_be_bytes 4 try_for_ms)
  | UnknownFrame frame_type payload => (frame_type, payload)
  end.

Definition validate_frame_for_encode (f : Frame) : result unit ProtocolError :=
  match f with
  | SendPacket _ packet | ForwardPacket _ _ packet | RecvPacket _ packet => validate_packet_len (len packet)
  | ClientInfoFrame _ encrypted_info =>
      if Z.of_nat NONCE_LEN + MAX_CLIENT_INFO_LEN <? len encrypted_info
      then invalid FT_ClientInfo "encrypted client info is too large" else Ok tt
  | ServerInfoFrame encrypted_info =>
      if Z.of_nat NONCE_LEN + MAX_INFO_LEN <? len encrypted_info
      then invalid FT_ServerInfo "encrypted server info is too large" else Ok tt
  | _ => Ok tt
  end.

Definition encode_header (frame_type payload_len : Z) : list Z := frame_type :: to_be_bytes 4 payload_len.

Definition encode_raw_frame (frame_type : Z) (payload : list Z) : result (list Z) ProtocolError :=
  if len payload <=? u_max 32 then Ok (encode_header frame_type (len payload) ++ payload)
  else Err (PayloadTooLarge (len payload)).

Definition encode_frame (f : Frame) : result (list Z) ProtocolError :=
  let? _ := validate_frame_for_encode f in
  let '(frame_type, payload) := to_raw_parts f in
  encode_raw_frame frame_type payload.

(** ** Decoding *)

(** The header's length field. *)
Definition header_len (data : list Z) : Z := from_be_bytes (slice 1 5 data).

Definition parse_frame (frame_type : Z) (payload : list Z) : result Frame ProtocolError :=
  match from_code frame_type with
  | Some known => parse_payload known payload
  | None => Ok (UnknownFrame frame_type payload)
  end.

Definition decode_frame (data : list Z) (max_payload_len : Z) : result (Frame * Z) ProtocolError :=
  if len data <? Z.of_nat FRAME_HEADER_LEN then Err (TruncatedHeader (len data))
  else
    let n := header_len data in
    if max_payload_len <? n then Err (FrameTooLarge n max_payload_len)
    else
      let expected := Z.of_nat FRAME_HEADER_LEN + n in
      if len data <? expected then Err (IncompleteFrame expected (len data))
      else
        let payload := slice FRAME_HEADER_LEN (Z.to_nat expected) data in
        let? frame := parse_frame (byte_at data 0) payload in
        Ok (frame, expected).

(** ** The incremental decoder *)

Record FrameDecoder := mkDecoder {
  dec_buffer : list Z;
  dec_start : nat;
  dec_max : Z;
}.

Definition FrameDecoder_new (max_payload_len : Z) : FrameDecoder := mkDecoder [] 0 max_payload_len.

Definition set_max_payload_len (d : FrameDecoder) (m : Z) : FrameDecoder :=
  mkDecoder (dec_buffer d) (dec_start d) m.

(** [buffer.drain(..start)] and [&buffer[start..]] panic past the end: [None]. *)
Definition reclaim_decoded (d : FrameDecoder) : option FrameDecoder :=
  if (dec_start d =? 0)%nat then Some d
  else if (dec_start d <=? length (dec_buffer d))%nat
  then Some (mkDecoder (drop (dec_start d) (dec_buffer d)) 0 (dec_max d))
  else None.

Definition push (d : FrameDecoder) (bytes : list Z) : option FrameDecoder :=
  match reclaim_decoded d with
  | Some d' => Some (mkDecoder (dec_buffer d' ++ bytes) (dec_start d') (dec_max d'))
  | None => None
  end.

Definition buffered_len (d : FrameDecoder) : Z := len (dec_buffer d) - Z.of_nat (dec_start d).

Definition next_frame (d : FrameDecoder) : option (FrameDecoder * result (option Frame) ProtocolError) :=
  if negb (dec_start d <=? length (dec_buffer d))%nat then None
  else
    let pending := drop (dec_start d) (dec_buffer d) in
    if len pending <? Z.of_nat FRAME_HEADER_LEN then Some (d, Ok None)
    else
      let n := header_len pending in
      if dec_max d <? n then Some (d, Err (FrameTooLarge n (dec_max d)))
      else
        let expected := Z.of_nat FRAME_HEADER_LEN + n in
        if len pending <? expected then Some (d, Ok None)
        else match decode_frame (take (Z.to_nat expected) pending) (dec_max d) with
             | Err e => Some (d, Err e)
             | Ok (frame, consumed) =>
                 let start := (dec_start d + Z.to_nat consumed)%nat in
                 Some (if (start =? length (dec_buffer d))%nat
                       then mkDecoder [] 0 (dec_max d)
                       else mkDecoder (dec_buffer d) start (dec_max d), Ok (Some frame))
             end.

(** ** Node keys and information envelopes *)

(** [SecretKey::public_key], [SalsaBox::new(peer, secret).encrypt/decrypt]. *)
Class CryptoBox := {
  secret_public_key : list Z -> list Z;
  box_encrypt : forall (peer_public secret nonce plaintext : list Z), option (list Z);
  box_decrypt : forall (peer_public secret nonce ciphertext : list Z), option (list Z);
}.

Definition reject_zero_key (key : list Z) : result unit ProtocolError :=
  if forallb (fun b => b =? 0) key then Err ZeroKey else Ok tt.

Definition clamp_x25519_private (secret : list Z) : list Z :=
  alter (fun b => Z.lor (Z.land b 127) 64) 31%nat (alter (fun b => Z.land b 248) 0%nat secret).

(** A [DerpNodeKeyPair] is its secret's bytes. *)
Definition DerpNodeKeyPair := list Z.

Definition from_private_key (secret : list Z) : result DerpNodeKeyPair ProtocolError :=
  let? _ := reject_zero_key secret in Ok secret.

(** [generate] on the bytes the generator filled in; [None] is the [expect]'s panic. *)
Definition generate (random : list Z) : option DerpNodeKeyPair :=
  result_ok (from_private_key (clamp_x25519_private random)).

Record ClientInfo := mkClientInfo {
  mesh_key : option (list Z);
  ci_version : Z;
  can_ack_pings : bool;
  is_prober : bool;
}.

Definition ClientInfo_regular : ClientInfo := mkClientInfo None PROTOCOL_VERSION false false.

Record ServerInfo := mkServerInfo {
  si_version : Z;
  token_bucket_bytes_per_second : Z;
  token_bucket_bytes_burst : Z;
}.

Definition ServerInfo_current : ServerInfo := mkServerInfo PROTOCOL_VERSION 0 0.

(** [skip_serializing_if]: an absent or zero mesh key is not written. *)
Definition mesh_key_is_none_or_zero (v : option (list Z)) : bool :=
  match v with None => true | Some key => forallb (fun b => b =? 0) key end.

Definition written_client_info (i : ClientInfo) : ClientInfo :=
  mkClientInfo (if mesh_key_is_none_or_zero (mesh_key i) then None else mesh_key i)
    (ci_version i) (can_ack_pings i) (is_prober i).

(** [serde_json::to_vec] and [from_slice] on the two structures. *)
Class InfoJsonLib := {
  client_to_vec : ClientInfo -> result (list Z) string;
  client_from_slice : list Z -> result ClientInfo string;
  server_to_vec : ServerInfo -> result (list Z) string;
  server_from_slice : list Z -> result ServerInfo string;
}.

Section envelopes.
Context `{CryptoBox} `{InfoJsonLib}.

Definition public_key (kp : DerpNodeKeyPair) : list Z := secret_public_key kp.

Definition seal_to_with_nonce (kp : DerpNodeKeyPair) (peer_public nonce plaintext : list Z)
  : result (list Z) ProtocolError :=
  let? _ := reject_zero_key peer_public in
  let? ciphertext := ok_or (box_encrypt peer_public kp nonce plaintext) CryptoBoxError in
  Ok (nonce ++ ciphertext).

(** [seal_to] with the nonce its generator filled in. *)
Definition seal_to (kp : DerpNodeKeyPair) (peer_public random plaintext : list Z)
  : result (list Z) ProtocolError :=
  seal_to_with_nonce kp peer_public random plaintext.

Definition open_from (kp : DerpNodeKeyPair) (peer_public encrypted : list Z) : result (list Z) ProtocolError :=
  let? _ := reject_zero_key peer_public in
  if len encrypted <? Z.of_nat NONCE_LEN then Err (InfoEnvelopeTooShort (len encrypted))
  else ok_or (box_decrypt peer_public kp (take NONCE_LEN encrypted) (drop NONCE_LEN encrypted)) CryptoBoxError.

Definition encode_server_key_frame (server_key : DerpNodeKeyPair) : result (list Z) ProtocolError :=
  encode_frame (ServerKey (public_key server_key) []).

Definition encode_client_info_frame (client_key : DerpNodeKeyPair) (server_public random : list Z)
    (info : ClientInfo) : result (list Z) ProtocolError :=
  let? plaintext := map_err InfoJson (client_to_vec info) in
  let? encrypted_info := seal_to client_key server_public random plaintext in
  encode_frame (ClientInfoFrame (public_key client_key) encrypted_info).

Definition open_client_info (server_key : DerpNodeKeyPair) (frame : Frame)
  : result (list Z * ClientInfo) ProtocolError :=
  match frame with
  | ClientInfoFrame key encrypted_info =>
      if Z.of_nat NONCE_LEN + MAX_CLIENT_INFO_LEN <? len encrypted_info
      then invalid FT_ClientInfo "encrypted client info is too large"
      else
        let? plaintext := open_from server_key key encrypted_info in
        if MAX_CLIENT_INFO_LEN <? len plaintext then invalid FT_ClientInfo "client info JSON is too large"
        else let? info := map_err InfoJson (client_from_slice plaintext) in Ok (key, info)
  | _ => invalid FT_ClientInfo "expected client info frame"
  end.

Definition encode_server_info_frame (server_key : DerpNodeKeyPair) (client_public random : list Z)
    (info : ServerInfo) : result (list Z) ProtocolError :=
  let? plaintext := map_err InfoJson (server_to_vec info) in
  let? encrypted_info := seal_to server_key client_public random plaintext in
  encode_frame (ServerInfoFrame encrypted_info).

Definition open_server_info (client_key : DerpNodeKeyPair) (server_public : list Z) (frame : Frame)
  : result ServerInfo ProtocolError :=
  match frame with
  | ServerInfoFrame encrypted_info =>
      if Z.of_nat NONCE_LEN + MAX_INFO_LEN <? len encrypted_info
      then invalid FT_ServerInfo "encrypted server info is too large"
      else
        let? plaintext := open_from client_key server_public encrypted_info in
        if MAX_INFO_LEN <? len plaintext then invalid FT_ServerInfo "server info JSON is too large"
        else map_err InfoJson (server_from_slice plaintext)
  | _ => invalid FT_ServerInfo "expected server info frame"
  end.

End envelopes.

(** What the protocol relies on: keys and boxes are bytes, a box adds the
    Poly1305 tag, and the peer's box opens what this side's box sealed. *)
Class CryptoBoxLaws `{CryptoBox} : Prop := {
  public_key_ok : forall secret, length secret = KEY_LEN -> bytes_ok secret ->
    length (secret_public_key secret) = KEY_LEN /\ bytes_ok (secret_public_key secret);
  encrypt_size : forall pub sec nonce m c, box_encrypt pub sec nonce m = Some c ->
    bytes_ok c /\ len c = len m + 16;
  decrypt_encrypt : forall a b nonce m c,
    box_encrypt (secret_public_key b) a nonce m = Some c ->
    box_decrypt (secret_public_key a) b nonce c = Some m;
}.

(** A written structure is read back, less a zero mesh key. *)
Class InfoJsonLaws `{InfoJsonLib} : Prop := {
  client_json : forall i bs, client_to_vec i = Ok bs -> client_from_slice bs = Ok (written_client_info i);
  server_json : forall i bs, server_to_vec i = Ok bs -> server_from_slice bs = Ok i;
}.

(** ** Theorems *)

(** *** Codes *)

Lemma from_code_code t : from_code (code t) = Some t.
Proof. by destruct t. Qed.

Lemma code_from_code c t : from_code c = Some t -> code t = c.
Proof. unfold from_code. repeat case_match; intros [= <-]; simpl; lia. Qed.

Lemma code_byte t : byte_ok (code t).
Proof. unfold byte_ok. destruct t; simpl; lia. Qed.

(** *** Well-formed frames

    [frame_ok] is what the Rust types guarantee: arrays of their length, bytes,
    integers of their width, UTF-8 text. *)
Definition key_ok (k : list Z) : Prop := length k = KEY_LEN /\ bytes_ok k.

Definition frame_ok (f : Frame) : Prop :=
  match f with
  | ServerKey key extra => key_ok key /\ bytes_ok extra
  | ClientInfoFrame k info => key_ok k /\ bytes_ok info
  | ServerInfoFrame info => bytes_ok info
  | SendPacket k p | RecvPacket k p => key_ok k /\ bytes_ok p
  | ForwardPacket s d p => key_ok s /\ key_ok d /\ bytes_ok p
  | KeepAlive | WatchConns | NotePreferred _ => True
  | PeerGone k r => key_ok k /\ byte_ok (reason_code r)
  | PeerPresent k e fl extra =>
      key_ok k /\ bytes_ok extra /\
      match e with Some e => length (pe_ip e) = 16%nat /\ bytes_ok (pe_ip e) /\ in_u 16 (pe_port e)
                 | None => True end /\
      match fl with Some b => byte_ok b | None => True end
  | ClosePeer k => key_ok k
  | Ping p | Pong p => length p = 8%nat /\ bytes_ok p
  | Health s => bytes_ok s /\ utf8 s
  | Restarting a b => in_u 32 a /\ in_u 32 b
  | UnknownFrame t p => byte_ok t /\ bytes_ok p
  end.

(** The frames one payload stands for: a reason or type byte with a name uses
    it, an envelope has its nonce, and what follows a [PeerPresent] key is not
    mistaken for an endpoint or flags. *)
Definition canonical_frame (f : Frame) : Prop :=
  match f with
  | ClientInfoFrame _ info | ServerInfoFrame info => Z.of_nat NONCE_LEN <= len info
  | PeerGone _ r => reason_from_code (reason_code r) = r
  | PeerPresent _ e fl extra =>
      match e, fl with
      | Some _, Some _ => True
      | Some _, None => extra = []
      | None, Some _ => False
      | None, None => len extra < 18
      end
  | UnknownFrame t _ => from_code t = None
  | _ => True
  end.

Definition payload_len (f : Frame) : Z := len (to_raw_parts f).2.

Ltac lens := unfold key_ok, KEY_LEN, NONCE_LEN, FRAME_HEADER_LEN, len in *; cbn [length app] in *;
  repeat (progress (autorewrite with bytes in *; cbn [length app] in * )).

Lemma split_key_app k rest t : length k = KEY_LEN -> split_key (k ++ rest) t = Ok (k, rest).
Proof.
  intros Hk. unfold split_key. destruct (Z.ltb_spec (len (k ++ rest)) (Z.of_nat KEY_LEN)) as [H|H].
  - lens. lia.
  - by rewrite take_app_length', drop_app_length'.
Qed.

Lemma split_key_Ok payload t k rest :
  split_key payload t = Ok (k, rest) -> payload = k ++ rest /\ length k = KEY_LEN.
Proof.
  unfold split_key. destruct (Z.ltb_spec (len payload) (Z.of_nat KEY_LEN)); intros [= <- <-].
  rewrite take_drop. lens. split; [done|lia].
Qed.

Lemma validate_packet_len_Ok n u : validate_packet_len n = Ok u <-> n <= MAX_PACKET_SIZE.
Proof.
  unfold validate_packet_len. destruct u. destruct (Z.leb_spec n MAX_PACKET_SIZE); split; (done || intros; exfalso; lia).
Qed.

Lemma reason_from_code_canonical c : reason_from_code (reason_code (reason_from_code c)) = reason_from_code c.
Proof.
  unfold reason_from_code. destruct (c =? 0) eqn:E0; [done|]. destruct (c =? 1) eqn:E1; [done|].
  destruct (c =? 240) eqn:E2; [done|]. simpl. by rewrite E0, E1, E2.
Qed.

Lemma reason_code_from_code c : reason_code (reason_from_code c) = c.
Proof. unfold reason_from_code. repeat case_match; simpl; lia. Qed.

(** *** Parsing what was encoded *)

Lemma peer_present_app k e fl extra :
  frame_ok (PeerPresent k e fl extra) -> canonical_frame (PeerPresent k e fl extra) ->
  parse_peer_present (to_raw_parts (PeerPresent k e fl extra)).2 = Ok (PeerPresent k e fl extra).
Proof.
  intros ([Hk _] & _ & He & _) Hc. unfold parse_peer_present. simpl to_raw_parts. simpl snd.
  rewrite split_key_app by done. simpl result_bind. simpl in Hc.
  destruct e as [[ip port]|]; simpl in He.
  - destruct He as (Hip & _ & Hport). simpl pe_ip. simpl pe_port.
    assert (length (to_be_bytes 2 port) = 2%nat) as Hpl by apply length_to_be_bytes.
    assert (slice 16 18 ((ip ++ to_be_bytes 2 port) ++ (match fl with Some b => [b] | None => [] end) ++ extra)
            = to_be_bytes 2 port) as Hsl.
    { unfold slice. rewrite <-app_assoc, drop_app_length', take_app_length' by done. done. }
    assert (take 16 ((ip ++ to_be_bytes 2 port) ++ (match fl with Some b => [b] | None => [] end) ++ extra)
            = ip) as Htk by (by rewrite <-app_assoc, take_app_length').
    rewrite Hsl, Htk, from_to_be_bytes by (apply in_u_bytes with (w := 16); [done|exact Hport]).
    destruct fl as [b|].
    + rewrite (proj2 (Z.leb_le 18 _)), (proj2 (Z.leb_le 19 _)) by (lens; lia).
      do 3 f_equal; [|].
      * unfold byte_at. rewrite app_nth2; [|lens; lia].
        replace (18 - length (ip ++ to_be_bytes 2 port))%nat with 0%nat by (lens; lia). done.
      * rewrite app_assoc, drop_app_length'; [done|]. lens. lia.
    + subst extra. rewrite (proj2 (Z.leb_le 18 _)), (proj2 (Z.leb_gt 19 _)) by (lens; lia).
      do 2 f_equal. simpl app. rewrite app_nil_r, drop_ge; [done|]. lens. lia.
  - destruct fl as [b|]; [done|]. simpl app.
    rewrite (proj2 (Z.leb_gt 18 _)), (proj2 (Z.leb_gt 19 _)) by (simpl in *; lia). done.
Qed.

(** A frame that passes the encoder's checks is read back from its payload. *)
Lemma parse_frame_parts f :
  frame_ok f -> canonical_frame f -> validate_frame_for_encode f = Ok tt ->
  parse_frame (to_raw_parts f).1 (to_raw_parts f).2 = Ok f.
Proof.
  intros Hok Hc Hv.
  assert (forall a b : Z, 0 <= a < 256 ^ Z.of_nat 4 -> 0 <= b < 256 ^ Z.of_nat 4 ->
            parse_restarting (to_be_bytes 4 a ++ to_be_bytes 4 b) = Ok (Restarting a b)) as Hrestart.
  { intros a b Ha Hb. unfold parse_restarting, slice.
    assert (length (to_be_bytes 4 a) = 4%nat /\ length (to_be_bytes 4 b) = 4%nat) as [La Lb]
      by (split; apply length_to_be_bytes).
    rewrite (proj2 (Z.ltb_ge _ 8)) by (lens; lia). rewrite drop_0, take_app_length', drop_app_length' by done.
    rewrite take_ge by lia. by rewrite !from_to_be_bytes. }
  destruct f; cbn [to_raw_parts fst snd frame_ok canonical_frame validate_frame_for_encode] in Hok, Hc, Hv |- *;
    unfold parse_frame; rewrite ?from_code_code; cbn [parse_payload].
  - destruct Hok as [[Hk _] _]. unfold parse_server_key.
    rewrite (proj2 (Z.ltb_ge _ _)) by (lens; lia).
    rewrite take_app_length, drop_app_length, bool_decide_eq_true_2, split_key_app by done. done.
  - destruct Hok as [[Hk _] _]. unfold parse_client_info.
    rewrite (proj2 (Z.ltb_ge _ _)), split_key_app by (try done; lens; lia). simpl.
    by destruct (Z.of_nat NONCE_LEN + MAX_CLIENT_INFO_LEN <? len encrypted_info).
  - unfold parse_server_info. rewrite (proj2 (Z.ltb_ge _ _)) by lia.
    by destruct (Z.of_nat NONCE_LEN + MAX_INFO_LEN <? len encrypted_info).
  - destruct Hok as [[Hk _] _]. unfold parse_send_packet. rewrite split_key_app by done. simpl. by rewrite Hv.
  - destruct Hok as ([Hk _] & [Hk' _] & _). unfold parse_forward_packet.
    rewrite split_key_app by done. simpl. rewrite split_key_app by done. simpl. by rewrite Hv.
  - destruct Hok as [[Hk _] _]. unfold parse_recv_packet. rewrite split_key_app by done. simpl. by rewrite Hv.
  - done.
  - by destruct preferred.
  - destruct Hok as [[Hk _] _]. unfold parse_peer_gone. rewrite split_key_app by done. simpl. by rewrite Hc.
  - apply (peer_present_app peer endpoint flags extra); done.
  - done.
  - destruct Hok as [Hk _]. unfold parse_close_peer.
    rewrite <-(app_nil_r peer), split_key_app by done. simpl. by rewrite app_nil_r.
  - destruct Hok as [Hk _]. unfold parse_ping_or_pong. rewrite (proj2 (Z.ltb_ge _ _)) by (lens; lia). simpl.
    by rewrite take_ge by lia.
  - destruct Hok as [Hk _]. unfold parse_ping_or_pong. rewrite (proj2 (Z.ltb_ge _ _)) by (lens; lia). simpl.
    by rewrite take_ge by lia.
  - destruct Hok as [_ Hu]. by rewrite from_utf8_lossy_valid.
  - apply Hrestart; apply in_u_bytes with (w := 32); (done || apply Hok).
  - by rewrite Hc.
Qed.

Lemma encode_frame_Ok f bs :
  encode_frame f = Ok bs ->
  validate_frame_for_encode f = Ok tt /\ payload_len f <= u_max 32 /\
  bs = encode_header (to_raw_parts f).1 (payload_len f) ++ (to_raw_parts f).2.
Proof.
  unfold encode_frame, encode_raw_frame, payload_len. destruct (validate_frame_for_encode f) as [[]|e]; [|done].
  simpl. destruct (to_raw_parts f) as [t p]. simpl.
  destruct (Z.leb_spec (len p) (u_max 32)); [|done]. by intros [= <-].
Qed.

(** Reading a header that was written. *)
Lemma header_len_encode t n payload rest :
  in_u 32 n -> header_len ((encode_header t n ++ payload) ++ rest) = n.
Proof.
  intros Hn. unfold header_len, encode_header.
  assert (slice 1 5 (((t :: to_be_bytes 4 n) ++ payload) ++ rest) = to_be_bytes 4 n) as ->.
  { rewrite <-app_assoc. apply (take_app_length' (to_be_bytes 4 n)). by rewrite length_to_be_bytes. }
  apply from_to_be_bytes, in_u_bytes with (w := 32); done.
Qed.

Lemma length_encode_header t n : length (encode_header t n) = 5%nat.
Proof. unfold encode_header. cbn [length]. by rewrite length_to_be_bytes. Qed.

Lemma decode_frame_encoded t payload rest max :
  len payload <= max -> len payload <= u_max 32 ->
  decode_frame ((encode_header t (len payload) ++ payload) ++ rest) max =
  let? f := parse_frame t payload in Ok (f, 5 + len payload).
Proof.
  intros Hmax Hu. unfold decode_frame. pose proof (len_nonneg payload). pose proof (len_nonneg rest).
  rewrite header_len_encode by (unfold in_u; lia).
  assert (length (encode_header t (len payload)) = 5%nat) as Hl by apply length_encode_header.
  assert (len ((encode_header t (len payload) ++ payload) ++ rest) = 5 + len payload + len rest) as ->.
  { rewrite !len_app. unfold len at 1. lia. }
  change (Z.of_nat FRAME_HEADER_LEN) with 5.
  rewrite (proj2 (Z.ltb_ge _ 5)), (proj2 (Z.ltb_ge max _)), (proj2 (Z.ltb_ge _ (5 + _))) by lia.
  assert (slice FRAME_HEADER_LEN (Z.to_nat (5 + len payload))
            ((encode_header t (len payload) ++ payload) ++ rest) = payload) as ->.
  { unfold slice. rewrite <-app_assoc, drop_app_length' by done.
    apply take_app_length'. unfold len, FRAME_HEADER_LEN. lia. }
  done.
Qed.

(** A frame and its bytes on a connection with payload limit [max]. *)
Definition on_wire (max : Z) (f : Frame) (bs : list Z) : Prop :=
  frame_ok f /\ canonical_frame f /\ payload_len f <= max /\ encode_frame f = Ok bs.

Lemma decode_frame_on_wire max f bs rest : on_wire max f bs -> decode_frame (bs ++ rest) max = Ok (f, len bs).
Proof.
  intros (Hok & Hc & Hmax & He). apply encode_frame_Ok in He as (Hv & Hu & ->).
  unfold payload_len in *. rewrite decode_frame_encoded, parse_frame_parts by done. cbn [result_bind].
  rewrite len_app. unfold len at 2. by rewrite length_encode_header.
Qed.

(** Round trip: every well-formed frame in canonical form that the encoder
    accepts is decoded to itself from its bytes, whatever follows them in the
    stream, and exactly its bytes are consumed. *)
Theorem decode_encode_frame f bs rest max :
  frame_ok f -> canonical_frame f -> encode_frame f = Ok bs -> payload_len f <= max ->
  decode_frame (bs ++ rest) max = Ok (f, len bs).
Proof.
  intros Hok Hc He Hmax. by apply decode_frame_on_wire.
Qed.

(** *** What the decoder accepts is well formed *)

Lemma key_ok_split payload t k rest :
  bytes_ok payload -> split_key payload t = Ok (k, rest) -> key_ok k /\ bytes_ok rest.
Proof.
  intros Hb Hs. apply split_key_Ok in Hs as [-> Hl]. apply bytes_ok_app in Hb as [? ?]. by split.
Qed.

Definition accepted (n : Z) (f : Frame) : Prop :=
  frame_ok f /\ canonical_frame f /\ validate_frame_for_encode f = Ok tt /\ payload_len f <= 3 * n + 1.

Lemma parse_peer_present_accepted payload f :
  bytes_ok payload -> parse_peer_present payload = Ok f -> accepted (len payload) f.
Proof.
  intros Hb. unfold parse_peer_present. destruct (split_key payload FT_PeerPresent) as [[k rest]|] eqn:Es; [|done].
  simpl. destruct (key_ok_split _ _ _ _ Hb Es) as [Hk Hr]. apply split_key_Ok in Es as [-> Hl].
  unfold accepted, payload_len.
  assert (length (slice 16 18 rest) = Nat.min 2 (length rest - 16)) as Hsl
    by (unfold slice; by rewrite length_take, length_drop).
  destruct (Z.leb_spec 18 (len rest)) as [H18|H18].
  - assert (length (take 16 rest) = 16%nat /\ bytes_ok (take 16 rest) /\ in_u 16 (from_be_bytes (slice 16 18 rest)))
      as Hep.
    { split_and!; auto with bytes; [lens; lia|]. apply from_be_bytes_u16; [unfold slice; auto with bytes|lens; lia]. }
    destruct Hep as (? & ? & Hport).
    destruct (Z.leb_spec 19 (len rest)) as [H19|H19]; intros [= <-];
      cbn [frame_ok canonical_frame to_raw_parts snd pe_ip pe_port]; split_and!; try exact Hport;
      auto using byte_at_ok with bytes; try (lens; lia).
    apply nil_length_inv. lens. lia.
  - rewrite (proj2 (Z.leb_gt 19 _)) by lia. intros [= <-].
    cbn [frame_ok canonical_frame to_raw_parts snd pe_ip pe_port]. rewrite drop_0.
    split_and!; auto; lens; lia.
Qed.

Ltac accept := unfold accepted, payload_len;
  cbn [frame_ok canonical_frame validate_frame_for_encode to_raw_parts snd]; rewrite ?len_app; split_and!; try done.

Lemma split_key_accepted payload t k rest :
  bytes_ok payload -> split_key payload t = Ok (k, rest) ->
  key_ok k /\ bytes_ok rest /\ len payload = len k + len rest /\ 0 <= len k /\ 0 <= len rest.
Proof.
  intros Hb Hs. destruct (key_ok_split _ _ _ _ Hb Hs). apply split_key_Ok in Hs as [-> ?].
  rewrite len_app. split_and!; auto using len_nonneg.
Qed.

Lemma parse_server_key_accepted payload f :
  bytes_ok payload -> parse_server_key payload = Ok f -> accepted (len payload) f.
Proof.
  intros Hb. unfold parse_server_key.
  destruct (Z.ltb_spec (len payload) (len MAGIC + Z.of_nat KEY_LEN)); [done|].
  case_bool_decide as Em; [|done]. cbn [negb].
  destruct (split_key _ _) as [[k rest]|] eqn:Es; [|done]. intros [= <-].
  apply split_key_accepted in Es as (Hk & Hr & Hlen & Hn0 & Hn); [|auto with bytes].
  assert (len payload = 8 + len (drop (length MAGIC) payload)) as Hp.
  { rewrite <-(take_drop (length MAGIC) payload) at 1. rewrite Em, len_app. done. }
  accept. change (len MAGIC) with 8. lia.
Qed.

Lemma parse_info_accepted payload f :
  bytes_ok payload -> parse_client_info payload = Ok f \/ parse_server_info payload = Ok f ->
  accepted (len payload) f.
Proof.
  intros Hb. unfold parse_client_info, parse_server_info. pose proof (len_nonneg payload). intros [Hf|Hf]; revert Hf.
  - destruct (Z.ltb_spec (len payload) (Z.of_nat KEY_LEN + Z.of_nat NONCE_LEN)); [done|].
    destruct (split_key _ _) as [[k rest]|] eqn:Es; [|done]. cbn [result_bind].
    apply split_key_accepted in Es as (Hk & Hr & Hlen & Hn0 & Hn); [|done].
    destruct (Z.ltb_spec (Z.of_nat NONCE_LEN + MAX_CLIENT_INFO_LEN) (len rest)); [done|]. intros [= <-].
    accept; [destruct Hk as [Hk _]; lens; lia|by rewrite (proj2 (Z.ltb_ge _ _))|lia].
  - destruct (Z.ltb_spec (len payload) (Z.of_nat NONCE_LEN)); [done|].
    destruct (Z.ltb_spec (Z.of_nat NONCE_LEN + MAX_INFO_LEN) (len payload)); [done|]. intros [= <-].
    accept; [by rewrite (proj2 (Z.ltb_ge _ _))|lia].
Qed.

Lemma parse_packet_accepted payload f :
  bytes_ok payload ->
  parse_send_packet payload = Ok f \/ parse_recv_packet payload = Ok f \/ parse_forward_packet payload = Ok f ->
  accepted (len payload) f.
Proof.
  intros Hb. unfold parse_send_packet, parse_recv_packet, parse_forward_packet.
  intros [Hf|[Hf|Hf]]; revert Hf; (destruct (split_key payload _) as [[k rest]|] eqn:Es; [|done]); cbn [result_bind];
    apply split_key_accepted in Es as (Hk & Hr & Hlen & Hn0 & Hn); try done.
  1-2: destruct (validate_packet_len (len rest)) as [[]|] eqn:Ev; [|done]; intros [= <-]; accept; lia.
  destruct (split_key rest _) as [[k' rest']|] eqn:Es'; [|done]. cbn [result_bind].
  apply split_key_accepted in Es' as (Hk' & Hr' & Hlen' & Hn0' & Hn'); [|done].
  destruct (validate_packet_len (len rest')) as [[]|] eqn:Ev; [|done]. intros [= <-]. accept. lia.
Qed.

Lemma parse_peer_gone_accepted payload f :
  bytes_ok payload -> parse_peer_gone payload = Ok f -> accepted (len payload) f.
Proof.
  intros Hb. unfold parse_peer_gone. destruct (split_key _ _) as [[k rest]|] eqn:Es; [|done]. intros [= <-].
  apply split_key_accepted in Es as (Hk & Hr & Hlen & Hn0 & Hn); [|done]. accept.
  - destruct rest as [|b rest]; [unfold byte_ok; simpl; lia|]. rewrite reason_code_from_code. by inversion Hr.
  - destruct rest; [done|]. apply reason_from_code_canonical.
  - change (len [_]) with 1. lia.
Qed.

Lemma parse_fixed_accepted payload f :
  bytes_ok payload ->
  parse_close_peer payload = Ok f \/ parse_restarting payload = Ok f \/
  result_map Ping (parse_ping_or_pong FT_Ping payload) = Ok f \/
  result_map Pong (parse_ping_or_pong FT_Pong payload) = Ok f ->
  accepted (len payload) f.
Proof.
  intros Hb. unfold parse_close_peer, parse_restarting, parse_ping_or_pong. intros [Hf|Hf].
  - revert Hf. destruct (split_key _ _) as [[k rest]|] eqn:Es; [|done]. intros [= <-].
    apply split_key_accepted in Es as (Hk & Hr & Hlen & Hn0 & Hn); [|done]. accept. lia.
  - revert Hf. destruct (Z.ltb_spec (len payload) 8); [intros [?|[?|?]]; done|].
    intros [[= <-]|[[= <-]|[= <-]]]; accept; auto with bytes; try (lens; lia);
      apply from_be_bytes_u32; unfold slice; auto with bytes; lens; lia.
Qed.

Lemma parse_frame_accepted t payload f :
  byte_ok t -> bytes_ok payload -> parse_frame t payload = Ok f -> accepted (len payload) f.
Proof.
  intros Ht Hb. unfold parse_frame. pose proof (len_nonneg payload) as Hn.
  destruct (from_code t) as [ft|] eqn:Eft.
  2: { intros [= <-]. accept. lia. }
  destruct ft; simpl parse_payload; intros Hf;
    eauto using parse_server_key_accepted, parse_info_accepted, parse_packet_accepted, parse_peer_gone_accepted,
      parse_peer_present_accepted, parse_fixed_accepted.
  1,3: destruct payload; [|done]; injection Hf as <-; by accept.
  - destruct payload as [|b [|]]; try done. injection Hf as <-. by accept.
  - injection Hf as <-. pose proof (lossy_from_length (length payload) payload).
    accept; [by apply lossy_from_bytes|apply lossy_from_utf8|]. unfold from_utf8_lossy, len. lia.
Qed.

(** What is decoded is well formed and re-encodable: a frame decoded from
    any bytes satisfies the type invariants, the bytes it was read from are
    within the limit, and encoding it again gives bytes that decode to the same
    frame (so one more pass through a relay changes nothing). *)
Theorem decode_frame_normalises data max f n :
  bytes_ok data -> 0 <= max < 2 ^ 30 -> decode_frame data max = Ok (f, n) ->
  frame_ok f /\ 5 <= n <= 5 + max /\ n <= len data /\
  exists bs, encode_frame f = Ok bs /\ forall rest, decode_frame (bs ++ rest) (3 * max + 1) = Ok (f, len bs).
Proof.
  intros Hb Hmax Hd. unfold decode_frame in Hd. change (Z.of_nat FRAME_HEADER_LEN) with 5 in Hd.
  destruct (Z.ltb_spec (len data) 5); [done|]. destruct (Z.ltb_spec max (header_len data)); [done|].
  destruct (Z.ltb_spec (len data) (5 + header_len data)); [done|].
  destruct (parse_frame _ _) as [g|] eqn:Ep; [|done]. injection Hd as -> <-.
  assert (0 <= header_len data).
  { apply from_be_bytes_range. unfold slice. auto with bytes. }
  apply parse_frame_accepted in Ep as (Hok & Hc & Hv & Hlen); [|by apply byte_at_ok|unfold slice; auto with bytes].
  assert (payload_len f <= 3 * max + 1) as Hpl.
  { unfold slice in Hlen. lens. lia. }
  split_and!; try done; try lia.
  assert (encode_frame f = Ok (encode_header (to_raw_parts f).1 (payload_len f) ++ (to_raw_parts f).2)) as He.
  { unfold encode_frame, encode_raw_frame, payload_len. rewrite Hv. simpl. destruct (to_raw_parts f) as [t p] eqn:E.
    unfold payload_len in Hpl. rewrite E in Hpl. simpl in *. rewrite (proj2 (Z.leb_le _ _)); [done|].
    unfold u_max. lia. }
  eexists. split; [exact He|]. intros rest. by apply decode_frame_on_wire.
Qed.

(** *** The incremental decoder refines a byte queue

    [pending] is the queue; [stream_next] takes one frame off its front. *)
Definition pending (d : FrameDecoder) : list Z := drop (dec_start d) (dec_buffer d).
Definition dec_ok (d : FrameDecoder) : Prop := (dec_start d <= length (dec_buffer d))%nat.

Definition stream_next (max : Z) (p : list Z) : result (option (Frame * list Z)) ProtocolError :=
  if len p <? 5 then Ok None
  else if max <? header_len p then Err (FrameTooLarge (header_len p) max)
  else if len p <? 5 + header_len p then Ok None
  else let? f := parse_frame (byte_at p 0) (slice 5 (Z.to_nat (5 + header_len p)) p) in
       Ok (Some (f, drop (Z.to_nat (5 + header_len p)) p)).

Lemma push_refines d bytes :
  dec_ok d -> exists d', push d bytes = Some d' /\ dec_ok d' /\ pending d' = pending d ++ bytes /\ dec_max d' = dec_max d.
Proof.
  unfold dec_ok, push, reclaim_decoded, pending. intros Hd.
  destruct (Nat.eqb_spec (dec_start d) 0) as [E|E].
  - eexists. split; [done|]. simpl. rewrite E, !drop_0. split_and!; try done. lia.
  - rewrite (proj2 (Nat.leb_le _ _)) by done. eexists. split; [done|]. simpl. rewrite !drop_0. split_and!; try done. lia.
Qed.

(** The first bytes of a queue decide its header. *)
Lemma header_len_prefix p c n : (5 <= n)%nat -> (n <= length p)%nat -> header_len (take n p ++ c) = header_len p.
Proof.
  intros Hn Hp. unfold header_len, slice. f_equal. rewrite <-(take_drop n p) at 2.
  rewrite !drop_app_le, !take_app_le; try done; lens; lia.
Qed.

Lemma byte_at_prefix p c n : (1 <= n)%nat -> (n <= length p)%nat -> byte_at (take n p ++ c) 0 = byte_at p 0.
Proof. destruct p, n; simpl; try lia. done. Qed.

Lemma slice_prefix a n p c : (n <= length p)%nat -> slice a n (take n p ++ c) = slice a n p.
Proof.
  intros Hn. unfold slice. destruct (decide (a <= n)%nat) as [Ha|Ha].
  - rewrite <-(take_drop n p) at 2. rewrite !drop_app_le, !take_app_le; try done; lens; lia.
  - by replace (n - a)%nat with 0%nat by lia.
Qed.

(** The decoder's internal [decode_frame] call sees exactly the frame's bytes. *)
Lemma decode_frame_pending p max :
  5 <= len p -> header_len p <= max -> 5 + header_len p <= len p -> 0 <= header_len p ->
  decode_frame (take (Z.to_nat (5 + header_len p)) p) max =
  let? f := parse_frame (byte_at p 0) (slice 5 (Z.to_nat (5 + header_len p)) p) in
  Ok (f, 5 + header_len p).
Proof.
  intros H5 Hmax Hlen Hh. set (n := Z.to_nat (5 + header_len p)).
  assert (n <= length p /\ 5 <= n)%nat as [Hn Hn5] by (unfold len in *; lia).
  rewrite <-(app_nil_r (take n p)). unfold decode_frame.
  rewrite header_len_prefix, byte_at_prefix by lia.
  assert (len (take n p ++ []) = 5 + header_len p) as -> by (rewrite app_nil_r; unfold len; rewrite length_take; lia).
  change (Z.of_nat FRAME_HEADER_LEN) with 5. rewrite !(proj2 (Z.ltb_ge _ _)) by lia.
  fold n. by rewrite slice_prefix.
Qed.

Lemma header_len_nonneg p : bytes_ok p -> 0 <= header_len p.
Proof. intros Hp. apply from_be_bytes_range. unfold slice. auto with bytes. Qed.

Lemma next_frame_refines d :
  dec_ok d -> bytes_ok (pending d) ->
  exists d' r, next_frame d = Some (d', r) /\ dec_ok d' /\ dec_max d' = dec_max d /\
    match stream_next (dec_max d) (pending d) with
    | Ok None => d' = d /\ r = Ok None
    | Ok (Some (f, rest)) => r = Ok (Some f) /\ pending d' = rest
    | Err e => d' = d /\ r = Err e
    end.
Proof.
  intros Hd Hb. unfold next_frame, stream_next. rewrite (proj2 (Nat.leb_le _ _)) by done. cbn [negb].
  fold (pending d). change (Z.of_nat FRAME_HEADER_LEN) with 5.
  destruct (Z.ltb_spec (len (pending d)) 5); [by eauto 10|].
  destruct (Z.ltb_spec (dec_max d) (header_len (pending d))); [by eauto 10|].
  destruct (Z.ltb_spec (len (pending d)) (5 + header_len (pending d))); [by eauto 10|].
  pose proof (header_len_nonneg _ Hb). rewrite decode_frame_pending by lia.
  destruct (parse_frame _ _) as [f|e]; simpl; [|by eauto 10].
  set (n := Z.to_nat (5 + header_len (pending d))).
  assert (n <= length (pending d))%nat as Hn by (unfold len in *; lia).
  unfold pending in Hn. rewrite length_drop in Hn. unfold dec_ok in Hd.
  eexists _, _. split; [done|]. case_match eqn:E.
  - apply Nat.eqb_eq in E. unfold dec_ok, pending. simpl. split_and!; try done.
    rewrite drop_drop, drop_ge; [done|lia].
  - apply Nat.eqb_neq in E. unfold dec_ok, pending. simpl. split_and!; try done; [lia|].
    by rewrite drop_drop.
Qed.

(** *** Draining: what a reader does after each read *)

Fixpoint drain (fuel : nat) (d : FrameDecoder) : option (list Frame * option ProtocolError * FrameDecoder) :=
  match fuel with
  | O => Some ([], None, d)
  | S k =>
      match next_frame d with
      | None => None
      | Some (d', Ok None) => Some ([], None, d')
      | Some (d', Err e) => Some ([], Some e, d')
      | Some (d', Ok (Some f)) =>
          match drain k d' with
          | Some (fs, e, d'') => Some (f :: fs, e, d'')
          | None => None
          end
      end
  end.

Fixpoint feed (d : FrameDecoder) (chunks : list (list Z))
  : option (list Frame * option ProtocolError * FrameDecoder) :=
  match chunks with
  | [] => Some ([], None, d)
  | c :: cs =>
      match push d c with
      | None => None
      | Some d1 =>
          match drain (S (length (dec_buffer d1))) d1 with
          | Some (fs, None, d2) =>
              match feed d2 cs with
              | Some (gs, e, d3) => Some (fs ++ gs, e, d3)
              | None => None
              end
          | other => other
          end
      end
  end.

Fixpoint stream_drain (fuel : nat) (max : Z) (p : list Z) : list Frame * option ProtocolError * list Z :=
  match fuel with
  | O => ([], None, p)
  | S k =>
      match stream_next max p with
      | Ok None => ([], None, p)
      | Err e => ([], Some e, p)
      | Ok (Some (f, rest)) => let '(fs, e, q) := stream_drain k max rest in (f :: fs, e, q)
      end
  end.

Lemma stream_next_Some max p f rest :
  bytes_ok p -> stream_next max p = Ok (Some (f, rest)) ->
  bytes_ok rest /\ (length rest + 5 <= length p)%nat.
Proof.
  intros Hb. unfold stream_next. pose proof (header_len_nonneg p Hb).
  destruct (Z.ltb_spec (len p) 5); [done|]. destruct (Z.ltb_spec max (header_len p)); [done|].
  destruct (Z.ltb_spec (len p) (5 + header_len p)); [done|].
  destruct (parse_frame _ _); simpl; [|done]. intros [= <- <-]. split; [auto with bytes|].
  rewrite length_drop. unfold len in *. lia.
Qed.

Lemma drain_refines fuel d :
  dec_ok d -> bytes_ok (pending d) ->
  exists fs e d', drain fuel d = Some (fs, e, d') /\ dec_ok d' /\ dec_max d' = dec_max d /\
    stream_drain fuel (dec_max d) (pending d) = (fs, e, pending d').
Proof.
  revert d. induction fuel as [|k IH]; intros d Hd Hb; simpl; [by eauto 10|].
  destruct (next_frame_refines d Hd Hb) as (d1 & r & -> & Hd1 & Hm1 & Hr).
  destruct (stream_next (dec_max d) (pending d)) as [[[f rest]|]|e] eqn:Es.
  - destruct Hr as [-> Hp]. apply stream_next_Some in Es as [Hrest _]; [|done].
    destruct (IH d1 Hd1) as (fs & e & d2 & -> & Hd2 & Hm2 & Hs); [by rewrite Hp|].
    rewrite <-Hm1, <-Hp, Hs. exists (f :: fs), e, d2. split_and!; congruence.
  - destruct Hr as [-> ->]. by eauto 10.
  - destruct Hr as [-> ->]. by eauto 10.
Qed.

(** *** More bytes never change what was already decided *)

Lemma header_len_app p c : 5 <= len p -> header_len (p ++ c) = header_len p.
Proof.
  intros Hp. rewrite <-(take_ge p (length p)) at 1 by lia. apply header_len_prefix; unfold len in *; lia.
Qed.

Lemma stream_next_app max p c :
  bytes_ok p ->
  match stream_next max p with
  | Ok (Some (f, rest)) => stream_next max (p ++ c) = Ok (Some (f, rest ++ c))
  | Err e => stream_next max (p ++ c) = Err e
  | Ok None => True
  end.
Proof.
  intros Hb. pose proof (header_len_nonneg p Hb) as Hh. pose proof (len_nonneg c) as Hc. unfold stream_next.
  destruct (Z.ltb_spec (len p) 5) as [|H5]; [done|]. rewrite header_len_app, len_app by done.
  rewrite (proj2 (Z.ltb_ge _ 5)) by lia.
  destruct (Z.ltb_spec max (header_len p)); [done|].
  destruct (Z.ltb_spec (len p) (5 + header_len p)); [done|].
  rewrite (proj2 (Z.ltb_ge _ (5 + header_len p))) by lia.
  set (n := Z.to_nat (5 + header_len p)). assert (n <= length p)%nat as Hn by (unfold len in *; lia).
  assert (slice 5 n (p ++ c) = slice 5 n p) as ->.
  { rewrite <-(slice_prefix 5 n (p ++ c) []) by (rewrite length_app; lia).
    rewrite take_app_le by done. by apply slice_prefix. }
  assert (byte_at (p ++ c) 0 = byte_at p 0) as ->.
  { destruct p; [unfold len in *; simpl in *; lia|done]. }
  destruct (parse_frame _ _); simpl; [|done]. by rewrite drop_app_le.
Qed.

Lemma stream_drain_fuel k1 k2 max p :
  bytes_ok p -> (length p < k1)%nat -> (length p < k2)%nat -> stream_drain k1 max p = stream_drain k2 max p.
Proof.
  revert k2 p. induction k1 as [|k1 IH]; intros [|k2] p Hb H1 H2; try lia. simpl.
  destruct (stream_next max p) as [[[f rest]|]|e] eqn:Es; try done.
  apply stream_next_Some in Es as [Hr Hl]; [|done]. by rewrite (IH k2) by (done || lia).
Qed.

(** The frames of a whole byte string. *)
Definition decode_stream (max : Z) (p : list Z) : list Frame * option ProtocolError * list Z :=
  stream_drain (S (length p)) max p.

Lemma decode_stream_step max p :
  bytes_ok p ->
  decode_stream max p =
  match stream_next max p with
  | Ok None => ([], None, p)
  | Err e => ([], Some e, p)
  | Ok (Some (f, rest)) => let '(fs, e, q) := decode_stream max rest in (f :: fs, e, q)
  end.
Proof.
  intros Hb. unfold decode_stream at 1. simpl. destruct (stream_next max p) as [[[f rest]|]|e] eqn:Es; try done.
  apply stream_next_Some in Es as [Hr Hl]; [|done]. unfold decode_stream.
  by rewrite (stream_drain_fuel (length p) (S (length rest))) by (done || lia).
Qed.

Lemma decode_stream_app max p c fs e q :
  bytes_ok p -> bytes_ok c -> decode_stream max p = (fs, e, q) ->
  bytes_ok q /\
  match e with
  | None => stream_next max q = Ok None /\
            decode_stream max (p ++ c) = (let '(gs, e', q') := decode_stream max (q ++ c) in (fs ++ gs, e', q'))
  | Some _ => exists q', decode_stream max (p ++ c) = (fs, e, q')
  end.
Proof.
  intros Hb Hc. remember (length p) as n eqn:En. revert p fs e q Hb En.
  induction n as [n IH] using lt_wf_ind. intros p fs e q Hb ->.
  rewrite decode_stream_step by done. rewrite (decode_stream_step max (p ++ c)) by (apply bytes_ok_app; done).
  pose proof (stream_next_app max p c Hb) as Happ.
  destruct (stream_next max p) as [[[f rest]|]|e0] eqn:Es; cycle 1.
  - intros [= <- <- <-]. split; [done|]. split; [done|]. rewrite <-decode_stream_step by (apply bytes_ok_app; done).
    by destruct (decode_stream max (p ++ c)) as [[? ?] ?].
  - intros [= <- <- <-]. split; [done|]. rewrite Happ. eauto.
  - rewrite Happ. apply stream_next_Some in Es as [Hr Hl]; [|done].
    destruct (decode_stream max rest) as [[gs e1] q1] eqn:Ed. intros [= <- <- <-].
    destruct (IH (length rest) ltac:(lia) rest gs e1 q1 Hr eq_refl Ed) as [Hq Hm].
    split; [done|]. destruct e1 as [e1|].
    + destruct Hm as [q' ->]. eauto.
    + destruct Hm as [Hn ->]. split; [done|]. by destruct (decode_stream max (q1 ++ c)) as [[? ?] ?].
Qed.

Lemma drain_decode_stream d :
  dec_ok d -> bytes_ok (pending d) ->
  exists fs e d', drain (S (length (dec_buffer d))) d = Some (fs, e, d') /\ dec_ok d' /\ dec_max d' = dec_max d /\
    decode_stream (dec_max d) (pending d) = (fs, e, pending d').
Proof.
  intros Hd Hb. destruct (drain_refines (S (length (dec_buffer d))) d Hd Hb) as (fs & e & d' & H1 & H2 & H3 & H4).
  exists fs, e, d'. split_and!; try done. rewrite <-H4. apply stream_drain_fuel; try done; try lia.
  unfold pending. rewrite length_drop. lia.
Qed.

(** Feeding a decoder in chunks decodes the bytes it holds and the chunks. *)
Lemma feed_refines chunks d :
  dec_ok d -> bytes_ok (pending d) -> Forall bytes_ok chunks -> stream_next (dec_max d) (pending d) = Ok None ->
  exists fs e d' q, feed d chunks = Some (fs, e, d') /\
    decode_stream (dec_max d) (pending d ++ concat chunks) = (fs, e, q) /\
    (e = None -> q = pending d' /\ dec_ok d' /\ stream_next (dec_max d) q = Ok None).
Proof.
  intros Hd Hb Hcs. revert d Hd Hb. induction Hcs as [|c cs Hc Hcs IH]; intros d Hd Hb Hn; cbn [feed concat].
  - exists [], None, d, (pending d). rewrite app_nil_r, decode_stream_step, Hn by done. done.
  - destruct (push_refines d c Hd) as (d1 & -> & Hd1 & Hp1 & Hm1).
    assert (bytes_ok (pending d1)) as Hb1 by (rewrite Hp1; by apply bytes_ok_app).
    assert (bytes_ok (concat cs)) as Hb2 by (by apply Forall_concat).
    destruct (drain_decode_stream d1 Hd1 Hb1) as (fs & e & d2 & -> & Hd2 & Hm2 & Hs).
    destruct (decode_stream_app _ _ (concat cs) _ _ _ Hb1 Hb2 Hs) as [Hq Happ].
    rewrite Hp1, <-app_assoc, Hm1 in Happ. destruct e as [e|].
    + destruct Happ as [q' Hq']. exists fs, (Some e), d2, q'. done.
    + destruct Happ as [Hn2 Happ].
      destruct (IH d2 Hd2 Hq) as (gs & e' & d3 & q & -> & Hdec & Hend); [congruence|].
      rewrite Hm2, Hm1 in *. rewrite Hdec in Happ. eauto 10.
Qed.

Lemma FrameDecoder_new_ready max :
  dec_ok (FrameDecoder_new max) /\ stream_next max (pending (FrameDecoder_new max)) = Ok None.
Proof. split; [apply Nat.le_refl|done]. Qed.

Lemma decode_stream_next max p f n :
  decode_frame p max = Ok (f, n) -> stream_next max p = Ok (Some (f, drop (Z.to_nat n) p)).
Proof.
  unfold decode_frame, stream_next. change (Z.of_nat FRAME_HEADER_LEN) with 5.
  destruct (len p <? 5); [done|]. destruct (max <? header_len p); [done|].
  destruct (len p <? 5 + header_len p); [done|].
  fold FRAME_HEADER_LEN. destruct (parse_frame _ _); simpl; [|done]. by intros [= -> <-].
Qed.

Lemma encode_frame_bytes f bs : frame_ok f -> encode_frame f = Ok bs -> bytes_ok bs.
Proof.
  intros Hok He. apply encode_frame_Ok in He as (_ & _ & ->). apply bytes_ok_app. split.
  - constructor; [|apply to_be_bytes_ok]. destruct f; simpl in *; unfold byte_ok; try lia. apply Hok.
  - destruct f; cbn [frame_ok to_raw_parts snd] in *; unfold key_ok in *;
      repeat (match goal with H : _ /\ _ |- _ => destruct H end);
      rewrite ?bytes_ok_app; split_and?; auto using bytes_ok_singleton with bytes.
    + unfold MAGIC, bytes_ok, byte_ok. repeat constructor; lia.
    + constructor.
    + unfold bytes_ok, byte_ok. destruct preferred; repeat constructor; simpl; lia.
    + destruct endpoint as [e|]; [|constructor]. apply bytes_ok_app.
      repeat (match goal with H : _ /\ _ |- _ => destruct H end). auto with bytes.
    + destruct flags; [by apply bytes_ok_singleton|constructor].
    + constructor.
Qed.

Lemma decode_stream_on_wire max fs bss :
  Forall2 (on_wire max) fs bss -> bytes_ok (concat bss) /\ decode_stream max (concat bss) = (fs, None, []).
Proof.
  induction 1 as [|f bs fs bss Hw _ [Hb IH]]; [split; [constructor|done]|].
  assert (bytes_ok bs) as Hbs by (eapply encode_frame_bytes; apply Hw).
  simpl concat. split; [by apply bytes_ok_app|].
  rewrite decode_stream_step by (by apply bytes_ok_app).
  rewrite (decode_stream_next _ _ f (len bs)) by (by apply decode_frame_on_wire).
  unfold len. rewrite Nat2Z.id, drop_app_length, IH. done.
Qed.

(** C6. The stream decoder recovers frames from any segmentation: however the
    bytes of a sequence of encoded frames are cut into reads (mid-header,
    several frames at once, empty reads), pushing each read and draining the
    decoder returns exactly those frames in order, never panics, and leaves
    nothing buffered. *)
Theorem feed_any_segmentation max fs bss chunks :
  Forall2 (on_wire max) fs bss -> concat chunks = concat bss ->
  exists d, feed (FrameDecoder_new max) chunks = Some (fs, None, d) /\ buffered_len d = 0.
Proof.
  intros Hw Hc. destruct (decode_stream_on_wire max fs bss Hw) as [Hb Hd].
  destruct (FrameDecoder_new_ready max) as [Hok Hn].
  destruct (feed_refines chunks (FrameDecoder_new max) Hok) as (gs & e & d & q & Hf & Hs & Hend);
    [constructor|apply bytes_ok_concat; by rewrite Hc|done|].
  simpl app in Hs. simpl dec_max in Hs. rewrite Hc, Hd in Hs. injection Hs as -> <- <-.
  destruct (Hend eq_refl) as (Hp & Hdok & _). exists d. split; [done|].
  unfold buffered_len, pending, dec_ok, len in *. assert (length (drop (dec_start d) (dec_buffer d)) = 0%nat) as Hl
    by (by rewrite <-Hp). rewrite length_drop in Hl. lia.
Qed.

(** Segmentation independence and bounded buffering, on arbitrary input:
    whatever bytes arrive and however they are cut, the decoder does not panic,
    returns the same frames and the same error as for one read of all of them,
    and, while there is no error, holds less than one frame of the payload
    limit, so a peer cannot make it buffer more. *)
Theorem feed_bounded max chunks :
  0 <= max -> bytes_ok (concat chunks) ->
  exists fs e d d', feed (FrameDecoder_new max) chunks = Some (fs, e, d) /\
    feed (FrameDecoder_new max) [concat chunks] = Some (fs, e, d') /\
    (e = None -> buffered_len d < 5 + max /\ pending d = pending d').
Proof.
  intros Hmax Hb. destruct (FrameDecoder_new_ready max) as [Hok Hn].
  destruct (feed_refines chunks (FrameDecoder_new max) Hok) as (fs & e & d & q & Hf & Hs & Hend);
    [constructor|by apply bytes_ok_concat|done|].
  destruct (feed_refines [concat chunks] (FrameDecoder_new max) Hok) as (fs' & e' & d' & q' & Hf' & Hs' & Hend');
    [constructor|by repeat constructor|done|].
  simpl in Hs, Hs'. rewrite app_nil_r, Hs in Hs'. injection Hs' as <- <- <-.
  exists fs, e, d, d'. split_and!; try done. intros He.
  destruct (Hend He) as (-> & Hd & Hnone). destruct (Hend' He) as (<- & _ & _). split; [|done].
  assert (buffered_len d = len (pending d)) as ->.
  { unfold buffered_len, pending, dec_ok, len in *. rewrite length_drop. lia. }
  simpl in Hnone. unfold stream_next in Hnone.
  destruct (Z.ltb_spec (len (pending d)) 5); [lia|].
  destruct (Z.ltb_spec max (header_len (pending d))); [done|].
  destruct (Z.ltb_spec (len (pending d)) (5 + header_len (pending d))); [lia|].
  by destruct (parse_frame _ _).
Qed.

(** *** The login handshake *)

(** Clamping sets a bit, so a generated key is never the rejected zero key. *)
Lemma generate_total random : length random = KEY_LEN -> exists kp, generate random = Some kp.
Proof.
  intros Hl. unfold generate, from_private_key, reject_zero_key.
  destruct (forallb _ (clamp_x25519_private random)) eqn:E; [|eauto]. exfalso.
  rewrite forallb_forall in E. unfold clamp_x25519_private in E.
  destruct (lookup_lt_is_Some_2 (alter (fun b => Z.land b 248) 0%nat random) 31) as [b Hb].
  { rewrite length_alter, Hl. unfold KEY_LEN. lia. }
  pose proof (list_lookup_alter (fun b => Z.lor (Z.land b 127) 64) (alter (fun b => Z.land b 248) 0%nat random) 31 31) as Ha.
  rewrite decide_True, Hb in Ha by done. apply list_elem_of_lookup_2, list_elem_of_In, E in Ha.
  apply Z.eqb_eq, Z.lor_eq_0_iff in Ha. destruct Ha. lia.
Qed.

Section handshake.
Context `{CryptoBoxLaws} `{InfoJsonLaws}.

Lemma open_sealed a b nonce plaintext sealed :
  length nonce = NONCE_LEN -> reject_zero_key (public_key a) = Ok tt ->
  seal_to a (public_key b) nonce plaintext = Ok sealed ->
  open_from b (public_key a) sealed = Ok plaintext /\ len sealed = Z.of_nat NONCE_LEN + len plaintext + 16 /\
  (bytes_ok nonce -> bytes_ok sealed).
Proof.
  intros Hn Hz. unfold seal_to, seal_to_with_nonce, open_from. rewrite Hz.
  destruct (reject_zero_key (public_key b)) as [[]|]; [|done]. simpl.
  destruct (box_encrypt _ _ _ _) as [c|] eqn:Ec; [|done]. simpl. intros [= <-].
  pose proof (encrypt_size _ _ _ _ _ Ec) as [Hc Hl]. rewrite len_app. pose proof (len_nonneg c).
  assert (len nonce = Z.of_nat NONCE_LEN) as -> by (unfold len; by rewrite Hn).
  rewrite (proj2 (Z.ltb_ge _ _)) by lia.
  rewrite take_app_length', drop_app_length' by done. unfold public_key in *.
  rewrite (decrypt_encrypt _ _ _ _ _ Ec).
  split; [done|]. split; [lia|]. intros ?. by apply bytes_ok_app.
Qed.

(** The DERP login: the client's information frame, as received on the
    stream under the pre-authentication limit, decodes and opens at the server
    to the client's own key and the information it sent (a zero mesh key being
    dropped), and the server's reply opens at the client to what the server
    sent. *)
Theorem derp_handshake ck sk n1 n2 info reply bs1 bs2 rest1 rest2 :
  key_ok ck -> key_ok sk -> length n1 = NONCE_LEN -> length n2 = NONCE_LEN -> bytes_ok n1 -> bytes_ok n2 ->
  reject_zero_key (public_key ck) = Ok tt -> reject_zero_key (public_key sk) = Ok tt ->
  encode_client_info_frame ck (public_key sk) n1 info = Ok bs1 ->
  encode_server_info_frame sk (public_key ck) n2 reply = Ok bs2 ->
  (exists f, decode_frame (bs1 ++ rest1) MAX_HANDSHAKE_FRAME_LEN = Ok (f, len bs1) /\
             open_client_info sk f = Ok (public_key ck, written_client_info info)) /\
  (exists f, decode_frame (bs2 ++ rest2) (Z.of_nat NONCE_LEN + MAX_INFO_LEN) = Ok (f, len bs2) /\
             open_server_info ck (public_key sk) f = Ok reply).
Proof.
  intros [Hc1 Hc2] [Hs1 Hs2] Hn1 Hn2 Hb1 Hb2 Hzc Hzs He1 He2.
  unfold encode_client_info_frame in He1. unfold encode_server_info_frame in He2.
  destruct (client_to_vec info) as [p1|] eqn:E1; [|done]. destruct (server_to_vec reply) as [p2|] eqn:E2; [|done].
  simpl in He1, He2.
  destruct (seal_to ck _ n1 p1) as [c1|] eqn:S1; [|done]. destruct (seal_to sk _ n2 p2) as [c2|] eqn:S2; [|done].
  simpl result_bind in He1, He2.
  destruct (open_sealed ck sk n1 p1 c1) as (O1 & L1 & B1); [done..|].
  destruct (open_sealed sk ck n2 p2 c2) as (O2 & L2 & B2); [done..|].
  pose proof (len_nonneg p1). pose proof (len_nonneg p2).
  destruct (encode_frame_Ok _ _ He1) as (V1 & _ & _). destruct (encode_frame_Ok _ _ He2) as (V2 & _ & _).
  cbn [validate_frame_for_encode] in V1, V2.
  destruct (Z.ltb_spec (Z.of_nat NONCE_LEN + MAX_CLIENT_INFO_LEN) (len c1)) as [|M1]; [done|].
  destruct (Z.ltb_spec (Z.of_nat NONCE_LEN + MAX_INFO_LEN) (len c2)) as [|M2]; [done|].
  destruct (public_key_ok ck Hc1 Hc2) as [Hpk1 Hpk2]. split.
  - exists (ClientInfoFrame (public_key ck) c1). split.
    + apply decode_frame_on_wire. refine (conj _ (conj _ (conj _ He1)));
        [exact (conj (conj Hpk1 Hpk2) (B1 Hb1))|simpl; lia|].
      unfold payload_len, MAX_HANDSHAKE_FRAME_LEN. cbn [to_raw_parts snd]. rewrite len_app.
      unfold public_key, len at 1. rewrite Hpk1. lia.
    + unfold open_client_info. rewrite (proj2 (Z.ltb_ge _ _)) by done. rewrite O1. cbn [result_bind].
      rewrite (proj2 (Z.ltb_ge _ _)) by lia. by rewrite (client_json _ _ E1).
  - exists (ServerInfoFrame c2). split.
    + apply decode_frame_on_wire. refine (conj (B2 Hb2) (conj _ (conj M2 He2))). simpl. lia.
    + unfold open_server_info. rewrite (proj2 (Z.ltb_ge _ _)) by done. rewrite O2. cbn [result_bind].
      rewrite (proj2 (Z.ltb_ge _ _)) by lia. by rewrite (server_json _ _ E2).
Qed.

End handshake.

(** ** Instances of the theorems *)

Module DerpExamples.

Definition key1 : list Z := replicate 32 7.

Lemma key1_ok : key_ok key1.
Proof. split; [reflexivity|]. unfold key1. apply Forall_replicate. unfold byte_ok. lia. Qed.

Definition frame1 : Frame := PeerGone key1 NotHere.
Definition bytes1 : list Z := [8; 0; 0; 0; 33] ++ key1 ++ [1].

Lemma frame1_on_wire : on_wire 64 frame1 bytes1.
Proof.
  split; [split; [apply key1_ok|unfold byte_ok; simpl; lia]|].
  split; [reflexivity|]. split; [vm_compute; discriminate|reflexivity].
Qed.

Lemma decode_encode_frame_witness : decode_frame (bytes1 ++ [1; 2]) 64 = Ok (frame1, 38).
Proof.
  destruct frame1_on_wire as (Hok & Hc & Hl & He).
  exact (decode_encode_frame frame1 bytes1 [1; 2] 64 Hok Hc He Hl).
Defined.

Lemma bytes1_ok : bytes_ok bytes1.
Proof. vm_compute. repeat constructor; discriminate. Qed.

(** A [PeerGone] frame without its reason byte is read with the default reason
    and written back with it. *)
Lemma decode_frame_normalises_witness :
  exists bs, encode_frame (PeerGone key1 Gone_Disconnected) = Ok bs /\
    forall rest, decode_frame (bs ++ rest) (3 * 64 + 1) = Ok (PeerGone key1 Gone_Disconnected, len bs).
Proof.
  refine (proj2 (proj2 (proj2 (decode_frame_normalises ([8; 0; 0; 0; 32] ++ key1) 64 _ 37 _ _ _)))).
  - vm_compute. repeat constructor; discriminate.
  - lia.
  - reflexivity.
Defined.

(** Two frames cut in the middle of a header. *)
Lemma feed_any_segmentation_witness :
  exists d, feed (FrameDecoder_new 64) [take 40 (bytes1 ++ bytes1); []; drop 40 (bytes1 ++ bytes1)]
            = Some ([frame1; frame1], None, d) /\ buffered_len d = 0.
Proof.
  apply (feed_any_segmentation 64 [frame1; frame1] [bytes1; bytes1]).
  - repeat constructor; apply frame1_on_wire.
  - reflexivity.
Defined.

Lemma feed_bounded_witness :
  exists fs e d d', feed (FrameDecoder_new 64) [[8; 0; 0; 0]; [200; 1]] = Some (fs, e, d) /\
    feed (FrameDecoder_new 64) [[8; 0; 0; 0; 200; 1]] = Some (fs, e, d') /\
    (e = None -> buffered_len d < 5 + 64 /\ pending d = pending d').
Proof.
  apply (feed_bounded 64 [[8; 0; 0; 0]; [200; 1]]); [lia|].
  vm_compute. repeat constructor; discriminate.
Defined.

(** A box that only appends a tag, with the key as its own public key. *)
#[local] Instance tag_box : CryptoBox := {|
  secret_public_key s := s;
  box_encrypt _ _ _ m := if decide (bytes_ok m) then Some (m ++ replicate 16 0) else None;
  box_decrypt _ _ _ c := Some (take (length c - 16) c);
|}.

#[local] Instance tag_box_laws : CryptoBoxLaws.
Proof.
  split; simpl; [done|..]; intros until c; (destruct (decide (bytes_ok m)) as [Hm|]; [|done]); intros [= <-].
  - rewrite len_app. split; [|done]. apply bytes_ok_app. split; [done|]. repeat constructor; unfold byte_ok; lia.
  - f_equal. rewrite length_app. simpl. replace (length m + 16 - 16)%nat with (length m) by lia. apply take_app_length.
Qed.

(** A codec of the information structures by position. *)
#[local] Instance positional : InfoJsonLib := {|
  client_to_vec i := Ok (Z.b2z (can_ack_pings i) :: Z.b2z (is_prober i) :: ci_version i
                         :: (if mesh_key_is_none_or_zero (mesh_key i) then []
                             else match mesh_key i with Some k => 1 :: k | None => [] end));
  client_from_slice bs :=
    match bs with
    | a :: p :: v :: rest => Ok (mkClientInfo (match rest with [] => None | _ :: k => Some k end) v
                                   (negb (a =? 0)) (negb (p =? 0)))
    | _ => Err "short"%string
    end;
  server_to_vec i := Ok [si_version i; token_bucket_bytes_per_second i; token_bucket_bytes_burst i];
  server_from_slice bs := match bs with [v; p; b] => Ok (mkServerInfo v p b) | _ => Err "short"%string end;
|}.

#[local] Instance positional_laws : InfoJsonLaws.
Proof.
  split; simpl.
  - intros [mk v a p] bs. simpl. intros [= <-]. unfold written_client_info. simpl.
    destruct mk as [k|]; [destruct (mesh_key_is_none_or_zero (Some k)) eqn:E|];
      unfold mesh_key_is_none_or_zero in *; simpl in *; rewrite ?E; by destruct a, p.
  - by intros [v p b] bs [= <-].
Qed.

Definition key2 : list Z := replicate 32 9.
Definition nonce1 : list Z := replicate 24 3.

Lemma derp_handshake_witness :
  exists f, decode_frame (match encode_client_info_frame key1 key2 nonce1 ClientInfo_regular with
                          | Ok bs => bs | Err _ => [] end ++ []) MAX_HANDSHAKE_FRAME_LEN = Ok (f, 80) /\
            open_client_info key2 f = Ok (key1, ClientInfo_regular).
Proof.
  refine (proj1 (derp_handshake key1 key2 nonce1 nonce1 ClientInfo_regular ServerInfo_current
                   (match encode_client_info_frame key1 key2 nonce1 ClientInfo_regular with
                    | Ok bs => bs | Err _ => [] end)
                   (match encode_server_info_frame key2 key1 nonce1 ServerInfo_current with
                    | Ok bs => bs | Err _ => [] end) [] []
                   key1_ok _ eq_refl eq_refl _ _ eq_refl eq_refl _ _)).
  - split; [reflexivity|]. apply Forall_replicate. unfold byte_ok. lia.
  - apply Forall_replicate. unfold byte_ok. lia.
  - apply Forall_replicate. unfold byte_ok. lia.
  - vm_compute. reflexivity.
  - vm_compute. reflexivity.
Defined.

End DerpExamples.
