(* ===== verification/Stun.v ===== *)
(** * Stun: endpoint discovery (headscale-core/src/stun.rs)

    The binding request and response messages, the attribute parser with its
    scan loop, the responder's packet handler and the client's query over its
    servers.  Indexing panics in Rust: the parser returns [None] where an index
    or slice would be out of range or the loop would not end, and the theorems
    show it never does.  The UDP socket of the client is what its calls return
    ([Network]); binding the listener's socket and its task are not modelled. *)

From S2P Require Import Prelude Bytes Net.
From stdpp Require Import base list strings.
From Stdlib Require Import ZArith Lia.

Open Scope Z_scope.
Open Scope rust_scope.

Definition STUN_BINDING_REQUEST : Z := 0x0001.
Definition STUN_BINDING_RESPONSE : Z := 0x0101.
Definition ATTR_MAPPED_ADDRESS : Z := 0x0001.
Definition ATTR_XOR_MAPPED_ADDRESS : Z := 0x0020.
Definition ATTR_XOR_MAPPED_ADDRESS_ALT : Z := 0x8020.
Definition STUN_FAMILY_IPV4 : Z := 1.
Definition STUN_FAMILY_IPV6 : Z := 2.
Definition MAGIC_COOKIE : Z := 0x2112A442.

Inductive StunRequestError := Truncated | BadMagic | UnsupportedType (t : Z).

Inductive StunError :=
| NoServers
| AllServersFailed
| StunTimeout
| InvalidResponse (m : string)
| StunIo (m : string).

(** ** Requests and responses *)

Definition build_binding_request (transaction_id : list Z) : list Z :=
  to_be_bytes 2 STUN_BINDING_REQUEST ++ to_be_bytes 2 0 ++ to_be_bytes 4 MAGIC_COOKIE ++ transaction_id.

Definition be16 (a b : Z) : Z := from_be_bytes [a; b].
Definition be32 (a b c d : Z) : Z := from_be_bytes [a; b; c; d].

Definition decode_binding_request (data : list Z) : result (list Z) StunRequestError :=
  if len data <? 20 then Err Truncated
  else
    let msg_type := be16 (byte_at data 0) (byte_at data 1) in
    if negb (msg_type =? STUN_BINDING_REQUEST) then Err (UnsupportedType msg_type)
    else
      let msg_len := be16 (byte_at data 2) (byte_at data 3) in
      if len data <? 20 + msg_len then Err Truncated
      else
        let cookie := be32 (byte_at data 4) (byte_at data 5) (byte_at data 6) (byte_at data 7) in
        if negb (cookie =? MAGIC_COOKIE) then Err BadMagic
        else Ok (slice 8 20 data).

(** The port mask [(MAGIC_COOKIE >> 16) as u16] and the address mask. *)
Definition port_mask : Z := Z.shiftr MAGIC_COOKIE 16.
Definition address_mask (transaction_id : list Z) : list Z := to_be_bytes 4 MAGIC_COOKIE ++ transaction_id.

Definition encode_xor_mapped_address (transaction_id : list Z) (addr : SocketAddr) : list Z :=
  0 :: match sa_ip addr with
       | V4 ip => STUN_FAMILY_IPV4 :: to_be_bytes 2 (Z.lxor (sa_port addr) port_mask)
                  ++ to_be_bytes 4 (Z.lxor ip MAGIC_COOKIE)
       | V6 ip => STUN_FAMILY_IPV6 :: to_be_bytes 2 (Z.lxor (sa_port addr) port_mask)
                  ++ xor_bytes (octets (V6 ip)) (address_mask transaction_id)
       end.

Definition encode_binding_response (transaction_id : list Z) (addr : SocketAddr) : list Z :=
  let attr_body := encode_xor_mapped_address transaction_id addr in
  let attr_len := (len attr_body) `mod` 2 ^ 16 in
  let msg_len := 4 + (len attr_body) `mod` 2 ^ 16 in
  to_be_bytes 2 STUN_BINDING_RESPONSE ++ to_be_bytes 2 msg_len ++ to_be_bytes 4 MAGIC_COOKIE ++ transaction_id
  ++ to_be_bytes 2 ATTR_XOR_MAPPED_ADDRESS ++ to_be_bytes 2 attr_len ++ attr_body.

Definition handle_packet (data : list Z) (remote : SocketAddr) : result (option (list Z)) StunRequestError :=
  match decode_binding_request data with
  | Ok transaction_id => Ok (Some (encode_binding_response transaction_id remote))
  | Err Truncated | Err BadMagic => Ok None
  | Err err => Err err
  end.

(** One round of [serve_stun]: the datagram sent back, if any. *)
Definition serve_one (buf : list Z) (remote : SocketAddr) : option (list Z) :=
  match handle_packet (take 1500 buf) remote with
  | Ok (Some response) => Some response
  | _ => None
  end.

(** ** Parsing a response *)

Definition parse_mapped_address (data : list Z) : result SocketAddr StunError :=
  if len data <? 8 then Err (InvalidResponse "MAPPED-ADDRESS too short")
  else
    let family := byte_at data 1 in
    let port := be16 (byte_at data 2) (byte_at data 3) in
    if family =? 1 then Ok (mkSocketAddr (ipv4_of_bytes (slice 4 8 data)) port)
    else if family =? 2 then
      if len data <? 20 then Err (InvalidResponse "IPv6 address too short")
      else Ok (mkSocketAddr (ipv6_of_bytes (slice 4 20 data)) port)
    else Err (InvalidResponse ("Unknown address family: " ++ show_dec family)).

Definition parse_xor_mapped_address (data transaction_id : list Z) : result SocketAddr StunError :=
  if len data <? 8 then Err (InvalidResponse "XOR-MAPPED-ADDRESS too short")
  else
    let family := byte_at data 1 in
    let xor_port := be16 (byte_at data 2) (byte_at data 3) in
    let port := Z.lxor xor_port port_mask in
    if family =? 1 then
      let xor_ip := be32 (byte_at data 4) (byte_at data 5) (byte_at data 6) (byte_at data 7) in
      Ok (mkSocketAddr (V4 (Z.lxor xor_ip MAGIC_COOKIE)) port)
    else if family =? 2 then
      if len data <? 20 then Err (InvalidResponse "IPv6 address too short")
      else Ok (mkSocketAddr (ipv6_of_bytes (xor_bytes (slice 4 20 data) (address_mask transaction_id))) port)
    else Err (InvalidResponse ("Unknown address family: " ++ show_dec family)).

(** [data[i]] and [&data[a..b]] with their panics. *)
Definition index (data : list Z) (i : Z) : option Z := if 0 <=? i then data !! Z.to_nat i else None.

Definition get_range (data : list Z) (a b : Z) : option (list Z) :=
  if (0 <=? a) && (a <=? b) && (b <=? len data) then Some (slice (Z.to_nat a) (Z.to_nat b) data) else None.

Definition malformed : result SocketAddr StunError := Err (InvalidResponse "Malformed attributes").

(** [(attr_len + 3) & !3] *)
Definition padded (n : Z) : Z := Z.land (n + 3) (Z.lnot 3).

(** The attribute scan from [offset]; [None] is a panic or a loop that outlives
    its fuel. *)
Fixpoint scan_attributes (fuel : nat) (data txn : list Z) (message_end offset : Z)
    (fallback_addr : option SocketAddr) : option (result SocketAddr StunError) :=
  match fuel with
  | O => None
  | S k =>
      if offset <? message_end then
        if message_end <? offset + 4 then Some malformed
        else
          t0 ← index data offset; t1 ← index data (offset + 1);
          l0 ← index data (offset + 2); l1 ← index data (offset + 3);
          let attr_type := be16 t0 t1 in
          let attr_len := be16 l0 l1 in
          let attr_start := offset + 4 in
          let attr_end := attr_start + attr_len in
          let next_offset := attr_start + padded attr_len in
          if message_end <? next_offset then Some malformed
          else
            attr_data ← get_range data attr_start attr_end;
            if (attr_type =? ATTR_XOR_MAPPED_ADDRESS) || (attr_type =? ATTR_XOR_MAPPED_ADDRESS_ALT)
            then Some (parse_xor_mapped_address attr_data txn)
            else if attr_type =? ATTR_MAPPED_ADDRESS then
              match parse_mapped_address attr_data with
              | Ok addr => scan_attributes k data txn message_end next_offset (Some addr)
              | Err e => Some (Err e)
              end
            else scan_attributes k data txn message_end next_offset fallback_addr
      else Some (match fallback_addr with
                 | Some addr => Ok addr
                 | None => Err (InvalidResponse "No mapped address in response")
                 end)
  end%stdpp.

(** [{msg_type:04x}] *)
Definition show_hex4 (n : Z) : string :=
  let s := show_hex n in String.concat "" (replicate (4 - String.length s) "0"%string) ++ s.

Definition parse_binding_response (data expected_txn_id : list Z) : option (result SocketAddr StunError) :=
  if len data <? 20 then Some (Err (InvalidResponse "Message too short"))
  else
    let msg_type := be16 (byte_at data 0) (byte_at data 1) in
    if negb (msg_type =? STUN_BINDING_RESPONSE)
    then Some (Err (InvalidResponse ("Unexpected message type: 0x" ++ show_hex4 msg_type)))
    else
      let msg_len := be16 (byte_at data 2) (byte_at data 3) in
      if len data <? 20 + msg_len then Some (Err (InvalidResponse "Message truncated"))
      else
        let cookie := be32 (byte_at data 4) (byte_at data 5) (byte_at data 6) (byte_at data 7) in
        if negb (cookie =? MAGIC_COOKIE) then Some (Err (InvalidResponse "Invalid magic cookie"))
        else if negb (bool_decide (slice 8 20 data = expected_txn_id))
        then Some (Err (InvalidResponse "Transaction ID mismatch"))
        else scan_attributes (S (length data)) data expected_txn_id (20 + msg_len) 20 None.

(** ** The client *)

Record StunClient := mkStunClient { stun_servers : list SocketAddr; stun_timeout : Z }.

Definition STUN_TIMEOUT : Z := 3.

Definition with_servers (servers : list SocketAddr) : result StunClient StunError :=
  match servers with [] => Err NoServers | _ => Ok (mkStunClient servers STUN_TIMEOUT) end.

Definition with_timeout (c : StunClient) (timeout : Z) : StunClient := mkStunClient (stun_servers c) timeout.

(** The socket during one query: the error of [send_to], and what arrives
    within the timeout (an error, or a datagram). *)
Class Network := {
  udp_send : list Z -> SocketAddr -> option string;
  udp_recv : Z -> SocketAddr -> list Z -> option (result (list Z) string);
}.

Section client.
Context `{Network}.

(** [random] is the generated transaction id; the datagram is cut to the
    548-byte buffer.  [None] is a panic. *)
Definition query_server (c : StunClient) (random : list Z) (server : SocketAddr)
  : option (result SocketAddr StunError) :=
  let request := build_binding_request random in
  match udp_send request server with
  | Some e => Some (Err (StunIo e))
  | None =>
      match udp_recv (stun_timeout c) server request with
      | None => Some (Err StunTimeout)
      | Some (Err e) => Some (Err (StunIo e))
      | Some (Ok datagram) => parse_binding_response (take 548 datagram) random
      end
  end.

(** Attempt [i] uses the transaction id [random i]. *)
Fixpoint try_servers (c : StunClient) (random : nat -> list Z) (i : nat) (servers : list SocketAddr)
  : option (result SocketAddr StunError) :=
  match servers with
  | [] => Some (Err AllServersFailed)
  | server :: rest =>
      match query_server c (random i) server with
      | None => None
      | Some (Ok endpoint) => Some (Ok endpoint)
      | Some (Err _) => try_servers c random (S i) rest
      end
  end.

Definition discover_endpoint (c : StunClient) (random : nat -> list Z) : option (result SocketAddr StunError) :=
  try_servers c random 0 (stun_servers c).

End client.

(** ** Theorems *)

Lemma padded_bounds n : 0 <= n -> n <= padded n < n + 4.
Proof.
  intros Hn. unfold padded. rewrite <-Z.ldiff_land.
  pose proof (Z.ldiff_ones_r (n + 3) 2 ltac:(lia)) as E. change (Z.ones 2) with 3 in E.
  rewrite E, Z.shiftl_mul_pow2, Z.shiftr_div_pow2 by lia. change (2 ^ 2) with 4.
  pose proof (Z.div_mod (n + 3) 4 ltac:(lia)). pose proof (Z.mod_pos_bound (n + 3) 4 ltac:(lia)). lia.
Qed.

(** A literal list of bytes. *)
Ltac bytes_list := unfold bytes_ok; repeat (apply Forall_cons_2; [by auto using byte_at_ok|]); apply Forall_nil_2.

Lemma be16_range data i j : bytes_ok data -> in_u 16 (be16 (byte_at data i) (byte_at data j)).
Proof. intros Hb. apply from_be_bytes_u16; [bytes_list|done]. Qed.

Lemma be16_ok a b : byte_ok a -> byte_ok b -> in_u 16 (be16 a b).
Proof. intros Ha Hb. apply from_be_bytes_u16; [bytes_list|done]. Qed.

Lemma be16_split v : in_u 16 v -> exists a b, to_be_bytes 2 v = [a; b] /\ be16 a b = v.
Proof.
  intros Hv. pose proof (from_to_be_bytes_u 16 2 v eq_refl Hv) as Hr.
  pose proof (length_to_be_bytes 2 v) as Hl. destruct (to_be_bytes 2 v) as [|a [|b [|]]]; try done. eauto.
Qed.

Lemma be32_split v : in_u 32 v -> exists a b c d, to_be_bytes 4 v = [a; b; c; d] /\ be32 a b c d = v.
Proof.
  intros Hv. pose proof (from_to_be_bytes_u 32 4 v eq_refl Hv) as Hr.
  pose proof (length_to_be_bytes 4 v) as Hl.
  destruct (to_be_bytes 4 v) as [|a [|b [|c [|d [|]]]]]; try done. eauto 10.
Qed.

Lemma lxor_u w a b : 0 <= w -> in_u w a -> in_u w b -> in_u w (Z.lxor a b).
Proof.
  unfold in_u, u_max. intros Hw Ha Hb. pose proof (lxor_range w a b Hw ltac:(lia) ltac:(lia)). lia.
Qed.

Lemma index_ok data i : bytes_ok data -> 0 <= i < len data -> exists b, index data i = Some b /\ byte_ok b.
Proof.
  intros Hb Hi. unfold index. rewrite (proj2 (Z.leb_le 0 i)) by lia.
  destruct (lookup_lt_is_Some_2 data (Z.to_nat i)) as [b E]; [unfold len in Hi; lia|].
  exists b. split; [done|]. by eapply Forall_lookup_1 in Hb.
Qed.

Lemma get_range_ok data a b :
  bytes_ok data -> 0 <= a <= b -> b <= len data ->
  get_range data a b = Some (slice (Z.to_nat a) (Z.to_nat b) data) /\
  bytes_ok (slice (Z.to_nat a) (Z.to_nat b) data) /\ len (slice (Z.to_nat a) (Z.to_nat b) data) = b - a.
Proof.
  intros Hb Ha Hl. unfold get_range. rewrite !(proj2 (Z.leb_le _ _)) by lia. split_and!; [done|..].
  - unfold slice. auto with bytes.
  - unfold slice, len in *. rewrite length_take, length_drop. lia.
Qed.

(** The addresses a parser returns are well formed. *)
Definition result_sa_ok (r : result SocketAddr StunError) : Prop := forall a, r = Ok a -> sa_ok a.

Lemma parse_mapped_address_ok data : bytes_ok data -> result_sa_ok (parse_mapped_address data).
Proof.
  intros Hb a. unfold parse_mapped_address. destruct (Z.ltb_spec (len data) 8); [done|].
  assert (forall n, (4 <= n)%nat -> Z.of_nat n <= len data ->
            bytes_ok (slice 4 n data) /\ length (slice 4 n data) = (n - 4)%nat) as Hs.
  { intros n H4 Hn. unfold slice. split; [auto with bytes|]. rewrite length_take, length_drop. unfold len in *. lia. }
  destruct (byte_at data 1 =? 1); [|destruct (byte_at data 1 =? 2); [destruct (Z.ltb_spec (len data) 20)|]];
    try done; intros [= <-]; (split; [|by apply be16_range]).
  - destruct (Hs 8%nat); [lia..|]. by apply ipv4_of_bytes_ok.
  - destruct (Hs 20%nat); [lia..|]. by apply ipv6_of_bytes_ok.
Qed.

Definition txn_ok (txn : list Z) : Prop := length txn = 12%nat /\ bytes_ok txn.

Lemma address_mask_ok txn : txn_ok txn -> length (address_mask txn) = 16%nat /\ bytes_ok (address_mask txn).
Proof.
  intros [Hl Hb]. unfold address_mask. rewrite length_app, length_to_be_bytes, Hl. split; [done|].
  apply bytes_ok_app. auto with bytes.
Qed.

Lemma parse_xor_mapped_address_ok data txn :
  bytes_ok data -> txn_ok txn -> result_sa_ok (parse_xor_mapped_address data txn).
Proof.
  intros Hb Ht a. unfold parse_xor_mapped_address. destruct (Z.ltb_spec (len data) 8); [done|].
  destruct (address_mask_ok txn Ht) as [Hml Hmb].
  assert (in_u 16 (Z.lxor (be16 (byte_at data 2) (byte_at data 3)) port_mask)) as Hport.
  { apply lxor_u; [lia|by apply be16_range|]. vm_compute. split; discriminate. }
  destruct (byte_at data 1 =? 1); [|destruct (byte_at data 1 =? 2); [destruct (Z.ltb_spec (len data) 20)|]];
    try done; intros [= <-]; (split; [|exact Hport]); simpl sa_ip.
  - unfold ip_ok. simpl. apply lxor_range; [lia| |by vm_compute].
    pose proof (from_be_bytes_u32 [byte_at data 4; byte_at data 5; byte_at data 6; byte_at data 7]) as Hr.
    unfold in_u, u_max in Hr. fold (be32 (byte_at data 4) (byte_at data 5) (byte_at data 6) (byte_at data 7)) in Hr.
    destruct Hr; [bytes_list|done|lia].
  - apply ipv6_of_bytes_ok; [apply xor_bytes_ok; unfold slice; auto with bytes|].
    rewrite length_xor_bytes; unfold slice, len in *; rewrite length_take, length_drop; lia.
Qed.

(** The scan ends: each attribute moves the offset by at least its header, and
    every index it uses is inside the message. *)
Lemma scan_attributes_total fuel data txn message_end offset fallback :
  bytes_ok data -> txn_ok txn -> message_end <= len data -> 0 <= offset ->
  (Z.to_nat (message_end - offset) < fuel)%nat ->
  (forall a, fallback = Some a -> sa_ok a) ->
  exists r, scan_attributes fuel data txn message_end offset fallback = Some r /\ result_sa_ok r.
Proof.
  intros Hb Ht Hend. revert offset fallback.
  induction fuel as [|k IH]; intros offset fallback Ho Hf Hfb; [lia|]. simpl.
  destruct (Z.ltb_spec offset message_end) as [Hlt|Hge].
  2: { eexists. split; [done|]. intros a. destruct fallback; [|done]. intros [= <-]. auto. }
  destruct (Z.ltb_spec message_end (offset + 4)); [eexists; split; done|].
  destruct (index_ok data offset) as (t0 & -> & Ht0); [done|lia|]. simpl.
  destruct (index_ok data (offset + 1)) as (t1 & -> & Ht1); [done|lia|]. simpl.
  destruct (index_ok data (offset + 2)) as (l0 & -> & Hl0); [done|lia|]. simpl.
  destruct (index_ok data (offset + 3)) as (l1 & -> & Hl1); [done|lia|]. simpl.
  pose proof (be16_ok l0 l1 Hl0 Hl1) as [Hlen _]. pose proof (padded_bounds (be16 l0 l1) Hlen).
  destruct (Z.ltb_spec message_end (offset + 4 + padded (be16 l0 l1))); [eexists; split; done|].
  destruct (get_range_ok data (offset + 4) (offset + 4 + be16 l0 l1)) as (-> & Hrb & _); [done|lia|lia|]. simpl.
  destruct (_ || _); [eexists; split; [done|by apply parse_xor_mapped_address_ok]|].
  destruct (_ =? ATTR_MAPPED_ADDRESS); [|apply IH; (done || lia)].
  pose proof (parse_mapped_address_ok _ Hrb) as Hm. destruct (parse_mapped_address _) as [a|e].
  - apply IH; try lia. intros a' [= <-]. by apply Hm.
  - eexists. split; done.
Qed.

(** The client's parser is total and safe on hostile input: for every
    datagram it returns (no index out of range, no endless attribute scan), and
    an address it accepts is well formed and comes from a binding response that
    carries the client's own transaction id. *)
Theorem parse_binding_response_total data txn :
  bytes_ok data -> txn_ok txn ->
  exists r, parse_binding_response data txn = Some r /\
    forall a, r = Ok a -> sa_ok a /\ slice 8 20 data = txn /\ slice 0 2 data = [1; 1] /\ 20 <= len data.
Proof.
  intros Hb Ht. unfold parse_binding_response.
  destruct (Z.ltb_spec (len data) 20) as [|H20]; [eexists; split; done|].
  destruct (be16 (byte_at data 0) (byte_at data 1) =? STUN_BINDING_RESPONSE) eqn:Et; [|eexists; split; done].
  cbn [negb]. pose proof (be16_range data 2 3 Hb) as [Hl _].
  destruct (Z.ltb_spec (len data) (20 + be16 (byte_at data 2) (byte_at data 3))); [eexists; split; done|].
  destruct (be32 _ _ _ _ =? MAGIC_COOKIE); [|eexists; split; done]. cbn [negb].
  case_bool_decide as Etxn; [|eexists; split; done]. cbn [negb].
  destruct (scan_attributes_total (S (length data)) data txn (20 + be16 (byte_at data 2) (byte_at data 3)) 20 None)
    as (r & -> & Hr); [done|done|done|lia|unfold len in *; lia|done|].
  exists r. split; [done|]. intros a Ha. split_and!; auto.
  apply Z.eqb_eq in Et. unfold STUN_BINDING_RESPONSE, be16 in Et.
  destruct data as [|d0 [|d1 data]]; [done|unfold len in *; simpl in *; lia|]. unfold from_be_bytes, byte_at in Et.
  cbn [nth be_combine] in Et. unfold slice. simpl.
  inversion Hb as [|? ? Hd0 Hb']. inversion Hb' as [|? ? Hd1 _]. unfold byte_ok in *.
  rewrite ?drop_0, ?take_0. f_equal; [lia|f_equal; lia].
Qed.

(** *** Round trip *)

Lemma index_app l r i k : i = len l + Z.of_nat k -> index (l ++ r) i = r !! k.
Proof.
  intros ->. unfold index, len. rewrite (proj2 (Z.leb_le _ _)) by lia.
  rewrite lookup_app_r by lia. f_equal. lia.
Qed.

(** A message whose only attribute is an XOR-MAPPED-ADDRESS. *)
Lemma scan_single k hdr t0 t1 l0 l1 body rest txn :
  len hdr = 20 -> be16 t0 t1 = ATTR_XOR_MAPPED_ADDRESS -> be16 l0 l1 = len body -> padded (len body) = len body ->
  scan_attributes (S k) (hdr ++ t0 :: t1 :: l0 :: l1 :: body ++ rest) txn (24 + len body) 20 None
  = Some (parse_xor_mapped_address body txn).
Proof.
  intros Hh Ht Hl Hp. cbn [scan_attributes]. pose proof (len_nonneg body) as Hb. pose proof (len_nonneg rest) as Hr.
  rewrite (proj2 (Z.ltb_lt _ _)), (proj2 (Z.ltb_ge _ (20 + 4))) by lia.
  rewrite (index_app hdr _ 20 0), (index_app hdr _ (20 + 1) 1), (index_app hdr _ (20 + 2) 2),
    (index_app hdr _ (20 + 3) 3) by (rewrite Hh; done).
  cbn [lookup list_lookup mbind option_bind]. rewrite Ht, Hl, Hp, (proj2 (Z.ltb_ge _ _)) by lia.
  change (t0 :: t1 :: l0 :: l1 :: body ++ rest) with ([t0; t1; l0; l1] ++ body ++ rest). rewrite (app_assoc hdr).
  assert (length (hdr ++ [t0; t1; l0; l1]) = 24%nat) as Hh24.
  { unfold len in Hh. rewrite length_app. simpl. lia. }
  unfold get_range. rewrite !len_app. replace (len hdr + len [t0; t1; l0; l1]) with 24 by (rewrite Hh; done).
  rewrite !(proj2 (Z.leb_le _ _)) by lia. cbn [andb mbind option_bind]. unfold slice.
  change (Z.to_nat (20 + 4)) with 24%nat.
  rewrite drop_app_length', take_app_length' by (unfold len in *; lia). done.
Qed.

Lemma parse_xor_encode txn addr :
  sa_ok addr -> txn_ok txn -> parse_xor_mapped_address (encode_xor_mapped_address txn addr) txn = Ok addr.
Proof.
  destruct addr as [ip port]. intros [Hip Hport] Ht. simpl in Hip, Hport.
  assert (in_u 16 (Z.lxor port port_mask)) as Hx.
  { apply lxor_u; [lia|done|]. vm_compute. split; discriminate. }
  destruct (be16_split _ Hx) as (p0 & p1 & Hp & Hpv).
  unfold encode_xor_mapped_address, parse_xor_mapped_address. cbn [sa_ip sa_port]. destruct ip as [a|a].
  - assert (in_u 32 (Z.lxor a MAGIC_COOKIE)) as Hy.
    { unfold ip_ok in Hip. simpl in Hip. apply lxor_u; [lia|unfold in_u, u_max; lia|]. vm_compute. split; discriminate. }
    destruct (be32_split _ Hy) as (i0 & i1 & i2 & i3 & Hi & Hiv). rewrite Hp, Hi.
    cbn [app byte_at nth]. change (len _ <? 8) with false. cbn [byte_at nth]. rewrite Hpv, Hiv, !lxor_cancel. done.
  - destruct (address_mask_ok txn Ht) as [Hml _].
    assert (length (octets (V6 a)) = 16%nat) as Hol by apply length_to_be_bytes.
    rewrite Hp. remember (xor_bytes (octets (V6 a)) (address_mask txn)) as body eqn:Ebody.
    assert (length body = 16%nat) as Hbl by (rewrite Ebody, length_xor_bytes; lia).
    assert (len (0 :: STUN_FAMILY_IPV6 :: [p0; p1] ++ body) = 20) as ->.
    { unfold len. cbn [length app]. lia. }
    change (20 <? 8) with false. change (20 <? 20) with false. cbn [byte_at nth app].
    change (STUN_FAMILY_IPV6 =? 1) with false. change (STUN_FAMILY_IPV6 =? 2) with true. cbv iota.
    assert (slice 4 20 (0 :: STUN_FAMILY_IPV6 :: p0 :: p1 :: body) = body) as ->.
    { unfold slice. cbn [drop Nat.sub]. apply take_ge. rewrite Hbl. apply Nat.le_refl. }
    rewrite Ebody, xor_bytes_cancel by lia. rewrite Hpv, lxor_cancel, ipv6_of_octets by done. done.
Qed.

Lemma encode_xor_length txn addr :
  txn_ok txn ->
  len (encode_xor_mapped_address txn addr) = match sa_ip addr with V4 _ => 8 | V6 _ => 20 end.
Proof.
  intros Ht. destruct (address_mask_ok txn Ht) as [Hml _]. unfold encode_xor_mapped_address, len.
  destruct (sa_ip addr) as [a|a]; cbn [length]; rewrite length_app, length_to_be_bytes.
  - by rewrite length_to_be_bytes.
  - rewrite length_xor_bytes; simpl octets; rewrite length_to_be_bytes; [done|]. by rewrite Hml.
Qed.

Lemma handle_request txn remote :
  txn_ok txn -> handle_packet (build_binding_request txn) remote = Ok (Some (encode_binding_response txn remote)).
Proof.
  intros [Hl _]. do 12 (destruct txn as [|? txn]; [discriminate|]). destruct txn; [reflexivity|discriminate].
Qed.

(** Discovery works end to end: the responder answers a client's request
    with a response of at most 44 bytes, and the client, whatever trails the
    datagram, reads from it exactly the address the request came from. *)
Theorem stun_discovery txn remote :
  txn_ok txn -> sa_ok remote ->
  exists resp, handle_packet (build_binding_request txn) remote = Ok (Some resp) /\ len resp <= 44 /\
    forall rest, parse_binding_response (resp ++ rest) txn = Some (Ok remote).
Proof.
  intros Ht Hr. exists (encode_binding_response txn remote). pose proof Ht as [Htl Htb].
  pose proof (encode_xor_length txn remote Ht) as Hbl.
  pose proof (parse_xor_encode txn remote Hr Ht) as Hparse.
  set (body := encode_xor_mapped_address txn remote) in *.
  assert (8 <= len body <= 20 /\ padded (len body) = len body) as [Hrange Hpad].
  { rewrite Hbl. destruct (sa_ip remote); split; (lia || reflexivity). }
  assert (in_u 16 (len body) /\ in_u 16 (4 + len body)) as [Hu1 Hu2] by (unfold in_u, u_max; lia).
  destruct (be16_split _ Hu1) as (a0 & a1 & Ha & Hav). destruct (be16_split _ Hu2) as (m0 & m1 & Hm & Hmv).
  assert (encode_binding_response txn remote
          = ([1; 1; m0; m1; 33; 18; 164; 66] ++ txn) ++ 0 :: 32 :: a0 :: a1 :: body) as Henc.
  { unfold encode_binding_response. fold body. rewrite Z.mod_small, Ha, Hm by lia. by rewrite <-app_assoc. }
  split; [by apply handle_request|]. rewrite Henc.
  do 12 (destruct txn as [|? txn]; [discriminate|]). destruct txn; [|discriminate]. split.
  - unfold len in *. cbn [length app]. lia.
  - intros rest. unfold parse_binding_response.
    rewrite <-app_assoc. cbn [app].
    set (data := 1 :: 1 :: m0 :: _).
    assert (len data = 24 + len body + len rest) as Hd.
    { unfold data, len. cbn [length]. rewrite length_app. lia. }
    pose proof (len_nonneg rest). rewrite Hd, (proj2 (Z.ltb_ge _ 20)) by lia.
    change (be16 (byte_at data 0) (byte_at data 1) =? STUN_BINDING_RESPONSE) with true. cbn [negb].
    change (be16 (byte_at data 2) (byte_at data 3)) with (be16 m0 m1). rewrite Hmv.
    rewrite (proj2 (Z.ltb_ge _ _)) by lia.
    change (be32 (byte_at data 4) (byte_at data 5) (byte_at data 6) (byte_at data 7) =? MAGIC_COOKIE) with true.
    cbn [negb]. rewrite bool_decide_eq_true_2 by done. cbn [negb].
    rewrite <-Hparse.
    replace (20 + (4 + len body)) with (24 + len body) by lia.
    apply (scan_single _ [1; 1; m0; m1; 33; 18; 164; 66; z; z0; z1; z2; z3; z4; z5; z6; z7; z8; z9; z10]);
      (done || (by rewrite Hav)).
Qed.

(** ** Instances of the theorems *)

Module StunExamples.

Definition txn1 : list Z := [1; 2; 3; 4; 5; 6; 7; 8; 9; 10; 11; 12].

Lemma txn1_ok : txn_ok txn1.
Proof. split; [reflexivity|]. vm_compute. repeat constructor; discriminate. Qed.

(** A response that claims an attribute longer than the datagram. *)
Definition hostile : list Z := [1; 1; 0; 4; 33; 18; 164; 66] ++ txn1 ++ [0; 32; 255; 255].

Lemma parse_binding_response_total_witness :
  exists r, parse_binding_response hostile txn1 = Some r /\
    forall a, r = Ok a -> sa_ok a /\ slice 8 20 hostile = txn1 /\ slice 0 2 hostile = [1; 1] /\ 20 <= len hostile.
Proof.
  apply (parse_binding_response_total hostile txn1); [|apply txn1_ok].
  vm_compute. repeat constructor; discriminate.
Defined.

Definition remote1 : SocketAddr := mkSocketAddr (V6 0x20010db8000000000000000000000001) 41641.

Lemma stun_discovery_witness :
  exists resp, handle_packet (build_binding_request txn1) remote1 = Ok (Some resp) /\ len resp <= 44 /\
    forall rest, parse_binding_response (resp ++ rest) txn1 = Some (Ok remote1).
Proof.
  apply (stun_discovery txn1 remote1 txn1_ok).
  split; vm_compute; split; (discriminate || reflexivity).
Defined.

End StunExamples.
