(* ===== verification/Endpoint.v ===== *)
(** * Endpoint: the addresses a peer is reachable at
    (headscale-core/src/endpoint.rs)

    The tracker keeps, per peer, the endpoints reported for it, ordered by
    priority, and chooses the one to send to.  Instants and durations are
    nanoseconds; [now] is the clock of a call, read once per call.  STUN discovery
    is [Stun.discover_endpoint].  The event channel is the list of the events sent.
    The theorems show that a peer's endpoints stay distinct and ordered by
    priority, and that the chosen endpoint is valid, has the least score and has
    been used with success whenever some valid endpoint has. *)

From S2P Require Import Prelude Bytes Net Stun.
From stdpp Require Import base list gmap strings sets.
From Stdlib Require Import ZArith Lia Sorted.

Open Scope Z_scope.
Open Scope rust_scope.

Definition NANOS : Z := 1000000000.
Definition ENDPOINT_VALIDITY : Z := 120 * NANOS.
Definition STUN_REFRESH_INTERVAL : Z := 30 * NANOS.

Inductive EndpointType := Direct | StunType | Derp | PeerReported.

Record Endpoint := mkEndpoint {
  ep_addr : SocketAddr;
  ep_type : EndpointType;
  ep_priority : Z;
  ep_last_seen : Z;
  ep_last_success : option Z;
  ep_latency : option Z;
}.

Definition Endpoint_new (now : Z) (addr : SocketAddr) (ty : EndpointType) (priority : Z) : Endpoint :=
  mkEndpoint addr ty priority now None None.

(** [Instant::elapsed] saturates at zero; [Duration::as_millis]. *)
Definition elapsed (now t : Z) : Z := Z.max 0 (now - t).
Definition as_millis (d : Z) : Z := d / 1000000.

Definition is_valid (now : Z) (e : Endpoint) : bool := elapsed now (ep_last_seen e) <? ENDPOINT_VALIDITY.

Definition mark_success (now : Z) (latency : option Z) (e : Endpoint) : Endpoint :=
  mkEndpoint (ep_addr e) (ep_type e) (ep_priority e) (ep_last_seen e) (Some now) latency.

Inductive EndpointEvent :=
| LocalEndpointDiscovered (endpoint : SocketAddr)
| PeerEndpointUpdated (peer_id : string) (endpoint : SocketAddr) (ty : EndpointType)
| EndpointUnreachable (peer_id : string) (endpoint : SocketAddr).

Inductive EndpointError := StunNotConfigured | StunFailed (e : StunError).

Record EndpointTracker := mkTracker {
  local_endpoints : list Endpoint;
  peer_endpoints : gmap string (list Endpoint);
  stun_client : option StunClient;
  ep_events : list EndpointEvent;
  last_stun_refresh : option Z;
}.

Definition EndpointTracker_new (client : option StunClient) : EndpointTracker := mkTracker [] ∅ client [] None.

Definition at_addr (addr : SocketAddr) (e : Endpoint) : bool := bool_decide (ep_addr e = addr).

(** [iter_mut().find(p)] and an update of what it finds. *)
Fixpoint update_first {A} (p : A -> bool) (f : A -> A) (l : list A) : option (list A) :=
  match l with
  | [] => None
  | x :: t => if p x then Some (f x :: t) else cons x <$> update_first p f t
  end.

Definition touch_endpoint (now : Z) (e : Endpoint) : Endpoint :=
  mkEndpoint (ep_addr e) (ep_type e) (ep_priority e) now (ep_last_success e) (ep_latency e).

Definition refresh_endpoint (now : Z) (ty : EndpointType) (priority : Z) (e : Endpoint) : Endpoint :=
  mkEndpoint (ep_addr e) ty priority now (ep_last_success e) (ep_latency e).

Definition set_peers (t : EndpointTracker) (peers : gmap string (list Endpoint)) (events : list EndpointEvent) :=
  mkTracker (local_endpoints t) peers (stun_client t) (ep_events t ++ events) (last_stun_refresh t).

Section discovery.
Context `{Network}.

(** The outer [None] is a panic of the STUN client. *)
Definition discover_local_endpoint (now : Z) (random : nat -> list Z) (t : EndpointTracker)
  : option (EndpointTracker * result SocketAddr EndpointError) :=
  match stun_client t with
  | None => Some (t, Err StunNotConfigured)
  | Some client =>
      match discover_endpoint client random with
      | None => None
      | Some (Err e) => Some (t, Err (StunFailed e))
      | Some (Ok endpoint) =>
          let local := default (local_endpoints t ++ [Endpoint_new now endpoint StunType 10])
                         (update_first (at_addr endpoint) (touch_endpoint now) (local_endpoints t)) in
          Some (mkTracker (List.filter (is_valid now) local) (peer_endpoints t) (stun_client t)
                  (ep_events t ++ [LocalEndpointDiscovered endpoint]) (Some now), Ok endpoint)
      end
  end.
End discovery.

Definition add_local_endpoint (now : Z) (t : EndpointTracker) (addr : SocketAddr) (priority : Z) : EndpointTracker :=
  if existsb (at_addr addr) (local_endpoints t) then t
  else mkTracker (local_endpoints t ++ [Endpoint_new now addr Direct priority]) (peer_endpoints t) (stun_client t)
         (ep_events t) (last_stun_refresh t).

(** The key [(priority, latency in ms)]; no latency is [u128::MAX]. *)
Definition endpoint_cmp (a b : Endpoint) : comparison :=
  let key e := default (u_max 128) (as_millis <$> ep_latency e) in
  then_with (ep_priority a ?= ep_priority b) (key a ?= key b).

Definition update_peer_endpoint (now : Z) (t : EndpointTracker) (peer_id : string) (endpoint : SocketAddr)
    (ty : EndpointType) (priority : Z) : EndpointTracker :=
  let endpoints := default [] (peer_endpoints t !! peer_id) in
  let updated := default (endpoints ++ [Endpoint_new now endpoint ty priority])
                   (update_first (at_addr endpoint) (refresh_endpoint now ty priority) endpoints) in
  set_peers t (<[peer_id := sort_by endpoint_cmp (List.filter (is_valid now) updated)]> (peer_endpoints t))
    [PeerEndpointUpdated peer_id endpoint ty].

Definition mark_endpoint_success (now : Z) (t : EndpointTracker) (peer_id : string) (endpoint : SocketAddr)
    (latency : option Z) : EndpointTracker :=
  match peer_endpoints t !! peer_id with
  | None => t
  | Some endpoints =>
      match update_first (at_addr endpoint) (mark_success now latency) endpoints with
      | None => t
      | Some endpoints' => set_peers t (<[peer_id := endpoints']> (peer_endpoints t)) []
      end
  end.

Definition mark_endpoint_unreachable (t : EndpointTracker) (peer_id : string) (endpoint : SocketAddr) : EndpointTracker :=
  set_peers t (alter (List.filter (fun e => negb (at_addr endpoint e))) peer_id (peer_endpoints t))
    [EndpointUnreachable peer_id endpoint].

Definition get_peer_endpoints (t : EndpointTracker) (peer_id : string) : list Endpoint :=
  default [] (peer_endpoints t !! peer_id).

(** The score of [get_best_endpoint], in [u64]: [as u64] truncates, [+] may
    overflow; [None] is the panic of a build with overflow checks. *)
Definition score (m : profile) (now : Z) (e : Endpoint) : option Z :=
  let priority_score := ep_priority e * 1000 in
  let success_score := match ep_last_success e with
                       | None => u_max 64 / 2
                       | Some t => as_millis (elapsed now t) `mod` 2 ^ 64
                       end in
  let latency_score := match ep_latency e with None => 1000 | Some l => as_millis l `mod` 2 ^ 64 end in
  s ← add_u m 64 priority_score (success_score / 1000); add_u m 64 s latency_score.

(** [min_by_key] computes each key once and keeps the first of the least. *)
Definition get_best_endpoint (m : profile) (now : Z) (t : EndpointTracker) (peer_id : string)
  : option (option SocketAddr) :=
  let valid := List.filter (is_valid now) (get_peer_endpoints t peer_id) in
  keyed ← mapM (fun e => (fun k => (k, e)) <$> score m now e) valid;
  Some ((fun p => ep_addr p.2) <$> min_by (fun a b => a.1 ?= b.1) keyed).

Definition needs_stun_refresh (now : Z) (t : EndpointTracker) : bool :=
  match stun_client t with
  | None => false
  | Some _ => match last_stun_refresh t with
              | Some time => STUN_REFRESH_INTERVAL <? elapsed now time
              | None => true
              end
  end.

Definition remove_peer (t : EndpointTracker) (peer_id : string) : EndpointTracker :=
  set_peers t (delete peer_id (peer_endpoints t)) [].

Definition known_peers (t : EndpointTracker) : gset string := dom (peer_endpoints t).

Definition cleanup_stale_endpoints (now : Z) (t : EndpointTracker) : EndpointTracker :=
  set_peers t (filter (fun kv => kv.2 <> []) (List.filter (is_valid now) <$> peer_endpoints t)) [].

(** ** Reachable trackers *)

Definition u8 (n : Z) : Prop := 0 <= n <= 255.

Section theorems.
Context `{Network}.

Inductive tracker_step : EndpointTracker -> EndpointTracker -> Prop :=
| step_discover now random t t' r :
    discover_local_endpoint now random t = Some (t', r) -> tracker_step t t'
| step_add_local now t addr priority : u8 priority -> tracker_step t (add_local_endpoint now t addr priority)
| step_update now t id addr ty priority : u8 priority -> tracker_step t (update_peer_endpoint now t id addr ty priority)
| step_success now t id addr latency : tracker_step t (mark_endpoint_success now t id addr latency)
| step_unreachable t id addr : tracker_step t (mark_endpoint_unreachable t id addr)
| step_remove t id : tracker_step t (remove_peer t id)
| step_cleanup now t : tracker_step t (cleanup_stale_endpoints now t).

Inductive tracker_reachable : EndpointTracker -> Prop :=
| tracker_new client : tracker_reachable (EndpointTracker_new client)
| tracker_next t t' : tracker_reachable t -> tracker_step t t' -> tracker_reachable t'.

(** A list of endpoints with distinct addresses, in the order of priority. *)
Record endpoints_ok (l : list Endpoint) : Prop := {
  eo_distinct : NoDup (map ep_addr l);
  eo_sorted : StronglySorted Z.le (map ep_priority l);
  eo_priority : Forall (fun e => u8 (ep_priority e)) l;
}.

Definition tracker_ok (t : EndpointTracker) : Prop := map_Forall (fun _ l => endpoints_ok l) (peer_endpoints t).

Lemma update_first_None {A} (p : A -> bool) f l :
  update_first p f l = None -> Forall (fun x => p x = false) l.
Proof.
  induction l as [|x l IH]; simpl; [constructor|]. destruct (p x) eqn:E; [done|].
  destruct (update_first p f l); simpl; [done|]. intros _. constructor; auto.
Qed.

(** What [f] keeps of an element, [update_first] keeps of the list. *)
Lemma update_first_map {A B} (p : A -> bool) f (g : A -> B) l l' :
  (forall x, g (f x) = g x) -> update_first p f l = Some l' -> map g l' = map g l.
Proof.
  intros Hg. revert l'. induction l as [|x l IH]; intros l'; simpl; [done|].
  destruct (p x); [by intros [= <-]; simpl; rewrite Hg|].
  intros (l0 & E & ->)%fmap_Some. simpl. by rewrite (IH l0).
Qed.

Lemma update_first_Forall {A} (P : A -> Prop) (p : A -> bool) f l l' :
  Forall P l -> (forall x, P x -> P (f x)) -> update_first p f l = Some l' -> Forall P l'.
Proof.
  intros HP Hf. revert l'. induction HP as [|x l Hx HP IH]; intros l'; simpl; [done|].
  destruct (p x); [intros [= <-]; constructor; auto|].
  intros (l0 & E & ->)%fmap_Some. constructor; auto.
Qed.

Lemma Forall_sublist {A} (P : A -> Prop) l k : sublist l k -> Forall P k -> Forall P l.
Proof. induction 1; rewrite ?Forall_cons; naive_solver. Qed.

Lemma StronglySorted_sublist {A} (R : A -> A -> Prop) l k : sublist l k -> StronglySorted R k -> StronglySorted R l.
Proof.
  induction 1 as [|x l k Hs IH|x l k Hs IH]; intros HS; [done| |].
  - apply StronglySorted_inv in HS as [? HF]. constructor; [auto|]. by eapply Forall_sublist.
  - apply StronglySorted_inv in HS as [? HF]. auto.
Qed.

Lemma filter_distinct (p : Endpoint -> bool) l : NoDup (map ep_addr l) -> NoDup (map ep_addr (List.filter p l)).
Proof. intros Hl. eapply sublist_NoDup; [exact Hl|]. apply (fmap_sublist ep_addr), filter_sublist. Qed.

Lemma filter_ok (p : Endpoint -> bool) l : endpoints_ok l -> endpoints_ok (List.filter p l).
Proof.
  intros [Hd Hs Hp]. split; [by apply filter_distinct| |].
  - eapply StronglySorted_sublist; [apply (fmap_sublist ep_priority), (filter_sublist p l)|done].
  - eapply Forall_sublist; [apply (filter_sublist p l)|done].
Qed.

#[local] Instance endpoint_cmp_total : TotalCmp endpoint_cmp.
Proof.
  apply (then_with_total (fun a b => ep_priority a ?= ep_priority b)
    (fun a b => default (u_max 128) (as_millis <$> ep_latency a) ?= default (u_max 128) (as_millis <$> ep_latency b)));
    apply (on_key_total Z.compare); apply _.
Qed.

(** Sorting by the key makes a list of distinct endpoints well formed. *)
Lemma sort_endpoints_ok l :
  NoDup (map ep_addr l) -> Forall (fun e => u8 (ep_priority e)) l -> endpoints_ok (sort_by endpoint_cmp l).
Proof.
  intros Hd Hp. split.
  - by rewrite (sort_by_perm endpoint_cmp l).
  - pose proof (sort_by_sorted endpoint_cmp l) as HS.
    induction HS as [|x k Hk IH Hx]; simpl; constructor; [done|].
    apply Forall_map. eapply Forall_impl; [exact Hx|]. intros y. unfold le_cmp, endpoint_cmp, then_with. simpl.
    destruct (Z.compare_spec (ep_priority x) (ep_priority y)); intros; (lia || done).
  - by rewrite (sort_by_perm endpoint_cmp l).
Qed.

Lemma tracker_ok_insert (t : EndpointTracker) id l ev :
  tracker_ok t -> endpoints_ok l -> tracker_ok (set_peers t (<[id := l]> (peer_endpoints t)) ev).
Proof. intros Ht Hl. apply map_Forall_insert_2; done. Qed.

Lemma update_peer_endpoint_ok now t id addr ty priority :
  u8 priority -> tracker_ok t -> tracker_ok (update_peer_endpoint now t id addr ty priority).
Proof.
  intros Hp Ht. unfold update_peer_endpoint. apply tracker_ok_insert; [done|].
  set (l := default [] (peer_endpoints t !! id)).
  assert (endpoints_ok l) as [Hd _ Hl].
  { subst l. destruct (peer_endpoints t !! id) as [l|] eqn:E; simpl; [by apply (Ht id)|]. split; constructor. }
  assert (forall l', NoDup (map ep_addr l') -> Forall (fun e => u8 (ep_priority e)) l' ->
            endpoints_ok (sort_by endpoint_cmp (List.filter (is_valid now) l'))) as Hsort.
  { intros l' Hd' Hp'. apply sort_endpoints_ok; [by apply filter_distinct|].
    eapply Forall_sublist; [apply filter_sublist|done]. }
  destruct (update_first (at_addr addr) (refresh_endpoint now ty priority) l) as [l'|] eqn:E; cbn [default]; apply Hsort.
  - erewrite update_first_map; [exact Hd| |exact E]; done.
  - by eapply update_first_Forall; [exact Hl| |exact E].
  - rewrite map_app. simpl. apply NoDup_app. split_and!; [done| |apply NoDup_singleton].
    intros a (e & Ea & He)%list_elem_of_fmap Eb%list_elem_of_singleton.
    pose proof (update_first_None _ _ _ E) as HF. rewrite Forall_forall in HF. specialize (HF e He).
    unfold at_addr in HF. rewrite bool_decide_eq_false in HF. apply HF. congruence.
  - apply Forall_app. split; [done|]. by constructor.
Qed.

Lemma mark_endpoint_success_ok now t id addr latency :
  tracker_ok t -> tracker_ok (mark_endpoint_success now t id addr latency).
Proof.
  intros Ht. unfold mark_endpoint_success. destruct (peer_endpoints t !! id) as [l|] eqn:El; [|done].
  destruct (update_first _ _ l) as [l'|] eqn:E; [|done]. apply tracker_ok_insert; [done|].
  destruct (Ht _ _ El) as [Hd Hs Hp]. split.
  - erewrite update_first_map; [exact Hd| |exact E]; done.
  - erewrite update_first_map; [exact Hs| |exact E]; done.
  - by eapply update_first_Forall; [exact Hp| |exact E].
Qed.

Lemma tracker_step_ok t t' : tracker_step t t' -> tracker_ok t -> tracker_ok t'.
Proof.
  intros Hs Ht. destruct Hs as [now random t t' r Hd|now t addr pr _|now t id addr ty pr Hpr|now t id addr lat|t id addr|t id|now t].
  - unfold discover_local_endpoint in Hd. destruct (stun_client t); [|by simplify_eq].
    destruct (discover_endpoint _ _) as [[a|e]|]; by simplify_eq.
  - unfold add_local_endpoint. by case_match.
  - by apply update_peer_endpoint_ok.
  - by apply mark_endpoint_success_ok.
  - intros i l. unfold set_peers. simpl. destruct (decide (i = id)) as [->|Hne].
    + rewrite lookup_alter_eq. intros (l0 & Hl & ->)%fmap_Some. apply filter_ok. eauto.
    + rewrite lookup_alter_ne by done. eauto.
  - intros i l. simpl. intros [_ Hl]%lookup_delete_Some. eauto.
  - intros i l. simpl. intros [Hl _]%map_lookup_filter_Some.
    rewrite lookup_fmap in Hl. apply fmap_Some in Hl as (l0 & Hl & ->). apply filter_ok. eauto.
Qed.

(** In every reachable tracker the endpoints of each peer have distinct
    addresses and stand in the order of their priorities, which are bytes. *)
Theorem endpoints_distinct_sorted t :
  tracker_reachable t -> map_Forall (fun _ l => endpoints_ok l) (peer_endpoints t).
Proof. induction 1; [apply map_Forall_empty|]. by eapply tracker_step_ok. Qed.

(** ** The choice *)

(** The score without overflow: a success as seconds ago, a latency in ms. *)
Definition score_value (now : Z) (e : Endpoint) : Z :=
  ep_priority e * 1000
  + match ep_last_success e with None => u_max 64 / 2 | Some t => as_millis (elapsed now t) end / 1000
  + match ep_latency e with None => 1000 | Some l => as_millis l end.

(** Latencies and times since a success far below their width (2^52 ms is more
    than a hundred thousand years). *)
Definition measured (now : Z) (e : Endpoint) : Prop :=
  (forall l, ep_latency e = Some l -> 0 <= as_millis l < 2 ^ 52) /\
  (forall s, ep_last_success e = Some s -> as_millis (elapsed now s) < 2 ^ 62).

Lemma as_millis_elapsed now t : 0 <= as_millis (elapsed now t).
Proof. apply Z.div_pos; [unfold elapsed|]; lia. Qed.

Lemma score_eq m now e : u8 (ep_priority e) -> measured now e ->
  score m now e = Some (score_value now e) /\
  match ep_last_success e with
  | None => u_max 64 / 2 / 1000 <= score_value now e
  | Some _ => score_value now e < u_max 64 / 2 / 1000
  end.
Proof.
  unfold u8. intros Hp [Hl Hs]. unfold score, score_value.
  set (suc := match ep_last_success e with None => u_max 64 / 2 | Some t => _ end).
  set (suc' := match ep_last_success e with None => u_max 64 / 2 | Some t => as_millis (elapsed now t) end).
  set (lat := match ep_latency e with None => 1000 | Some l => as_millis l `mod` 2 ^ 64 end).
  set (lat' := match ep_latency e with None => 1000 | Some l => as_millis l end).
  assert (lat = lat' /\ 0 <= lat' < 2 ^ 52) as [-> Hlat].
  { subst lat lat'. destruct (ep_latency e) as [l|]; [|lia]. specialize (Hl l eq_refl). split; [|done].
    apply Z.mod_small. lia. }
  assert (suc = suc' /\ 0 <= suc' <= u_max 64 / 2 /\
          match ep_last_success e with None => suc' = u_max 64 / 2 | Some _ => suc' < 2 ^ 62 end) as (-> & Hsuc & Hcase).
  { subst suc suc'. destruct (ep_last_success e) as [t|]; [|by vm_compute].
    specialize (Hs t eq_refl). pose proof (as_millis_elapsed now t). split_and!; [|lia| |done].
    - apply Z.mod_small. lia.
    - change (u_max 64 / 2) with 9223372036854775807. lia. }
  change (u_max 64 / 2) with 9223372036854775807 in *. change (9223372036854775807 / 1000) with 9223372036854775.
  assert (0 <= suc' / 1000 < 9223372036854776) by (split; [apply Z.div_pos|apply Z.div_lt_upper_bound]; lia).
  clearbody suc' lat'.
  split.
  - rewrite add_u_small; cbn [option_bind mbind]; [|split; change (u_max 64) with 18446744073709551615; lia..|
      change (u_max 64) with 18446744073709551615; lia].
    rewrite add_u_small; [done|split; change (u_max 64) with 18446744073709551615; lia..|
      change (u_max 64) with 18446744073709551615; lia].
  - destruct (ep_last_success e); [|rewrite Hcase; change (9223372036854775807 / 1000) with 9223372036854775; lia].
    assert (suc' / 1000 < 4611686018427388) by (apply Z.div_lt_upper_bound; lia). lia.
Qed.

Lemma keyed_scores m now l :
  Forall (fun e => u8 (ep_priority e) /\ measured now e) l ->
  mapM (fun e => (fun k => (k, e)) <$> score m now e) l = Some (map (fun e => (score_value now e, e)) l).
Proof.
  induction 1 as [|e l [Hp Hm] _ IH]; [done|]. cbn [mapM]. rewrite IH.
  by rewrite (proj1 (score_eq m now e Hp Hm)).
Qed.

(** With plausible measurements the choice never panics; it is none exactly
    when no endpoint of the peer was seen in the last two minutes; otherwise it is
    a valid endpoint of least score, and it has been used with success whenever
    some valid endpoint has, whatever the priorities and latencies. *)
Theorem best_endpoint_spec m now t id :
  tracker_reachable t -> Forall (measured now) (get_peer_endpoints t id) ->
  exists best, get_best_endpoint m now t id = Some best /\
  match best with
  | None => Forall (fun e => is_valid now e = false) (get_peer_endpoints t id)
  | Some a => exists e, e ∈ get_peer_endpoints t id /\ ep_addr e = a /\ is_valid now e = true /\
      forall e', e' ∈ get_peer_endpoints t id -> is_valid now e' = true ->
        score_value now e <= score_value now e' /\
        (is_Some (ep_last_success e') -> is_Some (ep_last_success e))
  end.
Proof.
  intros Hr Hm. assert (tracker_ok t) as Ht by (clear Hm; induction Hr; [apply map_Forall_empty|by eapply tracker_step_ok]).
  assert (Forall (fun e => u8 (ep_priority e) /\ measured now e) (get_peer_endpoints t id)) as Hok.
  { apply Forall_and. split; [|done]. unfold get_peer_endpoints.
    destruct (peer_endpoints t !! id) as [l|] eqn:E; [|constructor]. apply (Ht _ _ E). }
  set (l := get_peer_endpoints t id) in *.
  assert (Forall (fun e => u8 (ep_priority e) /\ measured now e) (List.filter (is_valid now) l)) as Hv
    by (eapply Forall_sublist; [apply filter_sublist|done]).
  unfold get_best_endpoint. fold l. rewrite (keyed_scores m now _ Hv). cbn [mbind option_bind].
  eexists. split; [done|]. destruct (min_by _ _) as [[k e]|] eqn:Emin; cbn [fmap option_fmap option_map snd].
  - pose proof (min_by_In _ _ _ Emin) as (e0 & [= -> ->] & He0)%list_elem_of_fmap.
    apply elem_of_filter_bool in He0 as [He0 Hval]. exists e0. split_and!; [done..|].
    intros e' He' Hval'. rewrite Forall_forall in Hok.
    assert (score_value now e0 <= score_value now e') as Hle.
    { pose proof (on_key_total Z.compare (fst (A:=Z) (B:=Endpoint)) _) as Htot.
      pose proof (@min_by_least _ _ Htot _ _ Emin (score_value now e', e')) as Hleast.
      unfold le_cmp in Hleast. simpl in Hleast. apply Z.compare_le_iff, Hleast.
      apply list_elem_of_fmap. exists e'. split; [done|]. by apply elem_of_filter_bool. }
    split; [done|]. intros [s Hs].
    destruct (Hok e' He') as [Hp1 Hm1], (Hok e0 He0) as [Hp0 Hm0].
    pose proof (proj2 (score_eq m now e' Hp1 Hm1)) as B1. pose proof (proj2 (score_eq m now e0 Hp0 Hm0)) as B0.
    rewrite Hs in B1. destruct (ep_last_success e0); [done|]. lia.
  - apply reduce_None, map_eq_nil in Emin. apply Forall_forall. intros e He.
    destruct (is_valid now e) eqn:E; [|done].
    assert (e ∈ List.filter (is_valid now) l) as Hin by (by apply elem_of_filter_bool). rewrite Emin in Hin. set_solver.
Qed.
End theorems.

(** ** Examples *)

Module EndpointExamples.

(** No network is needed here: nothing is ever received. *)
#[local] Instance silent : Network := {| udp_send _ _ := None; udp_recv _ _ _ := None |}.

Definition ep (port : Z) : SocketAddr := mkSocketAddr (V4 167772161) port.
Definition tracker0 : EndpointTracker := EndpointTracker_new None.
Definition tracker1 : EndpointTracker := update_peer_endpoint 0 tracker0 "p" (ep 1) Derp 100.
Definition tracker2 : EndpointTracker := update_peer_endpoint NANOS tracker1 "p" (ep 2) Direct 1.
Definition tracker3 : EndpointTracker := mark_endpoint_success (2 * NANOS) tracker2 "p" (ep 1) (Some 80000000).

Lemma tracker3_reachable : tracker_reachable tracker3.
Proof.
  do 3 (eapply tracker_next; [|constructor; unfold u8; lia]). apply tracker_new.
Qed.

Lemma endpoints_distinct_sorted_witness :
  tracker_reachable tracker3 /\ map_Forall (fun _ l => endpoints_ok l) (peer_endpoints tracker3).
Proof. split; [|apply endpoints_distinct_sorted]; exact tracker3_reachable. Defined.

(** The relay that answered is chosen before the direct address that never did. *)
Lemma best_endpoint_spec_witness :
  get_best_endpoint Debug (3 * NANOS) tracker3 "p" = Some (Some (ep 1)) /\
  exists e, e ∈ get_peer_endpoints tracker3 "p" /\ ep_addr e = ep 1 /\ is_valid (3 * NANOS) e = true.
Proof.
  assert (get_best_endpoint Debug (3 * NANOS) tracker3 "p" = Some (Some (ep 1))) as E by (vm_compute; reflexivity).
  split; [done|].
  destruct (best_endpoint_spec Debug (3 * NANOS) tracker3 "p" tracker3_reachable) as (best & Hb & Hspec).
  - assert (get_peer_endpoints tracker3 "p" =
      [mkEndpoint (ep 2) Direct 1 NANOS None None; mkEndpoint (ep 1) Derp 100 0 (Some (2 * NANOS)) (Some 80000000)]) as ->
      by (vm_compute; reflexivity).
    apply Forall_cons_2; [|apply Forall_singleton]; split; intros x Hx; cbn in Hx; try discriminate Hx; injection Hx as <-.
    + split; [by apply Z.leb_le|by apply Z.ltb_lt].
    + by apply Z.ltb_lt.
  - rewrite E in Hb. injection Hb as <-. destruct Hspec as (e & ? & ? & ? & _). exists e. split_and!; assumption.
Defined.

End EndpointExamples.
