(* ===== verification/Mesh.v ===== *)
(** * Mesh: node registration and address allocation
    (headscale-core/src/mesh.rs, node.rs, events.rs)

    The coordinator keeps the registered nodes, hands each new one an address of
    the mesh CIDR and answers with the peers and the DERP map.  A registration
    holds both locks, so it is one step.  The event bus is the list of the events
    published.  A [HashMap] is visited in the order of [map_to_list]; the source
    leaves the order open and no theorem depends on it.  The theorems show that no
    two nodes ever share an address, that addresses are hosts of the CIDR, that a
    node keeps its address, and that registration fails exactly when every host
    address is taken. *)

From S2P Require Import Prelude Bytes Net.
From stdpp Require Import base list gmap strings sets.
From Stdlib Require Import ZArith Lia.

Open Scope Z_scope.
Open Scope rust_scope.

(** ** Data *)

Record NodeCapabilities := mkCapabilities {
  cap_relay : bool;
  cap_inference : bool;
  cap_storage : bool;
  cap_compute : bool;
  cap_seed : bool;
}.

Record Node := mkNode {
  node_id : string;
  node_name : string;
  node_wg_pubkey : string;
  node_addresses : list IpAddr;
  node_endpoints : list string;
  node_last_seen : Z;
  node_capabilities : NodeCapabilities;
  node_online : bool;
}.

Record RegisterRequest := mkRegister {
  req_id : string;
  req_name : string;
  req_wg_pubkey : string;
  req_endpoints : list string;
  req_capabilities : NodeCapabilities;
}.

Record PeerInfo := mkPeerInfo {
  peer_id : string;
  peer_wg_pubkey : string;
  peer_addresses : list IpAddr;
  peer_endpoints : list string;
  peer_allowed_ips : list string;
}.

Record DerpNode := mkDerpNode { dn_name : string; dn_url : string; dn_stun_port : Z }.
Record DerpRegion := mkDerpRegion { dr_id : Z; dr_name : string; dr_nodes : list DerpNode }.
Record DerpMap := mkDerpMap { dm_regions : list DerpRegion }.

Record RegisterResponse := mkRegisterResponse {
  resp_addresses : list IpAddr;
  resp_peers : list PeerInfo;
  resp_derp_map : option DerpMap;
}.

Record DerpServer := mkDerpServer {
  ds_name : string;
  ds_hostname : string;
  ds_addr : SocketAddr;
  ds_region : string;
  ds_stun_enabled : bool;
}.

(** The events the coordinator publishes. *)
Inductive TopologyEvent :=
| NodeJoined (node_id name wg_pubkey : string) (addresses : list IpAddr)
| NodeStatusChanged (node_id : string) (online : bool).

(** What [MeshError::Config] reports. *)
Inductive ConfigFault := InvalidCidr (cidr : string) | NotIpv4 (cidr : string) | InvalidPrefixLength (n : Z).

Inductive MeshError := NodeNotFound (id : string) | IpExhausted | Config (fault : ConfigFault).

(** ** The allocator *)

Record IpAllocator := mkAllocator { alloc_next : option Z; alloc_end : Z }.

Section mesh.
Context `{IpNetLib}.

(** [net] is an [IpNet::V4]. *)
Definition from_ipv4_net (net : IpNet) : result IpAllocator MeshError :=
  let start := ip_value (net_network net) in
  let end_ := ip_value (net_broadcast net) in
  let prefix := net_prefix_len net in
  if (0 <=? prefix) && (prefix <=? 30) then
    if end_ <=? start + 1 then Err IpExhausted
    else Ok (mkAllocator (Some (start + 1)) (end_ - 1))
  else if (prefix =? 31) || (prefix =? 32) then Ok (mkAllocator (Some start) end_)
  else Err (Config (InvalidPrefixLength prefix)).

Definition IpAllocator_new (cidr : string) : result IpAllocator MeshError :=
  match net_parse cidr with
  | None => Err (Config (InvalidCidr cidr))
  | Some net => if net_is_v4 net then from_ipv4_net net else Err (Config (NotIpv4 cidr))
  end.

Definition allocate (a : IpAllocator) : IpAllocator * result IpAddr MeshError :=
  match alloc_next a with
  | None => (a, Err IpExhausted)
  | Some ip => (mkAllocator (if ip =? alloc_end a then None else Some (ip + 1)) (alloc_end a), Ok (V4 ip))
  end.

(** ** The coordinator *)

Record MeshCoordinator := mkMesh {
  mesh_nodes : gmap string Node;
  mesh_allocator : IpAllocator;
  mesh_events : list TopologyEvent;
  mesh_derp_servers : list DerpServer;
}.

Definition from_allocator (a : IpAllocator) (events : list TopologyEvent) : MeshCoordinator := mkMesh ∅ a events [].

Definition try_new (mesh_cidr : string) : result MeshCoordinator MeshError :=
  let? a := IpAllocator_new mesh_cidr in Ok (from_allocator a []).

Definition try_with_event_bus (mesh_cidr : string) (events : list TopologyEvent) : result MeshCoordinator MeshError :=
  let? a := IpAllocator_new mesh_cidr in Ok (from_allocator a events).

Definition DEFAULT_MESH_CIDR : string := "100.64.0.0/10".

(** [None] is the panic of [expect] on the default. *)
Definition MeshCoordinator_new (mesh_cidr : string) : option MeshCoordinator :=
  match try_new mesh_cidr with
  | Ok m => Some m
  | Err _ => result_ok (try_new DEFAULT_MESH_CIDR)
  end.

Definition with_event_bus (mesh_cidr : string) (events : list TopologyEvent) : option MeshCoordinator :=
  match IpAllocator_new mesh_cidr with
  | Ok a => Some (from_allocator a events)
  | Err _ => (fun a => from_allocator a events) <$> result_ok (IpAllocator_new DEFAULT_MESH_CIDR)
  end.

Definition publish (m : MeshCoordinator) (e : TopologyEvent) : MeshCoordinator :=
  mkMesh (mesh_nodes m) (mesh_allocator m) (mesh_events m ++ [e]) (mesh_derp_servers m).

Definition add_derp_server (m : MeshCoordinator) (server : DerpServer) : MeshCoordinator :=
  if existsb (fun s => bool_decide (ds_name s = ds_name server)) (mesh_derp_servers m) then m
  else mkMesh (mesh_nodes m) (mesh_allocator m) (mesh_events m) (mesh_derp_servers m ++ [server]).

Definition peer_info (n : Node) : PeerInfo :=
  mkPeerInfo (node_id n) (node_wg_pubkey n) (node_addresses n) (node_endpoints n)
    (map (fun ip => (show_ip ip ++ "/32")%string) (node_addresses n)).

Definition peers_of (m : MeshCoordinator) (id : string) : list PeerInfo :=
  map peer_info (List.filter (fun n => negb (bool_decide (node_id n = id))) (map snd (map_to_list (mesh_nodes m)))).

Definition derp_node (server : DerpServer) : DerpNode :=
  mkDerpNode (ds_name server) ("https://" ++ ds_hostname server) (if ds_stun_enabled server then 3478 else 0).

Definition group_server (regions : gmap string (list DerpNode)) (server : DerpServer) : gmap string (list DerpNode) :=
  <[ds_region server := default [] (regions !! ds_region server) ++ [derp_node server]]> regions.

Definition derp_map (servers : list DerpServer) : option DerpMap :=
  match servers with
  | [] => None
  | _ => let regions := map_to_list (fold_left group_server servers ∅) in
         Some (mkDerpMap (imap (fun idx p => mkDerpRegion (Z.of_nat idx + 1) p.1 p.2) regions))
  end.

Definition register (now : Z) (m : MeshCoordinator) (req : RegisterRequest)
  : MeshCoordinator * result RegisterResponse MeshError :=
  let '(allocator, addresses) :=
    match mesh_nodes m !! req_id req with
    | Some existing => (mesh_allocator m, Ok (node_addresses existing))
    | None => let '(a, r) := allocate (mesh_allocator m) in (a, result_map (fun ip => [ip]) r)
    end in
  match addresses with
  | Err e => (mkMesh (mesh_nodes m) allocator (mesh_events m) (mesh_derp_servers m), Err e)
  | Ok addresses =>
      let node := mkNode (req_id req) (req_name req) (req_wg_pubkey req) addresses (req_endpoints req) now
                         (req_capabilities req) true in
      let event := match mesh_nodes m !! req_id req with
                   | None => NodeJoined (req_id req) (req_name req) (req_wg_pubkey req) addresses
                   | Some _ => NodeStatusChanged (req_id req) true
                   end in
      let m' := publish (mkMesh (<[req_id req := node]> (mesh_nodes m)) allocator (mesh_events m) (mesh_derp_servers m)) event in
      (m', Ok (mkRegisterResponse addresses (peers_of m' (req_id req)) (derp_map (mesh_derp_servers m'))))
  end.

Definition touch (now : Z) (n : Node) : Node :=
  mkNode (node_id n) (node_name n) (node_wg_pubkey n) (node_addresses n) (node_endpoints n) now (node_capabilities n) true.

Definition heartbeat (now : Z) (m : MeshCoordinator) (id : string) : MeshCoordinator * result unit MeshError :=
  match mesh_nodes m !! id with
  | Some n => (mkMesh (<[id := touch now n]> (mesh_nodes m)) (mesh_allocator m) (mesh_events m) (mesh_derp_servers m), Ok tt)
  | None => (m, Err (NodeNotFound id))
  end.

Definition list_nodes (m : MeshCoordinator) : list Node := map snd (map_to_list (mesh_nodes m)).

Definition has_capability (cap : string) (n : Node) : bool :=
  let c := node_capabilities n in
  if bool_decide (cap = "relay"%string) then cap_relay c
  else if bool_decide (cap = "inference"%string) then cap_inference c
  else if bool_decide (cap = "storage"%string) then cap_storage c
  else if bool_decide (cap = "compute"%string) then cap_compute c
  else if bool_decide (cap = "seed"%string) then cap_seed c
  else false.

Definition nodes_with_capability (m : MeshCoordinator) (cap : string) : list Node :=
  List.filter (has_capability cap) (list_nodes m).

(** ** Reachable coordinators *)

Inductive mesh_reachable (cidr : string) : MeshCoordinator -> Prop :=
| mesh_start m events : try_with_event_bus cidr events = Ok m -> mesh_reachable cidr m
| mesh_register m now req : mesh_reachable cidr m -> mesh_reachable cidr (register now m req).1
| mesh_heartbeat m now id : mesh_reachable cidr m -> mesh_reachable cidr (heartbeat now m id).1
| mesh_add_derp m server : mesh_reachable cidr m -> mesh_reachable cidr (add_derp_server m server).

(** The addresses the allocator may hand out: [first..last] and their number. *)
Definition first_host (net : IpNet) : Z :=
  ip_value (net_network net) + (if net_prefix_len net <=? 30 then 1 else 0).
Definition last_host (net : IpNet) : Z :=
  ip_value (net_broadcast net) - (if net_prefix_len net <=? 30 then 1 else 0).
Definition hosts (net : IpNet) : Z := last_host net - first_host net + 1.

(** The first address not handed out yet. *)
Definition frontier (a : IpAllocator) : Z := default (alloc_end a + 1) (alloc_next a).

Record allocator_inv (net : IpNet) (a : IpAllocator) : Prop := {
  ai_end : alloc_end a = last_host net;
  ai_next : forall x, alloc_next a = Some x -> x <= last_host net;
  ai_first : first_host net <= frontier a;
}.

(** Every node holds one address below the frontier, no two the same, and every
    address below the frontier is held. *)
Record mesh_inv (net : IpNet) (m : MeshCoordinator) : Prop := {
  mi_alloc : allocator_inv net (mesh_allocator m);
  mi_addr : forall id n, mesh_nodes m !! id = Some n ->
    node_id n = id /\
    exists a, node_addresses n = [V4 a] /\ first_host net <= a < frontier (mesh_allocator m);
  mi_distinct : forall id1 id2 n1 n2, mesh_nodes m !! id1 = Some n1 -> mesh_nodes m !! id2 = Some n2 ->
    node_addresses n1 = node_addresses n2 -> id1 = id2;
  mi_count : Z.of_nat (size (mesh_nodes m)) = frontier (mesh_allocator m) - first_host net;
}.

(** [map_to_list] lists each node once. *)
Lemma elem_of_list_nodes m n : n ∈ list_nodes m <-> exists id, mesh_nodes m !! id = Some n.
Proof.
  unfold list_nodes. rewrite list_elem_of_fmap. split.
  - intros ([id n'] & -> & Hin%elem_of_map_to_list). by exists id.
  - intros [id Hid%elem_of_map_to_list]. by exists (id, n).
Qed.

Lemma allocate_spec net a :
  allocator_inv net a ->
  (frontier a = last_host net + 1 /\ allocate a = (a, Err IpExhausted)) \/
  (frontier a <= last_host net /\
   exists a', allocate a = (a', Ok (V4 (frontier a))) /\ allocator_inv net a' /\ frontier a' = frontier a + 1).
Proof.
  intros [He Hn Hf]. unfold allocate, frontier in *. destruct (alloc_next a) as [x|]; simpl in *.
  - right. split; [by apply Hn|]. specialize (Hn x eq_refl). eexists. split; [done|].
    unfold frontier. destruct (Z.eqb_spec x (alloc_end a)); (split; [split|]); unfold frontier; simpl; intros; simplify_eq; lia.
  - left. split; [lia|done].
Qed.

(** An operation that keeps the allocator and every node's address. *)
Lemma mesh_inv_same net m m' :
  mesh_inv net m -> mesh_allocator m' = mesh_allocator m ->
  dom (mesh_nodes m') = dom (mesh_nodes m) ->
  (forall id n', mesh_nodes m' !! id = Some n' -> exists n, mesh_nodes m !! id = Some n /\
     node_id n' = node_id n /\ node_addresses n' = node_addresses n) ->
  mesh_inv net m'.
Proof.
  intros [Ha Hi Hd Hc] Ea Edom En. split.
  - by rewrite Ea.
  - intros id n' Hn'. destruct (En _ _ Hn') as (n & Hn & -> & ->). rewrite Ea. eauto.
  - intros id1 id2 n1 n2 H1 H2 E.
    destruct (En _ _ H1) as (m1 & Hm1 & _ & E1), (En _ _ H2) as (m2 & Hm2 & _ & E2).
    apply (Hd id1 id2 m1 m2); congruence.
  - by rewrite <-size_dom, Edom, size_dom, Ea.
Qed.

(** Recording the first node with the address at the frontier. *)
Lemma mesh_inv_join net m m' a' id n :
  mesh_inv net m -> mesh_nodes m !! id = None ->
  allocator_inv net a' -> frontier a' = frontier (mesh_allocator m) + 1 ->
  node_id n = id -> node_addresses n = [V4 (frontier (mesh_allocator m))] ->
  mesh_allocator m' = a' -> mesh_nodes m' = <[id := n]> (mesh_nodes m) -> mesh_inv net m'.
Proof.
  intros [Ha Hi Hd Hc] Hnone Ha' Hfr Hid Haddr Ea En. split.
  - by rewrite Ea.
  - intros i k. rewrite En, Ea. intros [[<- <-]|[_ Hk]]%lookup_insert_Some.
    + split; [done|]. eexists. split; [done|]. destruct Ha. lia.
    + destruct (Hi _ _ Hk) as [? (a & ? & ?)]. split; [done|]. exists a. split; [done|]. lia.
  - intros i1 i2 k1 k2. rewrite En.
    intros [[<- <-]|[? H1]]%lookup_insert_Some [[<- <-]|[? H2]]%lookup_insert_Some E; [done|..|eauto].
    + destruct (Hi _ _ H2) as [_ (a & Ha2 & ?)]. rewrite Haddr, Ha2 in E. injection E. lia.
    + destruct (Hi _ _ H1) as [_ (a & Ha2 & ?)]. rewrite Haddr, Ha2 in E. injection E. lia.
  - rewrite En, map_size_insert_None by done. rewrite Ea, Hfr. lia.
Qed.
End mesh.

Section mesh_theorems.
Context `{IpNetLaws}.

Lemma new_allocator net cidr a :
  IpAllocator_new cidr = Ok a -> net_parse cidr = Some net ->
  net_is_v4 net = true /\ alloc_next a = Some (first_host net) /\ allocator_inv net a.
Proof.
  unfold IpAllocator_new. intros Ha Hp. rewrite Hp in Ha. destruct (net_is_v4 net) eqn:Hv4; [|done].
  split; [done|]. unfold from_ipv4_net in Ha. pose proof (net_block_pos net) as Hb.
  pose proof (net_network_eq net) as En. pose proof (net_broadcast_eq net) as Eb. cbv zeta in En, Eb.
  assert (ip_value (net_network net) <= ip_value (net_broadcast net)) as Hle.
  { rewrite En, Eb, !ip_with_value_value. lia. }
  pose proof (net_prefix_len_range net) as Hr.
  assert (ip_width (net_addr net) = 32) as Hw by (by unfold net_is_v4 in Hv4; destruct (net_addr net)).
  rewrite Hw in Hr. destruct (Z.leb_spec 0 (net_prefix_len net)); [|lia]. cbn [andb] in Ha.
  destruct (Z.leb_spec (net_prefix_len net) 30) as [H30|H30].
  - destruct (Z.leb_spec (ip_value (net_broadcast net)) (ip_value (net_network net) + 1)); simplify_eq/=.
    unfold first_host at 1. apply Z.leb_le in H30 as H30'.
    split; [by rewrite H30'|]. split; unfold first_host, last_host, frontier; rewrite H30'; simpl; intros; simplify_eq; lia.
  - destruct (Z.eqb_spec (net_prefix_len net) 31), (Z.eqb_spec (net_prefix_len net) 32); simplify_eq/=; try lia.
    all: assert (net_prefix_len net <=? 30 = false) as H30' by (apply Z.leb_gt; lia).
    all: split; [unfold first_host; rewrite H30'; f_equal; lia|].
    all: split; unfold first_host, last_host, frontier; rewrite H30'; simpl; intros; simplify_eq; lia.
Qed.

(** The two outcomes of a registration that finds no node of its id, and the
    one that finds it. *)
Lemma register_cases net m now req :
  mesh_inv net m ->
  (exists old n resp, mesh_nodes m !! req_id req = Some old /\
     register now m req = (mkMesh (<[req_id req := n]> (mesh_nodes m)) (mesh_allocator m)
        (mesh_events m ++ [NodeStatusChanged (req_id req) true]) (mesh_derp_servers m), Ok resp) /\
     node_id n = req_id req /\ node_addresses n = node_addresses old /\ resp_addresses resp = node_addresses old /\
     resp_peers resp = peers_of (register now m req).1 (req_id req)) \/
  (mesh_nodes m !! req_id req = None /\ frontier (mesh_allocator m) = last_host net + 1 /\
     register now m req = (m, Err IpExhausted)) \/
  (mesh_nodes m !! req_id req = None /\ frontier (mesh_allocator m) <= last_host net /\
   exists a' n resp, allocator_inv net a' /\ frontier a' = frontier (mesh_allocator m) + 1 /\
     register now m req = (mkMesh (<[req_id req := n]> (mesh_nodes m)) a'
        (mesh_events m ++ [NodeJoined (req_id req) (req_name req) (req_wg_pubkey req) (node_addresses n)])
        (mesh_derp_servers m), Ok resp) /\
     node_id n = req_id req /\ node_addresses n = [V4 (frontier (mesh_allocator m))] /\
     resp_addresses resp = node_addresses n /\ resp_peers resp = peers_of (register now m req).1 (req_id req)).
Proof.
  intros Hm. pose proof (allocate_spec net _ (mi_alloc _ _ Hm)) as Hal. unfold register.
  destruct (mesh_nodes m !! req_id req) as [old|] eqn:Hl.
  - left. exists old. do 2 eexists. split_and!; reflexivity.
  - right. destruct Hal as [[Hf ->]|(Hf & a' & -> & Ha' & Hf')].
    + left. split_and!; [done..|]. by destruct m.
    + right. cbn [result_map result_bind]. split_and!; [done..|].
      exists a', (mkNode (req_id req) (req_name req) (req_wg_pubkey req) [V4 (frontier (mesh_allocator m))]
                    (req_endpoints req) now (req_capabilities req) true).
      eexists. split_and!; [done|done|reflexivity..].
Qed.

Lemma register_inv net m now req : mesh_inv net m -> mesh_inv net (register now m req).1.
Proof.
  intros Hm. destruct (register_cases net m now req Hm)
    as [(old & n & resp & Hl & -> & Hid & Ha & _)|[(_ & _ & ->)|(Hl & _ & a' & n & resp & Ha' & Hf & -> & Hid & Ha & _)]];
    [|done|by eapply mesh_inv_join].
  apply (mesh_inv_same net m); simpl; [done..| |].
  - rewrite dom_insert_L. assert (req_id req ∈ dom (mesh_nodes m)) by (apply elem_of_dom; eauto). set_solver.
  - intros id n' [[<- <-]|[_ Hn']]%lookup_insert_Some; [|eauto].
    exists old. destruct (mi_addr _ _ Hm _ _ Hl) as [? _]. split_and!; congruence.
Qed.

Lemma heartbeat_inv net m now id : mesh_inv net m -> mesh_inv net (heartbeat now m id).1.
Proof.
  intros Hm. unfold heartbeat. destruct (mesh_nodes m !! id) as [n|] eqn:Hl; [|done].
  apply (mesh_inv_same net m); simpl; [done..| |].
  - rewrite dom_insert_L. assert (id ∈ dom (mesh_nodes m)) by (apply elem_of_dom; eauto). set_solver.
  - intros i n' [[<- <-]|[_ Hn']]%lookup_insert_Some; eauto.
Qed.

Lemma mesh_reachable_inv cidr net m :
  net_parse cidr = Some net -> mesh_reachable cidr m -> net_is_v4 net = true /\ mesh_inv net m.
Proof.
  intros Hp. induction 1 as [m events Hm|m now req _ [? IH]|m now id _ [? IH]|m server _ [? IH]].
  - unfold try_with_event_bus in Hm. apply result_bind_Ok in Hm as (a & Ha & [= <-]).
    destruct (new_allocator _ _ _ Ha Hp) as (Hv & Hn & Hi). split; [done|].
    split; simpl; [done|naive_solver..|]. unfold frontier. rewrite Hn, map_size_empty. simpl. lia.
  - split; [done|]. by apply register_inv.
  - split; [done|]. by apply heartbeat_inv.
  - split; [done|]. unfold add_derp_server. case_match; [done|]. by eapply mesh_inv_same; eauto.
Qed.

Lemma host_in_net net a :
  net_is_v4 net = true -> first_host net <= a <= last_host net ->
  net_contains net (V4 a) = true /\
  (net_prefix_len net <= 30 -> V4 a <> net_network net /\ V4 a <> net_broadcast net).
Proof.
  intros Hv Ha. unfold first_host, last_host in Ha. split.
  - apply net_contains_spec. split; [done|]. simpl. destruct (net_prefix_len net <=? 30); lia.
  - intros H30%Z.leb_le. rewrite H30 in Ha. split; intros E; rewrite <-E in Ha; simpl in Ha; lia.
Qed.

(** Whatever the order of registrations, heartbeats and DERP additions, every
    node of the coordinator holds exactly one address; it lies in the mesh CIDR and
    is neither its network nor its broadcast address when the prefix has at most 30
    bits; and no two nodes share an address. *)
Theorem mesh_addresses_unique cidr net m :
  net_parse cidr = Some net -> mesh_reachable cidr m ->
  (forall id n, mesh_nodes m !! id = Some n -> exists a, node_addresses n = [a] /\
     net_contains net a = true /\
     (net_prefix_len net <= 30 -> a <> net_network net /\ a <> net_broadcast net)) /\
  (forall id1 id2 n1 n2 a, mesh_nodes m !! id1 = Some n1 -> mesh_nodes m !! id2 = Some n2 ->
     a ∈ node_addresses n1 -> a ∈ node_addresses n2 -> id1 = id2).
Proof.
  intros Hp Hr. destruct (mesh_reachable_inv _ _ _ Hp Hr) as [Hv [[He Hn Hf] Hi Hd _]]. split.
  - intros id n Hl. destruct (Hi _ _ Hl) as [_ (a & Ha & Hlt)]. exists (V4 a). split; [done|].
    apply host_in_net; [done|]. unfold frontier in Hlt.
    destruct (alloc_next (mesh_allocator m)) as [x|]; simpl in Hlt; [specialize (Hn x eq_refl)|]; lia.
  - intros id1 id2 n1 n2 a H1 H2. destruct (Hi _ _ H1) as [_ (a1 & E1 & _)], (Hi _ _ H2) as [_ (a2 & E2 & _)].
    rewrite E1, E2, !list_elem_of_singleton. intros -> [= ->]. apply (Hd id1 id2 n1 n2); congruence.
Qed.

Lemma peers_of_spec net m id p :
  mesh_inv net m ->
  p ∈ peers_of m id <-> exists id' n, id' <> id /\ mesh_nodes m !! id' = Some n /\ p = peer_info n.
Proof.
  intros Hm. unfold peers_of. change (map snd (map_to_list (mesh_nodes m))) with (list_nodes m).
  rewrite list_elem_of_fmap. setoid_rewrite elem_of_filter_bool. setoid_rewrite elem_of_list_nodes.
  setoid_rewrite negb_true_iff. setoid_rewrite bool_decide_eq_false. split.
  - intros (n & -> & [id' Hl] & Hne). exists id', n. destruct (mi_addr _ _ Hm _ _ Hl) as [<- _]. done.
  - intros (id' & n & Hne & Hl & ->). exists n. destruct (mi_addr _ _ Hm _ _ Hl) as [E _].
    split_and!; [done|by exists id'|congruence].
Qed.

(** A registration either keeps the address of the node it finds, or gives a
    new node an address that no node has, or fails with [IpExhausted] and changes
    nothing, and it fails exactly when the node is new and as many nodes are
    registered as the CIDR has host addresses.  A successful answer lists exactly
    the other nodes as peers, each with its own address as the allowed network. *)
Theorem register_spec cidr net m now req :
  net_parse cidr = Some net -> mesh_reachable cidr m ->
  let '(m', r) := register now m req in
  match mesh_nodes m !! req_id req with
  | Some old => exists resp, r = Ok resp /\ resp_addresses resp = node_addresses old
  | None =>
      if Z.of_nat (size (mesh_nodes m)) =? hosts net then r = Err IpExhausted /\ m' = m
      else exists resp a, r = Ok resp /\ resp_addresses resp = [a] /\
             forall id n, mesh_nodes m !! id = Some n -> a ∉ node_addresses n
  end /\
  forall resp, r = Ok resp ->
    (exists n, mesh_nodes m' = <[req_id req := n]> (mesh_nodes m) /\ node_addresses n = resp_addresses resp) /\
    forall p, p ∈ resp_peers resp <->
      exists id n, id <> req_id req /\ mesh_nodes m !! id = Some n /\ p = peer_info n.
Proof.
  intros Hp Hr. destruct (mesh_reachable_inv _ _ _ Hp Hr) as [Hv Hm].
  pose proof (register_inv net m now req Hm) as Hm'. pose proof (mi_count _ _ Hm) as Hc.
  assert (forall n resp, mesh_nodes (register now m req).1 = <[req_id req := n]> (mesh_nodes m) ->
    resp_peers resp = peers_of (register now m req).1 (req_id req) -> node_addresses n = resp_addresses resp ->
    (exists n', mesh_nodes (register now m req).1 = <[req_id req := n']> (mesh_nodes m) /\
       node_addresses n' = resp_addresses resp) /\
    forall p, p ∈ resp_peers resp <->
      exists id n, id <> req_id req /\ mesh_nodes m !! id = Some n /\ p = peer_info n) as Hpeers.
  { intros n resp En Er Ea. split; [by exists n|]. intros p. rewrite Er, (peers_of_spec net) by done.
    rewrite En. split; intros (id & k & Hne & Hl & ->); exists id, k; (split_and!; [done| |done]);
      by rewrite lookup_insert_ne in *. }
  destruct (register_cases net m now req Hm)
    as [(old & n & resp & Hl & E & Hid & Ha & Hra & Hrp)|[(Hl & Hf & E)|(Hl & Hf & a' & n & resp & Ha' & Hf' & E & Hid & Ha & Hra & Hrp)]];
    rewrite E in *; rewrite Hl; simpl in *.
  - split; [by exists resp|]. intros ? [= <-]. apply (Hpeers n); congruence.
  - unfold hosts. destruct (Z.eqb_spec (Z.of_nat (size (mesh_nodes m))) (last_host net - first_host net + 1)); [done|lia].
  - unfold hosts. destruct (Z.eqb_spec (Z.of_nat (size (mesh_nodes m))) (last_host net - first_host net + 1)); [lia|].
    split; [|intros ? [= <-]; apply (Hpeers n); congruence].
    exists resp, (V4 (frontier (mesh_allocator m))). split_and!; [done|congruence|].
    intros id k Hk. destruct (mi_addr _ _ Hm _ _ Hk) as [_ (a & -> & ?)].
    rewrite list_elem_of_singleton. intros [= E']. lia.
Qed.
End mesh_theorems.

(** ** Examples: a /30 has two host addresses *)

Module MeshExamples.

#[local] Existing Instance PrefixNet.lib.
#[local] Existing Instance PrefixNet.laws.

Definition cidr : string := "10.0.0.0/30".

Definition start : MeshCoordinator :=
  default (mkMesh ∅ (mkAllocator None 0) [] []) (result_ok (try_with_event_bus cidr [])).

Definition req (id : string) : RegisterRequest :=
  mkRegister id (id ++ "-host") "key" ["203.0.113.7:41641"%string] (mkCapabilities true false false false false).

Definition mesh1 : MeshCoordinator := (register 10 start (req "a")).1.
Definition mesh2 : MeshCoordinator := (register 20 mesh1 (req "b")).1.

Lemma start_reachable : mesh_reachable cidr start.
Proof.
  apply (mesh_start cidr start []). unfold start.
  destruct (try_with_event_bus cidr []) eqn:E; [done|].
  assert (is_ok (try_with_event_bus cidr []) = true) as H by (vm_compute; reflexivity). by rewrite E in H.
Qed.

Lemma mesh1_reachable : mesh_reachable cidr mesh1.
Proof. apply mesh_register, start_reachable. Qed.

Lemma mesh2_reachable : mesh_reachable cidr mesh2.
Proof. apply mesh_register, mesh1_reachable. Qed.

Lemma cidr_parses : exists net, net_parse cidr = Some net.
Proof.
  destruct (net_parse cidr) as [net|] eqn:E; [by exists net|].
  assert (bool_decide (is_Some (net_parse cidr)) = true) as H by (vm_compute; reflexivity).
  apply bool_decide_eq_true in H as [? ?]. congruence.
Qed.

Lemma mesh_addresses_unique_witness : exists net, net_parse cidr = Some net /\
  (exists n, mesh_nodes mesh2 !! "b"%string = Some n /\ node_addresses n = [V4 167772162]) /\
  (forall id1 id2 n1 n2 a, mesh_nodes mesh2 !! id1 = Some n1 -> mesh_nodes mesh2 !! id2 = Some n2 ->
     a ∈ node_addresses n1 -> a ∈ node_addresses n2 -> id1 = id2).
Proof.
  destruct cidr_parses as [net Hp]. exists net. split_and!; [done| |].
  - destruct (mesh_nodes mesh2 !! "b"%string) as [n|] eqn:E.
    + exists n. split; [done|].
      assert (option_map node_addresses (mesh_nodes mesh2 !! "b"%string) = Some [V4 167772162]) as H by (vm_compute; reflexivity).
      rewrite E in H. by injection H.
    + assert (option_map node_addresses (mesh_nodes mesh2 !! "b"%string) = Some [V4 167772162]) as H by (vm_compute; reflexivity).
      by rewrite E in H.
  - apply (mesh_addresses_unique cidr net mesh2 Hp mesh2_reachable).
Defined.

Lemma register_spec_witness :
  (register 30 mesh2 (req "c")).2 = Err IpExhausted /\ (register 30 mesh2 (req "c")).1 = mesh2.
Proof.
  destruct cidr_parses as [net Hp].
  pose proof (register_spec cidr net mesh2 30 (req "c") Hp mesh2_reachable) as H.
  destruct (register 30 mesh2 (req "c")) as [m' r] eqn:E. destruct H as [H _].
  assert (bool_decide (is_Some (mesh_nodes mesh2 !! req_id (req "c"))) = false) as Hn by (vm_compute; reflexivity).
  apply bool_decide_eq_false in Hn. rewrite <-eq_None_not_Some in Hn. rewrite Hn in H.
  assert (is_ok (register 30 mesh2 (req "c")).2 = false) as Hr by (vm_compute; reflexivity).
  rewrite E in Hr. destruct (_ =? _) in H; [done|]. destruct H as (? & ? & -> & _). done.
Defined.

End MeshExamples.
