(* ===== verification/Metering.v ===== *)
(** * Metering: bandwidth metering (headscale-core/src/metering.rs)

    A session's two byte counters, the calls that record usage against its
    limit, and the service that keeps sessions by id.  The sequential
    definitions are the source's methods as state passing; because the service
    records usage under a read lock, the same call is also given as the steps
    between its atomic operations, so that interleavings of concurrent calls can
    be run.  Times are instants in seconds, passed in. *)

From S2P Require Import Prelude.
From stdpp Require Import base list gmap strings.
From Stdlib Require Import ZArith Lia.

Open Scope Z_scope.
Open Scope rust_scope.

Record MeteringConfig := mkMeteringConfig {
  bandwidth_limit : option Z;
  rate_limit : option Z;
  consumer_did : string;
  provider_did : string;
}.

Record MeteringSession := mkSession {
  ms_id : string;
  ms_config : MeteringConfig;
  bytes_in : Z;
  bytes_out : Z;
  started_at : Z;
  last_activity : Z;
  ms_active : bool;
}.

Record MeteringSnapshot := mkSnapshot {
  snap_session_id : string;
  snap_consumer_did : string;
  snap_provider_did : string;
  snap_bytes_in : Z;
  snap_bytes_out : Z;
  snap_bandwidth_limit : option Z;
  snap_remaining : option Z;
  snap_duration_secs : Z;
  snap_active : bool;
}.

Inductive MeteringError :=
| SessionNotFound (id : string)
| SessionInactive
| BandwidthExceeded (limit current requested : Z)
| RateLimitExceeded
| CounterOverflow.

(** ** Sessions *)

Definition MeteringSession_new (id : string) (config : MeteringConfig) (now : Z) : MeteringSession :=
  mkSession id config 0 0 now now true.

(** [fetch_add] wraps. *)
Definition add_in (s : MeteringSession) (n : Z) : MeteringSession :=
  mkSession (ms_id s) (ms_config s) (wrapping_add 64 (bytes_in s) n) (bytes_out s) (started_at s)
    (last_activity s) (ms_active s).

Definition add_out (s : MeteringSession) (n : Z) : MeteringSession :=
  mkSession (ms_id s) (ms_config s) (bytes_in s) (wrapping_add 64 (bytes_out s) n) (started_at s)
    (last_activity s) (ms_active s).

Definition checked_total_bytes (s : MeteringSession) : result Z MeteringError :=
  ok_or (checked_add 64 (bytes_in s) (bytes_out s)) CounterOverflow.

(** The limit check shared by the three recording methods. *)
Definition check_limit (c : MeteringConfig) (current new_total requested : Z) : result unit MeteringError :=
  match bandwidth_limit c with
  | Some limit => if limit <? new_total then Err (BandwidthExceeded limit current requested) else Ok tt
  | None => Ok tt
  end.

Definition record_incoming (s : MeteringSession) (bytes : Z) : MeteringSession * result unit MeteringError :=
  if negb (ms_active s) then (s, Err SessionInactive)
  else
    match (let? current := checked_total_bytes s in
           let? new_total := ok_or (checked_add 64 current bytes) CounterOverflow in
           check_limit (ms_config s) current new_total bytes) with
    | Ok _ => (add_in s bytes, Ok tt)
    | Err e => (s, Err e)
    end.

Definition record_outgoing (s : MeteringSession) (bytes : Z) : MeteringSession * result unit MeteringError :=
  if negb (ms_active s) then (s, Err SessionInactive)
  else
    match (let? current := checked_total_bytes s in
           let? new_total := ok_or (checked_add 64 current bytes) CounterOverflow in
           check_limit (ms_config s) current new_total bytes) with
    | Ok _ => (add_out s bytes, Ok tt)
    | Err e => (s, Err e)
    end.

Definition record_bidirectional (s : MeteringSession) (b_in b_out : Z)
  : MeteringSession * result unit MeteringError :=
  if negb (ms_active s) then (s, Err SessionInactive)
  else
    match (let? total_new := ok_or (checked_add 64 b_in b_out) CounterOverflow in
           let? current := checked_total_bytes s in
           let? new_total := ok_or (checked_add 64 current total_new) CounterOverflow in
           check_limit (ms_config s) current new_total total_new) with
    | Ok _ => (add_out (add_in s b_in) b_out, Ok tt)
    | Err e => (s, Err e)
    end.

Definition total_bytes (s : MeteringSession) : Z := saturating_add 64 (bytes_in s) (bytes_out s).

Definition remaining_bandwidth (s : MeteringSession) : option Z :=
  match bandwidth_limit (ms_config s) with
  | Some limit => Some (saturating_sub limit (total_bytes s))
  | None => None
  end.

Definition duration_secs (s : MeteringSession) (now : Z) : Z := saturating_sub now (started_at s).

Definition snapshot (s : MeteringSession) (now : Z) : MeteringSnapshot :=
  mkSnapshot (ms_id s) (consumer_did (ms_config s)) (provider_did (ms_config s)) (bytes_in s) (bytes_out s)
    (bandwidth_limit (ms_config s)) (remaining_bandwidth s) (duration_secs s now) (ms_active s).

Definition snap_total_bytes (s : MeteringSnapshot) : Z := saturating_add 64 (snap_bytes_in s) (snap_bytes_out s).

(** [div_ceil(1024)] *)
Definition total_kb (s : MeteringSnapshot) : Z :=
  let n := snap_total_bytes s in
  if 0 <? n `mod` 1024 then n / 1024 + 1 else n / 1024.

(** ** The service *)

Definition MeteringService := gmap string MeteringSession.

Definition MeteringService_new : MeteringService := ∅.

Definition start_session (sv : MeteringService) (id : string) (config : MeteringConfig) (now : Z)
  : MeteringService * result unit MeteringError :=
  (<[id := MeteringSession_new id config now]> sv, Ok tt).

Definition record_usage (sv : MeteringService) (id : string) (b_in b_out : Z)
  : MeteringService * result unit MeteringError :=
  match sv !! id with
  | None => (sv, Err (SessionNotFound id))
  | Some session => let '(session', r) := record_bidirectional session b_in b_out in (<[id := session']> sv, r)
  end.

Definition get_usage (sv : MeteringService) (id : string) (now : Z) : option MeteringSnapshot :=
  match sv !! id with Some s => Some (snapshot s now) | None => None end.

Definition deactivate (s : MeteringSession) : MeteringSession :=
  mkSession (ms_id s) (ms_config s) (bytes_in s) (bytes_out s) (started_at s) (last_activity s) false.

Definition end_session (sv : MeteringService) (id : string) (now : Z)
  : MeteringService * result MeteringSnapshot MeteringError :=
  match sv !! id with
  | None => (sv, Err (SessionNotFound id))
  | Some session => (delete id sv, Ok (snapshot (deactivate session) now))
  end.

Definition select_sessions (sv : MeteringService) (p : MeteringSession -> bool) (now : Z) : list MeteringSnapshot :=
  map (fun s => snapshot s now) (List.filter p (map snd (map_to_list sv))).

Definition active_sessions (sv : MeteringService) (now : Z) : list MeteringSnapshot :=
  select_sessions sv ms_active now.

Definition consumer_sessions (sv : MeteringService) (did : string) (now : Z) : list MeteringSnapshot :=
  select_sessions sv (fun s => bool_decide (consumer_did (ms_config s) = did)) now.

Definition provider_sessions (sv : MeteringService) (did : string) (now : Z) : list MeteringSnapshot :=
  select_sessions sv (fun s => bool_decide (provider_did (ms_config s) = did)) now.

(** [sum()] of [u64]s; [None] is the debug profile's overflow panic. *)
Definition sum_u64 (m : profile) (l : list Z) : option Z :=
  fold_left (fun acc n => match acc with Some a => add_u m 64 a n | None => None end) l (Some 0).

Definition provider_total_bytes (m : profile) (sv : MeteringService) (did : string) (now : Z) : option Z :=
  sum_u64 m (map snap_total_bytes (provider_sessions sv did now)).

(** ** [record_bidirectional] between its atomic operations

    A call in flight: what it was asked to record and where it is.  Each step
    does at most one atomic access to the shared counters. *)
Inductive call_pc :=
| NotStarted
| LoadedIn (v : Z)                          (* after [bytes_in.load] *)
| Approved                                  (* after [bytes_out.load] and the checks *)
| AddedIn                                   (* after [bytes_in.fetch_add] *)
| Returned (r : result unit MeteringError).

Record call := mkCall { call_in : Z; call_out : Z; call_state : call_pc }.

Definition at_pc (c : call) (pc : call_pc) : call := mkCall (call_in c) (call_out c) pc.

Definition call_step (s : MeteringSession) (c : call) : MeteringSession * call :=
  match call_state c with
  | NotStarted =>
      if negb (ms_active s) then (s, at_pc c (Returned (Err SessionInactive)))
      else match checked_add 64 (call_in c) (call_out c) with
           | None => (s, at_pc c (Returned (Err CounterOverflow)))
           | Some _ => (s, at_pc c (LoadedIn (bytes_in s)))
           end
  | LoadedIn v =>
      match (let? current := ok_or (checked_add 64 v (bytes_out s)) CounterOverflow in
             let? new_total := ok_or (checked_add 64 current (call_in c + call_out c)) CounterOverflow in
             check_limit (ms_config s) current new_total (call_in c + call_out c)) with
      | Ok _ => (s, at_pc c Approved)
      | Err e => (s, at_pc c (Returned (Err e)))
      end
  | Approved => (add_in s (call_in c), at_pc c AddedIn)
  | AddedIn => (add_out s (call_out c), at_pc c (Returned (Ok tt)))
  | Returned _ => (s, c)
  end.

(** A schedule names the call that takes each step. *)
Fixpoint run_calls (schedule : list nat) (s : MeteringSession) (calls : list call) : MeteringSession * list call :=
  match schedule with
  | [] => (s, calls)
  | i :: rest =>
      match calls !! i with
      | Some c => let '(s', c') := call_step s c in run_calls rest s' (<[i := c']> calls)
      | None => run_calls rest s calls
      end
  end.

#[local] Arguments checked_add : simpl never.

(** ** Theorems *)

(** *** Sequential accounting *)

Record session_ok (s : MeteringSession) : Prop := {
  so_in : 0 <= bytes_in s;
  so_out : 0 <= bytes_out s;
  so_total : bytes_in s + bytes_out s <= u_max 64;
  so_limit : forall limit, bandwidth_limit (ms_config s) = Some limit -> bytes_in s + bytes_out s <= limit;
}.

(** Room for [n] more bytes. *)
Definition fits (s : MeteringSession) (n : Z) : Prop :=
  bytes_in s + bytes_out s + n <= u_max 64 /\
  forall limit, bandwidth_limit (ms_config s) = Some limit -> bytes_in s + bytes_out s + n <= limit.

Definition add_exact (s : MeteringSession) (b_in b_out : Z) : MeteringSession :=
  mkSession (ms_id s) (ms_config s) (bytes_in s + b_in) (bytes_out s + b_out) (started_at s) (last_activity s)
    (ms_active s).

Lemma add_in_out_exact s b_in b_out :
  session_ok s -> 0 <= b_in -> 0 <= b_out -> bytes_in s + bytes_out s + (b_in + b_out) <= u_max 64 ->
  add_out (add_in s b_in) b_out = add_exact s b_in b_out.
Proof.
  intros [Hi Ho _ _] H1 H2 Hsum. unfold add_out, add_in, add_exact, wrapping_add, u_max in *. simpl.
  rewrite !Z.mod_small by lia. done.
Qed.

Lemma check_limit_spec c current new_total requested :
  match check_limit c current new_total requested with
  | Ok _ => forall limit, bandwidth_limit c = Some limit -> new_total <= limit
  | Err _ => exists limit, bandwidth_limit c = Some limit /\ limit < new_total
  end.
Proof.
  unfold check_limit. destruct (bandwidth_limit c) as [l|]; [|done].
  destruct (Z.ltb_spec l new_total); [by eauto|]. by intros ? [= <-].
Qed.

Lemma record_bidirectional_spec s b_in b_out :
  session_ok s -> 0 <= b_in -> 0 <= b_out ->
  match record_bidirectional s b_in b_out with
  | (s', Ok _) => ms_active s = true /\ fits s (b_in + b_out) /\ s' = add_exact s b_in b_out
  | (s', Err _) => s' = s /\ (ms_active s = false \/ ~ fits s (b_in + b_out))
  end.
Proof.
  intros Hs H1 H2. pose proof Hs as [Hi Ho Ht Hl]. unfold record_bidirectional.
  destruct (ms_active s); simpl; [|by auto].
  destruct (checked_add 64 b_in b_out) as [n|] eqn:E1; simpl.
  2: { apply checked_add_None in E1. split; [done|]. right. intros [Hf _]. lia. }
  apply checked_add_Some in E1 as [-> _]. unfold checked_total_bytes.
  assert (checked_add 64 (bytes_in s) (bytes_out s) = Some (bytes_in s + bytes_out s)) as ->
    by (apply checked_add_Some; lia). simpl.
  destruct (checked_add 64 (bytes_in s + bytes_out s) (b_in + b_out)) as [n|] eqn:E2; simpl.
  2: { apply checked_add_None in E2. split; [done|]. right. intros [Hf _]. lia. }
  apply checked_add_Some in E2 as [-> E2].
  pose proof (check_limit_spec (ms_config s) (bytes_in s + bytes_out s)
                (bytes_in s + bytes_out s + (b_in + b_out)) (b_in + b_out)) as Hc.
  destruct (check_limit _ _ _ _) as [[]|e].
  - split_and!; [done|split; done|]. by apply add_in_out_exact.
  - split; [done|]. right. intros [_ Hf]. destruct Hc as (l & El & Hlt). specialize (Hf l El). lia.
Qed.

Lemma add_exact_ok s b_in b_out :
  session_ok s -> 0 <= b_in -> 0 <= b_out -> fits s (b_in + b_out) -> session_ok (add_exact s b_in b_out).
Proof.
  intros [Hi Ho Ht Hl] H1 H2 [Hf1 Hf2]. split; simpl; try lia. intros l El. specialize (Hf2 l El). lia.
Qed.

(** A run of usage reports, and the bytes of the accepted ones. *)
Fixpoint record_all (s : MeteringSession) (reqs : list (Z * Z)) : MeteringSession * list (result unit MeteringError) :=
  match reqs with
  | [] => (s, [])
  | (b_in, b_out) :: rest =>
      let '(s1, r) := record_bidirectional s b_in b_out in
      let '(s2, rs) := record_all s1 rest in
      (s2, r :: rs)
  end.

Definition accepted_bytes (proj : Z * Z -> Z) (reqs : list (Z * Z)) (rs : list (result unit MeteringError)) : Z :=
  fold_right Z.add 0 (zip_with (fun q r => if is_ok r then proj q else 0) reqs rs).

Lemma record_all_exact reqs s s' rs :
  session_ok s -> Forall (fun q => 0 <= q.1 /\ 0 <= q.2) reqs -> record_all s reqs = (s', rs) ->
  session_ok s' /\ ms_config s' = ms_config s /\
  bytes_in s' = bytes_in s + accepted_bytes fst reqs rs /\
  bytes_out s' = bytes_out s + accepted_bytes snd reqs rs.
Proof.
  intros Hs Hq. revert s s' rs Hs. induction Hq as [|[b_in b_out] reqs [H1 H2] _ IH]; intros s s' rs Hs; simpl.
  - intros [= <- <-]. unfold accepted_bytes. simpl. split_and!; (done || lia).
  - pose proof (record_bidirectional_spec s b_in b_out Hs H1 H2) as Hspec.
    destruct (record_bidirectional s b_in b_out) as [s1 r].
    destruct (record_all s1 reqs) as [s2 rs2] eqn:E. intros [= <- <-]. unfold accepted_bytes in *. simpl.
    destruct r as [u|e]; simpl.
    + destruct Hspec as (_ & Hf & ->).
      destruct (IH _ _ _ (add_exact_ok _ _ _ Hs H1 H2 Hf) E) as (Hok & Hc & Hin & Hout). simpl in *.
      split_and!; (done || lia).
    + destruct Hspec as [-> _]. destruct (IH _ _ _ Hs E) as (Hok & Hc & Hin & Hout). split_and!; (done || lia).
Qed.


(** *** Concurrent calls *)

(** A call that runs alone does what the method does. *)
Lemma call_alone s b_in b_out :
  let '(s', calls) := run_calls [0; 0; 0; 0]%nat s [mkCall b_in b_out NotStarted] in
  record_bidirectional s b_in b_out
  = (s', match calls with [c] => match call_state c with Returned r => r | _ => Err CounterOverflow end
         | _ => Err CounterOverflow end).
Proof.
  unfold record_bidirectional, checked_total_bytes. simpl. unfold call_step at 1. simpl.
  destruct (ms_active s); simpl; [|done].
  destruct (checked_add 64 b_in b_out) as [n|] eqn:E1; simpl; [|done].
  apply checked_add_Some in E1 as [-> _]. unfold call_step at 1. simpl.
  destruct (checked_add 64 (bytes_in s) (bytes_out s)) as [n|]; simpl; [|done].
  destruct (checked_add 64 n (b_in + b_out)) as [m|]; simpl; [|done].
  by destruct (check_limit _ _ _ _) as [[]|].
Qed.

(** What a call has added so far. *)
Definition applied_in (c : call) : Z :=
  match call_state c with AddedIn | Returned (Ok _) => call_in c | _ => 0 end.
Definition applied_out (c : call) : Z :=
  match call_state c with Returned (Ok _) => call_out c | _ => 0 end.

Definition sum_of (f : call -> Z) (calls : list call) : Z := fold_right Z.add 0 (map f calls).

Lemma sum_of_insert f calls i c c' :
  calls !! i = Some c -> sum_of f (<[i := c']> calls) = sum_of f calls - f c + f c'.
Proof.
  unfold sum_of. revert i. induction calls as [|x calls IH]; intros [|i]; simpl; try done.
  - intros [= ->]. lia.
  - intros Hi. rewrite (IH _ Hi). lia.
Qed.

Lemma call_step_applied s c :
  in_u 64 (bytes_in s) -> in_u 64 (bytes_out s) ->
  let '(s', c') := call_step s c in
  in_u 64 (bytes_in s') /\ in_u 64 (bytes_out s') /\
  bytes_in s' = wrapping_add 64 (bytes_in s) (applied_in c' - applied_in c) /\
  bytes_out s' = wrapping_add 64 (bytes_out s) (applied_out c' - applied_out c).
Proof.
  intros Hi Ho.
  assert (forall n, in_u 64 n -> n = wrapping_add 64 n 0) as H0.
  { intros n Hn. unfold wrapping_add, in_u, u_max in *. rewrite Z.mod_small; lia. }
  unfold call_step, applied_in, applied_out. destruct (call_state c) eqn:Ec;
    repeat case_match; simplify_eq/=; rewrite ?Ec, ?Z.sub_diag, ?Z.sub_0_r; simpl;
    split_and!; auto using wrapping_add_range with lia; try (by apply wrapping_add_range).
Qed.

Lemma wrapping_add_assoc a b c : wrapping_add 64 (wrapping_add 64 a b) c = wrapping_add 64 a (b + c).
Proof. unfold wrapping_add. rewrite Z.add_mod_idemp_l by lia. f_equal. lia. Qed.

Lemma run_calls_applied schedule s calls s' calls' :
  in_u 64 (bytes_in s) -> in_u 64 (bytes_out s) -> run_calls schedule s calls = (s', calls') ->
  bytes_in s' = wrapping_add 64 (bytes_in s) (sum_of applied_in calls' - sum_of applied_in calls) /\
  bytes_out s' = wrapping_add 64 (bytes_out s) (sum_of applied_out calls' - sum_of applied_out calls).
Proof.
  revert s calls. induction schedule as [|i rest IH]; intros s calls Hi Ho; simpl.
  - intros [= <- <-]. rewrite !Z.sub_diag. unfold wrapping_add, in_u, u_max in *.
    rewrite !Z.add_0_r, !Z.mod_small by lia. done.
  - destruct (calls !! i) as [c|] eqn:Ec; [|by apply IH].
    pose proof (call_step_applied s c Hi Ho) as Hstep. destruct (call_step s c) as [s1 c1].
    destruct Hstep as (Hi1 & Ho1 & Hin & Hout). intros Hr.
    destruct (IH s1 _ Hi1 Ho1 Hr) as [H1 H2].
    rewrite (sum_of_insert applied_in _ _ _ _ Ec) in H1. rewrite (sum_of_insert applied_out _ _ _ _ Ec) in H2.
    rewrite H1, H2, Hin, Hout, !wrapping_add_assoc. split; f_equal; lia.
Qed.

(** No usage is lost under concurrency: however concurrent calls to a
    session interleave, once they have all returned the counters have grown by
    exactly the amounts of the calls that returned [Ok] (modulo 2^64), each
    counted once and no rejected call counted. *)
Theorem concurrent_calls_exact schedule s reqs s' calls' :
  in_u 64 (bytes_in s) -> in_u 64 (bytes_out s) ->
  run_calls schedule s (map (fun q => mkCall q.1 q.2 NotStarted) reqs) = (s', calls') ->
  (forall c, c ∈ calls' -> exists r, call_state c = Returned r) ->
  bytes_in s' = wrapping_add 64 (bytes_in s)
    (sum_of (fun c => match call_state c with Returned (Ok _) => call_in c | _ => 0 end) calls') /\
  bytes_out s' = wrapping_add 64 (bytes_out s)
    (sum_of (fun c => match call_state c with Returned (Ok _) => call_out c | _ => 0 end) calls').
Proof.
  intros Hi Ho Hr Hdone. destruct (run_calls_applied _ _ _ _ _ Hi Ho Hr) as [H1 H2].
  assert (forall f, (forall c, call_state c = NotStarted -> f c = 0) ->
            sum_of f (map (fun q => mkCall q.1 q.2 NotStarted) reqs) = 0) as Hz.
  { intros f Hf. unfold sum_of. clear -Hf. induction reqs as [|q reqs IH]; simpl; [done|].
    rewrite IH, Hf by done. done. }
  rewrite Hz, Z.sub_0_r in H1 by (intros c Hc; unfold applied_in; by rewrite Hc).
  rewrite Hz, Z.sub_0_r in H2 by (intros c Hc; unfold applied_out; by rewrite Hc).
  rewrite H1, H2. split; [|done]. f_equal. unfold sum_of. f_equal. apply map_ext_in. intros c Hc.
  apply list_elem_of_In, Hdone in Hc as [r E]. unfold applied_in. by rewrite E.
Qed.

(** The limit is not enforced across concurrent calls: for every positive
    limit there is an interleaving of two calls, each within the limit, in which
    both are accepted and the session ends with twice its limit. *)
Theorem concurrent_calls_exceed_limit id rate consumer provider now limit :
  0 < limit -> 2 * limit <= u_max 64 ->
  exists schedule s' calls',
    run_calls schedule (MeteringSession_new id (mkMeteringConfig (Some limit) rate consumer provider) now)
      [mkCall limit 0 NotStarted; mkCall limit 0 NotStarted] = (s', calls') /\
    Forall (fun c => call_state c = Returned (Ok tt)) calls' /\ total_bytes s' = 2 * limit.
Proof.
  intros Hl Hu. exists [0; 0; 1; 1; 0; 0; 1; 1]%nat.
  set (s0 := MeteringSession_new _ _ _).
  assert (call_step s0 (mkCall limit 0 NotStarted) = (s0, mkCall limit 0 (LoadedIn 0))) as E1.
  { unfold call_step. simpl. replace (checked_add 64 limit 0) with (Some limit); [done|].
    symmetry. apply checked_add_Some. lia. }
  assert (call_step s0 (mkCall limit 0 (LoadedIn 0)) = (s0, mkCall limit 0 Approved)) as E2.
  { unfold call_step, check_limit. simpl. change (checked_add 64 0 0) with (Some 0). simpl.
    replace (checked_add 64 (0 + 0) (limit + 0)) with (Some limit); [|symmetry; apply checked_add_Some; lia].
    cbn [ok_or result_bind]. by rewrite Z.ltb_irrefl. }
  eexists _, _. split.
  { cbn [run_calls lookup list_lookup insert list_insert]. rewrite E1. cbn [lookup list_lookup insert list_insert].
    rewrite E2. cbn [lookup list_lookup insert list_insert]. rewrite E1. cbn [lookup list_lookup insert list_insert].
    rewrite E2. cbn [lookup list_lookup insert list_insert]. reflexivity. }
  split; [by repeat constructor|]. unfold total_bytes, saturating_add, add_in, add_out.
  cbn [bytes_in bytes_out MeteringSession_new s0 call_in call_out at_pc].
  unfold wrapping_add, u_max in *. cbn [call_out at_pc].
  rewrite (Z.mod_small (0 + limit)), (Z.mod_small (0 + limit + limit)), !(Z.mod_small 0) by lia. lia.
Qed.

(** ** Instances of the theorems *)

Module MeteringExamples.

Definition config1 : MeteringConfig := mkMeteringConfig (Some 100) None "did:a" "did:b".


Lemma concurrent_calls_exact_witness :
  let s0 := MeteringSession_new "w" config1 0 in
  let final := run_calls [0; 1; 0; 1; 0; 0; 1; 1]%nat s0 (map (fun q => mkCall q.1 q.2 NotStarted) [(60, 1); (20, 5)]) in
  bytes_in final.1 = wrapping_add 64 (bytes_in s0)
    (sum_of (fun c => match call_state c with Returned (Ok _) => call_in c | _ => 0 end) final.2).
Proof.
  refine (proj1 (concurrent_calls_exact [0; 1; 0; 1; 0; 0; 1; 1]%nat _ [(60, 1); (20, 5)] _ _ _ _
                   (surjective_pairing _) _)).
  - vm_compute. split; discriminate.
  - vm_compute. split; discriminate.
  - apply Forall_forall. vm_compute. repeat constructor; eexists; reflexivity.
Defined.

Lemma concurrent_calls_exceed_limit_witness :
  exists schedule s' calls',
    run_calls schedule (MeteringSession_new "w" config1 0)
      [mkCall 100 0 NotStarted; mkCall 100 0 NotStarted] = (s', calls') /\
    Forall (fun c => call_state c = Returned (Ok tt)) calls' /\ total_bytes s' = 2 * 100.
Proof. apply (concurrent_calls_exceed_limit "w" None "did:a" "did:b" 0 100); (lia || (vm_compute; discriminate)). Defined.

End MeteringExamples.
