(* ===== verification/Ledger.v ===== *)
(** * Ledger: account balances (headscale-payments/src/ledger.rs)

    The internal ledger: balances as [i64], credit limits as [u64] and the
    history of transactions.  Amounts are [u64] and are cast to [i64] where the
    source casts them.  An operation returns [None] where the build profile
    makes its arithmetic panic.  [transfer] checks and applies under different
    locks; both halves are definitions, so that concurrent transfers can be run. *)

From S2P Require Import Prelude Net.
From stdpp Require Import base list gmap strings.
From Stdlib Require Import ZArith Lia.

Open Scope Z_scope.
Open Scope rust_scope.

(** ** Signed 64-bit arithmetic *)

Definition i64_min : Z := - 2 ^ 63.
Definition i64_max : Z := 2 ^ 63 - 1.
Definition in_i64 (n : Z) : Prop := i64_min <= n <= i64_max.

(** Two's complement: [n as i64] of a wider value. *)
Definition wrap_i64 (n : Z) : Z := (n + 2 ^ 63) `mod` 2 ^ 64 - 2 ^ 63.

Definition add_i64 (m : profile) (a b : Z) : option Z :=
  match m with
  | Debug => if (i64_min <=? a + b) && (a + b <=? i64_max) then Some (a + b) else None
  | Release => Some (wrap_i64 (a + b))
  end.

Definition sub_i64 (m : profile) (a b : Z) : option Z := add_i64 m a (- b).

(** [amount as i64] *)
Definition as_i64 (n : Z) : Z := wrap_i64 n.

(** ** Data *)

Inductive TransactionType := Transfer | Deposit | Withdrawal | ResourcePayment | BountyPayment | CreditExtension.

Record Transaction := mkTransaction {
  tx_id : string;
  tx_from : string;
  tx_to : string;
  tx_amount : Z;
  tx_description : string;
  tx_timestamp : Z;
  tx_type : TransactionType;
}.

Record Ledger := mkLedger {
  balances : gmap string Z;
  credit_limits : gmap string Z;
  transactions : list Transaction;
}.

Inductive LedgerError := InsufficientFunds | AccountNotFound.

Definition Ledger_new : Ledger := mkLedger ∅ ∅ [].

Definition generate_tx_id (now : Z) : string := "tx_" ++ show_dec now.

(** ** Operations *)

Definition balance (l : Ledger) (account : string) : Z := default 0 (balances l !! account).

Definition available (m : profile) (l : Ledger) (account : string) : option Z :=
  add_i64 m (balance l account) (as_i64 (default 0 (credit_limits l !! account))).

Definition set_balance (l : Ledger) (account : string) (v : Z) : Ledger :=
  mkLedger (<[account := v]> (balances l)) (credit_limits l) (transactions l).

Definition push_tx (l : Ledger) (tx : Transaction) : Ledger :=
  mkLedger (balances l) (credit_limits l) (transactions l ++ [tx]).

(** [*entry(account).or_insert(0) += v] and [-= v]. *)
Definition credit (m : profile) (l : Ledger) (account : string) (v : Z) : option Ledger :=
  match add_i64 m (balance l account) v with Some b => Some (set_balance l account b) | None => None end.

Definition debit (m : profile) (l : Ledger) (account : string) (v : Z) : option Ledger :=
  match sub_i64 m (balance l account) v with Some b => Some (set_balance l account b) | None => None end.

Definition deposit (m : profile) (now : Z) (l : Ledger) (account : string) (amount : Z) (description : string)
  : option (Ledger * Transaction) :=
  let tx := mkTransaction (generate_tx_id now) "external" account amount description now Deposit in
  match credit m l account (as_i64 amount) with
  | Some l' => Some (push_tx l' tx, tx)
  | None => None
  end.

(** The check of [transfer], under the read locks. *)
Definition transfer_check (m : profile) (l : Ledger) (from : string) (amount : Z) : option bool :=
  match available m l from with Some a => Some (negb (a <? as_i64 amount)) | None => None end.

(** Its effect, under the write lock. *)
Definition transfer_apply (m : profile) (now : Z) (ty : TransactionType) (l : Ledger) (from to : string) (amount : Z)
    (description : string) : option (Ledger * Transaction) :=
  let tx := mkTransaction (generate_tx_id now) from to amount description now ty in
  match debit m l from (as_i64 amount) with
  | Some l1 => match credit m l1 to (as_i64 amount) with
               | Some l2 => Some (push_tx l2 tx, tx)
               | None => None
               end
  | None => None
  end.

Definition move (m : profile) (now : Z) (ty : TransactionType) (l : Ledger) (from to : string) (amount : Z)
    (description : string) : option (Ledger * result Transaction LedgerError) :=
  match transfer_check m l from amount with
  | None => None
  | Some false => Some (l, Err InsufficientFunds)
  | Some true =>
      match transfer_apply m now ty l from to amount description with
      | Some (l', tx) => Some (l', Ok tx)
      | None => None
      end
  end.

Definition transfer (m : profile) (now : Z) (l : Ledger) (from to : string) (amount : Z) (description : string)
  : option (Ledger * result Transaction LedgerError) :=
  move m now Transfer l from to amount description.

Definition pay_for_resource (m : profile) (now : Z) (l : Ledger) (consumer provider : string) (amount : Z)
    (resource_description : string) : option (Ledger * result Transaction LedgerError) :=
  move m now ResourcePayment l consumer provider amount resource_description.

Definition set_credit_limit (l : Ledger) (account : string) (limit : Z) : Ledger :=
  mkLedger (balances l) (<[account := limit]> (credit_limits l)) (transactions l).

Definition history (l : Ledger) (account : string) : list Transaction :=
  List.filter (fun tx => bool_decide (tx_from tx = account) || bool_decide (tx_to tx = account)) (transactions l).

(** ** Theorems *)

Definition total_balance (b : gmap string Z) : Z := map_fold (fun _ v acc => v + acc) 0 b.

Lemma total_balance_insert b k v : total_balance (<[k := v]> b) = total_balance b - default 0 (b !! k) + v.
Proof.
  assert (forall b', b' !! k = None -> total_balance (<[k := v]> b') = v + total_balance b') as Hnew.
  { intros b' Hb. unfold total_balance. rewrite map_fold_insert_L; [done|intros; lia|done]. }
  destruct (b !! k) as [x|] eqn:E; simpl; [|rewrite Hnew by done; lia].
  rewrite <-(insert_delete_id b k x) at 2 by done. rewrite <-insert_delete_eq.
  rewrite Hnew by apply lookup_delete_eq.
  assert (total_balance (<[k := x]> (delete k b)) = x + total_balance (delete k b)) as ->.
  { unfold total_balance. rewrite map_fold_insert_L; [done|intros; lia|apply lookup_delete_eq]. }
  lia.
Qed.

(** Equal as 64-bit values. *)
Definition eq64 (a b : Z) : Prop := a `mod` 2 ^ 64 = b `mod` 2 ^ 64.

#[local] Instance eq64_equivalence : Equivalence eq64.
Proof. unfold eq64. split; [intros x|intros x y|intros x y z]; congruence. Qed.

#[local] Instance eq64_add : Proper (eq64 ==> eq64 ==> eq64) Z.add.
Proof.
  unfold eq64. intros a a' Ha b b' Hb. rewrite Z.add_mod, Ha, Hb by lia. by rewrite <-Z.add_mod by lia.
Qed.

Lemma wrap_i64_eq64 n : eq64 (wrap_i64 n) n.
Proof.
  unfold eq64, wrap_i64. rewrite Zminus_mod, Zmod_mod, <-Zminus_mod. by rewrite Z.add_simpl_r.
Qed.

Lemma wrap_i64_small n : in_i64 n -> wrap_i64 n = n.
Proof. unfold in_i64, i64_min, i64_max, wrap_i64. intros H. rewrite Z.mod_small; lia. Qed.

Lemma wrap_i64_range n : in_i64 (wrap_i64 n).
Proof.
  unfold in_i64, i64_min, i64_max, wrap_i64. pose proof (Z.mod_pos_bound (n + 2 ^ 63) (2 ^ 64) ltac:(lia)). lia.
Qed.

Lemma add_i64_Some m a b c :
  add_i64 m a b = Some c -> eq64 c (a + b) /\ in_i64 c /\ (m = Debug -> c = a + b).
Proof.
  destruct m; simpl.
  - destruct (Z.leb_spec i64_min (a + b)), (Z.leb_spec (a + b) i64_max); simpl; try done. intros [= <-].
    by split_and!.
  - intros [= <-]. split_and!; [apply wrap_i64_eq64|apply wrap_i64_range|done].
Qed.

Lemma add_i64_in m a b : in_i64 (a + b) -> add_i64 m a b = Some (a + b).
Proof.
  intros Hr. destruct m; simpl.
  - unfold in_i64 in Hr. rewrite !(proj2 (Z.leb_le _ _)) by lia. done.
  - by rewrite wrap_i64_small.
Qed.

Lemma as_i64_small n : 0 <= n < 2 ^ 63 -> as_i64 n = n.
Proof. intros H. apply wrap_i64_small. unfold in_i64, i64_min, i64_max. lia. Qed.

(** *** Conservation *)

Lemma credit_total m l account v l' :
  credit m l account v = Some l' ->
  eq64 (total_balance (balances l')) (total_balance (balances l) + v) /\
  (m = Debug -> total_balance (balances l') = total_balance (balances l) + v).
Proof.
  unfold credit, balance. destruct (add_i64 m _ v) as [b|] eqn:E; [|done]. intros [= <-]. simpl.
  apply add_i64_Some in E as (E1 & _ & E2). rewrite total_balance_insert. split.
  - rewrite E1. unfold eq64. f_equal. lia.
  - intros Hm. rewrite (E2 Hm). lia.
Qed.

Lemma debit_total m l account v l' :
  debit m l account v = Some l' ->
  eq64 (total_balance (balances l')) (total_balance (balances l) - v) /\
  (m = Debug -> total_balance (balances l') = total_balance (balances l) - v).
Proof. intros H. apply (credit_total m l account (- v) l'). exact H. Qed.

Lemma move_total m now ty l from to amount d l' r :
  move m now ty l from to amount d = Some (l', r) ->
  eq64 (total_balance (balances l')) (total_balance (balances l)) /\
  (m = Debug -> total_balance (balances l') = total_balance (balances l)).
Proof.
  unfold move, transfer_apply. destruct (transfer_check m l from amount) as [[]|]; [|by intros [= <- <-]|done].
  destruct (debit m l from _) as [l1|] eqn:E1; [|done]. destruct (credit m l1 to _) as [l2|] eqn:E2; [|done].
  intros [= <- <-]. simpl. apply debit_total in E1 as [H1 H1']. apply credit_total in E2 as [H2 H2']. split.
  - rewrite H2, H1. unfold eq64. f_equal. lia.
  - intros Hm. rewrite H2', H1' by done. lia.
Qed.

Inductive ledger_op :=
| OpDeposit (now : Z) (account : string) (amount : Z) (description : string)
| OpTransfer (now : Z) (from to : string) (amount : Z) (description : string)
| OpPay (now : Z) (consumer provider : string) (amount : Z) (description : string)
| OpSetCredit (account : string) (limit : Z).

Definition ledger_step (m : profile) (l : Ledger) (op : ledger_op) : option Ledger :=
  match op with
  | OpDeposit now account amount d => fst <$> deposit m now l account amount d
  | OpTransfer now from to amount d => fst <$> transfer m now l from to amount d
  | OpPay now consumer provider amount d => fst <$> pay_for_resource m now l consumer provider amount d
  | OpSetCredit account limit => Some (set_credit_limit l account limit)
  end.

Fixpoint run_ops (m : profile) (l : Ledger) (ops : list ledger_op) : option Ledger :=
  match ops with
  | [] => Some l
  | op :: rest => match ledger_step m l op with Some l' => run_ops m l' rest | None => None end
  end.

Definition deposited (op : ledger_op) : Z := match op with OpDeposit _ _ amount _ => amount | _ => 0 end.

Definition sum_deposits (ops : list ledger_op) : Z := fold_right Z.add 0 (map deposited ops).

Lemma ledger_step_total m l op l' :
  ledger_step m l op = Some l' ->
  eq64 (total_balance (balances l')) (total_balance (balances l) + deposited op) /\
  (m = Debug -> 0 <= deposited op < 2 ^ 63 ->
   total_balance (balances l') = total_balance (balances l) + deposited op).
Proof.
  destruct op as [now a amount d|now f t amount d|now c p amount d|a limit]; simpl.
  - unfold deposit. destruct (credit m l a _) as [l1|] eqn:E; [|done]. intros [= <-]. simpl.
    apply credit_total in E as [E1 E2]. split.
    + rewrite E1. apply eq64_add; [done|]. apply wrap_i64_eq64.
    + intros Hm Hr. rewrite E2 by done. by rewrite as_i64_small.
  - unfold transfer. destruct (move _ _ _ _ _ _ _ _) as [[l1 r]|] eqn:E; [|done]. intros [= <-].
    apply move_total in E as [E1 E2]. rewrite Z.add_0_r. split; [done|]. intros Hm _. by apply E2.
  - unfold pay_for_resource. destruct (move _ _ _ _ _ _ _ _) as [[l1 r]|] eqn:E; [|done]. intros [= <-].
    apply move_total in E as [E1 E2]. rewrite Z.add_0_r. split; [done|]. intros Hm _. by apply E2.
  - intros [= <-]. simpl. rewrite Z.add_0_r. split; [done|]. intros. lia.
Qed.

Lemma run_ops_total m ops l l' :
  run_ops m l ops = Some l' ->
  eq64 (total_balance (balances l')) (total_balance (balances l) + sum_deposits ops) /\
  (m = Debug -> Forall (fun op => 0 <= deposited op < 2 ^ 63) ops ->
   total_balance (balances l') = total_balance (balances l) + sum_deposits ops).
Proof.
  revert l. induction ops as [|op ops IH]; intros l; unfold sum_deposits; simpl.
  - intros [= <-]. rewrite Z.add_0_r. done.
  - destruct (ledger_step m l op) as [l1|] eqn:E; [|done]. intros Hr.
    apply ledger_step_total in E as [E1 E2]. destruct (IH _ Hr) as [H1 H2]. split.
    + rewrite H1, E1. unfold eq64, sum_deposits. f_equal. lia.
    + intros Hm Hf. inversion Hf as [|? ? Hd Hf']. rewrite H2, E2 by done. unfold sum_deposits. lia.
Qed.


(** *** Transfers *)

Lemma balance_set l account v a : balance (set_balance l account v) a = if decide (account = a) then v else balance l a.
Proof.
  unfold balance, set_balance. simpl. destruct (decide (account = a)) as [<-|].
  - by rewrite lookup_insert_eq.
  - by rewrite lookup_insert_ne.
Qed.

Lemma balance_push l tx a : balance (push_tx l tx) a = balance l a.
Proof. done. Qed.

(** The effect of moving [v] (the amount after its cast), when it fits. *)
Lemma transfer_apply_exact m now ty l from to amount d :
  from <> to ->
  in_i64 (balance l from - as_i64 amount) -> in_i64 (balance l to + as_i64 amount) ->
  exists l', transfer_apply m now ty l from to amount d
             = Some (l', mkTransaction (generate_tx_id now) from to amount d now ty) /\
    credit_limits l' = credit_limits l /\
    forall a, balance l' a = if decide (a = from) then balance l from - as_i64 amount
                             else if decide (a = to) then balance l to + as_i64 amount else balance l a.
Proof.
  intros Hne H1 H2. unfold transfer_apply, debit, credit, sub_i64.
  rewrite (add_i64_in m (balance l from)) by (by rewrite Z.add_opp_r).
  rewrite balance_set, decide_False by done. rewrite add_i64_in by done. eexists. split; [done|]. split; [done|].
  intros a. rewrite balance_push, !balance_set.
  repeat case_decide; subst; congruence || lia || done.
Qed.

Definition credit_of (l : Ledger) (a : string) : Z := default 0 (credit_limits l !! a).

(** A transfer between two accounts of an amount that fits an [i64] is
    all or nothing: it succeeds exactly when the sender's balance plus credit
    covers it, and then moves exactly the amount, leaving every other account
    alone and the sender within its credit; otherwise nothing changes. *)
Theorem transfer_spec m now l from to amount d :
  from <> to -> 0 <= amount < 2 ^ 63 -> 0 <= credit_of l from < 2 ^ 63 ->
  in_i64 (balance l from + credit_of l from) -> in_i64 (balance l from - amount) -> in_i64 (balance l to + amount) ->
  if amount <=? balance l from + credit_of l from
  then exists l' tx, transfer m now l from to amount d = Some (l', Ok tx) /\
         0 <= balance l' from + credit_of l' from /\ tx ∈ history l' from /\ tx ∈ history l' to /\
         forall a, balance l' a = if decide (a = from) then balance l from - amount
                                  else if decide (a = to) then balance l to + amount else balance l a
  else transfer m now l from to amount d = Some (l, Err InsufficientFunds).
Proof.
  intros Hne Ha Hc Hav Hf Ht. unfold transfer, move, transfer_check, available. fold (credit_of l from).
  rewrite (as_i64_small (credit_of l from)), add_i64_in, (as_i64_small amount) by done.
  destruct (Z.leb_spec amount (balance l from + credit_of l from)) as [Hle|Hlt].
  2: { by rewrite (proj2 (Z.ltb_lt _ _)) by lia. }
  rewrite (proj2 (Z.ltb_ge _ _)) by lia. cbn [negb].
  destruct (transfer_apply_exact m now Transfer l from to amount d) as (l' & E & Hcl & Hb);
    rewrite ?as_i64_small by done; try done.
  rewrite E. eexists _, _. split; [done|]. rewrite as_i64_small in Hb by done. split_and!.
  - unfold credit_of in *. rewrite Hcl, Hb, decide_True by done. lia.
  - unfold transfer_apply in E. repeat case_match; simplify_eq/=.
    unfold history. simpl. apply list_elem_of_In, filter_In. simpl. rewrite in_app_iff, bool_decide_eq_true_2 by done.
    split; [right; by left|done].
  - unfold transfer_apply in E. repeat case_match; simplify_eq/=.
    unfold history. simpl. apply list_elem_of_In, filter_In. simpl. rewrite in_app_iff, (bool_decide_eq_true_2 (to = to)) by done.
    split; [right; by left|]. by rewrite orb_true_r.
  - done.
Qed.

(** The cast to [i64] turns a huge transfer around: for any [k], asking
    to send 2^64 - k tokens passes the funds check of an account with none and
    moves [k] tokens from the recipient to the sender. *)
Theorem huge_transfer_takes m now l from to k d :
  from <> to -> 1 <= k <= 2 ^ 63 -> credit_of l from = 0 ->
  0 <= balance l from -> in_i64 (balance l from + k) -> in_i64 (balance l to - k) ->
  exists l' tx, transfer m now l from to (2 ^ 64 - k) d = Some (l', Ok tx) /\
    balance l' from = balance l from + k /\ balance l' to = balance l to - k.
Proof.
  intros Hne Hk Hc Hb Hf Ht.
  assert (as_i64 (2 ^ 64 - k) = - k) as Has.
  { unfold as_i64, wrap_i64. replace (2 ^ 64 - k + 2 ^ 63) with ((2 ^ 63 - k) + 1 * 2 ^ 64) by lia.
    rewrite Z.mod_add, Z.mod_small by lia. lia. }
  unfold transfer, move, transfer_check, available. fold (credit_of l from). rewrite Hc, Has.
  rewrite (as_i64_small 0) by lia.
  rewrite add_i64_in; [|unfold in_i64, i64_min, i64_max in *; lia].
  rewrite Z.add_0_r, (proj2 (Z.ltb_ge _ _)) by lia. cbn [negb].
  destruct (transfer_apply_exact m now Transfer l from to (2 ^ 64 - k) d) as (l' & -> & _ & Hbal);
    rewrite ?Has; try done.
  { by replace (balance l from - - k) with (balance l from + k) by lia. }
  eexists _, _. split; [done|]. rewrite !Hbal, Has, decide_True, decide_False, decide_True by done. lia.
Qed.

(** The check and the effect of a transfer are not atomic: two transfers
    of an account's whole balance can both pass their check before either is
    applied, and then the account is overdrawn without any credit. *)
Theorem concurrent_transfers_overdraw m now l from to1 to2 amount d :
  from <> to1 -> from <> to2 -> 0 < amount < 2 ^ 62 -> balance l from = amount -> credit_of l from = 0 ->
  in_i64 (balance l to1 + amount) -> in_i64 (balance l to2 + 2 * amount) -> in_i64 (balance l to2 + amount) ->
  transfer_check m l from amount = Some true /\
  exists l1 tx1 l2 tx2,
    transfer_apply m now Transfer l from to1 amount d = Some (l1, tx1) /\
    transfer_apply m now Transfer l1 from to2 amount d = Some (l2, tx2) /\
    balance l2 from = - amount /\ credit_of l2 from = 0.
Proof.
  intros H1 H2 Ha Hb Hc Hr1 Hr2 Hr3.
  assert (as_i64 amount = amount) as Has by (apply as_i64_small; lia). split.
  - unfold transfer_check, available. fold (credit_of l from). rewrite Hc, Hb, (as_i64_small 0), Has by lia.
    rewrite add_i64_in by (unfold in_i64, i64_min, i64_max; lia).
    rewrite Z.add_0_r, Z.ltb_irrefl. done.
  - destruct (transfer_apply_exact m now Transfer l from to1 amount d) as (l1 & E1 & Hcl1 & Hb1);
      rewrite ?Has, ?Hb; try done; [unfold in_i64, i64_min, i64_max; lia|].
    rewrite Has, Hb in Hb1.
    assert (balance l1 from = 0) as Hb1f by (rewrite Hb1, decide_True by done; lia).
    destruct (transfer_apply_exact m now Transfer l1 from to2 amount d) as (l2 & E2 & Hcl2 & Hb2);
      rewrite ?Has, ?Hb1f; try done; [unfold in_i64, i64_min, i64_max; lia| |].
    { rewrite Hb1, decide_False by done. destruct (decide (to2 = to1)) as [->|]; [|done].
      by replace (balance l to1 + amount + amount) with (balance l to1 + 2 * amount) by lia. }
    exists l1, (mkTransaction (generate_tx_id now) from to1 amount d now Transfer), l2,
      (mkTransaction (generate_tx_id now) from to2 amount d now Transfer).
    split_and!; try done; [rewrite Hb2, decide_True, Has by done; lia|].
    unfold credit_of in *. by rewrite Hcl2, Hcl1.
Qed.

(** ** Instances of the theorems *)

Module LedgerExamples.

Definition ops1 : list ledger_op :=
  [OpDeposit 1 "alice" 100 "top up"; OpTransfer 2 "alice" "bob" 30 "rent"; OpSetCredit "bob" 50;
   OpPay 3 "bob" "carol" 70 "compute"; OpTransfer 4 "carol" "bob" 500 "refused"].

Definition ledger1 : Ledger := default Ledger_new (run_ops Debug Ledger_new ops1).


(** 100 tokens for alice, 10 for bob. *)
Definition ledger2 : Ledger := mkLedger {["alice"%string := 100; "bob"%string := 10]} ∅ [].

Lemma transfer_spec_witness :
  exists l' tx, transfer Debug 5 ledger2 "alice" "bob" 60 "rent" = Some (l', Ok tx) /\
    0 <= balance l' "alice" + credit_of l' "alice" /\ tx ∈ history l' "alice" /\ tx ∈ history l' "bob" /\
    forall a, balance l' a = if decide (a = "alice"%string) then 100 - 60
                             else if decide (a = "bob"%string) then 10 + 60 else balance ledger2 a.
Proof.
  refine (transfer_spec Debug 5 ledger2 "alice" "bob" 60 "rent" _ _ _ _ _ _);
    [discriminate|lia|vm_compute; split; (discriminate || reflexivity)..].
Defined.

(** bob, with 10 tokens, takes alice's 100. *)
Lemma huge_transfer_takes_witness :
  exists l' tx, transfer Release 5 ledger2 "bob" "alice" (2 ^ 64 - 100) "thanks" = Some (l', Ok tx) /\
    balance l' "bob" = 10 + 100 /\ balance l' "alice" = 100 - 100.
Proof.
  refine (huge_transfer_takes Release 5 ledger2 "bob" "alice" 100 "thanks" _ _ _ _ _ _);
    [discriminate|lia|reflexivity|vm_compute; discriminate|vm_compute; split; (discriminate || reflexivity)..].
Defined.

Lemma concurrent_transfers_overdraw_witness :
  transfer_check Debug ledger2 "alice" 100 = Some true /\
  exists l1 tx1 l2 tx2,
    transfer_apply Debug 5 Transfer ledger2 "alice" "bob" 100 "a" = Some (l1, tx1) /\
    transfer_apply Debug 5 Transfer l1 "alice" "carol" 100 "a" = Some (l2, tx2) /\
    balance l2 "alice" = - 100 /\ credit_of l2 "alice" = 0.
Proof.
  apply (concurrent_transfers_overdraw Debug 5 ledger2 "alice" "bob" "carol" 100 "a");
    [discriminate|discriminate|lia|reflexivity|reflexivity|vm_compute; split; discriminate..].
Defined.

End LedgerExamples.
