(* ===== verification/Channels.v ===== *)
(** * Channels: streaming micropayments (headscale-payments/src/channels.rs)

    Payment channels by id, with the sender's running total against the
    capacity.  The clock is an argument; an operation returns [None] where the
    build profile makes its arithmetic panic. *)

From S2P Require Import Prelude Net.
From stdpp Require Import base list gmap strings.
From Stdlib Require Import ZArith Lia.

Open Scope Z_scope.
Open Scope rust_scope.

Inductive ChannelStatus := ChOpen | ChClosing | ChClosed | ChDisputed.

#[export] Instance ChannelStatus_eq_dec : EqDecision ChannelStatus.
Proof. solve_decision. Defined.

Record ChannelState := mkChannel {
  ch_id : string;
  ch_sender : string;
  ch_receiver : string;
  ch_capacity : Z;
  ch_sent : Z;
  ch_received : Z;
  ch_state : ChannelStatus;
  ch_created_at : Z;
  ch_last_update : Z;
}.

Inductive ChannelError := ChNotFound | ChNotOpen | ChInsufficientCapacity.

Definition PaymentChannel := gmap string ChannelState.

Definition PaymentChannel_new : PaymentChannel := ∅.

Definition generate_channel_id (now : Z) : string := "channel_" ++ show_dec now.

Definition ch_open (now : Z) (c : PaymentChannel) (sender receiver : string) (capacity : Z)
  : PaymentChannel * result string ChannelError :=
  let id := generate_channel_id now in
  (<[id := mkChannel id sender receiver capacity 0 0 ChOpen now now]> c, Ok id).

(** [channel.sent + amount > channel.capacity], [sent += amount], [received += amount]. *)
Definition ch_send (m : profile) (now : Z) (c : PaymentChannel) (id : string) (amount : Z)
  : option (PaymentChannel * result Z ChannelError) :=
  match c !! id with
  | None => Some (c, Err ChNotFound)
  | Some ch =>
      if negb (bool_decide (ch_state ch = ChOpen)) then Some (c, Err ChNotOpen)
      else
        match add_u m 64 (ch_sent ch) amount with
        | None => None
        | Some sum =>
            if ch_capacity ch <? sum then Some (c, Err ChInsufficientCapacity)
            else
              match add_u m 64 (ch_received ch) amount with
              | None => None
              | Some received =>
                  Some (<[id := mkChannel (ch_id ch) (ch_sender ch) (ch_receiver ch) (ch_capacity ch) sum received
                                  (ch_state ch) (ch_created_at ch) now]> c, Ok sum)
              end
        end
  end.

(** [capacity - sent]; [None] is the debug profile's underflow panic. *)
Definition ch_balance (m : profile) (c : PaymentChannel) (id : string) : option (result (Z * Z) ChannelError) :=
  match c !! id with
  | None => Some (Err ChNotFound)
  | Some ch =>
      if ch_sent ch <=? ch_capacity ch then Some (Ok (ch_capacity ch - ch_sent ch, ch_received ch))
      else match m with
           | Debug => None
           | Release => Some (Ok ((ch_capacity ch - ch_sent ch) `mod` 2 ^ 64, ch_received ch))
           end
  end.

Definition ch_close (now : Z) (c : PaymentChannel) (id : string) : PaymentChannel * result ChannelState ChannelError :=
  match c !! id with
  | None => (c, Err ChNotFound)
  | Some ch =>
      let ch' := mkChannel (ch_id ch) (ch_sender ch) (ch_receiver ch) (ch_capacity ch) (ch_sent ch) (ch_received ch)
                   ChClosed (ch_created_at ch) now in
      (<[id := ch']> c, Ok ch')
  end.

Definition ch_get (c : PaymentChannel) (id : string) : option ChannelState := c !! id.

(** ** Theorems *)

Inductive channel_op :=
| COpen (now : Z) (sender receiver : string) (capacity : Z)
| CSend (now : Z) (id : string) (amount : Z)
| CClose (now : Z) (id : string).

Definition channel_op_ok (op : channel_op) : Prop :=
  match op with
  | COpen _ _ _ capacity => in_u 64 capacity
  | CSend _ _ amount => in_u 64 amount
  | CClose _ _ => True
  end.

Definition channel_step (m : profile) (c : PaymentChannel) (op : channel_op) : option PaymentChannel :=
  match op with
  | COpen now s r capacity => Some (ch_open now c s r capacity).1
  | CSend now id amount => fst <$> ch_send m now c id amount
  | CClose now id => Some (ch_close now c id).1
  end.

(** Every channel state reachable by the operations. *)
Inductive channel_reachable (m : profile) : PaymentChannel -> Prop :=
| cr_new : channel_reachable m PaymentChannel_new
| cr_step c op c' : channel_reachable m c -> channel_op_ok op -> channel_step m c op = Some c' ->
    channel_reachable m c'.

Definition channel_ok (ch : ChannelState) : Prop :=
  0 <= ch_sent ch <= ch_capacity ch /\ ch_received ch = ch_sent ch /\ in_u 64 (ch_capacity ch).

Lemma channel_step_ok m c op c' :
  map_Forall (fun _ => channel_ok) c -> channel_op_ok op -> channel_step m c op = Some c' ->
  map_Forall (fun _ => channel_ok) c'.
Proof.
  intros Hc Hop. destruct op as [now s r cap|now id amount|now id]; simpl in *.
  - intros [= <-]. apply map_Forall_insert_2; [|done]. unfold channel_ok, in_u in *. simpl. split_and!; lia.
  - unfold ch_send. destruct (c !! id) as [ch|] eqn:E; [|by intros [= <-]].
    case_bool_decide; simpl; [|by intros [= <-]].
    destruct (Hc id ch E) as (Hs & Hr & Hu). rewrite Hr.
    destruct (add_u m 64 (ch_sent ch) amount) as [sum|] eqn:Es; [|done].
    destruct (Z.ltb_spec (ch_capacity ch) sum) as [|Hle]; [by intros [= <-]|]. intros [= <-].
    apply map_Forall_insert_2; [|done]. unfold channel_ok. simpl. split_and!; try done; try apply Hu.
    destruct m; simpl in Es.
    + apply checked_add_Some in Es as [-> _]. unfold in_u in *. lia.
    + injection Es as <-. pose proof (wrapping_add_range 64 (ch_sent ch) amount ltac:(lia)) as [? _]. done.
  - intros [= <-]. unfold ch_close. destruct (c !! id) as [ch|] eqn:E; [|done].
    apply map_Forall_insert_2; [|done]. exact (Hc id ch E).
Qed.

Lemma channel_reachable_ok m c : channel_reachable m c -> map_Forall (fun _ => channel_ok) c.
Proof.
  induction 1 as [|c op c' _ IH Hop Hstep]; [apply map_Forall_empty|]. eauto using channel_step_ok.
Qed.

(** A channel never owes more than its capacity: in every reachable state,
    in both build profiles, what was sent is what was received and at most the
    capacity, so [balance] is exact and does not underflow. *)
Theorem channel_within_capacity m c id ch :
  channel_reachable m c -> c !! id = Some ch ->
  0 <= ch_sent ch <= ch_capacity ch /\ ch_received ch = ch_sent ch /\
  ch_balance m c id = Some (Ok (ch_capacity ch - ch_sent ch, ch_sent ch)).
Proof.
  intros Hreach Hid. destruct (channel_reachable_ok m c Hreach id ch Hid) as (Hs & Hr & _). split_and!; try done; try lia.
  unfold ch_balance. rewrite Hid, (proj2 (Z.leb_le _ _)), Hr by lia. done.
Qed.

(** Without overflow checks a channel can be rewound: in the release
    profile a payment of 2^64 - r, for any [r] up to what was already sent, is
    accepted and takes [r] back from both totals, so the capacity can be spent
    again; with overflow checks the same call panics. *)
Theorem channel_rewound now c id ch r :
  c !! id = Some ch -> ch_state ch = ChOpen -> channel_ok ch -> 1 <= r <= ch_sent ch ->
  ch_send Debug now c id (2 ^ 64 - r) = None /\
  exists c' ch', ch_send Release now c id (2 ^ 64 - r) = Some (c', Ok (ch_sent ch - r)) /\
    c' !! id = Some ch' /\ ch_sent ch' = ch_sent ch - r /\ ch_received ch' = ch_received ch - r.
Proof.
  intros Hid Hst (Hs & Hr & Hu) Hk. unfold in_u, u_max in Hu.
  assert (wrapping_add 64 (ch_sent ch) (2 ^ 64 - r) = ch_sent ch - r) as Hw.
  { unfold wrapping_add. replace (ch_sent ch + (2 ^ 64 - r)) with (ch_sent ch - r + 1 * 2 ^ 64) by lia.
    rewrite Z.mod_add, Z.mod_small by lia. done. }
  unfold ch_send. rewrite Hid, bool_decide_eq_true_2 by done. cbn [negb add_u]. split.
  - rewrite (proj2 (checked_add_None _ _ _)); [done|]. unfold u_max. lia.
  - rewrite Hr, Hw, (proj2 (Z.ltb_ge _ _)) by lia. eexists _, _. split; [reflexivity|].
    split; [apply lookup_insert_eq|done].
Qed.

(** ** Instances of the theorems *)

Module ChannelExamples.

Definition id1 : string := generate_channel_id 7.
Definition c1 : PaymentChannel := (ch_open 7 PaymentChannel_new "alice" "bob" 100).1.
Definition ch1 : ChannelState := mkChannel id1 "alice" "bob" 100 60 60 ChOpen 7 8.

Lemma c2_reachable m : channel_reachable m (<[id1 := ch1]> c1).
Proof.
  eapply (cr_step m c1 (CSend 8 id1 60)).
  - eapply (cr_step m _ (COpen 7 "alice" "bob" 100)); [apply cr_new| |reflexivity].
    vm_compute. split; discriminate.
  - vm_compute. split; discriminate.
  - unfold channel_step, ch_send. replace (c1 !! id1) with (Some (mkChannel id1 "alice" "bob" 100 0 0 ChOpen 7 7));
      [by destruct m|]. symmetry. apply lookup_insert_eq.
Qed.

Lemma channel_within_capacity_witness :
  0 <= 60 <= 100 /\ ch_received ch1 = 60 /\ ch_balance Debug (<[id1 := ch1]> c1) id1 = Some (Ok (100 - 60, 60)).
Proof.
  apply (channel_within_capacity Debug _ id1 ch1 (c2_reachable Debug)). apply lookup_insert_eq.
Defined.

Lemma channel_rewound_witness :
  ch_send Debug 9 (<[id1 := ch1]> c1) id1 (2 ^ 64 - 60) = None /\
  exists c' ch', ch_send Release 9 (<[id1 := ch1]> c1) id1 (2 ^ 64 - 60) = Some (c', Ok (60 - 60)) /\
    c' !! id1 = Some ch' /\ ch_sent ch' = 60 - 60 /\ ch_received ch' = 60 - 60.
Proof.
  apply (channel_rewound 9 (<[id1 := ch1]> c1) id1 ch1 60).
  - apply lookup_insert_eq.
  - reflexivity.
  - vm_compute. split_and!; (discriminate || reflexivity).
  - vm_compute. split; discriminate.
Defined.

End ChannelExamples.
