(* ===== verification/Escrow.v ===== *)
(** * Escrow: work bounties (headscale-payments/src/escrow.rs)

    Escrow records over the ledger: a bounty is moved to the escrow's account,
    released by milestones to the recipients by share, or refunded.  The state
    is the ledger and the records; the records' lock is held for a whole call.
    [None] is a panic of the build profile's checked arithmetic. *)

From S2P Require Import Prelude Net Ledger.
From stdpp Require Import base list gmap strings.
From Stdlib Require Import ZArith Lia.

Open Scope Z_scope.
Open Scope rust_scope.

Inductive EscrowState := Funded | EsActive | PendingVerification | Released | Disputed | Refunded.

#[export] Instance EscrowState_eq_dec : EqDecision EscrowState.
Proof. solve_decision. Defined.

Record Milestone := mkMilestone {
  mi_description : string;
  mi_percentage : Z;
  mi_completed : bool;
  mi_verified_by : option string;
}.

Record EscrowRecord := mkEscrow {
  es_id : string;
  es_work_id : string;
  es_funder : string;
  es_recipients : list (string * Z);
  es_total : Z;
  es_released : Z;
  es_state : EscrowState;
  es_created_at : Z;
  es_milestones : list Milestone;
}.

Record Escrow := mkEscrowManager { es_ledger : Ledger; escrows : gmap string EscrowRecord }.

Inductive EscrowError :=
| EsNotFound
| AlreadyClosed
| EsInsufficientFunds
| InvalidShares
| InvalidMilestones
| InvalidMilestone
| MilestoneAlreadyReleased
| TransferFailed.

(** [a - b] on [u64]. *)
Definition sub_u64 (m : profile) (a b : Z) : option Z :=
  match m with
  | Debug => if b <=? a then Some (a - b) else None
  | Release => Some ((a - b) `mod` 2 ^ 64)
  end.

(** [sum()] of [u8]s. *)
Definition sum_u8 (m : profile) (l : list Z) : option Z :=
  fold_left (fun acc n => match acc with Some a => add_u m 8 a n | None => None end) l (Some 0).

Definition Escrow_new (l : Ledger) : Escrow := mkEscrowManager l ∅.

Definition generate_escrow_id (now : Z) : string := "escrow_" ++ show_dec now.
Definition escrow_account (id : string) : string := "escrow:" ++ id.

Definition create (m : profile) (now : Z) (e : Escrow) (work_id funder : string) (recipients : list (string * Z))
    (total : Z) (milestones : list Milestone) : option (Escrow * result string EscrowError) :=
  match sum_u8 m (map snd recipients) with
  | None => None
  | Some total_shares =>
      if negb (total_shares =? 100) then Some (e, Err InvalidShares)
      else match sum_u8 m (map mi_percentage milestones) with
           | None => None
           | Some total_milestone =>
               if negb (total_milestone =? 100) then Some (e, Err InvalidMilestones)
               else
                 let escrow_id := generate_escrow_id now in
                 match transfer m now (es_ledger e) funder (escrow_account escrow_id) total
                         ("Escrow for work " ++ work_id) with
                 | None => None
                 | Some (l, Err _) => Some (mkEscrowManager l (escrows e), Err EsInsufficientFunds)
                 | Some (l, Ok _) =>
                     let record := mkEscrow escrow_id work_id funder recipients total 0 Funded now milestones in
                     Some (mkEscrowManager l (<[escrow_id := record]> (escrows e)), Ok escrow_id)
                 end
           end
  end.

(** The distribution loop: it stops at the first failed transfer. *)
Fixpoint distribute (m : profile) (now : Z) (l : Ledger) (account : string) (recipients : list (string * Z))
    (amount : Z) (description : string) : option (Ledger * result unit EscrowError) :=
  match recipients with
  | [] => Some (l, Ok tt)
  | (recipient, share) :: rest =>
      match mul_u m 64 amount share with
      | None => None
      | Some p =>
          match transfer m now l account recipient (p / 100) description with
          | None => None
          | Some (l', Err _) => Some (l', Err TransferFailed)
          | Some (l', Ok _) => distribute m now l' account rest amount description
          end
      end
  end.

Definition complete (verifier : string) (mi : Milestone) : Milestone :=
  mkMilestone (mi_description mi) (mi_percentage mi) true (Some verifier).

Definition with_progress (r : EscrowRecord) (released : Z) (st : EscrowState) (ms : list Milestone) : EscrowRecord :=
  mkEscrow (es_id r) (es_work_id r) (es_funder r) (es_recipients r) (es_total r) released st (es_created_at r) ms.

Definition put (e : Escrow) (l : Ledger) (id : string) (r : EscrowRecord) : Escrow :=
  mkEscrowManager l (<[id := r]> (escrows e)).

Definition release_milestone (m : profile) (now : Z) (e : Escrow) (id : string) (index : nat) (verifier : string)
  : option (Escrow * result Z EscrowError) :=
  match escrows e !! id with
  | None => Some (e, Err EsNotFound)
  | Some r =>
      if bool_decide (es_state r = Released) || bool_decide (es_state r = Refunded) then Some (e, Err AlreadyClosed)
      else match es_milestones r !! index with
           | None => Some (e, Err InvalidMilestone)
           | Some mi =>
               if mi_completed mi then Some (e, Err MilestoneAlreadyReleased)
               else
                 let ms := <[index := complete verifier mi]> (es_milestones r) in
                 match mul_u m 64 (es_total r) (mi_percentage mi) with
                 | None => None
                 | Some p =>
                     let amount := p / 100 in
                     match add_u m 64 (es_released r) amount with
                     | None => None
                     | Some released =>
                         let r1 := with_progress r released EsActive ms in
                         match distribute m now (es_ledger e) (escrow_account id) (es_recipients r) amount
                                 ("Milestone " ++ show_dec (Z.of_nat index) ++ " release for work " ++ es_work_id r) with
                         | None => None
                         | Some (l, Err err) => Some (put e l id r1, Err err)
                         | Some (l, Ok _) =>
                             let r2 := if es_total r <=? released then with_progress r released Released ms else r1 in
                             Some (put e l id r2, Ok amount)
                         end
                     end
                 end
           end
  end.

Definition release_all (m : profile) (now : Z) (e : Escrow) (id : string) (verifier : string)
  : option (Escrow * result Z EscrowError) :=
  match escrows e !! id with
  | None => Some (e, Err EsNotFound)
  | Some r =>
      if bool_decide (es_state r = Released) || bool_decide (es_state r = Refunded) then Some (e, Err AlreadyClosed)
      else match sub_u64 m (es_total r) (es_released r) with
           | None => None
           | Some remaining =>
               let ms := map (fun mi => if mi_completed mi then mi else complete verifier mi) (es_milestones r) in
               let r1 := with_progress r (es_total r) Released ms in
               match distribute m now (es_ledger e) (escrow_account id) (es_recipients r) remaining
                       ("Final release for work " ++ es_work_id r) with
               | None => None
               | Some (l, Err err) => Some (put e l id r1, Err err)
               | Some (l, Ok _) => Some (put e l id r1, Ok remaining)
               end
           end
  end.

Definition refund (m : profile) (now : Z) (e : Escrow) (id : string) : option (Escrow * result Z EscrowError) :=
  match escrows e !! id with
  | None => Some (e, Err EsNotFound)
  | Some r =>
      if bool_decide (es_state r = Released) then Some (e, Err AlreadyClosed)
      else match sub_u64 m (es_total r) (es_released r) with
           | None => None
           | Some remaining =>
               let r1 := with_progress r (es_released r) Refunded (es_milestones r) in
               match transfer m now (es_ledger e) (escrow_account id) (es_funder r) remaining
                       ("Refund for work " ++ es_work_id r) with
               | None => None
               | Some (l, Err _) => Some (put e l id r1, Err TransferFailed)
               | Some (l, Ok _) => Some (put e l id r1, Ok remaining)
               end
           end
  end.

Definition status (e : Escrow) (id : string) : option EscrowRecord := escrows e !! id.

(** ** Theorems *)

(** *** Rounding *)

(** Percentages of a total, each rounded down, never exceed the total. *)
Definition share_sum (total : Z) (l : list Z) : Z := fold_right Z.add 0 (map (fun p => total * p / 100) l).

Definition pct_sum (l : list Z) : Z := fold_right Z.add 0 l.

Lemma share_sum_bound total l :
  0 <= total -> Forall (fun p => 0 <= p) l -> 0 <= share_sum total l /\ 100 * share_sum total l <= total * pct_sum l.
Proof.
  intros Ht. induction 1 as [|p l Hp _ [IH1 IH2]]; unfold share_sum, pct_sum in *; simpl; [lia|].
  pose proof (Z.mul_div_le (total * p) 100 ltac:(lia)). pose proof (Z.div_pos (total * p) 100 ltac:(nia) ltac:(lia)).
  nia.
Qed.

(** *** What a record promises *)

(** The amounts of the completed milestones. *)
Definition completed_sum (total : Z) (ms : list Milestone) : Z :=
  fold_right Z.add 0 (map (fun mi => if mi_completed mi then total * mi_percentage mi / 100 else 0) ms).

Record record_ok (r : EscrowRecord) : Prop := {
  ro_total : 0 <= es_total r;
  ro_pct : Forall (fun mi => 0 <= mi_percentage mi) (es_milestones r);
  ro_pct_sum : pct_sum (map mi_percentage (es_milestones r)) = 100;
  ro_shares : Forall (fun p => 0 <= p) (map snd (es_recipients r));
  ro_share_sum : pct_sum (map snd (es_recipients r)) = 100;
  ro_released : es_released r = completed_sum (es_total r) (es_milestones r) \/
                (es_released r = es_total r /\ es_state r = Released);
}.

Lemma completed_sum_bound total ms :
  0 <= total -> Forall (fun mi => 0 <= mi_percentage mi) ms ->
  0 <= completed_sum total ms <= share_sum total (map mi_percentage ms).
Proof.
  intros Ht. induction 1 as [|mi ms Hp _ IH]; unfold completed_sum, share_sum in *; simpl; [lia|].
  pose proof (Z.div_pos (total * mi_percentage mi) 100 ltac:(nia) ltac:(lia)). destruct (mi_completed mi); lia.
Qed.

Lemma record_ok_released r : record_ok r -> 0 <= es_released r <= es_total r.
Proof.
  intros [Ht Hp Hps _ _ [->|[-> _]]]; [|lia].
  pose proof (completed_sum_bound (es_total r) (es_milestones r) Ht Hp).
  destruct (share_sum_bound (es_total r) (map mi_percentage (es_milestones r)) Ht) as [_ Hb].
  { by apply Forall_map. }
  rewrite Hps in Hb. lia.
Qed.

Lemma completed_sum_insert total ms i mi v :
  ms !! i = Some mi -> mi_completed mi = false ->
  completed_sum total (<[i := complete v mi]> ms) = completed_sum total ms + total * mi_percentage mi / 100 /\
  map mi_percentage (<[i := complete v mi]> ms) = map mi_percentage ms.
Proof.
  unfold completed_sum. revert i. induction ms as [|x ms IH]; intros [|i]; simpl; try done.
  - intros [= ->] ->. split; [lia|done].
  - intros Hi Hc. destruct (IH i Hi Hc) as [H1 H2]. rewrite H1, H2. split; [lia|done].
Qed.

Lemma Forall_pct_map (l k : list Milestone) :
  map mi_percentage l = map mi_percentage k ->
  Forall (fun mi => 0 <= mi_percentage mi) k -> Forall (fun mi => 0 <= mi_percentage mi) l.
Proof. intros E Hk. apply (List.Forall_map mi_percentage (fun p => 0 <= p)). rewrite E. by apply List.Forall_map. Qed.

(** *** The ledger side *)

(** A transfer of a non-negative amount takes at most the amount. *)
Lemma transfer_takes_at_most now l from to amount d l' r :
  0 <= amount < 2 ^ 63 -> transfer Debug now l from to amount d = Some (l', r) ->
  balance l from - amount <= balance l' from.
Proof.
  intros Ha. unfold transfer, move, transfer_apply. destruct (transfer_check _ _ _ _) as [[]|]; [|by intros [= <- <-]; lia|done].
  rewrite as_i64_small by done. unfold debit, credit, sub_i64.
  destruct (add_i64 Debug (balance l from) (- amount)) as [b|] eqn:E1; [|done].
  apply add_i64_Some in E1 as (_ & _ & E1). specialize (E1 eq_refl). subst b.
  destruct (add_i64 Debug (balance (set_balance l from (balance l from + - amount)) to) amount) as [b2|] eqn:E2; [|done].
  apply add_i64_Some in E2 as (_ & _ & E2). specialize (E2 eq_refl). subst b2.
  intros [= <- <-]. rewrite balance_push, !balance_set.
  repeat case_decide; subst; try congruence; lia.
Qed.

Lemma mul_u_Debug a b p : mul_u Debug 64 a b = Some p -> p = a * b /\ a * b <= u_max 64.
Proof. simpl. destruct (Z.leb_spec (a * b) (u_max 64)); [|done]. by intros [= <-]. Qed.

Lemma distribute_takes_at_most now l account recipients amount d l' r :
  0 <= amount -> Forall (fun p => 0 <= p) (map snd recipients) ->
  distribute Debug now l account recipients amount d = Some (l', r) ->
  balance l account - share_sum amount (map snd recipients) <= balance l' account.
Proof.
  intros Ha. revert l. induction recipients as [|[to share] rest IH]; intros l Hs; simpl.
  - intros [= <- <-]. unfold share_sum. simpl. lia.
  - inversion Hs as [|? ? Hshare Hrest]; subst.
    destruct (share_sum_bound amount (map snd rest) Ha Hrest) as [Hnn _].
    destruct (Z.leb_spec (amount * share) (u_max 64)) as [Hu|]; [|done].
    assert (0 <= amount * share / 100 < 2 ^ 63) as Hr.
    { unfold u_max in Hu. split; [apply Z.div_pos; nia|]. apply Z.div_lt_upper_bound; lia. }
    destruct (transfer Debug now l account to _ d) as [[l1 [tx|err]]|] eqn:E; [|..|done];
      apply transfer_takes_at_most in E; try done; unfold share_sum in *; simpl.
    + intros Hd. specialize (IH l1 Hrest Hd). lia.
    + intros [= <- <-]. lia.
Qed.

(** *** Reachable escrows *)

Inductive escrow_op :=
| ECreate (work_id funder : string) (recipients : list (string * Z)) (total : Z) (milestones : list Milestone)
| ERelease (id : string) (index : nat) (verifier : string)
| EReleaseAll (id : string) (verifier : string)
| ERefund (id : string).

(** The types of the source: [u8] percentages and shares, [u64] totals, and
    milestones that are offered open. *)
Definition escrow_op_ok (op : escrow_op) : Prop :=
  match op with
  | ECreate _ _ recipients total milestones =>
      Forall (in_u 8) (map snd recipients) /\ in_u 64 total /\
      Forall (fun mi => in_u 8 (mi_percentage mi) /\ mi_completed mi = false) milestones
  | _ => True
  end.

Definition escrow_step (now : Z) (e : Escrow) (op : escrow_op) : option Escrow :=
  match op with
  | ECreate w f rs t ms => fst <$> create Debug now e w f rs t ms
  | ERelease id i v => fst <$> release_milestone Debug now e id i v
  | EReleaseAll id v => fst <$> release_all Debug now e id v
  | ERefund id => fst <$> refund Debug now e id
  end.

Inductive escrow_reachable : Escrow -> Prop :=
| er_new l : escrow_reachable (Escrow_new l)
| er_step now e op e' : escrow_reachable e -> escrow_op_ok op -> escrow_step now e op = Some e' -> escrow_reachable e'.

Lemma sum_u8_Debug_from l acc n :
  fold_left (fun acc n => match acc with Some a => add_u Debug 8 a n | None => None end) l (Some acc) = Some n ->
  n = acc + pct_sum l.
Proof.
  revert acc. induction l as [|x l IH]; intros acc; cbn [fold_left].
  - intros [= <-]. unfold pct_sum. simpl. lia.
  - unfold add_u at 2. destruct (checked_add 8 acc x) as [a|] eqn:E.
    + intros Hf. apply IH in Hf. apply checked_add_Some in E as [-> _]. unfold pct_sum in *. simpl. lia.
    + intros Hf. exfalso. clear IH E. induction l; simpl in Hf; [done|]. by apply IHl.
Qed.

Lemma create_record_ok now e w f rs t ms e' :
  escrow_op_ok (ECreate w f rs t ms) -> map_Forall (fun _ => record_ok) (escrows e) ->
  fst <$> create Debug now e w f rs t ms = Some e' -> map_Forall (fun _ => record_ok) (escrows e').
Proof.
  intros (Hrs & Ht & Hms) He. unfold create.
  destruct (sum_u8 Debug (map snd rs)) as [s1|] eqn:E1; [|done].
  destruct (Z.eqb_spec s1 100) as [->|]; [|by intros [= <-]]. cbn [negb].
  destruct (sum_u8 Debug (map mi_percentage ms)) as [s2|] eqn:E2; [|done].
  destruct (Z.eqb_spec s2 100) as [->|]; [|by intros [= <-]]. cbn [negb].
  destruct (transfer _ _ _ _ _ _ _) as [[l [tx|err]]|]; [|by intros [= <-]|done]. intros [= <-].
  apply map_Forall_insert_2; [|done].
  apply sum_u8_Debug_from in E1. apply sum_u8_Debug_from in E2. split; simpl; try lia.
  - apply Ht.
  - eapply Forall_impl; [exact Hms|]. intros mi [[? _] _]. done.
  - eapply Forall_impl; [exact Hrs|]. intros p [? _]. done.
  - left. unfold completed_sum. clear -Hms. induction Hms as [|mi ms [_ Hc] _ IH]; simpl; [done|].
    rewrite Hc. lia.
Qed.

(** Progress of a record by an amount its next milestone allows. *)
Lemma record_ok_milestone r i mi v st released :
  record_ok r -> es_state r <> Released -> es_milestones r !! i = Some mi -> mi_completed mi = false ->
  released = es_released r + es_total r * mi_percentage mi / 100 ->
  record_ok (with_progress r released st (<[i := complete v mi]> (es_milestones r))).
Proof.
  intros [Ht Hp Hps Hs Hss Hr] Hst Hi Hc ->.
  destruct (completed_sum_insert (es_total r) _ _ _ v Hi Hc) as [H1 H2]. split; simpl; try done.
  - by eapply Forall_pct_map.
  - by rewrite H2.
  - left. destruct Hr as [->|[_ ?]]; [|done]. by rewrite H1.
Qed.

(** What a call to [release_milestone] did, if it got past its checks. *)
Lemma release_milestone_inv now e id i v e' res :
  release_milestone Debug now e id i v = Some (e', res) ->
  (e' = e /\ exists err, res = Err err) \/
  exists r mi l released st,
    escrows e !! id = Some r /\ es_state r <> Released /\ es_milestones r !! i = Some mi /\ mi_completed mi = false /\
    released = es_released r + es_total r * mi_percentage mi / 100 /\
    (exists d u, distribute Debug now (es_ledger e) (escrow_account id) (es_recipients r)
                   (es_total r * mi_percentage mi / 100) d = Some (l, u)) /\
    e' = put e l id (with_progress r released st (<[i := complete v mi]> (es_milestones r))) /\
    (forall amount, res = Ok amount -> amount = es_total r * mi_percentage mi / 100).
Proof.
  unfold release_milestone. destruct (escrows e !! id) as [r|] eqn:Er; [|intros [= <- <-]; left; eauto].
  case_bool_decide as Hst; [intros [= <- <-]; left; eauto|].
  case_bool_decide as Hst2; [intros [= <- <-]; left; eauto|]. cbn [orb].
  destruct (es_milestones r !! i) as [mi|] eqn:Ei; [|intros [= <- <-]; left; eauto].
  destruct (mi_completed mi) eqn:Ec; [intros [= <- <-]; left; eauto|].
  destruct (mul_u Debug 64 (es_total r) (mi_percentage mi)) as [p|] eqn:Ep; [|done].
  apply mul_u_Debug in Ep as [-> _].
  destruct (add_u Debug 64 (es_released r) _) as [released|] eqn:Ea; [|done]. apply checked_add_Some in Ea as [-> _].
  destruct (distribute _ _ _ _ _ _ _) as [[l [u|err]]|] eqn:Ed; [|..|done]; intros [= <- <-]; right.
  - exists r, mi, l, (es_released r + es_total r * mi_percentage mi / 100),
      (if es_total r <=? es_released r + es_total r * mi_percentage mi / 100 then Released else EsActive).
    split_and!; eauto; [by case_match|]. by intros ? [= <-].
  - exists r, mi, l, (es_released r + es_total r * mi_percentage mi / 100), EsActive. split_and!; eauto. done.
Qed.

Lemma escrow_step_ok now e op e' :
  map_Forall (fun _ => record_ok) (escrows e) -> escrow_op_ok op -> escrow_step now e op = Some e' ->
  map_Forall (fun _ => record_ok) (escrows e').
Proof.
  intros He Hop. destruct op as [w f rs t ms|id i v|id v|id]; cbn [escrow_step].
  - by apply create_record_ok.
  - destruct (release_milestone _ _ _ _ _ _) as [[e1 res]|] eqn:E; [|done]. intros [= <-].
    apply release_milestone_inv in E as [[-> _]|(r & mi & l & released & st & Hr & Hst & Hi & Hc & Hrel & _ & -> & _)];
      [done|]. apply map_Forall_insert_2; [|done]. eapply record_ok_milestone; eauto.
  - unfold release_all. destruct (escrows e !! id) as [r|] eqn:Er; [|by intros [= <-]].
    case_match; [by intros [= <-]|]. destruct (sub_u64 _ _ _) as [remaining|]; [|done].
    assert (record_ok (with_progress r (es_total r) Released
              (map (fun mi => if mi_completed mi then mi else complete v mi) (es_milestones r)))) as Hok.
    { destruct (He id r Er) as [Ht Hp Hps Hs Hss Hrel].
      assert (map mi_percentage (map (fun mi => if mi_completed mi then mi else complete v mi) (es_milestones r))
              = map mi_percentage (es_milestones r)) as Em.
      { rewrite map_map. apply map_ext. intros mi. by destruct (mi_completed mi). }
      split; simpl; try done; [by eapply Forall_pct_map|by rewrite Em|by right]. }
    destruct (distribute _ _ _ _ _ _ _) as [[l [u|err]]|]; [|..|done]; intros [= <-];
      apply map_Forall_insert_2; done.
  - unfold refund. destruct (escrows e !! id) as [r|] eqn:Er; [|by intros [= <-]].
    case_bool_decide as Hst; [by intros [= <-]|]. destruct (sub_u64 _ _ _) as [remaining|]; [|done].
    assert (record_ok (with_progress r (es_released r) Refunded (es_milestones r))) as Hok.
    { destruct (He id r Er) as [Ht Hp Hps Hs Hss [Hrel|[_ ?]]]; [|done]. split; simpl; auto. }
    destruct (transfer _ _ _ _ _ _ _) as [[l [u|err]]|]; [|..|done]; intros [= <-];
      apply map_Forall_insert_2; done.
Qed.

Lemma escrow_reachable_ok e : escrow_reachable e -> map_Forall (fun _ => record_ok) (escrows e).
Proof. induction 1 as [l|now e op e' _ IH Hop Hstep]; [apply map_Forall_empty|]. eauto using escrow_step_ok. Qed.

(** An escrow never pays more than it holds: in every reachable state the
    released total is at most the bounty (rounding included), and releasing a
    milestone adds its amount to the released total once and takes at most that
    amount from the escrow's account. *)
Theorem escrow_never_overpays now e id r :
  escrow_reachable e -> escrows e !! id = Some r ->
  0 <= es_released r <= es_total r /\
  forall i v e' amount, release_milestone Debug now e id i v = Some (e', Ok amount) ->
    0 <= amount /\ es_released r + amount <= es_total r /\
    es_released <$> (escrows e' !! id) = Some (es_released r + amount) /\
    balance (es_ledger e) (escrow_account id) - amount <= balance (es_ledger e') (escrow_account id) /\
    release_milestone Debug now e' id i v <> Some (e', Ok amount).
Proof.
  intros Hreach Hid. pose proof (escrow_reachable_ok e Hreach id r Hid) as Hok.
  split; [by apply record_ok_released|]. intros i v e' amount Hrel.
  pose proof (release_milestone_inv _ _ _ _ _ _ _ Hrel) as [[_ [err ?]]|Hinv]; [done|].
  destruct Hinv as (r0 & mi & l & released & st & Hr & Hst & Hi & Hc & Hreleased & (d & u & Hd) & -> & Ha).
  rewrite Hid in Hr. injection Hr as <-. specialize (Ha amount eq_refl). subst amount.
  pose proof (record_ok_milestone r i mi v st released Hok Hst Hi Hc Hreleased) as Hok'.
  apply record_ok_released in Hok'. simpl in Hok'. pose proof Hok as [Ht Hp _ Hs Hss _].
  assert (0 <= es_total r * mi_percentage mi / 100) as Hamt.
  { apply Z.div_pos; [|lia]. rewrite Forall_lookup in Hp. specialize (Hp i mi Hi). nia. }
  split_and!; try lia.
  - unfold put. simpl. rewrite lookup_insert_eq. simpl. by rewrite Hreleased.
  - apply distribute_takes_at_most in Hd; [|done..].
    destruct (share_sum_bound _ (map snd (es_recipients r)) Hamt Hs) as [_ Hb]. rewrite Hss in Hb. simpl. lia.
  - unfold release_milestone, put. simpl. rewrite lookup_insert_eq. simpl.
    destruct (bool_decide (st = Released)), (bool_decide (st = Refunded)); simpl; try done.
    rewrite list_lookup_insert_eq by (by eapply lookup_lt_Some). done.
Qed.

(** A refund is not final: a refunded escrow is refunded again whenever
    its account can pay, because only [Released] counts as closed. *)
Theorem refund_repeats m now e id e1 n :
  refund m now e id = Some (e1, Ok n) ->
  exists r, escrows e1 !! id = Some r /\ es_state r = Refunded /\
    forall l2 tx, transfer m now (es_ledger e1) (escrow_account id) (es_funder r) n
                    ("Refund for work " ++ es_work_id r) = Some (l2, Ok tx) ->
    exists e2, refund m now e1 id = Some (e2, Ok n) /\ es_ledger e2 = l2.
Proof.
  unfold refund at 1. destruct (escrows e !! id) as [r|] eqn:Er; [|done].
  case_bool_decide as Hst; [done|]. destruct (sub_u64 m (es_total r) (es_released r)) as [rem|] eqn:Es; [|done].
  destruct (transfer _ _ _ _ _ _ _) as [[l [tx|err]]|] eqn:Et; try done. intros [= <- <-].
  eexists. unfold put at 1. simpl. rewrite lookup_insert_eq. split; [done|]. split; [done|].
  intros l2 tx2 Ht. unfold refund, put. simpl. rewrite lookup_insert_eq. simpl. rewrite Es.
  simpl in Ht. rewrite Ht. eexists. split; done.
Qed.

(** ** Instances of the theorems *)

Module EscrowExamples.

Definition rich : Ledger := mkLedger {["xena"%string := 100; "yuri"%string := 100]} ∅ [].
Definition half (d : string) : Milestone := mkMilestone d 50 false None.

Definition create_op (funder : string) : escrow_op :=
  ECreate "w" funder [("a"%string, 33); ("b"%string, 67)] 99 [half "one"; half "two"].

Definition id1 : string := generate_escrow_id 7.

Definition e1 : Escrow := default (Escrow_new rich) (escrow_step 7 (Escrow_new rich) (create_op "xena")).

Lemma step_default e op :
  match escrow_step 7 e op with Some _ => true | None => false end = true ->
  escrow_step 7 e op = Some (default e (escrow_step 7 e op)).
Proof. by destruct (escrow_step 7 e op). Qed.

Lemma e1_reachable : escrow_reachable e1.
Proof.
  eapply (er_step 7 (Escrow_new rich) (create_op "xena")); [apply er_new| |].
  - split_and!; [|vm_compute; split; discriminate|]; repeat constructor; vm_compute; (discriminate || reflexivity).
  - apply step_default. vm_compute. reflexivity.
Qed.

Lemma escrow_never_overpays_witness :
  exists r, escrows e1 !! id1 = Some r /\ 0 <= es_released r <= es_total r /\
  forall e' amount, release_milestone Debug 8 e1 id1 0 "v" = Some (e', Ok amount) ->
    balance (es_ledger e1) (escrow_account id1) - amount <= balance (es_ledger e') (escrow_account id1).
Proof.
  assert (match escrows e1 !! id1 with Some _ => true | None => false end = true) as Hsome by (vm_compute; reflexivity).
  destruct (escrows e1 !! id1) as [r|] eqn:E; [|discriminate].
  exists r. split; [reflexivity|].
  destruct (escrow_never_overpays 8 e1 id1 r e1_reachable E) as [H1 H2].
  split; [exact H1|]. intros e' amount Hr. apply (H2 0%nat "v"%string e' amount Hr).
Defined.

(** Two escrows created in the same second share an id and an account: the
    second funder is refunded twice, with the first one's money. *)
Definition e2 : Escrow := default e1 (escrow_step 7 e1 (create_op "yuri")).
Definition e3 : Escrow := default e2 (fst <$> refund Release 8 e2 id1).

Lemma refund_default e :
  match refund Release 8 e id1 with Some (_, Ok n) => n =? 99 | _ => false end = true ->
  refund Release 8 e id1 = Some (default e (fst <$> refund Release 8 e id1), Ok 99).
Proof. destruct (refund Release 8 e id1) as [[e' [n|]]|]; try done. by intros ->%Z.eqb_eq. Qed.

#[local] Opaque e1 e2.

(** What the second refund does to yuri's balance. *)
Definition second_refund : bool :=
  match escrows e3 !! id1 with
  | Some r =>
      match transfer Release 8 (es_ledger e3) (escrow_account id1) (es_funder r) 99
              ("Refund for work " ++ es_work_id r) with
      | Some (l, Ok _) => balance l "yuri" =? 199
      | _ => false
      end
  | None => false
  end.

Lemma refund_repeats_witness : exists e4, refund Release 8 e3 id1 = Some (e4, Ok 99) /\ balance (es_ledger e4) "yuri" = 199.
Proof.
  destruct (refund_repeats Release 8 e2 id1 e3 99) as (r & Hr & _ & Hagain).
  { apply refund_default. vm_compute. reflexivity. }
  assert (second_refund = true) as Hs by (vm_compute; reflexivity).
  unfold second_refund in Hs. rewrite Hr in Hs.
  destruct (transfer _ _ _ _ _ _ _) as [[l2 [tx|]]|] eqn:Et; [|discriminate|discriminate].
  destruct (Hagain l2 tx eq_refl) as (e4 & He4 & Hl).
  exists e4. split; [exact He4|]. rewrite Hl. by apply Z.eqb_eq.
Defined.

End EscrowExamples.
