(* ===== verification/Quota.v ===== *)
(** * Quota: gateway quotas (headscale-api/src/gateway/quota.rs)

    Per lease and resource type, a usage counter against a limit, with an
    optional reset period.  Instants are seconds, passed in; [None] is the
    debug profile's overflow panic. *)

From S2P Require Import Prelude.
From stdpp Require Import base list gmap strings.
From Stdlib Require Import ZArith Lia.

Open Scope Z_scope.
Open Scope rust_scope.

Inductive GatewayResourceType := Inference | Compute | Storage | Bandwidth.

#[export] Instance GatewayResourceType_eq_dec : EqDecision GatewayResourceType.
Proof. solve_decision. Defined.

#[export] Instance GatewayResourceType_countable : Countable GatewayResourceType.
Proof.
  refine (inj_countable' (fun t => match t with Inference => 0%nat | Compute => 1%nat | Storage => 2%nat | Bandwidth => 3%nat end)
            (fun n => match n with 0%nat => Inference | 1%nat => Compute | 2%nat => Storage | _ => Bandwidth end) _).
  by intros [].
Defined.

Record Quota := mkQuota {
  q_resource_type : GatewayResourceType;
  q_limit : Z;
  q_reset_period : option Z;
}.

Record QuotaState := mkQuotaState { qs_config : Quota; qs_used : Z; qs_last_reset : Z }.

Inductive QuotaError := Exceeded (limit used requested : Z) | NotConfigured.

Record QuotaCheck := mkQuotaCheck { qc_allowed : bool; qc_remaining : Z; qc_limit : Z; qc_used : Z }.

Definition QuotaState_new (config : Quota) (now : Z) : QuotaState := mkQuotaState config 0 now.

(** The reset at the start of [QuotaState::check]. *)
Definition reset_if_due (s : QuotaState) (now : Z) : QuotaState :=
  match q_reset_period (qs_config s) with
  | Some period => if period <=? saturating_sub now (qs_last_reset s) then mkQuotaState (qs_config s) 0 now else s
  | None => s
  end.

Definition qs_check (m : profile) (s : QuotaState) (now requested : Z) : option (QuotaState * result unit QuotaError) :=
  let s' := reset_if_due s now in
  match add_u m 64 (qs_used s') requested with
  | None => None
  | Some sum =>
      Some (s', if q_limit (qs_config s') <? sum
                then Err (Exceeded (q_limit (qs_config s')) (qs_used s') requested) else Ok tt)
  end.

(** [fetch_add] wraps. *)
Definition qs_consume (s : QuotaState) (amount : Z) : QuotaState :=
  mkQuotaState (qs_config s) (wrapping_add 64 (qs_used s) amount) (qs_last_reset s).

Definition qs_remaining (s : QuotaState) : Z := saturating_sub (q_limit (qs_config s)) (qs_used s).

(** ** The manager *)

Definition day : Z := 24 * 60 * 60.

Definition default_quota (t : GatewayResourceType) : Quota :=
  match t with
  | Inference => mkQuota Inference 1000000 (Some day)
  | Compute => mkQuota Compute 3600 (Some day)
  | Storage => mkQuota Storage (10 * 1024 * 1024 * 1024) None
  | Bandwidth => mkQuota Bandwidth (100 * 1024 * 1024 * 1024) (Some day)
  end.

Definition QuotaManager := gmap string (gmap GatewayResourceType QuotaState).

Definition QuotaManager_new : QuotaManager := ∅.

Definition lease_quotas (q : QuotaManager) (lease_id : string) : gmap GatewayResourceType QuotaState :=
  default ∅ (q !! lease_id).

Definition put_state (q : QuotaManager) (lease_id : string) (t : GatewayResourceType) (s : QuotaState) : QuotaManager :=
  <[lease_id := <[t := s]> (lease_quotas q lease_id)]> q.

Definition set_quota (q : QuotaManager) (lease_id : string) (quota : Quota) (now : Z) : QuotaManager :=
  put_state q lease_id (q_resource_type quota) (QuotaState_new quota now).

Definition get_or_create_quota (q : QuotaManager) (lease_id : string) (t : GatewayResourceType) (now : Z)
  : QuotaManager * QuotaState :=
  match lease_quotas q lease_id !! t with
  | Some state => (<[lease_id := lease_quotas q lease_id]> q, state)
  | None => let state := QuotaState_new (default_quota t) now in (put_state q lease_id t state, state)
  end.

Definition quota_check (m : profile) (q : QuotaManager) (lease_id : string) (t : GatewayResourceType) (now requested : Z)
  : option (QuotaManager * result QuotaCheck QuotaError) :=
  let '(q1, state) := get_or_create_quota q lease_id t now in
  match qs_check m state now requested with
  | None => None
  | Some (s', r) =>
      Some (put_state q1 lease_id t s',
            match r with
            | Err e => Err e
            | Ok _ => Ok (mkQuotaCheck true (saturating_sub (qs_remaining s') requested) (q_limit (qs_config s'))
                            (qs_used s'))
            end)
  end.

Definition quota_consume (q : QuotaManager) (lease_id : string) (t : GatewayResourceType) (now amount : Z)
  : QuotaManager :=
  let '(q1, state) := get_or_create_quota q lease_id t now in
  put_state q1 lease_id t (qs_consume state amount).

Definition quota_status (q : QuotaManager) (lease_id : string) (t : GatewayResourceType) : option QuotaCheck :=
  match q !! lease_id with
  | Some lq => match lq !! t with
               | Some s => Some (mkQuotaCheck (0 <? qs_remaining s) (qs_remaining s) (q_limit (qs_config s)) (qs_used s))
               | None => None
               end
  | None => None
  end.

(** ** Theorems *)

Lemma lookup_put_state q lease t s lease' t' :
  lease_quotas (put_state q lease t s) lease' !! t' =
  if decide (lease = lease' /\ t = t') then Some s else lease_quotas q lease' !! t'.
Proof.
  unfold lease_quotas, put_state, QuotaManager in *. destruct (decide (lease = lease')) as [<-|Hne].
  - rewrite lookup_insert_eq. cbn [from_option id]. destruct (decide (t = t')) as [<-|].
    + rewrite decide_True by done. apply lookup_insert_eq.
    + rewrite decide_False by naive_solver. by apply lookup_insert_ne.
  - rewrite lookup_insert_ne, decide_False by (done || naive_solver). done.
Qed.

(** A request as the gateway makes it: check, then consume what was checked. *)
Definition quota_request (m : profile) (q : QuotaManager) (lease_id : string) (t : GatewayResourceType) (now amount : Z)
  : option (QuotaManager * result QuotaCheck QuotaError) :=
  match quota_check m q lease_id t now amount with
  | Some (q', Ok c) => Some (quota_consume q' lease_id t now amount, Ok c)
  | other => other
  end.

Definition state_ok (s : QuotaState) : Prop := 0 <= qs_used s <= q_limit (qs_config s) /\ q_limit (qs_config s) <= u_max 64.

Definition manager_ok (q : QuotaManager) : Prop := forall lease t s, lease_quotas q lease !! t = Some s -> state_ok s.

Definition request_op : Type := string * GatewayResourceType * Z * Z.

Fixpoint run_requests (q : QuotaManager) (reqs : list request_op) : option QuotaManager :=
  match reqs with
  | [] => Some q
  | (lease, t, now, amount) :: rest =>
      match quota_request Debug q lease t now amount with
      | Some (q', _) => run_requests q' rest
      | None => None
      end
  end.

Lemma reset_ok s now : state_ok s -> state_ok (reset_if_due s now).
Proof.
  intros [Hu Hl]. unfold reset_if_due. destruct (q_reset_period _); [|done]. case_match; [|done].
  split; simpl; lia.
Qed.

Lemma default_quota_range t : 0 <= q_limit (default_quota t) <= u_max 64.
Proof. unfold u_max. destruct t; simpl; lia. Qed.

Lemma get_or_create_lookup q lease t now :
  let '(q1, s) := get_or_create_quota q lease t now in
  lease_quotas q1 lease !! t = Some s /\
  (forall lease' t', (lease', t') <> (lease, t) -> lease_quotas q1 lease' !! t' = lease_quotas q lease' !! t') /\
  (manager_ok q -> state_ok s).
Proof.
  unfold get_or_create_quota. destruct (lease_quotas q lease !! t) as [s|] eqn:E.
  - assert (forall lease', lease_quotas (<[lease := lease_quotas q lease]> q) lease' = lease_quotas q lease') as Heq.
    { intros lease'. unfold lease_quotas at 1. unfold QuotaManager in *. destruct (decide (lease = lease')) as [<-|].
      - by rewrite lookup_insert_eq.
      - by rewrite lookup_insert_ne. }
    split_and!; [by rewrite Heq|intros; by rewrite Heq|]. intros Hq. by eapply Hq.
  - split_and!.
    + rewrite lookup_put_state, decide_True by done. done.
    + intros lease' t' Hne. rewrite lookup_put_state, decide_False; [done|]. intros [-> ->]. done.
    + intros _. split; simpl; pose proof (default_quota_range t); lia.
Qed.

Lemma manager_ok_put q1 q lease t s :
  manager_ok q -> state_ok s ->
  (forall lease' t', (lease', t') <> (lease, t) -> lease_quotas q1 lease' !! t' = lease_quotas q lease' !! t') ->
  manager_ok (put_state q1 lease t s).
Proof.
  intros Hq Hs Hsame lease' t' s'. rewrite lookup_put_state. case_decide as Hd; [by intros [= <-]|].
  rewrite Hsame by naive_solver. apply Hq.
Qed.

Lemma quota_request_ok q lease t now amount q' r :
  manager_ok q -> 0 <= amount -> quota_request Debug q lease t now amount = Some (q', r) -> manager_ok q'.
Proof.
  intros Hq Ha. unfold quota_request, quota_check.
  pose proof (get_or_create_lookup q lease t now) as Hg. destruct (get_or_create_quota q lease t now) as [q1 s].
  destruct Hg as (Hlk & Hsame & Hs). specialize (Hs Hq). pose proof (reset_ok s now Hs) as Hs'.
  unfold qs_check. destruct (add_u Debug 64 _ amount) as [sum|] eqn:Es; [|done].
  apply checked_add_Some in Es as [-> Hmax].
  destruct (Z.ltb_spec (q_limit (qs_config (reset_if_due s now))) (qs_used (reset_if_due s now) + amount)) as [|Hle].
  { intros [= <- _]. by eapply manager_ok_put. }
  intros [= <- _]. unfold quota_consume.
  pose proof (get_or_create_lookup (put_state q1 lease t (reset_if_due s now)) lease t now) as Hg2.
  destruct (get_or_create_quota _ lease t now) as [q2 s2] eqn:Eg. destruct Hg2 as (Hlk2 & Hsame2 & _).
  assert (s2 = reset_if_due s now) as ->.
  { unfold get_or_create_quota in Eg. rewrite lookup_put_state, decide_True in Eg by done. by injection Eg as _ <-. }
  eapply manager_ok_put; [exact Hq| |].
  - destruct Hs' as [Hu Hl]. unfold state_ok, qs_consume, wrapping_add, u_max in *. simpl.
    rewrite Z.mod_small by lia. lia.
  - intros lease' t' Hne. rewrite Hsame2, lookup_put_state, decide_False by naive_solver. by apply Hsame.
Qed.

(** Quotas hold: when every request is checked and then consumes what was
    checked, no lease ever uses more of a resource than its limit (the default
    limits included), however requests of leases and resources are mixed and
    whenever the periods reset. *)
Theorem quota_within_limit reqs q lease t :
  Forall (fun r : request_op => 0 <= r.2) reqs -> run_requests QuotaManager_new reqs = Some q ->
  match quota_status q lease t with
  | Some c => 0 <= qc_used c <= qc_limit c /\ qc_remaining c = qc_limit c - qc_used c
  | None => True
  end.
Proof.
  intros Hr Hrun. assert (manager_ok QuotaManager_new) as H0.
  { intros l' t' s. unfold lease_quotas, QuotaManager_new, QuotaManager. rewrite lookup_empty. cbn [from_option].
    by rewrite lookup_empty. }
  assert (manager_ok q) as Hq.
  { revert H0 Hrun. generalize QuotaManager_new. induction Hr as [|[[[l' t'] now] amount] reqs Ha _ IH];
      intros q0 H0; simpl; [by intros [= <-]|].
    destruct (quota_request Debug q0 l' t' now amount) as [[q1 r]|] eqn:E; [|done].
    apply IH. by eapply quota_request_ok. }
  unfold quota_status. destruct (q !! lease) as [lq|] eqn:El; [|done]. destruct (lq !! t) as [s|] eqn:Et; [|done].
  destruct (Hq lease t s) as [Hu Hl]; [unfold lease_quotas; by rewrite El|].
  unfold qs_remaining, saturating_sub. simpl. split; lia.
Qed.

(** Without overflow checks the limit can be passed: a request so large
    that its sum with the usage wraps around is allowed, whatever the limit;
    with overflow checks it panics. *)
Theorem quota_check_wraps s now requested :
  state_ok s -> 0 < qs_used s -> reset_if_due s now = s -> 2 ^ 64 - qs_used s <= requested < 2 ^ 64 ->
  qs_check Release s now requested = Some (s, Ok tt) /\ qs_check Debug s now requested = None.
Proof.
  intros [Hu Hl] Hpos Hreset Hr. unfold qs_check. rewrite Hreset. simpl. unfold u_max in Hl. split.
  - assert (wrapping_add 64 (qs_used s) requested = qs_used s + requested - 2 ^ 64) as ->.
    { unfold wrapping_add. replace (qs_used s + requested) with (qs_used s + requested - 2 ^ 64 + 1 * 2 ^ 64) at 1 by lia.
      rewrite Z.mod_add, Z.mod_small by lia. done. }
    rewrite (proj2 (Z.ltb_ge _ _)) by lia. done.
  - rewrite (proj2 (checked_add_None _ _ _)); [done|]. unfold u_max. lia.
Qed.

(** ** Instances of the theorems *)

Module QuotaExamples.

Definition reqs1 : list request_op :=
  [("lease"%string, Compute, 0, 3000); ("lease"%string, Compute, 10, 700); ("lease"%string, Compute, 90000, 3600)].

Lemma quota_within_limit_witness :
  exists q, run_requests QuotaManager_new reqs1 = Some q /\
  match quota_status q "lease" Compute with
  | Some c => 0 <= qc_used c <= qc_limit c /\ qc_remaining c = qc_limit c - qc_used c
  | None => True
  end.
Proof.
  destruct (run_requests QuotaManager_new reqs1) as [q|] eqn:E.
  - exists q. split; [reflexivity|].
    apply (quota_within_limit reqs1 q "lease" Compute); [repeat constructor; simpl; lia|exact E].
  - exfalso. assert (match run_requests QuotaManager_new reqs1 with Some _ => true | None => false end = true) as H
      by (vm_compute; reflexivity). rewrite E in H. discriminate.
Defined.

Definition state1 : QuotaState := mkQuotaState (default_quota Storage) 5 0.

Lemma quota_check_wraps_witness :
  qs_check Release state1 1 (2 ^ 64 - 1) = Some (state1, Ok tt) /\ qs_check Debug state1 1 (2 ^ 64 - 1) = None.
Proof.
  apply (quota_check_wraps state1 1 (2 ^ 64 - 1)).
  - vm_compute. repeat split; discriminate.
  - reflexivity.
  - reflexivity.
  - vm_compute. split; (discriminate || reflexivity).
Defined.

End QuotaExamples.
