(* ===== verification/GoNetip.v ===== *)
(** * GoNetip: Go's [net/netip] text forms (headscale-api-acl/src/go_netip.rs)

    Addresses and prefixes as Go parses, prints and orders them: the text every
    policy, wire and storage boundary of the control server exchanges.  A [&str]
    is the list of its bytes; the outer functions take a [string].  The error
    [String]s of the source are built from an input, a message and a place; here
    they are those parts ([NetipError]), not yet quoted.  The theorems show that
    printing and parsing are inverse (IPv6 zero compression, IPv4-mapped
    addresses and zones included), that every accepted text denotes an address in
    range, that canonical texts are fixed points, and that [prefix_compare]
    orders them; they are what [PrimaryRoutes] and [IpSet] rely on. *)

From S2P Require Import Prelude Bytes Net.
From stdpp Require Import base list strings sets.
From Stdlib Require Import ZArith Lia Ascii.

Open Scope Z_scope.
Open Scope rust_scope.

Definition to_chars (s : string) : chars := String.list_ascii_of_string s.
Definition of_chars (l : chars) : string := String.string_of_list_ascii l.

(** ** [str::split_once], [rsplit_once] and [str::parse::<i64>] *)

Fixpoint split_once (c : ascii) (l : chars) : option (chars * chars) :=
  match l with
  | [] => None
  | x :: t => if Ascii.eqb x c then Some ([], t)
              else match split_once c t with Some (a, b) => Some (x :: a, b) | None => None end
  end.

Fixpoint rsplit_once (c : ascii) (l : chars) : option (chars * chars) :=
  match l with
  | [] => None
  | x :: t => match rsplit_once c t with
              | Some (a, b) => Some (x :: a, b)
              | None => if Ascii.eqb x c then Some ([], t) else None
              end
  end.

(** The digits of a number whose magnitude may not exceed [limit]. *)
Definition parse_magnitude (limit : Z) (l : chars) : option Z :=
  match l with [] => None | _ => parse_digits limit 0 l end.

Definition parse_i64 (l : chars) : option Z :=
  match l with
  | [] => None
  | c :: t => if Ascii.eqb c "-" then Z.opp <$> parse_magnitude (2 ^ 63) t
              else if Ascii.eqb c "+" then parse_magnitude (2 ^ 63 - 1) t
              else parse_magnitude (2 ^ 63 - 1) l
  end.

(** ** Errors *)

(** [ParseAddr(input): message (at ...)], and [netip.ParsePrefix(text): ...]. *)
Inductive PrefixFault :=
| NoSlash
| BadAddress (input : chars) (message : string) (place : chars)
| ZoneInPrefix
| BadBits (bits : chars)
| LengthOutOfRange.

Inductive NetipError :=
| AddressError (input : chars) (message : string) (place : chars)
| PrefixError (text : chars) (fault : PrefixFault).

Definition address_error {A} (input : chars) (message : string) (place : chars) : result A NetipError :=
  Err (AddressError input message place).

(** ** Addresses *)

(** The loop of [ipv4_fields]: the previous byte, the fields so far (their number
    is [position]), the field being read and its digits. *)
Fixpoint ipv4_scan (input : chars) (prev : option ascii) (fields : list Z) (value : Z) (digits : nat) (text : chars)
  : result (list Z) NetipError :=
  match text with
  | [] => if (length fields <? 3)%nat then address_error input "IPv4 address too short" []
          else Ok (fields ++ [value])
  | c :: t =>
      match to_digit 10 c with
      | Some d =>
          if ((digits =? 1)%nat && (value =? 0))%bool
          then address_error input "IPv4 field has octet with leading zero" []
          else if 255 <? value * 10 + d then address_error input "IPv4 field has value >255" []
          else ipv4_scan input (Some c) fields (value * 10 + d) (S digits) t
      | None =>
          if Ascii.eqb c "." then
            if (match prev with None => true | Some p => Ascii.eqb p "." end || match t with [] => true | _ => false end)%bool
            then address_error input "IPv4 field must have at least one digit" text
            else if (length fields =? 3)%nat then address_error input "IPv4 address too long" []
            else ipv4_scan input (Some c) (fields ++ [value]) 0 0 t
          else address_error input "unexpected character" text
      end
  end.

Definition ipv4_fields (input text : chars) : result (list Z) NetipError := ipv4_scan input None [] 0 0 text.

(** One group of hexadecimal digits: its value, its length and what follows. *)
Fixpoint scan_group (input text : chars) (value : Z) (offset : nat) (rest : chars)
  : result (Z * nat * chars) NetipError :=
  match rest with
  | [] => Ok (value, offset, [])
  | c :: t =>
      match to_digit 16 c with
      | None => Ok (value, offset, rest)
      | Some d =>
          let value := Z.shiftl value 4 + d in
          if (3 <? offset)%nat then address_error input "each group must have 4 or less digits" text
          else if 65535 <? value then address_error input "IPv6 field has value >=2^16" text
          else scan_group input text value (S offset) t
      end
  end.

Definition group_bytes (value : Z) : list Z := [(Z.shiftr value 8) `mod` 256; value `mod` 256].

(** The rounds of the [while position < 16] loop: the bytes written so far (their
    number is [position]), where the ellipsis was, and the text left.  Every round
    writes at least two bytes, so eight rounds are enough ([ipv6_loop_fuel]). *)
Fixpoint ipv6_loop (fuel : nat) (input : chars) (octets : list Z) (ellipsis : option nat) (text : chars)
  : result (list Z * option nat * chars) NetipError :=
  match fuel with
  | O => Ok (octets, ellipsis, text)
  | S fuel =>
      if (16 <=? length octets)%nat then Ok (octets, ellipsis, text)
      else
        let? '(value, offset, rest) := scan_group input text 0 0 text in
        if (offset =? 0)%nat
        then address_error input "each colon-separated field must have at least one digit" text
        else if match rest with c :: _ => Ascii.eqb c "." | [] => false end then
          if (match ellipsis with None => true | Some _ => false end && negb (length octets =? 12)%nat)%bool
          then address_error input "embedded IPv4 address must replace the final 2 fields of the address" text
          else if (16 <? length octets + 4)%nat
          then address_error input "too many hex fields to fit an embedded IPv4 at the end of the address" text
          else let? fields := ipv4_fields input text in Ok (octets ++ fields, ellipsis, [])
        else
          let octets := octets ++ group_bytes value in
          match rest with
          | [] => Ok (octets, ellipsis, [])
          | c :: rest1 =>
              if negb (Ascii.eqb c ":") then address_error input "unexpected character, want colon" rest
              else match rest1 with
                   | [] => address_error input "colon must be followed by more characters" rest
                   | c1 :: rest2 =>
                       if Ascii.eqb c1 ":" then
                         match ellipsis with
                         | Some _ => address_error input "multiple :: in address" rest1
                         | None => match rest2 with
                                   | [] => Ok (octets, Some (length octets), [])
                                   | _ => ipv6_loop fuel input octets (Some (length octets)) rest2
                                   end
                         end
                       else ipv6_loop fuel input octets ellipsis rest1
                   end
          end
  end.

(** After the loop: nothing may be left, and the ellipsis fills up to 16 bytes. *)
Definition ipv6_finish (input : chars) (octets : list Z) (ellipsis : option nat) (text : chars)
  : result (list Z) NetipError :=
  match text with
  | _ :: _ => address_error input "trailing garbage after address" text
  | [] =>
      if (length octets <? 16)%nat then
        match ellipsis with
        | None => address_error input "address string too short" []
        | Some e => Ok (take e octets ++ replicate (16 - length octets) 0 ++ drop e octets)
        end
      else match ellipsis with
           | Some _ => address_error input "the :: must expand to at least one field of zeros" []
           | None => Ok octets
           end
  end.

(** The loop and what follows it. *)
Definition ipv6_run (input : chars) (ellipsis : option nat) (text : chars) : result IpAddr NetipError :=
  let? '(octets, ellipsis, text) := ipv6_loop 8 input [] ellipsis text in
  let? octets := ipv6_finish input octets ellipsis text in
  Ok (ipv6_of_bytes octets).

(** The address without its zone. *)
Definition ipv6_body (input text : chars) : result IpAddr NetipError :=
  match text with
  | c :: c1 :: rest =>
      if (Ascii.eqb c ":" && Ascii.eqb c1 ":")%bool
      then match rest with [] => Ok (V6 0) | _ => ipv6_run input (Some 0%nat) rest end
      else ipv6_run input None text
  | _ => ipv6_run input None text
  end.

Definition ipv6_address (input : chars) : result (IpAddr * option chars) NetipError :=
  match split_once "%" input with
  | Some (_, []) => address_error input "zone must be a non-empty string" []
  | Some (text, zone) => let? ip := ipv6_body input text in Ok (ip, Some zone)
  | None => let? ip := ipv6_body input input in Ok (ip, None)
  end.

(** The first of [.], [:] and [%] decides the family. *)
Fixpoint address_kind (l : chars) : option ascii :=
  match l with
  | [] => None
  | c :: t => if (Ascii.eqb c "." || Ascii.eqb c ":" || Ascii.eqb c "%")%bool then Some c else address_kind t
  end.

Definition parse_address (text : chars) : result (IpAddr * option chars) NetipError :=
  match address_kind text with
  | Some c =>
      if Ascii.eqb c "." then let? bytes := ipv4_fields text text in Ok (ipv4_of_bytes bytes, None)
      else if Ascii.eqb c ":" then ipv6_address text
      else address_error text "missing IPv6 address" []
  | None => address_error text "unable to parse IP" []
  end.

Definition parse_addr (s : string) : result (IpAddr * option string) NetipError :=
  let? '(ip, zone) := parse_address (to_chars s) in Ok (ip, of_chars <$> zone).

(** [Ipv6Addr::to_ipv4_mapped] *)
Definition to_ipv4_mapped (a : Z) : option Z := if a / 2 ^ 32 =? 0xffff then Some (a `mod` 2 ^ 32) else None.

Definition address_text (ip : IpAddr) (zone : option string) : string :=
  let text := match ip with
              | V6 a => match to_ipv4_mapped a with
                        | Some v4 => ("::ffff:" ++ show_ip (V4 v4))%string
                        | None => show_ip (V6 a)
                        end
              | V4 a => show_ip (V4 a)
              end in
  match zone with Some z => (text ++ "%" ++ z)%string | None => text end.

Definition addr_text (s : string) : option string :=
  if bool_decide (s = ""%string) then Some ""%string
  else match parse_addr s with Ok (ip, zone) => Some (address_text ip zone) | Err _ => None end.

(** A [u16] in decimal, leading zeros allowed. *)
Fixpoint decimal_from (value : Z) (l : chars) : option Z :=
  match l with
  | [] => Some value
  | c :: t => match to_digit 10 c with
              | None => None
              | Some d => if value * 10 + d <=? 65535 then decimal_from (value * 10 + d) t else None
              end
  end.

Definition decimal (l : chars) : option Z := match l with [] => None | _ => decimal_from 0 l end.

Definition addr_bits (ip : IpAddr) : Z := ip_width ip.

Definition addr_host_prefix_text (s : string) : option string :=
  if bool_decide (s = ""%string) then Some ""%string
  else match parse_addr s with
       | Ok (ip, _) => Some (address_text ip None ++ "/" ++ show_dec (addr_bits ip))%string
       | Err _ => None
       end.

(** [str::strip_suffix] of one byte. *)
Definition strip_last (c : ascii) (l : chars) : option chars :=
  match rev l with x :: t => if Ascii.eqb x c then Some (rev t) else None | [] => None end.

Definition addr_port_text (s : string) : option string :=
  if bool_decide (s = ""%string) then Some ""%string
  else match rsplit_once ":" (to_chars s) with
       | None => None
       | Some (host, port) =>
           match match host with
                 | c :: t => if Ascii.eqb c "[" then (fun l => (l, true)) <$> strip_last "]" t else Some (host, false)
                 | [] => Some (host, false)
                 end with
           | None => None
           | Some (host, bracketed) =>
               match parse_address host with
               | Err _ => None
               | Ok (ip, zone) =>
                   if negb (Bool.eqb (negb (is_v4 ip)) bracketed) then None
                   else match decimal port with
                        | None => None
                        | Some port =>
                            let text := address_text ip (of_chars <$> zone) in
                            Some (if bracketed : bool then ("[" ++ text ++ "]:" ++ show_dec port)%string
                                  else (text ++ ":" ++ show_dec port)%string)
                        end
               end
           end
       end.

(** ** Prefixes *)

Definition parse_prefix (s : string) : result (IpAddr * Z) NetipError :=
  let text := to_chars s in
  let error {A} fault : result A NetipError := Err (PrefixError text fault) in
  match rsplit_once "/" text with
  | None => error NoSlash
  | Some (address, bits) =>
      match parse_address address with
      | Err (AddressError i m p) => error (BadAddress i m p)
      | Err e => Err e
      | Ok (ip, Some _) => error ZoneInPrefix
      | Ok (ip, None) =>
          if ((1 <? length bits)%nat &&
              negb (match bits with c :: _ => (49 <=? chr c) && (chr c <=? 57) | [] => false end))%bool
          then error (BadBits bits)
          else match parse_i64 bits with
               | None => error (BadBits bits)
               | Some n => if ((0 <=? n) && (n <=? (if is_v4 ip then 32 else 128)))%bool then Ok (ip, n)
                           else error LengthOutOfRange
               end
      end
  end.

Definition show_prefix (ip : IpAddr) (bits : Z) : string := (address_text ip None ++ "/" ++ show_dec bits)%string.

Definition parse_prefix_text (s : string) : result string NetipError :=
  let? '(ip, bits) := parse_prefix s in Ok (show_prefix ip bits).

Definition prefix_text (s : string) : option string :=
  if bool_decide (s = ""%string) then Some ""%string else result_ok (parse_prefix_text s).

(** The bytes of an address with the host bits cleared. *)
Fixpoint masked (address : list Z) (remaining : Z) : list Z :=
  match address with
  | [] => []
  | b :: t => if 8 <=? remaining then b :: masked t (remaining - 8)
              else Z.land b (if remaining =? 0 then 0 else (Z.shiftl 255 (8 - remaining)) `mod` 256) :: masked t 0
  end.

(** [Ord for [u8; N]] *)
Fixpoint bytes_cmp (a b : list Z) : comparison :=
  match a, b with
  | [], [] => Eq
  | [], _ => Lt
  | _, [] => Gt
  | x :: a', y :: b' => then_with (Z.compare x y) (bytes_cmp a' b')
  end.

Definition compare_address (a : list Z) (a_bits : Z) (b : list Z) (b_bits : Z) : comparison :=
  then_with (then_with (bytes_cmp (masked a a_bits) (masked b b_bits)) (Z.compare a_bits b_bits)) (bytes_cmp a b).

(** [None] for the empty text (Go's zero prefix), [Err] for an invalid one. *)
Definition prefix_parts (s : string) : option (option (IpAddr * Z)) :=
  if bool_decide (s = ""%string) then Some None else Some <$> result_ok (parse_prefix s).

Definition compare_parts (a b : option (IpAddr * Z)) : comparison :=
  match a, b with
  | None, None => Eq
  | Some (V4 a, a_bits), Some (V4 b, b_bits) => compare_address (octets (V4 a)) a_bits (octets (V4 b)) b_bits
  | Some (V6 a, a_bits), Some (V6 b, b_bits) => compare_address (octets (V6 a)) a_bits (octets (V6 b)) b_bits
  | None, Some _ => Lt
  | Some (V4 _, _), Some (V6 _, _) => Lt
  | Some _, None => Gt
  | Some (V6 _, _), Some (V4 _, _) => Gt
  end.

Definition prefix_compare (a b : string) : option comparison :=
  match prefix_parts a, prefix_parts b with
  | Some a, Some b => Some (compare_parts a b)
  | _, _ => None
  end.

(** ** Texts *)

Lemma to_chars_app a b : to_chars (a ++ b)%string = to_chars a ++ to_chars b.
Proof. unfold to_chars. induction a as [|c a IH]; simpl; [done|]. by rewrite IH. Qed.

Lemma to_of_chars l : to_chars (of_chars l) = l.
Proof. apply String.list_ascii_of_string_of_list_ascii. Qed.

Lemma of_to_chars s : of_chars (to_chars s) = s.
Proof. apply String.string_of_list_ascii_of_string. Qed.

Lemma to_chars_nil s : to_chars s = [] <-> s = ""%string.
Proof. destruct s; split; done. Qed.

(** [slice::join] *)
Fixpoint join (sep : chars) (l : list chars) : chars :=
  match l with
  | [] => []
  | [x] => x
  | x :: t => x ++ sep ++ join sep t
  end.

Lemma to_chars_concat sep l : to_chars (String.concat sep l) = join (to_chars sep) (map to_chars l).
Proof.
  induction l as [|x [|y l] IH]; [done|done|].
  change (String.concat sep (x :: y :: l)) with (x ++ sep ++ String.concat sep (y :: l))%string.
  rewrite !to_chars_app, IH. done.
Qed.

Lemma split_once_here c a b : c ∉ a -> split_once c (a ++ c :: b) = Some (a, b).
Proof.
  induction a as [|x a IH]; intros Hc; simpl.
  - by rewrite Ascii.eqb_refl.
  - rewrite (proj2 (Ascii.eqb_neq x c)) by set_solver. rewrite IH by set_solver. done.
Qed.

Lemma split_once_none c a : c ∉ a -> split_once c a = None.
Proof.
  induction a as [|x a IH]; intros Hc; simpl; [done|].
  rewrite (proj2 (Ascii.eqb_neq x c)) by set_solver. rewrite IH by set_solver. done.
Qed.

Lemma rsplit_once_none c a : c ∉ a -> rsplit_once c a = None.
Proof.
  induction a as [|x a IH]; intros Hc; simpl; [done|].
  rewrite IH by set_solver. rewrite (proj2 (Ascii.eqb_neq x c)) by set_solver. done.
Qed.

Lemma rsplit_once_here c a b : c ∉ b -> rsplit_once c (a ++ c :: b) = Some (a, b).
Proof.
  intros Hc. induction a as [|x a IH]; simpl.
  - by rewrite rsplit_once_none, Ascii.eqb_refl.
  - by rewrite IH.
Qed.

(** ** Digits *)

(** Case analysis on a number below a small bound. *)
Ltac cases_below d n :=
  let H := fresh in
  assert (H : In d (map Z.of_nat (seq 0 n))) by
    (apply List.in_map_iff; exists (Z.to_nat d); split; [lia | apply List.in_seq; lia]);
  cbn in H; repeat (destruct H as [<- | H]; [| ]); [.. | destruct H].

Lemma digit_char_16 d : 0 <= d < 16 -> to_digit 16 (digit_char d) = Some d.
Proof. intros Hd. cases_below d 16%nat; reflexivity. Qed.

Lemma digit_char_10 d : 0 <= d < 10 -> to_digit 10 (digit_char d) = Some d.
Proof. intros Hd. cases_below d 10%nat; reflexivity. Qed.

Lemma digit_char_chr d : 0 <= d < 10 -> chr (digit_char d) = 48 + d.
Proof. intros Hd. cases_below d 10%nat; reflexivity. Qed.

(** The characters of a printed number: all digits, none of the separators. *)
Definition separator (c : ascii) : bool :=
  (Ascii.eqb c "." || Ascii.eqb c ":" || Ascii.eqb c "%" || Ascii.eqb c "/")%bool.

Lemma digit_char_plain d : 0 <= d < 16 -> separator (digit_char d) = false.
Proof. intros Hd. cases_below d 16%nat; reflexivity. Qed.

(** What [show_radix] prints: its digits, most significant first. *)
Lemma show_radix_spec radix k fuel n acc :
  2 <= radix <= 16 -> (k <= fuel)%nat -> (0 < k)%nat -> 0 <= n < radix ^ Z.of_nat k ->
  exists ds, show_radix fuel radix n acc = map digit_char ds ++ acc /\
    (0 < length ds <= k)%nat /\ Forall (fun d => 0 <= d < radix) ds /\
    fold_left (fun v d => v * radix + d) ds 0 = n /\
    (n <> 0 -> exists d t, ds = d :: t /\ 0 < d).
Proof.
  intros Hr. revert fuel n acc. induction k as [|k IH]; intros fuel n acc Hf Hk Hn; [lia|].
  destruct fuel as [|fuel]; [lia|].
  assert (0 <= n `mod` radix < radix) as Hm by (apply Z.mod_pos_bound; lia).
  cbn [show_radix]. destruct (Z.eqb_spec (n / radix) 0) as [E|E].
  - exists [n `mod` radix]. pose proof (Z.div_mod n radix ltac:(lia)) as Hdm. rewrite E in Hdm.
    cbn [map app length fold_left]. split_and!; [done|lia|lia|by apply Forall_singleton|lia|].
    intros Hz. exists (n `mod` radix), []. split; [done|lia].
  - assert (0 <= n / radix < radix ^ Z.of_nat k) as Hq.
    { split; [apply Z.div_pos; lia|]. apply Z.div_lt_upper_bound; [lia|].
      rewrite <-Z.pow_succ_r by lia. replace (Z.succ (Z.of_nat k)) with (Z.of_nat (S k)) by lia. lia. }
    assert (k <> 0)%nat as Hk0 by (intros ->; simpl in Hq; lia).
    destruct (IH fuel (n / radix) (digit_char (n `mod` radix) :: acc)) as (ds & -> & Hl & Hf1 & Hv & Hh); [lia..|].
    exists (ds ++ [n `mod` radix]). rewrite map_app, <-app_assoc, length_app, fold_left_app. cbn [map app length fold_left].
    split_and!; [done|lia|lia|apply Forall_app; by rewrite Forall_singleton|rewrite Hv; pose proof (Z.div_mod n radix); lia|].
    intros _. destruct (Hh E) as (d & t & -> & Hd). by exists d, (t ++ [n `mod` radix]).
Qed.

Definition dec_value (ds : list Z) : Z := fold_left (fun v d => v * 10 + d) ds 0.
Definition hex_value (v : Z) (ds : list Z) : Z := fold_left (fun v d => v * 16 + d) ds v.

Lemma show_hex_digits g :
  0 <= g < 65536 ->
  exists ds, to_chars (show_hex g) = map digit_char ds /\ (0 < length ds <= 4)%nat /\
    Forall (fun d => 0 <= d < 16) ds /\ hex_value 0 ds = g.
Proof.
  intros Hg. destruct (show_radix_spec 16 4 64 g []) as (ds & E & Hl & Hd & Hv & _); [lia..|].
  exists ds. unfold show_hex. change String.string_of_list_ascii with of_chars.
  rewrite to_of_chars, E, app_nil_r. done.
Qed.

Lemma show_dec_digits n k :
  (0 < k <= 64)%nat -> 0 <= n < 10 ^ Z.of_nat k ->
  exists ds, to_chars (show_dec n) = map digit_char ds /\ (0 < length ds <= k)%nat /\
    Forall (fun d => 0 <= d < 10) ds /\ dec_value ds = n /\ (n <> 0 -> exists d t, ds = d :: t /\ 0 < d).
Proof.
  intros Hk Hn. destruct (show_radix_spec 10 k 64 n []) as (ds & E & Hl & Hd & Hv & Hh); [lia..|].
  exists ds. unfold show_dec. change String.string_of_list_ascii with of_chars.
  rewrite to_of_chars, E, app_nil_r. done.
Qed.

(** No separator occurs among printed digits. *)
Lemma digits_plain ds c : Forall (fun d => 0 <= d < 16) ds -> separator c = true -> c ∉ map digit_char ds.
Proof.
  intros Hd Hc Hin. apply list_elem_of_In, List.in_map_iff in Hin as (d & <- & Hin).
  rewrite Forall_forall in Hd. rewrite digit_char_plain in Hc; [done|]. apply Hd. by apply list_elem_of_In.
Qed.

Lemma digits_10_16 ds : Forall (fun d => 0 <= d < 10) ds -> Forall (fun d => 0 <= d < 16) ds.
Proof. intros H. eapply Forall_impl; [exact H|]. simpl. lia. Qed.

Lemma scan_group_digits input text ds v off rest :
  Forall (fun d => 0 <= d < 16) ds -> (off + length ds <= 4)%nat -> 0 <= v < 16 ^ Z.of_nat off ->
  match rest with c :: _ => to_digit 16 c = None | [] => True end ->
  scan_group input text v off (map digit_char ds ++ rest) = Ok (hex_value v ds, (off + length ds)%nat, rest).
Proof.
  intros Hd. revert v off. induction Hd as [|d ds Hd Hds IH]; intros v off Ho Hv Hrest; cbn [map app length].
  - rewrite Nat.add_0_r. destruct rest as [|c t]; [done|]. cbn [scan_group]. by rewrite Hrest.
  - cbn [scan_group length] in *. rewrite digit_char_16 by done. rewrite Z.shiftl_mul_pow2 by lia.
    assert (v * 2 ^ 4 + d < 16 ^ Z.of_nat (S off)) as Hb by (rewrite Nat2Z.inj_succ, Z.pow_succ_r; lia).
    assert (16 ^ Z.of_nat (S off) <= 16 ^ 4) by (apply Z.pow_le_mono_r; lia).
    rewrite (proj2 (Nat.ltb_ge 3 off)) by lia. rewrite (proj2 (Z.ltb_ge 65535 _)) by lia.
    rewrite IH by (done || lia). cbn [hex_value fold_left]. unfold hex_value. cbn [fold_left].
    replace (v * 2 ^ 4 + d) with (v * 16 + d) by lia. f_equal. f_equal. f_equal. lia.
Qed.

(** The separators are not digits. *)
Lemma separator_not_digit radix c : separator c = true -> radix <= 16 -> to_digit radix c = None.
Proof.
  unfold separator. rewrite !orb_true_iff, !Ascii.eqb_eq. intros [[[-> | ->] | ->] | ->] Hr;
    unfold to_digit; cbn; rewrite Z.ltb_irrefl; done.
Qed.

(** ** Printed IPv4 addresses are read back *)

Lemma dec_fold_ge ds v : Forall (fun d => 0 <= d < 10) ds -> 0 <= v -> v <= fold_left (fun v d => v * 10 + d) ds v.
Proof.
  intros Hd. revert v. induction Hd as [|d ds Hd _ IH]; intros v Hv; cbn [fold_left]; [lia|].
  etransitivity; [|apply IH; lia]. lia.
Qed.

(** The digits after a non-zero leading one. *)
Lemma ipv4_scan_more input ds v c n fields t :
  Forall (fun d => 0 <= d < 10) ds -> 0 < v -> c <> "."%char ->
  fold_left (fun v d => v * 10 + d) ds v <= 255 ->
  exists c' n', c' <> "."%char /\
    ipv4_scan input (Some c) fields v n (map digit_char ds ++ t) =
    ipv4_scan input (Some c') fields (fold_left (fun v d => v * 10 + d) ds v) n' t.
Proof.
  intros Hd. revert v c n. induction Hd as [|d ds Hd Hds IH]; intros v c n Hv Hc Hb; cbn [map app fold_left] in *.
  - by exists c, n.
  - pose proof (dec_fold_ge ds (v * 10 + d) Hds ltac:(lia)).
    destruct (IH (v * 10 + d) (digit_char d) (S n)) as (c' & n' & Hc' & E); [lia| |done|].
    { intros Ed. pose proof (digit_char_plain d ltac:(lia)) as Hp. rewrite Ed in Hp. done. }
    exists c', n'. split; [done|]. cbn [ipv4_scan]. rewrite digit_char_10 by done.
    rewrite (proj2 (Z.eqb_neq v 0)), andb_false_r by lia.
    rewrite (proj2 (Z.ltb_ge 255 _)) by lia. done.
Qed.

Lemma ipv4_scan_octet input prev fields o t :
  0 <= o <= 255 ->
  exists c n, c <> "."%char /\
    ipv4_scan input prev fields 0 0 (to_chars (show_dec o) ++ t) = ipv4_scan input (Some c) fields o n t.
Proof.
  intros Ho. destruct (Z.eq_dec o 0) as [->|Hn]; [by exists "0"%char, 1%nat|].
  destruct (show_dec_digits o 3) as (ds & -> & Hl & Hd & Hv & Hh); [lia|lia|].
  destruct (Hh Hn) as (d & t' & -> & Hpos). apply Forall_cons in Hd as [Hd0 Hds].
  assert (digit_char d <> "."%char) as Hdot.
  { intros Ed. pose proof (digit_char_plain d ltac:(lia)) as Hp. rewrite Ed in Hp. done. }
  unfold dec_value in Hv. cbn [fold_left] in Hv. rewrite Z.mul_0_l, Z.add_0_l in Hv.
  pose proof (dec_fold_ge t' d Hds ltac:(lia)).
  destruct (ipv4_scan_more input t' d (digit_char d) 1 fields t) as (c & n & Hc & E); [done..|lia|].
  exists c, n. split; [done|]. cbn [map app ipv4_scan]. rewrite digit_char_10 by done. cbn [Nat.eqb andb].
  rewrite Z.mul_0_l, Z.add_0_l, (proj2 (Z.ltb_ge 255 d)), E, Hv by lia. done.
Qed.

(** The octets after the first field, each preceded by its dot. *)
Lemma ipv4_scan_fields input l fields o c n :
  c <> "."%char -> Forall (fun b => 0 <= b <= 255) l -> (length fields + length l = 3)%nat ->
  ipv4_scan input (Some c) fields o n (flat_map (fun b => "."%char :: to_chars (show_dec b)) l) =
  Ok (fields ++ o :: l).
Proof.
  intros Hc Hl. revert fields o c n Hc. induction Hl as [|b l Hb Hl IH]; intros fields o c n Hc Hlen;
    cbn [flat_map length] in *.
  - cbn [ipv4_scan]. by rewrite (proj2 (Nat.ltb_ge _ 3)) by lia.
  - cbn [app ipv4_scan]. change (to_digit 10 ".") with (@None Z). cbn [Ascii.eqb Bool.eqb].
    rewrite (proj2 (Ascii.eqb_neq c ".")) by done.
    destruct (ipv4_scan_octet input (Some "."%char) (fields ++ [o]) b
                (flat_map (fun b => "."%char :: to_chars (show_dec b)) l)) as (c' & n' & Hc' & E); [done|].
    rewrite E. destruct (to_chars (show_dec b) ++ _) as [|x r] eqn:Er.
    { destruct (show_dec_digits b 3) as (ds & Ed & Hds & _); [lia|lia|]. rewrite Ed in Er.
      destruct ds; simpl in *; [lia|done]. }
    cbn [orb]. rewrite (proj2 (Nat.eqb_neq (length fields) 3)) by lia.
    rewrite IH; [by rewrite <-app_assoc|done|]. rewrite length_app. simpl. lia.
Qed.

Lemma join_dots b l :
  join (to_chars ".") (map to_chars (map show_dec (b :: l))) =
  to_chars (show_dec b) ++ flat_map (fun b => "."%char :: to_chars (show_dec b)) l.
Proof.
  revert b. induction l as [|b' l IH]; intros b; [by rewrite app_nil_r|].
  change (join (to_chars ".") (map to_chars (map show_dec (b :: b' :: l)))) with
    (to_chars (show_dec b) ++ to_chars "." ++ join (to_chars ".") (map to_chars (map show_dec (b' :: l)))).
  by rewrite IH.
Qed.

Lemma ipv4_round_trip input a : ipv4_fields input (to_chars (show_ipv4 a)) = Ok (to_be_bytes 4 a).
Proof.
  assert (Forall (fun b => 0 <= b <= 255) (to_be_bytes 4 a)) as Hb.
  { eapply Forall_impl; [apply to_be_bytes_ok|]. unfold byte_ok. simpl. lia. }
  unfold show_ipv4, ipv4_fields. rewrite to_chars_concat.
  pose proof (length_to_be_bytes 4 a) as Hl. destruct (to_be_bytes 4 a) as [|b l]; [done|].
  rewrite join_dots. inversion Hb; subst.
  destruct (ipv4_scan_octet input None [] b (flat_map (fun b => "."%char :: to_chars (show_dec b)) l))
    as (c & n & Hc & ->); [done|].
  rewrite ipv4_scan_fields; [done|done|done|]. simpl in *. lia.
Qed.

(** ** Printed IPv6 addresses are read back *)

Definition group_ok (g : Z) : Prop := 0 <= g < 65536.

Lemma scan_hex_group input text g rest :
  group_ok g -> match rest with c :: _ => separator c = true | [] => True end ->
  exists k, (k =? 0)%nat = false /\
    scan_group input text 0 0 (to_chars (show_hex g) ++ rest) = Ok (g, k, rest).
Proof.
  intros Hg Hr. destruct (show_hex_digits g Hg) as (ds & -> & Hl & Hd & Hv).
  exists (length ds). split; [apply Nat.eqb_neq; lia|].
  rewrite scan_group_digits; [by rewrite Hv|done|lia|simpl; lia|].
  destruct rest; [done|]. apply separator_not_digit; [done|lia].
Qed.

(** The first character of a printed group. *)
Lemma show_hex_head g : group_ok g -> exists c t, to_chars (show_hex g) = c :: t /\ separator c = false.
Proof.
  intros Hg. destruct (show_hex_digits g Hg) as (ds & -> & Hl & Hd & _).
  destruct Hd as [|d ds Hd _]; [simpl in Hl; lia|].
  exists (digit_char d), (map digit_char ds). split; [done|]. apply digit_char_plain. done.
Qed.

Section loop_steps.
Context (fuel : nat) (input : chars) (octets : list Z) (ellipsis : option nat) (g : Z).
Context (Hroom : (length octets < 16)%nat) (Hg : group_ok g).

Lemma ipv6_step_end :
  ipv6_loop (S fuel) input octets ellipsis (to_chars (show_hex g)) = Ok (octets ++ group_bytes g, ellipsis, []).
Proof.
  cbn [ipv6_loop]. rewrite (proj2 (Nat.leb_gt 16 _)) by done.
  destruct (scan_hex_group input (to_chars (show_hex g)) g [] Hg I) as (k & Hk & E).
  rewrite app_nil_r in E. rewrite E. cbn [result_bind]. by rewrite Hk.
Qed.

Lemma ipv6_step_colon c r :
  separator c = false ->
  ipv6_loop (S fuel) input octets ellipsis (to_chars (show_hex g) ++ ":"%char :: c :: r) =
  ipv6_loop fuel input (octets ++ group_bytes g) ellipsis (c :: r).
Proof.
  intros Hc. cbn [ipv6_loop]. rewrite (proj2 (Nat.leb_gt 16 _)) by done.
  destruct (scan_hex_group input (to_chars (show_hex g) ++ ":"%char :: c :: r) g (":"%char :: c :: r) Hg eq_refl)
    as (k & Hk & E).
  rewrite E. cbn [result_bind]. rewrite Hk. cbn [Ascii.eqb Bool.eqb negb].
  destruct (Ascii.eqb_spec c ":") as [-> |]; [done|]. done.
Qed.

Lemma ipv6_step_ellipsis r :
  ellipsis = None ->
  ipv6_loop (S fuel) input octets ellipsis (to_chars (show_hex g) ++ ":"%char :: ":"%char :: r) =
  match r with
  | [] => Ok (octets ++ group_bytes g, Some (length (octets ++ group_bytes g)), [])
  | _ => ipv6_loop fuel input (octets ++ group_bytes g) (Some (length (octets ++ group_bytes g))) r
  end.
Proof.
  intros ->. cbn [ipv6_loop]. rewrite (proj2 (Nat.leb_gt 16 _)) by done.
  destruct (scan_hex_group input (to_chars (show_hex g) ++ ":"%char :: ":"%char :: r) g (":"%char :: ":"%char :: r) Hg eq_refl)
    as (k & Hk & E).
  rewrite E. cbn [result_bind]. rewrite Hk. by destruct r.
Qed.
End loop_steps.

Definition hexes (gs : list Z) : chars := join (to_chars ":") (map to_chars (map show_hex gs)).

Lemma hexes_cons g g' gs : hexes (g :: g' :: gs) = to_chars (show_hex g) ++ ":"%char :: hexes (g' :: gs).
Proof. done. Qed.

Lemma hexes_head g gs : group_ok g -> exists c t, hexes (g :: gs) = c :: t /\ separator c = false.
Proof.
  intros Hg. destruct (show_hex_head g Hg) as (c & t & E & Hc).
  destruct gs as [|g' gs]; [by exists c, t|]. rewrite hexes_cons, E. by exists c, (t ++ ":"%char :: hexes (g' :: gs)).
Qed.

(** A last run of groups. *)
Lemma ipv6_loop_groups input gs : forall fuel octets ellipsis,
  gs <> [] -> Forall group_ok gs -> (length octets + 2 * length gs <= 16)%nat -> (length gs <= fuel)%nat ->
  ipv6_loop fuel input octets ellipsis (hexes gs) = Ok (octets ++ flat_map group_bytes gs, ellipsis, []).
Proof.
  induction gs as [|g gs IH]; intros fuel octets ellipsis Hne Hok Hroom Hf; [done|].
  apply Forall_cons in Hok as [Hg Hok]. destruct fuel as [|fuel]; [simpl in *; lia|].
  destruct gs as [|g' gs].
  - change (hexes [g]) with (to_chars (show_hex g)). rewrite ipv6_step_end by (simpl in *; done || lia). done.
  - rewrite hexes_cons. destruct (hexes_head g' gs) as (c & t & E & Hc); [by inversion Hok|].
    rewrite E, ipv6_step_colon by (simpl in *; done || lia). rewrite <-E, IH; [|done|done| |simpl in *; lia].
    + cbn [flat_map]. by rewrite <-app_assoc.
    + rewrite length_app. simpl in *. lia.
Qed.

(** A run of groups ended by the ellipsis. *)
Lemma ipv6_loop_ellipsis input r gs : forall fuel octets,
  gs <> [] -> Forall group_ok gs -> (length octets + 2 * length gs <= 16)%nat -> (length gs <= fuel)%nat ->
  let octets' := octets ++ flat_map group_bytes gs in
  ipv6_loop fuel input octets None (hexes gs ++ ":"%char :: ":"%char :: r) =
  match r with
  | [] => Ok (octets', Some (length octets'), [])
  | _ => ipv6_loop (fuel - length gs) input octets' (Some (length octets')) r
  end.
Proof.
  induction gs as [|g gs IH]; intros fuel octets Hne Hok Hroom Hf; [done|]. cbv zeta.
  apply Forall_cons in Hok as [Hg Hok]. destruct fuel as [|fuel]; [simpl in *; lia|].
  destruct gs as [|g' gs].
  - change (hexes [g]) with (to_chars (show_hex g)). rewrite ipv6_step_ellipsis by (simpl in *; done || lia).
    cbn [flat_map length]. rewrite app_nil_r. replace (S fuel - 1)%nat with fuel by lia. done.
  - rewrite hexes_cons, <-app_assoc. destruct (hexes_head g' gs) as (c & t & E & Hc); [by inversion Hok|].
    rewrite E. cbn [app]. rewrite ipv6_step_colon by (simpl in *; done || lia).
    change (c :: t ++ ":"%char :: ":"%char :: r) with ((c :: t) ++ ":"%char :: ":"%char :: r).
    rewrite <-E, IH; [|done|done| |simpl in *; lia].
    + cbn [flat_map length]. rewrite <-app_assoc. done.
    + rewrite length_app. simpl in *. lia.
Qed.

(** The run of zero segments that is left out consists of zeros. *)
Definition run_ok (l : list Z) (r : nat * nat) : Prop := forall j, (fst r <= j < fst r + snd r)%nat -> l !! j = Some 0.

Lemma zero_run_ok l : forall pre cur best,
  run_ok (pre ++ l) cur -> run_ok (pre ++ l) best -> (snd cur = 0 \/ fst cur + snd cur = length pre)%nat ->
  run_ok (pre ++ l) (zero_run l (length pre) cur best).
Proof.
  induction l as [|g l IH]; intros pre cur best Hc Hb He; cbn [zero_run]; [done|].
  assert (S (length pre) = length (pre ++ [g])) as Hlen by (rewrite length_app; simpl; lia).
  assert (pre ++ g :: l = (pre ++ [g]) ++ l) as Happ by (by rewrite <-app_assoc).
  assert ((pre ++ g :: l) !! length pre = Some g) as Hg by (by apply list_lookup_middle).
  destruct (Z.eqb_spec g 0) as [-> |Hn].
  - set (cur' := if (snd cur =? 0)%nat then _ else _).
    assert (run_ok (pre ++ 0 :: l) cur' /\ (fst cur' + snd cur' = S (length pre))%nat) as [Hc' He'].
    { unfold cur'. destruct (Nat.eqb_spec (snd cur) 0) as [E|E]; simpl; (split; [|lia]).
      - intros j Hj. simpl in Hj. replace j with (length pre) by lia. done.
      - intros j Hj. simpl in Hj. destruct (decide (j = length pre)) as [-> |]; [done|]. apply Hc. lia. }
    rewrite Happ, Hlen in *. apply IH; [done|by destruct (_ <? _)%nat|lia].
  - rewrite Happ, Hlen in *. apply IH; [|done|by left]. intros j Hj. simpl in Hj. lia.
Qed.

Lemma run_split l s n : run_ok l (s, n) -> l = take s l ++ replicate n 0 ++ drop (s + n) l.
Proof.
  intros Hr. rewrite <-(take_drop s l) at 1. f_equal. rewrite <-(take_drop n (drop s l)) at 1.
  rewrite drop_drop. f_equal. apply list_eq. intros j. destruct (decide (j < n)%nat) as [Hj|Hj].
  - rewrite lookup_take_lt, lookup_drop, lookup_replicate_2 by done. apply Hr. simpl. lia.
  - rewrite lookup_take_ge by lia. symmetry. apply lookup_ge_None. rewrite length_replicate. lia.
Qed.

Lemma zeros_bytes n : flat_map group_bytes (replicate n 0) = replicate (2 * n) 0.
Proof.
  induction n as [|n IH]; [done|]. replace (2 * S n)%nat with (S (S (2 * n))) by lia.
  cbn [replicate flat_map]. by rewrite IH.
Qed.

Lemma length_flat_bytes gs : length (flat_map group_bytes gs) = (2 * length gs)%nat.
Proof. induction gs as [|g gs IH]; [done|]. cbn [flat_map]. rewrite length_app, IH. simpl. lia. Qed.

(** The eight segments are the sixteen octets. *)
Lemma group_bytes_div x : group_bytes (x `mod` 65536) = [(x / 256) `mod` 256; x `mod` 256].
Proof.
  unfold group_bytes. rewrite Z.shiftr_div_pow2 by lia. change (2 ^ 8) with 256.
  change 65536 with (256 * 256). rewrite Z.rem_mul_r by lia. f_equal.
  - rewrite (Z.mul_comm 256), Z.div_add, (Z.div_small (x `mod` 256)), Z.add_0_l, Z.mod_mod; [done|lia|..].
    + apply Z.mod_pos_bound. lia.
    + lia.
  - f_equal. rewrite (Z.mul_comm 256), Z.mod_add, Z.mod_mod by lia. done.
Qed.

Lemma segments_bytes a : flat_map group_bytes (segments a) = to_be_bytes 16 a.
Proof.
  unfold segments, segment. cbn [map flat_map app]. rewrite !group_bytes_div. cbn [to_be_bytes app].
  rewrite !Z.div_div by lia. cbn. done.
Qed.

Lemma segments_ok a : Forall group_ok (segments a).
Proof.
  apply Forall_map, Forall_forall. intros i _. unfold group_ok, segment. simpl.
  apply Z.mod_pos_bound. lia.
Qed.

(** A text with a leading group is not taken for a leading ellipsis. *)
Lemma ipv6_body_run input c t : separator c = false -> ipv6_body input (c :: t) = ipv6_run input None (c :: t).
Proof.
  intros Hc. unfold ipv6_body. destruct t as [|c1 t]; [done|].
  destruct (Ascii.eqb_spec c ":") as [-> |]; done.
Qed.

Lemma hexes_nonempty gs : Forall group_ok gs -> gs <> [] -> exists c t, hexes gs = c :: t /\ separator c = false.
Proof. intros Hok Hne. destruct gs as [|g gs]; [done|]. apply Forall_cons in Hok as [Hg _]. by apply hexes_head. Qed.

(** All groups written out. *)
Lemma ipv6_body_full input gs :
  Forall group_ok gs -> length gs = 8%nat ->
  ipv6_body input (hexes gs) = Ok (ipv6_of_bytes (flat_map group_bytes gs)).
Proof.
  intros Hok Hl. destruct (hexes_nonempty gs Hok) as (c & t & E & Hc); [by intros ->|].
  rewrite E, ipv6_body_run, <-E by done. unfold ipv6_run.
  rewrite ipv6_loop_groups; [|by intros ->|done|simpl; lia|lia].
  cbn [app result_bind]. unfold ipv6_finish. rewrite length_flat_bytes, Hl. done.
Qed.

(** The bytes that [ipv6_finish] puts around the ellipsis. *)
Lemma finish_ellipsis input A B n :
  (length A + length B + n = 16)%nat -> (0 < n)%nat ->
  ipv6_finish input (A ++ B) (Some (length A)) [] = Ok (A ++ replicate n 0 ++ B).
Proof.
  intros Hl Hn. unfold ipv6_finish. rewrite length_app, (proj2 (Nat.ltb_lt _ 16)) by lia.
  rewrite take_app_length, drop_app_length. do 3 f_equal. f_equal. lia.
Qed.

(** Groups, the ellipsis, groups. *)
Lemma ipv6_body_compressed input gs hs n :
  Forall group_ok gs -> Forall group_ok hs -> (length gs + length hs + n = 8)%nat -> (0 < n)%nat ->
  ipv6_body input (hexes gs ++ ":"%char :: ":"%char :: hexes hs) =
  Ok (ipv6_of_bytes (flat_map group_bytes gs ++ replicate (2 * n) 0 ++ flat_map group_bytes hs)).
Proof.
  intros Hgs Hhs Hlen Hn.
  assert (forall A e k, length A = (2 * length gs)%nat -> e = length A -> (length hs <= k)%nat -> hs <> [] ->
    (let? '(octets, ellipsis, text) := ipv6_loop k input A (Some e) (hexes hs) in
     let? octets := ipv6_finish input octets ellipsis text in Ok (ipv6_of_bytes octets)) =
    Ok (ipv6_of_bytes (A ++ replicate (2 * n) 0 ++ flat_map group_bytes hs))) as Htail.
  { intros A e k HA -> Hk Hne. rewrite ipv6_loop_groups by (done || lia). cbn [result_bind].
    rewrite (finish_ellipsis input A _ (2 * n)); [done| |lia]. rewrite length_flat_bytes. lia. }
  destruct (decide (gs = [])) as [-> |Hgs0].
  - cbn [hexes map join app flat_map ipv6_body Ascii.eqb Bool.eqb andb].
    destruct (decide (hs = [])) as [-> |Hhs0].
    { cbn [hexes map join]. do 2 f_equal. cbn [flat_map length] in *. replace n with 8%nat by lia. reflexivity. }
    destruct (hexes_nonempty hs Hhs Hhs0) as (c & t & E & _). rewrite E, <-E.
    unfold ipv6_run. apply (Htail [] 0%nat 8%nat); simpl in *; done || lia.
  - destruct (hexes_nonempty gs Hgs Hgs0) as (c & t & E & Hc). rewrite E. cbn [app].
    rewrite ipv6_body_run by done. change (c :: t ++ ?r) with ((c :: t) ++ r). rewrite <-E. unfold ipv6_run.
    rewrite ipv6_loop_ellipsis; [|done|done|simpl; lia|lia]. cbn [app].
    destruct (decide (hs = [])) as [-> |Hhs0].
    { cbn [hexes map join result_bind flat_map]. rewrite <-(app_nil_r (flat_map group_bytes gs)) at 1.
      rewrite (finish_ellipsis input _ [] (2 * n)); [done| |lia]. rewrite length_flat_bytes. simpl in *. lia. }
    destruct (hexes_nonempty hs Hhs Hhs0) as (c' & t' & E' & _). rewrite E', <-E'.
    apply Htail; [apply length_flat_bytes|done|simpl; lia|done].
Qed.

(** [::ffff:a.b.c.d] *)
Lemma ipv6_body_mapped input v :
  ipv6_body input (to_chars "::ffff:" ++ to_chars (show_ipv4 v)) =
  Ok (ipv6_of_bytes (replicate 10 0 ++ [255; 255] ++ to_be_bytes 4 v)).
Proof.
  assert (exists ds r, to_chars (show_ipv4 v) = map digit_char ds ++ "."%char :: r /\
    (0 < length ds <= 3)%nat /\ Forall (fun d => 0 <= d < 16) ds) as (ds & r & E & Hl & Hd).
  { unfold show_ipv4. rewrite to_chars_concat. pose proof (length_to_be_bytes 4 v) as Hl.
    pose proof (to_be_bytes_ok 4 v) as Hb. destruct (to_be_bytes 4 v) as [|b [|b' l]]; [done|done|].
    apply Forall_cons in Hb as [Hb _]. unfold byte_ok in Hb. rewrite join_dots. cbn [flat_map app].
    destruct (show_dec_digits b 3) as (ds & -> & ? & ? & _); [lia|lia|].
    eexists ds, _. split_and!; [reflexivity|lia|lia|by apply digits_10_16]. }
  destruct ds as [|d ds]; [simpl in Hl; lia|]. apply Forall_cons in Hd as [Hd Hds].
  change (to_chars "::ffff:") with (":"%char :: ":"%char :: to_chars (show_hex 65535) ++ [":"%char]).
  cbn [app ipv6_body Ascii.eqb Bool.eqb andb]. rewrite <-app_assoc. cbn [app].
  change (to_chars (show_hex 65535)) with ("f"%char :: to_chars "fff") at 1.
  cbn [app]. change ("f"%char :: to_chars "fff" ++ ?x) with (to_chars (show_hex 65535) ++ x).
  unfold ipv6_run. change 8%nat with (S 7). rewrite E. cbn [map app].
  rewrite ipv6_step_colon; [|simpl; lia|unfold group_ok; lia|by apply digit_char_plain].
  change (digit_char d :: map digit_char ds ++ ?x) with (map digit_char (d :: ds) ++ x). rewrite <-E.
  cbn [ipv6_loop app length group_bytes Nat.leb].
  rewrite E at 2. rewrite scan_group_digits; [|by constructor|simpl in *; lia|simpl; lia|done].
  cbn [result_bind length Nat.add Nat.eqb Ascii.eqb Bool.eqb andb negb Nat.ltb Nat.leb].
  rewrite ipv4_round_trip. cbn [result_bind]. reflexivity.
Qed.

(** The printed forms, as texts. *)
Definition plain (c : ascii) (l : chars) : Prop := c ∉ l.

Lemma plain_digits ds c : Forall (fun d => 0 <= d < 16) ds -> separator c = true -> plain c (map digit_char ds).
Proof. apply digits_plain. Qed.

Lemma plain_show_hex g c : group_ok g -> separator c = true -> plain c (to_chars (show_hex g)).
Proof. intros Hg Hc. destruct (show_hex_digits g Hg) as (ds & -> & _ & Hd & _). by apply plain_digits. Qed.

Lemma plain_show_dec n c : 0 <= n < 1000 -> separator c = true -> plain c (to_chars (show_dec n)).
Proof.
  intros Hn Hc. destruct (show_dec_digits n 3) as (ds & -> & _ & Hd & _); [lia|lia|].
  apply plain_digits; [by apply digits_10_16|done].
Qed.

Lemma plain_app c a b : plain c (a ++ b) <-> plain c a /\ plain c b.
Proof. unfold plain. rewrite elem_of_app. tauto. Qed.

Lemma plain_join c sep l : plain c sep -> Forall (plain c) l -> plain c (join sep l).
Proof.
  intros Hs. induction 1 as [|x l Hx Hl IH]; [apply not_elem_of_nil|].
  destruct l as [|y l]; [done|]. cbn [join]. by rewrite !plain_app.
Qed.

Lemma plain_hexes gs c : Forall group_ok gs -> separator c = true -> c <> ":"%char -> plain c (hexes gs).
Proof.
  intros Hok Hc Hne. apply plain_join; [by apply not_elem_of_cons; split; [|apply not_elem_of_nil]|].
  rewrite List.map_map. apply Forall_map. eapply Forall_impl; [exact Hok|]. intros g Hg. by apply plain_show_hex.
Qed.

Lemma plain_ipv4 a c : separator c = true -> c <> "."%char -> plain c (to_chars (show_ipv4 a)).
Proof.
  intros Hc Hne. unfold show_ipv4. rewrite to_chars_concat.
  apply plain_join; [by apply not_elem_of_cons; split; [|apply not_elem_of_nil]|].
  rewrite List.map_map. apply Forall_map. eapply Forall_impl; [apply to_be_bytes_ok|].
  intros b Hb. unfold byte_ok in Hb. apply plain_show_dec; [lia|done].
Qed.

Lemma address_kind_digits ds l :
  Forall (fun d => 0 <= d < 16) ds -> address_kind (map digit_char ds ++ l) = address_kind l.
Proof.
  induction 1 as [|d ds Hd _ IH]; [done|]. cbn [map app address_kind].
  pose proof (digit_char_plain d Hd) as Hp. unfold separator in Hp. rewrite orb_false_iff in Hp.
  destruct Hp as [-> _]. done.
Qed.

Lemma address_kind_hexes gs l :
  Forall group_ok gs -> address_kind (hexes gs ++ ":"%char :: l) = Some ":"%char.
Proof.
  destruct gs as [|g gs]; [done|]. intros [Hg _]%Forall_cons.
  destruct (show_hex_digits g Hg) as (ds & E & _ & Hd & _).
  destruct gs as [|g' gs].
  - change (hexes [g]) with (to_chars (show_hex g)). rewrite E, address_kind_digits; done.
  - rewrite hexes_cons, E, <-app_assoc, address_kind_digits; done.
Qed.

Lemma address_kind_ipv4 a : address_kind (to_chars (show_ipv4 a)) = Some "."%char.
Proof.
  unfold show_ipv4. rewrite to_chars_concat. pose proof (length_to_be_bytes 4 a) as Hl.
  pose proof (to_be_bytes_ok 4 a) as Hb. destruct (to_be_bytes 4 a) as [|b [|b' l]]; [done|done|].
  apply Forall_cons in Hb as [Hb _]. unfold byte_ok in Hb. rewrite join_dots. cbn [flat_map app].
  destruct (show_dec_digits b 3) as (ds & -> & _ & Hd & _); [lia|lia|].
  by rewrite address_kind_digits by (by apply digits_10_16).
Qed.

Lemma to_chars_hexes gs : to_chars (String.concat ":" (map show_hex gs)) = hexes gs.
Proof. apply to_chars_concat. Qed.

(** The three shapes of a printed IPv6 address, with what they denote. *)
Inductive ipv6_form (a : Z) : chars -> Prop :=
| form_mapped v :
    replicate 10 0 ++ [255; 255] ++ to_be_bytes 4 v = to_be_bytes 16 a ->
    ipv6_form a (to_chars "::ffff:" ++ to_chars (show_ipv4 v))
| form_compressed gs hs n :
    Forall group_ok gs -> Forall group_ok hs -> (length gs + length hs + n = 8)%nat -> (0 < n)%nat ->
    flat_map group_bytes gs ++ replicate (2 * n) 0 ++ flat_map group_bytes hs = to_be_bytes 16 a ->
    ipv6_form a (hexes gs ++ ":"%char :: ":"%char :: hexes hs)
| form_full g gs :
    Forall group_ok (g :: gs) -> length gs = 7%nat ->
    flat_map group_bytes (g :: gs) = to_be_bytes 16 a ->
    ipv6_form a (hexes (g :: gs)).

Lemma mapped_bytes a : 0 <= a < 2 ^ 128 -> a / 2 ^ 32 = 0xffff ->
  replicate 10 0 ++ [255; 255] ++ to_be_bytes 4 (a `mod` 2 ^ 32) = to_be_bytes 16 a.
Proof.
  intros Ha Hm. set (v := a `mod` 2 ^ 32). assert (0 <= v < 2 ^ 32) as Hv by (apply Z.mod_pos_bound; lia).
  assert (a = 0xffff * 2 ^ 32 + v) as E by (unfold v; pose proof (Z.div_mod a (2 ^ 32)); lia).
  set (l := replicate 10 0 ++ [255; 255] ++ to_be_bytes 4 v).
  assert (bytes_ok l) as Hl.
  { unfold l. rewrite !bytes_ok_app. split_and!; [by apply (bool_decide_unpack _)..|apply to_be_bytes_ok]. }
  assert (from_be_bytes l = a) as Hf.
  { unfold l. cbn [replicate app]. rewrite !from_be_bytes_cons, from_to_be_bytes by (simpl; lia).
    unfold len. cbn [length]. rewrite length_to_be_bytes. lia. }
  by rewrite <-(to_from_be_bytes l Hl), Hf.
Qed.

Lemma address_text_form a : 0 <= a < 2 ^ 128 -> ipv6_form a (to_chars (address_text (V6 a) None)).
Proof.
  intros Ha. unfold address_text, to_ipv4_mapped, show_ip, show_ipv6.
  destruct (Z.eqb_spec (a / 2 ^ 32) 0xffff) as [Hm|_].
  { rewrite to_chars_app. by apply form_mapped, mapped_bytes. }
  pose proof (segments_ok a) as Hok. pose proof (segments_bytes a) as Hby.
  assert (length (segments a) = 8%nat) as Hlen by done.
  destruct (zero_run (segments a) 0 (0%nat, 0%nat) (0%nat, 0%nat)) as [s n] eqn:Hz.
  assert (run_ok (segments a) (s, n)) as Hrun.
  { rewrite <-Hz. apply (zero_run_ok (segments a) []); [..|by left]; intros j Hj; simpl in Hj; lia. }
  destruct (Nat.ltb_spec 1 n) as [Hn|Hn].
  - rewrite !to_chars_app, !to_chars_hexes. cbn [to_chars String.list_ascii_of_string app].
    pose proof (run_split _ s n Hrun) as Hsp.
    assert (s + n <= 8)%nat as Hsn.
    { pose proof (Hrun (s + n - 1)%nat ltac:(simpl; lia)) as Hlk. apply lookup_lt_Some in Hlk. lia. }
    apply (form_compressed a _ _ n); [by apply Forall_take|by apply Forall_drop| |lia|].
    + rewrite length_take, length_drop, Hlen. lia.
    + rewrite <-zeros_bytes, <-!List.flat_map_app, <-Hsp. done.
  - rewrite to_chars_hexes. destruct (segments a) as [|g gs]; [done|]. apply form_full; [done| |done].
    simpl in Hlen. lia.
Qed.

Lemma ipv6_form_parse a input t : 0 <= a < 2 ^ 128 -> ipv6_form a t -> ipv6_body input t = Ok (V6 a).
Proof.
  intros Ha Hf. assert (ipv6_of_bytes (to_be_bytes 16 a) = V6 a) as Hback by (by apply ipv6_of_octets).
  destruct Hf as [v E | gs hs n Hg Hh Hl Hn E | g gs Hok Hl E].
  - by rewrite ipv6_body_mapped, E, Hback.
  - by rewrite (ipv6_body_compressed _ _ _ n), E, Hback.
  - rewrite ipv6_body_full, E, Hback; [done|done|]. simpl. lia.
Qed.

Lemma ipv6_form_kind a t r : ipv6_form a t -> address_kind (t ++ r) = Some ":"%char.
Proof.
  intros [v E | gs hs n Hg Hh Hl Hn E | g gs Hok Hl E]; [done| |].
  - rewrite <-app_assoc. by apply address_kind_hexes.
  - destruct gs as [|g' gs]; [done|]. rewrite hexes_cons, <-app_assoc. apply Forall_cons in Hok as [Hg _].
    by apply (address_kind_hexes [g] (hexes (g' :: gs) ++ r)), Forall_singleton.
Qed.

Lemma ipv6_form_plain a t c :
  ipv6_form a t -> separator c = true -> c <> ":"%char -> c <> "."%char -> plain c t.
Proof.
  intros Hf Hs H1 H2. destruct Hf as [v E | gs hs n Hg Hh Hl Hn E | g gs Hok Hl E].
  - apply plain_app. split; [|by apply plain_ipv4]. unfold separator in Hs.
    intros Hin. revert Hs H1 H2. cbn in Hin. set_unfold in Hin. destruct_or?; subst; try done.
  - rewrite plain_app. split; [by apply plain_hexes|].
    unfold plain. rewrite !not_elem_of_cons. split_and!; [done|done|by apply plain_hexes].
  - by apply plain_hexes.
Qed.

(** ** Every accepted address is in range *)

Lemma to_digit_range radix c d : 0 <= radix -> to_digit radix c = Some d -> 0 <= d < radix.
Proof.
  unfold to_digit. intros Hr. cbv zeta.
  destruct (Z.leb_spec 48 (chr c)), (Z.leb_spec (chr c) 57), (Z.leb_spec 97 (chr c)), (Z.leb_spec (chr c) 122),
    (Z.leb_spec 65 (chr c)), (Z.leb_spec (chr c) 90); cbn [andb]; try lia;
    destruct (Z.ltb_spec (chr c - 48) radix); destruct (Z.ltb_spec (chr c - 87) radix);
    destruct (Z.ltb_spec (chr c - 55) radix); rewrite ?Z.ltb_irrefl; intros [= <-]; lia.
Qed.

Lemma ipv4_scan_ok input text : forall prev fields value digits l,
  bytes_ok fields -> 0 <= value < 256 -> (length fields <= 3)%nat ->
  ipv4_scan input prev fields value digits text = Ok l -> bytes_ok l /\ length l = 4%nat.
Proof.
  induction text as [|c t IH]; intros prev fields value digits l Hb Hv Hl; cbn [ipv4_scan].
  - destruct (Nat.ltb_spec (length fields) 3) as [|Hge]; [done|]. intros [= <-].
    rewrite bytes_ok_app, length_app. split; [split; [done|by apply bytes_ok_singleton]|simpl; lia].
  - destruct (to_digit 10 c) as [d|] eqn:Hd.
    + apply to_digit_range in Hd; [|lia]. destruct (_ && _)%bool; [done|].
      destruct (Z.ltb_spec 255 (value * 10 + d)); [done|]. apply IH; [done|lia|done].
    + destruct (Ascii.eqb c "."); [|done]. destruct (_ || _)%bool; [done|].
      destruct (Nat.eqb_spec (length fields) 3) as [|Hne]; [done|].
      apply IH; [apply bytes_ok_app; split; [done|by apply bytes_ok_singleton]|lia|].
      rewrite length_app. simpl. lia.
Qed.

Lemma ipv4_fields_ok input text l : ipv4_fields input text = Ok l -> bytes_ok l /\ length l = 4%nat.
Proof. apply ipv4_scan_ok; [constructor|lia|simpl; lia]. Qed.

Lemma scan_group_ok input text rest : forall value offset v k r,
  0 <= value <= 65535 -> scan_group input text value offset rest = Ok (v, k, r) -> 0 <= v <= 65535.
Proof.
  induction rest as [|c t IH]; intros value offset v k r Hv; cbn [scan_group]; [by intros [= <- _ _]|].
  destruct (to_digit 16 c) as [d|] eqn:Hd; [|by intros [= <- _ _]].
  apply to_digit_range in Hd; [|lia]. rewrite Z.shiftl_mul_pow2 by lia.
  destruct (3 <? offset)%nat; [done|]. destruct (Z.ltb_spec 65535 (value * 2 ^ 4 + d)); [done|].
  apply IH. lia.
Qed.

Lemma group_bytes_ok v : bytes_ok (group_bytes v).
Proof. repeat apply Forall_cons_2; [apply Z.mod_pos_bound; lia..|constructor]. Qed.

(** The bytes written so far: pairs, at most sixteen. *)
Definition octets_ok (l : list Z) : Prop := bytes_ok l /\ (exists k, length l = 2 * k)%nat /\ (length l <= 16)%nat.

Lemma octets_ok_group l v : octets_ok l -> (length l < 16)%nat -> octets_ok (l ++ group_bytes v).
Proof.
  intros (Hb & [k Hk] & _) Hl. split_and!.
  - apply bytes_ok_app. split; [done|apply group_bytes_ok].
  - exists (S k). rewrite length_app. simpl. lia.
  - rewrite length_app. simpl. lia.
Qed.

Lemma ipv6_loop_ok input fuel : forall octets e text o e' t,
  octets_ok octets -> ipv6_loop fuel input octets e text = Ok (o, e', t) -> octets_ok o.
Proof.
  induction fuel as [|fuel IH]; intros octets e text o e' t Hok; cbn [ipv6_loop]; [by intros [= <- _ _]|].
  destruct (Nat.leb_spec 16 (length octets)) as [|Hlt]; [by intros [= <- _ _]|].
  destruct (scan_group input text 0 0 text) as [[[v k] rest]|] eqn:Hs; [|done]. cbn [result_bind].
  pose proof (octets_ok_group octets v Hok Hlt) as Hok'.
  destruct (k =? 0)%nat; [done|]. destruct (match rest with [] => false | c :: _ => Ascii.eqb c "." end).
  - destruct (_ && _)%bool; [done|]. destruct (Nat.ltb_spec 16 (length octets + 4)); [done|].
    destruct (ipv4_fields input text) as [l|] eqn:Hf; [|done]. apply ipv4_fields_ok in Hf as [Hfb Hfl].
    intros [= <- _ _]. destruct Hok as (Hb & [j Hj] & _). split_and!.
    + by apply bytes_ok_app.
    + exists (2 + j)%nat. rewrite length_app. lia.
    + rewrite length_app. lia.
  - destruct rest as [|c [|c1 rest2]]; [by intros [= <- _ _]|by destruct (negb _)|].
    destruct (negb _); [done|]. destruct (Ascii.eqb c1 ":"); [|by apply IH].
    destruct e; [done|]. destruct rest2; [by intros [= <- _ _]|by apply IH].
Qed.

Lemma ipv6_finish_ok input o e t l : octets_ok o -> ipv6_finish input o e t = Ok l -> bytes_ok l /\ length l = 16%nat.
Proof.
  intros (Hb & _ & Hl). unfold ipv6_finish. destruct t; [|done].
  destruct (Nat.ltb_spec (length o) 16) as [Hlt|Hge].
  - destruct e as [e|]; [|done]. intros [= <-]. rewrite !bytes_ok_app, !length_app, length_replicate.
    split_and!; [by apply bytes_ok_take|by apply Forall_replicate|by apply bytes_ok_drop|].
    rewrite length_take, length_drop. lia.
  - destruct e; [done|]. intros [= <-]. split; [done|lia].
Qed.

Lemma ipv6_run_ok input e text ip : ipv6_run input e text = Ok ip -> ip_ok ip /\ is_v4 ip = false.
Proof.
  unfold ipv6_run. destruct (ipv6_loop 8 input [] e text) as [[[o e'] t]|] eqn:Hloop; [|done]. cbn [result_bind].
  destruct (ipv6_finish input o e' t) as [l|] eqn:Hfin; [|done]. cbn [result_bind]. intros [= <-].
  apply ipv6_loop_ok in Hloop; [|split_and!; [constructor|by exists 0%nat|simpl; lia]].
  apply ipv6_finish_ok in Hfin as [Hb Hl]; [|done]. split; [|done]. by apply ipv6_of_bytes_ok.
Qed.

Lemma ipv6_body_ok input text ip : ipv6_body input text = Ok ip -> ip_ok ip /\ is_v4 ip = false.
Proof.
  unfold ipv6_body. destruct text as [|c [|c1 rest]]; [apply ipv6_run_ok..|].
  destruct (_ && _)%bool; [|apply ipv6_run_ok]. destruct rest; [|apply ipv6_run_ok].
  intros [= <-]. done.
Qed.

(** A zone is a non-empty suffix of an IPv6 address. *)
Definition zone_ok (ip : IpAddr) (zone : option string) : Prop :=
  match zone with None => True | Some z => is_v4 ip = false /\ z <> ""%string end.

#[export] Instance zone_ok_dec ip zone : Decision (zone_ok ip zone).
Proof. unfold zone_ok. destruct zone; apply _. Defined.

Lemma split_once_parts c l a b : split_once c l = Some (a, b) -> l = a ++ c :: b.
Proof.
  revert a b. induction l as [|x l IH]; intros a b; [done|]. cbn [split_once].
  destruct (Ascii.eqb_spec x c) as [-> |Hne]; [by intros [= <- <-]|].
  destruct (split_once c l) as [[a' b']|]; [|done]. intros [= <- <-]. by rewrite (IH a' b').
Qed.

Lemma parse_addr_ok s ip zone : parse_addr s = Ok (ip, zone) -> ip_ok ip /\ zone_ok ip zone.
Proof.
  unfold parse_addr, parse_address. destruct (address_kind (to_chars s)) as [c|]; [|done].
  destruct (Ascii.eqb c "."); [|destruct (Ascii.eqb c ":"); [|done]].
  - destruct (ipv4_fields _ _) as [l|] eqn:Hf; [|done]. cbn [result_bind]. intros [= <- <-].
    apply ipv4_fields_ok in Hf as [Hb Hl]. split; [by apply ipv4_of_bytes_ok|done].
  - unfold ipv6_address. destruct (split_once "%" (to_chars s)) as [[text z]|].
    + destruct z as [|c0 z]; [done|]. destruct (ipv6_body _ text) as [ip'|] eqn:Hb; [|done].
      cbn [result_bind]. intros [= <- <-]. apply ipv6_body_ok in Hb as [Hok Hv]. done.
    + destruct (ipv6_body _ (to_chars s)) as [ip'|] eqn:Hb; [|done]. cbn [result_bind]. intros [= <- <-].
      by apply ipv6_body_ok in Hb as [Hok Hv].
Qed.

(** ** What accepted texts are made of

    Outside a zone there is no dash, so a text that is an address or a prefix is
    never also a range. *)

Lemma to_digit_dash radix : radix <= 16 -> to_digit radix "-" = None.
Proof. intros Hr. unfold to_digit. cbn. by rewrite Z.ltb_irrefl. Qed.

Lemma not_dash_cons c l : c <> "-"%char -> plain "-" l -> plain "-" (c :: l).
Proof. intros Hc Hl. apply not_elem_of_cons. split; [congruence|done]. Qed.

Lemma digit_not_dash radix c d : radix <= 16 -> to_digit radix c = Some d -> c <> "-"%char.
Proof. intros Hr Hd ->. by rewrite to_digit_dash in Hd. Qed.

Lemma ipv4_scan_plain input text : forall prev fields value digits l,
  ipv4_scan input prev fields value digits text = Ok l -> plain "-" text.
Proof.
  induction text as [|c t IH]; intros prev fields value digits l; cbn [ipv4_scan]; [intros _; apply not_elem_of_nil|].
  destruct (to_digit 10 c) as [d|] eqn:Hd.
  - destruct (_ && _)%bool; [done|]. destruct (255 <? _); [done|]. intros Hl.
    apply not_dash_cons; [by apply (digit_not_dash 10 c d)|by eapply IH].
  - destruct (Ascii.eqb_spec c "."); [|done]. subst c. destruct (_ || _)%bool; [done|]. destruct (_ =? _)%nat; [done|].
    intros Hl. apply not_dash_cons; [done|by eapply IH].
Qed.

Lemma scan_group_plain input text rest : forall value offset v k r,
  scan_group input text value offset rest = Ok (v, k, r) -> plain "-" r -> plain "-" rest.
Proof.
  induction rest as [|c t IH]; intros value offset v k r; cbn [scan_group]; [by intros [= _ _ <-]|].
  destruct (to_digit 16 c) as [d|] eqn:Hd; [|by intros [= _ _ <-]].
  destruct (3 <? offset)%nat; [done|]. destruct (65535 <? _); [done|]. intros Hs Hr.
  apply not_dash_cons; [by apply (digit_not_dash 16 c d)|by eapply IH].
Qed.

Lemma ipv6_loop_plain input fuel : forall octets e text o e' t,
  ipv6_loop fuel input octets e text = Ok (o, e', t) -> plain "-" t -> plain "-" text.
Proof.
  induction fuel as [|fuel IH]; intros octets e text o e' t; cbn [ipv6_loop]; [by intros [= _ _ <-]|].
  destruct (16 <=? length octets)%nat; [by intros [= _ _ <-]|].
  destruct (scan_group input text 0 0 text) as [[[v k] rest]|] eqn:Hs; [|done]. cbn [result_bind].
  destruct (k =? 0)%nat; [done|]. destruct (match rest with [] => false | c :: _ => Ascii.eqb c "." end).
  - destruct (_ && _)%bool; [done|]. destruct (16 <? _)%nat; [done|].
    destruct (ipv4_fields input text) as [l|] eqn:Hf; [|done]. intros _ _. by apply ipv4_scan_plain in Hf.
  - intros Hl Ht. apply (scan_group_plain _ _ _ _ _ _ _ _ Hs).
    destruct rest as [|c rest1]; [apply not_elem_of_nil|]. destruct (Ascii.eqb_spec c ":"); [|done]. subst c.
    apply not_dash_cons; [done|]. cbn [negb] in Hl. destruct rest1 as [|c1 rest2]; [done|].
    destruct (Ascii.eqb_spec c1 ":"); [|by apply (IH _ _ _ _ _ _ Hl)]. subst c1.
    apply not_dash_cons; [done|]. destruct e; [done|]. destruct rest2; [apply not_elem_of_nil|by apply (IH _ _ _ _ _ _ Hl)].
Qed.

Lemma ipv6_run_plain input e text ip : ipv6_run input e text = Ok ip -> plain "-" text.
Proof.
  unfold ipv6_run. destruct (ipv6_loop 8 input [] e text) as [[[o e'] t]|] eqn:Hloop; [|done]. cbn [result_bind].
  destruct (ipv6_finish input o e' t) as [l|] eqn:Hfin; [|done]. intros _. apply (ipv6_loop_plain _ _ _ _ _ _ _ _ Hloop).
  unfold ipv6_finish in Hfin. destruct t; [apply not_elem_of_nil|done].
Qed.

Lemma ipv6_body_plain input text ip : ipv6_body input text = Ok ip -> plain "-" text.
Proof.
  unfold ipv6_body. destruct text as [|c [|c1 rest]]; [apply ipv6_run_plain..|].
  destruct (Ascii.eqb_spec c ":"), (Ascii.eqb_spec c1 ":"); cbn [andb]; try apply ipv6_run_plain. subst c c1.
  destruct rest; intros Hr; (do 2 (apply not_dash_cons; [done|])); [apply not_elem_of_nil|by apply ipv6_run_plain in Hr].
Qed.

Lemma parse_address_plain l ip : parse_address l = Ok (ip, None) -> plain "-" l.
Proof.
  unfold parse_address. destruct (address_kind l) as [c|]; [|done].
  destruct (Ascii.eqb c "."); [|destruct (Ascii.eqb c ":"); [|done]].
  - destruct (ipv4_fields l l) as [f|] eqn:Hf; [|done]. intros _. by apply ipv4_scan_plain in Hf.
  - unfold ipv6_address. destruct (split_once "%" l) as [[text [|z zs]]|].
    + done.
    + by destruct (ipv6_body l text).
    + destruct (ipv6_body l l) as [ip'|] eqn:Hb; [|done]. intros _. by apply ipv6_body_plain in Hb.
Qed.

Lemma rsplit_once_parts c l a b : rsplit_once c l = Some (a, b) -> l = a ++ c :: b.
Proof.
  revert a b. induction l as [|x l IH]; intros a b; [done|]. cbn [rsplit_once].
  destruct (rsplit_once c l) as [[a' b']|]; [intros [= <- <-]; by rewrite (IH a' b')|].
  destruct (Ascii.eqb_spec x c) as [-> |]; [by intros [= <- <-]|done].
Qed.

Lemma parse_digits_plain limit l : forall v n, parse_digits limit v l = Some n -> plain "-" l.
Proof.
  induction l as [|c t IH]; intros v n; cbn [parse_digits]; [intros _; apply not_elem_of_nil|].
  destruct (to_digit 10 c) as [d|] eqn:Hd; [|done]. destruct (_ <=? limit); [|done]. intros Hn.
  apply not_dash_cons; [by apply (digit_not_dash 10 c d)|by eapply IH].
Qed.

Lemma parse_magnitude_plain limit l n : parse_magnitude limit l = Some n -> plain "-" l.
Proof. unfold parse_magnitude. destruct l; [done|]. apply parse_digits_plain. Qed.

Lemma parse_prefix_plain s p : parse_prefix s = Ok p -> plain "-" (to_chars s).
Proof.
  unfold parse_prefix. cbv zeta. destruct (rsplit_once "/" (to_chars s)) as [[a b]|] eqn:Hsp; [|done].
  rewrite (rsplit_once_parts _ _ _ _ Hsp).
  destruct (parse_address a) as [[ip [z|]]|e] eqn:Ha; [done| |by destruct e].
  apply parse_address_plain in Ha. destruct (_ && _)%bool eqn:Hlead; [done|].
  destruct (parse_i64 b) as [n|] eqn:Hb; [|done]. intros _.
  apply plain_app. split; [done|]. apply not_dash_cons; [done|].
  unfold parse_i64 in Hb. destruct b as [|c t]; [done|].
  destruct (Ascii.eqb_spec c "-") as [-> |].
  - destruct t as [|c1 t]; [done|]. cbn in Hlead. done.
  - destruct (Ascii.eqb_spec c "+") as [-> |]; [apply not_dash_cons; [done|]|]; by apply parse_magnitude_plain in Hb.
Qed.

(** ** Round trips *)

Lemma address_text_zone ip z : to_chars (address_text ip (Some z)) = to_chars (address_text ip None) ++ "%"%char :: to_chars z.
Proof. unfold address_text. rewrite !to_chars_app. done. Qed.

Lemma parse_print_address ip zone :
  ip_ok ip -> zone_ok ip zone ->
  parse_address (to_chars (address_text ip zone)) = Ok (ip, to_chars <$> zone).
Proof.
  intros Hok Hz. destruct ip as [a|a].
  - destruct zone as [z|]; [by destruct Hz|]. change (address_text (V4 a) None) with (show_ipv4 a).
    unfold parse_address. rewrite address_kind_ipv4. cbn [Ascii.eqb Bool.eqb]. rewrite ipv4_round_trip. cbn [result_bind fmap option_fmap option_map].
    do 2 f_equal. by apply ipv4_of_octets.
  - pose proof (address_text_form a Hok) as Hf.
    assert (plain "%" (to_chars (address_text (V6 a) None))) as Hp by (by eapply ipv6_form_plain).
    unfold parse_address. destruct zone as [z|].
    + destruct Hz as [_ Hz]. rewrite address_text_zone, (ipv6_form_kind a) by done.
      cbn [Ascii.eqb Bool.eqb]. unfold ipv6_address. rewrite split_once_here by done.
      destruct (to_chars z) as [|c t] eqn:E; [by apply to_chars_nil in E|].
      rewrite (ipv6_form_parse a) by done. cbn [result_bind fmap option_fmap option_map]. by rewrite E.
    + rewrite <-(app_nil_r (to_chars _)), (ipv6_form_kind a), app_nil_r by done.
      cbn [Ascii.eqb Bool.eqb]. unfold ipv6_address. rewrite split_once_none by done.
      by rewrite (ipv6_form_parse a).
Qed.

Lemma parse_print_addr ip zone : ip_ok ip -> zone_ok ip zone -> parse_addr (address_text ip zone) = Ok (ip, zone).
Proof.
  intros Hok Hz. unfold parse_addr. rewrite parse_print_address by done. cbn [result_bind].
  destruct zone as [z|]; [|done]. cbn [fmap option_fmap option_map]. by rewrite of_to_chars.
Qed.

(** A printed prefix length. *)
Lemma parse_digits_fold limit ds : forall v,
  Forall (fun d => 0 <= d < 10) ds -> 0 <= v -> fold_left (fun v d => v * 10 + d) ds v <= limit ->
  parse_digits limit v (map digit_char ds) = Some (fold_left (fun v d => v * 10 + d) ds v).
Proof.
  induction ds as [|d ds IH]; intros v Hd Hv Hl; [done|]. apply Forall_cons in Hd as [Hd Hds].
  cbn [map parse_digits fold_left] in *. rewrite digit_char_10 by done.
  pose proof (dec_fold_ge ds (v * 10 + d) Hds ltac:(lia)).
  rewrite (proj2 (Z.leb_le _ limit)) by lia. apply IH; done || lia.
Qed.

Lemma show_bits_parse n :
  0 <= n <= 128 ->
  parse_i64 (to_chars (show_dec n)) = Some n /\
  ((1 <? length (to_chars (show_dec n)))%nat &&
   negb (match to_chars (show_dec n) with c :: _ => (49 <=? chr c) && (chr c <=? 57) | [] => false end))%bool = false.
Proof.
  intros Hn. destruct (Z.eq_dec n 0) as [-> |Hn0]; [done|].
  destruct (show_dec_digits n 3) as (ds & -> & Hl & Hd & Hv & Hh); [lia|lia|].
  destruct (Hh Hn0) as (d & t & -> & Hpos). pose proof Hd as [Hd0 _]%Forall_cons. split.
  - cbn [map]. assert (chr (digit_char d) = 48 + d) as Hchr by (by apply digit_char_chr).
    unfold parse_i64. destruct (Ascii.eqb_spec (digit_char d) "-") as [E|_]; [rewrite E in Hchr; change (45 = 48 + d) in Hchr; lia|].
    destruct (Ascii.eqb_spec (digit_char d) "+") as [E|_]; [rewrite E in Hchr; change (43 = 48 + d) in Hchr; lia|].
    unfold parse_magnitude. change (digit_char d :: map digit_char t) with (map digit_char (d :: t)).
    fold (dec_value (d :: t)) in *. rewrite parse_digits_fold; fold (dec_value (d :: t)); [by rewrite Hv|done|lia|].
    rewrite Hv. change (n <= 9223372036854775807). lia.
  - cbn [map]. rewrite digit_char_chr by done. rewrite (proj2 (Z.leb_le 49 _)), (proj2 (Z.leb_le _ 57)) by lia.
    by rewrite andb_false_r.
Qed.

Definition prefix_ok (ip : IpAddr) (bits : Z) : Prop := ip_ok ip /\ 0 <= bits <= ip_width ip.

Lemma address_text_plain ip : ip_ok ip -> plain "/" (to_chars (address_text ip None)).
Proof.
  intros Hok. destruct ip as [a|a]; [by apply plain_ipv4|].
  by eapply ipv6_form_plain; [apply address_text_form|..].
Qed.

Lemma parse_print_prefix ip bits : prefix_ok ip bits -> parse_prefix (show_prefix ip bits) = Ok (ip, bits).
Proof.
  intros [Hok Hb]. assert (0 <= bits <= 128) as Hb' by (destruct ip; simpl in Hb; lia).
  unfold show_prefix, parse_prefix. rewrite !to_chars_app.
  change (to_chars "/" ++ ?x) with ("/"%char :: x). cbv zeta.
  rewrite rsplit_once_here by (apply plain_show_dec; [lia|done]).
  rewrite (parse_print_address ip None) by done. cbn [fmap option_fmap option_map].
  destruct (show_bits_parse bits Hb') as [-> ->].
  rewrite (proj2 (Z.leb_le 0 bits)) by lia. cbn [andb].
  rewrite (proj2 (Z.leb_le bits _)); [done|]. destruct ip; simpl in *; lia.
Qed.

Lemma parse_address_ok l ip zone : parse_address l = Ok (ip, zone) -> ip_ok ip.
Proof.
  intros H. apply (parse_addr_ok (of_chars l) ip (of_chars <$> zone)). unfold parse_addr. by rewrite to_of_chars, H.
Qed.

Lemma parse_prefix_ok s ip bits : parse_prefix s = Ok (ip, bits) -> prefix_ok ip bits.
Proof.
  unfold parse_prefix. cbv zeta. destruct (rsplit_once _ _) as [[address b]|]; [|done].
  destruct (parse_address address) as [[ip' [z|]]|e] eqn:Ha; [done| |by destruct e].
  destruct (_ && _)%bool; [done|]. destruct (parse_i64 b) as [n|]; [|done].
  destruct (Z.leb_spec 0 n); [|done]. cbn [andb]. destruct (Z.leb_spec n (if is_v4 ip' then 32 else 128)) as [Hn|]; [|done].
  intros [= <- <-]. split; [by eapply parse_address_ok|]. destruct ip'; simpl in *; lia.
Qed.

Lemma parse_prefix_text_fixed s p : parse_prefix_text s = Ok p -> parse_prefix_text p = Ok p.
Proof.
  unfold parse_prefix_text. destruct (parse_prefix s) as [[ip bits]|] eqn:Hs; [|done].
  cbn [result_bind]. intros [= <-]. rewrite parse_print_prefix; [done|]. by eapply parse_prefix_ok.
Qed.

Lemma parse_prefix_text_nonempty s p : parse_prefix_text s = Ok p -> p <> ""%string /\ s <> ""%string.
Proof.
  intros Hp. pose proof (parse_prefix_text_fixed s p Hp) as Hf. split; intros ->; done.
Qed.

(** C22. Printing an address and parsing the text back gives the same address and
    zone, for every IPv4 and IPv6 address: zero compression, IPv4-mapped addresses
    and zones included. *)
Theorem address_round_trip ip zone :
  ip_ok ip -> zone_ok ip zone -> parse_addr (address_text ip zone) = Ok (ip, zone).
Proof. apply parse_print_addr. Qed.

(** Every accepted prefix text denotes an in-range address with a prefix
    length of its family, and its canonical text parses to the same prefix, so
    canonical texts are fixed points and equal texts mean equal prefixes. *)
Theorem prefix_text_canonical s p :
  parse_prefix_text s = Ok p ->
  exists ip bits, parse_prefix s = Ok (ip, bits) /\ prefix_ok ip bits /\
    parse_prefix p = Ok (ip, bits) /\ parse_prefix_text p = Ok p.
Proof.
  unfold parse_prefix_text at 1. destruct (parse_prefix s) as [[ip bits]|] eqn:Hs; [|done].
  cbn [result_bind]. intros [= <-]. pose proof (parse_prefix_ok _ _ _ Hs) as Hok.
  exists ip, bits. unfold parse_prefix_text. by rewrite parse_print_prefix.
Qed.

(** ** The order of prefixes *)

Lemma div_mul_div a b c : 0 < b -> 0 < c -> (a / b * b) / (b * c) = a / (b * c).
Proof. intros Hb Hc. by rewrite <-!Z.div_div, Z.div_mul by lia. Qed.

Lemma land_mask b j : 0 <= b < 256 -> 0 < j <= 8 ->
  Z.land b (if 8 - j =? 0 then 0 else (Z.shiftl 255 j) `mod` 256) = b / 2 ^ j * 2 ^ j.
Proof.
  assert (forallb (fun b => forallb (fun j => Z.land b (if 8 - j =? 0 then 0 else (Z.shiftl 255 j) `mod` 256) =? b / 2 ^ j * 2 ^ j)
    [1; 2; 3; 4; 5; 6; 7; 8]) (map Z.of_nat (seq 0 256)) = true) as H by (vm_compute; reflexivity).
  intros Hb Hj. rewrite forallb_forall in H. specialize (H b). rewrite forallb_forall in H.
  apply Z.eqb_eq, H.
  - apply List.in_map_iff. exists (Z.to_nat b). split; [lia|]. apply List.in_seq. lia.
  - simpl. lia.
Qed.

Lemma to_be_bytes_S k v : to_be_bytes (S k) v = (v / 256 ^ Z.of_nat k) `mod` 256 :: to_be_bytes k v.
Proof. done. Qed.

Lemma masked_zero k a : masked (to_be_bytes k a) 0 = to_be_bytes k 0.
Proof.
  induction k as [|k IH]; [done|]. rewrite !to_be_bytes_S. cbn [masked Z.leb Z.compare Z.eqb].
  rewrite Z.land_0_r, IH, Z.div_0_l; [done|]. apply Z.pow_nonzero; lia.
Qed.

(** Clearing the host bits byte by byte is rounding down to a multiple of the
    block size. *)
Lemma masked_network n : forall a r,
  0 <= r <= 8 * Z.of_nat n ->
  masked (to_be_bytes n a) r = to_be_bytes n (a / 2 ^ (8 * Z.of_nat n - r) * 2 ^ (8 * Z.of_nat n - r)).
Proof.
  induction n as [|k IH]; intros a r Hr; [done|].
  assert (256 ^ Z.of_nat k = 2 ^ (8 * Z.of_nat k)) as H256 by (rewrite Z.pow_mul_r by lia; done).
  rewrite !to_be_bytes_S. cbn [masked]. destruct (Z.leb_spec 8 r) as [H8|H8].
  - rewrite IH by lia. replace (8 * Z.of_nat (S k) - r) with (8 * Z.of_nat k - (r - 8)) by lia.
    set (e := 8 * Z.of_nat k - (r - 8)). f_equal. f_equal.
    replace (256 ^ Z.of_nat k) with (2 ^ e * 2 ^ (r - 8)) by (rewrite H256, <-Z.pow_add_r by lia; f_equal; lia).
    symmetry. apply div_mul_div; apply Z.pow_pos_nonneg; lia.
  - replace (8 * Z.of_nat (S k) - r) with (8 * Z.of_nat k + (8 - r)) by lia.
    rewrite Z.pow_add_r, <-H256 by lia. set (j := 8 - r). assert (0 < j <= 8) as Hj by lia.
    assert (0 < 256 ^ Z.of_nat k) by (apply Z.pow_pos_nonneg; lia). assert (0 < 2 ^ j) by (apply Z.pow_pos_nonneg; lia).
    f_equal.
    + replace (r =? 0) with (8 - j =? 0) by (f_equal; lia).
      rewrite land_mask by (try apply Z.mod_pos_bound; lia).
      rewrite <-Z.div_div by lia. set (x := a / 256 ^ Z.of_nat k).
      replace (x / 2 ^ j * (256 ^ Z.of_nat k * 2 ^ j)) with (x / 2 ^ j * 2 ^ j * 256 ^ Z.of_nat k) by ring.
      rewrite Z.div_mul by lia.
      assert (256 = 2 ^ j * 2 ^ (8 - j)) as E by (rewrite <-Z.pow_add_r by lia; replace (j + (8 - j)) with 8 by lia; done).
      assert (0 < 2 ^ (8 - j)) by (apply Z.pow_pos_nonneg; lia).
      rewrite E, (Z.mul_comm (x / 2 ^ j)), Z.mul_mod_distr_l by lia.
      rewrite Z.rem_mul_r, (Z.mul_comm (2 ^ j)) , Z.div_add, (Z.div_small (x `mod` 2 ^ j)) by (try apply Z.mod_pos_bound; lia).
      ring.
    + rewrite masked_zero.
      replace (a / (256 ^ Z.of_nat k * 2 ^ j) * (256 ^ Z.of_nat k * 2 ^ j))
        with (a / (256 ^ Z.of_nat k * 2 ^ j) * 2 ^ j * 256 ^ Z.of_nat k + 0) by ring.
      symmetry. apply to_be_bytes_app_high; lia.
Qed.

Lemma bytes_cmp_compare n a b :
  bytes_cmp (to_be_bytes n a) (to_be_bytes n b) = Z.compare (a `mod` 256 ^ Z.of_nat n) (b `mod` 256 ^ Z.of_nat n).
Proof.
  induction n as [|k IH]; [simpl; by rewrite !Z.mod_1_r|].
  rewrite !to_be_bytes_S. cbn [bytes_cmp]. rewrite IH. set (B := 256 ^ Z.of_nat k).
  assert (0 < B) as HB by (apply Z.pow_pos_nonneg; lia).
  assert (forall x, x `mod` 256 ^ Z.of_nat (S k) = x `mod` B + B * ((x / B) `mod` 256)) as Hx.
  { intros x. rewrite Nat2Z.inj_succ, Z.pow_succ_r, Z.mul_comm by lia. apply Z.rem_mul_r; lia. }
  rewrite !Hx. pose proof (Z.mod_pos_bound a B HB). pose proof (Z.mod_pos_bound b B HB).
  destruct (Z.compare_spec ((a / B) `mod` 256) ((b / B) `mod` 256)) as [E|E|E]; cbn [then_with].
  - by rewrite E, !(Z.add_comm _ (B * _)), Z.add_compare_mono_l.
  - symmetry. apply Z.compare_lt_iff. nia.
  - symmetry. apply Z.compare_gt_iff. nia.
Qed.

(** The key a prefix is ordered by: family, network, length, address. *)
Definition prefix_key (p : IpAddr * Z) : Z * Z * Z * Z :=
  let b := net_block p.1 p.2 in (ip_width p.1, ip_value p.1 / b * b, p.2, ip_value p.1).

Definition key_cmp (a b : Z * Z * Z * Z) : comparison :=
  let '(f, n, l, v) := a in let '(f', n', l', v') := b in
  then_with (then_with (then_with (Z.compare f f') (Z.compare n n')) (Z.compare l l')) (Z.compare v v').

#[export] Instance key_cmp_total : TotalCmp key_cmp.
Proof.
  pose proof (then_with_total _ _ (then_with_total _ _ (then_with_total _ _
    (on_key_total Z.compare (fun k : Z * Z * Z * Z => k.1.1.1) _) (on_key_total Z.compare (fun k : Z * Z * Z * Z => k.1.1.2) _))
    (on_key_total Z.compare (fun k : Z * Z * Z * Z => k.1.2) _)) (on_key_total Z.compare (fun k : Z * Z * Z * Z => k.2) _)) as T.
  split.
  - intros [[[f n] l] v] [[[f' n'] l'] v']. apply (cmp_opp (TotalCmp := T) (f, n, l, v) (f', n', l', v')).
  - intros [[[f n] l] v] [[[f' n'] l'] v'] [[[f'' n''] l''] v''].
    apply (cmp_le_trans (TotalCmp := T) (f, n, l, v) (f', n', l', v') (f'', n'', l'', v'')).
Qed.

Lemma key_cmp_eq a b : key_cmp a b = Eq <-> a = b.
Proof.
  destruct a as [[[f n] l] v], b as [[[f' n'] l'] v']. cbn [key_cmp]. split.
  - destruct (Z.compare_spec f f'), (Z.compare_spec n n'), (Z.compare_spec l l'), (Z.compare_spec v v'); cbn [then_with]; congruence.
  - intros [= -> -> -> ->]. by rewrite !Z.compare_refl.
Qed.

Lemma prefix_key_inj p q : prefix_key p = prefix_key q -> p = q.
Proof. destruct p as [[a|a] i], q as [[b|b] j]; cbn; intros [=]; congruence. Qed.

Lemma network_range ip bits :
  prefix_ok ip bits -> let b := net_block ip bits in 0 <= ip_value ip / b * b < 2 ^ ip_width ip.
Proof.
  intros [Hok Hb]. cbv zeta. unfold net_block, ip_ok in *.
  assert (0 < 2 ^ (ip_width ip - bits)) as Hp by (apply Z.pow_pos_nonneg; lia).
  pose proof (Z.div_mod (ip_value ip) (2 ^ (ip_width ip - bits)) ltac:(lia)).
  pose proof (Z.mod_pos_bound (ip_value ip) _ Hp). pose proof (Z.div_pos (ip_value ip) _ ltac:(lia) Hp). nia.
Qed.

Lemma compare_parts_key p q :
  prefix_ok p.1 p.2 -> prefix_ok q.1 q.2 -> compare_parts (Some p) (Some q) = key_cmp (prefix_key p) (prefix_key q).
Proof.
  intros Hp Hq. pose proof (network_range _ _ Hp) as Np. pose proof (network_range _ _ Hq) as Nq. cbv zeta in *.
  destruct Hp as [Op Bp], Hq as [Oq Bq]. unfold ip_ok in *.
  destruct p as [[a|a] i], q as [[b|b] j]; cbn [fst snd ip_width ip_value compare_parts] in *; [|done|done|];
    unfold compare_address, octets, prefix_key, key_cmp, net_block in *; cbn [fst snd ip_width ip_value] in *;
    rewrite !masked_network, !bytes_cmp_compare by (simpl; lia).
  - change (256 ^ Z.of_nat 4) with (2 ^ 32). change (8 * Z.of_nat 4) with 32. rewrite !(Z.mod_small _ (2 ^ 32)) by lia.
    by rewrite Z.compare_refl.
  - change (256 ^ Z.of_nat 16) with (2 ^ 128). change (8 * Z.of_nat 16) with 128. rewrite !(Z.mod_small _ (2 ^ 128)) by lia.
    by rewrite Z.compare_refl.
Qed.

Lemma parse_prefix_nonempty_text s p : parse_prefix s = Ok p -> s <> ""%string.
Proof. by intros H ->. Qed.

Lemma prefix_compare_key a b p q :
  parse_prefix a = Ok p -> parse_prefix b = Ok q ->
  prefix_compare a b = Some (key_cmp (prefix_key p) (prefix_key q)).
Proof.
  intros Ha Hb. destruct p as [ip i], q as [ip' j]. unfold prefix_compare, prefix_parts.
  rewrite !bool_decide_false by (by eapply parse_prefix_nonempty_text).
  rewrite Ha, Hb. cbn [result_ok fmap option_fmap option_map]. f_equal.
  apply compare_parts_key; by eapply parse_prefix_ok.
Qed.

(** On prefixes, the byte-wise comparison is the order by family, then
    network (the address with its host bits cleared), then prefix length, then
    address; two texts compare equal exactly when they denote the same prefix. *)
Theorem prefix_compare_order a b p q :
  parse_prefix a = Ok p -> parse_prefix b = Ok q ->
  prefix_compare a b = Some (key_cmp (prefix_key p) (prefix_key q)) /\
  (prefix_compare a b = Some Eq <-> p = q).
Proof.
  intros Ha Hb. pose proof (prefix_compare_key a b p q Ha Hb) as E. split; [done|]. rewrite E. split.
  - intros [= H]. by apply prefix_key_inj, key_cmp_eq.
  - intros ->. by rewrite (proj2 (key_cmp_eq _ _)).
Qed.

(** The eight rounds are enough: more fuel changes nothing. *)
Lemma ipv6_loop_more input fuel k : forall octets e text,
  (16 <= length octets + 2 * fuel)%nat ->
  ipv6_loop (fuel + k) input octets e text = ipv6_loop fuel input octets e text.
Proof.
  induction fuel as [|fuel IH]; intros octets e text Hf.
  - destruct k; [done|]. cbn [Nat.add ipv6_loop]. by rewrite (proj2 (Nat.leb_le 16 _)) by lia.
  - cbn [Nat.add ipv6_loop]. destruct (16 <=? length octets)%nat; [done|].
    destruct (scan_group input text 0 0 text) as [[[v n] rest]|]; [|done]. cbn [result_bind].
    destruct (n =? 0)%nat; [done|]. destruct (match rest with [] => false | c :: _ => Ascii.eqb c "." end); [done|].
    destruct rest as [|c [|c1 rest2]]; [done|done|]. destruct (negb _); [done|].
    assert (16 <= length (octets ++ group_bytes v) + 2 * fuel)%nat by (rewrite length_app; simpl; lia).
    destruct (Ascii.eqb c1 ":"); [|by apply IH]. destruct e; [done|]. destruct rest2; [done|by apply IH].
Qed.

Lemma ipv6_loop_fuel input e text fuel : (8 <= fuel)%nat -> ipv6_loop fuel input [] e text = ipv6_loop 8 input [] e text.
Proof. intros H. replace fuel with (8 + (fuel - 8))%nat by lia. by apply ipv6_loop_more. Qed.

(** ** Instances of the theorems *)

Module NetipExamples.

(** 2001:db8::1:0:0:1 with a zone: the first of the two longest zero runs is the
    one compressed. *)
Definition ip1 : IpAddr := V6 0x20010db8000000000001000000000001.

Lemma address_round_trip_witness :
  address_text ip1 (Some "eth0"%string) = "2001:db8::1:0:0:1%eth0"%string /\
  parse_addr "2001:db8::1:0:0:1%eth0" = Ok (ip1, Some "eth0"%string).
Proof.
  split; [vm_compute; reflexivity|]. apply (address_round_trip ip1 (Some "eth0"%string)).
  - vm_compute. split; congruence.
  - split; [reflexivity|discriminate].
Defined.

Lemma prefix_text_canonical_witness :
  exists ip bits, parse_prefix "FD7A:115C::/48" = Ok (ip, bits) /\ prefix_ok ip bits /\
    parse_prefix "fd7a:115c::/48" = Ok (ip, bits) /\ parse_prefix_text "fd7a:115c::/48" = Ok "fd7a:115c::/48"%string.
Proof. apply prefix_text_canonical. vm_compute. reflexivity. Defined.

(** A supernet comes before the prefixes inside it. *)
Lemma prefix_compare_order_witness :
  prefix_compare "10.0.0.0/8" "10.0.0.0/16" =
    Some (key_cmp (prefix_key (V4 0x0a000000, 8)) (prefix_key (V4 0x0a000000, 16))) /\
  (prefix_compare "10.0.0.0/8" "10.0.0.0/16" = Some Eq <-> (V4 0x0a000000, 8) = (V4 0x0a000000, 16)).
Proof. apply prefix_compare_order; vm_compute; reflexivity. Defined.

(** Texts of the source's tests. *)
Example accepted :
  map addr_text ["::ffff:1.2.3.4"; "1:2:3:4:5:6:7::"; "fe80::1%en0"]%string =
  [Some "::ffff:1.2.3.4"; Some "1:2:3:4:5:6:7:0"; Some "fe80::1%en0"]%string.
Proof. vm_compute. reflexivity. Qed.

Example rejected :
  map prefix_text ["10.0.0.0/08"; "10.0.0.0/33"; "fe80::1%e/64"; "1::2::3/64"; "01.2.3.4/8"]%string = replicate 5 None.
Proof. vm_compute. reflexivity. Qed.

Example ports :
  map addr_port_text ["1.2.3.4:080"; "[::1]:22"; "::1:22"; "[1.2.3.4]:3"; "1.2.3.4:65536"]%string =
  [Some "1.2.3.4:80"; Some "[::1]:22"; None; None; None]%string.
Proof. vm_compute. reflexivity. Qed.

End NetipExamples.
