(* ===== verification/GoUnicode.v ===== *)
(** * GoUnicode: case folding (headscale-api-acl/src/go_unicode.rs)

    Account domains are compared with Go's [strings.EqualFold]: rune by rune, each
    up to its orbit under simple folding.  A [str] is UTF-8, so its runes are
    decoded first.  The tables are the source's.  [binary_search] and
    [partition_point] on a sorted table are the first row that qualifies; the
    tables are shown to be sorted.  The loop around an orbit has fuel; the theorems
    show that every orbit closes within it, and that folding equality is an
    equivalence relation that restricted to ASCII ignores case. *)

From stdpp Require Import base list strings.
From Stdlib Require Import ZArith Lia Ascii.
From S2P Require Import Prelude Text.

Open Scope Z_scope.

(** ** Runes *)

Definition byte_of (c : ascii) : Z := Z.of_N (N_of_ascii c).
Definition bytes_of (s : string) : list Z := map byte_of (String.list_ascii_of_string s).

(** [str::chars] on valid UTF-8. *)
Fixpoint utf8_runes (l : list Z) : list Z :=
  match l with
  | [] => []
  | a :: t =>
      if a <? 0x80 then a :: utf8_runes t
      else if a <? 0xe0 then
        match t with
        | b :: t' => Z.land a 0x1f * 64 + Z.land b 0x3f :: utf8_runes t'
        | _ => [a]
        end
      else if a <? 0xf0 then
        match t with
        | b :: c :: t' => Z.land a 0x0f * 4096 + Z.land b 0x3f * 64 + Z.land c 0x3f :: utf8_runes t'
        | _ => [a]
        end
      else
        match t with
        | b :: c :: e :: t' =>
            Z.land a 0x07 * 262144 + Z.land b 0x3f * 4096 + Z.land c 0x3f * 64 + Z.land e 0x3f :: utf8_runes t'
        | _ => [a]
        end
  end.

Definition chars_of (s : string) : list Z := utf8_runes (bytes_of s).

(** ** Tables *)

Definition UPPER_LOWER : Z := 0x110000.

Definition CASE_RANGES : list (Z * Z * (Z * Z * Z)) :=
  [
  (0x0041, 0x005a, (0, 32, 0)); (0x0061, 0x007a, ((-32), 0, (-32))); (0x00b5, 0x00b5, (743, 0, 743));
   (0x00c0, 0x00d6, (0, 32, 0)); (0x00d8, 0x00de, (0, 32, 0)); (0x00e0, 0x00f6, ((-32), 0, (-32)));
   (0x00f8, 0x00fe, ((-32), 0, (-32))); (0x00ff, 0x00ff, (121, 0, 121));
   (0x0100, 0x012f, (UPPER_LOWER, UPPER_LOWER, UPPER_LOWER)); (0x0130, 0x0130, (0, (-199), 0));
   (0x0131, 0x0131, ((-232), 0, (-232))); (0x0132, 0x0137, (UPPER_LOWER, UPPER_LOWER, UPPER_LOWER));
   (0x0139, 0x0148, (UPPER_LOWER, UPPER_LOWER, UPPER_LOWER)); (0x014a, 0x0177, (UPPER_LOWER, UPPER_LOWER, UPPER_LOWER));
   (0x0178, 0x0178, (0, (-121), 0)); (0x0179, 0x017e, (UPPER_LOWER, UPPER_LOWER, UPPER_LOWER));
   (0x017f, 0x017f, ((-300), 0, (-300))); (0x0180, 0x0180, (195, 0, 195)); (0x0181, 0x0181, (0, 210, 0));
   (0x0182, 0x0185, (UPPER_LOWER, UPPER_LOWER, UPPER_LOWER)); (0x0186, 0x0186, (0, 206, 0));
   (0x0187, 0x0188, (UPPER_LOWER, UPPER_LOWER, UPPER_LOWER)); (0x0189, 0x018a, (0, 205, 0));
   (0x018b, 0x018c, (UPPER_LOWER, UPPER_LOWER, UPPER_LOWER)); (0x018e, 0x018e, (0, 79, 0)); (0x018f, 0x018f, (0, 202, 0));
   (0x0190, 0x0190, (0, 203, 0)); (0x0191, 0x0192, (UPPER_LOWER, UPPER_LOWER, UPPER_LOWER)); (0x0193, 0x0193, (0, 205, 0));
   (0x0194, 0x0194, (0, 207, 0)); (0x0195, 0x0195, (97, 0, 97)); (0x0196, 0x0196, (0, 211, 0));
   (0x0197, 0x0197, (0, 209, 0)); (0x0198, 0x0199, (UPPER_LOWER, UPPER_LOWER, UPPER_LOWER));
   (0x019a, 0x019a, (163, 0, 163)); (0x019c, 0x019c, (0, 211, 0)); (0x019d, 0x019d, (0, 213, 0));
   (0x019e, 0x019e, (130, 0, 130)); (0x019f, 0x019f, (0, 214, 0));
   (0x01a0, 0x01a5, (UPPER_LOWER, UPPER_LOWER, UPPER_LOWER)); (0x01a6, 0x01a6, (0, 218, 0));
   (0x01a7, 0x01a8, (UPPER_LOWER, UPPER_LOWER, UPPER_LOWER)); (0x01a9, 0x01a9, (0, 218, 0));
   (0x01ac, 0x01ad, (UPPER_LOWER, UPPER_LOWER, UPPER_LOWER)); (0x01ae, 0x01ae, (0, 218, 0));
   (0x01af, 0x01b0, (UPPER_LOWER, UPPER_LOWER, UPPER_LOWER)); (0x01b1, 0x01b2, (0, 217, 0));
   (0x01b3, 0x01b6, (UPPER_LOWER, UPPER_LOWER, UPPER_LOWER)); (0x01b7, 0x01b7, (0, 219, 0));
   (0x01b8, 0x01b9, (UPPER_LOWER, UPPER_LOWER, UPPER_LOWER)); (0x01bc, 0x01bd, (UPPER_LOWER, UPPER_LOWER, UPPER_LOWER));
   (0x01bf, 0x01bf, (56, 0, 56)); (0x01c4, 0x01c4, (0, 2, 1)); (0x01c5, 0x01c5, ((-1), 1, 0));
   (0x01c6, 0x01c6, ((-2), 0, (-1))); (0x01c7, 0x01c7, (0, 2, 1)); (0x01c8, 0x01c8, ((-1), 1, 0));
   (0x01c9, 0x01c9, ((-2), 0, (-1))); (0x01ca, 0x01ca, (0, 2, 1)); (0x01cb, 0x01cb, ((-1), 1, 0));
   (0x01cc, 0x01cc, ((-2), 0, (-1))); (0x01cd, 0x01dc, (UPPER_LOWER, UPPER_LOWER, UPPER_LOWER));
   (0x01dd, 0x01dd, ((-79), 0, (-79))); (0x01de, 0x01ef, (UPPER_LOWER, UPPER_LOWER, UPPER_LOWER));
   (0x01f1, 0x01f1, (0, 2, 1)); (0x01f2, 0x01f2, ((-1), 1, 0)); (0x01f3, 0x01f3, ((-2), 0, (-1)));
   (0x01f4, 0x01f5, (UPPER_LOWER, UPPER_LOWER, UPPER_LOWER)); (0x01f6, 0x01f6, (0, (-97), 0));
   (0x01f7, 0x01f7, (0, (-56), 0)); (0x01f8, 0x021f, (UPPER_LOWER, UPPER_LOWER, UPPER_LOWER));
   (0x0220, 0x0220, (0, (-130), 0)); (0x0222, 0x0233, (UPPER_LOWER, UPPER_LOWER, UPPER_LOWER));
   (0x023a, 0x023a, (0, 10795, 0)); (0x023b, 0x023c, (UPPER_LOWER, UPPER_LOWER, UPPER_LOWER));
   (0x023d, 0x023d, (0, (-163), 0)); (0x023e, 0x023e, (0, 10792, 0)); (0x023f, 0x0240, (10815, 0, 10815));
   (0x0241, 0x0242, (UPPER_LOWER, UPPER_LOWER, UPPER_LOWER)); (0x0243, 0x0243, (0, (-195), 0));
   (0x0244, 0x0244, (0, 69, 0)); (0x0245, 0x0245, (0, 71, 0)); (0x0246, 0x024f, (UPPER_LOWER, UPPER_LOWER, UPPER_LOWER));
   (0x0250, 0x0250, (10783, 0, 10783)); (0x0251, 0x0251, (10780, 0, 10780)); (0x0252, 0x0252, (10782, 0, 10782));
   (0x0253, 0x0253, ((-210), 0, (-210))); (0x0254, 0x0254, ((-206), 0, (-206))); (0x0256, 0x0257, ((-205), 0, (-205)));
   (0x0259, 0x0259, ((-202), 0, (-202))); (0x025b, 0x025b, ((-203), 0, (-203))); (0x025c, 0x025c, (42319, 0, 42319));
   (0x0260, 0x0260, ((-205), 0, (-205))); (0x0261, 0x0261, (42315, 0, 42315)); (0x0263, 0x0263, ((-207), 0, (-207)));
   (0x0265, 0x0265, (42280, 0, 42280)); (0x0266, 0x0266, (42308, 0, 42308)); (0x0268, 0x0268, ((-209), 0, (-209)));
   (0x0269, 0x0269, ((-211), 0, (-211))); (0x026a, 0x026a, (42308, 0, 42308)); (0x026b, 0x026b, (10743, 0, 10743));
   (0x026c, 0x026c, (42305, 0, 42305)); (0x026f, 0x026f, ((-211), 0, (-211))); (0x0271, 0x0271, (10749, 0, 10749));
   (0x0272, 0x0272, ((-213), 0, (-213))); (0x0275, 0x0275, ((-214), 0, (-214))); (0x027d, 0x027d, (10727, 0, 10727));
   (0x0280, 0x0280, ((-218), 0, (-218))); (0x0282, 0x0282, (42307, 0, 42307)); (0x0283, 0x0283, ((-218), 0, (-218)));
   (0x0287, 0x0287, (42282, 0, 42282)); (0x0288, 0x0288, ((-218), 0, (-218))); (0x0289, 0x0289, ((-69), 0, (-69)));
   (0x028a, 0x028b, ((-217), 0, (-217))); (0x028c, 0x028c, ((-71), 0, (-71))); (0x0292, 0x0292, ((-219), 0, (-219)));
   (0x029d, 0x029d, (42261, 0, 42261)); (0x029e, 0x029e, (42258, 0, 42258)); (0x0345, 0x0345, (84, 0, 84));
   (0x0370, 0x0373, (UPPER_LOWER, UPPER_LOWER, UPPER_LOWER)); (0x0376, 0x0377, (UPPER_LOWER, UPPER_LOWER, UPPER_LOWER));
   (0x037b, 0x037d, (130, 0, 130)); (0x037f, 0x037f, (0, 116, 0)); (0x0386, 0x0386, (0, 38, 0));
   (0x0388, 0x038a, (0, 37, 0)); (0x038c, 0x038c, (0, 64, 0)); (0x038e, 0x038f, (0, 63, 0)); (0x0391, 0x03a1, (0, 32, 0));
   (0x03a3, 0x03ab, (0, 32, 0)); (0x03ac, 0x03ac, ((-38), 0, (-38))); (0x03ad, 0x03af, ((-37), 0, (-37)));
   (0x03b1, 0x03c1, ((-32), 0, (-32))); (0x03c2, 0x03c2, ((-31), 0, (-31))); (0x03c3, 0x03cb, ((-32), 0, (-32)));
   (0x03cc, 0x03cc, ((-64), 0, (-64))); (0x03cd, 0x03ce, ((-63), 0, (-63))); (0x03cf, 0x03cf, (0, 8, 0));
   (0x03d0, 0x03d0, ((-62), 0, (-62))); (0x03d1, 0x03d1, ((-57), 0, (-57))); (0x03d5, 0x03d5, ((-47), 0, (-47)));
   (0x03d6, 0x03d6, ((-54), 0, (-54))); (0x03d7, 0x03d7, ((-8), 0, (-8)));
   (0x03d8, 0x03ef, (UPPER_LOWER, UPPER_LOWER, UPPER_LOWER)); (0x03f0, 0x03f0, ((-86), 0, (-86)));
   (0x03f1, 0x03f1, ((-80), 0, (-80))); (0x03f2, 0x03f2, (7, 0, 7)); (0x03f3, 0x03f3, ((-116), 0, (-116)));
   (0x03f4, 0x03f4, (0, (-60), 0)); (0x03f5, 0x03f5, ((-96), 0, (-96)));
   (0x03f7, 0x03f8, (UPPER_LOWER, UPPER_LOWER, UPPER_LOWER)); (0x03f9, 0x03f9, (0, (-7), 0));
   (0x03fa, 0x03fb, (UPPER_LOWER, UPPER_LOWER, UPPER_LOWER)); (0x03fd, 0x03ff, (0, (-130), 0));
   (0x0400, 0x040f, (0, 80, 0)); (0x0410, 0x042f, (0, 32, 0)); (0x0430, 0x044f, ((-32), 0, (-32)));
   (0x0450, 0x045f, ((-80), 0, (-80))); (0x0460, 0x0481, (UPPER_LOWER, UPPER_LOWER, UPPER_LOWER));
   (0x048a, 0x04bf, (UPPER_LOWER, UPPER_LOWER, UPPER_LOWER)); (0x04c0, 0x04c0, (0, 15, 0));
   (0x04c1, 0x04ce, (UPPER_LOWER, UPPER_LOWER, UPPER_LOWER)); (0x04cf, 0x04cf, ((-15), 0, (-15)));
   (0x04d0, 0x052f, (UPPER_LOWER, UPPER_LOWER, UPPER_LOWER)); (0x0531, 0x0556, (0, 48, 0));
   (0x0561, 0x0586, ((-48), 0, (-48))); (0x10a0, 0x10c5, (0, 7264, 0)); (0x10c7, 0x10c7, (0, 7264, 0));
   (0x10cd, 0x10cd, (0, 7264, 0)); (0x10d0, 0x10fa, (3008, 0, 0)); (0x10fd, 0x10ff, (3008, 0, 0));
   (0x13a0, 0x13ef, (0, 38864, 0)); (0x13f0, 0x13f5, (0, 8, 0)); (0x13f8, 0x13fd, ((-8), 0, (-8)));
   (0x1c80, 0x1c80, ((-6254), 0, (-6254))); (0x1c81, 0x1c81, ((-6253), 0, (-6253)));
   (0x1c82, 0x1c82, ((-6244), 0, (-6244))); (0x1c83, 0x1c84, ((-6242), 0, (-6242)));
   (0x1c85, 0x1c85, ((-6243), 0, (-6243))); (0x1c86, 0x1c86, ((-6236), 0, (-6236)));
   (0x1c87, 0x1c87, ((-6181), 0, (-6181))); (0x1c88, 0x1c88, (35266, 0, 35266)); (0x1c90, 0x1cba, (0, (-3008), 0));
   (0x1cbd, 0x1cbf, (0, (-3008), 0)); (0x1d79, 0x1d79, (35332, 0, 35332)); (0x1d7d, 0x1d7d, (3814, 0, 3814));
   (0x1d8e, 0x1d8e, (35384, 0, 35384)); (0x1e00, 0x1e95, (UPPER_LOWER, UPPER_LOWER, UPPER_LOWER));
   (0x1e9b, 0x1e9b, ((-59), 0, (-59))); (0x1e9e, 0x1e9e, (0, (-7615), 0));
   (0x1ea0, 0x1eff, (UPPER_LOWER, UPPER_LOWER, UPPER_LOWER)); (0x1f00, 0x1f07, (8, 0, 8)); (0x1f08, 0x1f0f, (0, (-8), 0));
   (0x1f10, 0x1f15, (8, 0, 8)); (0x1f18, 0x1f1d, (0, (-8), 0)); (0x1f20, 0x1f27, (8, 0, 8)); (0x1f28, 0x1f2f, (0, (-8), 0));
   (0x1f30, 0x1f37, (8, 0, 8)); (0x1f38, 0x1f3f, (0, (-8), 0)); (0x1f40, 0x1f45, (8, 0, 8)); (0x1f48, 0x1f4d, (0, (-8), 0));
   (0x1f51, 0x1f51, (8, 0, 8)); (0x1f53, 0x1f53, (8, 0, 8)); (0x1f55, 0x1f55, (8, 0, 8)); (0x1f57, 0x1f57, (8, 0, 8));
   (0x1f59, 0x1f59, (0, (-8), 0)); (0x1f5b, 0x1f5b, (0, (-8), 0)); (0x1f5d, 0x1f5d, (0, (-8), 0));
   (0x1f5f, 0x1f5f, (0, (-8), 0)); (0x1f60, 0x1f67, (8, 0, 8)); (0x1f68, 0x1f6f, (0, (-8), 0));
   (0x1f70, 0x1f71, (74, 0, 74)); (0x1f72, 0x1f75, (86, 0, 86)); (0x1f76, 0x1f77, (100, 0, 100));
   (0x1f78, 0x1f79, (128, 0, 128)); (0x1f7a, 0x1f7b, (112, 0, 112)); (0x1f7c, 0x1f7d, (126, 0, 126));
   (0x1f80, 0x1f87, (8, 0, 8)); (0x1f88, 0x1f8f, (0, (-8), 0)); (0x1f90, 0x1f97, (8, 0, 8)); (0x1f98, 0x1f9f, (0, (-8), 0));
   (0x1fa0, 0x1fa7, (8, 0, 8)); (0x1fa8, 0x1faf, (0, (-8), 0)); (0x1fb0, 0x1fb1, (8, 0, 8)); (0x1fb3, 0x1fb3, (9, 0, 9));
   (0x1fb8, 0x1fb9, (0, (-8), 0)); (0x1fba, 0x1fbb, (0, (-74), 0)); (0x1fbc, 0x1fbc, (0, (-9), 0));
   (0x1fbe, 0x1fbe, ((-7205), 0, (-7205))); (0x1fc3, 0x1fc3, (9, 0, 9)); (0x1fc8, 0x1fcb, (0, (-86), 0));
   (0x1fcc, 0x1fcc, (0, (-9), 0)); (0x1fd0, 0x1fd1, (8, 0, 8)); (0x1fd8, 0x1fd9, (0, (-8), 0));
   (0x1fda, 0x1fdb, (0, (-100), 0)); (0x1fe0, 0x1fe1, (8, 0, 8)); (0x1fe5, 0x1fe5, (7, 0, 7));
   (0x1fe8, 0x1fe9, (0, (-8), 0)); (0x1fea, 0x1feb, (0, (-112), 0)); (0x1fec, 0x1fec, (0, (-7), 0));
   (0x1ff3, 0x1ff3, (9, 0, 9)); (0x1ff8, 0x1ff9, (0, (-128), 0)); (0x1ffa, 0x1ffb, (0, (-126), 0));
   (0x1ffc, 0x1ffc, (0, (-9), 0)); (0x2126, 0x2126, (0, (-7517), 0)); (0x212a, 0x212a, (0, (-8383), 0));
   (0x212b, 0x212b, (0, (-8262), 0)); (0x2132, 0x2132, (0, 28, 0)); (0x214e, 0x214e, ((-28), 0, (-28)));
   (0x2160, 0x216f, (0, 16, 0)); (0x2170, 0x217f, ((-16), 0, (-16)));
   (0x2183, 0x2184, (UPPER_LOWER, UPPER_LOWER, UPPER_LOWER)); (0x24b6, 0x24cf, (0, 26, 0));
   (0x24d0, 0x24e9, ((-26), 0, (-26))); (0x2c00, 0x2c2f, (0, 48, 0)); (0x2c30, 0x2c5f, ((-48), 0, (-48)));
   (0x2c60, 0x2c61, (UPPER_LOWER, UPPER_LOWER, UPPER_LOWER)); (0x2c62, 0x2c62, (0, (-10743), 0));
   (0x2c63, 0x2c63, (0, (-3814), 0)); (0x2c64, 0x2c64, (0, (-10727), 0)); (0x2c65, 0x2c65, ((-10795), 0, (-10795)));
   (0x2c66, 0x2c66, ((-10792), 0, (-10792))); (0x2c67, 0x2c6c, (UPPER_LOWER, UPPER_LOWER, UPPER_LOWER));
   (0x2c6d, 0x2c6d, (0, (-10780), 0)); (0x2c6e, 0x2c6e, (0, (-10749), 0)); (0x2c6f, 0x2c6f, (0, (-10783), 0));
   (0x2c70, 0x2c70, (0, (-10782), 0)); (0x2c72, 0x2c73, (UPPER_LOWER, UPPER_LOWER, UPPER_LOWER));
   (0x2c75, 0x2c76, (UPPER_LOWER, UPPER_LOWER, UPPER_LOWER)); (0x2c7e, 0x2c7f, (0, (-10815), 0));
   (0x2c80, 0x2ce3, (UPPER_LOWER, UPPER_LOWER, UPPER_LOWER)); (0x2ceb, 0x2cee, (UPPER_LOWER, UPPER_LOWER, UPPER_LOWER));
   (0x2cf2, 0x2cf3, (UPPER_LOWER, UPPER_LOWER, UPPER_LOWER)); (0x2d00, 0x2d25, ((-7264), 0, (-7264)));
   (0x2d27, 0x2d27, ((-7264), 0, (-7264))); (0x2d2d, 0x2d2d, ((-7264), 0, (-7264)));
   (0xa640, 0xa66d, (UPPER_LOWER, UPPER_LOWER, UPPER_LOWER)); (0xa680, 0xa69b, (UPPER_LOWER, UPPER_LOWER, UPPER_LOWER));
   (0xa722, 0xa72f, (UPPER_LOWER, UPPER_LOWER, UPPER_LOWER)); (0xa732, 0xa76f, (UPPER_LOWER, UPPER_LOWER, UPPER_LOWER));
   (0xa779, 0xa77c, (UPPER_LOWER, UPPER_LOWER, UPPER_LOWER)); (0xa77d, 0xa77d, (0, (-35332), 0));
   (0xa77e, 0xa787, (UPPER_LOWER, UPPER_LOWER, UPPER_LOWER)); (0xa78b, 0xa78c, (UPPER_LOWER, UPPER_LOWER, UPPER_LOWER));
   (0xa78d, 0xa78d, (0, (-42280), 0)); (0xa790, 0xa793, (UPPER_LOWER, UPPER_LOWER, UPPER_LOWER));
   (0xa794, 0xa794, (48, 0, 48)); (0xa796, 0xa7a9, (UPPER_LOWER, UPPER_LOWER, UPPER_LOWER));
   (0xa7aa, 0xa7aa, (0, (-42308), 0)); (0xa7ab, 0xa7ab, (0, (-42319), 0)); (0xa7ac, 0xa7ac, (0, (-42315), 0));
   (0xa7ad, 0xa7ad, (0, (-42305), 0)); (0xa7ae, 0xa7ae, (0, (-42308), 0)); (0xa7b0, 0xa7b0, (0, (-42258), 0));
   (0xa7b1, 0xa7b1, (0, (-42282), 0)); (0xa7b2, 0xa7b2, (0, (-42261), 0)); (0xa7b3, 0xa7b3, (0, 928, 0));
   (0xa7b4, 0xa7c3, (UPPER_LOWER, UPPER_LOWER, UPPER_LOWER)); (0xa7c4, 0xa7c4, (0, (-48), 0));
   (0xa7c5, 0xa7c5, (0, (-42307), 0)); (0xa7c6, 0xa7c6, (0, (-35384), 0));
   (0xa7c7, 0xa7ca, (UPPER_LOWER, UPPER_LOWER, UPPER_LOWER)); (0xa7d0, 0xa7d1, (UPPER_LOWER, UPPER_LOWER, UPPER_LOWER));
   (0xa7d6, 0xa7d9, (UPPER_LOWER, UPPER_LOWER, UPPER_LOWER)); (0xa7f5, 0xa7f6, (UPPER_LOWER, UPPER_LOWER, UPPER_LOWER));
   (0xab53, 0xab53, ((-928), 0, (-928))); (0xab70, 0xabbf, ((-38864), 0, (-38864))); (0xff21, 0xff3a, (0, 32, 0));
   (0xff41, 0xff5a, ((-32), 0, (-32))); (0x10400, 0x10427, (0, 40, 0)); (0x10428, 0x1044f, ((-40), 0, (-40)));
   (0x104b0, 0x104d3, (0, 40, 0)); (0x104d8, 0x104fb, ((-40), 0, (-40))); (0x10570, 0x1057a, (0, 39, 0));
   (0x1057c, 0x1058a, (0, 39, 0)); (0x1058c, 0x10592, (0, 39, 0)); (0x10594, 0x10595, (0, 39, 0));
   (0x10597, 0x105a1, ((-39), 0, (-39))); (0x105a3, 0x105b1, ((-39), 0, (-39))); (0x105b3, 0x105b9, ((-39), 0, (-39)));
   (0x105bb, 0x105bc, ((-39), 0, (-39))); (0x10c80, 0x10cb2, (0, 64, 0)); (0x10cc0, 0x10cf2, ((-64), 0, (-64)));
   (0x118a0, 0x118bf, (0, 32, 0)); (0x118c0, 0x118df, ((-32), 0, (-32))); (0x16e40, 0x16e5f, (0, 32, 0));
   (0x16e60, 0x16e7f, ((-32), 0, (-32))); (0x1e900, 0x1e921, (0, 34, 0)); (0x1e922, 0x1e943, ((-34), 0, (-34)))].

Definition ASCII_FOLD : list Z :=
  [
  0x0000; 0x0001; 0x0002; 0x0003; 0x0004; 0x0005; 0x0006; 0x0007; 0x0008; 0x0009; 0x000a; 0x000b; 0x000c; 0x000d; 0x000e;
   0x000f; 0x0010; 0x0011; 0x0012; 0x0013; 0x0014; 0x0015; 0x0016; 0x0017; 0x0018; 0x0019; 0x001a; 0x001b; 0x001c; 0x001d;
   0x001e; 0x001f; 0x0020; 0x0021; 0x0022; 0x0023; 0x0024; 0x0025; 0x0026; 0x0027; 0x0028; 0x0029; 0x002a; 0x002b; 0x002c;
   0x002d; 0x002e; 0x002f; 0x0030; 0x0031; 0x0032; 0x0033; 0x0034; 0x0035; 0x0036; 0x0037; 0x0038; 0x0039; 0x003a; 0x003b;
   0x003c; 0x003d; 0x003e; 0x003f; 0x0040; 0x0061; 0x0062; 0x0063; 0x0064; 0x0065; 0x0066; 0x0067; 0x0068; 0x0069; 0x006a;
   0x006b; 0x006c; 0x006d; 0x006e; 0x006f; 0x0070; 0x0071; 0x0072; 0x0073; 0x0074; 0x0075; 0x0076; 0x0077; 0x0078; 0x0079;
   0x007a; 0x005b; 0x005c; 0x005d; 0x005e; 0x005f; 0x0060; 0x0041; 0x0042; 0x0043; 0x0044; 0x0045; 0x0046; 0x0047; 0x0048;
   0x0049; 0x004a; 0x212a; 0x004c; 0x004d; 0x004e; 0x004f; 0x0050; 0x0051; 0x0052; 0x017f; 0x0054; 0x0055; 0x0056; 0x0057;
   0x0058; 0x0059; 0x005a; 0x007b; 0x007c; 0x007d; 0x007e; 0x007f].

Definition CASE_ORBIT : list (Z * Z) :=
  [
  (0x004b, 0x006b); (0x0053, 0x0073); (0x006b, 0x212a); (0x0073, 0x017f); (0x00b5, 0x039c); (0x00c5, 0x00e5);
   (0x00df, 0x1e9e); (0x00e5, 0x212b); (0x0130, 0x0130); (0x0131, 0x0131); (0x017f, 0x0053); (0x01c4, 0x01c5);
   (0x01c5, 0x01c6); (0x01c6, 0x01c4); (0x01c7, 0x01c8); (0x01c8, 0x01c9); (0x01c9, 0x01c7); (0x01ca, 0x01cb);
   (0x01cb, 0x01cc); (0x01cc, 0x01ca); (0x01f1, 0x01f2); (0x01f2, 0x01f3); (0x01f3, 0x01f1); (0x0345, 0x0399);
   (0x0392, 0x03b2); (0x0395, 0x03b5); (0x0398, 0x03b8); (0x0399, 0x03b9); (0x039a, 0x03ba); (0x039c, 0x03bc);
   (0x03a0, 0x03c0); (0x03a1, 0x03c1); (0x03a3, 0x03c2); (0x03a6, 0x03c6); (0x03a9, 0x03c9); (0x03b2, 0x03d0);
   (0x03b5, 0x03f5); (0x03b8, 0x03d1); (0x03b9, 0x1fbe); (0x03ba, 0x03f0); (0x03bc, 0x00b5); (0x03c0, 0x03d6);
   (0x03c1, 0x03f1); (0x03c2, 0x03c3); (0x03c3, 0x03a3); (0x03c6, 0x03d5); (0x03c9, 0x2126); (0x03d0, 0x0392);
   (0x03d1, 0x03f4); (0x03d5, 0x03a6); (0x03d6, 0x03a0); (0x03f0, 0x039a); (0x03f1, 0x03a1); (0x03f4, 0x0398);
   (0x03f5, 0x0395); (0x0412, 0x0432); (0x0414, 0x0434); (0x041e, 0x043e); (0x0421, 0x0441); (0x0422, 0x0442);
   (0x042a, 0x044a); (0x0432, 0x1c80); (0x0434, 0x1c81); (0x043e, 0x1c82); (0x0441, 0x1c83); (0x0442, 0x1c84);
   (0x044a, 0x1c86); (0x0462, 0x0463); (0x0463, 0x1c87); (0x1c80, 0x0412); (0x1c81, 0x0414); (0x1c82, 0x041e);
   (0x1c83, 0x0421); (0x1c84, 0x1c85); (0x1c85, 0x0422); (0x1c86, 0x042a); (0x1c87, 0x0462); (0x1c88, 0xa64a);
   (0x1e60, 0x1e61); (0x1e61, 0x1e9b); (0x1e9b, 0x1e60); (0x1e9e, 0x00df); (0x1fbe, 0x0345); (0x2126, 0x03a9);
   (0x212a, 0x004b); (0x212b, 0x00c5); (0xa64a, 0xa64b); (0xa64b, 0x1c88)].

(** ** Folding *)

Definition find_range (rune : Z) : option (Z * Z * (Z * Z * Z)) :=
  List.find (fun row => negb (row.1.2 <? rune)) CASE_RANGES.

(** The case [case] (0 upper, 1 lower) of a rune in a row that starts at [lo]. *)
Definition convert (rune lo : Z) (deltas : Z * Z * Z) (case : bool) : Z :=
  let delta := if case then deltas.1.2 else deltas.1.1 in
  if 0x10ffff <? delta then lo + Z.lor (Z.ldiff (rune - lo) 1) (if case then 1 else 0) else rune + delta.

Definition simple_fold (rune : Z) : Z :=
  if (0 <=? rune) && (rune <? 128) then nth (Z.to_nat rune) ASCII_FOLD rune
  else match List.find (fun row => row.1 =? rune) CASE_ORBIT with
       | Some row => row.2
       | None =>
           match find_range rune with
           | None => rune
           | Some (lo, _, deltas) =>
               if rune <? lo then rune
               else let lower := convert rune lo deltas true in
                    if lower =? rune then convert rune lo deltas false else lower
           end
       end.

(** [while folded != a && folded != b]: does it stop at [b]? *)
Fixpoint fold_loop (fuel : nat) (a b folded : Z) : option bool :=
  if (folded =? a) || (folded =? b) then Some (folded =? b)
  else match fuel with
       | O => None
       | S f => fold_loop f a b (simple_fold folded)
       end.

(** The longest orbit has four runes: three steps from the second back to the first. *)
Definition orbit_fuel : nat := 3.

Definition runes_fold (a b : Z) : option bool :=
  if a =? b then Some true else fold_loop orbit_fuel a b (simple_fold a).

Fixpoint equal_fold_runes (left right : list Z) : option bool :=
  match left with
  | [] => Some (bool_decide (right = []))
  | a :: left' =>
      match right with
      | [] => Some false
      | b :: right' => same ← runes_fold a b; if same : bool then equal_fold_runes left' right' else Some false
      end
  end.

Definition equal_fold (left right : string) : option bool := equal_fold_runes (chars_of left) (chars_of right).

(** ** The tables *)

Definition rows_sorted (l : list (Z * Z)) : bool :=
  forallb (fun p => p.1.2 <? p.2.1) (zip l (tail l)) && forallb (fun p => p.1 <=? p.2) l.

Lemma case_ranges_sorted : rows_sorted (map fst CASE_RANGES) = true.
Proof. vm_compute. reflexivity. Qed.

Lemma case_orbit_sorted : rows_sorted (map (fun p => (p.1, p.1)) CASE_ORBIT) = true.
Proof. vm_compute. reflexivity. Qed.

(** The runes a table mentions. *)
Definition folding_runes : list Z :=
  map Z.of_nat (seq 0 128) ++ map fst CASE_ORBIT
  ++ flat_map (fun row => map (fun k => row.1.1 + Z.of_nat k) (seq 0 (Z.to_nat (row.1.2 - row.1.1 + 1)))) CASE_RANGES.

Fixpoint closes (n : nat) (rune r : Z) : bool :=
  if r =? rune then true else match n with O => false | S n' => closes n' rune (simple_fold r) end.

Lemma orbits_close : forallb (fun r => closes 3 r (simple_fold r)) folding_runes = true.
Proof. vm_compute. reflexivity. Qed.

Lemma find_range_row rune lo hi deltas :
  find_range rune = Some (lo, hi, deltas) -> lo <= rune -> rune ∈ folding_runes.
Proof.
  intros Hf Hlo. unfold find_range in Hf. apply List.find_some in Hf as [Hin Hhi]. cbn [fst snd] in Hhi.
  apply negb_true_iff, Z.ltb_ge in Hhi. unfold folding_runes. rewrite !elem_of_app. right. right.
  apply list_elem_of_In, in_flat_map. exists (lo, hi, deltas). split; [done|]. cbn [fst snd]. apply in_map_iff.
  exists (Z.to_nat (rune - lo)). split; [lia|]. apply in_seq. lia.
Qed.

Lemma simple_fold_outside rune : rune ∉ folding_runes -> simple_fold rune = rune.
Proof.
  intros Hn. unfold simple_fold. destruct ((0 <=? rune) && (rune <? 128)) eqn:Ea.
  - exfalso. apply Hn. apply andb_true_iff in Ea as [?%Z.leb_le ?%Z.ltb_lt]. unfold folding_runes. rewrite !elem_of_app. left.
    apply list_elem_of_In, in_map_iff. exists (Z.to_nat rune). split; [lia|]. apply in_seq. lia.
  - destruct (List.find _ CASE_ORBIT) as [row|] eqn:Eo.
    + exfalso. apply Hn. apply List.find_some in Eo as [Hin Hr%Z.eqb_eq]. unfold folding_runes. rewrite !elem_of_app. right. left.
      apply list_elem_of_In, in_map_iff. by exists row.
    + destruct (find_range rune) as [[[lo hi] deltas]|] eqn:Er; [|done].
      destruct (Z.ltb_spec rune lo); [done|]. exfalso. apply Hn. by eapply find_range_row.
Qed.

Lemma closes_always rune : closes 3 rune (simple_fold rune) = true.
Proof.
  destruct (decide (rune ∈ folding_runes)) as [Hin|Hn].
  - pose proof orbits_close as Hall. rewrite forallb_forall in Hall. by apply Hall, list_elem_of_In.
  - rewrite simple_fold_outside by done. cbn [closes]. by rewrite Z.eqb_refl.
Qed.

(** ** Orbits *)

Notation fold_iter n := (Nat.iter n simple_fold).

Definition orbit (a b : Z) : Prop := exists n, fold_iter n a = b.

Lemma iter_succ_r n a : fold_iter (S n) a = fold_iter n (simple_fold a).
Proof. induction n as [|n IH]; [done|]. change (simple_fold (fold_iter (S n) a) = simple_fold (fold_iter n (simple_fold a))). by rewrite IH. Qed.

Lemma iter_add n m a : fold_iter (n + m) a = fold_iter n (fold_iter m a).
Proof. induction n as [|n IH]; [done|]. change (simple_fold (fold_iter (n + m) a) = simple_fold (fold_iter n (fold_iter m a))). by rewrite IH. Qed.

Lemma closes_iter n rune : forall r, closes n rune r = true -> exists k, fold_iter k r = rune.
Proof.
  induction n as [|n IH]; intros r; cbn [closes]; destruct (Z.eqb_spec r rune) as [-> |]; try done; try (intros _; by exists 0%nat).
  intros (k & Hk)%IH. exists (S k). by rewrite iter_succ_r.
Qed.

Lemma orbit_returns a : exists k, (0 < k)%nat /\ fold_iter k a = a.
Proof. destruct (closes_iter _ _ _ (closes_always a)) as [k Hk]. exists (S k). split; [lia|]. by rewrite iter_succ_r. Qed.

Lemma orbit_sym a b : orbit a b -> orbit b a.
Proof.
  intros [n <-]. destruct (orbit_returns a) as (k & Hk & Ha).
  assert (forall m, fold_iter (m * k) a = a) as Hm.
  { induction m as [|m IH]; [done|]. rewrite Nat.mul_succ_l, iter_add, Ha. done. }
  exists (n * k - n)%nat. rewrite <-iter_add. replace (n * k - n + n)%nat with (n * k)%nat by nia. done.
Qed.

Lemma orbit_trans a b c : orbit a b -> orbit b c -> orbit a c.
Proof. intros [n <-] [m <-]. exists (m + n)%nat. by rewrite iter_add. Qed.

Lemma fold_loop_total n a b : forall x, closes n a x = true -> is_Some (fold_loop n a b x).
Proof.
  induction n as [|n IH]; intros x; cbn [closes fold_loop]; destruct (x =? a); try done.
  destruct (x =? b); [done|]. apply IH.
Qed.

Lemma fold_loop_false n a b : forall x, fold_loop n a b x = Some false ->
  exists k, fold_iter k x = a /\ forall j, (j <= k)%nat -> fold_iter j x <> b.
Proof.
  induction n as [|n IH]; intros x; cbn [fold_loop]; destruct (Z.eqb_spec x a) as [-> |Ha]; cbn [orb].
  1,3: intros [= Hb%Z.eqb_neq]; exists 0%nat; split; [done|]; intros [|j] Hj; [done|lia].
  all: destruct (Z.eqb_spec x b) as [-> |Hb]; try done.
  intros (k & Hk & Hj)%IH. exists (S k). rewrite iter_succ_r. split; [done|].
  intros [|j] Hle; [done|]. rewrite iter_succ_r. apply Hj. lia.
Qed.

Lemma fold_loop_true n a b : forall x, fold_loop n a b x = Some true -> orbit x b.
Proof.
  induction n as [|n IH]; intros x; cbn [fold_loop]; destruct (Z.eqb_spec x b) as [-> |Hb]; rewrite ?orb_true_r, ?orb_false_r;
    try (intros _; by exists 0%nat); destruct (x =? a); try done.
  intros [k Hk]%IH. exists (S k). by rewrite iter_succ_r.
Qed.

Lemma runes_fold_spec a b : exists same, runes_fold a b = Some same /\ (same = true <-> orbit a b).
Proof.
  unfold runes_fold. destruct (Z.eqb_spec a b) as [<- |Hne].
  { exists true. split; [done|]. split; [intros _; by exists 0%nat|done]. }
  destruct (fold_loop_total orbit_fuel a b (simple_fold a) (closes_always a)) as [[] Hl]; rewrite Hl; eexists; (split; [done|]).
  - split; [|done]. intros _. apply fold_loop_true in Hl as [k Hk]. exists (S k). by rewrite iter_succ_r.
  - split; [done|]. intros [n Hn]. exfalso. apply fold_loop_false in Hl as (k & Hk & Hj).
    assert (forall n, fold_iter n a <> b) as Hno; [|by apply (Hno n)].
    clear n Hn. induction n as [n IH] using lt_wf_ind. destruct n as [|n]; [done|]. rewrite iter_succ_r.
    destruct (le_gt_dec n k) as [Hle|Hgt]; [by apply Hj|].
    replace n with ((n - k) + k)%nat by lia. rewrite iter_add, Hk. apply IH. lia.
Qed.

Lemma equal_fold_runes_spec l : forall r,
  exists same, equal_fold_runes l r = Some same /\ (same = true <-> Forall2 orbit l r).
Proof.
  induction l as [|a l IH]; intros [|b r]; cbn [equal_fold_runes].
  - exists true. split; [done|]. split; [constructor|done].
  - exists false. split; [done|]. split; [done|]. by inversion 1.
  - exists false. split; [done|]. split; [done|]. by inversion 1.
  - destruct (runes_fold_spec a b) as ([] & -> & Hs); cbn [mbind option_bind].
    + destruct (IH r) as (same & -> & Hr). exists same. split; [done|]. rewrite Hr, Forall2_cons. tauto.
    + exists false. split; [done|]. split; [done|]. rewrite Forall2_cons. tauto.
Qed.

(** Case folding always terminates, and strings equal under folding form an
    equivalence relation: the orbits of the folding tables are cycles. *)
Theorem equal_fold_equivalence :
  (forall s t, is_Some (equal_fold s t)) /\ Equivalence (fun s t => equal_fold s t = Some true).
Proof.
  assert (forall s t, equal_fold s t = Some true <-> Forall2 orbit (chars_of s) (chars_of t)) as Hspec.
  { intros s t. unfold equal_fold. destruct (equal_fold_runes_spec (chars_of s) (chars_of t)) as (same & -> & Hs).
    rewrite <-Hs. split; [by intros [= ->]|by intros ->]. }
  split.
  - intros s t. unfold equal_fold. destruct (equal_fold_runes_spec (chars_of s) (chars_of t)) as (same & -> & _). by eexists.
  - split.
    + intros s. apply Hspec. induction (chars_of s); constructor; [by exists 0%nat|done].
    + intros s t. rewrite !Hspec. intros Hst. induction Hst; constructor; [by apply orbit_sym|done].
    + intros s t u. rewrite !Hspec. intros Hst. generalize (chars_of u). induction Hst as [|a b l r Hab _ IH]; intros k Hk; inversion Hk; subst;
        constructor; [by eapply orbit_trans|auto].
Qed.

(** ** ASCII *)

Definition lower_byte (n : Z) : Z := if (65 <=? n) && (n <=? 90) then n + 32 else n.

Definition ascii_codes : list Z := map Z.of_nat (seq 0 128).

Lemma ascii_folds : forallb (fun a => forallb (fun b => bool_decide (runes_fold a b = Some (lower_byte a =? lower_byte b))) ascii_codes) ascii_codes = true.
Proof. vm_compute. reflexivity. Qed.

Lemma ascii_code_in a : 0 <= a < 128 -> List.In a ascii_codes.
Proof. intros Ha. apply in_map_iff. exists (Z.to_nat a). split; [lia|]. apply in_seq. lia. Qed.

Lemma ascii_fold_pair a b : 0 <= a < 128 -> 0 <= b < 128 -> runes_fold a b = Some (lower_byte a =? lower_byte b).
Proof.
  intros Ha Hb. pose proof ascii_folds as Hall. rewrite forallb_forall in Hall. specialize (Hall a (ascii_code_in a Ha)).
  rewrite forallb_forall in Hall. by specialize (Hall b (ascii_code_in b Hb)); apply bool_decide_eq_true in Hall.
Qed.

(** Every byte of the text is ASCII. *)
Definition is_ascii (s : string) : Prop := Forall (fun b => b < 128) (bytes_of s).

Lemma byte_of_range c : 0 <= byte_of c < 256.
Proof. unfold byte_of. pose proof (N_ascii_bounded c). lia. Qed.

Lemma byte_of_inj c e : byte_of c = byte_of e -> c = e.
Proof. unfold byte_of. intros E%N2Z.inj. by rewrite <-(ascii_N_embedding c), E, ascii_N_embedding. Qed.

Lemma ascii_runes l : Forall (fun b => b < 128) l -> utf8_runes l = l.
Proof. induction 1 as [|b l Hb _ IH]; [done|]. cbn [utf8_runes]. rewrite (proj2 (Z.ltb_lt b 0x80)) by lia. by rewrite IH. Qed.

Lemma byte_of_lower c : byte_of (ascii_lower c) = lower_byte (byte_of c).
Proof.
  unfold ascii_lower, lower_byte. fold (byte_of c). destruct ((65 <=? byte_of c) && (byte_of c <=? 90)) eqn:E; [|done].
  apply andb_true_iff in E as [?%Z.leb_le ?%Z.leb_le]. unfold byte_of at 1. rewrite N_ascii_embedding; lia.
Qed.

(** On ASCII texts folding equality is equality up to case. *)
Theorem equal_fold_ascii s t :
  is_ascii s -> is_ascii t -> equal_fold s t = Some (eq_ignore_ascii_case s t).
Proof.
  unfold is_ascii, equal_fold, chars_of, eq_ignore_ascii_case. intros Hs Ht. rewrite !ascii_runes by done.
  revert t Hs Ht. induction s as [|c s IH]; intros [|e t] Hs Ht; try done.
  change (bytes_of (String c s)) with (byte_of c :: bytes_of s) in *. change (bytes_of (String e t)) with (byte_of e :: bytes_of t) in *.
  apply Forall_cons in Hs as [Hc Hs], Ht as [He Ht]. cbn [equal_fold_runes].
  rewrite ascii_fold_pair by (split; [apply byte_of_range|done]). cbn [mbind option_bind].
  rewrite <-!byte_of_lower. destruct (Z.eqb_spec (byte_of (ascii_lower c)) (byte_of (ascii_lower e))) as [E%byte_of_inj|E].
  - rewrite IH by done. f_equal. apply bool_decide_ext.
    change (to_ascii_lowercase (String ?c ?s)) with (String (ascii_lower c) (to_ascii_lowercase s)). rewrite E. split; congruence.
  - f_equal. symmetry. apply bool_decide_eq_false.
    change (to_ascii_lowercase (String ?c ?s)) with (String (ascii_lower c) (to_ascii_lowercase s)). intros [= E' _]. by rewrite E' in E.
Qed.

Module GoUnicodeExamples.

Lemma equal_fold_ascii_witness : equal_fold "Example.COM" "eXAMPLE.com" = Some true.
Proof.
  rewrite (equal_fold_ascii "Example.COM" "eXAMPLE.com"); [vm_compute; reflexivity|..];
    (apply (bool_decide_unpack _); vm_compute; reflexivity).
Defined.

(** The Kelvin sign folds to the letter. *)
Example kelvin : equal_fold (String "226" (String "132" (String "170" EmptyString))) "k" = Some true.
Proof. vm_compute. reflexivity. Qed.

End GoUnicodeExamples.
