(* ===== verification/GoDuration.v ===== *)
(** * GoDuration: Go durations (headscale-api-acl/src/go_duration.rs and the printer in
    headscale-api-acl/src/lib.rs)

    [parse_nanos] is Go's [time.ParseDuration] and [format_go_duration_nanos] its
    [Duration.String]: numbers with fractions and units, read into and printed from
    signed nanoseconds.  Machine integers keep their width.  The fraction goes
    through [f64]; the numbers that occur are positive and neither overflow nor
    become subnormal, so an operation is the exact result rounded to 53
    significant bits, ties to even.  A float is its mantissa and exponent.  The
    loop has the length of the text as fuel, and the theorems show that it
    suffices and that reading inverts printing on every [i64]. *)

From stdpp Require Import base list strings.
From Stdlib Require Import ZArith Lia Ascii.
From S2P Require Import Prelude Text Net GoNetip.

Open Scope Z_scope.
Open Scope rust_scope.

(** ** Floats *)

Definition f64 : Type := Z * Z.

(** [n / d] at exponent [e], to the nearest integer, ties to even. *)
Definition quantize (n d e : Z) : Z :=
  let n := if e <? 0 then n * 2 ^ (- e) else n in
  let d := if e <? 0 then d else d * 2 ^ e in
  let q := n / d in
  let r := n `mod` d in
  if 2 * r <? d then q else if d <? 2 * r then q + 1 else q + q `mod` 2.

(** The float nearest to [n / d], both positive. *)
Definition round53 (n d : Z) : f64 :=
  let e := Z.log2 n - Z.log2 d - 52 in
  let e := if (if e <? 0 then n * 2 ^ (- e) / d else n / (d * 2 ^ e)) <? 2 ^ 52 then e - 1 else e in
  (quantize n d e, e).

Definition f64_of_u64 (n : Z) : f64 := round53 n 1.
Definition f64_one : f64 := f64_of_u64 1.
Definition f64_ten : f64 := f64_of_u64 10.

Definition f64_mul (x y : f64) : f64 :=
  let e := x.2 + y.2 in round53 (x.1 * y.1 * 2 ^ Z.max 0 e) (2 ^ Z.max 0 (- e)).

Definition f64_div (x y : f64) : f64 :=
  round53 (x.1 * 2 ^ Z.max 0 (x.2 - y.2)) (y.1 * 2 ^ Z.max 0 (y.2 - x.2)).

(** [as u64]: truncation, saturating. *)
Definition f64_to_u64 (x : f64) : Z :=
  Z.min (u_max 64) (if x.2 <? 0 then x.1 / 2 ^ (- x.2) else x.1 * 2 ^ x.2).

(** ** Reading *)

Inductive DurationError := InvalidDuration | MissingUnit | UnknownUnit (name : string).

Definition LIMIT : Z := 2 ^ 63.

Definition is_digit (c : ascii) : bool := match to_digit 10 c with Some _ => true | None => false end.

Definition starts_digit (l : chars) : bool := match l with c :: _ => is_digit c | [] => false end.

(** [None] is the overflow of the whole part. *)
Fixpoint leading_int (whole : Z) (l : chars) : option (Z * chars) :=
  match l with
  | [] => Some (whole, [])
  | c :: t =>
      match to_digit 10 c with
      | None => Some (whole, l)
      | Some k => if LIMIT / 10 <? whole then None
                  else let whole := whole * 10 + k in if LIMIT <? whole then None else leading_int whole t
      end
  end.

Fixpoint leading_fraction (l : chars) (fraction : Z) (scale : f64) (overflow : bool) : Z * f64 * chars :=
  match l with
  | [] => (fraction, scale, [])
  | c :: t =>
      match to_digit 10 c with
      | None => (fraction, scale, l)
      | Some k =>
          if overflow then leading_fraction t fraction scale true
          else if (LIMIT - 1) / 10 <? fraction then leading_fraction t fraction scale true
          else let next := fraction * 10 + k in
               if LIMIT <? next then leading_fraction t fraction scale true
               else leading_fraction t next (f64_mul scale f64_ten) false
      end
  end.

Fixpoint unit_chars (l : chars) : chars * chars :=
  match l with
  | [] => ([], [])
  | c :: t => if Ascii.eqb c "." || is_digit c then ([], l) else let '(name, rest) := unit_chars t in (c :: name, rest)
  end.

Definition micro_sign : string := String "194" (String "181" "s").
Definition greek_mu : string := String "206" (String "188" "s").

Definition unit_of (name : string) : option Z :=
  if bool_decide (name = "ns"%string) then Some 1
  else if bool_decide (name ∈ ["us"%string; micro_sign; greek_mu]) then Some 1000
  else if bool_decide (name = "ms"%string) then Some 1000000
  else if bool_decide (name = "s"%string) then Some 1000000000
  else if bool_decide (name = "m"%string) then Some 60000000000
  else if bool_decide (name = "h"%string) then Some 3600000000000
  else None.

(** One round of the loop: the nanoseconds it adds and the text left. *)
Definition component (l : chars) : result (Z * chars) DurationError :=
  if negb (match l with c :: _ => Ascii.eqb c "." | [] => false end || starts_digit l) then Err InvalidDuration
  else
    let? '(whole, rest) := ok_or (leading_int 0 l) InvalidDuration in
    let pre := starts_digit l in
    let '(post, fraction, scale, rest) :=
      match rest with
      | c :: t => if Ascii.eqb c "." then let '(fraction, scale, rest) := leading_fraction t 0 f64_one false in (starts_digit t, fraction, scale, rest)
                  else (false, 0, f64_one, rest)
      | [] => (false, 0, f64_one, rest)
      end in
    if negb pre && negb post then Err InvalidDuration
    else
      let '(name, rest) := unit_chars rest in
      if bool_decide (name = []) then Err MissingUnit
      else
        let? unit := ok_or (unit_of (of_chars name)) (UnknownUnit (of_chars name)) in
        if LIMIT / unit <? whole then Err InvalidDuration
        else if 0 <? fraction then
          let component := wrapping_add 64 (whole * unit) (f64_to_u64 (f64_mul (f64_of_u64 fraction) (f64_div (f64_of_u64 unit) scale))) in
          if LIMIT <? component then Err InvalidDuration else Ok (component, rest)
        else Ok (whole * unit, rest).

Fixpoint components (fuel : nat) (total : Z) (l : chars) : option (result Z DurationError) :=
  match l with
  | [] => Some (Ok total)
  | _ =>
      match fuel with
      | O => None
      | S f =>
          match component l with
          | Err e => Some (Err e)
          | Ok (c, rest) =>
              let total := wrapping_add 64 total c in
              if LIMIT <? total then Some (Err InvalidDuration) else components f total rest
          end
      end
  end.

(** Two's complement. *)
Definition to_i64 (n : Z) : Z := (n + 2 ^ 63) `mod` 2 ^ 64 - 2 ^ 63.

Definition finish (negative : bool) (total : Z) : result Z DurationError :=
  if negative then Ok (to_i64 (- to_i64 total)) else if total <=? 2 ^ 63 - 1 then Ok total else Err InvalidDuration.

Definition parse_nanos (input : string) : option (result Z DurationError) :=
  let l := to_chars input in
  let '(negative, l) :=
    match l with
    | c :: t => if Ascii.eqb c "-" then (true, t) else if Ascii.eqb c "+" then (false, t) else (false, l)
    | [] => (false, l)
    end in
  if bool_decide (l = ["0"%char]) then Some (Ok 0)
  else if bool_decide (l = []) then Some (Err InvalidDuration)
  else r ← components (length l) 0 l; Some (let? total := r in finish negative total).

(** ** Printing *)

(** [{n:0width$}] *)
Definition pad (width : nat) (n : Z) : chars :=
  let ds := to_chars (show_dec n) in replicate (width - length ds) "0"%char ++ ds.

Fixpoint strip_zeros (l : chars) : chars :=
  match l with
  | [] => []
  | c :: t => match strip_zeros t with [] => if Ascii.eqb c "0" then [] else [c] | t' => c :: t' end
  end.

(** [.] and the fraction, or nothing. *)
Definition fraction_chars (width : nat) (fraction : Z) : chars :=
  if fraction =? 0 then [] else "."%char :: strip_zeros (pad width fraction).

Definition decimal_unit (total_nanos unit_nanos : Z) (suffix : string) (width : nat) : chars :=
  to_chars (show_dec (total_nanos / unit_nanos)) ++ fraction_chars width (total_nanos `mod` unit_nanos) ++ to_chars suffix.

Definition NANOS_PER_SECOND : Z := 1000000000.
Definition NANOS_PER_MINUTE : Z := 60 * NANOS_PER_SECOND.
Definition NANOS_PER_HOUR : Z := 60 * NANOS_PER_MINUTE.

Definition format_abs (abs : Z) : chars :=
  if abs <? NANOS_PER_SECOND then
    if abs <? 1000 then to_chars (show_dec abs) ++ to_chars "ns"
    else if abs <? 1000000 then decimal_unit abs 1000 micro_sign 3
    else decimal_unit abs 1000000 "ms" 6
  else
    let hours := abs / NANOS_PER_HOUR in
    let abs := abs `mod` NANOS_PER_HOUR in
    let minutes := abs / NANOS_PER_MINUTE in
    let abs := abs `mod` NANOS_PER_MINUTE in
    (if 0 <? hours then to_chars (show_dec hours) ++ "h"%char :: to_chars (show_dec minutes) ++ ["m"%char]
     else if 0 <? minutes then to_chars (show_dec minutes) ++ ["m"%char] else [])
    ++ to_chars (show_dec (abs / NANOS_PER_SECOND)) ++ fraction_chars 9 (abs `mod` NANOS_PER_SECOND) ++ ["s"%char].

Definition format_go_duration_nanos (nanos : Z) : string :=
  if nanos =? 0 then "0s"
  else of_chars ((if nanos <? 0 then ["-"%char] else []) ++ format_abs (Z.abs nanos)).

(** The SSH check period of a policy: [always] is kept and the rest normalised. *)
Definition parse_duration_nanos (input : string) : option (result Z DurationError) :=
  if bool_decide (input = "always"%string) then Some (Ok 0) else parse_nanos input.

Definition render_ssh_check_period (period : string) : option string :=
  if bool_decide (period = "always"%string) then Some period
  else r ← parse_duration_nanos period; Some (match r with Ok nanos => format_go_duration_nanos nanos | Err _ => period end).

Example parse_one : parse_nanos "1h2m3.5s" = Some (Ok 3723500000000).
Proof. vm_compute. reflexivity. Qed.

Example print_min : format_go_duration_nanos (- 2 ^ 63) = "-2562047h47m16.854775808s"%string.
Proof. vm_compute. reflexivity. Qed.

(** ** Exact floats *)

(** The float is the integer [n]. *)
Definition is_int (x : f64) (n : Z) : Prop := x.2 <= 0 /\ x.1 = n * 2 ^ (- x.2).

Lemma quantize_exact v d e : 0 < d -> e <= 0 -> quantize (v * d) d e = v * 2 ^ (- e).
Proof.
  intros Hd He. unfold quantize. assert ((if e <? 0 then v * d * 2 ^ (- e) else v * d) = v * 2 ^ (- e) * d) as ->.
  { destruct (Z.ltb_spec e 0); [ring|]. replace (- e) with 0 by lia. rewrite Z.pow_0_r. ring. }
  assert ((if e <? 0 then d else d * 2 ^ e) = d) as ->.
  { destruct (Z.ltb_spec e 0); [done|]. replace e with 0 by lia. rewrite Z.pow_0_r. ring. }
  rewrite Z.div_mul, Z.mod_mul by lia. rewrite (proj2 (Z.ltb_lt _ _)); lia.
Qed.

Lemma round53_exact v d : 0 < v < 2 ^ 52 -> 0 < d -> is_int (round53 (v * d) d) v.
Proof.
  intros Hv Hd. assert (Z.log2 (v * d) <= Z.log2 v + Z.log2 d + 1) as Hl by (apply Z.log2_mul_above; lia).
  assert (Z.log2 v < 52) as Hlv by (apply Z.log2_lt_pow2; lia).
  unfold round53. cbv zeta. set (e := Z.log2 (v * d) - Z.log2 d - 52). assert (e <= 0) as He by (subst e; lia). clearbody e.
  destruct (_ <? 2 ^ 52); unfold is_int; cbn [fst snd]; (split; [lia|]); apply quantize_exact; lia.
Qed.

Lemma of_u64_int n : 0 < n < 2 ^ 52 -> is_int (f64_of_u64 n) n.
Proof. intros Hn. unfold f64_of_u64. pose proof (round53_exact n 1 Hn ltac:(lia)) as Hr. by rewrite Z.mul_1_r in Hr. Qed.

Lemma mul_int x y a b : is_int x a -> is_int y b -> 0 < a * b < 2 ^ 52 -> is_int (f64_mul x y) (a * b).
Proof.
  intros [Hx Ex] [Hy Ey] Hab. unfold f64_mul. rewrite Ex, Ey. cbv zeta.
  rewrite Z.max_l, Z.max_r by lia. rewrite Z.pow_0_r, Z.mul_1_r.
  replace (a * 2 ^ (- x.2) * (b * 2 ^ (- y.2))) with (a * b * 2 ^ (- (x.2 + y.2))).
  { apply round53_exact; [done|]. apply Z.pow_pos_nonneg; lia. }
  replace (- (x.2 + y.2)) with (- x.2 + - y.2) by lia. rewrite Z.pow_add_r by lia. ring.
Qed.

Lemma div_int x y a b : is_int x (a * b) -> is_int y b -> 0 < a < 2 ^ 52 -> 0 < b -> is_int (f64_div x y) a.
Proof.
  intros [Hx Ex] [Hy Ey] Ha Hb. unfold f64_div. rewrite Ex, Ey.
  rewrite <-!Z.mul_assoc, <-!Z.pow_add_r by lia.
  replace (- x.2 + Z.max 0 (x.2 - y.2)) with (- y.2 + Z.max 0 (y.2 - x.2)) by lia.
  apply round53_exact; [done|]. apply Z.mul_pos_pos; [done|]. apply Z.pow_pos_nonneg; lia.
Qed.

Lemma to_u64_int x n : is_int x n -> 0 <= n <= u_max 64 -> f64_to_u64 x = n.
Proof.
  intros [Hx Ex] Hn. unfold f64_to_u64. rewrite Ex. destruct (Z.ltb_spec x.2 0).
  - rewrite Z.div_mul by (apply Z.pow_nonzero; lia). lia.
  - replace x.2 with 0 by lia. change (- 0) with 0. rewrite Z.pow_0_r. lia.
Qed.

(** ** Digits *)

Definition digits_ok (ds : list Z) : Prop := Forall (fun d => 0 <= d < 10) ds.

Lemma dec_fold_app v ds : fold_left (fun v d => v * 10 + d) ds v = v * 10 ^ Z.of_nat (length ds) + dec_value ds.
Proof.
  unfold dec_value. revert v. induction ds as [|d ds IH]; intros v; cbn [fold_left length]; [rewrite Z.pow_0_r; lia|].
  rewrite IH, (IH (0 * 10 + d)), Nat2Z.inj_succ, Z.pow_succ_r by lia. ring.
Qed.

Lemma dec_value_app a b : dec_value (a ++ b) = dec_value a * 10 ^ Z.of_nat (length b) + dec_value b.
Proof. unfold dec_value at 1. rewrite fold_left_app. apply dec_fold_app. Qed.

Lemma dec_value_bounds ds : digits_ok ds -> 0 <= dec_value ds < 10 ^ Z.of_nat (length ds).
Proof.
  induction 1 as [|d ds Hd _ IH]; [cbn; lia|]. change (d :: ds) with ([d] ++ ds). rewrite dec_value_app.
  change (dec_value [d]) with d. rewrite length_app. cbn [length]. rewrite Nat2Z.inj_add, Z.pow_add_r by lia. change (10 ^ Z.of_nat 1) with 10. nia.
Qed.

Lemma starts_digit_map d ds rest : 0 <= d < 10 -> starts_digit (map digit_char (d :: ds) ++ rest) = true.
Proof. intros Hd. cbn. unfold is_digit. by rewrite digit_char_10. Qed.

Lemma leading_int_digits ds rest : forall v,
  digits_ok ds -> starts_digit rest = false -> 0 <= v -> fold_left (fun v d => v * 10 + d) ds v <= LIMIT ->
  leading_int v (map digit_char ds ++ rest) = Some (fold_left (fun v d => v * 10 + d) ds v, rest).
Proof.
  induction ds as [|d ds IH]; intros v Hd Hr Hv Hl; cbn [map app fold_left] in *.
  - destruct rest as [|c t]; [done|]. cbn [leading_int starts_digit] in *. unfold is_digit in Hr. by destruct (to_digit 10 c).
  - apply Forall_cons in Hd as [Hd Hds]. cbn [leading_int]. rewrite digit_char_10 by done.
    assert (v * 10 + d <= LIMIT) as Hvl.
    { rewrite dec_fold_app in Hl. pose proof (dec_value_bounds ds Hds). assert (1 <= 10 ^ Z.of_nat (length ds)) by (apply Z.pow_le_mono_r with (b := 0); lia). nia. }
    rewrite (proj2 (Z.ltb_ge (LIMIT / 10) v)) by (apply Z.div_le_lower_bound; lia).
    rewrite (proj2 (Z.ltb_ge LIMIT (v * 10 + d))) by lia. apply IH; [done..|lia|done].
Qed.

(** Up to fifteen digits of a fraction are exact. *)
Lemma leading_fraction_digits ds rest : forall v s k,
  digits_ok ds -> starts_digit rest = false -> 0 <= v < 10 ^ k -> 0 <= k -> k + Z.of_nat (length ds) <= 15 -> is_int s (10 ^ k) ->
  exists s', leading_fraction (map digit_char ds ++ rest) v s false = (fold_left (fun v d => v * 10 + d) ds v, s', rest) /\
    is_int s' (10 ^ (k + Z.of_nat (length ds))).
Proof.
  induction ds as [|d ds IH]; intros v s k Hd Hr Hv Hk Hlen Hs; cbn [map app fold_left length] in *.
  - exists s. rewrite Z.add_0_r. split; [|done]. destruct rest as [|c t]; [done|]. cbn [leading_fraction starts_digit] in *.
    unfold is_digit in Hr. by destruct (to_digit 10 c).
  - apply Forall_cons in Hd as [Hd Hds]. cbn [leading_fraction]. rewrite digit_char_10 by done.
    assert (10 ^ (k + 1) = 10 ^ k * 10) as Hp by (rewrite Z.pow_add_r by lia; done).
    assert (10 ^ k <= 10 ^ 14) by (apply Z.pow_le_mono_r; lia). assert (0 < 10 ^ k) by (apply Z.pow_pos_nonneg; lia).
    rewrite (proj2 (Z.ltb_ge _ v)) by (unfold LIMIT; apply Z.div_le_lower_bound; lia).
    rewrite (proj2 (Z.ltb_ge LIMIT (v * 10 + d))) by (unfold LIMIT; lia).
    destruct (IH (v * 10 + d) (f64_mul s f64_ten) (k + 1)) as (s' & -> & Hs'); [done|done|lia|lia|lia| |].
    { rewrite Hp. apply mul_int; [done|apply of_u64_int; lia|lia]. }
    exists s'. split; [done|]. by replace (k + Z.of_nat (S (length ds))) with (k + 1 + Z.of_nat (length ds)) by lia.
Qed.

Lemma strip_zeros_digits ds :
  digits_ok ds -> exists ds' k, ds = ds' ++ replicate k 0 /\ strip_zeros (map digit_char ds) = map digit_char ds'.
Proof.
  induction 1 as [|d ds Hd _ (ds' & k & -> & IH)]; [by exists [], 0%nat|]. cbn [map strip_zeros]. rewrite IH.
  destruct ds' as [|x ds']; cbn [map app].
  - destruct (Ascii.eqb_spec (digit_char d) "0") as [E|E].
    + exists [], (S k). split; [|done]. assert (to_digit 10 (digit_char d) = Some 0) as E' by (rewrite E; done).
      rewrite digit_char_10 in E' by done. by injection E' as ->.
    + by exists [d], k.
  - by exists (d :: x :: ds'), k.
Qed.

(** The printed fraction: its digits, without trailing zeros. *)
Lemma fraction_digits width f :
  (0 < width <= 9)%nat -> 0 < f < 10 ^ Z.of_nat width ->
  exists ds, strip_zeros (pad width f) = map digit_char ds /\ digits_ok ds /\ (0 < length ds <= width)%nat /\
    dec_value ds * 10 ^ Z.of_nat (width - length ds) = f.
Proof.
  intros Hw Hf. unfold pad. destruct (show_dec_digits f width) as (ds & -> & Hl & Hd & Hv & _); [lia|lia|].
  rewrite length_map. set (z := (width - length ds)%nat).
  assert (replicate z "0"%char ++ map digit_char ds = map digit_char (replicate z 0 ++ ds)) as ->.
  { rewrite map_app. f_equal. clear. induction z as [|z IH]; [done|]. cbn. by rewrite IH. }
  assert (digits_ok (replicate z 0 ++ ds)) as Hall.
  { apply Forall_app. split; [|done]. apply Forall_replicate. lia. }
  assert (forall k, dec_value (replicate k 0) = 0) as Hzero.
  { induction k as [|k IHk]; [done|]. change (replicate (S k) 0) with ([0] ++ replicate k 0). rewrite dec_value_app, IHk. done. }
  destruct (strip_zeros_digits _ Hall) as (ds' & k & E & ->). exists ds'. rewrite E in Hall. apply Forall_app in Hall as [Hok _].
  assert (length ds' + k = width)%nat as Hlen.
  { pose proof (f_equal length E) as El. rewrite !length_app, !length_replicate in El. subst z. lia. }
  assert (dec_value (replicate z 0 ++ ds) = dec_value ds' * 10 ^ Z.of_nat k) as Hval.
  { rewrite E, dec_value_app, Hzero, length_replicate. lia. }
  rewrite dec_value_app, Hzero in Hval. replace (width - length ds')%nat with k by lia.
  split_and!; [done|done| |lia|lia]. destruct ds' as [|x ds']; [|simpl; lia]. exfalso. change (dec_value []) with 0 in Hval. lia.
Qed.

(** ** One component *)

(** A unit: some text without digits and points. *)
Definition unit_text (name : string) : Prop :=
  name <> ""%string /\ Forall (fun c => Ascii.eqb c "." || is_digit c = false) (to_chars name).

Lemma unit_chars_name name rest :
  Forall (fun c => Ascii.eqb c "." || is_digit c = false) name -> rest = [] \/ starts_digit rest = true ->
  unit_chars (name ++ rest) = (name, rest).
Proof.
  intros Hn Hr. induction Hn as [|c name Hc _ IH]; cbn [app unit_chars].
  - destruct rest as [|c t]; [done|]. destruct Hr as [|Hr]; [done|]. cbn [starts_digit] in Hr. cbn [unit_chars]. by rewrite Hr, orb_true_r.
  - by rewrite Hc, IH.
Qed.

(** The fraction of a unit, in nanoseconds. *)
Lemma scaled_fraction ds width :
  (0 < length ds <= width)%nat -> (width <= 9)%nat -> digits_ok ds -> 0 < dec_value ds ->
  forall s, is_int s (10 ^ Z.of_nat (length ds)) ->
  f64_to_u64 (f64_mul (f64_of_u64 (dec_value ds)) (f64_div (f64_of_u64 (10 ^ Z.of_nat width)) s)) =
  dec_value ds * 10 ^ Z.of_nat (width - length ds).
Proof.
  intros Hl Hw Hd Hpos s Hs. pose proof (dec_value_bounds ds Hd) as Hb.
  assert (10 ^ Z.of_nat width = 10 ^ Z.of_nat (width - length ds) * 10 ^ Z.of_nat (length ds)) as Hp.
  { rewrite <-Z.pow_add_r by lia. f_equal. lia. }
  assert (0 < 10 ^ Z.of_nat (width - length ds)) by (apply Z.pow_pos_nonneg; lia).
  assert (0 < 10 ^ Z.of_nat (length ds)) by (apply Z.pow_pos_nonneg; lia).
  assert (10 ^ Z.of_nat width <= 10 ^ 9) as Hmax by (apply Z.pow_le_mono_r; lia).
  apply to_u64_int; [|unfold u_max; nia]. apply mul_int; [apply of_u64_int; nia| |nia].
  apply (div_int _ _ _ (10 ^ Z.of_nat (length ds))); [|done|nia|done]. rewrite <-Hp. apply of_u64_int. lia.
Qed.

Lemma component_spec whole width f name unit rest :
  0 <= whole -> 0 < unit -> f = 0 \/ ((0 < width <= 9)%nat /\ unit = 10 ^ Z.of_nat width /\ 0 < f < unit) ->
  unit_text name -> unit_of name = Some unit -> rest = [] \/ starts_digit rest = true -> whole * unit + f <= LIMIT ->
  component (to_chars (show_dec whole) ++ fraction_chars width f ++ to_chars name ++ rest) = Ok (whole * unit + f, rest).
Proof.
  intros Hwh Hu Hf [Hne Hname] Hunit Hrest Hlim. assert (whole <= LIMIT) as Hwl by nia.
  destruct (show_dec_digits whole 19) as (ds & -> & Hl & Hd & Hv & _); [lia|unfold LIMIT in *; lia|].
  destruct ds as [|d ds]; [simpl in Hl; lia|]. pose proof Hd as Hd'. apply Forall_cons in Hd' as [Hd0 _].
  assert (to_chars name <> []) as Hnn by (by destruct name).
  assert (starts_digit (to_chars name ++ rest) = false) as Hsn.
  { destruct (to_chars name) as [|c t]; [done|]. apply Forall_cons in Hname as [Hc _]. cbn. by apply orb_false_iff in Hc as [_ ->]. }
  assert (starts_digit (fraction_chars width f ++ to_chars name ++ rest) = false) as Hsf.
  { unfold fraction_chars. destruct (f =? 0); [done|]. done. }
  unfold component. rewrite starts_digit_map, orb_true_r by done. cbn [negb].
  rewrite leading_int_digits by (unfold dec_value in Hv; (done || lia)). fold (dec_value (d :: ds)). rewrite Hv. cbn [ok_or result_bind].
  assert (LIMIT / unit <? whole = false) as Hq by (apply Z.ltb_ge; apply Z.div_le_lower_bound; nia).
  unfold fraction_chars. destruct Hf as [->|(Hw & Eu & Hf)].
  - rewrite Z.eqb_refl. cbn [app]. destruct (to_chars name ++ rest) as [|c t] eqn:E; [by destruct (to_chars name)|].
    assert (Ascii.eqb c "." = false) as Hdot.
    { destruct (to_chars name) as [|c' t']; [done|]. injection E as -> _. apply Forall_cons in Hname as [Hc _]. by apply orb_false_iff in Hc as [-> _]. }
    rewrite Hdot. cbn [negb andb]. rewrite <-E, unit_chars_name by done. rewrite bool_decide_false by done.
    rewrite of_to_chars, Hunit. cbn [ok_or result_bind]. rewrite Hq. cbn [Z.ltb Z.compare]. by rewrite Z.add_0_r.
  - rewrite (proj2 (Z.eqb_neq f 0)) by lia. rewrite Eu in Hf. destruct (fraction_digits width f) as (fs & -> & Hfd & Hfl & Hfv); [lia|lia|].
    cbn [app Ascii.eqb Bool.eqb].
    destruct (leading_fraction_digits fs (to_chars name ++ rest) 0 f64_one 0) as (s & Els & Hs); [done|done|lia|lia|lia|apply of_u64_int; lia|].
    rewrite Els. fold (dec_value fs). rewrite Z.add_0_l in Hs.
    cbn [negb andb]. rewrite unit_chars_name by done. rewrite bool_decide_false by done.
    rewrite of_to_chars, Hunit. cbn [ok_or result_bind]. rewrite Hq.
    assert (0 < dec_value fs) as Hfp by (pose proof (dec_value_bounds fs Hfd); assert (0 < 10 ^ Z.of_nat (width - length fs)) by (apply Z.pow_pos_nonneg; lia); nia).
    rewrite (proj2 (Z.ltb_lt 0 _)) by done. rewrite Eu, scaled_fraction by (done || lia). rewrite Hfv.
    assert (wrapping_add 64 (whole * 10 ^ Z.of_nat width) f = whole * unit + f) as ->.
    { unfold wrapping_add. rewrite <-Eu. apply Z.mod_small. unfold LIMIT in Hlim. nia. }
    rewrite (proj2 (Z.ltb_ge LIMIT _)) by done. by rewrite <-Eu.
Qed.

(** ** The loop *)

(** The text is read to [v], whatever was read before. *)
Definition reads (l : chars) (v : Z) : Prop :=
  forall fuel total, (length l <= fuel)%nat -> 0 <= total -> total + v <= LIMIT -> components fuel total l = Some (Ok (total + v)).

Lemma reads_nil : reads [] 0.
Proof. intros fuel total _ _ _. rewrite Z.add_0_r. by destruct fuel. Qed.

Lemma reads_component l v rest w :
  l <> [] -> (length rest < length l)%nat -> component l = Ok (v, rest) -> 0 <= v -> 0 <= w -> reads rest w -> reads l (v + w).
Proof.
  intros Hne Hlen Hc Hv Hw Hr fuel total Hf Ht Hl. destruct l as [|c l]; [done|]. destruct fuel as [|fuel]; [simpl in Hf; lia|].
  cbn [components]. rewrite Hc. assert (wrapping_add 64 total v = total + v) as ->.
  { unfold wrapping_add. apply Z.mod_small. unfold LIMIT in Hl. lia. }
  rewrite (proj2 (Z.ltb_ge LIMIT _)) by lia. rewrite Hr; [do 2 f_equal; lia|simpl in *; lia|lia|lia].
Qed.

Lemma show_dec_starts n rest : 0 <= n <= LIMIT -> starts_digit (to_chars (show_dec n) ++ rest) = true /\ to_chars (show_dec n) <> [].
Proof.
  intros Hn. destruct (show_dec_digits n 19) as (ds & -> & Hl & Hd & _); [lia|unfold LIMIT in *; lia|].
  destruct ds as [|d ds]; [simpl in Hl; lia|]. apply Forall_cons in Hd as [Hd _]. split; [by apply starts_digit_map|done].
Qed.

(** A number with a unit in front of a text. *)
Lemma reads_unit whole width f name unit rest w :
  0 <= whole -> 0 < unit -> f = 0 \/ ((0 < width <= 9)%nat /\ unit = 10 ^ Z.of_nat width /\ 0 < f < unit) ->
  unit_text name -> unit_of name = Some unit -> rest = [] \/ starts_digit rest = true -> 0 <= w -> whole * unit + f <= LIMIT ->
  reads rest w ->
  reads (to_chars (show_dec whole) ++ fraction_chars width f ++ to_chars name ++ rest) (whole * unit + f + w).
Proof.
  intros Hwh Hu Hf Hn Hunit Hrest Hw Hlim Hr.
  destruct (show_dec_starts whole [] ltac:(nia)) as [_ Hne]. eapply reads_component; [| |by apply component_spec| |done|done].
  - intros E. apply Hne. by apply app_nil in E as [? _].
  - rewrite !length_app. destruct (to_chars (show_dec whole)); [done|]. simpl. lia.
  - nia.
Qed.

Lemma units_text : unit_text "ns" /\ unit_text micro_sign /\ unit_text "ms" /\ unit_text "s" /\ unit_text "m" /\ unit_text "h".
Proof. split_and!; (split; [done|]); apply (bool_decide_unpack _); vm_compute; reflexivity. Qed.

Lemma reads_decimal abs unit name width :
  (0 < width <= 9)%nat -> unit = 10 ^ Z.of_nat width -> unit_text name -> unit_of name = Some unit -> 0 <= abs <= LIMIT ->
  reads (decimal_unit abs unit name width) abs.
Proof.
  intros Hw Eu Hn Hunit Ha. assert (0 < unit) as Hu by (rewrite Eu; apply Z.pow_pos_nonneg; lia).
  pose proof (Z.div_mod abs unit ltac:(lia)) as Hdm. pose proof (Z.mod_pos_bound abs unit Hu). unfold decimal_unit.
  assert (0 <= abs / unit) by (apply Z.div_pos; lia).
  rewrite <-(app_nil_r (to_chars name)). replace abs with (abs / unit * unit + abs `mod` unit + 0) at 3 by lia.
  apply reads_unit; [done|done| |done|done|by left|done|lia|apply reads_nil].
  destruct (decide (abs `mod` unit = 0)); [by left|right]. split_and!; [lia|lia|done|lia|lia].
Qed.

Lemma reads_format abs : 0 < abs <= LIMIT -> reads (format_abs abs) abs.
Proof.
  intros Ha. destruct units_text as (Hns & Hus & Hms & Hs & Hm & Hh). unfold format_abs.
  change NANOS_PER_HOUR with 3600000000000. change NANOS_PER_MINUTE with 60000000000. change NANOS_PER_SECOND with 1000000000.
  destruct (Z.ltb_spec abs 1000000000); [destruct (Z.ltb_spec abs 1000); [|destruct (Z.ltb_spec abs 1000000)]|].
  - replace abs with (abs * 1 + 0 + 0) at 2 by lia. rewrite <-(app_nil_r (to_chars "ns")).
    apply (reads_unit abs 1 0 "ns" 1 [] 0); [lia|lia|by left|done|done|by left|lia|lia|apply reads_nil].
  - apply reads_decimal; [lia|done|done|done|lia].
  - apply reads_decimal; [lia|done|done|done|lia].
  - cbv zeta.
    set (hours := abs / 3600000000000). set (a1 := abs `mod` 3600000000000). set (minutes := a1 / 60000000000). set (a2 := a1 `mod` 60000000000).
    assert (abs = hours * 3600000000000 + a1 /\ 0 <= a1 < 3600000000000) as [E1 H1]
      by (subst hours a1; pose proof (Z.div_mod abs 3600000000000); pose proof (Z.mod_pos_bound abs 3600000000000); lia).
    assert (a1 = minutes * 60000000000 + a2 /\ 0 <= a2 < 60000000000) as [E2 H2]
      by (subst minutes a2; pose proof (Z.div_mod a1 60000000000); pose proof (Z.mod_pos_bound a1 60000000000); lia).
    assert (0 <= hours) by (subst hours; apply Z.div_pos; lia). assert (0 <= minutes) by (subst minutes; apply Z.div_pos; lia).
    clearbody hours a1 minutes a2.
    set (seconds := to_chars (show_dec (a2 / 1000000000)) ++ fraction_chars 9 (a2 `mod` 1000000000) ++ ["s"%char]).
    assert (0 <= a2 / 1000000000 <= 60) by (split; [apply Z.div_pos; lia|apply Z.div_le_upper_bound; lia]).
    assert (reads seconds a2) as Hsec by (apply (reads_decimal a2 1000000000 "s" 9); [lia|done|done|done|lia]).
    assert (starts_digit seconds = true) as Hst by (apply show_dec_starts; unfold LIMIT; lia). clearbody seconds.
    assert (reads (to_chars (show_dec minutes) ++ "m"%char :: seconds) a1) as Hmin.
    { pose proof (reads_unit minutes 1 0 "m" 60000000000 seconds a2 ltac:(lia) ltac:(lia) ltac:(by left) Hm eq_refl ltac:(by right) ltac:(lia) ltac:(unfold LIMIT in *; lia) Hsec) as Hr.
      by rewrite Z.add_0_r, <-E2 in Hr. }
    destruct (Z.ltb_spec 0 hours); [|destruct (Z.ltb_spec 0 minutes)].
    + pose proof (reads_unit hours 1 0 "h" 3600000000000 (to_chars (show_dec minutes) ++ "m"%char :: seconds) a1 ltac:(lia) ltac:(lia) ltac:(by left) Hh eq_refl) as Hr.
      rewrite Z.add_0_r, <-E1 in Hr. rewrite <-!app_assoc. cbn [app]. rewrite <-?app_assoc. cbn [app]. apply Hr; [|lia|lia|done].
      right. apply show_dec_starts. unfold LIMIT in *. lia.
    + rewrite <-!app_assoc. cbn [app]. replace abs with a1 by lia. done.
    + cbn [app]. replace abs with a2 by lia. done.
Qed.

(** ** Termination and bounds *)

Lemma leading_int_rest l : forall v w rest, leading_int v l = Some (w, rest) -> (length rest <= length l)%nat.
Proof.
  induction l as [|c l IH]; intros v w rest; cbn [leading_int]; [by intros [= <- <-]|].
  destruct (to_digit 10 c); [|by intros [= <- <-]]. destruct (_ <? v); [done|]. destruct (LIMIT <? _); [done|].
  intros Hr%IH. simpl. lia.
Qed.

Lemma leading_fraction_rest l : forall v s o, (length (leading_fraction l v s o).2 <= length l)%nat.
Proof.
  induction l as [|c l IH]; intros v s o; cbn [leading_fraction]; [done|]. destruct (to_digit 10 c); [|done].
  repeat case_match; (etransitivity; [apply IH|simpl; lia]).
Qed.

Lemma unit_chars_rest l name rest : unit_chars l = (name, rest) -> length l = (length name + length rest)%nat.
Proof.
  revert name rest. induction l as [|c l IH]; intros name rest; cbn [unit_chars]; [by intros [= <- <-]|].
  destruct (_ || _); [by intros [= <- <-]|]. destruct (unit_chars l) as [n r]. intros [= <- <-]. simpl. by rewrite (IH n r).
Qed.

(** Every round consumes text. *)
Lemma component_shrinks l v rest : component l = Ok (v, rest) -> (length rest < length l)%nat.
Proof.
  unfold component. destruct (negb (_ || _)); [done|]. intros ([whole r1] & Hi & Hc)%result_bind_Ok.
  apply ok_or_Ok, leading_int_rest in Hi.
  set (parts := match r1 with [] => _ | c :: t => _ end) in Hc.
  assert (length parts.2 <= length r1)%nat as Hp.
  { subst parts. destruct r1 as [|c t]; [done|]. destruct (Ascii.eqb c "."); [|done].
    pose proof (leading_fraction_rest t 0 f64_one false) as Hf. destruct (leading_fraction t 0 f64_one false) as [[fr sc] r]. simpl in *. lia. }
  clearbody parts. destruct parts as [[[post fraction] scale] r2]. cbn [snd] in Hp. destruct (_ && _); [done|].
  destruct (unit_chars r2) as [name r3] eqn:Eu. apply unit_chars_rest in Eu. case_bool_decide as Hn; [done|].
  assert (0 < length name)%nat by (destruct name; [done|simpl; lia]).
  apply result_bind_Ok in Hc as (unit & _ & Hc). destruct (_ <? whole); [done|]. destruct (0 <? fraction).
  - destruct (LIMIT <? _); [done|]. injection Hc as _ <-. lia.
  - injection Hc as _ <-. lia.
Qed.

Lemma components_total fuel : forall total l, (length l <= fuel)%nat -> 0 <= total ->
  exists r, components fuel total l = Some r /\ forall n, r = Ok n -> 0 <= n.
Proof.
  induction fuel as [|fuel IH]; intros total [|c l] Hl Ht; cbn [components]; try (eexists; split; [done|]; by intros n [= <-]); [simpl in Hl; lia|].
  destruct (component (c :: l)) as [[v rest]|e] eqn:Ec; [|eexists; split; [done|]; done].
  apply component_shrinks in Ec. destruct (LIMIT <? _); [eexists; split; [done|]; done|].
  apply IH; [simpl in *; lia|]. unfold wrapping_add. apply Z.mod_pos_bound. lia.
Qed.

Lemma to_i64_range n : - 2 ^ 63 <= to_i64 n <= 2 ^ 63 - 1.
Proof. unfold to_i64. pose proof (Z.mod_pos_bound (n + 2 ^ 63) (2 ^ 64)). lia. Qed.

Lemma to_i64_id n : - 2 ^ 63 <= n <= 2 ^ 63 - 1 -> to_i64 n = n.
Proof. intros Hn. unfold to_i64. rewrite Z.mod_small; lia. Qed.

(** The negation of a magnitude, the least [i64] included. *)
Lemma finish_negative total : 0 <= total <= LIMIT -> finish true total = Ok (- total).
Proof.
  unfold finish, LIMIT. intros Ht. f_equal. destruct (decide (total = 2 ^ 63)) as [->|Hne]; [reflexivity|].
  rewrite (to_i64_id total) by lia. apply to_i64_id. lia.
Qed.

(** Reading a duration always terminates, and a value it accepts is an [i64],
    whatever wraps on the way. *)
Theorem parse_nanos_total input :
  exists r, parse_nanos input = Some r /\ forall n, r = Ok n -> - 2 ^ 63 <= n <= 2 ^ 63 - 1.
Proof.
  unfold parse_nanos. destruct (match to_chars input with [] => _ | c :: t => _ end) as [negative l].
  case_bool_decide; [eexists; split; [done|]; intros n [= <-]; lia|].
  case_bool_decide; [eexists; split; [done|]; done|].
  destruct (components_total (length l) 0 l ltac:(done) ltac:(lia)) as (r & -> & Hr). cbn [mbind option_bind].
  eexists. split; [done|]. intros n. destruct r as [total|e]; [|done]. cbn [result_bind]. unfold finish. destruct negative.
  - intros [= <-]. apply to_i64_range.
  - destruct (Z.leb_spec total (2 ^ 63 - 1)); [|done]. intros [= <-]. pose proof (Hr total eq_refl). lia.
Qed.

(** ** Round trip *)

Lemma format_abs_start abs : 0 < abs <= LIMIT -> starts_digit (format_abs abs) = true /\ (2 <= length (format_abs abs))%nat.
Proof.
  intros Ha. assert (forall n l, 0 <= n <= LIMIT -> l <> [] -> starts_digit (to_chars (show_dec n) ++ l) = true /\ (2 <= length (to_chars (show_dec n) ++ l))%nat) as Hshow.
  { intros n l Hn Hl. destruct (show_dec_starts n l Hn) as [Hs Hne]. split; [done|]. rewrite length_app.
    destruct (to_chars (show_dec n)); [done|]. destruct l; [done|]. simpl. lia. }
  assert (forall a u suffix width, 0 <= a <= LIMIT -> 0 < u -> suffix <> ""%string ->
    starts_digit (decimal_unit a u suffix width) = true /\ (2 <= length (decimal_unit a u suffix width))%nat) as Hdec.
  { intros a u suffix width Hb Hu Hne. apply Hshow.
    - split; [apply Z.div_pos; lia|]. apply Z.div_le_upper_bound; [lia|]. unfold LIMIT in *. nia.
    - intros E. apply app_nil in E as [_ E]. by destruct suffix. }
  unfold format_abs. destruct (abs <? NANOS_PER_SECOND); [destruct (abs <? 1000); [|destruct (abs <? 1000000)]|].
  - apply Hshow; [lia|done].
  - apply Hdec; [lia|lia|done].
  - apply Hdec; [lia|lia|done].
  - change NANOS_PER_HOUR with 3600000000000. change NANOS_PER_MINUTE with 60000000000. change NANOS_PER_SECOND with 1000000000.
    cbv zeta. pose proof (Z.mod_pos_bound abs 3600000000000 ltac:(lia)) as Hm. set (a1 := abs `mod` 3600000000000) in *.
    pose proof (Z.mod_pos_bound a1 60000000000 ltac:(lia)) as Hm2. set (a2 := a1 `mod` 60000000000) in *.
    assert (0 <= abs / 3600000000000 <= LIMIT) by (split; [apply Z.div_pos; lia|apply Z.div_le_upper_bound; unfold LIMIT in *; lia]).
    assert (0 <= a1 / 60000000000 <= LIMIT) by (split; [apply Z.div_pos; lia|apply Z.div_le_upper_bound; unfold LIMIT in *; lia]).
    assert (0 <= a2 / 1000000000 <= LIMIT) by (split; [apply Z.div_pos; lia|apply Z.div_le_upper_bound; unfold LIMIT in *; lia]).
    destruct (0 <? _); [|destruct (0 <? _)]; rewrite <-?app_assoc; cbn [app]; (apply Hshow; [done|]); try done.
    intros E. apply app_nil in E as [_ E]. done.
Qed.

Lemma parse_format_nanos n : - 2 ^ 63 <= n <= 2 ^ 63 - 1 -> parse_nanos (format_go_duration_nanos n) = Some (Ok n).
Proof.
  intros Hn. unfold format_go_duration_nanos. destruct (Z.eqb_spec n 0) as [->|Hz]; [vm_compute; reflexivity|].
  assert (0 < Z.abs n <= LIMIT) as Ha by (unfold LIMIT; lia).
  destruct (format_abs_start _ Ha) as [Hst Hlen]. pose proof (reads_format _ Ha (length (format_abs (Z.abs n))) 0 ltac:(done) ltac:(lia) ltac:(lia)) as Hr.
  rewrite Z.add_0_l in Hr. set (l := format_abs (Z.abs n)) in *. clearbody l.
  unfold parse_nanos. rewrite to_of_chars.
  assert (l <> ["0"%char] /\ l <> []) as [Hn0 Hnn] by (split; intros ->; simpl in Hlen; lia).
  destruct (Z.ltb_spec n 0).
  - cbn [app Ascii.eqb Bool.eqb]. rewrite !bool_decide_false by done. rewrite Hr. cbn [mbind option_bind result_bind].
    rewrite finish_negative by lia. do 2 f_equal. lia.
  - cbn [app]. destruct l as [|c t]; [done|]. cbn [starts_digit] in Hst.
    destruct (Ascii.eqb_spec c "-") as [->|_]; [done|]. destruct (Ascii.eqb_spec c "+") as [->|_]; [done|].
    rewrite !bool_decide_false by done. rewrite Hr. cbn [mbind option_bind result_bind]. unfold finish.
    rewrite (proj2 (Z.leb_le _ _)) by lia. do 2 f_equal. lia.
Qed.

(** Printing a duration and reading it back gives the same nanoseconds, for
    every [i64] including the least: the fraction survives the floating-point
    arithmetic of the reader.  So normalising a check period keeps its value and
    normalising it twice changes nothing. *)
Theorem duration_round_trip n :
  - 2 ^ 63 <= n <= 2 ^ 63 - 1 ->
  parse_nanos (format_go_duration_nanos n) = Some (Ok n) /\
  forall period, parse_nanos period = Some (Ok n) ->
    exists text, render_ssh_check_period period = Some text /\ parse_nanos text = Some (Ok n) /\ render_ssh_check_period text = Some text.
Proof.
  intros Hn. pose proof (parse_format_nanos n Hn) as Hp. split; [done|]. intros period Hper.
  assert (forall t, parse_nanos t = Some (Ok n) -> render_ssh_check_period t = Some (format_go_duration_nanos n)) as Hrender.
  { intros t Ht. assert (t <> "always"%string) as Hne.
    { intros ->. assert (parse_nanos "always" = Some (Err InvalidDuration)) as E by (vm_compute; reflexivity). congruence. }
    unfold render_ssh_check_period, parse_duration_nanos. rewrite !bool_decide_false, Ht by done. done. }
  eexists. split; [by apply Hrender|]. split; [done|by apply Hrender].
Qed.

Module DurationExamples.

Lemma duration_round_trip_witness :
  format_go_duration_nanos 5400000500000 = "1h30m0.0005s"%string /\
  parse_nanos (format_go_duration_nanos 5400000500000) = Some (Ok 5400000500000) /\
  exists text, render_ssh_check_period "90m0.5ms" = Some text /\ parse_nanos text = Some (Ok 5400000500000).
Proof.
  split; [vm_compute; reflexivity|]. destruct (duration_round_trip 5400000500000) as [Hp Hr]; [lia|]. split; [exact Hp|].
  destruct (Hr "90m0.5ms"%string) as (text & H1 & H2 & _); [vm_compute; reflexivity|]. exists text. split; [exact H1|exact H2].
Defined.

(** Two components of the limit wrap to zero, as in Go. *)
Example wraps : parse_nanos "9223372036854775808ns9223372036854775808ns" = Some (Ok 0).
Proof. vm_compute. reflexivity. Qed.

End DurationExamples.
