(* ===== verification/PolicyPorts.v ===== *)
(** * PolicyPorts: ports and protocols of the policy language
    (headscale-api-acl/src/lib.rs, the port and protocol functions)

    A destination or a grant names protocols and ports as text; the parser turns
    the text into ranges, the ranges are printed as normalised patterns
    [protocol/port], and the evaluator reads the patterns back against a
    protocol and a port.  Error texts are the constructors of [PortError].  The
    theorems show that the trip through the patterns is exact: a pattern accepts
    the ports of the ranges it was printed from, and no others. *)

From stdpp Require Import base list strings sets.
From Stdlib Require Import ZArith Lia Ascii.
From S2P Require Import Prelude Text Bytes Net GoNetip.

Open Scope Z_scope.
Open Scope rust_scope.

Record PortRef := mkPortRef { port_proto : option string; port_number : option Z }.

Definition PortRef_new (proto : string) (port : Z) : PortRef := mkPortRef (Some proto) (Some port).
Definition PortRef_any : PortRef := mkPortRef None None.

Inductive PortError :=
| BadRangeFormat
| FirstAfterLast
| ZeroPort
| NotAnInteger
| PortOutOfRange
| ProtoWildcard
| ProtoLeadingZero (proto : string)
| ProtoOutOfRange (n : Z)
| ProtoUnknown (proto : string)
| TooManyColons (parts : list string)
| InPortRange (spec : string) (e : PortError).

Definition parse_i64_str (s : string) : option Z := parse_i64 (to_chars s).

Definition parse_upstream_port (port : string) : result Z PortError :=
  let? parsed := ok_or (parse_i64_str port) NotAnInteger in
  if (0 <=? parsed) && (parsed <=? 65535) then Ok parsed else Err PortOutOfRange.

(** The body of the loop of [parse_go_port_ranges]. *)
Definition parse_port_part (part : string) : result (Z * Z) PortError :=
  if has_char "-" part then
    match List.filter (fun e => negb (bool_decide (e = ""%string))) (split_on "-" part) with
    | [a; b] =>
        let? first := parse_upstream_port a in
        let? last := parse_upstream_port b in
        if last <? first then Err FirstAfterLast else Ok (first, last)
    | _ => Err BadRangeFormat
    end
  else
    let? port := parse_upstream_port part in
    if port =? 0 then Err ZeroPort else Ok (port, port).

Fixpoint parse_parts (parts : list string) : result (list (Z * Z)) PortError :=
  match parts with
  | [] => Ok []
  | part :: rest =>
      let? range := parse_port_part part in
      let? ranges := parse_parts rest in
      Ok (range :: ranges)
  end.

Definition parse_go_port_ranges (spec : string) : result (list (Z * Z)) PortError :=
  if bool_decide (spec = "*"%string) then Ok [(0, 65535)] else parse_parts (split_on "," spec).

Definition validate_upstream_port_spec (spec : string) : result unit PortError :=
  result_map (fun _ => tt) (parse_go_port_ranges spec).

Definition known_protocols : list string :=
  [""; "icmp"; "igmp"; "ipv4"; "ip-in-ip"; "tcp"; "egp"; "igp"; "udp"; "gre"; "esp"; "ah"; "ipv6-icmp"; "sctp"; "fc"]%string.

Definition validate_upstream_proto (proto : string) : result unit PortError :=
  if bool_decide (proto ∈ known_protocols) then Ok tt
  else if bool_decide (proto = "*"%string) then Err ProtoWildcard
  else if bool_decide (proto = "0"%string) || ((1 <? String.length proto)%nat && starts_with "0" proto)
  then Err (ProtoLeadingZero proto)
  else match parse_i64_str proto with
       | Some n => if (0 <=? n) && (n <=? 255) then Ok tt else Err (ProtoOutOfRange n)
       | None => Err (ProtoUnknown proto)
       end.

Definition port_text (first last : Z) : string :=
  if (first =? 0) && (last =? 65535) then "*"
  else if first =? last then show_dec first
  else (show_dec first ++ "-" ++ show_dec last)%string.

Definition normalized_port_patterns (protocol : string) (ranges : list (Z * Z)) : list string :=
  let protocol := if bool_decide (protocol = ""%string) then "*"%string else protocol in
  map (fun r => (protocol ++ "/" ++ port_text r.1 r.2)%string) ranges.

(** The protocol and the ports of a grant's [ip] entry. *)
Definition grant_ip_split (spec : string) : result (string * string) PortError :=
  if bool_decide (spec = "*"%string) then Ok ("*"%string, "*"%string)
  else if has_char ":" spec then
    match split_on ":" spec with
    | [proto; ports] => let? _ := validate_upstream_proto proto in Ok (proto, ports)
    | parts => Err (TooManyColons parts)
    end
  else Ok ("*"%string, spec).

Definition normalize_grant_ip_spec (spec : string) : result (list string) PortError :=
  let? '(protocol, port_spec) := grant_ip_split spec in
  let? ranges := map_err (InPortRange port_spec) (parse_go_port_ranges port_spec) in
  Ok (normalized_port_patterns protocol ranges).

Definition proto_numbers (proto : string) : option (list Z) :=
  let lower := to_ascii_lowercase proto in
  if bool_decide (lower = "icmp"%string) then Some [1]
  else if bool_decide (lower = "igmp"%string) then Some [2]
  else if bool_decide (lower = "ipv4"%string) || bool_decide (lower = "ip-in-ip"%string) then Some [4]
  else if bool_decide (lower = "tcp"%string) then Some [6]
  else if bool_decide (lower = "egp"%string) then Some [8]
  else if bool_decide (lower = "igp"%string) then Some [9]
  else if bool_decide (lower = "udp"%string) then Some [17]
  else if bool_decide (lower = "gre"%string) then Some [47]
  else if bool_decide (lower = "esp"%string) then Some [50]
  else if bool_decide (lower = "ah"%string) then Some [51]
  else if bool_decide (lower = "ipv6-icmp"%string) then Some [58]
  else if bool_decide (lower = "sctp"%string) then Some [132]
  else if bool_decide (lower = "fc"%string) then Some [133]
  else n ← parse_u16 lower; if (1 <=? n) && (n <=? 255) then Some [n] else None.

Definition proto_matches (pattern actual : string) : bool :=
  if eq_ignore_ascii_case pattern actual then true
  else match proto_numbers pattern, proto_numbers actual with
       | Some ps, Some qs => existsb (fun p => bool_decide (p ∈ qs)) ps
       | _, _ => false
       end.

Definition port_part_matches (port_part : string) (port : Z) : bool :=
  match split_first "-" port_part with
  | Some (lo, hi) =>
      match parse_u16 lo, parse_u16 hi with
      | Some lo, Some hi => (lo <=? port) && (port <=? hi)
      | _, _ => false
      end
  | None => match parse_u16 port_part with Some want => port =? want | None => false end
  end.

Definition is_none_or {A} (p : A -> bool) (o : option A) : bool := match o with None => true | Some a => p a end.

Definition port_matches (pattern : string) (port : PortRef) : bool :=
  let pat := default pattern (strip_prefix "*:" pattern) in
  let '(proto_part, port_part) := default (pat, "*"%string) (split_first "/" pat) in
  (bool_decide (proto_part = "*"%string) || is_none_or (proto_matches proto_part) (port_proto port))
  && (bool_decide (port_part = "*"%string) || is_none_or (port_part_matches port_part) (port_number port)).

(** [grant.ip]'s test; [specs] are the entries of the grant. *)
Definition grant_specs_match (specs : list string) (port : PortRef) : bool :=
  match specs with [] => true | _ =>
    existsb (fun spec => match normalize_grant_ip_spec spec with
                         | Ok patterns => existsb (fun p => port_matches p port) patterns
                         | Err _ => false
                         end) specs
  end.

(** ** Destinations with ports *)

Inductive DestinationError :=
| NoColon | StartsWithColon | EndsWithColon
| BracketsNotIpv6 (text : option string)
| BadPorts (e : PortError).

Definition normalize_bracketed_ipv6_destination (input : string) : result string DestinationError :=
  match strip_prefix "[" input with
  | None => Ok input
  | Some tail =>
      match split_first "]" tail with
      | None => Err (BracketsNotIpv6 None)
      | Some (host, rest) =>
          match parse_addr host with
          | Err _ => Err (BracketsNotIpv6 (Some host))
          | Ok (addr, _) =>
              if is_v4 addr then Err (BracketsNotIpv6 (Some host))
              else if starts_with ":" rest || starts_with "/" rest then Ok (host ++ rest)%string
              else Err (BracketsNotIpv6 (Some input))
          end
      end
  end.

Definition split_go_destination_and_port (input : string) : result (string * string) DestinationError :=
  let? input := normalize_bracketed_ipv6_destination input in
  match split_last ":" input with
  | None => Err NoColon
  | Some (destination, port) =>
      if bool_decide (destination = ""%string) then Err StartsWithColon
      else if bool_decide (port = ""%string) then Err EndsWithColon
      else Ok (destination, port)
  end.

Definition is_namespaced_alias_without_port (dst : string) : bool :=
  existsb (fun prefix => match strip_prefix prefix dst with Some t => negb (has_char ":" t) | None => false end)
    ["tag:"; "group:"; "autogroup:"; "host:"]%string.

Definition split_upstream_dst_ports (dst : string) : result (option (string * string)) DestinationError :=
  if starts_with "[" dst then
    let? '(alias, port_spec) := split_go_destination_and_port dst in
    let? _ := map_err BadPorts (validate_upstream_port_spec port_spec) in
    Ok (Some (alias, port_spec))
  else
    match split_last ":" dst with
    | None => Ok None
    | Some (alias, port_spec) =>
        if bool_decide (alias = ""%string) || bool_decide (is_Some (strip_suffix ":" alias))
           || is_namespaced_alias_without_port dst then Ok None
        else let? _ := map_err BadPorts (validate_upstream_port_spec port_spec) in
             Ok (Some (alias, port_spec))
    end.

(** ** Printed numbers read back *)

Definition range_ok (r : Z * Z) : Prop := 0 <= r.1 <= r.2 /\ r.2 <= 65535.

Lemma has_char_chars c s : has_char c s = true <-> c ∈ to_chars s.
Proof.
  unfold to_chars. induction s as [|d s IH]; [cbn; set_solver|].
  change (has_char c (String d s)) with (Ascii.eqb c d || has_char c s)%bool.
  rewrite orb_true_iff, IH, Ascii.eqb_eq. cbn. by rewrite elem_of_cons.
Qed.

Lemma digit_char_not d c : 0 <= d < 10 -> to_digit 10 c = None -> digit_char d <> c.
Proof. intros Hd Hc <-. by rewrite digit_char_10 in Hc. Qed.

Lemma show_dec_no_char n c : 0 <= n <= 65535 -> to_digit 10 c = None -> has_char c (show_dec n) = false.
Proof.
  intros Hn Hc. apply not_true_is_false. rewrite has_char_chars.
  destruct (show_dec_digits n 5) as (ds & -> & _ & Hd & _); [lia|lia|].
  intros (d & E & Hin)%list_elem_of_fmap. rewrite Forall_forall in Hd. by apply (digit_char_not d c); auto.
Qed.

Lemma parse_u16_show n : 0 <= n <= 65535 -> parse_u16 (show_dec n) = Some n.
Proof.
  intros Hn. destruct (show_dec_digits n 5) as (ds & E & Hl & Hd & Hv & _); [lia|lia|].
  unfold parse_u16, parse_uint. change (String.list_ascii_of_string (show_dec n)) with (to_chars (show_dec n)).
  rewrite E. destruct ds as [|d ds]; [simpl in Hl; lia|]. cbn [map].
  destruct (Ascii.eqb_spec (digit_char d) "+") as [E'|_].
  { exfalso. apply Forall_cons in Hd as [Hd _]. by apply (digit_char_not d "+"). }
  change (digit_char d :: map digit_char ds) with (map digit_char (d :: ds)).
  unfold dec_value in Hv. rewrite parse_digits_fold; [by rewrite Hv|done|lia|lia].
Qed.

Lemma show_dec_nonempty n : 0 <= n <= 65535 -> show_dec n <> "*"%string.
Proof. intros Hn E. pose proof (show_dec_no_char n "*" Hn eq_refl) as H. rewrite E in H. done. Qed.

(** The printed form of a range accepts exactly its ports. *)
Lemma port_text_matches first last n :
  range_ok (first, last) -> 0 <= n <= 65535 ->
  (bool_decide (port_text first last = "*"%string) || port_part_matches (port_text first last) n = true)
  <-> first <= n <= last.
Proof.
  unfold range_ok. cbn [fst snd]. intros Hr Hn. unfold port_text.
  destruct (Z.eqb_spec first 0) as [Ef|Ef], (Z.eqb_spec last 65535) as [El|El]; cbn [andb];
    [rewrite bool_decide_true by done; simpl; split; intros; [lia|done]| | |].
  all: destruct (Z.eqb_spec first last) as [E|E].
  all: try (subst; rewrite bool_decide_false by (apply show_dec_nonempty; lia); cbn [orb];
    unfold port_part_matches; rewrite split_first_None by (apply show_dec_no_char; [lia|done]);
    rewrite parse_u16_show, Z.eqb_eq by lia; lia).
  all: rewrite bool_decide_false
    by (intros Heq; pose proof (has_char_app "-" (show_dec first) ("-" ++ show_dec last)) as Hc;
        rewrite Heq in Hc; rewrite show_dec_no_char in Hc by (lia || done); discriminate Hc).
  all: cbn [orb]; unfold port_part_matches; change ("-" ++ show_dec last)%string with (String "-" (show_dec last));
    rewrite split_first_app by (apply show_dec_no_char; [lia|done]);
    rewrite !parse_u16_show, andb_true_iff, !Z.leb_le by lia; done.
Qed.

(** ** The parser *)

(** A protocol's text has neither of the two separators of a pattern. *)
Definition proto_plain (p : string) : Prop := has_char "/" p = false /\ has_char ":" p = false.

Lemma parse_digits_no_char limit l c : forall v n,
  to_digit 10 c = None -> parse_digits limit v l = Some n -> c ∉ l.
Proof.
  induction l as [|d l IH]; intros v n Hc; cbn [parse_digits]; [intros _; apply not_elem_of_nil|].
  destruct (to_digit 10 d) as [k|] eqn:E; [|done]. destruct (_ <=? limit); [|done].
  intros Hp. apply not_elem_of_cons. split; [congruence|by eapply IH].
Qed.

Lemma parse_i64_no_char s n c :
  to_digit 10 c = None -> c <> "-"%char -> c <> "+"%char -> parse_i64_str s = Some n -> has_char c s = false.
Proof.
  intros Hc Hm Hp Hs. apply not_true_is_false. rewrite has_char_chars.
  unfold parse_i64_str, parse_i64, parse_magnitude in Hs. destruct (to_chars s) as [|d l]; [done|].
  rewrite elem_of_cons. destruct (Ascii.eqb_spec d "-") as [->|]; [|destruct (Ascii.eqb_spec d "+") as [->|]].
  - apply fmap_Some in Hs as (k & Hs & _). destruct l; [done|]. intros [?|Hin]; [done|]. by eapply parse_digits_no_char.
  - destruct l; [done|]. intros [?|Hin]; [done|]. by eapply parse_digits_no_char.
  - intros Hin%elem_of_cons. by eapply parse_digits_no_char.
Qed.

Lemma known_protocols_plain p : p ∈ known_protocols -> proto_plain p.
Proof. revert p. apply Forall_forall. unfold known_protocols. repeat (apply Forall_cons_2; [by split|]). apply Forall_nil_2. Qed.

Lemma valid_proto_plain p : validate_upstream_proto p = Ok tt -> proto_plain p.
Proof.
  unfold validate_upstream_proto. case_bool_decide as Hk; [intros _; by apply known_protocols_plain|].
  case_bool_decide; [done|]. destruct (_ || _)%bool; [done|].
  destruct (parse_i64_str p) as [n|] eqn:E; [|done]. intros _.
  split; eapply parse_i64_no_char; try exact E; done.
Qed.

Lemma grant_ip_split_plain spec protocol ports : grant_ip_split spec = Ok (protocol, ports) -> proto_plain protocol.
Proof.
  unfold grant_ip_split. case_bool_decide; [by intros [= <- _]|]. destruct (has_char ":" spec); [|by intros [= <- _]].
  destruct (split_on ":" spec) as [|a [|b [|]]]; try done.
  intros ([] & Hv & [= <- _])%result_bind_Ok. by apply valid_proto_plain.
Qed.

Lemma parse_upstream_port_ok s n : parse_upstream_port s = Ok n -> 0 <= n <= 65535.
Proof.
  unfold parse_upstream_port. rewrite result_bind_Ok. intros (k & _ & Hk).
  destruct (_ && _) eqn:E in Hk; [|done]. apply andb_true_iff in E as [?%Z.leb_le ?%Z.leb_le]. by simplify_eq.
Qed.

Lemma parse_port_part_ok part r : parse_port_part part = Ok r -> range_ok r.
Proof.
  unfold parse_port_part, range_ok. destruct (has_char "-" part).
  - destruct (List.filter _ _) as [|a [|b [|]]]; try done.
    rewrite result_bind_Ok. intros (f & Hf%parse_upstream_port_ok & Hr).
    apply result_bind_Ok in Hr as (l & Hl%parse_upstream_port_ok & Hr).
    destruct (Z.ltb_spec l f); simplify_eq/=. lia.
  - rewrite result_bind_Ok. intros (p & Hp%parse_upstream_port_ok & Hr). destruct (Z.eqb_spec p 0); simplify_eq/=. lia.
Qed.

Lemma parse_parts_Forall2 parts ranges :
  parse_parts parts = Ok ranges <-> Forall2 (fun part r => parse_port_part part = Ok r) parts ranges.
Proof.
  revert ranges. induction parts as [|part parts IH]; intros ranges; cbn [parse_parts].
  - split; [intros [= <-]; constructor|]. by inversion 1.
  - rewrite result_bind_Ok. setoid_rewrite result_bind_Ok. setoid_rewrite IH. split.
    + intros (r & Hr & rs & Hrs & [= <-]). by constructor.
    + inversion 1; subst. eauto.
Qed.

Lemma parse_parts_Err parts e :
  parse_parts parts = Err e <->
  exists pre part post, parts = pre ++ part :: post /\ is_ok (parse_parts pre) = true /\ parse_port_part part = Err e.
Proof.
  induction parts as [|part parts IH]; cbn [parse_parts].
  - split; [done|]. intros (pre & part & post & H & _). by destruct pre.
  - destruct (parse_port_part part) as [r|e'] eqn:E; cbn [result_bind].
    + rewrite result_bind_Err. split.
      * intros [H|(a & _ & H)]; [|done]. apply IH in H as (pre & q & post & -> & Hp & Hq).
        exists (part :: pre), q, post. split_and!; [done| |done]. cbn [parse_parts]. rewrite E. cbn [result_bind].
        by destruct (parse_parts pre).
      * intros (pre & q & post & Heq & Hp & Hq). left. apply IH. destruct pre as [|x pre]; simplify_eq/=; [congruence|].
        exists pre, q, post. split_and!; [done| |done]. rewrite E in Hp. cbn [result_bind] in Hp. by destruct (parse_parts pre).
    + split.
      * intros [= ->]. by exists [], part, parts.
      * intros (pre & q & post & Heq & Hp & Hq). destruct pre as [|x pre]; simplify_eq/=; [congruence|].
        by rewrite E in Hp.
Qed.

Lemma parse_go_port_ranges_ok spec ranges : parse_go_port_ranges spec = Ok ranges -> Forall range_ok ranges.
Proof.
  unfold parse_go_port_ranges. case_bool_decide.
  - intros [= <-]. apply Forall_singleton. unfold range_ok. simpl. lia.
  - rewrite parse_parts_Forall2. induction 1; constructor; eauto using parse_port_part_ok.
Qed.

(** ** Patterns *)

Lemma pattern_no_star protocol t :
  proto_plain protocol -> strip_prefix "*:" (protocol ++ String "/" t) = None.
Proof.
  intros [_ Hc]. destruct (strip_prefix _ _) as [u|] eqn:E; [|done]. apply strip_prefix_Some in E. exfalso.
  destruct protocol as [|a [|b protocol]]; [by injection E|by injection E|].
  injection E as -> -> _. done.
Qed.

Lemma pattern_matches protocol first last port :
  proto_plain protocol -> range_ok (first, last) -> is_none_or (fun n => (0 <=? n) && (n <=? 65535)) (port_number port) = true ->
  port_matches (protocol ++ "/" ++ port_text first last) port = true <->
  (protocol = "*"%string \/ is_none_or (proto_matches protocol) (port_proto port) = true) /\
  (forall n, port_number port = Some n -> first <= n <= last).
Proof.
  intros Hp Hr Hn. unfold port_matches. change ("/" ++ port_text first last)%string with (String "/" (port_text first last)).
  rewrite pattern_no_star by done. cbn [from_option id]. rewrite split_first_app by apply Hp. cbn [from_option id].
  rewrite andb_true_iff, !orb_true_iff, !bool_decide_eq_true. f_equiv.
  destruct (port_number port) as [n|]; cbn [is_none_or] in *; [|naive_solver].
  apply andb_true_iff in Hn as [?%Z.leb_le ?%Z.leb_le].
  pose proof (port_text_matches first last n Hr ltac:(lia)) as Hm. rewrite orb_true_iff, bool_decide_eq_true in Hm.
  rewrite Hm. naive_solver.
Qed.

(** What a grant's [ip] entry allows: its protocol, and the ports of one of its
    ranges. *)
Definition spec_allows (spec : string) (port : PortRef) : Prop :=
  exists protocol ports ranges r,
    grant_ip_split spec = Ok (protocol, ports) /\ parse_go_port_ranges ports = Ok ranges /\ r ∈ ranges /\
    (protocol = ""%string \/ protocol = "*"%string \/ is_none_or (proto_matches protocol) (port_proto port) = true) /\
    (forall n, port_number port = Some n -> r.1 <= n <= r.2).

Lemma normalized_patterns_match protocol ranges port :
  proto_plain protocol -> Forall range_ok ranges ->
  is_none_or (fun n => (0 <=? n) && (n <=? 65535)) (port_number port) = true ->
  existsb (fun p => port_matches p port) (normalized_port_patterns protocol ranges) = true <->
  (protocol = ""%string \/ protocol = "*"%string \/ is_none_or (proto_matches protocol) (port_proto port) = true) /\
  exists r, r ∈ ranges /\ forall n, port_number port = Some n -> r.1 <= n <= r.2.
Proof.
  intros Hp Hr Hn. unfold normalized_port_patterns.
  set (q := if bool_decide (protocol = ""%string) then "*"%string else protocol).
  assert (proto_plain q) as Hq by (subst q; case_bool_decide; done).
  assert ((q = "*"%string \/ is_none_or (proto_matches q) (port_proto port) = true) <->
          (protocol = ""%string \/ protocol = "*"%string \/ is_none_or (proto_matches protocol) (port_proto port) = true)) as <-.
  { subst q. case_bool_decide as E; [|naive_solver]. split; [by left|by left]. }
  rewrite existsb_elem. setoid_rewrite list_elem_of_fmap. rewrite Forall_forall in Hr. split.
  - intros (x & ([lo hi] & -> & Hin) & Hx). apply pattern_matches in Hx as [? ?]; eauto.
  - intros (Hproto & [lo hi] & Hin & Hm). eexists. split; [by exists (lo, hi)|]. apply pattern_matches; eauto.
Qed.

(** The [ip] entries of a grant allow a protocol and port exactly when there
    are none, or some entry splits into a protocol and port ranges, one of the
    ranges contains the port and the protocols agree: the trip through the printed
    patterns and back neither adds nor loses a port. *)
Theorem grant_ports_exact specs proto n :
  0 <= n <= 65535 ->
  grant_specs_match specs (PortRef_new proto n) = true <->
  specs = [] \/ exists spec, spec ∈ specs /\ spec_allows spec (PortRef_new proto n).
Proof.
  intros Hn. assert (is_none_or (fun n => (0 <=? n) && (n <=? 65535)) (port_number (PortRef_new proto n)) = true) as Hp.
  { cbn. rewrite andb_true_iff, !Z.leb_le. lia. }
  assert (forall spec, match normalize_grant_ip_spec spec with
                       | Ok patterns => existsb (fun p => port_matches p (PortRef_new proto n)) patterns
                       | Err _ => false
                       end = true <-> spec_allows spec (PortRef_new proto n)) as Hspec.
  { intros spec. unfold normalize_grant_ip_spec, spec_allows.
    destruct (grant_ip_split spec) as [[protocol ports]|e] eqn:Es; cbn [result_bind];
      [|split; [done|intros (? & ? & ? & ? & [=] & _)]].
    destruct (parse_go_port_ranges ports) as [ranges|e] eqn:Er; cbn [map_err result_bind];
      [|split; [done|intros (? & ? & ? & ? & [= <- <-] & E & _); congruence]].
    rewrite normalized_patterns_match; eauto using grant_ip_split_plain, parse_go_port_ranges_ok. split.
    - intros (Hproto & r & Hr & Hm). by exists protocol, ports, ranges, r.
    - intros (? & ? & ? & r & [= <- <-] & E & Hr & Hproto & Hm). rewrite Er in E. simplify_eq. eauto. }
  unfold grant_specs_match. destruct specs as [|s specs]; [naive_solver|]. rewrite existsb_elem. setoid_rewrite Hspec. naive_solver.
Qed.

(** A port list is read piece by piece: it is accepted exactly when it is [*]
    or every piece between commas is a positive port or a range with its ends in
    order, the ranges it gives lie within [0, 65535], and the error it reports is
    that of its first bad piece. *)
Theorem port_ranges_spec spec :
  match parse_go_port_ranges spec with
  | Ok ranges => Forall range_ok ranges /\ ranges <> [] /\
      (spec <> "*"%string -> Forall2 (fun part r => parse_port_part part = Ok r) (split_on "," spec) ranges)
  | Err e => spec <> "*"%string /\ exists pre part post, split_on "," spec = pre ++ part :: post /\
      Forall (fun p => is_ok (parse_port_part p) = true) pre /\ parse_port_part part = Err e
  end.
Proof.
  destruct (parse_go_port_ranges spec) as [ranges|e] eqn:E.
  - pose proof (parse_go_port_ranges_ok _ _ E) as Hok. split; [done|].
    unfold parse_go_port_ranges in E. case_bool_decide as Hs; [by simplify_eq|].
    apply parse_parts_Forall2 in E. split; [|done]. intros ->. inversion E as [H|]. symmetry in H.
    destruct spec as [|c spec]; [done|]. unfold split_on in H. fold split_on in H.
    destruct (Ascii.eqb "," c); [done|]. by destruct (split_on "," spec).
  - unfold parse_go_port_ranges in E. case_bool_decide as Hs; [done|]. split; [done|].
    apply parse_parts_Err in E as (pre & part & post & -> & Hpre & Hp). exists pre, part, post. split_and!; [done| |done].
    destruct (parse_parts pre) as [rs|] eqn:Er; [|done]. apply parse_parts_Forall2 in Er.
    clear -Er. induction Er as [|p r ps rs Hp _ IH]; constructor; [by rewrite Hp|done].
Qed.

Module PortExamples.

Lemma grant_ports_exact_witness :
  grant_specs_match ["udp:53"%string; "tcp:22,80-443"%string] (PortRef_new "6" 100) = true /\
  exists spec, spec ∈ ["udp:53"%string; "tcp:22,80-443"%string] /\ spec_allows spec (PortRef_new "6" 100).
Proof.
  assert (grant_specs_match ["udp:53"%string; "tcp:22,80-443"%string] (PortRef_new "6" 100) = true) as E
    by (vm_compute; reflexivity).
  split; [exact E|]. apply grant_ports_exact in E as [E|E]; [discriminate E|exact E|lia].
Defined.

Example port_list : parse_go_port_ranges "22,80-443" = Ok [(22, 22); (80, 443)].
Proof. vm_compute. reflexivity. Qed.

Example port_zero : parse_go_port_ranges "22,0,x" = Err ZeroPort.
Proof. vm_compute. reflexivity. Qed.

End PortExamples.
