(* ===== verification/Reach.v ===== *)
(** * Reach: references followed with an active path

    Groups may name groups and tag owners may name tags.  The policy code follows
    such references depth first and keeps the references of the active path in a
    [visiting] set, so that a cycle is cut instead of followed.  This file gives
    the walk once, for any reference graph: it needs no more fuel than there are
    defined references, and what it collects is exactly what the references lead
    to, cycles notwithstanding. *)

From stdpp Require Import base list gmap strings sets.
From Stdlib Require Import ZArith Lia.
From S2P Require Import Prelude.

Section reach.
(** [is_ref x]: the entry names another list of entries, [succ x] if defined. *)
Context (is_ref : string -> bool) (succ : string -> option (list string)).

(** What an entry leads to: itself, or what the entries it names lead to. *)
Inductive leads : string -> string -> Prop :=
| leads_leaf x : is_ref x = false -> leads x x
| leads_ref x entries y leaf : is_ref x = true -> succ x = Some entries -> y ∈ entries -> leads y leaf -> leads x leaf.

(** [None] is the end of the fuel. *)
Fixpoint walk (fuel : nat) (visiting : gset string) (x : string) : option (list string) :=
  if is_ref x then
    match fuel with
    | O => None
    | S f =>
        if bool_decide (x ∈ visiting) then Some []
        else match succ x with
             | None => Some []
             | Some entries => (@List.concat string) <$> mapM (walk f ({[x]} ∪ visiting)) entries
             end
    end
  else Some [x].

(** The walk that stops at the first entry that passes a test. *)
Fixpoint any_opt {A} (f : A -> option bool) (l : list A) : option bool :=
  match l with
  | [] => Some false
  | x :: t => match f x with
              | None => None
              | Some true => Some true
              | Some false => any_opt f t
              end
  end.

Fixpoint walk_any (p : string -> bool) (fuel : nat) (visiting : gset string) (x : string) : option bool :=
  if is_ref x then
    match fuel with
    | O => None
    | S f =>
        if bool_decide (x ∈ visiting) then Some false
        else match succ x with
             | None => Some false
             | Some entries => any_opt (walk_any p f ({[x]} ∪ visiting)) entries
             end
    end
  else Some (p x).

(** ** Fuel *)

Lemma walk_enough (defined : gset string) fuel visiting x :
  (forall y entries, is_ref y = true -> succ y = Some entries -> y ∈ defined) ->
  (size (defined ∖ visiting) < fuel)%nat -> is_Some (walk fuel visiting x).
Proof.
  intros Hd. revert visiting x. induction fuel as [|f IH]; intros visiting x Hf; [lia|].
  cbn [walk]. destruct (is_ref x) eqn:Er; [|by eexists].
  case_bool_decide as Hv; [by eexists|]. destruct (succ x) as [entries|] eqn:Es; [|by eexists].
  apply fmap_is_Some, mapM_is_Some_2, Forall_forall. intros y _. apply IH.
  assert (size (defined ∖ ({[x]} ∪ visiting)) < size (defined ∖ visiting))%nat; [|lia].
  apply subset_size. pose proof (Hd x entries Er Es). set_solver.
Qed.

Lemma any_opt_walk {B} (f : string -> option bool) (w : string -> option (list B)) (p : B -> bool) l out :
  (forall x o, w x = Some o -> f x = Some (existsb p o)) -> mapM w l = Some out ->
  any_opt f l = Some (existsb p (List.concat out)).
Proof.
  intros Hf. revert out. induction l as [|x l IH]; intros out; cbn [mapM any_opt].
  - by intros [= <-].
  - intros (o & Ho & Hr)%bind_Some. apply bind_Some in Hr as (os & Hos & [= <-]).
    rewrite (Hf _ _ Ho). cbn [List.concat]. rewrite existsb_app. destruct (existsb p o); [done|]. by apply IH.
Qed.

(** The stopping walk agrees with a test of what the full walk collects. *)
Lemma walk_any_spec p fuel visiting x out :
  walk fuel visiting x = Some out -> walk_any p fuel visiting x = Some (existsb p out).
Proof.
  revert visiting x out. induction fuel as [|f IH]; intros visiting x out; cbn [walk walk_any];
    (destruct (is_ref x); [|intros [= <-]; cbn; by rewrite orb_false_r]); [done|].
  case_bool_decide; [by intros [= <-]|]. destruct (succ x) as [entries|]; [|by intros [= <-]].
  intros (os & Hos & ->)%fmap_Some. by eapply any_opt_walk; [|exact Hos]; eauto.
Qed.

(** ** Exactness *)

Lemma mapM_concat_elem {A B} (w : A -> option (list B)) l out m :
  mapM w l = Some out -> m ∈ List.concat out <-> exists x o, x ∈ l /\ w x = Some o /\ m ∈ o.
Proof.
  intros H%mapM_Some_1. rewrite list_elem_of_In, in_concat. setoid_rewrite <-list_elem_of_In. split.
  - intros (o & Ho & Hm). apply list_elem_of_lookup in Ho as [i Hi].
    apply (Forall2_lookup_r _ _ _ _ _ H) in Hi as (x & Hx & Hw). exists x, o. split_and!; [|done..].
    by eapply list_elem_of_lookup_2.
  - intros (x & o & Hx & Hw & Hm). apply list_elem_of_lookup in Hx as [i Hi].
    apply (Forall2_lookup_l _ _ _ _ _ H) in Hi as (o' & Ho' & Hw'). rewrite Hw in Hw'. simplify_eq.
    exists o'. split; [|done]. by eapply list_elem_of_lookup_2.
Qed.

Lemma walk_sound fuel visiting x out m : walk fuel visiting x = Some out -> m ∈ out -> leads x m.
Proof.
  revert visiting x out. induction fuel as [|f IH]; intros visiting x out; cbn [walk]; destruct (is_ref x) eqn:Er; [done| | |].
  1,3: intros [= <-] ->%list_elem_of_singleton; by constructor.
  case_bool_decide; [intros [= <-] H'; by apply not_elem_of_nil in H'|].
  destruct (succ x) as [entries|] eqn:Es; [|intros [= <-] H'; by apply not_elem_of_nil in H'].
  intros (os & Hos & ->)%fmap_Some Hm. apply (mapM_concat_elem _ _ _ _ Hos) in Hm as (y & o & Hy & Hw & Hm).
  eapply leads_ref; eauto.
Qed.

(** The references on the way from an entry to a leaf. *)
Inductive path : string -> list string -> string -> Prop :=
| path_leaf x : is_ref x = false -> path x [] x
| path_ref x entries y refs leaf :
    is_ref x = true -> succ x = Some entries -> y ∈ entries -> path y refs leaf -> path x (x :: refs) leaf.

Lemma leads_path x m : leads x m -> exists refs, path x refs m.
Proof. induction 1 as [x Hx|x es y m Hx Hs Hy _ [refs IH]]; eexists; econstructor; eauto. Qed.

(** A way that returns to a reference can start there. *)
Lemma path_suffix x refs m y : path x refs m -> y ∈ refs -> NoDup refs -> exists refs', path y refs' m /\ NoDup refs'.
Proof.
  induction 1 as [x Hx|x es z refs m Hx Hs Hz Hp IH]; intros Hy Hnd; [by apply not_elem_of_nil in Hy|].
  apply NoDup_cons in Hnd as Hnd'. destruct Hnd' as [_ Hnd'].
  apply elem_of_cons in Hy as [->|Hy]; [|by apply IH]. exists (x :: refs). split; [|done]. by econstructor.
Qed.

Lemma path_simple x refs m : path x refs m -> exists refs', path x refs' m /\ NoDup refs'.
Proof.
  induction 1 as [x Hx|x es y refs m Hx Hs Hy Hp (refs' & IH & Hnd)]; [exists []; split; [by constructor|constructor]|].
  destruct (decide (x ∈ refs')) as [Hin|Hin]; [by eapply path_suffix|].
  exists (x :: refs'). split; [by econstructor|by constructor].
Qed.

Lemma walk_path fuel visiting x refs m out :
  path x refs m -> NoDup refs -> Forall (fun r => r ∉ visiting) refs -> walk fuel visiting x = Some out -> m ∈ out.
Proof.
  intros Hp. revert fuel visiting out. induction Hp as [x Hx|x es y refs m Hx Hs Hy Hp IH]; intros fuel visiting out Hnd Hv.
  - destruct fuel; cbn [walk]; rewrite Hx; intros [= <-]; by apply list_elem_of_singleton.
  - destruct fuel as [|f]; cbn [walk]; rewrite Hx; [done|]. apply NoDup_cons in Hnd as [Hni Hnd]. apply Forall_cons in Hv as [Hxv Hv].
    rewrite bool_decide_false by done. rewrite Hs. intros (os & Hos & ->)%fmap_Some.
    apply (mapM_concat_elem _ _ _ _ Hos).
    assert (exists o, walk f ({[x]} ∪ visiting) y = Some o) as [o Ho].
    { apply mapM_Some_1 in Hos. apply list_elem_of_lookup in Hy as [i Hi].
      apply (Forall2_lookup_l _ _ _ _ _ Hos) in Hi as (o & _ & Ho). eauto. }
    exists y, o. split_and!; [done..|]. eapply IH; [done| |exact Ho].
    apply Forall_forall. rewrite Forall_forall in Hv. intros r Hr. specialize (Hv r Hr). set_solver.
Qed.

(** What the walk collects from the empty path is what the entry leads to. *)
Lemma walk_exact fuel x out m : walk fuel ∅ x = Some out -> m ∈ out <-> leads x m.
Proof.
  intros Hw. split; [by eapply walk_sound|]. intros (refs & Hp)%leads_path.
  destruct (path_simple _ _ _ Hp) as (refs' & Hp' & Hnd). eapply walk_path; [exact Hp'|done| |exact Hw].
  apply Forall_forall. set_solver.
Qed.
End reach.
