(* ===== verification/Policy.v ===== *)
(** * Policy: documents, identities, groups and tag owners
    (headscale-api-acl/src/lib.rs and go_policy_shape.rs)

    The document of the control server's policy and what an entry of it means for
    a node: user aliases, groups of groups, tags, automatic groups, host names
    and prefixes.  A [BTreeMap] is a [gmap]; the fields that only the SSH compiler
    and the policy tests read are left out of [AclDoc].  The functions that follow
    group and tag references take fuel, [None] being its end; the total
    functions above them start with as much as the document needs.  The theorems
    show that this is enough for every document, cyclic ones included, that a
    group matches exactly the members its references lead to, that the two ways
    of reading a group agree, and that a tagged node has no user. *)

From stdpp Require Import base list gmap strings sets.
From Stdlib Require Import ZArith Lia Ascii.
From S2P Require Import Prelude Text Bytes Net GoNetip PolicyPorts Reach.

Open Scope Z_scope.
Open Scope rust_scope.

(** ** Documents *)

Inductive AclAction := Accept | Deny.

#[export] Instance AclAction_eq_dec : EqDecision AclAction.
Proof. solve_decision. Defined.

Record AclRule := mkRule { rule_action : AclAction; rule_src : list string; rule_dst : list string; rule_ports : list string }.

Record NodeAttrGrant := mkNodeAttr { na_target : list string; na_attr : list string }.

(** [serde_json::Value]; capability payloads are carried along, never read. *)
Inductive Json :=
| JNull | JBool (b : bool) | JNumber (text : string) | JString (s : string)
| JArray (l : list Json) | JObject (members : list (string * Json)).

Record GrantRule := mkGrant {
  grant_src : list string;
  grant_dst : list string;
  grant_ip : list string;
  grant_app : gmap string (list Json);
  grant_via : list string;
}.

Record AutoApprovers := mkApprovers { aa_routes : gmap string (list string); aa_exit_node : list string }.

Record PolicyUser := mkUser { user_id : Z; user_name : string; user_email : string; user_provider : option string }.

Record SshRule := mkSshRule {
  ssh_action_text : string;
  ssh_src : list string;
  ssh_dst : list string;
  ssh_rule_users : list string;
  ssh_check_period : option string;
  ssh_accept_env : list string;
}.

Record PolicyTest := mkPolicyTest { pt_src : string; pt_proto : string; pt_accept : list string; pt_deny : list string }.

Record SshPolicyTest := mkSshTest {
  st_src : string;
  st_dst : list string;
  st_accept : list string;
  st_deny : list string;
  st_check : list string;
}.

Record AclDoc := mkDoc {
  doc_users : option (list PolicyUser);
  doc_version : Z;
  doc_groups : gmap string (list string);
  doc_tags : gmap string string;
  doc_tag_owners : gmap string (list string);
  doc_hosts : gmap string string;
  doc_auto_approvers : AutoApprovers;
  doc_node_attrs : list NodeAttrGrant;
  doc_grants : list GrantRule;
  doc_randomize_client_port : bool;
  doc_ssh : list SshRule;
  doc_tests : list PolicyTest;
  doc_ssh_tests : list SshPolicyTest;
  doc_rules : list AclRule;
}.

Definition AclDoc_empty : AclDoc := mkDoc None 1 ∅ ∅ ∅ ∅ (mkApprovers ∅ []) [] [] false [] [] [] [].

Record NodeView := mkView {
  view_addr : option string;
  view_addrs : list string;
  view_user : option string;
  view_user_id : option Z;
  view_tags : list string;
}.

Definition NodeView_new (addr : string) : NodeView := mkView (Some addr) [] None None [].
Definition with_addrs (n : NodeView) (addrs : list string) : NodeView :=
  mkView (view_addr n) addrs (view_user n) (view_user_id n) (view_tags n).
Definition with_user (n : NodeView) (user : string) : NodeView :=
  mkView (view_addr n) (view_addrs n) (Some user) (view_user_id n) (view_tags n).
Definition with_user_id (n : NodeView) (id : option Z) : NodeView :=
  mkView (view_addr n) (view_addrs n) (view_user n) id (view_tags n).
Definition with_tags (n : NodeView) (tags : list string) : NodeView :=
  mkView (view_addr n) (view_addrs n) (view_user n) (view_user_id n) tags.

Definition any_addr_matches (n : NodeView) (matches : string -> bool) : bool :=
  match view_addr n with Some a => matches a | None => false end
  || existsb (fun a => if bool_decide (Some a = view_addr n) then false else matches a) (view_addrs n).

(** ** Aliases *)

Inductive AliasKind := Prefix | Wildcard | Username | Group | Tag | AutoGroup | Host.

#[export] Instance AliasKind_eq_dec : EqDecision AliasKind.
Proof. solve_decision. Defined.

Definition alias_prefix (value : string) : option string :=
  if has_char "/" value then result_ok (parse_prefix_text value)
  else p ← addr_host_prefix_text value; if bool_decide (p = ""%string) then None else Some p.

Definition alias_kind (value : string) : option AliasKind :=
  if bool_decide (is_Some (alias_prefix value)) then Some Prefix
  else if bool_decide (value = "*"%string) then Some Wildcard
  else if has_char "@" value then Some Username
  else if starts_with "group:" value then Some Group
  else if starts_with "tag:" value then Some Tag
  else if starts_with "autogroup:" value then Some AutoGroup
  else if negb (has_char ":" value) then Some Host
  else None.

(** ** Users *)

(** The free function [user_matches]: names compared up to one trailing [@]. *)
Definition user_matches_text (entry user : string) : bool :=
  bool_decide (entry = user) || bool_decide (strip_suffix "@" entry = Some user)
  || bool_decide (strip_suffix "@" user = Some entry).

Definition resolve_user_value (d : AclDoc) (token : string) : option Z :=
  users ← doc_users d;
  match find (fun u => bool_decide (user_provider u = Some token)) users with
  | Some u => Some (user_id u)
  | None =>
      match List.filter (fun u => bool_decide (user_email u = token) || bool_decide (user_name u = token)) users with
      | [u] => Some (user_id u)
      | _ => None
      end
  end.

Definition resolve_user (d : AclDoc) (alias : string) : option Z :=
  resolve_user_value d (default alias (strip_suffix "@" alias)).

(** [user_id.or_else(|| login.and_then(...))] *)
Definition owner_of (d : AclDoc) (id : option Z) (login : option string) : option Z :=
  match id with Some i => Some i | None => login ≫= resolve_user_value d end.

Definition user_matches (d : AclDoc) (alias : string) (id : option Z) (login : option string) : bool :=
  match doc_users d with
  | None => match login with Some l => user_matches_text alias l | None => false end
  | Some _ => match owner_of d id login with
              | None => false
              | Some owner => bool_decide (resolve_user d alias = Some owner)
              end
  end.

Definition identity_matches (d : AclDoc) (entry : string) (n : NodeView) : bool :=
  any_addr_matches n (fun a => bool_decide (entry = a))
  || (bool_decide (view_tags n = []) && user_matches d entry (view_user_id n) (view_user n)).

(** ** Groups *)

Definition canonical_group_ref (group : string) : string :=
  if starts_with "group:" group then group else ("group:" ++ group)%string.

Definition group_members (d : AclDoc) (group : string) : option (list string) :=
  match strip_prefix "group:" group with
  | Some short => match doc_groups d !! short with Some m => Some m | None => doc_groups d !! group end
  | None => doc_groups d !! group
  end.

Definition group_defined (d : AclDoc) (group : string) : bool :=
  bool_decide (is_Some (doc_groups d !! group))
  || match strip_prefix "group:" group with Some short => bool_decide (is_Some (doc_groups d !! short)) | None => false end.

(** [visiting] is as it was when the call returns, so it is only passed down. *)
Fixpoint expand_group_members (fuel : nat) (d : AclDoc) (visiting : gset string) (group : string) : option (list string) :=
  match fuel with
  | O => None
  | S f =>
      let group_ref := canonical_group_ref group in
      if bool_decide (group_ref ∈ visiting) then Some []
      else match group_members d group with
           | None => Some []
           | Some members =>
               (@List.concat string) <$> mapM (fun member =>
                 if starts_with "group:" member then expand_group_members f d ({[group_ref]} ∪ visiting) member
                 else Some [member]) members
           end
  end.

Fixpoint group_principal_matches (fuel : nat) (d : AclDoc) (n : NodeView) (visiting : gset string) (group : string)
  : option bool :=
  match fuel with
  | O => None
  | S f =>
      let group_ref := canonical_group_ref group in
      if bool_decide (group_ref ∈ visiting) then Some false
      else match group_members d group with
           | None => Some false
           | Some members =>
               any_opt (fun member =>
                 if starts_with "group:" member then group_principal_matches f d n ({[group_ref]} ∪ visiting) member
                 else Some (identity_matches d member n)) members
           end
  end.

(** Every defined reference is a key of [groups], or [group:] before a key. *)
Definition group_fuel (d : AclDoc) : nat := S (2 * size (doc_groups d)).

Definition expand_group (d : AclDoc) (group : string) : list string :=
  default [] (expand_group_members (group_fuel d) d ∅ group).

Definition group_matches (d : AclDoc) (group : string) (n : NodeView) : bool :=
  default false (group_principal_matches (group_fuel d) d n ∅ group).

(** ** Tag owners *)

Definition user_matches_tag_owner (d : AclDoc) (id : option Z) (user : option string) (owner : string) : bool :=
  if has_char "@" owner then user_matches d owner id user
  else if starts_with "tag:" owner then false
  else match strip_prefix "group:" owner with
       | Some group =>
           match (match doc_groups d !! owner with Some m => Some m | None => doc_groups d !! group end) with
           | Some members => existsb (fun m => has_char "@" m && user_matches d m id user) members
           | None => false
           end
       | None => false
       end.

Definition user_can_have_tag (d : AclDoc) (id : option Z) (user : option string) (tag : string) : bool :=
  match doc_tag_owners d !! tag with
  | None => false
  | Some owners => existsb (user_matches_tag_owner d id user) owners
  end.

Fixpoint tag_owner_matches (fuel : nat) (d : AclDoc) (n : NodeView) (visiting : gset string) (owner : string) : option bool :=
  if has_char "@" owner then Some (user_matches_tag_owner d (view_user_id n) (view_user n) owner)
  else match strip_prefix "tag:" owner with
       | None => Some (user_matches_tag_owner d (view_user_id n) (view_user n) owner)
       | Some tag =>
           match fuel with
           | O => None
           | S f =>
               let owner_tag := ("tag:" ++ tag)%string in
               if bool_decide (owner_tag ∈ visiting) then Some false
               else match doc_tag_owners d !! owner_tag with
                    | None => Some false
                    | Some owners => any_opt (tag_owner_matches f d n ({[owner_tag]} ∪ visiting)) owners
                    end
           end
       end.

Definition tag_fuel (d : AclDoc) : nat := S (size (doc_tag_owners d)).

(** The addresses of one view that the other has too, as parsed addresses. *)
Definition shares_addr (candidate n : NodeView) : bool :=
  any_addr_matches candidate (fun address =>
    match parse_ip address with
    | None => false
    | Some ip => any_addr_matches n (fun value => bool_decide (parse_ip value = Some ip))
    end).

Definition node_can_have_tag_with_nodes (d : AclDoc) (n : NodeView) (tag : string) (nodes : list NodeView) : bool :=
  match doc_tag_owners d !! tag with
  | None => false
  | Some owners =>
      existsb (fun candidate =>
        bool_decide (view_tags candidate = [])
        && default false (any_opt (tag_owner_matches (tag_fuel d) d candidate ∅) owners)
        && shares_addr candidate n) nodes
      || user_can_have_tag d (view_user_id n) (view_user n) tag
  end.

Definition node_can_have_tag (d : AclDoc) (n : NodeView) (tag : string) : bool := node_can_have_tag_with_nodes d n tag [].

(** ** Prefixes *)

Definition wildcard_filter_cidrs : list string := ["0.0.0.0/0"; "::/0"]%string.

Definition internet_filter_cidrs : list string :=
  ["0.0.0.0/5"; "8.0.0.0/7"; "11.0.0.0/8"; "12.0.0.0/6"; "16.0.0.0/4"; "32.0.0.0/3"; "64.0.0.0/3"; "96.0.0.0/6";
   "100.0.0.0/10"; "100.128.0.0/9"; "101.0.0.0/8"; "102.0.0.0/7"; "104.0.0.0/5"; "112.0.0.0/4"; "128.0.0.0/3";
   "160.0.0.0/5"; "168.0.0.0/8"; "169.0.0.0/9"; "169.128.0.0/10"; "169.192.0.0/11"; "169.224.0.0/12"; "169.240.0.0/13";
   "169.248.0.0/14"; "169.252.0.0/15"; "169.255.0.0/16"; "170.0.0.0/7"; "172.0.0.0/12"; "172.32.0.0/11"; "172.64.0.0/10";
   "172.128.0.0/9"; "173.0.0.0/8"; "174.0.0.0/7"; "176.0.0.0/4"; "192.0.0.0/9"; "192.128.0.0/11"; "192.160.0.0/13";
   "192.169.0.0/16"; "192.170.0.0/15"; "192.172.0.0/14"; "192.176.0.0/12"; "192.192.0.0/10"; "193.0.0.0/8"; "194.0.0.0/7";
   "196.0.0.0/6"; "200.0.0.0/5"; "208.0.0.0/4"; "224.0.0.0/3"; "2000::/3"]%string.

Definition tag_matches (node_tag policy_tag : string) : bool :=
  bool_decide (node_tag = policy_tag) || bool_decide (strip_prefix "tag:" node_tag = Some policy_tag).

Section prefixes.
Context `{IpNetLib}.

Definition is_default_route (net : IpNet) : bool := net_prefix_len net =? 0.

Definition parse_cidr (s : string) : option IpNet :=
  match net_parse s with
  | Some n => Some n
  | None => match parse_ip s with
            | Some addr => net_new addr (if is_v4 addr then 32 else 128)
            | None => None
            end
  end.

Definition covers (outer inner : IpNet) : bool :=
  if Bool.eqb (net_is_v4 outer) (net_is_v4 inner) then
    if net_prefix_len inner <? net_prefix_len outer then false else net_contains outer (net_network inner)
  else false.

Definition nets_overlap (a b : IpNet) : bool := covers a b || covers b a.

Definition addr_in_cidr (addr : option string) (cidr : string) : bool :=
  match addr with
  | None => false
  | Some addr =>
      match parse_cidr cidr with
      | None => false
      | Some net => match parse_ip addr with None => false | Some ip => net_contains net ip end
      end
  end.

Definition node_addr_in_cidr (n : NodeView) (cidr : string) : bool :=
  any_addr_matches n (fun a => addr_in_cidr (Some a) cidr).

(** ** Principals *)

Definition autogroup_matches (kind : string) (n : NodeView) (peer : option NodeView) : bool :=
  if bool_decide (kind = "internet"%string) then existsb (node_addr_in_cidr n) internet_filter_cidrs
  else if bool_decide (kind = "danger-all"%string) then true
  else if bool_decide (kind = "member"%string) then bool_decide (view_tags n = [])
  else if bool_decide (kind = "nonroot"%string) then bool_decide (view_tags n = [])
  else if bool_decide (kind = "tagged"%string) then negb (bool_decide (view_tags n = []))
  else match strip_prefix "tag:" kind with
       | Some tag => existsb (fun t => tag_matches t tag) (view_tags n)
       | None =>
           if bool_decide (kind = "self"%string) then
             match peer with
             | None => false
             | Some p =>
                 if any_addr_matches n (fun a => any_addr_matches p (fun b => bool_decide (a = b))) then true
                 else if bool_decide (is_Some (view_user_id n)) || bool_decide (is_Some (view_user_id p)) then
                   bool_decide (view_tags n = []) && bool_decide (view_tags p = [])
                   && bool_decide (is_Some (view_user_id n)) && bool_decide (view_user_id n = view_user_id p)
                 else match view_user n, view_user p with
                      | Some a, Some b => bool_decide (view_tags n = []) && bool_decide (view_tags p = []) && bool_decide (a = b)
                      | _, _ => false
                      end
             end
           else false
       end.

Definition principal_matches_one (d : AclDoc) (entry : string) (n : NodeView) (peer : option NodeView) : bool :=
  match alias_prefix entry with
  | Some prefix => node_addr_in_cidr n prefix
  | None =>
      if bool_decide (alias_kind entry = Some Username) then identity_matches d entry n
      else if bool_decide (entry = "*"%string) then true
      else if starts_with "group:" entry then group_matches d entry n
      else match strip_prefix "tag:" entry with
      | Some tag => existsb (fun t => tag_matches t tag) (view_tags n)
      | None =>
      match strip_prefix "autogroup:" entry with
      | Some ag =>
          match doc_users d with
          | Some users =>
              if bool_decide (ag = "member"%string) || bool_decide (ag = "nonroot"%string) then
                bool_decide (view_tags n = [])
                && match owner_of d (view_user_id n) (view_user n) with
                   | Some owner => existsb (fun u => user_id u =? owner) users
                   | None => false
                   end
              else autogroup_matches ag n peer
          | None => autogroup_matches ag n peer
          end
      | None =>
      match strip_prefix "host:" entry with
      | Some host => match doc_hosts d !! host with Some cidr => node_addr_in_cidr n cidr | None => false end
      | None =>
      match doc_hosts d !! entry with
      | Some cidr => node_addr_in_cidr n cidr
      | None => if has_char "/" entry then node_addr_in_cidr n entry else identity_matches d entry n
      end end end end
  end.

Definition principal_matches (d : AclDoc) (set : list string) (n : NodeView) (peer : option NodeView) : bool :=
  existsb (fun entry => principal_matches_one d entry n peer) set.

Definition expand_principal (d : AclDoc) (token : string) : list string :=
  match alias_prefix token with
  | Some prefix => [prefix]
  | None =>
      if bool_decide (alias_kind token = Some Username) then [token]
      else if bool_decide (token = "*"%string) then wildcard_filter_cidrs
      else if starts_with "group:" token then expand_group d token
      else match strip_prefix "host:" token with
      | Some h => match doc_hosts d !! h with Some cidr => [cidr] | None => [] end
      | None =>
      match strip_prefix "autogroup:" token with
      | Some ag =>
          if bool_decide (ag = "internet"%string) then internet_filter_cidrs
          else if bool_decide (ag = "member"%string) || bool_decide (ag = "danger-all"%string) then wildcard_filter_cidrs
          else []
      | None => match doc_hosts d !! token with Some cidr => [cidr] | None => [token] end
      end end
  end.

Definition principals_overlap_routes (d : AclDoc) (principals routes : list string) : bool :=
  existsb (fun route =>
    match parse_cidr route with
    | None => false
    | Some route =>
        existsb (fun principal =>
          existsb (fun expanded => match parse_cidr expanded with Some allowed => nets_overlap allowed route | None => false end)
            (expand_principal d principal)) principals
    end) routes.
End prefixes.

(** ** Groups are what their references lead to *)

Definition is_group_ref (s : string) : bool := starts_with "group:" s.

(** [group_leads d g m]: the references of [g] lead to the member [m]. *)
Definition group_leads (d : AclDoc) : string -> string -> Prop := leads is_group_ref (group_members d).

Lemma canonical_group g : is_group_ref g = true -> canonical_group_ref g = g.
Proof. unfold canonical_group_ref, is_group_ref. by intros ->. Qed.

Lemma mapM_ext_strong {A B} (f g : A -> option B) l : (forall x, f x = g x) -> mapM f l = mapM g l.
Proof. intros E. induction l as [|x l IH]; [done|]. cbn [mapM]. by rewrite E, IH. Qed.

Lemma any_opt_ext {A} (f g : A -> option bool) l : (forall x, f x = g x) -> any_opt f l = any_opt g l.
Proof. intros E. induction l as [|x l IH]; [done|]. cbn [any_opt]. by rewrite E, IH. Qed.

Lemma expand_group_walk d f visiting g :
  is_group_ref g = true -> expand_group_members f d visiting g = walk is_group_ref (group_members d) f visiting g.
Proof.
  revert visiting g. induction f as [|f IH]; intros visiting g Hg; cbn [expand_group_members walk]; rewrite Hg; [done|].
  rewrite canonical_group by done. case_bool_decide; [done|]. destruct (group_members d g) as [ms|]; [|done].
  f_equal. apply mapM_ext_strong. intros m. fold (is_group_ref m). destruct (is_group_ref m) eqn:Hm; [by apply IH|].
  by destruct f; cbn [walk]; rewrite Hm.
Qed.

Lemma group_matches_walk d n f visiting g :
  is_group_ref g = true ->
  group_principal_matches f d n visiting g =
  walk_any is_group_ref (group_members d) (fun m => identity_matches d m n) f visiting g.
Proof.
  revert visiting g. induction f as [|f IH]; intros visiting g Hg; cbn [group_principal_matches walk_any]; rewrite Hg; [done|].
  rewrite canonical_group by done. case_bool_decide; [done|]. destruct (group_members d g) as [ms|]; [|done].
  apply any_opt_ext. intros m. fold (is_group_ref m). destruct (is_group_ref m) eqn:Hm; [by apply IH|].
  by destruct f; cbn [walk_any]; rewrite Hm.
Qed.

(** The references that are defined. *)
Definition group_keys (d : AclDoc) : gset string :=
  dom (doc_groups d) ∪ set_map (fun k => ("group:" ++ k)%string) (dom (doc_groups d)).

Lemma group_keys_size d : (size (group_keys d) <= 2 * size (doc_groups d))%nat.
Proof.
  unfold group_keys. rewrite <-(size_dom (doc_groups d)). set (D := dom (doc_groups d)).
  pose proof (size_union_alt D (set_map (D:=gset string) (fun k => ("group:" ++ k)%string) D)) as E.
  assert (size (set_map (D:=gset string) (fun k => ("group:" ++ k)%string) D) <= size D)%nat.
  { unfold set_map. rewrite size_list_to_set by (apply (NoDup_fmap_2 _), NoDup_elements). by rewrite length_fmap. }
  rewrite E. pose proof (subseteq_size (set_map (D:=gset string) (fun k => ("group:" ++ k)%string) D ∖ D)
    (set_map (D:=gset string) (fun k => ("group:" ++ k)%string) D) ltac:(set_solver)). lia.
Qed.

Lemma group_members_defined d g ms : group_members d g = Some ms -> g ∈ group_keys d.
Proof.
  unfold group_members, group_keys. rewrite elem_of_union, elem_of_map, elem_of_dom. destruct (strip_prefix "group:" g) as [s|] eqn:E.
  - apply strip_prefix_Some in E. destruct (doc_groups d !! s) as [m|] eqn:Es; [|eauto].
    intros _. right. exists s. split; [done|]. apply elem_of_dom. eauto.
  - eauto.
Qed.

Lemma group_walk_total d g : is_Some (walk is_group_ref (group_members d) (group_fuel d) ∅ g).
Proof.
  apply (walk_enough _ _ (group_keys d)); [eauto using group_members_defined|].
  unfold group_fuel. pose proof (group_keys_size d).
  pose proof (subseteq_size (group_keys d ∖ ∅) (group_keys d) ltac:(set_solver)). lia.
Qed.

Lemma expand_group_out d g :
  is_group_ref g = true ->
  exists out, expand_group_members (group_fuel d) d ∅ g = Some out /\ expand_group d g = out /\
              walk is_group_ref (group_members d) (group_fuel d) ∅ g = Some out.
Proof.
  intros Hg. destruct (group_walk_total d g) as [out Hout]. exists out. unfold expand_group.
  by rewrite expand_group_walk, Hout.
Qed.

(** C15. Group expansion ends on every document, groups that name each other in a
    cycle included, within the fuel it is given, and yields exactly the members
    that the references of the group lead to. *)
Theorem group_expansion_exact d g :
  starts_with "group:" g = true ->
  is_Some (expand_group_members (group_fuel d) d ∅ g) /\
  forall m, m ∈ expand_group d g <-> group_leads d g m.
Proof.
  intros Hg. destruct (expand_group_out d g Hg) as (out & E & -> & Hw). split; [by exists out|].
  intros m. by eapply walk_exact.
Qed.

Lemma group_matches_expand d g n :
  is_group_ref g = true -> group_matches d g n = existsb (fun m => identity_matches d m n) (expand_group d g).
Proof.
  intros Hg. destruct (expand_group_out d g Hg) as (out & _ & -> & Hw). unfold group_matches.
  by rewrite group_matches_walk, (walk_any_spec _ _ _ _ _ _ _ Hw).
Qed.

(** The matcher, which follows references and stops at the first member that
    fits, answers as a test of every member of the expanded group would. *)
Theorem group_match_is_expansion d g n :
  starts_with "group:" g = true ->
  is_Some (group_principal_matches (group_fuel d) d n ∅ g) /\
  group_matches d g n = existsb (fun m => identity_matches d m n) (expand_group d g).
Proof.
  intros Hg. split; [|by apply group_matches_expand].
  destruct (expand_group_out d g Hg) as (out & _ & _ & Hw).
  rewrite group_matches_walk, (walk_any_spec _ _ _ _ _ _ _ Hw) by done. by eexists.
Qed.

(** ** Tag owners *)

Definition is_tag_ref (s : string) : bool := negb (has_char "@" s) && starts_with "tag:" s.

(** [owner_leads d o l]: the tag references of the owner [o] lead to the owner [l]. *)
Definition owner_leads (d : AclDoc) : string -> string -> Prop := leads is_tag_ref (fun t => doc_tag_owners d !! t).

Lemma tag_owner_walk d n f visiting owner :
  tag_owner_matches f d n visiting owner =
  walk_any is_tag_ref (fun t => doc_tag_owners d !! t) (user_matches_tag_owner d (view_user_id n) (view_user n)) f visiting owner.
Proof.
  revert visiting owner. induction f as [|f IH]; intros visiting owner; cbn [tag_owner_matches walk_any];
    unfold is_tag_ref, starts_with; destruct (has_char "@" owner); cbn [negb andb]; try done;
    destruct (strip_prefix "tag:" owner) as [t|] eqn:E; try done.
  apply strip_prefix_Some in E as ->. case_bool_decide; [done|].
  destruct (doc_tag_owners d !! _) as [owners|]; [|done]. apply any_opt_ext. intros o. apply IH.
Qed.

Lemma any_opt_Some {A} (f : A -> option bool) (g : A -> bool) l :
  (forall x, f x = Some (g x)) -> any_opt f l = Some (existsb g l).
Proof. intros E. induction l as [|x l IH]; [done|]. cbn [any_opt existsb]. rewrite E, IH. by destruct (g x). Qed.

Lemma tag_owner_total d n owner :
  exists b, tag_owner_matches (tag_fuel d) d n ∅ owner = Some b /\
  (b = true <-> exists leaf, owner_leads d owner leaf /\ user_matches_tag_owner d (view_user_id n) (view_user n) leaf = true).
Proof.
  destruct (walk_enough is_tag_ref (fun t => doc_tag_owners d !! t) (dom (doc_tag_owners d)) (tag_fuel d) ∅ owner) as [out Hw].
  - intros y es _ Hy. apply elem_of_dom. eauto.
  - unfold tag_fuel. rewrite <-(size_dom (doc_tag_owners d)).
    pose proof (subseteq_size (dom (doc_tag_owners d) ∖ ∅) (dom (doc_tag_owners d)) ltac:(set_solver)). lia.
  - rewrite tag_owner_walk, (walk_any_spec _ _ _ _ _ _ _ Hw). eexists. split; [done|].
    rewrite existsb_elem. split; intros (leaf & Hl & Hm); exists leaf; (split; [|done]); by eapply walk_exact.
Qed.

(** A node may claim a tag exactly when the tag has owners and either some
    untagged registered node that shares an address with it belongs to a user whom
    the owners lead to, through any chain of tags owning tags, or the node's own
    user is among the direct owners; the search ends on every document. *)
Theorem tag_claim_spec d n tag nodes :
  (forall candidate owner, is_Some (tag_owner_matches (tag_fuel d) d candidate ∅ owner)) /\
  (node_can_have_tag_with_nodes d n tag nodes = true <->
   exists owners, doc_tag_owners d !! tag = Some owners /\
     ((exists candidate owner leaf, candidate ∈ nodes /\ view_tags candidate = [] /\ shares_addr candidate n = true /\
         owner ∈ owners /\ owner_leads d owner leaf /\
         user_matches_tag_owner d (view_user_id candidate) (view_user candidate) leaf = true) \/
      (exists owner, owner ∈ owners /\ user_matches_tag_owner d (view_user_id n) (view_user n) owner = true))).
Proof.
  split; [intros c o; destruct (tag_owner_total d c o) as (b & -> & _); by eexists|].
  unfold node_can_have_tag_with_nodes, user_can_have_tag.
  destruct (doc_tag_owners d !! tag) as [owners|]; [|split; [done|by intros (? & [=] & _)]].
  assert (forall c, default false (any_opt (tag_owner_matches (tag_fuel d) d c ∅) owners) = true <->
    exists owner leaf, owner ∈ owners /\ owner_leads d owner leaf /\
      user_matches_tag_owner d (view_user_id c) (view_user c) leaf = true) as Hc.
  { intros c. rewrite (any_opt_Some _ (fun o => default false (tag_owner_matches (tag_fuel d) d c ∅ o))).
    - cbn [from_option id]. rewrite existsb_elem. split.
      + intros (o & Ho & Hm). destruct (tag_owner_total d c o) as (b & E & Hb). rewrite E in Hm. cbn in Hm.
        destruct (proj1 Hb Hm) as (leaf & ? & ?). eauto 6.
      + intros (o & leaf & Ho & Hl & Hm). exists o. split; [done|]. destruct (tag_owner_total d c o) as (b & -> & Hb).
        apply Hb. eauto.
    - intros o. by destruct (tag_owner_total d c o) as (b & -> & _). }
  rewrite orb_true_iff, !existsb_elem. setoid_rewrite andb_true_iff. setoid_rewrite andb_true_iff.
  setoid_rewrite bool_decide_eq_true. setoid_rewrite Hc. split.
  - intros [(c & Hin & (Ht & o & leaf & Ho) & Hs)|Ho]; exists owners; (split; [done|]); [left|by right].
    exists c, o, leaf. naive_solver.
  - intros (? & [= <-] & [(c & o & leaf & Hin & Ht & Hs & Ho)|Ho]); [left|by right].
    exists c. split_and!; [done|done|by exists o, leaf|done].
Qed.

(** ** A tagged node has no user *)

(** The same node logged in by somebody else. *)
Definition as_user (n : NodeView) (user : option string) (id : option Z) : NodeView :=
  mkView (view_addr n) (view_addrs n) user id (view_tags n).

Section tagged.
Context `{IpNetLib}.
Variable n : NodeView.
Hypothesis Htag : view_tags n <> [].

Lemma tagged_identity d e user id : identity_matches d e (as_user n user id) = identity_matches d e n.
Proof. unfold identity_matches. cbn [view_tags as_user]. by rewrite bool_decide_false. Qed.

Lemma tagged_group d g user id :
  is_group_ref g = true -> group_matches d g (as_user n user id) = group_matches d g n.
Proof.
  intros Hg. rewrite !group_matches_expand by done. apply existsb_ext. intros m. apply tagged_identity.
Qed.

Lemma tagged_autogroup kind user id peer : autogroup_matches kind (as_user n user id) peer = autogroup_matches kind n peer.
Proof.
  unfold autogroup_matches. cbn [view_tags view_user view_user_id as_user]. rewrite !(bool_decide_false (view_tags n = [])) by done.
  change (node_addr_in_cidr (as_user n user id)) with (node_addr_in_cidr n). cbn [andb].
  do 5 (case_bool_decide; [done|]). destruct (strip_prefix "tag:" kind); [done|]. case_bool_decide; [|done].
  destruct peer as [p|]; [|done]. change (any_addr_matches (as_user n user id)) with (any_addr_matches n).
  destruct (any_addr_matches n _); [done|].
  assert (forall (b : bool) (o : option string), (if b then false else match o with Some _ => match view_user p with Some _ => false | None => false end | None => false end) = false) as E.
  { intros [] [?|]; [done..| |done]. by destruct (view_user p). }
  by rewrite !E.
Qed.

Lemma tagged_principal d e user id peer :
  principal_matches_one d e (as_user n user id) peer = principal_matches_one d e n peer.
Proof.
  unfold principal_matches_one. rewrite !tagged_identity. destruct (alias_prefix e); [done|].
  do 2 (case_bool_decide; [done|]). destruct (starts_with "group:" e) eqn:Hg; [by apply tagged_group|].
  destruct (strip_prefix "tag:" e); [done|]. destruct (strip_prefix "autogroup:" e); [|done].
  rewrite tagged_autogroup. cbn [view_tags as_user]. by rewrite (bool_decide_false (view_tags n = [])).
Qed.
End tagged.

(** Who logged a tagged node in never matters: every entry of a policy, user
    aliases, groups, automatic groups and [autogroup:self] included, matches it as
    it would match the same node under any other user or none. *)
Theorem tagged_node_has_no_user `{IpNetLib} d set n user id peer :
  view_tags n <> [] ->
  principal_matches d set (as_user n user id) peer = principal_matches d set n peer.
Proof. intros Ht. unfold principal_matches. apply existsb_ext. intros e. by apply tagged_principal. Qed.

(** ** Prefixes as sets of addresses *)

Section prefix_sets.
Context `{IpNetLaws}.

(** The least and the greatest address of a network. *)
Lemma net_range_same_family n ip : is_v4 ip = net_is_v4 n ->
  net_contains n ip = true <-> ip_value (net_network n) <= ip_value ip <= ip_value (net_broadcast n).
Proof. intros Hf. rewrite net_contains_spec. naive_solver. Qed.

Lemma net_network_family n : is_v4 (net_network n) = net_is_v4 n.
Proof. rewrite net_network_eq. unfold net_is_v4. by destruct (net_addr n). Qed.

Lemma covers_spec outer inner :
  covers outer inner = true <-> forall ip, net_contains inner ip = true -> net_contains outer ip = true.
Proof.
  unfold covers. pose proof (net_block_pos outer) as Hbo. pose proof (net_block_pos inner) as Hbi.
  assert (forall n, ip_value (net_network n) + net_block (net_addr n) (net_prefix_len n) - 1 = ip_value (net_broadcast n)) as Hbc.
  { intros n. rewrite net_network_eq, net_broadcast_eq, !ip_with_value_value. done. }
  assert (net_contains inner (net_network inner) = true) as Hself.
  { apply net_range_same_family; [apply net_network_family|]. pose proof (Hbc inner). lia. }
  destruct (Bool.eqb_spec (net_is_v4 outer) (net_is_v4 inner)) as [Hf|Hf].
  - assert (ip_width (net_addr outer) = ip_width (net_addr inner)) as Hw by (by apply family_width).
    destruct (Z.ltb_spec (net_prefix_len inner) (net_prefix_len outer)) as [Hl|Hl].
    + split; [done|]. intros Hall. exfalso.
      assert (net_contains outer (net_broadcast inner) = true) as Hb.
      { apply Hall, net_range_same_family; [rewrite net_broadcast_eq; unfold net_is_v4; by destruct (net_addr inner)|].
        pose proof (Hbc inner). lia. }
      specialize (Hall _ Hself). rewrite net_contains_spec in Hall, Hb. destruct Hall as [_ Ha], Hb as [_ Hb].
      pose proof (Hbc outer). pose proof (Hbc inner). pose proof (net_prefix_len_range outer). pose proof (net_prefix_len_range inner).
      assert (net_block (net_addr outer) (net_prefix_len outer) < net_block (net_addr inner) (net_prefix_len inner)); [|lia].
      unfold net_block. rewrite Hw. apply Z.pow_lt_mono_r; lia.
    + split; [|intros Hall; by apply Hall].
      rewrite !net_contains_div. cbv zeta. intros [_ Ho] ip [Hip Hin]%net_contains_div. cbv zeta in Hin.
      apply net_contains_div. split; [congruence|]. cbv zeta.
      set (bo := net_block (net_addr outer) (net_prefix_len outer)) in *. set (bi := net_block (net_addr inner) (net_prefix_len inner)) in *.
      pose proof (net_prefix_len_range outer). pose proof (net_prefix_len_range inner).
      assert (bo = bi * 2 ^ (net_prefix_len inner - net_prefix_len outer)) as Hm.
      { subst bo bi. unfold net_block. rewrite Hw, <-Z.pow_add_r by lia. f_equal. lia. }
      assert (0 < 2 ^ (net_prefix_len inner - net_prefix_len outer)) by (apply Z.pow_pos_nonneg; lia).
      rewrite <-Ho, net_network_eq, ip_with_value_value. fold bi.
      rewrite Hm, <-!Z.div_div, Z.div_mul by lia. by rewrite Hin.
  - split; [done|]. intros Hall. exfalso. specialize (Hall _ Hself). apply net_contains_family in Hall.
    rewrite net_network_family in Hall. congruence.
Qed.

(** Two networks of one family are nested or disjoint. *)
Lemma nets_overlap_spec a b :
  nets_overlap a b = true <-> exists ip, net_contains a ip = true /\ net_contains b ip = true.
Proof.
  unfold nets_overlap. rewrite orb_true_iff. split.
  - assert (forall n, net_contains n (net_network n) = true) as Hself.
    { intros n. apply net_range_same_family; [apply net_network_family|].
      rewrite net_network_eq, net_broadcast_eq, !ip_with_value_value. pose proof (net_block_pos n). cbv zeta. lia. }
    intros [Hc|Hc]; rewrite covers_spec in Hc; eauto.
  - assert (forall m n ip, net_prefix_len m <= net_prefix_len n -> net_contains m ip = true -> net_contains n ip = true ->
      covers m n = true) as Hnest.
    { intros m n ip Hl Hm Hn. unfold covers. rewrite net_contains_div in Hm, Hn. destruct Hm as [Fm Dm], Hn as [Fn Dn].
      rewrite <-Fm, <-Fn, Bool.eqb_reflx, (proj2 (Z.ltb_ge _ _)) by lia.
      apply net_contains_div. split; [rewrite net_network_family; congruence|].
      assert (ip_width (net_addr m) = ip_width (net_addr n)) as Hw by (apply family_width; unfold net_is_v4 in *; congruence).
      cbv zeta in *. rewrite <-Dm, net_network_eq, ip_with_value_value. cbv zeta. rewrite <-Dn.
      set (bn := net_block (net_addr n) (net_prefix_len n)) in *.
      pose proof (net_prefix_len_range m). pose proof (net_prefix_len_range n).
      assert (net_block (net_addr m) (net_prefix_len m) = bn * 2 ^ (net_prefix_len n - net_prefix_len m)) as ->.
      { subst bn. unfold net_block. rewrite Hw, <-Z.pow_add_r by lia. f_equal. lia. }
      assert (0 < bn) by apply net_block_pos. assert (0 < 2 ^ (net_prefix_len n - net_prefix_len m)) by (apply Z.pow_pos_nonneg; lia).
      by rewrite <-!Z.div_div, Z.div_mul by lia. }
    intros (ip & Ha & Hb). destruct (Z.le_ge_cases (net_prefix_len a) (net_prefix_len b)); [left|right]; eauto.
Qed.
End prefix_sets.
