(* ===== verification/PolicyEval.v ===== *)
(** * PolicyEval: access, routes, approvals and attributes
    (headscale-api-acl/src/lib.rs, the evaluator of [AclDoc])

    Whether one node reaches another, a route served by it, which routes a [via]
    grant steers through a peer, which routes and exit nodes are approved without
    an operator, and which attributes a node gets.  The theorems show that rules
    are tried in order and refuse by default, that peers, grants and routes are
    visible exactly through a rule or grant that covers them, that an approved
    route lies inside a prefix some approver of the node covers and is never a
    default route, and that steering hides no route that ordinary rules give. *)

From stdpp Require Import base list gmap strings sets.
From Stdlib Require Import ZArith Lia Ascii Sorted.
From S2P Require Import Prelude Text Bytes Net GoNetip PolicyPorts Reach Policy.

Open Scope Z_scope.

Definition rule_ports_match (rule : AclRule) (port : PortRef) : bool :=
  match rule_ports rule with [] => true | ps => existsb (fun p => port_matches p port) ps end.

Definition grant_port_matches (g : GrantRule) (port : PortRef) : bool := grant_specs_match (grant_ip g) port.

(** [via.strip_prefix("tag:")] is a tag the node has. *)
Definition has_via_tag (via tags : list string) : bool :=
  existsb (fun v => match strip_prefix "tag:" v with
                    | Some tag => existsb (fun t => tag_matches t tag) tags
                    | None => false
                    end) via.

Definition push_unique (values : list string) (value : string) : list string :=
  if bool_decide (value ∈ values) then values else values ++ [value].

Record ViaRouteGrantResult := mkVia { via_include : list string; via_exclude : list string; via_use_primary : list string }.

Record ViaRouteCandidate := mkCandidate { cand_id : Z; cand_tags : list string; cand_routes : list string }.

Section evaluator.
Context `{IpNetLib}.
Variable d : AclDoc.

(** ** Rules *)

Definition matches (rule : AclRule) (src dst : NodeView) (port : PortRef) : bool :=
  principal_matches d (rule_src rule) src (Some dst)
  && principal_matches d (rule_dst rule) dst (Some src)
  && rule_ports_match rule port.

Fixpoint first_action (rules : list AclRule) (p : AclRule -> bool) : option AclAction :=
  match rules with
  | [] => None
  | rule :: rest => if p rule then Some (rule_action rule) else first_action rest p
  end.

Definition evaluate_with (src dst : NodeView) (port : PortRef) : AclAction :=
  default Deny (first_action (doc_rules d) (fun rule => matches rule src dst port)).

Definition decide_acl (src dst : string) (port : PortRef) : AclAction :=
  evaluate_with (NodeView_new src) (NodeView_new dst) port.

Definition matches_node_or_route (rule : AclRule) (src : NodeView) (src_routes : list string) (dst : NodeView)
    (dst_routes : list string) (port : PortRef) : bool :=
  (principal_matches d (rule_src rule) src (Some dst) || principals_overlap_routes d (rule_src rule) src_routes)
  && (principal_matches d (rule_dst rule) dst (Some src) || principals_overlap_routes d (rule_dst rule) dst_routes)
  && rule_ports_match rule port.

Definition grant_src_matches (g : GrantRule) (src : NodeView) : bool := principal_matches d (grant_src g) src None.

(** ** Destinations that are routes *)

Definition expand_route_destination (destination : string) : list string :=
  if bool_decide (destination = "*"%string) || starts_with "tag:" destination || starts_with "group:" destination then []
  else if starts_with "autogroup:" destination then []
  else match strip_prefix "host:" destination with
       | Some host => match doc_hosts d !! host with Some cidr => [cidr] | None => [] end
       | None =>
           match doc_hosts d !! destination with
           | Some cidr => [cidr]
           | None => if bool_decide (is_Some (parse_cidr destination)) then [destination] else []
           end
       end.

(** [parse_cidr(expanded).is_some_and(|allowed| nets_overlap(&allowed, &route))] for
    some expansion of the destination. *)
Definition destination_overlaps (route : IpNet) (destination : string) : bool :=
  existsb (fun expanded => match parse_cidr expanded with Some allowed => nets_overlap allowed route | None => false end)
    (expand_route_destination destination).

Definition route_destinations_overlap (destinations : list string) (route : string) : bool :=
  match parse_cidr route with
  | None => false
  | Some route =>
      if is_default_route route
      then existsb (fun dst => bool_decide (dst = "autogroup:internet"%string) || bool_decide (dst = "*"%string)) destinations
      else existsb (destination_overlaps route) destinations
  end.

Definition grant_dsts_overlap_route (g : GrantRule) (route : string) : bool := route_destinations_overlap (grant_dst g) route.

Definition grant_matches_node_or_route (g : GrantRule) (src : NodeView) (src_routes : list string) (dst : NodeView)
    (dst_routes : list string) (port : PortRef) : bool :=
  if negb (grant_port_matches g port) then false
  else if negb (grant_src_matches g src || principals_overlap_routes d (grant_src g) src_routes) then false
  else match grant_via g with
       | [] => principal_matches d (grant_dst g) dst (Some src) || principals_overlap_routes d (grant_dst g) dst_routes
       | _ => has_via_tag (grant_via g) (view_tags dst) && existsb (grant_dsts_overlap_route g) dst_routes
       end.

Definition can_access_node (src : NodeView) (src_routes : list string) (dst : NodeView) (dst_routes : list string)
    (port : PortRef) : bool :=
  match first_action (doc_rules d) (fun rule => matches_node_or_route rule src src_routes dst dst_routes port) with
  | Some action => bool_decide (action = Accept)
  | None => existsb (fun g => grant_matches_node_or_route g src src_routes dst dst_routes port) (doc_grants d)
  end.

(** ** One route of a peer *)

(** The two ways a rule or grant from [srcs] to [dsts] relates a viewer to a route. *)
Definition route_forward (from : bool) (dsts : list string) (route : string) : bool :=
  from && principals_overlap_routes d dsts [route].

Definition route_reverse (srcs dsts : list string) (viewer : NodeView) (viewer_routes : list string) (peer : NodeView)
    (route : string) : bool :=
  principals_overlap_routes d srcs [route]
  && (principal_matches d dsts viewer (Some peer) || principals_overlap_routes d dsts viewer_routes).

Definition rule_allows_route (rule : AclRule) (viewer : NodeView) (viewer_routes : list string) (peer : NodeView)
    (route : string) : bool :=
  rule_ports_match rule PortRef_any
  && (route_forward (principal_matches d (rule_src rule) viewer (Some peer)) (rule_dst rule) route
      || route_reverse (rule_src rule) (rule_dst rule) viewer viewer_routes peer route).

Definition grant_allows_route (g : GrantRule) (viewer : NodeView) (viewer_routes : list string) (peer : NodeView)
    (route : string) : bool :=
  if negb (bool_decide (grant_via g = [])) || negb (grant_port_matches g PortRef_any) then false
  else route_forward (grant_src_matches g viewer) (grant_dst g) route
       || route_reverse (grant_src g) (grant_dst g) viewer viewer_routes peer route.

Definition regular_policy_allows_route (viewer : NodeView) (viewer_routes : list string) (peer : NodeView) (route : string) : bool :=
  match first_action (doc_rules d) (fun rule => rule_allows_route rule viewer viewer_routes peer route) with
  | Some action => bool_decide (action = Accept)
  | None => existsb (fun g => grant_allows_route g viewer viewer_routes peer route) (doc_grants d)
  end.

Definition can_access_route (viewer : NodeView) (viewer_routes : list string) (peer : NodeView) (route : string) : bool :=
  regular_policy_allows_route viewer viewer_routes peer route.

Definition non_via_policy_overlaps_route (viewer : NodeView) (route : string) (for_primary : bool) : bool :=
  let overlaps destinations :=
    route_destinations_overlap destinations route
    || (for_primary
        && match parse_cidr route with
           | Some net => is_default_route net
               && existsb (fun dst => bool_decide (dst = "*"%string) || destination_overlaps net dst) destinations
           | None => false
           end) in
  existsb (fun g => bool_decide (grant_via g = []) && grant_port_matches g PortRef_any
                    && grant_src_matches g viewer && overlaps (grant_dst g)) (doc_grants d)
  || existsb (fun rule => bool_decide (rule_action rule = Accept) && principal_matches d (rule_src rule) viewer None
                          && rule_ports_match rule PortRef_any && overlaps (rule_dst rule)) (doc_rules d).

(** ** Routes steered through a peer *)

Definition via_applies (viewer : NodeView) (g : GrantRule) : bool :=
  negb (bool_decide (grant_via g = [])) && grant_src_matches g viewer && grant_port_matches g PortRef_any.

(** The peer's routes a grant names: destinations outside, routes inside. *)
Definition via_matched (g : GrantRule) (peer_routes : list string) : list string :=
  flat_map (fun destination =>
    flat_map (fun prefix =>
      match parse_cidr prefix with
      | None => []
      | Some dst => List.filter (fun route => match parse_cidr route with
                                              | Some net => negb (is_default_route net) && nets_overlap dst net
                                              | None => false
                                              end) peer_routes
      end) (expand_route_destination destination)) (grant_dst g)
  ++ (if existsb (fun dst => bool_decide (dst = "autogroup:internet"%string)) (grant_dst g)
      then List.filter (fun route => match parse_cidr route with Some net => is_default_route net | None => false end) peer_routes
      else []).

(** One grant of the first loop. *)
Definition via_collect (viewer peer : NodeView) (peer_routes : list string) (r : ViaRouteGrantResult) (g : GrantRule)
  : ViaRouteGrantResult :=
  if negb (via_applies viewer g) then r
  else match via_matched g peer_routes with
       | [] => r
       | matched => if has_via_tag (grant_via g) (view_tags peer)
                    then mkVia (via_include r ++ matched) (via_exclude r) (via_use_primary r)
                    else mkVia (via_include r) (via_exclude r ++ matched) (via_use_primary r)
       end.

(** The candidate with the least id that the grant steers the route through. *)
Definition via_primary_id (g : GrantRule) (candidates : list ViaRouteCandidate) (route : string) : option Z :=
  min_by Z.compare (map cand_id (List.filter (fun c => has_via_tag (grant_via g) (cand_tags c)
                                                       && existsb (fun r => bool_decide (r = route)) (cand_routes c)) candidates)).

(** One included route of the second loop. *)
Definition via_elect (g : GrantRule) (candidates : list ViaRouteCandidate) (peer_id : Z) (r : ViaRouteGrantResult) (included : string)
  : ViaRouteGrantResult :=
  if negb (grant_dsts_overlap_route g included) then r
  else match via_primary_id g candidates included with
       | Some id => if negb (id =? peer_id)
                    then mkVia (List.filter (fun route => negb (bool_decide (route = included))) (via_include r))
                               (push_unique (via_exclude r) included) (via_use_primary r)
                    else r
       | None => r
       end.

Definition via_elect_all (viewer : NodeView) (candidates : list ViaRouteCandidate) (peer_id : Z) (r : ViaRouteGrantResult) (g : GrantRule)
  : ViaRouteGrantResult :=
  if negb (via_applies viewer g) then r else fold_left (via_elect g candidates peer_id) (via_include r) r.

Definition via_primary (viewer : NodeView) (r : ViaRouteGrantResult) (route : string) : ViaRouteGrantResult :=
  if non_via_policy_overlaps_route viewer route true
  then mkVia (via_include r) (via_exclude r) (push_unique (via_use_primary r) route) else r.

Definition via_routes_for_peer_with_candidates (viewer : NodeView) (viewer_id : Z) (peer : NodeView) (peer_id : Z)
    (peer_routes : list string) (candidates : list ViaRouteCandidate) : ViaRouteGrantResult :=
  if negb (viewer_id =? 0) && (viewer_id =? peer_id) then mkVia [] [] []
  else
    let r := fold_left (via_collect viewer peer peer_routes) (doc_grants d) (mkVia [] [] []) in
    if bool_decide (via_include r = []) && bool_decide (via_exclude r = []) then r
    else
      let r := fold_left (via_elect_all viewer candidates peer_id) (doc_grants d) r in
      let r := fold_left (via_primary viewer) (via_include r) r in
      mkVia (via_include r)
            (List.filter (fun route => negb (non_via_policy_overlaps_route viewer route false)) (via_exclude r))
            (via_use_primary r).

Definition via_routes_for_peer (viewer peer : NodeView) (peer_routes : list string) : ViaRouteGrantResult :=
  via_routes_for_peer_with_candidates viewer 0 peer 0 peer_routes [].

(** ** Attributes and approvals *)

Definition attrs_for (n : NodeView) : list string :=
  let out := if doc_randomize_client_port d then ["randomize-client-port"%string] else [] in
  sort_by str_cmp (fold_left (fun out g => if principal_matches d (na_target g) n None then fold_left push_unique (na_attr g) out else out)
                     (doc_node_attrs d) out).

Definition auto_approver_matches (alias : string) (n : NodeView) : bool :=
  if has_char "@" alias then identity_matches d alias n else principal_matches_one d alias n None.

Definition auto_approves_route (n : NodeView) (prefix : string) : bool :=
  match parse_cidr prefix with
  | None => false
  | Some advertised =>
      if is_default_route advertised then false
      else existsb (fun '(key, principals) =>
             match parse_cidr key with
             | None => false
             | Some approver_net => covers approver_net advertised && existsb (fun alias => auto_approver_matches alias n) principals
             end) (map_to_list (aa_routes (doc_auto_approvers d)))
  end.

Definition auto_approves_exit_node (n : NodeView) : bool :=
  existsb (fun alias => auto_approver_matches alias n) (aa_exit_node (doc_auto_approvers d)).
End evaluator.

Lemma push_unique_elem l y x : x ∈ push_unique l y <-> x ∈ l \/ x = y.
Proof. unfold push_unique. case_bool_decide; [naive_solver|]. by rewrite elem_of_app, list_elem_of_singleton. Qed.

(** ** First match *)

Lemma first_action_spec rules p :
  match first_action rules p with
  | Some a => exists pre rule post, rules = pre ++ rule :: post /\ p rule = true /\ rule_action rule = a /\
                Forall (fun r => p r = false) pre
  | None => Forall (fun r => p r = false) rules
  end.
Proof.
  induction rules as [|rule rules IH]; cbn [first_action]; [constructor|].
  destruct (p rule) eqn:E; [exists [], rule, rules; by split_and!; try constructor|].
  destruct (first_action rules p) as [a|]; [|by constructor].
  destruct IH as (pre & r & post & -> & ? & ? & ?). exists (rule :: pre), r, post. split_and!; [done..|by constructor].
Qed.

(** A parsed document has no other action: [AclAction]'s parser accepts only
    ["accept"]. *)
Definition accept_only (d : AclDoc) : Prop := Forall (fun r => rule_action r = Accept) (doc_rules d).

Lemma first_action_accept rules p :
  Forall (fun r => rule_action r = Accept) rules ->
  first_action rules p = if existsb p rules then Some Accept else None.
Proof. induction 1 as [|r rules Hr _ IH]; [done|]. cbn [first_action existsb]. rewrite Hr, IH. by destruct (p r). Qed.

Section theorems.
Context `{IpNetLib}.
Variable d : AclDoc.

(** A connection is accepted exactly when some rule matches it, accepts, and no
    earlier rule matches; without a matching rule it is refused. *)
Theorem evaluate_with_first_match src dst port :
  evaluate_with d src dst port = Accept <->
  exists pre rule post, doc_rules d = pre ++ rule :: post /\ matches d rule src dst port = true /\
    rule_action rule = Accept /\ Forall (fun r => matches d r src dst port = false) pre.
Proof.
  unfold evaluate_with. pose proof (first_action_spec (doc_rules d) (fun r => matches d r src dst port)) as Hf.
  destruct (first_action _ _) as [a|]; cbn [from_option id].
  - destruct Hf as (pre & rule & post & E & Hm & Ha & Hpre). split.
    + intros ->. by exists pre, rule, post.
    + intros (pre' & rule' & post' & E' & Hm' & Ha' & Hpre'). rewrite E in E'.
      destruct (decide (a = Accept)) as [->|Hna]; [done|]. exfalso.
      assert (rule = rule') as ->; [|congruence].
      clear - Hm Hm' Hpre Hpre' E'. revert pre' Hpre' E'. induction pre as [|x pre IH]; intros [|y pre'] Hpre' E'; simplify_eq/=; [done| | |].
      * apply Forall_cons in Hpre' as [? _]. congruence.
      * apply Forall_cons in Hpre as [? _]. congruence.
      * apply Forall_cons in Hpre as [_ ?], Hpre' as [_ ?]. eauto.
  - split; [done|]. intros (pre & rule & post & E & Hm & _). rewrite E, Forall_app, Forall_cons in Hf. destruct Hf as (_ & ? & _). congruence.
Qed.

Lemma can_access_node_spec src src_routes dst dst_routes port :
  accept_only d ->
  can_access_node d src src_routes dst dst_routes port = true <->
  (exists rule, rule ∈ doc_rules d /\ matches_node_or_route d rule src src_routes dst dst_routes port = true) \/
  (exists g, g ∈ doc_grants d /\ grant_matches_node_or_route d g src src_routes dst dst_routes port = true).
Proof.
  intros Ha. unfold can_access_node. rewrite first_action_accept by done.
  destruct (existsb _ (doc_rules d)) eqn:E.
  - rewrite bool_decide_true by done. apply existsb_elem in E. naive_solver.
  - rewrite existsb_false in E. rewrite existsb_elem. split; [by right|].
    intros [(r & Hr & Hm)|?]; [|done]. rewrite E in Hm; done.
Qed.

Lemma can_access_route_spec viewer viewer_routes peer route :
  accept_only d ->
  can_access_route d viewer viewer_routes peer route = true <->
  (exists rule, rule ∈ doc_rules d /\ rule_allows_route d rule viewer viewer_routes peer route = true) \/
  (exists g, g ∈ doc_grants d /\ grant_allows_route d g viewer viewer_routes peer route = true).
Proof.
  intros Ha. unfold can_access_route, regular_policy_allows_route. rewrite first_action_accept by done.
  destruct (existsb _ (doc_rules d)) eqn:E.
  - rewrite bool_decide_true by done. apply existsb_elem in E. naive_solver.
  - rewrite existsb_false in E. rewrite existsb_elem. split; [by right|].
    intros [(r & Hr & Hm)|?]; [|done]. rewrite E in Hm; done.
Qed.

Lemma overlap_routes_mono principals route routes :
  route ∈ routes -> principals_overlap_routes d principals [route] = true -> principals_overlap_routes d principals routes = true.
Proof.
  unfold principals_overlap_routes. rewrite !existsb_elem. intros Hin (r & ->%list_elem_of_singleton & Hr). eauto.
Qed.

(** Under a parsed policy, whoever may use a route of a peer sees the peer:
    the viewer reaches the peer or its routes, or the peer reaches the viewer. *)
Theorem visible_route_visible_peer viewer viewer_routes peer peer_routes route :
  accept_only d -> route ∈ peer_routes ->
  can_access_route d viewer viewer_routes peer route = true ->
  can_access_node d viewer viewer_routes peer peer_routes PortRef_any = true \/
  can_access_node d peer peer_routes viewer viewer_routes PortRef_any = true.
Proof.
  intros Ha Hin. rewrite can_access_route_spec, !can_access_node_spec by done.
  intros [(r & Hr & Hm)|(g & Hg & Hm)].
  - unfold rule_allows_route, route_forward, route_reverse in Hm. apply andb_true_iff in Hm as [Hp Hm].
    apply orb_true_iff in Hm as [[Hs Hd]%andb_true_iff|[Hs Hd]%andb_true_iff].
    + left. left. exists r. split; [done|]. unfold matches_node_or_route.
      by rewrite Hs, Hp, (overlap_routes_mono _ _ _ Hin Hd), orb_true_r.
    + right. left. exists r. split; [done|]. unfold matches_node_or_route.
      by rewrite Hd, Hp, (overlap_routes_mono _ _ _ Hin Hs), orb_true_r.
  - unfold grant_allows_route, route_forward, route_reverse in Hm. case_bool_decide as Hv; [|done]. cbn [negb orb] in Hm.
    destruct (grant_port_matches g PortRef_any) eqn:Hp; [|done]. cbn [negb] in Hm.
    apply orb_true_iff in Hm as [[Hs Hd]%andb_true_iff|[Hs Hd]%andb_true_iff].
    + left. right. exists g. split; [done|]. unfold grant_matches_node_or_route.
      by rewrite Hp, Hs, Hv, (overlap_routes_mono _ _ _ Hin Hd), orb_true_r.
    + right. right. exists g. split; [done|]. unfold grant_matches_node_or_route.
      by rewrite Hp, Hv, Hd, (overlap_routes_mono _ _ _ Hin Hs), orb_true_r.
Qed.

(** ** Steering *)

Lemma via_matched_routes g peer_routes route : route ∈ via_matched d g peer_routes -> route ∈ peer_routes.
Proof.
  unfold via_matched. rewrite elem_of_app, !list_elem_of_In, in_flat_map. intros [(dst & _ & Hin)|Hin].
  - apply in_flat_map in Hin as (prefix & _ & Hin). destruct (parse_cidr prefix); [|done].
    apply filter_In in Hin as [? _]. done.
  - destruct (existsb _ _); [|done]. apply filter_In in Hin as [? _]. done.
Qed.

Definition via_within (peer_routes : list string) (r : ViaRouteGrantResult) : Prop :=
  via_include r ⊆ peer_routes /\ via_exclude r ⊆ peer_routes /\ via_use_primary r = [].

Lemma via_collect_within viewer peer peer_routes r g :
  via_within peer_routes r -> via_within peer_routes (via_collect d viewer peer peer_routes r g).
Proof.
  intros (Hi & He & Hp). unfold via_collect. destruct (negb _); [done|].
  pose proof (via_matched_routes g peer_routes) as Hm. destruct (via_matched d g peer_routes) as [|x l]; [done|].
  destruct (has_via_tag _ _); unfold via_within; simpl; (split_and!; [set_solver..|done]).
Qed.

(** [via_ok]: no via grant of the viewer elects another node for the route. *)
Definition via_ok (candidates : list ViaRouteCandidate) (peer_id : Z) (g : GrantRule) (route : string) : Prop :=
  grant_dsts_overlap_route d g route = true ->
  via_primary_id g candidates route = None \/ via_primary_id g candidates route = Some peer_id.

Lemma via_elect_spec g candidates peer_id r x :
  let r' := via_elect d g candidates peer_id r x in
  via_include r' ⊆ via_include r /\ via_exclude r' ⊆ x :: via_exclude r /\ via_use_primary r' = via_use_primary r /\
  (x ∈ via_include r' -> via_ok candidates peer_id g x).
Proof.
  unfold via_elect, via_ok. cbv zeta. destruct (grant_dsts_overlap_route d g x) eqn:Eo; cbn [negb]; [|split_and!; set_solver].
  destruct (via_primary_id g candidates x) as [id|] eqn:Ep; [|split_and!; set_solver].
  destruct (Z.eqb_spec id peer_id) as [->|Hne]; cbn [negb]; [split_and!; set_solver|].
  cbn [via_include via_exclude via_use_primary]. split_and!; [| |done|].
  - intros y Hy%elem_of_filter_bool. naive_solver.
  - intros y. rewrite push_unique_elem, elem_of_cons. naive_solver.
  - intros [_ Hy]%elem_of_filter_bool. by rewrite bool_decide_true in Hy.
Qed.

Lemma via_elect_fold g candidates peer_id l : forall r,
  let r' := fold_left (via_elect d g candidates peer_id) l r in
  via_include r' ⊆ via_include r /\ via_exclude r' ⊆ l ++ via_exclude r /\ via_use_primary r' = via_use_primary r /\
  (forall x, x ∈ l -> x ∈ via_include r' -> via_ok candidates peer_id g x).
Proof.
  induction l as [|x l IH]; intros r; cbn [fold_left]; [split_and!; set_solver|].
  destruct (via_elect_spec g candidates peer_id r x) as (Hi & He & Hp & Hx). cbv zeta in *.
  destruct (IH (via_elect d g candidates peer_id r x)) as (Hi' & He' & Hp' & Hx').
  split_and!; [by etransitivity| |congruence|].
  - intros y Hy. specialize (He' y Hy). rewrite elem_of_app in He'. specialize (He y). set_solver +He He'.
  - intros y [->|Hy]%elem_of_cons Hin; [apply Hx; by apply Hi'|auto].
Qed.

Lemma via_elect_all_fold viewer candidates peer_id peer_routes grants : forall r,
  via_within peer_routes r ->
  let r' := fold_left (via_elect_all d viewer candidates peer_id) grants r in
  via_within peer_routes r' /\ via_include r' ⊆ via_include r /\
  (forall g x, g ∈ grants -> via_applies d viewer g = true -> x ∈ via_include r' -> via_ok candidates peer_id g x).
Proof.
  induction grants as [|g grants IH]; intros r Hr; cbn [fold_left]; [split_and!; [done|done|set_solver]|].
  set (r1 := via_elect_all d viewer candidates peer_id r g).
  assert (via_within peer_routes r1 /\ via_include r1 ⊆ via_include r /\
    (via_applies d viewer g = true -> forall x, x ∈ via_include r1 -> via_ok candidates peer_id g x)) as (Hw & Hi & Hok).
  { subst r1. unfold via_elect_all. destruct (via_applies d viewer g) eqn:Ea; cbn [negb]; [|done].
    destruct (via_elect_fold g candidates peer_id (via_include r) r) as (Hi & He & Hp & Hx). cbv zeta in *.
    destruct Hr as (Hri & Hre & Hrp). unfold via_within. split_and!; [by etransitivity| |congruence|done|].
    - intros x Hx'. specialize (He x Hx'). apply elem_of_app in He as [He|He]; auto.
    - intros _ x Hx'. apply Hx; [by apply Hi|done]. }
  destruct (IH r1 Hw) as (Hw' & Hi' & Hok'). cbv zeta in *. split_and!; [done|by etransitivity|].
  intros g' x [->|Hg']%elem_of_cons Ha Hx; [apply Hok; [done|by apply Hi']|eauto].
Qed.

Lemma via_primary_fold viewer l : forall r,
  let r' := fold_left (via_primary d viewer) l r in
  via_include r' = via_include r /\ via_exclude r' = via_exclude r /\
  (forall x, x ∈ via_use_primary r' <->
     x ∈ via_use_primary r \/ (x ∈ l /\ non_via_policy_overlaps_route d viewer x true = true)).
Proof.
  induction l as [|y l IH]; intros r; cbn [fold_left]; [split_and!; [done|done|set_solver]|].
  destruct (IH (via_primary d viewer r y)) as (Hi & He & Hp). cbv zeta in *. rewrite Hi, He. unfold via_primary in *.
  destruct (non_via_policy_overlaps_route d viewer y true) eqn:E; cbn [via_include via_exclude via_use_primary] in *.
  - split_and!; [done|done|]. intros x. rewrite Hp, push_unique_elem, elem_of_cons. naive_solver.
  - split_and!; [done|done|]. intros x. rewrite Hp, elem_of_cons. split; [naive_solver|].
    intros [?|[[->|?] ?]]; [by left|congruence|by right].
Qed.

(** Steering through a peer concerns only routes the peer announces: an included
    route is one for which no via grant of the viewer elects another candidate; the
    routes left to the global election are exactly the included ones that the
    viewer's ordinary rules and grants also give; and no excluded route is one
    they give. *)
Theorem via_routes_safe viewer viewer_id peer peer_id peer_routes candidates :
  let r := via_routes_for_peer_with_candidates d viewer viewer_id peer peer_id peer_routes candidates in
  via_include r ⊆ peer_routes /\ via_exclude r ⊆ peer_routes /\
  (forall g x, g ∈ doc_grants d -> via_applies d viewer g = true -> x ∈ via_include r -> via_ok candidates peer_id g x) /\
  (forall x, x ∈ via_use_primary r <-> x ∈ via_include r /\ non_via_policy_overlaps_route d viewer x true = true) /\
  (forall x, x ∈ via_exclude r -> non_via_policy_overlaps_route d viewer x false = false).
Proof.
  cbv zeta. unfold via_routes_for_peer_with_candidates. destruct (_ && (viewer_id =? peer_id)); [split_and!; set_solver|].
  set (r0 := fold_left (via_collect d viewer peer peer_routes) (doc_grants d) (mkVia [] [] [])).
  assert (via_within peer_routes r0) as Hw.
  { subst r0. assert (via_within peer_routes (mkVia [] [] [])) as Hr by (split_and!; [apply list_subseteq_nil..|done]).
    revert Hr. generalize (mkVia [] [] []). induction (doc_grants d) as [|g gs IH]; intros r Hr; [done|].
    apply IH. by apply via_collect_within. }
  case_bool_decide as Hi; [case_bool_decide as He|]; cbn [andb].
  { destruct Hw as (_ & _ & Hp). rewrite Hi, He, Hp. split_and!; set_solver. }
  all: destruct (via_elect_all_fold viewer candidates peer_id peer_routes (doc_grants d) r0 Hw) as (Hw1 & _ & Hok);
    cbv zeta in *; set (r1 := fold_left (via_elect_all d viewer candidates peer_id) (doc_grants d) r0) in *;
    destruct (via_primary_fold viewer (via_include r1) r1) as (Hpi & Hpe & Hpp); cbv zeta in *;
    destruct Hw1 as (Hi1 & He1 & Hp1); cbn [via_include via_exclude via_use_primary]; rewrite Hpi, Hpe.
  all: split_and!; [done|intros x [Hx _]%elem_of_filter_bool; by apply He1|done|intros x; rewrite Hpp, Hp1, elem_of_nil; naive_solver|
    intros x [_ Hx]%elem_of_filter_bool; by apply negb_true_iff in Hx].
Qed.

(** ** Attributes *)

Lemma push_unique_all l : forall out,
  NoDup out -> NoDup (fold_left push_unique l out) /\ forall x, x ∈ fold_left push_unique l out <-> x ∈ out \/ x ∈ l.
Proof.
  induction l as [|y l IH]; intros out Hn; cbn [fold_left]; [set_solver|].
  assert (NoDup (push_unique out y)) as Hn' by (unfold push_unique; case_bool_decide; [done|]; apply NoDup_app; split_and!;
    [done|set_solver|apply NoDup_singleton]).
  destruct (IH _ Hn') as [Hd Hm]. split; [done|]. intros x. rewrite Hm, push_unique_elem, elem_of_cons. naive_solver.
Qed.

(** The attributes of a node are, without repetition and in order, the tailnet's
    [randomize-client-port] if it is set and every attribute of a grant whose
    target matches the node. *)
Theorem attrs_for_exact n :
  StronglySorted (fun a b => str_cmp a b <> Gt) (attrs_for d n) /\ NoDup (attrs_for d n) /\
  forall a, a ∈ attrs_for d n <->
    (doc_randomize_client_port d = true /\ a = "randomize-client-port"%string) \/
    exists g, g ∈ doc_node_attrs d /\ principal_matches d (na_target g) n None = true /\ a ∈ na_attr g.
Proof.
  unfold attrs_for. set (out := if doc_randomize_client_port d then _ else _).
  set (step := fun out g => if principal_matches d (na_target g) n None then fold_left push_unique (na_attr g) out else out).
  assert (forall gs out, NoDup out -> NoDup (fold_left step gs out) /\ forall a, a ∈ fold_left step gs out <->
    a ∈ out \/ exists g, g ∈ gs /\ principal_matches d (na_target g) n None = true /\ a ∈ na_attr g) as Hfold.
  { induction gs as [|g gs IH]; intros o Hn; cbn [fold_left]; [split; [done|]; set_solver|].
    assert (NoDup (step o g) /\ forall a, a ∈ step o g <-> a ∈ o \/ (principal_matches d (na_target g) n None = true /\ a ∈ na_attr g)) as [Hs Hm].
    { subst step. cbv beta. destruct (principal_matches d (na_target g) n None); [|set_solver].
      destruct (push_unique_all (na_attr g) o Hn) as [? E]. split; [done|]. intros a. rewrite E. naive_solver. }
    destruct (IH (step o g) Hs) as [Hd Hm']. split; [done|]. intros a. rewrite Hm', Hm. setoid_rewrite elem_of_cons. naive_solver. }
  destruct (Hfold (doc_node_attrs d) out) as [Hd Hm].
  { subst out. destruct (doc_randomize_client_port d); [apply NoDup_singleton|constructor]. }
  split_and!; [apply (sort_by_sorted str_cmp)|by rewrite sort_by_perm|].
  intros a. rewrite sort_by_In, Hm. subst out. destruct (doc_randomize_client_port d); set_solver.
Qed.
End theorems.

(** ** Approvals *)

Section approvals.
Context `{IpNetLaws}.
Variable d : AclDoc.

(** A route is approved for a node without an operator exactly when it parses, is
    not a default route, and every address of it lies in a prefix of the policy
    that lists an alias matching the node. *)
Theorem auto_approval_exact n prefix :
  auto_approves_route d n prefix = true <->
  exists net key approver principals alias,
    parse_cidr prefix = Some net /\ net_prefix_len net <> 0 /\
    aa_routes (doc_auto_approvers d) !! key = Some principals /\ parse_cidr key = Some approver /\
    (forall ip, net_contains net ip = true -> net_contains approver ip = true) /\
    alias ∈ principals /\ auto_approver_matches d alias n = true.
Proof.
  unfold auto_approves_route, is_default_route. destruct (parse_cidr prefix) as [net|];
    [|split; [done|by intros (? & ? & ? & ? & ? & [=] & _)]].
  destruct (Z.eqb_spec (net_prefix_len net) 0) as [Hz|Hz];
    [split; [done|by intros (? & ? & ? & ? & ? & [= <-] & ? & _)]|].
  rewrite existsb_elem. split.
  - intros ([key principals] & Hin%elem_of_map_to_list & Hm). destruct (parse_cidr key) as [approver|] eqn:Ek; [|done].
    apply andb_true_iff in Hm as [Hc Hm]. apply existsb_elem in Hm as (alias & Hal & Hm).
    exists net, key, approver, principals, alias. split_and!; [done..| |done|done]. by apply covers_spec.
  - intros (? & key & approver & principals & alias & [= <-] & _ & Hk & Ek & Hc & Hal & Hm).
    exists (key, principals). split; [by apply elem_of_map_to_list|]. rewrite Ek. apply andb_true_iff. split.
    + by apply covers_spec.
    + apply existsb_elem. eauto.
Qed.
End approvals.

(** ** Examples *)

Module PolicyExamples.

#[local] Existing Instance PrefixNet.lib.
#[local] Existing Instance PrefixNet.laws.

(** Two groups that name each other, a tag owned through another tag, one approver. *)
Definition doc1 : AclDoc :=
  mkDoc None 1
    (<["group:a"%string := ["alice@"; "group:b"]%string]> (<["b"%string := ["bob@"; "group:a"]%string]> ∅))
    ∅
    (<["tag:web"%string := ["tag:ops"]%string]> (<["tag:ops"%string := ["group:a"; "tag:web"]%string]> ∅))
    (<["lan"%string := "192.168.0.0/16"%string]> ∅)
    (mkApprovers (<["10.0.0.0/8"%string := ["tag:router"; "alice@"]%string]> ∅) ["tag:exit"%string])
    [mkNodeAttr ["group:a"%string] ["ssh"; "drive"]%string]
    [mkGrant ["group:a"%string] ["lan"%string] ["tcp:443"%string] ∅ []]
    false [] [] []
    [mkRule Accept ["alice@"%string] ["192.168.1.0/24"%string] ["tcp/22"%string]].

Definition alice : NodeView := with_user (NodeView_new "100.64.0.1") "alice".
Definition bob : NodeView := with_user (NodeView_new "100.64.0.2") "bob".
Definition server : NodeView := with_tags (with_user (NodeView_new "100.64.0.3") "alice") ["tag:web"%string].

Lemma group_expansion_exact_witness :
  expand_group doc1 "group:a" = ["alice@"; "bob@"]%string /\ group_leads doc1 "group:a" "bob@".
Proof.
  assert (expand_group doc1 "group:a" = ["alice@"; "bob@"]%string) as E by (vm_compute; reflexivity).
  split; [exact E|]. apply (group_expansion_exact doc1 "group:a"); [reflexivity|]. rewrite E. apply elem_of_cons. right. apply list_elem_of_singleton. reflexivity.
Defined.

Lemma group_match_is_expansion_witness :
  group_matches doc1 "group:a" bob = true /\
  group_matches doc1 "group:a" bob = existsb (fun m => identity_matches doc1 m bob) (expand_group doc1 "group:a").
Proof.
  split; [vm_compute; reflexivity|]. apply (group_match_is_expansion doc1 "group:a" bob). reflexivity.
Defined.

(** Alice's server is not Alice. *)
Lemma tagged_node_has_no_user_witness :
  principal_matches doc1 ["alice@"; "group:a"]%string alice None = true /\
  principal_matches doc1 ["alice@"; "group:a"]%string server None = false /\
  principal_matches doc1 ["alice@"; "group:a"]%string (as_user server (Some "mallory"%string) (Some 7)) None
  = principal_matches doc1 ["alice@"; "group:a"]%string server None.
Proof.
  split_and!; [vm_compute; reflexivity..|]. apply tagged_node_has_no_user. discriminate.
Defined.

Lemma visible_route_visible_peer_witness :
  can_access_route doc1 alice [] server "192.168.1.0/24" = true /\
  (can_access_node doc1 alice [] server ["192.168.1.0/24"%string] PortRef_any = true \/
   can_access_node doc1 server ["192.168.1.0/24"%string] alice [] PortRef_any = true).
Proof.
  assert (can_access_route doc1 alice [] server "192.168.1.0/24" = true) as E by (vm_compute; reflexivity).
  split; [exact E|]. apply (visible_route_visible_peer doc1 alice [] server ["192.168.1.0/24"%string] "192.168.1.0/24").
  - apply Forall_singleton. reflexivity.
  - apply list_elem_of_singleton. reflexivity.
  - exact E.
Defined.

Lemma auto_approval_exact_witness :
  auto_approves_route doc1 alice "10.1.0.0/16" = true /\ auto_approves_route doc1 alice "0.0.0.0/0" = false /\
  exists net key approver principals alias,
    parse_cidr "10.1.0.0/16" = Some net /\ net_prefix_len net <> 0 /\
    aa_routes (doc_auto_approvers doc1) !! key = Some principals /\ parse_cidr key = Some approver /\
    (forall ip, net_contains net ip = true -> net_contains approver ip = true) /\
    alias ∈ principals /\ auto_approver_matches doc1 alias alice = true.
Proof.
  assert (auto_approves_route doc1 alice "10.1.0.0/16" = true) as E by (vm_compute; reflexivity).
  split_and!; [exact E|vm_compute; reflexivity|]. apply (auto_approval_exact doc1 alice "10.1.0.0/16"). exact E.
Defined.

(** The owners of a tag lead through a cycle of tags to Alice's group. *)
Example alice_claims_web : node_can_have_tag_with_nodes doc1 alice "tag:web" [alice] = true.
Proof. vm_compute. reflexivity. Qed.

End PolicyExamples.
