(* ===== verification/Intervals.v ===== *)
(** * Intervals: address ranges and CIDR blocks
    (headscale-api/src/policy/filter.rs)

    The packet filter works on intervals of addresses, [(width, start, end)] with
    both ends included, and prints them as CIDR blocks.  [cidrs_for_interval]
    cuts an interval greedily into the largest aligned blocks; the theorem shows
    that the blocks are exactly the interval, in order and without overlap, and
    that the loop ends within [2 * bits + 2] rounds, which is its fuel. *)

From S2P Require Import Prelude Bytes Net GoNetip.
From stdpp Require Import base list strings sets.
From Stdlib Require Import ZArith Lia Ascii Sorted.

Open Scope Z_scope.
Open Scope rust_scope.

Section nets.
Context `{IpNetLib}.

Definition ipnet_interval (net : IpNet) : Z * Z * Z :=
  let start := ip_value (net_network net) in
  if net_is_v4 net then (32, start, start + 2 ^ (32 - net_prefix_len net) - 1)
  else if net_prefix_len net =? 0 then (128, 0, u_max 128)
  else (128, start, start + 2 ^ (128 - net_prefix_len net) - 1).

Definition parse_prefix_net (value : string) : option IpNet :=
  match parse_prefix value with Ok (ip, bits) => net_new ip bits | Err _ => None end.

Definition parse_ip_net (value : string) : option IpNet :=
  if bool_decide ("/"%char ∈ to_chars value) then parse_prefix_net value
  else match parse_addr value with
       | Ok (ip, _) => net_new ip (if is_v4 ip then 32 else 128)
       | Err _ => None
       end.

Definition nets_overlap (a b : IpNet) : bool :=
  let '(a_bits, a_start, a_end) := ipnet_interval a in
  let '(b_bits, b_start, b_end) := ipnet_interval b in
  (a_bits =? b_bits) && (a_start <=? b_end) && (b_start <=? a_end).

Definition prefixes_overlap (a b : string) : bool :=
  match parse_ip_net a, parse_ip_net b with
  | Some a, Some b => nets_overlap a b
  | _, _ => false
  end.

Definition net_contains_addr (net : IpNet) (addr : string) : bool :=
  match parse_addr addr with
  | Ok (ip, None) => Bool.eqb (net_is_v4 net) (is_v4 ip) && net_contains net ip
  | _ => false
  end.

Definition prefix_contains_addr (prefix addr : string) : bool :=
  match parse_ip_net prefix with Some net => net_contains_addr net addr | None => false end.

Definition is_single_ip (net : IpNet) : bool :=
  if net_is_v4 net then net_prefix_len net =? 32 else net_prefix_len net =? 128.
End nets.

(** ** Cutting an interval into blocks *)

Definition block_size (bits prefix_len : Z) : option Z :=
  let host_bits := bits - prefix_len in
  if host_bits =? 128 then None else Some (2 ^ host_bits).

(** Does the block of this length start at [start] and end by [end_]? *)
Definition block_fits (bits start end_ prefix_len : Z) : bool :=
  match block_size bits prefix_len with
  | Some size => (start `mod` size =? 0) && (saturating_add 128 start (size - 1) <=? end_)
  | None => false
  end.

(** [0..=bits] *)
Definition prefix_lengths (bits : Z) : list Z := map Z.of_nat (seq 0 (S (Z.to_nat bits))).

Definition chosen_prefix (bits start end_ : Z) : Z :=
  match List.find (block_fits bits start end_) (prefix_lengths bits) with Some p => p | None => bits end.

(** The blocks, as (start, prefix length). *)
Fixpoint cidr_loop (fuel : nat) (start end_ bits : Z) : list (Z * Z) :=
  match fuel with
  | O => []
  | S fuel =>
      if start <=? end_ then
        let p := chosen_prefix bits start end_ in
        let size := default 1 (block_size bits p) in
        (start, p) :: if end_ - start <? size then [] else cidr_loop fuel (start + size) end_ bits
      else []
  end.

Definition cidr_fuel (bits : Z) : nat := (2 * Z.to_nat bits + 2)%nat.

Definition whole_v6 (start end_ bits : Z) : bool := (bits =? 128) && (start =? 0) && (end_ =? u_max 128).

Definition cidr_blocks (start end_ bits : Z) : list (Z * Z) :=
  if whole_v6 start end_ bits then [(0, 0)] else cidr_loop (cidr_fuel bits) start end_ bits.

Definition interval_addr (value bits : Z) : IpAddr := if bits =? 32 then V4 (value `mod` 2 ^ 32) else V6 value.

Definition interval_addr_string (value bits : Z) : string := show_ip (interval_addr value bits).

Section strings.
Context `{IpNetLib}.

(** [None] is the panic of [expect]. *)
Definition interval_prefix_string (start bits prefix_len : Z) : option string :=
  net_show <$> net_new (interval_addr start bits) prefix_len.

Definition cidrs_for_interval (start end_ bits : Z) : option (list string) :=
  if whole_v6 start end_ bits then Some ["::/0"%string]
  else mapM (fun b => interval_prefix_string b.1 bits b.2) (cidr_loop (cidr_fuel bits) start end_ bits).

Definition interval_ipset_string (start end_ bits : Z) : option string :=
  if start =? end_ then Some (interval_addr_string start bits)
  else match cidrs_for_interval start end_ bits with
       | None => None
       | Some [c] => Some c
       | Some _ => Some (interval_addr_string start bits ++ "-" ++ interval_addr_string end_ bits)%string
       end.

(** The two addresses of a range text. *)
Definition range_ends (ipset : string) : option (IpAddr * IpAddr) :=
  match split_once "-" (to_chars ipset) with
  | Some (start, end_) =>
      match parse_addr (of_chars start), parse_addr (of_chars end_) with
      | Ok (a, _), Ok (b, _) => Some (a, b)
      | _, _ => None
      end
  | None => None
  end.

Definition ipset_string_to_cidrs (ipset : string) : option (list string) :=
  match parse_ip_net ipset with
  | Some net => Some [net_show net]
  | None => match range_ends ipset with
            | Some (V4 a, V4 b) => cidrs_for_interval a b 32
            | Some (V6 a, V6 b) => cidrs_for_interval a b 128
            | _ => Some []
            end
  end.

Definition ipset_string_contains_addr (ipset addr : string) : bool :=
  if prefix_contains_addr ipset addr then true
  else match split_once "-" (to_chars ipset) with
       | None => false
       | Some _ => match parse_addr addr, range_ends ipset with
                   | Ok (V4 x, None), Some (V4 a, V4 b) => (a <=? x) && (x <=? b)
                   | Ok (V6 x, None), Some (V6 a, V6 b) => (a <=? x) && (x <=? b)
                   | _, _ => false
                   end
       end.
End strings.

(** ** The choice of a block *)

(** The widths of the two families. *)
Definition family (bits : Z) : Prop := bits = 32 \/ bits = 128.

Definition interval_ok (start end_ bits : Z) : Prop := family bits /\ 0 <= start <= end_ /\ end_ < 2 ^ bits.

Lemma find_first (P : Z -> bool) n : forall a x,
  List.find P (map Z.of_nat (seq a n)) = Some x ->
  P x = true /\ Z.of_nat a <= x < Z.of_nat (a + n) /\ forall y, Z.of_nat a <= y < x -> P y = false.
Proof.
  induction n as [|n IH]; intros a x; cbn [seq map List.find]; [done|].
  destruct (P (Z.of_nat a)) eqn:E.
  - intros [= <-]. split_and!; [done|lia|lia|]. intros y Hy. lia.
  - intros Hx. apply IH in Hx as (Hp & Hr & Hn). split_and!; [done|lia|lia|].
    intros y Hy. destruct (decide (y = Z.of_nat a)) as [-> |]; [done|]. apply Hn. lia.
Qed.

(** An aligned block does not cross the end of the address space, so the
    saturating addition never saturates. *)
Lemma aligned_fits k bits start : 0 <= k <= bits -> (2 ^ k | start) -> start < 2 ^ bits -> start + 2 ^ k <= 2 ^ bits.
Proof.
  intros Hk [q ->] Hs. assert (0 < 2 ^ k) by (apply Z.pow_pos_nonneg; lia).
  assert (2 ^ bits = 2 ^ k * 2 ^ (bits - k)) as E by (rewrite <-Z.pow_add_r by lia; f_equal; lia).
  rewrite E in *. assert (q < 2 ^ (bits - k)) by nia. nia.
Qed.

Lemma block_fits_spec bits start end_ k :
  interval_ok start end_ bits -> 0 <= k <= bits -> k <> 128 ->
  block_fits bits start end_ (bits - k) = true <-> (2 ^ k | start) /\ start + 2 ^ k - 1 <= end_.
Proof.
  intros (Hf & Hs & He) Hk Hk'. unfold block_fits, block_size. replace (bits - (bits - k)) with k by lia.
  rewrite (proj2 (Z.eqb_neq k 128)) by done.
  assert (0 < 2 ^ k) by (apply Z.pow_pos_nonneg; lia).
  rewrite andb_true_iff, Z.eqb_eq, Z.leb_le, Z.mod_divide by lia. unfold saturating_add, u_max.
  assert (2 ^ bits <= 2 ^ 128) by (destruct Hf as [-> | ->]; lia).
  split; intros [Hd ?]; (split; [done|]); pose proof (aligned_fits k bits start Hk Hd); lia.
Qed.

(** The block taken is the largest one that starts at [start] and fits. *)
Lemma chosen_prefix_spec bits start end_ :
  interval_ok start end_ bits -> whole_v6 start end_ bits = false ->
  exists k, chosen_prefix bits start end_ = bits - k /\ 0 <= k <= bits /\ block_size bits (bits - k) = Some (2 ^ k) /\
    (2 ^ k | start) /\ start + 2 ^ k - 1 <= end_ /\
    forall j, k < j <= bits -> (2 ^ j | start) -> end_ < start + 2 ^ j - 1.
Proof.
  intros Hok Hw. pose proof Hok as (Hf & Hs & He). assert (0 < bits <= 128) by (destruct Hf as [-> | ->]; lia).
  unfold chosen_prefix, prefix_lengths.
  destruct (List.find _ _) as [p|] eqn:E.
  - apply find_first in E as (Hp & Hr & Hn). exists (bits - p).
    assert (bits - p <> 128) as Hne.
    { intros Hb. unfold block_fits, block_size in Hp. rewrite Hb in Hp. done. }
    replace p with (bits - (bits - p)) in Hp by lia. apply block_fits_spec in Hp as [Hd Hl]; [|done|lia|done].
    split_and!; [lia|lia|lia| |done|done|].
    + unfold block_size. replace (bits - (bits - (bits - p))) with (bits - p) by lia.
      by rewrite (proj2 (Z.eqb_neq _ 128)) by done.
    + intros j Hj Hdj. destruct (decide (j = 128)) as [-> |Hj'].
      * assert (bits = 128) as -> by lia. destruct (decide (start = 0)) as [-> |Hs0].
        -- unfold whole_v6, u_max in Hw. cbn [Z.eqb Pos.eqb andb] in Hw. apply Z.eqb_neq in Hw. lia.
        -- apply Z.divide_pos_le in Hdj; lia.
      * specialize (Hn (bits - j)). destruct (Z.lt_ge_cases end_ (start + 2 ^ j - 1)) as [|Hge]; [done|].
        rewrite (proj2 (block_fits_spec bits start end_ j Hok ltac:(lia) Hj')) in Hn; [|done]. discriminate Hn. lia.
  - exfalso. assert (block_fits bits start end_ (bits - 0) = true) as Hb.
    { apply block_fits_spec; [done|lia|lia|]. split; [apply Z.divide_1_l|lia]. }
    rewrite (List.find_none _ _ E) in Hb; [done|]. apply List.in_map_iff. exists (Z.to_nat bits).
    split; [lia|]. apply List.in_seq. lia.
Qed.

(** ** The blocks are the interval *)

(** The last address of a block. *)
Definition block_end (bits : Z) (b : Z * Z) : Z := b.1 + 2 ^ (bits - b.2) - 1.

(** Blocks that follow each other without gap or overlap from [start] to [end_],
    each aligned to its size. *)
Inductive tiles (bits : Z) : Z -> Z -> list (Z * Z) -> Prop :=
| tiles_nil start end_ : end_ < start -> start <= end_ + 1 -> tiles bits start end_ []
| tiles_cons start end_ p l :
    0 <= p <= bits -> (2 ^ (bits - p) | start) -> block_end bits (start, p) <= end_ ->
    tiles bits (start + 2 ^ (bits - p)) end_ l -> tiles bits start end_ ((start, p) :: l).

Lemma tiles_member bits start end_ l x :
  tiles bits start end_ l -> start <= x <= end_ <-> exists b, b ∈ l /\ b.1 <= x <= block_end bits b.
Proof.
  induction 1 as [start end_ H1 H2|start end_ p l Hp Hd He Ht IH].
  - split; [lia|]. intros (b & Hb & _). by apply elem_of_nil in Hb.
  - unfold block_end in He. cbn [fst snd] in He.
    assert (0 < 2 ^ (bits - p)) by (apply Z.pow_pos_nonneg; lia). split.
    + intros Hx. destruct (Z.lt_ge_cases x (start + 2 ^ (bits - p))) as [Hlt|Hge].
      * exists (start, p). split; [set_solver|]. unfold block_end. simpl. lia.
      * destruct (proj1 IH) as (b & Hb & Hbx); [lia|]. exists b. split; [set_solver|done].
    + intros (b & Hb & Hbx). apply elem_of_cons in Hb as [-> |Hb].
      * unfold block_end in Hbx. simpl in Hbx. lia.
      * assert (start + 2 ^ (bits - p) <= x <= end_) by (apply IH; eauto). lia.
Qed.

(** One round, when it is not the whole IPv6 space. *)
Lemma cidr_round bits start end_ fuel :
  interval_ok start end_ bits -> whole_v6 start end_ bits = false ->
  exists k, 0 <= k <= bits /\ (2 ^ k | start) /\ start + 2 ^ k - 1 <= end_ /\
    (forall j, k < j <= bits -> (2 ^ j | start) -> end_ < start + 2 ^ j - 1) /\
    cidr_loop (S fuel) start end_ bits =
    (start, bits - k) :: if end_ - start <? 2 ^ k then [] else cidr_loop fuel (start + 2 ^ k) end_ bits.
Proof.
  intros Hok Hw. destruct (chosen_prefix_spec bits start end_ Hok Hw) as (k & Hc & Hk & Hb & Hd & He & Hmax).
  exists k. split_and!; [lia|lia|done|done|done|]. cbn [cidr_loop].
  rewrite (proj2 (Z.leb_le start end_)), Hc, Hb by (destruct Hok; lia). done.
Qed.

(** The next interval is not the whole space. *)
Lemma whole_v6_pos start end_ bits : 0 < start -> whole_v6 start end_ bits = false.
Proof. intros H. unfold whole_v6. rewrite (proj2 (Z.eqb_neq start 0)) by lia. by rewrite andb_false_r. Qed.

(** After the first block that is cut short by the end of the interval, the rest
    is smaller than that block and the blocks shrink: [j] rounds are enough. *)
Lemma cidr_loop_shrinks bits end_ fuel : forall j start,
  (j <= Z.of_nat fuel) -> 0 <= j <= bits -> interval_ok start end_ bits -> whole_v6 start end_ bits = false ->
  (2 ^ j | start) -> end_ - start + 1 < 2 ^ j -> tiles bits start end_ (cidr_loop fuel start end_ bits).
Proof.
  induction fuel as [|fuel IH]; intros j start Hf Hj Hok Hw Hd Hr.
  - assert (j = 0) as -> by lia. simpl in Hr. destruct Hok. lia.
  - destruct (cidr_round bits start end_ fuel Hok Hw) as (k & Hk & Hdk & Hek & Hmax & ->).
    assert (0 < 2 ^ k) by (apply Z.pow_pos_nonneg; lia).
    assert (k < j) as Hkj by (apply (Z.pow_lt_mono_r_iff 2); lia).
    assert (end_ < start + 2 ^ (k + 1) - 1) as Hup.
    { apply Hmax; [lia|]. etransitivity; [|exact Hd]. exists (2 ^ (j - (k + 1))). rewrite <-Z.pow_add_r by lia. f_equal. lia. }
    rewrite Z.pow_add_r in Hup by lia.
    apply tiles_cons; replace (bits - (bits - k)) with k by lia; [lia|done|unfold block_end; simpl; replace (bits - (bits - k)) with k by lia; lia|].
    destruct (Z.ltb_spec (end_ - start) (2 ^ k)); [apply tiles_nil; lia|].
    destruct Hok as (Hfam & Hs & He). apply (IH k); [lia|lia|split_and!; [done|lia|lia|lia]|apply whole_v6_pos; lia| |lia].
    apply Z.divide_add_r; [done|reflexivity].
Qed.

(** Until then the alignment of the start grows. *)
Lemma cidr_loop_grows bits end_ fuel : forall j start,
  (2 * bits + 2 - j <= Z.of_nat fuel) -> 0 <= j <= bits -> interval_ok start end_ bits -> whole_v6 start end_ bits = false ->
  (2 ^ j | start) -> tiles bits start end_ (cidr_loop fuel start end_ bits).
Proof.
  induction fuel as [|fuel IH]; intros j start Hf Hj Hok Hw Hd.
  - destruct Hok as ([-> | ->] & _); lia.
  - destruct (Z.lt_ge_cases (end_ - start + 1) (2 ^ j)) as [Hlt|Hge].
    { apply (cidr_loop_shrinks bits end_ (S fuel) j); [lia|done..]. }
    destruct (cidr_round bits start end_ fuel Hok Hw) as (k & Hk & Hdk & Hek & Hmax & ->).
    assert (0 < 2 ^ k) by (apply Z.pow_pos_nonneg; lia).
    assert (j <= k) as Hjk.
    { destruct (Z.le_gt_cases j k) as [|Hgt]; [done|]. pose proof (Hmax j ltac:(lia) Hd). lia. }
    apply tiles_cons; replace (bits - (bits - k)) with k by lia; [lia|done|unfold block_end; simpl; replace (bits - (bits - k)) with k by lia; lia|].
    destruct (Z.ltb_spec (end_ - start) (2 ^ k)) as [|Hmore]; [apply tiles_nil; lia|].
    pose proof Hok as (Hfam & Hs & He).
    assert (interval_ok (start + 2 ^ k) end_ bits) as Hok' by (split_and!; [done|lia|lia|lia]).
    assert (k < bits) as Hkb.
    { destruct (decide (k = bits)) as [-> |]; [|lia]. pose proof (aligned_fits bits bits start ltac:(lia) Hdk). lia. }
    destruct Hdk as [q Hq]. destruct (Z.Even_or_Odd q) as [[m Hm]|[m Hm]].
    + assert (2 ^ (k + 1) | start) as Hd1 by (exists m; rewrite Z.pow_add_r by lia; lia).
      pose proof (Hmax (k + 1) ltac:(lia) Hd1) as Hshort. rewrite Z.pow_add_r in Hshort by lia.
      apply (cidr_loop_shrinks bits end_ fuel k); [lia|lia|done|apply whole_v6_pos; lia| |lia].
      exists (q + 1). lia.
    + apply (IH (k + 1)); [lia|lia|done|apply whole_v6_pos; lia|]. exists (m + 1). rewrite Z.pow_add_r by lia. lia.
Qed.

Lemma cidr_blocks_tiles start end_ bits :
  interval_ok start end_ bits -> tiles bits start end_ (cidr_blocks start end_ bits).
Proof.
  intros Hok. pose proof Hok as (Hf & Hs & He). unfold cidr_blocks. destruct (whole_v6 start end_ bits) eqn:Hw.
  - unfold whole_v6 in Hw. rewrite !andb_true_iff, !Z.eqb_eq in Hw. destruct Hw as [[-> ->] ->].
    apply tiles_cons; [lia|apply Z.divide_0_r|unfold block_end; simpl; unfold u_max; lia|]. apply tiles_nil; unfold u_max; lia.
  - apply (cidr_loop_grows bits end_ _ 0); [unfold cidr_fuel; lia|destruct Hf as [-> | ->]; lia|done|done|apply Z.divide_1_l].
Qed.

(** ** The printed blocks *)

Lemma address_text_show ip : address_text ip None = show_ip ip.
Proof.
  destruct ip as [a|a]; [done|]. unfold address_text, to_ipv4_mapped, show_ip, show_ipv6.
  by destruct (a / 2 ^ 32 =? 0xffff).
Qed.

Lemma interval_addr_ok v bits : family bits -> 0 <= v < 2 ^ bits -> ip_ok (interval_addr v bits).
Proof.
  intros [-> | ->] Hv; unfold interval_addr, ip_ok; cbn [Z.eqb Pos.eqb ip_value ip_width]; [|done].
  by rewrite Z.mod_small.
Qed.

Lemma interval_addr_width v bits : family bits -> ip_width (interval_addr v bits) = bits.
Proof. by intros [-> | ->]. Qed.

Lemma interval_addr_value v bits : family bits -> 0 <= v < 2 ^ bits -> ip_value (interval_addr v bits) = v.
Proof. intros [-> | ->] Hv; unfold interval_addr; cbn [Z.eqb Pos.eqb ip_value]; [|done]. by rewrite Z.mod_small. Qed.

Lemma tiles_bounds bits start end_ l b : tiles bits start end_ l -> b ∈ l -> start <= b.1 /\ block_end bits b <= end_ /\ 0 <= b.2 <= bits.
Proof.
  induction 1 as [|start end_ p l Hp Hd He Ht IH]; [by intros []%elem_of_nil|].
  assert (0 < 2 ^ (bits - p)) by (apply Z.pow_pos_nonneg; lia).
  intros [-> |Hb]%elem_of_cons; [simpl; lia|]. apply IH in Hb. lia.
Qed.

Section texts.
Context `{IpNetLaws}.

Lemma net_show_prefix n : net_show n = show_prefix (net_addr n) (net_prefix_len n).
Proof. unfold show_prefix. by rewrite net_show_eq, address_text_show. Qed.

Lemma net_prefix_ok n : prefix_ok (net_addr n) (net_prefix_len n).
Proof. split; [apply net_addr_ok|apply net_prefix_len_range]. Qed.

Lemma net_new_ok ip bits : prefix_ok ip bits -> exists n, net_new ip bits = Some n /\ net_addr n = ip /\ net_prefix_len n = bits.
Proof. intros [Hok Hb]. by apply net_new_Some. Qed.

(** The text of a network parses to that network. *)
Lemma parse_ip_net_show n : parse_ip_net (net_show n) = Some n.
Proof.
  unfold parse_ip_net, parse_prefix_net. rewrite net_show_prefix. rewrite bool_decide_true.
  - rewrite parse_print_prefix by apply net_prefix_ok.
    destruct (net_new_ok _ _ (net_prefix_ok n)) as (m & -> & Ha & Hl). f_equal. by apply net_ext.
  - unfold show_prefix. rewrite !to_chars_app. set_solver.
Qed.

Definition block_text (bits : Z) (b : Z * Z) : string := show_prefix (interval_addr b.1 bits) b.2.

Lemma interval_prefix_string_text bits b :
  family bits -> 0 <= b.1 < 2 ^ bits -> 0 <= b.2 <= bits ->
  interval_prefix_string b.1 bits b.2 = Some (block_text bits b).
Proof.
  intros Hf Hv Hp. unfold interval_prefix_string, block_text.
  destruct (net_new_ok (interval_addr b.1 bits) b.2) as (n & -> & Ha & Hl).
  { split; [by apply interval_addr_ok|]. by rewrite interval_addr_width. }
  cbn [fmap option_fmap option_map]. by rewrite net_show_prefix, Ha, Hl.
Qed.

Lemma block_text_parse bits b :
  family bits -> 0 <= b.1 < 2 ^ bits -> 0 <= b.2 <= bits ->
  parse_prefix (block_text bits b) = Ok (interval_addr b.1 bits, b.2).
Proof.
  intros Hf Hv Hp. apply parse_print_prefix. split; [by apply interval_addr_ok|]. by rewrite interval_addr_width.
Qed.

(** No block makes [expect] panic. *)
Lemma cidrs_texts start end_ bits :
  interval_ok start end_ bits ->
  cidrs_for_interval start end_ bits = Some (map (block_text bits) (cidr_blocks start end_ bits)).
Proof.
  intros Hok. pose proof (cidr_blocks_tiles start end_ bits Hok) as Ht. destruct Hok as (Hf & Hs & He).
  unfold cidrs_for_interval, cidr_blocks in *. destruct (whole_v6 start end_ bits) eqn:Hw.
  - unfold whole_v6 in Hw. rewrite !andb_true_iff, !Z.eqb_eq in Hw. destruct Hw as [[-> _] _].
    cbn [map]. do 2 f_equal.
  - assert (forall b, b ∈ cidr_loop (cidr_fuel bits) start end_ bits ->
      interval_prefix_string b.1 bits b.2 = Some (block_text bits b)) as Hb.
    { intros b Hb. destruct (tiles_bounds _ _ _ _ _ Ht Hb) as (H1 & H2 & H3). unfold block_end in H2.
      assert (0 < 2 ^ (bits - b.2)) by (apply Z.pow_pos_nonneg; lia).
      apply interval_prefix_string_text; [done|lia|done]. }
    clear Ht. induction (cidr_loop (cidr_fuel bits) start end_ bits) as [|b l IH]; [done|].
    cbn [mapM map]. rewrite Hb by set_solver. cbn [mbind option_bind]. rewrite IH by set_solver. done.
Qed.

(** What an interval of a network holds. *)
Lemma ipnet_interval_eq n :
  ipnet_interval n =
  (ip_width (net_addr n), ip_value (net_network n), ip_value (net_broadcast n)).
Proof.
  unfold ipnet_interval, net_is_v4. rewrite net_network_eq, net_broadcast_eq. cbv zeta. rewrite !ip_with_value_value.
  unfold net_block. pose proof (net_addr_ok n) as Hok. unfold ip_ok in Hok. destruct (net_addr n) as [a|a]; cbn [is_v4 ip_width ip_value] in *; [done|].
  destruct (Z.eqb_spec (net_prefix_len n) 0) as [-> |]; [|done].
  change (128 - 0) with 128. rewrite Z.div_small by lia. done.
Qed.

Lemma net_contains_interval n ip :
  Bool.eqb (net_is_v4 n) (is_v4 ip) && net_contains n ip = true <->
  let '(w, s, e) := ipnet_interval n in ip_width ip = w /\ s <= ip_value ip <= e.
Proof.
  rewrite ipnet_interval_eq, andb_true_iff, Bool.eqb_true_iff, net_contains_spec. unfold net_is_v4.
  destruct ip, (net_addr n); cbn [is_v4 ip_width]; split; intros Hx; repeat destruct Hx as [? Hx]; try done; try lia; split_and!; done || lia.
Qed.

Lemma net_contains_addr_spec n addr :
  net_contains_addr n addr = true <->
  exists ip, parse_addr addr = Ok (ip, None) /\
    let '(w, s, e) := ipnet_interval n in ip_width ip = w /\ s <= ip_value ip <= e.
Proof.
  unfold net_contains_addr. destruct (parse_addr addr) as [[ip [z|]]|].
  - split; [done|]. by intros (ip' & [=] & _).
  - rewrite net_contains_interval. split; [by exists ip|]. by intros (ip' & [= <-] & Hc).
  - split; [done|]. by intros (ip' & [=] & _).
Qed.

(** Membership of an address in a printed block. *)
Lemma block_contains bits b addr :
  family bits -> 0 <= b.1 < 2 ^ bits -> 0 <= b.2 <= bits -> (2 ^ (bits - b.2) | b.1) ->
  prefix_contains_addr (block_text bits b) addr = true <->
  exists ip, parse_addr addr = Ok (ip, None) /\ ip_width ip = bits /\ b.1 <= ip_value ip <= block_end bits b.
Proof.
  intros Hf Hv Hp Hd. destruct (net_new_ok (interval_addr b.1 bits) b.2) as (n & _ & Ha & Hl).
  { split; [by apply interval_addr_ok|]. by rewrite interval_addr_width. }
  replace (block_text bits b) with (net_show n) by (by rewrite net_show_prefix, Ha, Hl).
  unfold prefix_contains_addr. rewrite parse_ip_net_show, net_contains_addr_spec, ipnet_interval_eq.
  rewrite net_network_eq, net_broadcast_eq. cbv zeta. rewrite !ip_with_value_value, Ha, Hl.
  unfold net_block. rewrite interval_addr_width, interval_addr_value by done.
  assert (0 < 2 ^ (bits - b.2)) by (apply Z.pow_pos_nonneg; lia).
  assert (b.1 / 2 ^ (bits - b.2) * 2 ^ (bits - b.2) = b.1) as -> by (destruct Hd as [q ->]; by rewrite Z.div_mul by lia).
  done.
Qed.

Lemma tiles_aligned bits start end_ l b : tiles bits start end_ l -> b ∈ l -> (2 ^ (bits - b.2) | b.1).
Proof. induction 1 as [|start end_ p l Hp Hd He Ht IH]; [by intros []%elem_of_nil|]. by intros [-> |Hb]%elem_of_cons; [|apply IH]. Qed.

(** An address is in one of the printed blocks of an interval exactly when it is
    in the interval. *)
Lemma cidrs_contain start end_ bits addr :
  interval_ok start end_ bits ->
  (exists t, t ∈ map (block_text bits) (cidr_blocks start end_ bits) /\ prefix_contains_addr t addr = true) <->
  exists ip, parse_addr addr = Ok (ip, None) /\ ip_width ip = bits /\ start <= ip_value ip <= end_.
Proof.
  intros Hok. pose proof (cidr_blocks_tiles start end_ bits Hok) as Ht. pose proof Hok as (Hf & Hs & He).
  assert (forall b, b ∈ cidr_blocks start end_ bits ->
    prefix_contains_addr (block_text bits b) addr = true <->
    exists ip, parse_addr addr = Ok (ip, None) /\ ip_width ip = bits /\ b.1 <= ip_value ip <= block_end bits b) as Hb.
  { intros b Hb. destruct (tiles_bounds _ _ _ _ _ Ht Hb) as (H1 & H2 & H3). unfold block_end in H2.
    assert (0 < 2 ^ (bits - b.2)) by (apply Z.pow_pos_nonneg; lia).
    apply block_contains; [done|lia|done|by eapply tiles_aligned]. }
  split.
  - intros (t & Hin & Hc). apply list_elem_of_In, List.in_map_iff in Hin as (b & <- & Hin%list_elem_of_In).
    apply Hb in Hc as (ip & Hp & Hw & Hx); [|done]. exists ip. split_and!; [done|done|..]; apply (tiles_member _ _ _ _ _ Ht); eauto.
  - intros (ip & Hp & Hw & Hx). apply (tiles_member _ _ _ _ _ Ht) in Hx as (b & Hin & Hx).
    exists (block_text bits b). split; [apply list_elem_of_In, List.in_map_iff; exists b; split; [done|by apply list_elem_of_In]|].
    apply Hb; [done|]. by exists ip.
Qed.

(** C23. Cutting an interval into CIDR blocks is exact and never panics: the texts
    are those of aligned blocks that follow each other without gap or overlap from
    the first to the last address, each text parses back to its block, and the
    blocks hold exactly the addresses of the interval. *)
Theorem cidrs_for_interval_exact start end_ bits :
  interval_ok start end_ bits ->
  let blocks := cidr_blocks start end_ bits in
  cidrs_for_interval start end_ bits = Some (map (block_text bits) blocks) /\
  tiles bits start end_ blocks /\
  (forall b, b ∈ blocks -> parse_prefix (block_text bits b) = Ok (interval_addr b.1 bits, b.2)) /\
  (forall x, start <= x <= end_ <-> exists b, b ∈ blocks /\ b.1 <= x <= block_end bits b).
Proof.
  intros Hok. cbv zeta. pose proof (cidr_blocks_tiles start end_ bits Hok) as Ht. pose proof Hok as (Hf & Hs & He).
  split_and!; [by apply cidrs_texts|done| |].
  - intros b Hb. destruct (tiles_bounds _ _ _ _ _ Ht Hb) as (H1 & H2 & H3). unfold block_end in H2.
    assert (0 < 2 ^ (bits - b.2)) by (apply Z.pow_pos_nonneg; lia). apply block_text_parse; [done|lia|done].
  - intros x. by apply tiles_member.
Qed.

Lemma prefix_contains_none ipset addr : parse_ip_net ipset = None -> prefix_contains_addr ipset addr = false.
Proof. unfold prefix_contains_addr. by intros ->. Qed.

(** An empty range has no blocks. *)
Lemma cidrs_empty start end_ bits : family bits -> 0 <= end_ < start -> cidrs_for_interval start end_ bits = Some [].
Proof.
  intros Hf Hlt. unfold cidrs_for_interval. rewrite whole_v6_pos by lia. unfold cidr_fuel.
  replace (2 * Z.to_nat bits + 2)%nat with (S (2 * Z.to_nat bits + 1)) by lia. cbn [cidr_loop].
  by rewrite (proj2 (Z.leb_gt start end_)) by lia.
Qed.

(** The blocks of the range from [a] to [b] hold what lies between them. *)
Lemma range_cidrs a b bits addr :
  family bits -> 0 <= a < 2 ^ bits -> 0 <= b < 2 ^ bits ->
  (exists texts t, cidrs_for_interval a b bits = Some texts /\ t ∈ texts /\ prefix_contains_addr t addr = true) <->
  exists ip, parse_addr addr = Ok (ip, None) /\ ip_width ip = bits /\ a <= ip_value ip <= b.
Proof.
  intros Hf Ha Hb. destruct (Z.le_gt_cases a b) as [Hle|Hgt].
  - assert (interval_ok a b bits) as Hok by (split_and!; [done|lia|lia|lia]).
    rewrite <-(cidrs_contain a b bits addr Hok), (cidrs_texts a b bits Hok). split.
    + intros (texts & t & [= <-] & Ht). by exists t.
    + intros (t & Ht). eauto.
  - rewrite cidrs_empty by (done || lia). split.
    + intros (texts & t & [= <-] & Ht & _). by apply elem_of_nil in Ht.
    + intros (ip & _ & _ & Hx). lia.
Qed.

(** Without a zone, an address or prefix is not also a range. *)
Lemma parse_ip_net_no_range ipset n :
  parse_ip_net ipset = Some n -> "%"%char ∉ to_chars ipset -> split_once "-" (to_chars ipset) = None.
Proof.
  unfold parse_ip_net, parse_prefix_net. intros Hn Hz. apply split_once_none. case_bool_decide.
  - destruct (parse_prefix ipset) as [p|] eqn:Hp; [|done]. by apply parse_prefix_plain in Hp.
  - unfold parse_addr in Hn. destruct (parse_address (to_chars ipset)) as [[ip [z|]]|] eqn:Ha; [| |done].
    + exfalso. unfold parse_address in Ha. destruct (address_kind _); [|done].
      destruct (Ascii.eqb _ "."); [by destruct (ipv4_fields _ _)|]. destruct (Ascii.eqb _ ":"); [|done].
      unfold ipv6_address in Ha. rewrite split_once_none in Ha by done. by destruct (ipv6_body _ _).
    + by apply parse_address_plain in Ha.
Qed.

Lemma parse_addr_range s ip z : parse_addr s = Ok (ip, z) -> 0 <= ip_value ip < 2 ^ ip_width ip.
Proof. intros Hp. by apply parse_addr_ok in Hp as [Hok _]. Qed.

Lemma range_ends_ok ipset a b : range_ends ipset = Some (a, b) -> ip_ok a /\ ip_ok b.
Proof.
  unfold range_ends. destruct (split_once _ _) as [[x y]|]; [|done].
  destruct (parse_addr (of_chars x)) as [[a' za]|] eqn:Ea; [|done].
  destruct (parse_addr (of_chars y)) as [[b' zb]|] eqn:Eb; [|done]. intros [= <- <-].
  split; by eapply parse_addr_range.
Qed.

(** The two readings of an address set agree: an address matches a set text
    (an address, a prefix or a range, without a zone) exactly when it matches one
    of the CIDR blocks that text is turned into. *)
Theorem ipset_string_readings_agree ipset addr :
  "%"%char ∉ to_chars ipset ->
  ipset_string_contains_addr ipset addr = true <->
  exists texts t, ipset_string_to_cidrs ipset = Some texts /\ t ∈ texts /\ prefix_contains_addr t addr = true.
Proof.
  intros Hz. unfold ipset_string_contains_addr, ipset_string_to_cidrs. destruct (parse_ip_net ipset) as [n|] eqn:En.
  - rewrite (parse_ip_net_no_range _ _ En Hz).
    assert (prefix_contains_addr (net_show n) addr = prefix_contains_addr ipset addr) as Eshow.
    { unfold prefix_contains_addr. by rewrite parse_ip_net_show, En. }
    split.
    + destruct (prefix_contains_addr ipset addr); [|done]. intros _. exists [net_show n], (net_show n). set_solver.
    + intros (texts & t & [= <-] & Ht & Hc). apply list_elem_of_singleton in Ht as ->. by rewrite Eshow in Hc; rewrite Hc.
  - rewrite prefix_contains_none by done.
    assert (exists d, split_once "-" (to_chars ipset) = d) as [d Ed] by eauto. rewrite Ed.
    destruct (range_ends ipset) as [[a b]|] eqn:Er.
    + destruct d as [d|]; [|unfold range_ends in Er; by rewrite Ed in Er].
      destruct (range_ends_ok _ _ _ Er) as [Ha Hb]. unfold ip_ok in *.
      destruct a as [a|a], b as [b|b]; cbn [ip_value ip_width] in *.
      * rewrite range_cidrs by (by left || lia).
        destruct (parse_addr addr) as [[[x|x] [z|]]|];
          (split; [|intros (ip & [= <-] & [=] & Hx)]); try done; rewrite ?andb_true_iff, ?Z.leb_le; [|exact Hx]. eauto 10.
      * split; [by destruct (parse_addr addr) as [[[] []]|]|]. intros (texts & t & [= <-] & Ht & _). by apply elem_of_nil in Ht.
      * split; [by destruct (parse_addr addr) as [[[] []]|]|]. intros (texts & t & [= <-] & Ht & _). by apply elem_of_nil in Ht.
      * rewrite range_cidrs by (by right || lia).
        destruct (parse_addr addr) as [[[x|x] [z|]]|];
          (split; [|intros (ip & [= <-] & [=] & Hx)]); try done; rewrite ?andb_true_iff, ?Z.leb_le; [|exact Hx]. eauto 10.
    + split; [by destruct d, (parse_addr addr) as [[[] []]|]|].
      intros (texts & t & [= <-] & Ht & _). by apply elem_of_nil in Ht.
Qed.
End texts.

(** ** Instances of the theorems *)

Module IntervalExamples.
Import PrefixNet.

Lemma cidrs_for_interval_exact_witness :
  let blocks := cidr_blocks 0x0a000001 0x0a000006 32 in
  blocks = [(0x0a000001, 32); (0x0a000002, 31); (0x0a000004, 31); (0x0a000006, 32)] /\
  cidrs_for_interval 0x0a000001 0x0a000006 32 = Some (map (block_text 32) blocks) /\
  tiles 32 0x0a000001 0x0a000006 blocks /\
  (forall b, b ∈ blocks -> parse_prefix (block_text 32 b) = Ok (interval_addr b.1 32, b.2)) /\
  (forall x, 0x0a000001 <= x <= 0x0a000006 <-> exists b, b ∈ blocks /\ b.1 <= x <= block_end 32 b).
Proof.
  split; [vm_compute; reflexivity|]. apply cidrs_for_interval_exact. split; [left; reflexivity|lia].
Defined.

Lemma ipset_string_readings_agree_witness :
  ipset_string_contains_addr "10.0.0.1-10.0.0.6" "10.0.0.5" = true <->
  exists texts t, ipset_string_to_cidrs "10.0.0.1-10.0.0.6" = Some texts /\ t ∈ texts /\
    prefix_contains_addr t "10.0.0.5" = true.
Proof. apply ipset_string_readings_agree. apply (bool_decide_unpack _). vm_compute. exact I. Defined.

Example texts_of_range :
  cidrs_for_interval 0x0a000001 0x0a000006 32 =
  Some ["10.0.0.1/32"; "10.0.0.2/31"; "10.0.0.4/31"; "10.0.0.6/32"]%string.
Proof. vm_compute. reflexivity. Qed.

(** With a zone the two readings can differ. *)
Example zoned_texts_disagree :
  ipset_string_contains_addr "fe80::1%a-fe80::5" "fe80::3" = true /\
  ipset_string_to_cidrs "fe80::1%a-fe80::5" = Some ["fe80::1/128"%string].
Proof. split; vm_compute; reflexivity. Qed.

End IntervalExamples.
