(* ===== verification/IpSet.v ===== *)
(** * IpSet: address sets and rule matchers (headscale-api/src/policy/matcher.rs)

    Which peers a policy lets a node see.  A set of addresses is a list of spans
    [(width, start, end)], IPv4 before IPv6, merged so that no two touch.  The
    theorems show that merging gives the one normal form of a set, that the
    two-pointer walks [intersects] and [first_not_in] decide intersection and
    inclusion, that the printed set is read back to the same set, and what a rule
    matcher accepts in terms of addresses. *)

From S2P Require Import Prelude Bytes Net GoNetip Policy Intervals.
From stdpp Require Import base list gmap strings sets.
From Stdlib Require Import ZArith Lia Ascii Sorted.

Open Scope Z_scope.
Open Scope rust_scope.

Definition Span : Type := Z * Z * Z.
Definition IpSet : Type := list Span.

Definition address_span (ip : IpAddr) : Span :=
  match ip with V4 a => (32, a, a) | V6 a => (128, a, a) end.

(** [Ord] of the tuples. *)
Definition span_cmp (a b : Span) : comparison :=
  let '(f, s, e) := a in let '(f', s', e') := b in
  then_with (then_with (Z.compare f f') (Z.compare s s')) (Z.compare e e').

(** The merging loop: [cur] is the span pushed last ([merged.last_mut()]), which
    absorbs the spans that touch it. *)
Fixpoint merge_from (cur : Span) (spans : list Span) : IpSet :=
  match spans with
  | [] => [cur]
  | (family, start, end_) :: rest =>
      let '(f, s, e) := cur in
      if (f =? family) && (start <=? saturating_add 128 e 1) then merge_from (f, s, Z.max e end_) rest
      else cur :: merge_from (family, start, end_) rest
  end.

Definition from_spans (spans : list Span) : IpSet :=
  match sort_by span_cmp spans with
  | [] => []
  | span :: rest => merge_from span rest
  end.

Definition union (a b : IpSet) : IpSet := from_spans (a ++ b).

Definition every_address : list Span := [(32, 0, u_max 32); (128, 0, u_max 128)].

Section parsing.
Context `{IpNetLib}.

Definition prefix_span (value : string) : option Span :=
  match parse_prefix value with
  | Ok (ip, bits) => ipnet_interval <$> net_new ip bits
  | Err _ => None
  end.

(** The spans a value of [from_strings] pushes; [None] is a panic. *)
Definition string_spans (value : string) : option (list Span) :=
  if bool_decide (value = "*"%string) then Some every_address
  else match ipset_string_to_cidrs value with
       | Some texts => Some (omap prefix_span texts)
       | None => None
       end.

Definition from_strings (values : list string) : option IpSet :=
  match mapM string_spans values with Some l => Some (from_spans (concat l)) | None => None end.

Definition count_dashes (value : string) : nat := length (List.filter (Ascii.eqb "-") (to_chars value)).

Definition from_filter_string (value : string) : option IpSet :=
  if bool_decide (value = "*"%string) then Some every_address
  else if bool_decide ("/"%char ∈ to_chars value) then
    match parse_prefix value with
    | Err _ => None
    | Ok (ip, bits) =>
        match net_new ip bits with
        | None => None
        | Some prefix => if bool_decide (net_addr prefix = net_network prefix) then Some [ipnet_interval prefix] else None
        end
    end
  else if (count_dashes value =? 1)%nat then
    match range_ends value with
    | None => None
    | Some (start, end_) =>
        let '(family, start, _) := address_span start in
        let '(end_family, end_, _) := address_span end_ in
        if negb (family =? end_family) || (end_ <? start) then None else Some [(family, start, end_)]
    end
  else match parse_addr value with Ok (ip, _) => Some [address_span ip] | Err _ => None end.

Definition from_filter_strings (values : list string) : IpSet :=
  from_spans (concat (omap from_filter_string values)).

Definition from_prefix_strings (values : list string) : IpSet := from_spans (omap prefix_span values).

Definition prefixes (set : IpSet) : option (list string) :=
  match mapM (fun '(family, start, end_) => cidrs_for_interval start end_ family) set with
  | Some l => Some (concat l)
  | None => None
  end.

Definition strings (set : IpSet) : option (list string) :=
  mapM (fun '(family, start, end_) => interval_ipset_string start end_ family) set.

Definition contains_ip (set : IpSet) (address : string) : bool :=
  match parse_addr address with
  | Ok (ip, None) =>
      let '(family, address, _) := address_span ip in
      existsb (fun '(bits, start, end_) => (bits =? family) && (start <=? address) && (address <=? end_)) set
  | _ => false
  end.

Definition overlaps_prefix (set : IpSet) (prefix : string) : bool :=
  match prefix_span prefix with
  | None => false
  | Some (family, start, end_) =>
      existsb (fun '(bits, lo, hi) => (bits =? family) && (start <=? hi) && (lo <=? end_)) set
  end.

Definition contains_prefix (set : IpSet) (prefix : string) : bool :=
  match prefix_span prefix with
  | None => false
  | Some (family, start, end_) =>
      existsb (fun '(bits, lo, hi) => (bits =? family) && (lo <=? start) && (end_ <=? hi)) set
  end.
End parsing.

(** The two-pointer walk: the suffixes that [left] and [right] point to. *)
Fixpoint intersects (a : IpSet) : IpSet -> bool :=
  fix go (b : IpSet) : bool :=
    match a, b with
    | (family, start, end_) :: a', (bits, lo, hi) :: b' =>
        if (family <? bits) || ((family =? bits) && (end_ <? lo)) then intersects a' b
        else if (bits <? family) || (hi <? start) then go b'
        else true
    | _, _ => false
    end.

(** The inner loop of [first_not_in] for one span, from [next] on: the uncovered
    address, or the suffix of [other] that [right] points to when it breaks. *)
Fixpoint cover_span (family next end_ : Z) (other : IpSet) : result IpSet Z :=
  match other with
  | [] => Err next
  | (bits, lo, hi) :: rest =>
      if (bits <? family) || ((bits =? family) && (hi <? next)) then cover_span family next end_ rest
      else if (family <? bits) || (next <? lo) then Err next
      else if end_ <=? hi then Ok other
      else cover_span family (hi + 1) end_ rest
  end.

Fixpoint first_uncovered (set other : IpSet) : option (Z * Z) :=
  match set with
  | [] => None
  | (family, start, end_) :: rest =>
      match cover_span family start end_ other with
      | Err next => Some (family, next)
      | Ok other => first_uncovered rest other
      end
  end.

Definition address_string (family address : Z) : string :=
  if family =? 32 then show_ip (V4 (address `mod` 2 ^ 32)) else show_ip (V6 address).

Definition first_not_in (set other : IpSet) : option string :=
  (fun p => address_string p.1 p.2) <$> first_uncovered set other.

(** ** Rule matchers *)

Definition is_exit (route : string) : bool :=
  bool_decide (route = "0.0.0.0/0"%string) || bool_decide (route = "::/0"%string).

Record PacketFilterNode := mkFilterNode {
  fn_id : Z;
  fn_user_id : option Z;
  fn_user : option string;
  fn_addrs : list string;
  fn_tags : list string;
  fn_routes : list string;
}.

Record PortRange := mkPortRange { pr_first : Z; pr_last : Z }.
Record NetPortRange := mkNetPortRange { np_ip : string; np_bits : option Z; np_ports : PortRange }.

(** The capability map is carried along and never read here. *)
Record CapGrant (Value : Type) := mkCapGrant {
  cg_dsts : list string;
  cg_caps : list string;
  cg_cap_map : gmap string (option (list Value));
}.
Arguments cg_dsts {Value}.

Record FilterRule (Value : Type) := mkFilterRule {
  fr_src_ips : list string;
  fr_src_bits : list Z;
  fr_dst_ports : list NetPortRange;
  fr_ip_proto : list Z;
  fr_cap_grant : list (CapGrant Value);
}.
Arguments fr_src_ips {Value}.
Arguments fr_dst_ports {Value}.
Arguments fr_cap_grant {Value}.

Record RuleMatcher := mkMatcher { rm_sources : IpSet; rm_destinations : IpSet; rm_internet : bool }.

Section matchers.
Context `{IpNetLib} {Value : Type}.

Definition contains_node (set : IpSet) (node : PacketFilterNode) : bool :=
  existsb (contains_ip set) (fn_addrs node).

Definition contains_view (set : IpSet) (node : NodeView) : bool :=
  existsb (contains_ip set) (view_addrs node ++ match view_addr node with Some a => [a] | None => [] end).

Definition overlaps_subnets (set : IpSet) (node : PacketFilterNode) : bool :=
  existsb (overlaps_prefix set) (List.filter (fun route => negb (is_exit route)) (fn_routes node)).

Definition from_rule (rule : FilterRule Value) : RuleMatcher :=
  let sources := from_filter_strings (fr_src_ips rule) in
  let destinations := union (from_filter_strings (map np_ip (fr_dst_ports rule)))
                            (from_prefix_strings (flat_map cg_dsts (fr_cap_grant rule))) in
  mkMatcher sources destinations
    (contains_prefix destinations "0.0.0.0/0" || contains_prefix destinations "::/0"
     || forallb (contains_prefix destinations) internet_filter_cidrs).

Definition from_rules (rules : list (FilterRule Value)) : list RuleMatcher := map from_rule rules.

Definition can_access (matchers : list RuleMatcher) (source target : PacketFilterNode) : bool :=
  existsb (fun m =>
    (contains_node (rm_sources m) source || overlaps_subnets (rm_sources m) source)
    && (contains_node (rm_destinations m) target || overlaps_subnets (rm_destinations m) target
        || (rm_internet m && existsb is_exit (fn_routes target)))) matchers.

Definition can_access_route (matchers : list RuleMatcher) (source : PacketFilterNode) (route : string) : bool :=
  existsb (fun m =>
    (contains_node (rm_sources m) source && overlaps_prefix (rm_destinations m) route)
    || (overlaps_prefix (rm_sources m) route && contains_node (rm_destinations m) source)
    || (overlaps_subnets (rm_sources m) source && overlaps_prefix (rm_destinations m) route)
    || (overlaps_prefix (rm_sources m) route && overlaps_subnets (rm_destinations m) source)) matchers.
End matchers.

(** ** What a set holds *)

Definition in_span (sp : Span) (f x : Z) : Prop := f = sp.1.1 /\ sp.1.2 <= x <= sp.2.

Definition in_set (set : IpSet) (f x : Z) : Prop := exists sp, sp ∈ set /\ in_span sp f x.

Definition span_ok (sp : Span) : Prop := interval_ok sp.1.2 sp.2 sp.1.1.

(** The later span starts beyond the address after the earlier one. *)
Definition gap (a b : Span) : Prop := a.1.1 < b.1.1 \/ (a.1.1 = b.1.1 /\ a.2 + 1 < b.1.2).

(** The normal form: sorted spans no two of which touch. *)
Definition normal (set : IpSet) : Prop := StronglySorted gap set /\ Forall span_ok set.

Lemma in_set_nil f x : ~ in_set [] f x.
Proof. intros (sp & Hsp & _). by apply elem_of_nil in Hsp. Qed.

Lemma in_set_cons sp l f x : in_set (sp :: l) f x <-> in_span sp f x \/ in_set l f x.
Proof.
  unfold in_set. split.
  - intros (q & [-> |Hq]%elem_of_cons & Hx); [by left|right; eauto].
  - intros [Hx|(q & Hq & Hx)]; [exists sp; set_solver|exists q; set_solver].
Qed.

Lemma in_set_app a b f x : in_set (a ++ b) f x <-> in_set a f x \/ in_set b f x.
Proof. induction a as [|sp a IH]; cbn [app]; [|rewrite !in_set_cons, IH]; [|tauto]. pose proof (in_set_nil f x). tauto. Qed.

Lemma normal_cons sp l : normal (sp :: l) <-> span_ok sp /\ normal l /\ Forall (gap sp) l.
Proof.
  unfold normal. rewrite Forall_cons. split.
  - intros [[Hs Hg]%StronglySorted_inv [Hsp Hok]]. done.
  - intros (Hsp & [Hs Hok] & Hg). split; [by constructor|done].
Qed.

(** Everything in a later part of a normal set lies beyond its head. *)
Lemma beyond_head sp l f x :
  Forall (gap sp) l -> in_set l f x -> sp.1.1 < f \/ (sp.1.1 = f /\ sp.2 + 1 < x).
Proof.
  intros Hg (q & Hq & -> & Hx). rewrite Forall_forall in Hg. destruct (Hg q Hq) as [|[]]; [by left|right; lia].
Qed.

(** ** Merging *)

#[export] Instance span_cmp_total : TotalCmp span_cmp.
Proof.
  pose proof (then_with_total _ _ (then_with_total _ _
    (on_key_total Z.compare (fun k : Span => k.1.1) _) (on_key_total Z.compare (fun k : Span => k.1.2) _))
    (on_key_total Z.compare (fun k : Span => k.2) _)) as T.
  split.
  - intros [[f s] e] [[f' s'] e']. apply (cmp_opp (TotalCmp := T) (f, s, e) (f', s', e')).
  - intros [[f s] e] [[f' s'] e'] [[f'' s''] e''].
    apply (cmp_le_trans (TotalCmp := T) (f, s, e) (f', s', e') (f'', s'', e'')).
Qed.

(** The order of the starts. *)
Definition start_le (a b : Span) : Prop := a.1.1 < b.1.1 \/ (a.1.1 = b.1.1 /\ a.1.2 <= b.1.2).

Lemma span_cmp_start a b : span_cmp a b <> Gt -> start_le a b.
Proof.
  destruct a as [[f s] e], b as [[f' s'] e']. unfold span_cmp, start_le. cbn [fst snd].
  destruct (Z.compare_spec f f'), (Z.compare_spec s s'); cbn [then_with]; try done; intros _; lia.
Qed.

Lemma merge_from_spec l : forall cur,
  span_ok cur -> Forall span_ok l -> StronglySorted start_le l -> Forall (start_le cur) l ->
  normal (merge_from cur l) /\ (forall f x, in_set (merge_from cur l) f x <-> in_set (cur :: l) f x) /\
  exists e rest, merge_from cur l = (cur.1, e) :: rest.
Proof.
  induction l as [|sp l IH]; intros cur Hcur Hok Hs Hle; cbn [merge_from].
  - split_and!; [apply normal_cons; split_and!; [done|split; constructor|constructor]|done|].
    exists cur.2, []. by destruct cur.
  - apply Forall_cons in Hok as [Hsp Hok]. apply StronglySorted_inv in Hs as [Hs Hsl].
    apply Forall_cons in Hle as [Hcs Hle].
    destruct sp as [[f' s'] e'], cur as [[f s] e]. unfold span_ok, interval_ok, start_le in Hcur, Hsp, Hcs. cbn [fst snd] in *.
    assert (2 ^ f <= 2 ^ 128) by (destruct Hcur as [[-> | ->] _]; lia).
    destruct (Z.eqb_spec f f') as [<- |Hff]; cbn [andb].
    2: { destruct (IH (f', s', e')) as (Hn & Hm & e1 & rest & E); [done|done|done|done|].
         split_and!.
         - apply normal_cons. split_and!; [done|done|]. rewrite E in *. apply normal_cons in Hn as (Hh & _ & Hg).
           constructor; [left; simpl; lia|]. eapply Forall_impl; [exact Hg|]. intros q [Hq|[Hq _]]; left; simpl in *; lia.
         - intros g x. rewrite in_set_cons, Hm, (in_set_cons (f, s, e)). done.
         - by exists e, (merge_from (f', s', e') l). }
    unfold saturating_add, u_max. destruct (Z.leb_spec s' (Z.min (e + 1) (2 ^ 128 - 1))) as [Ht|Ht].
    + destruct (IH (f, s, Z.max e e')) as (Hn & Hm & e1 & rest & E).
      * unfold span_ok, interval_ok. simpl. split_and!; [by destruct Hcur|lia|lia|lia].
      * done.
      * done.
      * done.
      * split_and!; [done| |by exists e1, rest]. intros g x. rewrite Hm, !in_set_cons. unfold in_span. cbn [fst snd].
        assert (s <= x <= Z.max e e' <-> s <= x <= e \/ s' <= x <= e') by lia. tauto.
    + destruct (IH (f, s', e')) as (Hn & Hm & e1 & rest & E); [done|done|done|done|].
      split_and!.
      * apply normal_cons. split_and!; [done|done|]. rewrite E in *. apply normal_cons in Hn as (Hh & _ & Hg).
        unfold span_ok, interval_ok in Hh. cbn [fst snd] in Hh.
        constructor; [right; simpl; lia|]. eapply Forall_impl; [exact Hg|].
        intros q [Hq|[Hq Hq']]; [left|right]; simpl in *; lia.
      * intros g x. rewrite in_set_cons, Hm, (in_set_cons (f, s, e)). done.
      * by exists e, (merge_from (f, s', e') l).
Qed.

Lemma StronglySorted_impl {A} (R S : A -> A -> Prop) l :
  (forall a b, R a b -> S a b) -> StronglySorted R l -> StronglySorted S l.
Proof. intros HRS. induction 1 as [|x l _ IH Hx]; constructor; [done|]. eapply Forall_impl; [exact Hx|]. auto. Qed.

Lemma from_spans_ok spans :
  Forall span_ok spans ->
  normal (from_spans spans) /\ forall f x, in_set (from_spans spans) f x <-> in_set spans f x.
Proof.
  intros Hok. unfold from_spans.
  pose proof (sort_by_sorted span_cmp spans) as Hs. pose proof (sort_by_perm span_cmp spans) as Hp.
  assert (Forall span_ok (sort_by span_cmp spans)) as Hok' by (by rewrite Hp).
  assert (forall f x, in_set (sort_by span_cmp spans) f x <-> in_set spans f x) as Hm.
  { intros f x. unfold in_set. by setoid_rewrite sort_by_In. }
  destruct (sort_by span_cmp spans) as [|sp l]; [split; [split; constructor|done]|].
  apply (StronglySorted_impl _ start_le) in Hs; [|intros a b; apply span_cmp_start].
  apply StronglySorted_inv in Hs as [Hs Hle]. apply Forall_cons in Hok' as [Hsp Hok'].
  destruct (merge_from_spec l sp Hsp Hok' Hs Hle) as (Hn & Hmem & _). split; [done|].
  intros f x. by rewrite Hmem.
Qed.

(** ** One normal form per set *)

(** The first address of a normal set is the start of its head. *)
Lemma head_least sp l f x : normal (sp :: l) -> in_set (sp :: l) f x -> sp.1.1 < f \/ (sp.1.1 = f /\ sp.1.2 <= x).
Proof.
  intros (Hok & _ & Hg)%normal_cons [[-> Hx]|Hx]%in_set_cons; [right; lia|].
  destruct (beyond_head _ _ _ _ Hg Hx) as [|[]]; [by left|right]. destruct Hok as (_ & ? & _). lia.
Qed.

Lemma head_in sp l : span_ok sp -> in_set (sp :: l) sp.1.1 sp.1.2 /\ in_set (sp :: l) sp.1.1 sp.2.
Proof. intros (_ & ? & _). split; apply in_set_cons; left; split; done || lia. Qed.

Lemma normal_end_le sp l sp' l' :
  normal (sp :: l) -> normal (sp' :: l') -> sp.1 = sp'.1 ->
  (forall f x, in_set (sp' :: l') f x -> in_set (sp :: l) f x) -> sp'.2 <= sp.2.
Proof.
  intros (Hok & _ & Hg)%normal_cons (Hok' & _ & _)%normal_cons E Hsub.
  destruct (Z.le_gt_cases sp'.2 sp.2) as [|Hgt]; [done|]. exfalso.
  destruct Hok as (_ & ? & _), Hok' as (_ & ? & _). rewrite E in *.
  assert (in_set (sp :: l) sp'.1.1 (sp.2 + 1)) as Hin by (apply Hsub, in_set_cons; left; split; [done|lia]).
  apply in_set_cons in Hin as [[_ Hx]|Hx]; [lia|]. destruct (beyond_head _ _ _ _ Hg Hx) as [|[]]; rewrite E in *; lia.
Qed.

Lemma normal_unique a : forall b, normal a -> normal b -> (forall f x, in_set a f x <-> in_set b f x) -> a = b.
Proof.
  induction a as [|sp a IH]; intros [|sp' b] Ha Hb Hab; [done|..].
  - apply normal_cons in Hb as (Hok & _). destruct (head_in sp' b Hok) as [Hin _]. by apply Hab, in_set_nil in Hin.
  - apply normal_cons in Ha as (Hok & _). destruct (head_in sp a Hok) as [Hin _]. by apply Hab, in_set_nil in Hin.
  - pose proof (proj1 (normal_cons _ _) Ha) as (Hok & Hna & Hga). pose proof (proj1 (normal_cons _ _) Hb) as (Hok' & Hnb & Hgb).
    assert (sp.1 = sp'.1) as E1.
    { destruct (head_in sp a Hok) as [H1 _], (head_in sp' b Hok') as [H2 _].
      apply Hab, (head_least _ _ _ _ Hb) in H1. apply Hab, (head_least _ _ _ _ Ha) in H2.
      destruct sp as [[f s] e], sp' as [[f' s'] e']. cbn [fst snd] in *. f_equal; lia. }
    assert (sp = sp') as <-.
    { pose proof (normal_end_le sp a sp' b Ha Hb E1 ltac:(intros; by apply Hab)).
      pose proof (normal_end_le sp' b sp a Hb Ha ltac:(done) ltac:(intros; by apply Hab)).
      destruct sp as [p e], sp' as [p' e']. cbn [fst snd] in *. f_equal; [done|lia]. }
    f_equal. apply IH; [done|done|]. intros f x. split; intros Hx.
    + assert (in_set (sp :: b) f x) as Hin by (apply Hab, in_set_cons; by right).
      apply in_set_cons in Hin as [[-> Hin]|]; [|done]. destruct (beyond_head _ _ _ _ Hga Hx) as [|[]]; lia.
    + assert (in_set (sp :: a) f x) as Hin by (apply Hab, in_set_cons; by right).
      apply in_set_cons in Hin as [[-> Hin]|]; [|done]. destruct (beyond_head _ _ _ _ Hgb Hx) as [|[]]; lia.
Qed.

(** Merging spans is exact and canonical: the result is sorted, no two of its
    spans touch, it holds exactly the addresses of the input, and two inputs with
    the same addresses give the same set. *)
Theorem from_spans_canonical spans spans' :
  Forall span_ok spans -> Forall span_ok spans' ->
  normal (from_spans spans) /\
  (forall f x, in_set (from_spans spans) f x <-> in_set spans f x) /\
  ((forall f x, in_set spans f x <-> in_set spans' f x) <-> from_spans spans = from_spans spans').
Proof.
  intros Hok Hok'. destruct (from_spans_ok spans Hok) as [Hn Hm]. destruct (from_spans_ok spans' Hok') as [Hn' Hm'].
  split_and!; [done|done|]. split.
  - intros Hsame. apply normal_unique; [done|done|]. intros f x. by rewrite Hm, Hm'.
  - intros E f x. by rewrite <-Hm, <-Hm', E.
Qed.

(** ** The two walks *)

Lemma intersects_nil_r a : intersects a [] = false.
Proof. by destruct a as [|[[f s] e] a]. Qed.

Lemma intersects_cons f s e a b lo hi l :
  intersects ((f, s, e) :: a) ((b, lo, hi) :: l) =
  if (f <? b) || ((f =? b) && (e <? lo)) then intersects a ((b, lo, hi) :: l)
  else if (b <? f) || (hi <? s) then intersects ((f, s, e) :: a) l
  else true.
Proof. done. Qed.

(** A head that ends before the other set starts holds none of it. *)
Lemma head_disjoint sp q l f x :
  normal (q :: l) -> sp.1.1 < q.1.1 \/ (sp.1.1 = q.1.1 /\ sp.2 < q.1.2) -> in_span sp f x -> ~ in_set (q :: l) f x.
Proof. intros Hn Hlt [-> Hx] Hin. apply (head_least _ _ _ _ Hn) in Hin. lia. Qed.

(** The two-pointer walk decides whether two sets share an address. *)
Theorem intersects_spec a b :
  normal a -> normal b -> intersects a b = true <-> exists f x, in_set a f x /\ in_set b f x.
Proof.
  revert b. induction a as [|[[f s] e] a IHa]; intros b.
  { intros _ _. destruct b as [|sp b]; (split; [done|]); by intros (f & x & []%in_set_nil & _). }
  induction b as [|[[g lo] hi] b IHb]; intros Ha Hb.
  { rewrite intersects_nil_r. split; [done|]. by intros (h & x & _ & []%in_set_nil). }
  pose proof (proj1 (normal_cons _ _) Ha) as (Hok & Hna & Hga). pose proof (proj1 (normal_cons _ _) Hb) as (Hok' & Hnb & Hgb).
  rewrite intersects_cons.
  destruct ((f <? g) || ((f =? g) && (e <? lo)))%bool eqn:E1.
  - rewrite orb_true_iff, andb_true_iff, !Z.ltb_lt, Z.eqb_eq in E1. rewrite IHa by done. setoid_rewrite (in_set_cons (f, s, e)).
    split; [intros (h & x & Hx & Hy); eauto|]. intros (h & x & [Hx|Hx] & Hy); [|eauto].
    by destruct (head_disjoint (f, s, e) _ _ _ _ Hb E1 Hx).
  - rewrite orb_false_iff, andb_false_iff, !Z.ltb_ge, Z.eqb_neq in E1.
    destruct ((g <? f) || (hi <? s))%bool eqn:E2.
    + rewrite orb_true_iff, !Z.ltb_lt in E2. rewrite IHb by done. setoid_rewrite (in_set_cons (g, lo, hi)).
      split; [intros (h & x & Hx & Hy); eauto|]. intros (h & x & Hx & [Hy|Hy]); [|eauto].
      destruct (head_disjoint (g, lo, hi) _ _ _ _ Ha ltac:(simpl; lia) Hy Hx).
    + rewrite orb_false_iff, !Z.ltb_ge in E2. split; [intros _|done].
      destruct Hok as (_ & ? & _), Hok' as (_ & ? & _). cbn [fst snd] in *.
      exists f, (Z.max s lo). rewrite !in_set_cons. split; left; unfold in_span; simpl; lia.
Qed.

Lemma cover_span_spec other : forall f next end_,
  normal other -> next <= end_ ->
  match cover_span f next end_ other with
  | Ok rest => (forall x, next <= x <= end_ -> in_set other f x) /\
      exists pre, other = pre ++ rest /\ Forall (fun sp => sp.1.1 < f \/ (sp.1.1 = f /\ sp.2 < end_)) pre
  | Err y => next <= y <= end_ /\ ~ in_set other f y /\ forall x, next <= x < y -> in_set other f x
  end.
Proof.
  induction other as [|[[g lo] hi] other IH]; intros f next end_ Hn Hle; cbn [cover_span].
  { split_and!; [lia|lia|apply in_set_nil|lia]. }
  pose proof (proj1 (normal_cons _ _) Hn) as (Hok & Hno & Hg). destruct Hok as (_ & Hlh & _). cbn [fst snd] in Hlh.
  destruct ((g <? f) || ((g =? f) && (hi <? next)))%bool eqn:E1.
  - rewrite orb_true_iff, andb_true_iff, !Z.ltb_lt, Z.eqb_eq in E1. specialize (IH f next end_ Hno Hle).
    destruct (cover_span f next end_ other) as [rest|y].
    + destruct IH as (Hcov & pre & -> & Hpre). split.
      * intros x Hx. apply in_set_cons. right. by apply Hcov.
      * exists ((g, lo, hi) :: pre). split; [done|]. constructor; [simpl; lia|done].
    + destruct IH as (Hy & Hny & Hcov). split_and!; [lia|lia| |].
      * rewrite in_set_cons. unfold in_span. simpl. intros [|]; [lia|done].
      * intros x Hx. apply in_set_cons. right. by apply Hcov.
  - rewrite orb_false_iff, andb_false_iff, !Z.ltb_ge, Z.eqb_neq in E1.
    destruct ((f <? g) || (next <? lo))%bool eqn:E2.
    + rewrite orb_true_iff, !Z.ltb_lt in E2. split_and!; [lia|lia| |lia].
      intros Hin. apply (head_least _ _ _ _ Hn) in Hin. simpl in Hin. lia.
    + rewrite orb_false_iff, !Z.ltb_ge in E2. assert (g = f) as -> by lia.
      destruct (Z.leb_spec end_ hi) as [Hend|Hend].
      * split; [|by exists []]. intros x Hx. apply in_set_cons. left. split; [done|simpl; lia].
      * specialize (IH f (hi + 1) end_ Hno ltac:(lia)). destruct (cover_span f (hi + 1) end_ other) as [rest|y].
        -- destruct IH as (Hcov & pre & -> & Hpre). split.
           ++ intros x Hx. apply in_set_cons. destruct (Z.le_gt_cases x hi); [left; split; [done|simpl; lia]|right; apply Hcov; lia].
           ++ exists ((f, lo, hi) :: pre). split; [done|]. constructor; [simpl; lia|done].
        -- destruct IH as (Hy & Hny & Hcov). split_and!; [lia|lia| |].
           ++ rewrite in_set_cons. unfold in_span. simpl. intros [|]; [lia|done].
           ++ intros x Hx. apply in_set_cons. destruct (Z.le_gt_cases x hi); [left; split; [done|simpl; lia]|right; apply Hcov; lia].
Qed.

Lemma normal_app_r a b : normal (a ++ b) -> normal b.
Proof. induction a as [|sp a IH]; [done|]. cbn [app]. intros (_ & Hn & _)%normal_cons. by apply IH. Qed.

(** What the walk has passed does not matter for the spans still to come. *)
Lemma passed_spans sp l pre other f x :
  normal (sp :: l) -> Forall (fun q : Span => q.1.1 < sp.1.1 \/ (q.1.1 = sp.1.1 /\ q.2 < sp.2)) pre ->
  in_set l f x -> in_set (pre ++ other) f x <-> in_set other f x.
Proof.
  intros (_ & _ & Hg)%normal_cons Hpre Hx. rewrite in_set_app. split; [|by right]. intros [(q & Hq & Hqx)|]; [|done].
  rewrite Forall_forall in Hpre. specialize (Hpre q Hq). destruct Hqx as [-> Hqx].
  destruct (beyond_head _ _ _ _ Hg Hx) as [|[]]; lia.
Qed.

Lemma first_uncovered_spec set : forall other,
  normal set -> normal other ->
  match first_uncovered set other with
  | None => forall f x, in_set set f x -> in_set other f x
  | Some (f, x) => in_set set f x /\ ~ in_set other f x /\
      forall g y, in_set set g y -> g < f \/ (g = f /\ y < x) -> in_set other g y
  end.
Proof.
  induction set as [|[[f s] e] set IH]; intros other Hn Hno; cbn [first_uncovered].
  { intros f x []%in_set_nil. }
  pose proof (proj1 (normal_cons _ _) Hn) as (Hok & Hns & Hg). pose proof Hok as (_ & Hse & _). cbn [fst snd] in Hse.
  pose proof (cover_span_spec other f s e Hno ltac:(lia)) as Hc. destruct (cover_span f s e other) as [rest|y].
  - destruct Hc as (Hcov & pre & -> & Hpre). specialize (IH rest Hns (normal_app_r _ _ Hno)).
    assert (forall g y, in_set set g y -> in_set (pre ++ rest) g y <-> in_set rest g y) as Hpass.
    { intros g y. by apply (passed_spans (f, s, e)). }
    destruct (first_uncovered set rest) as [[g y]|].
    + destruct IH as (Hin & Hnin & Hfirst). split_and!; [apply in_set_cons; by right|by rewrite Hpass|].
      intros h z [[-> Hz]|Hz]%in_set_cons Hlt; [by apply Hcov|]. rewrite Hpass by done. by apply Hfirst.
    + intros g y [[-> Hz]|Hz]%in_set_cons; [by apply Hcov|]. rewrite Hpass by done. by apply IH.
  - destruct Hc as (Hy & Hny & Hcov). split_and!; [apply in_set_cons; left; split; [done|simpl; lia]|done|].
    intros g z [[-> Hz]|Hz]%in_set_cons Hlt; [simpl in *; apply Hcov; lia|].
    destruct (beyond_head _ _ _ _ Hg Hz) as [|[]]; simpl in *; lia.
Qed.

(** [first_not_in] decides inclusion, and its answer is the first address of
    the set (IPv4 before IPv6, then by value) that the other set lacks. *)
Theorem first_not_in_spec set other :
  normal set -> normal other ->
  (first_not_in set other = None <-> forall f x, in_set set f x -> in_set other f x) /\
  (forall text, first_not_in set other = Some text ->
     exists f x, text = address_string f x /\ in_set set f x /\ ~ in_set other f x /\
       forall g y, in_set set g y -> g < f \/ (g = f /\ y < x) -> in_set other g y).
Proof.
  intros Hs Ho. pose proof (first_uncovered_spec set other Hs Ho) as H. unfold first_not_in.
  destruct (first_uncovered set other) as [[f x]|]; cbn [fmap option_fmap option_map fst snd].
  - destruct H as (Hin & Hnin & Hfirst). split; [|intros text [= <-]; by exists f, x].
    split; [done|]. intros Hall. by destruct Hnin; apply Hall.
  - split; [done|]. by intros text [=].
Qed.

(** ** Printing a set and reading it back *)

Lemma show_ip_plain ip c : ip_ok ip -> c = "-"%char \/ c = "%"%char \/ c = "/"%char -> plain c (to_chars (show_ip ip)).
Proof.
  intros Hok Hc. rewrite <-address_text_show. destruct Hc as [-> |Hc].
  - eapply parse_address_plain. by apply (parse_print_address ip None).
  - destruct ip as [a|a].
    + destruct Hc as [-> | ->]; by apply plain_ipv4.
    + destruct Hc as [-> | ->]; by apply (ipv6_form_plain a); [apply address_text_form|..].
Qed.

Lemma parse_show_ip ip : ip_ok ip -> parse_addr (show_ip ip) = Ok (ip, None).
Proof. intros Hok. rewrite <-address_text_show. by apply (parse_print_addr ip None). Qed.

Section round_trip.
Context `{IpNetLaws}.

Lemma prefix_span_net ip bits :
  prefix_ok ip bits -> forall s, parse_prefix s = Ok (ip, bits) ->
  let b := net_block ip bits in
  prefix_span s = Some (ip_width ip, ip_value ip / b * b, ip_value ip / b * b + b - 1).
Proof.
  intros Hok s Hs. cbv zeta. unfold prefix_span. rewrite Hs.
  destruct (net_new_ok ip bits Hok) as (n & -> & Ha & Hl). cbn [fmap option_fmap option_map].
  rewrite ipnet_interval_eq, net_network_eq, net_broadcast_eq. cbv zeta. by rewrite !ip_with_value_value, Ha, Hl.
Qed.

Lemma prefix_span_ok s sp : prefix_span s = Some sp -> span_ok sp.
Proof.
  unfold prefix_span. destruct (parse_prefix s) as [[ip bits]|] eqn:Hp; [|done]. intros Hsp.
  pose proof (parse_prefix_ok _ _ _ Hp) as Hok. pose proof (prefix_span_net ip bits Hok s Hp) as E. cbv zeta in E.
  unfold prefix_span in E. rewrite Hp in E. rewrite E in Hsp. injection Hsp as <-.
  pose proof (network_range ip bits Hok) as Hr. cbv zeta in Hr.
  unfold span_ok, interval_ok, family. cbn [fst snd]. destruct Hok as [Hip Hb].
  assert (0 < net_block ip bits) by (unfold net_block; apply Z.pow_pos_nonneg; lia).
  split_and!; [destruct ip; [by left|by right]|lia|lia|].
  assert (ip_value ip / net_block ip bits * net_block ip bits + net_block ip bits <= 2 ^ ip_width ip); [|lia].
  apply (aligned_fits (ip_width ip - bits)); [lia| |lia]. exists (ip_value ip / net_block ip bits). done.
Qed.

Lemma prefix_span_block bits b :
  family bits -> 0 <= b.1 < 2 ^ bits -> 0 <= b.2 <= bits -> (2 ^ (bits - b.2) | b.1) ->
  prefix_span (block_text bits b) = Some (bits, b.1, block_end bits b).
Proof.
  intros Hf Hv Hp Hd. pose proof (block_text_parse bits b Hf Hv Hp) as Hparse.
  rewrite (prefix_span_net _ _ (parse_prefix_ok _ _ _ Hparse) _ Hparse). cbv zeta. unfold net_block.
  rewrite interval_addr_width, interval_addr_value by done.
  assert (0 < 2 ^ (bits - b.2)) by (apply Z.pow_pos_nonneg; lia).
  assert (b.1 / 2 ^ (bits - b.2) * 2 ^ (bits - b.2) = b.1) as -> by (destruct Hd as [q ->]; by rewrite Z.div_mul by lia).
  done.
Qed.

(** The spans of the printed blocks of an interval. *)
Lemma block_spans start end_ bits :
  interval_ok start end_ bits ->
  let spans := omap prefix_span (map (block_text bits) (cidr_blocks start end_ bits)) in
  Forall span_ok spans /\ forall f x, in_set spans f x <-> in_span (bits, start, end_) f x.
Proof.
  intros Hok. cbv zeta. pose proof (cidr_blocks_tiles start end_ bits Hok) as Ht. pose proof Hok as (Hf & Hs & He).
  assert (forall b, b ∈ cidr_blocks start end_ bits -> prefix_span (block_text bits b) = Some (bits, b.1, block_end bits b)) as Hb.
  { intros b Hb. destruct (tiles_bounds _ _ _ _ _ Ht Hb) as (H1 & H2 & H3). pose proof H2 as H2'. unfold block_end in H2'.
    assert (0 < 2 ^ (bits - b.2)) by (apply Z.pow_pos_nonneg; lia).
    apply prefix_span_block; [done|lia|done|by eapply tiles_aligned]. }
  assert (forall sp, sp ∈ omap prefix_span (map (block_text bits) (cidr_blocks start end_ bits)) <->
    exists b, b ∈ cidr_blocks start end_ bits /\ sp = (bits, b.1, block_end bits b)) as Hin.
  { intros sp. rewrite list_elem_of_omap. split.
    - intros (t & Ht' & Hsp). apply list_elem_of_In, List.in_map_iff in Ht' as (b & <- & Hbin%list_elem_of_In).
      rewrite Hb in Hsp by done. exists b. split; congruence.
    - intros (b & Hbin & ->). exists (block_text bits b). split; [|by apply Hb].
      apply list_elem_of_In, List.in_map_iff. exists b. split; [done|by apply list_elem_of_In]. }
  split.
  - apply Forall_forall. intros sp. rewrite list_elem_of_omap. intros (t & _ & Hsp). by eapply prefix_span_ok.
  - intros f x. unfold in_span. cbn [fst snd]. rewrite (tiles_member _ _ _ _ x Ht). split.
    + intros (sp & (b & Hbin & ->)%Hin & -> & Hx). cbn [fst snd] in *. split; [done|]. by exists b.
    + intros [-> (b & Hbin & Hx)]. exists (bits, b.1, block_end bits b). split; [apply Hin; by exists b|done].
Qed.

(** The spans a printed text is read back to. *)
Definition reads_as (text : string) (sp : Span) : Prop :=
  exists spans, string_spans text = Some spans /\ Forall span_ok spans /\
    forall f x, in_set spans f x <-> in_span sp f x.

Lemma string_spans_net text n :
  text <> "*"%string -> parse_ip_net text = Some n -> string_spans text = Some (omap prefix_span [net_show n]).
Proof. intros Hne Hp. unfold string_spans, ipset_string_to_cidrs. by rewrite bool_decide_false, Hp by done. Qed.

Lemma reads_net text n sp :
  text <> "*"%string -> parse_ip_net text = Some n -> ipnet_interval n = sp -> reads_as text sp.
Proof.
  intros Hne Hp Hi. assert (prefix_span (net_show n) = Some sp) as Hsp.
  { unfold prefix_span. rewrite net_show_prefix, parse_print_prefix by apply net_prefix_ok.
    destruct (net_new_ok _ _ (net_prefix_ok n)) as (m & -> & Ha & Hl). cbn [fmap option_fmap option_map].
    by rewrite (net_ext m n Ha Hl), Hi. }
  exists [sp]. rewrite (string_spans_net text n) by done. cbn [omap list_omap]. rewrite Hsp. split_and!; [done|..].
  - apply Forall_singleton. by eapply prefix_span_ok.
  - intros f x. rewrite in_set_cons. pose proof (in_set_nil f x). tauto.
Qed.

Lemma reads_address s bits :
  family bits -> 0 <= s < 2 ^ bits -> reads_as (interval_addr_string s bits) (bits, s, s).
Proof.
  intros Hf Hs. pose proof (interval_addr_ok s bits Hf Hs) as Hok. unfold interval_addr_string.
  pose proof (parse_show_ip _ Hok) as Hp.
  destruct (net_new_full _ Hok) as (n & Hn & Ha & _).
  destruct (net_new_Some (interval_addr s bits) (ip_width (interval_addr s bits)) Hok) as (n' & Hn' & Ha' & Hl');
    [by destruct (interval_addr s bits)|]. assert (n' = n) as -> by congruence.
  apply (reads_net _ n).
  - intros E. assert (is_ok (parse_addr "*") = false) as Hstar by reflexivity. by rewrite <-E, Hp in Hstar.
  - unfold parse_ip_net. rewrite bool_decide_false by (apply show_ip_plain; [done|tauto]). rewrite Hp. by destruct (interval_addr s bits).
  - rewrite ipnet_interval_eq, net_network_eq, net_broadcast_eq. cbv zeta. rewrite !ip_with_value_value, Ha, Hl'.
    unfold net_block. rewrite Z.sub_diag, interval_addr_width, interval_addr_value by done.
    change (2 ^ 0) with 1. rewrite Z.div_1_r. do 2 f_equal; lia.
Qed.

Lemma range_text_spans a b :
  ip_ok a -> ip_ok b -> let text := (show_ip a ++ "-" ++ show_ip b)%string in
  text <> "*"%string /\ parse_ip_net text = None /\ range_ends text = Some (a, b) /\ count_dashes text = 1%nat /\ plain "/" (to_chars text).
Proof.
  intros Ha Hb text. assert (to_chars text = to_chars (show_ip a) ++ "-"%char :: to_chars (show_ip b)) as E.
  { unfold text. by rewrite !to_chars_app. }
  assert ("-"%char ∈ to_chars text) as Hdash by (rewrite E; set_solver).
  assert (plain "/" (to_chars text)) as Hslash.
  { rewrite E. change ("-"%char :: ?l) with (["-"%char] ++ l). rewrite !plain_app.
    split_and!; [apply show_ip_plain; tauto| |apply show_ip_plain; tauto]. intros ?%list_elem_of_singleton. done. }
  assert (plain "%" (to_chars text)) as Hzone.
  { rewrite E. change ("-"%char :: ?l) with (["-"%char] ++ l). rewrite !plain_app.
    split_and!; [apply show_ip_plain; tauto| |apply show_ip_plain; tauto]. intros ?%list_elem_of_singleton. done. }
  assert (split_once "-" (to_chars text) = Some (to_chars (show_ip a), to_chars (show_ip b))) as Hsplit.
  { rewrite E. apply split_once_here. apply show_ip_plain; tauto. }
  split_and!; [| | | |done].
  - intros Et. rewrite Et in Hdash. change (to_chars "*") with ["*"%char] in Hdash. by apply list_elem_of_singleton in Hdash.
  - destruct (parse_ip_net text) as [n|] eqn:En; [|done]. apply parse_ip_net_no_range in En; [|done]. congruence.
  - unfold range_ends. rewrite Hsplit, !of_to_chars, !parse_show_ip by done. done.
  - unfold count_dashes. rewrite E.
    assert (forall l, plain "-" l -> List.filter (Ascii.eqb "-") l = []) as Hnone.
    { induction l as [|c l IH]; [done|]. intros Hc. cbn [List.filter].
      assert (c <> "-"%char /\ plain "-" l) as [Hne Hl] by (unfold plain in *; set_solver).
      rewrite (proj2 (Ascii.eqb_neq "-" c)) by congruence. by apply IH. }
    rewrite List.filter_app, length_app. cbn [List.filter Ascii.eqb Bool.eqb].
    rewrite !Hnone by (apply show_ip_plain; tauto). done.
Qed.

Lemma reads_range s e bits :
  interval_ok s e bits ->
  reads_as (interval_addr_string s bits ++ "-" ++ interval_addr_string e bits)%string (bits, s, e).
Proof.
  intros Hok. pose proof Hok as (Hf & Hs & He). unfold interval_addr_string.
  destruct (range_text_spans (interval_addr s bits) (interval_addr e bits)) as (Hne & Hnone & Hends & _ & _);
    [apply interval_addr_ok; [done|lia]..|].
  destruct (block_spans s e bits Hok) as [Hspok Hin].
  eexists. split; [|by split]. unfold string_spans, ipset_string_to_cidrs. rewrite bool_decide_false, Hnone, Hends by done.
  replace (match interval_addr s bits with V4 _ => _ | V6 _ => _ end) with (cidrs_for_interval s e bits).
  { by rewrite (cidrs_texts s e bits Hok). }
  unfold interval_addr. destruct Hf as [-> | ->]; cbn [Z.eqb Pos.eqb]; [|done]. by rewrite !Z.mod_small by lia.
Qed.

(** A block that is a whole interval. *)
Lemma single_block s e bits b : tiles bits s e [b] -> b.1 = s /\ block_end bits b = e.
Proof.
  inversion 1 as [|? ? p l Hp Hd He Ht]; subst. inversion Ht; subst. unfold block_end in *. cbn [fst snd] in *. lia.
Qed.

Lemma interval_text_reads s e bits :
  interval_ok s e bits -> exists text, interval_ipset_string s e bits = Some text /\ reads_as text (bits, s, e).
Proof.
  intros Hok. pose proof Hok as (Hf & Hs & He). unfold interval_ipset_string. destruct (Z.eqb_spec s e) as [<- |Hne].
  - eexists. split; [done|]. apply reads_address; [done|lia].
  - rewrite (cidrs_texts s e bits Hok). pose proof (cidr_blocks_tiles s e bits Hok) as Ht.
    destruct (cidr_blocks s e bits) as [|b [|b' l]] eqn:Eb; cbn [map].
    + eexists. split; [done|]. by apply reads_range.
    + eexists. split; [done|]. destruct (single_block _ _ _ _ Ht) as [Eb1 Eb2].
      destruct (tiles_bounds _ _ _ _ b Ht ltac:(set_solver)) as (_ & _ & Hb2).
      pose proof (tiles_aligned _ _ _ _ b Ht ltac:(set_solver)) as Hal.
      destruct (net_new_ok (interval_addr b.1 bits) b.2) as (n & _ & Ha & Hl).
      { split; [apply interval_addr_ok; [done|lia]|]. by rewrite interval_addr_width. }
      assert (block_text bits b = net_show n) as Etext by (unfold block_text; by rewrite net_show_prefix, Ha, Hl).
      assert (prefix_span (block_text bits b) = Some (bits, s, e)) as Hsp.
      { rewrite prefix_span_block by (done || lia). by rewrite Eb1, Eb2. }
      rewrite Etext in *. apply (reads_net _ n); [|apply parse_ip_net_show|].
      * intros E. assert ("/"%char ∈ to_chars (net_show n)) as Hs' by (rewrite net_show_prefix; unfold show_prefix; rewrite !to_chars_app; set_solver).
        rewrite E in Hs'. change (to_chars "*") with ["*"%char] in Hs'. by apply list_elem_of_singleton in Hs'.
      * unfold prefix_span in Hsp. rewrite net_show_prefix, parse_print_prefix in Hsp by apply net_prefix_ok.
        destruct (net_new_ok _ _ (net_prefix_ok n)) as (m & Em & Ha' & Hl'). rewrite Em in Hsp.
        rewrite <-(net_ext m n Ha' Hl'). by injection Hsp.
    + eexists. split; [done|]. by apply reads_range.
Qed.

Lemma set_texts set :
  Forall span_ok set ->
  exists texts l, strings set = Some texts /\ mapM string_spans texts = Some l /\ Forall span_ok (concat l) /\
    forall f x, in_set (concat l) f x <-> in_set set f x.
Proof.
  unfold strings. induction 1 as [|[[b s] e] set Hsp _ IH].
  - exists [], []. split_and!; done.
  - destruct IH as (texts & l & Et & El & Hok & Hin).
    destruct (interval_text_reads s e b Hsp) as (text & Etext & spans & Espans & Hspok & Hspin).
    exists (text :: texts), (spans :: l). split_and!.
    + cbn [mapM]. rewrite Etext. cbn [mbind option_bind]. by rewrite Et.
    + cbn [mapM]. rewrite Espans. cbn [mbind option_bind]. by rewrite El.
    + cbn [concat]. by apply Forall_app.
    + intros f x. cbn [concat]. by rewrite in_set_app, Hspin, Hin, in_set_cons.
Qed.

(** Printing a set and reading the texts back gives the same set, and neither
    direction panics: addresses, prefixes and ranges each denote the span they
    were printed from. *)
Theorem ipset_strings_round_trip set :
  normal set -> exists texts, strings set = Some texts /\ from_strings texts = Some set.
Proof.
  intros Hn. destruct (set_texts set (proj2 Hn)) as (texts & l & Et & El & Hok & Hin).
  exists texts. split; [done|]. unfold from_strings. rewrite El. f_equal.
  destruct (from_spans_ok (concat l) Hok) as [Hn' Hm]. apply normal_unique; [done|done|].
  intros f x. by rewrite Hm, Hin.
Qed.
End round_trip.

(** ** What a rule matcher accepts *)

(** Two spans of a normal set are the same or apart. *)
Lemma normal_apart set p q : normal set -> p ∈ set -> q ∈ set -> p = q \/ gap p q \/ gap q p.
Proof.
  induction set as [|sp set IH]; [by intros _ ?%elem_of_nil|]. intros (_ & Hn & Hg)%normal_cons Hp Hq.
  rewrite Forall_forall in Hg. apply elem_of_cons in Hp as [Ep|Hp]; apply elem_of_cons in Hq as [Eq|Hq]; subst; auto.
Qed.

Lemma in_set_span_ok set f x : Forall span_ok set -> in_set set f x -> 0 <= x < 2 ^ f.
Proof. intros Hok (sp & Hsp & -> & Hx). rewrite Forall_forall in Hok. destruct (Hok sp Hsp) as (_ & ? & ?). lia. Qed.

Section visibility.
Context `{IpNetLaws} {Value : Type}.

Lemma address_span_eq ip : address_span ip = (ip_width ip, ip_value ip, ip_value ip).
Proof. by destruct ip. Qed.

(** An address text without a zone that denotes the address [x] of family [f]. *)
Definition denotes (text : string) (f x : Z) : Prop :=
  exists ip, parse_addr text = Ok (ip, None) /\ f = ip_width ip /\ x = ip_value ip.

Lemma contains_ip_spec set text : contains_ip set text = true <-> exists f x, denotes text f x /\ in_set set f x.
Proof.
  unfold contains_ip, denotes. destruct (parse_addr text) as [[ip [z|]]|].
  - split; [done|]. by intros (f & x & (ip' & [=] & _) & _).
  - rewrite address_span_eq, existsb_elem. split.
    + intros ([[b s] e] & Hsp & Hx). rewrite !andb_true_iff, Z.eqb_eq, !Z.leb_le in Hx.
      exists (ip_width ip), (ip_value ip). split; [by exists ip|]. exists (b, s, e). unfold in_span. simpl. split; [done|lia].
    + intros (f & x & (ip' & [= <-] & -> & ->) & [[b s] e] & Hsp & Hf & Hx). simpl in *.
      exists (b, s, e). rewrite !andb_true_iff, Z.eqb_eq, !Z.leb_le. split; [done|lia].
  - split; [done|]. by intros (f & x & (ip' & [=] & _) & _).
Qed.

(** The addresses of a prefix text. *)
Definition in_prefix (text : string) (f x : Z) : Prop := exists sp, prefix_span text = Some sp /\ in_span sp f x.

Lemma overlaps_prefix_spec set text :
  Forall span_ok set -> overlaps_prefix set text = true <-> exists f x, in_prefix text f x /\ in_set set f x.
Proof.
  intros Hok. unfold overlaps_prefix, in_prefix. destruct (prefix_span text) as [[[f s] e]|] eqn:Hp.
  - apply prefix_span_ok in Hp as (_ & Hse & _). cbn [fst snd] in Hse. rewrite existsb_elem. split.
    + intros ([[b lo] hi] & Hsp & Hx). rewrite !andb_true_iff, Z.eqb_eq, !Z.leb_le in Hx.
      rewrite Forall_forall in Hok. destruct (Hok _ Hsp) as (_ & Hlh & _). cbn [fst snd] in Hlh.
      exists f, (Z.max s lo). split; [exists (f, s, e)|exists (b, lo, hi)]; unfold in_span; simpl; (split; [done|lia]).
    + intros (g & x & (sp & [= <-] & -> & Hx) & [[b lo] hi] & Hsp & Hf & Hx'). simpl in *.
      exists (b, lo, hi). rewrite !andb_true_iff, Z.eqb_eq, !Z.leb_le. split; [done|lia].
  - split; [done|]. by intros (f & x & (sp & [=] & _) & _).
Qed.

Lemma contains_prefix_spec set text sp :
  normal set -> prefix_span text = Some sp ->
  contains_prefix set text = true <-> forall f x, in_span sp f x -> in_set set f x.
Proof.
  intros Hn Hp. unfold contains_prefix. rewrite Hp. destruct sp as [[f s] e]. apply prefix_span_ok in Hp as (_ & Hse & _).
  cbn [fst snd] in Hse. rewrite existsb_elem. split.
  - intros ([[b lo] hi] & Hsp & Hx) g x [-> Hgx]. rewrite !andb_true_iff, Z.eqb_eq, !Z.leb_le in Hx.
    exists (b, lo, hi). unfold in_span in *. simpl in *. split; [done|lia].
  - intros Hall. destruct (Hall f s) as (q & Hq & Hqf & Hqs); [split; [done|simpl; lia]|].
    exists q. split; [done|]. destruct q as [[b lo] hi]. simpl in *. rewrite !andb_true_iff, Z.eqb_eq, !Z.leb_le.
    split_and!; [done|lia|]. destruct (Z.le_gt_cases e hi) as [|Hgt]; [done|]. exfalso.
    destruct (Hall f (hi + 1)) as (r & Hr & Hrf & Hrx); [split; [done|simpl; lia]|].
    destruct (normal_apart set _ _ Hn Hq Hr) as [<- |[Hg|Hg]]; unfold gap in *; simpl in *; lia.
Qed.

(** *** The values of a filter *)

Lemma from_filter_string_ok value l : from_filter_string value = Some l -> Forall span_ok l.
Proof.
  unfold from_filter_string. case_bool_decide; [intros [= <-]|case_bool_decide].
  - repeat apply Forall_cons_2; [| |constructor]; unfold span_ok, interval_ok, family, u_max; simpl; lia.
  - destruct (parse_prefix value) as [[ip bits]|] eqn:Hp; [|done]. destruct (net_new ip bits) as [n|] eqn:En; [|done].
    case_bool_decide; [|done]. intros [= <-]. apply Forall_singleton. apply (prefix_span_ok value).
    unfold prefix_span. by rewrite Hp, En.
  - destruct (count_dashes value =? 1)%nat.
    + destruct (range_ends value) as [[a b]|] eqn:Hr; [|done]. apply range_ends_ok in Hr as [Ha Hb].
      rewrite !address_span_eq. destruct (Z.eqb_spec (ip_width a) (ip_width b)) as [Hw|]; [|done].
      destruct (Z.ltb_spec (ip_value b) (ip_value a)); [done|]. intros [= <-]. apply Forall_singleton.
      unfold span_ok, interval_ok, family, ip_ok in *. cbn [fst snd]. rewrite Hw in *.
      split_and!; [destruct b; tauto|lia|lia|lia].
    + destruct (parse_addr value) as [[ip z]|] eqn:Hp; [|done]. intros [= <-]. apply Forall_singleton.
      apply parse_addr_ok in Hp as [Hip _]. rewrite address_span_eq. unfold span_ok, interval_ok, family, ip_ok in *.
      cbn [fst snd]. split_and!; [destruct ip; tauto|lia|lia|lia].
Qed.

(** The addresses of a list of filter strings; strings that do not parse hold none. *)
Definition in_values (values : list string) (f x : Z) : Prop :=
  exists v l, v ∈ values /\ from_filter_string v = Some l /\ in_set l f x.

Lemma filter_spans values :
  Forall span_ok (concat (omap from_filter_string values)) /\
  forall f x, in_set (concat (omap from_filter_string values)) f x <-> in_values values f x.
Proof.
  induction values as [|v values [IHok IH]]; cbn [omap list_omap concat].
  - split; [constructor|]. intros f x. split; [intros []%in_set_nil|]. by intros (v & l & ?%elem_of_nil & _).
  - assert (forall f x, in_values (v :: values) f x <->
      (exists l, from_filter_string v = Some l /\ in_set l f x) \/ in_values values f x) as Hcons.
    { intros f x. split.
      - intros (w & l & [-> |Hw]%elem_of_cons & Hl & Hx); [left; eauto|right; exists w, l; done].
      - intros [(l & Hl & Hx)|(w & l & Hw & Hl & Hx)]; [exists v, l|exists w, l]; split_and!; set_solver. }
    destruct (from_filter_string v) as [l|] eqn:Ev; cbn [concat].
    + split; [apply Forall_app; split; [by eapply from_filter_string_ok|done]|].
      intros f x. rewrite in_set_app, IH, Hcons. split; [intros [|]; eauto|]. intros [(l' & [= <-] & Hx)|]; auto.
    + split; [done|]. intros f x. rewrite IH, Hcons. split; [eauto|]. by intros [(l' & [=] & _)|].
Qed.

Lemma prefix_spans texts :
  Forall span_ok (omap prefix_span texts) /\
  forall f x, in_set (omap prefix_span texts) f x <-> exists p, p ∈ texts /\ in_prefix p f x.
Proof.
  split.
  - apply Forall_forall. intros sp. rewrite list_elem_of_omap. intros (t & _ & Hsp). by eapply prefix_span_ok.
  - intros f x. unfold in_set, in_prefix. setoid_rewrite list_elem_of_omap. split.
    + intros (sp & (p & Hp & Hsp) & Hx). eauto.
    + intros (p & Hp & sp & Hsp & Hx). eauto.
Qed.

(** The destinations of a rule: those of its ports and of its capability grants. *)
Definition in_destinations (rule : FilterRule Value) (f x : Z) : Prop :=
  in_values (map np_ip (fr_dst_ports rule)) f x \/
  exists p, p ∈ flat_map cg_dsts (fr_cap_grant rule) /\ in_prefix p f x.

Lemma rule_sources (rule : FilterRule Value) :
  normal (rm_sources (from_rule rule)) /\
  forall f x, in_set (rm_sources (from_rule rule)) f x <-> in_values (fr_src_ips rule) f x.
Proof.
  cbn [rm_sources from_rule]. unfold from_filter_strings. destruct (filter_spans (fr_src_ips rule)) as [Hok Hin].
  destruct (from_spans_ok _ Hok) as [Hn Hm]. split; [done|]. intros f x. by rewrite Hm, Hin.
Qed.

Lemma rule_destinations (rule : FilterRule Value) :
  normal (rm_destinations (from_rule rule)) /\
  forall f x, in_set (rm_destinations (from_rule rule)) f x <-> in_destinations rule f x.
Proof.
  cbn [rm_destinations from_rule]. unfold union, from_filter_strings, from_prefix_strings, in_destinations.
  destruct (filter_spans (map np_ip (fr_dst_ports rule))) as [Hok1 Hin1].
  destruct (prefix_spans (flat_map cg_dsts (fr_cap_grant rule))) as [Hok2 Hin2].
  destruct (from_spans_ok _ Hok1) as [[_ Hn1] Hm1]. destruct (from_spans_ok _ Hok2) as [[_ Hn2] Hm2].
  match goal with |- normal (from_spans ?l) /\ _ => destruct (from_spans_ok l) as [Hn Hm]; [by apply Forall_app|] end.
  split; [done|]. intros f x. by rewrite Hm, in_set_app, Hm1, Hm2, Hin1, Hin2.
Qed.
(** The internet: one of the default routes, or all public prefixes. *)
Definition covers_internet (rule : FilterRule Value) : Prop :=
  (forall x, 0 <= x < 2 ^ 32 -> in_destinations rule 32 x) \/
  (forall x, 0 <= x < 2 ^ 128 -> in_destinations rule 128 x) \/
  (forall p f x, p ∈ internet_filter_cidrs -> in_prefix p f x -> in_destinations rule f x).

Lemma prefix_span_parsed text ip bits :
  parse_prefix text = Ok (ip, bits) -> exists sp, prefix_span text = Some sp.
Proof. intros Hp. eexists. by apply (prefix_span_net ip bits (parse_prefix_ok _ _ _ Hp)). Qed.

Lemma internet_cidrs_parse p : p ∈ internet_filter_cidrs -> exists sp, prefix_span p = Some sp.
Proof.
  assert (forallb (fun p => is_ok (parse_prefix p)) internet_filter_cidrs = true) as H0' by (vm_compute; reflexivity).
  intros Hp%list_elem_of_In. rewrite forallb_forall in H0'. specialize (H0' p Hp).
  destruct (parse_prefix p) as [[ip bits]|] eqn:E; [|done]. by eapply prefix_span_parsed.
Qed.

Lemma rule_internet rule : rm_internet (from_rule rule) = true <-> covers_internet rule.
Proof.
  destruct (rule_destinations rule) as [Hn Hin]. unfold covers_internet.
  change (rm_internet (from_rule rule)) with
    (contains_prefix (rm_destinations (from_rule rule)) "0.0.0.0/0" || contains_prefix (rm_destinations (from_rule rule)) "::/0"
     || forallb (contains_prefix (rm_destinations (from_rule rule))) internet_filter_cidrs).
  set (d := rm_destinations (from_rule rule)) in *.
  assert (prefix_span "0.0.0.0/0" = Some (32, 0, 2 ^ 32 - 1)) as P4.
  { by rewrite (prefix_span_net (V4 0) 0 ltac:(split; [unfold ip_ok; simpl; lia|simpl; lia]) "0.0.0.0/0" ltac:(vm_compute; reflexivity)). }
  assert (prefix_span "::/0" = Some (128, 0, 2 ^ 128 - 1)) as P6.
  { by rewrite (prefix_span_net (V6 0) 0 ltac:(split; [unfold ip_ok; simpl; lia|simpl; lia]) "::/0" ltac:(vm_compute; reflexivity)). }
  rewrite !orb_true_iff, (contains_prefix_spec d _ _ Hn P4), (contains_prefix_spec d _ _ Hn P6), forallb_forall.
  unfold in_span. cbn [fst snd].
  assert ((forall p, List.In p internet_filter_cidrs -> contains_prefix d p = true) <->
    forall p f x, p ∈ internet_filter_cidrs -> in_prefix p f x -> in_destinations rule f x) as Hc.
  { split.
    - intros Hall p f x Hp (sp & Hsp & Hx). apply Hin. apply (contains_prefix_spec d p sp Hn Hsp); [|done].
      apply Hall. by apply list_elem_of_In.
    - intros Hall p Hp%list_elem_of_In. destruct (internet_cidrs_parse p Hp) as [sp Hsp].
      apply (contains_prefix_spec d p sp Hn Hsp). intros f x Hx. apply Hin, (Hall p); [done|]. by exists sp. }
  rewrite Hc. setoid_rewrite Hin. split.
  - intros [[H4|H6]|Hall]; [left|right; left|tauto]; intros x Hx; [apply H4|apply H6]; (split; [done|lia]).
  - intros [H4|[H6|Hall]]; [left; left|left; right|tauto]; intros f x [-> Hx]; [apply H4|apply H6]; lia.
Qed.

(** The addresses of a node: its own, and those of the subnets it routes. *)
Definition node_holds (node : PacketFilterNode) (f x : Z) : Prop :=
  (exists a, a ∈ fn_addrs node /\ denotes a f x) \/
  (exists r, r ∈ fn_routes node /\ is_exit r = false /\ in_prefix r f x).

Lemma node_matches set node :
  Forall span_ok set ->
  contains_node set node || overlaps_subnets set node = true <-> exists f x, in_set set f x /\ node_holds node f x.
Proof.
  intros Hok. unfold contains_node, overlaps_subnets, node_holds. rewrite orb_true_iff, !existsb_elem. split.
  - intros [(a & Ha & Hc)|(r & Hr & Hc)].
    + apply contains_ip_spec in Hc as (f & x & Hd & Hx). eauto 10.
    + apply elem_of_filter_bool in Hr as [Hr He%negb_true_iff].
      apply overlaps_prefix_spec in Hc as (f & x & Hd & Hx); [|done]. eauto 10.
  - intros (f & x & Hx & [(a & Ha & Hd)|(r & Hr & He & Hd)]); [left; exists a|right; exists r].
    + split; [done|]. apply contains_ip_spec. eauto.
    + split; [apply elem_of_filter_bool; by rewrite He|]. apply overlaps_prefix_spec; eauto.
Qed.

(** C14. Visibility is sharing addresses: one node sees another exactly when some
    rule has a source address among the first node's addresses and routed subnets
    and a destination (of a port entry or of a capability grant) among the second
    node's, or covers the internet and the second node is an exit node; ports and
    protocols play no role. *)
Theorem can_access_spec (rules : list (FilterRule Value)) source target :
  can_access (from_rules rules) source target = true <->
  exists rule, rule ∈ rules /\
    (exists f x, in_values (fr_src_ips rule) f x /\ node_holds source f x) /\
    ((exists f x, in_destinations rule f x /\ node_holds target f x) \/
     (covers_internet rule /\ exists r, r ∈ fn_routes target /\ is_exit r = true)).
Proof.
  unfold can_access, from_rules. rewrite existsb_elem.
  assert (forall rule,
    (contains_node (rm_sources (from_rule rule)) source || overlaps_subnets (rm_sources (from_rule rule)) source) &&
    (contains_node (rm_destinations (from_rule rule)) target || overlaps_subnets (rm_destinations (from_rule rule)) target
     || (rm_internet (from_rule rule) && existsb is_exit (fn_routes target))) = true <->
    (exists f x, in_values (fr_src_ips rule) f x /\ node_holds source f x) /\
    ((exists f x, in_destinations rule f x /\ node_holds target f x) \/
     (covers_internet rule /\ exists r, r ∈ fn_routes target /\ is_exit r = true))) as Hrule.
  { intros rule. destruct (rule_sources rule) as [[_ Hok] Hs], (rule_destinations rule) as [[_ Hok'] Hd].
    rewrite andb_true_iff, (node_matches _ source), orb_true_iff, (node_matches _ target), andb_true_iff, rule_internet, existsb_elem by done.
    setoid_rewrite Hs. setoid_rewrite Hd. done. }
  split.
  - intros (m & Hm & Hc). apply list_elem_of_In, List.in_map_iff in Hm as (rule & <- & Hin%list_elem_of_In).
    exists rule. split; [done|]. by apply Hrule.
  - intros (rule & Hin & Hc). exists (from_rule rule). split; [|by apply Hrule].
    apply list_elem_of_In, List.in_map_iff. exists rule. split; [done|by apply list_elem_of_In].
Qed.
End visibility.

(** ** Instances of the theorems *)

Module IpSetExamples.
Import PrefixNet.

(** 10.0.0.0/25, 10.0.0.128/25 (they touch) and one IPv6 address. *)
Definition set1 : IpSet := [(32, 0x0a000000, 0x0a0000ff); (128, 1, 1)].
Definition set2 : IpSet := [(32, 0x0a000000, 0x0a00007f); (32, 0x0a000081, 0x0a0001ff); (128, 0, 7)].

Ltac prove_spans :=
  repeat first [apply List.Forall_nil | apply List.Forall_cons];
  (split; [(left; reflexivity) || (right; reflexivity)|cbn; lia]).

Ltac prove_sorted :=
  repeat first [apply SSorted_nil | apply SSorted_cons | apply List.Forall_nil | apply List.Forall_cons];
  unfold gap; cbn; lia.

Lemma set1_normal : normal set1.
Proof. split; [prove_sorted|prove_spans]. Qed.

Lemma set2_normal : normal set2.
Proof. split; [prove_sorted|prove_spans]. Qed.

Definition halves : list Span := [(128, 1, 1); (32, 0x0a000080, 0x0a0000ff); (32, 0x0a000000, 0x0a00007f)].

Lemma from_spans_canonical_witness :
  from_spans halves = set1 /\ normal (from_spans halves) /\
  (forall f x, in_set (from_spans halves) f x <-> in_set halves f x) /\
  ((forall f x, in_set halves f x <-> in_set set1 f x) <-> from_spans halves = from_spans set1).
Proof. split; [vm_compute; reflexivity|]. apply from_spans_canonical; prove_spans. Defined.

Lemma intersects_spec_witness :
  intersects set1 set2 = true <-> exists f x, in_set set1 f x /\ in_set set2 f x.
Proof. apply intersects_spec; [apply set1_normal|apply set2_normal]. Defined.

(** The one address of the first set that the second leaves out. *)
Lemma first_not_in_spec_witness :
  first_not_in set1 set2 = Some "10.0.0.128"%string /\
  (first_not_in set1 set2 = None <-> forall f x, in_set set1 f x -> in_set set2 f x) /\
  (forall text, first_not_in set1 set2 = Some text ->
     exists f x, text = address_string f x /\ in_set set1 f x /\ ~ in_set set2 f x /\
       forall g y, in_set set1 g y -> g < f \/ (g = f /\ y < x) -> in_set set2 g y).
Proof. split; [vm_compute; reflexivity|]. apply first_not_in_spec; [apply set1_normal|apply set2_normal]. Defined.

Lemma ipset_strings_round_trip_witness :
  strings set2 = Some ["10.0.0.0/25"; "10.0.0.129-10.0.1.255"; "::/125"]%string /\
  exists texts, strings set2 = Some texts /\ from_strings texts = Some set2.
Proof. split; [vm_compute; reflexivity|]. apply ipset_strings_round_trip, set2_normal. Defined.

Definition rule1 : FilterRule unit :=
  mkFilterRule unit ["10.0.0.0/8"%string] [] [mkNetPortRange "192.168.1.0-192.168.1.99" None (mkPortRange 22 22)] [] [].

Definition laptop : PacketFilterNode := mkFilterNode 1 (Some 1) None ["10.1.2.3"%string] [] [].
Definition router : PacketFilterNode := mkFilterNode 2 (Some 2) None ["100.64.0.2"%string] [] ["192.168.1.0/24"%string].

(** The laptop sees the router because of the subnet it serves. *)
Lemma can_access_spec_witness :
  exists rule, rule ∈ [rule1] /\
    (exists f x, in_values (fr_src_ips rule) f x /\ node_holds laptop f x) /\
    ((exists f x, in_destinations rule f x /\ node_holds router f x) \/
     (covers_internet rule /\ exists r, r ∈ fn_routes router /\ is_exit r = true)).
Proof. apply (can_access_spec [rule1] laptop router). vm_compute. reflexivity. Defined.

Example not_back : can_access (from_rules [rule1]) router laptop = false.
Proof. vm_compute. reflexivity. Qed.

End IpSetExamples.
