(* ===== verification/PrimaryRoutes.v ===== *)
(** * PrimaryRoutes: subnet-route election of the control server
    (headscale-api/src/tailscale_wire/routes.rs)

    Which node serves each subnet route: nodes advertise routes, health marks
    come and go, and an election keeps one primary per route, sticky while it is
    usable.  A [BTreeMap] is a finite map whose keys are visited in order; a
    route is its canonical prefix text.  What this component needs of the prefix
    text functions of headscale-api-acl/src/go_netip.rs is the class [NetipText]
    with its laws, which [GoNetip] discharges ([go_netip_laws]); the policy's
    auto-approvers are the argument [approves]. *)

From S2P Require Import Prelude Net GoNetip.
From stdpp Require Import base list gmap strings sets.
From Stdlib Require Import ZArith Lia Sorted.

Open Scope Z_scope.
Open Scope rust_scope.

(** [go_netip::parse_prefix_text], [prefix_text] and [prefix_compare]. *)
Class NetipText := {
  netip_error : Type;
  parse_prefix_text : string -> result string netip_error;
  prefix_compare : string -> string -> option comparison;
}.

(** The text a prefix is printed as is the text it is parsed to, and on such texts
    (and the empty one) the comparison is a total order. *)
Class NetipTextLaws `{NetipText} : Prop := {
  parse_prefix_canonical : forall s p, parse_prefix_text s = Ok p -> parse_prefix_text p = Ok p;
  parse_prefix_nonempty : forall s p, parse_prefix_text s = Ok p -> p <> ""%string /\ s <> ""%string;
  parse_exit_texts : forall p, p ∈ ["0.0.0.0/0"%string; "::/0"%string] -> parse_prefix_text p = Ok p;
  prefix_compare_total :
    let typed p := p = ""%string \/ parse_prefix_text p = Ok p in
    exists cmp, TotalCmp cmp /\
      forall p q, typed p -> typed q -> prefix_compare p q = Some (cmp p q) /\ (cmp p q = Eq -> p = q);
}.

Definition is_exit_route (prefix : string) : bool :=
  bool_decide (prefix = "0.0.0.0/0"%string) || bool_decide (prefix = "::/0"%string).

(** Keys of a [BTreeMap<u64, _>], in order. *)
Definition sorted_keys {A} (m : gmap Z A) : list Z := sort_by Z.compare (map fst (map_to_list m)).

Record PrimaryRouteState := mkPrimary {
  pr_routes : gmap Z (gset string);
  pr_primaries : gmap string Z;
  pr_unhealthy : gset Z;
}.

Definition PrimaryRouteState_new : PrimaryRouteState := mkPrimary ∅ ∅ ∅.

(** ** The election *)

(** The nodes of [available_by_route[route]], in node order. *)
Definition advertisers (st : PrimaryRouteState) (route : string) : list Z :=
  List.filter (fun n => bool_decide (route ∈ default ∅ (pr_routes st !! n))) (sorted_keys (pr_routes st)).

(** The keys of [available_by_route]. *)
Definition available_routes (st : PrimaryRouteState) : gset string :=
  ⋃ (map snd (map_to_list (pr_routes st))).

Definition is_unhealthy (st : PrimaryRouteState) (n : Z) : bool := bool_decide (n ∈ pr_unhealthy st).

(** Is the current primary kept? *)
Definition keeps_primary (st : PrimaryRouteState) (nodes : list Z) (current : option Z) : bool :=
  match current with
  | Some c => bool_decide (c ∈ nodes) && (negb (is_unhealthy st c) || forallb (is_unhealthy st) nodes)
  | None => false
  end.

Definition new_primary (st : PrimaryRouteState) (nodes : list Z) (current : option Z) : option Z :=
  match List.find (fun n => negb (is_unhealthy st n)) nodes with
  | Some n => Some n
  | None => match current with
            | Some c => if bool_decide (c ∈ nodes) then Some c else None
            | None => None
            end
  end.

(** One round of the loop over [available_by_route]. *)
Definition elect_route (st : PrimaryRouteState) (acc : gmap string Z * bool) (route : string) : gmap string Z * bool :=
  let '(primaries, changed) := acc in
  let nodes := advertisers st route in
  let current := primaries !! route in
  if keeps_primary st nodes current then (primaries, changed)
  else match new_primary st nodes current with
       | Some n => (<[route := n]> primaries, true)
       | None => match current with
                 | Some _ => (delete route primaries, true)
                 | None => (primaries, changed)
                 end
       end.

Definition drop_stale (available : gset string) (acc : gmap string Z * bool) (route : string) : gmap string Z * bool :=
  if bool_decide (route ∈ available) then acc else (delete route acc.1, true).

Definition update_primary_locked (st : PrimaryRouteState) : PrimaryRouteState * bool :=
  let available := available_routes st in
  let acc1 := fold_left (elect_route st) (elements available) (pr_primaries st, false) in
  let acc2 := fold_left (drop_stale available) (map fst (map_to_list acc1.1)) acc1 in
  (mkPrimary (pr_routes st) acc2.1 (pr_unhealthy st), acc2.2).

Definition is_node_healthy (st : PrimaryRouteState) (n : Z) : bool := negb (is_unhealthy st n).

Definition has_routes (st : PrimaryRouteState) (n : Z) : bool :=
  match pr_routes st !! n with Some r => negb (bool_decide (r = ∅)) | None => false end.

Definition set_unhealthy (st : PrimaryRouteState) (u : gset Z) : PrimaryRouteState :=
  mkPrimary (pr_routes st) (pr_primaries st) u.

(** One health flip: the new set, and whether it changed. *)
Definition flip_health (u : gset Z) (n : Z) (healthy : bool) : gset Z * bool :=
  if healthy then (u ∖ {[n]}, bool_decide (n ∈ u)) else (u ∪ {[n]}, negb (bool_decide (n ∈ u))).

Definition set_node_health (st : PrimaryRouteState) (n : Z) (healthy : bool) : PrimaryRouteState * bool :=
  let '(u, health_changed) := flip_health (pr_unhealthy st) n healthy in
  if negb health_changed then (set_unhealthy st u, false) else update_primary_locked (set_unhealthy st u).

Definition flip_step (acc : gset Z * bool) (p : Z * bool) : gset Z * bool :=
  let '(u, changed) := flip_health acc.1 p.1 p.2 in (u, acc.2 || changed).

Definition set_node_health_batch (st : PrimaryRouteState) (updates : list (Z * bool)) : PrimaryRouteState * bool :=
  let '(u, health_changed) := fold_left flip_step updates (pr_unhealthy st, false) in
  if negb health_changed then (set_unhealthy st u, false) else update_primary_locked (set_unhealthy st u).

Definition clear_unhealthy (st : PrimaryRouteState) (n : Z) : PrimaryRouteState :=
  set_unhealthy st (pr_unhealthy st ∖ {[n]}).

Section routes.
Context `{NetipText}.

Definition route_cmp (a b : string) : comparison :=
  match prefix_compare a b with Some c => c | None => str_cmp a b end.

Definition sort_routes (l : list string) : list string := sort_by route_cmp l.

Fixpoint normalize_each (routes : list string) (expand_exit_routes : bool) : result (list string) netip_error :=
  match routes with
  | [] => Ok []
  | route :: rest =>
      let? prefix := parse_prefix_text route in
      let? out := normalize_each rest expand_exit_routes in
      Ok ((if expand_exit_routes && is_exit_route prefix then ["0.0.0.0/0"%string; "::/0"%string] else [prefix]) ++ out)
  end.

Definition normalize_route_set (routes : list string) (expand_exit_routes : bool) : result (list string) netip_error :=
  let? out := normalize_each routes expand_exit_routes in
  Ok (dedup (sort_routes out)).

Definition normalize_routes (routes : list string) : result (list string) netip_error := normalize_route_set routes true.

Definition normalize_advertised_routes (routes : list string) : result (list string) netip_error :=
  normalize_route_set routes false.

Fixpoint normalize_primary_routes (routes : list string) : result (gset string) netip_error :=
  match routes with
  | [] => Ok ∅
  | route :: rest =>
      let? prefix := parse_prefix_text route in
      let? out := normalize_primary_routes rest in
      Ok (if is_exit_route prefix then out else {[prefix]} ∪ out)
  end.

Definition is_exit_route_str (route : string) : bool :=
  match parse_prefix_text route with Ok prefix => is_exit_route prefix | Err _ => false end.

(** ** Operations on the state *)

Definition set_routes (st : PrimaryRouteState) (n : Z) (routes : list string)
  : PrimaryRouteState * result bool netip_error :=
  match normalize_primary_routes routes with
  | Err e => (st, Err e)
  | Ok r =>
      let st1 := if bool_decide (r = ∅)
                 then mkPrimary (delete n (pr_routes st)) (pr_primaries st) (pr_unhealthy st ∖ {[n]})
                 else mkPrimary (<[n := r]> (pr_routes st)) (pr_primaries st) (pr_unhealthy st) in
      let '(st2, changed) := update_primary_locked st1 in (st2, Ok changed)
  end.

Fixpoint collect_routes (nodes : list (Z * list string)) (acc : gmap Z (gset string))
  : result (gmap Z (gset string)) netip_error :=
  match nodes with
  | [] => Ok acc
  | (n, routes) :: rest =>
      let? r := normalize_primary_routes routes in
      collect_routes rest (if bool_decide (r = ∅) then acc else <[n := r]> acc)
  end.

Definition sync_routes (st : PrimaryRouteState) (nodes : list (Z * list string))
  : PrimaryRouteState * result bool netip_error :=
  match collect_routes nodes ∅ with
  | Err e => (st, Err e)
  | Ok routes =>
      let st1 := mkPrimary routes (pr_primaries st)
                   (base.filter (fun n => is_Some (routes !! n)) (pr_unhealthy st)) in
      let '(st2, changed) := update_primary_locked st1 in (st2, Ok changed)
  end.

Definition primary_routes (st : PrimaryRouteState) (n : Z) : list string :=
  sort_routes (map fst (List.filter (fun p => p.2 =? n) (map_to_list (pr_primaries st)))).

Definition primary_assignments (st : PrimaryRouteState) : gmap string Z := pr_primaries st.

Definition pr_primary_route_for (st : PrimaryRouteState) (route : string) : option Z :=
  match normalize_primary_routes [route] with
  | Ok s => match elements s with r :: _ => pr_primaries st !! r | [] => None end
  | Err _ => None
  end.

Record DebugRoutes := mkDebugRoutes {
  dbg_available_routes : gmap Z (list string);
  dbg_primary_routes : gmap string Z;
}.

Definition debug_routes (st : PrimaryRouteState) : DebugRoutes :=
  mkDebugRoutes ((fun r : gset string => sort_routes (elements r)) <$> pr_routes st) (pr_primaries st).

(** ** Active and approved routes *)

Definition parse_each (l : list string) : list string :=
  omap (fun r => match parse_prefix_text r with Ok p => Some p | Err _ => None end) l.

Definition active_approved_routes (available approved : list string) : list string :=
  List.filter (fun r => bool_decide (r ∈ parse_each approved)) (parse_each available).

Definition active_exit_routes (available approved : list string) : list string :=
  List.filter is_exit_route_str (active_approved_routes available approved).

Definition active_primary_routes (available approved : list string) : list string :=
  List.filter (fun r => negb (is_exit_route_str r)) (active_approved_routes available approved).

(** [go_netip::prefix_text]: the empty text is the zero prefix. *)
Definition prefix_text (s : string) : option string :=
  if bool_decide (s = ""%string) then Some ""%string
  else match parse_prefix_text s with Ok p => Some p | Err _ => None end.

Fixpoint typed_prefixes (values : list string) : result (list string) string :=
  match values with
  | [] => Ok []
  | v :: rest =>
      let? p := ok_or (prefix_text v) "invalid route prefix text"%string in
      let? out := typed_prefixes rest in
      Ok (p :: out)
  end.

(** [approves view route exit]: the policy snapshot's answer for this node. *)
Definition approve_step (approves : string -> bool -> bool) (has_addresses : bool) (approved : list string)
    (route : string) : list string :=
  if bool_decide (route = ""%string) || bool_decide (route ∈ approved) then approved
  else if has_addresses && approves route (is_exit_route_str route) then approved ++ [route] else approved.

Definition auto_approved_routes_with_snapshot (approves : string -> bool -> bool) (has_addresses : bool)
    (current_approved announced_routes : list string) : result (list string) string :=
  let? approved := typed_prefixes current_approved in
  let? announced := typed_prefixes announced_routes in
  let approved' := fold_left (approve_step approves has_addresses) announced approved in
  Ok (List.filter (fun r => negb (bool_decide (r = ""%string))) (dedup (sort_routes approved'))).

Definition auto_approval_changed (current approved : list string) : result bool string :=
  let? c := typed_prefixes current in
  Ok (negb (bool_decide (sort_routes c = approved))).

Definition auto_approved_routes_for_node (approves : string -> bool -> bool) (has_addresses : bool)
    (current_approved announced_routes : list string) : result (list string) string :=
  let? approved := auto_approved_routes_with_snapshot approves has_addresses current_approved announced_routes in
  let? changed := auto_approval_changed current_approved approved in
  Ok (if changed : bool then approved else current_approved).

(** The stateless election: per node key, the routes it is primary for. *)
Definition node_snapshot : Type := string * Z * list string * list string.

Definition snapshot_keys (nodes : list node_snapshot) : gmap Z string :=
  fold_left (fun m '(key, n, _, _) => match m !! n with Some _ => m | None => <[n := key]> m end) nodes ∅.

Definition primary_routes_by_node (nodes : list node_snapshot) : gmap string (list string) :=
  let keys := snapshot_keys nodes in
  match sync_routes PrimaryRouteState_new
          (map (fun '(_, n, available, approved) => (n, active_primary_routes available approved)) nodes) with
  | (_, Err _) => ∅
  | (st, Ok _) =>
      fold_left (fun m n => match keys !! n, primary_routes st n with
                            | Some key, (_ :: _) as routes => <[key := routes]> m
                            | _, _ => m
                            end) (sorted_keys keys) ∅
  end.

End routes.

(** ** Theorems *)

Definition advertises (st : PrimaryRouteState) (n : Z) (route : string) : Prop :=
  exists r, pr_routes st !! n = Some r /\ route ∈ r.

Lemma elem_of_sorted_keys {A} (m : gmap Z A) n : n ∈ sorted_keys m <-> is_Some (m !! n).
Proof.
  unfold sorted_keys. rewrite sort_by_In, list_elem_of_fmap. split.
  - intros ([k v] & -> & Hkv). apply elem_of_map_to_list in Hkv. eauto.
  - intros [v Hv]. exists (n, v). split; [done|]. by apply elem_of_map_to_list.
Qed.

Lemma elem_of_advertisers st route n : n ∈ advertisers st route <-> advertises st n route.
Proof.
  unfold advertisers, advertises. rewrite elem_of_filter_bool, elem_of_sorted_keys, bool_decide_eq_true. split.
  - intros [[r Hr] Hin]. rewrite Hr in Hin. eauto.
  - intros (r & Hr & Hin). rewrite Hr. eauto.
Qed.

Lemma advertisers_sorted st route : StronglySorted Z.le (advertisers st route).
Proof.
  apply StronglySorted_filter. unfold sorted_keys.
  eapply StronglySorted_ind with (R := le_cmp Z.compare); [constructor| |apply sort_by_sorted, _].
  intros a l _ IH Ha. constructor; [done|]. eapply Forall_impl; [exact Ha|]. intros x Hx.
  by apply Z.compare_le_iff.
Qed.

Lemma elem_of_available st route : route ∈ available_routes st <-> exists n, advertises st n route.
Proof.
  unfold available_routes, advertises. rewrite elem_of_union_list. split.
  - intros (r & Hr & Hin). apply list_elem_of_fmap in Hr as ([n r'] & -> & Hn).
    apply elem_of_map_to_list in Hn. eauto.
  - intros (n & r & Hr & Hin). exists r. split; [|done]. apply list_elem_of_fmap. exists (n, r). split; [done|].
    by apply elem_of_map_to_list.
Qed.

(** The outcome of the election for one route. *)
Definition elected (st : PrimaryRouteState) (nodes : list Z) (current : option Z) : option Z :=
  if keeps_primary st nodes current then current else List.find (fun n => negb (is_unhealthy st n)) nodes.

Lemma find_healthy_None st nodes :
  List.find (fun n => negb (is_unhealthy st n)) nodes = None -> forallb (is_unhealthy st) nodes = true.
Proof.
  intros Hf. apply forallb_forall. intros n Hn. pose proof (find_none _ _ Hf n Hn) as E. by apply negb_false_iff.
Qed.

(** When the incumbent is not kept, the new primary is the first healthy node
    (the fallback to the incumbent never applies) and differs from it. *)
Lemma new_primary_elected st nodes current :
  keeps_primary st nodes current = false ->
  new_primary st nodes current = elected st nodes current /\
  (forall n, new_primary st nodes current = Some n -> current <> Some n).
Proof.
  intros Hk. unfold elected. rewrite Hk. unfold new_primary, keeps_primary in *.
  destruct (List.find _ nodes) as [n|] eqn:Ef.
  - split; [done|]. intros ? [= <-] ->. apply find_some in Ef as [Hin Hh].
    rewrite bool_decide_eq_true_2, Hh in Hk by (by apply list_elem_of_In). done.
  - apply find_healthy_None in Ef. destruct current as [c|]; [|done]. rewrite Ef, orb_true_r, andb_true_r in Hk.
    by rewrite Hk.
Qed.

Definition differs (st : PrimaryRouteState) (primaries : gmap string Z) (route : string) : bool :=
  negb (bool_decide (elected st (advertisers st route) (primaries !! route) = primaries !! route)).

Lemma elect_route_eq st primaries changed route :
  let '(p', c') := elect_route st (primaries, changed) route in
  (forall r, p' !! r = if decide (r = route) then elected st (advertisers st route) (primaries !! route)
                       else primaries !! r) /\
  c' = changed || differs st primaries route.
Proof.
  unfold elect_route, differs. destruct (keeps_primary st _ _) eqn:Hk.
  - assert (elected st (advertisers st route) (primaries !! route) = primaries !! route) as ->
      by (unfold elected; by rewrite Hk).
    rewrite bool_decide_eq_true_2, orb_false_r by done. split; [|done]. intros r. by case_decide as Hr; subst.
  - destruct (new_primary_elected _ _ _ Hk) as [<- Hne]. destruct (new_primary _ _ _) as [n|] eqn:En.
    + rewrite bool_decide_eq_false_2, orb_true_r by (intros E; by apply (Hne n)). split; [|done].
      intros r. case_decide as Hr; [subst; by rewrite lookup_insert_eq|by rewrite lookup_insert_ne].
    + destruct (primaries !! route) as [c|] eqn:Ec.
      * rewrite bool_decide_eq_false_2, orb_true_r by done. split; [|done].
        intros r. case_decide as Hr; [subst; by rewrite lookup_delete_eq|by rewrite lookup_delete_ne].
      * rewrite bool_decide_eq_true_2, orb_false_r by done. split; [|done].
        intros r. case_decide as Hr; [by subst|done].
Qed.

Lemma elect_fold_eq st l primaries changed :
  NoDup l ->
  let '(p', c') := fold_left (elect_route st) l (primaries, changed) in
  (forall r, p' !! r = if decide (r ∈ l) then elected st (advertisers st r) (primaries !! r) else primaries !! r) /\
  c' = changed || existsb (differs st primaries) l.
Proof.
  intros Hnd. revert primaries changed. induction Hnd as [|x l Hx _ IH]; intros primaries changed; cbn [fold_left existsb].
  - rewrite orb_false_r. split; [|done]. intros r. by rewrite decide_False by set_solver.
  - pose proof (elect_route_eq st primaries changed x) as Hstep.
    destruct (elect_route st (primaries, changed) x) as [p1 c1]. destruct Hstep as [Hp1 ->].
    specialize (IH p1 (changed || differs st primaries x)).
    destruct (fold_left _ l _) as [p' c']. destruct IH as [Hp' ->].
    assert (forall r, r ∈ l -> p1 !! r = primaries !! r) as Hsame.
    { intros r Hr. rewrite Hp1, decide_False by (intros ->; done). done. }
    split.
    + intros r. rewrite Hp'. destruct (decide (r ∈ l)) as [Hr|Hr].
      * rewrite Hsame, decide_True by set_solver. done.
      * rewrite Hp1. destruct (decide (r = x)) as [->|Hrx].
        -- by rewrite (decide_True (P := x ∈ x :: l)) by set_solver.
        -- by rewrite (decide_False (P := r ∈ x :: l)) by set_solver.
    + rewrite <-orb_assoc. f_equal. f_equal. clear -Hsame.
      induction l as [|y l IHl]; simpl; [done|]. unfold differs at 1 3. rewrite Hsame by set_solver.
      f_equal. apply IHl. intros. apply Hsame. set_solver.
Qed.

Lemma drop_stale_fold available l primaries changed :
  let '(p', c') := fold_left (drop_stale available) l (primaries, changed) in
  (forall r, p' !! r = if decide (r ∈ l /\ r ∉ available) then None else primaries !! r) /\
  c' = changed || existsb (fun r => negb (bool_decide (r ∈ available))) l.
Proof.
  revert primaries changed. induction l as [|x l IH]; intros primaries changed; cbn [fold_left existsb].
  - rewrite orb_false_r. split; [|done]. intros r. by rewrite decide_False by set_solver.
  - unfold drop_stale at 2. cbn [fst]. case_bool_decide as Hx.
    + specialize (IH primaries changed). destruct (fold_left _ l _) as [p' c']. destruct IH as [Hp' ->]. simpl.
      split; [|done]. intros r. rewrite Hp'. repeat case_decide; (done || set_solver).
    + specialize (IH (delete x primaries) true). destruct (fold_left _ l _) as [p' c']. destruct IH as [Hp' ->].
      simpl. rewrite orb_true_r. split; [|done]. intros r. rewrite Hp'.
      destruct (decide (r = x)) as [->|Hne].
      * rewrite lookup_delete_eq, (decide_True (P := x ∈ x :: l /\ x ∉ available)) by set_solver. by case_decide.
      * rewrite lookup_delete_ne by done. repeat case_decide; (done || set_solver).
Qed.

Lemma elected_none st current : elected st [] current = None.
Proof. unfold elected, keeps_primary. destruct current; [|done]. by rewrite bool_decide_eq_false_2 by set_solver. Qed.

Lemma not_available st route : route ∉ available_routes st -> advertisers st route = [].
Proof.
  intros Hn. destruct (advertisers st route) as [|n l] eqn:E; [done|]. exfalso. apply Hn.
  apply elem_of_available. exists n. apply elem_of_advertisers. rewrite E. set_solver.
Qed.

(** The whole recomputation is the election of every route, and it reports a
    change exactly when some assignment changed. *)
Lemma update_primary_eq st :
  let '(st', changed) := update_primary_locked st in
  pr_routes st' = pr_routes st /\ pr_unhealthy st' = pr_unhealthy st /\
  (forall route, pr_primaries st' !! route = elected st (advertisers st route) (pr_primaries st !! route)) /\
  (changed = true <-> exists route, pr_primaries st' !! route <> pr_primaries st !! route).
Proof.
  unfold update_primary_locked.
  pose proof (elect_fold_eq st (elements (available_routes st)) (pr_primaries st) false (NoDup_elements _)) as H1.
  destruct (fold_left (elect_route st) _ _) as [p1 c1]. destruct H1 as [Hp1 Hc1]. cbn [fst].
  pose proof (drop_stale_fold (available_routes st) (map fst (map_to_list p1)) p1 c1) as H2.
  destruct (fold_left (drop_stale _) _ _) as [p2 c2]. destruct H2 as [Hp2 Hc2]. cbn [fst snd pr_routes pr_unhealthy pr_primaries].
  assert (forall r, r ∈ map fst (map_to_list p1) <-> is_Some (p1 !! r)) as Hkeys.
  { intros r. rewrite list_elem_of_fmap. split.
    - intros ([k v] & -> & Hkv). apply elem_of_map_to_list in Hkv. eauto.
    - intros [v Hv]. exists (r, v). split; [done|]. by apply elem_of_map_to_list. }
  assert (forall r, p2 !! r = elected st (advertisers st r) (pr_primaries st !! r)) as Hall.
  { intros r. rewrite Hp2. destruct (decide (r ∈ available_routes st)) as [Hr|Hr].
    - rewrite decide_False by tauto. rewrite Hp1, decide_True by (by apply elem_of_elements). done.
    - rewrite (not_available st r Hr), elected_none. case_decide as Hd; [done|].
      destruct (p1 !! r) eqn:E; [|done]. exfalso. apply Hd. split; [|done]. apply Hkeys. eauto. }
  split_and!; try done. rewrite Hc2, Hc1, orb_false_l, orb_true_iff, !existsb_elem. split.
  - intros [(r & Hr & Hd)|(r & Hr & Hd)]; exists r; rewrite Hall.
    + unfold differs in Hd. by apply negb_true_iff, bool_decide_eq_false in Hd.
    + apply negb_true_iff, bool_decide_eq_false in Hd. rewrite (not_available st r Hd), elected_none.
      apply Hkeys in Hr as [v Hv]. rewrite Hp1, decide_False in Hv by (by rewrite elem_of_elements). by rewrite Hv.
  - intros (r & Hr). rewrite Hall in Hr. destruct (decide (r ∈ available_routes st)) as [Ha|Ha].
    + left. exists r. split; [by apply elem_of_elements|]. unfold differs. by rewrite bool_decide_eq_false_2.
    + right. exists r. rewrite (not_available st r Ha), elected_none in Hr. split; [|by rewrite bool_decide_eq_false_2].
      apply Hkeys. rewrite Hp1, decide_False by (by rewrite elem_of_elements).
      destruct (pr_primaries st !! r); [eauto|done].
Qed.

Definition healthy (st : PrimaryRouteState) (n : Z) : Prop := n ∉ pr_unhealthy st.

Lemma is_unhealthy_false st n : is_unhealthy st n = false <-> healthy st n.
Proof. unfold is_unhealthy, healthy. apply bool_decide_eq_false. Qed.

Lemma find_sorted_least (P : Z -> bool) l n :
  StronglySorted Z.le l -> List.find P l = Some n -> n ∈ l /\ P n = true /\ forall m, m ∈ l -> P m = true -> n <= m.
Proof.
  induction 1 as [|x l _ IH Hx]; simpl; [done|]. destruct (P x) eqn:E.
  - intros [= <-]. split_and!; [set_solver|done|]. intros m Hm Hp. apply elem_of_cons in Hm as [->|Hm]; [lia|].
    rewrite Forall_forall in Hx. by apply Hx.
  - intros Hf. destruct (IH Hf) as (Hin & Hp & Hle). split_and!; [set_solver|done|].
    intros m Hm HPm. apply elem_of_cons in Hm as [->|Hm]; [congruence|auto].
Qed.

(** C4. The election: after every recomputation a route's primary advertises
    it and is healthy (or is the incumbent, when every advertiser is unhealthy);
    an incumbent that still advertises and is healthy is kept; a new primary is
    the healthy advertiser of the least id; a route has no primary only when no
    advertiser is healthy and the incumbent is gone; and the call reports a
    change exactly when some assignment changed. *)
Theorem primary_election st :
  let '(st', changed) := update_primary_locked st in
  (forall route,
    match pr_primaries st' !! route with
    | Some n =>
        advertises st n route /\
        (healthy st n \/ (pr_primaries st !! route = Some n /\ forall m, advertises st m route -> ~ healthy st m)) /\
        (forall c, pr_primaries st !! route = Some c -> advertises st c route -> healthy st c -> n = c) /\
        (pr_primaries st !! route = Some n \/ forall m, advertises st m route -> healthy st m -> n <= m)
    | None => forall n, advertises st n route -> ~ healthy st n /\ pr_primaries st !! route <> Some n
    end) /\
  (changed = true <-> pr_primaries st' <> pr_primaries st).
Proof.
  pose proof (update_primary_eq st) as Hu. destruct (update_primary_locked st) as [st' changed].
  destruct Hu as (_ & _ & Hp & Hc). split.
  2: { rewrite Hc. split.
       - intros (r & Hr) E. apply Hr. by rewrite E.
       - intros Hne. destruct (decide (changed = true)) as [E|E]; [by apply Hc|]. exfalso. apply Hne. apply map_eq.
         intros r. destruct (decide (pr_primaries st' !! r = pr_primaries st !! r)) as [|Hd]; [done|].
         exfalso. apply E, Hc. eauto. }
  intros route. rewrite Hp. unfold elected. destruct (keeps_primary _ _ _) eqn:Hk.
  - unfold keeps_primary in Hk. destruct (pr_primaries st !! route) as [c|]; [|done].
    apply andb_true_iff in Hk as [Hin Hh]. apply bool_decide_eq_true, elem_of_advertisers in Hin.
    split_and!; [done| |by intros ? [= <-]|by left].
    apply orb_true_iff in Hh as [Hh|Hh].
    + left. by apply is_unhealthy_false, negb_true_iff.
    + right. split; [done|]. intros m Hm Hhm. rewrite forallb_forall in Hh.
      apply elem_of_advertisers, list_elem_of_In, Hh in Hm. apply is_unhealthy_false in Hhm. congruence.
  - destruct (List.find _ _) as [n|] eqn:Ef.
    + destruct (find_sorted_least _ _ _ (advertisers_sorted st route) Ef) as (Hin & Hh & Hle).
      apply elem_of_advertisers in Hin. apply negb_true_iff, is_unhealthy_false in Hh.
      split_and!; [done|by left| |].
      * intros c Hcur Hadv Hhc. exfalso. unfold keeps_primary in Hk. rewrite Hcur in Hk.
        rewrite bool_decide_eq_true_2 in Hk by (by apply elem_of_advertisers).
        apply is_unhealthy_false in Hhc. by rewrite Hhc in Hk.
      * right. intros m Hm Hhm. apply Hle; [by apply elem_of_advertisers|].
        by apply negb_true_iff, is_unhealthy_false.
    + intros n Hn. pose proof Hn as Hn'. apply elem_of_advertisers in Hn'. split.
      * intros Hh. apply is_unhealthy_false in Hh. apply list_elem_of_In in Hn'.
        pose proof (find_none _ _ Ef n Hn') as E. simpl in E. by rewrite Hh in E.
      * intros Hcur. unfold keeps_primary in Hk. rewrite Hcur, bool_decide_eq_true_2 in Hk by done.
        by rewrite (find_healthy_None _ _ Ef), orb_true_r in Hk.
Qed.

(** *** Reachable states *)

Section reachable.
Context `{NetipTextLaws}.

Definition route_text_ok (route : string) : Prop :=
  parse_prefix_text route = Ok route /\ is_exit_route route = false.

Record primary_ok (st : PrimaryRouteState) : Prop := {
  po_routes : forall n r, pr_routes st !! n = Some r -> r <> ∅ /\ forall route, route ∈ r -> route_text_ok route;
  po_primaries : forall route n, pr_primaries st !! route = Some n -> advertises st n route;
}.

Inductive primary_step : PrimaryRouteState -> PrimaryRouteState -> Prop :=
| ps_set st n routes : primary_step st (set_routes st n routes).1
| ps_sync st nodes : primary_step st (sync_routes st nodes).1
| ps_health st n healthy : primary_step st (set_node_health st n healthy).1
| ps_batch st updates : primary_step st (set_node_health_batch st updates).1
| ps_clear st n : primary_step st (clear_unhealthy st n).

Inductive primary_reachable : PrimaryRouteState -> Prop :=
| pr_init : primary_reachable PrimaryRouteState_new
| pr_next st st' : primary_reachable st -> primary_step st st' -> primary_reachable st'.

Lemma normalize_primary_ok routes r :
  normalize_primary_routes routes = Ok r -> forall route, route ∈ r -> route_text_ok route.
Proof.
  revert r. induction routes as [|s routes IH]; intros r; simpl; [intros [= <-]; set_solver|].
  destruct (parse_prefix_text s) as [p|] eqn:Ep; [|done]. simpl.
  destruct (normalize_primary_routes routes) as [out|]; [|done]. simpl. intros [= <-] route.
  destruct (is_exit_route p) eqn:Ex; [by apply IH|]. rewrite elem_of_union, elem_of_singleton.
  intros [->|Hr]; [|by apply (IH out)]. split; [by eapply parse_prefix_canonical|done].
Qed.

(** Recomputing re-establishes ownership for any routing table. *)
Lemma update_primary_ok st :
  (forall n r, pr_routes st !! n = Some r -> r <> ∅ /\ forall route, route ∈ r -> route_text_ok route) ->
  primary_ok (update_primary_locked st).1.
Proof.
  intros Hr. pose proof (update_primary_eq st) as Hu. destruct (update_primary_locked st) as [st' changed].
  destruct Hu as (Hroutes & _ & Hp & _). cbn [fst]. split; [by rewrite Hroutes|].
  intros route n. rewrite Hp. unfold advertises. rewrite Hroutes. intros He. apply elem_of_advertisers.
  unfold elected in He. destruct (keeps_primary _ _ _) eqn:Hk.
  - unfold keeps_primary in Hk. rewrite He in Hk. apply andb_true_iff in Hk as [Hin _]. by apply bool_decide_eq_true in Hin.
  - apply find_some in He as [Hin _]. by apply list_elem_of_In.
Qed.

Lemma collect_routes_ok nodes acc out :
  (forall n r, acc !! n = Some r -> r <> ∅ /\ forall route, route ∈ r -> route_text_ok route) ->
  collect_routes nodes acc = Ok out ->
  forall n r, out !! n = Some r -> r <> ∅ /\ forall route, route ∈ r -> route_text_ok route.
Proof.
  revert acc. induction nodes as [|[k routes] nodes IH]; intros acc Hacc; simpl; [intros [= <-]; done|].
  destruct (normalize_primary_routes routes) as [r0|] eqn:En; [|done]. cbn [result_bind]. apply IH.
  case_bool_decide as He; [done|]. intros n r. destruct (decide (k = n)) as [<-|].
  - rewrite lookup_insert_eq. intros [= <-]. split; [done|]. by apply (normalize_primary_ok routes).
  - rewrite lookup_insert_ne by done. apply Hacc.
Qed.

Lemma primary_step_ok st st' : primary_ok st -> primary_step st st' -> primary_ok st'.
Proof.
  intros [Hr Hp] Hstep. destruct Hstep as [st n routes|st nodes|st n h|st updates|st n].
  - unfold set_routes. destruct (normalize_primary_routes routes) as [r|] eqn:En; [|by split].
    case_bool_decide as He;
      (match goal with |- context [update_primary_locked ?s] =>
         pose proof (update_primary_ok s) as Hu; destruct (update_primary_locked s) end); apply Hu; cbn [pr_routes].
    + intros m r'. destruct (decide (n = m)) as [<-|]; [by rewrite lookup_delete_eq|rewrite lookup_delete_ne by done].
      apply Hr.
    + intros m r'. destruct (decide (n = m)) as [<-|].
      * rewrite lookup_insert_eq. intros [= <-]. split; [done|]. by apply (normalize_primary_ok routes).
      * rewrite lookup_insert_ne by done. apply Hr.
  - unfold sync_routes. destruct (collect_routes nodes ∅) as [routes|] eqn:Ec; [|by split].
    match goal with |- context [update_primary_locked ?s] =>
      pose proof (update_primary_ok s) as Hu; destruct (update_primary_locked s) end. apply Hu. cbn [pr_routes].
    eapply collect_routes_ok; [|exact Ec]. intros n r. by rewrite lookup_empty.
  - unfold set_node_health. destruct (flip_health _ _ _) as [u [|]]; cbn [negb fst]; [by apply update_primary_ok|].
    by split.
  - unfold set_node_health_batch. destruct (fold_left _ _ _) as [u [|]]; cbn [negb fst]; [by apply update_primary_ok|].
    by split.
  - by split.
Qed.

(** Ownership: in every reachable state a route's primary is a node that
    currently advertises it, and the default (exit) routes, which are served
    separately, never have one. *)
Theorem primary_owner_advertises st route n :
  primary_reachable st -> pr_primaries st !! route = Some n -> advertises st n route /\ is_exit_route route = false.
Proof.
  intros Hreach Hp. assert (primary_ok st) as [Hr Hpr].
  { clear Hp. induction Hreach as [|st st' _ IH Hs]; [|by eapply primary_step_ok].
    split; simpl; intros *; by rewrite lookup_empty. }
  pose proof (Hpr route n Hp) as (r & Hn & Hin). split; [by exists r|]. by apply (Hr n r Hn).
Qed.

(** *** Sorted route lists *)

Definition typed_text (p : string) : Prop := p = ""%string \/ parse_prefix_text p = Ok p.

Lemma dedup_sort_routes l :
  (forall p, p ∈ l -> typed_text p) ->
  NoDup (dedup (sort_routes l)) /\ StronglySorted (fun p q => prefix_compare p q <> Some Gt) (dedup (sort_routes l)).
Proof.
  intros Ht. destruct prefix_compare_total as (cmp & Htot & Hcmp).
  assert (sort_routes l = sort_by cmp l) as ->.
  { apply sort_by_ext. intros a b Ha Hb. unfold route_cmp. by destruct (Hcmp a b (Ht a Ha) (Ht b Hb)) as [-> _]. }
  destruct (dedup_NoDup cmp (sort_by cmp l)) as [Hnd Hs]; [by apply sort_by_sorted| |].
  { intros p q Hp Hq Hpq Hqp. rewrite sort_by_In in Hp, Hq. apply (Hcmp p q); [by apply Ht..|].
    rewrite cmp_opp in Hqp. by destruct (cmp p q). }
  split; [done|]. assert (forall p, p ∈ dedup (sort_by cmp l) -> typed_text p) as Htd.
  { intros p Hp. apply Ht. by rewrite elem_of_dedup, sort_by_In in Hp. }
  clear -Hs Htd Hcmp. induction Hs as [|x t _ IH Hx]; constructor; [apply IH; set_solver|].
  rewrite Forall_forall in *. intros y Hy. destruct (Hcmp x y) as [-> _]; [apply Htd; set_solver..|].
  intros [= E]. by apply (Hx y Hy).
Qed.

(** What an approval or announcement of the prefix [q] stands for. *)
Definition expands (expand_exit_routes : bool) (q p : string) : Prop :=
  if expand_exit_routes && is_exit_route q then p = "0.0.0.0/0"%string \/ p = "::/0"%string else p = q.

Lemma normalize_each_spec routes expand out :
  normalize_each routes expand = Ok out ->
  (forall p, p ∈ out <-> exists r q, r ∈ routes /\ parse_prefix_text r = Ok q /\ expands expand q p) /\
  (forall p, p ∈ out -> typed_text p).
Proof.
  revert out. induction routes as [|s routes IH]; intros out; cbn [normalize_each].
  - intros [= <-]. split; intros p; [|set_solver]. split; [set_solver|]. intros (r & q & Hr & _). set_solver.
  - destruct (parse_prefix_text s) as [q|] eqn:Eq; [|done]. cbn [result_bind].
    destruct (normalize_each routes expand) as [out'|]; [|done]. cbn [result_bind]. intros [= <-].
    destruct (IH out' eq_refl) as [Hmem Hty].
    set (l := if expand && is_exit_route q then _ else _).
    assert (forall p, p ∈ l <-> expands expand q p) as Hl.
    { intros p. unfold l, expands. destruct (expand && is_exit_route q); set_solver. }
    split; intros p; rewrite elem_of_app, Hl.
    + rewrite Hmem. split.
      * intros [He|(r & q' & Hr & Hp & He)]; [exists s, q|exists r, q']; split_and!; set_solver.
      * intros (r & q' & Hr & Hp & He). apply elem_of_cons in Hr as [->|Hr]; [left; congruence|right; eauto].
    + intros [He|Hp]; [|by apply Hty]. right. unfold expands in He. destruct (expand && is_exit_route q).
      * apply parse_exit_texts. set_solver.
      * subst p. by eapply parse_prefix_canonical.
Qed.

(** Normalising routes yields each prefix once, in prefix order, and exactly
    the canonical prefixes of the inputs; for operator approvals either default
    route stands for both families. *)
Theorem normalize_route_set_spec routes expand out :
  normalize_route_set routes expand = Ok out ->
  NoDup out /\ StronglySorted (fun p q => prefix_compare p q <> Some Gt) out /\
  forall p, p ∈ out <-> exists r q, r ∈ routes /\ parse_prefix_text r = Ok q /\ expands expand q p.
Proof.
  unfold normalize_route_set. destruct (normalize_each routes expand) as [l|] eqn:E; [|done].
  cbn [result_bind]. intros [= <-]. destruct (normalize_each_spec _ _ _ E) as [Hmem Hty].
  destruct (dedup_sort_routes l Hty) as [Hnd Hs]. split_and!; [done|done|].
  intros p. rewrite elem_of_dedup. unfold sort_routes. by rewrite sort_by_In.
Qed.

(** *** Auto-approval *)

Lemma typed_prefixes_spec l out :
  typed_prefixes l = Ok out -> forall p, p ∈ out <-> exists s, s ∈ l /\ prefix_text s = Some p.
Proof.
  revert out. induction l as [|v l IH]; intros out; simpl.
  - intros [= <-] p. split; [set_solver|]. intros (s & Hs & _). set_solver.
  - destruct (prefix_text v) as [q|] eqn:Eq; [|done]. simpl. destruct (typed_prefixes l) as [ps|]; [|done]. simpl.
    intros [= <-] p. rewrite elem_of_cons, (IH ps) by done. split.
    + intros [->|(s & Hs & Hp)]; [exists v; set_solver|exists s; set_solver].
    + intros (s & Hs & Hp). apply elem_of_cons in Hs as [->|Hs]; [left; congruence|right; eauto].
Qed.

Lemma approve_fold_spec approves ha announced approved r :
  r ∈ fold_left (approve_step approves ha) announced approved <->
  r ∈ approved \/ (r ∈ announced /\ r <> ""%string /\ ha = true /\ approves r (is_exit_route_str r) = true).
Proof.
  revert approved. induction announced as [|a announced IH]; intros approved; cbn [fold_left].
  - set_solver.
  - rewrite IH. unfold approve_step. rewrite elem_of_cons.
    case_bool_decide as Ha; [|case_bool_decide as Hin]; cbn [orb].
    + split; [tauto|]. intros [?|([->|?] & ? & ? & ?)]; tauto.
    + split; [tauto|]. intros [?|([->|?] & ? & ? & ?)]; tauto.
    + destruct (ha && approves a (is_exit_route_str a)) eqn:E.
      * apply andb_true_iff in E as [E1 E2]. rewrite elem_of_app, list_elem_of_singleton. split.
        -- intros [[?| ->]|?]; [tauto|right; tauto|tauto].
        -- intros [?|([->|?] & ? & ? & ?)]; tauto.
      * apply andb_false_iff in E. split; [tauto|]. intros [?|([->|?] & ? & -> & Hap)]; [tauto| |tauto].
        destruct E; congruence.
Qed.

Lemma typed_prefixes_typed l out : typed_prefixes l = Ok out -> forall p, p ∈ out -> typed_text p.
Proof.
  intros Hl p Hp. apply (typed_prefixes_spec _ _ Hl) in Hp as (s & _ & Hp). revert Hp. unfold prefix_text.
  case_bool_decide; [by intros [= <-]; left|]. destruct (parse_prefix_text s) as [q|] eqn:E; [|done].
  intros [= <-]. right. by eapply parse_prefix_canonical.
Qed.

Lemma prefix_text_nonempty s r :
  (prefix_text s = Some r /\ r <> ""%string) <-> parse_prefix_text s = Ok r.
Proof.
  unfold prefix_text. case_bool_decide as Es.
  - subst. split; [intros [[= <-] ?]; done|]. intros Hp. by apply parse_prefix_nonempty in Hp as [_ ?].
  - destruct (parse_prefix_text s) as [p|] eqn:Ep; split.
    + by intros [[= <-] _].
    + intros [= <-]. split; [done|]. by apply parse_prefix_nonempty in Ep as [? _].
    + by intros [? _].
    + done.
Qed.

(** Auto-approval adds and never removes: the result is, each once, the
    node's existing approvals (in canonical form) together with exactly those
    announced routes the policy approves for it. *)
Theorem auto_approval_spec approves ha current announced out :
  auto_approved_routes_with_snapshot approves ha current announced = Ok out ->
  NoDup out /\ forall r, r ∈ out <->
  (exists c, c ∈ current /\ parse_prefix_text c = Ok r) \/
  (exists a, a ∈ announced /\ parse_prefix_text a = Ok r /\ ha = true /\ approves r (is_exit_route_str r) = true).
Proof.
  unfold auto_approved_routes_with_snapshot. destruct (typed_prefixes current) as [cur|] eqn:Ec; [|done]. cbn [result_bind].
  destruct (typed_prefixes announced) as [ann|] eqn:Ea; [|done]. cbn [result_bind]. intros [= <-]. split.
  - apply NoDup_ListNoDup, List.NoDup_filter, NoDup_ListNoDup, dedup_sort_routes. intros p.
    rewrite approve_fold_spec. intros [Hp|[Hp _]]; [by apply (typed_prefixes_typed _ _ Ec)|by apply (typed_prefixes_typed _ _ Ea)].
  - intros r. rewrite elem_of_filter_bool, elem_of_dedup. unfold sort_routes. rewrite sort_by_In, approve_fold_spec.
    rewrite (typed_prefixes_spec _ _ Ec), (typed_prefixes_spec _ _ Ea), negb_true_iff, bool_decide_eq_false.
    split.
    + intros [[(c & Hc & Hp)|((a & Haa & Hp) & Hne' & Hh & Hap)] Hne]; [left; exists c|right; exists a];
        split_and!; try done; by apply prefix_text_nonempty.
    + intros [(c & Hc & Hp)|(a & Haa & Hp & Hh & Hap)]; apply prefix_text_nonempty in Hp as [Hp Hne]; (split; [|done]);
        [left; eauto|right; split_and!; eauto].
Qed.

End reachable.

(** ** The interface is discharged by [GoNetip] *)

#[export] Instance go_netip_text : NetipText := {|
  netip_error := NetipError;
  parse_prefix_text := GoNetip.parse_prefix_text;
  prefix_compare := GoNetip.prefix_compare;
|}.

(** The order key of a text; the empty text comes before every prefix. *)
Definition text_key (s : string) : Z * Z * Z * Z :=
  match GoNetip.parse_prefix s with Ok p => prefix_key p | Err _ => (0, 0, 0, 0) end.

Lemma text_key_compare p q :
  typed_text p -> typed_text q ->
  GoNetip.prefix_compare p q = Some (key_cmp (text_key p) (text_key q)) /\
  (key_cmp (text_key p) (text_key q) = Eq -> p = q).
Proof.
  assert (forall s, typed_text s -> s = ""%string \/ exists ip bits, GoNetip.parse_prefix s = Ok (ip, bits) /\ show_prefix ip bits = s) as Hty.
  { intros s [->|Hs]; [by left|right]. cbn in Hs. unfold GoNetip.parse_prefix_text in Hs.
    destruct (GoNetip.parse_prefix s) as [[ip bits]|]; [|done]. exists ip, bits.
    cbn [result_bind] in Hs. injection Hs as Hs. done. }
  assert (forall ip bits, exists n, prefix_key (ip, bits) = (ip_width ip, n, bits, ip_value ip)) as Hkey by (intros; by eexists).
  intros [->|(ip & i & Hp & Ep)]%Hty [->|(ip' & j & Hq & Eq)]%Hty.
  - done.
  - unfold GoNetip.prefix_compare, prefix_parts, text_key. cbn [bool_decide]. rewrite Hq.
    rewrite (bool_decide_false (q = _)) by (by intros ->). destruct (Hkey ip' j) as [n ->]. by destruct ip'.
  - unfold GoNetip.prefix_compare, prefix_parts, text_key. rewrite Hp.
    rewrite (bool_decide_false (p = _)) by (by intros ->). destruct (Hkey ip i) as [n ->]. by destruct ip.
  - unfold text_key. rewrite Hp, Hq. split; [by apply prefix_compare_key|].
    intros [= -> ->]%key_cmp_eq%prefix_key_inj. congruence.
Qed.

#[export] Instance go_netip_laws : NetipTextLaws.
Proof.
  split.
  - intros s p Hp. by apply parse_prefix_text_fixed in Hp.
  - intros s p Hp. by apply parse_prefix_text_nonempty in Hp.
  - intros p Hp. repeat (apply elem_of_cons in Hp as [->|Hp]; [vm_compute; reflexivity|]). by apply elem_of_nil in Hp.
  - intros typed. exists (fun p q => key_cmp (text_key p) (text_key q)). split; [by apply on_key_total, key_cmp_total|].
    intros p q Hp Hq. by apply text_key_compare.
Qed.

(** ** Instances of the theorems *)

Module PrimaryExamples.

Definition st1 : PrimaryRouteState :=
  (set_routes (set_routes PrimaryRouteState_new 2 ["10.0.0.0/8"%string; "::/0"%string]).1 1 ["10.0.0.0/8"%string]).1.

Lemma st1_reachable : primary_reachable st1.
Proof. eapply pr_next; [eapply pr_next; [apply pr_init|apply ps_set]|apply ps_set]. Qed.

(** Node 2 came first and keeps the route. *)
Lemma primary_owner_advertises_witness :
  advertises st1 2 "10.0.0.0/8" /\ is_exit_route "10.0.0.0/8" = false.
Proof. apply (primary_owner_advertises st1 _ _ st1_reachable). vm_compute. reflexivity. Defined.

(** A policy that approves one network. *)
Definition only_lan (route : string) (_ : bool) : bool := bool_decide (route = "192.168.0.0/16"%string).

Lemma auto_approval_spec_witness :
  "192.168.0.0/16"%string ∈ ["10.0.0.0/8"%string; "192.168.0.0/16"%string] <->
  (exists c, c ∈ ["10.0.0.0/8"%string] /\ parse_prefix_text c = Ok "192.168.0.0/16"%string) \/
  (exists a, a ∈ ["192.168.0.0/16"%string; "172.16.0.0/12"%string] /\ parse_prefix_text a = Ok "192.168.0.0/16"%string /\
     true = true /\ only_lan "192.168.0.0/16" (is_exit_route_str "192.168.0.0/16") = true).
Proof.
  apply (auto_approval_spec only_lan true ["10.0.0.0/8"%string] ["192.168.0.0/16"%string; "172.16.0.0/12"%string]).
  vm_compute. reflexivity.
Defined.

(** One default route approved twice over stands for both, each listed once. *)
Lemma normalize_route_set_spec_witness :
  let out := ["0.0.0.0/0"; "10.0.0.0/8"; "::/0"]%string in
  normalize_routes ["10.0.0.0/8"; "::/0"; "010.0.0.0/8"]%string <> Ok out /\
  NoDup out /\ StronglySorted (fun p q => prefix_compare p q <> Some Gt) out /\
  forall p, p ∈ out <->
    exists r q, r ∈ ["::/0"; "10.0.0.0/8"; "0.0.0.0/0"; "10.0.0.0/8"]%string /\ parse_prefix_text r = Ok q /\ expands true q p.
Proof.
  split; [vm_compute; discriminate|]. apply normalize_route_set_spec. vm_compute. reflexivity.
Defined.

End PrimaryExamples.
