(* ===== verification/Resolution.v ===== *)
(** * Resolution: the addresses an alias stands for
    (headscale-api/src/policy/resolution.rs)

    The packet-filter compiler resolves every alias of the policy against the
    nodes of the tailnet.  A resolution yields an optional list of prefix texts
    and errors; what is usable of a failed one is up to the caller.  Error texts
    are the constructors of [ResolveError].  [None] is a panic of the CIDR printer
    or the end of the fuel with which groups are followed; the theorems show that
    neither occurs, and that a group resolves to exactly the prefixes of the
    entries its references lead to, groups that contain themselves included. *)

From stdpp Require Import base list gmap strings sets.
From Stdlib Require Import ZArith Lia Ascii.
From S2P Require Import Prelude Text Bytes Net GoNetip PolicyPorts Reach Policy Intervals IpSet.

Open Scope Z_scope.

Inductive ResolveError :=
| MultipleUsers (token : string)
| AddInvalidIp
| SelfNeedsNode
| UnknownAutogroup (token : string)
| RecursiveGroup
| InvalidPrefix (prefix : string)
| UnknownHost (host : string).

Record ResolvedAlias := mkResolved { ra_ips : option (list string); ra_errors : list ResolveError }.

Definition resolved_set (ips : list string) : ResolvedAlias := mkResolved (Some ips) [].
Definition resolved_failed (e : ResolveError) : ResolvedAlias := mkResolved None [e].

Definition partial (r : ResolvedAlias) : list string := default [] (ra_ips r).

(** [Err] keeps the list the message is made of. *)
Definition checked (r : ResolvedAlias) : result (list string) (list ResolveError) :=
  match ra_errors r with [] => Ok (partial r) | es => Err es end.

Definition append (r other : ResolvedAlias) : ResolvedAlias :=
  mkResolved (Some (partial r ++ partial other)) (ra_errors r ++ ra_errors other).

Definition tailnet_filter_srcs : list string :=
  ["100.115.94.0-100.127.255.255"; "100.64.0.0-100.115.91.255"; "fd7a:115c:a1e0::/48"]%string.

Definition add_address (r : ResolvedAlias) (address : string) : ResolvedAlias :=
  match parse_addr address with
  | Ok (ip, _) => mkResolved (Some (partial r ++ [show_prefix ip (ip_width ip)])) (ra_errors r)
  | Err _ => mkResolved (ra_ips r) (ra_errors r ++ [AddInvalidIp])
  end.

Definition node_addresses (nodes : list PacketFilterNode) : ResolvedAlias :=
  fold_left (fun r node => fold_left add_address (fn_addrs node) r) nodes (resolved_set []).

Definition untagged (node : PacketFilterNode) : bool := bool_decide (fn_tags node = []).

Definition username (d : AclDoc) (token : string) (nodes : list PacketFilterNode) : ResolvedAlias :=
  match doc_users d with
  | None => node_addresses (List.filter (fun n => untagged n && user_matches d token (fn_user_id n) (fn_user n)) nodes)
  | Some users =>
      let name := default token (strip_suffix "@" token) in
      let matching := List.filter (fun u => bool_decide (user_email u = name) || bool_decide (user_name u = name)) users in
      let of_user id := node_addresses (List.filter (fun n => untagged n && bool_decide (fn_user_id n = Some id)) nodes) in
      match find (fun u => bool_decide (user_provider u = Some name)) users, matching with
      | Some u, _ => of_user (user_id u)
      | None, [u] => of_user (user_id u)
      | None, [] => resolved_set []
      | None, _ => let r := of_user 0 in mkResolved (ra_ips r) (MultipleUsers token :: ra_errors r)
      end
  end.

Section resolve.
Context `{IpNetLib}.

(** An alias that is not a group. *)
Definition resolve_simple (d : AclDoc) (nodes : list PacketFilterNode) (token : string) : option ResolvedAlias :=
  match alias_prefix token with
  | Some prefix => resolved_set <$> ipset_string_to_cidrs prefix
  | None =>
      if bool_decide (alias_kind token = Some Username) then Some (username d token nodes)
      else if bool_decide (token = "*"%string) then Some (resolved_set tailnet_filter_srcs)
      else if bool_decide (token = "autogroup:danger-all"%string) then Some (resolved_set wildcard_filter_cidrs)
      else if bool_decide (token = "autogroup:internet"%string) then Some (resolved_set internet_filter_cidrs)
      else if bool_decide (token = "autogroup:member"%string) then Some (node_addresses (List.filter untagged nodes))
      else if bool_decide (token = "autogroup:tagged"%string)
      then Some (node_addresses (List.filter (fun n => negb (untagged n)) nodes))
      else if bool_decide (token = "autogroup:self"%string) then Some (resolved_failed SelfNeedsNode)
      else if starts_with "autogroup:" token then Some (resolved_failed (UnknownAutogroup token))
      else if starts_with "tag:" token
      then Some (node_addresses (List.filter (fun n => bool_decide (token ∈ fn_tags n)) nodes))
      else
        let host := default token (strip_prefix "host:" token) in
        match doc_hosts d !! host with
        | Some prefix =>
            ips ← ipset_string_to_cidrs prefix;
            Some (match ips with [] => resolved_failed (InvalidPrefix prefix) | _ => resolved_set ips end)
        | None =>
            ips ← ipset_string_to_cidrs token;
            Some (match ips with [] => resolved_failed (UnknownHost host) | _ => resolved_set ips end)
        end
  end.

(** The branch of [resolve] that an alias takes to its group. *)
Definition takes_group (token : string) : bool :=
  bool_decide (alias_prefix token = None) && bool_decide (alias_kind token <> Some Username) && starts_with "group:" token.

Definition group_entries (d : AclDoc) (token : string) : option (list string) :=
  match doc_groups d !! token with
  | Some m => Some m
  | None => strip_prefix "group:" token ≫= fun group => doc_groups d !! group
  end.

Fixpoint resolve (fuel : nat) (d : AclDoc) (nodes : list PacketFilterNode) (visiting : gset string) (token : string)
  : option ResolvedAlias :=
  if takes_group token then
    match fuel with
    | O => None
    | S f =>
        if bool_decide (token ∈ visiting) then Some (resolved_failed RecursiveGroup)
        else
          rs ← mapM (fun member => if has_char "@" member then Some (username d member nodes)
                                   else resolve f d nodes ({[token]} ∪ visiting) member)
                    (default [] (group_entries d token));
          Some (fold_left append rs (resolved_set []))
    end
  else resolve_simple d nodes token.

Definition resolve_alias (d : AclDoc) (nodes : list PacketFilterNode) (token : string) : option ResolvedAlias :=
  resolve (S (group_fuel d)) d nodes ∅ token.

Definition aliases (d : AclDoc) (tokens : list string) (nodes : list PacketFilterNode) : option ResolvedAlias :=
  rs ← mapM (resolve_alias d nodes) tokens; Some (fold_left append rs (resolved_set [])).

Definition owners (d : AclDoc) (tokens : list string) (nodes : list PacketFilterNode) : option ResolvedAlias :=
  rs ← mapM (fun token => if has_char "@" token then Some (username d token nodes) else resolve_alias d nodes token) tokens;
  Some (fold_left append rs (resolved_set [])).
End resolve.

(** ** Groups *)

Lemma fold_append_partial rs : forall acc,
  partial (fold_left append rs acc) = partial acc ++ flat_map partial rs.
Proof.
  induction rs as [|r rs IH]; intros acc; cbn [fold_left flat_map]; [by rewrite app_nil_r|].
  rewrite IH. change (partial (append acc r)) with (partial acc ++ partial r). by rewrite <-app_assoc.
Qed.

Lemma takes_group_plain token : takes_group token = true -> has_char "@" token = false /\ starts_with "group:" token = true.
Proof.
  unfold takes_group. rewrite !andb_true_iff, !bool_decide_eq_true. intros [[Hp Hk] Hg]. split; [|done].
  destruct (has_char "@" token) eqn:E; [|done]. exfalso. apply Hk. unfold alias_kind. rewrite Hp, E.
  rewrite bool_decide_false by (intros [? [=]]). case_bool_decide as Hs; [|done]. subst. done.
Qed.

Lemma group_entries_defined d g ms : group_entries d g = Some ms -> g ∈ group_keys d.
Proof.
  unfold group_entries, group_keys. rewrite elem_of_union, elem_of_map, elem_of_dom.
  destruct (doc_groups d !! g) as [m|] eqn:E; [eauto|]. intros (s & Hs%strip_prefix_Some & Hm)%bind_Some.
  right. exists s. split; [done|]. apply elem_of_dom. eauto.
Qed.

Section groups.
Context `{IpNetLaws}.

Lemma ipset_cidrs_total s : exists l, ipset_string_to_cidrs s = Some l.
Proof.
  unfold ipset_string_to_cidrs. destruct (parse_ip_net s) as [n|]; [by eexists|].
  destruct (range_ends s) as [[a b]|] eqn:Hr; [|by eexists]. apply range_ends_ok in Hr as [Ha Hb].
  unfold ip_ok in *. destruct a as [a|a], b as [b|b]; cbn [ip_value ip_width] in *; try by eexists.
  all: destruct (Z.le_gt_cases a b) as [Hle|Hgt];
    [rewrite cidrs_texts by (split_and!; [(by left) || (by right)|lia|lia|lia]); by eexists
    |rewrite cidrs_empty by (lia || (unfold family; lia)); by eexists].
Qed.

Lemma resolve_simple_total d nodes token : exists r, resolve_simple d nodes token = Some r.
Proof.
  unfold resolve_simple. destruct (alias_prefix token) as [p|]; [destruct (ipset_cidrs_total p) as [l ->]; by eexists|].
  repeat (case_match; [by eexists|]). destruct (doc_hosts d !! _) as [prefix|].
  - destruct (ipset_cidrs_total prefix) as [l ->]. by eexists.
  - destruct (ipset_cidrs_total token) as [l ->]. by eexists.
Qed.

(** What a member that is not a group resolves to. *)
Definition leaf_resolve (d : AclDoc) (nodes : list PacketFilterNode) (m : string) : option ResolvedAlias :=
  if has_char "@" m then Some (username d m nodes) else resolve_simple d nodes m.

Definition member_resolve (f : nat) (d : AclDoc) (nodes : list PacketFilterNode) (visiting : gset string) (m : string) :=
  if has_char "@" m then Some (username d m nodes) else resolve f d nodes visiting m.

(** A resolution along a walk of the references: it exists, and its prefixes are
    those of the leaves the walk collects. *)
Lemma resolve_walk d nodes f : forall visiting m leaves,
  walk takes_group (group_entries d) f visiting m = Some leaves ->
  exists r, member_resolve f d nodes visiting m = Some r /\
    forall t, t ∈ partial r <-> exists leaf r', leaf ∈ leaves /\ leaf_resolve d nodes leaf = Some r' /\ t ∈ partial r'.
Proof.
  assert (forall visiting m, takes_group m = false -> forall f, exists r, member_resolve f d nodes visiting m = Some r /\
    forall t, t ∈ partial r <-> exists leaf r', leaf ∈ [m] /\ leaf_resolve d nodes leaf = Some r' /\ t ∈ partial r') as Hleaf.
  { intros visiting m Hm f'. assert (member_resolve f' d nodes visiting m = leaf_resolve d nodes m) as ->.
    { unfold member_resolve, leaf_resolve. destruct (has_char "@" m); [done|]. by destruct f'; cbn [resolve]; rewrite Hm. }
    assert (exists r, leaf_resolve d nodes m = Some r) as [r Hr].
    { unfold leaf_resolve. destruct (has_char "@" m); [by eexists|apply resolve_simple_total]. }
    exists r. split; [done|]. intros t. split.
    - intros Ht. exists m, r. split_and!; [by apply list_elem_of_singleton|done..].
    - intros (leaf & r' & ->%list_elem_of_singleton & Hr' & Ht). congruence. }
  induction f as [|f IH]; intros visiting m leaves; cbn [walk]; destruct (takes_group m) eqn:Hm; try done.
  1,3: intros [= <-]; by apply Hleaf.
  destruct (takes_group_plain m Hm) as [Hat _].
  intros Hw. unfold member_resolve. rewrite Hat. cbn [resolve]. rewrite Hm.
  case_bool_decide as Hv.
  - injection Hw as <-. eexists. split; [done|]. intros t. cbn. split; [by intros ?%elem_of_nil|].
    by intros (? & ? & ?%elem_of_nil & _).
  - assert (exists es os, default [] (group_entries d m) = es /\ mapM (walk takes_group (group_entries d) f ({[m]} ∪ visiting)) es = Some os /\ leaves = List.concat os)
      as (es & os & -> & Hos & ->).
    { destruct (group_entries d m) as [es|]; [|injection Hw as <-; by exists [], []].
      apply fmap_Some in Hw as (os & Hos & ->). by exists es, os. }
    clear Hw. assert (exists rs, mapM (member_resolve f d nodes ({[m]} ∪ visiting)) es = Some rs /\
      forall t, t ∈ flat_map partial rs <-> exists leaf r', leaf ∈ List.concat os /\ leaf_resolve d nodes leaf = Some r' /\ t ∈ partial r') as (rs & Hrs & Hin).
    { revert os Hos. induction es as [|e es IHe]; intros os; cbn [mapM].
      - intros [= <-]. exists []. split; [done|]. intros t. cbn. split; [by intros ?%elem_of_nil|by intros (? & ? & ?%elem_of_nil & _)].
      - intros (o & Ho & Hr)%bind_Some. apply bind_Some in Hr as (os' & Hos' & [= <-]).
        destruct (IH _ _ _ Ho) as (r & Hr & Ht). destruct (IHe _ Hos') as (rs & Hrs & Hts).
        rewrite Hr. cbn [mbind option_bind]. rewrite Hrs. eexists. split; [done|]. intros t. cbn [flat_map List.concat].
        rewrite elem_of_app, Ht, Hts. setoid_rewrite elem_of_app. split.
        + intros [(leaf & r' & Hl & Hr')|(leaf & r' & Hl & Hr')]; exists leaf, r'; auto.
        + intros (leaf & r' & [Hl|Hl] & Hr'); [left|right]; exists leaf, r'; auto. }
    change (mapM _ es) with (mapM (member_resolve f d nodes ({[m]} ∪ visiting)) es). rewrite Hrs. cbn [mbind option_bind].
    eexists. split; [done|]. intros t. rewrite fold_append_partial. change (partial (resolved_set [])) with (@nil string). apply Hin.
Qed.

Lemma group_leaves_total d token :
  exists leaves, walk takes_group (group_entries d) (S (group_fuel d)) ∅ token = Some leaves.
Proof.
  apply (walk_enough _ _ (group_keys d)); [eauto using group_entries_defined|].
  unfold group_fuel. pose proof (group_keys_size d).
  pose proof (subseteq_size (group_keys d ∖ ∅) (group_keys d) ltac:(set_solver)). lia.
Qed.

Lemma resolve_alias_total d nodes token : exists r, resolve_alias d nodes token = Some r.
Proof.
  unfold resolve_alias. destruct (takes_group token) eqn:Hg.
  - destruct (group_leaves_total d token) as [leaves Hw]. destruct (resolve_walk d nodes _ _ _ _ Hw) as (r & Hr & _).
    unfold member_resolve in Hr. rewrite (proj1 (takes_group_plain _ Hg)) in Hr. eauto.
  - cbn [resolve]. rewrite Hg. apply resolve_simple_total.
Qed.

(** Resolving an alias never panics and never runs out of fuel, whatever the
    policy; a group, even one that contains itself, resolves to exactly the
    prefixes of the entries its references lead to. *)
Theorem resolve_group_exact d nodes token :
  exists r, resolve_alias d nodes token = Some r /\
  (takes_group token = true -> forall t, t ∈ partial r <->
    exists leaf r', leads takes_group (group_entries d) token leaf /\ leaf_resolve d nodes leaf = Some r' /\ t ∈ partial r').
Proof.
  destruct (resolve_alias_total d nodes token) as [r Hr]. exists r. split; [done|]. intros Hg t.
  destruct (group_leaves_total d token) as [leaves Hw]. destruct (resolve_walk d nodes _ _ _ _ Hw) as (r0 & Hr0 & Ht).
  unfold member_resolve in Hr0. rewrite (proj1 (takes_group_plain _ Hg)) in Hr0.
  unfold resolve_alias in Hr. rewrite Hr in Hr0. injection Hr0 as <-. rewrite Ht.
  split; intros (leaf & r' & Hl & Hr'); exists leaf, r'; (split; [|done]); by eapply walk_exact.
Qed.
End groups.

Module ResolutionExamples.
#[local] Existing Instance PrefixNet.lib.
#[local] Existing Instance PrefixNet.laws.

(** Two groups that name each other, one of them with a host. *)
Definition groups_doc : AclDoc :=
  mkDoc None 1
    (<["group:a"%string := ["alice@"; "group:b"]%string]> (<["group:b"%string := ["lan"; "group:a"]%string]> ∅))
    ∅ ∅ (<["lan"%string := "192.168.0.0/16"%string]> ∅) (mkApprovers ∅ []) [] [] false [] [] [] [].

Definition laptop_of_alice : PacketFilterNode := mkFilterNode 1 (Some 1) (Some "alice"%string) ["100.64.0.1"%string] [] [].

Lemma resolve_group_exact_witness :
  partial <$> resolve_alias groups_doc [laptop_of_alice] "group:a" = Some ["100.64.0.1/32"; "192.168.0.0/16"]%string /\
  exists r, resolve_alias groups_doc [laptop_of_alice] "group:a" = Some r /\ forall t, t ∈ partial r <->
    exists leaf r', leads takes_group (group_entries groups_doc) "group:a" leaf /\
      leaf_resolve groups_doc [laptop_of_alice] leaf = Some r' /\ t ∈ partial r'.
Proof.
  split; [vm_compute; reflexivity|]. destruct (resolve_group_exact groups_doc [laptop_of_alice] "group:a") as (r & Hr & Ht).
  exists r. split; [exact Hr|]. apply Ht. vm_compute. reflexivity.
Defined.
End ResolutionExamples.
