(* ===== verification/FilterSpec.v ===== *)
(** * FilterSpec: the packets a compiled policy admits

    The meaning of a [FilterRule] list is the set of packets it lets through.
    This file proves the compiler of [FilterCompile] correct for that meaning:
    printed sets are read back by the client's reader to the same addresses,
    merging rules keeps the packets, reducing the rules to a node keeps the
    packets the node handles, and a compiled grant admits a packet exactly when
    its source, destination and port are those the grant names. *)

From stdpp Require Import base list gmap strings sets.
From Stdlib Require Import ZArith Lia Ascii.
From S2P Require Import Prelude Text Bytes Net GoNetip PolicyPorts Reach Policy Intervals IpSet Resolution FilterCompile.

Open Scope Z_scope.

(** ** Printed texts, as the filter reads them *)

Section texts.
Context `{IpNetLaws}.

Lemma slash_not_star s : "/"%char ∈ to_chars s -> s <> "*"%string.
Proof. intros Hs ->. change (to_chars "*") with ["*"%char] in Hs. by apply list_elem_of_singleton in Hs. Qed.

Lemma block_text_slash bits b : "/"%char ∈ to_chars (block_text bits b).
Proof. unfold block_text, show_prefix. rewrite !to_chars_app. set_solver. Qed.

Lemma filter_block bits b :
  family bits -> 0 <= b.1 < 2 ^ bits -> 0 <= b.2 <= bits -> (2 ^ (bits - b.2) | b.1) ->
  from_filter_string (block_text bits b) = Some [(bits, b.1, block_end bits b)].
Proof.
  intros Hf Hv Hp Hd. pose proof (block_text_slash bits b) as Hs. unfold from_filter_string.
  rewrite bool_decide_false by (by apply slash_not_star). rewrite bool_decide_true by done.
  pose proof (prefix_span_block bits b Hf Hv Hp Hd) as Hsp. unfold prefix_span in Hsp.
  rewrite block_text_parse in * by done.
  destruct (net_new_ok (interval_addr b.1 bits) b.2) as (n & Hn & Ha & Hl).
  { split; [by apply interval_addr_ok|]. by rewrite interval_addr_width. }
  rewrite Hn in *. cbn [fmap option_fmap option_map] in Hsp. injection Hsp as Hi.
  rewrite bool_decide_true; [by rewrite Hi|].
  rewrite net_network_eq, Ha, Hl. cbv zeta. unfold net_block. rewrite interval_addr_width, interval_addr_value by done.
  assert (0 < 2 ^ (bits - b.2)) by (apply Z.pow_pos_nonneg; lia).
  assert (b.1 / 2 ^ (bits - b.2) * 2 ^ (bits - b.2) = b.1) as -> by (destruct Hd as [q ->]; by rewrite Z.div_mul by lia).
  apply ip_eq_family_value; [by destruct (interval_addr b.1 bits)|]. by rewrite ip_with_value_value, interval_addr_value.
Qed.

Lemma filter_address v bits :
  family bits -> 0 <= v < 2 ^ bits -> from_filter_string (interval_addr_string v bits) = Some [(bits, v, v)].
Proof.
  intros Hf Hv. pose proof (interval_addr_ok v bits Hf Hv) as Hok. unfold interval_addr_string, from_filter_string.
  pose proof (parse_show_ip _ Hok) as Hp.
  assert (is_ok (parse_addr "*") = false) as Hstar by reflexivity.
  rewrite bool_decide_false by (intros E; by rewrite <-E, Hp in Hstar).
  rewrite bool_decide_false by (apply show_ip_plain; [done|tauto]).
  assert (count_dashes (show_ip (interval_addr v bits)) = 0%nat) as Hd.
  { unfold count_dashes. pose proof (show_ip_plain _ "-" Hok ltac:(tauto)) as Hpl. unfold plain in Hpl.
    induction (to_chars (show_ip (interval_addr v bits))) as [|c l IH]; [done|]. cbn [List.filter].
    rewrite not_elem_of_cons in Hpl. rewrite (proj2 (Ascii.eqb_neq "-" c)) by (destruct Hpl; congruence). apply IH. tauto. }
  rewrite Hd, Hp. cbn [Nat.eqb]. by rewrite address_span_eq, interval_addr_width, interval_addr_value.
Qed.

Lemma filter_range s e bits :
  interval_ok s e bits ->
  from_filter_string (interval_addr_string s bits ++ "-" ++ interval_addr_string e bits)%string = Some [(bits, s, e)].
Proof.
  intros (Hf & Hs & He). unfold interval_addr_string.
  destruct (range_text_spans (interval_addr s bits) (interval_addr e bits)) as (Hne & _ & Hends & Hd & Hsl);
    [apply interval_addr_ok; [done|lia]..|].
  unfold from_filter_string. rewrite !bool_decide_false by done. rewrite Hd, Hends. cbn [Nat.eqb].
  rewrite !address_span_eq, !interval_addr_width, !interval_addr_value, Z.eqb_refl by (done || lia). cbn [negb orb].
  by rewrite (proj2 (Z.ltb_ge _ _)) by lia.
Qed.

Lemma filter_interval s e bits :
  interval_ok s e bits ->
  exists t, interval_ipset_string s e bits = Some t /\ from_filter_string t = Some [(bits, s, e)].
Proof.
  intros Hok. pose proof Hok as (Hf & Hs & He). unfold interval_ipset_string. destruct (Z.eqb_spec s e) as [<-|Hne].
  - eexists. split; [done|]. apply filter_address; [done|lia].
  - rewrite (cidrs_texts s e bits Hok). pose proof (cidr_blocks_tiles s e bits Hok) as Ht.
    destruct (cidr_blocks s e bits) as [|b [|b' l]]; cbn [map]; (eexists; split; [done|]); try by apply filter_range.
    destruct (single_block _ _ _ _ Ht) as [Eb1 Eb2]. destruct (tiles_bounds _ _ _ _ b Ht ltac:(set_solver)) as (_ & _ & Hb2).
    pose proof (tiles_aligned _ _ _ _ b Ht ltac:(set_solver)) as Hal. rewrite filter_block by (done || lia). by rewrite Eb1, Eb2.
Qed.

Lemma in_values_cons t ts f x :
  in_values (t :: ts) f x <-> (exists l, from_filter_string t = Some l /\ in_set l f x) \/ in_values ts f x.
Proof.
  unfold in_values. split.
  - intros (v & l & [->|Hv]%elem_of_cons & Hl & Hx); [left; eauto|right; exists v, l; auto].
  - intros [(l & Hl & Hx)|(v & l & Hv & Hl & Hx)]; [exists t, l|exists v, l]; split_and!; try done; apply elem_of_cons; auto.
Qed.

Lemma in_values_nil f x : ~ in_values [] f x.
Proof. by intros (v & l & ?%elem_of_nil & _). Qed.

Lemma in_values_app a b f x : in_values (a ++ b) f x <-> in_values a f x \/ in_values b f x.
Proof.
  induction a as [|t a IH]; cbn [app]; [|rewrite !in_values_cons, IH; tauto]. split; [by right|].
  intros [[]%in_values_nil|?]; done.
Qed.

(** The printed form of a set is read back as the set, one text per span. *)
Lemma strings_read set :
  Forall span_ok set ->
  exists texts, strings set = Some texts /\ length texts = length set /\ forall f x, in_values texts f x <-> in_set set f x.
Proof.
  unfold strings. induction 1 as [|[[b s] e] set Hsp _ (texts & Et & Hl & IH)].
  - exists []. split_and!; [done..|]. intros f x. split; [intros []%in_values_nil|intros []%in_set_nil].
  - destruct (filter_interval s e b Hsp) as (t & Ht & Hr). exists (t :: texts). split_and!.
    + cbn [mapM]. rewrite Ht. cbn [mbind option_bind]. by rewrite Et.
    + simpl. by rewrite Hl.
    + intros f x. rewrite in_values_cons, IH, in_set_cons, Hr. split.
      * intros [(l & [= <-] & (sp & ->%list_elem_of_singleton & Hx))|?]; auto.
      * intros [Hx|?]; [left|auto]. eexists. split; [done|]. exists (b, s, e). split; [by apply list_elem_of_singleton|done].
Qed.

(** The text of a block in a port entry: a single address loses its length. *)
Lemma filter_dst_block bits b :
  family bits -> 0 <= b.1 < 2 ^ bits -> 0 <= b.2 <= bits -> (2 ^ (bits - b.2) | b.1) ->
  from_filter_string (dst_port_ip_string (block_text bits b)) = Some [(bits, b.1, block_end bits b)].
Proof.
  intros Hf Hv Hp Hd. unfold dst_port_ip_string.
  destruct (net_new_ok (interval_addr b.1 bits) b.2) as (n & Hn & Ha & Hl).
  { split; [by apply interval_addr_ok|]. by rewrite interval_addr_width. }
  assert (block_text bits b = net_show n) as Etext by (unfold block_text; by rewrite net_show_prefix, Ha, Hl).
  rewrite Etext, parse_ip_net_show, <-Etext. unfold is_single_ip, net_is_v4.
  destruct (if is_v4 (net_addr n) then net_prefix_len n =? 32 else net_prefix_len n =? 128) eqn:Es; [|by apply filter_block].
  assert (b.2 = bits) as Hbits.
  { rewrite Ha, Hl in Es. pose proof (interval_addr_width b.1 bits Hf) as Hw.
    destruct (interval_addr b.1 bits); simpl in *; apply Z.eqb_eq in Es; congruence. }
  rewrite Ha. fold (interval_addr_string b.1 bits). rewrite filter_address by done.
  unfold block_end. rewrite Hbits, Z.sub_diag. change (2 ^ 0) with 1. do 3 f_equal. lia.
Qed.

(** The prefixes of a set are read back as the set, as they are and as port entries. *)
Lemma prefixes_read set :
  Forall span_ok set ->
  exists texts, prefixes set = Some texts /\
    (forall f x, in_values texts f x <-> in_set set f x) /\
    (forall f x, in_values (map dst_port_ip_string texts) f x <-> in_set set f x).
Proof.
  unfold prefixes. induction 1 as [|[[bits s] e] set Hsp _ IH].
  - exists []. split_and!; [done|..]; intros f x; (split; [intros []%in_values_nil|intros []%in_set_nil]).
  - destruct IH as (texts & Et & IH1 & IH2). destruct (mapM _ set) as [l|] eqn:El; [|done]. injection Et as <-.
    pose proof (cidr_blocks_tiles s e bits Hsp) as Ht. pose proof Hsp as (Hf & Hs & He). cbn [fst snd] in *.
    set (blocks := cidr_blocks s e bits) in *.
    assert (forall (g : string -> string), (forall b, b ∈ blocks -> from_filter_string (g (block_text bits b)) = Some [(bits, b.1, block_end bits b)]) ->
      forall f x, in_values (map g (map (block_text bits) blocks)) f x <-> in_span (bits, s, e) f x) as Hread.
    { intros g Hg f x. unfold in_span. cbn [fst snd]. rewrite (tiles_member _ _ _ _ x Ht). unfold in_values. rewrite map_map.
      setoid_rewrite list_elem_of_fmap. split.
      - intros (v & l' & (b & -> & Hb) & Hl' & (sp & Hin & Hx)). rewrite Hg in Hl' by done. injection Hl' as <-.
        apply list_elem_of_singleton in Hin as ->. destruct Hx as [-> Hx]. cbn [fst snd] in Hx. split; [done|]. by exists b.
      - intros [-> (b & Hb & Hx)]. eexists _, _. split_and!; [by exists b|by apply Hg|].
        eexists. split; [by apply list_elem_of_singleton|]. done. }
    assert (forall b, b ∈ blocks -> 0 <= b.1 < 2 ^ bits /\ 0 <= b.2 <= bits /\ (2 ^ (bits - b.2) | b.1)) as Hb.
    { intros b Hb. destruct (tiles_bounds _ _ _ _ _ Ht Hb) as (H1 & H2 & H3). unfold block_end in H2.
      assert (0 < 2 ^ (bits - b.2)) by (apply Z.pow_pos_nonneg; lia). split_and!; [lia..|by eapply tiles_aligned]. }
    exists (map (block_text bits) blocks ++ concat l). cbn [mapM]. rewrite (cidrs_texts s e bits Hsp). cbn [mbind option_bind].
    unfold Span in El. rewrite El. split_and!; [done|..]; intros f x.
    + rewrite in_values_app, IH1, in_set_cons. rewrite <-(Hread (fun t => t)); [by rewrite map_id|].
      intros b (? & ? & ?)%Hb. by apply filter_block.
    + rewrite map_app, in_values_app, IH2, in_set_cons, (Hread dst_port_ip_string); [done|].
      intros b (? & ? & ?)%Hb. by apply filter_dst_block.
Qed.
End texts.


(** ** Packets *)

(** A packet: source and destination as width and value, protocol and port. *)
Record Packet := mkPacket { pk_src : Z * Z; pk_dst : Z * Z; pk_proto : Z; pk_port : Z }.

Definition in_range (r : PortRange) (port : Z) : Prop := pr_first r <= port <= pr_last r.

Section packets.
Context `{IpNetLib}.

(** How the client reads the protocol list of a rule (the empty list has a
    default) is the client's business: nothing below depends on it. *)
Variable admits_proto : list Z -> Z -> Prop.

Definition entry_admits (d : NetPortRange) (p : Packet) : Prop :=
  in_values [np_ip d] (pk_dst p).1 (pk_dst p).2 /\ in_range (np_ports d) (pk_port p).

Definition rule_admits (r : Rule) (p : Packet) : Prop :=
  in_values (fr_src_ips r) (pk_src p).1 (pk_src p).2 /\ admits_proto (fr_protos r) (pk_proto p) /\
  exists d, d ∈ fr_dst_ports r /\ entry_admits d p.

Definition filter_admits (rules : list Rule) (p : Packet) : Prop := exists r, r ∈ rules /\ rule_admits r p.

Lemma filter_admits_nil p : ~ filter_admits [] p.
Proof. by intros (r & ?%elem_of_nil & _). Qed.

Lemma filter_admits_cons r rules p : filter_admits (r :: rules) p <-> rule_admits r p \/ filter_admits rules p.
Proof.
  unfold filter_admits. setoid_rewrite elem_of_cons. split; [intros (q & [-> |Hq] & Hp); eauto|].
  intros [Hp|(q & Hq & Hp)]; eauto.
Qed.

Lemma filter_admits_app a b p : filter_admits (a ++ b) p <-> filter_admits a p \/ filter_admits b p.
Proof.
  unfold filter_admits. setoid_rewrite elem_of_app. split; [intros (q & [Hq|Hq] & Hp); eauto|].
  intros [(q & Hq & Hp)|(q & Hq & Hp)]; eauto.
Qed.

(** *** Merging *)

Lemma mergeable_true rule e :
  mergeable rule e = true -> fr_cap_grant e = [] /\ fr_src_ips e = fr_src_ips rule /\ fr_protos e = fr_protos rule.
Proof. unfold mergeable. rewrite !andb_true_iff, !bool_decide_eq_true. tauto. Qed.

Lemma merge_into_admits out rule p : filter_admits (merge_into out rule) p <-> filter_admits out p \/ rule_admits rule p.
Proof.
  induction out as [|e out IH]; cbn [merge_into].
  - rewrite filter_admits_cons. pose proof (filter_admits_nil p). tauto.
  - destruct (mergeable rule e) eqn:E; rewrite !filter_admits_cons; [|rewrite IH; tauto].
    apply mergeable_true in E as (_ & Es & Ep). unfold rule_admits. cbn [set_dst_ports fr_src_ips fr_dst_ports fr_protos].
    rewrite Es, Ep. setoid_rewrite elem_of_app. split.
    + intros [(Hs & Hq & d & [Hd|Hd] & He)|Hf]; eauto 8.
    + intros [[(Hs & Hq & d & Hd & He)|Hf]|(Hs & Hq & d & Hd & He)]; eauto 8.
Qed.

Lemma append_coalesced_admits out rule p :
  filter_admits (append_coalesced_filter_rule out rule) p <-> filter_admits out p \/ rule_admits rule p.
Proof.
  unfold append_coalesced_filter_rule. destruct (fr_cap_grant rule); [apply merge_into_admits|].
  rewrite filter_admits_app, filter_admits_cons. pose proof (filter_admits_nil p). tauto.
Qed.

Lemma coalesce_from_admits rules p : forall out,
  filter_admits (fold_left append_coalesced_filter_rule rules out) p <-> filter_admits out p \/ filter_admits rules p.
Proof.
  induction rules as [|r rules IH]; intros out; cbn [fold_left].
  - pose proof (filter_admits_nil p). tauto.
  - rewrite IH, append_coalesced_admits, filter_admits_cons. tauto.
Qed.

Lemma coalesce_admits rules p : filter_admits (coalesce_filter_rules rules) p <-> filter_admits rules p.
Proof. unfold coalesce_filter_rules. rewrite coalesce_from_admits. pose proof (filter_admits_nil p). tauto. Qed.

Definition is_cap (r : Rule) : bool := negb (bool_decide (fr_cap_grant r = [])).

(** Two rules that merging would have joined. *)
Definition joinable (a b : Rule) : Prop :=
  fr_cap_grant a = [] /\ fr_cap_grant b = [] /\ fr_src_ips a = fr_src_ips b /\ fr_protos a = fr_protos b.

(** No rule of the list could have been joined with an earlier one. *)
Definition merged (out : list Rule) : Prop := ForallOrdPairs (fun a b => ~ joinable a b) out.

Lemma merge_into_elem out rule r :
  r ∈ merge_into out rule -> (exists e, e ∈ out /\ (joinable e r \/ e = r)) \/ r = rule.
Proof.
  induction out as [|e out IH]; cbn [merge_into].
  - intros ->%list_elem_of_singleton. by right.
  - destruct (mergeable rule e) eqn:E; intros [-> |Hr]%elem_of_cons.
    + left. exists e. split; [apply list_elem_of_here|]. left. apply mergeable_true in E as (E1 & E2 & E3). by split_and!.
    + left. exists r. split; [by apply list_elem_of_further|by right].
    + left. exists e. split; [apply list_elem_of_here|by right].
    + destruct (IH Hr) as [(e' & He & Hj)|?]; [left|by right]. exists e'. split; [by apply list_elem_of_further|done].
Qed.

Lemma joinable_trans a b c : joinable a b -> joinable b c -> joinable a c.
Proof. unfold joinable. intros (? & ? & ? & ?) (? & ? & ? & ?). split_and!; congruence. Qed.

Lemma joinable_sym a b : joinable a b -> joinable b a.
Proof. intros (? & ? & ? & ?). by split_and!. Qed.

Lemma merge_into_merged out rule : fr_cap_grant rule = [] -> merged out -> merged (merge_into out rule).
Proof.
  intros Hr. unfold merged. induction 1 as [|e out He Hout IH]; cbn [merge_into]; [by repeat constructor|].
  rewrite List.Forall_forall in He. destruct (mergeable rule e) eqn:E.
  - constructor; [|done]. apply List.Forall_forall. intros b Hb Hj. apply (He b Hb).
    apply mergeable_true in E as (E1 & E2 & E3). destruct Hj as (_ & ? & ? & ?). by split_and!.
  - constructor; [|done]. apply List.Forall_forall. intros b Hb%list_elem_of_In Hj.
    apply merge_into_elem in Hb as [(e' & He'%list_elem_of_In & [Hj'| ->])| ->].
    + apply (He e' He'). eapply joinable_trans; [done|by apply joinable_sym].
    + by apply (He b He').
    + destruct Hj as (E1 & _ & E2 & E3). revert E. unfold mergeable. by rewrite !bool_decide_true.
Qed.

Lemma merge_into_caps out rule : fr_cap_grant rule = [] -> List.filter is_cap (merge_into out rule) = List.filter is_cap out.
Proof.
  intros Hr. induction out as [|e out IH]; cbn [merge_into List.filter].
  - unfold is_cap. by rewrite Hr.
  - destruct (mergeable rule e) eqn:E; cbn [List.filter]; [|by rewrite IH].
    apply mergeable_true in E as (E1 & _). unfold is_cap. cbn [set_dst_ports fr_cap_grant]. by rewrite E1.
Qed.

Lemma merged_app_cap out rule : fr_cap_grant rule <> [] -> merged out -> merged (out ++ [rule]).
Proof.
  intros Hr. unfold merged. induction 1 as [|e out He Hout IH]; cbn [app]; [by repeat constructor|].
  constructor; [|done]. apply List.Forall_app. split; [done|]. constructor; [|done]. intros (_ & ? & _). done.
Qed.

Lemma coalesce_from_merged rules : forall out, merged out ->
  List.filter is_cap (fold_left append_coalesced_filter_rule rules out) = List.filter is_cap out ++ List.filter is_cap rules /\
  merged (fold_left append_coalesced_filter_rule rules out).
Proof.
  induction rules as [|r rules IH]; intros out Hm; cbn [fold_left]; [by rewrite app_nil_r|].
  unfold append_coalesced_filter_rule at 2 4. cbn [List.filter]. destruct (is_cap r) eqn:Ec; unfold is_cap in Ec.
  - apply negb_true_iff, bool_decide_eq_false in Ec as Hne. destruct (fr_cap_grant r) as [|c caps] eqn:Er; [done|].
    rewrite <-Er in Hne. destruct (IH (out ++ [r]) (merged_app_cap _ _ Hne Hm)) as [-> ?]. split; [|done].
    rewrite List.filter_app, <-app_assoc. cbn [List.filter]. unfold is_cap at 2. by rewrite Er.
  - apply negb_false_iff, bool_decide_eq_true in Ec as Er. rewrite Er.
    destruct (IH (merge_into out r) (merge_into_merged _ _ Er Hm)) as [-> ?]. split; [|done]. by rewrite merge_into_caps.
Qed.

(** Merging filter rules changes no decision: whatever the client makes of a
    protocol list, the merged rules admit the packets the given ones admit; the
    capability rules are kept as they are and in order; and no two port rules with
    the same sources and protocols remain. *)
Theorem coalesce_keeps_packets rules :
  (forall p, filter_admits (coalesce_filter_rules rules) p <-> filter_admits rules p) /\
  List.filter is_cap (coalesce_filter_rules rules) = List.filter is_cap rules /\
  merged (coalesce_filter_rules rules).
Proof.
  split; [intros p; apply coalesce_admits|]. apply (coalesce_from_merged rules []). constructor.
Qed.
End packets.

(** *** Reduction to a node *)

Section reduction.
Context `{IpNetLaws}.
Variable admits_proto : list Z -> Z -> Prop.

(** The addresses a node takes packets for: its own and those it routes. *)
Definition node_takes (node : PacketFilterNode) (f x : Z) : Prop :=
  (exists a, a ∈ fn_addrs node /\ denotes a f x) \/ (exists r, r ∈ fn_routes node /\ in_prefix r f x).

Lemma in_values_one t f x : in_values [t] f x <-> exists l, from_filter_string t = Some l /\ in_set l f x.
Proof. rewrite in_values_cons. pose proof (in_values_nil f x). tauto. Qed.

Lemma concerns_spec node e : concerns node e = true <-> exists f x, in_values [np_ip e] f x /\ node_takes node f x.
Proof.
  unfold concerns, node_takes. setoid_rewrite in_values_one. destruct (from_filter_string (np_ip e)) as [l|] eqn:El.
  - pose proof (from_filter_string_ok _ _ El) as Hok. unfold contains_node. rewrite orb_true_iff, !existsb_elem. split.
    + intros [(a & Ha & (f & x & Hd & Hx)%contains_ip_spec)|(r & Hr & Ho)].
      * exists f, x. eauto 8.
      * apply overlaps_prefix_spec in Ho as (f & x & Hd & Hx); [|done]. exists f, x. eauto 8.
    + intros (f & x & (l' & [= <-] & Hx) & [(a & Ha & Hd)|(r & Hr & Hd)]).
      * left. exists a. split; [done|]. apply contains_ip_spec. eauto.
      * right. exists r. split; [done|]. apply overlaps_prefix_spec; eauto.
  - split; [done|]. by intros (f & x & (l & [=] & _) & _).
Qed.

(** A capability rule carries no ports. *)
Definition shaped (r : Rule) : Prop := fr_cap_grant r <> [] -> fr_dst_ports r = [].

Lemma portless_admits r p : fr_dst_ports r = [] -> ~ rule_admits admits_proto r p.
Proof. intros E (_ & _ & d & Hd & _). rewrite E in Hd. by apply elem_of_nil in Hd. Qed.

Lemma reduce_rule_admits node r p :
  shaped r ->
  (exists r', reduce_rule node r = Some r' /\ rule_admits admits_proto r' p) <->
  rule_admits admits_proto r p /\ exists d, d ∈ fr_dst_ports r /\ concerns node d = true /\ entry_admits d p.
Proof.
  unfold shaped, reduce_rule. intros Hsh. destruct (fr_cap_grant r) as [|c caps].
  - assert (forall d, d ∈ List.filter (concerns node) (fr_dst_ports r) <-> d ∈ fr_dst_ports r /\ concerns node d = true) as Hf.
    { intros d. apply elem_of_filter_bool. }
    unfold rule_admits. destruct (List.filter (concerns node) (fr_dst_ports r)) as [|x l] eqn:El.
    + split; [by intros (r' & [=] & _)|]. intros [_ (d & Hd & Hc & _)]. exfalso. apply (not_elem_of_nil d), Hf. done.
    + split.
      * intros (r' & [= <-] & Hs & Hp & d & [Hd Hc]%Hf & He). eauto 12.
      * intros [(Hs & Hp & _) (d & Hd & Hc & He)]. eexists. split; [done|]. split_and!; [done..|]. exists d. split; [|done]. by apply Hf.
  - specialize (Hsh ltac:(done)). rewrite Hsh. split.
    + intros (r' & Hr & Hp). exfalso. unfold reduce_cap_grant_rule_for_node in Hr. destruct (omap _ _); [done|].
      injection Hr as <-. apply portless_admits in Hp; done.
    + intros [_ (d & ?%elem_of_nil & _)]. done.
Qed.

(** What the node receives, of what it was compiled. *)
Lemma reduce_admits node rules p :
  Forall shaped rules ->
  (filter_admits admits_proto (reduce_filter_rules_for_node rules node) p -> filter_admits admits_proto rules p) /\
  (node_takes node (pk_dst p).1 (pk_dst p).2 ->
   filter_admits admits_proto rules p -> filter_admits admits_proto (reduce_filter_rules_for_node rules node) p).
Proof.
  rewrite Forall_forall. intros Hsh. unfold filter_admits, reduce_filter_rules_for_node. setoid_rewrite list_elem_of_omap. split.
  - intros (r' & (r & Hr & Er) & Hp). exists r. split; [done|]. destruct (proj1 (reduce_rule_admits node r p (Hsh r Hr))) as [? _]; eauto.
  - intros Ht (r & Hr & Hp). destruct (proj2 (reduce_rule_admits node r p (Hsh r Hr))) as (r' & Er & Hp').
    { split; [done|]. destruct Hp as (_ & _ & d & Hd & He). exists d. split; [done|]. split; [|done]. destruct He as [Hv _].
      apply concerns_spec. eauto. }
    eauto.
Qed.

(** A rule that reduction keeps has an entry for the node, whichever it lists. *)
Lemma reduced_concerns node rules r :
  r ∈ reduce_filter_rules_for_node rules node -> fr_cap_grant r = [] ->
  fr_dst_ports r <> [] /\ forall d, d ∈ fr_dst_ports r -> exists f x, in_values [np_ip d] f x /\ node_takes node f x.
Proof.
  unfold reduce_filter_rules_for_node. rewrite list_elem_of_omap. intros (r0 & _ & Er) Hcap. unfold reduce_rule in Er.
  destruct (fr_cap_grant r0).
  - destruct (List.filter (concerns node) (fr_dst_ports r0)) as [|x l] eqn:El; [done|]. injection Er as <-. split; [done|].
    intros d Hd. apply concerns_spec. change (d ∈ x :: l) in Hd. rewrite <-El in Hd. by apply elem_of_filter_bool in Hd as [_ ?].
  - unfold reduce_cap_grant_rule_for_node in Er. destruct (omap _ _); [done|]. by injection Er as <-.
Qed.
End reduction.

(** ** Compilation never fails *)

Lemma mapM_total {A B} (f : A -> option B) l :
  (forall x, exists y, f x = Some y) -> exists ys, mapM f l = Some ys /\ Forall2 (fun x y => f x = Some y) l ys.
Proof.
  intros Hf. destruct (mapM f l) as [ys|] eqn:E.
  - exists ys. split; [done|]. by apply mapM_Some.
  - apply mapM_None, Exists_exists in E as (x & _ & Hx). destruct (Hf x) as [y Hy]. congruence.
Qed.

Lemma any_opt_total {A} (f : A -> option bool) l :
  (forall x, exists b, f x = Some b) -> exists b, any_opt f l = Some b /\ (b = true <-> exists x, x ∈ l /\ f x = Some true).
Proof.
  intros Hf. induction l as [|x l (b & Hb & IH)]; cbn [any_opt].
  - exists false. split; [done|]. split; [done|]. by intros (x & ?%elem_of_nil & _).
  - destruct (Hf x) as [[] Hx]; rewrite Hx.
    + exists true. split; [done|]. split; [|done]. intros _. exists x. split; [apply list_elem_of_here|done].
    + exists b. split; [done|]. rewrite IH. setoid_rewrite elem_of_cons.
      split; [intros (y & Hy & ?); eauto|]. intros (y & [-> |Hy] & E); [congruence|eauto].
Qed.

Section total.
Context `{IpNetLaws}.

(** The addresses of a resolved text. *)
Definition text_holds (t : string) (f x : Z) : Prop := exists l, string_spans t = Some l /\ in_set l f x.

Lemma string_spans_total t : exists l, string_spans t = Some l /\ Forall span_ok l.
Proof.
  unfold string_spans. case_bool_decide.
  - eexists. split; [done|]. repeat apply Forall_cons_2; [| |constructor]; unfold span_ok, interval_ok, family, u_max; simpl; lia.
  - destruct (ipset_cidrs_total t) as [l ->]. eexists. split; [done|]. apply prefix_spans.
Qed.

Lemma from_strings_spec values :
  exists set, from_strings values = Some set /\ normal set /\
    forall f x, in_set set f x <-> exists t, t ∈ values /\ text_holds t f x.
Proof.
  unfold from_strings. destruct (mapM_total string_spans values) as (ls & -> & Hls).
  { intros t. destruct (string_spans_total t) as (l & ? & _). eauto. }
  assert (Forall span_ok (List.concat ls) /\ forall f x, in_set (List.concat ls) f x <-> exists t, t ∈ values /\ text_holds t f x) as [Hok Hin].
  { induction Hls as [|t l values ls Ht _ [IHok IH]]; cbn [List.concat].
    - split; [constructor|]. intros f x. split; [intros []%in_set_nil|by intros (t & ?%elem_of_nil & _)].
    - destruct (string_spans_total t) as (l' & El & Hl). assert (l' = l) as -> by congruence. split; [by apply Forall_app|].
      intros f x. rewrite in_set_app, IH. setoid_rewrite elem_of_cons. split.
      + intros [Hx|(t' & Ht' & Hx)]; [exists t; split; [by left|by exists l]|exists t'; auto].
      + intros (t' & [-> |Ht'] & Hx); [left|right; eauto]. destruct Hx as (l'' & ? & ?). congruence. }
  destruct (from_spans_ok _ Hok) as [Hn Hm]. exists (from_spans (List.concat ls)). split_and!; [done..|].
  intros f x. by rewrite Hm, Hin.
Qed.

Lemma ip_strings_spec values :
  exists texts, ip_strings values = Some texts /\ forall f x, in_values texts f x <-> exists t, t ∈ values /\ text_holds t f x.
Proof.
  unfold ip_strings. destruct (from_strings_spec values) as (set & -> & [_ Hok] & Hin).
  destruct (strings_read set Hok) as (texts & Et & _ & Hr). exists texts. split; [done|]. intros f x. by rewrite Hr, Hin.
Qed.

Lemma ip_prefixes_spec values :
  exists texts, ip_prefixes values = Some texts /\
    (forall f x, in_values texts f x <-> exists t, t ∈ values /\ text_holds t f x) /\
    (forall f x, in_values (map dst_port_ip_string texts) f x <-> exists t, t ∈ values /\ text_holds t f x).
Proof.
  unfold ip_prefixes. destruct (from_strings_spec values) as (set & -> & [_ Hok] & Hin).
  destruct (prefixes_read set Hok) as (texts & Et & Hr & Hr'). exists texts.
  split_and!; [done|..]; intros f x; by rewrite ?Hr, ?Hr', Hin.
Qed.

Variable d : AclDoc.
Variable nodes : list PacketFilterNode.

Lemma alias_ips_total token : exists ips, alias_ips d nodes token = Some ips.
Proof. unfold alias_ips. destruct (resolve_alias_total d nodes token) as [r ->]. by eexists. Qed.

(** An operation that adds rules of the expected shape and never fails. *)
Definition adds (f : list Rule -> option (list Rule)) (P : list Rule -> Prop) : Prop :=
  forall out, exists new, f out = Some (out ++ new) /\ P new.

Definition portless (rules : list Rule) : Prop := Forall (fun r => fr_dst_ports r = []) rules.

Lemma portless_shaped rules : portless rules -> Forall shaped rules.
Proof. intros Hr. eapply Forall_impl; [done|]. by intros r E _. Qed.

Lemma append_cap_rule out srcs c caps :
  append_coalesced_filter_rule out (cap_rule srcs (c :: caps)) = out ++ [cap_rule srcs (c :: caps)].
Proof. done. Qed.

Lemma companion_adds dsts srcs app : adds (fun out => append_companion_cap_grant_rules out dsts srcs app) portless.
Proof.
  intros out. unfold append_companion_cap_grant_rules.
  destruct (mapM_total ipset_string_to_cidrs srcs) as (l & -> & _); [apply ipset_cidrs_total|]. cbn [mbind option_bind].
  revert out. induction (companion_caps app) as [|c cs IH]; intros out; cbn [fold_left].
  - exists []. rewrite app_nil_r. split; [done|constructor].
  - rewrite append_cap_rule. destruct (IH (out ++ [cap_rule dsts [mkCapGrant Json (List.concat l) [] (companion_cap_map c)]])) as (new & E & Hn).
    injection E as E. rewrite E, <-app_assoc. eexists. split; [done|]. by constructor.
Qed.

Lemma resolve_cap_grant_dst_total dst : exists o, resolve_cap_grant_dst d nodes dst = Some o.
Proof.
  unfold resolve_cap_grant_dst. destruct (resolve_alias_total d nodes dst) as [r ->]. cbn [mbind option_bind].
  destruct (ra_errors r), (ra_ips r) as [ips|]; try by eexists. destruct (ip_prefixes_spec ips) as (t & -> & _). by eexists.
Qed.

Lemma fold_opt_total {A B} (f : A -> B -> option A) l :
  (forall a x, exists a', f a x = Some a') -> forall a, exists a', fold_opt f l a = Some a'.
Proof.
  intros Hf. induction l as [|x l IH]; intros a; cbn [fold_opt]; [by eexists|].
  destruct (Hf a x) as [a' ->]. apply IH.
Qed.

Lemma cap_grant_adds srcs companion dsts app shape :
  adds (fun out => append_cap_grant_rules d nodes out srcs companion dsts app shape) portless.
Proof.
  intros out. unfold append_cap_grant_rules.
  destruct (fold_opt_total (cap_grant_step d nodes app shape) dsts) with (a := (@nil (CapGrant Json), @nil string)) as [[caps texts] ->].
  { intros a x. unfold cap_grant_step. destruct (resolve_cap_grant_dst_total x) as [[o|] ->]; cbn [mbind option_bind]; [|by eexists].
    destruct (ip_strings_spec o) as (t & -> & _). by eexists. }
  cbn [mbind option_bind fst snd]. destruct caps as [|c caps].
  - exists []. rewrite app_nil_r. split; [done|constructor].
  - rewrite append_cap_rule.
    destruct (companion_adds (if existsb (is_token "*") dsts then texts ++ approved_subnet_routes nodes else texts) companion app (out ++ [cap_rule srcs (c :: caps)]))
      as (new & -> & Hn).
    rewrite <-app_assoc. eexists. split; [done|]. by constructor.
Qed.

Lemma port_rules_shaped srcs dsts protos : shaped (port_rule srcs dsts protos).
Proof. by intros ?. Qed.

Lemma self_rules_adds g srcs users : adds (fun out => append_self_rules out g srcs users) (Forall shaped).
Proof.
  intros out. unfold append_self_rules.
  assert (exists sources, nodes_matching_prefixes users srcs = Some sources) as [sources ->].
  { unfold nodes_matching_prefixes. destruct (matching_addresses users srcs) as [l|]; [|by eexists].
    destruct (ip_strings_spec l) as (t & -> & _). by eexists. }
  cbn [mbind option_bind]. destruct sources as [|source sources]; [exists []; by rewrite app_nil_r|].
  set (ports := omap _ (fg_ports g)). assert (Forall shaped ports) as Hports.
  { apply Forall_forall. intros r. unfold ports. rewrite list_elem_of_omap. intros (group & _ & Hr).
    destruct (flat_map _ _); [done|]. injection Hr as <-. apply port_rules_shaped. }
  clearbody ports. destruct (fg_app g) as [app|]; [|by exists ports].
  destruct (map _ users) as [|c caps]; [by exists ports|].
  destruct (companion_adds (List.concat (map node_ip_strings users)) (source :: sources) app
              ((out ++ ports) ++ [cap_rule (source :: sources) (c :: caps)])) as (new & -> & Hnew).
  rewrite <-!app_assoc. eexists. split; [done|]. apply Forall_app. split; [done|].
  apply Forall_app. split; [|by apply portless_shaped]. by repeat constructor.
Qed.

Lemma source_strings_total tokens keep : exists l, source_strings d nodes tokens keep = Some l.
Proof.
  unfold source_strings. destruct (existsb _ tokens); [by eexists|].
  destruct (mapM_total (alias_ips d nodes) tokens alias_ips_total) as (aliases & -> & _). cbn [mbind option_bind].
  destruct (ip_strings_spec (List.concat aliases)) as (out & -> & _). cbn [mbind option_bind].
  destruct out as [|o out]; [by eexists|]. destruct (existsb (is_token "*") tokens && keep); [|by eexists].
  apply fold_opt_total. intros a [t ips]. unfold preserve_step. cbn [fst snd]. destruct (is_token "*" t); [by eexists|].
  destruct (ip_strings_spec ips) as (l & -> & _). by eexists.
Qed.

Lemma companion_sources_total tokens : exists l, resolve_companion_sources d nodes tokens = Some l.
Proof.
  unfold resolve_companion_sources. destruct (mapM_total (fun t => ips ← alias_ips d nodes t; ip_prefixes ips) tokens) as (l & -> & _).
  { intros t. destruct (alias_ips_total t) as [ips ->]. cbn [mbind option_bind]. destruct (ip_prefixes_spec ips) as (l & -> & _). by eexists. }
  by eexists.
Qed.

Lemma destination_total token : exists l, resolve_destination d nodes token = Some l.
Proof.
  unfold resolve_destination. destruct (is_token "*" token); [by eexists|].
  assert (exists ips, (if is_token "autogroup:self" token then Some [] else alias_ips d nodes token) = Some ips) as [ips ->].
  { destruct (is_token _ token); [by eexists|apply alias_ips_total]. }
  cbn [mbind option_bind]. destruct (ip_prefixes_spec ips) as (l & -> & _). by eexists.
Qed.

Lemma destinations_total tokens : exists l, resolve_destinations d nodes tokens = Some l.
Proof.
  unfold resolve_destinations. destruct (mapM_total (resolve_destination d nodes) tokens destination_total) as (l & -> & _). by eexists.
Qed.

Lemma via_total dsts node : exists l, resolve_via_destinations_for_node d nodes dsts node = Some l.
Proof.
  unfold resolve_via_destinations_for_node. destruct (mapM_total (via_destination d nodes node) dsts) as (l & -> & _).
  { intros t. unfold via_destination. destruct (is_token _ t); [by eexists|].
    destruct (resolve_alias_total d nodes t) as [r ->]. cbn [mbind option_bind].
    destruct (ra_errors r), (ra_ips r) as [ips|]; try by eexists. destruct (ip_prefixes_spec ips) as (ps & -> & _). by eexists. }
  cbn [mbind option_bind]. destruct (_ && _); [|by eexists].
  destruct (ip_prefixes_spec internet_filter_cidrs) as (ps & -> & _). by eexists.
Qed.

Lemma admitted_total g : exists b, regular_grant_is_admitted d nodes g = Some b.
Proof.
  unfold regular_grant_is_admitted. destruct (_ || _); [by eexists|]. destruct (fg_app g); [by eexists|].
  unfold sources_have_resolved_alias. destruct (existsb _ _); [by eexists|].
  destruct (any_opt_total (fun t => (fun r => bool_decide (is_Some (ra_ips r))) <$> resolve_alias d nodes t) (fg_sources g)) as (b & -> & _).
  { intros t. destruct (resolve_alias_total d nodes t) as [r ->]. by eexists. }
  by eexists.
Qed.

Lemma filter_rules_shaped src dst groups keep : Forall shaped (filter_rules src dst groups keep).
Proof.
  unfold filter_rules. destruct src, dst; try constructor. apply Forall_forall. intros r Hr.
  apply list_elem_of_In, List.in_map_iff in Hr as (group & <- & _). apply port_rules_shaped.
Qed.

Lemma grant_rules_adds g receiver : adds (fun out => append_grant_rules d nodes out g receiver) (Forall shaped).
Proof.
  intros out. unfold append_grant_rules. destruct (fg_via g) as [|via vias].
  - destruct (admitted_total g) as [[] ->]; cbn [mbind option_bind negb]; [|exists []; by rewrite app_nil_r].
    unfold resolve_sources. destruct (source_strings_total (fg_sources g) true) as [sources ->]. cbn [mbind option_bind].
    destruct (companion_sources_total (fg_sources g)) as [raw ->]. cbn [mbind option_bind].
    match goal with |- context [mbind _ ?m] => assert (exists new, m = Some (out ++ new) /\ Forall shaped new) as (new & -> & Hnew) end.
    { destruct (List.filter _ _) as [|t ts]; [exists []; by rewrite app_nil_r|].
      destruct (destinations_total (t :: ts)) as [dsts ->]. cbn [mbind option_bind].
      pose proof (filter_rules_shaped sources dsts (fg_ports g) false) as Hf.
      destruct (fg_app g) as [app|]; [|by eexists].
      destruct (cap_grant_adds sources raw (t :: ts) app (fg_app_shape g) (out ++ filter_rules sources dsts (fg_ports g) false)) as (new & -> & Hn).
      rewrite <-app_assoc. eexists. split; [done|]. apply Forall_app. split; [done|by apply portless_shaped]. }
    cbn [mbind option_bind]. destruct receiver as [receiver|]; [|by exists new].
    destruct (_ && _); [|by exists new].
    destruct (self_rules_adds g raw (same_user_untagged_nodes nodes receiver) (out ++ new)) as (new' & -> & Hn).
    rewrite <-app_assoc. eexists. split; [done|]. by apply Forall_app.
  - destruct receiver as [receiver|]; [|exists []; by rewrite app_nil_r].
    destruct (_ || _); [exists []; by rewrite app_nil_r|].
    destruct (source_strings_total (fg_sources g) false) as [src ->]. cbn [mbind option_bind].
    destruct (via_total (fg_destinations g) receiver) as [dst ->]. cbn [mbind option_bind].
    eexists. split; [done|]. apply filter_rules_shaped.
Qed.

Lemma adds_fold {B} (f : list Rule -> B -> option (list Rule)) l :
  (forall x, x ∈ l -> adds (fun out => f out x) (Forall shaped)) -> adds (fun out => fold_opt f l out) (Forall shaped).
Proof.
  induction l as [|x l IH]; intros Hf out; cbn [fold_opt]; [exists []; by rewrite app_nil_r|].
  destruct (Hf x (list_elem_of_here _ _) out) as (new & -> & Hn). cbn [mbind option_bind].
  destruct (IH (fun y Hy => Hf y (list_elem_of_further _ _ _ Hy)) (out ++ new)) as (new' & -> & Hn').
  rewrite <-app_assoc. eexists. split; [done|]. by apply Forall_app.
Qed.

Lemma exit_rules_adds self_node apps :
  adds (fun out => append_exit_node_self_rules out d nodes self_node apps) (Forall shaped).
Proof.
  intros out. unfold append_exit_node_self_rules. destruct (negb _); [exists []; by rewrite app_nil_r|].
  apply adds_fold. intros g _ out'. unfold exit_grant_step. destruct (_ || _); [exists []; by rewrite app_nil_r|].
  destruct (admitted_total g) as [[] ->]; cbn [mbind option_bind negb]; [|exists []; by rewrite app_nil_r].
  destruct (companion_sources_total (fg_sources g)) as [raw ->]. cbn [mbind option_bind].
  apply adds_fold. intros entry _ out''. unfold exit_self_step. destruct (_ && _); [exists []; by rewrite app_nil_r|].
  apply self_rules_adds.
Qed.
End total.

(** ** The rules a node receives *)

Lemma merge_into_shaped out rule : shaped rule -> Forall shaped out -> Forall shaped (merge_into out rule).
Proof.
  intros Hr. induction 1 as [|e out He Hout IH]; cbn [merge_into]; [by constructor|].
  destruct (mergeable rule e) eqn:E; constructor; try done. apply mergeable_true in E as (E & _). intros Hne. cbn in Hne. congruence.
Qed.

Lemma coalesce_shaped rules : Forall shaped rules -> Forall shaped (coalesce_filter_rules rules).
Proof.
  intros Hr. unfold coalesce_filter_rules. assert (Forall shaped []) as Hout by constructor. revert Hout. generalize (@nil Rule).
  induction Hr as [|r rules Hr _ IH]; intros out Hout; cbn [fold_left]; [done|]. apply IH. unfold append_coalesced_filter_rule.
  destruct (fr_cap_grant r); [by apply merge_into_shaped|]. apply Forall_app. split; [done|by constructor].
Qed.

Section received.
Context `{IpNetLaws}.
Variable admits_proto : list Z -> Z -> Prop.

(** C9. Compiling the rules of a node never fails, whatever the policy, and
    reducing them to the node is exact for the packets it takes: it drops no rule
    that would have admitted one, it adds none, and every port entry that is left
    shares an address with the node or its routes. *)
Theorem received_rules_exact d nodes self_node apps :
  exists compiled rules,
    (out ← unreduced_filter_rules_for_receiver d nodes apps self_node; append_exit_node_self_rules out d nodes self_node apps) = Some compiled /\
    acl_to_filter_rules_for_receiver_with_apps d nodes self_node apps = Some rules /\
    (forall p, node_takes self_node (pk_dst p).1 (pk_dst p).2 ->
       filter_admits admits_proto rules p <-> filter_admits admits_proto compiled p) /\
    (forall p, filter_admits admits_proto rules p -> filter_admits admits_proto compiled p) /\
    (forall r, r ∈ rules -> fr_cap_grant r = [] -> fr_dst_ports r <> [] /\
       forall e, e ∈ fr_dst_ports r -> exists f x, in_values [np_ip e] f x /\ node_takes self_node f x).
Proof.
  unfold acl_to_filter_rules_for_receiver_with_apps, unreduced_filter_rules_for_receiver.
  destruct (adds_fold (fun out g => append_grant_rules d nodes out g (Some self_node)) (filter_grants d apps)
              (fun g _ => grant_rules_adds d nodes g (Some self_node)) []) as (new & -> & Hnew).
  cbn [mbind option_bind app].
  destruct (exit_rules_adds d nodes self_node apps (coalesce_filter_rules new)) as (new' & -> & Hnew').
  cbn [mbind option_bind]. eexists _, _. split; [done|]. split; [done|].
  assert (Forall shaped (coalesce_filter_rules new ++ new')) as Hsh by (apply Forall_app; split; [by apply coalesce_shaped|done]).
  split_and!.
  - intros p Ht. destruct (reduce_admits admits_proto self_node _ p Hsh). split; auto.
  - intros p. apply (reduce_admits admits_proto self_node _ p Hsh).
  - intros r. apply reduced_concerns.
Qed.
End received.

(** ** The packets of a policy *)

Section policy.
Context `{IpNetLaws}.
Variable d : AclDoc.
Variable nodes : list PacketFilterNode.

Definition alias_holds (token : string) (f x : Z) : Prop :=
  exists ips t, alias_ips d nodes token = Some ips /\ t ∈ ips /\ text_holds t f x.

(** The sources of a grant: what its aliases resolve to; every address for
    [autogroup:danger-all]; the approved routes as well for the wildcard. *)
Definition source_holds (tokens : list string) (f x : Z) : Prop :=
  "autogroup:self"%string ∉ tokens /\
  ((exists t, t ∈ tokens /\ alias_holds t f x) \/
   ("autogroup:danger-all"%string ∈ tokens /\ in_set every_address f x) \/
   ("*"%string ∈ tokens /\ in_values (approved_subnet_routes nodes) f x)).

(** The destinations: every address for the wildcard. *)
Definition destination_holds (tokens : list string) (f x : Z) : Prop :=
  exists t, t ∈ tokens /\ t <> "autogroup:self"%string /\
    ((t = "*"%string /\ in_set every_address f x) \/ (t <> "*"%string /\ alias_holds t f x)).

Lemma in_every set f x : Forall span_ok set -> in_set set f x -> in_set every_address f x.
Proof.
  intros Hok (sp & Hsp & -> & Hx). rewrite Forall_forall in Hok. destruct (Hok _ Hsp) as ([Hf|Hf] & Hs & He).
  - exists (32, 0, u_max 32). rewrite Hf in *. split; [apply list_elem_of_here|]. unfold in_span, u_max. cbn [fst snd]. lia.
  - exists (128, 0, u_max 128). rewrite Hf in *. split; [apply list_elem_of_further, list_elem_of_here|]. unfold in_span, u_max. cbn [fst snd]. lia.
Qed.

Lemma text_in_every t f x : text_holds t f x -> in_set every_address f x.
Proof. intros (l & Hl & Hx). destruct (string_spans_total t) as (l' & El & Hok). assert (l' = l) as -> by congruence. by eapply in_every. Qed.

Lemma values_in_every ts f x : in_values ts f x -> in_set every_address f x.
Proof. intros (v & l & _ & Hl & Hx). eapply in_every; [by eapply from_filter_string_ok|done]. Qed.

Lemma star_values f x : in_values ["*"%string] f x <-> in_set every_address f x.
Proof. rewrite in_values_one. split; [by intros (l & [= <-] & ?)|eauto]. Qed.

Lemma prefix_text_holds t ip bits :
  "/"%char ∈ to_chars t -> parse_prefix t = Ok (ip, bits) -> exists f x, text_holds t f x.
Proof.
  intros Hs Hp. destruct (net_new_ok ip bits (parse_prefix_ok _ _ _ Hp)) as (n & Hn & _).
  destruct (reads_net t n (ipnet_interval n)) as (spans & Hl & Hok & Hin).
  - by apply slash_not_star.
  - unfold parse_ip_net, parse_prefix_net. by rewrite bool_decide_true, Hp by done.
  - done.
  - destruct (ipnet_interval n) as [[f s] e] eqn:En. exists f, s, spans. split; [done|]. apply Hin. split; [done|].
    assert (prefix_span t = Some (f, s, e)) as Hsp by (unfold prefix_span; by rewrite Hp, Hn, <-En).
    destruct (prefix_span_ok _ _ Hsp) as (_ & ? & _). cbn [fst snd] in *. lia.
Qed.

(** The wildcards always resolve, so a grant that names one has sources. *)
Lemma wildcards_hold t : t = "*"%string \/ t = "autogroup:danger-all"%string -> exists f x, alias_holds t f x.
Proof.
  intros [-> | ->].
  - destruct (prefix_text_holds "fd7a:115c:a1e0::/48" (V6 0xfd7a115ca1e000000000000000000000) 48) as (f & x & Hx); [set_solver|vm_compute; reflexivity|].
    exists f, x, tailnet_filter_srcs, "fd7a:115c:a1e0::/48"%string. split_and!; [reflexivity|set_solver|done].
  - destruct (prefix_text_holds "::/0" (V6 0) 0) as (f & x & Hx); [set_solver|vm_compute; reflexivity|].
    exists f, x, wildcard_filter_cidrs, "::/0"%string. split_and!; [reflexivity|set_solver|done].
Qed.

Lemma aliases_hold tokens aliases f x :
  Forall2 (fun t ips => alias_ips d nodes t = Some ips) tokens aliases ->
  (exists v, v ∈ List.concat aliases /\ text_holds v f x) <-> exists t, t ∈ tokens /\ alias_holds t f x.
Proof.
  unfold alias_holds. induction 1 as [|t ips tokens aliases Ht _ IH]; cbn [List.concat].
  - split; [by intros (v & ?%elem_of_nil & _)|by intros (t & ?%elem_of_nil & _)].
  - setoid_rewrite elem_of_app. setoid_rewrite elem_of_cons. split.
    + intros (v & [Hv|Hv] & Hx); [exists t; eauto 8|]. destruct (proj1 IH) as (t' & Ht' & Hh); eauto.
    + intros (t' & [-> |Ht'] & Hh).
      * destruct Hh as (ips' & v & E & Hv & Hx). assert (ips' = ips) as -> by congruence. eauto.
      * destruct (proj2 IH) as (v & Hv & Hx); eauto.
Qed.

Lemma push_unique_values texts f x : forall out,
  in_values (fold_left push_unique_string texts out) f x <-> in_values out f x \/ in_values texts f x.
Proof.
  induction texts as [|t texts IH]; intros out; cbn [fold_left]; [pose proof (in_values_nil f x); tauto|].
  rewrite IH, (in_values_cons t texts). unfold push_unique_string. case_bool_decide as Ht.
  - split; [tauto|]. intros [?|[(l & Hl & Hx)|?]]; auto. left. by exists t, l.
  - rewrite in_values_app, in_values_one. tauto.
Qed.

(** The texts put back for the other aliases of a wildcard source: nothing new. *)
Lemma preserved_values tokens aliases f x :
  Forall2 (fun t ips => alias_ips d nodes t = Some ips) tokens aliases ->
  forall out l, fold_opt preserve_step (zip tokens aliases) out = Some l ->
  (in_values out f x -> in_values l f x) /\
  (in_values l f x -> in_values out f x \/ exists t, t ∈ tokens /\ alias_holds t f x).
Proof.
  unfold preserve_step, alias_holds. induction 1 as [|t ips tokens aliases Ht _ IH]; intros out l.
  { cbn. intros [= <-]. tauto. }
  change (zip (t :: tokens) (ips :: aliases)) with ((t, ips) :: zip tokens aliases). cbn [fold_opt fst snd].
  setoid_rewrite elem_of_cons. destruct (is_token "*" t).
  - cbn [mbind option_bind]. intros Hl. destruct (IH _ _ Hl) as [H1 H2]. split; [done|].
    intros [?|(t' & ? & ?)]%H2; eauto 8.
  - destruct (ip_strings_spec ips) as (texts & -> & Htexts). cbn [mbind option_bind]. intros Hl. destruct (IH _ _ Hl) as [H1 H2].
    split; [intros Hx; apply H1, push_unique_values; auto|]. intros [Hx|(t' & ? & ?)]%H2; [|eauto 8].
    apply push_unique_values in Hx as [Hx|Hx]; [auto|]. apply Htexts in Hx as (v & Hv & Hx). right. eauto 8.
Qed.

Lemma token_in name tokens : existsb (is_token name) tokens = true <-> name ∈ tokens.
Proof.
  rewrite existsb_elem. unfold is_token. setoid_rewrite bool_decide_eq_true. split; [intros (t & ? & ->)|]; eauto.
Qed.

Lemma sources_exact tokens :
  exists l, resolve_sources d nodes tokens = Some l /\ forall f x, in_values l f x <-> source_holds tokens f x.
Proof.
  unfold resolve_sources, source_holds. destruct (source_strings_total d nodes tokens true) as [l Hl]. exists l. split; [done|].
  unfold source_strings in Hl. pose proof (token_in "autogroup:self" tokens) as Hself.
  destruct (existsb (is_token "autogroup:self") tokens).
  { injection Hl as <-. intros f x. split; [intros []%in_values_nil|]. intros [Hs _]. exfalso. tauto. }
  assert ("autogroup:self"%string ∉ tokens) as Hns by (intros Hin; by apply Hself in Hin). clear Hself.
  destruct (mapM_total (alias_ips d nodes) tokens (alias_ips_total d nodes)) as (aliases & Ea & Ha). rewrite Ea in Hl. cbn [mbind option_bind] in Hl.
  destruct (ip_strings_spec (List.concat aliases)) as (out & Eo & Ho). rewrite Eo in Hl. cbn [mbind option_bind] in Hl.
  assert (forall f x, in_values out f x <-> exists t, t ∈ tokens /\ alias_holds t f x) as Hout.
  { intros f x. by rewrite Ho, (aliases_hold tokens aliases f x Ha). }
  clear Ea Eo Ho. pose proof (token_in "autogroup:danger-all" tokens) as Hda. pose proof (token_in "*" tokens) as Hw.
  destruct out as [|o out'].
  - injection Hl as <-. intros f x. rewrite Hout. split; [tauto|]. intros [_ [Hx|[[Ht _]|[Ht _]]]]; [done|exfalso..].
    + destruct (wildcards_hold "autogroup:danger-all" ltac:(auto)) as (f' & x' & Hx'). apply (in_values_nil f' x'), Hout. eauto.
    + destruct (wildcards_hold "*" ltac:(auto)) as (f' & x' & Hx'). apply (in_values_nil f' x'), Hout. eauto.
  - set (out := o :: out') in *. clearbody out. clear o out'.
    set (base := if existsb (is_token "autogroup:danger-all") tokens then ["*"%string]
                 else if existsb (is_token "*") tokens then out ++ approved_subnet_routes nodes else out) in *.
    assert (forall f x, in_values base f x <-> (exists t, t ∈ tokens /\ alias_holds t f x) \/
      ("autogroup:danger-all"%string ∈ tokens /\ in_set every_address f x) \/
      ("*"%string ∈ tokens /\ in_values (approved_subnet_routes nodes) f x)) as Hbase.
    { intros f x. unfold base. destruct (existsb (is_token "autogroup:danger-all") tokens).
      - rewrite star_values. split; [tauto|]. intros [Hx|[[_ ?]|[_ Hx]]]; [|done|by eapply values_in_every].
        apply Hout in Hx. by eapply values_in_every.
      - assert ("autogroup:danger-all"%string ∉ tokens) as Hnd by (intros Hin; by apply Hda in Hin).
        destruct (existsb (is_token "*") tokens).
        + rewrite in_values_app, Hout. tauto.
        + assert ("*"%string ∉ tokens) as Hnw by (intros Hin; by apply Hw in Hin). rewrite Hout. tauto. }
    clearbody base. intros f x. destruct (existsb (is_token "*") tokens && true).
    + destruct (preserved_values tokens aliases f x Ha base l Hl) as [H1 H2]. specialize (Hbase f x). tauto.
    + injection Hl as <-. rewrite Hbase. tauto.
Qed.

Lemma dst_star : dst_port_ip_string "*" = "*"%string.
Proof. reflexivity. Qed.

Lemma destinations_exact tokens :
  exists l, resolve_destinations d nodes (List.filter (fun t => negb (is_token "autogroup:self" t)) tokens) = Some l /\
    forall f x, in_values (map dst_port_ip_string l) f x <-> destination_holds tokens f x.
Proof.
  unfold resolve_destinations, destination_holds. induction tokens as [|t tokens (l & El & IH)]; cbn [List.filter].
  - exists []. split; [done|]. intros f x. split; [intros []%in_values_nil|by intros (t & ?%elem_of_nil & _)].
  - setoid_rewrite elem_of_cons. unfold is_token at 1. case_bool_decide as Hself; cbn [negb].
    + exists l. split; [done|]. intros f x. rewrite IH. split; [intros (t' & ? & ?); eauto|].
      intros (t' & [-> |?] & Hne & ?); [done|eauto].
    + apply fmap_Some in El as (ls & Els & ->). cbn [mapM].
      assert (exists lt, resolve_destination d nodes t = Some lt /\ forall f x, in_values (map dst_port_ip_string lt) f x <->
        (t = "*"%string /\ in_set every_address f x) \/ (t <> "*"%string /\ alias_holds t f x)) as (lt & Elt & Hlt).
      { unfold resolve_destination, is_token. case_bool_decide as Hst.
        - eexists. split; [done|]. intros f x. cbn [map]. rewrite dst_star, star_values. tauto.
        - rewrite bool_decide_false by done. destruct (alias_ips_total d nodes t) as [ips Hips]. rewrite Hips. cbn [mbind option_bind].
          destruct (ip_prefixes_spec ips) as (texts & -> & _ & Hr). exists texts. split; [done|]. intros f x. rewrite Hr.
          unfold alias_holds. split.
          + intros (v & Hv & Hx). right. split; [done|]. eauto.
          + intros [[? _]|[_ (ips' & v & E & Hv & Hx)]]; [done|]. assert (ips' = ips) as -> by congruence. eauto. }
      rewrite Elt. cbn [mbind option_bind]. rewrite Els. cbn [mbind option_bind mret option_ret fmap option_fmap option_map].
      eexists. split; [done|]. intros f x. cbn [List.concat]. rewrite map_app, in_values_app, IH, Hlt. split.
      * intros [?|(t' & ? & ?)]; eauto 8.
      * intros (t' & [-> |?] & ? & ?); [by left|right; eauto].
Qed.

Variable admits_proto : list Z -> Z -> Prop.

Definition groups_admit (groups : list PortGroup) (p : Packet) : Prop :=
  exists group range, group ∈ groups /\ range ∈ group.2 /\ in_range range (pk_port p) /\ admits_proto group.1 (pk_proto p).

(** What a grant without [via] stands for. *)
Definition grant_admits (g : FilterGrant) (p : Packet) : Prop :=
  fg_via g = [] /\ source_holds (fg_sources g) (pk_src p).1 (pk_src p).2 /\
  destination_holds (fg_destinations g) (pk_dst p).1 (pk_dst p).2 /\ groups_admit (fg_ports g) p.

Lemma group_entries_admit dsts (group : PortGroup) p :
  (exists e, e ∈ flat_map (fun ip => map (net_port (dst_port_ip_string ip)) group.2) dsts /\ entry_admits e p) <->
  in_values (map dst_port_ip_string dsts) (pk_dst p).1 (pk_dst p).2 /\ exists range, range ∈ group.2 /\ in_range range (pk_port p).
Proof.
  unfold entry_admits. setoid_rewrite list_elem_of_In. setoid_rewrite List.in_flat_map. setoid_rewrite List.in_map_iff. split.
  - intros (e & (ip & Hip & range & <- & Hr) & Hv & Hp). cbn in Hv, Hp. split; [|eauto].
    apply in_values_one in Hv as (l & Hl & Hx). exists (dst_port_ip_string ip), l. split_and!; [|done..].
    apply list_elem_of_In, List.in_map_iff. eauto.
  - intros [(v & l & Hv & Hl & Hx) (range & Hr & Hp)]. apply list_elem_of_In, List.in_map_iff in Hv as (ip & <- & Hip).
    eexists. split; [eauto|]. split; [|done]. apply in_values_one. eauto.
Qed.

Lemma filter_rules_admit src dsts groups p :
  filter_admits admits_proto (filter_rules src dsts groups false) p <->
  in_values src (pk_src p).1 (pk_src p).2 /\ in_values (map dst_port_ip_string dsts) (pk_dst p).1 (pk_dst p).2 /\ groups_admit groups p.
Proof.
  assert (filter_admits admits_proto (map (fun group : PortGroup => port_rule src
            (flat_map (fun ip => map (net_port (dst_port_ip_string ip)) group.2) dsts) group.1) groups) p <->
    in_values src (pk_src p).1 (pk_src p).2 /\ in_values (map dst_port_ip_string dsts) (pk_dst p).1 (pk_dst p).2 /\ groups_admit groups p) as Hmap.
  { unfold filter_admits, rule_admits, groups_admit. setoid_rewrite list_elem_of_In at 1. setoid_rewrite List.in_map_iff. split.
    - intros (r & (group & <- & Hg%list_elem_of_In) & Hs & Hproto & He). cbn [port_rule fr_src_ips fr_protos fr_dst_ports] in *.
      apply group_entries_admit in He as [Hv (range & Hr & Hp)]. eauto 10.
    - intros (Hs & Hv & group & range & Hg & Hr & Hp & Hproto). eexists. split; [exists group; split; [done|by apply list_elem_of_In]|].
      cbn [port_rule fr_src_ips fr_protos fr_dst_ports]. split_and!; [done..|]. apply group_entries_admit. eauto. }
  unfold filter_rules. destruct src as [|s src]; [|destruct dsts as [|t dsts]; [|exact Hmap]].
  - split; [intros []%filter_admits_nil|]. by intros [?%in_values_nil _].
  - split; [intros []%filter_admits_nil|]. by intros (_ & ?%in_values_nil & _).
Qed.

Lemma portless_filter rules p : portless rules -> ~ filter_admits admits_proto rules p.
Proof. unfold portless. rewrite Forall_forall. intros Hr (r & Hin & Hp). by apply portless_admits in Hp; [|apply Hr]. Qed.

(** A grant that is not admitted has no packets. *)
Lemma refused_grant g p : regular_grant_is_admitted d nodes g = Some false -> ~ grant_admits g p.
Proof.
  unfold regular_grant_is_admitted, grant_admits. intros Hadm (_ & (Hself & Hsrc) & (t & Ht & _) & _).
  assert (existsb (is_token "autogroup:self") (fg_sources g) = false) as Eself.
  { destruct (existsb _ _) eqn:E; [|done]. by apply token_in in E. }
  assert (exists t, t ∈ fg_sources g /\ exists f x, alias_holds t f x) as (s & Hs & f & x & ips & v & Hips & Hv & _).
  { destruct Hsrc as [(s & Hs & Hx)|[[Hs _]|[Hs _]]]; [eauto|..]; (eexists; split; [exact Hs|]; apply wildcards_hold; auto). }
  rewrite !bool_decide_false, Eself in Hadm; [|intros E; rewrite E in *; by eapply not_elem_of_nil..].
  cbn [orb] in Hadm. destruct (fg_app g); [done|]. unfold sources_have_resolved_alias in Hadm. rewrite Eself in Hadm.
  destruct (any_opt_total (fun t => (fun r => bool_decide (is_Some (ra_ips r))) <$> resolve_alias d nodes t) (fg_sources g)) as (b & Eb & Hb).
  { intros t'. destruct (resolve_alias_total d nodes t') as [r ->]. by eexists. }
  rewrite Eb in Hadm. injection Hadm as ->. apply (Bool.diff_false_true). apply Hb. exists s. split; [done|].
  unfold alias_ips in Hips. apply fmap_Some in Hips as (r & -> & ->). cbn. f_equal. apply bool_decide_eq_true.
  unfold partial in Hv. destruct (ra_ips r); [by eexists|]. by apply elem_of_nil in Hv.
Qed.

Lemma grant_rules_admit g out :
  exists new, append_grant_rules d nodes out g None = Some (out ++ new) /\
    forall p, filter_admits admits_proto new p <-> grant_admits g p.
Proof.
  unfold append_grant_rules. destruct (fg_via g) as [|via vias] eqn:Evia.
  2: { exists []. rewrite app_nil_r. split; [done|]. intros p. split; [intros []%filter_admits_nil|]. intros [E _]. congruence. }
  destruct (admitted_total d nodes g) as [[] Hadm]; rewrite Hadm; cbn [mbind option_bind negb].
  2: { exists []. rewrite app_nil_r. split; [done|]. intros p. split; [intros []%filter_admits_nil|]. by intros ?%refused_grant. }
  destruct (sources_exact (fg_sources g)) as (sources & -> & Hsrc). cbn [mbind option_bind].
  destruct (companion_sources_total d nodes (fg_sources g)) as [raw ->]. cbn [mbind option_bind].
  destruct (destinations_exact (fg_destinations g)) as (dsts & Edst & Hdst).
  assert (forall p, filter_admits admits_proto (filter_rules sources dsts (fg_ports g) false) p <-> grant_admits g p) as Hrules.
  { intros p. unfold grant_admits. rewrite filter_rules_admit, Hsrc, Hdst. tauto. }
  destruct (List.filter _ (fg_destinations g)) as [|t ts].
  { injection Edst as <-. exists []. rewrite app_nil_r. split; [done|]. intros p. rewrite <-Hrules.
    unfold filter_rules. by destruct sources. }
  rewrite Edst. cbn [mbind option_bind]. destruct (fg_app g) as [app|]; [|by eexists].
  destruct (cap_grant_adds d nodes sources raw (t :: ts) app (fg_app_shape g) (out ++ filter_rules sources dsts (fg_ports g) false)) as (new & -> & Hn).
  cbn [mbind option_bind]. rewrite <-app_assoc. eexists. split; [done|]. intros p. rewrite filter_admits_app, Hrules.
  pose proof (portless_filter new p Hn). tauto.
Qed.

End policy.

(** ** Instances of the theorems *)

Module FilterExamples.
#[local] Existing Instance PrefixNet.lib.
#[local] Existing Instance PrefixNet.laws.

(** Alice may reach the subnet behind the router by SSH, everyone the router itself;
    the first rule is the grant as parsing lowers it. *)
Definition office : AclDoc :=
  mkDoc None 1 ∅ ∅ ∅ (<["lan"%string := "192.168.0.0/16"%string]> ∅) (mkApprovers ∅ []) []
    [mkGrant ["alice@"%string] ["lan"%string] ["tcp:22"%string] ∅ []] false [] [] []
    [mkRule Accept ["alice@"%string] ["lan"%string] ["tcp/22"%string]; mkRule Accept ["*"%string] ["100.64.0.2"%string] []].

Definition phone : PacketFilterNode := mkFilterNode 1 (Some 1) (Some "alice"%string) ["100.64.0.1"%string] [] [].
Definition gate : PacketFilterNode := mkFilterNode 2 (Some 2) (Some "bob"%string) ["100.64.0.2"%string] [] ["192.168.1.0/24"%string].
Definition office_nodes : list PacketFilterNode := [phone; gate].

Definition digest (rules : list Rule) : list (list string * list string * list Z) :=
  map (fun r => (fr_src_ips r, map np_ip (fr_dst_ports r), fr_protos r)) rules.

Definition any_proto (protos : list Z) (n : Z) : Prop := protos = [] \/ n ∈ protos.

(** SSH from the phone to the printer behind the router. *)
Definition print_job : Packet := mkPacket (32, 0x64400001) (32, 0xc0a80107) 6 22.

Lemma received_rules_exact_witness :
  digest <$> acl_to_filter_rules_for_receiver_with_apps office office_nodes gate [] =
    Some [(["100.64.0.1"]%string, ["192.168.0.0/16"]%string, [6]);
          (["100.64.0.0-100.115.91.255"; "100.115.94.0-100.127.255.255"; "fd7a:115c:a1e0::/48"; "192.168.1.0/24"]%string,
           ["100.64.0.2"]%string, [])] /\
  exists compiled rules,
    (out ← unreduced_filter_rules_for_receiver office office_nodes [] gate; append_exit_node_self_rules out office office_nodes gate []) = Some compiled /\
    acl_to_filter_rules_for_receiver_with_apps office office_nodes gate [] = Some rules /\
    (filter_admits any_proto rules print_job <-> filter_admits any_proto compiled print_job).
Proof.
  split; [vm_compute; reflexivity|].
  destruct (received_rules_exact any_proto office office_nodes gate []) as (compiled & rules & Hc & Hr & Hp & _).
  exists compiled, rules. split; [exact Hc|]. split; [exact Hr|]. apply Hp.
  right. exists "192.168.1.0/24"%string. split; [by apply list_elem_of_singleton|].
  eexists. split; [vm_compute; reflexivity|]. split; [reflexivity|]. cbn. lia.
Defined.


End FilterExamples.
