(* ===== verification/NodeAttrs.v ===== *)
(** * NodeAttrs: node attributes and per-node questions of the filter compiler
    (headscale-api/src/policy/filter.rs)

    The functions of the compiler that do not produce rules: the attributes the
    policy stamps on nodes, whether a policy needs a filter per node, the owners
    and sources other components ask for.  Targets are resolved to prefixes once
    and matched against every node's addresses. *)

From stdpp Require Import base list gmap strings sets.
From Stdlib Require Import ZArith Lia Ascii Sorted.
From S2P Require Import Prelude Text Bytes Net GoNetip PolicyPorts Reach Policy Intervals IpSet Resolution FilterCompile FilterSpec.

Open Scope Z_scope.

(** [PacketFilterNode::view] *)
Definition view (n : PacketFilterNode) : NodeView :=
  mkView (head (fn_addrs n)) (fn_addrs n) (fn_user n) (fn_user_id n) (fn_tags n).

Inductive NodeAttrsError := NodeAttrsTarget (target : list string) (errors : list ResolveError).

(** [attrs.entry(id).or_default().extend(values)] *)
Definition extend_entry (attrs : gmap Z (list string)) (id : Z) (values : list string) : gmap Z (list string) :=
  <[id := default [] (attrs !! id) ++ values]> attrs.

Section attrs.
Context `{IpNetLib}.

Definition resolve_owner_ips (d : AclDoc) (tokens : list string) (nodes : list PacketFilterNode) : option (list string) :=
  partial <$> owners d tokens nodes.

Definition resolved_source_cidrs (d : AclDoc) (tokens : list string) (nodes : list PacketFilterNode) : option (list string) :=
  ips ← resolve_sources d nodes tokens;
  (@List.concat string) <$> mapM (fun ip => if is_token "*" ip then Some wildcard_filter_cidrs else ipset_string_to_cidrs ip) ips.

Definition any_ip_matches (prefixes : list string) (node : NodeView) : bool :=
  existsb (fun addr => existsb (fun prefix => ipset_string_contains_addr prefix addr) prefixes)
    (view_addrs node ++ match view_addr node with Some a => [a] | None => [] end).

Definition prefix_covers_route (prefix route : string) : bool :=
  match parse_ip_net prefix, parse_ip_net route with
  | Some prefix, Some route =>
      (net_prefix_len prefix <=? net_prefix_len route) && net_contains_addr prefix (show_ip (net_addr route))
  | _, _ => false
  end.

Definition grant_is_per_node (d : AclDoc) (nodes : list PacketFilterNode) (g : FilterGrant) : option bool :=
  match fg_via g with
  | [] => if existsb (is_token "autogroup:self") (fg_destinations g) then regular_grant_is_admitted d nodes g else Some false
  | _ => if bool_decide (fg_ports g = []) then Some false
         else src ← source_strings d nodes (fg_sources g) false; Some (negb (bool_decide (src = [])))
  end.

Definition has_per_node_filters (d : AclDoc) (nodes : list PacketFilterNode) (apps : list GrantAppShape) : option bool :=
  any_opt (grant_is_per_node d nodes) (filter_grants d apps).

(** The attributes of one entry of the policy, [None] a panic. *)
Definition node_attr_step (d : AclDoc) (nodes : list PacketFilterNode) (attrs : gmap Z (list string)) (g : NodeAttrGrant)
  : option (result (gmap Z (list string)) NodeAttrsError) :=
  if bool_decide (na_attr g = []) then Some (Ok attrs)
  else
    targets ← aliases d (na_target g) nodes;
    Some (match checked targets with
          | Err errors => Err (NodeAttrsTarget (na_target g) errors)
          | Ok targets => Ok (fold_left (fun attrs node => if any_ip_matches targets (view node)
                                                           then extend_entry attrs (fn_id node) (na_attr g) else attrs) nodes attrs)
          end).

Fixpoint node_attr_steps (d : AclDoc) (nodes : list PacketFilterNode) (attrs : gmap Z (list string)) (gs : list NodeAttrGrant)
  : option (result (gmap Z (list string)) NodeAttrsError) :=
  match gs with
  | [] => Some (Ok attrs)
  | g :: rest =>
      r ← node_attr_step d nodes attrs g;
      match r with Ok attrs => node_attr_steps d nodes attrs rest | Err e => Some (Err e) end
  end.

Definition compile_node_attrs (d : AclDoc) (nodes : list PacketFilterNode) : option (result (gmap Z (list string)) NodeAttrsError) :=
  let attrs := if doc_randomize_client_port d
               then fold_left (fun attrs node => extend_entry attrs (fn_id node) ["randomize-client-port"%string]) nodes ∅ else ∅ in
  r ← node_attr_steps d nodes attrs (doc_node_attrs d);
  Some (result_map (fun attrs : gmap Z (list string) => sort_dedup <$> attrs) r).

Definition acl_to_global_filter_rules (d : AclDoc) (nodes : list PacketFilterNode) : option (list Rule) :=
  acl_to_global_filter_rules_with_apps d nodes [].
Definition acl_to_filter_rules (d : AclDoc) : option (list Rule) := acl_to_global_filter_rules d [].
Definition acl_to_filter_rules_for_receiver (d : AclDoc) (nodes : list PacketFilterNode) (self_node : PacketFilterNode) : option (list Rule) :=
  acl_to_filter_rules_for_receiver_with_apps d nodes self_node [].
End attrs.

(** ** Attributes *)

Section theorems.
Context `{IpNetLaws}.

(** Attribute [a] is in the entry of [id]. *)
Definition has_attr (attrs : gmap Z (list string)) (id : Z) (a : string) : Prop := exists l, attrs !! id = Some l /\ a ∈ l.

Lemma extend_entry_attr attrs id values id' a :
  has_attr (extend_entry attrs id values) id' a <-> has_attr attrs id' a \/ (id' = id /\ a ∈ values).
Proof.
  unfold has_attr, extend_entry. destruct (decide (id' = id)) as [-> |Hne].
  - rewrite lookup_insert, decide_True by done. split.
    + intros (l & [= <-] & [Hl|Hv]%elem_of_app); [|by right]. left. destruct (attrs !! id) as [l|]; [by exists l|by apply elem_of_nil in Hl].
    + intros [(l & El & Ha)|[_ Ha]]; (eexists; split; [done|]); apply elem_of_app; [left|by right]. by rewrite El.
  - rewrite lookup_insert_ne by congruence. split; [by left|]. by intros [?|[? _]].
Qed.

Lemma stamp_attr (p : PacketFilterNode -> bool) values nodes id a : forall attrs,
  has_attr (fold_left (fun attrs node => if p node then extend_entry attrs (fn_id node) values else attrs) nodes attrs) id a <->
  has_attr attrs id a \/ (a ∈ values /\ exists n, n ∈ nodes /\ fn_id n = id /\ p n = true).
Proof.
  induction nodes as [|n nodes IH]; intros attrs; cbn [fold_left].
  - split; [by left|]. intros [?|(_ & n & ?%elem_of_nil & _)]; done.
  - rewrite IH. setoid_rewrite elem_of_cons. destruct (p n) eqn:Ep.
    + rewrite extend_entry_attr. split.
      * intros [[?|[-> ?]]|(? & m & ? & ?)]; [by left|right; eauto 8|right; eauto 8].
      * intros [?|(? & m & [-> |?] & <- & ?)]; [auto|auto|right; eauto 8].
    + split; [intros [?|(? & m & ? & ?)]; [auto|right; eauto 8]|].
      intros [?|(? & m & [-> |?] & ? & ?)]; [auto|congruence|right; eauto 8].
Qed.

(** What an entry of the policy gives a node. *)
Definition entry_gives (d : AclDoc) (nodes : list PacketFilterNode) (g : NodeAttrGrant) (n : PacketFilterNode) (a : string) : Prop :=
  a ∈ na_attr g /\ exists r, aliases d (na_target g) nodes = Some r /\ ra_errors r = [] /\ any_ip_matches (partial r) (view n) = true.

(** The targets of an entry resolve: it is empty or has no error. *)
Definition entry_resolves (d : AclDoc) (nodes : list PacketFilterNode) (g : NodeAttrGrant) : Prop :=
  na_attr g = [] \/ exists r, aliases d (na_target g) nodes = Some r /\ ra_errors r = [].

Lemma aliases_total d nodes tokens : exists r, aliases d tokens nodes = Some r.
Proof.
  unfold aliases. destruct (mapM_total (resolve_alias d nodes) tokens (resolve_alias_total d nodes)) as (rs & -> & _). by eexists.
Qed.

Lemma node_attr_steps_spec d nodes gs : forall attrs,
  exists r, node_attr_steps d nodes attrs gs = Some r /\
  match r with
  | Ok attrs' => Forall (entry_resolves d nodes) gs /\
      forall id a, has_attr attrs' id a <-> has_attr attrs id a \/ exists g n, g ∈ gs /\ n ∈ nodes /\ fn_id n = id /\ entry_gives d nodes g n a
  | Err (NodeAttrsTarget target errors) => exists pre g post r', gs = pre ++ g :: post /\ Forall (entry_resolves d nodes) pre /\
      na_attr g <> [] /\ target = na_target g /\ aliases d target nodes = Some r' /\ errors = ra_errors r' /\ errors <> []
  end.
Proof.
  induction gs as [|g gs IH]; intros attrs; cbn [node_attr_steps].
  - eexists. split; [done|]. split; [constructor|]. intros id a. split; [by left|].
    intros [?|(g & n & ?%elem_of_nil & _)]; done.
  - assert (exists r, node_attr_step d nodes attrs g = Some r /\ match r with
      | Ok attrs' => entry_resolves d nodes g /\ forall id a, has_attr attrs' id a <-> has_attr attrs id a \/ exists n, n ∈ nodes /\ fn_id n = id /\ entry_gives d nodes g n a
      | Err e => exists r', na_attr g <> [] /\ aliases d (na_target g) nodes = Some r' /\ e = NodeAttrsTarget (na_target g) (ra_errors r') /\ ra_errors r' <> []
      end) as (r & -> & Hr).
    { unfold node_attr_step. case_bool_decide as Eg.
      { eexists. split; [done|]. split; [by left|]. intros id a. split; [by left|]. intros [?|(n & _ & _ & Ha & _)]; [done|].
        rewrite Eg in Ha. by apply elem_of_nil in Ha. }
      destruct (aliases_total d nodes (na_target g)) as [targets Et]. rewrite Et. cbn [mbind option_bind]. unfold checked.
      destruct (ra_errors targets) as [|e es] eqn:Ee.
      - eexists. split; [done|]. split; [right; eauto|]. intros id a. rewrite stamp_attr. f_equiv. unfold entry_gives. split.
        + intros (Ha & n & Hn & Hid & Hm). exists n. split_and!; [done..|]. eauto 8.
        + intros (n & Hn & Hid & Ha & r & Er & _ & Hm). assert (r = targets) as -> by congruence. eauto 8.
      - eexists. split; [done|]. exists targets. rewrite Ee. done. }
    cbn [mbind option_bind]. destruct r as [attrs'|e].
    + destruct Hr as [Hg Hin]. destruct (IH attrs') as (r & -> & Hr). exists r. split; [done|]. destruct r as [attrs''|[target errors]].
      * destruct Hr as [Hgs Hin']. split; [by constructor|]. intros id a. rewrite Hin', Hin. setoid_rewrite elem_of_cons. split.
        -- intros [[?|(n & ? & ? & ?)]|(g' & n & ? & ?)]; [auto|right; eauto 8|right; eauto 8].
        -- intros [?|(g' & n & [-> |?] & ? & ? & ?)]; [auto|left; right; eauto|right; eauto 8].
      * destruct Hr as (pre & g' & post & r' & -> & Hpre & Hrest). exists (g :: pre), g', post, r'. split; [done|]. split; [by constructor|done].
    + eexists. split; [done|]. destruct Hr as (r' & Hne & Er & -> & Hes). exists [], g, gs, r'. split_and!; done.
Qed.

(** The attributes of the nodes: compilation never panics; it fails exactly at
    the first entry that stamps something and whose targets do not all resolve,
    and reports that entry with its errors; otherwise each node has, sorted and
    without repetition, exactly the attributes of the entries whose resolved
    targets contain one of its addresses. *)
Theorem node_attrs_exact d nodes :
  exists r, compile_node_attrs d nodes = Some r /\
  match r with
  | Ok attrs =>
      Forall (entry_resolves d nodes) (doc_node_attrs d) /\
      map_Forall (fun _ l => NoDup l /\ StronglySorted (le_cmp str_cmp) l) attrs /\
      forall id a, has_attr attrs id a <-> exists n, n ∈ nodes /\ fn_id n = id /\
        ((doc_randomize_client_port d = true /\ a = "randomize-client-port"%string) \/
         exists g, g ∈ doc_node_attrs d /\ entry_gives d nodes g n a)
  | Err (NodeAttrsTarget target errors) => exists pre g post r', doc_node_attrs d = pre ++ g :: post /\
      Forall (entry_resolves d nodes) pre /\ na_attr g <> [] /\ target = na_target g /\
      aliases d target nodes = Some r' /\ errors = ra_errors r' /\ errors <> []
  end.
Proof.
  unfold compile_node_attrs.
  set (attrs0 := if doc_randomize_client_port d then _ else _).
  assert (forall id a, has_attr attrs0 id a <-> doc_randomize_client_port d = true /\ a = "randomize-client-port"%string /\ exists n, n ∈ nodes /\ fn_id n = id) as H0'.
  { intros id a. assert (~ has_attr ∅ id a) as Hno by (intros (l & E & _); by rewrite lookup_empty in E).
    unfold attrs0. destruct (doc_randomize_client_port d); [|split; [by intros ?%Hno|by intros [? _]]].
    rewrite (stamp_attr (fun _ => true) ["randomize-client-port"%string]), list_elem_of_singleton. split.
    - intros [?%Hno|(? & n & ? & ? & _)]; [done|eauto 8].
    - intros (_ & ? & n & ? & ?). right. eauto 8. }
  clearbody attrs0. destruct (node_attr_steps_spec d nodes (doc_node_attrs d) attrs0) as (r & -> & Hr). cbn [mbind option_bind].
  eexists. split; [done|]. destruct r as [attrs|e]; [|done]. destruct Hr as [Hg Hin]. split; [done|]. split.
  - intros id l Hl. rewrite lookup_fmap in Hl. apply fmap_Some in Hl as (l' & _ & ->). destruct (sort_dedup_spec l') as (? & ? & _). done.
  - intros id a. assert (has_attr (sort_dedup <$> attrs) id a <-> has_attr attrs id a) as ->.
    { unfold has_attr. setoid_rewrite lookup_fmap. split.
      - intros (l & (l' & El & ->)%fmap_Some & Ha). exists l'. split; [done|]. by apply (proj2 (proj2 (sort_dedup_spec l'))) in Ha.
      - intros (l & El & Ha). rewrite El. eexists. split; [done|]. by apply (proj2 (proj2 (sort_dedup_spec l))). }
    rewrite Hin, H0'. split.
    + intros [(? & ? & n & ? & ?)|(g & n & ? & ? & ? & ?)]; exists n; eauto 8.
    + intros (n & ? & ? & [[? ?]|(g & ? & ?)]); [left|right]; eauto 10.
Qed.

(** ** Covering a route *)

(** A network no wider than another is inside it as soon as its address is. *)
Lemma covers_by_address outer inner :
  (net_prefix_len outer <=? net_prefix_len inner) && net_contains_addr outer (show_ip (net_addr inner)) = covers outer inner.
Proof.
  unfold net_contains_addr, covers. rewrite parse_show_ip by apply net_addr_ok. rewrite Z.leb_antisym. fold (net_is_v4 inner).
  destruct (Bool.eqb_spec (net_is_v4 outer) (net_is_v4 inner)) as [Hf|Hf]; cbn [andb]; [|by rewrite andb_false_r].
  destruct (Z.ltb_spec (net_prefix_len inner) (net_prefix_len outer)) as [Hl|Hl]; cbn [negb andb]; [done|].
  apply eq_iff_eq_true. rewrite !net_contains_div. cbv zeta. rewrite net_network_family, net_network_eq, ip_with_value_value.
  fold (net_is_v4 inner). assert (ip_width (net_addr outer) = ip_width (net_addr inner)) as Hw by (by apply family_width).
  pose proof (net_prefix_len_range outer). pose proof (net_prefix_len_range inner).
  set (bo := net_block (net_addr outer) (net_prefix_len outer)). set (bi := net_block (net_addr inner) (net_prefix_len inner)).
  assert (bo = bi * 2 ^ (net_prefix_len inner - net_prefix_len outer)) as ->.
  { subst bo bi. unfold net_block. rewrite Hw, <-Z.pow_add_r by lia. f_equal. lia. }
  assert (0 < bi) by (subst bi; unfold net_block; apply Z.pow_pos_nonneg; lia).
  assert (0 < 2 ^ (net_prefix_len inner - net_prefix_len outer)) by (apply Z.pow_pos_nonneg; lia).
  clearbody bi. rewrite <-!Z.div_div, Z.div_mul by lia. done.
Qed.

(** A prefix covers a route exactly when both parse and every address of the
    route lies in the prefix, even though only the length and one address are
    compared. *)
Theorem prefix_covers_route_spec prefix route :
  prefix_covers_route prefix route = true <->
  exists p r, parse_ip_net prefix = Some p /\ parse_ip_net route = Some r /\
    forall ip, net_contains r ip = true -> net_contains p ip = true.
Proof.
  unfold prefix_covers_route. destruct (parse_ip_net prefix) as [p|]; [|split; [done|by intros (? & ? & [=] & _)]].
  destruct (parse_ip_net route) as [r|]; [|split; [done|by intros (? & ? & _ & [=] & _)]].
  rewrite covers_by_address, covers_spec. split; [eauto|]. by intros (? & ? & [= <-] & [= <-] & ?).
Qed.
End theorems.

Module NodeAttrsExamples.
#[local] Existing Instance PrefixNet.lib.
#[local] Existing Instance PrefixNet.laws.

Definition stamped : AclDoc :=
  mkDoc None 1 ∅ ∅ ∅ ∅ (mkApprovers ∅ [])
    [mkNodeAttr ["alice@"%string] ["ssh"; "drive"]%string; mkNodeAttr ["*"%string] ["drive"%string]] [] true [] [] [] [].

Definition tablet : PacketFilterNode := mkFilterNode 1 (Some 1) (Some "alice"%string) ["100.64.0.1"%string] [] [].

Lemma node_attrs_exact_witness :
  match compile_node_attrs stamped [tablet] with
  | Some (Ok attrs) => attrs !! 1 = Some ["drive"; "randomize-client-port"; "ssh"]%string
  | _ => False
  end /\
  exists attrs, compile_node_attrs stamped [tablet] = Some (Ok attrs) /\
    forall id a, has_attr attrs id a <-> exists n, n ∈ [tablet] /\ fn_id n = id /\
      ((doc_randomize_client_port stamped = true /\ a = "randomize-client-port"%string) \/
       exists g, g ∈ doc_node_attrs stamped /\ entry_gives stamped [tablet] g n a).
Proof.
  split; [vm_compute; reflexivity|]. destruct (node_attrs_exact stamped [tablet]) as (r & Er & Hr).
  destruct r as [attrs|e]; [exists attrs; split; [exact Er|apply Hr]|].
  exfalso. assert (match compile_node_attrs stamped [tablet] with Some (Ok _) => true | _ => false end = true) as E by (vm_compute; reflexivity).
  rewrite Er in E. discriminate E.
Defined.

Lemma prefix_covers_route_spec_witness :
  prefix_covers_route "10.0.0.0/8" "10.1.2.3/16" = true /\
  exists p r, parse_ip_net "10.0.0.0/8" = Some p /\ parse_ip_net "10.1.2.3/16" = Some r /\
    forall ip, net_contains r ip = true -> net_contains p ip = true.
Proof.
  assert (prefix_covers_route "10.0.0.0/8" "10.1.2.3/16" = true) as E by (vm_compute; reflexivity).
  split; [exact E|]. apply (prefix_covers_route_spec "10.0.0.0/8" "10.1.2.3/16"). exact E.
Defined.
End NodeAttrsExamples.
