(* ===== verification/Ssh.v ===== *)
(** * Ssh: the SSH policy of a node (headscale-api/src/policy/ssh.rs)

    The SSH rules of a policy are compiled, for the node a client would log in to,
    into rules that name the addresses allowed in, the local users they may become
    and the action.  A [BTreeMap] of users is a [gmap]; grouping by owner visits the
    owners in their order.  The message texts of the wire types that the compiler
    never sets are their defaults.  [None] is a panic of the address printers or
    the end of the fuel of the alias resolver; the theorems show that neither
    occurs, who is let in, as whom, and in which order the rules stand. *)

From stdpp Require Import base list gmap strings sets.
From Stdlib Require Import ZArith Lia Ascii Sorted.
From S2P Require Import Prelude Text Bytes Net GoNetip GoUnicode GoDuration PolicyPorts Reach Policy Intervals IpSet Resolution FilterCompile FilterSpec NodeAttrs.

Open Scope Z_scope.

(** ** Data *)

Record SshPolicyNode := mkSshNode {
  sn_id : Z;
  sn_user : option string;
  sn_user_id : option Z;
  sn_addrs : list string;
  sn_tags : list string;
}.

Record SshRecorderFailureAction := mkRecorderFailure {
  rf_reject_session_with_message : string;
  rf_terminate_session_with_message : string;
  rf_notify_url : string;
}.

Record SshAction := mkSshAction {
  sa_message : string;
  sa_reject : bool;
  sa_accept : bool;
  sa_session_duration : Z;
  sa_allow_agent_forwarding : bool;
  sa_hold_and_delegate : string;
  sa_allow_local_port_forwarding : bool;
  sa_allow_remote_port_forwarding : bool;
  sa_recorders : list string;
  sa_on_recording_failure : option SshRecorderFailureAction;
}.

Record SshPrincipal := mkSshPrincipal {
  sp_node : string;
  sp_node_ip : string;
  sp_user_login : string;
  sp_any : bool;
  sp_unused_pub_keys : list string;
}.

Record WireSshRule := mkWireSshRule {
  wr_rule_expires : option Z;
  wr_principals : list SshPrincipal;
  wr_ssh_users : gmap string string;
  wr_action : SshAction;
  wr_accept_env : list string;
}.

Record NativeSshPolicy := mkNativeSsh { np_rules : list WireSshRule; np_accept_env_nil : list bool }.

Record SshForwarding := mkForwarding { fw_agent : bool; fw_local_port : bool; fw_remote_port : bool }.

#[export] Instance SshForwarding_eq_dec : EqDecision SshForwarding.
Proof. solve_decision. Defined.

Definition ALLOW_ALL : SshForwarding := mkForwarding true true true.

Definition base_action (fw : SshForwarding) : SshAction :=
  mkSshAction "" false false 0 (fw_agent fw) "" (fw_local_port fw) (fw_remote_port fw) [] None.

Definition restrict_action (fw : SshForwarding) (a : SshAction) : SshAction :=
  mkSshAction (sa_message a) (sa_reject a) (sa_accept a) (sa_session_duration a)
    (sa_allow_agent_forwarding a && fw_agent fw) (sa_hold_and_delegate a)
    (sa_allow_local_port_forwarding a && fw_local_port fw) (sa_allow_remote_port_forwarding a && fw_remote_port fw) (sa_recorders a)
    (sa_on_recording_failure a).

Definition restrict (fw : SshForwarding) (rules : list WireSshRule) : list WireSshRule :=
  if bool_decide (fw = ALLOW_ALL) then rules
  else map (fun r => mkWireSshRule (wr_rule_expires r) (wr_principals r) (wr_ssh_users r) (restrict_action fw (wr_action r)) (wr_accept_env r)) rules.

Record SshUserRule := mkUserRule { ur_ssh_users : gmap string string; ur_source_node_ids : gset Z }.

Inductive SourceOwner := OwnerAccount (id : Z) | OwnerLegacy (user : string) | OwnerTagged.

#[export] Instance SourceOwner_eq_dec : EqDecision SourceOwner.
Proof. solve_decision. Defined.

Definition owner_order (a b : SourceOwner) : comparison :=
  match a, b with
  | OwnerAccount x, OwnerAccount y => x ?= y
  | OwnerAccount _, _ => Lt
  | OwnerLegacy _, OwnerAccount _ => Gt
  | OwnerLegacy x, OwnerLegacy y => str_cmp x y
  | OwnerLegacy _, OwnerTagged => Lt
  | OwnerTagged, OwnerTagged => Eq
  | OwnerTagged, _ => Gt
  end.

(** ** Nodes *)

(** [user.filter(|u| !u.is_empty())] *)
Definition named_user (n : SshPolicyNode) : option string :=
  match sn_user n with Some u => if bool_decide (u = ""%string) then None else Some u | None => None end.

Definition source_owner (n : SshPolicyNode) : option SourceOwner :=
  match sn_tags n with
  | _ :: _ => Some OwnerTagged
  | [] => match sn_user_id n with Some id => Some (OwnerAccount id) | None => OwnerLegacy <$> named_user n end
  end.

Definition is_untagged_user_owned (n : SshPolicyNode) : bool :=
  bool_decide (sn_tags n = []) && (bool_decide (is_Some (sn_user_id n)) || bool_decide (is_Some (named_user n))).

Definition same_ssh_user_owner (left right : SshPolicyNode) : bool :=
  is_untagged_user_owned left && is_untagged_user_owned right &&
  match sn_user_id left, sn_user_id right with
  | Some l, Some r => l =? r
  | None, None => match named_user left with Some u => bool_decide (named_user right = Some u) | None => false end
  | _, _ => false
  end.

Definition same_user_untagged_nodes (nodes : list SshPolicyNode) (node : SshPolicyNode) : list SshPolicyNode :=
  List.filter (fun candidate => same_ssh_user_owner candidate node) nodes.

Definition ssh_node_view (n : SshPolicyNode) : NodeView :=
  mkView (head (sn_addrs n)) (sn_addrs n) (sn_user n) (sn_user_id n) (sn_tags n).

Definition as_filter_node (n : SshPolicyNode) : PacketFilterNode :=
  mkFilterNode (sn_id n) (sn_user_id n) (sn_user n) (sn_addrs n) (sn_tags n) [].

(** [Ord for IpAddr] *)
Definition ip_order (a b : IpAddr) : comparison :=
  match a, b with
  | V4 x, V4 y => x ?= y
  | V4 _, V6 _ => Lt
  | V6 _, V4 _ => Gt
  | V6 x, V6 y => x ?= y
  end.

Definition ipset_principal_addresses (addresses : list string) : option (list string) :=
  ips ← mapM (fun address => result_ok (parse_addr address)) addresses;
  Some (map show_ip (sort_by ip_order (remove_dups (map fst ips)))).

Definition unique_node_addrs (n : SshPolicyNode) : list string := default [] (ipset_principal_addresses (sn_addrs n)).

(** The text of an address of a tagged node. *)
Definition tagged_text (addr : string) : string :=
  if bool_decide (addr = ""%string) then "invalid IP" else default addr (addr_text addr).

(** The addresses of the nodes of a rule: a sorted set per owner, then those of
    tagged nodes, once per tag. *)
Definition owners_of (nodes : list SshPolicyNode) : list SourceOwner :=
  sort_by owner_order (remove_dups (omap source_owner nodes)).

Definition source_node_addrs_for_rule (nodes : list SshPolicyNode) (rule : SshUserRule) : list string :=
  let chosen := List.filter (fun n => bool_decide (sn_id n ∈ ur_source_node_ids rule)) nodes in
  let untagged := List.filter (fun n => bool_decide (sn_tags n = [])) chosen in
  let tagged := List.filter (fun n => negb (bool_decide (sn_tags n = []))) chosen in
  flat_map (fun owner => default [] (ipset_principal_addresses
              (flat_map sn_addrs (List.filter (fun n => bool_decide (source_owner n = Some owner)) untagged)))) (owners_of untagged)
  ++ flat_map (fun n => flat_map (fun _ => map tagged_text (sn_addrs n)) (sn_tags n)) tagged.

(** ** Local users *)

Definition canonical_localpart_domain (user : string) : option string :=
  pattern ← strip_prefix "localpart:" user;
  match split_last "@" pattern with
  | Some (localpart, domain) => if bool_decide (localpart = "*"%string) && negb (bool_decide (domain = ""%string)) then Some domain else None
  | None => None
  end.

Definition canonical_localpart_domains (users : list string) : list string := omap canonical_localpart_domain users.

Definition users_have_canonical_localpart (users : list string) : bool :=
  existsb (fun user => bool_decide (is_Some (canonical_localpart_domain user))) users.

Definition localpart_for_domain (user expected : string) : option string :=
  match split_last "@" user with
  | Some (localpart, domain) => if bool_decide (equal_fold expected domain = Some true) then Some localpart else None
  | None => None
  end.

Definition localpart_for_user (user : string) (domains : list string) : option string := last (omap (localpart_for_domain user) domains).

Definition localpart_for_owner (d : AclDoc) (owner : SourceOwner) (legacy_user : option string) (domains : list string) : option string :=
  match owner, doc_users d with
  | OwnerAccount id, Some accounts =>
      last (flat_map (fun domain => omap (fun account => localpart_for_domain (user_email account) domain)
                                      (List.filter (fun account => user_id account =? id) accounts)) domains)
  | OwnerTagged, _ | _, Some _ => None
  | _, None => user ← legacy_user; localpart_for_user user domains
  end.

(** The users every source may become: [*] for anyone but root, root allowed or
    refused, and the names listed; [skip] leaves names out. *)
Definition base_users (users : list string) (skip : string -> bool) : gmap string string :=
  let out := if existsb (is_token "autogroup:nonroot") users then {["*"%string := "="%string]} else ∅ in
  let out := <["root"%string := if existsb (is_token "root") users then "root"%string else ""%string]> out in
  fold_left (fun out user => if is_token "root" user || is_token "autogroup:nonroot" user || skip user then out
                             else <[user := user]> out) users out.

Definition ssh_user_rules_with_localparts (d : AclDoc) (users : list string) (source_nodes : list SshPolicyNode) (domains : list string)
  : list SshUserRule :=
  let base := base_users users (fun user => bool_decide (is_Some (canonical_localpart_domain user))) in
  flat_map (fun owner =>
    let group := List.filter (fun n => bool_decide (source_owner n = Some owner)) source_nodes in
    let ids := list_to_set (map sn_id group) in
    let user := n ← head group; if is_untagged_user_owned n then sn_user n else None in
    mkUserRule base ids :: match localpart_for_owner d owner user domains with
                           | Some localpart => [mkUserRule {[localpart := localpart]} ids]
                           | None => []
                           end) (owners_of source_nodes).

(** The map of users always names root, so there is always one rule. *)
Definition ssh_user_rules (d : AclDoc) (users : list string) (source_nodes : list SshPolicyNode) : list SshUserRule :=
  match canonical_localpart_domains users with
  | [] => [mkUserRule (base_users users (fun _ => false))
             (list_to_set (map sn_id (List.filter (fun n => bool_decide (is_Some (source_owner n))) source_nodes)))]
  | domains => ssh_user_rules_with_localparts d users source_nodes domains
  end.

(** ** Rules *)

Definition ssh_check_hold_url (base_url : string) : string :=
  (base_url ++ "/machine/ssh/action/$SRC_NODE_ID/to/$DST_NODE_ID?local_user=$LOCAL_USER")%string.

Definition ssh_action (base_url action : string) : SshAction :=
  if bool_decide (action = "check"%string)
  then mkSshAction "" false false 0 false (ssh_check_hold_url base_url) false false [] None
  else mkSshAction "" false true 0 true "" true true [] None.

Definition ssh_rule (principals : list string) (users : gmap string string) (action : SshAction) (accept_env : list string) : list WireSshRule :=
  match principals with
  | [] => []
  | _ => [mkWireSshRule None (map (fun ip => mkSshPrincipal "" ip "" false []) principals) users action accept_env]
  end.

Definition ssh_rules_for_nodes (nodes : list SshPolicyNode) (user_rules : list SshUserRule) (action : SshAction) (accept_env : list string)
  : list WireSshRule :=
  flat_map (fun ur => ssh_rule (source_node_addrs_for_rule nodes ur) (ur_ssh_users ur) action accept_env) user_rules.

Definition localpart_self_access_rules (source_nodes : list SshPolicyNode) (target : SshPolicyNode) (user_rules : list SshUserRule)
    (action : SshAction) (accept_env : list string) : list WireSshRule :=
  if is_untagged_user_owned target
  then ssh_rules_for_nodes (same_user_untagged_nodes source_nodes target) user_rules action accept_env
  else flat_map (fun ur => if bool_decide (sn_id target ∈ ur_source_node_ids ur)
                           then ssh_rule (unique_node_addrs target) (ur_ssh_users ur) action accept_env else []) user_rules.

Section compile.
Context `{IpNetLib}.
Variable d : AclDoc.
Variable nodes : list SshPolicyNode.

Definition resolved_ssh_aliases (tokens : list string) : option ResolvedAlias := aliases d tokens (map as_filter_node nodes).
Definition resolve_ssh_aliases (tokens : list string) : option (list string) := partial <$> resolved_ssh_aliases tokens.

Definition ssh_source_nodes_for_ips (ips : list string) : list SshPolicyNode :=
  List.filter (fun n => any_ip_matches ips (ssh_node_view n)) nodes.

Definition resolve_ssh_source_nodes (tokens : list string) : option (list SshPolicyNode) :=
  ips ← resolve_ssh_aliases tokens; Some (ssh_source_nodes_for_ips ips).

Definition ssh_destination_matches (token : string) (node : SshPolicyNode) : option bool :=
  ips ← resolve_ssh_aliases [token]; Some (any_ip_matches ips (ssh_node_view node)).

(** The rules one entry of the policy contributes. *)
Definition entry_rules (target : SshPolicyNode) (base_url : string) (rule : SshRule) : option (list WireSshRule) :=
  source_nodes ← resolve_ssh_source_nodes (ssh_src rule);
  match source_nodes with
  | [] => Some []
  | _ =>
      let action := ssh_action base_url (ssh_action_text rule) in
      match ssh_user_rules d (ssh_rule_users rule) source_nodes with
      | [] => Some []
      | user_rules =>
          let self_dsts := List.filter (is_token "autogroup:self") (ssh_dst rule) in
          let other_dsts := List.filter (fun t => negb (is_token "autogroup:self" t)) (ssh_dst rule) in
          let self_rules := if negb (bool_decide (self_dsts = [])) && is_untagged_user_owned target
                            then ssh_rules_for_nodes (same_user_untagged_nodes source_nodes target) user_rules action (ssh_accept_env rule)
                            else [] in
          match other_dsts with
          | [] => Some self_rules
          | _ =>
              matched ← any_opt (fun dst => ssh_destination_matches dst target) other_dsts;
              Some (self_rules ++
                if matched : bool then ssh_rules_for_nodes source_nodes user_rules action (ssh_accept_env rule)
                else if users_have_canonical_localpart (ssh_rule_users rule) && existsb (fun n => sn_id n =? sn_id target) source_nodes
                then localpart_self_access_rules source_nodes target user_rules action (ssh_accept_env rule) else [])
          end
      end
  end.

(** [sort_by_key] on the pairs of rules and flags: check rules first. *)
Definition check_order (a b : WireSshRule * bool) : comparison :=
  let key (p : WireSshRule * bool) := if bool_decide (sa_hold_and_delegate (wr_action p.1) = ""%string) then 1 else 0 in key a ?= key b.

Definition entry_pairs (target : SshPolicyNode) (base_url : string) (rule_accept_env_nil : list bool) (index : nat) (rule : SshRule)
  : option (list (WireSshRule * bool)) :=
  rules ← entry_rules target base_url rule;
  let flag := bool_decide (ssh_accept_env rule = []) && default false (rule_accept_env_nil !! index) in
  Some (map (fun r => (r, flag)) rules).

Definition compile_ssh_policy_snapshot (target : SshPolicyNode) (base_url : string) (rule_accept_env_nil : list bool) : option NativeSshPolicy :=
  match doc_ssh d with
  | [] => Some (mkNativeSsh [] [])
  | _ =>
      pairs ← mapM (fun p : nat * SshRule => entry_pairs target base_url rule_accept_env_nil p.1 p.2) (imap pair (doc_ssh d));
      let sorted := sort_by check_order (List.concat pairs) in
      Some (mkNativeSsh (map fst sorted) (map snd sorted))
  end.

Definition compile_ssh_policy_for_target (target : SshPolicyNode) (base_url : string) : option (list WireSshRule) :=
  np_rules <$> compile_ssh_policy_snapshot target base_url [].

(** The outer [option] is a panic, the inner one the function's. *)
Definition compile_ssh_policy_with_base_url (target_node_id : Z) (base_url : string) : option (option (list WireSshRule)) :=
  match doc_ssh d with
  | [] => Some (Some [])
  | _ => match List.find (fun n => sn_id n =? target_node_id) nodes with
         | None => Some None
         | Some target => Some <$> compile_ssh_policy_for_target target base_url
         end
  end.

Definition compile_ssh_policy (target_node_id : Z) : option (option (list WireSshRule)) :=
  compile_ssh_policy_with_base_url target_node_id "".

(** ** Check mode *)

Definition ssh_rule_allows_user (users : list string) (source : SshPolicyNode) (local_user : string) : bool :=
  if bool_decide (local_user = ""%string) then false
  else
    let is_root := bool_decide (local_user = "root"%string) in
    if (is_root && existsb (is_token "root") users)
       || (negb is_root && existsb (fun user => is_token "autogroup:nonroot" user
                                     || (bool_decide (user = local_user) && bool_decide (canonical_localpart_domain user = None))) users)
    then true
    else if negb (is_untagged_user_owned source) then false
    else match source_owner source with
         | None => false
         | Some owner => bool_decide (localpart_for_owner d owner (sn_user source) (canonical_localpart_domains users) = Some local_user)
         end.

Definition SSH_CHECK_PERIOD_DEFAULT : Z := 12 * 60 * 60 * 1000000000.

(** In nanoseconds. *)
Definition check_period_from_rule (check_period : option string) : option Z :=
  match check_period with
  | None => Some SSH_CHECK_PERIOD_DEFAULT
  | Some period =>
      if bool_decide (period = "always"%string) || bool_decide (period = "0"%string) then Some 0
      else r ← parse_duration_nanos period;
           Some (match r with Ok nanos => if 0 <=? nanos then nanos else SSH_CHECK_PERIOD_DEFAULT | Err _ => SSH_CHECK_PERIOD_DEFAULT end)
  end.

(** Does a destination of a check rule admit the pair of nodes? *)
Definition check_destination (src_node dst_node : SshPolicyNode) (dst : string) : option bool :=
  if is_token "autogroup:self" dst then Some (same_ssh_user_owner src_node dst_node)
  else r ← resolved_ssh_aliases [dst];
       Some (match checked r with Ok ips => any_ip_matches ips (ssh_node_view dst_node) | Err _ => false end).

Definition check_rule_applies (src_node dst_node : SshPolicyNode) (local_user : string) (rule : SshRule) : option bool :=
  if negb (bool_decide (ssh_action_text rule = "check"%string)) then Some false
  else
    r ← resolved_ssh_aliases (ssh_src rule);
    match checked r with
    | Err _ => Some false
    | Ok source_ips =>
        let source_nodes := ssh_source_nodes_for_ips source_ips in
        if negb (existsb (fun n => sn_id n =? sn_id src_node) source_nodes) || negb (ssh_rule_allows_user (ssh_rule_users rule) src_node local_user)
        then Some false
        else
          direct ← any_opt (check_destination src_node dst_node) (ssh_dst rule);
          Some (direct
            || (users_have_canonical_localpart (ssh_rule_users rule)
                && existsb (fun t => negb (is_token "autogroup:self" t)) (ssh_dst rule)
                && existsb (fun n => sn_id n =? sn_id dst_node) source_nodes
                && ((is_untagged_user_owned dst_node && same_ssh_user_owner src_node dst_node)
                    || (negb (is_untagged_user_owned dst_node) && (sn_id src_node =? sn_id dst_node)))))
    end.

Fixpoint first_check (src_node dst_node : SshPolicyNode) (local_user : string) (rules : list SshRule) : option (option Z) :=
  match rules with
  | [] => Some None
  | rule :: rest =>
      applies ← check_rule_applies src_node dst_node local_user rule;
      if applies : bool then Some <$> check_period_from_rule (ssh_check_period rule) else first_check src_node dst_node local_user rest
  end.

Definition ssh_check_period_for (src_node_id dst_node_id : Z) (local_user : string) : option (option Z) :=
  if bool_decide (doc_ssh d = []) || bool_decide (local_user = ""%string) then Some None
  else match List.find (fun n => sn_id n =? src_node_id) nodes, List.find (fun n => sn_id n =? dst_node_id) nodes with
       | Some src_node, Some dst_node => first_check src_node dst_node local_user (doc_ssh d)
       | _, _ => Some None
       end.
End compile.

(** ** Users *)

(** The users of a rule, name by name. *)
Lemma base_users_lookup users skip u :
  base_users users skip !! u =
  if bool_decide (u = "root"%string) then Some (if bool_decide ("root"%string ∈ users) then "root"%string else ""%string)
  else if bool_decide (u ∈ users /\ u <> "autogroup:nonroot"%string /\ skip u = false) then Some u
  else if bool_decide (u = "*"%string /\ "autogroup:nonroot"%string ∈ users) then Some "="%string
  else None.
Proof.
  assert (forall name, existsb (is_token name) users = bool_decide (name ∈ users)) as Htok.
  { intros name. apply eq_iff_eq_true. by rewrite token_in, bool_decide_eq_true. }
  unfold base_users. rewrite !Htok. set (out := <["root"%string := _]> _).
  assert (forall l (m : gmap string string), fold_left (fun out user => if is_token "root" user || is_token "autogroup:nonroot" user || skip user then out else <[user := user]> out) l m !! u
    = if bool_decide (u ∈ l /\ u <> "root"%string /\ u <> "autogroup:nonroot"%string /\ skip u = false) then Some u else m !! u) as Hfold.
  { induction l as [|x l IH]; intros m; cbn [fold_left].
    - rewrite bool_decide_false; [done|]. by intros [?%elem_of_nil _].
    - rewrite IH. unfold is_token. case_bool_decide as Hu.
      + rewrite bool_decide_true; [done|]. destruct Hu as [? ?]. split; [by apply list_elem_of_further|done].
      + destruct (decide (u = x)) as [-> |Hne].
        * case_bool_decide as Hr; [|case_bool_decide as Hn]; cbn [orb].
          1,2: rewrite bool_decide_false; [done|]; intros (_ & ? & ? & _); done.
          destruct (skip x) eqn:Es; [rewrite bool_decide_false by (by intros (_ & _ & _ & ?)); done|].
          rewrite bool_decide_true by (split_and!; [apply list_elem_of_here|done..]). by rewrite lookup_insert, decide_True.
        * transitivity (m !! u); [destruct (_ || _); [done|by rewrite lookup_insert_ne by congruence]|].
          rewrite bool_decide_false; [done|]. intros ([?|?]%elem_of_cons & ?); [done|]. by apply Hu. }
  rewrite Hfold. unfold out. case_bool_decide as Hu.
  - destruct Hu as (? & ? & ? & ?). rewrite bool_decide_false by done. by rewrite bool_decide_true.
  - destruct (decide (u = "root"%string)) as [-> |Hne].
    + rewrite (bool_decide_true ("root"%string = "root"%string)) by done. by rewrite lookup_insert, decide_True.
    + rewrite (bool_decide_false (u = "root"%string)) by done. rewrite lookup_insert_ne by congruence.
      rewrite (bool_decide_false (u ∈ users /\ _)) by (intros (? & ? & ?); by apply Hu).
      destruct (decide (u = "*"%string)) as [-> |Hs].
      * destruct (decide ("autogroup:nonroot"%string ∈ users)) as [Hn|Hn].
        -- rewrite !bool_decide_true by done. by rewrite lookup_singleton, decide_True.
        -- rewrite !bool_decide_false; [done|by intros [_ ?]|done].
      * rewrite (bool_decide_false (u = "*"%string /\ _)) by (by intros [? _]). case_bool_decide; [|done].
        by rewrite lookup_singleton_ne.
Qed.

(** As whom an SSH rule lets its sources in: every user rule of an entry either
    has exactly the users the entry names (root refused with an empty target unless
    it is listed, anyone else allowed only by [autogroup:nonroot], names to
    themselves) or a single local part, taken from the address of an account that
    owns one of the sources at a domain the entry lists. *)
Theorem ssh_users_exact d users sources ur :
  ur ∈ ssh_user_rules d users sources ->
  (forall u, ur_ssh_users ur !! u =
     if bool_decide (u = "root"%string) then Some (if bool_decide ("root"%string ∈ users) then "root"%string else ""%string)
     else if bool_decide (u ∈ users /\ u <> "autogroup:nonroot"%string /\ canonical_localpart_domain u = None) then Some u
     else if bool_decide (u = "*"%string /\ "autogroup:nonroot"%string ∈ users) then Some "="%string
     else None) \/
  (exists l n owner user, ur_ssh_users ur = {[l := l]} /\ n ∈ sources /\ source_owner n = Some owner /\
     localpart_for_owner d owner user (canonical_localpart_domains users) = Some l).
Proof.
  unfold ssh_user_rules. destruct (canonical_localpart_domains users) as [|dom doms] eqn:Ed.
  - intros ->%list_elem_of_singleton. left. intros u. cbn [ur_ssh_users]. rewrite base_users_lookup.
    assert (forall u, u ∈ users -> canonical_localpart_domain u = None) as Hnone.
    { intros v Hv. destruct (canonical_localpart_domain v) as [x|] eqn:Ex; [|done]. exfalso.
      assert (x ∈ canonical_localpart_domains users) as Hx by (apply list_elem_of_omap; eauto). rewrite Ed in Hx. by apply elem_of_nil in Hx. }
    case_bool_decide; [done|]. erewrite bool_decide_ext; [done|]. split; intros (? & ? & _); auto.
  - rewrite <-Ed. unfold ssh_user_rules_with_localparts. rewrite list_elem_of_In, in_flat_map. intros (owner & Ho & Hur).
    destruct Hur as [<- |Hur].
    + left. intros u. cbn [ur_ssh_users]. rewrite base_users_lookup. case_bool_decide; [done|]. erewrite bool_decide_ext; [done|].
      destruct (canonical_localpart_domain u) as [x|].
      * rewrite bool_decide_true by done. split; [by intros (_ & _ & ?)|by intros (_ & _ & ?)].
      * rewrite bool_decide_false by (by intros [? ?]). split; intros (? & ? & _); done.
    + right. set (group := List.filter _ sources) in *. set (user := mbind _ _) in *.
      destruct (localpart_for_owner d owner user _) as [l|] eqn:El; [|done]. destruct Hur as [<- |[]].
      unfold owners_of in Ho. rewrite <-list_elem_of_In, sort_by_In, elem_of_remove_dups, list_elem_of_omap in Ho. destruct Ho as (n & Hn & Hon).
      by exists l, n, owner, user.
Qed.

(** ** Who is let in *)

(** [addr] is one of the texts under which the node [n] can be a principal. *)
Definition principal_of (n : SshPolicyNode) (addr : string) : Prop :=
  (exists a ip zone, a ∈ sn_addrs n /\ parse_addr a = Ok (ip, zone) /\ addr = show_ip ip) \/
  (sn_tags n <> [] /\ exists a, a ∈ sn_addrs n /\ addr = tagged_text a).

Lemma ipset_principal_addresses_in addresses out addr :
  ipset_principal_addresses addresses = Some out ->
  addr ∈ out <-> exists a ip zone, a ∈ addresses /\ parse_addr a = Ok (ip, zone) /\ addr = show_ip ip.
Proof.
  unfold ipset_principal_addresses. destruct (mapM _ addresses) as [ips|] eqn:E; [|done]. cbn [mbind option_bind]. intros [= <-].
  assert (forall p, p ∈ ips <-> exists a, a ∈ addresses /\ result_ok (parse_addr a) = Some p) as Hips.
  { intros p. apply mapM_Some in E. split.
    - intros [i Hi]%list_elem_of_lookup. destruct (Forall2_lookup_r _ _ _ _ _ E Hi) as (a & Ha & Hap). exists a. split; [by eapply list_elem_of_lookup_2|done].
    - intros (a & [i Hi]%list_elem_of_lookup & Hap). destruct (Forall2_lookup_l _ _ _ _ _ E Hi) as (q & Hq & Haq).
      assert (p = q) as -> by congruence. by eapply list_elem_of_lookup_2. }
  rewrite list_elem_of_fmap. setoid_rewrite sort_by_In. setoid_rewrite elem_of_remove_dups. setoid_rewrite list_elem_of_fmap. split.
  - intros (ip & -> & [ip' zone] & -> & (a & Ha & Hp)%Hips). exists a, ip', zone. split_and!; [done| |done]. by destruct (parse_addr a) as [q|]; cbn in Hp; simplify_eq.
  - intros (a & ip & zone & Ha & Hp & ->). exists ip. split; [done|]. exists (ip, zone). split; [done|]. apply Hips. exists a. by rewrite Hp.
Qed.

Lemma default_nil_in {A} (o : option (list A)) x : x ∈ default [] o <-> exists l, o = Some l /\ x ∈ l.
Proof. destruct o as [l|]; cbn; [naive_solver|]. split; [by intros ?%elem_of_nil|by intros (l & ? & _)]. Qed.

Lemma flat_map_in {A B} (f : A -> list B) l y : y ∈ flat_map f l <-> exists x, x ∈ l /\ y ∈ f x.
Proof. rewrite list_elem_of_In, in_flat_map. by setoid_rewrite list_elem_of_In. Qed.

Lemma owners_of_in nodes owner : owner ∈ owners_of nodes <-> exists n, n ∈ nodes /\ source_owner n = Some owner.
Proof. unfold owners_of. by rewrite sort_by_In, elem_of_remove_dups, list_elem_of_omap. Qed.

(** Every principal of a rule is an address of one of the rule's own sources. *)
Lemma source_node_addrs_sound nodes ur addr :
  addr ∈ source_node_addrs_for_rule nodes ur -> exists n, n ∈ nodes /\ sn_id n ∈ ur_source_node_ids ur /\ principal_of n addr.
Proof.
  unfold source_node_addrs_for_rule. rewrite elem_of_app, !flat_map_in. intros [(owner & _ & Ha)|(n & Hn & Ha)].
  - apply default_nil_in in Ha as (out & Eo & Ha). apply (ipset_principal_addresses_in _ _ _ Eo) in Ha as (a & ip & zone & Ha & Hp & ->).
    apply flat_map_in in Ha as (n & Hn & Ha). rewrite !elem_of_filter_bool in Hn. destruct Hn as [[[Hn Hid] _] _].
    apply bool_decide_eq_true in Hid. exists n. split_and!; [done..|]. left. eauto 6.
  - rewrite !elem_of_filter_bool in Hn. destruct Hn as [[Hn Hid] Ht]. apply bool_decide_eq_true in Hid. apply flat_map_in in Ha as (t & _ & Ha).
    apply list_elem_of_fmap in Ha as (a & -> & Ha). exists n. split_and!; [done..|]. right. split; [|eauto]. by apply negb_true_iff, bool_decide_eq_false in Ht.
Qed.

Lemma ssh_rule_in principals users action env r :
  r ∈ ssh_rule principals users action env ->
  principals <> [] /\ r = mkWireSshRule None (map (fun ip => mkSshPrincipal "" ip "" false []) principals) users action env.
Proof. destruct principals; [by intros ?%elem_of_nil|]. by intros ->%list_elem_of_singleton. Qed.

(** What every compiled rule of an entry has, when its principals are [who]. *)
Definition rule_for (user_rules : list SshUserRule) (action : SshAction) (env : list string) (who : string -> Prop) (r : WireSshRule) : Prop :=
  wr_action r = action /\ wr_accept_env r = env /\ (exists ur, ur ∈ user_rules /\ wr_ssh_users r = ur_ssh_users ur) /\
  wr_principals r <> [] /\ forall p, p ∈ wr_principals r -> who (sp_node_ip p).

Lemma ssh_rule_for user_rules ur principals action env (who : string -> Prop) r :
  ur ∈ user_rules -> (forall addr, addr ∈ principals -> who addr) -> r ∈ ssh_rule principals (ur_ssh_users ur) action env ->
  rule_for user_rules action env who r.
Proof.
  intros Hur Hwho [Hne ->]%ssh_rule_in. unfold rule_for. cbn. split_and!; [done..|eauto| |].
  - by intros ->%map_eq_nil.
  - intros p (ip & -> & Hip)%list_elem_of_fmap. by apply Hwho.
Qed.

Lemma rules_for_nodes_for nodes user_rules action env r :
  r ∈ ssh_rules_for_nodes nodes user_rules action env -> rule_for user_rules action env (fun addr => exists n, n ∈ nodes /\ principal_of n addr) r.
Proof.
  unfold ssh_rules_for_nodes. rewrite flat_map_in. intros (ur & Hur & Hr). eapply ssh_rule_for; [done| |done].
  intros addr (n & Hn & _ & Ha)%source_node_addrs_sound. eauto.
Qed.

Lemma rule_for_mono user_rules action env (P Q : string -> Prop) r :
  (forall a, P a -> Q a) -> rule_for user_rules action env P r -> rule_for user_rules action env Q r.
Proof. intros HPQ (? & ? & ? & ? & ?). split_and!; auto. Qed.

(** The user rules only name the sources of the entry. *)
Lemma ssh_user_rules_ids d users sources ur id :
  ur ∈ ssh_user_rules d users sources -> id ∈ ur_source_node_ids ur -> exists n, n ∈ sources /\ sn_id n = id.
Proof.
  assert (forall (f : SshPolicyNode -> bool), id ∈ (list_to_set (map sn_id (List.filter f sources)) : gset Z) -> exists n, n ∈ sources /\ sn_id n = id) as Hids.
  { intros f. rewrite elem_of_list_to_set, list_elem_of_fmap. intros (n & -> & [Hn _]%elem_of_filter_bool). eauto. }
  unfold ssh_user_rules. destruct (canonical_localpart_domains users) as [|dom doms].
  - intros ->%list_elem_of_singleton. apply Hids.
  - unfold ssh_user_rules_with_localparts. rewrite flat_map_in. intros (owner & _ & Hur).
    apply elem_of_cons in Hur as [-> |Hur]; [apply Hids|]. destruct (localpart_for_owner _ _ _ _); [|by apply elem_of_nil in Hur].
    apply list_elem_of_singleton in Hur as ->. apply Hids.
Qed.

(** Who an entry lets in to [target]: one of its sources, when the entry has
    [autogroup:self] and the source has the owner of the target, when another
    destination resolves to an address of the target, or when the entry maps local
    parts and the target is itself a source with the source's owner; or, in this
    last case, the target itself when it is tagged. *)
Definition lets_in `{IpNetLib} (d : AclDoc) (nodes : list SshPolicyNode) (rule : SshRule) (sources : list SshPolicyNode) (target n : SshPolicyNode) : Prop :=
  let target_is_source := users_have_canonical_localpart (ssh_rule_users rule) = true /\ exists n', n' ∈ sources /\ sn_id n' = sn_id target in
  (n ∈ sources /\
    (("autogroup:self"%string ∈ ssh_dst rule /\ same_ssh_user_owner n target = true) \/
     (exists dst, dst ∈ ssh_dst rule /\ dst <> "autogroup:self"%string /\ ssh_destination_matches d nodes dst target = Some true) \/
     (target_is_source /\ same_ssh_user_owner n target = true))) \/
  (n = target /\ target_is_source /\ is_untagged_user_owned target = false).

Section authorized.
Context `{IpNetLaws}.
Variable d : AclDoc.
Variable nodes : list SshPolicyNode.

Lemma resolve_ssh_aliases_total tokens : exists ips, resolve_ssh_aliases d nodes tokens = Some ips.
Proof.
  unfold resolve_ssh_aliases, resolved_ssh_aliases. destruct (aliases_total d (map as_filter_node nodes) tokens) as [r ->]. by eexists.
Qed.

Lemma same_user_rules_for rule sources target user_rules action r :
  r ∈ ssh_rules_for_nodes (same_user_untagged_nodes sources target) user_rules action (ssh_accept_env rule) ->
  ("autogroup:self"%string ∈ ssh_dst rule \/
   users_have_canonical_localpart (ssh_rule_users rule) = true /\ exists n', n' ∈ sources /\ sn_id n' = sn_id target) ->
  rule_for user_rules action (ssh_accept_env rule) (fun addr => exists n, lets_in d nodes rule sources target n /\ principal_of n addr) r.
Proof.
  intros Hr%rules_for_nodes_for Hwhy. eapply rule_for_mono; [|done]. intros addr (n & [Hn Hs]%elem_of_filter_bool & Ha). exists n. split; [|done].
  left. split; [done|]. destruct Hwhy as [?|?]; auto.
Qed.

Lemma localpart_rules_for rule sources target action r :
  users_have_canonical_localpart (ssh_rule_users rule) = true -> (exists n', n' ∈ sources /\ sn_id n' = sn_id target) ->
  r ∈ localpart_self_access_rules sources target (ssh_user_rules d (ssh_rule_users rule) sources) action (ssh_accept_env rule) ->
  rule_for (ssh_user_rules d (ssh_rule_users rule) sources) action (ssh_accept_env rule)
    (fun addr => exists n, lets_in d nodes rule sources target n /\ principal_of n addr) r.
Proof.
  intros Hu Hn. unfold localpart_self_access_rules. destruct (is_untagged_user_owned target) eqn:Et.
  - intros Hr. apply (same_user_rules_for _ _ target); auto.
  - rewrite flat_map_in. intros (ur & Hur & Hr). case_bool_decide; [|by apply elem_of_nil in Hr].
    eapply ssh_rule_for; [done| |done]. intros addr Ha. exists target. split; [right; auto|].
    unfold unique_node_addrs in Ha. apply default_nil_in in Ha as (out & Eo & Ha). left. by apply (ipset_principal_addresses_in _ _ _ Eo) in Ha.
Qed.

Lemma entry_rules_spec target base_url rule :
  exists rules sources, entry_rules d nodes target base_url rule = Some rules /\ resolve_ssh_source_nodes d nodes (ssh_src rule) = Some sources /\
  forall r, r ∈ rules -> rule_for (ssh_user_rules d (ssh_rule_users rule) sources) (ssh_action base_url (ssh_action_text rule)) (ssh_accept_env rule)
    (fun addr => exists n, lets_in d nodes rule sources target n /\ principal_of n addr) r.
Proof.
  unfold entry_rules. assert (exists sources, resolve_ssh_source_nodes d nodes (ssh_src rule) = Some sources) as [sources Es].
  { unfold resolve_ssh_source_nodes. destruct (resolve_ssh_aliases_total (ssh_src rule)) as [ips ->]. by eexists. }
  rewrite Es. cbn [mbind option_bind]. destruct sources as [|s0 ss] eqn:Esrc; [by exists [], []; split_and!; [done..|intros ? ?%elem_of_nil]|].
  rewrite <-Esrc in *. set (action := ssh_action _ _). remember (ssh_user_rules d (ssh_rule_users rule) sources) as urs eqn:Eurs.
  destruct urs as [|u0 us] eqn:Eu; [by exists [], sources; split_and!; [done..|intros ? ?%elem_of_nil]|]. rewrite Eurs.
  set (self_rules := if negb _ && _ then _ else _).
  assert (forall r, r ∈ self_rules -> rule_for (ssh_user_rules d (ssh_rule_users rule) sources) action (ssh_accept_env rule)
    (fun addr => exists n, lets_in d nodes rule sources target n /\ principal_of n addr) r) as Hself.
  { intros r. unfold self_rules. destruct (negb _ && _) eqn:Eb; [|by intros ?%elem_of_nil]. apply andb_true_iff in Eb as [Eb _].
    intros Hr. apply (same_user_rules_for _ _ target); [done|left]. apply negb_true_iff, bool_decide_eq_false in Eb.
    destruct (List.filter _ (ssh_dst rule)) as [|t ts] eqn:Ef; [done|]. assert (t ∈ t :: ts) as Ht by apply list_elem_of_here.
    rewrite <-Ef in Ht. apply elem_of_filter_bool in Ht as [Ht Hself]. unfold is_token in Hself. apply bool_decide_eq_true in Hself. by subst. }
  set (other_dsts := List.filter _ _).
  assert (exists rules, (match other_dsts with [] => Some self_rules | _ => matched ← any_opt (fun dst => ssh_destination_matches d nodes dst target) other_dsts;
    Some (self_rules ++ if matched : bool then ssh_rules_for_nodes sources (ssh_user_rules d (ssh_rule_users rule) sources) action (ssh_accept_env rule)
       else if users_have_canonical_localpart (ssh_rule_users rule) && existsb (fun n => sn_id n =? sn_id target) sources
       then localpart_self_access_rules sources target (ssh_user_rules d (ssh_rule_users rule) sources) action (ssh_accept_env rule) else []) end) = Some rules /\
    forall r, r ∈ rules -> rule_for (ssh_user_rules d (ssh_rule_users rule) sources) action (ssh_accept_env rule)
    (fun addr => exists n, lets_in d nodes rule sources target n /\ principal_of n addr) r) as (rules & Er & Hr); [|by exists rules, sources].
  destruct (any_opt_total (fun dst => ssh_destination_matches d nodes dst target) other_dsts) as (b & Eb & Hb).
  { intros dst. unfold ssh_destination_matches. destruct (resolve_ssh_aliases_total [dst]) as [ips ->]. by eexists. }
  rewrite Eb. cbn [mbind option_bind]. destruct other_dsts as [|o0 os] eqn:Eo; [by eexists|]. rewrite <-Eo in *. eexists. split; [done|].
  intros r [Hr|Hr]%elem_of_app; [auto|]. destruct b.
  - destruct Hb as [Hb _]. destruct (Hb eq_refl) as (dst & Hdst & Hm). apply elem_of_filter_bool in Hdst as [Hdst Hns].
    unfold is_token in Hns. apply negb_true_iff, bool_decide_eq_false in Hns. apply rules_for_nodes_for in Hr. eapply rule_for_mono; [|done].
    intros addr (n & Hn & Ha). exists n. split; [|done]. left. split; [done|]. right; left. eauto.
  - destruct (users_have_canonical_localpart _ && _) eqn:El; [|by apply elem_of_nil in Hr]. apply andb_true_iff in El as [El Hn].
    apply localpart_rules_for; [done| |done]. apply existsb_elem in Hn as (n & Hn & Hid). exists n. split; [done|lia].
Qed.

Lemma entry_pairs_total target base_url flags (l : list (nat * SshRule)) :
  exists entries pairs, mapM (entry_rules d nodes target base_url) (map snd l) = Some entries /\
    mapM (fun p => entry_pairs d nodes target base_url flags p.1 p.2) l = Some pairs /\ map fst (List.concat pairs) = List.concat entries.
Proof.
  induction l as [|[i rule] l (entries & pairs & IHe & IHp & IH)]; [by exists [], []|].
  destruct (entry_rules_spec target base_url rule) as (rules & _ & Er & _). exists (rules :: entries). cbn [mapM map snd fst]. eexists. rewrite Er, IHe, IHp.
  unfold entry_pairs. rewrite Er. cbn [mbind option_bind]. split_and!; [done..|]. cbn [List.concat]. rewrite map_app, map_map, IH. cbn [fst]. by rewrite map_id.
Qed.

(** The compiled rules are those of the entries in the order of the policy, sorted. *)
Lemma snapshot_rules target base_url flags :
  exists entries pairs, mapM (entry_rules d nodes target base_url) (doc_ssh d) = Some entries /\ map fst pairs = List.concat entries /\
    compile_ssh_policy_snapshot d nodes target base_url flags
      = Some (mkNativeSsh (map fst (sort_by check_order pairs)) (map snd (sort_by check_order pairs))).
Proof.
  destruct (entry_pairs_total target base_url flags (imap pair (doc_ssh d))) as (entries & pairs & Ee & Ep & Hp).
  assert (map snd (imap pair (doc_ssh d)) = doc_ssh d) as Hdoc.
  { change (map snd (imap pair (doc_ssh d))) with (snd <$> imap pair (doc_ssh d)). rewrite fmap_imap. change (imap (fun _ => id) (doc_ssh d) = doc_ssh d).
    rewrite (imap_const id). apply list_fmap_id. }
  exists entries, (List.concat pairs). rewrite Hdoc in Ee. split_and!; [done..|]. unfold compile_ssh_policy_snapshot.
  destruct (doc_ssh d) as [|r0 rs]; [|by rewrite Ep]. by injection Ep as <-.
Qed.

Lemma sorted_rules_in (pairs : list (WireSshRule * bool)) r : r ∈ map fst (sort_by check_order pairs) <-> r ∈ map fst pairs.
Proof. rewrite !list_elem_of_fmap. by setoid_rewrite sort_by_In. Qed.

Lemma concat_entries_in target base_url rules entries r :
  mapM (entry_rules d nodes target base_url) rules = Some entries ->
  r ∈ List.concat entries <-> exists rule rs, rule ∈ rules /\ entry_rules d nodes target base_url rule = Some rs /\ r ∈ rs.
Proof.
  intros He%mapM_Some. rewrite list_elem_of_In, in_concat. setoid_rewrite <-list_elem_of_In. split.
  - intros (rs & [i Hi]%list_elem_of_lookup & Hr). destruct (Forall2_lookup_r _ _ _ _ _ He Hi) as (rule & Hj & Er). exists rule, rs.
    split_and!; [by eapply list_elem_of_lookup_2|done..].
  - intros (rule & rs & [i Hi]%list_elem_of_lookup & Er & Hr). destruct (Forall2_lookup_l _ _ _ _ _ He Hi) as (rs' & Hj & Er').
    assert (rs' = rs) as -> by congruence. exists rs. split; [by eapply list_elem_of_lookup_2|done].
Qed.


Lemma filter_map_swap {A B} (f : A -> B) (P : B -> bool) l : List.filter P (map f l) = map f (List.filter (fun x => P (f x)) l).
Proof. induction l as [|x l IH]; [done|]. cbn [map List.filter]. rewrite IH. by destruct (P (f x)). Qed.

Definition holds (r : WireSshRule) : bool := negb (bool_decide (sa_hold_and_delegate (wr_action r) = ""%string)).

(** Sorting by the flag puts the check rules first and keeps both orders. *)
Lemma sort_check_order pairs :
  sort_by check_order pairs = List.filter (fun p => holds p.1) pairs ++ List.filter (fun p => negb (holds p.1)) pairs.
Proof.
  induction pairs as [|x pairs IH]; [done|]. change (sort_by check_order (x :: pairs)) with (sort_insert check_order x (sort_by check_order pairs)).
  rewrite IH. cbn [List.filter]. destruct (holds x.1) eqn:Ex; cbn [negb].
  - assert (forall y, check_order x y <> Gt) as Hle.
    { intros y. unfold check_order. unfold holds in Ex. apply negb_true_iff in Ex. cbn zeta beta. rewrite Ex. by destruct (bool_decide (sa_hold_and_delegate (wr_action y.1) = _)). }
    destruct (_ ++ _) as [|y l] eqn:El; cbn [sort_insert app]; [by rewrite El|]. rewrite El. specialize (Hle y). by destruct (check_order x y).
  - assert (forall l l', (forall y, y ∈ l -> holds y.1 = true) -> (forall y, y ∈ l' -> holds y.1 = false) -> sort_insert check_order x (l ++ l') = l ++ x :: l') as Hins.
    { unfold holds in Ex. apply negb_false_iff in Ex. induction l as [|y l IHl]; intros l' Hl Hl'; cbn [app sort_insert].
      - destruct l' as [|y l']; [done|]. cbn [sort_insert]. specialize (Hl' y (list_elem_of_here _ _)). unfold holds in Hl'. apply negb_false_iff in Hl'.
        unfold check_order. by rewrite Ex, Hl'.
      - pose proof (Hl y (list_elem_of_here _ _)) as Hy. unfold holds in Hy. apply negb_true_iff in Hy. unfold check_order at 1. rewrite Ex, Hy. cbn.
        f_equal. apply IHl; [|done]. intros z Hz. apply Hl. by apply list_elem_of_further. }
    apply Hins; intros y [_ Hy]%elem_of_filter_bool; [done|by apply negb_true_iff].
Qed.

(** Check rules come first: the compiled policy is the rules of the entries in
    the order of the policy, those that hold and delegate before all those that accept,
    so that a client, which takes the first rule that matches, checks a login that any
    check entry covers. *)
Theorem ssh_check_rules_first target base_url flags :
  exists policy entries, compile_ssh_policy_snapshot d nodes target base_url flags = Some policy /\
  mapM (entry_rules d nodes target base_url) (doc_ssh d) = Some entries /\
  np_rules policy = List.filter holds (List.concat entries) ++ List.filter (fun r => negb (holds r)) (List.concat entries).
Proof.
  destruct (snapshot_rules target base_url flags) as (entries & pairs & Ee & Hp & Ec). eexists _, entries. split_and!; [exact Ec|exact Ee|].
  cbn [np_rules]. rewrite sort_check_order, map_app, <-Hp. by rewrite !filter_map_swap.
Qed.

(** Every source has a user rule with the names the entry lists. *)
Lemma listed_users_rule rule sources n owner :
  n ∈ sources -> source_owner n = Some owner ->
  exists ur, ur ∈ ssh_user_rules d (ssh_rule_users rule) sources /\ sn_id n ∈ ur_source_node_ids ur /\
    forall u, u ∈ ssh_rule_users rule -> u <> "autogroup:nonroot"%string -> canonical_localpart_domain u = None -> ur_ssh_users ur !! u = Some u.
Proof.
  intros Hn Ho. unfold ssh_user_rules.
  assert (forall skip u, u ∈ ssh_rule_users rule -> u <> "autogroup:nonroot"%string -> skip u = false ->
    base_users (ssh_rule_users rule) skip !! u = Some u) as Hbase.
  { intros skip u Hu Hne Hs. rewrite base_users_lookup. case_bool_decide as Er; [subst u; by rewrite bool_decide_true|]. by rewrite bool_decide_true. }
  destruct (canonical_localpart_domains (ssh_rule_users rule)) as [|dom doms].
  - eexists. split; [apply list_elem_of_here|]. cbn. split; [|auto]. apply elem_of_list_to_set, list_elem_of_fmap. exists n. split; [done|].
    apply elem_of_filter_bool. split; [done|]. by apply bool_decide_eq_true; eexists.
  - unfold ssh_user_rules_with_localparts. eexists. split; [apply flat_map_in; exists owner; split; [apply owners_of_in; eauto|apply list_elem_of_here]|].
    cbn. split.
    + apply elem_of_list_to_set, list_elem_of_fmap. exists n. split; [done|]. apply elem_of_filter_bool. split; [done|]. by apply bool_decide_eq_true.
    + intros u Hu Hne Hl. apply Hbase; [done..|]. rewrite Hl. apply bool_decide_eq_false. by intros [? ?].
Qed.

Lemma source_node_addrs_complete sources ur n owner a ip zone :
  n ∈ sources -> sn_id n ∈ ur_source_node_ids ur -> sn_tags n = [] -> source_owner n = Some owner ->
  (forall m b, m ∈ sources -> source_owner m = Some owner -> b ∈ sn_addrs m -> exists p, parse_addr b = Ok p) ->
  a ∈ sn_addrs n -> parse_addr a = Ok (ip, zone) ->
  show_ip ip ∈ source_node_addrs_for_rule sources ur.
Proof.
  intros Hn Hid Ht Ho Hall Ha Hp. unfold source_node_addrs_for_rule. apply elem_of_app. left.
  set (untagged := List.filter _ _). assert (n ∈ untagged) as Hnu.
  { apply elem_of_filter_bool. split; [|by apply bool_decide_eq_true]. apply elem_of_filter_bool. split; [done|by apply bool_decide_eq_true]. }
  apply flat_map_in. exists owner. split; [apply owners_of_in; eauto|]. apply default_nil_in. set (group := List.filter _ untagged).
  assert (is_Some (ipset_principal_addresses (flat_map sn_addrs group))) as [out Eo].
  { unfold ipset_principal_addresses. assert (is_Some (mapM (fun address => result_ok (parse_addr address)) (flat_map sn_addrs group))) as [ips ->]; [|by eexists].
    apply mapM_is_Some, Forall_forall. intros b (m & Hm & Hb)%flat_map_in. apply elem_of_filter_bool in Hm as [Hm Hmo]. unfold untagged in Hm.
    rewrite !elem_of_filter_bool in Hm. apply bool_decide_eq_true in Hmo. destruct Hm as [[Hm _] _]. destruct (Hall m b Hm Hmo Hb) as [p Hpb]. exists p. cbn. by rewrite Hpb. }
  exists out. split; [done|]. apply (ipset_principal_addresses_in _ _ _ Eo). exists a, ip, zone. split_and!; [|done..]. apply flat_map_in. exists n.
  split; [|done]. apply elem_of_filter_bool. split; [done|by apply bool_decide_eq_true].
Qed.

Lemma matched_entry_rules target base_url rule rules sources dst r :
  entry_rules d nodes target base_url rule = Some rules -> resolve_ssh_source_nodes d nodes (ssh_src rule) = Some sources ->
  dst ∈ ssh_dst rule -> dst <> "autogroup:self"%string -> ssh_destination_matches d nodes dst target = Some true ->
  r ∈ ssh_rules_for_nodes sources (ssh_user_rules d (ssh_rule_users rule) sources) (ssh_action base_url (ssh_action_text rule)) (ssh_accept_env rule) ->
  r ∈ rules.
Proof.
  intros Er Es Hd Hns Hm Hr. unfold entry_rules in Er. rewrite Es in Er. cbn [mbind option_bind] in Er.
  destruct sources as [|s0 ss] eqn:Esrc. { unfold ssh_rules_for_nodes in Hr. apply flat_map_in in Hr as (ur & _ & [Hr _]%ssh_rule_in). done. }
  rewrite <-Esrc in *. destruct (ssh_user_rules d (ssh_rule_users rule) sources) as [|u0 us] eqn:Eu; [by apply elem_of_nil in Hr|].
  set (other := List.filter (fun t => negb (is_token "autogroup:self" t)) (ssh_dst rule)) in Er.
  assert (dst ∈ other) as Hother. { apply elem_of_filter_bool. split; [done|]. unfold is_token. by rewrite bool_decide_false. }
  destruct (any_opt_total (fun dst => ssh_destination_matches d nodes dst target) other) as (b & Eb & Hb).
  { intros dst'. unfold ssh_destination_matches. destruct (resolve_ssh_aliases_total [dst']) as [ips ->]. by eexists. }
  assert (b = true) as -> by (apply Hb; eauto). rewrite Eb in Er. cbn [mbind option_bind] in Er.
  destruct other as [|o os]; [by apply elem_of_nil in Hother|]. injection Er as <-. apply elem_of_app. by right.
Qed.

(** Who the policy lets in does get in: when an untagged, owned source of an
    entry has an address, the addresses of its owner's sources parse, and a
    destination of the entry resolves to the target, the compiled policy has a rule
    with the entry's action that names this address and allows every user the entry
    lists by name. *)
Theorem ssh_source_let_in target base_url flags rule sources n owner dst a ip zone :
  rule ∈ doc_ssh d -> resolve_ssh_source_nodes d nodes (ssh_src rule) = Some sources ->
  n ∈ sources -> sn_tags n = [] -> source_owner n = Some owner ->
  (forall m b, m ∈ sources -> source_owner m = Some owner -> b ∈ sn_addrs m -> exists p, parse_addr b = Ok p) ->
  dst ∈ ssh_dst rule -> dst <> "autogroup:self"%string -> ssh_destination_matches d nodes dst target = Some true ->
  a ∈ sn_addrs n -> parse_addr a = Ok (ip, zone) ->
  exists policy r, compile_ssh_policy_snapshot d nodes target base_url flags = Some policy /\ r ∈ np_rules policy /\
    wr_action r = ssh_action base_url (ssh_action_text rule) /\ show_ip ip ∈ map sp_node_ip (wr_principals r) /\
    forall u, u ∈ ssh_rule_users rule -> u <> "autogroup:nonroot"%string -> canonical_localpart_domain u = None -> wr_ssh_users r !! u = Some u.
Proof.
  intros Hrule Es Hn Ht Ho Hall Hd Hns Hm Ha Hp. destruct (snapshot_rules target base_url flags) as (entries & pairs & Ee & Hpairs & Ec).
  destruct (listed_users_rule rule sources n owner) as (ur & Hur & Hid & Hus); [done..|].
  pose proof (source_node_addrs_complete sources ur n owner a ip zone Hn Hid Ht Ho Hall Ha Hp) as Haddr.
  set (principals := source_node_addrs_for_rule sources ur) in *. set (action := ssh_action base_url (ssh_action_text rule)).
  eexists _, (mkWireSshRule None (map (fun ip => mkSshPrincipal "" ip "" false []) principals) (ur_ssh_users ur) action (ssh_accept_env rule)).
  split; [exact Ec|]. cbn [np_rules wr_action wr_principals wr_ssh_users]. split_and!; [|done| |done].
  - rewrite sorted_rules_in, Hpairs. apply (concat_entries_in _ _ _ _ _ Ee). destruct (entry_rules_spec target base_url rule) as (rules & _ & Er & _ & _).
    exists rule, rules. split_and!; [done..|]. apply (matched_entry_rules _ _ _ _ _ _ _ Er Es Hd Hns Hm). apply flat_map_in. exists ur. split; [done|].
    unfold ssh_rule. fold principals. destruct principals; [by apply elem_of_nil in Haddr|apply list_elem_of_here].
  - rewrite map_map. cbn [sp_node_ip]. by rewrite map_id.
Qed.
End authorized.

(** ** Examples *)

Module SshExamples.
#[local] Existing Instance PrefixNet.lib.
#[local] Existing Instance PrefixNet.laws.

Definition laptop : SshPolicyNode := mkSshNode 1 (Some "alice"%string) (Some 1) ["100.64.0.1"%string] [].
Definition web : SshPolicyNode := mkSshNode 2 None None ["100.64.0.2"%string] ["tag:web"%string].

Definition entry : SshRule := mkSshRule "accept" ["alice@"%string] ["tag:web"%string] ["root"; "deploy"]%string None [].
Definition checked_entry : SshRule := mkSshRule "check" ["alice@"%string] ["tag:web"%string] ["deploy"%string] None [].

Definition shop : AclDoc :=
  mkDoc None 1 ∅ ∅ ∅ ∅ (mkApprovers ∅ []) [] [] false [entry; checked_entry] [] [] [].

Definition two_rules (policy : option NativeSshPolicy) : list (list string * string) :=
  match policy with
  | Some p => map (fun r => (map sp_node_ip (wr_principals r), sa_hold_and_delegate (wr_action r))) (np_rules p)
  | None => []
  end.

(** The check entry, second in the policy, is first in the compiled rules. *)
Example check_entry_first :
  two_rules (compile_ssh_policy_snapshot shop [laptop; web] web "https://h" [])
  = [(["100.64.0.1"%string], ssh_check_hold_url "https://h"); (["100.64.0.1"%string], ""%string)].
Proof. vm_compute. reflexivity. Qed.


Lemma ssh_check_rules_first_witness :
  exists policy entries, compile_ssh_policy_snapshot shop [laptop; web] web "" [] = Some policy /\
  mapM (entry_rules shop [laptop; web] web "") (doc_ssh shop) = Some entries /\
  np_rules policy = List.filter holds (List.concat entries) ++ List.filter (fun r => negb (holds r)) (List.concat entries).
Proof. exact (ssh_check_rules_first shop [laptop; web] web "" []). Defined.

Lemma ssh_users_exact_witness :
  exists ur, ur ∈ ssh_user_rules shop ["root"; "deploy"]%string [laptop] /\ ur_ssh_users ur !! "deploy"%string = Some "deploy"%string.
Proof.
  eexists. split; [apply list_elem_of_here|].
  destruct (ssh_users_exact shop ["root"; "deploy"]%string [laptop] _ (list_elem_of_here _ _)) as [Hu|(l & n & o & u & El & _)].
  - rewrite Hu. vm_compute. reflexivity.
  - exfalso. apply (f_equal (fun m : gmap string string => size m)) in El. rewrite map_size_singleton in El. vm_compute in El. discriminate El.
Defined.

Lemma ssh_source_let_in_witness :
  exists policy r, compile_ssh_policy_snapshot shop [laptop; web] web "" [] = Some policy /\ r ∈ np_rules policy /\
    "100.64.0.1"%string ∈ map sp_node_ip (wr_principals r).
Proof.
  destruct (ssh_source_let_in shop [laptop; web] web "" [] entry [laptop] laptop (OwnerAccount 1) "tag:web"%string "100.64.0.1"%string
    (V4 1681915905) None) as (policy & r & E & Hr & _ & Hp & _).
  - apply list_elem_of_here.
  - vm_compute. reflexivity.
  - apply list_elem_of_here.
  - reflexivity.
  - reflexivity.
  - intros m b ->%list_elem_of_singleton _ ->%list_elem_of_singleton. eexists. vm_compute. reflexivity.
  - apply list_elem_of_here.
  - discriminate.
  - vm_compute. reflexivity.
  - apply list_elem_of_here.
  - vm_compute. reflexivity.
  - exists policy, r. split; [exact E|]. split; [exact Hr|exact Hp].
Defined.
End SshExamples.
