(* ===== verification/Via.v ===== *)
(** * Via: steering routes through tagged peers (headscale-api/src/policy/via.rs)

    Which routes of a peer a viewer may use because of the [via] grants of the
    policy: three passes over the grants, resolved against the retained nodes,
    collect the steered routes, leave each to the elected router, and relax what
    the ordinary grants also give.  The theorem gives the three resulting lists in
    closed form.  [None] is a panic of the address printers or the end of the fuel
    of the alias resolver; neither occurs. *)

From stdpp Require Import base list gmap strings sets.
From Stdlib Require Import ZArith Lia Ascii.
From S2P Require Import Prelude Text Bytes Net GoNetip PolicyPorts Reach Policy PolicyEval Intervals IpSet Resolution FilterCompile FilterSpec NodeAttrs.

Open Scope Z_scope.

Record Grant := mkViaGrant { vg_via : list string; vg_sources : list string; vg_destinations : list string }.

Record ResolvedGrant := mkResolvedGrant {
  rg_via : list string;
  rg_viewer_matches : bool;
  rg_destinations : list string;
  rg_internet : bool;
  rg_reaches_internet : bool;
}.

(** The grants of the policy, then its accepting rules, a grant per destination. *)
Definition via_grants (d : AclDoc) (source_acl_rules : list AclRule) : list Grant :=
  map (fun g => mkViaGrant (grant_via g) (grant_src g) (grant_dst g)) (doc_grants d)
  ++ flat_map (fun rule => map (fun dst => mkViaGrant [] (rule_src rule) [dst]) (acl_destinations (rule_dst rule)))
       (List.filter (fun rule => bool_decide (rule_action rule = Accept)) source_acl_rules).

Section via.
Context `{IpNetLib}.
Variable d : AclDoc.
Variable retained_nodes : list PacketFilterNode.

(** Does a source alias that resolves without error hold the viewer? *)
Definition source_holds_viewer (viewer : PacketFilterNode) (source : string) : option bool :=
  resolved ← resolve_alias d retained_nodes source;
  match ra_errors resolved, ra_ips resolved with
  | [], Some ips => set ← from_strings ips; Some (contains_view set (view viewer))
  | _, _ => Some false
  end.

Definition grant_destination (destination : string) : option (list string) :=
  if is_token "autogroup:internet" destination then Some []
  else
    resolved ← resolve_alias d retained_nodes destination;
    match ra_errors resolved, ra_ips resolved with
    | [], Some ips => ip_prefixes ips
    | _, _ => Some []
    end.

Definition resolve_grant (viewer : PacketFilterNode) (g : Grant) : option ResolvedGrant :=
  viewer_matches ← any_opt (source_holds_viewer viewer) (vg_sources g);
  destinations ← mapM grant_destination (vg_destinations g);
  Some (mkResolvedGrant (vg_via g) viewer_matches (List.concat destinations)
          (existsb (is_token "autogroup:internet") (vg_destinations g))
          (existsb (fun t => is_token "*" t || is_token "autogroup:internet" t) (vg_destinations g))).

Definition is_via (g : ResolvedGrant) : bool := negb (bool_decide (rg_via g = [])) && rg_viewer_matches g.
Definition is_ordinary (g : ResolvedGrant) : bool := bool_decide (rg_via g = []) && rg_viewer_matches g.

(** First pass. *)
Definition matched_routes (peer : PacketFilterNode) (g : ResolvedGrant) : list string :=
  flat_map (fun destination => List.filter (fun route => negb (is_exit route) && prefixes_overlap destination route) (fn_routes peer))
    (rg_destinations g)
  ++ (if rg_internet g then List.filter is_exit (fn_routes peer) else []).

Definition collect (peer : PacketFilterNode) (r : ViaRouteGrantResult) (g : ResolvedGrant) : ViaRouteGrantResult :=
  if negb (is_via g) then r
  else
    let matched := matched_routes peer g in
    if existsb (fun tag => bool_decide (tag ∈ fn_tags peer)) (rg_via g)
    then mkVia (via_include r ++ matched) (via_exclude r) (via_use_primary r)
    else mkVia (via_include r) (via_exclude r ++ matched) (via_use_primary r).

(** Second pass; zero stands for no router. *)
Definition elected (g : ResolvedGrant) (included : string) : Z :=
  fold_left (fun primary tag => fold_left (fun primary node =>
      if bool_decide (tag ∈ fn_tags node)
         && existsb (fun route => negb (is_exit route) && bool_decide (route = included)) (fn_routes node)
         && ((primary =? 0) || (fn_id node <? primary))
      then fn_id node else primary) retained_nodes primary) (rg_via g) 0.

Definition elect_route (peer : PacketFilterNode) (g : ResolvedGrant) (destination : string) (r : ViaRouteGrantResult) (included : string)
  : ViaRouteGrantResult :=
  if negb (prefixes_overlap destination included) then r
  else
    let primary := elected g included in
    if negb (primary =? 0) && negb (fn_id peer =? primary)
    then mkVia (List.filter (fun route => negb (bool_decide (route = included))) (via_include r))
           (if bool_decide (included ∈ via_exclude r) then via_exclude r else via_exclude r ++ [included]) (via_use_primary r)
    else r.

Definition elect_destination (peer : PacketFilterNode) (g : ResolvedGrant) (r : ViaRouteGrantResult) (destination : string)
  : ViaRouteGrantResult := fold_left (elect_route peer g destination) (via_include r) r.

Definition elect (peer : PacketFilterNode) (r : ViaRouteGrantResult) (g : ResolvedGrant) : ViaRouteGrantResult :=
  if is_via g then fold_left (elect_destination peer g) (rg_destinations g) r else r.

(** Third pass. *)
Definition relax_destination (r : ViaRouteGrantResult) (destination : string) : ViaRouteGrantResult :=
  mkVia (via_include r)
    (List.filter (fun route => is_exit route || negb (prefixes_overlap destination route)) (via_exclude r))
    (fold_left (fun use_primary route =>
       if prefixes_overlap destination route && negb (bool_decide (route ∈ use_primary)) then use_primary ++ [route] else use_primary)
       (via_include r) (via_use_primary r)).

Definition relax (r : ViaRouteGrantResult) (g : ResolvedGrant) : ViaRouteGrantResult :=
  if negb (is_ordinary g) then r
  else
    let r := fold_left relax_destination (rg_destinations g) r in
    if rg_reaches_internet g
    then mkVia (via_include r) (List.filter (fun route => negb (is_exit route)) (via_exclude r)) (via_use_primary r) else r.

Definition steer (peer : PacketFilterNode) (grants : list ResolvedGrant) : ViaRouteGrantResult :=
  let r := fold_left (collect peer) grants (mkVia [] [] []) in
  if bool_decide (via_include r = []) && bool_decide (via_exclude r = []) then r
  else fold_left relax grants (fold_left (elect peer) grants r).

Definition routes_for_peer (source_acl_rules : list AclRule) (viewer peer : PacketFilterNode) : option ViaRouteGrantResult :=
  if (fn_id viewer =? fn_id peer) || negb (existsb (fun g => negb (bool_decide (grant_via g = []))) (doc_grants d))
  then Some (mkVia [] [] [])
  else grants ← mapM (resolve_grant viewer) (via_grants d source_acl_rules); Some (steer peer grants).

(** ** What steering yields *)

(** A via grant of the viewer steers a route of the peer. *)
Definition steers (peer : PacketFilterNode) (g : ResolvedGrant) (route : string) : Prop :=
  is_via g = true /\ route ∈ fn_routes peer /\
  ((is_exit route = false /\ exists dst, dst ∈ rg_destinations g /\ prefixes_overlap dst route = true) \/
   (is_exit route = true /\ rg_internet g = true)).

Definition through (peer : PacketFilterNode) (g : ResolvedGrant) : Prop := exists tag, tag ∈ rg_via g /\ tag ∈ fn_tags peer.

(** Another node is elected for the route. *)
Definition usurped (peer : PacketFilterNode) (grants : list ResolvedGrant) (route : string) : Prop :=
  exists g dst, g ∈ grants /\ is_via g = true /\ dst ∈ rg_destinations g /\ prefixes_overlap dst route = true /\
    elected g route <> 0 /\ fn_id peer <> elected g route.

(** An ordinary grant of the viewer covers the route. *)
Definition ordinarily (grants : list ResolvedGrant) (route : string) : Prop :=
  exists g dst, g ∈ grants /\ is_ordinary g = true /\ dst ∈ rg_destinations g /\ prefixes_overlap dst route = true.

Definition relaxed (grants : list ResolvedGrant) (route : string) : Prop :=
  (is_exit route = false /\ ordinarily grants route) \/
  (is_exit route = true /\ exists g, g ∈ grants /\ is_ordinary g = true /\ rg_reaches_internet g = true).

(** How a pass acts on the three lists: [gain]s for the first, [lose]s to the second
    for the election, and [keep]s for the relaxation. *)
Definition collected_by (inc exc : string -> bool) (r r' : ViaRouteGrantResult) : Prop :=
  (forall y, y ∈ via_include r' <-> y ∈ via_include r \/ inc y = true) /\
  (forall y, y ∈ via_exclude r' <-> y ∈ via_exclude r \/ exc y = true) /\ via_use_primary r' = via_use_primary r.

Definition elected_by (lose : string -> bool) (r r' : ViaRouteGrantResult) : Prop :=
  (forall y, y ∈ via_include r' <-> y ∈ via_include r /\ lose y = false) /\
  (forall y, y ∈ via_exclude r' <-> y ∈ via_exclude r \/ (y ∈ via_include r /\ lose y = true)) /\
  via_use_primary r' = via_use_primary r.

Definition relaxed_by (drop use : string -> bool) (r r' : ViaRouteGrantResult) : Prop :=
  via_include r' = via_include r /\
  (forall y, y ∈ via_exclude r' <-> y ∈ via_exclude r /\ drop y = false) /\
  (forall y, y ∈ via_use_primary r' <-> y ∈ via_use_primary r \/ (y ∈ via_include r /\ use y = true)).

Lemma collected_fold {X} (inc exc : X -> string -> bool) f l :
  (forall x r, collected_by (inc x) (exc x) r (f r x)) ->
  forall r, collected_by (fun y => existsb (fun x => inc x y) l) (fun y => existsb (fun x => exc x y) l) r (fold_left f l r).
Proof.
  intros Hf. induction l as [|x l IH]; intros r; cbn [fold_left existsb].
  - split_and!; [intros y; split; [by left|by intros [?|?]]..|done].
  - destruct (Hf x r) as (Hi & He & Hu), (IH (f r x)) as (Hi' & He' & Hu'). split_and!; [..|congruence].
    + intros y. rewrite Hi', Hi, orb_true_iff. tauto.
    + intros y. rewrite He', He, orb_true_iff. tauto.
Qed.

Lemma elected_fold {X} (lose : X -> string -> bool) f l :
  (forall x r, elected_by (lose x) r (f r x)) ->
  forall r, elected_by (fun y => existsb (fun x => lose x y) l) r (fold_left f l r).
Proof.
  intros Hf. induction l as [|x l IH]; intros r; cbn [fold_left existsb].
  - split_and!; [intros y; tauto| |done]. intros y. split; [by left|]. by intros [?|[_ ?]].
  - destruct (Hf x r) as (Hi & He & Hu), (IH (f r x)) as (Hi' & He' & Hu'). split_and!; [..|congruence].
    + intros y. rewrite Hi', Hi, orb_false_iff. tauto.
    + intros y. rewrite He', He, Hi, orb_true_iff. destruct (lose x y); tauto.
Qed.

Lemma relaxed_fold {X} (drop use : X -> string -> bool) f l :
  (forall x r, relaxed_by (drop x) (use x) r (f r x)) ->
  forall r, relaxed_by (fun y => existsb (fun x => drop x y) l) (fun y => existsb (fun x => use x y) l) r (fold_left f l r).
Proof.
  intros Hf. induction l as [|x l IH]; intros r; cbn [fold_left existsb].
  - split_and!; [done|intros y; tauto|]. intros y. split; [by left|]. by intros [?|[_ ?]].
  - destruct (Hf x r) as (Hi & He & Hu), (IH (f r x)) as (Hi' & He' & Hu'). split_and!; [congruence|..].
    + intros y. rewrite He', He, orb_false_iff. tauto.
    + intros y. rewrite Hu', Hu, Hi, orb_true_iff. tauto.
Qed.

(** *** First pass *)

Definition steersb (peer : PacketFilterNode) (g : ResolvedGrant) (y : string) : bool :=
  is_via g && bool_decide (y ∈ matched_routes peer g).
Definition throughb (peer : PacketFilterNode) (g : ResolvedGrant) : bool :=
  existsb (fun tag => bool_decide (tag ∈ fn_tags peer)) (rg_via g).

Lemma collect_spec peer g r :
  collected_by (fun y => steersb peer g y && throughb peer g) (fun y => steersb peer g y && negb (throughb peer g)) r (collect peer r g).
Proof.
  unfold collect, steersb, collected_by. destruct (is_via g); cbn [negb andb].
  - fold (throughb peer g). destruct (throughb peer g); cbn [via_include via_exclude via_use_primary andb negb];
      (split_and!; [intros y|intros y|done]); rewrite ?elem_of_app, ?andb_true_r, ?andb_false_r, ?bool_decide_eq_true;
      (split; [tauto|intros [?|?]; [auto|auto; done]]).
  - split_and!; [intros y; split; [by left|by intros [?|?]]..|done].
Qed.

Lemma steersb_spec peer g y : steersb peer g y = true <-> steers peer g y.
Proof.
  assert (y ∈ matched_routes peer g <-> y ∈ fn_routes peer /\
    ((is_exit y = false /\ exists dst, dst ∈ rg_destinations g /\ prefixes_overlap dst y = true) \/ (is_exit y = true /\ rg_internet g = true))) as Hm.
  { unfold matched_routes. rewrite elem_of_app, list_elem_of_In, in_flat_map. split.
    - intros [(dst & Hd & Hy)|Hy].
      + apply filter_In in Hy as [Hy [He%negb_true_iff Ho]%andb_true_iff]. rewrite list_elem_of_In. split; [done|]. left. split; [done|].
        exists dst. by rewrite list_elem_of_In.
      + destruct (rg_internet g); [|by apply elem_of_nil in Hy]. apply elem_of_filter_bool in Hy as [Hy He]. auto.
    - intros [Hy [(He & dst & Hd & Ho)|[He ->]]]; [left|right; by apply elem_of_filter_bool].
      exists dst. rewrite <-list_elem_of_In. split; [done|]. apply filter_In. by rewrite <-list_elem_of_In, He, Ho. }
  unfold steersb, steers. by rewrite andb_true_iff, bool_decide_eq_true, Hm.
Qed.

Lemma throughb_spec peer g : throughb peer g = true <-> through peer g.
Proof. unfold throughb, through. rewrite existsb_elem. setoid_rewrite bool_decide_eq_true. done. Qed.

(** *** Second pass *)

Definition usurps (peer : PacketFilterNode) (g : ResolvedGrant) (dst y : string) : bool :=
  prefixes_overlap dst y && (negb (elected g y =? 0) && negb (fn_id peer =? elected g y)).

Lemma elected_zero lose r : (forall y, lose y = true -> False) -> elected_by lose r r.
Proof.
  intros Hl. split_and!; [intros y|intros y|done].
  - destruct (lose y) eqn:E; [by apply Hl in E|]. tauto.
  - split; [by left|]. intros [?|[_ E]]; [done|]. by apply Hl in E.
Qed.

(** A route still listed, or already moved. *)
Lemma elect_route_spec peer g dst r x :
  x ∈ via_include r \/ x ∈ via_exclude r ->
  elected_by (fun y => bool_decide (y = x) && usurps peer g dst y) r (elect_route peer g dst r x).
Proof.
  intros Hx. unfold elect_route, usurps. destruct (prefixes_overlap dst x) eqn:Eo; cbn [negb].
  2: { apply elected_zero. intros y [->%bool_decide_eq_true Hy]%andb_true_iff. by rewrite Eo in Hy. }
  destruct (negb (elected g x =? 0) && negb (fn_id peer =? elected g x)) eqn:Eb.
  2: { apply elected_zero. intros y [->%bool_decide_eq_true Hy]%andb_true_iff. by rewrite Eo, Eb in Hy. }
  assert (forall y, y ∈ (if bool_decide (x ∈ via_exclude r) then via_exclude r else via_exclude r ++ [x]) <-> y ∈ via_exclude r \/ y = x) as He.
  { intros y. case_bool_decide; [split; [by left|intros [?| ->]; done]|]. by rewrite elem_of_app, list_elem_of_singleton. }
  unfold elected_by. cbn [via_include via_exclude via_use_primary]. split_and!; [..|done]; intros y.
  - rewrite elem_of_filter_bool. destruct (bool_decide_reflect (y = x)) as [->|Ey]; cbn [negb andb]; [rewrite Eo, Eb|];
      (split; intros [? ?]; done).
  - rewrite He. destruct (bool_decide_reflect (y = x)) as [->|Ey]; cbn [andb]; [rewrite Eo, Eb; cbn [andb]; tauto|].
    split; [intros [?|?]; [by left|done]|]. intros [?|[_ ?]]; [by left|done].
Qed.

Lemma elect_routes_spec peer g dst l : forall r,
  (forall x, x ∈ l -> x ∈ via_include r \/ x ∈ via_exclude r) ->
  elected_by (fun y => existsb (fun x => bool_decide (y = x) && usurps peer g dst y) l) r (fold_left (elect_route peer g dst) l r).
Proof.
  induction l as [|x l IH]; intros r Hl; cbn [fold_left existsb]; [by apply elected_zero|].
  destruct (elect_route_spec peer g dst r x (Hl x (list_elem_of_here _ _))) as (Hi & He & Hu).
  destruct (IH (elect_route peer g dst r x)) as (Hi' & He' & Hu').
  { intros z Hz. rewrite Hi, He. destruct (Hl z (list_elem_of_further _ _ _ Hz)); [|auto].
    destruct (bool_decide (z = x) && usurps peer g dst z); auto. }
  split_and!; [..|congruence]; intros y.
  - rewrite Hi', Hi, orb_false_iff. tauto.
  - rewrite He', He, Hi, orb_true_iff. destruct (bool_decide (y = x) && usurps peer g dst y); tauto.
Qed.

Lemma elect_destination_spec peer g dst r : elected_by (usurps peer g dst) r (elect_destination peer g r dst).
Proof.
  unfold elect_destination. destruct (elect_routes_spec peer g dst (via_include r) r) as (Hi & He & Hu); [by left|].
  assert (forall y, y ∈ via_include r -> existsb (fun x => bool_decide (y = x) && usurps peer g dst y) (via_include r) = usurps peer g dst y) as E.
  { intros y Hy. apply eq_iff_eq_true. rewrite existsb_elem. split; [by intros (x & _ & [_ ?]%andb_true_iff)|].
    intros Hu'. exists y. by rewrite bool_decide_true, Hu'. }
  split_and!; [..|done]; intros y; [rewrite Hi|rewrite He]; split.
  - intros [Hy Hf]. by rewrite E in Hf.
  - intros [Hy Hf]. by rewrite E.
  - intros [?|[Hy Ht]]; [by left|right]. by rewrite E in Ht.
  - intros [?|[Hy Ht]]; [by left|right]. by rewrite E.
Qed.

Lemma elect_spec peer g r :
  elected_by (fun y => is_via g && existsb (fun dst => usurps peer g dst y) (rg_destinations g)) r (elect peer r g).
Proof.
  unfold elect. destruct (is_via g); cbn [andb]; [|by apply elected_zero].
  apply (elected_fold (usurps peer g)). intros dst r'. apply elect_destination_spec.
Qed.

(** *** Third pass *)

Lemma use_primary_fold dst l y : forall use,
  y ∈ fold_left (fun use_primary route => if prefixes_overlap dst route && negb (bool_decide (route ∈ use_primary))
                                          then use_primary ++ [route] else use_primary) l use <->
  y ∈ use \/ (y ∈ l /\ prefixes_overlap dst y = true).
Proof.
  induction l as [|x l IH]; intros use; cbn [fold_left]; [split; [by left|by intros [?|[?%elem_of_nil _]]]|].
  rewrite IH, elem_of_cons. destruct (prefixes_overlap dst x) eqn:E; cbn [andb].
  - case_bool_decide as Hx; cbn [negb].
    + split; [tauto|]. intros [?|[[-> |?] ?]]; auto.
    + rewrite elem_of_app, list_elem_of_singleton. split; [intros [[?| ->]|?]; tauto|]. intros [?|[[-> |?] ?]]; tauto.
  - split; [tauto|]. intros [?|[[-> |?] ?]]; [auto|congruence|auto].
Qed.

Lemma relax_destination_spec dst r :
  relaxed_by (fun y => negb (is_exit y) && prefixes_overlap dst y) (prefixes_overlap dst) r (relax_destination r dst).
Proof.
  unfold relaxed_by, relax_destination. cbn [via_include via_exclude via_use_primary]. split_and!; [done|..]; intros y.
  - rewrite elem_of_filter_bool. destruct (is_exit y), (prefixes_overlap dst y); (split; intros [? ?]; done).
  - apply use_primary_fold.
Qed.

Definition drops (g : ResolvedGrant) (y : string) : bool :=
  is_ordinary g && (if is_exit y then rg_reaches_internet g else existsb (fun dst => prefixes_overlap dst y) (rg_destinations g)).
Definition uses (g : ResolvedGrant) (y : string) : bool :=
  is_ordinary g && existsb (fun dst => prefixes_overlap dst y) (rg_destinations g).

Lemma relax_spec g r : relaxed_by (drops g) (uses g) r (relax r g).
Proof.
  unfold relax, drops, uses. destruct (is_ordinary g); cbn [negb andb].
  2: { split_and!; [done|intros y; tauto|]. intros y. split; [by left|]. by intros [?|[_ ?]]. }
  destruct (relaxed_fold _ _ relax_destination (rg_destinations g) relax_destination_spec r) as (Hi & He & Hu).
  set (r' := fold_left relax_destination (rg_destinations g) r) in *.
  assert (forall y, existsb (fun dst => negb (is_exit y) && prefixes_overlap dst y) (rg_destinations g)
                    = if is_exit y then false else existsb (fun dst => prefixes_overlap dst y) (rg_destinations g)) as E.
  { intros y. destruct (is_exit y); [|by apply existsb_ext]. apply existsb_false. by intros. }
  destruct (rg_reaches_internet g); unfold relaxed_by; cbn [via_include via_exclude via_use_primary];
    (split_and!; [done| |done]); intros y; rewrite ?elem_of_filter_bool, He, E; destruct (is_exit y); cbn [negb]; naive_solver.
Qed.

(** *** The passes together *)

Definition included (peer : PacketFilterNode) (grants : list ResolvedGrant) (y : string) : Prop :=
  exists g, g ∈ grants /\ steers peer g y /\ through peer g.
Definition excluded (peer : PacketFilterNode) (grants : list ResolvedGrant) (y : string) : Prop :=
  exists g, g ∈ grants /\ steers peer g y /\ ~ through peer g.

Lemma existsb_includes peer grants y :
  existsb (fun g => steersb peer g y && throughb peer g) grants = true <-> included peer grants y.
Proof.
  rewrite existsb_elem. unfold included. setoid_rewrite andb_true_iff.
  setoid_rewrite (fun g => steersb_spec peer g y). by setoid_rewrite throughb_spec.
Qed.

Lemma existsb_excludes peer grants y :
  existsb (fun g => steersb peer g y && negb (throughb peer g)) grants = true <-> excluded peer grants y.
Proof.
  rewrite existsb_elem. unfold excluded. setoid_rewrite andb_true_iff. setoid_rewrite (fun g => steersb_spec peer g y).
  setoid_rewrite negb_true_iff. setoid_rewrite <-not_true_iff_false. by setoid_rewrite throughb_spec.
Qed.

Lemma existsb_usurps peer grants y :
  existsb (fun g => is_via g && existsb (fun dst => usurps peer g dst y) (rg_destinations g)) grants = true <-> usurped peer grants y.
Proof.
  assert (forall g dst, usurps peer g dst y = true <-> prefixes_overlap dst y = true /\ elected g y <> 0 /\ fn_id peer <> elected g y) as Hu.
  { intros g dst. unfold usurps. by rewrite !andb_true_iff, !negb_true_iff, !Z.eqb_neq. }
  rewrite existsb_elem. setoid_rewrite andb_true_iff. setoid_rewrite existsb_elem. setoid_rewrite Hu. unfold usurped. split.
  - intros (g & Hg & Hv & dst & Hd & Ho). by exists g, dst.
  - intros (g & dst & Hg & Hv & Hd & Ho). exists g. split_and!; [done..|]. by exists dst.
Qed.

Lemma existsb_uses grants y : existsb (fun g => uses g y) grants = true <-> ordinarily grants y.
Proof.
  rewrite existsb_elem. unfold uses. setoid_rewrite andb_true_iff. setoid_rewrite existsb_elem. unfold ordinarily. split.
  - intros (g & Hg & Hv & dst & Hd & Ho). eauto 8.
  - intros (g & dst & Hg & Hv & Hd & Ho). eauto 8.
Qed.

Lemma existsb_drops grants y : existsb (fun g => drops g y) grants = true <-> relaxed grants y.
Proof.
  destruct (is_exit y) eqn:E.
  - rewrite existsb_elem. unfold drops. rewrite E. setoid_rewrite andb_true_iff. unfold relaxed. rewrite E. split; [eauto|].
    by intros [[? _]|[_ ?]].
  - assert (existsb (fun g => drops g y) grants = existsb (fun g => uses g y) grants) as ->.
    { apply existsb_ext. intros g. unfold drops, uses. by rewrite E. }
    rewrite existsb_uses. unfold relaxed. rewrite E. split; [auto|]. by intros [[_ ?]|[? _]].
Qed.

(** The three lists after all passes. *)
Definition steered (peer : PacketFilterNode) (grants : list ResolvedGrant) (r : ViaRouteGrantResult) : Prop :=
  (forall y, y ∈ via_include r <-> included peer grants y /\ ~ usurped peer grants y) /\
  (forall y, y ∈ via_exclude r <-> (excluded peer grants y \/ (included peer grants y /\ usurped peer grants y)) /\ ~ relaxed grants y) /\
  (forall y, y ∈ via_use_primary r <-> y ∈ via_include r /\ ordinarily grants y).

Lemma steer_spec peer grants : steered peer grants (steer peer grants).
Proof.
  unfold steer. destruct (collected_fold _ _ (collect peer) grants (fun g r => collect_spec peer g r) (mkVia [] [] [])) as (Ci & Ce & Cu).
  set (r0 := fold_left (collect peer) grants (mkVia [] [] [])) in *.
  assert (forall y, y ∈ via_include r0 <-> included peer grants y) as Hi0.
  { intros y. rewrite Ci, existsb_includes, elem_of_nil. tauto. }
  assert (forall y, y ∈ via_exclude r0 <-> excluded peer grants y) as He0.
  { intros y. rewrite Ce, existsb_excludes, elem_of_nil. tauto. }
  clear Ci Ce. destruct (bool_decide (via_include r0 = []) && bool_decide (via_exclude r0 = [])) eqn:Eb.
  - apply andb_true_iff in Eb as [Ei%bool_decide_eq_true Ee%bool_decide_eq_true].
    unfold steered. rewrite Cu. setoid_rewrite <-Hi0. setoid_rewrite <-He0. rewrite Ei, Ee. cbn [via_use_primary].
    split_and!; intros y; rewrite !elem_of_nil; tauto.
  - destruct (elected_fold _ (elect peer) grants (fun g r => elect_spec peer g r) r0) as (Ei & Ee & Eu).
    set (r1 := fold_left (elect peer) grants r0) in *.
    destruct (relaxed_fold _ _ relax grants (fun g r => relax_spec g r) r1) as (Ri & Re & Ru).
    assert (forall y, y ∈ via_include r1 <-> included peer grants y /\ ~ usurped peer grants y) as Hi1.
    { intros y. rewrite Ei, Hi0, <-existsb_usurps, not_true_iff_false. done. }
    unfold steered. rewrite Ri. split_and!; intros y.
    + apply Hi1.
    + rewrite Re, Ee, He0, Hi0, existsb_usurps, <-existsb_drops, not_true_iff_false. done.
    + rewrite Ru, Eu, Cu, existsb_uses. cbn [via_use_primary]. rewrite elem_of_nil. tauto.
Qed.
End via.

Section theorem.
Context `{IpNetLaws}.
Variable d : AclDoc.
Variable retained_nodes : list PacketFilterNode.

Lemma resolve_grant_total viewer g :
  exists rg, resolve_grant d retained_nodes viewer g = Some rg /\ rg_via rg = vg_via g.
Proof.
  unfold resolve_grant. destruct (any_opt_total (source_holds_viewer d retained_nodes viewer) (vg_sources g)) as (b & -> & _).
  { intros t. unfold source_holds_viewer. destruct (resolve_alias_total d retained_nodes t) as [r ->]. cbn [mbind option_bind].
    destruct (ra_errors r), (ra_ips r) as [ips|]; try by eexists. destruct (from_strings_spec ips) as (set & -> & _). by eexists. }
  cbn [mbind option_bind]. destruct (mapM_total (grant_destination d retained_nodes) (vg_destinations g)) as (l & -> & _).
  { intros t. unfold grant_destination. destruct (is_token _ t); [by eexists|].
    destruct (resolve_alias_total d retained_nodes t) as [r ->]. cbn [mbind option_bind].
    destruct (ra_errors r), (ra_ips r) as [ips|]; try by eexists. destruct (ip_prefixes_spec ips) as (t' & -> & _). by eexists. }
  by eexists.
Qed.

(** Without a via grant nothing is steered. *)
Lemma no_via_steers viewer peer rules grants g y :
  existsb (fun g => negb (bool_decide (grant_via g = []))) (doc_grants d) = false ->
  mapM (resolve_grant d retained_nodes viewer) (via_grants d rules) = Some grants -> g ∈ grants -> ~ steers peer g y.
Proof.
  intros Hno Hm%mapM_Some Hg (Hv & _). apply list_elem_of_lookup in Hg as [i Hi].
  destruct (Forall2_lookup_r _ _ _ _ _ Hm Hi) as (vg & Hvg%list_elem_of_lookup_2 & Hr).
  destruct (resolve_grant_total viewer vg) as (rg & Hrg & Evia). assert (rg = g) as -> by congruence.
  unfold is_via in Hv. rewrite Evia in Hv. apply andb_true_iff in Hv as [Hv%negb_true_iff%bool_decide_eq_false _]. apply Hv.
  unfold via_grants in Hvg. apply elem_of_app in Hvg as [Hvg|Hvg].
  - apply list_elem_of_In, in_map_iff in Hvg as (gr & <- & Hgr%list_elem_of_In). rewrite existsb_false in Hno.
    specialize (Hno gr Hgr). cbn [vg_via]. by apply negb_false_iff, bool_decide_eq_true in Hno.
  - apply list_elem_of_In, in_flat_map in Hvg as (rule & _ & (dst & <- & _)%in_map_iff). done.
Qed.


End theorem.

(** ** The election *)

(** Zero when nothing is in [P], its least element otherwise. *)
Definition least_of (P : Z -> Prop) (v : Z) : Prop := (v = 0 /\ forall z, ~ P z) \/ (P v /\ forall z, P z -> v <= z).

Lemma least_step (P : Z -> Prop) v (c : bool) id :
  0 < id -> (forall z, P z -> 0 < z) -> least_of P v ->
  least_of (fun z => P z \/ (c = true /\ z = id)) (if c && ((v =? 0) || (id <? v)) then id else v).
Proof.
  intros Hid Hpos Hl. destruct c; cbn [andb].
  - destruct Hl as [[-> Hno]|[Hv Hmin]].
    + rewrite Z.eqb_refl. cbn [orb]. right. split; [by right|]. intros z [Hz|[_ ->]]; [by apply Hno in Hz|lia].
    + pose proof (Hpos v Hv). destruct (Z.eqb_spec v 0); [lia|]. cbn [orb]. destruct (Z.ltb_spec id v) as [Hlt|Hge].
      * right. split; [by right|]. intros z [Hz|[_ ->]]; [apply Hmin in Hz|]; lia.
      * right. split; [by left|]. intros z [Hz|[_ ->]]; [by apply Hmin|lia].
  - destruct Hl as [[-> Hno]|[Hv Hmin]]; [left|right].
    + split; [done|]. intros z [Hz|[? _]]; [by apply (Hno z)|done].
    + split; [by left|]. intros z [Hz|[? _]]; [by apply Hmin|done].
Qed.

Lemma least_ext (P Q : Z -> Prop) v : (forall z, P z <-> Q z) -> least_of P v -> least_of Q v.
Proof. unfold least_of. intros E [[-> Hno]|[Hv Hmin]]; [left|right]; (split; [|setoid_rewrite <-E]); try done. by apply E. Qed.

Definition serves_tag (tag route : string) (n : PacketFilterNode) : bool :=
  bool_decide (tag ∈ fn_tags n) && existsb (fun r => negb (is_exit r) && bool_decide (r = route)) (fn_routes n).

Lemma serves_tag_spec tag route n :
  serves_tag tag route n = true <-> tag ∈ fn_tags n /\ route ∈ fn_routes n /\ is_exit route = false.
Proof.
  unfold serves_tag. rewrite andb_true_iff, bool_decide_eq_true, existsb_elem. split.
  - intros [Ht (r & Hr & [He%negb_true_iff ->%bool_decide_eq_true]%andb_true_iff)]. done.
  - intros (Ht & Hr & He). split; [done|]. exists route. split; [done|]. by rewrite He, bool_decide_true.
Qed.

Lemma least_fold {X} (id : X -> Z) (c : X -> bool) l : (forall x, x ∈ l -> 0 < id x) ->
  forall (P : Z -> Prop) v, (forall z, P z -> 0 < z) -> least_of P v ->
  least_of (fun z => P z \/ exists x, x ∈ l /\ c x = true /\ z = id x)
    (fold_left (fun p x => if c x && ((p =? 0) || (id x <? p)) then id x else p) l v).
Proof.
  induction l as [|x l IH]; intros Hid P v Hpos Hl; cbn [fold_left].
  - eapply least_ext; [|done]. intros z. split; [by left|]. intros [?|(x & ?%elem_of_nil & _)]; done.
  - pose proof (Hid x (list_elem_of_here _ _)) as Hx.
    eapply least_ext; [|apply IH; [intros y Hy; apply Hid; by apply list_elem_of_further| |by apply least_step]].
    + intros z. cbn beta. setoid_rewrite elem_of_cons. split.
      * intros [[?|[? ->]]|(y & ? & ?)]; [by left|right; eauto|right; eauto].
      * intros [?|(y & [-> |?] & ? & ?)]; [by left; left|left; right; auto|right; eauto].
    + intros z [?|[_ ->]]; auto.
Qed.

(** The router elected for a route under a via grant is the one with the least
    identifier among the nodes that carry one of the grant's tags and serve the
    route, and there is none exactly when no such node exists. *)
Theorem elected_router_least nodes g route :
  (forall n, n ∈ nodes -> 0 < fn_id n) ->
  let serving n := n ∈ nodes /\ (exists tag, tag ∈ rg_via g /\ tag ∈ fn_tags n) /\ route ∈ fn_routes n /\ is_exit route = false in
  (elected nodes g route = 0 <-> forall n, ~ serving n) /\
  (elected nodes g route <> 0 -> exists n, serving n /\ fn_id n = elected nodes g route /\ forall m, serving m -> fn_id n <= fn_id m).
Proof.
  intros Hpos serving. assert (forall tags (P : Z -> Prop) v, (forall z, P z -> 0 < z) -> least_of P v ->
    least_of (fun z => P z \/ exists tag n, tag ∈ tags /\ n ∈ nodes /\ serves_tag tag route n = true /\ z = fn_id n)
      (fold_left (fun primary tag => fold_left (fun p n => if serves_tag tag route n && ((p =? 0) || (fn_id n <? p)) then fn_id n else p) nodes primary) tags v)) as Hfold.
  { induction tags as [|tag tags IH]; intros P v HP Hl; cbn [fold_left].
    - eapply least_ext; [|done]. intros z. split; [by left|]. intros [?|(tag & n & ?%elem_of_nil & _)]; done.
    - eapply least_ext; [|apply IH; [|apply (least_fold fn_id (serves_tag tag route) nodes Hpos P v HP Hl)]].
      + intros z. cbn beta. setoid_rewrite elem_of_cons. split.
        * intros [[?|(n & ? & ? & ?)]|(t & n & ? & ?)]; [by left|right; eauto 8|right; eauto 8].
        * intros [?|(t & n & [-> |?] & ? & ? & ?)]; [by left; left|left; right; eauto|right; eauto 8].
      + intros z [?|(n & ? & _ & ->)]; auto. }
  assert (least_of (fun z => exists n, serving n /\ z = fn_id n) (elected nodes g route)) as Hl.
  { eapply least_ext; [|apply (Hfold (rg_via g) (fun _ => False) 0); [by intros z []|left; split; [done|by intros z []]]]. intros z. unfold serving.
    setoid_rewrite serves_tag_spec. split.
    - intros [[]|(tag & n & ? & ? & (? & ? & ?) & ->)]. exists n. split; [|done]. split_and!; eauto.
    - intros (n & (? & (tag & ? & ?) & ? & ?) & ->). right. exists tag, n. split_and!; eauto. }
  destruct Hl as [[Hz Hno]|[(n & Hn & En) Hmin]].
  - rewrite Hz. split; [|done]. split; [intros _ n Hn; apply (Hno (fn_id n)); eauto|done].
  - pose proof (Hpos n (proj1 Hn)). split.
    + split; [intros Hz; lia|]. intros Hno. by apply Hno in Hn.
    + intros _. exists n. split_and!; [done..|]. intros m Hm. rewrite <-En. apply Hmin. eauto.
Qed.

Module ViaExamples.
#[local] Existing Instance PrefixNet.lib.
#[local] Existing Instance PrefixNet.laws.

(** Two routers of one subnet; traffic to it goes through [tag:router]. *)
Definition campus : AclDoc :=
  mkDoc None 1 ∅ ∅ ∅ ∅ (mkApprovers ∅ []) []
    [mkGrant ["alice@"%string] ["10.0.0.0/8"%string] ["*"%string] ∅ ["tag:router"%string]] false [] [] [] [].

Definition notebook : PacketFilterNode := mkFilterNode 9 (Some 1) (Some "alice"%string) ["100.64.0.9"%string] [] [].
Definition router1 : PacketFilterNode := mkFilterNode 1 None None ["100.64.0.1"%string] ["tag:router"%string] ["10.1.0.0/16"%string].
Definition router2 : PacketFilterNode := mkFilterNode 2 None None ["100.64.0.2"%string] ["tag:router"%string] ["10.1.0.0/16"%string].
Definition campus_nodes : list PacketFilterNode := [router2; notebook; router1].


Definition campus_grant : ResolvedGrant := mkResolvedGrant ["tag:router"%string] true ["10.0.0.0/8"%string] false false.

Lemma elected_router_least_witness :
  elected campus_nodes campus_grant "10.1.0.0/16" = 1 /\
  exists n, n ∈ campus_nodes /\ fn_id n = 1.
Proof.
  assert (elected campus_nodes campus_grant "10.1.0.0/16" = 1) as E by (vm_compute; reflexivity). split; [exact E|].
  destruct (elected_router_least campus_nodes campus_grant "10.1.0.0/16") as [_ Hl].
  { intros n Hn. unfold campus_nodes in Hn. rewrite !elem_of_cons in Hn. destruct Hn as [->|[->|[->|Hn]]]; [reflexivity..|]. by apply elem_of_nil in Hn. }
  destruct Hl as (n & (Hn & _) & En & _); [rewrite E; discriminate|]. exists n. split; [exact Hn|]. rewrite En. exact E.
Defined.
End ViaExamples.
