(* ===== verification/PortAgreement.v ===== *)
(** * PortAgreement: the evaluator and the compiled filter read ports alike

    The policy is enforced twice: the evaluator of [PolicyEval] decides visibility
    from the port patterns themselves, and the packet filter of [FilterCompile]
    sends clients numeric ranges grouped by protocol.  Here the two readings are
    shown to agree on every protocol number and port, for rules and for grants. *)

From stdpp Require Import base list gmap strings sets.
From Stdlib Require Import ZArith Lia Ascii.
From S2P Require Import Prelude Text Bytes Net GoNetip PolicyPorts Policy PolicyEval Intervals IpSet Resolution FilterCompile FilterSpec.

Open Scope Z_scope.

(** A rule's protocol list: none for every protocol. *)
Definition lists_proto (protos : list Z) (n : Z) : Prop := protos = [] \/ n ∈ protos.

(** ** Numbers *)

Lemma to_digit_nonneg c k : to_digit 10 c = Some k -> 0 <= k.
Proof. intros E%to_digit_range; lia. Qed.

Lemma parse_digits_ge limit l : forall v m, parse_digits limit v l = Some m -> 0 <= v -> v <= m.
Proof.
  induction l as [|c l IH]; intros v m; cbn [parse_digits]; [intros [= <-]; lia|].
  destruct (to_digit 10 c) as [k|] eqn:E; [|done]. apply to_digit_nonneg in E. destruct (_ <=? limit); [|done].
  intros Hp Hv. specialize (IH _ _ Hp ltac:(lia)). lia.
Qed.

Lemma parse_digits_limit limit limit' l : forall v m,
  parse_digits limit v l = Some m -> 0 <= v -> m <= limit' -> parse_digits limit' v l = Some m.
Proof.
  induction l as [|c l IH]; intros v m; cbn [parse_digits]; [done|].
  destruct (to_digit 10 c) as [k|] eqn:E; [|done]. apply to_digit_nonneg in E. destruct (_ <=? limit); [|done].
  intros Hp Hv Hm. pose proof (parse_digits_ge _ _ _ _ Hp ltac:(lia)) as Hge.
  rewrite (proj2 (Z.leb_le _ _)) by lia. apply IH; [done|lia|done].
Qed.

Lemma small_numbers_agree s n : 1 <= n <= 255 -> parse_i32 s = Some n <-> parse_u16 s = Some n.
Proof.
  intros Hn. unfold parse_i32, parse_u16, parse_uint, parse_magnitude. change String.list_ascii_of_string with to_chars.
  destruct (to_chars s) as [|c t]; [done|]. destruct (Ascii.eqb_spec c "-") as [-> |_].
  - assert (parse_digits 65535 0 ("-"%char :: t) = None) as -> by done. split; [|done].
    intros (m & Hm & ->)%fmap_Some. destruct t as [|c t]; [done|]. apply parse_digits_ge in Hm; lia.
  - destruct (Ascii.eqb c "+"); [destruct t as [|c' t]; [done|]|];
      (split; intros Hp; (eapply parse_digits_limit; [exact Hp|lia|lia])).
Qed.

Definition proto_codes : list Z := map Z.of_nat (seq 1 255).

Lemma proto_codes_in n : 1 <= n <= 255 -> n ∈ proto_codes.
Proof. intros Hn. unfold proto_codes. apply list_elem_of_fmap. exists (Z.to_nat n). split; [lia|]. apply elem_of_seq. lia. Qed.

(** Protocol numbers as text, for both readers. *)
Lemma code_text n : 1 <= n <= 255 ->
  proto_numbers (show_dec n) = Some [n] /\ protocol_numbers (show_dec n) = Some [n].
Proof.
  intros Hn%proto_codes_in. revert n Hn. apply Forall_forall.
  assert (forallb (fun n => bool_decide (proto_numbers (show_dec n) = Some [n] /\ protocol_numbers (show_dec n) = Some [n])) proto_codes = true) as E
    by (vm_compute; reflexivity).
  apply List.Forall_forall. intros n Hn. rewrite forallb_forall in E. by apply E, bool_decide_eq_true in Hn.
Qed.

(** The two tables of protocol names. *)
Lemma protocols_agree proto n :
  1 <= n <= 255 -> proto <> ""%string ->
  (exists nums, proto_numbers proto = Some nums /\ n ∈ nums) <-> (exists nums, protocol_numbers proto = Some nums /\ n ∈ nums).
Proof.
  intros Hn Hne. unfold proto_numbers, protocol_numbers. set (lower := to_ascii_lowercase proto).
  assert (lower <> ""%string) as Hl by (by destruct proto). clearbody lower. rewrite (bool_decide_false (lower = ""%string)) by done.
  repeat (case_match; [done|]).
  pose proof (small_numbers_agree lower n Hn) as Ha. split.
  - intros (nums & (m & Hm & Hr)%bind_Some & Hin). destruct (_ && _) eqn:E in Hr; [|done]. injection Hr as <-.
    apply list_elem_of_singleton in Hin as ->. apply Ha in Hm. rewrite Hm. cbn [mbind option_bind].
    rewrite !(proj2 (Z.leb_le _ _)) by lia. eexists. split; [done|]. by apply list_elem_of_singleton.
  - intros (nums & (m & Hm & Hr)%bind_Some & Hin). destruct (_ && _) eqn:E in Hr; [|done]. injection Hr as <-.
    apply list_elem_of_singleton in Hin as ->. apply Ha in Hm. rewrite Hm. cbn [mbind option_bind].
    rewrite !(proj2 (Z.leb_le _ _)) by lia. eexists. split; [done|]. by apply list_elem_of_singleton.
Qed.

Lemma protocol_numbers_one proto nums : proto <> ""%string -> protocol_numbers proto = Some nums -> exists n, nums = [n].
Proof.
  intros Hne. unfold protocol_numbers. rewrite bool_decide_false by (by destruct proto).
  repeat (case_match; [intros [= <-]; by eexists|]). intros (m & _ & Hr)%bind_Some. destruct (_ && _) in Hr; [|done].
  injection Hr as <-. by eexists.
Qed.

Lemma proto_matches_code proto n :
  1 <= n <= 255 -> proto <> ""%string ->
  proto_matches proto (show_dec n) = true <-> exists nums, protocol_numbers proto = Some nums /\ n ∈ nums.
Proof.
  intros Hn Hne. destruct (code_text n Hn) as [E1 E2]. unfold proto_matches, eq_ignore_ascii_case. case_bool_decide as El.
  - split; [intros _|done]. exists [n]. split; [|by apply list_elem_of_singleton].
    rewrite <-E2. unfold protocol_numbers. by rewrite El.
  - rewrite <-protocols_agree, E1 by done. destruct (proto_numbers proto) as [nums|].
    + rewrite existsb_elem. split.
      * intros (m & Hm & Hd%bool_decide_eq_true). apply list_elem_of_singleton in Hd as ->. eauto.
      * intros (nums' & [= <-] & Hm). exists n. split; [done|]. apply bool_decide_eq_true. by apply list_elem_of_singleton.
    + split; [done|]. by intros (nums & [=] & _).
Qed.

(** ** Patterns *)

Definition group_holds (port n : Z) (group : PortGroup) : Prop :=
  (exists range, range ∈ group.2 /\ in_range range port) /\ lists_proto group.1 n.

(** A pattern, as the filter compiles it. *)
Definition pattern_admits (pat : string) (n port : Z) : Prop :=
  exists range protos, port_pattern_to_range pat = Some range /\ ip_proto_for_pattern pat = Some protos /\
    in_range range port /\ lists_proto protos n.

Lemma range_agrees pat port :
  0 <= port <= 65535 ->
  bool_decide ((pattern_parts pat).2 = "*"%string) || port_part_matches (pattern_parts pat).2 port = true <->
  exists range, port_pattern_to_range pat = Some range /\ in_range range port.
Proof.
  intros Hport. unfold port_pattern_to_range, port_part_matches, in_range. case_bool_decide as Hs; cbn [orb].
  { split; [intros _|done]. eexists. split; [done|]. cbn. lia. }
  destruct (split_first "-" (pattern_parts pat).2) as [[lo hi]|].
  - destruct (parse_u16 lo) as [l|]; cbn [mbind option_bind]; [|split; [done|by intros (r & [=] & _)]].
    destruct (parse_u16 hi) as [h|]; cbn [mbind option_bind]; [|split; [done|by intros (r & [=] & _)]].
    rewrite andb_true_iff, !Z.leb_le. destruct (Z.ltb_spec h l); split.
    + lia.
    + by intros (r & [=] & _).
    + intros Hr. eexists. split; [done|]. cbn. lia.
    + intros (r & [= <-] & Hr). done.
  - destruct (parse_u16 _) as [q|]; cbn [mbind option_bind]; [|split; [done|by intros (r & [=] & _)]].
    rewrite Z.eqb_eq. split; [intros ->; eexists; split; [done|]; cbn; lia|]. intros (r & [= <-] & Hr). cbn in Hr. lia.
Qed.

Lemma proto_agrees pat n :
  1 <= n <= 255 -> (pattern_parts pat).1 <> ""%string ->
  bool_decide ((pattern_parts pat).1 = "*"%string) || proto_matches (pattern_parts pat).1 (show_dec n) = true <->
  exists protos, ip_proto_for_pattern pat = Some protos /\ lists_proto protos n.
Proof.
  intros Hn Hne. unfold ip_proto_for_pattern, append_protocol_numbers, lists_proto. case_bool_decide as Hs; cbn [orb].
  { split; [intros _|done]. eexists. split; [done|]. by left. }
  rewrite proto_matches_code by done. split.
  - intros (nums & Hnums & Hin). rewrite Hnums. destruct (protocol_numbers_one _ _ Hne Hnums) as [m ->].
    eexists. split; [done|]. by right.
  - intros (protos & (nums & Hnums & [= <-])%bind_Some & Hl). destruct (protocol_numbers_one _ _ Hne Hnums) as [m ->].
    exists [m]. split; [done|]. by destruct Hl.
Qed.

Lemma pattern_agrees pat n port :
  1 <= n <= 255 -> 0 <= port <= 65535 -> (pattern_parts pat).1 <> ""%string ->
  port_matches pat (PortRef_new (show_dec n) port) = true <-> pattern_admits pat n port.
Proof.
  intros Hn Hport Hne. unfold port_matches, pattern_admits. fold (pattern_parts pat).
  pose proof (range_agrees pat port Hport) as Hr. pose proof (proto_agrees pat n Hn Hne) as Hp.
  destruct (pattern_parts pat) as [proto_part port_part]. cbn [port_proto port_number is_none_or fst snd PortRef_new] in *.
  rewrite andb_true_iff, Hr, Hp. split.
  - intros [(protos & ? & ?) (range & ? & ?)]. eauto 8.
  - intros (range & protos & ? & ? & ? & ?). eauto 8.
Qed.

Lemma add_to_group_holds groups protocol range port n :
  Exists (group_holds port n) (add_to_group groups protocol range) <->
  Exists (group_holds port n) groups \/ (in_range range port /\ lists_proto protocol n).
Proof.
  induction groups as [|[p ranges] groups IH]; cbn [add_to_group].
  - rewrite Exists_cons, !Exists_nil. unfold group_holds. cbn [fst snd]. setoid_rewrite list_elem_of_singleton.
    split; [intros [[(r & -> & ?) ?]|[]]; auto|]. intros [[]|[? ?]]. left. eauto.
  - case_bool_decide as Ep; rewrite !Exists_cons; [|rewrite IH; tauto]. subst p. unfold group_holds at 1 3. cbn [fst snd].
    setoid_rewrite elem_of_app. setoid_rewrite list_elem_of_singleton. split.
    + intros [[(r & [Hr| ->] & ?) ?]|?]; eauto 8.
    + intros [[[(r & Hr & ?) ?]|?]|[? ?]]; eauto 8.
Qed.

Lemma patterns_hold ports n port : forall groups,
  Exists (group_holds port n) (fold_left group_pattern ports groups) <->
  Exists (group_holds port n) groups \/ exists pat, pat ∈ ports /\ pattern_admits pat n port.
Proof.
  induction ports as [|pat ports IH]; intros groups; cbn [fold_left].
  - split; [by left|]. intros [?|(p & ?%elem_of_nil & _)]; done.
  - rewrite IH. setoid_rewrite elem_of_cons.
    assert (Exists (group_holds port n) (group_pattern groups pat) <-> Exists (group_holds port n) groups \/ pattern_admits pat n port) as ->.
    { unfold group_pattern, pattern_admits. destruct (port_pattern_to_range pat) as [range|].
      - destruct (ip_proto_for_pattern pat) as [protos|].
        + rewrite add_to_group_holds. split; [intros [?|[? ?]]; eauto 8|]. intros [?|(r & q & [= <-] & [= <-] & ?)]; auto.
        + split; [by left|]. intros [?|(r & q & _ & [=] & _)]; done.
      - split; [by left|]. intros [?|(r & q & [=] & _)]; done. }
    split.
    + intros [[?|?]|(p & ? & ?)]; eauto.
    + intros [?|(p & [-> |?] & ?)]; eauto.
Qed.

Lemma groups_admit_Exists groups p :
  groups_admit lists_proto groups p <-> Exists (group_holds (pk_port p) (pk_proto p)) groups.
Proof.
  rewrite Exists_exists. unfold groups_admit, group_holds. split.
  - intros (group & range & ? & ? & ? & ?). eauto 8.
  - intros (group & ? & (range & ? & ?) & ?). eauto 8.
Qed.

(** A pattern printed from a grant's entry has a protocol. *)
Lemma normalized_parts protocol ranges pat :
  proto_plain protocol -> pat ∈ normalized_port_patterns protocol ranges -> (pattern_parts pat).1 <> ""%string.
Proof.
  intros Hp. unfold normalized_port_patterns.
  set (q := if bool_decide (protocol = ""%string) then "*"%string else protocol).
  assert (proto_plain q /\ q <> ""%string) as [Hq Hne] by (subst q; case_bool_decide; done).
  intros (r & -> & _)%list_elem_of_fmap. unfold pattern_parts.
  change ("/" ++ port_text r.1 r.2)%string with (String "/" (port_text r.1 r.2)).
  rewrite pattern_no_star by done. cbn [from_option id]. rewrite split_first_app by apply Hq. done.
Qed.

Lemma grant_spec_admits spec p :
  1 <= pk_proto p <= 255 -> 0 <= pk_port p <= 65535 ->
  Exists (group_holds (pk_port p) (pk_proto p))
    (match normalize_grant_ip_specs [spec] with [] => [] | ports => compile_port_groups ports end) <->
  match normalize_grant_ip_spec spec with
  | Ok patterns => existsb (fun q => port_matches q (PortRef_new (show_dec (pk_proto p)) (pk_port p))) patterns
  | Err _ => false
  end = true.
Proof.
  intros Hn Hport. unfold normalize_grant_ip_specs. cbn [flat_map]. rewrite app_nil_r.
  destruct (normalize_grant_ip_spec spec) as [patterns|e] eqn:E; cbn [result_ok from_option id]; [|by rewrite Exists_nil].
  assert (forall pat, pat ∈ patterns -> (pattern_parts pat).1 <> ""%string) as Hne.
  { unfold normalize_grant_ip_spec in E. apply result_bind_Ok in E as ([protocol ports] & Es & Hr).
    apply result_bind_Ok in Hr as (ranges & _ & [= <-]). intros pat. by apply normalized_parts, (grant_ip_split_plain spec _ ports). }
  rewrite existsb_elem. destruct patterns as [|q patterns]; [rewrite Exists_nil; split; [done|by intros (x & ?%elem_of_nil & _)]|].
  unfold compile_port_groups. rewrite patterns_hold, Exists_nil. split.
  - intros [[]|(pat & Hin & Ha)]. exists pat. split; [done|]. apply pattern_agrees; auto.
  - intros (pat & Hin & Ha). right. exists pat. split; [done|]. apply pattern_agrees; auto.
Qed.


Module PortAgreementExamples.

Definition web : GrantRule := mkGrant ["*"%string] ["*"%string] ["tcp:80-443"; "udp:53"]%string ∅ [].
Definition query : Packet := mkPacket (32, 0) (32, 0) 17 53.


End PortAgreementExamples.
