(* ===== verification/Registration.v ===== *)
(** * Registration: pending registrations (headscale-api/src/tailscale_wire/mod.rs)

    The cache of registrations and SSH checks that wait for a verdict.  Entries are
    shared: a waiter or an admitted completion keeps its [Arc] while the map may
    already hold another entry under the same id.  So entries live in a heap, an
    [Arc] is an index into it and [Arc::ptr_eq] is equality of indices; the heap only
    grows.  Each operation runs in the sequence of its critical sections and reads the
    clock once; instants are integers.  Node records, host data and confirmations are
    opaque to the cache and type parameters here.  The access counter wraps, as in a
    build without overflow checks. *)

From stdpp Require Import base list gmap strings sets.
From Stdlib Require Import ZArith Lia.
From S2P Require Import Prelude Net.

Open Scope Z_scope.

(** ** Data *)

Definition REGISTRATION_CACHE_EXPIRATION : Z := 15 * 60 * 1000000000.
Definition REGISTRATION_CACHE_CLEANUP : Z := 20 * 60 * 1000000000.
Definition REGISTRATION_CACHE_MAX_ENTRIES : nat := 1024.
Definition REGISTRATION_CACHE_MAX_PENDING_PER_SOURCE : nat := 64.

Inductive RegistrationSource := SourceUnknown | SourceV4 (addr : Z) | SourceV6Prefix (upper : Z).

#[export] Instance RegistrationSource_eq_dec : EqDecision RegistrationSource.
Proof. solve_decision. Defined.

(** [Ipv6Addr::segments], the i-th 16-bit group. *)
Definition segment (v : Z) (i : Z) : Z := Z.land (Z.shiftr v (112 - 16 * i)) 65535.

Definition from_ip (ip : IpAddr) : RegistrationSource :=
  match ip with
  | V4 v => SourceV4 v
  | V6 v =>
      if Z.shiftr v 32 =? 65535 then SourceV4 (Z.land v (2 ^ 32 - 1))
      else SourceV6Prefix (Z.lor (Z.lor (Z.lor (Z.shiftl (segment v 0) 48) (Z.shiftl (segment v 1) 32)) (Z.shiftl (segment v 2) 16)) (segment v 3))
  end.

Record SshCheckBinding := mkBinding { sb_src_node_id : Z; sb_dst_node_id : Z; sb_local_user : string }.

Definition SshCheckPair : Type := Z * Z.

Definition pair_of (b : SshCheckBinding) : SshCheckPair := (sb_src_node_id b, sb_dst_node_id b).

Definition matches_pair (a b : SshCheckBinding) : bool := bool_decide (pair_of a = pair_of b).

(** The epoch is an [Arc<()>] compared by address. *)
Record SshPolicyStamp := mkStamp { stamp_updated_at : option Z; stamp_epoch : nat }.

Definition stamp_eqb (a b : SshPolicyStamp) : bool := bool_decide (stamp_epoch a = stamp_epoch b).

Record SshAuthRecord := mkSshAuth {
  auth_at : Z;
  auth_policy_updated_at : option Z;
  auth_policy_stamp : option SshPolicyStamp;
}.

Section cache.
Context {MachineRecord Value Oidc : Type}.
Variable node_key_hex : MachineRecord -> string.
Variable oidc_registration_id : Oidc -> string.

Inductive RegistrationOutcome := Registered (r : MachineRecord) | ApprovedWithoutNode | Rejected (reason : string) | Expired.

Inductive RegistrationWaitOutcome :=
| WaitRegistered (r : MachineRecord) | WaitApprovedWithoutNode | WaitRejected (reason : string) | WaitExpired | WaitMissing.

Inductive AuthWaitOutcome := AuthAccepted | AuthRejected (reason : string) | AuthExpired | AuthMissing.

Inductive AuthRequestKind := KindRegistration | KindSshCheck (b : SshCheckBinding).

Record RegistrationEntry := mkEntry {
  en_record : option MachineRecord;
  en_hostinfo : option Value;
  en_source : option RegistrationSource;
  en_ssh_binding : option SshCheckBinding;
  en_oidc_confirmation : option Oidc;
  en_expires_at : Z;
  en_last_used : Z;
  en_outcome : option RegistrationOutcome;
  en_ssh_verdict_consumed : bool;
}.

Record RegistrationCache := mkCache {
  rc_heap : list RegistrationEntry;
  rc_inner : gmap string nat;
  rc_last_ssh_auth : gmap SshCheckPair SshAuthRecord;
  rc_expiration : Z;
  rc_cleanup : Z;
  rc_max_entries : nat;
  rc_max_pending_per_source : nat;
  rc_access_counter : Z;
}.

(** ** Entries *)

Definition new_registration (record : MachineRecord) (expires_at last_used : Z) : RegistrationEntry :=
  mkEntry (Some record) None None None None expires_at last_used None false.

Definition new_ssh_check (binding : SshCheckBinding) (expires_at last_used : Z) : RegistrationEntry :=
  mkEntry None None None (Some binding) None expires_at last_used None false.

Definition touch (last_used : Z) (e : RegistrationEntry) : RegistrationEntry :=
  mkEntry (en_record e) (en_hostinfo e) (en_source e) (en_ssh_binding e) (en_oidc_confirmation e) (en_expires_at e) last_used (en_outcome e)
    (en_ssh_verdict_consumed e).

Definition is_pending (now : Z) (e : RegistrationEntry) : bool := (now <? en_expires_at e) && bool_decide (en_outcome e = None).

(** The first verdict stays; [complete], [approve_without_node], [reject] and
    [expire] differ in the outcome they offer. *)
Definition decide_entry (o : RegistrationOutcome) (e : RegistrationEntry) : RegistrationEntry :=
  match en_outcome e with
  | Some _ => e
  | None => mkEntry (en_record e) (en_hostinfo e) (en_source e) (en_ssh_binding e) (en_oidc_confirmation e) (en_expires_at e) (en_last_used e)
              (Some o) (en_ssh_verdict_consumed e)
  end.

Definition expire : RegistrationEntry -> RegistrationEntry := decide_entry Expired.

Definition set_oidc (o : option Oidc) (e : RegistrationEntry) : RegistrationEntry :=
  mkEntry (en_record e) (en_hostinfo e) (en_source e) (en_ssh_binding e) o (en_expires_at e) (en_last_used e) (en_outcome e) (en_ssh_verdict_consumed e).

Definition consume_verdict (e : RegistrationEntry) : RegistrationEntry :=
  mkEntry (en_record e) (en_hostinfo e) (en_source e) (en_ssh_binding e) (en_oidc_confirmation e) (en_expires_at e) (en_last_used e) (en_outcome e) true.

(** ** The map *)

Definition with_tuning_and_max_entries (expiration cleanup : Z) (max_entries : nat) : RegistrationCache :=
  mkCache [] ∅ ∅ expiration cleanup (if (max_entries =? 0)%nat then REGISTRATION_CACHE_MAX_ENTRIES else max_entries)
    REGISTRATION_CACHE_MAX_PENDING_PER_SOURCE 0.

Definition with_tuning (expiration cleanup : Z) : RegistrationCache :=
  with_tuning_and_max_entries expiration cleanup REGISTRATION_CACHE_MAX_ENTRIES.

Definition RegistrationCache_new : RegistrationCache :=
  with_tuning_and_max_entries REGISTRATION_CACHE_EXPIRATION REGISTRATION_CACHE_CLEANUP REGISTRATION_CACHE_MAX_ENTRIES.

Definition set_store (c : RegistrationCache) (heap : list RegistrationEntry) (inner : gmap string nat) : RegistrationCache :=
  mkCache heap inner (rc_last_ssh_auth c) (rc_expiration c) (rc_cleanup c) (rc_max_entries c) (rc_max_pending_per_source c) (rc_access_counter c).

Definition set_heap (c : RegistrationCache) (heap : list RegistrationEntry) : RegistrationCache := set_store c heap (rc_inner c).

Definition next_access (c : RegistrationCache) : Z * RegistrationCache :=
  let n := wrapping_add 64 (rc_access_counter c) 1 in
  (n, mkCache (rc_heap c) (rc_inner c) (rc_last_ssh_auth c) (rc_expiration c) (rc_cleanup c) (rc_max_entries c) (rc_max_pending_per_source c) n).

Record Item := mkItem { it_id : string; it_ptr : nat; it_entry : RegistrationEntry }.

(** The entries of the map in the order of the ids. *)
Definition item_at (heap : list RegistrationEntry) (inner : gmap string nat) (id : string) : option Item :=
  p ← inner !! id; e ← heap !! p; Some (mkItem id p e).

Definition items (heap : list RegistrationEntry) (inner : gmap string nat) : list Item :=
  omap (item_at heap inner) (sort_by str_cmp (map fst (map_to_list inner))).

Definition remove_ids (ids : list string) (inner : gmap string nat) : gmap string nat := fold_left (fun m id => delete id m) ids inner.

Definition expire_all (ptrs : list nat) (heap : list RegistrationEntry) : list RegistrationEntry :=
  fold_left (fun h p => alter expire p h) ptrs heap.

Definition prune_expired (now : Z) (c : RegistrationCache) : nat * RegistrationCache :=
  let expired := List.filter (fun i => en_expires_at (it_entry i) <=? now) (items (rc_heap c) (rc_inner c)) in
  (length expired, set_store c (expire_all (map it_ptr expired) (rc_heap c)) (remove_ids (map it_id expired) (rc_inner c))).

Definition get_entry (now : Z) (c : RegistrationCache) (id : string) : option nat * RegistrationCache :=
  let c := (prune_expired now c).2 in
  match rc_inner c !! id with
  | None => (None, c)
  | Some p => let '(n, c) := next_access c in (Some p, set_heap c (alter (touch n) p (rc_heap c)))
  end.

Definition expire_if_current (c : RegistrationCache) (id : string) (target : nat) : bool * RegistrationCache :=
  if bool_decide (rc_inner c !! id = Some target)
  then (true, set_store c (alter expire target (rc_heap c)) (delete id (rc_inner c)))
  else (false, c).

(** ** Eviction *)

Definition other_party_pending (now : Z) (heap : list RegistrationEntry) (inner : gmap string nat) (source : RegistrationSource) : bool :=
  existsb (fun i => negb (bool_decide (en_source (it_entry i) = Some source)) && is_pending now (it_entry i)) (items heap inner).

Definition from_source (now : Z) (source : RegistrationSource) (i : Item) : bool :=
  bool_decide (en_source (it_entry i) = Some source) && is_pending now (it_entry i).

(** [sort_unstable] on pairs of the last use and the id; ids are distinct. *)
Definition use_order (a b : Item) : comparison :=
  then_with (en_last_used (it_entry a) ?= en_last_used (it_entry b)) (str_cmp (it_id a) (it_id b)).

(** The items [evict_over_source_quota] removes. *)
Definition over_quota (quota : nat) (now : Z) (heap : list RegistrationEntry) (inner : gmap string nat) (keep : nat) (source : RegistrationSource)
  : list Item :=
  let held := List.filter (from_source now source) (items heap inner) in
  let droppable := List.filter (fun i => negb (bool_decide (it_ptr i = keep))) held in
  take (length held - quota) (sort_by use_order droppable).

Definition candidates (heap : list RegistrationEntry) (inner : gmap string nat) (keep : nat) : list Item :=
  List.filter (fun i => negb (bool_decide (it_ptr i = keep))) (items heap inner).

Definition by_last_use (l : list Item) : option Item := min_by_key (fun i => en_last_used (it_entry i)) l.

(** How many entries of the map come from [source]. *)
Definition held_by (heap : list RegistrationEntry) (inner : gmap string nat) (source : RegistrationSource) : nat :=
  length (List.filter (fun i => bool_decide (en_source (it_entry i) = Some source)) (items heap inner)).

Definition heavy (heap : list RegistrationEntry) (inner : gmap string nat) (i : Item) : option (nat * Item) :=
  source ← en_source (it_entry i);
  let held := held_by heap inner source in
  if (1 <? held)%nat then Some (held, i) else None.

Definition heavier (a b : nat * Item) : comparison :=
  then_with (Nat.compare a.1 b.1) (en_last_used (it_entry b.2) ?= en_last_used (it_entry a.2)).

Definition eviction_victim (now : Z) (heap : list RegistrationEntry) (inner : gmap string nat) (keep : nat) : option Item :=
  let cs := candidates heap inner keep in
  match by_last_use (List.filter (fun i => negb (is_pending now (it_entry i))) cs) with
  | Some i => Some i
  | None => match max_by heavier (omap (heavy heap inner) cs) with
            | Some (_, i) => Some i
            | None => by_last_use cs
            end
  end.

(** [while inner.len() > max_entries]; every round removes an entry, so the size of
    the map is fuel enough. *)
Fixpoint evict_loop (fuel : nat) (max_entries : nat) (now : Z) (heap : list RegistrationEntry) (keep : nat) (inner : gmap string nat) (expired : list nat)
  : gmap string nat * list nat :=
  match fuel with
  | O => (inner, expired)
  | S f => if (max_entries <? size inner)%nat
           then match eviction_victim now heap inner keep with
                | None => (inner, expired)
                | Some i => evict_loop f max_entries now heap keep (delete (it_id i) inner) (expired ++ [it_ptr i])
                end
           else (inner, expired)
  end.

Definition insert_entry (now : Z) (c : RegistrationCache) (id : string) (entry : RegistrationEntry) : RegistrationCache :=
  let keep := length (rc_heap c) in
  let heap := rc_heap c ++ [entry] in
  let replaced := match rc_inner c !! id with Some old => [old] | None => [] end in
  let inner := <[id := keep]> (rc_inner c) in
  let dropped := match en_source entry with
                 | Some source => if other_party_pending now heap inner source
                                  then over_quota (rc_max_pending_per_source c) now heap inner keep source else []
                 | None => []
                 end in
  let inner := remove_ids (map it_id dropped) inner in
  let '(inner, expired) := evict_loop (size inner) (rc_max_entries c) now heap keep inner (replaced ++ map it_ptr dropped) in
  set_store c (expire_all expired heap) inner.

(** ** Operations *)

Definition insert_from_source (now : Z) (c : RegistrationCache) (id : string) (record : MachineRecord) (hostinfo : option Value)
    (source : option RegistrationSource) : RegistrationCache :=
  let c := (prune_expired now c).2 in
  let '(n, c) := next_access c in
  let e := new_registration record (now + rc_expiration c) n in
  insert_entry now c id
    (mkEntry (en_record e) hostinfo source (en_ssh_binding e) (en_oidc_confirmation e) (en_expires_at e) (en_last_used e) (en_outcome e)
       (en_ssh_verdict_consumed e)).

Definition insert_with_hostinfo (now : Z) (c : RegistrationCache) (id : string) (record : MachineRecord) (hostinfo : option Value) : RegistrationCache :=
  insert_from_source now c id record hostinfo None.

Definition insert_record (now : Z) (c : RegistrationCache) (id : string) (record : MachineRecord) : RegistrationCache :=
  insert_with_hostinfo now c id record None.

Definition insert_ssh_check (now : Z) (c : RegistrationCache) (id : string) (binding : SshCheckBinding) : RegistrationCache :=
  let c := (prune_expired now c).2 in
  let '(n, c) := next_access c in
  insert_entry now c id (new_ssh_check binding (now + rc_expiration c) n).

Definition pending_from_source (now : Z) (c : RegistrationCache) (source : RegistrationSource) : nat * RegistrationCache :=
  let c := (prune_expired now c).2 in
  (length (List.filter (from_source now source) (items (rc_heap c) (rc_inner c))), c).

(** The entry an id names, read through its pointer. *)
Definition entry_of (now : Z) (c : RegistrationCache) (id : string) : option (nat * RegistrationEntry) * RegistrationCache :=
  let '(o, c) := get_entry now c id in (p ← o; e ← rc_heap c !! p; Some (p, e), c).

Definition get (now : Z) (c : RegistrationCache) (id : string) : option MachineRecord * RegistrationCache :=
  let '(o, c) := entry_of now c id in (pe ← o; en_record pe.2, c).

(** The completion of the third component is the id and the entry's pointer. *)
Definition pending_registration_completion (now : Z) (c : RegistrationCache) (id : string)
  : option (MachineRecord * option Value * (string * nat)) * RegistrationCache :=
  let '(o, c) := entry_of now c id in
  (pe ← o; match en_outcome pe.2 with
           | Some _ => None
           | None => r ← en_record pe.2; Some (r, en_hostinfo pe.2, (id, pe.1))
           end, c).

Definition pending_registration_with_hostinfo (now : Z) (c : RegistrationCache) (id : string)
  : option (MachineRecord * option Value) * RegistrationCache :=
  let '(o, c) := entry_of now c id in
  (pe ← o; match en_outcome pe.2 with Some _ => None | None => r ← en_record pe.2; Some (r, en_hostinfo pe.2) end, c).

Definition get_pending_registration (now : Z) (c : RegistrationCache) (id : string) : option MachineRecord * RegistrationCache :=
  let '(o, c) := pending_registration_with_hostinfo now c id in (fst <$> o, c).

Definition decide_at (c : RegistrationCache) (p : nat) (o : RegistrationOutcome) : RegistrationCache :=
  set_heap c (alter (decide_entry o) p (rc_heap c)).

Definition finish_registration (c : RegistrationCache) (completion : string * nat) (registered : MachineRecord) : RegistrationCache :=
  let '(id, p) := completion in (expire_if_current (decide_at c p (Registered registered)) id p).2.

Definition ssh_binding (now : Z) (c : RegistrationCache) (id : string) : option SshCheckBinding * RegistrationCache :=
  let '(o, c) := entry_of now c id in (pe ← o; en_ssh_binding pe.2, c).

Definition auth_request_kind (now : Z) (c : RegistrationCache) (id : string) : option AuthRequestKind * RegistrationCache :=
  let '(o, c) := entry_of now c id in
  (pe ← o; match en_ssh_binding pe.2 with
           | Some b => Some (KindSshCheck b)
           | None => match en_record pe.2 with Some _ => Some KindRegistration | None => None end
           end, c).

Definition store_oidc_confirmation (now : Z) (c : RegistrationCache) (id : string) (pending : Oidc) : bool * RegistrationCache :=
  if negb (bool_decide (oidc_registration_id pending = id)) then (false, c)
  else let '(o, c) := entry_of now c id in
       match o with
       | Some (p, e) => match en_record e with
                        | None => (false, c)
                        | Some _ => (true, set_heap c (alter (set_oidc (Some pending)) p (rc_heap c)))
                        end
       | None => (false, c)
       end.

Definition oidc_confirmation (now : Z) (c : RegistrationCache) (id : string) : option Oidc * RegistrationCache :=
  let '(o, c) := entry_of now c id in (pe ← o; match en_record pe.2 with None => None | Some _ => en_oidc_confirmation pe.2 end, c).

Definition remove_oidc_confirmation (now : Z) (c : RegistrationCache) (id : string) : option Oidc * RegistrationCache :=
  let '(o, c) := entry_of now c id in
  match o with
  | Some (p, e) => (en_oidc_confirmation e, set_heap c (alter (set_oidc None) p (rc_heap c)))
  | None => (None, c)
  end.

(** The registration under [id] is taken out of the map, SSH checks are not. *)
Definition take_registration (c : RegistrationCache) (id : string) : option (nat * MachineRecord) :=
  i ← item_at (rc_heap c) (rc_inner c) id; r ← en_record (it_entry i); Some (it_ptr i, r).

Definition remove (c : RegistrationCache) (id : string) : option MachineRecord * RegistrationCache :=
  match take_registration c id with
  | Some (p, r) => (Some r, set_store c (alter expire p (rc_heap c)) (delete id (rc_inner c)))
  | None => (None, c)
  end.

Definition complete (c : RegistrationCache) (id : string) (registered : MachineRecord) : bool * RegistrationCache :=
  match take_registration c id with
  | Some (p, _) => (true, set_store c (alter (decide_entry (Registered registered)) p (rc_heap c)) (delete id (rc_inner c)))
  | None => (false, c)
  end.

Definition approve_without_node (now : Z) (c : RegistrationCache) (id : string) : bool * RegistrationCache :=
  let '(o, c) := get_entry now c id in
  match o with Some p => (true, decide_at c p ApprovedWithoutNode) | None => (false, c) end.

Definition reject (now : Z) (c : RegistrationCache) (id : string) (reason : string) : bool * RegistrationCache :=
  let '(o, c) := get_entry now c id in
  match o with Some p => (true, decide_at c p (Rejected reason)) | None => (false, c) end.

Definition wait_outcome (o : RegistrationOutcome) : RegistrationWaitOutcome :=
  match o with
  | Registered r => WaitRegistered r
  | ApprovedWithoutNode => WaitApprovedWithoutNode
  | Rejected reason => WaitRejected reason
  | Expired => WaitExpired
  end.

Definition auth_outcome (o : RegistrationOutcome) : AuthWaitOutcome :=
  match o with
  | Registered _ | ApprovedWithoutNode => AuthAccepted
  | Rejected reason => AuthRejected reason
  | Expired => AuthExpired
  end.

(** The body of the waiting loops from one suspension to the next: [None] is a
    waiter that is still suspended.  An entry past its deadline is expired and the
    loop goes round again, at most once as long as the entry has not moved. *)
Fixpoint wait_loop (fuel : nat) (now : Z) (c : RegistrationCache) (id : string) (p : nat) : option RegistrationWaitOutcome * RegistrationCache :=
  match fuel, rc_heap c !! p with
  | S f, Some e =>
      match en_outcome e with
      | Some o => (Some (wait_outcome o), c)
      | None => if en_expires_at e <=? now then wait_loop f now (expire_if_current c id p).2 id p else (None, c)
      end
  | _, _ => (None, c)
  end.

Definition wait_for_registration (fuel : nat) (now : Z) (c : RegistrationCache) (id : string) : option RegistrationWaitOutcome * RegistrationCache :=
  let '(o, c) := get_entry now c id in
  match o with Some p => wait_loop fuel now c id p | None => (Some WaitMissing, c) end.

Fixpoint wait_auth_loop (fuel : nat) (now : Z) (c : RegistrationCache) (id : string) (p : nat) (consume_ssh_verdict : bool)
  : option AuthWaitOutcome * RegistrationCache :=
  match fuel, rc_heap c !! p with
  | S f, Some e =>
      match en_outcome e with
      | Some o =>
          if consume_ssh_verdict
          then if en_ssh_verdict_consumed e then (Some AuthMissing, c)
               else (Some (auth_outcome o), set_heap c (alter consume_verdict p (rc_heap c)))
          else (Some (auth_outcome o), c)
      | None => if en_expires_at e <=? now then wait_auth_loop f now (expire_if_current c id p).2 id p consume_ssh_verdict else (None, c)
      end
  | _, _ => (None, c)
  end.

Definition wait_for_auth_inner (fuel : nat) (now : Z) (c : RegistrationCache) (id : string) (consume_ssh_verdict : bool)
  : option AuthWaitOutcome * RegistrationCache :=
  let '(o, c) := get_entry now c id in
  match o with Some p => wait_auth_loop fuel now c id p consume_ssh_verdict | None => (Some AuthMissing, c) end.

Definition set_ssh_auth (c : RegistrationCache) (m : gmap SshCheckPair SshAuthRecord) : RegistrationCache :=
  mkCache (rc_heap c) (rc_inner c) m (rc_expiration c) (rc_cleanup c) (rc_max_entries c) (rc_max_pending_per_source c) (rc_access_counter c).

Definition record_ssh_auth (c : RegistrationCache) (binding : SshCheckBinding) (now : Z) (policy_updated_at : option Z) : RegistrationCache :=
  set_ssh_auth c (<[pair_of binding := mkSshAuth now policy_updated_at None]> (rc_last_ssh_auth c)).

Definition last_ssh_auth (c : RegistrationCache) (binding : SshCheckBinding) (policy_updated_at : option Z) : option Z :=
  r ← rc_last_ssh_auth c !! pair_of binding;
  if bool_decide (auth_policy_updated_at r = policy_updated_at) then Some (auth_at r) else None.

Definition record_ssh_auth_with_stamp (c : RegistrationCache) (binding : SshCheckBinding) (now : Z) (stamp : SshPolicyStamp) : RegistrationCache :=
  set_ssh_auth c (<[pair_of binding := mkSshAuth now (stamp_updated_at stamp) (Some stamp)]> (rc_last_ssh_auth c)).

Definition last_ssh_auth_with_stamp (c : RegistrationCache) (binding : SshCheckBinding) (stamp : SshPolicyStamp) : option Z :=
  r ← rc_last_ssh_auth c !! pair_of binding;
  match auth_policy_stamp r with
  | Some s => if stamp_eqb s stamp then Some (auth_at r) else None
  | None => None
  end.

Definition clear_ssh_auth (c : RegistrationCache) : RegistrationCache := set_ssh_auth c ∅.

Definition cache_len (now : Z) (c : RegistrationCache) : nat * RegistrationCache :=
  let c := (prune_expired now c).2 in (size (rc_inner c), c).

Definition contains_node_key (now : Z) (c : RegistrationCache) (key : string) : bool * RegistrationCache :=
  let c := (prune_expired now c).2 in
  (existsb (fun i => match en_record (it_entry i) with Some r => bool_decide (node_key_hex r = key) | None => false end)
     (items (rc_heap c) (rc_inner c)), c).

(** ** Histories *)

(** The operations that change the cache, in any order, at any time, from any number
    of callers; a completion and a waiter may hold any entry there ever was. *)
Inductive cache_step : RegistrationCache -> RegistrationCache -> Prop :=
| StepInsert now c id r h s : cache_step c (insert_from_source now c id r h s)
| StepSshCheck now c id b : cache_step c (insert_ssh_check now c id b)
| StepPrune now c : cache_step c (prune_expired now c).2
| StepGet now c id : cache_step c (get_entry now c id).2
| StepFinish c id p r : cache_step c (finish_registration c (id, p) r)
| StepOidc now c id o : cache_step c (store_oidc_confirmation now c id o).2
| StepOidcRemove now c id : cache_step c (remove_oidc_confirmation now c id).2
| StepRemove c id : cache_step c (remove c id).2
| StepComplete c id r : cache_step c (complete c id r).2
| StepApprove now c id : cache_step c (approve_without_node now c id).2
| StepReject now c id reason : cache_step c (reject now c id reason).2
| StepWait fuel now c id p : cache_step c (wait_loop fuel now c id p).2
| StepWaitAuth fuel now c id p b : cache_step c (wait_auth_loop fuel now c id p b).2
| StepSshAuth c m : cache_step c (set_ssh_auth c m).


Inductive cache_steps : RegistrationCache -> RegistrationCache -> Prop :=
| StepsRefl c : cache_steps c c
| StepsCons c c1 c2 : cache_steps c c1 -> cache_step c1 c2 -> cache_steps c c2.

Definition cache_reachable (c : RegistrationCache) : Prop :=
  exists expiration cleanup max_entries, cache_steps (with_tuning_and_max_entries expiration cleanup max_entries) c.

(** ** The invariant *)

(** The map is no larger than configured and maps distinct ids to distinct entries,
    and an entry the map no longer has does have a verdict. *)
Record cache_ok (c : RegistrationCache) : Prop := mkOk {
  ok_size : (size (rc_inner c) <= rc_max_entries c)%nat;
  ok_positive : (1 <= rc_max_entries c)%nat;
  ok_quota : (1 <= rc_max_pending_per_source c)%nat;
  ok_live : forall id p, rc_inner c !! id = Some p -> (p < length (rc_heap c))%nat;
  ok_distinct : forall id id' p, rc_inner c !! id = Some p -> rc_inner c !! id' = Some p -> id = id';
  ok_detached : forall p e, rc_heap c !! p = Some e -> (forall id, rc_inner c !! id <> Some p) -> en_outcome e <> None;
}.

(** What one entry may become: its verdict stays and its deadline does not move. *)
Definition entry_le (e e' : RegistrationEntry) : Prop :=
  (forall o, en_outcome e = Some o -> en_outcome e' = Some o) /\
  en_expires_at e' = en_expires_at e /\ en_source e' = en_source e /\
  (en_ssh_verdict_consumed e = true -> en_ssh_verdict_consumed e' = true).

(** What a cache may become: entries stay on the heap and never move to an id. *)
Record evolves (c c' : RegistrationCache) : Prop := mkEvolves {
  ev_entry : forall p e, rc_heap c !! p = Some e -> exists e', rc_heap c' !! p = Some e' /\ entry_le e e';
  ev_stay : forall p id, (p < length (rc_heap c))%nat -> rc_inner c' !! id = Some p -> rc_inner c !! id = Some p;
}.

Lemma entry_le_refl e : entry_le e e.
Proof. by split_and!. Qed.

Lemma entry_le_trans e1 e2 e3 : entry_le e1 e2 -> entry_le e2 e3 -> entry_le e1 e3.
Proof. intros (? & ? & ? & ?) (? & ? & ? & ?). split_and!; [auto|congruence|congruence|auto]. Qed.

Lemma evolves_refl c : evolves c c.
Proof. split; [|done]. intros p e He. exists e. split; [done|apply entry_le_refl]. Qed.

Lemma evolves_trans c1 c2 c3 : evolves c1 c2 -> evolves c2 c3 -> evolves c1 c3.
Proof.
  intros H12 H23. split.
  - intros p e He. destruct (ev_entry _ _ H12 p e He) as (e2 & He2 & ?). destruct (ev_entry _ _ H23 p e2 He2) as (e3 & He3 & ?).
    exists e3. split; [done|by eapply entry_le_trans].
  - intros p id Hp Hin. apply (ev_stay _ _ H12); [done|]. apply (ev_stay _ _ H23); [|done].
    apply lookup_lt_is_Some in Hp as [e He]. destruct (ev_entry _ _ H12 p e He) as (e2 & He2 & _). by eapply lookup_lt_Some.
Qed.

Definition good (c c' : RegistrationCache) : Prop := cache_ok c -> cache_ok c' /\ evolves c c'.

Lemma good_refl c : good c c.
Proof. intros Hok. split; [done|apply evolves_refl]. Qed.

Lemma good_trans c1 c2 c3 : good c1 c2 -> good c2 c3 -> good c1 c3.
Proof. intros H12 H23 Hok. destruct (H12 Hok) as [Hok2 E12]. destruct (H23 Hok2) as [Hok3 E23]. split; [done|by eapply evolves_trans]. Qed.

(** Operations that touch neither the heap nor the map. *)
Lemma good_same c c' :
  rc_heap c' = rc_heap c -> rc_inner c' = rc_inner c -> rc_max_entries c' = rc_max_entries c ->
  rc_max_pending_per_source c' = rc_max_pending_per_source c -> good c c'.
Proof.
  intros Eh Ei Em Eq [? ? ? ? ? ?]. split; [split; rewrite ?Eh, ?Ei, ?Em, ?Eq; done|]. split.
  - rewrite Eh. intros p e He. exists e. split; [done|apply entry_le_refl].
  - by rewrite Ei.
Qed.

Lemma decide_entry_le o e : entry_le e (decide_entry o e).
Proof. unfold decide_entry. destruct (en_outcome e) eqn:E; [apply entry_le_refl|]. split_and!; [congruence|done..]. Qed.

Lemma decide_entry_decides o e : en_outcome (decide_entry o e) <> None.
Proof. unfold decide_entry. destruct (en_outcome e) eqn:E; [by rewrite E|done]. Qed.

Lemma alter_lookup_le (f : RegistrationEntry -> RegistrationEntry) (p : nat) (heap : list RegistrationEntry) (q : nat) e :
  (forall e, entry_le e (f e)) -> heap !! q = Some e -> exists e', alter f p heap !! q = Some e' /\ entry_le e e'.
Proof.
  intros Hf He. destruct (decide (p = q)) as [-> |Hne].
  - exists (f e). by rewrite list_lookup_alter, decide_True, He by done.
  - exists e. rewrite list_lookup_alter, decide_False by done. split; [done|apply entry_le_refl].
Qed.

Lemma decide_all_length o (ptrs : list nat) : forall heap : list RegistrationEntry, length (fold_left (fun h p => alter (decide_entry o) p h) ptrs heap) = length heap.
Proof. induction ptrs as [|p ptrs IH]; intros heap; cbn [fold_left]; [done|]. by rewrite IH, length_alter. Qed.

Lemma decide_all_lookup o (ptrs : list nat) : forall (heap : list RegistrationEntry) q e, heap !! q = Some e ->
  exists e', fold_left (fun h p => alter (decide_entry o) p h) ptrs heap !! q = Some e' /\ entry_le e e' /\ (q ∈ ptrs -> en_outcome e' <> None).
Proof.
  induction ptrs as [|p ptrs IH]; intros heap q e He; cbn [fold_left].
  - exists e. split_and!; [done|apply entry_le_refl|by intros ?%elem_of_nil].
  - destruct (alter_lookup_le (decide_entry o) p heap q e (decide_entry_le o) He) as (e1 & He1 & Hle).
    destruct (IH _ _ _ He1) as (e' & He' & Hle' & Hin). exists e'. split_and!; [done|by eapply entry_le_trans|].
    intros [-> |Hq]%elem_of_cons; [|auto]. rewrite list_lookup_alter, decide_True, He in He1 by done. injection He1 as <-.
    destruct (en_outcome (decide_entry o e)) as [o'|] eqn:Eo; [|by apply decide_entry_decides in Eo]. destruct Hle' as [Hkeep _]. by rewrite (Hkeep _ Eo).
Qed.

Lemma decide_all_inv o (ptrs : list nat) (heap : list RegistrationEntry) q e' :
  fold_left (fun h p => alter (decide_entry o) p h) ptrs heap !! q = Some e' ->
  exists e, heap !! q = Some e /\ entry_le e e' /\ (q ∈ ptrs -> en_outcome e' <> None).
Proof.
  intros He'. assert (is_Some (heap !! q)) as [e He].
  { apply lookup_lt_is_Some. rewrite <-(decide_all_length o ptrs). by eapply lookup_lt_Some. }
  destruct (decide_all_lookup o ptrs heap q e He) as (e2 & He2 & Hle & Hin). assert (e2 = e') as -> by congruence. eauto.
Qed.

(** Entries leave the map together with a verdict. *)
Lemma good_remove o c ptrs inner' :
  inner' ⊆ rc_inner c -> (forall id p, rc_inner c !! id = Some p -> inner' !! id = None -> p ∈ ptrs) ->
  good c (set_store c (fold_left (fun h p => alter (decide_entry o) p h) ptrs (rc_heap c)) inner').
Proof.
  intros Hsub Hrem [Hs Hp Hq Hl Hd Hdet]. assert (forall id p, inner' !! id = Some p -> rc_inner c !! id = Some p) as Hin.
  { intros id p Hid. by eapply lookup_weaken. }
  split; [split; cbn [set_store rc_inner rc_heap rc_max_entries rc_max_pending_per_source]|split; cbn [set_store rc_inner rc_heap]].
  - etransitivity; [by apply map_subseteq_size|done].
  - done.
  - done.
  - intros id p Hid. rewrite decide_all_length. eauto.
  - intros id id' p H1 H2. eauto.
  - intros p e' He' Hno. apply decide_all_inv in He' as (e & He & Hle & Hptrs).
    destruct (decide (p ∈ ptrs)) as [Hpp|Hpp]; [auto|]. assert (en_outcome e <> None) as Ho.
    { apply (Hdet p e He). intros id Hid. destruct (inner' !! id) as [q|] eqn:Eid; [|eauto].
      apply Hin in Eid as Eid'. assert (q = p) as -> by congruence. by apply (Hno id). }
    destruct (en_outcome e) as [oe|] eqn:Eo; [|done]. destruct Hle as [Hk _]. by rewrite (Hk _ Eo).
  - intros p e He. destruct (decide_all_lookup o ptrs _ _ _ He) as (e' & ? & ? & _). eauto.
  - eauto.
Qed.

(** One entry changes in place. *)
Lemma good_alter (f : RegistrationEntry -> RegistrationEntry) c p : (forall e, entry_le e (f e)) -> good c (set_heap c (alter f p (rc_heap c))).
Proof.
  intros Hf [Hs Hp Hq Hl Hd Hdet]. split; [split|split]; cbn [set_heap set_store rc_inner rc_heap rc_max_entries rc_max_pending_per_source]; try done.
  - intros id q Hid. rewrite length_alter. eauto.
  - intros q e' He' Hno. rewrite list_lookup_alter in He'. case_decide; [subst|eauto].
    apply fmap_Some in He' as (e & He & ->). pose proof (Hdet q e He Hno) as Ho. destruct (en_outcome e) as [oe|] eqn:Eo; [|done].
    destruct (Hf e) as [Hk _]. by rewrite (Hk _ Eo).
  - intros q e He. by apply alter_lookup_le.
Qed.

(** ** Eviction *)

Lemma elem_of_items heap inner i : i ∈ items heap inner <-> inner !! it_id i = Some (it_ptr i) /\ heap !! it_ptr i = Some (it_entry i).
Proof.
  unfold items. rewrite list_elem_of_omap. setoid_rewrite sort_by_In. setoid_rewrite list_elem_of_fmap. unfold item_at. split.
  - intros (id & _ & Hi). destruct (inner !! id) as [p|] eqn:Ep; [|done]. cbn [mbind option_bind] in Hi.
    destruct (heap !! p) as [e|] eqn:Ee; [|done]. cbn [mbind option_bind] in Hi. by injection Hi as <-.
  - intros [Hp He]. exists (it_id i). split; [exists (it_id i, it_ptr i); split; [done|by apply elem_of_map_to_list]|].
    rewrite Hp. cbn [mbind option_bind]. rewrite He. cbn [mbind option_bind]. by destruct i.
Qed.

Lemma items_NoDup heap inner : NoDup (map it_id (items heap inner)).
Proof.
  unfold items. assert (NoDup (sort_by str_cmp (map fst (map_to_list inner)))) as Hnd.
  { rewrite sort_by_perm. apply NoDup_fst_map_to_list. }
  induction (sort_by _ _) as [|id ids IH]; [constructor|]. inversion Hnd as [|? ? Hid Hids]; subst. cbn [omap list_omap].
  destruct (item_at heap inner id) as [i|] eqn:Ei; [|auto]. cbn [map]. constructor; [|auto].
  assert (forall j k, item_at heap inner j = Some k -> it_id k = j) as Hat.
  { intros j k. unfold item_at. destruct (inner !! j) as [q|]; [|done]. cbn [mbind option_bind]. destruct (heap !! q); [|done]. by intros [= <-]. }
  rewrite (Hat _ _ Ei). intros (k & Hk & Hin)%list_elem_of_fmap. apply list_elem_of_omap in Hin as (j & Hj & Hjk). apply Hat in Hjk. congruence.
Qed.

Lemma candidate_exists heap inner keep :
  (forall id p, inner !! id = Some p -> (p < length heap)%nat) ->
  (forall id id' p, inner !! id = Some p -> inner !! id' = Some p -> id = id') ->
  (2 <= size inner)%nat -> candidates heap inner keep <> [].
Proof.
  intros Hl Hd Hsize Hnil. assert (forall id p, inner !! id = Some p -> p = keep) as Hkeep.
  { intros id p Hid. destruct (decide (p = keep)) as [|Hne]; [done|]. destruct (lookup_lt_is_Some_2 heap p) as [e He]; [eauto|].
    assert (mkItem id p e ∈ candidates heap inner keep) as Hin.
    { apply elem_of_filter_bool. rewrite elem_of_items. cbn. split; [done|]. by rewrite bool_decide_false. }
    rewrite Hnil in Hin. by apply elem_of_nil in Hin. }
  assert (size inner <= 1)%nat; [|lia]. rewrite <-length_map_to_list. destruct (map_to_list inner) as [|[i p] [|[j q] l]] eqn:El; cbn; [lia..|].
  exfalso. assert (inner !! i = Some p) as Hi by (apply elem_of_map_to_list; rewrite El; apply list_elem_of_here).
  assert (inner !! j = Some q) as Hj by (apply elem_of_map_to_list; rewrite El; apply list_elem_of_further, list_elem_of_here).
  pose proof (Hkeep _ _ Hi) as ->. pose proof (Hkeep _ _ Hj) as ->. pose proof (Hd _ _ _ Hi Hj) as ->.
  pose proof (NoDup_fst_map_to_list inner) as Hnd. rewrite El in Hnd. cbn in Hnd. inversion Hnd as [|? ? Hn _]. apply Hn, list_elem_of_here.
Qed.

(** The victim is a candidate, and there is one as soon as there is a candidate. *)
Lemma eviction_victim_in now heap inner keep i : eviction_victim now heap inner keep = Some i -> i ∈ candidates heap inner keep.
Proof.
  unfold eviction_victim. destruct (by_last_use _) as [j|] eqn:Ej.
  - intros [= <-]. apply min_by_In in Ej. by apply elem_of_filter_bool in Ej as [? _].
  - destruct (max_by heavier _) as [[n j]|] eqn:Em; [|apply min_by_In].
    intros [= <-]. apply max_by_In, list_elem_of_omap in Em as (k & Hk & Hh). unfold heavy in Hh.
    destruct (en_source (it_entry k)); [|done]. cbn [mbind option_bind] in Hh. case_match; [|done]. by injection Hh as _ <-.
Qed.

Lemma eviction_victim_some now heap inner keep : candidates heap inner keep <> [] -> is_Some (eviction_victim now heap inner keep).
Proof.
  intros Hne. unfold eviction_victim. destruct (by_last_use _); [by eexists|]. destruct (max_by _ _) as [[]|]; [by eexists|].
  destruct (candidates heap inner keep); [done|by eexists].
Qed.

(** The eviction loop ends within the bound; what it removes it expires, and it
    never removes the entry just inserted. *)
Lemma evict_loop_spec max_entries now heap keep : forall fuel inner expired,
  (1 <= max_entries)%nat -> (size inner <= fuel)%nat ->
  (forall id p, inner !! id = Some p -> (p < length heap)%nat) ->
  (forall id id' p, inner !! id = Some p -> inner !! id' = Some p -> id = id') ->
  exists inner' more, evict_loop fuel max_entries now heap keep inner expired = (inner', expired ++ more) /\
    inner' ⊆ inner /\ (size inner' <= max_entries)%nat /\
    (forall id p, inner !! id = Some p -> inner' !! id = None -> p ∈ more /\ p <> keep) /\
    ((size inner <= max_entries)%nat -> inner' = inner).
Proof.
  induction fuel as [|f IH]; intros inner expired Hpos Hfuel Hl Hd; cbn [evict_loop].
  - exists inner, []. rewrite app_nil_r. split_and!; [done|done|lia|congruence|done].
  - destruct (Nat.ltb_spec max_entries (size inner)) as [Hover|Hfit];
      [|by exists inner, []; rewrite app_nil_r; split_and!; [done|done|lia|congruence|done]].
    destruct (eviction_victim_some now heap inner keep) as [i Ei]; [apply candidate_exists; [done..|lia]|]. rewrite Ei.
    apply eviction_victim_in in Ei as Hi. apply elem_of_filter_bool in Hi as [Hi Hk]. apply elem_of_items in Hi as [Hid He].
    apply negb_true_iff, bool_decide_eq_false in Hk.
    assert (size (delete (it_id i) inner) = size inner - 1)%nat as Hsize by (rewrite map_size_delete, Hid; lia).
    destruct (IH (delete (it_id i) inner) (expired ++ [it_ptr i])) as (inner' & more & Ee & Hsub & Hs & Hrem & _).
    { done. } { lia. } { intros id p [_ ?]%lookup_delete_Some. eauto. } { intros id id' p [_ ?]%lookup_delete_Some [_ ?]%lookup_delete_Some. eauto. }
    exists inner', (it_ptr i :: more). rewrite Ee, <-app_assoc. split_and!; [done| |done| |lia].
    + etransitivity; [done|apply delete_subseteq].
    + intros id p Hin Hout. rewrite elem_of_cons. destruct (decide (id = it_id i)) as [-> |Hne].
      * assert (p = it_ptr i) as -> by congruence. auto.
      * destruct (Hrem id p) as [? ?]; [by rewrite lookup_delete_ne|done|auto].
Qed.

Lemma remove_ids_lookup ids : forall inner id, remove_ids ids inner !! id = if bool_decide (id ∈ ids) then None else (inner : gmap string nat) !! id.
Proof.
  induction ids as [|x ids IH]; intros inner id; [done|]. change (remove_ids (x :: ids) inner) with (remove_ids ids (delete x inner)). rewrite IH.
  destruct (decide (id ∈ ids)) as [Hin|Hout].
  - rewrite !bool_decide_true; [done|by apply list_elem_of_further|done].
  - rewrite (bool_decide_false (id ∈ ids)) by done. destruct (decide (id = x)) as [-> |Hne].
    + rewrite bool_decide_true by apply list_elem_of_here. by rewrite lookup_delete, decide_True.
    + rewrite bool_decide_false by (by intros [?|?]%elem_of_cons). by rewrite lookup_delete_ne.
Qed.

Lemma remove_ids_subseteq ids inner : remove_ids ids inner ⊆ inner.
Proof. apply map_subseteq_spec. intros id p. rewrite remove_ids_lookup. by case_bool_decide. Qed.

(** ** Every operation keeps the invariant *)

Lemma prune_good now c : good c (prune_expired now c).2.
Proof.
  unfold prune_expired. cbn [snd]. set (expired := List.filter _ _). apply (good_remove Expired); [apply remove_ids_subseteq|].
  intros id p Hid. rewrite remove_ids_lookup. case_bool_decide as Hin; [|congruence]. intros _.
  apply list_elem_of_fmap in Hin as (i & -> & Hi). apply list_elem_of_fmap. exists i. split; [|done].
  apply elem_of_filter_bool in Hi as [Hi _]. apply elem_of_items in Hi as [Hi _]. congruence.
Qed.

Lemma next_access_good c : good c (next_access c).2.
Proof. by apply good_same. Qed.

Lemma get_entry_good now c id : good c (get_entry now c id).2.
Proof.
  unfold get_entry. destruct (rc_inner _ !! id) as [p|]; [|apply prune_good]. cbn [next_access snd].
  eapply good_trans; [apply prune_good|]. eapply good_trans; [apply next_access_good|]. cbn [next_access snd].
  apply good_alter. intros e. by split_and!.
Qed.

Lemma expire_if_current_good c id p : good c (expire_if_current c id p).2.
Proof.
  unfold expire_if_current. case_bool_decide as Hid; [|apply good_refl]. cbn [snd].
  apply (good_remove Expired c [p]); [apply delete_subseteq|]. intros id' q Hq Hnone. destruct (decide (id' = id)) as [-> |Hne].
  - assert (q = p) as -> by congruence. apply list_elem_of_here.
  - rewrite lookup_delete_ne in Hnone by done. congruence.
Qed.

(** The parts of an insertion: the heap and the map with the new entry, the entries
    the quota drops, and the map in the end. *)
Lemma insert_entry_parts now c id entry :
  cache_ok c ->
  exists dropped inner' more,
    let heap := rc_heap c ++ [entry] in
    let inner := <[id := length (rc_heap c)]> (rc_inner c) in
    dropped = match en_source entry with
              | Some source => if other_party_pending now heap inner source
                               then over_quota (rc_max_pending_per_source c) now heap inner (length (rc_heap c)) source else []
              | None => []
              end /\
    insert_entry now c id entry
      = set_store c (expire_all (match rc_inner c !! id with Some old => [old] | None => [] end ++ map it_ptr dropped ++ more) heap) inner' /\
    inner' ⊆ remove_ids (map it_id dropped) inner /\ (size inner' <= rc_max_entries c)%nat /\
    (forall id' p, remove_ids (map it_id dropped) inner !! id' = Some p -> inner' !! id' = None -> p ∈ more /\ p <> length (rc_heap c)) /\
    ((size (remove_ids (map it_id dropped) inner) <= rc_max_entries c)%nat -> inner' = remove_ids (map it_id dropped) inner).
Proof.
  intros [Hs Hpos Hq Hl Hd Hdet]. unfold insert_entry. set (heap := rc_heap c ++ [entry]). set (inner := <[id := length (rc_heap c)]> (rc_inner c)).
  set (dropped := match en_source entry with Some _ => _ | None => _ end).
  assert (forall id' p, inner !! id' = Some p -> (p < length heap)%nat) as Hl'.
  { intros id' p. unfold inner, heap. rewrite length_app, lookup_insert_Some. cbn. intros [[_ <-]|[_ Hp]]; [lia|]. apply Hl in Hp. lia. }
  assert (forall i j p, inner !! i = Some p -> inner !! j = Some p -> i = j) as Hd'.
  { intros i j p. unfold inner. rewrite !lookup_insert_Some. intros [[-> <-]|[Hi Hpi]] [[-> Hk]|[Hj Hpj]]; [done| | |eauto].
    - apply Hl in Hpj. lia.
    - subst. apply Hl in Hpi. lia. }
  destruct (evict_loop_spec (rc_max_entries c) now heap (length (rc_heap c)) (size (remove_ids (map it_id dropped) inner)) (remove_ids (map it_id dropped) inner)
    (match rc_inner c !! id with Some old => [old] | None => [] end ++ map it_ptr dropped)) as (inner' & more & Ee & Hsub & Hsz & Hrem & Hsame).
  { done. } { done. }
  { intros i p Hi. eapply Hl', lookup_weaken; [exact Hi|apply remove_ids_subseteq]. }
  { intros i j p Hi Hj. eapply Hd'; eapply lookup_weaken; [exact Hi|apply remove_ids_subseteq|exact Hj|apply remove_ids_subseteq]. }
  exists dropped, inner', more. split_and!; [done| |done..]. rewrite Ee. by rewrite <-app_assoc.
Qed.

Lemma dropped_items quota now heap inner keep source i :
  i ∈ over_quota quota now heap inner keep source -> i ∈ items heap inner /\ it_ptr i <> keep /\ from_source now source i = true.
Proof.
  unfold over_quota. intros Hi%elem_of_take. destruct Hi as (k & Hk%list_elem_of_lookup_2 & _). rewrite sort_by_In, !elem_of_filter_bool in Hk.
  destruct Hk as [[Hk Hs] Hne]. by apply negb_true_iff, bool_decide_eq_false in Hne.
Qed.

Lemma dropped_from now c id entry dropped :
  dropped = match en_source entry with
            | Some source => if other_party_pending now (rc_heap c ++ [entry]) (<[id := length (rc_heap c)]> (rc_inner c)) source
                             then over_quota (rc_max_pending_per_source c) now (rc_heap c ++ [entry]) (<[id := length (rc_heap c)]> (rc_inner c))
                                    (length (rc_heap c)) source else []
            | None => []
            end ->
  forall i, i ∈ dropped -> i ∈ items (rc_heap c ++ [entry]) (<[id := length (rc_heap c)]> (rc_inner c)) /\ it_ptr i <> length (rc_heap c) /\
    en_source (it_entry i) = en_source entry.
Proof.
  intros -> i Hi. destruct (en_source entry) as [source|]; [|by apply elem_of_nil in Hi]. destruct (other_party_pending _ _ _ _); [|by apply elem_of_nil in Hi].
  apply dropped_items in Hi as (? & ? & Hs). split_and!; [done..|]. unfold from_source in Hs. apply andb_true_iff in Hs as [Hs _]. by apply bool_decide_eq_true in Hs.
Qed.

(** The new entry is in the map in the end. *)
Lemma kept_in_map id keep (inner : gmap string nat) inner' heap dropped (more : list nat) :
  inner !! id = Some keep -> (forall i, i ∈ dropped -> i ∈ items heap inner /\ it_ptr i <> keep) -> inner' ⊆ remove_ids (map it_id dropped) inner ->
  (forall id' p, remove_ids (map it_id dropped) inner !! id' = Some p -> inner' !! id' = None -> p ∈ more /\ p <> keep) -> inner' !! id = Some keep.
Proof.
  intros Hid Hd0 Hsub Hrem. assert (remove_ids (map it_id dropped) inner !! id = Some keep) as Hk.
  { rewrite remove_ids_lookup, bool_decide_false; [done|]. intros (i & Hi & Hin)%list_elem_of_fmap. destruct (Hd0 i Hin) as [[Hii _]%elem_of_items Hne]. subst id. congruence. }
  destruct (inner' !! id) as [q|] eqn:Eq; [|by destruct (Hrem id keep Hk Eq)]. rewrite (lookup_weaken _ _ _ _ Eq Hsub) in Hk. congruence.
Qed.

Lemma insert_entry_good now c id entry : good c (insert_entry now c id entry).
Proof.
  intros Hok. destruct (insert_entry_parts now c id entry Hok) as (dropped & inner' & more & Hdrop & -> & Hsub & Hsz & Hrem & _).
  pose proof (dropped_from now c id entry dropped Hdrop) as Hd0. clear Hdrop. destruct Hok as [Hs Hpos Hq Hl Hd Hdet].
  set (keep := length (rc_heap c)) in *. set (inner := <[id := keep]> (rc_inner c)) in *. set (heap := rc_heap c ++ [entry]) in *.
  set (ptrs := _ ++ map it_ptr dropped ++ more).
  assert (forall j p, inner' !! j = Some p -> inner !! j = Some p) as Hin.
  { intros j p Hj. eapply lookup_weaken; [exact Hj|]. etransitivity; [exact Hsub|apply remove_ids_subseteq]. }
  assert (forall j p, rc_inner c !! j = Some p -> (forall k, inner' !! k <> Some p) -> p ∈ ptrs) as Hptrs.
  { intros j p Hj Hno. unfold ptrs. rewrite !elem_of_app. destruct (decide (j = id)) as [-> |Hne]; [left; rewrite Hj; apply list_elem_of_here|]. right.
    assert (inner !! j = Some p) as Hj' by (unfold inner; by rewrite lookup_insert_ne).
    destruct (decide (j ∈ map it_id dropped)) as [Hjd|Hjd].
    - left. apply list_elem_of_fmap in Hjd as (i & -> & Hi). destruct (Hd0 i Hi) as [[Hii _]%elem_of_items _]. apply list_elem_of_fmap. exists i. split; [congruence|done].
    - right. apply (Hrem j p); [by rewrite remove_ids_lookup, bool_decide_false|]. destruct (inner' !! j) as [q|] eqn:Eq; [|done].
      apply Hin in Eq as Eq'. assert (q = p) as -> by congruence. by destruct (Hno j). }
  assert (inner' !! id = Some keep) as Hkeep.
  { apply (kept_in_map id keep inner inner' heap dropped more); [unfold inner; by rewrite lookup_insert, decide_True|intros i Hi; destruct (Hd0 i Hi) as (? & ? & _); done|done|done]. }
  split; [split|split]; cbn [set_store rc_inner rc_heap rc_max_entries rc_max_pending_per_source]; try done.
  - intros j p Hj%Hin. unfold expire_all, expire. rewrite decide_all_length. unfold heap, inner in *. rewrite length_app. cbn.
    apply lookup_insert_Some in Hj as [[_ <-]|[_ Hj%Hl]]; unfold keep in *; lia.
  - intros i j p Hi%Hin Hj%Hin. unfold inner in Hi, Hj. rewrite lookup_insert_Some in Hi, Hj.
    destruct Hi as [[-> <-]|[Hi Hpi]], Hj as [[-> Hk]|[Hj Hpj]]; [done| | |eauto].
    + apply Hl in Hpj. unfold keep in Hpj. lia.
    + subst. apply Hl in Hpi. unfold keep in Hpi. lia.
  - intros p e' He' Hno. apply decide_all_inv in He' as (e & He & Hle & Hpt).
    destruct (decide (p ∈ ptrs)) as [Hpp|Hpp]; [auto|]. assert (p <> keep) as Hpk by (intros ->; by apply (Hno id)).
    assert (rc_heap c !! p = Some e) as Hec.
    { unfold heap in He. apply lookup_app_Some in He as [?|[Hge He]]; [done|]. apply list_lookup_singleton_Some in He as [Hp0 _]. unfold keep in Hpk. lia. }
    assert (en_outcome e <> None) as Ho. { apply (Hdet p e Hec). intros j Hj. apply Hpp. by eapply Hptrs. }
    destruct (en_outcome e) as [oe|] eqn:Eo; [|done]. destruct Hle as [Hk _]. by rewrite (Hk _ Eo).
  - intros p e He. destruct (decide_all_lookup Expired ptrs heap p e) as (e' & ? & ? & _); [by apply lookup_app_l_Some|eauto].
  - intros p j Hp Hj%Hin. unfold inner in Hj. apply lookup_insert_Some in Hj as [[_ Hk]|[_ Hj]]; [unfold keep in Hk; lia|done].
Qed.

Lemma insert_entry_present now c id entry : cache_ok c -> is_Some (rc_inner (insert_entry now c id entry) !! id).
Proof.
  intros Hok. destruct (insert_entry_parts now c id entry Hok) as (dropped & inner' & more & Hdrop & -> & Hsub & _ & Hrem & _). pose proof (dropped_from now c id entry dropped Hdrop) as Hd0.
  exists (length (rc_heap c)). cbn [set_store rc_inner]. eapply (kept_in_map id); [|intros i Hi; destruct (Hd0 i Hi) as (? & ? & _); done|exact Hsub|exact Hrem]. by rewrite lookup_insert, decide_True.
Qed.

Lemma insert_from_source_present now c id record hostinfo source : cache_ok c -> is_Some (rc_inner (insert_from_source now c id record hostinfo source) !! id).
Proof.
  intros Hok. unfold insert_from_source. destruct (prune_good now c Hok) as [Hok1 _]. destruct (next_access_good (prune_expired now c).2 Hok1) as [Hok2 _].
  destruct (next_access _) as [n c2]. by apply insert_entry_present.
Qed.

Lemma decide_at_good c p o : good c (decide_at c p o).
Proof. apply good_alter, decide_entry_le. Qed.

Lemma take_registration_current c id p r : take_registration c id = Some (p, r) -> rc_inner c !! id = Some p.
Proof.
  unfold take_registration, item_at. destruct (rc_inner c !! id) as [q|]; [|done]. cbn [mbind option_bind]. destruct (rc_heap c !! q) as [e|]; [|done].
  cbn. destruct (en_record e); [|done]. by intros [= <- _].
Qed.

(** Taking the current entry of an id out of the map with a verdict. *)
Lemma take_good o c id p : rc_inner c !! id = Some p -> good c (set_store c (alter (decide_entry o) p (rc_heap c)) (delete id (rc_inner c))).
Proof.
  intros Hid. apply (good_remove o c [p]); [apply delete_subseteq|]. intros j q Hj Hnone. destruct (decide (j = id)) as [-> |Hne].
  - assert (q = p) as -> by congruence. apply list_elem_of_here.
  - rewrite lookup_delete_ne in Hnone by done. congruence.
Qed.

Lemma wait_loop_good fuel : forall now c id p, good c (wait_loop fuel now c id p).2.
Proof.
  induction fuel as [|f IH]; intros now c id p; cbn [wait_loop]; [apply good_refl|]. destruct (rc_heap c !! p) as [e|]; [|apply good_refl].
  destruct (en_outcome e); [apply good_refl|]. destruct (_ <=? _); [|apply good_refl]. eapply good_trans; [apply expire_if_current_good|apply IH].
Qed.

Lemma wait_auth_loop_good fuel : forall now c id p b, good c (wait_auth_loop fuel now c id p b).2.
Proof.
  induction fuel as [|f IH]; intros now c id p b; cbn [wait_auth_loop]; [apply good_refl|]. destruct (rc_heap c !! p) as [e|]; [|apply good_refl].
  destruct (en_outcome e).
  - destruct b; [|apply good_refl]. destruct (en_ssh_verdict_consumed e); [apply good_refl|]. cbn [snd]. apply good_alter. intros e0. by split_and!.
  - destruct (_ <=? _); [|apply good_refl]. eapply good_trans; [apply expire_if_current_good|apply IH].
Qed.

Lemma entry_of_good now c id : good c (entry_of now c id).2.
Proof. unfold entry_of. pose proof (get_entry_good now c id) as Hg. by destruct (get_entry now c id). Qed.

Lemma cache_step_good c c' : cache_step c c' -> good c c'.
Proof.
  destruct 1 as [now c id r h s|now c id b|now c|now c id|c id p r|now c id o|now c id|c id|c id r|now c id|now c id reason|fuel now c id p|fuel now c id p b|c m].
  - eapply good_trans; [apply prune_good|]. eapply good_trans; [apply next_access_good|]. apply insert_entry_good.
  - eapply good_trans; [apply prune_good|]. eapply good_trans; [apply next_access_good|]. apply insert_entry_good.
  - apply prune_good.
  - apply get_entry_good.
  - eapply good_trans; [apply decide_at_good|]. apply expire_if_current_good.
  - unfold store_oidc_confirmation. destruct (negb _); [apply good_refl|]. pose proof (entry_of_good now c id) as Hg.
    destruct (entry_of now c id) as [[[p e]|] c']; [|done]. destruct (en_record e); [|done]. eapply good_trans; [exact Hg|]. apply good_alter. intros e0. by split_and!.
  - unfold remove_oidc_confirmation. pose proof (entry_of_good now c id) as Hg. destruct (entry_of now c id) as [[[p e]|] c']; [|done].
    eapply good_trans; [exact Hg|]. apply good_alter. intros e0. by split_and!.
  - unfold remove. destruct (take_registration c id) as [[p r]|] eqn:E; [|apply good_refl]. by eapply take_good, take_registration_current.
  - unfold complete. destruct (take_registration c id) as [[p r']|] eqn:E; [|apply good_refl]. by eapply take_good, take_registration_current.
  - unfold approve_without_node. pose proof (get_entry_good now c id) as Hg. destruct (get_entry now c id) as [[p|] c']; [|done].
    eapply good_trans; [exact Hg|apply decide_at_good].
  - unfold reject. pose proof (get_entry_good now c id) as Hg. destruct (get_entry now c id) as [[p|] c']; [|done].
    eapply good_trans; [exact Hg|apply decide_at_good].
  - apply wait_loop_good.
  - apply wait_auth_loop_good.
  - by apply good_same.
Qed.

Lemma cache_steps_good c c' : cache_steps c c' -> good c c'.
Proof. induction 1 as [c|c c1 c2 _ IH Hs]; [apply good_refl|]. eapply good_trans; [exact IH|by apply cache_step_good]. Qed.

Lemma reachable_ok c : cache_reachable c -> cache_ok c.
Proof.
  intros (ex & cl & mx & Hs%cache_steps_good). apply Hs. split; cbn; try done.
  - rewrite map_size_empty. lia.
  - destruct (Nat.eqb_spec mx 0); [unfold REGISTRATION_CACHE_MAX_ENTRIES; lia|lia].
  - unfold REGISTRATION_CACHE_MAX_PENDING_PER_SOURCE. lia.
Qed.

(** C33. The cache never outgrows its bound, whatever the callers do and however the
    operations interleave; its ids name distinct entries; and an entry that has left
    it, by completion, replacement, eviction or expiry, has a verdict. *)
Theorem registration_cache_bounded c :
  cache_reachable c ->
  (size (rc_inner c) <= rc_max_entries c)%nat /\
  (forall id id' p, rc_inner c !! id = Some p -> rc_inner c !! id' = Some p -> id = id') /\
  (forall p e, rc_heap c !! p = Some e -> (forall id, rc_inner c !! id <> Some p) -> en_outcome e <> None).
Proof. intros [Hs _ _ _ Hd Hdet]%reachable_ok. done. Qed.

(** The first verdict wins: once an entry has an outcome, no completion,
    approval, rejection, expiry, eviction or replacement changes it. *)
Theorem first_verdict_wins c c' p e o :
  cache_reachable c -> cache_steps c c' -> rc_heap c !! p = Some e -> en_outcome e = Some o ->
  exists e', rc_heap c' !! p = Some e' /\ en_outcome e' = Some o.
Proof.
  intros Hok%reachable_ok Hs He Ho. destruct (cache_steps_good _ _ Hs Hok) as [_ Hev]. destruct (ev_entry _ _ Hev p e He) as (e' & He' & Hk & _). eauto.
Qed.

(** A completion decides the entry it was admitted for and no other: every other
    entry keeps its state, and the id is freed only if it still names that entry. *)
Theorem finish_registration_own_entry c id p r :
  (forall q, q <> p -> rc_heap (finish_registration c (id, p) r) !! q = rc_heap c !! q) /\
  (forall id', rc_inner c !! id' <> Some p \/ id' <> id -> rc_inner (finish_registration c (id, p) r) !! id' = rc_inner c !! id') /\
  (forall e, rc_heap c !! p = Some e -> exists e', rc_heap (finish_registration c (id, p) r) !! p = Some e' /\
     en_outcome e' = Some (default (Registered r) (en_outcome e))).
Proof.
  unfold finish_registration, expire_if_current, decide_at. cbn [set_heap set_store rc_inner rc_heap].
  assert (forall e, expire (decide_entry (Registered r) e) = decide_entry (Registered r) e) as Hex.
  { intros e. unfold expire, decide_entry at 1. pose proof (decide_entry_decides (Registered r) e). by destruct (en_outcome (decide_entry _ e)). }
  assert (forall e, en_outcome (decide_entry (Registered r) e) = Some (default (Registered r) (en_outcome e))) as Hout.
  { intros e. unfold decide_entry. destruct (en_outcome e) eqn:Ee; [by rewrite Ee|done]. }
  case_bool_decide as Hid; cbn [snd set_heap set_store rc_heap rc_inner]; split_and!.
  - intros q Hq. by rewrite !list_lookup_alter, !decide_False by done.
  - intros id' [Hne|Hne]; [|by rewrite lookup_delete_ne]. rewrite lookup_delete_ne; [done|]. by intros ->.
  - intros e He. rewrite !list_lookup_alter, !decide_True, He by done. cbn. eexists. split; [done|]. by rewrite Hex, Hout.
  - intros q Hq. by rewrite list_lookup_alter, decide_False by done.
  - done.
  - intros e He. rewrite list_lookup_alter, decide_True, He by done. cbn. eexists. split; [done|]. apply Hout.
Qed.

(** C32. Nobody waits for ever: a waiter that found an entry under an id is told an
    outcome at the latest when it looks after the entry's deadline, whatever happened
    to the entry and the id in between. *)
Theorem waiters_are_told c0 c id p e now :
  cache_reachable c0 -> rc_inner c0 !! id = Some p -> cache_steps c0 c -> rc_heap c !! p = Some e -> en_expires_at e <= now ->
  exists o c', wait_loop 2 now c id p = (Some o, c').
Proof.
  intros Hok0%reachable_ok Hid0 Hsteps He Hexp. destruct (cache_steps_good _ _ Hsteps Hok0) as [Hok Hev]. cbn [wait_loop]. rewrite He.
  destruct (en_outcome e) as [o|] eqn:Eo; [eauto|]. destruct (Z.leb_spec (en_expires_at e) now); [|lia].
  assert (rc_inner c !! id = Some p) as Hid.
  { destruct (decide (rc_inner c !! id = Some p)) as [|Hne]; [done|]. exfalso. apply (ok_detached _ Hok p e He); [|done]. intros id' Hid'.
    pose proof (ev_stay _ _ Hev p id' (ok_live _ Hok0 _ _ Hid0) Hid') as Hid0'. pose proof (ok_distinct _ Hok0 _ _ _ Hid0 Hid0') as ->. done. }
  unfold expire_if_current. rewrite bool_decide_true by done. cbn [snd set_store rc_heap]. rewrite list_lookup_alter, decide_True, He by done. cbn [fmap option_fmap option_map].
  pose proof (decide_entry_decides Expired e) as Hdec. change (expire e) with (decide_entry Expired e). destruct (en_outcome (decide_entry Expired e)); [eauto|done].
Qed.

(** ** Sources *)

Lemma filter_split {A} (P : A -> bool) l : l ≡ₚ List.filter P l ++ List.filter (fun x => negb (P x)) l.
Proof.
  induction l as [|x l IH]; [done|]. cbn [List.filter]. destruct (P x); cbn [negb app]; [by rewrite <-IH|].
  rewrite <-Permutation_middle. by rewrite <-IH.
Qed.

Lemma filter_ids_NoDup (P : Item -> bool) l : NoDup (map it_id l) -> NoDup (map it_id (List.filter P l)).
Proof.
  intros Hnd. induction l as [|x l IH]; [constructor|]. cbn [map] in Hnd. inversion Hnd as [|? ? Hx Hl]; subst. cbn [List.filter]. destruct (P x); [|auto].
  cbn [map]. constructor; [|auto]. intros (y & Hy & Hin)%list_elem_of_fmap. apply Hx. rewrite Hy. apply list_elem_of_fmap. exists y. split; [done|]. by apply elem_of_filter_bool in Hin as [? _].
Qed.

(** At most one item is the entry just inserted. *)
Lemma kept_once heap inner keep (P : Item -> bool) :
  (forall id id' p, inner !! id = Some p -> inner !! id' = Some p -> id = id') ->
  (length (List.filter (fun i => negb (negb (bool_decide (it_ptr i = keep)))) (List.filter P (items heap inner))) <= 1)%nat.
Proof.
  intros Hd. set (l := List.filter _ (List.filter P _)).
  assert (NoDup (map it_id l)) as Hnd by (apply filter_ids_NoDup, filter_ids_NoDup, items_NoDup).
  assert (forall i, i ∈ l -> inner !! it_id i = Some keep) as Hl.
  { intros i Hi. unfold l in Hi. rewrite !elem_of_filter_bool in Hi. destruct Hi as [[Hi _] Hk]. rewrite negb_involutive in Hk. apply bool_decide_eq_true in Hk.
    apply elem_of_items in Hi as [Hi _]. congruence. }
  destruct l as [|a [|b l]]; cbn; [lia..|]. exfalso. cbn [map] in Hnd. inversion Hnd as [|? ? Hn _]; subst. apply Hn.
  rewrite (Hd (it_id a) (it_id b) keep); [apply list_elem_of_here|apply Hl, list_elem_of_here|apply Hl, list_elem_of_further, list_elem_of_here].
Qed.

(** What the quota leaves of a source is within the quota. *)
Lemma over_quota_rest quota now heap inner keep source :
  (1 <= quota)%nat -> (forall id id' p, inner !! id = Some p -> inner !! id' = Some p -> id = id') ->
  exists rest, List.filter (from_source now source) (items heap inner) ≡ₚ over_quota quota now heap inner keep source ++ rest /\ (length rest <= quota)%nat.
Proof.
  intros Hq Hd. unfold over_quota. set (held := List.filter (from_source now source) _). set (droppable := List.filter _ held).
  pose proof (kept_once heap inner keep (from_source now source) Hd) as Hk. fold held in Hk.
  pose proof (filter_split (fun i => negb (bool_decide (it_ptr i = keep))) held) as Hsplit. fold droppable in Hsplit.
  set (kept := List.filter _ held) in Hk. set (n := (length held - quota)%nat).
  exists (drop n (sort_by use_order droppable) ++ kept). split; [by rewrite app_assoc, take_drop, sort_by_perm|].
  apply Permutation_length in Hsplit. rewrite length_app in Hsplit. change (length held = length droppable + length kept)%nat in Hsplit. rewrite length_app, length_drop, length_sort_by. lia.
Qed.

Lemma entry_le_pending now e e' : entry_le e e' -> is_pending now e' = true -> is_pending now e = true.
Proof.
  intros (Ho & Hx & _ & _). unfold is_pending. rewrite Hx, !andb_true_iff, !bool_decide_eq_true. intros [? He']. split; [done|].
  destruct (en_outcome e) as [o|] eqn:E; [|done]. by rewrite (Ho o eq_refl) in He'.
Qed.

(** Every item left after an insertion was an item before, no less pending. *)
Lemma items_before ptrs heap inner inner' i :
  inner' ⊆ inner -> i ∈ items (expire_all ptrs heap) inner' ->
  exists e, mkItem (it_id i) (it_ptr i) e ∈ items heap inner /\ entry_le e (it_entry i).
Proof.
  intros Hsub [Hid He]%elem_of_items. apply decide_all_inv in He as (e & He & Hle & _). exists e. split; [|done]. apply elem_of_items. cbn.
  split; [by eapply lookup_weaken|done].
Qed.

Lemma insert_entry_quota now c id entry source :
  cache_ok c -> en_source entry = Some source ->
  let c' := insert_entry now c id entry in
  (exists i, i ∈ items (rc_heap c') (rc_inner c') /\ en_source (it_entry i) <> Some source /\ is_pending now (it_entry i) = true) ->
  (length (List.filter (from_source now source) (items (rc_heap c') (rc_inner c'))) <= rc_max_pending_per_source c)%nat.
Proof.
  intros Hok Hsrc. destruct (insert_entry_parts now c id entry Hok) as (dropped & inner' & more & Hdrop & -> & Hsub & _). cbn zeta. cbn [set_store rc_heap rc_inner].
  rewrite Hsrc in Hdrop. set (heap := rc_heap c ++ [entry]) in *. set (inner := <[id := length (rc_heap c)]> (rc_inner c)) in *.
  assert (inner' ⊆ inner) as Hsub' by (etransitivity; [exact Hsub|apply remove_ids_subseteq]).
  assert (forall i j p, inner !! i = Some p -> inner !! j = Some p -> i = j) as Hd'.
  { intros i j p. unfold inner. rewrite !lookup_insert_Some. intros [[-> <-]|[Hi Hpi]] [[-> Hk]|[Hj Hpj]]; [done| | |by eapply ok_distinct].
    - apply (ok_live _ Hok) in Hpj. lia.
    - subst. apply (ok_live _ Hok) in Hpi. lia. }
  intros (i & Hi & Hother & Hpend). destruct (items_before _ _ _ _ _ Hsub' Hi) as (e & He & Hle).
  assert (other_party_pending now heap inner source = true) as Hopp.
  { apply existsb_elem. exists (mkItem (it_id i) (it_ptr i) e). split; [exact He|]. cbn [it_entry]. rewrite (entry_le_pending now e _ Hle Hpend). destruct Hle as (_ & _ & Es & _).
    rewrite bool_decide_false by congruence. done. }
  rewrite Hopp in Hdrop.
  destruct (over_quota_rest (rc_max_pending_per_source c) now heap inner (length (rc_heap c)) source (ok_quota _ Hok) Hd') as (rest & Hrest & Hlen).
  rewrite <-Hdrop in Hrest. etransitivity; [|exact Hlen]. rewrite <-(length_map it_id), <-(length_map it_id rest).
  apply submseteq_length, NoDup_submseteq; [apply filter_ids_NoDup, items_NoDup|]. intros x (j & -> & Hj)%list_elem_of_fmap.
  apply elem_of_filter_bool in Hj as [Hj Hfrom]. destruct (items_before _ _ _ _ _ Hsub' Hj) as (ej & Hej & Hlej).
  assert (mkItem (it_id j) (it_ptr j) ej ∈ List.filter (from_source now source) (items heap inner)) as Hheld.
  { apply elem_of_filter_bool. split; [done|]. unfold from_source in *. apply andb_true_iff in Hfrom as [Hs Hp]. cbn [it_entry]. rewrite (entry_le_pending now ej _ Hlej Hp).
    destruct Hlej as (_ & _ & Es & _). by rewrite <-Es, Hs. }
  rewrite Hrest in Hheld. apply elem_of_app in Hheld as [Hin|Hin]; [|apply list_elem_of_fmap; by exists (mkItem (it_id j) (it_ptr j) ej)].
  exfalso. apply elem_of_items in Hj as [Hj _]. pose proof (lookup_weaken _ _ _ _ Hj Hsub) as Hj'. rewrite remove_ids_lookup, bool_decide_true in Hj'; [done|].
  apply list_elem_of_fmap. by exists (mkItem (it_id j) (it_ptr j) ej).
Qed.

(** Pruning keeps what has not expired. *)
Lemma prune_keeps now c id p e :
  cache_ok c -> rc_inner c !! id = Some p -> rc_heap c !! p = Some e -> now < en_expires_at e ->
  let c1 := (prune_expired now c).2 in
  rc_inner c1 !! id = Some p /\ exists e1, rc_heap c1 !! p = Some e1 /\ entry_le e e1.
Proof.
  intros Hok Hid He Hexp. cbn zeta. split.
  - unfold prune_expired. cbn [snd set_store rc_inner]. rewrite remove_ids_lookup, bool_decide_false; [done|].
    intros (i & -> & Hi)%list_elem_of_fmap. apply elem_of_filter_bool in Hi as [[Hi Hie]%elem_of_items Hx]. assert (it_ptr i = p) as Hp by congruence.
    rewrite Hp in Hie. assert (it_entry i = e) as Ei by congruence. rewrite Ei in Hx. lia.
  - destruct (prune_good now c Hok) as [_ Hev]. by apply (ev_entry _ _ Hev).
Qed.

(** C27. One source cannot push the others out: after an unauthenticated request
    inserts a registration, its source holds at most the quota of pending entries as
    long as anyone else has one pending, and while the cache is not full no unexpired
    entry of another source leaves it. *)
Theorem source_isolation now c id r h source :
  cache_reachable c ->
  let c' := insert_from_source now c id r h (Some source) in
  ((exists i, i ∈ items (rc_heap c') (rc_inner c') /\ en_source (it_entry i) <> Some source /\ is_pending now (it_entry i) = true) ->
   (length (List.filter (from_source now source) (items (rc_heap c') (rc_inner c'))) <= rc_max_pending_per_source c)%nat) /\
  ((size (rc_inner c) < rc_max_entries c)%nat ->
   forall id' p e, id' <> id -> rc_inner c !! id' = Some p -> rc_heap c !! p = Some e -> now < en_expires_at e -> en_source e <> Some source ->
   rc_inner c' !! id' = Some p).
Proof.
  intros Hok%reachable_ok. cbn zeta. unfold insert_from_source. destruct (prune_good now c Hok) as [Hok1 _].
  pose proof (prune_keeps now c) as Hkeeps. assert (size (rc_inner (prune_expired now c).2) <= size (rc_inner c))%nat as Hsz.
  { apply map_subseteq_size. unfold prune_expired. cbn [snd set_store rc_inner]. apply remove_ids_subseteq. }
  assert (rc_max_entries (prune_expired now c).2 = rc_max_entries c) as Em by done.
  assert (rc_max_pending_per_source (prune_expired now c).2 = rc_max_pending_per_source c) as Eq by done.
  remember (prune_expired now c).2 as c1 eqn:Ec1. clear Ec1. cbn [next_access]. set (c2 := mkCache _ _ _ _ _ _ _ _).
  assert (cache_ok c2) as Hok2 by (by apply (next_access_good c1)). set (entry := mkEntry _ _ _ _ _ _ _ _ _). split.
  - intros Hother. rewrite <-Eq. by apply (insert_entry_quota now c2 id entry source Hok2).
  - intros Hroom id' p e Hne Hid He Hexp Hsrc. destruct (Hkeeps id' p e Hok Hid He Hexp) as [Hid1 (e1 & He1 & _ & _ & Es & _)].
    destruct (insert_entry_parts now c2 id entry Hok2) as (dropped & inner' & more & Hdrop & -> & _ & _ & _ & Hsame). cbn [set_store rc_inner].
    pose proof (dropped_from now c2 id entry dropped Hdrop) as Hd0. clear Hdrop. cbn [c2 rc_heap rc_inner rc_max_entries] in *. rewrite Hsame.
    + rewrite remove_ids_lookup, bool_decide_false; [by rewrite lookup_insert_ne|]. intros (i & -> & Hi)%list_elem_of_fmap.
      destruct (Hd0 i Hi) as [[Hii Hie]%elem_of_items [_ Hs]]. rewrite lookup_insert_ne, Hid1 in Hii by done. injection Hii as Ep.
      rewrite <-Ep, (lookup_app_l_Some _ _ _ _ He1) in Hie. injection Hie as Ee. rewrite <-Ee, Es in Hs. by cbn in Hs.
    + etransitivity; [apply map_subseteq_size, remove_ids_subseteq|]. rewrite map_size_insert. destruct (rc_inner c1 !! id); simpl; lia.
Qed.

Lemma heaviest_greatest l x : max_by heavier l = Some x -> forall y, y ∈ l -> (y.1 <= x.1)%nat.
Proof.
  assert (PreOrder (fun a b : nat * Item => (a.1 <= b.1)%nat)) as Hpre by (split; [intros ?; lia|intros ? ? ?; lia]).
  apply (max_by_refines heavier (fun a b => (a.1 <= b.1)%nat)); intros a b _ _; unfold heavier, then_with; destruct (Nat.compare_spec a.1 b.1); intros Hc;
    try lia; done.
Qed.

(** Who pays when the cache is full: never the entry just inserted; an entry that
    nobody waits for any more if there is one; otherwise one of the source with the
    most entries, as soon as any source has two. *)
Theorem eviction_fair now heap inner keep i :
  eviction_victim now heap inner keep = Some i ->
  i ∈ items heap inner /\ it_ptr i <> keep /\
  (is_pending now (it_entry i) = true -> forall j, j ∈ candidates heap inner keep -> is_pending now (it_entry j) = true) /\
  (is_pending now (it_entry i) = true -> forall j s, j ∈ candidates heap inner keep -> en_source (it_entry j) = Some s -> (1 < held_by heap inner s)%nat ->
     exists s', en_source (it_entry i) = Some s' /\ (held_by heap inner s <= held_by heap inner s')%nat).
Proof.
  intros Hv. pose proof (eviction_victim_in _ _ _ _ _ Hv) as Hi. apply elem_of_filter_bool in Hi as [Hi Hk]. apply negb_true_iff, bool_decide_eq_false in Hk.
  split; [done|]. split; [done|]. unfold eviction_victim in Hv. destruct (by_last_use (List.filter _ _)) as [k|] eqn:Ek.
  { injection Hv as ->. apply min_by_In, elem_of_filter_bool in Ek as [_ Hp%negb_true_iff]. split; congruence. }
  split.
  - intros _ j Hj. destruct (is_pending now (it_entry j)) eqn:Ej; [done|]. exfalso.
    assert (j ∈ List.filter (fun i => negb (is_pending now (it_entry i))) (candidates heap inner keep)) as Hin by (apply elem_of_filter_bool; by rewrite Ej).
    unfold by_last_use, min_by_key, min_by, reduce in Ek. destruct (List.filter _ _); [by apply elem_of_nil in Hin|done].
  - intros _ j s Hj Hs Hheld. assert ((held_by heap inner s, j) ∈ omap (heavy heap inner) (candidates heap inner keep)) as Hin.
    { apply list_elem_of_omap. exists j. split; [done|]. unfold heavy. rewrite Hs. cbn [mbind option_bind]. by rewrite (proj2 (Nat.ltb_lt _ _) Hheld). }
    destruct (max_by heavier _) as [[n k]|] eqn:Em.
    + injection Hv as ->. pose proof (heaviest_greatest _ _ Em _ Hin) as Hmax.
      apply max_by_In, list_elem_of_omap in Em as Hik. destruct Hik as (k & Hk' & Hh). unfold heavy in Hh.
      destruct (en_source (it_entry k)) as [s'|] eqn:Es; [|done]. cbn [mbind option_bind] in Hh. case_match; [|done]. injection Hh as <- <-.
      by exists s'.
    + exfalso. unfold max_by, reduce in Em. destruct (omap _ _); [by apply elem_of_nil in Hin|done].
Qed.

Lemma consumed_verdict fuel : forall now c id p o c1,
  wait_auth_loop fuel now c id p true = (Some o, c1) -> o <> AuthMissing ->
  exists e, rc_heap c1 !! p = Some e /\ en_ssh_verdict_consumed e = true /\ is_Some (en_outcome e).
Proof.
  induction fuel as [|f IH]; intros now c id p o c1; cbn [wait_auth_loop]; [done|]. destruct (rc_heap c !! p) as [e|] eqn:He; [|done].
  destruct (en_outcome e) as [v|] eqn:Eo.
  - destruct (en_ssh_verdict_consumed e); [by intros [= <- _]|]. intros [= _ <-] _. cbn [set_heap set_store rc_heap].
    rewrite list_lookup_alter, decide_True, He by done. cbn. eexists. split; [done|]. cbn. by rewrite Eo.
  - destruct (_ <=? _); [|done]. apply IH.
Qed.

(** The verdict on an SSH check is used once: when a client has collected it,
    every later collection, whatever happened in between, finds nothing. *)
Theorem ssh_verdict_once fuel now c id p o c1 c2 fuel' now' id' :
  cache_reachable c -> wait_auth_loop fuel now c id p true = (Some o, c1) -> o <> AuthMissing -> cache_steps c1 c2 ->
  wait_auth_loop (S fuel') now' c2 id' p true = (Some AuthMissing, c2).
Proof.
  intros Hok%reachable_ok Hw Ho Hs. destruct (consumed_verdict _ _ _ _ _ _ _ Hw Ho) as (e & He & Hc & [v Hv]).
  assert (cache_ok c1) as Hok1. { pose proof (wait_auth_loop_good fuel now c id p true Hok) as [Hok1 _]. by rewrite Hw in Hok1. }
  destruct (cache_steps_good _ _ Hs Hok1) as [_ Hev]. destruct (ev_entry _ _ Hev p e He) as (e' & He' & Hk & _ & _ & Hcc).
  cbn [wait_auth_loop]. by rewrite He', (Hk v Hv), (Hcc Hc).
Qed.
End cache.

(** ** Examples *)

Module RegistrationExamples.

(** Records and confirmations are their own key and id here. *)
Definition Cache : Type := @RegistrationCache string unit string.
Definition reach : Cache -> Prop := cache_reachable (fun o : string => o).
Definition runs : Cache -> Cache -> Prop := cache_steps (fun o : string => o).

Definition cache0 : Cache := with_tuning_and_max_entries 10 20 2.
Definition cache1 : Cache := insert_from_source 0 cache0 "a" "ra" None (Some (SourceV4 1)).
Definition cache2 : Cache := insert_from_source 1 cache1 "b" "rb" None (Some (SourceV4 2)).
Definition cache3 : Cache := insert_from_source 2 cache2 "c" "rc" None (Some (SourceV4 2)).
Definition cache4 : Cache := (approve_without_node 3 cache3 "c").2.

Lemma run1 : runs cache0 cache1.
Proof. eapply StepsCons; [apply StepsRefl|apply StepInsert]. Qed.

Lemma run3 : runs cache0 cache3.
Proof. eapply StepsCons; [eapply StepsCons; [apply run1|apply StepInsert]|apply StepInsert]. Qed.

Lemma reach1 : reach cache1.
Proof. exists 10, 20, 2%nat. apply run1. Qed.

Lemma reach3 : reach cache3.
Proof. exists 10, 20, 2%nat. apply run3. Qed.

Lemma run13 : runs cache1 cache3.
Proof. eapply StepsCons; [eapply StepsCons; [apply StepsRefl|apply StepInsert]|apply StepInsert]. Qed.

(** The flooding source lost its own entry, the other kept its one. *)
Example flooder_pays : map it_id (items (rc_heap cache3) (rc_inner cache3)) = ["a"; "c"]%string.
Proof. vm_compute. reflexivity. Qed.

Lemma registration_cache_bounded_witness : (size (rc_inner cache3) <= 2)%nat /\ rc_max_entries cache3 = 2%nat.
Proof. split; [apply (registration_cache_bounded _ cache3 reach3)|reflexivity]. Defined.

Lemma first_verdict_wins_witness :
  exists e', rc_heap (reject 4 cache4 "c" "late").2 !! 2%nat = Some e' /\ en_outcome e' = Some ApprovedWithoutNode.
Proof.
  assert (reach cache4) as Hr.
  { exists 10, 20, 2%nat. eapply StepsCons; [apply run3|apply StepApprove]. }
  assert (runs cache4 (reject 4 cache4 "c" "late").2) as Hs by (eapply StepsCons; [apply StepsRefl|apply StepReject]).
  assert (en_outcome <$> rc_heap cache4 !! 2%nat = Some (Some ApprovedWithoutNode)) as E by (vm_compute; reflexivity).
  destruct (rc_heap cache4 !! 2%nat) as [e|] eqn:He; [|discriminate E]. injection E as Ho.
  exact (first_verdict_wins _ cache4 _ 2%nat e ApprovedWithoutNode Hr Hs He Ho).
Defined.

Lemma waiters_are_told_witness : exists o c', wait_loop 2 100 cache3 "a" 0 = (Some o, c').
Proof.
  assert (rc_inner cache1 !! "a"%string = Some 0%nat) as Hid by (vm_compute; reflexivity).
  assert (en_expires_at <$> rc_heap cache3 !! 0%nat = Some 10) as E by (vm_compute; reflexivity).
  destruct (rc_heap cache3 !! 0%nat) as [e|] eqn:He; [|discriminate E]. injection E as Hx.
  apply (waiters_are_told _ cache1 cache3 "a" 0%nat e 100 reach1 Hid run13 He). lia.
Defined.

Lemma source_isolation_witness :
  rc_inner (insert_from_source 1 cache1 "b" "rb" None (Some (SourceV4 2))) !! "a"%string = Some 0%nat.
Proof.
  destruct (source_isolation _ 1 cache1 "b" "rb" None (SourceV4 2) reach1) as [_ Hi].
  assert (rc_inner cache1 !! "a"%string = Some 0%nat) as Hid by (vm_compute; reflexivity).
  assert ((fun e => (en_expires_at e, en_source e)) <$> rc_heap cache1 !! 0%nat = Some (10, Some (SourceV4 1))) as E by (vm_compute; reflexivity).
  destruct (rc_heap cache1 !! 0%nat) as [e|] eqn:He; [|discriminate E]. injection E as Hx Hs.
  apply (Hi ltac:(vm_compute; lia) "a"%string 0%nat e); [discriminate|exact Hid|exact He|lia|]. rewrite Hs. discriminate.
Defined.

Definition full : gmap string nat := <["c"%string := 2%nat]> (rc_inner cache2).

Lemma eviction_fair_witness :
  match eviction_victim 2 (rc_heap cache3) full 2 with Some i => it_ptr i <> 2%nat | None => False end.
Proof.
  assert (it_ptr <$> eviction_victim 2 (rc_heap cache3) full 2 = Some 1%nat) as Ev by (vm_compute; reflexivity).
  destruct (eviction_victim 2 (rc_heap cache3) full 2) as [i|] eqn:E; [|discriminate Ev].
  apply (eviction_fair 2 (rc_heap cache3) full 2 i E).
Defined.

Definition checks0 : Cache := insert_ssh_check 0 cache0 "s" (mkBinding 1 2 "root").
Definition checks1 : Cache := (approve_without_node 1 checks0 "s").2.

Lemma ssh_verdict_once_witness :
  (wait_auth_loop 1 2 checks1 "s" 0 true).1 = Some AuthAccepted /\
  (wait_auth_loop 1 3 (wait_auth_loop 1 2 checks1 "s" 0 true).2 "s" 0 true).1 = Some AuthMissing.
Proof.
  assert (reach checks1) as Hr.
  { exists 10, 20, 2%nat. eapply StepsCons; [eapply StepsCons; [apply StepsRefl|apply StepSshCheck]|apply StepApprove]. }
  assert ((wait_auth_loop 1 2 checks1 "s" 0 true).1 = Some AuthAccepted) as E by (vm_compute; reflexivity).
  split; [exact E|]. destruct (wait_auth_loop 1 2 checks1 "s" 0 true) as [o c1] eqn:Ew. cbn [fst snd] in *. subst o.
  by rewrite (ssh_verdict_once _ 1 2 checks1 "s" 0%nat AuthAccepted c1 c1 0 3 "s" Hr Ew ltac:(discriminate) (StepsRefl _ c1)).
Defined.
End RegistrationExamples.
