(* ===== verification/MapChange.v ===== *)
(** * MapChange: what a map stream must tell a node (headscale-api/src/tailscale_wire/mod.rs)

    Every change of the server's state is announced to the map streams as a
    [MapChange]: why it happened, whom it concerns and which parts of the map it
    touches.  Changes a stream has not sent yet are merged.  A [MapChange::merge] of
    changes for different targets panics: [None]. *)

From stdpp Require Import base list strings sets.
From Stdlib Require Import ZArith Lia.
From S2P Require Import Prelude.

Open Scope Z_scope.

Inductive MapChangeReason :=
| FullUpdate | NodeAdded | NodeUpdated | TagUpdate | PeersRemoved | NodeOnline | NodeOffline | SubnetRouterOnline | SubnetRouterOffline
| UserRemoved | SelfUpdate | EndpointDerpUpdate | NodeKeyRotated | KeyExpiry | PolicyChange | DnsConfigUpdate | DerpMapUpdate | PingNode
| FullSelfUpdate | RouteUpdate | RouteHealthUpdate.

#[export] Instance MapChangeReason_eq_dec : EqDecision MapChangeReason.
Proof. solve_decision. Defined.

Definition as_str (r : MapChangeReason) : string :=
  match r with
  | FullUpdate => "full update"
  | NodeAdded => "node added"
  | NodeUpdated => "node updated"
  | TagUpdate => "tag update"
  | PeersRemoved => "peers removed"
  | NodeOnline => "node online"
  | NodeOffline => "node offline"
  | SubnetRouterOnline => "subnet router online"
  | SubnetRouterOffline => "subnet router offline"
  | UserRemoved => "user removed"
  | SelfUpdate => "self update"
  | EndpointDerpUpdate => "endpoint/DERP update"
  | NodeKeyRotated => "node key rotated (relogin)"
  | KeyExpiry => "key expiry"
  | PolicyChange => "policy change"
  | DnsConfigUpdate => "DNS config update"
  | DerpMapUpdate => "DERP map update"
  | PingNode => "ping node"
  | FullSelfUpdate => "full self update"
  | RouteUpdate => "route update"
  | RouteHealthUpdate => "route health update"
  end.

Record MapChangeContent := mkContent {
  include_self : bool;
  include_derp_map : bool;
  include_dns : bool;
  include_domain : bool;
  include_policy : bool;
  peers_changed : list Z;
  peers_removed : list Z;
  peer_patches : list Z;
  send_all_peers : bool;
  requires_runtime_peer_computation : bool;
  ping_request : bool;
}.

Definition content_default : MapChangeContent := mkContent false false false false false [] [] [] false false false.

Definition content_full : MapChangeContent := mkContent true true true true true [] [] [] true false false.

Definition send_all : MapChangeContent := mkContent false false false false false [] [] [] true false false.

Definition for_reason (reason : MapChangeReason) (node_id : option Z) : MapChangeContent :=
  match reason with
  | FullUpdate | FullSelfUpdate | SubnetRouterOnline | SubnetRouterOffline | UserRemoved => content_full
  | SelfUpdate => mkContent true false true false false [] [] [] false false false
  | NodeAdded | NodeUpdated | RouteUpdate =>
      match node_id with Some n => mkContent false false false false false [n] [] [] false false false | None => send_all end
  | PeersRemoved => match node_id with Some n => mkContent false false false false false [] [n] [] false false false | None => send_all end
  | NodeOnline | NodeOffline | EndpointDerpUpdate | NodeKeyRotated | KeyExpiry =>
      match node_id with Some n => mkContent false false false false false [] [] [n] false false false | None => send_all end
  | PolicyChange | TagUpdate | RouteHealthUpdate => mkContent false false false false true [] [] [] false true false
  | DnsConfigUpdate => mkContent false false true false false [] [] [] false false false
  | DerpMapUpdate => mkContent false true false false false [] [] [] false false false
  | PingNode => mkContent false false false false false [] [] [] false false true
  end.

Definition append_unique {A} `{EqDecision A} (target values : list A) : list A :=
  fold_left (fun target value => if bool_decide (value ∈ target) then target else target ++ [value]) values target.

Definition content_merge (a b : MapChangeContent) : MapChangeContent :=
  mkContent (include_self a || include_self b) (include_derp_map a || include_derp_map b) (include_dns a || include_dns b)
    (include_domain a || include_domain b) (include_policy a || include_policy b)
    (append_unique (peers_changed a) (peers_changed b)) (append_unique (peers_removed a) (peers_removed b))
    (append_unique (peer_patches a) (peer_patches b)) (send_all_peers a || send_all_peers b)
    (requires_runtime_peer_computation a || requires_runtime_peer_computation b) (ping_request a || ping_request b).

Record MapChange := mkChange {
  generation : Z;
  reasons : list MapChangeReason;
  target_node_id : option Z;
  origin_node_id : option Z;
  content : MapChangeContent;
}.

Record PendingMapChange := mkPending {
  pm_reason : MapChangeReason;
  pm_companion_reasons : list MapChangeReason;
  pm_target_node_id : option Z;
  pm_origin_node_id : option Z;
  pm_content : MapChangeContent;
}.

Definition with_content_node (reason : MapChangeReason) (target origin node : option Z) : PendingMapChange :=
  mkPending reason [] target origin (for_reason reason node).

Definition pending_new (reason : MapChangeReason) (target origin : option Z) : PendingMapChange :=
  with_content_node reason target origin (match target with Some t => Some t | None => origin end).

Definition pending_global (reason : MapChangeReason) : PendingMapChange := pending_new reason None None.
Definition pending_target (reason : MapChangeReason) (node_id : Z) : PendingMapChange := pending_new reason (Some node_id) None.
Definition pending_origin (reason : MapChangeReason) (node_id : Z) : PendingMapChange := pending_new reason None (Some node_id).
Definition broadcast_peer (reason : MapChangeReason) (node_id : Z) : PendingMapChange := with_content_node reason None None (Some node_id).

Definition with_companion_reason (p : PendingMapChange) (reason : MapChangeReason) : PendingMapChange :=
  if negb (bool_decide (pm_reason p = reason)) && negb (bool_decide (reason ∈ pm_companion_reasons p))
  then mkPending (pm_reason p) (pm_companion_reasons p ++ [reason]) (pm_target_node_id p) (pm_origin_node_id p)
         (content_merge (pm_content p) (for_reason reason None))
  else p.

Definition lifecycle_peer (reason : MapChangeReason) (node_id : Z) (recompute : bool) : PendingMapChange :=
  let change := with_content_node reason None (if bool_decide (reason = NodeAdded) then Some node_id else None) (Some node_id) in
  if recompute then with_companion_reason change PolicyChange else change.

Definition pending_peers_removed (node_ids : list Z) : PendingMapChange :=
  mkPending PeersRemoved [] None None (mkContent false false false false false [] node_ids [] false false false).

Definition into_change (p : PendingMapChange) (generation : Z) : MapChange :=
  mkChange generation (append_unique [pm_reason p] (pm_companion_reasons p)) (pm_target_node_id p) (pm_origin_node_id p) (pm_content p).

Definition full_update (generation : Z) : MapChange := into_change (pending_global FullUpdate) generation.
Definition full_self (generation node_id : Z) : MapChange := into_change (pending_target FullSelfUpdate node_id) generation.

Definition reason_label (c : MapChange) : string := match reasons c with r :: _ => as_str r | [] => "unknown" end.
Definition reason_labels (c : MapChange) : list string := map as_str (reasons c).

Definition is_empty (c : MapChange) : bool :=
  let x := content c in
  negb (include_self x) && negb (include_derp_map x) && negb (include_dns x) && negb (include_domain x) && negb (include_policy x)
  && negb (send_all_peers x) && negb (requires_runtime_peer_computation x) && negb (ping_request x)
  && is_nil (peers_changed x) && is_nil (peers_removed x) && is_nil (peer_patches x).

Definition is_self_only (c : MapChange) : bool :=
  let x := content c in
  bool_decide (is_Some (target_node_id c)) && include_self x && negb (send_all_peers x)
  && is_nil (peers_changed x) && is_nil (peers_removed x) && is_nil (peer_patches x).

Definition is_full (c : MapChange) : bool :=
  let x := content c in
  send_all_peers x && include_self x && include_derp_map x && include_dns x && include_domain x && include_policy x.

Definition change_type (c : MapChange) : string :=
  let x := content c in
  if is_full c then "full"
  else if is_self_only c then "self"
  else if requires_runtime_peer_computation x then "policy"
  else if negb (is_nil (peer_patches x)) && is_nil (peers_changed x) && is_nil (peers_removed x) && negb (send_all_peers x) then "patch"
  else if negb (is_nil (peers_changed x)) || negb (is_nil (peers_removed x)) || send_all_peers x then "peers"
  else if include_derp_map x || include_dns x || include_domain x || include_policy x then "config"
  else if ping_request x then "ping"
  else "unknown".

Definition should_send_to_node (c : MapChange) (node_id : Z) : bool :=
  match target_node_id c with None => true | Some t => t =? node_id end.

(** [MapChange::merge]; the assertion fails for two different targets. *)
Definition merge (a b : MapChange) : option MapChange :=
  match target_node_id a, target_node_id b with
  | Some l, Some r => if l =? r then Some tt else None
  | _, _ => Some tt
  end ≫= fun _ =>
  Some (mkChange (Z.max (generation a) (generation b)) (append_unique (reasons a) (reasons b))
          (match target_node_id a with Some t => Some t | None => target_node_id b end)
          (match origin_node_id a with Some o => Some o | None => origin_node_id b end)
          (content_merge (content a) (content b))).

(** ** What a change says *)

(** The parts of the map a change touches, as facts. *)
Inductive fact := TheSelf | TheDerpMap | TheDns | TheDomain | ThePolicy | AllPeers | PeerComputation | APing | Changed (n : Z) | Gone (n : Z) | Patched (n : Z).

Definition says (x : MapChangeContent) (f : fact) : Prop :=
  match f with
  | TheSelf => include_self x = true
  | TheDerpMap => include_derp_map x = true
  | TheDns => include_dns x = true
  | TheDomain => include_domain x = true
  | ThePolicy => include_policy x = true
  | AllPeers => send_all_peers x = true
  | PeerComputation => requires_runtime_peer_computation x = true
  | APing => ping_request x = true
  | Changed n => n ∈ peers_changed x
  | Gone n => n ∈ peers_removed x
  | Patched n => n ∈ peer_patches x
  end.

Lemma elem_of_append_unique {A} `{EqDecision A} (values : list A) : forall target x, x ∈ append_unique target values <-> x ∈ target \/ x ∈ values.
Proof.
  unfold append_unique. induction values as [|v values IH]; intros target x; cbn [fold_left]; [by rewrite elem_of_nil; tauto|].
  rewrite IH, elem_of_cons. case_bool_decide; [naive_solver|]. rewrite elem_of_app, list_elem_of_singleton. tauto.
Qed.

Lemma append_unique_NoDup {A} `{EqDecision A} (values : list A) : forall target, NoDup target -> NoDup (append_unique target values).
Proof.
  unfold append_unique. induction values as [|v values IH]; intros target Hnd; cbn [fold_left]; [done|]. apply IH. case_bool_decide; [done|].
  apply NoDup_app. split_and!; [done| |apply NoDup_singleton]. by intros x Hx ->%list_elem_of_singleton.
Qed.

Lemma says_merge a b f : says (content_merge a b) f <-> says a f \/ says b f.
Proof. destruct f; cbn; rewrite ?orb_true_iff, ?elem_of_append_unique; done. Qed.

Lemma merge_exact_parts a b c :
  merge a b = Some c -> (forall f, says (content c) f <-> says (content a) f \/ says (content b) f) /\ (forall r, r ∈ reasons c <-> r ∈ reasons a \/ r ∈ reasons b).
Proof.
  unfold merge. intros ([] & _ & [= <-])%bind_Some. cbn.
  split; [apply says_merge|apply elem_of_append_unique].
Qed.

(** Merging loses nothing and invents nothing: two changes merge exactly when
    their targets do not differ, and then the merged change says what either says,
    gives the reasons of both without repeating one, reaches exactly the nodes both
    reach and carries the later generation. *)
Theorem merge_exact a b :
  (merge a b = None <-> exists s t, target_node_id a = Some s /\ target_node_id b = Some t /\ s <> t) /\
  forall c, merge a b = Some c ->
    (forall f, says (content c) f <-> says (content a) f \/ says (content b) f) /\
    (forall r, r ∈ reasons c <-> r ∈ reasons a \/ r ∈ reasons b) /\ (NoDup (reasons a) -> NoDup (reasons c)) /\
    (forall n, should_send_to_node c n = should_send_to_node a n && should_send_to_node b n) /\
    generation c = Z.max (generation a) (generation b).
Proof.
  unfold merge, should_send_to_node. destruct (target_node_id a) as [s|] eqn:Ea, (target_node_id b) as [t|] eqn:Eb.
  2-4: split; [split; [done|naive_solver]|]; cbn [mbind option_bind]; intros c [= <-]; cbn; split_and!;
    [apply says_merge|apply elem_of_append_unique|apply append_unique_NoDup|..|done]; intros n; rewrite ?Ea, ?Eb, ?andb_true_r; done.
  destruct (Z.eqb_spec s t) as [-> |Hne]; cbn [mbind option_bind].
  - split; [split; [done|naive_solver]|]. intros c [= <-]. cbn. split_and!; [apply says_merge|apply elem_of_append_unique|apply append_unique_NoDup| |done].
    intros n. by rewrite andb_diag.
  - split; [|done]. split; [eauto|done].
Qed.

Lemma is_nil_true {A} (l : list A) : is_nil l = true <-> l = [].
Proof. by destruct l. Qed.

(** A change is empty exactly when it says nothing. *)
Lemma is_empty_spec c : is_empty c = true <-> forall f, ~ says (content c) f.
Proof.
  unfold is_empty. rewrite !andb_true_iff, !negb_true_iff, !is_nil_true. split.
  - intros ((((((((((? & ?) & ?) & ?) & ?) & ?) & ?) & ?) & Hch) & Hgo) & Hpa) f. destruct f; cbn; try congruence; rewrite ?Hch, ?Hgo, ?Hpa; apply not_elem_of_nil.
  - intros Hno. assert (forall l : list Z, (forall n, ~ n ∈ l) -> l = []) as Hnil.
    { intros [|n l] Hl; [done|]. destruct (Hl n). apply list_elem_of_here. }
    split_and!; try (apply not_true_iff_false); [apply (Hno TheSelf)|apply (Hno TheDerpMap)|apply (Hno TheDns)|apply (Hno TheDomain)|apply (Hno ThePolicy)
      |apply (Hno AllPeers)|apply (Hno PeerComputation)|apply (Hno APing)|apply Hnil; intros n; apply (Hno (Changed n))
      |apply Hnil; intros n; apply (Hno (Gone n))|apply Hnil; intros n; apply (Hno (Patched n))].
Qed.

(** No announcement is lost on the way: every change the server announces, for any
    reason, target and origin, with or without a companion, says something, and keeps
    saying it and its reason however many changes are merged after it. *)
Theorem announced_changes_survive reason target origin node gen later c :
  foldr (fun b acc => a ← acc; merge a b) (Some (into_change (with_content_node reason target origin node) gen)) later = Some c ->
  is_empty c = false /\ reason ∈ reasons c /\ forall f, says (for_reason reason node) f -> says (content c) f.
Proof.
  assert (exists f, says (for_reason reason node) f) as [f0 Hf0].
  { destruct reason; cbn; try (by exists TheSelf); try (by exists ThePolicy); try (by exists TheDns); try (by exists TheDerpMap); try (by exists APing);
      destruct node as [n|]; cbn; try (by exists AllPeers);
      first [by exists (Changed n); apply list_elem_of_here|by exists (Gone n); apply list_elem_of_here|by exists (Patched n); apply list_elem_of_here]. }
  intros Hc. assert (reason ∈ reasons c /\ forall f, says (for_reason reason node) f -> says (content c) f) as [Hr Hf].
  { revert c Hc. induction later as [|b later IH]; intros c; cbn [foldr].
    - intros [= <-]. cbn. split; [apply list_elem_of_here|done].
    - destruct (foldr _ _ later) as [a|] eqn:Ea; [|done]. cbn [mbind option_bind]. intros Hm. destruct (IH a eq_refl) as [Hra Hfa].
      destruct (merge_exact_parts a b c Hm) as [Hs Hrs]. split; [apply Hrs; auto|]. intros f Hf. apply Hs. auto. }
  split_and!; [|done..]. apply not_true_iff_false. intros He. apply is_empty_spec with (f := f0) in He. auto.
Qed.

(** ** Examples *)

Module MapChangeExamples.

(** A key expiry of node 7, then a DERP map update, then a ping of node 3. *)
Definition expiry : MapChange := into_change (with_content_node KeyExpiry None None (Some 7)) 1.
Definition later : list MapChange := [into_change (pending_target PingNode 3) 3; into_change (pending_global DerpMapUpdate) 2].

Lemma announced_changes_survive_witness :
  match foldr (fun b acc => a ← acc; merge a b) (Some expiry) later with
  | Some c => is_empty c = false /\ KeyExpiry ∈ reasons c /\ 7 ∈ peer_patches (content c)
  | None => False
  end.
Proof.
  destruct (foldr _ _ _) as [c|] eqn:E; [|vm_compute in E; discriminate E].
  destruct (announced_changes_survive KeyExpiry None None (Some 7) 1 later c E) as (He & Hr & Hf).
  split; [exact He|]. split; [exact Hr|]. apply (Hf (Patched 7)). apply list_elem_of_here.
Defined.

Example two_targets : merge (full_self 1 7) (full_self 2 8) = None.
Proof. reflexivity. Qed.
End MapChangeExamples.
