(* ===== verification/Pings.v ===== *)
(** * Pings: pings of nodes over the map stream (headscale-api/src/tailscale_wire/mod.rs)

    A caller registers a ping under an unguessable id, queues a request for the node,
    and the node's callback with the id completes it.  The random source gives the
    bytes of the ids, one draw after the other; a oneshot channel is a number, what
    has been sent on it is in [pt_responses]; what has been sent on the watch channel
    is the list [pt_published].  Instants are integers. *)

From stdpp Require Import base list gmap strings sets.
From Stdlib Require Import ZArith Lia Ascii.
From S2P Require Import Prelude Text.

Open Scope Z_scope.

Record PingRequest := mkPingRequest {
  pr_url : string;
  pr_url_is_noise : bool;
  pr_log : bool;
  pr_types : string;
  pr_ip : string;
  pr_payload : string;
}.

Record PingCompletion := mkCompletion { pc_node_id : Z; pc_latency : Z }.

Record PendingPing := mkPendingPing { pp_node_id : Z; pp_start_time : Z; pp_response_tx : nat }.

Record PingTracker := mkPingTracker {
  pt_pending : gmap string PendingPing;
  pt_outbound : gmap Z (list PingRequest);
  pt_generation : Z;
  pt_published : list Z;
  pt_channels : nat;
  pt_responses : gmap nat Z;
}.

Definition PingTracker_new : PingTracker := mkPingTracker ∅ ∅ 0 [] 0 ∅.

Definition PING_ID_URLSAFE : string := "ABCDEFGHIJKLMNOPQRSTUVWXYZabcdefghijklmnopqrstuvwxyz0123456789_-".

Definition new_ping_id (raw : list Z) : string :=
  String.string_of_list_ascii (omap (fun b => String.get (Z.to_nat (Z.land b 63)) PING_ID_URLSAFE) raw).

(** The loop of [register] over the draws of the random source; [None] when all of
    them named pings that are pending. *)
Fixpoint register (now : Z) (t : PingTracker) (node_id : Z) (draws : list (list Z)) : option (string * nat * PingTracker) :=
  match draws with
  | [] => None
  | raw :: rest =>
      let ping_id := new_ping_id raw in
      match pt_pending t !! ping_id with
      | Some _ => register now t node_id rest
      | None => Some (ping_id, pt_channels t,
                  mkPingTracker (<[ping_id := mkPendingPing node_id now (pt_channels t)]> (pt_pending t)) (pt_outbound t) (pt_generation t)
                    (pt_published t) (S (pt_channels t)) (pt_responses t))
      end
  end.

Definition bump_ping_generation (t : PingTracker) : PingTracker :=
  let g := wrapping_add 64 (pt_generation t) 1 in
  mkPingTracker (pt_pending t) (pt_outbound t) g (pt_published t ++ [g]) (pt_channels t) (pt_responses t).

Definition set_queues (t : PingTracker) (outbound : gmap Z (list PingRequest)) : PingTracker :=
  mkPingTracker (pt_pending t) outbound (pt_generation t) (pt_published t) (pt_channels t) (pt_responses t).

Definition enqueue (t : PingTracker) (node_id : Z) (request : PingRequest) : PingTracker :=
  bump_ping_generation (set_queues t (<[node_id := default [] (pt_outbound t !! node_id) ++ [request]]> (pt_outbound t))).

Definition ping_request_matches_id (request : PingRequest) (ping_id : string) : bool :=
  match split_first "?" (pr_url request) with
  | None => false
  | Some (_, query) =>
      existsb (fun part => match split_first "=" part with
                           | Some (key, value) => bool_decide (key = "id"%string) && bool_decide (value = ping_id)
                           | None => false
                           end) (split_on "&" query)
  end.

Definition unmatched (ping_id : string) (queue : list PingRequest) : list PingRequest :=
  List.filter (fun r => negb (ping_request_matches_id r ping_id)) queue.

(** [BTreeMap::retain]: queues lose the requests of the ping, empty queues go. *)
Definition remove_queued_ping_request (t : PingTracker) (ping_id : string) : bool * PingTracker :=
  (existsb (fun kq => negb (length (unmatched ping_id kq.2) =? length kq.2)%nat) (map_to_list (pt_outbound t)),
   set_queues t (omap (fun queue => match unmatched ping_id queue with [] => None | q => Some q end) (pt_outbound t))).

Definition drop_queued (t : PingTracker) (ping_id : string) : bool * PingTracker :=
  let '(removed, t) := remove_queued_ping_request t ping_id in (removed, if removed then bump_ping_generation t else t).

Definition drop_pending (t : PingTracker) (ping_id : string) : PingTracker :=
  mkPingTracker (delete ping_id (pt_pending t)) (pt_outbound t) (pt_generation t) (pt_published t) (pt_channels t) (pt_responses t).

Definition respond (t : PingTracker) (tx : nat) (latency : Z) : PingTracker :=
  mkPingTracker (pt_pending t) (pt_outbound t) (pt_generation t) (pt_published t) (pt_channels t) (<[tx := latency]> (pt_responses t)).

Definition complete (now : Z) (t : PingTracker) (ping_id : string) : option PingCompletion * PingTracker :=
  match pt_pending t !! ping_id with
  | None => (None, t)
  | Some pending =>
      let t := (drop_queued (drop_pending t ping_id) ping_id).2 in
      let latency := Z.max 0 (now - pp_start_time pending) in
      (Some (mkCompletion (pp_node_id pending) latency), respond t (pp_response_tx pending) latency)
  end.

Definition cancel (t : PingTracker) (ping_id : string) : bool * PingTracker :=
  let removed_pending := bool_decide (is_Some (pt_pending t !! ping_id)) in
  let '(removed_queued, t) := drop_queued (drop_pending t ping_id) ping_id in
  (removed_pending || removed_queued, t).

Definition pending_len (t : PingTracker) : nat := size (pt_pending t).

Definition queued_len (t : PingTracker) : nat := foldr (fun kq n => (length kq.2 + n)%nat) 0%nat (map_to_list (pt_outbound t)).

Definition pop_next_for_node (t : PingTracker) (node_id : Z) : option PingRequest * PingTracker :=
  match pt_outbound t !! node_id with
  | None => (None, t)
  | Some queue =>
      match tail queue with
      | [] => (head queue, set_queues t (delete node_id (pt_outbound t)))
      | rest => (head queue, bump_ping_generation (set_queues t (<[node_id := rest]> (pt_outbound t))))
      end
  end.

(** [trim_end_matches('/')] *)
Fixpoint trim_slashes (s : string) : string :=
  match s with
  | EmptyString => EmptyString
  | String c t => match trim_slashes t with
                  | EmptyString => if Ascii.eqb c "/" then EmptyString else String c EmptyString
                  | t' => String c t'
                  end
  end.

Definition ping_response_url (public_control_url : option string) (ping_id : string) : string :=
  match public_control_url with
  | Some url => if bool_decide (url = ""%string) then ("/machine/ping-response?id=" ++ ping_id)%string
                else (trim_slashes url ++ "/machine/ping-response?id=" ++ ping_id)%string
  | None => ("/machine/ping-response?id=" ++ ping_id)%string
  end.

(** The request [dispatch_ping_request] queues. *)
Definition ping_request_for (public_control_url : option string) (ping_id : string) (log url_is_noise : bool) : PingRequest :=
  mkPingRequest (ping_response_url public_control_url ping_id) url_is_noise log "" "" "".

Definition dispatch_ping_request (t : PingTracker) (public_control_url : option string) (node_id : Z) (ping_id : string) (log url_is_noise : bool)
  : PingRequest * PingTracker :=
  let request := ping_request_for public_control_url ping_id log url_is_noise in (request, enqueue t node_id request).

(** ** Histories *)

Inductive ping_step : PingTracker -> PingTracker -> Prop :=
| PingRegister now t n draws id tx t' : register now t n draws = Some (id, tx, t') -> ping_step t t'
| PingEnqueue t n r : ping_step t (enqueue t n r)
| PingComplete now t id : ping_step t (complete now t id).2
| PingCancel t id : ping_step t (cancel t id).2
| PingPop t n : ping_step t (pop_next_for_node t n).2.

Inductive ping_reachable : PingTracker -> Prop :=
| PingStart : ping_reachable PingTracker_new
| PingMore t t' : ping_reachable t -> ping_step t t' -> ping_reachable t'.

(** ** Callbacks find their ping *)

Lemma str_app_assoc a b c : ((a ++ b) ++ c = a ++ (b ++ c))%string.
Proof. induction a as [|d a IH]; [done|]. rewrite !str_app_cons. by rewrite IH. Qed.

Lemma trim_slashes_char c s : has_char c s = false -> has_char c (trim_slashes s) = false.
Proof.
  induction s as [|d s IH]; [done|]. cbn [has_char trim_slashes]. intros [Hd Hs]%orb_false_iff. specialize (IH Hs).
  destruct (trim_slashes s) eqn:Et; [destruct (Ascii.eqb d "/")|]; [done|by apply orb_false_iff..].
Qed.

(** The ids are made of characters that a query keeps. *)
Lemma new_ping_id_plain raw : has_char "&" (new_ping_id raw) = false.
Proof.
  unfold new_ping_id. assert (forall n c, String.get n PING_ID_URLSAFE = Some c -> Ascii.eqb "&" c = false) as Htable.
  { intros n c Hg. do 64 (destruct n as [|n]; [injection Hg as <-; reflexivity|]). destruct n; discriminate Hg. }
  induction raw as [|b raw IH]; [done|]. cbn [omap list_omap]. destruct (String.get _ _) as [c|] eqn:Ec; [|done].
  apply orb_false_iff. split; [by eapply Htable|exact IH].
Qed.

Lemma query_matches_id head url_is_noise log id id' :
  has_char "?" head = false -> has_char "&" id = false ->
  ping_request_matches_id (mkPingRequest (head ++ "?" ++ "id=" ++ id) url_is_noise log "" "" "") id' = true <-> id' = id.
Proof.
  intros Hh Hid. unfold ping_request_matches_id. cbn [pr_url]. change ("?" ++ "id=" ++ id)%string with (String "?" ("id=" ++ id)).
  rewrite split_first_app by done. rewrite split_on_none by (by rewrite has_char_app, Hid).
  cbn [existsb]. rewrite orb_false_r. change ("id=" ++ id)%string with ("id" ++ String "=" id)%string. rewrite split_first_app by done.
  rewrite andb_true_iff, !bool_decide_eq_true. naive_solver.
Qed.

(** The callback a node is asked to make names its ping and no other: for every
    control URL without a query and every id the tracker draws, the queued request
    matches an id exactly when it is the one it was made for. *)
Theorem dispatched_ping_matches public_control_url raw log url_is_noise id' :
  (forall url, public_control_url = Some url -> has_char "?" url = false) ->
  ping_request_matches_id (ping_request_for public_control_url (new_ping_id raw) log url_is_noise) id' = true <-> id' = new_ping_id raw.
Proof.
  intros Hurl. unfold ping_request_for, ping_response_url.
  assert (forall head, has_char "?" head = false ->
    ping_request_matches_id (mkPingRequest (head ++ "/machine/ping-response?id=" ++ new_ping_id raw) url_is_noise log "" "" "") id' = true
    <-> id' = new_ping_id raw) as Hm.
  { intros head Hh. rewrite <-(query_matches_id (head ++ "/machine/ping-response") url_is_noise log (new_ping_id raw) id').
    - by rewrite (str_app_assoc head).
    - rewrite has_char_app, Hh. done.
    - apply new_ping_id_plain. }
  destruct public_control_url as [url|]; [case_bool_decide|]; [apply (Hm ""%string); done| |apply (Hm ""%string); done].
  apply Hm, trim_slashes_char. auto.
Qed.

(** ** One answer per ping *)

(** Queues are not empty, and the channel of a pending ping is its own and unused. *)
Record pings_ok (t : PingTracker) : Prop := mkPingsOk {
  po_queues : forall n q, pt_outbound t !! n = Some q -> q <> [];
  po_fresh : forall tx, is_Some (pt_responses t !! tx) -> (tx < pt_channels t)%nat;
  po_pending : forall id p, pt_pending t !! id = Some p -> (pp_response_tx p < pt_channels t)%nat /\ pt_responses t !! pp_response_tx p = None;
  po_distinct : forall id id' p p', pt_pending t !! id = Some p -> pt_pending t !! id' = Some p' -> pp_response_tx p = pp_response_tx p' -> id = id';
}.

Lemma pings_ok_same t t' :
  pt_pending t' = pt_pending t -> pt_channels t' = pt_channels t -> pt_responses t' = pt_responses t ->
  (forall n q, pt_outbound t' !! n = Some q -> q <> []) -> pings_ok t -> pings_ok t'.
Proof. intros Ep Ec Er Hq [_ ? ? ?]. split; rewrite ?Ep, ?Ec, ?Er; done. Qed.

Lemma drop_pending_ok t id : pings_ok t -> pings_ok (drop_pending t id).
Proof.
  intros [? ? Hp Hd]. split; cbn; [done..| |].
  - intros i p [_ ?]%lookup_delete_Some. eauto.
  - intros i j p p' [_ ?]%lookup_delete_Some [_ ?]%lookup_delete_Some. eauto.
Qed.

(** The queues after the requests of a ping are gone. *)
Lemma drop_queued_spec t id :
  pt_pending (drop_queued t id).2 = pt_pending t /\ pt_channels (drop_queued t id).2 = pt_channels t /\ pt_responses (drop_queued t id).2 = pt_responses t /\
  forall n, pt_outbound (drop_queued t id).2 !! n = (pt_outbound t !! n ≫= fun q => match unmatched id q with [] => None | q' => Some q' end).
Proof.
  unfold drop_queued, remove_queued_ping_request. destruct (existsb _ _); cbn; (split_and!; [done..|]); intros n; by rewrite lookup_omap.
Qed.

Lemma drop_queued_ok t id : pings_ok t -> pings_ok (drop_queued t id).2.
Proof.
  destruct (drop_queued_spec t id) as (Ep & Ec & Er & Hq). apply pings_ok_same; [done..|]. intros n q. rewrite Hq.
  intros (q0 & _ & Hu)%bind_Some. by destruct (unmatched id q0) eqn:E; simplify_eq.
Qed.

Lemma ping_step_ok t t' : ping_step t t' -> pings_ok t -> pings_ok t'.
Proof.
  destruct 1 as [now t n draws id tx t' Hr|t n r|now t id|t id|t n]; intros Hok.
  - induction draws as [|raw draws IH]; cbn [register] in Hr; [done|]. destruct (pt_pending t !! new_ping_id raw) eqn:Ep; [auto|]. injection Hr as <- <- <-.
    destruct Hok as [Hq Hf Hp Hd]. split; cbn; [done| | |].
    + intros tx Htx%Hf. lia.
    + intros i p [[_ <-]|[_ Hi]]%lookup_insert_Some; cbn.
      * split; [lia|]. destruct (pt_responses t !! pt_channels t) eqn:E; [|done]. specialize (Hf _ (mk_is_Some _ _ E)). lia.
      * destruct (Hp _ _ Hi). split; [lia|done].
    + intros i j p p' [[<- <-]|[_ Hi]]%lookup_insert_Some [[<- <-]|[_ Hj]]%lookup_insert_Some; cbn; [done| | |eauto].
      * destruct (Hp _ _ Hj). lia.
      * destruct (Hp _ _ Hi). lia.
  - apply (pings_ok_same t); [done..| |done]. cbn. intros n' q [[_ <-]|[_ Hq]]%lookup_insert_Some; [by destruct (default _ _)|by eapply po_queues].
  - unfold complete. destruct (pt_pending t !! id) as [p|] eqn:Ep; [|done]. cbn [snd].
    assert (pt_pending t !! id = Some p -> pings_ok (drop_queued (drop_pending t id) id).2) as Hdrop by (intros _; by apply drop_queued_ok, drop_pending_ok).
    specialize (Hdrop Ep). destruct (drop_queued_spec (drop_pending t id) id) as (Epn & Ecn & Ern & _). destruct Hdrop as [Hq Hf Hp Hd].
    destruct (po_pending _ Hok _ _ Ep) as [Hlt _]. split; cbn [respond pt_pending pt_outbound pt_channels pt_responses]; [done| |rewrite Epn, Ern, Ecn; cbn|exact Hd].
    + intros tx. rewrite Ecn, Ern. cbn [drop_pending pt_channels pt_responses]. intros Htx. destruct (decide (tx = pp_response_tx p)) as [-> |Hne]; [done|].
      rewrite lookup_insert_ne in Htx by done. by apply (po_fresh _ Hok).
    + intros i p' [Hne Hi]%lookup_delete_Some. destruct (po_pending _ Hok _ _ Hi) as [? Hno]. split; [done|]. rewrite lookup_insert_ne; [done|].
      intros Heq. apply Hne. by apply (po_distinct _ Hok _ _ _ _ Ep Hi).
  - unfold cancel. pose proof (drop_queued_ok _ id (drop_pending_ok t id Hok)) as Hd. by destruct (drop_queued (drop_pending t id) id).
  - unfold pop_next_for_node. destruct (pt_outbound t !! n) as [q|] eqn:Eq; [|done]. destruct (tail q) as [|r rest] eqn:Et; cbn [snd].
    + apply (pings_ok_same t); [done..| |done]. cbn. intros n' q' [_ Hq']%lookup_delete_Some. by eapply po_queues.
    + apply (pings_ok_same t); [done..| |done]. cbn. intros n' q' [[_ <-]|[_ Hq']]%lookup_insert_Some; [done|by eapply po_queues].
Qed.

Lemma ping_reachable_ok t : ping_reachable t -> pings_ok t.
Proof. induction 1 as [|t t' _ IH Hs]; [split; cbn; try done|by eapply ping_step_ok]. by intros tx [? ?]. Qed.

(** A callback completes its ping and only that: in every reachable state the
    callback of a pending ping answers its waiter, who had no answer before, with the
    time since registration, forgets the ping, so that a second callback finds
    nothing, takes its requests out of every queue and leaves the other pings, their
    waiters and the order of the other requests as they were; a callback with an id
    that is not pending changes nothing. *)
Theorem ping_completion_exact now t id :
  ping_reachable t ->
  (pt_pending t !! id = None -> complete now t id = (None, t)) /\
  forall p, pt_pending t !! id = Some p -> let t' := (complete now t id).2 in
    (complete now t id).1 = Some (mkCompletion (pp_node_id p) (Z.max 0 (now - pp_start_time p))) /\
    pt_responses t !! pp_response_tx p = None /\
    pt_responses t' = <[pp_response_tx p := Z.max 0 (now - pp_start_time p)]> (pt_responses t) /\
    pt_pending t' = delete id (pt_pending t) /\ (forall later, (complete later t' id).1 = None) /\
    forall n, default [] (pt_outbound t' !! n) = unmatched id (default [] (pt_outbound t !! n)).
Proof.
  intros Hok%ping_reachable_ok. split; [unfold complete; by intros ->|]. intros p Ep. cbn zeta.
  destruct (drop_queued_spec (drop_pending t id) id) as (Epn & _ & Ern & Hq).
  assert (pt_pending (complete now t id).2 = delete id (pt_pending t)) as Epd by (unfold complete; by rewrite Ep).
  split_and!.
  - unfold complete. by rewrite Ep.
  - by apply (po_pending _ Hok id).
  - unfold complete. rewrite Ep. cbn [snd respond pt_responses]. by rewrite Ern.
  - done.
  - intros later. unfold complete at 1. by rewrite Epd, lookup_delete, decide_True.
  - intros n. unfold complete. rewrite Ep. cbn [snd respond pt_outbound]. rewrite Hq. cbn [drop_pending pt_outbound].
    destruct (pt_outbound t !! n) as [q|]; [|done]. cbn [mbind option_bind]. change (default [] (Some q)) with q. by destruct (unmatched id q).
Qed.

(** ** Examples *)

Module PingExamples.

Definition raw1 : list Z := [0; 1; 2; 3; 4; 5; 6; 7; 8; 9; 10; 11; 12; 13; 62; 63].

Definition tracker1 : PingTracker := match register 5 PingTracker_new 7 [raw1] with Some (_, _, t) => t | None => PingTracker_new end.
Definition tracker2 : PingTracker := (dispatch_ping_request tracker1 (Some "https://control.example/"%string) 7 (new_ping_id raw1) true false).2.

Lemma dispatched_ping_matches_witness :
  pr_url (ping_request_for (Some "https://control.example/"%string) (new_ping_id raw1) true false)
    = "https://control.example/machine/ping-response?id=ABCDEFGHIJKLMN_-"%string /\
  ping_request_matches_id (ping_request_for (Some "https://control.example/"%string) (new_ping_id raw1) true false) (new_ping_id raw1) = true.
Proof.
  split; [vm_compute; reflexivity|]. apply dispatched_ping_matches; [|reflexivity]. intros url [= <-]. vm_compute. reflexivity.
Defined.

Lemma ping_completion_exact_witness :
  (complete 9 tracker2 "ABCDEFGHIJKLMN_-").1 = Some (mkCompletion 7 4) /\ (complete 10 (complete 9 tracker2 "ABCDEFGHIJKLMN_-").2 "ABCDEFGHIJKLMN_-").1 = None.
Proof.
  assert (ping_reachable tracker2) as Hr.
  { eapply PingMore; [eapply PingMore; [apply PingStart|]|apply PingEnqueue]. by eapply (PingRegister 5 _ 7 [raw1]). }
  destruct (ping_completion_exact 9 tracker2 "ABCDEFGHIJKLMN_-" Hr) as [_ Hc].
  assert (pt_pending tracker2 !! "ABCDEFGHIJKLMN_-"%string = Some (mkPendingPing 7 5 0)) as Ep by (vm_compute; reflexivity).
  destruct (Hc _ Ep) as (E1 & _ & _ & _ & E2 & _). split; [exact E1|apply E2].
Defined.
End PingExamples.
