(* ===== verification/IpAlloc.v ===== *)
(** * IpAlloc: the tailnet addresses of nodes (headscale-cli/src/server.rs)

    The allocator of the server gives every node an address of each configured
    prefix, in sequence or at random, skipping those in use and those Tailscale
    reserves.  Addresses are integers below 2^128, the set of used ones a [gset].  The
    operations hold one lock each and are steps here.  The random source is the list
    of its answers; an outer [None] is a source that has not answered enough yet or
    the end of the fuel, which bounds the search by the addresses it can skip. *)

From stdpp Require Import base list gmap strings sets.
From Stdlib Require Import ZArith Lia.
From S2P Require Import Prelude Bytes Net GoNetip.

Open Scope Z_scope.
Open Scope rust_scope.

(** ** Data *)

Inductive IpAllocationStrategy := Sequential | Random.

Inductive AllocError := Exhausted | Internal (message : string).

Record IpFamilyAllocator := mkFamily { fa_network : Z; fa_end : Z; fa_prev : Z; fa_used : gset Z }.

Record CidrIpAllocator := mkAllocator {
  ca_ipv4 : option IpFamilyAllocator;
  ca_ipv6 : option IpFamilyAllocator;
  ca_strategy : IpAllocationStrategy;
}.

Inductive AllocConfigError := BadCidr (e : NetipError) | WrongFamily (cidr : string) | NoPrefix | BadStoredAddress (e : NetipError).

Definition IpFamilyAllocator_new (network end_ : Z) : IpFamilyAllocator := mkFamily network end_ network {[network; end_]}.

Definition set_used (f : IpFamilyAllocator) (used : gset Z) : IpFamilyAllocator := mkFamily (fa_network f) (fa_end f) (fa_prev f) used.

Definition take_address (f : IpFamilyAllocator) (candidate : Z) : IpFamilyAllocator :=
  mkFamily (fa_network f) (fa_end f) candidate ({[candidate]} ∪ fa_used f).

(** ** Reserved addresses *)

Definition QUAD100 : Z := 0x64646464.
Definition CHROME_START : Z := 0x64735C00.
Definition CHROME_END : Z := 0x64735DFF.
Definition MAGIC_V6 : Z := 0xfd7a115ca1e000000000000000000053.

Definition is_tailscale_reserved_ipv4 (ip : Z) : bool := (ip =? QUAD100) || ((CHROME_START <=? ip) && (ip <=? CHROME_END)).
Definition is_tailscale_reserved_ipv6 (ip : Z) : bool := ip =? MAGIC_V6.

(** ** Allocation *)

Definition is_free (f : IpFamilyAllocator) (reserved : Z -> bool) (candidate : Z) : bool :=
  negb (bool_decide (candidate ∈ fa_used f)) && negb (reserved candidate).

(** More than the reserved addresses of either family; a search skips only these and
    the used ones. *)
Definition RESERVED_BOUND : nat := 520.

Definition search_fuel (f : IpFamilyAllocator) : nat := S (size (fa_used f) + RESERVED_BOUND).

Fixpoint sequential_loop (fuel : nat) (f : IpFamilyAllocator) (reserved : Z -> bool) (candidate : Z)
  : option (result Z AllocError * IpFamilyAllocator) :=
  match fuel with
  | O => None
  | S n =>
      if candidate <=? fa_end f then
        if is_free f reserved candidate then Some (Ok candidate, take_address f candidate)
        else match checked_add 128 candidate 1 with
             | None => Some (Err Exhausted, f)
             | Some next => sequential_loop n f reserved next
             end
      else Some (Err Exhausted, f)
  end.

Definition allocate_sequential (f : IpFamilyAllocator) (reserved : Z -> bool) : option (result Z AllocError * IpFamilyAllocator) :=
  match checked_add 128 (fa_prev f) 1 with
  | None => Some (Err Exhausted, f)
  | Some candidate => sequential_loop (search_fuel f) f reserved candidate
  end.

(** [bits] random bits, in [bytes] bytes of which the first is masked. *)
Definition sample_of (bits : Z) (random : list Z) : Z :=
  let bytes := (bits + 7) / 8 in
  match random with
  | [] => 0
  | b :: t => from_be_bytes (Z.land b (Z.shiftr 255 (bytes * 8 - bits)) :: t)
  end.

Fixpoint draw_below (bits bound start : Z) (draws : list (result (list Z) string)) : option (result Z AllocError) :=
  match draws with
  | [] => None
  | Err e :: _ => Some (Err (Internal ("getting random IP: generating random IP: " +:+ e)))
  | Ok random :: rest => let sample := sample_of bits random in if sample <? bound then Some (Ok (start + sample)) else draw_below bits bound start rest
  end.

Definition random_between (start end_ : Z) (draws : list (result (list Z) string)) : option (result Z AllocError) :=
  let bound := end_ - start in
  if bound <=? 1 then Some (Ok start) else draw_below (Z.log2 (bound - 1) + 1) bound start draws.

Definition next_cyclic (f : IpFamilyAllocator) (candidate : Z) : Z :=
  match checked_add 128 candidate 1 with
  | Some next => if next <=? fa_end f then next else fa_network f
  | None => fa_network f
  end.

Fixpoint random_loop (fuel : nat) (f : IpFamilyAllocator) (reserved : Z -> bool) (start candidate : Z)
  : option (result Z AllocError * IpFamilyAllocator) :=
  match fuel with
  | O => None
  | S n =>
      if is_free f reserved candidate then Some (Ok candidate, take_address f candidate)
      else let candidate := next_cyclic f candidate in
           if candidate =? start then Some (Err Exhausted, f) else random_loop n f reserved start candidate
  end.

Definition allocate_random (f : IpFamilyAllocator) (reserved : Z -> bool) (draws : list (result (list Z) string))
  : option (result Z AllocError * IpFamilyAllocator) :=
  r ← random_between (fa_network f) (fa_end f) draws;
  match r with
  | Err e => Some (Err e, f)
  | Ok start => random_loop (search_fuel f) f reserved start start
  end.

Definition family_allocate (strategy : IpAllocationStrategy) (f : IpFamilyAllocator) (reserved : Z -> bool) (draws : list (result (list Z) string))
  : option (result Z AllocError * IpFamilyAllocator) :=
  match strategy with Sequential => allocate_sequential f reserved | Random => allocate_random f reserved draws end.

(** ** Configuration *)

Definition mask_of (width prefix : Z) : Z :=
  if prefix =? 0 then 0 else Z.land (Z.shiftl (2 ^ width - 1) (width - prefix)) (2 ^ width - 1).

Definition family_of (width addr prefix : Z) : IpFamilyAllocator :=
  let mask := mask_of width prefix in
  let network := Z.land addr mask in
  IpFamilyAllocator_new network (Z.lor network (Z.lxor mask (2 ^ width - 1))).

Definition parse_ipv4_cidr (cidr : string) : result IpFamilyAllocator AllocConfigError :=
  match parse_prefix cidr with
  | Err e => Err (BadCidr e)
  | Ok (V4 addr, prefix) => Ok (family_of 32 addr prefix)
  | Ok (V6 _, _) => Err (WrongFamily cidr)
  end.

Definition parse_ipv6_cidr (cidr : string) : result IpFamilyAllocator AllocConfigError :=
  match parse_prefix cidr with
  | Err e => Err (BadCidr e)
  | Ok (V6 addr, prefix) => Ok (family_of 128 addr prefix)
  | Ok (V4 _, _) => Err (WrongFamily cidr)
  end.

Definition from_cidrs_with_strategy (cidr : string) (cidr_v6 : option string) (strategy : IpAllocationStrategy) : result CidrIpAllocator AllocConfigError :=
  let? ipv4 := (if bool_decide (cidr = ""%string) then Ok None else let? f := parse_ipv4_cidr cidr in Ok (Some f)) in
  let? ipv6 := (match cidr_v6 with
                | Some c => if bool_decide (c = ""%string) then Ok None else let? f := parse_ipv6_cidr c in Ok (Some f)
                | None => Ok None
                end) in
  match ipv4, ipv6 with None, None => Err NoPrefix | _, _ => Ok (mkAllocator ipv4 ipv6 strategy) end.

Definition mark_used (o : option IpFamilyAllocator) (value : Z) : option IpFamilyAllocator :=
  (fun f => set_used f ({[value]} ∪ fa_used f)) <$> o.

Definition seed_address (a : CidrIpAllocator) (text : string) : result CidrIpAllocator AllocConfigError :=
  match parse_addr text with
  | Err e => Err (BadStoredAddress e)
  | Ok (V4 v, _) => Ok (mkAllocator (mark_used (ca_ipv4 a) v) (ca_ipv6 a) (ca_strategy a))
  | Ok (V6 v, _) => Ok (mkAllocator (ca_ipv4 a) (mark_used (ca_ipv6 a) v) (ca_strategy a))
  end.

Fixpoint seed_all (a : CidrIpAllocator) (texts : list string) : result CidrIpAllocator AllocConfigError :=
  match texts with
  | [] => Ok a
  | text :: rest => let? a := seed_address a text in seed_all a rest
  end.

(** [rows] are the nullable columns of the stored nodes; IPv4 columns are read first. *)
Definition from_existing_node_ips (cidr : string) (cidr_v6 : option string) (strategy : IpAllocationStrategy)
    (rows : list (option string * option string)) : result CidrIpAllocator AllocConfigError :=
  let? a := from_cidrs_with_strategy cidr cidr_v6 strategy in seed_all a (omap fst rows ++ omap snd rows).

(** ** The interface the registration handlers use *)

Definition AllocError_text (e : AllocError) : string := match e with Exhausted => "failed to allocate IP" | Internal m => m end.

Definition ipv4_enabled (a : CidrIpAllocator) : bool := match ca_ipv4 a with Some _ => true | None => false end.
Definition ipv6_enabled (a : CidrIpAllocator) : bool := match ca_ipv6 a with Some _ => true | None => false end.

Definition release_from (o : option IpFamilyAllocator) (ip : option Z) : option IpFamilyAllocator :=
  match ip with Some v => (fun f => set_used f (fa_used f ∖ {[v]})) <$> o | None => o end.

Definition release_addresses (a : CidrIpAllocator) (ipv4 ipv6 : option Z) : CidrIpAllocator :=
  mkAllocator (release_from (ca_ipv4 a) ipv4) (release_from (ca_ipv6 a) ipv6) (ca_strategy a).

Definition allocate_ipv4_inner (a : CidrIpAllocator) (draws : list (result (list Z) string)) : option (result Z AllocError * CidrIpAllocator) :=
  match ca_ipv4 a with
  | None => Some (Err (Internal "IPv4 allocation requested while IPv4 is disabled"), a)
  | Some f => '(r, f) ← family_allocate (ca_strategy a) f is_tailscale_reserved_ipv4 draws; Some (r, mkAllocator (Some f) (ca_ipv6 a) (ca_strategy a))
  end.

Definition allocate_ipv6_inner (a : CidrIpAllocator) (draws : list (result (list Z) string)) : option (result (option Z) AllocError * CidrIpAllocator) :=
  match ca_ipv6 a with
  | None => Some (Ok None, a)
  | Some f => '(r, f) ← family_allocate (ca_strategy a) f is_tailscale_reserved_ipv6 draws;
              Some (result_map Some r, mkAllocator (ca_ipv4 a) (Some f) (ca_strategy a))
  end.

Definition result_map_err {A E F} (h : E -> F) (r : result A E) : result A F := match r with Ok a => Ok a | Err e => Err (h e) end.

Definition allocate_ipv4_part (a : CidrIpAllocator) (draws : list (result (list Z) string)) : option (result (option Z) string * CidrIpAllocator) :=
  match ca_ipv4 a with
  | Some _ => '(r, a) ← allocate_ipv4_inner a draws; Some (result_map Some (result_map_err (fun e => "allocating IPv4 address: " +:+ AllocError_text e) r), a)
  | None => Some (Ok None, a)
  end.

Definition allocate_addresses (a : CidrIpAllocator) (draws4 draws6 : list (result (list Z) string))
  : option (result (option Z * option Z) string * CidrIpAllocator) :=
  '(r4, a) ← allocate_ipv4_part a draws4;
  match r4 with
  | Err e => Some (Err e, a)
  | Ok ipv4 => '(r6, a) ← allocate_ipv6_inner a draws6;
               Some (result_map (pair ipv4) (result_map_err (fun e => "allocating IPv6 address: " +:+ AllocError_text e) r6), a)
  end.

(** ** A search finds a free address or there is none *)

Definition family_ok (f : IpFamilyAllocator) : Prop := 0 <= fa_network f <= fa_end f /\ fa_end f < 2 ^ 128 /\ fa_network f <= fa_prev f <= fa_end f.

Section search.
Variable f : IpFamilyAllocator.
Variable reserved : Z -> bool.
Variable R : gset Z.
Hypothesis reserved_in : forall x, reserved x = true -> x ∈ R.
Hypothesis reserved_few : (size R <= RESERVED_BOUND)%nat.
Hypothesis f_ok : family_ok f.

Let bad : gset Z := fa_used f ∪ R.

Lemma not_free_bad x : is_free f reserved x = false -> x ∈ bad.
Proof.
  unfold is_free, bad. rewrite andb_false_iff, !negb_false_iff, bool_decide_eq_true. intros [?|?%reserved_in]; set_solver.
Qed.

Lemma bad_size : (size bad < search_fuel f)%nat.
Proof.
  unfold bad, search_fuel. rewrite size_union_alt. assert (size (R ∖ fa_used f) <= size R)%nat as Hd by (apply subseteq_size; set_solver).
  lia.
Qed.

(** Leaving one bad address behind shrinks what is left to skip. *)
Lemma region_shrinks (P Q : Z -> Prop) `{!forall x, Decision (P x)} `{!forall x, Decision (Q x)} c :
  c ∈ bad -> P c -> ~ Q c -> (forall x, Q x -> P x) -> (size (filter Q bad) < size (filter P bad))%nat.
Proof. intros Hc HP HQ Himp. apply subset_size. split; [|intros Hs]; [set_solver|]. specialize (Hs c). set_solver. Qed.

Lemma sequential_loop_spec fuel : forall c, 0 <= c -> (size (filter (fun x => (c <= x)%Z) bad) < fuel)%nat ->
  exists r f', sequential_loop fuel f reserved c = Some (r, f') /\
  match r with
  | Ok x => c <= x <= fa_end f /\ is_free f reserved x = true /\ f' = take_address f x /\ forall y, c <= y < x -> is_free f reserved y = false
  | Err e => e = Exhausted /\ f' = f /\ forall y, c <= y <= fa_end f -> is_free f reserved y = false
  end.
Proof.
  induction fuel as [|fuel IH]; intros c Hc Hfuel; [lia|]. cbn [sequential_loop]. destruct (Z.leb_spec c (fa_end f)) as [Hle|Hgt].
  2: { eexists _, _. split; [done|]. split_and!; [done..|]. intros y Hy. lia. }
  destruct (is_free f reserved c) eqn:Ef. { eexists _, _. split; [done|]. split_and!; [lia|lia|done|done|]. intros y Hy. lia. }
  unfold checked_add. destruct f_ok as (_ & Hend & _). destruct (Z.leb_spec (c + 1) (u_max 128)) as [Hfit|Hover].
  - destruct (IH (c + 1)) as (r & f' & Er & Hr); [lia| |].
    { apply not_free_bad in Ef. pose proof (region_shrinks (fun x => (c <= x)%Z) (fun x => (c + 1 <= x)%Z) c Ef) as Hs. assert (size (filter (fun x => (c + 1 <= x)%Z) bad) < size (filter (fun x => (c <= x)%Z) bad))%nat; [apply Hs; [lia|lia|intros x; lia]|lia]. }
    exists r, f'. split; [done|]. destruct r as [x|e].
    + destruct Hr as (? & ? & ? & Hy). split_and!; [lia|lia|done|done|]. intros y Hcy. destruct (decide (y = c)) as [-> |]; [done|]. apply Hy. lia.
    + destruct Hr as (? & ? & Hy). split_and!; [done..|]. intros y Hcy. destruct (decide (y = c)) as [-> |]; [done|]. apply Hy. lia.
  - eexists _, _. split; [done|]. split_and!; [done..|]. intros y Hy. unfold u_max in Hover. assert (y = c) as -> by lia. done.
Qed.

Lemma next_cyclic_eq c : 0 <= c <= fa_end f -> next_cyclic f c = if c <? fa_end f then c + 1 else fa_network f.
Proof.
  intros Hc. destruct f_ok as (_ & Hend & _). unfold next_cyclic, checked_add, u_max.
  destruct (Z.leb_spec (c + 1) (2 ^ 128 - 1)), (Z.leb_spec (c + 1) (fa_end f)), (Z.ltb_spec c (fa_end f)); try done; lia.
Qed.

(** What the cyclic search still has to visit, and what it has visited. *)
Definition ahead (start c x : Z) : Prop := if decide (start <= c) then c <= x \/ x < start else c <= x < start.

#[export] Instance ahead_dec start c x : Decision (ahead start c x).
Proof. unfold ahead. case_decide; apply _. Defined.

Definition behind (start c y : Z) : Prop := fa_network f <= y <= fa_end f /\ ~ ahead start c y.

Lemma random_loop_spec start fuel : forall c,
  fa_network f <= start <= fa_end f -> fa_network f <= c <= fa_end f -> (size (filter (ahead start c) bad) < fuel)%nat ->
  (forall y, behind start c y -> is_free f reserved y = false) ->
  exists r f', random_loop fuel f reserved start c = Some (r, f') /\
  match r with
  | Ok x => fa_network f <= x <= fa_end f /\ is_free f reserved x = true /\ f' = take_address f x
  | Err e => e = Exhausted /\ f' = f /\ forall y, fa_network f <= y <= fa_end f -> is_free f reserved y = false
  end.
Proof.
  induction fuel as [|fuel IH]; intros c Hs Hc Hfuel Hbehind; [lia|]. cbn [random_loop].
  destruct (is_free f reserved c) eqn:Ef; [by eexists _, _|]. destruct f_ok as ([Hn _] & _ & _). rewrite next_cyclic_eq by lia.
  set (c' := if c <? fa_end f then c + 1 else fa_network f). assert (fa_network f <= c' <= fa_end f) as Hc' by (unfold c'; destruct (Z.ltb_spec c (fa_end f)); lia).
  destruct (Z.eqb_spec c' start) as [Hwrap|Hon].
  - eexists _, _. split; [done|]. split_and!; [done..|]. intros y Hy. destruct (decide (y = c)) as [-> |Hne]; [done|].
    apply Hbehind. split; [done|]. clear Hfuel Hbehind. unfold ahead, c' in *. destruct (Z.ltb_spec c (fa_end f)); case_decide; lia.
  - apply IH; [done..| |].
    + apply not_free_bad in Ef. pose proof (region_shrinks (ahead start c) (ahead start c') c Ef) as Hsh.
      enough (size (filter (ahead start c') bad) < size (filter (ahead start c) bad))%nat by lia.
      apply Hsh; clear Hfuel Hsh Hbehind; unfold ahead, c' in *; destruct (Z.ltb_spec c (fa_end f)); repeat case_decide; try lia; intros x; lia.
    + intros y [Hy Hna]. destruct (decide (y = c)) as [-> |Hne]; [done|]. apply Hbehind. split; [done|]. intros Ha. apply Hna. revert Ha. clear Hfuel Hbehind Hna.
      unfold ahead, c' in *. destruct (Z.ltb_spec c (fa_end f)); repeat case_decide; lia.
Qed.
End search.

Definition reserved_v4 : gset Z := {[QUAD100]} ∪ list_to_set (seqZ CHROME_START 512).
Definition reserved_v6 : gset Z := {[MAGIC_V6]}.

Lemma reserved_v4_in x : is_tailscale_reserved_ipv4 x = true -> x ∈ reserved_v4.
Proof.
  unfold is_tailscale_reserved_ipv4, reserved_v4. rewrite orb_true_iff, andb_true_iff, Z.eqb_eq, !Z.leb_le. rewrite elem_of_union, elem_of_singleton, elem_of_list_to_set, elem_of_seqZ.
  unfold CHROME_START, CHROME_END. lia.
Qed.

Lemma reserved_v4_few : (size reserved_v4 <= RESERVED_BOUND)%nat.
Proof. apply Nat.leb_le. vm_compute. reflexivity. Qed.

Lemma reserved_v6_in x : is_tailscale_reserved_ipv6 x = true -> x ∈ reserved_v6.
Proof. unfold is_tailscale_reserved_ipv6, reserved_v6. rewrite Z.eqb_eq. set_solver. Qed.

Lemma reserved_v6_few : (size reserved_v6 <= RESERVED_BOUND)%nat.
Proof. unfold reserved_v6. rewrite size_singleton. unfold RESERVED_BOUND. lia. Qed.

(** The tests the two families use. *)
Definition family_test (reserved : Z -> bool) : Prop := reserved = is_tailscale_reserved_ipv4 \/ reserved = is_tailscale_reserved_ipv6.

Lemma family_test_few reserved : family_test reserved -> exists R : gset Z, (forall x, reserved x = true -> x ∈ R) /\ (size R <= RESERVED_BOUND)%nat.
Proof. intros [-> | ->]; [exists reserved_v4; exact (conj reserved_v4_in reserved_v4_few)|exists reserved_v6; exact (conj reserved_v6_in reserved_v6_few)]. Qed.

(** The random source gives bytes. *)
Definition draws_ok (draws : list (result (list Z) string)) : Prop := Forall (fun d => match d with Ok l => bytes_ok l | Err _ => True end) draws.

Lemma sample_of_nonneg bits random : bytes_ok random -> 0 <= sample_of bits random.
Proof.
  intros Hr. unfold sample_of. destruct random as [|b t]; [done|]. inversion Hr as [|? ? Hb Ht]; subst. rewrite from_be_bytes_cons.
  pose proof (from_be_bytes_range t Ht). unfold byte_ok in Hb. assert (0 <= Z.land b (Z.shiftr 255 ((bits + 7) / 8 * 8 - bits))) by (apply Z.land_nonneg; lia). nia.
Qed.

Lemma random_between_range start end_ draws s :
  start <= end_ -> draws_ok draws -> random_between start end_ draws = Some (Ok s) -> start <= s <= end_.
Proof.
  intros Hle Hd. unfold random_between. destruct (Z.leb_spec (end_ - start) 1); [intros [= <-]; lia|].
  induction Hd as [|d draws Hdr _ IH]; cbn [draw_below]; [done|]. destruct d as [l|e]; [|done].
  destruct (Z.ltb_spec (sample_of (Z.log2 (end_ - start - 1) + 1) l) (end_ - start)) as [Hlt|]; [|done]. intros [= <-].
  pose proof (sample_of_nonneg (Z.log2 (end_ - start - 1) + 1) l Hdr). lia.
Qed.

Lemma random_between_err start end_ draws e : random_between start end_ draws = Some (Err e) -> exists m, e = Internal m.
Proof.
  unfold random_between. destruct (_ <=? _); [done|]. induction draws as [|[l|m] draws IH]; cbn [draw_below]; [done| |intros [= <-]; eauto].
  destruct (_ <? _); [done|auto].
Qed.

Lemma sequential_spec f reserved :
  family_ok f -> family_test reserved ->
  exists r f', allocate_sequential f reserved = Some (r, f') /\
  match r with
  | Ok x => fa_prev f + 1 <= x <= fa_end f /\ is_free f reserved x = true /\ f' = take_address f x /\
            forall y, fa_prev f + 1 <= y < x -> is_free f reserved y = false
  | Err e => e = Exhausted /\ f' = f /\ forall y, fa_prev f + 1 <= y <= fa_end f -> is_free f reserved y = false
  end.
Proof.
  intros Hok (R & HR & Hfew)%family_test_few. unfold allocate_sequential, checked_add. pose proof Hok as (Hn & Hend & Hprev).
  destruct (Z.leb_spec (fa_prev f + 1) (u_max 128)) as [|Hover]; [|unfold u_max in Hover; eexists _, _; split; [done|]; split_and!; [done..|]; intros y Hy; lia].
  apply (sequential_loop_spec f reserved R HR Hfew Hok); [lia|]. pose proof (bad_size f reserved R HR Hfew Hok) as Hb.
  enough (size (filter (fun x => (fa_prev f + 1 <= x)%Z) (fa_used f ∪ R)) <= size (fa_used f ∪ R))%nat by lia. apply subseteq_size. intros x. rewrite elem_of_filter. by intros [_ ?].
Qed.

Lemma random_spec f reserved draws :
  family_ok f -> family_test reserved -> draws_ok draws -> is_Some (random_between (fa_network f) (fa_end f) draws) ->
  exists r f', allocate_random f reserved draws = Some (r, f') /\
  match r with
  | Ok x => fa_network f <= x <= fa_end f /\ is_free f reserved x = true /\ f' = take_address f x
  | Err Exhausted => f' = f /\ forall y, fa_network f <= y <= fa_end f -> is_free f reserved y = false
  | Err (Internal _) => f' = f
  end.
Proof.
  intros Hok (R & HR & Hfew)%family_test_few Hd [[s|e] Es]; unfold allocate_random; rewrite Es; cbn [mbind option_bind].
  - pose proof Hok as (Hn & _ & _). assert (fa_network f <= s <= fa_end f) as Hs by (eapply random_between_range; [|exact Hd|exact Es]; lia).
    destruct (random_loop_spec f reserved R HR Hfew Hok s (search_fuel f) s Hs Hs) as (r & f' & Er & Hr).
    + pose proof (bad_size f reserved R HR Hfew Hok) as Hb. enough (size (filter (ahead s s) (fa_used f ∪ R)) <= size (fa_used f ∪ R))%nat by lia.
      apply subseteq_size. intros x. rewrite elem_of_filter. by intros [_ ?].
    + intros y [Hy Hna]. exfalso. apply Hna. unfold ahead. rewrite decide_True by lia. lia.
    + exists r, f'. split; [done|]. destruct r as [x|e]; [done|]. by destruct Hr as (-> & Hr).
  - destruct (random_between_err _ _ _ _ Es) as [m ->]. by eexists _, _.
Qed.

(** An address is found exactly when there is one: searching in sequence takes the
    least free address above the last one given and fails only when there is none
    left; searching at random, once the source has answered, takes a free address of
    the prefix and fails only when the whole prefix is taken or the source failed.
    Free means neither used, which the first and the last address always are at the
    start, nor reserved; an address taken is used from then on, and a failure changes
    nothing.  The search always ends. *)
Theorem allocation_exact strategy f reserved draws :
  family_ok f -> family_test reserved -> draws_ok draws -> (strategy = Random -> is_Some (random_between (fa_network f) (fa_end f) draws)) ->
  exists r f', family_allocate strategy f reserved draws = Some (r, f') /\
  match r with
  | Ok x => fa_network f <= x <= fa_end f /\ is_free f reserved x = true /\ f' = take_address f x /\
            (strategy = Sequential -> fa_prev f < x /\ forall y, fa_prev f < y < x -> is_free f reserved y = false)
  | Err Exhausted => f' = f /\ match strategy with
                               | Sequential => forall y, fa_prev f < y <= fa_end f -> is_free f reserved y = false
                               | Random => forall y, fa_network f <= y <= fa_end f -> is_free f reserved y = false
                               end
  | Err (Internal _) => f' = f /\ strategy = Random
  end.
Proof.
  intros Hok Ht Hd Hr. destruct strategy; cbn [family_allocate].
  - destruct (sequential_spec f reserved Hok Ht) as (r & f' & Er & Hs). exists r, f'. split; [done|]. destruct r as [x|e].
    + destruct Hs as (Hx & ? & ? & Hy). destruct Hok as (? & ? & ?). split_and!; [lia|lia|done|done|]. intros _. split; [lia|]. intros y ?. apply Hy. lia.
    + destruct Hs as (-> & -> & Hy). split; [done|]. intros y ?. apply Hy. lia.
  - destruct (random_spec f reserved draws Hok Ht Hd (Hr eq_refl)) as (r & f' & Er & Hs). exists r, f'. split; [done|]. destruct r as [x|[|m]]; [|done|done].
    destruct Hs as (? & ? & ?). split_and!; [lia|lia|done|done|done].
Qed.

(** ** Histories *)

Lemma disjoint_add a b : Z.land a b = 0 -> a + b = Z.lor a b.
Proof. intros Hab. rewrite Z.add_nocarry_lxor by done. by apply Z.lxor_lor. Qed.

(** The complement of a mask within the width. *)
Lemma complement_mask w m : 0 <= w -> 0 <= m < 2 ^ w -> Z.land m (Z.lxor m (Z.ones w)) = 0 /\ m + Z.lxor m (Z.ones w) = Z.ones w.
Proof.
  intros Hw Hm. assert (Z.land m (Z.lxor m (Z.ones w)) = 0) as Hz.
  { apply Z.bits_inj'. intros i Hi. rewrite Z.land_spec, Z.lxor_spec, Z.bits_0. destruct (Z.lt_ge_cases i w) as [Hlt|Hge].
    - rewrite Z.ones_spec_low by lia. by destruct (Z.testbit m i).
    - rewrite <-(Z.mod_small m (2 ^ w)) by lia. rewrite Z.mod_pow2_bits_high by lia. done. }
  split; [done|]. rewrite Z.add_nocarry_lxor by done. by rewrite <-Z.lxor_assoc, Z.lxor_nilpotent, Z.lxor_0_l.
Qed.

Lemma family_of_ok width addr prefix : 0 <= width <= 128 -> 0 <= addr < 2 ^ width -> 0 <= prefix <= width -> family_ok (family_of width addr prefix).
Proof.
  intros Hw Ha Hp. unfold family_of, family_ok. cbn [IpFamilyAllocator_new fa_network fa_end fa_prev].
  assert (2 ^ width - 1 = Z.ones width) as -> by (rewrite Z.ones_equiv; lia). set (mask := mask_of width prefix).
  assert (0 < 2 ^ width) as Hpos by (apply Z.pow_pos_nonneg; lia). assert (0 <= mask < 2 ^ width) as Hm.
  { unfold mask, mask_of. destruct (prefix =? 0); [lia|]. replace (2 ^ width - 1) with (Z.ones width) by (rewrite Z.ones_equiv; lia).
    rewrite Z.land_ones by lia. by apply Z.mod_pos_bound. }
  destruct (complement_mask width mask ltac:(lia) Hm) as [Hz Hsum]. set (comp := Z.lxor mask (Z.ones width)) in *.
  assert (0 <= comp) as Hc by (apply Z.lxor_nonneg; rewrite Z.ones_equiv; lia). assert (0 <= Z.land addr mask) as Hn by (apply Z.land_nonneg; lia).
  assert (Z.land addr mask <= mask) as Hnm.
  { assert (Z.land addr mask + Z.ldiff mask addr = mask) as Hs.
    { rewrite disjoint_add; apply Z.bits_inj'; intros i Hi; rewrite ?Z.lor_spec, ?Z.land_spec, ?Z.ldiff_spec, ?Z.bits_0, ?Z.land_spec; by destruct (Z.testbit addr i), (Z.testbit mask i). }
    assert (0 <= Z.ldiff mask addr) by (apply Z.ldiff_nonneg; lia). lia. }
  rewrite <-(disjoint_add (Z.land addr mask) comp) by (by rewrite <-Z.land_assoc, Hz, Z.land_0_r).
  rewrite Z.ones_equiv in Hsum. assert (2 ^ width <= 2 ^ 128) by (apply Z.pow_le_mono_r; lia). lia.
Qed.

(** ** Uniqueness along a history *)

Definition v4_of (text : string) : option Z := match parse_addr text with Ok (V4 v, _) => Some v | _ => None end.
Definition v6_of (text : string) : option Z := match parse_addr text with Ok (V6 v, _) => Some v | _ => None end.

Definition row_texts (rows : list (option string * option string)) : list string := omap fst rows ++ omap snd rows.

Definition given (o : option Z) : gset Z := match o with Some v => {[v]} | None => ∅ end.

Section history.
Variable cidr : string.
Variable cidr_v6 : option string.
Variable strategy : IpAllocationStrategy.
Variable rows : list (option string * option string).

(** The allocator and the addresses the nodes of the tailnet hold, from the start of
    the server on: addresses are given out, alone or in pairs, and given back. *)
Inductive history : CidrIpAllocator -> gset Z -> gset Z -> Prop :=
| history_start a :
    from_existing_node_ips cidr cidr_v6 strategy rows = Ok a ->
    history a (list_to_set (omap v4_of (row_texts rows))) (list_to_set (omap v6_of (row_texts rows)))
| history_pair a held4 held6 draws4 draws6 r a' :
    history a held4 held6 -> draws_ok draws4 -> draws_ok draws6 -> allocate_addresses a draws4 draws6 = Some (r, a') ->
    history a' (match r with Ok (v4, _) => given v4 | Err _ => ∅ end ∪ held4) (match r with Ok (_, v6) => given v6 | Err _ => ∅ end ∪ held6)
| history_ipv4 a held4 held6 draws r a' :
    history a held4 held6 -> draws_ok draws -> allocate_ipv4_inner a draws = Some (r, a') ->
    history a' (match r with Ok v => {[v]} | Err _ => ∅ end ∪ held4) held6
| history_ipv6 a held4 held6 draws r a' :
    history a held4 held6 -> draws_ok draws -> allocate_ipv6_inner a draws = Some (r, a') ->
    history a' held4 (match r with Ok v => given v | Err _ => ∅ end ∪ held6)
| history_release a held4 held6 v4 v6 :
    history a held4 held6 -> history (release_addresses a v4 v6) (held4 ∖ given v4) (held6 ∖ given v6).
End history.

Lemma family_allocate_ok strategy f reserved draws r f' :
  family_ok f -> family_test reserved -> draws_ok draws -> family_allocate strategy f reserved draws = Some (r, f') ->
  match r with Ok x => fa_network f <= x <= fa_end f /\ is_free f reserved x = true /\ f' = take_address f x | Err _ => f' = f end.
Proof.
  intros Hok Ht Hd. destruct strategy; cbn [family_allocate]; intros E.
  - destruct (sequential_spec f reserved Hok Ht) as (r' & g & Er & Hs). rewrite E in Er. injection Er as <- <-. destruct Hok as (? & ? & ?).
    destruct r; [|tauto]. split_and!; [lia|lia|tauto|tauto].
  - destruct (random_spec f reserved draws Hok Ht Hd) as (r' & g & Er & Hs).
    { unfold allocate_random in E. destruct (random_between _ _ _); [eauto|done]. }
    rewrite E in Er. injection Er as <- <-. destruct r as [|[]]; tauto.
Qed.

Lemma take_address_ok f x : family_ok f -> fa_network f <= x <= fa_end f -> family_ok (take_address f x).
Proof. intros (? & ? & ?) Hx. unfold family_ok. cbn. lia. Qed.

(** A family at some point of a history: the range it was configured with, and every
    address held is used. *)
Definition family_inv (o0 o : option IpFamilyAllocator) (held : gset Z) : Prop :=
  match o0, o with
  | None, None => True
  | Some f0, Some f => fa_network f = fa_network f0 /\ fa_end f = fa_end f0 /\ family_ok f /\ held ⊆ fa_used f
  | _, _ => False
  end.

Lemma mark_used_inv o0 o held v : family_inv o0 o held -> family_inv o0 (mark_used o v) ({[v]} ∪ held).
Proof. destruct o0, o; cbn; try done. intros (? & ? & ? & ?). split_and!; [done..|set_solver]. Qed.

Lemma release_inv o0 o held v : family_inv o0 o held -> family_inv o0 (release_from o v) (held ∖ given v).
Proof.
  destruct o0, o, v; cbn [release_from given fmap option_fmap option_map family_inv set_used fa_network fa_end fa_used]; try done; intros (? & ? & ? & ?); split_and!; try done; set_solver.
Qed.

Lemma family_inv_mono o0 o held held' : family_inv o0 o held -> held' ⊆ held -> family_inv o0 o held'.
Proof. destruct o0, o; cbn; try done. intros (? & ? & ? & ?) ?. split_and!; [done..|set_solver]. Qed.

Lemma take_inv o0 f held x : family_inv o0 (Some f) held -> fa_network f <= x <= fa_end f -> family_inv o0 (Some (take_address f x)) ({[x]} ∪ held).
Proof. destruct o0; cbn; [|done]. intros (? & ? & ? & ?) Hx. split_and!; [done|done|by apply take_address_ok|set_solver]. Qed.

(** What a family may be asked to give next. *)
Definition fresh (o0 : option IpFamilyAllocator) (reserved : Z -> bool) (held : gset Z) (x : Z) : Prop :=
  x ∉ held /\ reserved x = false /\ exists f0, o0 = Some f0 /\ fa_network f0 <= x <= fa_end f0.

Lemma family_step strategy o0 f reserved draws held r f' :
  family_inv o0 (Some f) held -> family_test reserved -> draws_ok draws -> family_allocate strategy f reserved draws = Some (r, f') ->
  match r with
  | Ok x => fresh o0 reserved held x /\ family_inv o0 (Some f') ({[x]} ∪ held)
  | Err _ => family_inv o0 (Some f') held
  end.
Proof.
  intros Hinv Ht Hd E. destruct o0 as [f0|]; [|done]. pose proof Hinv as (Hn & He & Hok & Hh).
  pose proof (family_allocate_ok _ _ _ _ _ _ Hok Ht Hd E) as Hr. destruct r as [x|e]; [|by subst f'].
  destruct Hr as (Hx & Hfree & ->). split; [|by apply take_inv]. unfold is_free in Hfree. rewrite andb_true_iff, !negb_true_iff, bool_decide_eq_false in Hfree.
  destruct Hfree as [Hu Hres]. split_and!; [set_solver|done|]. exists f0. split; [done|]. lia.
Qed.

Definition alloc_inv (a0 a : CidrIpAllocator) (held4 held6 : gset Z) : Prop :=
  family_inv (ca_ipv4 a0) (ca_ipv4 a) held4 /\ family_inv (ca_ipv6 a0) (ca_ipv6 a) held6.

Lemma ipv4_step a0 a held4 held6 draws r a' :
  alloc_inv a0 a held4 held6 -> draws_ok draws -> allocate_ipv4_inner a draws = Some (r, a') ->
  match r with
  | Ok v => fresh (ca_ipv4 a0) is_tailscale_reserved_ipv4 held4 v /\ alloc_inv a0 a' ({[v]} ∪ held4) held6
  | Err _ => alloc_inv a0 a' held4 held6
  end.
Proof.
  intros [H4 H6] Hd. unfold allocate_ipv4_inner. destruct (ca_ipv4 a) as [f|] eqn:E4; [|intros [= <- <-]; split; [by rewrite E4|done]].
  destruct (family_allocate _ _ _ _) as [[r' f']|] eqn:Ef; [|done]. cbn [mbind option_bind]. intros [= <- <-].
  pose proof (family_step _ _ _ _ _ _ _ _ H4 (or_introl eq_refl) Hd Ef) as Hs. destruct r'; [destruct Hs as [Hf Hi]; split; [done|]|]; split; done.
Qed.

(** What one allocation may answer: nothing exactly when the family is not configured. *)
Definition given_fresh (o0 : option IpFamilyAllocator) (reserved : Z -> bool) (held : gset Z) (v : option Z) : Prop :=
  match v with Some x => fresh o0 reserved held x | None => o0 = None end.

Lemma ipv4_part_step a0 a held4 held6 draws r a' :
  alloc_inv a0 a held4 held6 -> draws_ok draws -> allocate_ipv4_part a draws = Some (r, a') ->
  match r with
  | Ok v => given_fresh (ca_ipv4 a0) is_tailscale_reserved_ipv4 held4 v /\ alloc_inv a0 a' (given v ∪ held4) held6
  | Err _ => alloc_inv a0 a' held4 held6
  end.
Proof.
  intros Hinv Hd. unfold allocate_ipv4_part. pose proof Hinv as [H4 H6]. destruct (ca_ipv4 a) as [f|] eqn:E4.
  - destruct (allocate_ipv4_inner a draws) as [[r' a1]|] eqn:Er; [|done]. cbn [mbind option_bind]. intros [= <- <-].
    pose proof (ipv4_step _ _ _ _ _ _ _ Hinv Hd Er) as Hs. by destruct r'.
  - intros [= <- <-]. cbn in H4. destruct (ca_ipv4 a0) eqn:E0; [done|]. split; [done|]. split; [|done]. by rewrite E4, E0.
Qed.

Lemma ipv6_step a0 a held4 held6 draws r a' :
  alloc_inv a0 a held4 held6 -> draws_ok draws -> allocate_ipv6_inner a draws = Some (r, a') ->
  match r with
  | Ok v => given_fresh (ca_ipv6 a0) is_tailscale_reserved_ipv6 held6 v /\ alloc_inv a0 a' held4 (given v ∪ held6)
  | Err _ => alloc_inv a0 a' held4 held6
  end.
Proof.
  intros [H4 H6] Hd. unfold allocate_ipv6_inner. destruct (ca_ipv6 a) as [f|] eqn:E6.
  - destruct (family_allocate _ _ _ _) as [[r' f']|] eqn:Ef; [|done]. cbn [mbind option_bind]. intros [= <- <-].
    pose proof (family_step _ _ _ _ _ _ _ _ H6 (or_intror eq_refl) Hd Ef) as Hs. destruct r'; [|by split]. destruct Hs as [Hf Hi]. split; [done|by split].
  - intros [= <- <-]. cbn in H6. destruct (ca_ipv6 a0) eqn:E0; [done|]. split; [done|]. split; [done|]. by rewrite E6, E0.
Qed.

Lemma pair_step a0 a held4 held6 draws4 draws6 r a' :
  alloc_inv a0 a held4 held6 -> draws_ok draws4 -> draws_ok draws6 -> allocate_addresses a draws4 draws6 = Some (r, a') ->
  match r with
  | Ok (v4, v6) => given_fresh (ca_ipv4 a0) is_tailscale_reserved_ipv4 held4 v4 /\ given_fresh (ca_ipv6 a0) is_tailscale_reserved_ipv6 held6 v6 /\
                   alloc_inv a0 a' (given v4 ∪ held4) (given v6 ∪ held6)
  | Err _ => alloc_inv a0 a' held4 held6
  end.
Proof.
  intros Hinv Hd4 Hd6. unfold allocate_addresses. destruct (allocate_ipv4_part a draws4) as [[r4 a1]|] eqn:Er4; [|done].
  pose proof (ipv4_part_step _ _ _ _ _ _ _ Hinv Hd4 Er4) as Hs4. cbn [mbind option_bind]. destruct r4 as [v4|e4]; [|by intros [= <- <-]]. destruct Hs4 as [Hf4 Hinv1].
  destruct (allocate_ipv6_inner a1 draws6) as [[r6 a2]|] eqn:Er6; [|done]. pose proof (ipv6_step _ _ _ _ _ _ _ Hinv1 Hd6 Er6) as Hs6. cbn [mbind option_bind].
  destruct r6 as [v6|e6]; cbn [result_map result_map_err]; intros [= <- <-]; [destruct Hs6; by split_and!|].
  destruct Hs6 as [? ?]. split; [|done]. eapply family_inv_mono; [done|set_solver].
Qed.

Lemma seed_all_inv a0 texts : forall a b held4 held6, alloc_inv a0 a held4 held6 -> seed_all a texts = Ok b ->
  alloc_inv a0 b (list_to_set (omap v4_of texts) ∪ held4) (list_to_set (omap v6_of texts) ∪ held6).
Proof.
  induction texts as [|t texts IH]; intros a b held4 held6 Hinv; cbn [seed_all].
  - intros [= <-]. destruct Hinv as [H4 H6]. split; eapply family_inv_mono; try done; set_solver.
  - unfold seed_address. assert (v4_of t = match parse_addr t with Ok (V4 v, _) => Some v | _ => None end) as E4 by done. assert (v6_of t = match parse_addr t with Ok (V6 v, _) => Some v | _ => None end) as E6 by done.
    destruct (parse_addr t) as [[[v|v] z]|e]; cbn [result_bind]; [| |done]; intros Hb; destruct Hinv as [H4 H6].
    + eapply IH in Hb; [|split; [apply mark_used_inv, H4|apply H6]]. cbn [omap list_omap]. rewrite E4, E6. destruct Hb as [G4 G6].
      split; eapply family_inv_mono; try done; set_solver.
    + eapply IH in Hb; [|split; [apply H4|apply mark_used_inv, H6]]. cbn [omap list_omap]. rewrite E4, E6. destruct Hb as [G4 G6].
      split; eapply family_inv_mono; try done; set_solver.
Qed.

Lemma family_inv_start o : (forall f, o = Some f -> family_ok f) -> family_inv o o ∅.
Proof. intros Ho. destruct o as [f|]; [|done]. split_and!; [done|done|by apply Ho|set_solver]. Qed.

Lemma configured_ok cidr cidr_v6 strategy a : from_cidrs_with_strategy cidr cidr_v6 strategy = Ok a ->
  (forall f, ca_ipv4 a = Some f -> family_ok f) /\ (forall f, ca_ipv6 a = Some f -> family_ok f).
Proof.
  unfold from_cidrs_with_strategy. intros (o4 & E4 & (o6 & E6 & Ea)%result_bind_Ok)%result_bind_Ok.
  assert (forall f, o4 = Some f -> family_ok f) as H4.
  { intros f ->. case_bool_decide; [done|]. apply result_bind_Ok in E4 as (g & Eg & [= ->]). unfold parse_ipv4_cidr in Eg.
    destruct (parse_prefix cidr) as [[[v|v] p]|] eqn:Ep; [|done..]. injection Eg as <-. apply parse_prefix_ok in Ep as [Hv Hp]. unfold ip_ok, ip_width in Hv, Hp; cbn in Hv; apply family_of_ok; [lia|apply Hv|lia]. }
  assert (forall f, o6 = Some f -> family_ok f) as H6.
  { intros f ->. destruct cidr_v6 as [c|]; [|done]. case_bool_decide; [done|]. apply result_bind_Ok in E6 as (g & Eg & [= ->]). unfold parse_ipv6_cidr in Eg.
    destruct (parse_prefix c) as [[[v|v] p]|] eqn:Ep; [done| |done]. injection Eg as <-. apply parse_prefix_ok in Ep as [Hv Hp]. unfold ip_ok, ip_width in Hv, Hp; cbn in Hv; apply family_of_ok; [lia|apply Hv|lia]. }
  destruct o4, o6; injection Ea as <- || done; by split.
Qed.

Lemma history_inv cidr cidr_v6 strategy rows a0 a held4 held6 :
  from_cidrs_with_strategy cidr cidr_v6 strategy = Ok a0 -> history cidr cidr_v6 strategy rows a held4 held6 -> alloc_inv a0 a held4 held6.
Proof.
  intros E0. induction 1 as [a Ea|a held4 held6 draws4 draws6 r a' _ IH Hd4 Hd6 E|a held4 held6 draws r a' _ IH Hd E|a held4 held6 draws r a' _ IH Hd E|a held4 held6 v4 v6 _ IH].
  - unfold from_existing_node_ips in Ea. rewrite E0 in Ea. cbn [result_bind] in Ea. destruct (configured_ok _ _ _ _ E0) as [Hok4 Hok6].
    eapply (seed_all_inv a0 _ a0 _ ∅ ∅) in Ea; [|by split; apply family_inv_start]. rewrite !union_empty_r_L in Ea. exact Ea.
  - pose proof (pair_step _ _ _ _ _ _ _ _ IH Hd4 Hd6 E) as Hs. destruct r as [[v4 v6]|e]; [tauto|]. by rewrite !union_empty_l_L.
  - pose proof (ipv4_step _ _ _ _ _ _ _ IH Hd E) as Hs. destruct r as [v|e]; [tauto|]. by rewrite union_empty_l_L.
  - pose proof (ipv6_step _ _ _ _ _ _ _ IH Hd E) as Hs. destruct r as [v|e]; [tauto|]. by rewrite union_empty_l_L.
  - destruct IH. by split; apply release_inv.
Qed.

(** C26. No two nodes get the same address: whatever was stored when the server
    started, and in whatever order addresses were given out and given back since, a
    pair of addresses given to a node consists of addresses no node of the tailnet
    holds, within the configured prefixes and outside the ranges Tailscale keeps for
    itself; a part is missing exactly when its prefix is not configured. *)
Theorem allocated_addresses_unique cidr cidr_v6 strategy rows a0 a held4 held6 draws4 draws6 v4 v6 a' :
  from_cidrs_with_strategy cidr cidr_v6 strategy = Ok a0 -> history cidr cidr_v6 strategy rows a held4 held6 ->
  draws_ok draws4 -> draws_ok draws6 -> allocate_addresses a draws4 draws6 = Some (Ok (v4, v6), a') ->
  given_fresh (ca_ipv4 a0) is_tailscale_reserved_ipv4 held4 v4 /\ given_fresh (ca_ipv6 a0) is_tailscale_reserved_ipv6 held6 v6.
Proof.
  intros E0 Hh Hd4 Hd6 E. pose proof (pair_step _ _ _ _ _ _ _ _ (history_inv _ _ _ _ _ _ _ _ E0 Hh) Hd4 Hd6 E) as Hs. cbn in Hs. tauto.
Qed.

(** ** Examples *)

Module AllocExamples.

Definition small : IpFamilyAllocator := IpFamilyAllocator_new 0x64646460 0x64646467.

Lemma allocation_exact_witness : exists r f', family_allocate Random small is_tailscale_reserved_ipv4 [Ok [7]; Ok [4]] = Some (r, f') /\
  match r with
  | Ok x => fa_network small <= x <= fa_end small /\ is_free small is_tailscale_reserved_ipv4 x = true /\ f' = take_address small x /\
            (Random = Sequential -> fa_prev small < x /\ forall y, fa_prev small < y < x -> is_free small is_tailscale_reserved_ipv4 y = false)
  | Err Exhausted => f' = small /\ forall y, fa_network small <= y <= fa_end small -> is_free small is_tailscale_reserved_ipv4 y = false
  | Err (Internal _) => f' = small /\ Random = Random
  end.
Proof.
  apply (allocation_exact Random small is_tailscale_reserved_ipv4 [Ok [7]; Ok [4]]).
  - unfold family_ok, small. cbn [IpFamilyAllocator_new fa_network fa_end fa_prev]. lia.
  - left. reflexivity.
  - repeat constructor; unfold byte_ok; lia.
  - intros _. vm_compute. eauto.
Defined.

(** The first answer of the source is above the bound; the second lands on the
    reserved address and the search goes on to the next. *)
Example skips_reserved : fst <$> family_allocate Random small is_tailscale_reserved_ipv4 [Ok [7]; Ok [4]] = Some (Ok 0x64646465).
Proof. vm_compute. reflexivity. Qed.

Definition stored : list (option string * option string) := [(Some "10.0.0.1"%string, Some "fd00::1"%string); (Some "10.0.0.3"%string, None)].

Definition started : result CidrIpAllocator AllocConfigError := from_existing_node_ips "10.0.0.0/29" (Some "fd00::/126"%string) Sequential stored.

Example started_gives : (match started with Ok a => fst <$> allocate_addresses a [] [] | Err _ => None end) = Some (Ok (Some 0x0A000002, Some 0xfd000000000000000000000000000002)).
Proof. vm_compute. reflexivity. Qed.

(** A failure of the second family leaves the address of the first one used. *)
Example failed_pair_keeps_ipv4 :
  (match from_cidrs_with_strategy "10.0.0.0/29" (Some "fd00::/128"%string) Sequential with
   | Ok a => (fun p => (fst p, (fun f => bool_decide (0x0A000001 ∈ fa_used f)) <$> ca_ipv4 (snd p))) <$> allocate_addresses a [] []
   | Err _ => None
   end) = Some (Err "allocating IPv6 address: failed to allocate IP"%string, Some true).
Proof. vm_compute. reflexivity. Qed.

Lemma allocated_addresses_unique_witness : exists a0 held4 held6 v4 v6,
  (given_fresh (ca_ipv4 a0) is_tailscale_reserved_ipv4 held4 v4 /\ given_fresh (ca_ipv6 a0) is_tailscale_reserved_ipv6 held6 v6) /\ v4 = Some 0x0A000002.
Proof.
  destruct (from_cidrs_with_strategy "10.0.0.0/29" (Some "fd00::/126"%string) Sequential) as [a0|e] eqn:E0; [|exfalso; revert E0; vm_compute; discriminate].
  pose proof started_gives as Hg. destruct started as [a|e] eqn:Es; [|discriminate].
  destruct (allocate_addresses a [] []) as [[r a']|] eqn:Ea; [|discriminate]. cbn [fmap option_fmap option_map fst] in Hg. injection Hg as Hr. subst r.
  eexists a0, _, _, _, _. split; [|reflexivity].
  apply (allocated_addresses_unique _ _ _ _ _ _ _ _ _ _ _ _ _ E0 (history_start _ _ _ _ _ Es)) in Ea; [exact Ea|constructor|constructor].
Defined.

End AllocExamples.
