(* ===== verification/GivenName.v ===== *)
(** * GivenName: DNS labels of nodes
    (headscale-api-acl/src/go_dnsname.rs, headscale-api/src/tailscale_wire/wire.rs and mod.rs)

    Every node has a label under the tailnet's base domain.  It is derived from the
    hostname the client reports, cleaned to a DNS label and numbered until no other
    node has it, or set by an operator, who gets an error instead.  The error texts
    quote the label; here they are constructors.  The search for a free number has
    fuel for one more candidate than there are nodes, which is enough because the
    candidates differ ([auto_given_name_fresh]). *)

From stdpp Require Import base list gmap strings sets.
From Stdlib Require Import ZArith Lia Ascii.
From S2P Require Import Prelude Bytes Net GoNetip.

Open Scope Z_scope.
Open Scope rust_scope.

(** ** Labels *)

Definition is_ascii_alphanumeric (c : ascii) : bool :=
  ((48 <=? chr c) && (chr c <=? 57)) || ((65 <=? chr c) && (chr c <=? 90)) || ((97 <=? chr c) && (chr c <=? 122)).

Definition is_ascii_uppercase (c : ascii) : bool := (65 <=? chr c) && (chr c <=? 90).

Inductive LabelError :=
| EmptyLabel
| LabelTooLong (label : chars)
| BadStart (label : chars)
| BadEnd (label : chars)
| BadCharacter (label : chars) (c : ascii).

Inductive GivenNameError :=
| InvalidLabel (name : chars) (e : LabelError)
| NoGivenName
| NameTooLong (hostname : chars).

(** [bytes.get(1..len - 1)], which is nothing for a label of one byte. *)
Definition inner_bytes (l : chars) : chars := take (length l - 2) (drop 1 l).

Fixpoint first_bad (l : chars) : option ascii :=
  match l with
  | [] => None
  | c :: t => if negb (is_ascii_alphanumeric c) && negb (Ascii.eqb c "-") then Some c else first_bad t
  end.

Definition valid_label (label : chars) : result unit LabelError :=
  match label, last label with
  | first :: _, Some final =>
      if (63 <? length label)%nat then Err (LabelTooLong label)
      else if negb (is_ascii_alphanumeric first) then Err (BadStart label)
      else if negb (is_ascii_alphanumeric final) then Err (BadEnd label)
      else match first_bad (inner_bytes label) with Some c => Err (BadCharacter label c) | None => Ok tt end
  | _, _ => Err EmptyLabel
  end.

Definition valid_given_name_label (label : chars) : bool := match valid_label label with Ok _ => true | Err _ => false end.

Definition MAX_HOSTNAME_LENGTH : nat := 255.

Definition validate_fqdn (given_name base_domain : chars) : result unit GivenNameError :=
  match given_name with
  | [] => Err NoGivenName
  | _ =>
      let suffix := match base_domain with [] => 0%nat | _ => (length base_domain + 2)%nat end in
      if (MAX_HOSTNAME_LENGTH <? length given_name + suffix)%nat
      then Err (NameTooLong (match base_domain with [] => given_name | _ => given_name ++ to_chars "." ++ base_domain ++ to_chars "." end))
      else Ok tt
  end.

Definition validate_given_name (given_name base_domain : chars) : result unit GivenNameError :=
  match valid_label given_name with
  | Err e => Err (InvalidLabel given_name e)
  | Ok _ => validate_fqdn given_name base_domain
  end.

(** ** Names derived from hostnames *)

Fixpoint strip_suffix_chars (suffix l : chars) : option chars :=
  if decide (l = suffix) then Some []
  else match l with [] => None | c :: t => cons c <$> strip_suffix_chars suffix t end.

Definition trim_suffix (suffix : string) (l : chars) : chars := default l (strip_suffix_chars (to_chars suffix) l).

Definition trim_common_hostname_suffixes (hostname : chars) : chars :=
  trim_suffix ".lan" (trim_suffix ".localdomain" (trim_suffix ".local" hostname)).

Fixpoint skip_start (l : chars) : chars :=
  match l with [] => [] | c :: t => if is_ascii_alphanumeric c then l else skip_start t end.

(** The first 63 bytes without what is not alphanumeric at either end. *)
Definition label_window (bytes : chars) : chars := rev (skip_start (rev (skip_start (take 63 bytes)))).

Definition lower (c : ascii) : ascii := if is_ascii_uppercase c then ascii_of_N (N_of_ascii c + 32) else c.

Definition sanitize_byte (boundary : bool) (c : ascii) : option ascii :=
  if (Ascii.eqb c " " || Ascii.eqb c "." || Ascii.eqb c "@" || Ascii.eqb c "_") && negb boundary then Some "-"%char
  else if is_ascii_alphanumeric c then Some (lower c)
  else if Ascii.eqb c "-" then Some c
  else None.

Definition sanitize_window (window : chars) : chars :=
  omap (fun p => sanitize_byte ((p.1 =? 0)%nat || (p.1 =? length window - 1)%nat) p.2) (imap pair window).

Definition sanitize_hostname_for_given_name (hostname : chars) : chars :=
  sanitize_window (label_window (trim_common_hostname_suffixes hostname)).

Definition auto_given_name_base (hostname : chars) : chars :=
  match sanitize_hostname_for_given_name hostname with [] => to_chars "node" | s => s end.

Definition strip_prefix_chars (p l : chars) : option chars := if decide (take (length p) l = p) then Some (drop (length p) l) else None.

Definition is_auto_derived_given_name (given_name hostname : chars) : bool :=
  let base := sanitize_hostname_for_given_name hostname in
  bool_decide (given_name = base) ||
  match strip_prefix_chars (base ++ to_chars "-") given_name with
  | None => false
  | Some suffix => match parse_i64 suffix with Some _ => true | None => false end
  end.

(** ** The search for a free name *)

Definition numbered (base : chars) (suffix : Z) : chars := base ++ to_chars "-" ++ to_chars (show_dec suffix).

Fixpoint name_loop (fuel : nat) (taken : chars -> bool) (base candidate : chars) (suffix : Z) : option chars :=
  match fuel with
  | O => None
  | S n => if taken candidate then name_loop n taken base (numbered base suffix) (suffix + 1) else Some candidate
  end.

(** The names of the snapshot by node key. *)
Definition name_taken (names : gmap string chars) (node_key : string) (also_exclude : option string) (candidate : chars) : bool :=
  bool_decide (map_Exists (fun key name => key <> node_key /\ Some key <> also_exclude /\ name = candidate) names).

Definition resolve_auto_given_name_from_snapshot (names : gmap string chars) (node_key : string) (also_exclude : option string) (raw_hostname : chars)
  : option chars :=
  let base := auto_given_name_base raw_hostname in
  name_loop (S (size names)) (name_taken names node_key also_exclude) base base 1.

(** ** The cleaned name is a label *)

(** What may stand inside a label the server derives. *)
Definition label_char (c : ascii) : bool := is_ascii_alphanumeric c || Ascii.eqb c "-".

Lemma lower_alphanumeric c : is_ascii_alphanumeric c = true -> is_ascii_alphanumeric (lower c) = true.
Proof. destruct c as [[] [] [] [] [] [] [] []]; vm_compute; done. Qed.

Lemma sanitize_byte_good boundary c d : sanitize_byte boundary c = Some d -> label_char d = true.
Proof.
  unfold sanitize_byte, label_char. destruct (_ && _); [by intros [= <-]|]. destruct (is_ascii_alphanumeric c) eqn:Ec.
  - intros [= <-]. by rewrite lower_alphanumeric.
  - destruct (Ascii.eqb c "-") eqn:Ed; [|done]. intros [= <-]. by rewrite Ed, orb_true_r.
Qed.

Lemma sanitize_byte_edge c : is_ascii_alphanumeric c = true -> sanitize_byte true c = Some (lower c).
Proof. intros Hc. unfold sanitize_byte. by rewrite andb_false_r, Hc. Qed.

Lemma skip_start_head l : skip_start l = [] \/ exists c t, skip_start l = c :: t /\ is_ascii_alphanumeric c = true.
Proof. induction l as [|c t IH]; [by left|]. cbn [skip_start]. destruct (is_ascii_alphanumeric c) eqn:Ec; [right; eauto|done]. Qed.

Lemma skip_start_suffix l : exists p, l = p ++ skip_start l.
Proof.
  induction l as [|c t [p IH]]; [by exists []|]. cbn [skip_start]. destruct (is_ascii_alphanumeric c); [by exists []|].
  exists (c :: p). by rewrite IH at 1.
Qed.

Lemma label_window_length l : (length (label_window l) <= 63)%nat.
Proof.
  unfold label_window. rewrite length_rev. destruct (skip_start_suffix (rev (skip_start (take 63 l)))) as [p Hp].
  apply (f_equal length) in Hp. rewrite length_app, length_rev in Hp.
  destruct (skip_start_suffix (take 63 l)) as [q Hq]. apply (f_equal length) in Hq. rewrite length_app, length_take in Hq. lia.
Qed.

(** A window that is not empty starts and ends with a letter or a digit. *)
Lemma label_window_edges l : label_window l = [] \/
  exists c t, label_window l = c :: t /\ is_ascii_alphanumeric c = true /\ exists s d, label_window l = s ++ [d] /\ is_ascii_alphanumeric d = true.
Proof.
  unfold label_window. destruct (skip_start_head (take 63 l)) as [E|(c & t & E & Hc)]; rewrite E; [by left|]. right.
  destruct (skip_start_head (rev (c :: t))) as [E'|(d & s & E' & Hd)].
  - destruct (skip_start_suffix (rev (c :: t))) as [p Hp]. rewrite E', app_nil_r in Hp.
    assert (forall m, skip_start m = [] -> Forall (fun x => is_ascii_alphanumeric x = false) m) as Hall.
    { induction m as [|x m IH]; cbn [skip_start]; [constructor|]. destruct (is_ascii_alphanumeric x) eqn:Ex; [done|]. intros. constructor; [done|auto]. }
    apply Hall in E'. rewrite Forall_forall in E'. rewrite (E' c) in Hc; [done|]. apply list_elem_of_In, in_rev. rewrite rev_involutive. by left.
  - destruct (skip_start_suffix (rev (c :: t))) as [p Hp]. rewrite E' in *. apply (f_equal (@rev ascii)) in Hp. rewrite rev_involutive, rev_app_distr in Hp.
    cbn [rev] in *. exists c. assert (exists t', rev s ++ [d] = c :: t') as [t' Ht].
    { destruct (rev s ++ [d]) as [|x y] eqn:Er; [by destruct (rev s)|]. injection Hp as <- _. by eexists. }
    exists t'. split; [done|]. split; [done|]. by exists (rev s), d.
Qed.

Lemma sanitize_window_nil : sanitize_window [] = [].
Proof. reflexivity. Qed.

(** Cleaning keeps the ends, lower-cased, and leaves only label characters. *)
Lemma sanitize_window_label w c t s d :
  w = c :: t -> w = s ++ [d] -> is_ascii_alphanumeric c = true -> is_ascii_alphanumeric d = true ->
  (exists r, sanitize_window w = lower c :: r) /\ last (sanitize_window w) = Some (lower d) /\ Forall (fun x => label_char x = true) (sanitize_window w).
Proof.
  intros Ec Ed Hc Hd. unfold sanitize_window. split_and!.
  - rewrite Ec. cbn [imap omap list_omap fst snd]. cbn [Nat.eqb orb]. rewrite sanitize_byte_edge by done. by eexists.
  - set (n := length w). rewrite Ed, imap_app, omap_app. cbn [imap omap list_omap fst snd]. rewrite Nat.add_0_r.
    assert ((length s =? n - 1)%nat = true) as ->. { unfold n. rewrite Ed, length_app. cbn. apply Nat.eqb_eq. lia. }
    rewrite orb_true_r, sanitize_byte_edge by done. apply last_snoc.
  - apply Forall_forall. intros x (p & _ & Hp)%list_elem_of_omap. by eapply sanitize_byte_good.
Qed.

Lemma first_bad_none l : Forall (fun x => label_char x = true) l -> first_bad l = None.
Proof.
  induction 1 as [|c l Hc _ IH]; [done|]. cbn [first_bad]. unfold label_char in Hc.
  destruct (is_ascii_alphanumeric c), (Ascii.eqb c "-"); done.
Qed.

Lemma omap_length {A B} (f : A -> option B) l : (length (omap f l) <= length l)%nat.
Proof. induction l as [|x l IH]; [done|]. cbn [omap list_omap]. destruct (f x); cbn [length]; lia. Qed.

Lemma valid_label_of l c r d :
  l = c :: r -> last l = Some d -> (length l <= 63)%nat -> is_ascii_alphanumeric c = true -> is_ascii_alphanumeric d = true ->
  Forall (fun x => label_char x = true) l -> valid_label l = Ok tt.
Proof.
  intros -> Ed Hlen Hc Hd Hall. unfold valid_label. rewrite Ed, (proj2 (Nat.ltb_ge _ _)), Hc, Hd by done. cbn [negb].
  rewrite first_bad_none; [done|]. unfold inner_bytes. by apply Forall_take, Forall_drop.
Qed.

Lemma sanitized_label h : sanitize_hostname_for_given_name h = [] \/ valid_label (sanitize_hostname_for_given_name h) = Ok tt.
Proof.
  unfold sanitize_hostname_for_given_name. pose proof (label_window_length (trim_common_hostname_suffixes h)) as Hw.
  destruct (label_window_edges (trim_common_hostname_suffixes h)) as [E|(c & t & Ec & Hc & s & d & Ed & Hd)]; [left; by rewrite E|right].
  destruct (sanitize_window_label _ c t s d Ec Ed Hc Hd) as ([r Hr] & Hl & Hall).
  apply (valid_label_of _ _ _ _ Hr Hl); [|by apply lower_alphanumeric..|done].
  unfold sanitize_window. etrans; [apply omap_length|]. by rewrite length_imap.
Qed.

(** C35. Whatever hostname a client reports, the name derived from it is a DNS label:
    one to 63 letters, digits and hyphens, with a letter or digit at both ends. *)
Theorem auto_base_is_label hostname : valid_label (auto_given_name_base hostname) = Ok tt.
Proof.
  unfold auto_given_name_base. destruct (sanitized_label hostname) as [E|E]; [by rewrite E|].
  destruct (sanitize_hostname_for_given_name hostname) eqn:Es; [done|exact E].
Qed.

(** ** The search ends at a free name *)

Lemma show_dec_parse n : 0 <= n < 2 ^ 63 -> parse_i64 (to_chars (show_dec n)) = Some n.
Proof.
  intros Hn. destruct (show_dec_digits n 19) as (ds & -> & Hl & Hd & Hv & _); [lia|cbn; lia|]. destruct ds as [|d t]; [cbn in Hl; lia|].
  pose proof Hd as [Hd0 _]%Forall_cons. cbn [map]. assert (chr (digit_char d) = 48 + d) as Hchr by (by apply digit_char_chr).
  unfold parse_i64. destruct (Ascii.eqb_spec (digit_char d) "-") as [E|_]; [rewrite E in Hchr; change (45 = 48 + d) in Hchr; lia|].
  destruct (Ascii.eqb_spec (digit_char d) "+") as [E|_]; [rewrite E in Hchr; change (43 = 48 + d) in Hchr; lia|].
  unfold parse_magnitude. change (digit_char d :: map digit_char t) with (map digit_char (d :: t)).
  fold (dec_value (d :: t)) in *. rewrite parse_digits_fold; fold (dec_value (d :: t)); [by rewrite Hv|done|lia|]. rewrite Hv. lia.
Qed.

Lemma numbered_inj base i j : 0 <= i < 2 ^ 63 -> 0 <= j < 2 ^ 63 -> numbered base i = numbered base j -> i = j.
Proof.
  unfold numbered. intros Hi Hj E. apply app_inv_head, app_inv_head in E.
  assert (Some i = Some j) as [=]; [|done]. by rewrite <-(show_dec_parse i), <-(show_dec_parse j), E.
Qed.

Lemma numbered_not_base base i : numbered base i <> base.
Proof. unfold numbered. intros E. apply (f_equal length) in E. rewrite !length_app in E. cbn in E. lia. Qed.

(** The [i]-th candidate. *)
Definition candidate_at (base : chars) (i : nat) : chars := match i with O => base | S _ => numbered base (Z.of_nat i) end.

Lemma candidate_at_inj base i j : Z.of_nat i < 2 ^ 63 -> Z.of_nat j < 2 ^ 63 -> candidate_at base i = candidate_at base j -> i = j.
Proof.
  intros Hi Hj. destruct i, j; cbn [candidate_at]; intros E; [done|by apply eq_sym, numbered_not_base in E|by apply numbered_not_base in E|].
  apply numbered_inj in E; lia.
Qed.

Lemma name_loop_spec taken base fuel : forall i (X : gset chars),
  Z.of_nat (i + fuel) < 2 ^ 63 -> (forall j, (i <= j < i + fuel)%nat -> taken (candidate_at base j) = true -> candidate_at base j ∈ X) -> (size X < fuel)%nat ->
  exists k, (i <= k < i + fuel)%nat /\ name_loop fuel taken base (candidate_at base i) (Z.of_nat i + 1) = Some (candidate_at base k) /\
  taken (candidate_at base k) = false /\ forall j, (i <= j < k)%nat -> taken (candidate_at base j) = true.
Proof.
  induction fuel as [|fuel IH]; intros i X Hb HX Hsize; [lia|]. cbn [name_loop]. destruct (taken (candidate_at base i)) eqn:Et.
  2: { exists i. split_and!; [lia|lia|done|done|]. intros j Hj. lia. }
  assert (candidate_at base i ∈ X) as Hin by (apply HX; [lia|done]).
  replace (numbered base (Z.of_nat i + 1)) with (candidate_at base (S i)) by (cbn [candidate_at]; f_equal; lia).
  replace (Z.of_nat i + 1) with (Z.of_nat (S i)) by lia. destruct (IH (S i) (X ∖ {[candidate_at base i]})) as (k & Hk & E & Hf & Hall).
  - lia.
  - intros j Hj Hj'. apply elem_of_difference. split; [apply HX; [lia|done]|]. rewrite elem_of_singleton. intros Ej. apply candidate_at_inj in Ej; lia.
  - rewrite size_difference by (by apply singleton_subseteq_l). rewrite size_singleton.
    assert (size ({[candidate_at base i]} : gset chars) <= size X)%nat as Hne by (apply subseteq_size; by apply singleton_subseteq_l). rewrite size_singleton in Hne. lia.
  - exists k. split_and!; [lia|lia|done|done|]. intros j Hj. destruct (decide (j = i)) as [-> |]; [done|]. apply Hall. lia.
Qed.

Lemma name_taken_true names node_key also candidate : name_taken names node_key also candidate = true <->
  exists key, key <> node_key /\ Some key <> also /\ names !! key = Some candidate.
Proof. unfold name_taken. rewrite bool_decide_eq_true. unfold map_Exists. naive_solver. Qed.

Lemma size_list_to_set_le (l : list chars) : (size (list_to_set l : gset chars) <= length l)%nat.
Proof.
  induction l as [|x l IH]; [done|]. cbn [list_to_set length]. rewrite size_union_alt, size_singleton.
  assert (size ((list_to_set l : gset chars) ∖ {[x]}) <= size (list_to_set l : gset chars))%nat by (apply subseteq_size; set_solver). lia.
Qed.

Lemma resolve_spec names node_key also hostname :
  Z.of_nat (size names) < 2 ^ 31 - 1 ->
  exists k, (k <= size names)%nat /\ resolve_auto_given_name_from_snapshot names node_key also hostname = Some (candidate_at (auto_given_name_base hostname) k) /\
  name_taken names node_key also (candidate_at (auto_given_name_base hostname) k) = false /\
  forall j, (j < k)%nat -> name_taken names node_key also (candidate_at (auto_given_name_base hostname) j) = true.
Proof.
  intros Hsize. destruct (name_loop_spec (name_taken names node_key also) (auto_given_name_base hostname) (S (size names)) 0 (list_to_set (map snd (map_to_list names)))) as (k & Hk & E & Hf & Hall).
  - lia.
  - intros j _ (key & _ & _ & Hk)%name_taken_true. apply elem_of_list_to_set, list_elem_of_fmap. eexists (key, _). split; [done|]. by apply elem_of_map_to_list.
  - pose proof (size_list_to_set_le (map snd (map_to_list names))) as Hle. rewrite length_map, length_map_to_list in Hle. lia.
  - exists k. split_and!; [lia|exact E|done|]. intros j Hj. apply Hall. lia.
Qed.

(** The automatic name is free: for every hostname the search ends, at a name that
    no node has but the one it is for and the one it replaces, and it is the first of
    the base name, [base-1], [base-2], ... that is free. *)
Theorem auto_given_name_fresh names node_key also hostname :
  Z.of_nat (size names) < 2 ^ 31 - 1 ->
  exists k, resolve_auto_given_name_from_snapshot names node_key also hostname = Some (candidate_at (auto_given_name_base hostname) k) /\
  (forall key, key <> node_key -> Some key <> also -> names !! key <> Some (candidate_at (auto_given_name_base hostname) k)) /\
  forall j, (j < k)%nat -> exists key, key <> node_key /\ Some key <> also /\ names !! key = Some (candidate_at (auto_given_name_base hostname) j).
Proof.
  intros Hs. destruct (resolve_spec names node_key also hostname Hs) as (k & _ & E & Hf & Hall). exists k. split_and!; [done| |].
  - intros key H1 H2 H3. rewrite (proj2 (name_taken_true _ _ _ _)) in Hf; [done|eauto].
  - intros j Hj. apply name_taken_true. auto.
Qed.

(** A name the server derived is recognised as derived, so that a later change of
    the hostname may replace it: for a hostname with anything left after cleaning, the
    resolved name passes [is_auto_derived_given_name]. *)
Theorem auto_given_name_recognised names node_key also hostname name :
  Z.of_nat (size names) < 2 ^ 31 - 1 -> sanitize_hostname_for_given_name hostname <> [] ->
  resolve_auto_given_name_from_snapshot names node_key also hostname = Some name -> is_auto_derived_given_name name hostname = true.
Proof.
  intros Hs Hne E. destruct (resolve_spec names node_key also hostname Hs) as (k & Hk & E' & _ & _). rewrite E in E'. injection E' as ->.
  assert (auto_given_name_base hostname = sanitize_hostname_for_given_name hostname) as Eb by (unfold auto_given_name_base; by destruct (sanitize_hostname_for_given_name hostname)).
  unfold is_auto_derived_given_name. rewrite Eb. destruct k as [|k]; cbn [candidate_at]; [by rewrite bool_decide_true|].
  apply orb_true_iff. right. unfold strip_prefix_chars, numbered. rewrite app_assoc.
  rewrite decide_True by (by rewrite take_app_length). rewrite drop_app_length, show_dec_parse by lia. done.
Qed.

(** ** Examples *)

Module GivenNameExamples.

Definition long_name : chars := replicate 63 "a"%char.

Definition names : gmap string chars := {[ "key1"%string := to_chars "laptop"; "key2"%string := to_chars "laptop-1"; "key3"%string := long_name ]}.

Example cleaned : sanitize_hostname_for_given_name (to_chars "-Ann's Mac_Book.local") = to_chars "anns-mac-book".
Proof. reflexivity. Qed.

Example numbered_name : resolve_auto_given_name_from_snapshot names "key4" None (to_chars "Laptop.lan") = Some (to_chars "laptop-2").
Proof. vm_compute. reflexivity. Qed.

Example kept_name : resolve_auto_given_name_from_snapshot names "key4" (Some "key1"%string) (to_chars "Laptop.lan") = Some (to_chars "laptop").
Proof. vm_compute. reflexivity. Qed.

(** A number appended to a name of 63 bytes gives a name that is not a label, which the
    check an operator's rename goes through refuses. *)
Example numbered_name_too_long :
  (valid_label <$> resolve_auto_given_name_from_snapshot names "key4" None long_name) = Some (Err (LabelTooLong (long_name ++ to_chars "-1"))).
Proof. vm_compute. reflexivity. Qed.

Lemma auto_given_name_fresh_witness : exists k,
  resolve_auto_given_name_from_snapshot names "key4" None (to_chars "laptop") = Some (candidate_at (auto_given_name_base (to_chars "laptop")) k) /\
  (forall key, key <> "key4"%string -> Some key <> None -> names !! key <> Some (candidate_at (auto_given_name_base (to_chars "laptop")) k)) /\
  forall j, (j < k)%nat -> exists key, key <> "key4"%string /\ Some key <> None /\ names !! key = Some (candidate_at (auto_given_name_base (to_chars "laptop")) j).
Proof. apply (auto_given_name_fresh names "key4" None (to_chars "laptop")). vm_compute. reflexivity. Defined.

Lemma auto_given_name_recognised_witness : is_auto_derived_given_name (to_chars "laptop-2") (to_chars "Laptop.lan") = true.
Proof.
  apply (auto_given_name_recognised names "key4" None (to_chars "Laptop.lan") (to_chars "laptop-2")).
  - vm_compute. reflexivity.
  - vm_compute. discriminate.
  - vm_compute. reflexivity.
Defined.

End GivenNameExamples.
