(* ===== verification/MapBatcher.v ===== *)
(** * MapBatcher: the queues between the registry and the map streams
    (headscale-api/src/tailscale_wire/mod.rs)

    Every change of the registry is stamped with the next generation, kept in a short
    history and put into the queue of each node that has a stream.  A tick of the
    batcher takes all queues and hands them to the streams.  The state is the part of
    [MachineRegistry] these functions use; the nodes with a stream are the keys of
    [active_connections], an argument here.  [policy.drain_changed_node_attrs()] is the
    list of nodes whose attributes changed, an argument too. *)

From stdpp Require Import base list gmap strings sets.
From Stdlib Require Import ZArith Lia.
From S2P Require Import Prelude MapChange.

Open Scope Z_scope.

(** ** State and operations *)

Record Changes := mkChanges {
  ch_generation : Z;
  ch_history : list MapChange;
  ch_pending : gmap Z (list MapChange);
  ch_self_refreshes : gset Z;
}.

Definition Changes_new : Changes := mkChanges 0 [] ∅ ∅.

Definition set_pending (s : Changes) (pending : gmap Z (list MapChange)) : Changes :=
  mkChanges (ch_generation s) (ch_history s) pending (ch_self_refreshes s).

Definition MAP_CHANGE_HISTORY_LIMIT : nat := 128.

Definition push_history (change : MapChange) (history : list MapChange) : list MapChange :=
  let changes := history ++ [change] in drop (length changes - MAP_CHANGE_HISTORY_LIMIT) changes.

Definition push_map_change (s : Changes) (change : MapChange) : Changes :=
  mkChanges (ch_generation s) (push_history change (ch_history s)) (ch_pending s) (ch_self_refreshes s).

Definition remove_pending (ids : list Z) (pending : gmap Z (list MapChange)) : gmap Z (list MapChange) :=
  fold_left (fun m n => delete n m) ids pending.

Definition push_pending (n : Z) (change : MapChange) (pending : gmap Z (list MapChange)) : gmap Z (list MapChange) :=
  <[n := default [] (pending !! n) ++ [change]]> pending.

Definition replaces_all (change : MapChange) : bool := is_full change && bool_decide (target_node_id change = None).

Definition enqueue_map_change (connected : list Z) (change : MapChange) (pending : gmap Z (list MapChange)) : gmap Z (list MapChange) :=
  let removed := peers_removed (content change) in
  let pending := remove_pending removed pending in
  if replaces_all change then fold_left (fun m n => <[n := [change]]> m) connected pending
  else match target_node_id change with
       | Some t => if bool_decide (t ∈ removed) || negb (bool_decide (t ∈ connected)) then pending else push_pending t change pending
       | None => fold_left (fun m n => if bool_decide (n ∈ removed) then m else if should_send_to_node change n then push_pending n change m else m) connected pending
       end.

Definition record_change (connected : list Z) (s : Changes) (change : MapChange) : Changes :=
  let s := push_map_change s change in set_pending s (enqueue_map_change connected change (ch_pending s)).

(** [connected] is the list of the keys of [active_connections]. *)
Definition record_observed_map_change (connected : list Z) (s : Changes) (reason : MapChangeReason) (target origin : option Z) : Changes :=
  record_change connected s (into_change (pending_new reason target origin) (ch_generation s)).

Definition record_unbatched_map_change (s : Changes) (reason : MapChangeReason) (target origin : option Z) : Changes :=
  push_map_change s (into_change (pending_new reason target origin) (ch_generation s)).

(** The changes of one dispatch: those asked for, then one for each node whose own map
    has to be refreshed. *)
Definition dispatched (s : Changes) (attrs : list Z) (changes : list PendingMapChange) : list PendingMapChange :=
  changes ++ map (pending_target SelfUpdate) (sort_by Z.compare (elements (ch_self_refreshes s ∪ list_to_set attrs))).

Definition stamped (s : Changes) (attrs : list Z) (changes : list PendingMapChange) : list MapChange :=
  map (fun p => into_change p ((ch_generation s + 1) mod 2 ^ 64)) (dispatched s attrs changes).

Definition wake_waiters_with_many (connected : list Z) (attrs : list Z) (changes : list PendingMapChange) (s : Changes) : Changes :=
  let refreshed := mkChanges (ch_generation s) (ch_history s) (ch_pending s) ∅ in
  match stamped s attrs changes with
  | [] => refreshed
  | stamped => fold_left (record_change connected) stamped (mkChanges ((ch_generation s + 1) mod 2 ^ 64) (ch_history s) (ch_pending s) ∅)
  end.

Definition wake_waiters_with (connected : list Z) (attrs : list Z) (change : PendingMapChange) (s : Changes) : Changes :=
  wake_waiters_with_many connected attrs [change] s.

Definition queue_self_refresh (n : Z) (s : Changes) : Changes :=
  mkChanges (ch_generation s) (ch_history s) (ch_pending s) ({[n]} ∪ ch_self_refreshes s).

Definition has_pending_full_map_change_for_node (s : Changes) (n : Z) : bool := existsb is_full (default [] (ch_pending s !! n)).

Definition drain_pending_map_changes (s : Changes) : gmap Z (list MapChange) * Changes := (ch_pending s, set_pending s ∅).

Definition publish_pending_map_changes (s : Changes) : option (gmap Z (list MapChange)) * Changes :=
  let '(pending, s) := drain_pending_map_changes s in
  if bool_decide (pending = ∅) then (None, s) else (Some pending, s).

(** ** One queue *)

(** What an announcement does to the queue of one node. *)
Definition queue_step (n : Z) (queue : list MapChange) (change : MapChange) : list MapChange :=
  if replaces_all change then [change] else if should_send_to_node change n then queue ++ [change] else queue.

Lemma remove_pending_lookup ids : forall (pending : gmap Z (list MapChange)) n, remove_pending ids pending !! n = if bool_decide (n ∈ ids) then None else pending !! n.
Proof.
  induction ids as [|x ids IH]; intros pending n; [done|]. change (remove_pending (x :: ids) pending) with (remove_pending ids (delete x pending)). rewrite IH.
  destruct (decide (x = n)) as [-> |Hne]; [rewrite lookup_delete_eq|rewrite lookup_delete_ne by done]; repeat case_bool_decide; set_solver.
Qed.

Lemma fold_insert_lookup (v : list MapChange) ids : forall (m : gmap Z (list MapChange)) n,
  fold_left (fun m n => <[n := v]> m) ids m !! n = if bool_decide (n ∈ ids) then Some v else m !! n.
Proof.
  induction ids as [|x ids IH]; intros m n; cbn [fold_left]; [done|]. rewrite IH.
  destruct (decide (x = n)) as [-> |Hne]; [rewrite lookup_insert_eq|rewrite lookup_insert_ne by done]; repeat case_bool_decide; set_solver.
Qed.

Lemma fold_push_lookup (P : Z -> bool) change ids : forall (m : gmap Z (list MapChange)) n, NoDup ids ->
  fold_left (fun m n => if P n then push_pending n change m else m) ids m !! n =
  if bool_decide (n ∈ ids) && P n then Some (default [] (m !! n) ++ [change]) else m !! n.
Proof.
  induction ids as [|x ids IH]; intros m n Hnd; cbn [fold_left]; [done|]. apply NoDup_cons in Hnd as [Hx Hnd]. rewrite IH by done.
  assert ((if P x then push_pending x change m else m) !! n = if bool_decide (x = n) && P x then Some (default [] (m !! n) ++ [change]) else m !! n) as ->.
  { destruct (P x); [|by rewrite andb_false_r]. rewrite andb_true_r. unfold push_pending. case_bool_decide as E; [subst; apply lookup_insert_eq|by apply lookup_insert_ne]. }
  destruct (decide (x = n)) as [-> |Hne].
  - rewrite (bool_decide_false (n ∈ ids)), (bool_decide_true (n = n)), (bool_decide_true (n ∈ n :: ids)) by set_solver. by cbn.
  - rewrite (bool_decide_false (x = n)) by done. cbn [andb]. repeat case_bool_decide; try done; set_solver.
Qed.

Lemma enqueue_queue connected change (pending : gmap Z (list MapChange)) n :
  NoDup connected -> n ∈ connected -> n ∉ peers_removed (content change) ->
  default [] (enqueue_map_change connected change pending !! n) = queue_step n (default [] (pending !! n)) change.
Proof.
  intros Hnd Hn Hrem. unfold enqueue_map_change, queue_step. destruct (replaces_all change).
  { rewrite fold_insert_lookup, bool_decide_true by done. done. }
  unfold should_send_to_node. destruct (target_node_id change) as [t|] eqn:Et.
  - destruct (Z.eqb_spec t n) as [-> |Hne].
    + rewrite (bool_decide_false (n ∈ _)), (bool_decide_true (n ∈ connected)) by done. cbn [orb negb]. unfold push_pending.
      by rewrite lookup_insert_eq, remove_pending_lookup, bool_decide_false.
    + destruct (_ || _); [|unfold push_pending; rewrite lookup_insert_ne by done]; by rewrite remove_pending_lookup, bool_decide_false.
  - pose proof (fold_push_lookup (fun n => negb (bool_decide (n ∈ peers_removed (content change)))) change connected (remove_pending (peers_removed (content change)) pending) n Hnd) as Hf.
    rewrite (bool_decide_true (n ∈ connected)), (bool_decide_false (n ∈ _)), remove_pending_lookup, bool_decide_false in Hf by done. cbn [andb negb] in Hf.
    assert (forall m, fold_left (fun (m : gmap Z (list MapChange)) (n : Z) => if bool_decide (n ∈ peers_removed (content change)) then m else push_pending n change m) connected m
      = fold_left (fun m n => if negb (bool_decide (n ∈ peers_removed (content change))) then push_pending n change m else m) connected m) as ->.
    { clear. induction connected as [|x l IH]; intros m; cbn [fold_left]; [done|]. rewrite IH. by destruct (bool_decide _). }
    by rewrite Hf.
Qed.

(** ** What the streams get *)

(** A stretch of the server's life in which node [n] has a stream and is not removed:
    dispatches, observed changes, refresh requests and ticks.  It records the changes
    announced and those handed to the stream of [n]. *)
Section run.
Variable n : Z.

Inductive batch_run : Changes -> list MapChange -> list MapChange -> Changes -> Prop :=
| run_start s : batch_run s [] [] s
| run_wake s cs ds s1 connected attrs changes :
    batch_run s cs ds s1 -> NoDup connected -> n ∈ connected -> Forall (fun p => n ∉ peers_removed (pm_content p)) changes ->
    batch_run s (cs ++ stamped s1 attrs changes) ds (wake_waiters_with_many connected attrs changes s1)
| run_observe s cs ds s1 connected reason target origin :
    batch_run s cs ds s1 -> NoDup connected -> n ∈ connected -> n ∉ peers_removed (pm_content (pending_new reason target origin)) ->
    batch_run s (cs ++ [into_change (pending_new reason target origin) (ch_generation s1)]) ds (record_observed_map_change connected s1 reason target origin)
| run_unbatched s cs ds s1 reason target origin :
    batch_run s cs ds s1 -> batch_run s cs ds (record_unbatched_map_change s1 reason target origin)
| run_refresh s cs ds s1 m : batch_run s cs ds s1 -> batch_run s cs ds (queue_self_refresh m s1)
| run_tick s cs ds s1 batch s2 :
    batch_run s cs ds s1 -> publish_pending_map_changes s1 = (batch, s2) ->
    batch_run s cs (ds ++ default [] (default ∅ batch !! n)) s2.
End run.

(** What is queued for a node. *)
Definition queue_of (s : Changes) (n : Z) : list MapChange := default [] (ch_pending s !! n).

Lemma record_change_queue connected s change n : NoDup connected -> n ∈ connected -> n ∉ peers_removed (content change) ->
  queue_of (record_change connected s change) n = queue_step n (queue_of s n) change.
Proof. intros. unfold queue_of, record_change. cbn [set_pending push_map_change ch_pending]. by apply enqueue_queue. Qed.

Lemma record_changes_queue connected n cs : forall s, NoDup connected -> n ∈ connected -> Forall (fun c => n ∉ peers_removed (content c)) cs ->
  queue_of (fold_left (record_change connected) cs s) n = fold_left (queue_step n) cs (queue_of s n).
Proof.
  induction cs as [|c cs IH]; intros s Hnd Hn Hrem; cbn [fold_left]; [done|]. apply Forall_cons in Hrem as [Hc Hcs].
  rewrite IH by done. by rewrite record_change_queue.
Qed.

Lemma dispatched_stays s attrs changes n :
  Forall (fun p => n ∉ peers_removed (pm_content p)) changes -> Forall (fun c => n ∉ peers_removed (content c)) (stamped s attrs changes).
Proof.
  intros Hc. unfold stamped, dispatched. apply Forall_map, Forall_app. split; [exact Hc|]. apply Forall_map, Forall_true. intros x. cbn. apply not_elem_of_nil.
Qed.

Lemma wake_queue connected attrs changes s n :
  NoDup connected -> n ∈ connected -> Forall (fun p => n ∉ peers_removed (pm_content p)) changes ->
  queue_of (wake_waiters_with_many connected attrs changes s) n = fold_left (queue_step n) (stamped s attrs changes) (queue_of s n).
Proof.
  intros Hnd Hn Hrem. unfold wake_waiters_with_many. pose proof (dispatched_stays s attrs changes n Hrem) as Hst.
  destruct (stamped s attrs changes) as [|c cs]; [done|]. by rewrite record_changes_queue.
Qed.

(** Stepping a queue through announcements adds only what is meant for the node, and
    loses something only to a later full update. *)
Lemma queue_steps_from n cs : forall q c, c ∈ fold_left (queue_step n) cs q -> c ∈ q \/ c ∈ cs /\ should_send_to_node c n = true.
Proof.
  induction cs as [|x cs IH]; intros q c; cbn [fold_left]; [by left|]. intros [Hq|[Hcs Hs]]%IH; [|right; set_solver]. unfold queue_step, replaces_all in Hq.
  destruct (is_full x && bool_decide (target_node_id x = None)) eqn:Er.
  - apply list_elem_of_singleton in Hq as ->. right. split; [set_solver|]. apply andb_true_iff in Er as [_ Et%bool_decide_eq_true]. unfold should_send_to_node. by rewrite Et.
  - destruct (should_send_to_node x n) eqn:Es; [|by left]. apply elem_of_app in Hq as [Hq|Hq%list_elem_of_singleton]; [by left|subst c; right; set_solver].
Qed.

Lemma queue_steps_keep n cs : forall q c, c ∈ q ->
  c ∈ fold_left (queue_step n) cs q \/ exists full, full ∈ fold_left (queue_step n) cs q /\ full ∈ cs /\ is_full full = true.
Proof.
  induction cs as [|x cs IH]; intros q c Hc; cbn [fold_left]; [by left|].
  assert (c ∈ queue_step n q x \/ (x ∈ queue_step n q x /\ is_full x = true)) as [Hq|[Hq Hf]].
  { unfold queue_step, replaces_all. destruct (is_full x && _) eqn:Er; [apply andb_true_iff in Er as [Ef _]; right; split; [apply list_elem_of_here|done]|].
    left. destruct (should_send_to_node x n); set_solver. }
  - destruct (IH _ c Hq) as [?|(f & ? & ? & ?)]; [by left|right; exists f; set_solver].
  - destruct (IH _ x Hq) as [?|(f & ? & ? & ?)]; right; [exists x|exists f]; set_solver.
Qed.

Lemma queue_step_adds n q c : should_send_to_node c n = true -> c ∈ queue_step n q c.
Proof. intros Hs. unfold queue_step. destruct (replaces_all c); [apply list_elem_of_here|]. rewrite Hs. set_solver. Qed.

Lemma publish_queue s batch s2 n : publish_pending_map_changes s = (batch, s2) -> queue_of s2 n = [] /\ default [] (default ∅ batch !! n) = queue_of s n.
Proof.
  unfold publish_pending_map_changes, drain_pending_map_changes, queue_of. case_bool_decide as E; intros [= <- <-]; cbn [set_pending ch_pending default from_option id].
  - by rewrite E, !lookup_empty.
  - by rewrite lookup_empty.
Qed.

(** The claim about one node, its earlier queue, the changes announced and those it got. *)
Definition reaches (n : Z) (before cs got : list MapChange) : Prop :=
  (forall cs1 c cs2, cs = cs1 ++ c :: cs2 -> should_send_to_node c n = true -> c ∈ got \/ exists full, full ∈ got /\ full ∈ cs2 /\ is_full full = true) /\
  (forall c, c ∈ got -> c ∈ before \/ c ∈ cs /\ should_send_to_node c n = true).

Lemma reaches_step n before cs new ds q :
  reaches n before cs (ds ++ q) -> reaches n before (cs ++ new) (ds ++ fold_left (queue_step n) new q).
Proof.
  intros [H1 H2]. split.
  - intros cs1 c cs2 Ecs Hs. apply app_eq_inv in Ecs as [(k & -> & Ek)|(k & -> & ->)].
    + destruct k as [|c' k]; cbn [app] in Ek.
      * subst new. cbn [fold_left]. destruct (queue_steps_keep n cs2 (queue_step n q c) c (queue_step_adds n q c Hs)) as [?|(f & ? & ? & ?)]; [left; set_solver|right; exists f; set_solver].
      * injection Ek as <- ->. assert (exists x, (x = c \/ x ∈ k /\ is_full x = true) /\ x ∈ ds ++ q) as (x & Hx & Hxq).
        { destruct (H1 cs1 c k eq_refl Hs) as [?|(f & ? & ? & ?)]; [by exists c; auto|exists f; auto]. }
        apply elem_of_app in Hxq as [Hxq|Hxq].
        -- destruct Hx as [-> |[? ?]]; [left; set_solver|right; exists x; set_solver].
        -- destruct (queue_steps_keep n new q x Hxq) as [?|(f & ? & ? & ?)]; [|right; exists f; set_solver]. destruct Hx as [-> |[? ?]]; [left; set_solver|right; exists x; set_solver].
    + rewrite fold_left_app. cbn [fold_left]. destruct (queue_steps_keep n cs2 (queue_step n (fold_left (queue_step n) k q) c) c (queue_step_adds n _ c Hs)) as [?|(f & ? & ? & ?)]; [left; set_solver|right; exists f; set_solver].
  - intros c [Hc|Hc]%elem_of_app; [destruct (H2 c); set_solver|]. destruct (queue_steps_from n new q c Hc) as [Hc'|Hc']; [destruct (H2 c); set_solver|set_solver].
Qed.


Lemma push_all_history cs : forall h, (length h <= MAP_CHANGE_HISTORY_LIMIT)%nat ->
  fold_left (fun h c => push_history c h) cs h = drop (length (h ++ cs) - MAP_CHANGE_HISTORY_LIMIT) (h ++ cs) /\
  (length (drop (length (h ++ cs) - MAP_CHANGE_HISTORY_LIMIT) (h ++ cs)) <= MAP_CHANGE_HISTORY_LIMIT)%nat.
Proof.
  induction cs as [|c cs IH]; intros h Hh; cbn [fold_left].
  - rewrite app_nil_r, (proj2 (Nat.sub_0_le _ _)), drop_0 by done. done.
  - split; [|rewrite length_drop; lia]. assert (length (push_history c h) <= MAP_CHANGE_HISTORY_LIMIT)%nat as Hp.
    { unfold push_history. rewrite length_drop, length_app. lia. }
    destruct (IH _ Hp) as [-> _]. unfold push_history. destruct (decide (length h = MAP_CHANGE_HISTORY_LIMIT)) as [E|E].
    + destruct h as [|x h]; [unfold MAP_CHANGE_HISTORY_LIMIT in E; done|]. cbn [length] in E.
      replace (length ((x :: h) ++ [c]) - MAP_CHANGE_HISTORY_LIMIT)%nat with 1%nat by (rewrite length_app; cbn [length]; lia). cbn [app drop].
      rewrite drop_0, <-app_assoc. cbn [app length]. replace (S (length (h ++ c :: cs)) - MAP_CHANGE_HISTORY_LIMIT)%nat with (S (length (h ++ c :: cs) - MAP_CHANGE_HISTORY_LIMIT))%nat; [done|].
      rewrite length_app. cbn [length]. lia.
    + rewrite (proj2 (Nat.sub_0_le (length (h ++ [c])) _)), drop_0 by (rewrite length_app; cbn [length]; lia). by rewrite <-app_assoc.
Qed.

(** The history stays short and the generations strictly grow by one per dispatch
    (wrapping at 2^64): dispatching adds no entry beyond the limit, keeps the latest
    changes, and stamps all changes of one dispatch alike. *)
Theorem history_bounded connected attrs changes s :
  (length (ch_history s) <= MAP_CHANGE_HISTORY_LIMIT)%nat ->
  let s' := wake_waiters_with_many connected attrs changes s in
  (length (ch_history s') <= MAP_CHANGE_HISTORY_LIMIT)%nat /\
  ch_history s' = drop (length (ch_history s ++ stamped s attrs changes) - MAP_CHANGE_HISTORY_LIMIT) (ch_history s ++ stamped s attrs changes) /\
  Forall (fun c => generation c = ch_generation s') (stamped s attrs changes) /\ ch_self_refreshes s' = ∅.
Proof.
  intros Hlen. cbn zeta. unfold wake_waiters_with_many.
  assert (forall cs s0, ch_history (fold_left (record_change connected) cs s0) = fold_left (fun h c => push_history c h) cs (ch_history s0) /\
    ch_generation (fold_left (record_change connected) cs s0) = ch_generation s0 /\ ch_self_refreshes (fold_left (record_change connected) cs s0) = ch_self_refreshes s0) as Hfold.
  { induction cs as [|c cs IH]; intros s0; cbn [fold_left]; [done|]. by destruct (IH (record_change connected s0 c)) as (-> & -> & ->). }
  assert (Forall (fun c => generation c = (ch_generation s + 1) mod 2 ^ 64) (stamped s attrs changes)) as Hgen by (unfold stamped; apply Forall_map, Forall_true; done).
  destruct (stamped s attrs changes) as [|c cs] eqn:Es.
  - cbn. rewrite app_nil_r. split_and!; [done| |constructor|done]. rewrite (proj2 (Nat.sub_0_le _ _)) by done. by rewrite drop_0.
  - destruct (Hfold (c :: cs) (mkChanges ((ch_generation s + 1) mod 2 ^ 64) (ch_history s) (ch_pending s) ∅)) as (-> & -> & ->). cbn [ch_history ch_generation ch_self_refreshes].
    destruct (push_all_history (c :: cs) (ch_history s) Hlen) as [E Hle]. rewrite E. by split_and!.
Qed.

(** ** Examples *)

Module BatcherExamples.

Definition one : Changes := wake_waiters_with [1; 2] [] (pending_origin NodeAdded 5) Changes_new.
Definition two : Changes := wake_waiters_with [1; 2] [1] (pending_global FullUpdate) one.

Example self_refresh_queued : (map reasons (queue_of two 1), map reasons (queue_of two 2)) = ([[FullUpdate]; [SelfUpdate]], [[FullUpdate]]).
Proof. vm_compute. reflexivity. Qed.


Lemma history_bounded_witness :
  (length (ch_history one) <= MAP_CHANGE_HISTORY_LIMIT)%nat /\
  ch_history one = drop (length (ch_history Changes_new ++ stamped Changes_new [] [pending_origin NodeAdded 5]) - MAP_CHANGE_HISTORY_LIMIT)
                     (ch_history Changes_new ++ stamped Changes_new [] [pending_origin NodeAdded 5]) /\
  Forall (fun c => generation c = ch_generation one) (stamped Changes_new [] [pending_origin NodeAdded 5]) /\ ch_self_refreshes one = ∅.
Proof. apply (history_bounded [1; 2] [] [pending_origin NodeAdded 5] Changes_new). cbn. lia. Defined.

End BatcherExamples.
