(* ===== verification/Registry.v ===== *)
(** * Registry: the nodes a server knows and the tables beside them
    (headscale-api/src/tailscale_wire/mod.rs and wire.rs)

    [MachineRegistry] keeps the records of the nodes by node key, and beside them, by
    node id, what belongs to the streams of connected nodes and the timers that delete
    ephemeral ones.  This file has the data and the retirement of what belongs to a
    node that is gone; [NodeStore] has the writes, [Sessions] the streams and timers.

    The fields of [MachineRecord] the registry only carries along are grouped in
    [Reported], the owner's in [Owner]; [HostInfo] is a parameter.  Times are
    nanoseconds since the epoch.  An [Arc] compared with [ptr_eq] is the number it was
    made with; a set cancellation flag is a member of [sc_cancelled].  A search of a
    [HashMap] for a node id takes the first in some order, here that of the keys. *)

From stdpp Require Import base list gmap strings sets.
From Stdlib Require Import ZArith Lia Ascii.
From S2P Require Import Prelude Bytes Net GoNetip MapChange MapBatcher.

Open Scope Z_scope.

(** ** Records *)

(** FNV-1a, with the sign bit cleared. *)
Definition stable_id_from_key (hex_str : string) : Z :=
  Z.land (fold_left (fun h c => (Z.lxor h (chr c) * 0x00000100000001b3) mod 2 ^ 64) (to_chars hex_str) 0xcbf29ce484222325) 0x7fffffffffffffff.

Record Owner := mkOwner {
  ow_user : string;
  ow_user_id : option Z;
  ow_display_name : string;
  ow_profile_pic_url : string;
  ow_provider : string;
  ow_created_at : option Z;
}.

Definition no_owner : Owner := mkOwner "" None "" "" "" None.

Section records.
Context {HostInfo : Type}.

Record Reported := mkReported {
  re_auth_key_id : option Z;
  re_raw_hostname : string;
  re_os : string;
  re_os_version : string;
  re_host_info : HostInfo;
  re_disco_key : option string;
  re_endpoints : list string;
  re_home_derp : Z;
  re_created_at : Z;
  re_ssh_host_keys : list string;
  re_register_method : Z;
}.

Record MachineRecord := mkRecord {
  mr_node_id : option Z;
  mr_node_key_hex : string;
  mr_machine_key_hex : string;
  mr_owner : Owner;
  mr_hostname : string;
  mr_ipv4 : option Z;
  mr_ipv6 : option Z;
  mr_expiry : option Z;
  mr_last_seen : Z;
  mr_ephemeral : bool;
  mr_forced_tags : list string;
  mr_available_routes : list string;
  mr_approved_routes : list string;
  mr_reported : Reported;
}.

Definition with_node_id (r : MachineRecord) (v : option Z) : MachineRecord :=
  mkRecord v (mr_node_key_hex r) (mr_machine_key_hex r) (mr_owner r) (mr_hostname r) (mr_ipv4 r) (mr_ipv6 r) (mr_expiry r) (mr_last_seen r) (mr_ephemeral r)
    (mr_forced_tags r) (mr_available_routes r) (mr_approved_routes r) (mr_reported r).
Definition with_node_key (r : MachineRecord) (v : string) : MachineRecord :=
  mkRecord (mr_node_id r) v (mr_machine_key_hex r) (mr_owner r) (mr_hostname r) (mr_ipv4 r) (mr_ipv6 r) (mr_expiry r) (mr_last_seen r) (mr_ephemeral r)
    (mr_forced_tags r) (mr_available_routes r) (mr_approved_routes r) (mr_reported r).
Definition with_hostname (r : MachineRecord) (v : string) : MachineRecord :=
  mkRecord (mr_node_id r) (mr_node_key_hex r) (mr_machine_key_hex r) (mr_owner r) v (mr_ipv4 r) (mr_ipv6 r) (mr_expiry r) (mr_last_seen r) (mr_ephemeral r)
    (mr_forced_tags r) (mr_available_routes r) (mr_approved_routes r) (mr_reported r).
Definition with_expiry (r : MachineRecord) (v : option Z) : MachineRecord :=
  mkRecord (mr_node_id r) (mr_node_key_hex r) (mr_machine_key_hex r) (mr_owner r) (mr_hostname r) (mr_ipv4 r) (mr_ipv6 r) v (mr_last_seen r) (mr_ephemeral r)
    (mr_forced_tags r) (mr_available_routes r) (mr_approved_routes r) (mr_reported r).
Definition with_last_seen (r : MachineRecord) (v : Z) : MachineRecord :=
  mkRecord (mr_node_id r) (mr_node_key_hex r) (mr_machine_key_hex r) (mr_owner r) (mr_hostname r) (mr_ipv4 r) (mr_ipv6 r) (mr_expiry r) v (mr_ephemeral r)
    (mr_forced_tags r) (mr_available_routes r) (mr_approved_routes r) (mr_reported r).
Definition with_forced_tags (r : MachineRecord) (v : list string) : MachineRecord :=
  mkRecord (mr_node_id r) (mr_node_key_hex r) (mr_machine_key_hex r) (mr_owner r) (mr_hostname r) (mr_ipv4 r) (mr_ipv6 r) (mr_expiry r) (mr_last_seen r) (mr_ephemeral r)
    v (mr_available_routes r) (mr_approved_routes r) (mr_reported r).
Definition with_available_routes (r : MachineRecord) (v : list string) : MachineRecord :=
  mkRecord (mr_node_id r) (mr_node_key_hex r) (mr_machine_key_hex r) (mr_owner r) (mr_hostname r) (mr_ipv4 r) (mr_ipv6 r) (mr_expiry r) (mr_last_seen r) (mr_ephemeral r)
    (mr_forced_tags r) v (mr_approved_routes r) (mr_reported r).
Definition with_approved_routes (r : MachineRecord) (v : list string) : MachineRecord :=
  mkRecord (mr_node_id r) (mr_node_key_hex r) (mr_machine_key_hex r) (mr_owner r) (mr_hostname r) (mr_ipv4 r) (mr_ipv6 r) (mr_expiry r) (mr_last_seen r) (mr_ephemeral r)
    (mr_forced_tags r) (mr_available_routes r) v (mr_reported r).

Definition clear_user_identity (r : MachineRecord) : MachineRecord :=
  mkRecord (mr_node_id r) (mr_node_key_hex r) (mr_machine_key_hex r) no_owner (mr_hostname r) (mr_ipv4 r) (mr_ipv6 r) (mr_expiry r) (mr_last_seen r) (mr_ephemeral r)
    (mr_forced_tags r) (mr_available_routes r) (mr_approved_routes r) (mr_reported r).

Definition stable_node_id (r : MachineRecord) : Z := default (stable_id_from_key (mr_node_key_hex r)) (mr_node_id r).

Definition stable_node_id_for_key (node_key_hex : string) (r : MachineRecord) : Z := default (stable_id_from_key node_key_hex) (mr_node_id r).

Definition is_tagged (r : MachineRecord) : bool := match mr_forced_tags r with [] => false | _ => true end.

(** Go's zero time. *)
Definition GO_ZERO_TIME : Z := -62135596800 * 10 ^ 9.

Definition is_expired_at (now : Z) (r : MachineRecord) : bool :=
  match mr_expiry r with Some t => negb (t =? GO_ZERO_TIME) && (t <? now) | None => false end.

(** ** Searches *)

Notation Records := (gmap string MachineRecord).

Definition has_id (n : Z) (kv : string * MachineRecord) : bool := stable_node_id_for_key kv.1 kv.2 =? n.

Definition find_node (records : Records) (n : Z) : option (string * MachineRecord) := List.find (has_id n) (map_to_list records).

Definition node_present (records : Records) (n : Z) : bool := existsb (has_id n) (map_to_list records).

Definition ephemeral_node_key_by_id (records : Records) (n : Z) : option string :=
  fst <$> List.find (fun kv => mr_ephemeral kv.2 && has_id n kv) (map_to_list records).

Definition node_key_still_maps_to_node_id (records : Records) (node_key : string) (n : Z) : bool :=
  match records !! node_key with Some r => stable_node_id_for_key node_key r =? n | None => false end.

(** ** Streams and timers *)

Record Streams := mkStreams {
  sc_active : gmap Z nat;
  sc_delivered : gmap Z (gset Z);
  sc_sessions : gmap Z nat;
  sc_online : gmap Z bool;
  sc_generations : gmap Z Z;
  sc_epochs : gmap Z nat;
  sc_flags : gmap Z (list nat);
  sc_cancelled : gset nat;
  sc_disconnected_at : gmap Z Z;
  sc_route_health : gmap Z Z;
  sc_closing : bool;
  sc_fresh : nat;
}.

Definition put_active (s : Streams) (v : gmap Z nat) : Streams :=
  mkStreams v (sc_delivered s) (sc_sessions s) (sc_online s) (sc_generations s) (sc_epochs s) (sc_flags s) (sc_cancelled s) (sc_disconnected_at s) (sc_route_health s) (sc_closing s) (sc_fresh s).
Definition put_delivered (s : Streams) (v : gmap Z (gset Z)) : Streams :=
  mkStreams (sc_active s) v (sc_sessions s) (sc_online s) (sc_generations s) (sc_epochs s) (sc_flags s) (sc_cancelled s) (sc_disconnected_at s) (sc_route_health s) (sc_closing s) (sc_fresh s).
Definition put_sessions (s : Streams) (v : gmap Z nat) : Streams :=
  mkStreams (sc_active s) (sc_delivered s) v (sc_online s) (sc_generations s) (sc_epochs s) (sc_flags s) (sc_cancelled s) (sc_disconnected_at s) (sc_route_health s) (sc_closing s) (sc_fresh s).
Definition put_online (s : Streams) (v : gmap Z bool) : Streams :=
  mkStreams (sc_active s) (sc_delivered s) (sc_sessions s) v (sc_generations s) (sc_epochs s) (sc_flags s) (sc_cancelled s) (sc_disconnected_at s) (sc_route_health s) (sc_closing s) (sc_fresh s).
Definition put_generations (s : Streams) (v : gmap Z Z) : Streams :=
  mkStreams (sc_active s) (sc_delivered s) (sc_sessions s) (sc_online s) v (sc_epochs s) (sc_flags s) (sc_cancelled s) (sc_disconnected_at s) (sc_route_health s) (sc_closing s) (sc_fresh s).
Definition put_epochs (s : Streams) (v : gmap Z nat) : Streams :=
  mkStreams (sc_active s) (sc_delivered s) (sc_sessions s) (sc_online s) (sc_generations s) v (sc_flags s) (sc_cancelled s) (sc_disconnected_at s) (sc_route_health s) (sc_closing s) (sc_fresh s).
Definition put_flags (s : Streams) (v : gmap Z (list nat)) : Streams :=
  mkStreams (sc_active s) (sc_delivered s) (sc_sessions s) (sc_online s) (sc_generations s) (sc_epochs s) v (sc_cancelled s) (sc_disconnected_at s) (sc_route_health s) (sc_closing s) (sc_fresh s).
Definition put_cancelled (s : Streams) (v : gset nat) : Streams :=
  mkStreams (sc_active s) (sc_delivered s) (sc_sessions s) (sc_online s) (sc_generations s) (sc_epochs s) (sc_flags s) v (sc_disconnected_at s) (sc_route_health s) (sc_closing s) (sc_fresh s).
Definition put_disconnected_at (s : Streams) (v : gmap Z Z) : Streams :=
  mkStreams (sc_active s) (sc_delivered s) (sc_sessions s) (sc_online s) (sc_generations s) (sc_epochs s) (sc_flags s) (sc_cancelled s) v (sc_route_health s) (sc_closing s) (sc_fresh s).
Definition put_route_health (s : Streams) (v : gmap Z Z) : Streams :=
  mkStreams (sc_active s) (sc_delivered s) (sc_sessions s) (sc_online s) (sc_generations s) (sc_epochs s) (sc_flags s) (sc_cancelled s) (sc_disconnected_at s) v (sc_closing s) (sc_fresh s).
Definition put_closing (s : Streams) (v : bool) : Streams :=
  mkStreams (sc_active s) (sc_delivered s) (sc_sessions s) (sc_online s) (sc_generations s) (sc_epochs s) (sc_flags s) (sc_cancelled s) (sc_disconnected_at s) (sc_route_health s) v (sc_fresh s).
Definition put_fresh (s : Streams) (v : nat) : Streams :=
  mkStreams (sc_active s) (sc_delivered s) (sc_sessions s) (sc_online s) (sc_generations s) (sc_epochs s) (sc_flags s) (sc_cancelled s) (sc_disconnected_at s) (sc_route_health s) (sc_closing s) v.

Record EphemeralGcTimer := mkTimer {
  tm_generation : Z;
  tm_node_id : Z;
  tm_machine_key_hex : string;
  tm_epoch : option nat;
}.

Record EphemeralNodeGc := mkGc {
  gc_timers : gmap string EphemeralGcTimer;
  gc_next_generation : Z;
  gc_closed : bool;
}.

(** Whether a timer still belongs to the record of its key. *)
Definition timer_retained (records : Records) (key : string) (t : EphemeralGcTimer) : bool :=
  match records !! key with
  | Some r => (stable_node_id_for_key key r =? tm_node_id t) && bool_decide (mr_machine_key_hex r = tm_machine_key_hex t)
  | None => false
  end.

Definition set_timers (gc : EphemeralNodeGc) (timers : gmap string EphemeralGcTimer) : EphemeralNodeGc :=
  mkGc timers (gc_next_generation gc) (gc_closed gc).

Definition retire_absent_timers (records : Records) (gc : EphemeralNodeGc) : EphemeralNodeGc :=
  set_timers gc (filter (fun kt => timer_retained records kt.1 kt.2 = true) (gc_timers gc)).

(** The entries of a table whose node is there or was never one of those retired. *)
Definition keep_ids {A} (gone : gset Z) (m : gmap Z A) : gmap Z A := filter (fun kv => kv.1 ∉ gone) m.

Definition retired_ids (records : Records) (s : Streams) : gset Z := filter (fun n => node_present records n = false) (dom (sc_epochs s)).

Definition flags_of (s : Streams) (n : Z) : gset nat := list_to_set (default [] (sc_flags s !! n)).

(** [cancel_stream_connections] for each of them. *)
Definition cancel_ids (s : Streams) (ids : gset Z) : gset nat := set_fold (fun n acc => flags_of s n ∪ acc) (sc_cancelled s) ids.

Definition retire_streams (records : Records) (s : Streams) : Streams :=
  let gone := retired_ids records s in
  mkStreams (keep_ids gone (sc_active s)) (keep_ids gone (sc_delivered s)) (keep_ids gone (sc_sessions s)) (keep_ids gone (sc_online s))
    (keep_ids gone (sc_generations s)) (keep_ids gone (sc_epochs s)) (keep_ids gone (sc_flags s)) (cancel_ids s gone)
    (keep_ids gone (sc_disconnected_at s)) (keep_ids gone (sc_route_health s)) (sc_closing s) (sc_fresh s).

(** The tables a write may touch beside the records. *)
Record Tables := mkTables {
  tb_streams : Streams;
  tb_gc : option EphemeralNodeGc;
  tb_changes : Changes;
}.

Definition set_streams (t : Tables) (s : Streams) : Tables := mkTables s (tb_gc t) (tb_changes t).
Definition set_gc (t : Tables) (gc : option EphemeralNodeGc) : Tables := mkTables (tb_streams t) gc (tb_changes t).
Definition set_changes (t : Tables) (c : Changes) : Tables := mkTables (tb_streams t) (tb_gc t) c.

(** The flag is whether any node was retired. *)
Definition retire_absent_stream_state (records : Records) (t : Tables) : bool * Tables :=
  let gone := retired_ids records (tb_streams t) in
  (negb (bool_decide (gone = ∅)),
   mkTables (retire_streams records (tb_streams t)) (retire_absent_timers records <$> tb_gc t)
     (set_pending (tb_changes t) (keep_ids gone (ch_pending (tb_changes t))))).

(** ** Nothing is left of a retired node *)

Lemma node_present_true (records : Records) n : node_present records n = true <-> exists key r, records !! key = Some r /\ stable_node_id_for_key key r = n.
Proof.
  unfold node_present. rewrite existsb_exists. split.
  - intros ([key r] & Hin & E). apply list_elem_of_In, elem_of_map_to_list in Hin. apply Z.eqb_eq in E. eauto.
  - intros (key & r & Hr & E). exists (key, r). split; [by apply list_elem_of_In, elem_of_map_to_list|]. by apply Z.eqb_eq.
Qed.

Lemma find_node_Some (records : Records) n key r : find_node records n = Some (key, r) -> records !! key = Some r /\ stable_node_id_for_key key r = n.
Proof. unfold find_node. intros [Hin E]%find_some. apply list_elem_of_In, elem_of_map_to_list in Hin. by apply Z.eqb_eq in E. Qed.

Lemma find_node_present (records : Records) n : is_Some (find_node records n) <-> node_present records n = true.
Proof.
  unfold find_node, node_present. rewrite existsb_exists. split.
  - intros [kv Hf%find_some]. eauto.
  - intros (kv & Hin & E). destruct (List.find _ _) eqn:Ef; [by eexists|]. rewrite (find_none _ _ Ef _ Hin) in E. done.
Qed.

Lemma keep_ids_lookup {A} gone (m : gmap Z A) n : keep_ids gone m !! n = if bool_decide (n ∈ gone) then None else m !! n.
Proof.
  unfold keep_ids. case_bool_decide as Hn.
  - apply map_lookup_filter_None. right. intros x _. cbn. tauto.
  - destruct (m !! n) as [x|] eqn:E; [by apply map_lookup_filter_Some|by apply map_lookup_filter_None; left].
Qed.

Lemma keep_ids_none {A} gone (m : gmap Z A) : gone = ∅ -> keep_ids gone m = m.
Proof. intros ->. apply map_eq. intros n. by rewrite keep_ids_lookup. Qed.

Lemma retired_ids_elem (records : Records) s n : n ∈ retired_ids records s <-> n ∈ dom (sc_epochs s) /\ node_present records n = false.
Proof. unfold retired_ids. rewrite elem_of_filter. tauto. Qed.

(** The streams and timers belong to nodes of the registry. *)
Record tables_match (records : Records) (t : Tables) : Prop := {
  tm_epochs : forall n, is_Some (sc_epochs (tb_streams t) !! n) -> node_present records n = true;
  tm_timers : forall gc key timer, tb_gc t = Some gc -> gc_timers gc !! key = Some timer -> timer_retained records key timer = true;
}.

Lemma retire_matches records t : tables_match records (retire_absent_stream_state records t).2.
Proof.
  split; cbn [retire_absent_stream_state snd tb_streams tb_gc retire_streams sc_epochs].
  - intros n. rewrite keep_ids_lookup. case_bool_decide as Hn; [by intros []%is_Some_None|]. intros Hs%elem_of_dom. rewrite retired_ids_elem in Hn.
    destruct (node_present records n) eqn:E; [done|]. exfalso. by apply Hn.
  - intros gc key timer. destruct (tb_gc t) as [gc0|]; cbn; [|done]. intros [= <-]. cbn [retire_absent_timers set_timers gc_timers].
    by intros [_ Hr]%map_lookup_filter_Some.
Qed.

(** Retiring again changes nothing. *)
Lemma retire_noop records t : tables_match records t -> (retire_absent_stream_state records t).2 = t.
Proof.
  intros [He Ht]. assert (retired_ids records (tb_streams t) = ∅) as Hgone.
  { apply elem_of_equiv_empty_L. intros n [Hn Hp]%retired_ids_elem. apply elem_of_dom, He in Hn. congruence. }
  destruct t as [s gc c]. unfold retire_absent_stream_state. cbn [tb_streams tb_gc tb_changes] in *. cbn [snd]. f_equal.
  - unfold retire_streams. rewrite Hgone. rewrite !keep_ids_none by done. unfold cancel_ids. rewrite set_fold_empty. by destruct s.
  - destruct gc as [gc|]; [|done]. cbn. f_equal. destruct gc as [timers next closed]. unfold retire_absent_timers, set_timers. cbn. f_equal.
    apply map_filter_id. intros key timer Hk. cbn. by apply (Ht _ key timer eq_refl).
  - rewrite Hgone, keep_ids_none by done. by destruct c.
Qed.

End records.
