(* ===== verification/NodeStore.v ===== *)
(** * NodeStore: writes to the registry, one at a time and in batches
    (headscale-api/src/tailscale_wire/mod.rs)

    A write clones the records, changes the clone and publishes it.  Without a writer
    thread every caller does so itself; with one, callers queue their writes and the
    thread applies a batch of them to one clone and publishes it once.  The two must be
    the same to the callers.  Closures queued as updates also touch the tables beside
    the records, and hand results back through a cell ([Captured]).  The side tables of
    the native store (feature "admin") are not part of the model. *)

From stdpp Require Import base list gmap strings sets.
From Stdlib Require Import ZArith Lia.
From S2P Require Import Prelude MapChange MapBatcher Registry.

Open Scope Z_scope.

Section store.
Context {HostInfo : Type}.

Notation MachineRecord := (@MachineRecord HostInfo).
Notation Records := (gmap string MachineRecord).

(** ** Outcomes *)

Record NodeStoreBoolUpdateOutcome := mkBoolOutcome {
  bo_applied : bool;
  bo_publish_snapshot : bool;
  bo_change : option PendingMapChange;
  bo_clear_unhealthy_route_state : option Z;
  bo_final_presence_node_id : option Z;
}.

Definition unchanged (applied : bool) : NodeStoreBoolUpdateOutcome := mkBoolOutcome applied false None None None.
Definition quiet (applied : bool) : NodeStoreBoolUpdateOutcome := mkBoolOutcome applied applied None None None.

(** [NodeStoreBoolUpdateOutcome { final_presence_node_id: Some(n), ..quiet(true) }]. *)
Definition quiet_at (n : Z) : NodeStoreBoolUpdateOutcome := mkBoolOutcome true true None None (Some n).
Definition quiet_clearing (n : Z) : NodeStoreBoolUpdateOutcome := mkBoolOutcome true true None (Some n) (Some n).

Definition mark_absent_after_batch (o : NodeStoreBoolUpdateOutcome) : NodeStoreBoolUpdateOutcome :=
  mkBoolOutcome false false None None (bo_final_presence_node_id o).

Record NodeStoreManyUpdateOutcome := mkManyOutcome {
  mo_applied : nat;
  mo_publish_snapshot : bool;
  mo_change : option PendingMapChange;
  mo_clear_unhealthy_route_states : list Z;
  mo_missing_node_keys : list string;
  mo_affected_node_keys : list string;
  mo_affected_node_ids : list Z;
  mo_final_presence_node_ids : list Z;
}.

Definition many_unchanged : NodeStoreManyUpdateOutcome := mkManyOutcome 0 false None [] [] [] [] [].

Definition many_mark_absent_after_batch (o : NodeStoreManyUpdateOutcome) : NodeStoreManyUpdateOutcome :=
  mkManyOutcome 0 false None [] (mo_missing_node_keys o) (mo_affected_node_keys o) (mo_affected_node_ids o) (mo_final_presence_node_ids o).

Definition revalidate_final_presence_after_batch (final : Records) (o : NodeStoreManyUpdateOutcome) : NodeStoreManyUpdateOutcome :=
  match mo_final_presence_node_ids o with
  | [] => o
  | ids =>
      let present : gset Z := list_to_set (List.filter (node_present final) ids) in
      if bool_decide (present = ∅) then many_mark_absent_after_batch o
      else mkManyOutcome (Nat.min (mo_applied o) (size present)) (mo_publish_snapshot o) (mo_change o)
             (List.filter (fun n => bool_decide (n ∈ present)) (mo_clear_unhealthy_route_states o)) (mo_missing_node_keys o)
             (mo_affected_node_keys o) (mo_affected_node_ids o) (List.filter (fun n => bool_decide (n ∈ present)) ids)
  end.

Record RemovedNode := mkRemoved { rn_id : Z; rn_ipv4 : option Z; rn_ipv6 : option Z }.

Definition from_record (key : string) (r : MachineRecord) : RemovedNode := mkRemoved (stable_node_id_for_key key r) (mr_ipv4 r) (mr_ipv6 r).

(** What the closures leave in the cells their callers read. *)
Inductive Captured :=
| Nothing
| GotConnection (record : MachineRecord) (generation : Z) (should_be_online : bool) (epoch : nat)
| GotDisconnect (record : MachineRecord) (now : Z)
| GotExpiry (record : MachineRecord) (online_changed : bool)
| GotRemoved (removed : RemovedNode)
| GotReleases (addresses : list (option Z * option Z))
| GotChanges (changes : list PendingMapChange)
| GotRegistration (record : MachineRecord) (changes : list PendingMapChange) (local_policy_change : bool).

Definition Update (Outcome : Type) : Type := Records -> Tables -> Records * Tables * Outcome * Captured.

(** ** Work and completions *)

Inductive NodeStoreWriteWork :=
| Upsert (node_key : string) (rec : MachineRecord)
| Delete (node_key : string)
| UpdateBool (update : Update NodeStoreBoolUpdateOutcome)
| UpdateMany (update : Update NodeStoreManyUpdateOutcome)
| Rekey (old_node_key new_node_key : string) (rec : MachineRecord) (changes : list PendingMapChange) (final_presence_node_id : option Z)
| Wake.

Inductive NodeStoreWriteCompletion :=
| BoolDone (result : bool)
| DeleteDone (removed : option RemovedNode)
| UpdateBoolDone (outcome : NodeStoreBoolUpdateOutcome) (captured : Captured)
| UpdateManyDone (outcome : NodeStoreManyUpdateOutcome) (captured : Captured)
| UnitDone (changes : list PendingMapChange) (final_presence_node_id : option Z).

(** ** Direct writes *)

Definition apply_nodestore_upsert_direct (node_key : string) (rec : MachineRecord) (records : Records) (t : Tables) : bool * Records * Tables :=
  let next := <[node_key := rec]> records in
  (bool_decide (is_Some (records !! node_key)), next, (retire_absent_stream_state next t).2).

Definition apply_nodestore_delete_direct (node_key : string) (records : Records) (t : Tables) : option RemovedNode * Records * Tables :=
  let next := delete node_key records in
  (from_record node_key <$> records !! node_key, next, (retire_absent_stream_state next t).2).

(** The store phase of an update; the caller then wakes the streams with the change of
    the outcome. *)
Definition apply_nodestore_bool_update_direct (update : Update NodeStoreBoolUpdateOutcome) (records : Records) (t : Tables)
  : NodeStoreBoolUpdateOutcome * Captured * Records * Tables :=
  let '(next, t, outcome, captured) := update records t in
  if bo_publish_snapshot outcome then (outcome, captured, next, (retire_absent_stream_state next t).2) else (outcome, captured, records, t).

Definition apply_nodestore_many_update_direct (update : Update NodeStoreManyUpdateOutcome) (records : Records) (t : Tables)
  : NodeStoreManyUpdateOutcome * Captured * Records * Tables :=
  let '(next, t, outcome, captured) := update records t in
  if mo_publish_snapshot outcome then (outcome, captured, next, (retire_absent_stream_state next t).2) else (outcome, captured, records, t).

Definition rekeyed (old_node_key new_node_key : string) (rec : MachineRecord) (records : Records) : Records :=
  <[new_node_key := rec]> (if bool_decide (old_node_key = new_node_key) then records else delete old_node_key records).

Definition apply_nodestore_rekey_direct (old_node_key new_node_key : string) (rec : MachineRecord) (records : Records) (t : Tables) : Records * Tables :=
  let next := rekeyed old_node_key new_node_key rec records in (next, (retire_absent_stream_state next t).2).

(** The write a caller does itself. *)
Definition direct_write (work : NodeStoreWriteWork) (records : Records) (t : Tables) : list NodeStoreWriteCompletion * Records * Tables :=
  match work with
  | Upsert key rec => let '(existed, records, t) := apply_nodestore_upsert_direct key rec records t in ([BoolDone existed], records, t)
  | Delete key => let '(removed, records, t) := apply_nodestore_delete_direct key records t in ([DeleteDone removed], records, t)
  | UpdateBool update => let '(outcome, captured, records, t) := apply_nodestore_bool_update_direct update records t in ([UpdateBoolDone outcome captured], records, t)
  | UpdateMany update => let '(outcome, captured, records, t) := apply_nodestore_many_update_direct update records t in ([UpdateManyDone outcome captured], records, t)
  | Rekey old new rec changes presence => let '(records, t) := apply_nodestore_rekey_direct old new rec records t in ([UnitDone changes presence], records, t)
  | Wake => ([], records, t)
  end.

(** ** Batches *)

(** One element of the loop over the batch, on the clone: the completion and whether the
    clone is to be published. *)
Definition batch_step (work : NodeStoreWriteWork) (next : Records) (t : Tables) : list NodeStoreWriteCompletion * bool * Records * Tables :=
  let '(completions, publish, next, t) :=
    match work with
    | Upsert key rec => ([BoolDone (bool_decide (is_Some (next !! key)))], true, <[key := rec]> next, t)
    | Delete key => ([DeleteDone (from_record key <$> next !! key)], true, delete key next, t)
    | UpdateBool update => let '(next, t, outcome, captured) := update next t in ([UpdateBoolDone outcome captured], bo_publish_snapshot outcome, next, t)
    | UpdateMany update => let '(next, t, outcome, captured) := update next t in ([UpdateManyDone outcome captured], mo_publish_snapshot outcome, next, t)
    | Rekey old new rec changes presence => ([UnitDone changes presence], true, rekeyed old new rec next, t)
    | Wake => ([], false, next, t)
    end in
  (completions, publish, next, (retire_absent_stream_state next t).2).

Fixpoint batch_loop (batch : list NodeStoreWriteWork) (next : Records) (t : Tables) : list NodeStoreWriteCompletion * bool * Records * Tables :=
  match batch with
  | [] => ([], false, next, t)
  | work :: rest =>
      let '(c, publish, next, t) := batch_step work next t in
      let '(cs, publish', next, t) := batch_loop rest next t in
      (c ++ cs, publish || publish', next, t)
  end.

(** A reply that speaks of a node is withdrawn when the node is gone after the batch. *)
Definition revalidate_completion (final : Records) (c : NodeStoreWriteCompletion) : NodeStoreWriteCompletion :=
  match c with
  | UpdateBoolDone outcome captured =>
      match bo_final_presence_node_id outcome with
      | Some n => if node_present final n then c else UpdateBoolDone (mark_absent_after_batch outcome) captured
      | None => c
      end
  | UnitDone changes (Some n) => if node_present final n then c else UnitDone [] (Some n)
  | UpdateManyDone outcome captured => UpdateManyDone (revalidate_final_presence_after_batch final outcome) captured
  | _ => c
  end.

(** The store phase of [apply_nodestore_write_batch]. *)
Definition batch_store (batch : list NodeStoreWriteWork) (records : Records) (t : Tables) : list NodeStoreWriteCompletion * Records * Tables :=
  let '(cs, publish, next, t) := batch_loop batch records t in
  (map (revalidate_completion next) cs, (if publish then next else records), t).

(** The changes a completion announces. *)
Definition completion_changes (c : NodeStoreWriteCompletion) : list PendingMapChange :=
  match c with
  | UpdateBoolDone outcome _ => match bo_change outcome with Some change => [change] | None => [] end
  | UpdateManyDone outcome _ => match mo_change outcome with Some change => [change] | None => [] end
  | UnitDone changes _ => changes
  | _ => []
  end.

Definition connected_ids (s : Streams) : list Z := sort_by Z.compare (map fst (map_to_list (sc_active s))).

Definition wake (attrs : list Z) (changes : list PendingMapChange) (t : Tables) : Tables :=
  set_changes t (wake_waiters_with_many (connected_ids (tb_streams t)) attrs changes (tb_changes t)).

(** The completions in order: each wakes the streams if it has changes, and a deletion
    whose caller is gone gives the addresses back.  [drained] are the answers of the
    policy store to the wakes. *)
Fixpoint finish_batch (completions : list (NodeStoreWriteCompletion * bool)) (drained : list (list Z)) (t : Tables) : list RemovedNode * Tables :=
  match completions with
  | [] => ([], t)
  | (c, caller_gone) :: rest =>
      let released := match c, caller_gone with DeleteDone (Some removed), true => [removed] | _, _ => [] end in
      let '(drained, t) := match completion_changes c with
                           | [] => (drained, t)
                           | changes => (tail drained, wake (default [] (head drained)) changes t)
                           end in
      let '(more, t) := finish_batch rest drained t in (released ++ more, t)
  end.

(** [gone] tells, write by write, whether its caller is gone when it is answered. *)
Definition apply_nodestore_write_batch (batch : list NodeStoreWriteWork) (gone : list bool) (drained : list (list Z)) (records : Records) (t : Tables)
  : list NodeStoreWriteCompletion * list RemovedNode * Records * Tables :=
  match batch with
  | [] => ([], [], records, t)
  | _ =>
      let '(cs, records, t) := batch_store batch records t in
      let '(released, t) := finish_batch (zip_with pair cs (gone ++ replicate (length cs) false)) drained t in
      (cs, released, records, t)
  end.

(** ** A batch is a sequence of writes *)

Fixpoint direct_writes (batch : list NodeStoreWriteWork) (records : Records) (t : Tables) : list NodeStoreWriteCompletion * Records * Tables :=
  match batch with
  | [] => ([], records, t)
  | work :: rest =>
      let '(c, records, t) := direct_write work records t in
      let '(cs, records, t) := direct_writes rest records t in (c ++ cs, records, t)
  end.

(** An update that does not ask to publish has left the records, the epochs and the
    timers as they were. *)
Definition honest {O} (publishes : O -> bool) (u : Update O) : Prop :=
  forall records t, let '(next, t', outcome, _) := u records t in
  publishes outcome = false -> next = records /\ sc_epochs (tb_streams t') = sc_epochs (tb_streams t) /\ tb_gc t' = tb_gc t.

Definition honest_work (work : NodeStoreWriteWork) : Prop :=
  match work with UpdateBool u => honest bo_publish_snapshot u | UpdateMany u => honest mo_publish_snapshot u | _ => True end.

Lemma matches_same (records : Records) (t t' : Tables) :
  tables_match records t -> sc_epochs (tb_streams t') = sc_epochs (tb_streams t) -> tb_gc t' = tb_gc t -> tables_match records t'.
Proof. intros [He Ht] E1 E2. split; [by rewrite E1|by rewrite E2]. Qed.

(** One element of the batch does what the caller would have done itself. *)
Lemma batch_step_direct work records t :
  tables_match records t -> honest_work work ->
  let '(c, publish, next, t') := batch_step work records t in
  direct_write work records t = (c, next, t') /\ tables_match next t' /\ (publish = false -> next = records).
Proof.
  intros Hm Hh. unfold batch_step, direct_write. destruct work as [key rec|key|u|u|old new rec changes presence|]; cbn [honest_work] in Hh.
  1, 2, 5: split_and!; [done|apply retire_matches|done].
  - specialize (Hh records t). unfold apply_nodestore_bool_update_direct. destruct (u records t) as [[[next t'] outcome] captured].
    destruct (bo_publish_snapshot outcome) eqn:Ep; [split_and!; [done|apply retire_matches|done]|]. destruct (Hh eq_refl) as (-> & E1 & E2).
    pose proof (matches_same _ _ _ Hm E1 E2) as Hm'. rewrite retire_noop by done. done.
  - specialize (Hh records t). unfold apply_nodestore_many_update_direct. destruct (u records t) as [[[next t'] outcome] captured].
    destruct (mo_publish_snapshot outcome) eqn:Ep; [split_and!; [done|apply retire_matches|done]|]. destruct (Hh eq_refl) as (-> & E1 & E2).
    pose proof (matches_same _ _ _ Hm E1 E2) as Hm'. rewrite retire_noop by done. done.
  - rewrite retire_noop by done. done.
Qed.

Lemma batch_loop_direct batch : forall records t,
  tables_match records t -> Forall honest_work batch ->
  let '(cs, publish, next, t') := batch_loop batch records t in
  direct_writes batch records t = (cs, next, t') /\ tables_match next t' /\ (publish = false -> next = records).
Proof.
  induction batch as [|work batch IH]; intros records t Hm Hh; cbn [batch_loop direct_writes]; [done|].
  apply Forall_cons in Hh as [Hw Hh]. pose proof (batch_step_direct work records t Hm Hw) as Hs.
  destruct (batch_step work records t) as [[[c publish] next] t1]. destruct Hs as (-> & Hm1 & Hp1).
  specialize (IH next t1 Hm1 Hh). destruct (batch_loop batch next t1) as [[[cs publish'] next'] t2]. destruct IH as (-> & Hm2 & Hp2).
  split_and!; [done|done|]. intros [E1 E2]%orb_false_iff. by rewrite Hp2, Hp1.
Qed.

(** Batching is invisible: applying a batch to one clone leaves the records, the
    stream tables and the timers the writes would have left one after the other, and
    gives every caller the reply of its own write, except that a reply about a node
    that a later write of the batch removed is withdrawn.  It needs that an update that
    does not ask to publish has changed nothing. *)
Theorem batch_is_sequence batch records t :
  tables_match records t -> Forall honest_work batch ->
  let '(cs, next, t') := direct_writes batch records t in
  batch_store batch records t = (map (revalidate_completion next) cs, next, t') /\ tables_match next t'.
Proof.
  intros Hm Hh. pose proof (batch_loop_direct batch records t Hm Hh) as Hl. unfold batch_store.
  destruct (batch_loop batch records t) as [[[cs publish] next] t']. destruct Hl as (-> & Hm' & Hp). split; [|done].
  destruct publish; [done|]. by rewrite Hp.
Qed.
End store.
