(* ===== verification/NodeUpdates.v ===== *)
(** * NodeUpdates: the operations on nodes
    (headscale-api/src/tailscale_wire/mod.rs)

    Expiry, renaming, tags, routes, deletion and the two sweeps: each is an update of the
    store ([NodeStore]) followed by what its caller does with the outcome, which is to
    refresh the policy's inputs and wake the streams.  The answers of the policy store,
    whether a node relays for others, whether refreshing its inputs changed or failed,
    and the nodes whose attributes changed, are arguments.  The clock is [now]. *)

From stdpp Require Import base list gmap strings sets.
From Stdlib Require Import ZArith Lia.
From S2P Require Import Prelude Bytes Net GoNetip PrimaryRoutes IpAlloc GivenName MapChange MapBatcher Registry NodeStore.

Open Scope Z_scope.

Section updates.
Context {HostInfo : Type} `{NetipText}.

Notation MachineRecord := (@MachineRecord HostInfo).
Notation Records := (gmap string MachineRecord).
Notation BoolUpdate := (@Update HostInfo NodeStoreBoolUpdateOutcome).
Notation ManyUpdate := (@Update HostInfo NodeStoreManyUpdateOutcome).

(** ** Updates *)

Definition record_is_subnet_router (r : MachineRecord) : bool :=
  negb (is_nil (active_primary_routes (mr_available_routes r) (mr_approved_routes r))).

(** [relay] is the policy's [is_relay_or_via_target]; without a policy it is false. *)
Definition record_needs_peer_recompute (relay : MachineRecord -> bool) (r : MachineRecord) : bool := record_is_subnet_router r || relay r.

Definition update_online_after_expiry (now : Z) (r : MachineRecord) (n : Z) (s : Streams) : bool * Streams :=
  let should_be_online := (0 <? default 0 (sc_sessions s !! n))%nat && negb (is_expired_at now r) in
  let was_online := default false (sc_online s !! n) in
  (xorb was_online should_be_online, put_online s (<[n := should_be_online]> (sc_online s))).

Definition expiry_update (key : string) (expiry : option Z) (now : Z) : BoolUpdate := fun records t =>
  match records !! key with
  | None => (records, t, unchanged false, Nothing)
  | Some r =>
      let n := stable_node_id_for_key key r in
      let r := with_expiry r expiry in
      let '(changed, s) := update_online_after_expiry now r n (tb_streams t) in
      (<[key := r]> records, set_streams t s, quiet_at n, GotExpiry r changed)
  end.

(** [set_node_expiry_quiet] finds the node by its id. *)
Definition node_expiry_update (n : Z) (expiry : option Z) (now : Z) : BoolUpdate := fun records t =>
  match find_node records n with
  | None => (records, t, unchanged false, Nothing)
  | Some (key, r) =>
      let r := with_expiry r expiry in
      let '(changed, s) := update_online_after_expiry now r n (tb_streams t) in
      (<[key := r]> records, set_streams t s, quiet_at n, GotExpiry r changed)
  end.

Definition name_in_use (records : Records) (key : string) (name : string) : bool :=
  existsb (fun kv => negb (bool_decide (kv.1 = key)) && bool_decide (mr_hostname kv.2 = name)) (map_to_list records).

Definition rename_update (key : string) (new_hostname : string) : BoolUpdate := fun records t =>
  if negb (valid_given_name_label (to_chars new_hostname)) then (records, t, unchanged false, Nothing)
  else if name_in_use records key new_hostname then (records, t, unchanged false, Nothing)
  else match records !! key with
       | None => (records, t, unchanged false, Nothing)
       | Some r => (<[key := with_hostname r new_hostname]> records, t, quiet_at (stable_node_id_for_key key r), Nothing)
       end.

Definition touch_last_seen_update (key : string) (now : Z) : BoolUpdate := fun records t =>
  match records !! key with
  | Some r => (<[key := with_last_seen r now]> records, t, quiet true, Nothing)
  | None => (records, t, unchanged false, Nothing)
  end.

Definition tags_update (key : string) (tags : list string) : BoolUpdate := fun records t =>
  match records !! key with
  | Some r => (<[key := clear_user_identity (with_forced_tags r tags)]> records, t, quiet_at (stable_node_id_for_key key r), Nothing)
  | None => (records, t, unchanged false, Nothing)
  end.

(** Whether nothing of what is advertised is approved any more. *)
Definition nothing_served (r : MachineRecord) : bool := is_nil (active_approved_routes (mr_available_routes r) (mr_approved_routes r)).

Definition approved_update (key : string) (routes : list string) : BoolUpdate := fun records t =>
  match records !! key with
  | Some r =>
      let n := stable_node_id_for_key key r in
      let r := with_approved_routes r routes in
      (<[key := r]> records, t, (if nothing_served r then quiet_clearing n else quiet_at n), Nothing)
  | None => (records, t, unchanged false, Nothing)
  end.

Definition available_update (key : string) (routes : list string) : BoolUpdate := fun records t =>
  match records !! key with
  | Some r =>
      if bool_decide (mr_available_routes r = routes) then (records, t, unchanged true, Nothing)
      else (<[key := with_available_routes r routes]> records, t, quiet_at (stable_node_id_for_key key r), Nothing)
  | None => (records, t, unchanged false, Nothing)
  end.

(** State of the loop over the records: approvals not yet used, records, ids and ids
    whose health mark is cleared. *)
Definition approval_step (acc : gmap Z (list string) * Records * list Z * list Z) (kv : string * MachineRecord) :=
  let '(updates, records, ids, clear) := acc in
  let n := stable_node_id_for_key kv.1 kv.2 in
  match updates !! n with
  | None => acc
  | Some routes =>
      let r := with_approved_routes kv.2 routes in
      (delete n updates, <[kv.1 := r]> records, ids ++ [n], if nothing_served r then clear ++ [n] else clear)
  end.

Definition approvals_update (updates : list (Z * list string)) : ManyUpdate := fun records t =>
  let '(_, next, ids, clear) := fold_left approval_step (map_to_list records) (list_to_map (rev updates), records, [], []) in
  let ids := sort_by Z.compare ids in
  (next, t, mkManyOutcome (length ids) (negb (is_nil ids)) None clear [] [] [] ids, Nothing).

Definition approve_many_step (acc : Records * list Z * list Z) (update : string * list string) : Records * list Z * list Z :=
  let '(records, ids, clear) := acc in
  match records !! update.1 with
  | None => acc
  | Some r =>
      if bool_decide (mr_approved_routes r = update.2) then acc
      else let n := stable_node_id_for_key update.1 r in
           let r := with_approved_routes r update.2 in
           (<[update.1 := r]> records, ids ++ [n], if nothing_served r then clear ++ [n] else clear)
  end.

Definition approve_many_update (updates : list (string * list string)) : ManyUpdate := fun records t =>
  let missing := List.filter (fun key => negb (bool_decide (is_Some (records !! key)))) (map fst updates) in
  match missing with
  | _ :: _ => (records, t, mkManyOutcome 0 false None [] missing [] [] [], Nothing)
  | [] =>
      let '(next, ids, clear) := fold_left approve_many_step updates (records, [], []) in
      (next, t, mkManyOutcome (length ids) (negb (is_nil ids)) None clear [] [] [] ids, Nothing)
  end.

(** Who the ephemeral sweep deletes. *)
Definition collectable (deadline : Z) (s : Streams) (kv : string * MachineRecord) : bool :=
  let n := stable_node_id_for_key kv.1 kv.2 in
  mr_ephemeral kv.2 && (mr_last_seen kv.2 <? deadline) && (default 0 (sc_sessions s !! n) =? 0)%nat && negb (default false (sc_online s !! n)).

Definition gc_update (deadline : Z) : ManyUpdate := fun records t =>
  match List.filter (collectable deadline (tb_streams t)) (map_to_list records) with
  | [] => (records, t, many_unchanged, Nothing)
  | to_drop =>
      (foldr delete records (map fst to_drop), t,
       mkManyOutcome (length to_drop) true None [] [] (map fst to_drop) (map (fun kv => stable_node_id_for_key kv.1 kv.2) to_drop) [],
       GotReleases (map (fun kv => (mr_ipv4 kv.2, mr_ipv6 kv.2)) to_drop))
  end.

Definition epoch_current (s : Streams) (n : Z) (epoch : nat) : bool := bool_decide (sc_epochs s !! n = Some epoch).

Definition gc_owned_update (key : string) (n : Z) (machine_key : string) (epoch : option nat) : BoolUpdate := fun records t =>
  if negb (match epoch with Some e => epoch_current (tb_streams t) n e | None => true end) then (records, t, unchanged false, Nothing)
  else match records !! key with
       | Some r => if (stable_node_id_for_key key r =? n) && bool_decide (mr_machine_key_hex r = machine_key)
                   then (delete key records, t, quiet true, GotRemoved (from_record key r))
                   else (records, t, unchanged false, Nothing)
       | None => (records, t, unchanged false, Nothing)
       end.

(** Whether the key of a node expired after [last_check] and by [now]. *)
Definition expiry_crossed (last_check now : Z) (r : MachineRecord) : bool :=
  is_expired_at now r && match mr_expiry r with Some e => last_check <? e | None => false end.

Definition expire_step (relay : MachineRecord -> bool) (acc : gmap Z bool * list PendingMapChange * list string * list Z) (kv : string * MachineRecord) :=
  let '(online, changes, keys, ids) := acc in
  let n := stable_node_id_for_key kv.1 kv.2 in
  (<[n := false]> online,
   changes ++ [lifecycle_peer NodeAdded n (default false (online !! n) && record_needs_peer_recompute relay kv.2)],
   keys ++ [kv.1], ids ++ [n]).

Definition expire_update (candidates : gset Z) (last_check now : Z) (relay : MachineRecord -> bool) : ManyUpdate := fun records t =>
  let crossed := List.filter (fun kv => bool_decide (stable_node_id_for_key kv.1 kv.2 ∈ candidates) && expiry_crossed last_check now kv.2) (map_to_list records) in
  let '(online, changes, keys, ids) := fold_left (expire_step relay) crossed (sc_online (tb_streams t), [], [], []) in
  (records, set_streams t (put_online (tb_streams t) online),
   mkManyOutcome (length ids) (negb (length ids =? 0)%nat) None [] [] keys ids ids, GotChanges changes).

(** ** Handlers *)

Record MachineRegistry := mkRegistry {
  rg_records : Records;
  rg_tables : Tables;
  rg_primary : PrimaryRouteState;
  rg_allocator : option CidrIpAllocator;
}.

Definition set_tables (g : MachineRegistry) (t : Tables) : MachineRegistry := mkRegistry (rg_records g) t (rg_primary g) (rg_allocator g).
Definition set_store (g : MachineRegistry) (records : Records) (t : Tables) : MachineRegistry := mkRegistry records t (rg_primary g) (rg_allocator g).
Definition set_primary (g : MachineRegistry) (primary : PrimaryRouteState) : MachineRegistry := mkRegistry (rg_records g) (rg_tables g) primary (rg_allocator g).

(** What the policy store answers to one call: the nodes whose attributes changed since
    the last wake, and the outcome of refreshing its inputs. *)
Record PolicyAnswer := mkAnswer { pa_attrs : list Z; pa_refresh : result (option bool) string }.

Definition wake_waiters (attrs : list Z) (changes : list PendingMapChange) (g : MachineRegistry) : MachineRegistry := set_tables g (wake attrs changes (rg_tables g)).

Definition clear_unhealthy_all (ids : list Z) (g : MachineRegistry) : MachineRegistry := set_primary g (fold_left clear_unhealthy ids (rg_primary g)).

Definition apply_nodestore_bool_update (attrs : list Z) (u : BoolUpdate) (g : MachineRegistry) : NodeStoreBoolUpdateOutcome * Captured * MachineRegistry :=
  let '(outcome, captured, records, t) := apply_nodestore_bool_update_direct u (rg_records g) (rg_tables g) in
  let g := set_store g records t in
  let g := match bo_change outcome with Some change => wake_waiters attrs [change] g | None => g end in
  (outcome, captured, clear_unhealthy_all (option_list (bo_clear_unhealthy_route_state outcome)) g).

Definition apply_nodestore_many_update (attrs : list Z) (u : ManyUpdate) (g : MachineRegistry) : NodeStoreManyUpdateOutcome * Captured * MachineRegistry :=
  let '(outcome, captured, records, t) := apply_nodestore_many_update_direct u (rg_records g) (rg_tables g) in
  let g := set_store g records t in
  let g := match mo_change outcome with Some change => wake_waiters attrs [change] g | None => g end in
  (outcome, captured, clear_unhealthy_all (mo_clear_unhealthy_route_states outcome) g).

Definition release_addresses (ipv4 ipv6 : option Z) (g : MachineRegistry) : MachineRegistry :=
  mkRegistry (rg_records g) (rg_tables g) (rg_primary g) ((fun a => IpAlloc.release_addresses a ipv4 ipv6) <$> rg_allocator g).

Definition wake_policy_change (attrs : list Z) (origin : option Z) (g : MachineRegistry) : MachineRegistry :=
  let change := pending_global PolicyChange in
  wake_waiters attrs [mkPending (pm_reason change) (pm_companion_reasons change) (pm_target_node_id change) origin (pm_content change)] g.

Definition wake_node_change (attrs : list Z) (reason : MapChangeReason) (n : Z) (g : MachineRegistry) : MachineRegistry :=
  wake_waiters attrs [pending_origin reason n] g.

Definition finish_volatile_node_update (a : PolicyAnswer) (outcome : NodeStoreBoolUpdateOutcome) (reason : MapChangeReason) (g : MachineRegistry)
  : result bool string * MachineRegistry :=
  match bo_applied outcome, bo_final_presence_node_id outcome with
  | true, Some n =>
      match pa_refresh a with
      | Err e => (Err e, g)
      | Ok policy_changed =>
          let attrs := pa_attrs a in
          (Ok true,
           match reason, policy_changed with
           | TagUpdate, Some true => wake_policy_change attrs (Some n) g
           | TagUpdate, Some false => wake_node_change attrs NodeAdded n g
           | PolicyChange, _ => wake_policy_change attrs None g
           | _, Some true => wake_policy_change attrs None g
           | RouteUpdate, _ => wake_waiters attrs [broadcast_peer reason n] g
           | _, _ => wake_node_change attrs reason n g
           end)
      end
  | applied, _ => (Ok applied, g)
  end.

Definition node_needs_peer_recompute (relay : MachineRecord -> bool) (n : Z) (g : MachineRegistry) : bool :=
  match find_node (rg_records g) n with Some (_, r) => record_needs_peer_recompute relay r | None => false end.

Definition wake_node_expiry_change (attrs : list Z) (relay : MachineRecord -> bool) (n : Z) (policy_changed online_changed : bool) (g : MachineRegistry) : MachineRegistry :=
  let added := pending_origin NodeAdded n in
  let change :=
    if policy_changed
    then let change := pending_global PolicyChange in
         mkPending (pm_reason change) (pm_companion_reasons change ++ [NodeAdded]) (pm_target_node_id change) (pm_origin_node_id added)
           (content_merge (pm_content change) (pm_content added))
    else if online_changed && node_needs_peer_recompute relay n g then with_companion_reason added PolicyChange
    else added in
  wake_waiters attrs [change] g.

Definition try_set_expiry (a : PolicyAnswer) (relay : MachineRecord -> bool) (now : Z) (key : string) (expiry : option Z) (g : MachineRegistry)
  : result bool string * MachineRegistry :=
  let '(outcome, captured, g) := apply_nodestore_bool_update (pa_attrs a) (expiry_update key expiry now) g in
  match bo_applied outcome, bo_final_presence_node_id outcome with
  | true, Some n =>
      match pa_refresh a with
      | Err e => (Err e, g)
      | Ok changed =>
          let online_changed := match captured with GotExpiry _ c => c | _ => false end in
          (Ok true, wake_node_expiry_change (pa_attrs a) relay n (bool_decide (changed = Some true)) online_changed g)
      end
  | applied, _ => (Ok applied, g)
  end.

Definition set_node_expiry_quiet (now : Z) (n : Z) (expiry : option Z) (g : MachineRegistry) : option (MachineRecord * bool) * MachineRegistry :=
  let '(outcome, captured, g) := apply_nodestore_bool_update [] (node_expiry_update n expiry now) g in
  (if bo_applied outcome then match captured with GotExpiry r c => Some (r, c) | _ => None end else None, g).

Definition try_rename (a : PolicyAnswer) (base_domain : string) (key new_hostname : string) (g : MachineRegistry) : result bool string * MachineRegistry :=
  match validate_given_name (to_chars new_hostname) (to_chars base_domain) with
  | Err _ => (Ok false, g)
  | Ok _ => let '(outcome, _, g) := apply_nodestore_bool_update (pa_attrs a) (rename_update key new_hostname) g in finish_volatile_node_update a outcome NodeAdded g
  end.

Definition touch_last_seen (now : Z) (key : string) (g : MachineRegistry) : bool * MachineRegistry :=
  let '(outcome, _, g) := apply_nodestore_bool_update [] (touch_last_seen_update key now) g in (bo_applied outcome, g).

(** [tags.sort(); tags.dedup()]. *)
Definition sorted_tags (tags : list string) : list string := sort_dedup tags.

Definition try_set_forced_tags (a : PolicyAnswer) (key : string) (tags : list string) (g : MachineRegistry) : result bool string * MachineRegistry :=
  match tags with
  | [] => (Ok false, g)
  | _ => let '(outcome, _, g) := apply_nodestore_bool_update (pa_attrs a) (tags_update key (sorted_tags tags)) g in finish_volatile_node_update a outcome TagUpdate g
  end.

Definition try_set_approved_routes (a : PolicyAnswer) (key : string) (routes : list string) (g : MachineRegistry) : result bool string * MachineRegistry :=
  let '(outcome, _, g) := apply_nodestore_bool_update (pa_attrs a) (approved_update key routes) g in finish_volatile_node_update a outcome PolicyChange g.

Definition try_set_available_routes (a : PolicyAnswer) (key : string) (routes : list string) (g : MachineRegistry) : result bool string * MachineRegistry :=
  let '(outcome, _, g) := apply_nodestore_bool_update (pa_attrs a) (available_update key routes) g in finish_volatile_node_update a outcome RouteUpdate g.

Definition apply_policy_route_approvals (updates : list (Z * list string)) (g : MachineRegistry) : list Z * MachineRegistry :=
  match updates with
  | [] => ([], g)
  | _ => let '(outcome, _, g) := apply_nodestore_many_update [] (approvals_update updates) g in (mo_final_presence_node_ids outcome, g)
  end.

Definition try_set_approved_routes_many (a : PolicyAnswer) (updates : list (string * list string)) (g : MachineRegistry) : result (nat * list string) string * MachineRegistry :=
  match updates with
  | [] => (Ok (0%nat, []), g)
  | _ =>
      let '(outcome, _, g) := apply_nodestore_many_update (pa_attrs a) (approve_many_update updates) g in
      if (0 <? mo_applied outcome)%nat
      then match pa_refresh a with
           | Err e => (Err e, g)
           | Ok _ => (Ok (mo_applied outcome, mo_missing_node_keys outcome), wake_policy_change (pa_attrs a) None g)
           end
      else (Ok (mo_applied outcome, mo_missing_node_keys outcome), g)
  end.

Definition remove_node_quiet (key : string) (g : MachineRegistry) : option RemovedNode * MachineRegistry :=
  match rg_records g !! key with
  | None => (None, g)
  | Some _ => let '(removed, records, t) := apply_nodestore_delete_direct key (rg_records g) (rg_tables g) in (removed, set_store g records t)
  end.

Definition finish_node_removal (a : PolicyAnswer) (n : Z) (g : MachineRegistry) : result unit string * MachineRegistry :=
  let changes := [pending_peers_removed [n]] in
  match pa_refresh a with
  | Ok (Some true) => (Ok tt, wake_waiters (pa_attrs a) (changes ++ [pending_global PolicyChange]) g)
  | Ok _ => (Ok tt, wake_waiters (pa_attrs a) changes g)
  | Err e => (Err ("updating policy manager after node deletion: " +:+ e), wake_waiters (pa_attrs a) changes g)
  end.

Definition try_delete (a : PolicyAnswer) (key : string) (g : MachineRegistry) : result bool string * MachineRegistry :=
  match remove_node_quiet key g with
  | (None, g) => (Ok false, g)
  | (Some removed, g) =>
      let g := release_addresses (rn_ipv4 removed) (rn_ipv6 removed) g in
      let '(r, g) := finish_node_removal a (rn_id removed) g in (match r with Ok _ => Ok true | Err e => Err e end, g)
  end.

Definition try_delete_gc_owned (a : PolicyAnswer) (key : string) (n : Z) (machine_key : string) (epoch : option nat) (g : MachineRegistry) : result bool string * MachineRegistry :=
  let '(_, captured, g) := apply_nodestore_bool_update [] (gc_owned_update key n machine_key epoch) g in
  match captured with
  | GotRemoved removed =>
      let g := release_addresses (rn_ipv4 removed) (rn_ipv6 removed) g in
      let '(r, g) := finish_node_removal a n g in (match r with Ok _ => Ok true | Err e => Err e end, g)
  | _ => (Ok false, g)
  end.

Definition try_gc_ephemeral (a : PolicyAnswer) (now grace : Z) (g : MachineRegistry) : result (list string) string * MachineRegistry :=
  let '(outcome, captured, g) := apply_nodestore_many_update [] (gc_update (now - grace)) g in
  if (mo_applied outcome =? 0)%nat then (Ok [], g)
  else
    let releases := match captured with GotReleases l => l | _ => [] end in
    let g := fold_left (fun g p => release_addresses p.1 p.2 g) releases g in
    let changes := [pending_peers_removed (mo_affected_node_ids outcome)] in
    match pa_refresh a with
    | Err e => (Err e, g)
    | Ok changed => (Ok (mo_affected_node_keys outcome), wake_waiters (pa_attrs a) (if bool_decide (changed = Some true) then changes ++ [pending_global PolicyChange] else changes) g)
    end.

Definition wake_expired_nodes_between (attrs : list Z) (relay : MachineRecord -> bool) (last_check now : Z) (g : MachineRegistry) : list string * MachineRegistry :=
  let candidates := list_to_set (map (fun kv => stable_node_id_for_key kv.1 kv.2) (List.filter (fun kv => expiry_crossed last_check now kv.2) (map_to_list (rg_records g)))) in
  if bool_decide (candidates = ∅) then ([], g)
  else
    let '(outcome, captured, g) := apply_nodestore_many_update attrs (expire_update candidates last_check now relay) g in
    if (mo_applied outcome =? 0)%nat then ([], g)
    else
      let present := mo_final_presence_node_ids outcome in
      let changes := List.filter (fun c => match pm_origin_node_id c with Some n => bool_decide (n ∈ present) | None => false end)
                       (match captured with GotChanges l => l | _ => [] end) in
      (map fst (List.filter (fun kn => bool_decide (kn.2 ∈ present)) (zip (mo_affected_node_keys outcome) (mo_affected_node_ids outcome))),
       wake_waiters attrs changes g).

(** ** Updates that do not publish change nothing *)

Lemma approval_fold kvs : forall updates (records : Records) ids clear updates' records' ids' clear',
  fold_left approval_step kvs (updates, records, ids, clear) = (updates', records', ids', clear') -> (length ids <= length ids')%nat /\ (ids' = ids -> records' = records).
Proof.
  induction kvs as [|kv kvs IH]; intros updates records ids clear updates' records' ids' clear'; cbn [fold_left]; [by intros [= <- <- <- <-]|].
  unfold approval_step at 2. destruct (updates !! _) as [routes|]; [|apply IH]. intros [Hl _]%IH. rewrite length_app in Hl. cbn [length] in Hl.
  split; [lia|]. intros ->. lia.
Qed.

Lemma approve_many_fold updates : forall (records : Records) ids clear records' ids' clear',
  fold_left approve_many_step updates (records, ids, clear) = (records', ids', clear') -> (length ids <= length ids')%nat /\ (ids' = ids -> records' = records).
Proof.
  induction updates as [|u updates IH]; intros records ids clear records' ids' clear'; cbn [fold_left]; [by intros [= <- <- <-]|].
  unfold approve_many_step at 2. destruct (records !! u.1) as [r|]; [|apply IH]. case_bool_decide; [apply IH|]. intros [Hl _]%IH. rewrite length_app in Hl. cbn [length] in Hl.
  split; [lia|]. intros ->. lia.
Qed.

Lemma expiry_honest key expiry now : honest bo_publish_snapshot (expiry_update key expiry now).
Proof. intros records t. unfold expiry_update. destruct (records !! key); [|done]. by destruct (update_online_after_expiry _ _ _ _). Qed.

Lemma node_expiry_honest n expiry now : honest bo_publish_snapshot (node_expiry_update n expiry now).
Proof. intros records t. unfold node_expiry_update. destruct (find_node records n) as [[key r]|]; [|done]. by destruct (update_online_after_expiry _ _ _ _). Qed.

Lemma rename_honest key name : honest bo_publish_snapshot (rename_update key name).
Proof. intros records t. unfold rename_update. destruct (negb _); [done|]. destruct (name_in_use _ _ _); [done|]. by destruct (records !! key). Qed.

Lemma touch_honest key now : honest bo_publish_snapshot (touch_last_seen_update key now).
Proof. intros records t. unfold touch_last_seen_update. by destruct (records !! key). Qed.

Lemma tags_honest key tags : honest bo_publish_snapshot (tags_update key tags).
Proof. intros records t. unfold tags_update. by destruct (records !! key). Qed.

Lemma approved_honest key routes : honest bo_publish_snapshot (approved_update key routes).
Proof. intros records t. unfold approved_update. destruct (records !! key); [|done]. by destruct (nothing_served _). Qed.

Lemma available_honest key routes : honest bo_publish_snapshot (available_update key routes).
Proof. intros records t. unfold available_update. destruct (records !! key); [|done]. by case_bool_decide. Qed.

Lemma sort_by_nil_inv {A} (cmp : A -> A -> comparison) l : sort_by cmp l = [] -> l = [].
Proof. intros E. pose proof (sort_by_perm cmp l) as Hp. rewrite E in Hp. by apply Permutation_nil_l in Hp. Qed.

Lemma approvals_honest updates : honest mo_publish_snapshot (approvals_update updates).
Proof.
  intros records t. unfold approvals_update. destruct (fold_left _ _ _) as [[[u next] ids] clear] eqn:E. cbn [mo_publish_snapshot].
  intros Hn. split_and!; [|done..]. apply approval_fold in E as [_ E]. apply E. apply negb_false_iff in Hn. destruct (sort_by Z.compare ids) eqn:Es; [|done]. by apply sort_by_nil_inv in Es.
Qed.

Lemma approve_many_honest updates : honest mo_publish_snapshot (approve_many_update updates).
Proof.
  intros records t. unfold approve_many_update. destruct (List.filter _ _); [|done]. destruct (fold_left _ _ _) as [[next ids] clear] eqn:E. cbn [mo_publish_snapshot].
  intros Hn. split_and!; [|done..]. apply approve_many_fold in E as [_ E]. apply E. by destruct ids.
Qed.

Lemma gc_honest deadline : honest mo_publish_snapshot (gc_update deadline).
Proof. intros records t. unfold gc_update. by destruct (List.filter _ _). Qed.

Lemma gc_owned_honest key n machine_key epoch : honest bo_publish_snapshot (gc_owned_update key n machine_key epoch).
Proof. intros records t. unfold gc_owned_update. destruct (negb _); [done|]. destruct (records !! key); [|done]. by destruct (_ && _). Qed.

Lemma expire_honest candidates last_check now relay : honest mo_publish_snapshot (expire_update candidates last_check now relay).
Proof. intros records t. unfold expire_update. destruct (fold_left _ _ _) as [[[online changes] keys] ids]. done. Qed.

(** ** What the operations do *)

Lemma clear_unhealthy_records ids g : rg_records (clear_unhealthy_all ids g) = rg_records g.
Proof. done. Qed.

Lemma finish_volatile_records a outcome reason g :
  rg_records (finish_volatile_node_update a outcome reason g).2 = rg_records g /\
  match (finish_volatile_node_update a outcome reason g).1 with
  | Ok b => b = bo_applied outcome
  | Err e => bo_applied outcome = true /\ pa_refresh a = Err e
  end.
Proof.
  unfold finish_volatile_node_update. destruct (bo_applied outcome), (bo_final_presence_node_id outcome); try done.
  destruct (pa_refresh a) as [[[]|]|]; [..|done]; by destruct reason.
Qed.

Lemma name_in_use_true (records : Records) key name : name_in_use records key name = true <-> exists k r, k <> key /\ records !! k = Some r /\ mr_hostname r = name.
Proof.
  unfold name_in_use. rewrite existsb_exists. split.
  - intros ([k r] & Hin & [Hk Hn]%andb_true_iff). apply list_elem_of_In, elem_of_map_to_list in Hin. apply negb_true_iff, bool_decide_eq_false in Hk. apply bool_decide_eq_true in Hn. eauto.
  - intros (k & r & Hk & Hr & Hn). exists (k, r). split; [by apply list_elem_of_In, elem_of_map_to_list|]. cbn. by rewrite bool_decide_false, bool_decide_true.
Qed.


(** The approved routes of a node after a list of updates: the last ones given for it. *)
Definition routes_after (key : string) (updates : list (string * list string)) (routes : list string) : list string :=
  fold_left (fun acc u => if bool_decide (u.1 = key) then u.2 else acc) updates routes.

Lemma approve_many_result updates : forall (records : Records) ids clear,
  (fold_left approve_many_step updates (records, ids, clear)).1.1 =
  map_imap (fun key r => Some (with_approved_routes r (routes_after key updates (mr_approved_routes r)))) records.
Proof.
  unfold routes_after. induction updates as [|u updates IH]; intros records ids clear; cbn [fold_left].
  - cbn [fst]. apply map_eq. intros key. rewrite map_lookup_imap. destruct (records !! key) as [r|]; [|done]. cbn. by destruct r.
  - unfold approve_many_step at 2. destruct (records !! u.1) as [r|] eqn:Er; [case_bool_decide as Ea|].
    + rewrite IH. apply map_eq. intros key. rewrite !map_lookup_imap. destruct (records !! key) as [r'|] eqn:Ek; [|done]. cbn. case_bool_decide as E; [|done]. rewrite E in Er. congruence.
    + rewrite IH. apply map_eq. intros key. rewrite !map_lookup_imap. destruct (decide (u.1 = key)) as [<- |Hne].
      * rewrite lookup_insert_eq, Er. cbn. by rewrite bool_decide_true.
      * rewrite lookup_insert_ne by done. destruct (records !! key); [|done]. cbn. by rewrite bool_decide_false.
    + rewrite IH. apply map_eq. intros key. rewrite !map_lookup_imap. destruct (records !! key) as [r'|] eqn:Ek; [|done]. cbn. case_bool_decide as E; [|done]. rewrite E in Er. congruence.
Qed.

(** Approving routes on several nodes is all or nothing: if a node of the list is
    not there, nothing changes and the answer names the missing ones; otherwise every
    node of the list has the routes given for it (the last ones, if it is named twice)
    and no other node changes, even when the refresh of the policy then fails. *)
Theorem approve_many_all_or_nothing a updates g :
  let '(answer, g') := try_set_approved_routes_many a updates g in
  let missing := List.filter (fun key => negb (bool_decide (is_Some (rg_records g !! key)))) (map fst updates) in
  (missing <> [] -> answer = Ok (0%nat, missing) /\ g' = g) /\
  (missing = [] ->
     rg_records g' = map_imap (fun key r => Some (with_approved_routes r (routes_after key updates (mr_approved_routes r)))) (rg_records g) /\
     match answer with Ok (_, names) => names = [] | Err e => pa_refresh a = Err e end).
Proof.
  unfold try_set_approved_routes_many. destruct updates as [|u0 us] eqn:Eus; [split; [done|]; intros _; split; [exact (approve_many_result [] (rg_records g) [] [])|done]|]. rewrite <-Eus. clear u0 us Eus.
  unfold apply_nodestore_many_update, apply_nodestore_many_update_direct, approve_many_update.
  destruct (List.filter _ _) as [|m ms] eqn:Em.
  2: { cbn. split; [|done]. intros _. split; [done|]. by destruct g as [? [] ? ?]. }
  pose proof (approve_many_result updates (rg_records g) [] []) as Hres. destruct (fold_left approve_many_step updates (rg_records g, [], [])) as [[next ids] clear] eqn:Ef. cbn [fst] in Hres.
  pose proof (approve_many_fold _ _ _ _ _ _ _ Ef) as [_ Hsame]. cbn [mo_publish_snapshot mo_change mo_clear_unhealthy_route_states mo_applied mo_missing_node_keys].
  destruct ids as [|n ids]; cbn [is_nil negb length Nat.ltb Nat.leb].
  - split; [done|]. intros _. cbn. by rewrite <-Hres, Hsame.
  - destruct (pa_refresh a) eqn:Ea; (split; [done|]); intros _; cbn; by rewrite <-Hres.
Qed.

(** ** The sweeps *)

Lemma foldr_delete_filter (P : string * MachineRecord -> bool) (records : Records) :
  foldr delete records (map fst (List.filter P (map_to_list records))) = filter (fun kv => P kv = false) records.
Proof.
  apply map_eq. intros key. destruct (decide (key ∈ map fst (List.filter P (map_to_list records)))) as [Hin|Hout].
  - rewrite lookup_foldr_delete by done. symmetry. apply map_lookup_filter_None. right. intros r Hr. apply list_elem_of_fmap in Hin as ([k r'] & E & Hin). cbn in E. subst k.
    apply list_elem_of_In, filter_In in Hin as [Hin HP]. apply list_elem_of_In, elem_of_map_to_list in Hin. rewrite Hr in Hin. injection Hin as <-. cbn. congruence.
  - rewrite lookup_foldr_delete_not_elem_of by done. symmetry. destruct (records !! key) as [r|] eqn:Er; [|apply map_lookup_filter_None; by left].
    apply map_lookup_filter_Some. split; [done|]. destruct (P (key, r)) eqn:EP; [|done]. exfalso. apply Hout. apply list_elem_of_fmap. exists (key, r). split; [done|].
    apply list_elem_of_In, filter_In. split; [|done]. by apply list_elem_of_In, elem_of_map_to_list.
Qed.

Lemma elem_of_collected (P : string * MachineRecord -> bool) (records : Records) key :
  key ∈ map fst (List.filter P (map_to_list records)) <-> exists r, records !! key = Some r /\ P (key, r) = true.
Proof.
  rewrite list_elem_of_fmap. split.
  - intros ([k r] & E & Hin). cbn in E. subst k. apply list_elem_of_In, filter_In in Hin as [Hin HP]. apply list_elem_of_In, elem_of_map_to_list in Hin. eauto.
  - intros (r & Hr & HP). exists (key, r). split; [done|]. apply list_elem_of_In, filter_In. split; [|done]. by apply list_elem_of_In, elem_of_map_to_list.
Qed.

(** The addresses marked used in a family. *)
Definition used4 (g : MachineRegistry) (v : Z) : Prop := exists a f, rg_allocator g = Some a /\ ca_ipv4 a = Some f /\ v ∈ fa_used f.

Lemma release_used4 ipv4 ipv6 g v : used4 (release_addresses ipv4 ipv6 g) v <-> used4 g v /\ ipv4 <> Some v.
Proof.
  unfold used4, release_addresses. cbn [rg_allocator]. destruct (rg_allocator g) as [a|]; cbn [fmap option_fmap option_map]; [|naive_solver].
  unfold IpAlloc.release_addresses. destruct (ca_ipv4 a) as [f|] eqn:Ef; destruct ipv4 as [w|]; cbn [release_from ca_ipv4 fmap option_fmap option_map].
  - split.
    + intros (a' & f' & [= <-] & [= <-] & Hv). cbn in Hv. split; [exists a, f; set_solver|]. intros [= ->]. set_solver.
    + intros [(a' & f' & [= <-] & Hf & Hv) Hne]. rewrite Ef in Hf. injection Hf as <-. eexists _, _. split_and!; [done|done|]. cbn. apply elem_of_difference. split; [done|]. intros ->%elem_of_singleton. done.
  - split; [intros (a' & f' & [= <-] & [= <-] & Hv); split; [exists a, f; done|done]|]. intros [(a' & f' & [= <-] & Hf & Hv) _]. rewrite Ef in Hf. injection Hf as <-. eexists _, f. split_and!; done.
  - split; [intros (a' & f' & [= <-] & Hf & Hv); done|]. intros [(a' & f' & [= <-] & Hf & Hv) _]. congruence.
  - split; [intros (a' & f' & [= <-] & Hf & Hv); done|]. intros [(a' & f' & [= <-] & Hf & Hv) _]. congruence.
Qed.

Lemma release_all_used4 l : forall g v, used4 (fold_left (fun g p => release_addresses p.1 p.2 g) l g) v <-> used4 g v /\ v ∉ omap fst l.
Proof.
  induction l as [|[p q] l IH]; intros g v; cbn [fold_left omap list_omap fst snd]; [set_solver|]. rewrite IH, release_used4. destruct p as [w|]; [|set_solver].
  rewrite elem_of_cons. naive_solver.
Qed.

Lemma release_all_store (l : list (option Z * option Z)) : forall g, rg_records (fold_left (fun g p => release_addresses p.1 p.2 g) l g) = rg_records g /\
  rg_tables (fold_left (fun g p => release_addresses p.1 p.2 g) l g) = rg_tables g.
Proof. induction l as [|p l IH]; intros g; cbn [fold_left]; [done|]. by destruct (IH (release_addresses p.1 p.2 g)) as [-> ->]. Qed.


(** When refreshing the policy fails, the sweep ends without announcing anything: the
    deleted nodes stay in the maps of their peers, while the deletion of a single node
    is announced all the same. *)
Theorem failed_sweep_is_silent a now grace g e :
  pa_refresh a = Err e ->
  ch_history (tb_changes (rg_tables (try_gc_ephemeral a now grace g).2)) = ch_history (tb_changes (rg_tables g)) /\
  ch_generation (tb_changes (rg_tables (try_gc_ephemeral a now grace g).2)) = ch_generation (tb_changes (rg_tables g)) /\
  forall n, (finish_node_removal a n g).2 = wake_waiters (pa_attrs a) [pending_peers_removed [n]] g.
Proof.
  intros Ha. split_and!; [| |intros n; unfold finish_node_removal; by rewrite Ha].
  all: unfold try_gc_ephemeral, apply_nodestore_many_update, apply_nodestore_many_update_direct, gc_update.
  all: destruct (List.filter _ _) as [|kv kvs]; cbn [mo_publish_snapshot mo_change mo_applied many_unchanged length Nat.eqb]; [done|].
  all: rewrite Ha; cbn [snd]; match goal with |- context [fold_left ?f ?l ?g] => destruct (release_all_store l g) as [_ ->] end; done.
Qed.

Lemma expire_fold relay kvs : forall online changes keys ids online' changes' keys' ids',
  fold_left (expire_step relay) kvs (online, changes, keys, ids) = (online', changes', keys', ids') ->
  keys' = keys ++ map fst kvs /\ ids' = ids ++ map (fun kv => stable_node_id_for_key kv.1 kv.2) kvs /\
  (forall n, online' !! n = if bool_decide (n ∈ map (fun kv => stable_node_id_for_key kv.1 kv.2) kvs) then Some false else online !! n) /\
  map pm_origin_node_id changes' = map pm_origin_node_id changes ++ map (fun kv => Some (stable_node_id_for_key kv.1 kv.2)) kvs.
Proof.
  induction kvs as [|kv kvs IH]; intros online changes keys ids online' changes' keys' ids'; cbn [fold_left].
  - intros [= <- <- <- <-]. cbn. by rewrite !app_nil_r.
  - unfold expire_step at 2. intros (-> & -> & Hon & Hch)%IH. rewrite <-!app_assoc. split_and!; [done|done| |].
    + intros n. rewrite Hon. cbn [map]. destruct (decide (stable_node_id_for_key kv.1 kv.2 = n)) as [<- |Hne].
      * rewrite lookup_insert_eq, (bool_decide_true (_ ∈ _ :: _)) by apply list_elem_of_here. by case_bool_decide.
      * rewrite lookup_insert_ne by done. repeat case_bool_decide; set_solver.
    + rewrite Hch, map_app, <-app_assoc. cbn [map app]. do 3 f_equal. unfold lifecycle_peer. destruct (_ && _); [|done].
      unfold with_companion_reason. by destruct (_ && _).
Qed.

Lemma zip_all_kept (ids : list Z) (l : list (string * MachineRecord)) :
  Forall (fun kv => stable_node_id_for_key kv.1 kv.2 ∈ ids) l ->
  map fst (List.filter (fun kn : string * Z => bool_decide (kn.2 ∈ ids)) (zip (map fst l) (map (fun kv => stable_node_id_for_key kv.1 kv.2) l))) = map fst l.
Proof. induction 1 as [|kv l Hkv _ IH]; [done|]. cbn [map zip zip_with List.filter snd]. rewrite bool_decide_true by done. cbn [map fst]. by f_equal. Qed.

(** The expiry sweep announces exactly the nodes whose key expired since the last
    sweep: it reports their keys, marks them offline and no other node, and leaves the
    records alone. *)
Theorem expiry_sweep_exact attrs relay last_check now g :
  tables_match (rg_records g) (rg_tables g) ->
  let '(keys, g') := wake_expired_nodes_between attrs relay last_check now g in
  rg_records g' = rg_records g /\
  (forall key, key ∈ keys <-> exists r, rg_records g !! key = Some r /\ expiry_crossed last_check now r = true) /\
  (forall n, sc_online (tb_streams (rg_tables g')) !! n =
     if bool_decide (n ∈ map (fun kv => stable_node_id_for_key kv.1 kv.2) (List.filter (fun kv => expiry_crossed last_check now kv.2) (map_to_list (rg_records g))))
     then Some false else sc_online (tb_streams (rg_tables g)) !! n).
Proof.
  intros Hm. unfold wake_expired_nodes_between. set (crossed := List.filter (fun kv : string * MachineRecord => expiry_crossed last_check now kv.2) (map_to_list (rg_records g))).
  pose proof (elem_of_collected (fun kv => expiry_crossed last_check now kv.2) (rg_records g)) as Hkeys. fold crossed in Hkeys.
  case_bool_decide as Hempty.
  { destruct crossed as [|kv kvs] eqn:Ec; [|cbn in Hempty; set_solver]. split_and!; [done| |]; [intros key; by rewrite <-Hkeys|done]. }
  unfold apply_nodestore_many_update, apply_nodestore_many_update_direct, expire_update. set (candidates := list_to_set _) in *.
  assert (List.filter (fun kv : string * MachineRecord => bool_decide (stable_node_id_for_key kv.1 kv.2 ∈ candidates) && expiry_crossed last_check now kv.2) (map_to_list (rg_records g)) = crossed) as ->.
  { unfold crossed. apply filter_ext_in. intros kv Hin. destruct (expiry_crossed last_check now kv.2) eqn:Ex; [|by rewrite andb_false_r]. rewrite andb_true_r. apply bool_decide_eq_true.
    unfold candidates. apply elem_of_list_to_set, list_elem_of_fmap. exists kv. split; [done|]. apply list_elem_of_In, filter_In. done. }
  destruct (fold_left _ crossed _) as [[[online changes] keys] ids] eqn:Ef. apply expire_fold in Ef as (-> & -> & Hon & _). cbn [app] in *.
  destruct crossed as [|kv kvs] eqn:Ec; [exfalso; apply Hempty; set_solver|].
  cbn [mo_publish_snapshot mo_change mo_applied mo_clear_unhealthy_route_states mo_final_presence_node_ids mo_affected_node_keys mo_affected_node_ids length map Nat.eqb negb].
  set (t' := set_streams (rg_tables g) _). assert (tables_match (rg_records g) t') as Hm' by (by eapply matches_same; [exact Hm|done|done]).
  rewrite retire_noop by done. split_and!; [done| |].
  - intros key. rewrite <-Hkeys. pose proof (zip_all_kept (map (fun kv => stable_node_id_for_key kv.1 kv.2) (kv :: kvs)) (kv :: kvs)) as Hz. cbn [map] in Hz. rewrite Hz; [done|].
    apply Forall_forall. intros kv' Hin. apply (list_elem_of_fmap_2 (fun kv : string * MachineRecord => stable_node_id_for_key kv.1 kv.2)) in Hin. exact Hin.
  - intros n. cbn [wake_waiters set_tables rg_tables wake set_changes tb_streams clear_unhealthy_all set_primary set_store t' set_streams put_online sc_online]. apply Hon.
Qed.
End updates.

(** ** Examples *)

Module UpdateExamples.

Definition reported : Reported := mkReported None "" "linux" "" tt None [] 0 0 [] 1.

Definition node (n : Z) (key machine name : string) (ephemeral : bool) (expiry : option Z) : MachineRecord :=
  mkRecord (Some n) key machine (mkOwner "ann" (Some 1) "" "" "" None) name (Some (0x64400000 + n)) None expiry 100 ephemeral [] [] [] reported.

Definition nodes : gmap string MachineRecord :=
  {[ "k1"%string := node 1 "k1" "m1" "laptop" false (Some 500); "k2"%string := node 2 "k2" "m2" "phone" true None ]}.

Definition streams0 : Streams := mkStreams ∅ ∅ ∅ ∅ ∅ ∅ ∅ ∅ ∅ ∅ false 0.

Definition registry : MachineRegistry := mkRegistry nodes (mkTables streams0 None Changes_new) PrimaryRouteState_new None.

Definition quiet_policy : PolicyAnswer := mkAnswer [] (Ok (Some false)).

Example renamed : fst (try_rename quiet_policy "example.com" "k1" "desk" registry) = Ok true /\ fst (try_rename quiet_policy "example.com" "k1" "phone" registry) = Ok false.
Proof. split; vm_compute; reflexivity. Qed.

Example swept : fst (try_gc_ephemeral quiet_policy 1000 50 registry) = Ok ["k2"%string].
Proof. vm_compute. reflexivity. Qed.

Lemma expiry_sweep_exact_witness :
  let '(keys, g') := wake_expired_nodes_between [] (fun _ => false) 400 600 registry in
  rg_records g' = rg_records registry /\
  (forall key, key ∈ keys <-> exists r, rg_records registry !! key = Some r /\ expiry_crossed 400 600 r = true) /\
  (forall n, sc_online (tb_streams (rg_tables g')) !! n =
     if bool_decide (n ∈ map (fun kv => stable_node_id_for_key kv.1 kv.2) (List.filter (fun kv => expiry_crossed 400 600 kv.2) (map_to_list (rg_records registry))))
     then Some false else sc_online (tb_streams (rg_tables registry)) !! n).
Proof.
  apply (expiry_sweep_exact [] (fun _ => false) 400 600 registry). split.
  - intros n [x Hx]. cbn in Hx. discriminate Hx.
  - intros gc key timer Hgc. discriminate Hgc.
Defined.

Lemma failed_sweep_is_silent_witness :
  let a := mkAnswer [] (Err "no such group"%string) in
  ch_history (tb_changes (rg_tables (try_gc_ephemeral a 1000 50 registry).2)) = ch_history (tb_changes (rg_tables registry)) /\
  ch_generation (tb_changes (rg_tables (try_gc_ephemeral a 1000 50 registry).2)) = ch_generation (tb_changes (rg_tables registry)) /\
  forall n, (finish_node_removal a n registry).2 = wake_waiters (pa_attrs a) [pending_peers_removed [n]] registry.
Proof. intros a. apply (failed_sweep_is_silent a 1000 50 registry "no such group"). reflexivity. Defined.

End UpdateExamples.
