(* ===== verification/Sessions.v ===== *)
(** * Sessions: map streams, online state and the timers of ephemeral nodes
    (headscale-api/src/tailscale_wire/mod.rs)

    A map stream holds a guard.  Opening one counts it for the node's current epoch, with
    the write that reads the node's record; dropping the guard uncounts the stream at
    once and the session after a grace period, in which the node may come back without
    having been offline.  When the last session of a node ends it goes offline, and an
    ephemeral node gets a timer that deletes it.  Deleting a node retires its epoch, so
    that what is left of its old streams cannot touch a node that takes its place.

    The state is the registry with the guards that are alive and the releases and
    disconnect notices that are on their way.  The steps may come in any order; a
    callback of a timer holds the machine's registration lock, as map requests do, and
    is one step. *)

From stdpp Require Import base list gmap strings sets.
From Stdlib Require Import ZArith Lia.
From S2P Require Import Prelude Bytes Net GoNetip PrimaryRoutes IpAlloc GivenName MapChange MapBatcher Registry NodeStore NodeUpdates.

Open Scope Z_scope.

Section sessions.
Context {HostInfo : Type} `{NetipText}.

Notation MachineRecord := (@MachineRecord HostInfo).
Notation Records := (gmap string MachineRecord).
Notation MachineRegistry := (@MachineRegistry HostInfo).
Notation BoolUpdate := (@Update HostInfo NodeStoreBoolUpdateOutcome).

(** ** Opening a stream *)

Record StreamConnectionGuard := mkGuard {
  gd_node_id : Z;
  gd_generation : Z;
  gd_epoch : nat;
  gd_acquired : bool;
  gd_cancelled : nat;
  gd_offline_grace : Z;
}.

(** The epoch of a node, made if it has none. *)
Definition ensure_epoch (s : Streams) (n : Z) : nat * Streams :=
  match sc_epochs s !! n with
  | Some e => (e, s)
  | None => (sc_fresh s, put_fresh (put_epochs s (<[n := sc_fresh s]> (sc_epochs s))) (S (sc_fresh s)))
  end.

Definition acquire_tables (n : Z) (flag : nat) (online : bool) (s : Streams) : nat * Z * Streams :=
  let '(epoch, s) := ensure_epoch s n in
  let generation := (default 0 (sc_generations s !! n) + 1) mod 2 ^ 64 in
  let s := put_active s (<[n := S (default 0%nat (sc_active s !! n))]> (sc_active s)) in
  let s := put_sessions s (<[n := S (default 0%nat (sc_sessions s !! n))]> (sc_sessions s)) in
  let s := put_generations s (<[n := generation]> (sc_generations s)) in
  let s := put_disconnected_at s (delete n (sc_disconnected_at s)) in
  let s := put_online s (<[n := online]> (sc_online s)) in
  let s := put_flags s (<[n := default [] (sc_flags s !! n) ++ [flag]]> (sc_flags s)) in
  (epoch, generation, s).

Definition acquire_update (native : bool) (now n : Z) (flag : nat) : BoolUpdate := fun records t =>
  if native && sc_closing (tb_streams t)
  then (records, set_streams t (put_cancelled (tb_streams t) ({[flag]} ∪ sc_cancelled (tb_streams t))), unchanged false, Nothing)
  else match find_node records n with
       | None => (records, t, unchanged false, Nothing)
       | Some (_, r) =>
           let online := negb (is_expired_at now r) in
           let '(epoch, generation, s) := acquire_tables n flag online (tb_streams t) in
           (records, set_streams t s, quiet_clearing n, GotConnection r generation online epoch)
       end.

Definition gc_cancel (key : string) (gc : EphemeralNodeGc) : EphemeralNodeGc := set_timers gc (delete key (gc_timers gc)).

(** [finish_stream_connection]: the timer of an ephemeral node is cancelled, and the
    change is what the streams are to be told. *)
Definition finish_stream_connection (relay : MachineRecord -> bool) (n : Z) (offline_grace : Z) (flag : nat) (outcome : NodeStoreBoolUpdateOutcome)
    (captured : @Captured HostInfo) (g : MachineRegistry) : StreamConnectionGuard * option PendingMapChange * MachineRegistry :=
  match captured with
  | GotConnection r generation online epoch =>
      let t := rg_tables g in
      let g := match ephemeral_node_key_by_id (rg_records g) n with
               | Some key => set_tables g (set_gc t (gc_cancel key <$> tb_gc t))
               | None => g
               end in
      (mkGuard n generation epoch true flag offline_grace,
       (if bo_applied outcome then Some (lifecycle_peer (if online then NodeOnline else NodeAdded) n (record_needs_peer_recompute relay r)) else None), g)
  | _ => (mkGuard n 0 (sc_fresh (tb_streams (rg_tables g))) false flag offline_grace, None, g)
  end.

Definition acquire_stream_connection (relay : MachineRecord -> bool) (native : bool) (now n offline_grace : Z) (g : MachineRegistry)
  : StreamConnectionGuard * option PendingMapChange * MachineRegistry :=
  let s := tb_streams (rg_tables g) in
  let flag := sc_fresh s in
  let g := set_tables g (set_streams (rg_tables g) (put_fresh s (S flag))) in
  let '(outcome, captured, g) := apply_nodestore_bool_update [] (acquire_update native now n flag) g in
  finish_stream_connection relay n offline_grace flag outcome captured g.

(** [with_current_stream_connection] guards the publication of the stream's changes. *)
Definition current_stream_connection (c : StreamConnectionGuard) (g : MachineRegistry) : bool :=
  gd_acquired c && epoch_current (tb_streams (rg_tables g)) (gd_node_id c) (gd_epoch c) && node_present (rg_records g) (gd_node_id c).

Definition dispatch_stream_connection_change (attrs : list Z) (c : StreamConnectionGuard) (change : option PendingMapChange) (g : MachineRegistry) : MachineRegistry :=
  match change with
  | Some change => if current_stream_connection c g then wake_waiters attrs [change] g else g
  | None => g
  end.

(** ** Closing a stream *)

Definition is_stream_connected (s : Streams) (n : Z) : bool := (0 <? default 0 (sc_active s !! n))%nat.

Definition release_stream_connection (now n : Z) (epoch : nat) (s : Streams) : option bool * Streams :=
  if epoch_current s n epoch then
    match sc_active s !! n with
    | None => (Some false, s)
    | Some count =>
        let count := Nat.pred count in
        let s := put_active s (<[n := count]> (sc_active s)) in
        (Some (0 <? count)%nat, if (0 <? count)%nat then s else put_disconnected_at s (<[n := now]> (sc_disconnected_at s)))
    end
  else (None, s).

Definition forget_stream_cancel_flag (n : Z) (flag : nat) (s : Streams) : Streams :=
  match sc_flags s !! n with
  | None => s
  | Some flags =>
      match List.filter (fun f => negb (f =? flag)%nat) flags with
      | [] => put_flags s (delete n (sc_flags s))
      | rest => put_flags s (<[n := rest]> (sc_flags s))
      end
  end.

(** Whether the node may come back within the grace period. *)
Definition may_reconnect (now n : Z) (records : Records) : bool :=
  existsb (fun kv => has_id n kv && negb (is_expired_at now kv.2)) (map_to_list records).

Inductive release_mode := ReleaseNow | ReleaseAfterGrace.

Definition schedule_mode (now n : Z) (still_connected : bool) (offline_grace : Z) (records : Records) : release_mode :=
  if still_connected || negb (may_reconnect now n records) || (offline_grace =? 0) then ReleaseNow else ReleaseAfterGrace.

Definition release_update (now n : Z) (epoch : nat) : BoolUpdate := fun records t =>
  let s := tb_streams t in
  if negb (epoch_current s n epoch) then (records, t, unchanged false, Nothing)
  else match find_node records n with
       | None => (records, t, unchanged false, Nothing)
       | Some (key, r) =>
           let remaining := Nat.pred (default 0%nat (sc_sessions s !! n)) in
           let s := put_sessions s (<[n := remaining]> (sc_sessions s)) in
           if (0 <? remaining)%nat then (records, set_streams t s, quiet_at n, Nothing)
           else let r := with_last_seen r now in
                (<[key := r]> records, set_streams t (put_online s (<[n := false]> (sc_online s))), quiet_clearing n, GotDisconnect r now)
       end.

(** The record and time of the node's disconnection, when this was its last session. *)
Definition release_state_session_in_epoch (now n : Z) (epoch : nat) (g : MachineRegistry) : option (MachineRecord * Z) * MachineRegistry :=
  let '(outcome, captured, g) := apply_nodestore_bool_update [] (release_update now n epoch) g in
  (match captured with GotDisconnect r at_ => if bo_applied outcome then Some (r, at_) else None | _ => None end, g).

(** ** Timers *)

Definition schedule_owned (key : string) (r : MachineRecord) (epoch : option nat) (g : MachineRegistry) : MachineRegistry :=
  let t := rg_tables g in
  match tb_gc t with
  | None => g
  | Some gc =>
      if gc_closed gc then g
      else if negb (mr_ephemeral r) then set_tables g (set_gc t (Some (gc_cancel key gc)))
      else
        let n := stable_node_id_for_key key r in
        if negb (match epoch with Some e => epoch_current (tb_streams t) n e | None => true end) then g
        else
          let '(epoch, s) := match epoch with Some e => (e, tb_streams t) | None => ensure_epoch (tb_streams t) n end in
          let t := set_streams t s in
          if (0 <? default 0 (sc_sessions s !! n))%nat then set_tables g (set_gc t (Some (gc_cancel key gc)))
          else set_tables g (set_gc t (Some (mkGc (<[key := mkTimer (gc_next_generation gc) n (mr_machine_key_hex r) (Some epoch)]> (gc_timers gc))
                                                 ((gc_next_generation gc + 1) mod 2 ^ 64) (gc_closed gc))))
  end.

Definition schedule (key : string) (g : MachineRegistry) : MachineRegistry :=
  match rg_records g !! key with
  | None => g
  | Some r =>
      let t := rg_tables g in
      let '(epoch, s) := ensure_epoch (tb_streams t) (stable_node_id_for_key key r) in
      schedule_owned key r (Some epoch) (set_tables g (set_streams t s))
  end.

(** The keys [schedule_existing] schedules. *)
Definition idle_ephemeral_keys (g : MachineRegistry) : list string :=
  map fst (List.filter (fun kv => mr_ephemeral kv.2 && (default 0 (sc_active (tb_streams (rg_tables g)) !! stable_node_id_for_key kv.1 kv.2) =? 0)%nat) (map_to_list (rg_records g))).

Definition schedule_existing (g : MachineRegistry) : nat * MachineRegistry :=
  match tb_gc (rg_tables g) with
  | Some gc => if gc_closed gc then (0%nat, g) else let keys := idle_ephemeral_keys g in (length keys, fold_left (fun g key => schedule key g) keys g)
  | None => (0%nat, g)
  end.

Definition abort_all (g : MachineRegistry) : MachineRegistry :=
  let t := rg_tables g in set_tables g (set_gc t ((fun gc => mkGc ∅ (gc_next_generation gc) true) <$> tb_gc t)).

(** Taking a timer that still has the generation it was started with. *)
Definition claim_timer (key : string) (generation : Z) (gc : EphemeralNodeGc) : option (EphemeralGcTimer * EphemeralNodeGc) :=
  match gc_timers gc !! key with
  | Some timer => if tm_generation timer =? generation then Some (timer, gc_cancel key gc) else None
  | None => None
  end.

(** The callback of a timer, under the registration lock.  [persisted] is what deleting
    the row in the database said.  A store that takes the lock itself, for which the
    callback lets go of it first, is not modelled. *)
Definition fire (a : PolicyAnswer) (persisted : result unit string) (key : string) (generation : Z) (g : MachineRegistry) : MachineRegistry :=
  let t := rg_tables g in
  match tb_gc t with
  | None => g
  | Some gc =>
      if gc_closed gc then g
      else match claim_timer key generation gc with
           | None => g
           | Some (timer, gc) =>
               let g := set_tables g (set_gc t (Some gc)) in
               if negb (match tm_epoch timer with Some e => epoch_current (tb_streams t) (tm_node_id timer) e | None => true end) then g
               else match rg_records g !! key with
                    | None => g
                    | Some r =>
                        if negb (bool_decide (mr_machine_key_hex r = tm_machine_key_hex timer)) || negb (stable_node_id_for_key key r =? tm_node_id timer) then g
                        else if is_stream_connected (tb_streams t) (tm_node_id timer) || negb (mr_ephemeral r) then g
                        else match persisted with
                             | Err _ => g
                             | Ok _ => (try_delete_gc_owned a key (tm_node_id timer) (tm_machine_key_hex timer) (tm_epoch timer) g).2
                             end
                    end
           end
  end.

(** The last session is gone: tell the streams and start the timer. *)
Definition dispatch_state_disconnect (attrs : list Z) (relay : MachineRecord -> bool) (n : Z) (disconnected : MachineRecord) (epoch : nat) (g : MachineRegistry) : MachineRegistry :=
  if negb (epoch_current (tb_streams (rg_tables g)) n epoch) then g
  else match find_node (rg_records g) n with
       | None => g
       | Some (key, r) =>
           schedule_owned key r (Some epoch) (wake_waiters attrs [lifecycle_peer NodeOffline n (record_needs_peer_recompute relay disconnected)] g)
       end.

(** ** Long-offline entries *)

Definition long_offline (now threshold : Z) (s : Streams) (n : Z) : bool :=
  match sc_disconnected_at s !! n with
  | Some at_ => (threshold <=? Z.max 0 (now - at_)) && (default 0 (sc_active s !! n) =? 0)%nat
  | None => false
  end.

Definition cleanup_offline_connections (now threshold : Z) (g : MachineRegistry) : list Z * MachineRegistry :=
  let t := rg_tables g in
  let s := tb_streams t in
  let cleaned := List.filter (long_offline now threshold s) (map fst (map_to_list (sc_disconnected_at s))) in
  let gone : gset Z := list_to_set cleaned in
  let s := put_active s (keep_ids gone (sc_active s)) in
  let s := put_delivered s (keep_ids gone (sc_delivered s)) in
  let s := put_disconnected_at s (keep_ids gone (sc_disconnected_at s)) in
  let s := put_route_health s (keep_ids gone (sc_route_health s)) in
  (cleaned, set_tables g (set_changes (set_streams t s) (set_pending (tb_changes t) (keep_ids gone (ch_pending (tb_changes t)))))).

(** ** The whole: guards, releases and notices *)

Record System := mkSystem {
  sy_registry : MachineRegistry;
  sy_guards : list StreamConnectionGuard;
  sy_releases : list (Z * nat);
  sy_notices : list (Z * MachineRecord * nat);
}.

Definition streams_of (g : MachineRegistry) : Streams := tb_streams (rg_tables g).
Definition with_streams (g : MachineRegistry) (s : Streams) : MachineRegistry := set_tables g (set_streams (rg_tables g) s).

(** A release that is due: the session ends, and if it was the last one a notice is sent. *)
Definition run_release (now : Z) (release : Z * nat) (g : MachineRegistry) (notices : list (Z * MachineRecord * nat)) : MachineRegistry * list (Z * MachineRecord * nat) :=
  match release_state_session_in_epoch now release.1 release.2 g with
  | (Some (r, _), g) => (g, notices ++ [(release.1, r, release.2)])
  | (None, g) => (g, notices)
  end.

(** [Drop] of a guard. *)
Definition drop_guard (now : Z) (c : StreamConnectionGuard) (y : System) : System :=
  if negb (gd_acquired c) then y
  else
    let '(still_connected, s) := release_stream_connection now (gd_node_id c) (gd_epoch c) (streams_of (sy_registry y)) in
    let g := with_streams (sy_registry y) (forget_stream_cancel_flag (gd_node_id c) (gd_cancelled c) s) in
    match still_connected with
    | None => mkSystem g (sy_guards y) (sy_releases y) (sy_notices y)
    | Some still =>
        match schedule_mode now (gd_node_id c) still (gd_offline_grace c) (rg_records g) with
        | ReleaseNow => let '(g, notices) := run_release now (gd_node_id c, gd_epoch c) g (sy_notices y) in mkSystem g (sy_guards y) (sy_releases y) notices
        | ReleaseAfterGrace => mkSystem g (sy_guards y) (sy_releases y ++ [(gd_node_id c, gd_epoch c)]) (sy_notices y)
        end
    end.

(** The first half of [shutdown_native_streams]: no stream opens any more and those open
    are told to end. *)
Definition begin_shutdown (g : MachineRegistry) : MachineRegistry :=
  let s := streams_of g in with_streams g (put_closing (put_cancelled s (cancel_ids s (dom (sc_flags s)))) true).

(** The writes of the registry other than those of streams. *)
Inductive registry_work : @NodeStoreWriteWork HostInfo -> Prop :=
| work_upsert key rec : registry_work (Upsert key rec)
| work_delete key : registry_work (Delete key)
| work_rekey old new rec changes presence : registry_work (Rekey old new rec changes presence)
| work_wake : registry_work Wake
| work_expiry key expiry now : registry_work (UpdateBool (expiry_update key expiry now))
| work_node_expiry n expiry now : registry_work (UpdateBool (node_expiry_update n expiry now))
| work_rename key name : registry_work (UpdateBool (rename_update key name))
| work_touch key now : registry_work (UpdateBool (touch_last_seen_update key now))
| work_tags key tags : registry_work (UpdateBool (tags_update key tags))
| work_approved key routes : registry_work (UpdateBool (approved_update key routes))
| work_available key routes : registry_work (UpdateBool (available_update key routes))
| work_gc_owned key n machine_key epoch : registry_work (UpdateBool (gc_owned_update key n machine_key epoch))
| work_approvals updates : registry_work (UpdateMany (approvals_update updates))
| work_approve_many updates : registry_work (UpdateMany (approve_many_update updates))
| work_gc deadline : registry_work (UpdateMany (gc_update deadline))
| work_expire candidates last_check now relay : registry_work (UpdateMany (expire_update candidates last_check now relay)).

(** All writes, with the opening and closing of streams. *)
Inductive any_work : @NodeStoreWriteWork HostInfo -> Prop :=
| any_registry w : registry_work w -> any_work w
| any_acquire native now n flag : any_work (UpdateBool (acquire_update native now n flag))
| any_release now n epoch : any_work (UpdateBool (release_update now n epoch)).

Inductive system_step : System -> System -> Prop :=
| step_open y relay native now n grace c change g :
    acquire_stream_connection relay native now n grace (sy_registry y) = (c, change, g) ->
    system_step y (mkSystem g (sy_guards y ++ [c]) (sy_releases y) (sy_notices y))
| step_close y now c l1 l2 :
    sy_guards y = l1 ++ c :: l2 -> system_step y (drop_guard now c (mkSystem (sy_registry y) (l1 ++ l2) (sy_releases y) (sy_notices y)))
| step_release y now release l1 l2 g notices :
    sy_releases y = l1 ++ release :: l2 -> run_release now release (sy_registry y) (sy_notices y) = (g, notices) ->
    system_step y (mkSystem g (sy_guards y) (l1 ++ l2) notices)
| step_notice y attrs relay n r epoch l1 l2 :
    sy_notices y = l1 ++ (n, r, epoch) :: l2 ->
    system_step y (mkSystem (dispatch_state_disconnect attrs relay n r epoch (sy_registry y)) (sy_guards y) (sy_releases y) (l1 ++ l2))
| step_write y work c records t :
    registry_work work -> direct_write work (rg_records (sy_registry y)) (rg_tables (sy_registry y)) = (c, records, t) ->
    system_step y (mkSystem (set_store (sy_registry y) records t) (sy_guards y) (sy_releases y) (sy_notices y))
| step_wake y attrs changes : system_step y (mkSystem (wake_waiters attrs changes (sy_registry y)) (sy_guards y) (sy_releases y) (sy_notices y))
| step_cleanup y now threshold :
    system_step y (mkSystem (cleanup_offline_connections now threshold (sy_registry y)).2 (sy_guards y) (sy_releases y) (sy_notices y))
| step_schedule y key : system_step y (mkSystem (schedule key (sy_registry y)) (sy_guards y) (sy_releases y) (sy_notices y))
| step_fire y a persisted key generation : system_step y (mkSystem (fire a persisted key generation (sy_registry y)) (sy_guards y) (sy_releases y) (sy_notices y))
| step_abort y : system_step y (mkSystem (abort_all (sy_registry y)) (sy_guards y) (sy_releases y) (sy_notices y))
| step_shutdown y : system_step y (mkSystem (begin_shutdown (sy_registry y)) (sy_guards y) (sy_releases y) (sy_notices y)).

Definition no_streams : Streams := mkStreams ∅ ∅ ∅ ∅ ∅ ∅ ∅ ∅ ∅ ∅ false 0.

Definition registry_start (records : Records) (gc : option EphemeralNodeGc) (primary : PrimaryRouteState) (allocator : option CidrIpAllocator) : MachineRegistry :=
  mkRegistry records (mkTables no_streams gc Changes_new) primary allocator.

Inductive system_reachable : System -> Prop :=
| reach_start records timeout_gc primary allocator :
    (forall gc, timeout_gc = Some gc -> gc_timers gc = ∅) ->
    system_reachable (mkSystem (registry_start records timeout_gc primary allocator) [] [] [])
| reach_step y y' : system_reachable y -> system_step y y' -> system_reachable y'.

(** ** Counting *)

Definition guard_of (n : Z) (e : nat) (c : StreamConnectionGuard) : bool := gd_acquired c && (gd_node_id c =? n) && (gd_epoch c =? e)%nat.
Definition guards_of (n : Z) (e : nat) (l : list StreamConnectionGuard) : nat := length (List.filter (guard_of n e) l).
Definition releases_of (n : Z) (e : nat) (l : list (Z * nat)) : nat := length (List.filter (fun p => (p.1 =? n) && (p.2 =? e)%nat) l).

Record counts_ok (s : Streams) (guards : list StreamConnectionGuard) (releases : list (Z * nat)) : Prop := {
  co_fresh : forall n e, sc_epochs s !! n = Some e -> (e < sc_fresh s)%nat;
  co_guards : Forall (fun c => gd_acquired c = true -> (gd_epoch c < sc_fresh s)%nat) guards;
  co_releases : Forall (fun p => (p.2 < sc_fresh s)%nat) releases;
  co_none : forall n, sc_epochs s !! n = None -> default 0%nat (sc_active s !! n) = 0%nat /\ default 0%nat (sc_sessions s !! n) = 0%nat;
  co_active : forall n e, sc_epochs s !! n = Some e -> default 0%nat (sc_active s !! n) = guards_of n e guards;
  co_sessions : forall n e, sc_epochs s !! n = Some e -> default 0%nat (sc_sessions s !! n) = (guards_of n e guards + releases_of n e releases)%nat;
  co_online : forall n, sc_online s !! n = Some true -> (0 < default 0%nat (sc_sessions s !! n))%nat;
}.

Lemma guards_of_app n e l1 l2 : guards_of n e (l1 ++ l2) = (guards_of n e l1 + guards_of n e l2)%nat.
Proof. unfold guards_of. by rewrite List.filter_app, length_app. Qed.

Lemma releases_of_app n e l1 l2 : releases_of n e (l1 ++ l2) = (releases_of n e l1 + releases_of n e l2)%nat.
Proof. unfold releases_of. by rewrite List.filter_app, length_app. Qed.

Lemma guards_of_one n e c : guards_of n e [c] = if guard_of n e c then 1%nat else 0%nat.
Proof. unfold guards_of. cbn. by destruct (guard_of n e c). Qed.

Lemma releases_of_one n e p : releases_of n e [p] = if (p.1 =? n) && (p.2 =? e)%nat then 1%nat else 0%nat.
Proof. unfold releases_of. cbn. by destruct ((p.1 =? n) && (p.2 =? e)%nat). Qed.

(** Guards and releases of an epoch that does not exist yet. *)
Lemma guards_of_fresh n e guards s : Forall (fun c => gd_acquired c = true -> (gd_epoch c < sc_fresh s)%nat) guards -> (sc_fresh s <= e)%nat -> guards_of n e guards = 0%nat.
Proof.
  intros Hall He. unfold guards_of. induction Hall as [|c l Hc _ IH]; [done|]. cbn [List.filter]. destruct (guard_of n e c) eqn:E; [|done].
  unfold guard_of in E. apply andb_true_iff in E as [[Ha _]%andb_true_iff Ee%Nat.eqb_eq]. specialize (Hc Ha). lia.
Qed.

Lemma releases_of_fresh n e releases s : Forall (fun p : Z * nat => (p.2 < sc_fresh s)%nat) releases -> (sc_fresh s <= e)%nat -> releases_of n e releases = 0%nat.
Proof.
  intros Hall He. unfold releases_of. induction Hall as [|c l Hc _ IH]; [done|]. cbn [List.filter]. destruct (_ && _) eqn:E; [|done].
  apply andb_true_iff in E as [_ Ee%Nat.eqb_eq]. lia.
Qed.

(** Making an epoch changes no count. *)
Lemma ensure_epoch_counts s n guards releases e s' :
  counts_ok s guards releases -> ensure_epoch s n = (e, s') ->
  counts_ok s' guards releases /\ sc_epochs s' !! n = Some e /\ (sc_fresh s <= sc_fresh s')%nat /\ s' = put_fresh (put_epochs s (sc_epochs s')) (sc_fresh s') /\
  (forall m, m <> n -> sc_epochs s' !! m = sc_epochs s !! m).
Proof.
  intros [Hf Hg Hr Hn Ha Hs Ho]. unfold ensure_epoch. destruct (sc_epochs s !! n) as [e0|] eqn:En; intros [= <- <-].
  - split_and!; [done|done|lia|by destruct s|done].
  - cbn [put_fresh put_epochs sc_epochs sc_fresh]. rewrite lookup_insert_eq. split_and!; [|done|lia|by destruct s|intros m Hm; by apply lookup_insert_ne].
    destruct (Hn n En) as [Ha0 Hs0]. split; cbn [put_fresh put_epochs sc_epochs sc_fresh sc_active sc_sessions sc_online].
    + intros m e [[<- <-]|[_ Hm]]%lookup_insert_Some; [lia|]. specialize (Hf m e Hm). lia.
    + eapply Forall_impl; [exact Hg|]. cbn. intros c Hc Hacq. specialize (Hc Hacq). lia.
    + eapply Forall_impl; [exact Hr|]. cbn. lia.
    + intros m [Hm _]%lookup_insert_None. by apply Hn.
    + intros m e [[<- <-]|[_ Hm]]%lookup_insert_Some; [|by apply Ha]. rewrite Ha0. symmetry. by apply (guards_of_fresh _ _ _ s).
    + intros m e [[<- <-]|[_ Hm]]%lookup_insert_Some; [|by apply Hs]. rewrite Hs0, (guards_of_fresh _ _ _ s), (releases_of_fresh _ _ _ s) by done. done.
    + done.
Qed.

(** The counts read only these tables. *)
Lemma counts_ext s s' guards releases :
  counts_ok s guards releases -> sc_epochs s' = sc_epochs s -> sc_fresh s' = sc_fresh s ->
  (forall n, default 0%nat (sc_active s' !! n) = default 0%nat (sc_active s !! n)) -> sc_sessions s' = sc_sessions s ->
  (forall n, sc_online s' !! n = Some true -> sc_online s !! n = Some true \/ (0 < default 0%nat (sc_sessions s !! n))%nat) -> counts_ok s' guards releases.
Proof.
  intros [Hf Hg Hr Hn Ha Hs Ho] Ee Ef Ea Es Eo. split; rewrite ?Ee, ?Ef, ?Es; try done.
  - intros n. rewrite Ea. apply Hn.
  - intros n e. rewrite Ea. apply Ha.
  - intros n [Hon|Hon]%Eo; [by apply Ho|done].
Qed.

Lemma retire_counts records s guards releases : counts_ok s guards releases -> counts_ok (@retire_streams HostInfo records s) guards releases.
Proof.
  intros [Hf Hg Hr Hn Ha Hs Ho]. unfold retire_streams. set (gone := retired_ids records s).
  split; cbn [sc_epochs sc_fresh sc_active sc_sessions sc_online]; try done.
  - intros n e. rewrite keep_ids_lookup. case_bool_decide; [done|apply Hf].
  - intros n. rewrite !keep_ids_lookup. case_bool_decide; [done|]. apply Hn.
  - intros n e. rewrite !keep_ids_lookup. case_bool_decide; [done|]. apply Ha.
  - intros n e. rewrite !keep_ids_lookup. case_bool_decide; [done|]. apply Hs.
  - intros n. rewrite !keep_ids_lookup. case_bool_decide; [done|]. apply Ho.
Qed.

Lemma acquire_counts n flag online s e generation s' guards releases grace :
  counts_ok s guards releases -> acquire_tables n flag online s = (e, generation, s') ->
  counts_ok s' (guards ++ [mkGuard n generation e true flag grace]) releases /\ sc_epochs s' !! n = Some e /\
  (forall m, m <> n -> sc_epochs s' !! m = sc_epochs s !! m).
Proof.
  intros Hok. unfold acquire_tables. destruct (ensure_epoch s n) as [e0 s0] eqn:Ee. destruct (ensure_epoch_counts _ _ _ _ _ _ Hok Ee) as ([Hf Hg Hr Hn Ha Hs Ho] & Hepoch & _ & _ & Hother).
  intros [= <- <- <-]. split; [|by split].
  assert (forall m e', sc_epochs s0 !! m = Some e' -> guards_of m e' (guards ++ [mkGuard n ((default 0 (sc_generations s0 !! n) + 1) mod 2 ^ 64) e0 true flag grace]) =
    (guards_of m e' guards + if bool_decide (m = n) then 1 else 0)%nat) as Hcount.
  { intros m e' Hm. rewrite guards_of_app, guards_of_one. unfold guard_of. cbn [gd_acquired gd_node_id gd_epoch andb]. case_bool_decide as E.
    - subst m. assert (e' = e0) as -> by congruence. by rewrite Z.eqb_refl, Nat.eqb_refl.
    - rewrite (proj2 (Z.eqb_neq n m)) by done. done. }
  split; cbn [sc_epochs sc_fresh sc_active sc_sessions sc_online put_active put_sessions put_generations put_disconnected_at put_online put_flags]; try done.
  - apply Forall_app. split; [done|]. apply Forall_singleton. intros _. by apply Hf in Hepoch.
  - intros m Hm. rewrite !lookup_insert_ne by congruence. by apply Hn.
  - intros m e' Hm. rewrite Hcount by done. destruct (decide (m = n)) as [-> |Hne].
    + rewrite lookup_insert_eq, bool_decide_true by done. cbn. rewrite (Ha n e') by done. lia.
    + rewrite lookup_insert_ne, bool_decide_false by done. rewrite (Ha m e') by done. lia.
  - intros m e' Hm. rewrite Hcount by done. destruct (decide (m = n)) as [-> |Hne].
    + rewrite lookup_insert_eq, bool_decide_true by done. cbn. rewrite (Hs n e') by done. lia.
    + rewrite lookup_insert_ne, bool_decide_false by done. rewrite (Hs m e') by done. lia.
  - intros m. destruct (decide (m = n)) as [-> |Hne].
    + rewrite !lookup_insert_eq. cbn. lia.
    + rewrite !lookup_insert_ne by done. apply Ho.
Qed.

(** Closing a stream moves its session from the guards to the releases. *)
Lemma close_counts now c s still s' l1 l2 releases :
  counts_ok s (l1 ++ c :: l2) releases -> gd_acquired c = true -> release_stream_connection now (gd_node_id c) (gd_epoch c) s = (still, s') ->
  counts_ok s' (l1 ++ l2) (match still with Some _ => releases ++ [(gd_node_id c, gd_epoch c)] | None => releases end) /\ sc_epochs s' = sc_epochs s.
Proof.
  intros [Hf Hg Hr Hn Ha Hs Ho] Hacq. apply Forall_app in Hg as [Hg1 Hg2]. apply Forall_cons in Hg2 as [Hgc Hg2].
  assert (forall m e, guards_of m e (l1 ++ c :: l2) = (guards_of m e (l1 ++ l2) + if guard_of m e c then 1 else 0)%nat) as Hcount.
  { intros m e. change (c :: l2) with ([c] ++ l2). rewrite !guards_of_app, guards_of_one. lia. }
  unfold release_stream_connection, epoch_current. case_bool_decide as Hcur.
  - assert (guard_of (gd_node_id c) (gd_epoch c) c = true) as Hself by (unfold guard_of; by rewrite Hacq, Z.eqb_refl, Nat.eqb_refl).
    assert (forall m e, sc_epochs s !! m = Some e -> guard_of m e c = bool_decide (m = gd_node_id c)) as Hother.
    { intros m e Hm. unfold guard_of. rewrite Hacq. cbn [andb]. destruct (Z.eqb_spec (gd_node_id c) m) as [<- |Hne]; [|by rewrite bool_decide_false].
      rewrite bool_decide_true by done. apply Nat.eqb_eq. congruence. }
    pose proof (Ha _ _ Hcur) as Hac. rewrite Hcount, Hself in Hac. destruct (sc_active s !! gd_node_id c) as [count|] eqn:Eact; [|cbn in Hac; lia]. cbn in Hac.
    set (s1 := put_active s _). intros Heq.
    assert (counts_ok s1 (l1 ++ l2) (releases ++ [(gd_node_id c, gd_epoch c)])) as Hok1.
    { unfold s1. split; cbn [put_active sc_epochs sc_fresh sc_active sc_sessions sc_online]; try done.
      - by apply Forall_app.
      - apply Forall_app. split; [done|]. apply Forall_singleton. cbn. by apply Hf in Hcur.
      - intros m Hm. rewrite lookup_insert_ne by congruence. by apply Hn.
      - intros m e Hm. specialize (Ha m e Hm). rewrite Hcount, Hother in Ha by done. destruct (decide (m = gd_node_id c)) as [-> |Hne].
        + rewrite lookup_insert_eq. rewrite bool_decide_true in Ha by done. cbn in *. assert (e = gd_epoch c) as -> by congruence. lia.
        + rewrite lookup_insert_ne by done. rewrite bool_decide_false in Ha by done. lia.
      - intros m e Hm. rewrite (Hs m e Hm), Hcount, Hother by done. rewrite releases_of_app, releases_of_one. cbn [fst snd]. destruct (decide (m = gd_node_id c)) as [-> |Hne].
        + assert (e = gd_epoch c) as -> by congruence. rewrite bool_decide_true, Z.eqb_refl, Nat.eqb_refl by done. cbn. lia.
        + rewrite bool_decide_false, (proj2 (Z.eqb_neq (gd_node_id c) m)) by done. cbn. lia. }
    destruct (0 <? Nat.pred count)%nat; injection Heq as <- <-; [by split|]. split; [|done]. by apply (counts_ext s1); auto.
  - intros [= <- <-]. split; [|done].
    assert (forall m e, sc_epochs s !! m = Some e -> guard_of m e c = false) as Hother.
    { intros m e Hm. unfold guard_of. rewrite Hacq. cbn [andb]. destruct (Z.eqb_spec (gd_node_id c) m) as [<- |]; [|done]. cbn. apply Nat.eqb_neq. congruence. }
    split; try done.
    + by apply Forall_app.
    + intros m e Hm. rewrite (Ha m e Hm), Hcount, Hother by done. lia.
    + intros m e Hm. rewrite (Hs m e Hm), Hcount, Hother by done. lia.
Qed.

Lemma forget_flag_tables n flag s : exists flags, forget_stream_cancel_flag n flag s = put_flags s flags.
Proof.
  unfold forget_stream_cancel_flag. destruct (sc_flags s !! n); [|exists (sc_flags s); by destruct s]. destruct (List.filter _ _); eauto.
Qed.

(** A release whose epoch is over counts for nothing, nor does a guard that got nothing. *)
Lemma counts_drop_release s guards l1 l2 n e : counts_ok s guards (l1 ++ (n, e) :: l2) -> sc_epochs s !! n <> Some e -> counts_ok s guards (l1 ++ l2).
Proof.
  intros [Hf Hg Hr Hn Ha Hs Ho] Hne. apply Forall_app in Hr as [Hr1 Hr2]. apply Forall_cons in Hr2 as [_ Hr2]. split; try done; [by apply Forall_app|].
  intros m e' Hm. rewrite (Hs m e' Hm). change ((n, e) :: l2) with ([(n, e)] ++ l2). rewrite !releases_of_app, releases_of_one. cbn [fst snd].
  destruct (Z.eqb_spec n m) as [-> |]; destruct (Nat.eqb_spec e e') as [-> |]; cbn; [congruence|lia..].
Qed.

Lemma counts_failed_guard s guards releases c : counts_ok s guards releases -> gd_acquired c = false -> counts_ok s (guards ++ [c]) releases.
Proof.
  intros [Hf Hg Hr Hn Ha Hs Ho] Hc. assert (forall m e, guards_of m e (guards ++ [c]) = guards_of m e guards) as Hcount.
  { intros m e. rewrite guards_of_app, guards_of_one. unfold guard_of. rewrite Hc. cbn. lia. }
  split; try done.
  - apply Forall_app. split; [done|]. apply Forall_singleton. congruence.
  - intros m e. rewrite Hcount. apply Ha.
  - intros m e. rewrite Hcount. apply Hs.
Qed.

Lemma counts_drop_guard s l1 l2 c releases : counts_ok s (l1 ++ c :: l2) releases -> gd_acquired c = false -> counts_ok s (l1 ++ l2) releases.
Proof.
  intros [Hf Hg Hr Hn Ha Hs Ho] Hc. apply Forall_app in Hg as [Hg1 Hg2]. apply Forall_cons in Hg2 as [_ Hg2].
  assert (forall m e, guards_of m e (l1 ++ c :: l2) = guards_of m e (l1 ++ l2)) as Hcount.
  { intros m e. change (c :: l2) with ([c] ++ l2). rewrite !guards_of_app, guards_of_one. unfold guard_of. rewrite Hc. cbn. lia. }
  split; try done.
  - by apply Forall_app.
  - intros m e. rewrite <-Hcount. apply Ha.
  - intros m e. rewrite <-Hcount. apply Hs.
Qed.

(** Ending a session. *)
Lemma release_counts s guards l1 l2 n e : counts_ok s guards (l1 ++ (n, e) :: l2) -> sc_epochs s !! n = Some e ->
  let remaining := Nat.pred (default 0%nat (sc_sessions s !! n)) in
  let s1 := put_sessions s (<[n := remaining]> (sc_sessions s)) in
  counts_ok (if (0 <? remaining)%nat then s1 else put_online s1 (<[n := false]> (sc_online s1))) guards (l1 ++ l2).
Proof.
  intros [Hf Hg Hr Hn Ha Hs Ho] He remaining s1. apply Forall_app in Hr as [Hr1 Hr2]. apply Forall_cons in Hr2 as [_ Hr2].
  assert (forall m e', sc_epochs s !! m = Some e' -> default 0%nat (sc_sessions s1 !! m) = (guards_of m e' guards + releases_of m e' (l1 ++ l2))%nat) as Hs1.
  { intros m e' Hm. specialize (Hs m e' Hm). revert Hs. change ((n, e) :: l2) with ([(n, e)] ++ l2). rewrite !releases_of_app, releases_of_one. cbn [fst snd s1 put_sessions sc_sessions].
    destruct (decide (m = n)) as [-> |Hne].
    - assert (e' = e) as -> by congruence. rewrite lookup_insert_eq, Z.eqb_refl, Nat.eqb_refl. cbn. unfold remaining. lia.
    - rewrite lookup_insert_ne by done. rewrite (proj2 (Z.eqb_neq n m)) by done. cbn. lia. }
  assert (forall m, sc_epochs s !! m = None -> default 0%nat (sc_active s1 !! m) = 0%nat /\ default 0%nat (sc_sessions s1 !! m) = 0%nat) as Hn1.
  { intros m Hm. cbn [s1 put_sessions sc_sessions sc_active]. rewrite lookup_insert_ne by congruence. by apply Hn. }
  destruct (Nat.ltb_spec 0 remaining) as [Hlt|Hle]; (split; [done|done|by apply Forall_app|done|done|done|]).
  - intros m Hm. destruct (decide (m = n)) as [-> |Hne]; cbn [s1 put_sessions sc_sessions]; [by rewrite lookup_insert_eq|]. rewrite lookup_insert_ne by done. by apply Ho.
  - intros m. cbn [put_online sc_online s1 put_sessions sc_sessions]. destruct (decide (m = n)) as [-> |Hne]; [by rewrite lookup_insert_eq|]. rewrite !lookup_insert_ne by done. apply Ho.
Qed.

(** ** The writes keep the counts *)

Definition store_ok (records : Records) (t : Tables) (guards : list StreamConnectionGuard) (releases : list (Z * nat)) : Prop :=
  tables_match records t /\ counts_ok (tb_streams t) guards releases.

(** Only the streams and the timers matter. *)
Lemma store_ok_same records t t' guards releases :
  store_ok records t guards releases -> tb_streams t' = tb_streams t -> tb_gc t' = tb_gc t -> store_ok records t' guards releases.
Proof. intros [Hm Hc] E1 E2. split; [|by rewrite E1]. eapply matches_same; [exact Hm|by rewrite E1|done]. Qed.

(** A write that does to the streams no more than mark nodes online that have a session. *)
Definition mild {O} (u : @Update HostInfo O) : Prop :=
  forall records t, let '(_, t', _, _) := u records t in
  exists online, t' = set_streams t (put_online (tb_streams t) online) /\
  forall n, online !! n = Some true -> sc_online (tb_streams t) !! n = Some true \/ (0 < default 0%nat (sc_sessions (tb_streams t) !! n))%nat.

Definition mild_work (work : @NodeStoreWriteWork HostInfo) : Prop :=
  match work with UpdateBool u => mild u | UpdateMany u => mild u | _ => True end.

Lemma mild_same {O} (u : @Update HostInfo O) : (forall records t, (u records t).1.1.2 = t) -> mild u.
Proof.
  intros Hu records t. specialize (Hu records t). destruct (u records t) as [[[next t'] o] captured]. cbn in Hu. subst t'. exists (sc_online (tb_streams t)).
  split; [by destruct t as [[] gc c]|]. intros n Hn. by left.
Qed.

Lemma update_online_mild now (r : MachineRecord) n s b s' : update_online_after_expiry now r n s = (b, s') ->
  exists online, s' = put_online s online /\
  forall m, online !! m = Some true -> sc_online s !! m = Some true \/ (0 < default 0%nat (sc_sessions s !! m))%nat.
Proof.
  unfold update_online_after_expiry. intros [= _ <-]. eexists. split; [done|]. intros m. destruct (decide (m = n)) as [-> |Hne].
  - rewrite lookup_insert_eq. intros [= [Hlt _]%andb_true_iff]. apply Nat.ltb_lt in Hlt. by right.
  - rewrite lookup_insert_ne by done. by left.
Qed.

Ltac mild_by_cases := apply mild_same; intros records t; repeat (case_match; try done).

Lemma registry_work_mild work : registry_work work -> mild_work work /\ honest_work work.
Proof.
  intros Hw. destruct Hw as [| | | |key expiry now|n expiry now|key name|key now|key tags|key routes|key routes|key n machine_key epoch|updates|updates|deadline|candidates last_check now relay];
    cbn [mild_work honest_work]; [done..| | | | | | | | | | | |].
  - split; [|apply expiry_honest]. intros records t. unfold expiry_update. destruct (records !! key) as [r|]; [|exists (sc_online (tb_streams t)); split; [by destruct t as [[] ? ?]|by left]].
    destruct (update_online_after_expiry _ _ _ _) as [b s] eqn:E. apply update_online_mild in E as (online & -> & Hon). by exists online.
  - split; [|apply node_expiry_honest]. intros records t. unfold node_expiry_update. destruct (find_node records n) as [[key r]|]; [|exists (sc_online (tb_streams t)); split; [by destruct t as [[] ? ?]|by left]].
    destruct (update_online_after_expiry _ _ _ _) as [b s] eqn:E. apply update_online_mild in E as (online & -> & Hon). by exists online.
  - split; [|apply rename_honest]. unfold rename_update. mild_by_cases.
  - split; [|apply touch_honest]. unfold touch_last_seen_update. mild_by_cases.
  - split; [|apply tags_honest]. unfold tags_update. mild_by_cases.
  - split; [|apply approved_honest]. unfold approved_update. mild_by_cases.
  - split; [|apply available_honest]. unfold available_update. mild_by_cases.
  - split; [|apply gc_owned_honest]. unfold gc_owned_update. mild_by_cases.
  - split; [|apply approvals_honest]. unfold approvals_update. mild_by_cases.
  - split; [|apply approve_many_honest]. unfold approve_many_update. mild_by_cases.
  - split; [|apply gc_honest]. unfold gc_update. mild_by_cases.
  - split; [|apply expire_honest]. intros records t. unfold expire_update. destruct (fold_left _ _ _) as [[[online changes] keys] ids] eqn:E.
    exists online. split; [done|]. apply expire_fold in E as (_ & _ & Hon & _). intros n. rewrite Hon. case_bool_decide; [done|]. by left.
Qed.

Lemma mild_counts s online guards releases : counts_ok s guards releases ->
  (forall n, online !! n = Some true -> sc_online s !! n = Some true \/ (0 < default 0%nat (sc_sessions s !! n))%nat) -> counts_ok (put_online s online) guards releases.
Proof. intros Hc Hon. by apply (counts_ext s). Qed.

Lemma write_store_ok work records t guards releases c records' t' :
  registry_work work -> store_ok records t guards releases -> direct_write work records t = (c, records', t') -> store_ok records' t' guards releases.
Proof.
  intros [Hmild Hhonest]%registry_work_mild [Hm Hc] Hd. pose proof (batch_step_direct work records t Hm Hhonest) as Hs. destruct (batch_step work records t) as [[[c0 publish] next] t0] eqn:Eb.
  destruct Hs as (Hd' & Hm' & _). rewrite Hd in Hd'. injection Hd' as -> -> ->. split; [done|]. unfold batch_step in Eb.
  destruct work as [key rec|key|u|u|old new rec changes presence|]; cbn [mild_work] in Hmild; try specialize (Hmild records t).
  3, 4: destruct (u records t) as [[[next' t1] o] captured]; destruct Hmild as (online & -> & Hon).
  all: injection Eb as <- <- <- <-; apply retire_counts; cbn [tb_streams set_streams]; try done; by apply mild_counts.
Qed.

Lemma acquire_honest native now n flag : honest bo_publish_snapshot (acquire_update native now n flag).
Proof.
  intros records t. unfold acquire_update. destruct (native && _); [done|]. destruct (find_node records n) as [[key r]|]; [|done].
  by destruct (acquire_tables _ _ _ _) as [[e generation] s].
Qed.

Lemma release_honest now n epoch : honest bo_publish_snapshot (release_update now n epoch).
Proof.
  intros records t. unfold release_update. destruct (negb _); [done|]. destruct (find_node records n) as [[key r]|]; [|done]. by destruct (0 <? _)%nat.
Qed.

Lemma any_work_honest work : any_work work -> honest_work work.
Proof. destruct 1 as [w [_ Hw]%registry_work_mild| |]; [done|apply acquire_honest|apply release_honest]. Qed.

Lemma release_store_ok now n e g guards l1 l2 outcome captured g' :
  store_ok (rg_records g) (rg_tables g) guards (l1 ++ (n, e) :: l2) -> apply_nodestore_bool_update [] (release_update now n e) g = (outcome, captured, g') ->
  store_ok (rg_records g') (rg_tables g') guards (l1 ++ l2).
Proof.
  intros [Hm Hc]. unfold apply_nodestore_bool_update, apply_nodestore_bool_update_direct, release_update, epoch_current. case_bool_decide as He; cbn [negb].
  - assert (node_present (rg_records g) n = true) as Hp by (apply (tm_epochs _ _ Hm); by eexists). apply find_node_present in Hp as [[key r] Hf]. rewrite Hf. pose proof (release_counts _ _ _ _ _ _ Hc He) as Hc'. cbn zeta in Hc'.
    destruct (0 <? _)%nat; intros Hq; apply (f_equal snd) in Hq; cbn [snd] in Hq; subst g'; (split; [apply (retire_matches _ (set_streams _ _))|by apply retire_counts]).
  - intros Hq. apply (f_equal snd) in Hq. cbn [snd] in Hq. subst g'. split; [done|]. by apply (counts_drop_release _ _ _ _ n e).
Qed.

Lemma gc_cancel_matches (records : Records) t key : tables_match records t -> tables_match records (set_gc t (gc_cancel key <$> tb_gc t)).
Proof.
  intros [He Ht]. split; [done|]. cbn [set_gc tb_gc]. intros gc k timer. destruct (tb_gc t) as [gc0|] eqn:E; cbn; [|done]. intros [= <-]. cbn [gc_cancel set_timers gc_timers].
  intros [_ Hk]%lookup_delete_Some. by apply (Ht gc0).
Qed.

Lemma counts_fresh s guards releases f : counts_ok s guards releases -> (sc_fresh s <= f)%nat -> counts_ok (put_fresh s f) guards releases.
Proof.
  intros [Hf Hg Hr Hn Ha Hs Ho] Hle. split; cbn [put_fresh sc_epochs sc_fresh sc_active sc_sessions sc_online]; try done.
  - intros n e Hn'. specialize (Hf n e Hn'). lia.
  - eapply Forall_impl; [exact Hg|]. cbn. intros c Hc Ha'. specialize (Hc Ha'). lia.
  - eapply Forall_impl; [exact Hr|]. cbn. lia.
Qed.

Lemma acquire_store_ok relay native now n grace g guards releases c change g' :
  store_ok (rg_records g) (rg_tables g) guards releases -> acquire_stream_connection relay native now n grace g = (c, change, g') ->
  store_ok (rg_records g') (rg_tables g') (guards ++ [c]) releases.
Proof.
  intros [Hm Hc]. unfold acquire_stream_connection. set (flag := sc_fresh _). set (s0 := put_fresh _ (S flag)).
  assert (counts_ok s0 guards releases) as Hc0 by (apply counts_fresh; [done|unfold flag; lia]).
  unfold apply_nodestore_bool_update, apply_nodestore_bool_update_direct, acquire_update. cbn [rg_tables rg_records set_tables set_streams tb_streams].
  destruct (native && _).
  - intros [= <- _ <-]. split; [by eapply matches_same; [exact Hm|..]|]. apply counts_failed_guard; [|done]. by apply (counts_ext s0); auto.
  - destruct (find_node (rg_records g) n) as [[key r]|].
    + destruct (acquire_tables n flag _ s0) as [[e generation] s1] eqn:Ea. cbn [unchanged quiet_clearing bo_publish_snapshot bo_change bo_clear_unhealthy_route_state bo_applied].
      cbn [finish_stream_connection]. intros Hq. pose proof (f_equal snd Hq) as Hg. apply (f_equal (fun p => p.1.1)) in Hq. cbn [fst snd] in Hq, Hg. subst c g'.
      destruct (acquire_counts _ _ _ _ _ _ _ _ _ grace Hc0 Ea) as (Hc1 & _). destruct (ephemeral_node_key_by_id _ _) as [k|].
      * split; [apply gc_cancel_matches, (retire_matches _ (set_streams _ _))|by apply retire_counts].
      * split; [apply (retire_matches _ (set_streams _ _))|by apply retire_counts].
    + intros [= <- _ <-]. split; [by eapply matches_same; [exact Hm|..]|]. by apply counts_failed_guard.
Qed.

Lemma ensure_epoch_store_ok records t n guards releases e s : store_ok records t guards releases -> node_present records n = true -> ensure_epoch (tb_streams t) n = (e, s) ->
  store_ok records (set_streams t s) guards releases.
Proof.
  intros [Hm Hc] Hn Ee. destruct (ensure_epoch_counts _ _ _ _ _ _ Hc Ee) as (Hc' & _ & _ & _ & Hother). split; [|done]. destruct Hm as [He Ht]. split; [|done].
  cbn [set_streams tb_streams]. intros m Hm. destruct (decide (m = n)) as [-> |Hne]; [done|]. rewrite Hother in Hm by done. by apply He.
Qed.

Lemma record_present (records : Records) key r : records !! key = Some r -> node_present records (stable_node_id_for_key key r) = true.
Proof. intros Hr. apply node_present_true. eauto. Qed.

(** Installing the timer of the record of a key. *)
Lemma set_gc_store_ok records t gc guards releases : store_ok records t guards releases ->
  (forall key timer, gc_timers gc !! key = Some timer -> timer_retained records key timer = true) -> store_ok records (set_gc t (Some gc)) guards releases.
Proof. intros [[He Ht] Hc] Hgc. split; [|done]. split; [done|]. cbn. intros gc' key timer [= <-]. apply Hgc. Qed.

Lemma schedule_owned_store_ok key r epoch g guards releases :
  store_ok (rg_records g) (rg_tables g) guards releases -> rg_records g !! key = Some r ->
  store_ok (rg_records (schedule_owned key r epoch g)) (rg_tables (schedule_owned key r epoch g)) guards releases.
Proof.
  intros Hok Hr. pose proof Hok as [[_ Ht] _]. unfold schedule_owned. destruct (tb_gc (rg_tables g)) as [gc|] eqn:Egc; [|done]. destruct (gc_closed gc); [done|].
  assert (forall k timer, gc_timers (gc_cancel key gc) !! k = Some timer -> timer_retained (rg_records g) k timer = true) as Hcancel.
  { intros k timer. cbn [gc_cancel set_timers gc_timers]. intros [_ Hk]%lookup_delete_Some. by apply (Ht gc). }
  destruct (negb (mr_ephemeral r)); [by apply set_gc_store_ok|]. destruct (negb _); [done|].
  assert (forall e s, match epoch with Some e => (e, tb_streams (rg_tables g)) | None => ensure_epoch (tb_streams (rg_tables g)) (stable_node_id_for_key key r) end = (e, s) ->
    store_ok (rg_records g) (set_streams (rg_tables g) s) guards releases) as Hepoch.
  { intros e s. destruct epoch as [e0|]; [intros [= <- <-]; by eapply store_ok_same|]. apply ensure_epoch_store_ok; [done|by apply record_present]. }
  destruct (match epoch with Some e => _ | None => _ end) as [e s] eqn:Ee. specialize (Hepoch e s eq_refl). destruct (0 <? _)%nat; apply (set_gc_store_ok (rg_records g)); try done.
  intros k timer. cbn [gc_timers]. intros [[<- <-]|[_ Hk]]%lookup_insert_Some; [|by apply (Ht gc)]. unfold timer_retained. rewrite Hr. cbn. by rewrite Z.eqb_refl, bool_decide_true.
Qed.

Lemma schedule_store_ok key g guards releases :
  store_ok (rg_records g) (rg_tables g) guards releases -> store_ok (rg_records (schedule key g)) (rg_tables (schedule key g)) guards releases.
Proof.
  intros Hok. unfold schedule. destruct (rg_records g !! key) as [r|] eqn:Er; [|done]. destruct (ensure_epoch _ _) as [e s] eqn:Ee.
  apply schedule_owned_store_ok; [|done]. eapply ensure_epoch_store_ok; [done|by apply record_present|done].
Qed.

Lemma dispatch_store_ok attrs relay n r epoch g guards releases :
  store_ok (rg_records g) (rg_tables g) guards releases ->
  store_ok (rg_records (dispatch_state_disconnect attrs relay n r epoch g)) (rg_tables (dispatch_state_disconnect attrs relay n r epoch g)) guards releases.
Proof.
  intros Hok. unfold dispatch_state_disconnect. destruct (negb _); [done|]. destruct (find_node _ _) as [[key r']|] eqn:Ef; [|done]. apply find_node_Some in Ef as [Ef _].
  apply schedule_owned_store_ok; [|done]. by eapply store_ok_same.
Qed.

Lemma removal_store a n (g : MachineRegistry) : rg_records (finish_node_removal a n g).2 = rg_records g /\ tb_streams (rg_tables (finish_node_removal a n g).2) = tb_streams (rg_tables g) /\
  tb_gc (rg_tables (finish_node_removal a n g).2) = tb_gc (rg_tables g).
Proof. unfold finish_node_removal. by destruct (pa_refresh a) as [[[]|]|]. Qed.

(** What deleting the node of a timer does to the store is the write of [gc_owned_update]. *)
Lemma delete_gc_owned_store a key n machine_key epoch (g : MachineRegistry) :
  exists t, (direct_write (UpdateBool (gc_owned_update key n machine_key epoch)) (rg_records g) (rg_tables g)).1.2 = rg_records (try_delete_gc_owned a key n machine_key epoch g).2 /\
  (direct_write (UpdateBool (gc_owned_update key n machine_key epoch)) (rg_records g) (rg_tables g)).2 = t /\
  tb_streams (rg_tables (try_delete_gc_owned a key n machine_key epoch g).2) = tb_streams t /\ tb_gc (rg_tables (try_delete_gc_owned a key n machine_key epoch g).2) = tb_gc t.
Proof.
  eexists. split_and!; [|reflexivity|..]; unfold try_delete_gc_owned, apply_nodestore_bool_update, direct_write; destruct (apply_nodestore_bool_update_direct _ _ _) as [[[outcome captured] records] t] eqn:E;
    unfold apply_nodestore_bool_update_direct, gc_owned_update in E;
    (assert (bo_change outcome = None) as -> by (repeat case_match; simplify_eq/=; done));
    destruct captured; try done; cbn [snd]; match goal with |- context [finish_node_removal ?a ?n ?g] => destruct (removal_store a n g) as (E1 & E2 & E3); destruct (finish_node_removal a n g) end; cbn in *; congruence.
Qed.

Lemma claim_timer_Some key generation gc timer gc' : claim_timer key generation gc = Some (timer, gc') ->
  gc_timers gc !! key = Some timer /\ tm_generation timer = generation /\ gc' = gc_cancel key gc.
Proof.
  unfold claim_timer. destruct (gc_timers gc !! key) as [timer0|]; [|done]. destruct (Z.eqb_spec (tm_generation timer0) generation); [|done]. by intros [= <- <-].
Qed.

Lemma fire_store_ok a persisted key generation g guards releases :
  store_ok (rg_records g) (rg_tables g) guards releases ->
  store_ok (rg_records (fire a persisted key generation g)) (rg_tables (fire a persisted key generation g)) guards releases.
Proof.
  intros Hok. unfold fire. destruct (tb_gc (rg_tables g)) as [gc|] eqn:Egc; [|done]. destruct (gc_closed gc); [done|].
  destruct (claim_timer key generation gc) as [[timer gc']|] eqn:Ec; [|done]. apply claim_timer_Some in Ec as (_ & _ & ->).
  set (g1 := set_tables g _). assert (store_ok (rg_records g1) (rg_tables g1) guards releases) as Hok1.
  { destruct Hok as [Hm Hc]. split; [|done]. pose proof (gc_cancel_matches _ _ key Hm) as Hm1. rewrite Egc in Hm1. exact Hm1. }
  destruct (negb _); [done|]. destruct (rg_records g1 !! key) as [r|]; [|done]. destruct (_ || _); [done|]. destruct (_ || _); [done|]. destruct persisted; [|done].
  destruct (delete_gc_owned_store a key (tm_node_id timer) (tm_machine_key_hex timer) (tm_epoch timer) g1) as (t & Er & Et & E1 & E2).
  destruct (direct_write _ _ _) as [[c records] t'] eqn:Ed. cbn in Er, Et. subst t' records. eapply write_store_ok in Ed; [|apply work_gc_owned|exact Hok1].
  by apply (store_ok_same _ t).
Qed.

Lemma run_release_store_ok now n e g notices guards l1 l2 g' notices' :
  store_ok (rg_records g) (rg_tables g) guards (l1 ++ (n, e) :: l2) -> run_release now (n, e) g notices = (g', notices') ->
  store_ok (rg_records g') (rg_tables g') guards (l1 ++ l2).
Proof.
  intros Hok. unfold run_release, release_state_session_in_epoch. cbn [fst snd]. destruct (apply_nodestore_bool_update _ _ _) as [[outcome captured] g0] eqn:E.
  pose proof (release_store_ok _ _ _ _ _ _ _ _ _ _ Hok E) as Hok'. intros Hq. assert (g' = g0) as -> by (destruct captured; try destruct (bo_applied outcome); by injection Hq). done.
Qed.

Definition sys_ok (y : System) : Prop := store_ok (rg_records (sy_registry y)) (rg_tables (sy_registry y)) (sy_guards y) (sy_releases y).

Lemma drop_guard_ok now c g l1 l2 releases notices : store_ok (rg_records g) (rg_tables g) (l1 ++ c :: l2) releases -> sys_ok (drop_guard now c (mkSystem g (l1 ++ l2) releases notices)).
Proof.
  intros [Hm Hc]. unfold drop_guard, sys_ok. destruct (gd_acquired c) eqn:Ea; cbn [negb]; [|split; [done|]; by apply (counts_drop_guard _ _ _ c)].
  cbn [sy_registry sy_guards sy_releases sy_notices]. destruct (release_stream_connection _ _ _ _) as [still s] eqn:Er.
  destruct (close_counts _ _ _ _ _ _ _ _ Hc Ea Er) as [Hc1 He1]. destruct (forget_flag_tables (gd_node_id c) (gd_cancelled c) s) as [flags Ef].
  set (g1 := with_streams g _). assert (store_ok (rg_records g1) (rg_tables g1) (l1 ++ l2) (match still with Some _ => releases ++ [(gd_node_id c, gd_epoch c)] | None => releases end)) as Hok1.
  { unfold g1. rewrite Ef. split; [by eapply matches_same; [exact Hm|..]|]. by apply (counts_ext s); auto. }
  destruct still as [still|]; [|exact Hok1]. destruct (schedule_mode _ _ _ _ _); [|exact Hok1].
  destruct (run_release _ _ _ _) as [g2 notices2] eqn:Err. eapply run_release_store_ok in Err; [|exact Hok1]. by rewrite app_nil_r in Err.
Qed.

Lemma cleanup_ok now threshold g guards releases : store_ok (rg_records g) (rg_tables g) guards releases ->
  store_ok (rg_records (cleanup_offline_connections now threshold g).2) (rg_tables (cleanup_offline_connections now threshold g).2) guards releases.
Proof.
  intros [Hm Hc]. unfold cleanup_offline_connections. cbn [snd]. set (gone := list_to_set _). split; [by eapply matches_same; [exact Hm|..]|].
  apply (counts_ext (tb_streams (rg_tables g))); auto. intros n.
  cbn [rg_tables set_tables set_changes set_streams tb_streams put_active put_delivered put_disconnected_at put_route_health sc_active]. rewrite keep_ids_lookup.
  case_bool_decide as Hn; [|done]. apply elem_of_list_to_set, list_elem_of_In, filter_In in Hn as [_ Hlong]. unfold long_offline in Hlong.
  destruct (sc_disconnected_at _ !! n); [|done]. apply andb_true_iff in Hlong as [_ ->%Nat.eqb_eq]. done.
Qed.

Lemma system_step_ok y y' : system_step y y' -> sys_ok y -> sys_ok y'.
Proof.
  unfold sys_ok. intros Hstep Hok. destruct Hstep as [y relay native now n grace c change g Ha|y now c l1 l2 Hg|y now [n e] l1 l2 g notices Hr Hrun|y attrs relay n r epoch l1 l2 Hn|
    y work c records t Hw Hd|y attrs changes|y now threshold|y key|y a persisted key generation|y|y]; cbn [sy_registry sy_guards sy_releases sy_notices].
  - by eapply acquire_store_ok.
  - rewrite Hg in Hok. by apply drop_guard_ok.
  - rewrite Hr in Hok. by eapply run_release_store_ok.
  - by apply dispatch_store_ok.
  - by eapply write_store_ok.
  - by eapply store_ok_same.
  - by apply cleanup_ok.
  - by apply schedule_store_ok.
  - by apply fire_store_ok.
  - destruct Hok as [[He Ht] Hc]. split; [|done]. split; [done|]. cbn. intros gc key timer. destruct (tb_gc _); cbn; [|done]. intros [= <-]. cbn. by rewrite lookup_empty.
  - destruct Hok as [Hm Hc]. split; [by eapply matches_same; [exact Hm|..]|]. by eapply (counts_ext _ _ _ _ Hc); auto.
Qed.

Lemma system_reachable_ok y : system_reachable y -> sys_ok y.
Proof.
  induction 1 as [records gc primary allocator Hgc|y y' _ IH Hstep]; [|by eapply system_step_ok]. split.
  - split; cbn; [intros n [e He]; done|]. intros gc' key timer -> Hk. rewrite (Hgc gc') in Hk by done. done.
  - split; cbn; try done.
Qed.

(** C24. The accounts of the streams are exact in every state that opening and closing
    streams, releases after their grace period, writes of all kinds, timers, clean-ups
    and shutdown can reach, in any order: for a node that has an epoch, its active count
    is the number of open streams of that epoch, and its session count is the open
    streams with the releases still waiting; a node that is marked online has one of
    them, so that when the last is gone it is offline; and streams and timers are kept
    only for nodes that are in the registry. *)
Theorem stream_accounting_exact y :
  system_reachable y ->
  let s := streams_of (sy_registry y) in
  (forall n e, sc_epochs s !! n = Some e ->
     default 0%nat (sc_active s !! n) = guards_of n e (sy_guards y) /\
     default 0%nat (sc_sessions s !! n) = (guards_of n e (sy_guards y) + releases_of n e (sy_releases y))%nat) /\
  (forall n, sc_online s !! n = Some true -> exists e, sc_epochs s !! n = Some e /\ (0 < guards_of n e (sy_guards y) + releases_of n e (sy_releases y))%nat) /\
  tables_match (rg_records (sy_registry y)) (rg_tables (sy_registry y)).
Proof.
  intros [Hm [Hf Hg Hr Hn Ha Hs Ho]]%system_reachable_ok. cbn zeta. split_and!; [auto| |done]. intros n Hon. apply Ho in Hon. destruct (sc_epochs (streams_of (sy_registry y)) !! n) as [e|] eqn:Ee.
  - exists e. split; [done|]. by rewrite <-(Hs n e).
  - destruct (Hn n Ee) as [_ E0]. unfold streams_of in *. lia.
Qed.


(** The timer of an ephemeral node deletes only what it was started for: when it
    changes the records at all, it removes the record of its key, which is ephemeral and
    has the node id and machine key the timer was made with; the epoch of the timer is
    the node's current one, and no stream of it is open. *)
Theorem timer_deletes_its_node y a persisted key generation :
  system_reachable y ->
  let g := sy_registry y in
  let g' := fire a persisted key generation g in
  rg_records g' = rg_records g \/
  exists gc timer r, tb_gc (rg_tables g) = Some gc /\ gc_timers gc !! key = Some timer /\ tm_generation timer = generation /\
    rg_records g !! key = Some r /\ mr_ephemeral r = true /\ mr_machine_key_hex r = tm_machine_key_hex timer /\ stable_node_id_for_key key r = tm_node_id timer /\
    (forall e, tm_epoch timer = Some e -> sc_epochs (streams_of g) !! tm_node_id timer = Some e /\ guards_of (tm_node_id timer) e (sy_guards y) = 0%nat) /\
    rg_records g' = delete key (rg_records g).
Proof.
  intros Hreach%system_reachable_ok. destruct Hreach as [_ [_ _ _ _ Ha _ _]]. cbn zeta. unfold fire. destruct (tb_gc (rg_tables (sy_registry y))) as [gc|] eqn:Egc; [|by left].
  destruct (gc_closed gc); [by left|]. destruct (claim_timer key generation gc) as [[timer gc']|] eqn:Ec; [|by left]. apply claim_timer_Some in Ec as (Ht & Hgen & ->).
  destruct (match tm_epoch timer with Some e => epoch_current _ _ e | None => true end) eqn:Eepoch; cbn [negb]; [|by left].
  set (g1 := set_tables _ _). change (rg_records g1) with (rg_records (sy_registry y)). destruct (rg_records (sy_registry y) !! key) as [r|] eqn:Er; [|by left].
  case_bool_decide as Emk; cbn [negb orb]; [|by left]. destruct (Z.eqb_spec (stable_node_id_for_key key r) (tm_node_id timer)) as [Eid|]; cbn [negb orb]; [|by left].
  destruct (is_stream_connected _ _) eqn:Econ; cbn [orb]; [by left|]. destruct (mr_ephemeral r) eqn:Eph; cbn [negb]; [|by left]. destruct persisted; [|by left].
  right. exists gc, timer, r. split_and!; try done.
  - intros e He. rewrite He in Eepoch. unfold epoch_current in Eepoch. apply bool_decide_eq_true in Eepoch. split; [done|].
    rewrite <-(Ha _ _ Eepoch). unfold is_stream_connected in Econ. apply Nat.ltb_ge in Econ. lia.
  - destruct (delete_gc_owned_store a key (tm_node_id timer) (tm_machine_key_hex timer) (tm_epoch timer) g1) as (t & Hrec & _). rewrite <-Hrec.
    cbn [direct_write]. unfold apply_nodestore_bool_update_direct, gc_owned_update. change (tb_streams (rg_tables g1)) with (tb_streams (rg_tables (sy_registry y))). rewrite Eepoch. cbn [negb].
    change (rg_records g1) with (rg_records (sy_registry y)). rewrite Er, Eid, Z.eqb_refl, bool_decide_true by done. done.
Qed.
End sessions.

(** ** Examples *)

Module SessionExamples.

Import UpdateExamples.

Definition gc0 : EphemeralNodeGc := mkGc ∅ 0 false.

Definition start : System := mkSystem (registry_start nodes (Some gc0) PrimaryRouteState_new None) [] [] [].

Definition opened := acquire_stream_connection (fun _ => false) false 200 2 10 (sy_registry start).

Definition one_stream : System := mkSystem opened.2 [opened.1.1] [] [].

Definition after_close : System := drop_guard 210 opened.1.1 (mkSystem opened.2 [] [] []).

Definition timed : System := mkSystem (schedule "k2" (sy_registry start)) [] [] [].

(** The phone is counted while its stream is open, keeps its session in the grace
    period, and goes offline with the release. *)
Example stream_life :
  (default 0%nat (sc_active (streams_of (sy_registry one_stream)) !! 2), sc_online (streams_of (sy_registry one_stream)) !! 2) = (1%nat, Some true) /\
  (default 0%nat (sc_active (streams_of (sy_registry after_close)) !! 2), sy_releases after_close, sc_online (streams_of (sy_registry after_close)) !! 2) = (0%nat, [(2, gd_epoch opened.1.1)], Some true) /\
  sc_online (streams_of (run_release 220 (2, gd_epoch opened.1.1) (sy_registry after_close) []).1) !! 2 = Some false.
Proof. split_and!; vm_compute; reflexivity. Qed.

(** The timer of the idle phone deletes it. *)
Example timer_fires : rg_records (fire quiet_policy (Ok tt) "k2" 0 (sy_registry timed)) !! "k2"%string = None /\
  mr_hostname <$> rg_records (fire quiet_policy (Ok tt) "k2" 1 (sy_registry timed)) !! "k2"%string = Some "phone"%string.
Proof. split; vm_compute; reflexivity. Qed.

Lemma first_state_reachable : system_reachable start.
Proof. apply reach_start. by intros gc [= <-]. Qed.

Lemma stream_accounting_exact_witness :
  let s := streams_of (sy_registry after_close) in
  (forall n e, sc_epochs s !! n = Some e ->
     default 0%nat (sc_active s !! n) = guards_of n e (sy_guards after_close) /\
     default 0%nat (sc_sessions s !! n) = (guards_of n e (sy_guards after_close) + releases_of n e (sy_releases after_close))%nat) /\
  (forall n, sc_online s !! n = Some true -> exists e, sc_epochs s !! n = Some e /\ (0 < guards_of n e (sy_guards after_close) + releases_of n e (sy_releases after_close))%nat) /\
  tables_match (rg_records (sy_registry after_close)) (rg_tables (sy_registry after_close)).
Proof.
  apply (stream_accounting_exact after_close). apply (reach_step one_stream).
  - apply (reach_step start); [apply first_state_reachable|]. apply (step_open start (fun _ => false) false 200 2 10 opened.1.1 opened.1.2 opened.2). unfold opened. by destruct (acquire_stream_connection _ _ _ _ _ _) as [[]].
  - apply (step_close one_stream 210 opened.1.1 [] []). reflexivity.
Defined.

Definition batch : list (@NodeStoreWriteWork unit) :=
  [UpdateBool (rename_update "k2" "tablet"); UpdateBool (tags_update "k1" ["tag:db"%string]); Delete "k2"].

(** The reply to the renaming is withdrawn, since the node is gone after the batch. *)
Example batch_replies : map (fun c => match c with UpdateBoolDone o _ => bo_applied o | _ => true end) (batch_store batch nodes (rg_tables registry)).1.1 = [false; true; true].
Proof. vm_compute. reflexivity. Qed.


Lemma timer_deletes_its_node_witness :
  let g := sy_registry timed in
  let g' := fire quiet_policy (Ok tt) "k2" 0 g in
  rg_records g' = rg_records g \/
  exists gc timer r, tb_gc (rg_tables g) = Some gc /\ gc_timers gc !! "k2"%string = Some timer /\ tm_generation timer = 0 /\
    rg_records g !! "k2"%string = Some r /\ mr_ephemeral r = true /\ mr_machine_key_hex r = tm_machine_key_hex timer /\ stable_node_id_for_key "k2" r = tm_node_id timer /\
    (forall e, tm_epoch timer = Some e -> sc_epochs (streams_of g) !! tm_node_id timer = Some e /\ guards_of (tm_node_id timer) e (sy_guards timed) = 0%nat) /\
    rg_records g' = delete "k2"%string (rg_records g).
Proof.
  apply (timer_deletes_its_node timed quiet_policy (Ok tt) "k2" 0). apply (reach_step start); [apply first_state_reachable|]. apply step_schedule.
Defined.

End SessionExamples.
