(* ===== verification/RegistryRoutes.v ===== *)
(** * RegistryRoutes: routes and look-ups of the node registry
    (headscale-api/src/tailscale_wire/mod.rs)

    Before the primary routes are read they are brought up to date with the registry:
    only nodes that are online and not expired serve their approved routes.  The
    election itself is [PrimaryRoutes]. *)

From stdpp Require Import base list gmap strings sets.
From Stdlib Require Import ZArith Lia Sorting.Sorted.
From S2P Require Import Prelude Bytes Net GoNetip PrimaryRoutes IpAlloc GivenName MapChange MapBatcher Registry NodeStore NodeUpdates.

Open Scope Z_scope.
Open Scope rust_scope.

Section routes.
Context {HostInfo : Type} `{NetipText}.

Notation MachineRecord := (@MachineRecord HostInfo).
Notation Records := (gmap string MachineRecord).
Notation MachineRegistry := (@MachineRegistry HostInfo).

(** ** Primary routes *)

Definition is_live (now : Z) (online : gmap Z bool) (kv : string * MachineRecord) : bool :=
  negb (is_expired_at now kv.2) && default false (online !! stable_node_id_for_key kv.1 kv.2).

Definition serving (now : Z) (online : gmap Z bool) (snapshot : Records) : list (Z * list string) :=
  map (fun kv => (stable_node_id_for_key kv.1 kv.2, active_primary_routes (mr_available_routes kv.2) (mr_approved_routes kv.2)))
    (List.filter (is_live now online) (map_to_list snapshot)).

(** The result of [sync_routes] is ignored. *)
Definition sync_primary_routes_for_snapshot (now : Z) (snapshot : Records) (g : MachineRegistry) : MachineRegistry :=
  set_primary g (sync_routes (rg_primary g) (serving now (sc_online (tb_streams (rg_tables g))) snapshot)).1.

Definition primary_routes_for_snapshot (now : Z) (snapshot : Records) (g : MachineRegistry) : gmap string (list string) * MachineRegistry :=
  let g := sync_primary_routes_for_snapshot now snapshot g in
  (omap (fun routes => match routes with [] => None | _ => Some routes end)
     (map_imap (fun key r => Some (primary_routes (rg_primary g) (stable_node_id_for_key key r))) snapshot), g).

Definition primary_route_assignments (now : Z) (g : MachineRegistry) : gmap string Z * MachineRegistry :=
  let g := sync_primary_routes_for_snapshot now (rg_records g) g in (primary_assignments (rg_primary g), g).

Definition primary_route_for (now : Z) (route : string) (g : MachineRegistry) : option Z * MachineRegistry :=
  let g := sync_primary_routes_for_snapshot now (rg_records g) g in (pr_primary_route_for (rg_primary g) route, g).

(** [entry(route).or_default().push(node_id)]. *)
Definition push_advertiser (n : Z) (m : gmap string (list Z)) (route : string) : gmap string (list Z) := <[route := default [] (m !! route) ++ [n]]> m.

Definition collect_advertisers (now : Z) (online : gmap Z bool) (snapshot : Records) : gmap string (list Z) :=
  fold_left (fun m p => fold_left (push_advertiser p.1) p.2 m) (serving now online snapshot) ∅.

Definition ha_nodes (now : Z) (g : MachineRegistry) : gmap string (list Z) :=
  omap (fun ids => let ids := dedup (sort_by Z.compare ids) in if (2 <=? length ids)%nat then Some ids else None)
    (collect_advertisers now (sc_online (tb_streams (rg_tables g))) (rg_records g)).

Definition debug_available_routes_for_snapshot (now : Z) (snapshot : Records) (g : MachineRegistry) : gmap Z (list string) :=
  list_to_map (rev (omap (fun kv => match active_approved_routes (mr_available_routes kv.2) (mr_approved_routes kv.2) with
                                     | [] => None
                                     | routes => Some (stable_node_id_for_key kv.1 kv.2, sort_by (fun a b => match prefix_compare a b with Some c => c | None => str_cmp a b end) routes)
                                     end)
                     (List.filter (is_live now (sc_online (tb_streams (rg_tables g)))) (map_to_list snapshot)))).

Definition debug_routes_for_snapshot (now : Z) (snapshot : Records) (g : MachineRegistry) : DebugRoutes * MachineRegistry :=
  let g := sync_primary_routes_for_snapshot now snapshot g in
  (mkDebugRoutes (debug_available_routes_for_snapshot now snapshot g) (dbg_primary_routes (debug_routes (rg_primary g))), g).

(** ** Health *)

Definition set_route_candidate_health (attrs : list Z) (now : Z) (n : Z) (healthy : bool) (g : MachineRegistry) : bool * MachineRegistry :=
  let g := sync_primary_routes_for_snapshot now (rg_records g) g in
  if negb healthy && negb (has_routes (rg_primary g) n) then (false, g)
  else let '(primary, changed) := set_node_health (rg_primary g) n healthy in
       let g := set_primary g primary in
       (changed, if changed then wake_waiters attrs [broadcast_peer RouteHealthUpdate n] g else g).

Definition set_route_candidate_health_batch (attrs : list Z) (now : Z) (updates : list (Z * bool)) (g : MachineRegistry) : bool * MachineRegistry :=
  let g := sync_primary_routes_for_snapshot now (rg_records g) g in
  match List.filter (fun u => u.2 || has_routes (rg_primary g) u.1) updates with
  | [] => (false, g)
  | gated_updates =>
      let '(primary, changed) := set_node_health_batch (rg_primary g) gated_updates in
      let g := set_primary g primary in
      (changed, if changed then wake_waiters attrs [pending_global RouteHealthUpdate] g else g)
  end.

Definition is_route_candidate_healthy (n : Z) (g : MachineRegistry) : bool := is_node_healthy (rg_primary g) n.

(** ** Look-ups *)

Definition record_cmp (a b : string * MachineRecord) : comparison :=
  then_with (Z.compare (stable_node_id_for_key a.1 a.2) (stable_node_id_for_key b.1 b.2)) (str_cmp a.1 b.1).

Definition sort_machine_records_by_node_id (l : list (string * MachineRecord)) : list (string * MachineRecord) := sort_by record_cmp l.

Definition get_by_machine_key_any_user (machine_key : string) (g : MachineRegistry) : option (string * MachineRecord) :=
  if bool_decide (machine_key = ""%string) then None
  else head (sort_machine_records_by_node_id (List.filter (fun kv => bool_decide (mr_machine_key_hex kv.2 = machine_key)) (map_to_list (rg_records g)))).

Definition list_nodes_by_user_id (user_id : Z) (g : MachineRegistry) : list (string * MachineRecord) :=
  sort_machine_records_by_node_id (List.filter (fun kv => bool_decide (ow_user_id (mr_owner kv.2) = Some user_id) && negb (is_tagged kv.2)) (map_to_list (rg_records g))).

Definition list_peers_for (n : Z) (g : MachineRegistry) : list (string * MachineRecord) :=
  if node_present (rg_records g) n then sort_machine_records_by_node_id (List.filter (fun kv => negb (has_id n kv)) (map_to_list (rg_records g))) else [].

Definition node_key_by_id (n : Z) (g : MachineRegistry) : option string := fst <$> find_node (rg_records g) n.

Definition delivered_peers (n : Z) (g : MachineRegistry) : gset Z := default ∅ (sc_delivered (tb_streams (rg_tables g)) !! n).

Definition record_delivered_peers (n : Z) (peers : gset Z) (g : MachineRegistry) : MachineRegistry :=
  let s := tb_streams (rg_tables g) in
  if bool_decide (sc_delivered s !! n = Some peers) then g
  else set_tables g (set_streams (rg_tables g) (put_delivered s (<[n := peers]> (sc_delivered s)))).

(** [dispatch_map_change]: a policy change is for all, others have an origin. *)
Definition dispatch_map_change (attrs : list Z) (change : option (MapChangeReason * Z)) (g : MachineRegistry) : MachineRegistry :=
  wake_waiters attrs (match change with
                      | Some (PolicyChange, _) => [pending_global PolicyChange]
                      | Some (reason, n) => [pending_origin reason n]
                      | None => []
                      end) g.

(** ** Only live nodes are primaries *)

(** A node of the registry that serves a route. *)
Definition serves (now : Z) (online : gmap Z bool) (snapshot : Records) (n : Z) (route : string) : Prop :=
  exists key r, snapshot !! key = Some r /\ stable_node_id_for_key key r = n /\ is_expired_at now r = false /\ online !! n = Some true /\
    route ∈ active_primary_routes (mr_available_routes r) (mr_approved_routes r).

Lemma elem_of_serving now online snapshot n routes : (n, routes) ∈ serving now online snapshot <->
  exists key r, snapshot !! key = Some r /\ stable_node_id_for_key key r = n /\ is_expired_at now r = false /\ online !! n = Some true /\
    routes = active_primary_routes (mr_available_routes r) (mr_approved_routes r).
Proof.
  unfold serving. rewrite list_elem_of_fmap. split.
  - intros ([key r] & [= -> ->] & Hin). apply list_elem_of_In, filter_In in Hin as [Hin Hl]. apply list_elem_of_In, elem_of_map_to_list in Hin.
    unfold is_live in Hl. cbn in *. apply andb_true_iff in Hl as [He%negb_true_iff Ho]. exists key, r. split_and!; try done. destruct (online !! _) as [[]|]; done.
  - intros (key & r & Hr & <- & He & Ho & ->). exists (key, r). split; [done|]. apply list_elem_of_In, filter_In. split; [by apply list_elem_of_In, elem_of_map_to_list|].
    unfold is_live. cbn. by rewrite He, Ho.
Qed.

End routes.

(** ** With the prefixes of [GoNetip] *)

Section live.
Context {HostInfo : Type}.

Notation MachineRecord := (@MachineRecord HostInfo).
Notation Records := (gmap string MachineRecord).
Notation MachineRegistry := (@MachineRegistry HostInfo).

Lemma active_primary_text available approved route : route ∈ active_primary_routes available approved -> route_text_ok route.
Proof.
  unfold active_primary_routes, active_approved_routes, parse_each. intros Hin. apply list_elem_of_In, filter_In in Hin as [Hin Hx]. apply filter_In in Hin as [Ha _].
  apply list_elem_of_In, list_elem_of_omap in Ha as (text & _ & Ha). destruct (parse_prefix_text text) as [p|] eqn:Ep; [|done]. injection Ha as <-.
  apply parse_prefix_canonical in Ep. split; [done|]. unfold is_exit_route_str in Hx. rewrite Ep in Hx. by apply negb_true_iff.
Qed.

Lemma normalize_canonical routes : (forall route, route ∈ routes -> route_text_ok route) -> normalize_primary_routes routes = Ok (list_to_set routes).
Proof.
  induction routes as [|route routes IH]; intros Hok; [done|]. cbn [normalize_primary_routes list_to_set]. destruct (Hok route) as [-> Hx]; [set_solver|].
  cbn [result_bind]. rewrite IH by set_solver. cbn [result_bind]. by rewrite Hx.
Qed.

Lemma collect_keeps k v (nodes : list (Z * list string)) : forall acc out : gmap Z (gset string),
  (forall routes, (k, routes) ∉ nodes) -> acc !! k = Some v -> collect_routes nodes acc = Ok out -> out !! k = Some v.
Proof.
  induction nodes as [|[m r] nodes IH]; intros acc out Hfree Ha; cbn [collect_routes]; [by intros [= <-]|].
  destruct (normalize_primary_routes r) as [s|]; cbn [result_bind]; [|done]. apply IH; [set_solver|]. case_bool_decide; [done|].
  rewrite lookup_insert_ne; [done|]. intros ->. by apply (Hfree r), list_elem_of_here.
Qed.

(** What the registry's nodes serve, as the election sees it. *)
Lemma collect_serving (nodes : list (Z * list string)) : forall acc : gmap Z (gset string),
  (forall n routes route, (n, routes) ∈ nodes -> route ∈ routes -> route_text_ok route) ->
  exists out : gmap Z (gset string), collect_routes nodes acc = Ok out /\
  (forall n r, out !! n = Some r -> acc !! n = Some r \/ exists routes : list string, (n, routes) ∈ nodes /\ r = list_to_set routes) /\
  (forall n routes, (n, routes) ∈ nodes -> routes <> [] -> (forall routes', (n, routes') ∈ nodes -> routes' = routes) -> out !! n = Some (list_to_set routes)).
Proof.
  induction nodes as [|[k routes] nodes IH]; intros acc Hok; cbn [collect_routes].
  { exists acc. split_and!; [done|by left|]. intros n routes' Hin. by apply elem_of_nil in Hin. }
  rewrite normalize_canonical by (intros route Hr; by eapply (Hok k routes); [set_solver|]). cbn [result_bind]. set (acc' := if bool_decide ((list_to_set routes : gset string) = ∅) then acc else <[k := list_to_set routes]> acc).
  destruct (IH acc') as (out & Hout & Hfrom & Hto); [intros n routes' route Hin; apply (Hok n routes'); set_solver|]. exists out. split_and!; [done| |].
  - intros n r Hr. destruct (Hfrom n r Hr) as [Ha|(routes' & Hin & ->)]; [|right; exists routes'; set_solver]. unfold acc' in Ha. case_bool_decide; [by left|].
    apply lookup_insert_Some in Ha as [[<- <-]|[_ Ha]]; [right; exists routes; set_solver|by left].
  - intros n routes' Hin Hne Huniq. destruct (decide ((n, routes') ∈ nodes)) as [Hin'|Hnot]; [apply Hto; [done|done|set_solver]|].
    apply elem_of_cons in Hin as [[= -> ->]|Hin]; [|done]. assert (acc' !! k = Some (list_to_set routes)) as Ha.
    { unfold acc'. rewrite bool_decide_false; [by rewrite lookup_insert_eq|]. destruct routes; [done|]. cbn. set_solver. }
    assert (forall routes', (k, routes') ∉ nodes) as Hfree by (intros r' Hr'; apply Hnot; by rewrite <-(Huniq r') by set_solver).
    by eapply collect_keeps.
Qed.

(** The primary routes of a map: a route is given to a node of the registry exactly
    when the node is its elected primary; a primary is online, not expired, and has the
    route advertised and approved; and a route that some healthy such node serves has a
    primary, provided that node ids are unique. *)
Theorem registry_primaries_live now (snapshot : Records) (g : MachineRegistry) :
  let '(routes, g') := primary_routes_for_snapshot now snapshot g in
  let serves := serves now (sc_online (tb_streams (rg_tables g))) snapshot in
  (forall key route, route ∈ default [] (routes !! key) <->
     exists r, snapshot !! key = Some r /\ pr_primaries (rg_primary g') !! route = Some (stable_node_id_for_key key r)) /\
  (forall route n, pr_primaries (rg_primary g') !! route = Some n -> serves n route) /\
  ((forall k k' r r', snapshot !! k = Some r -> snapshot !! k' = Some r' -> stable_node_id_for_key k r = stable_node_id_for_key k' r' -> k = k') ->
   forall route n, serves n route -> healthy (rg_primary g) n -> is_Some (pr_primaries (rg_primary g') !! route)).
Proof.
  unfold primary_routes_for_snapshot. cbn zeta. set (g' := sync_primary_routes_for_snapshot now snapshot g).
  set (online := sc_online (tb_streams (rg_tables g))). set (nodes := serving now online snapshot).
  assert (forall n routes route, (n, routes) ∈ nodes -> route ∈ routes -> route_text_ok route) as Htext.
  { intros n routes route (key & r & _ & _ & _ & _ & ->)%elem_of_serving. apply active_primary_text. }
  destruct (collect_serving nodes ∅ Htext) as (out & Hout & Hfrom & Hto).
  set (st1 := mkPrimary out (pr_primaries (rg_primary g)) (base.filter (fun n => is_Some (out !! n)) (pr_unhealthy (rg_primary g)))).
  assert (rg_primary g' = (update_primary_locked st1).1) as Hg'.
  { cbn [g' sync_primary_routes_for_snapshot set_primary rg_primary]. unfold sync_routes. fold online nodes. rewrite Hout. fold st1. by destruct (update_primary_locked st1). }
  pose proof (update_primary_eq st1) as Hu. rewrite Hg'. clear Hg'. clearbody g'. destruct (update_primary_locked st1) as [st2 changed]. cbn [fst]. destruct Hu as (Hr2 & _ & Hp2 & _).
  assert (forall n route, advertises st1 n route -> serves now online snapshot n route) as Hserve.
  { intros n route (rs & Hrs & Hin). cbn in Hrs. destruct (Hfrom n rs Hrs) as [He|(routes & Hn & ->)]; [done|]. apply elem_of_list_to_set in Hin.
    apply elem_of_serving in Hn as (key & r & Hr & <- & He & Ho & ->). by exists key, r. }
  split_and!.
  - intros key route. rewrite lookup_omap, map_lookup_imap. destruct (snapshot !! key) as [r|] eqn:Er; cbn [fmap mbind option_bind option_fmap].
    + assert (route ∈ primary_routes st2 (stable_node_id_for_key key r) <-> pr_primaries st2 !! route = Some (stable_node_id_for_key key r)) as Hpr.
      { unfold primary_routes, sort_routes. rewrite sort_by_In, list_elem_of_fmap. split.
        - intros ([p n] & -> & Hin). apply list_elem_of_In, filter_In in Hin as [Hin E]. cbn in E. apply Z.eqb_eq in E as <-. by apply list_elem_of_In, elem_of_map_to_list in Hin.
        - intros Hp. exists (route, stable_node_id_for_key key r). split; [done|]. apply list_elem_of_In, filter_In. split; [by apply list_elem_of_In, elem_of_map_to_list|]. cbn. apply Z.eqb_refl. }
      split.
      * intros Hin. exists r. split; [done|]. apply Hpr. cbn in Hin. destruct (primary_routes st2 _); done.
      * intros (r' & [= <-] & Hp). apply Hpr in Hp. cbn. destruct (primary_routes st2 _); [by apply elem_of_nil in Hp|done].
    + split; [intros Hin; by apply elem_of_nil in Hin|by intros (r & ? & _)].
  - intros route n. rewrite Hp2. intros He. apply Hserve, elem_of_advertisers. unfold elected in He. destruct (keeps_primary _ _ _) eqn:Hk.
    + unfold keeps_primary in Hk. rewrite He in Hk. apply andb_true_iff in Hk as [Hin _]. by apply bool_decide_eq_true in Hin.
    + apply find_some in He as [Hin _]. by apply list_elem_of_In.
  - intros Huniq route n (key & r & Hr & Hid & He & Ho & Hin) Hh. rewrite Hp2.
    assert (advertises st1 n route) as Hadv.
    { eexists. split; [|by apply elem_of_list_to_set, Hin]. apply Hto; [|by intros E; rewrite E in Hin; apply elem_of_nil in Hin|].
      - apply elem_of_serving. by exists key, r.
      - intros routes' (key' & r' & Hr' & Hid' & _ & _ & ->)%elem_of_serving. assert (key' = key) as -> by (eapply Huniq; [done|done|congruence]). rewrite Hr in Hr'. by injection Hr' as ->. }
    assert (is_unhealthy st1 n = false) as Hun by (apply is_unhealthy_false; unfold healthy in *; cbn; set_solver).
    unfold elected. destruct (keeps_primary st1 _ _) eqn:Hk; [unfold keeps_primary in Hk; by destruct (pr_primaries st1 !! route)|].
    destruct (List.find _ _) eqn:Ef; [by eexists|]. apply elem_of_advertisers, list_elem_of_In in Hadv. pose proof (find_none _ _ Ef n Hadv) as E. cbn in E. by rewrite Hun in E.
Qed.

Lemma push_fold n routes : forall (m : gmap string (list Z)) route x,
  x ∈ default [] (fold_left (push_advertiser n) routes m !! route) <-> x ∈ default [] (m !! route) \/ (x = n /\ route ∈ routes).
Proof.
  induction routes as [|q routes IH]; intros m route x; cbn [fold_left]; [set_solver|]. rewrite IH. unfold push_advertiser.
  destruct (decide (route = q)) as [-> |Hne]; [rewrite lookup_insert_eq; cbn; set_solver|rewrite lookup_insert_ne by done; set_solver].
Qed.

Lemma advertisers_fold (nodes : list (Z * list string)) : forall (m : gmap string (list Z)) route x,
  x ∈ default [] (fold_left (fun m p => fold_left (push_advertiser p.1) p.2 m) nodes m !! route) <->
  x ∈ default [] (m !! route) \/ exists routes, (x, routes) ∈ nodes /\ route ∈ routes.
Proof.
  induction nodes as [|[n routes] nodes IH]; intros m route x; cbn [fold_left fst snd]; [set_solver|]. rewrite IH, push_fold. split.
  - intros [[Hm|[-> Hr]]|(r & Hin & Hr)]; [by left|right; exists routes; set_solver|right; exists r; set_solver].
  - intros [Hm|(r & Hin & Hr)]; [by left; left|]. apply elem_of_cons in Hin as [[= -> ->]|Hin]; [by left; right|right; by exists r].
Qed.

(** The routes with more than one router: a route is listed exactly when at least
    two nodes that are online and not expired serve it, with their ids in increasing
    order. *)
Theorem ha_nodes_exact now (g : MachineRegistry) route :
  let serves n := serves now (sc_online (tb_streams (rg_tables g))) (rg_records g) n route in
  match ha_nodes now g !! route with
  | Some ids => (2 <= length ids)%nat /\ StronglySorted Z.lt ids /\ forall n, n ∈ ids <-> serves n
  | None => forall n m, serves n -> serves m -> n = m
  end.
Proof.
  cbn zeta. unfold ha_nodes. rewrite lookup_omap. set (online := sc_online _). set (m := collect_advertisers _ _ _).
  assert (forall n, n ∈ default [] (m !! route) <-> serves now online (rg_records g) n route) as Hmem.
  { intros n. unfold m, collect_advertisers. rewrite advertisers_fold. rewrite lookup_empty. split.
    - intros [Hn|(routes & (key & r & Hr & Hid & He & Ho & ->)%elem_of_serving & Hin)]; [by apply elem_of_nil in Hn|]. by exists key, r.
    - intros (key & r & Hr & Hid & He & Ho & Hin). right. eexists. split; [|exact Hin]. apply elem_of_serving. by exists key, r. }
  clearbody m. destruct (m !! route) as [ids|]; cbn [mbind option_bind default] in *.
  2: { intros n n' Hn. apply Hmem, elem_of_nil in Hn. done. }
  destruct (dedup_NoDup Z.compare (sort_by Z.compare ids)) as [Hnd Hs].
  { apply (sort_by_sorted Z.compare). }
  { intros p q _ _ Hpq Hqp. rewrite Z.compare_le_iff in Hpq, Hqp. lia. }
  assert (forall n, n ∈ dedup (sort_by Z.compare ids) <-> serves now online (rg_records g) n route) as Hd by (intros n; by rewrite elem_of_dedup, sort_by_In).
  set (l := dedup _) in *. clearbody l. destruct (Nat.leb_spec 2 (length l)) as [Hlen|Hlen].
  - split_and!; [done| |done]. clear - Hnd Hs. induction Hs as [|x l Hl IH Hx]; [constructor|]. apply NoDup_cons in Hnd as [Hn Hnd]. constructor; [by apply IH|].
    rewrite Forall_forall in Hx |- *. intros y Hy. specialize (Hx y Hy). unfold le_cmp in Hx. rewrite Z.compare_le_iff in Hx. assert (x <> y) by (by intros ->). lia.
  - intros n n' Hn%Hd Hn'%Hd. destruct l as [|x [|y l]]; cbn in Hlen; [by apply elem_of_nil in Hn| |lia]. set_solver.
Qed.
End live.
