(* ===== verification/MapNodes.v ===== *)
(** * MapNodes: a node as its peers see it
    (headscale-api/src/tailscale_wire/{register,map,wire}.rs)

    [MapNode] is what a map response says of a node, made from its record and adjusted
    for a viewer: its lifecycle, its capabilities, and the routes the viewer may use
    through it.  Of [HostInfo] the fields the server reads are kept; those it only
    passes on are [hi_rest].  The fields of [MapNode] that stay at their default are
    left out, and so are the side tables of the native store (feature "admin"). *)

From stdpp Require Import base list gmap strings sets.
From Stdlib Require Import ZArith Lia.
From S2P Require Import Prelude Bytes Net GoNetip PrimaryRoutes GivenName MapChange MapBatcher Registry.

Open Scope Z_scope.

(** ** Hostinfo *)

(** The parts of a Hostinfo that the server passes on: services, location, and all the
    rest of [HostInfo] and [NetInfo]. *)
Class HostTypes := {
  Service : Type;
  Location : Type;
  NetRest : Type;
  HostRest : Type;
  net_rest_default : NetRest;
  service_eq_dec :: EqDecision Service;
  location_eq_dec :: EqDecision Location;
  net_rest_eq_dec :: EqDecision NetRest;
  host_rest_eq_dec :: EqDecision HostRest;
}.

Section nodes.
Context `{HostTypes} `{NetipText}.

Record NetInfo := mkNetInfo { preferred_derp : Z; net_rest : NetRest }.

#[export] Instance NetInfo_eq_dec : EqDecision NetInfo.
Proof. solve_decision. Defined.

Record HostInfo := mkHostInfo {
  hi_hostname : string;
  hi_os : string;
  hi_os_version : string;
  hi_routable_ips : list string;
  hi_ssh_host_keys : list string;
  hi_services : list Service;
  hi_location : option Location;
  hi_app_connector : option bool;
  hi_net_info : option NetInfo;
  hi_rest : HostRest;
}.

#[export] Instance HostInfo_eq_dec : EqDecision HostInfo.
Proof. solve_decision. Defined.

Notation MachineRecord := (@MachineRecord HostInfo).
Notation Records := (gmap string MachineRecord).

Definition with_net_info (h : HostInfo) (net : option NetInfo) : HostInfo :=
  mkHostInfo (hi_hostname h) (hi_os h) (hi_os_version h) (hi_routable_ips h) (hi_ssh_host_keys h) (hi_services h) (hi_location h) (hi_app_connector h) net (hi_rest h).

Definition or_text (a b : string) : string := if bool_decide (a = ""%string) then b else a.

Definition host_info_for_node (r : MachineRecord) : HostInfo :=
  let re := mr_reported r in
  let h := re_host_info re in
  let net := match hi_net_info h with
             | Some n => Some (mkNetInfo (re_home_derp re) (net_rest n))
             | None => if re_home_derp re =? 0 then None else Some (mkNetInfo (re_home_derp re) net_rest_default)
             end in
  mkHostInfo (hi_hostname h) (or_text (hi_os h) (re_os re)) (or_text (hi_os_version h) (re_os_version re)) (mr_available_routes r) (re_ssh_host_keys re)
    (hi_services h) (hi_location h) (hi_app_connector h) net (hi_rest h).

(** What of a Hostinfo other nodes are told about at once. *)
Definition peer_hostinfo_equal (a b : HostInfo) : bool :=
  bool_decide (hi_hostname a = hi_hostname b) && bool_decide (hi_os a = hi_os b) && bool_decide (hi_services a = hi_services b) &&
  bool_decide (hi_ssh_host_keys a = hi_ssh_host_keys b) && bool_decide (hi_location a = hi_location b) &&
  bool_decide (hi_app_connector a = hi_app_connector b) && bool_decide (hi_routable_ips a = hi_routable_ips b).

(** ** Map nodes *)

Record MapNode := mkMapNode {
  mn_id : Z;
  mn_stable_id : string;
  mn_name : string;
  mn_user : Z;
  mn_key : string;
  mn_machine : option string;
  mn_addresses : list string;
  mn_allowed_ips : list string;
  mn_primary_routes : list string;
  mn_hostinfo : HostInfo;
  mn_created : option Z;
  mn_key_expiry : option Z;
  mn_cap : Z;
  mn_tags : list string;
  mn_last_seen : option Z;
  mn_online : option bool;
  mn_machine_authorized : bool;
  mn_cap_map : gmap string (list bool);
  mn_expired : bool;
  mn_home_derp : Z;
  mn_disco_key : option string;
  mn_endpoints : list string;
  mn_legacy_derp : string;
}.

#[export] Instance MapNode_eq_dec : EqDecision MapNode.
Proof. solve_decision. Defined.

Definition TAGGED_DEVICES_USER_ID : Z := 2147455555.
Definition ZERO_DISCO_KEY : string := "discokey:0000000000000000000000000000000000000000000000000000000000000000".
Definition CAPABILITY_ADMIN : string := "https://tailscale.com/cap/is-admin".
Definition CAPABILITY_DEFAULT_AUTO_UPDATE : string := "default-auto-update".
Definition CAPABILITY_FILE_SHARING : string := "https://tailscale.com/cap/file-sharing".
Definition CAPABILITY_SSH : string := "https://tailscale.com/cap/ssh".
Definition NODE_ATTR_DISABLE_IPV4 : string := "disable-ipv4".
Definition NODE_ATTR_SUGGEST_EXIT_NODE : string := "suggest-exit-node".

Definition address_strings (r : MachineRecord) : list string := option_list (show_ipv4 <$> mr_ipv4 r) ++ option_list (show_ipv6 <$> mr_ipv6 r).

Definition address_prefixes (r : MachineRecord) : list string :=
  option_list ((fun a => show_ipv4 a +:+ "/32") <$> mr_ipv4 r) ++ option_list ((fun a => show_ipv6 a +:+ "/128") <$> mr_ipv6 r).

Definition tailscale_user_id (r : MachineRecord) : Z :=
  if is_tagged r then TAGGED_DEVICES_USER_ID else default (stable_id_from_key (ow_user (mr_owner r))) (ow_user_id (mr_owner r)).

Definition qualify (label domain : string) : string := if bool_decide (domain = ""%string) then label else label +:+ "." +:+ domain +:+ ".".

Definition node_name (r : MachineRecord) (domain : string) : string :=
  qualify (if bool_decide (mr_hostname r = ""%string) then "node-" +:+ String.substring 0 8 (mr_node_key_hex r) else mr_hostname r) domain.

Definition default_node_cap_map : gmap string (list bool) :=
  <[CAPABILITY_ADMIN := []]> (<[CAPABILITY_DEFAULT_AUTO_UPDATE := [false]]> (<[CAPABILITY_FILE_SHARING := []]> (<[CAPABILITY_SSH := []]> ∅))).

Definition is_go_zero_expiry (t : Z) : bool := t =? GO_ZERO_TIME.

Definition record_to_map_node (now : Z) (r : MachineRecord) (domain : string) : MapNode :=
  let re := mr_reported r in
  let id := stable_node_id r in
  let expired := is_expired_at now r in
  let addresses := address_prefixes r in
  mkMapNode id (show_dec id) (node_name r domain) (tailscale_user_id r) ("nodekey:" +:+ mr_node_key_hex r)
    (if bool_decide (mr_machine_key_hex r = ""%string) then None else Some ("mkey:" +:+ mr_machine_key_hex r))
    addresses (addresses ++ mr_approved_routes r) (mr_approved_routes r) (host_info_for_node r) (Some (re_created_at re))
    (match mr_expiry r with Some t => if is_go_zero_expiry t then None else Some t | None => None end)
    0 (mr_forced_tags r) (Some (mr_last_seen r)) (Some false) (negb expired) default_node_cap_map expired (re_home_derp re)
    (match re_disco_key re with Some k => if bool_decide (k = ""%string) || bool_decide (k = ZERO_DISCO_KEY) then None else Some k | None => None end)
    (re_endpoints re) (if re_home_derp re =? 0 then ""%string else "127.3.3.40:" +:+ show_dec (re_home_derp re)).

(** ** Setters *)

Definition set_addresses (n : MapNode) (v : list string) : MapNode :=
  mkMapNode (mn_id n) (mn_stable_id n) (mn_name n) (mn_user n) (mn_key n) (mn_machine n) v (mn_allowed_ips n) (mn_primary_routes n) (mn_hostinfo n) (mn_created n) (mn_key_expiry n) (mn_cap n)
    (mn_tags n) (mn_last_seen n) (mn_online n) (mn_machine_authorized n) (mn_cap_map n) (mn_expired n) (mn_home_derp n) (mn_disco_key n) (mn_endpoints n) (mn_legacy_derp n).
Definition set_routes_of (n : MapNode) (allowed primary : list string) : MapNode :=
  mkMapNode (mn_id n) (mn_stable_id n) (mn_name n) (mn_user n) (mn_key n) (mn_machine n) (mn_addresses n) allowed primary (mn_hostinfo n) (mn_created n) (mn_key_expiry n) (mn_cap n)
    (mn_tags n) (mn_last_seen n) (mn_online n) (mn_machine_authorized n) (mn_cap_map n) (mn_expired n) (mn_home_derp n) (mn_disco_key n) (mn_endpoints n) (mn_legacy_derp n).
Definition set_lifecycle (n : MapNode) (online : option bool) (last_seen : option Z) : MapNode :=
  mkMapNode (mn_id n) (mn_stable_id n) (mn_name n) (mn_user n) (mn_key n) (mn_machine n) (mn_addresses n) (mn_allowed_ips n) (mn_primary_routes n) (mn_hostinfo n) (mn_created n) (mn_key_expiry n) (mn_cap n)
    (mn_tags n) last_seen online (mn_machine_authorized n) (mn_cap_map n) (mn_expired n) (mn_home_derp n) (mn_disco_key n) (mn_endpoints n) (mn_legacy_derp n).
Definition set_caps (n : MapNode) (cap : Z) (caps : gmap string (list bool)) : MapNode :=
  mkMapNode (mn_id n) (mn_stable_id n) (mn_name n) (mn_user n) (mn_key n) (mn_machine n) (mn_addresses n) (mn_allowed_ips n) (mn_primary_routes n) (mn_hostinfo n) (mn_created n) (mn_key_expiry n) cap
    (mn_tags n) (mn_last_seen n) (mn_online n) (mn_machine_authorized n) caps (mn_expired n) (mn_home_derp n) (mn_disco_key n) (mn_endpoints n) (mn_legacy_derp n).

(** [map_address_prefixes]: [None] is its panic. *)
Definition map_address_prefixes (r : MachineRecord) : option (list string) := mapM addr_host_prefix_text (address_strings r).

Definition apply_transient_lifecycle (now : Z) (r : MachineRecord) (online_states : gmap Z bool) (n : MapNode) : MapNode :=
  let online := negb (is_expired_at now r) && default false (online_states !! mn_id n) in
  set_lifecycle n (Some online) (if online then None else Some (mr_last_seen r)).

Definition apply_runtime_caps_to_map_node (taildrop_enabled auto_update_enabled : bool) (n : MapNode) : MapNode :=
  let caps := if taildrop_enabled then mn_cap_map n else delete CAPABILITY_FILE_SHARING (mn_cap_map n) in
  set_caps n (mn_cap n) (<[CAPABILITY_DEFAULT_AUTO_UPDATE := [auto_update_enabled]]> caps).

Definition has_node_attr (attrs : list string) (attr : string) : bool := existsb (fun c => bool_decide (c = attr)) attrs.

Definition is_ipv4_prefix (prefix : string) : bool := match parse_prefix prefix with Ok (ip, _) => is_v4 ip | Err _ => false end.

Definition apply_address_shape_attrs_to_map_node (attrs : list string) (n : MapNode) : MapNode :=
  if has_node_attr attrs NODE_ATTR_DISABLE_IPV4 then set_addresses n (List.filter (fun p => negb (is_ipv4_prefix p)) (mn_addresses n)) else n.

Definition apply_self_cap_map_attrs_to_map_node (attrs : list string) (n : MapNode) : MapNode :=
  set_caps n (mn_cap n) (fold_left (fun m attr => <[attr := []]> m) attrs (mn_cap_map n)).

Definition apply_policy_attrs_to_map_node (attrs : list string) (n : MapNode) : MapNode :=
  apply_self_cap_map_attrs_to_map_node attrs (apply_address_shape_attrs_to_map_node attrs n).

Definition apply_peer_cap_map_to_map_node (attrs : list string) (is_exit_node : bool) (n : MapNode) : MapNode :=
  let n := apply_address_shape_attrs_to_map_node attrs n in
  set_caps n (mn_cap n) (if is_exit_node then {[NODE_ATTR_SUGGEST_EXIT_NODE := []]} else ∅).

(** [sort_by(prefix_compare(..).expect(..))]: the texts passed typed decoding. *)
Definition sort_prefixes (l : list string) : list string := sort_by (fun a b => default Eq (prefix_compare a b)) l.

Definition apply_routes_to_map_node (primary_routes exit_routes : list string) (n : MapNode) : MapNode :=
  set_routes_of n (sort_prefixes (mn_addresses n ++ primary_routes ++ exit_routes)) primary_routes.

Definition apply_selected_routes_to_map_node (primary_routes allowed_routes : list string) (n : MapNode) : MapNode :=
  set_routes_of n (sort_prefixes (mn_addresses n ++ allowed_routes)) primary_routes.

Definition map_name_is_valid (r : MachineRecord) (tailnet_domain : string) : bool :=
  match validate_fqdn (to_chars (mr_hostname r)) (to_chars tailnet_domain) with Ok _ => true | Err _ => false end.

Definition map_node_has_subnet_route (n : MapNode) : bool :=
  existsb (fun route => negb (bool_decide (route ∈ mn_addresses n)) && negb (bool_decide (route = "0.0.0.0/0"%string)) && negb (bool_decide (route = "::/0"%string))) (mn_allowed_ips n).

End nodes.
