(* ===== verification/MapView.v ===== *)
(** * MapView: who and what a node sees in its map
    (headscale-api/src/tailscale_wire/map.rs)

    From a snapshot of the registry, the primary routes and the online states, the
    server computes for each node the peers it may see, and for each of these the
    routes it may use through it.  What the policy store answers about the nodes of the
    snapshot is the record [PolicyStore]; the compiler behind it is modelled from
    [Policy] to [Via].  [None] is the panic of printing an address. *)

From stdpp Require Import base list gmap strings sets.
From Stdlib Require Import ZArith Lia Sorting.Sorted.
From S2P Require Import Prelude Bytes Net GoNetip PrimaryRoutes PolicyPorts Reach Policy PolicyEval Intervals IpSet GivenName MapChange MapBatcher Registry NodeStore NodeUpdates RegistryRoutes MapNodes Ledger.

Open Scope Z_scope.

Record PeerMapNode := mkPeerMapNode {
  pn_id : Z;
  pn_addr : string;
  pn_addrs : list string;
  pn_user : option string;
  pn_tags : list string;
  pn_routes : list string;
}.

(** What the policy store says of the nodes of a snapshot and their owners.  An answer
    [None] means that no policy is loaded. *)
Record PolicyStore := mkPolicyStore {
  ps_peer_map : list PeerMapNode -> gmap Z Z -> option (gmap Z (list Z));
  ps_rule_count : option nat;
  ps_can_access_route : list PeerMapNode -> gmap Z Z -> Z -> Z -> string -> option bool;
  ps_via_routes : list PeerMapNode -> gmap Z Z -> Z -> Z -> option ViaRouteGrantResult;
  ps_node_attrs : Z -> NodeView -> list string;
  ps_reduce_self_routes : PacketFilterNode -> list string -> list string;
}.

Section view.
Context `{HostTypes} `{NetipText}.

Notation MachineRecord := (@MachineRecord HostInfo).
Notation Records := (gmap string MachineRecord).

(** ** Routes of a snapshot *)

Definition nonempty_routes (f : MachineRecord -> list string) (snapshot : Records) : gmap string (list string) :=
  omap (fun r => match f r with [] => None | routes => Some routes end) snapshot.

Definition exit_routes_for_snapshot (snapshot : Records) : gmap string (list string) :=
  nonempty_routes (fun r => active_exit_routes (mr_available_routes r) (mr_approved_routes r)) snapshot.

Definition served_routes_for_snapshot (snapshot : Records) : gmap string (list string) :=
  nonempty_routes (fun r => active_approved_routes (mr_available_routes r) (mr_approved_routes r)) snapshot.

Definition route_is_exit_default (route : string) : bool := bool_decide (route = "0.0.0.0/0"%string) || bool_decide (route = "::/0"%string).

Definition subnet_routes (routes : list string) : gset string := list_to_set (List.filter (fun r => negb (route_is_exit_default r)) routes).

(** ** The nodes as the policy sees them *)

Definition policy_identity (r : MachineRecord) : option Z * option string :=
  (ow_user_id (mr_owner r), if bool_decide (ow_user (mr_owner r) = ""%string) then None else Some (ow_user (mr_owner r))).

Definition peer_map_nodes_from_snapshot (snapshot : Records) (served_routes : gmap string (list string)) : list PeerMapNode :=
  map (fun kv => mkPeerMapNode (stable_node_id_for_key kv.1 kv.2) (default ""%string (head (address_strings kv.2))) (address_strings kv.2) (policy_identity kv.2).2
                   (mr_forced_tags kv.2) (default [] (served_routes !! kv.1))) (map_to_list snapshot).

Definition packet_filter_nodes_from_snapshot (snapshot : Records) (served_routes : gmap string (list string)) : list PacketFilterNode :=
  map (fun kv => mkFilterNode (stable_node_id_for_key kv.1 kv.2) (policy_identity kv.2).1 (policy_identity kv.2).2 (address_strings kv.2)
                   (mr_forced_tags kv.2) (default [] (served_routes !! kv.1))) (map_to_list snapshot).

Definition policy_owner_ids (snapshot : Records) : gmap Z Z :=
  list_to_map (rev (omap (fun kv => (fun owner => (stable_node_id_for_key kv.1 kv.2, owner)) <$> (policy_identity kv.2).1) (map_to_list snapshot))).

Definition node_id_for_key (snapshot : Records) (key : string) : Z :=
  match snapshot !! key with Some r => stable_node_id_for_key key r | None => stable_id_from_key key end.

Definition node_view (r : MachineRecord) : NodeView :=
  let '(user_id, user) := policy_identity r in mkView (head (address_strings r)) (address_strings r) user user_id (mr_forced_tags r).

Definition node_attrs_for_record (policy : PolicyStore) (r : MachineRecord) : list string := ps_node_attrs policy (stable_node_id r) (node_view r).

(** ** Which peers *)

Definition allowed_peer_ids_for_snapshot (policy : PolicyStore) (snapshot : Records) (self_key : string) (served_routes : gmap string (list string)) : option (gset Z) :=
  (fun peer_map : gmap Z (list Z) => list_to_set (default [] (peer_map !! node_id_for_key snapshot self_key))) <$>
  ps_peer_map policy (peer_map_nodes_from_snapshot snapshot served_routes) (policy_owner_ids snapshot).

Definition peer_allowed (allowed_ids : option (gset Z)) (key : string) (r : MachineRecord) : bool :=
  match allowed_ids with Some ids => bool_decide (stable_node_id_for_key key r ∈ ids) | None => true end.

(** The routers of a subnet see its primary router, whatever the policy says. *)
Definition is_co_router_primary (snapshot : Records) (self_key : string) (viewer_routes : gset string) (kr : string * list string) : option Z :=
  if bool_decide (kr.1 = self_key) then None
  else if existsb (fun route => bool_decide (route ∈ viewer_routes)) kr.2 then stable_node_id_for_key kr.1 <$> snapshot !! kr.1
  else None.

Definition add_co_router_primary_peer_ids (allowed_ids : option (gset Z)) (snapshot : Records) (self_key : string)
    (primary_routes served_routes : gmap string (list string)) : option (gset Z) :=
  match allowed_ids with
  | None => None
  | Some ids =>
      match served_routes !! self_key with
      | None => Some ids
      | Some viewer_routes =>
          if bool_decide (subnet_routes viewer_routes = ∅) then Some ids
          else Some (ids ∪ list_to_set (omap (is_co_router_primary snapshot self_key (subnet_routes viewer_routes)) (map_to_list primary_routes)))
      end
  end.

(** ** Which routes through a peer *)

(** The loop over [via.include]. *)
Definition include_step (via : ViaRouteGrantResult) (global_primary : list string) (allowed : list string) (route : string) : list string :=
  if bool_decide (route ∈ allowed) then allowed
  else if bool_decide (route ∈ global_primary) || negb (bool_decide (route ∈ via_use_primary via)) then allowed ++ [route] else allowed.

Definition push_missing (allowed : list string) (route : string) : list string := if bool_decide (route ∈ allowed) then allowed else allowed ++ [route].

Definition select_routes_for_viewer (policy : PolicyStore) (snapshot : Records) (self_key peer_key : string)
    (primary_routes exit_routes served_routes : gmap string (list string)) : list string * list string :=
  let global_primary := default [] (primary_routes !! peer_key) in
  let nodes := peer_map_nodes_from_snapshot snapshot served_routes in
  let owners := policy_owner_ids snapshot in
  let viewer_id := node_id_for_key snapshot self_key in
  let peer_id := node_id_for_key snapshot peer_key in
  let allowed := List.filter (fun route => default true (ps_can_access_route policy nodes owners viewer_id peer_id route))
                   (global_primary ++ default [] (exit_routes !! peer_key)) in
  let allowed := match ps_via_routes policy nodes owners viewer_id peer_id with
                 | None => allowed
                 | Some via => fold_left (include_step via global_primary) (via_include via)
                                 (List.filter (fun route => negb (bool_decide (route ∈ via_exclude via))) allowed)
                 end in
  let allowed := match served_routes !! self_key with
                 | None => allowed
                 | Some viewer_routes => fold_left push_missing (List.filter (fun route => bool_decide (route ∈ subnet_routes viewer_routes)) global_primary) allowed
                 end in
  (List.filter (fun route => negb (route_is_exit_default route)) allowed, allowed).

(** ** The nodes of a map *)

Definition peer_map_node (policy : PolicyStore) (now : Z) (snapshot : Records) (self_key domain : string) (primary_routes exit_routes served_routes : gmap string (list string))
    (online_states : gmap Z bool) (cap_version : Z) (kv : string * MachineRecord) : option MapNode :=
  addresses ← map_address_prefixes kv.2;
  let n := set_addresses (record_to_map_node now kv.2 domain) addresses in
  let n := apply_transient_lifecycle now kv.2 online_states n in
  let n := set_caps n cap_version (mn_cap_map n) in
  let '(selected_primary, selected_allowed) := select_routes_for_viewer policy snapshot self_key kv.1 primary_routes exit_routes served_routes in
  let n := apply_peer_cap_map_to_map_node (node_attrs_for_record policy kv.2) (negb (is_nil (default [] (exit_routes !! kv.1)))) n in
  Some (apply_selected_routes_to_map_node selected_primary selected_allowed n).

Definition is_visible (self_key domain : string) (allowed_ids : option (gset Z)) (kv : string * MachineRecord) : bool :=
  negb (bool_decide (kv.1 = self_key)) && peer_allowed allowed_ids kv.1 kv.2 && map_name_is_valid kv.2 domain.

Definition visible_peer_map_nodes (policy : PolicyStore) (now : Z) (snapshot : Records) (self_key : string) (allowed_ids : option (gset Z)) (domain : string)
    (primary_routes exit_routes served_routes : gmap string (list string)) (online_states : gmap Z bool) (cap_version : Z) : option (list MapNode) :=
  peers ← mapM (peer_map_node policy now snapshot self_key domain primary_routes exit_routes served_routes online_states cap_version)
            (List.filter (is_visible self_key domain allowed_ids) (map_to_list snapshot));
  Some (sort_by (fun a b => Z.compare (as_i64 (mn_id a)) (as_i64 (mn_id b))) peers).

(** [Some None] is the refusal of a node whose name is invalid. *)
Definition self_map_node_from_snapshot (policy : PolicyStore) (now : Z) (snapshot : Records) (self_key domain : string) (primary_routes exit_routes : gmap string (list string))
    (online_states : gmap Z bool) (cap_version : Z) (taildrop_enabled auto_update_enabled : bool) : option (option MapNode) :=
  match snapshot !! self_key with
  | None => Some None
  | Some own =>
      if negb (map_name_is_valid own domain) then Some None
      else
        addresses ← map_address_prefixes own;
        let n := set_addresses (record_to_map_node now own domain) addresses in
        let n := apply_transient_lifecycle now own online_states n in
        let n := set_caps n cap_version (mn_cap_map n) in
        let n := apply_runtime_caps_to_map_node taildrop_enabled auto_update_enabled n in
        let n := apply_policy_attrs_to_map_node (node_attrs_for_record policy own) n in
        let own_routes := active_primary_routes (mr_available_routes own) (mr_approved_routes own) in
        let '(user_id, user) := policy_identity own in
        let policy_node := mkFilterNode (mn_id n) user_id user (address_strings own) (mr_forced_tags own) own_routes in
        let selected_primary := ps_reduce_self_routes policy policy_node (default [] (primary_routes !! self_key)) in
        Some (Some (apply_routes_to_map_node selected_primary (default [] (exit_routes !! self_key)) n))
  end.

(** ** User profiles *)

Record UserProfile := mkProfile { up_id : Z; up_login_name : string; up_display_name : string; up_profile_pic_url : string }.

Definition user_display_name (o : Owner) : string := if bool_decide (ow_display_name o = ""%string) then ow_user o else ow_display_name o.

Definition tailscale_user_profile (r : MachineRecord) : UserProfile :=
  if is_tagged r then mkProfile TAGGED_DEVICES_USER_ID "tagged-devices" "Tagged Devices" ""
  else mkProfile (tailscale_user_id r) (ow_user (mr_owner r)) (user_display_name (mr_owner r)) (ow_profile_pic_url (mr_owner r)).

Definition profile_order (self_key : string) (a b : string * MachineRecord) : comparison :=
  then_with (Z.compare (if bool_decide (a.1 = self_key) then 0 else 1) (if bool_decide (b.1 = self_key) then 0 else 1))
    (Z.compare (stable_node_id_for_key a.1 a.2) (stable_node_id_for_key b.1 b.2)).

(** The node itself first, then its peers by id; later profiles of a user replace
    earlier ones.  The values of the map are in the order of the user ids. *)
Definition user_profiles_for_snapshot (snapshot : Records) (self_key : string) (allowed_ids : option (gset Z)) : gmap Z UserProfile :=
  fold_left (fun m kv => if bool_decide (kv.1 = self_key) || peer_allowed allowed_ids kv.1 kv.2
                         then let p := tailscale_user_profile kv.2 in <[up_id p := p]> m else m)
    (sort_by (profile_order self_key) (map_to_list snapshot)) ∅.


(** ** Which routes *)

Lemma include_fold via global_primary routes : forall allowed route,
  route ∈ fold_left (include_step via global_primary) routes allowed <->
  route ∈ allowed \/ (route ∈ routes /\ (route ∈ global_primary \/ route ∉ via_use_primary via)).
Proof.
  induction routes as [|r routes IH]; intros allowed route; cbn [fold_left]; [set_solver|]. rewrite IH, elem_of_cons.
  assert (route ∈ include_step via global_primary allowed r <-> route ∈ allowed \/ (route = r /\ (r ∈ global_primary \/ r ∉ via_use_primary via))) as ->.
  { unfold include_step. case_bool_decide as Hin; [set_solver|]. destruct (_ || _) eqn:E.
    - rewrite elem_of_app, list_elem_of_singleton. apply orb_true_iff in E as [E%bool_decide_eq_true|E%negb_true_iff%bool_decide_eq_false]; naive_solver.
    - apply orb_false_iff in E as [E1%bool_decide_eq_false E2%negb_false_iff%bool_decide_eq_true]. naive_solver. }
  naive_solver.
Qed.

Lemma push_missing_fold routes : forall allowed route, route ∈ fold_left push_missing routes allowed <-> route ∈ allowed \/ route ∈ routes.
Proof.
  induction routes as [|r routes IH]; intros allowed route; cbn [fold_left]; [set_solver|]. rewrite IH. unfold push_missing. case_bool_decide; set_solver.
Qed.

Lemma elem_of_subnet_routes routes route : route ∈ subnet_routes routes <-> route ∈ routes /\ route_is_exit_default route = false.
Proof. unfold subnet_routes. rewrite elem_of_list_to_set, list_elem_of_In, filter_In, <-list_elem_of_In, negb_true_iff. done. Qed.

(** C8. The routes a viewer may use through a peer are exactly: those the peer is the
    elected primary of, and its exit routes, where the policy lets the viewer reach them
    and no via grant steers them elsewhere; those a via grant steers to this peer, unless
    the grant follows the primary and the peer is not it; and the subnets the viewer
    routes itself, if the peer is their primary.  Of these, the primary routes are all
    but the default routes. *)
Theorem viewer_routes_exact policy snapshot self_key peer_key primary_routes exit_routes served_routes :
  let '(selected_primary, allowed) := select_routes_for_viewer policy snapshot self_key peer_key primary_routes exit_routes served_routes in
  let nodes := peer_map_nodes_from_snapshot snapshot served_routes in
  let owners := policy_owner_ids snapshot in
  let viewer_id := node_id_for_key snapshot self_key in
  let peer_id := node_id_for_key snapshot peer_key in
  let via := ps_via_routes policy nodes owners viewer_id peer_id in
  let primary := default [] (primary_routes !! peer_key) in
  (forall route, route ∈ allowed <->
    (route ∈ primary ++ default [] (exit_routes !! peer_key) /\ ps_can_access_route policy nodes owners viewer_id peer_id route <> Some false /\
     (forall v, via = Some v -> route ∉ via_exclude v)) \/
    (exists v, via = Some v /\ route ∈ via_include v /\ (route ∈ primary \/ route ∉ via_use_primary v)) \/
    (route ∈ default [] (served_routes !! self_key) /\ route_is_exit_default route = false /\ route ∈ primary)) /\
  (forall route, route ∈ selected_primary <-> route ∈ allowed /\ route_is_exit_default route = false).
Proof.
  unfold select_routes_for_viewer. cbn zeta. split.
  - intros route. set (nodes := peer_map_nodes_from_snapshot _ _). set (owners := policy_owner_ids _). set (primary := default [] (primary_routes !! peer_key)).
    set (first := List.filter _ (primary ++ _)).
    assert (route ∈ first <-> route ∈ primary ++ default [] (exit_routes !! peer_key) /\ ps_can_access_route policy nodes owners (node_id_for_key snapshot self_key) (node_id_for_key snapshot peer_key) route <> Some false) as Hfirst.
    { unfold first. rewrite list_elem_of_In, filter_In, <-list_elem_of_In. destruct (ps_can_access_route _ _ _ _ _ route) as [[]|]; naive_solver. }
    set (second := match ps_via_routes _ _ _ _ _ with Some via => _ | None => _ end).
    assert (route ∈ second <->
      (route ∈ first /\ forall v, ps_via_routes policy nodes owners (node_id_for_key snapshot self_key) (node_id_for_key snapshot peer_key) = Some v -> route ∉ via_exclude v) \/
      (exists v, ps_via_routes policy nodes owners (node_id_for_key snapshot self_key) (node_id_for_key snapshot peer_key) = Some v /\ route ∈ via_include v /\ (route ∈ primary \/ route ∉ via_use_primary v))) as Hsecond.
    { unfold second. destruct (ps_via_routes _ _ _ _ _) as [via|]; [|naive_solver].
      rewrite include_fold, list_elem_of_In, filter_In, <-list_elem_of_In, negb_true_iff, bool_decide_eq_false. naive_solver. }
    clearbody first second.
    assert (route ∈ match served_routes !! self_key with Some viewer_routes => fold_left push_missing (List.filter (fun route => bool_decide (route ∈ subnet_routes viewer_routes)) primary) second | None => second end <->
      route ∈ second \/ (route ∈ default [] (served_routes !! self_key) /\ route_is_exit_default route = false /\ route ∈ primary)) as ->.
    { destruct (served_routes !! self_key) as [viewer_routes|]; cbn [default]; [|set_solver].
      rewrite push_missing_fold, (list_elem_of_In (List.filter _ _) route), filter_In, <-list_elem_of_In, bool_decide_eq_true, elem_of_subnet_routes. naive_solver. }
    rewrite Hsecond, Hfirst. naive_solver.
  - intros route. rewrite list_elem_of_In, filter_In, <-list_elem_of_In, negb_true_iff. done.
Qed.

(** ** Which peers *)

Definition addresses_ok (snapshot : Records) : Prop :=
  forall key r, snapshot !! key = Some r -> (forall a, mr_ipv4 r = Some a -> 0 <= a < 2 ^ 32) /\ (forall a, mr_ipv6 r = Some a -> 0 <= a < 2 ^ 128).

Lemma host_prefix_prints ip : ip_ok ip -> is_Some (addr_host_prefix_text (address_text ip None)).
Proof. intros Hok. unfold addr_host_prefix_text. case_bool_decide; [by eexists|]. rewrite parse_print_addr by done. by eexists. Qed.

Lemma address_text_v6 a : address_text (V6 a) None = show_ipv6 a.
Proof. unfold address_text, to_ipv4_mapped, show_ip, show_ipv6. destruct (_ =? _); done. Qed.

Lemma map_addresses_print (snapshot : Records) key r : addresses_ok snapshot -> snapshot !! key = Some r -> is_Some (map_address_prefixes r).
Proof.
  intros Hok Hr. destruct (Hok key r Hr) as [H4 H6]. unfold map_address_prefixes. apply mapM_is_Some, Forall_forall. intros text Hin.
  unfold address_strings in Hin. apply elem_of_app in Hin as [Hin|Hin].
  - destruct (mr_ipv4 r) as [a|]; cbn in Hin; [|by apply elem_of_nil in Hin]. apply list_elem_of_singleton in Hin as ->. apply (host_prefix_prints (V4 a)). by apply H4.
  - destruct (mr_ipv6 r) as [a|]; cbn in Hin; [|by apply elem_of_nil in Hin]. apply list_elem_of_singleton in Hin as ->. rewrite <-address_text_v6. apply (host_prefix_prints (V6 a)). by apply H6.
Qed.

Lemma id_order_total : TotalCmp (fun a b : MapNode => Z.compare (as_i64 (mn_id a)) (as_i64 (mn_id b))).
Proof.
  split.
  - intros a b. apply Z.compare_antisym.
  - intros a b c. rewrite !Z.compare_le_iff. lia.
Qed.

(** What a peer's entry says. *)
Lemma peer_map_node_says policy now snapshot self_key domain primary_routes exit_routes served_routes online cap key (r : MachineRecord) n :
  peer_map_node policy now snapshot self_key domain primary_routes exit_routes served_routes online cap (key, r) = Some n ->
  mn_id n = stable_node_id r /\ mn_name n = node_name r domain /\ mn_key n = ("nodekey:" +:+ mr_node_key_hex r) /\
  mn_online n = Some (negb (is_expired_at now r) && default false (online !! stable_node_id r)) /\
  mn_allowed_ips n ≡ₚ mn_addresses n ++ (select_routes_for_viewer policy snapshot self_key key primary_routes exit_routes served_routes).2 /\
  mn_primary_routes n = (select_routes_for_viewer policy snapshot self_key key primary_routes exit_routes served_routes).1 /\
  (forall a, a ∈ mn_addresses n -> a ∈ default [] (map_address_prefixes r)).
Proof.
  unfold peer_map_node. cbn [fst snd]. destruct (map_address_prefixes r) as [addresses|]; cbn [mbind option_bind]; [|done].
  destruct (select_routes_for_viewer _ _ _ _ _ _ _) as [selected allowed]. intros [= <-].
  unfold apply_selected_routes_to_map_node, apply_peer_cap_map_to_map_node, apply_address_shape_attrs_to_map_node.
  set (attrs := node_attrs_for_record policy r). destruct (has_node_attr attrs NODE_ATTR_DISABLE_IPV4).
  all: split_and!; try done; try apply sort_by_perm.
  cbn [mn_addresses set_routes_of set_caps set_addresses]. intros a Ha. by apply list_elem_of_In, filter_In in Ha as [Ha%list_elem_of_In _].
Qed.

End view.

Module ViewExamples.

#[export] Instance plain_host : HostTypes :=
  {| Service := unit; Location := unit; NetRest := unit; HostRest := unit; net_rest_default := tt; service_eq_dec := unit_eq_dec; location_eq_dec := unit_eq_dec;
     net_rest_eq_dec := unit_eq_dec; host_rest_eq_dec := unit_eq_dec |}.

Definition host (name : string) : HostInfo := mkHostInfo name "linux" "" [] [] [] None None None tt.

Definition machine (id ip : Z) (key name : string) (routes endpoints : list string) (derp seen : Z) : @MachineRecord HostInfo :=
  mkRecord (Some id) key ("m" +:+ key) no_owner name (Some ip) None None seen false [] routes routes (mkReported None name "" "" (host name) (Some "discokey:ab"%string) endpoints derp 5 [] 1).

Definition laptop := machine 1 0x64400001 "aa" "laptop" [] ["1.2.3.4:1"%string] 1 100.
Definition router := machine 2 0x64400002 "bb" "router" ["10.0.0.0/8"%string] ["1.2.3.5:1"%string] 1 200.
Definition phone := machine 3 0x64400003 "cc" "phone" [] [] 2 300.

Definition snapshot : gmap string (@MachineRecord HostInfo) := {[ "aa"%string := laptop; "bb"%string := router; "cc"%string := phone ]}.
Definition primaries : gmap string (list string) := {[ "bb"%string := ["10.0.0.0/8"%string] ]}.

(** The laptop may see the router only. *)
Definition laptop_policy : PolicyStore :=
  mkPolicyStore (fun _ _ => Some {[ 1 := [2] ]}) (Some 1%nat) (fun _ _ _ _ _ => Some true) (fun _ _ _ _ => None) (fun _ _ => []) (fun _ routes => routes).

Definition allowed : option (gset Z) := allowed_peer_ids_for_snapshot laptop_policy snapshot "aa" (served_routes_for_snapshot snapshot).

Definition view : option (list MapNode) :=
  visible_peer_map_nodes laptop_policy 1000 snapshot "aa" allowed "net.example" primaries (exit_routes_for_snapshot snapshot) (served_routes_for_snapshot snapshot) {[ 2 := true ]} 113.

Example view_of_laptop : option_map (map (fun n => (mn_id n, mn_name n, mn_allowed_ips n, mn_online n))) view =
  Some [(2, "router.net.example."%string, ["10.0.0.0/8"%string; "100.64.0.2/32"%string], Some true)].
Proof. vm_compute. reflexivity. Qed.

Lemma snapshot_addresses : addresses_ok snapshot.
Proof.
  intros key r Hr. apply (map_Forall_lookup_1 (fun _ r => (forall a, mr_ipv4 r = Some a -> 0 <= a < 2 ^ 32) /\ (forall a, mr_ipv6 r = Some a -> 0 <= a < 2 ^ 128)) snapshot key r); [|done].
  unfold snapshot. rewrite !map_Forall_insert by (vm_compute; reflexivity). rewrite map_Forall_singleton. split_and!; intros a [= <-]; lia.
Qed.


End ViewExamples.
