(* ===== verification/MapDelta.v ===== *)
(** * MapDelta: what a map stream sends after the first map
    (headscale-api/src/tailscale_wire/map.rs)

    A stream remembers what it told its node: the node itself, the peers and the SSH
    policy.  When something changes it computes the node's view anew and sends the
    difference: whole peers, patches of peers, removals, the node itself and the SSH
    policy where they changed.  [MapInputs] is what a chunk is computed from: the
    snapshot and all that is read beside it.

    Hostinfo values as the native store retains them are the class [HostValues]; DNS
    settings, packet filters, DERP maps and SSH policies are opaque here.  The debug
    dumps, metrics, control times and the encoding of a frame are left out: a frame is
    its [MapResponse].  [None] is the panic of printing an address.

    The second half is the client: [apply_frame] is what a Tailscale client does with a
    response, and the theorems compare its netmap with what the server remembers. *)

From stdpp Require Import base list gmap strings sets.
From Stdlib Require Import ZArith Lia Sorting.Sorted Ascii.
From S2P Require Import Prelude Text Bytes Net GoNetip PrimaryRoutes PolicyPorts Reach Policy PolicyEval Intervals IpSet GivenName MapChange MapBatcher Registry NodeStore NodeUpdates RegistryRoutes MapNodes MapView.

Open Scope Z_scope.

(** ** Keys as text *)

Inductive PublicKeyKind := MachineKind | NodeKind | DiscoKind.

Definition kind_prefix (k : PublicKeyKind) : string := match k with MachineKind => "mkey:" | NodeKind => "nodekey:" | DiscoKind => "discokey:" end.

Definition zero_text (k : PublicKeyKind) : string := kind_prefix k +:+ "0000000000000000000000000000000000000000000000000000000000000000".

Definition is_ascii_hexdigit (c : ascii) : bool :=
  let n := chr c in ((48 <=? n) && (n <=? 57)) || ((65 <=? n) && (n <=? 70)) || ((97 <=? n) && (n <=? 102)).

Definition key_parse_text (k : PublicKeyKind) (text : string) : option string :=
  hex ← strip_prefix_chars (to_chars (kind_prefix k)) (to_chars text);
  if negb (length hex =? 64)%nat then None
  else if negb (forallb is_ascii_hexdigit hex) then None
  else Some (kind_prefix k +:+ of_chars (map ascii_lower hex)).

(** ** What a chunk is made of *)

Class WireTypes := {
  RawHostinfo : Type;
  DnsConfig : Type;
  PacketFilters : Type;
  DerpMap : Type;
  SshPolicy : Type;
  PingRequest : Type;
  ssh_policy_eq_dec :: EqDecision SshPolicy;
}.

(** How retained Hostinfo values compare, for peers and for the node itself, and the
    value of a Hostinfo that was not retained (go_tailcfg_json.rs). *)
Class HostValues `{HostTypes} `{WireTypes} := {
  projection_value : HostInfo -> RawHostinfo;
  raw_peer_hostinfo_equal : RawHostinfo -> RawHostinfo -> bool;
  raw_node_hostinfo_equal : RawHostinfo -> RawHostinfo -> bool;
}.

(** Which slices of a node are nil in Go. *)
Record MapNodeSlices := mkSlices { addresses_nil : bool; allowed_ips_nil : bool; primary_routes_nil : bool; endpoints_nil : bool; tags_nil : bool }.

#[export] Instance MapNodeSlices_eq_dec : EqDecision MapNodeSlices.
Proof. solve_decision. Defined.

Record PeerDeltaOptions := mkDeltaOptions {
  response_type : string;
  include_self_node : bool;
  include_dns_config : bool;
  use_incremental_empty_acl_semantics : bool;
  split_peer_removals : bool;
  resend_visible_peers : bool;
}.

Definition registry_change : PeerDeltaOptions := mkDeltaOptions "peers" false false true false false.
Definition policy_change : PeerDeltaOptions := mkDeltaOptions "policy" false false false true true.

Section delta.
Context `{HostTypes} `{NetipText} `{WireTypes} `{!HostValues}.

Notation MachineRecord := (@MachineRecord HostInfo).
Notation Records := (gmap string MachineRecord).

Record NativeSshPolicy := mkNativeSsh { nsp_policy : SshPolicy; nsp_accept_env_nil : list bool }.

#[export] Instance NativeSshPolicy_eq_dec : EqDecision NativeSshPolicy.
Proof. solve_decision. Defined.

Record MapStateNode := mkStateNode { ms_node : MapNode; ms_hostinfo : RawHostinfo; ms_slices : option MapNodeSlices }.

Record PeerChange := mkPeerChange {
  pc_node_id : Z;
  pc_derp_region : Z;
  pc_endpoints : list string;
  pc_key : option string;
  pc_disco_key : option string;
  pc_online : option bool;
  pc_last_seen : option Z;
  pc_key_expiry : option Z;
}.

Record MapResponse := mkResponse {
  rs_keep_alive : bool;
  rs_ping_request : option PingRequest;
  rs_node : option MapNode;
  rs_peers : list MapNode;
  rs_peers_changed : list MapNode;
  rs_peers_removed : list Z;
  rs_peers_changed_patch : list PeerChange;
  rs_user_profiles : gmap Z UserProfile;
  rs_dns_config : option DnsConfig;
  rs_derp_map : option DerpMap;
  rs_domain : string;
  rs_collect_services : option bool;
  rs_packet_filters : option PacketFilters;
  rs_ssh_policy : option SshPolicy;
  rs_disable_log_tail : bool;
}.

Definition response_default : MapResponse := mkResponse false None None [] [] [] [] ∅ None None "" None None None false.

Definition with_node (rs : MapResponse) (node : option MapNode) : MapResponse :=
  mkResponse (rs_keep_alive rs) (rs_ping_request rs) node (rs_peers rs) (rs_peers_changed rs) (rs_peers_removed rs) (rs_peers_changed_patch rs) (rs_user_profiles rs)
    (rs_dns_config rs) (rs_derp_map rs) (rs_domain rs) (rs_collect_services rs) (rs_packet_filters rs) (rs_ssh_policy rs) (rs_disable_log_tail rs).

Definition with_ssh_policy (rs : MapResponse) (ssh : option SshPolicy) : MapResponse :=
  mkResponse (rs_keep_alive rs) (rs_ping_request rs) (rs_node rs) (rs_peers rs) (rs_peers_changed rs) (rs_peers_removed rs) (rs_peers_changed_patch rs) (rs_user_profiles rs)
    (rs_dns_config rs) (rs_derp_map rs) (rs_domain rs) (rs_collect_services rs) (rs_packet_filters rs) ssh (rs_disable_log_tail rs).

Definition with_removed (rs : MapResponse) (removed : list Z) : MapResponse :=
  mkResponse (rs_keep_alive rs) (rs_ping_request rs) (rs_node rs) (rs_peers rs) (rs_peers_changed rs) removed (rs_peers_changed_patch rs) (rs_user_profiles rs)
    (rs_dns_config rs) (rs_derp_map rs) (rs_domain rs) (rs_collect_services rs) (rs_packet_filters rs) (rs_ssh_policy rs) (rs_disable_log_tail rs).

(** What a chunk is computed from: whether the node is still registered and whether
    changes come in batches, the snapshot and what is read beside it, and the stores'
    answers for it. *)
Record MapInputs := mkInputs {
  mi_present : bool;
  mi_batcher : bool;
  mi_now : Z;
  mi_snapshot : Records;
  mi_self_key : string;
  mi_domain : string;
  mi_primary_routes : gmap string (list string);
  mi_online : gmap Z bool;
  mi_policy : PolicyStore;
  mi_cap_version : Z;
  mi_taildrop : bool;
  mi_auto_update : bool;
  mi_disable_log_tail : bool;
  mi_hostinfo : MachineRecord -> RawHostinfo;
  mi_dns : DnsConfig;
  mi_filters : PacketFilters;
  mi_ssh : NativeSshPolicy;
  mi_derp_map : DerpMap;
}.

(** What a stream remembers. *)
Record StreamState := mkStream {
  ss_self : option MapStateNode;
  ss_peers : gmap Z MapStateNode;
  ss_initial_ids : gset Z;
  ss_ssh : option NativeSshPolicy;
}.

(** ** The parts of a view *)

Definition map_node_slices (r : MachineRecord) (n : MapNode) : MapNodeSlices :=
  mkSlices (is_nil (address_strings r)) (is_nil (mn_allowed_ips n)) (is_nil (mn_primary_routes n)) false false.

Definition map_state_node (inp : MapInputs) (n : MapNode) (r : option MachineRecord) : MapStateNode :=
  mkStateNode n (match r with Some r => mi_hostinfo inp r | None => projection_value (mn_hostinfo n) end) ((fun r => map_node_slices r n) <$> r).

Definition records_by_id (snapshot : Records) : gmap Z MachineRecord :=
  list_to_map (rev (map (fun kv => (stable_node_id_for_key kv.1 kv.2, kv.2)) (map_to_list snapshot))).

Definition peer_state_from_nodes (inp : MapInputs) (peers : list MapNode) : gmap Z MapStateNode :=
  let records := records_by_id (mi_snapshot inp) in
  list_to_map (rev (map (fun n => (mn_id n, map_state_node inp n (records !! mn_id n))) peers)).

Definition peer_ids_from_snapshot (snapshot : Records) (self_key : string) : gset Z :=
  list_to_set (map (fun kv => stable_node_id_for_key kv.1 kv.2) (List.filter (fun kv => negb (bool_decide (kv.1 = self_key))) (map_to_list snapshot))).

(** Without ACL rules a stream goes on showing the peers it showed, and those that came
    after it opened. *)
Definition incremental_allowed_peer_ids_for_snapshot (inp : MapInputs) (initial_ids : gset Z) (last : gmap Z MapStateNode) : option (gset Z) :=
  let snapshot := mi_snapshot inp in
  if bool_decide (ps_rule_count (mi_policy inp) = Some 0%nat)
  then let current := peer_ids_from_snapshot snapshot (mi_self_key inp) in Some ((dom last ∩ current) ∪ (current ∖ initial_ids))
  else allowed_peer_ids_for_snapshot (mi_policy inp) snapshot (mi_self_key inp) (served_routes_for_snapshot snapshot).

Definition allowed_ids (incremental : bool) (inp : MapInputs) (st : StreamState) : option (gset Z) :=
  let snapshot := mi_snapshot inp in
  let served := served_routes_for_snapshot snapshot in
  add_co_router_primary_peer_ids
    (if incremental then incremental_allowed_peer_ids_for_snapshot inp (ss_initial_ids st) (ss_peers st)
     else allowed_peer_ids_for_snapshot (mi_policy inp) snapshot (mi_self_key inp) served)
    snapshot (mi_self_key inp) (mi_primary_routes inp) served.

Definition visible_peers (inp : MapInputs) (allowed : option (gset Z)) : option (list MapNode) :=
  let snapshot := mi_snapshot inp in
  visible_peer_map_nodes (mi_policy inp) (mi_now inp) snapshot (mi_self_key inp) allowed (mi_domain inp) (mi_primary_routes inp)
    (exit_routes_for_snapshot snapshot) (served_routes_for_snapshot snapshot) (mi_online inp) (mi_cap_version inp).

Definition self_node (inp : MapInputs) : option (option MapNode) :=
  let snapshot := mi_snapshot inp in
  self_map_node_from_snapshot (mi_policy inp) (mi_now inp) snapshot (mi_self_key inp) (mi_domain inp) (mi_primary_routes inp)
    (exit_routes_for_snapshot snapshot) (mi_online inp) (mi_cap_version inp) (mi_taildrop inp) (mi_auto_update inp).

Definition self_state (inp : MapInputs) (n : MapNode) : MapStateNode := map_state_node inp n (mi_snapshot inp !! mi_self_key inp).

Definition user_profiles (inp : MapInputs) (allowed : option (gset Z)) : gmap Z UserProfile :=
  user_profiles_for_snapshot (mi_snapshot inp) (mi_self_key inp) allowed.

(** ** Comparing nodes *)

Definition with_hostinfo (h : HostInfo) (n : MapNode) : MapNode :=
  mkMapNode (mn_id n) (mn_stable_id n) (mn_name n) (mn_user n) (mn_key n) (mn_machine n) (mn_addresses n) (mn_allowed_ips n) (mn_primary_routes n) h (mn_created n) (mn_key_expiry n) (mn_cap n)
    (mn_tags n) (mn_last_seen n) (mn_online n) (mn_machine_authorized n) (mn_cap_map n) (mn_expired n) (mn_home_derp n) (mn_disco_key n) (mn_endpoints n) (mn_legacy_derp n).

Definition nonzero_time (t : option Z) : option Z := match t with Some t => if t =? GO_ZERO_TIME then None else Some t | None => None end.

Definition canonical_key (k : PublicKeyKind) (text : string) : string := default text (key_parse_text k text).

Definition nonzero_key (k : PublicKeyKind) (text : option string) : option string :=
  match text with
  | Some t => if bool_decide (key_parse_text k t = Some (zero_text k)) then None else Some (canonical_key k t)
  | None => None
  end.

(** The value [self_nodes_equal] compares; its Hostinfo is taken out, here replaced. *)
Definition self_node_value (hidden : HostInfo) (n : MapNode) : MapNode :=
  mkMapNode (mn_id n) (mn_stable_id n) (mn_name n) (mn_user n) (canonical_key NodeKind (mn_key n)) (nonzero_key MachineKind (mn_machine n)) (mn_addresses n) (mn_allowed_ips n) (mn_primary_routes n)
    hidden (nonzero_time (mn_created n)) (nonzero_time (mn_key_expiry n)) (mn_cap n) (mn_tags n) (mn_last_seen n) (mn_online n) (mn_machine_authorized n) (mn_cap_map n) (mn_expired n)
    (mn_home_derp n) (nonzero_key DiscoKind (mn_disco_key n)) (mn_endpoints n) (mn_legacy_derp n).

Definition self_nodes_equal (previous current : MapStateNode) : bool :=
  let h := mn_hostinfo (ms_node previous) in
  bool_decide (ms_slices previous = ms_slices current) && bool_decide (self_node_value h (ms_node previous) = self_node_value h (ms_node current)) &&
  raw_node_hostinfo_equal (ms_hostinfo previous) (ms_hostinfo current).

Definition with_last_seen (t : option Z) (n : MapNode) : MapNode := set_lifecycle n (mn_online n) t.

Definition map_nodes_equal_ignoring_last_seen (previous current : MapNode) : bool := bool_decide (previous = with_last_seen (mn_last_seen previous) current).

(** [current_normalized]: the fields a patch can carry, and those no peer is told of at
    once, as they were. *)
Definition normalized (previous current : MapNode) : MapNode :=
  let h := if peer_hostinfo_equal (mn_hostinfo previous) (mn_hostinfo current) then mn_hostinfo previous
           else with_net_info (mn_hostinfo current) (hi_net_info (mn_hostinfo previous)) in
  mkMapNode (mn_id current) (mn_stable_id current) (mn_name current) (mn_user current) (mn_key previous) (mn_machine current) (mn_addresses current) (mn_allowed_ips current)
    (mn_primary_routes current) h (mn_created current) (mn_key_expiry previous) (mn_cap current) (mn_tags current) (mn_last_seen previous) (mn_online previous)
    (mn_machine_authorized current) (mn_cap_map current) (mn_expired current) (mn_home_derp previous) (mn_disco_key previous) (mn_endpoints previous) (mn_legacy_derp previous).

Definition peer_patch_if_only_patchable_fields_changed (previous current : MapNode) : option PeerChange :=
  let endpoints_changed := negb (bool_decide (mn_endpoints previous = mn_endpoints current)) in
  let derp_changed := negb (mn_home_derp previous =? mn_home_derp current) in
  let online_changed := negb (bool_decide (mn_online previous = mn_online current)) in
  let key_expiry_changed := negb (bool_decide (mn_key_expiry previous = mn_key_expiry current)) in
  let keys_changed := negb (bool_decide (mn_key previous = mn_key current)) || negb (bool_decide (mn_disco_key previous = mn_disco_key current)) in
  if negb endpoints_changed && negb derp_changed && negb online_changed && negb key_expiry_changed && negb keys_changed then None
  else if derp_changed && (mn_home_derp current =? 0) then None
  else if key_expiry_changed && bool_decide (mn_key_expiry current = None) && negb keys_changed then None
  else if online_changed && (map_node_has_subnet_route previous || map_node_has_subnet_route current) then None
  else if negb (bool_decide (previous = normalized previous current)) then None
  else Some (mkPeerChange (mn_id current) (if derp_changed then mn_home_derp current else 0)
               (if endpoints_changed || keys_changed then mn_endpoints current else [])
               (if keys_changed then Some (mn_key current) else None)
               (if keys_changed then Some (default ZERO_DISCO_KEY (mn_disco_key current)) else None)
               (if online_changed then mn_online current else None)
               None
               (if keys_changed then Some (default GO_ZERO_TIME (mn_key_expiry current)) else if key_expiry_changed then mn_key_expiry current else None)).

(** ** What a batch of changes asks for *)

Definition map_changes_for_generation_range (history : list MapChange) (after through self_id : Z) : list MapChange :=
  List.filter (fun c => (after <? generation c) && (generation c <=? through) && should_send_to_node c self_id) history.

Definition is_Some_b {A} (o : option A) : bool := match o with Some _ => true | None => false end.

Definition map_batch_requires_full_response (changes : list MapChange) : bool :=
  existsb (fun c => is_full c || include_derp_map (content c) || include_domain (content c) ||
                    (include_dns (content c) && negb (requires_runtime_peer_computation (content c)) && negb (is_Some_b (target_node_id c) && include_self (content c)))) changes.

Definition map_batch_peer_delta_options (changes : list MapChange) (self_id : Z) : PeerDeltaOptions :=
  let base := if existsb (fun c => include_policy (content c) || requires_runtime_peer_computation (content c)) changes then policy_change else registry_change in
  let to_self c := bool_decide (target_node_id c = Some self_id) && include_self (content c) in
  let runtime := existsb (fun c => requires_runtime_peer_computation (content c)) changes in
  mkDeltaOptions (response_type base) (existsb to_self changes) (existsb (fun c => to_self c && include_dns (content c)) changes)
    (use_incremental_empty_acl_semantics base) runtime runtime.

Definition map_batch_response_type (changes : list MapChange) : string :=
  if existsb is_full changes then "full"
  else if existsb (fun c => include_derp_map (content c) || include_domain (content c)) changes ||
          existsb (fun c => include_dns (content c) && negb (is_Some_b (target_node_id c) && include_self (content c))) changes then "config"
  else if existsb (fun c => is_Some_b (target_node_id c)) changes then "self"
  else "full".

Definition map_batch_forced_online_peer_ids (changes : list MapChange) : gset Z :=
  list_to_set (flat_map (fun c => peer_patches (content c))
    (List.filter (fun c => existsb (fun r => match r with NodeOnline | NodeOffline => true | _ => false end) (reasons c)) changes)).

Definition map_batch_forced_full_peer_ids (changes : list MapChange) : gset Z := list_to_set (flat_map (fun c => peers_changed (content c)) changes).

Definition map_batch_peer_filter_ids (changes : list MapChange) : option (gset Z) :=
  if existsb (fun c => send_all_peers (content c) || requires_runtime_peer_computation (content c)) changes then None
  else Some (list_to_set (flat_map (fun c => peers_changed (content c) ++ peers_removed (content c) ++ peer_patches (content c)) changes)).

Definition classify_incremental_mapresponse (default_response_type : string) (rs : MapResponse) : string :=
  if bool_decide (default_response_type = "policy"%string) then default_response_type
  else if is_Some_b (rs_node rs) then "self"
  else if negb (is_nil (rs_peers_changed_patch rs)) then "patch"
  else if negb (is_nil (rs_peers_changed rs)) || negb (is_nil (rs_peers_removed rs)) then "peers"
  else default_response_type.

(** ** Chunks *)

(** [self_node_delta]: the response, and the node that will be remembered. *)
Definition self_node_delta (rs : MapResponse) (current last : option MapStateNode) : MapResponse * option MapStateNode :=
  match rs_node rs, current with
  | Some _, Some current =>
      if match last with Some last => self_nodes_equal last current | None => false end then (with_node rs None, last) else (rs, Some current)
  | _, _ => (rs, last)
  end.

Definition ssh_policy_delta (current last : option NativeSshPolicy) : option SshPolicy :=
  match current with
  | None => None
  | Some c => if bool_decide (last = Some c) then None else Some (nsp_policy c)
  end.

Definition keepalive : MapResponse := mkResponse true None None [] [] [] [] ∅ None None "" None None None false.

Definition build_peer_removal_chunk (removed : list Z) : list MapResponse :=
  match removed with [] => [] | _ => [with_removed response_default removed] end.

(** What is done about one visible peer: nothing, a patch of a peer that stays as it is
    remembered, a patch, or the whole node. *)
Inductive PeerDelta := DeltaNone | DeltaOnline (p : PeerChange) | DeltaPatch (p : PeerChange) | DeltaFull.

Definition online_patch (n : MapNode) : PeerChange := mkPeerChange (mn_id n) 0 [] None None (mn_online n) None None.

Definition force_online (n : MapNode) (p : PeerChange) : PeerChange :=
  mkPeerChange (pc_node_id p) (pc_derp_region p) (pc_endpoints p) (pc_key p) (pc_disco_key p) (mn_online n) (pc_last_seen p) (pc_key_expiry p).

Definition peer_delta (last : gmap Z MapStateNode) (options : PeerDeltaOptions) (force_full_ids force_online_ids : gset Z) (filter_ids : option (gset Z))
    (current : MapStateNode) (peer : MapNode) : PeerDelta :=
  let id := mn_id peer in
  let forced := bool_decide (id ∈ force_online_ids) in
  if negb (match filter_ids with Some ids => bool_decide (id ∈ ids) | None => true end) then DeltaNone
  else if resend_visible_peers options || bool_decide (id ∈ force_full_ids) then DeltaFull
  else
    match last !! id with
    | None => DeltaFull
    | Some previous =>
        let same_raw := bool_decide (ms_slices previous = ms_slices current) && raw_peer_hostinfo_equal (ms_hostinfo previous) (ms_hostinfo current) in
        if same_raw && map_nodes_equal_ignoring_last_seen (ms_node previous) peer then (if forced then DeltaOnline (online_patch peer) else DeltaNone)
        else if same_raw then
          match peer_patch_if_only_patchable_fields_changed (ms_node previous) peer with
          | Some p => DeltaPatch (if forced then force_online peer p else p)
          | None => DeltaFull
          end
        else DeltaFull
    end.

Record DeltaAcc := mkDeltaAcc { da_next : gmap Z MapStateNode; da_full : list MapNode; da_patches : list PeerChange }.

(** The loop over the visible peers. *)
Definition delta_step (delta : MapNode -> PeerDelta) (state : gmap Z MapStateNode) (acc : DeltaAcc) (peer : MapNode) : DeltaAcc :=
  let record := match state !! mn_id peer with Some current => <[mn_id peer := current]> (da_next acc) | None => da_next acc end in
  match delta peer with
  | DeltaNone => acc
  | DeltaOnline p => mkDeltaAcc (da_next acc) (da_full acc) (da_patches acc ++ [p])
  | DeltaPatch p => mkDeltaAcc record (da_full acc) (da_patches acc ++ [p])
  | DeltaFull => mkDeltaAcc record (da_full acc ++ [peer]) (da_patches acc)
  end.

Definition self_node_changed (current last : option MapStateNode) : bool :=
  match current, last with
  | Some c, Some p => negb (self_nodes_equal p c)
  | None, None => false
  | _, _ => true
  end.

Definition dns_inputs_changed (current last : option MapStateNode) : bool :=
  match current, last with
  | Some c, Some p =>
      negb (bool_decide (mn_cap_map (ms_node c) = mn_cap_map (ms_node p))) || negb (bool_decide (hi_hostname (mn_hostinfo (ms_node c)) = hi_hostname (mn_hostinfo (ms_node p)))) ||
      negb (bool_decide (hi_os (mn_hostinfo (ms_node c)) = hi_os (mn_hostinfo (ms_node p)))) || negb (bool_decide (mn_addresses (ms_node c) = mn_addresses (ms_node p))) ||
      negb (bool_decide (mn_name (ms_node c) = mn_name (ms_node p)))
  | None, None => false
  | _, _ => true
  end.

(** The peers part of an incremental update: the removals, what is sent of the others
    and what will be remembered. *)
Definition peer_changes (inp : MapInputs) (st : StreamState) (options : PeerDeltaOptions) (force_full_ids force_online_ids : gset Z) (filter_ids : option (gset Z))
    (peers : list MapNode) : list Z * DeltaAcc :=
  let last := ss_peers st in
  let state := peer_state_from_nodes inp peers in
  let removed := elements (dom last ∖ dom state) in
  let base := match filter_ids with Some _ => last | None => state end in
  let delta peer := match state !! mn_id peer with
                    | Some current => peer_delta last options force_full_ids force_online_ids filter_ids current peer
                    | None => DeltaNone
                    end in
  (removed, fold_left (delta_step delta state) peers (mkDeltaAcc (fold_left (fun m id => delete id m) removed base) [] [])).

(** The frame with the node and its DNS settings that precedes a policy update. *)
Definition dns_frame (inp : MapInputs) (current : option MapStateNode) : MapResponse :=
  mkResponse false None (ms_node <$> current) [] [] [] [] ∅ (Some (mi_dns inp)) None "" None None None false.

Definition delta_frame (inp : MapInputs) (node : option MapNode) (removed : list Z) (acc : DeltaAcc) (profiles : gmap Z UserProfile) (dns : bool) (pure_self_update : bool) : MapResponse :=
  mkResponse false None node [] (da_full acc) removed (da_patches acc) profiles (if dns then Some (mi_dns inp) else None) None "" None
    (if pure_self_update then None else Some (mi_filters inp)) (if pure_self_update then None else Some (nsp_policy (mi_ssh inp))) false.

Definition rebuild_peer_delta_chunk (inp : MapInputs) (st : StreamState) (options : PeerDeltaOptions) (force_full_ids force_online_ids : gset Z)
    (filter_ids : option (gset Z)) : option (option (list MapResponse * StreamState)) :=
  if negb (mi_present inp) then Some (Some ([keepalive], st))
  else
    let allowed := allowed_ids (use_incremental_empty_acl_semantics options) inp st in
    own ← self_node inp;
    let current := self_state inp <$> own in
    peers ← visible_peers inp allowed;
    let state := peer_state_from_nodes inp peers in
    let '(removed, acc) := peer_changes inp st options force_full_ids force_online_ids filter_ids peers in
    let is_policy := bool_decide (response_type options = "policy"%string) in
    let dns := include_dns_config options || dns_inputs_changed current (ss_self st) in
    let self := include_self_node options || self_node_changed current (ss_self st) in
    let quiet := is_nil (da_full acc) && is_nil removed && is_nil (da_patches acc) in
    if negb is_policy && negb dns && negb self && quiet then Some None
    else
      let pure_self_update := self && negb is_policy && quiet in
      let dns_change := is_policy && dns in
      let ssh := if pure_self_update then None else Some (mi_ssh inp) in
      let profiles := if pure_self_update || (is_policy && bool_decide (state = ∅)) then ∅ else user_profiles inp allowed in
      let rs := delta_frame inp (if self then ms_node <$> current else None) (if split_peer_removals options then [] else removed) acc profiles (dns && negb dns_change) pure_self_update in
      let '(first, self1) := if dns_change then let '(f, next) := self_node_delta (dns_frame inp current) current (ss_self st) in ([f], next) else ([], ss_self st) in
      let '(rs, self2) := self_node_delta rs current self1 in
      let rs := with_ssh_policy rs (ssh_policy_delta ssh (ss_ssh st)) in
      Some (Some (first ++ build_peer_removal_chunk (if split_peer_removals options then removed else []) ++ [rs],
                  mkStream self2 (da_next acc) (ss_initial_ids st) (if is_Some_b (rs_ssh_policy rs) then ssh else ss_ssh st))).

Definition full_response (inp : MapInputs) (allowed : option (gset Z)) (own : MapNode) (peers : list MapNode) (ping : option PingRequest) (ssh : option SshPolicy) : MapResponse :=
  mkResponse false ping (Some own) peers [] [] [] (user_profiles inp allowed) (Some (mi_dns inp)) (Some (mi_derp_map inp)) (mi_domain inp) (Some false)
    (Some (mi_filters inp)) ssh (mi_disable_log_tail inp).

Definition rebuild_map_chunk (inp : MapInputs) (st : StreamState) : option (list MapResponse * StreamState) :=
  if negb (mi_present inp) then Some ([keepalive], st)
  else
    let allowed := allowed_ids false inp st in
    own ← self_node inp;
    match own with
    | None => Some ([keepalive], st)
    | Some own =>
        peers ← visible_peers inp allowed;
        let state := peer_state_from_nodes inp peers in
        let removed := elements (dom (ss_peers st) ∖ dom state) in
        let '(rs, next_self) := self_node_delta (full_response inp allowed own peers None (Some (nsp_policy (mi_ssh inp)))) (Some (self_state inp own)) (ss_self st) in
        let rs := with_ssh_policy rs (ssh_policy_delta (Some (mi_ssh inp)) (ss_ssh st)) in
        Some (build_peer_removal_chunk removed ++ [rs],
              mkStream next_self state (ss_initial_ids st) (if is_Some_b (rs_ssh_policy rs) then Some (mi_ssh inp) else ss_ssh st))
    end.

Definition rebuild_map_batch_chunk (inp : MapInputs) (st : StreamState) (changes : list MapChange) : option (option (list MapResponse * StreamState)) :=
  if is_nil changes then Some None
  else if forallb (fun c => ping_request (content c)) changes then Some None
  else if map_batch_requires_full_response changes then Some <$> rebuild_map_chunk inp st
  else rebuild_peer_delta_chunk inp st (map_batch_peer_delta_options changes (node_id_for_key (mi_snapshot inp) (mi_self_key inp)))
         (map_batch_forced_full_peer_ids changes) (map_batch_forced_online_peer_ids changes) (map_batch_peer_filter_ids changes).

Definition build_derp_map_chunk (inp : MapInputs) : list MapResponse :=
  if negb (mi_present inp) then [keepalive]
  else [mkResponse false None None [] [] [] [] ∅ None (Some (mi_derp_map inp)) "" None None None false].

Definition build_ping_request_chunk (request : PingRequest) : list MapResponse := [mkResponse false (Some request) None [] [] [] [] ∅ None None "" None None None false].

(** The first chunk: the whole map, and the removal of the peers the node's previous
    stream left it with.  [Some None] is an error response. *)
Definition initial_chunk (inp : MapInputs) (ping : option PingRequest) (delivered : gset Z) : option (option (list MapResponse * StreamState)) :=
  let fresh := mkStream None ∅ ∅ None in
  let allowed := allowed_ids false inp fresh in
  own ← self_node inp;
  match own with
  | None => Some None
  | Some own =>
      peers ← visible_peers inp allowed;
      let state := peer_state_from_nodes inp peers in
      Some (Some (full_response inp allowed own peers ping (Some (nsp_policy (mi_ssh inp))) :: build_peer_removal_chunk (elements (delivered ∖ dom state)),
                  mkStream (Some (self_state inp own)) state (peer_ids_from_snapshot (mi_snapshot inp) (mi_self_key inp)) (Some (mi_ssh inp))))
  end.

(** What wakes a stream. *)
Inductive StreamEvent :=
| BatchPublished (changes : list MapChange)
| BatchLagged
| RegistryChanged (changes : list MapChange)
| PolicyChanged
| DnsChanged
| DerpChanged
| PingQueued (request : PingRequest)
| KeepaliveDue.

(** One turn of the stream: [Some None] if nothing is sent.  A closed channel and the
    timer send a keepalive.  While changes come in batches, the watches of the registry
    and the policy send nothing themselves; what they do to the registry (the route
    approvals of a new policy, the announcement of the change) is not the stream's. *)
Definition stream_step (inp : MapInputs) (event : StreamEvent) (st : StreamState) : option (option (list MapResponse * StreamState)) :=
  match event with
  | BatchPublished changes => rebuild_map_batch_chunk inp st changes
  | BatchLagged | DnsChanged => Some <$> rebuild_map_chunk inp st
  | RegistryChanged changes =>
      if mi_batcher inp then Some None
      else
      match rebuild_map_batch_chunk inp st changes with
      | Some None => rebuild_peer_delta_chunk inp st registry_change ∅ ∅ None
      | chunk => chunk
      end
  | PolicyChanged => if mi_batcher inp then Some None else rebuild_peer_delta_chunk inp st policy_change ∅ ∅ None
  | DerpChanged => Some (Some (build_derp_map_chunk inp, st))
  | PingQueued request => Some (Some (build_ping_request_chunk request, st))
  | KeepaliveDue => Some (Some ([keepalive], st))
  end.

(** ** The client *)

(** The fields of a patch on the wire (debug_nodes.rs [PATCH]): zero keys and times are
    left out, as are a zero region and empty endpoints. *)
Definition wire_patch (p : PeerChange) : PeerChange :=
  let nonzero k o := match o with Some t => if bool_decide (t = zero_text k) then None else Some t | None => None end in
  mkPeerChange (pc_node_id p) (pc_derp_region p) (pc_endpoints p) (nonzero NodeKind (pc_key p)) (nonzero DiscoKind (pc_disco_key p)) (pc_online p)
    (nonzero_time (pc_last_seen p)) (nonzero_time (pc_key_expiry p)).

(** A client changes what a patch has. *)
Definition apply_patch (p : PeerChange) (n : MapNode) : MapNode :=
  mkMapNode (mn_id n) (mn_stable_id n) (mn_name n) (mn_user n) (default (mn_key n) (pc_key p)) (mn_machine n) (mn_addresses n) (mn_allowed_ips n) (mn_primary_routes n)
    (mn_hostinfo n) (mn_created n) (match pc_key_expiry p with Some t => Some t | None => mn_key_expiry n end) (mn_cap n) (mn_tags n)
    (match pc_last_seen p with Some t => Some t | None => mn_last_seen n end) (match pc_online p with Some o => Some o | None => mn_online n end)
    (mn_machine_authorized n) (mn_cap_map n) (mn_expired n) (if pc_derp_region p =? 0 then mn_home_derp n else pc_derp_region p)
    (match pc_disco_key p with Some k => Some k | None => mn_disco_key n end) (if is_nil (pc_endpoints p) then mn_endpoints n else pc_endpoints p) (mn_legacy_derp n).

Record ClientView := mkClient { cv_peers : gmap Z MapNode; cv_self : option MapNode; cv_ssh : option SshPolicy }.

Definition no_view : ClientView := mkClient ∅ None None.

Definition put_peers (peers : list MapNode) (m : gmap Z MapNode) : gmap Z MapNode := fold_left (fun m n => <[mn_id n := n]> m) peers m.
Definition drop_peers {A} (removed : list Z) (m : gmap Z A) : gmap Z A := fold_left (fun m id => delete id m) removed m.
Definition patch_peers (ps : list PeerChange) (m : gmap Z MapNode) : gmap Z MapNode := fold_left (fun m p => alter (apply_patch (wire_patch p)) (pc_node_id p) m) ps m.

(** A list of all peers replaces them and precludes the deltas; an empty list is left
    out of the response. *)
Definition apply_frame (v : ClientView) (rs : MapResponse) : ClientView :=
  if rs_keep_alive rs then v
  else mkClient (match rs_peers rs with
                 | [] => patch_peers (rs_peers_changed_patch rs) (put_peers (rs_peers_changed rs) (drop_peers (rs_peers_removed rs) (cv_peers v)))
                 | peers => put_peers peers ∅
                 end)
         (match rs_node rs with Some n => Some n | None => cv_self v end) (match rs_ssh_policy rs with Some p => Some p | None => cv_ssh v end).

Definition receive (v : ClientView) (frames : list MapResponse) : ClientView := fold_left apply_frame frames v.

(** What peers are told of a node at once: all but when it was last seen, the old form
    of its DERP region, and the parts of its Hostinfo that peers do not read. *)
Definition peer_hostinfo (h : HostInfo) :=
  (hi_hostname h, hi_os h, hi_services h, hi_ssh_host_keys h, hi_location h, hi_app_connector h, hi_routable_ips h).

Definition fixed_part (n : MapNode) :=
  (mn_id n, mn_stable_id n, mn_name n, mn_user n, mn_machine n, mn_addresses n, mn_allowed_ips n, mn_primary_routes n, peer_hostinfo (mn_hostinfo n),
   mn_created n, mn_cap n, mn_tags n, mn_machine_authorized n, mn_cap_map n, mn_expired n).

Definition patchable_part (n : MapNode) := (mn_key n, mn_key_expiry n, mn_online n, mn_home_derp n, mn_disco_key n, mn_endpoints n).

Definition same_peer (a b : MapNode) : Prop := fixed_part a = fixed_part b /\ patchable_part a = patchable_part b.

(** What every peer of a view has: times and keys are absent rather than zero, and the
    online state is known. *)
Definition node_ok (n : MapNode) : Prop :=
  mn_key_expiry n <> Some GO_ZERO_TIME /\ mn_disco_key n <> Some ZERO_DISCO_KEY /\ mn_key n <> zero_text NodeKind /\ mn_online n <> None.

(** A patch cannot clear endpoints, nor an expiry or a disco key when the key changes. *)
Definition lossy_patch (previous current : MapNode) : bool :=
  let keys_changed := negb (bool_decide (mn_key previous = mn_key current)) || negb (bool_decide (mn_disco_key previous = mn_disco_key current)) in
  (is_nil (mn_endpoints current) && negb (is_nil (mn_endpoints previous))) ||
  (keys_changed && ((negb (is_Some_b (mn_key_expiry current)) && is_Some_b (mn_key_expiry previous)) || (negb (is_Some_b (mn_disco_key current)) && is_Some_b (mn_disco_key previous)))).

(** The entry of a record in the view. *)
Definition peer_entry (inp : MapInputs) (kv : string * MachineRecord) : option MapNode :=
  let snapshot := mi_snapshot inp in
  peer_map_node (mi_policy inp) (mi_now inp) snapshot (mi_self_key inp) (mi_domain inp) (mi_primary_routes inp)
    (exit_routes_for_snapshot snapshot) (served_routes_for_snapshot snapshot) (mi_online inp) (mi_cap_version inp) kv.

(** Node ids are unique and node keys are not zero. *)
Definition inputs_ok (inp : MapInputs) : bool :=
  bool_decide (NoDup ((fun kv => stable_node_id kv.2) <$> map_to_list (mi_snapshot inp))) &&
  forallb (fun kv => negb (bool_decide (("nodekey:" +:+ mr_node_key_hex kv.2) = zero_text NodeKind))) (map_to_list (mi_snapshot inp)).

(** No node has to be patched in a way a patch cannot express. *)
Definition lossless (inp : MapInputs) (st : StreamState) : bool :=
  forallb (fun kv => match peer_entry inp kv with
                     | Some n => match ss_peers st !! mn_id n with
                                 | Some previous => negb (is_Some_b (peer_patch_if_only_patchable_fields_changed (ms_node previous) n) && lossy_patch (ms_node previous) n)
                                 | None => true
                                 end
                     | None => true
                     end) (map_to_list (mi_snapshot inp)).

(** *** Nodes that look the same *)

Lemma peer_hostinfo_equal_true a b : peer_hostinfo_equal a b = true <-> peer_hostinfo a = peer_hostinfo b.
Proof.
  unfold peer_hostinfo_equal, peer_hostinfo. rewrite !andb_true_iff, !bool_decide_eq_true. split.
  - intros ((((((-> & ->) & ->) & ->) & ->) & ->) & ->). done.
  - intros [= -> -> -> -> -> -> ->]. done.
Qed.

#[export] Instance same_peer_equivalence : Equivalence same_peer.
Proof.
  unfold same_peer. split.
  - intros a. done.
  - intros a b [-> ->]. done.
  - intros a b c [-> ->] [-> ->]. done.
Qed.

Lemma equal_ignoring_last_seen a b : map_nodes_equal_ignoring_last_seen a b = true -> same_peer a b.
Proof. unfold map_nodes_equal_ignoring_last_seen. rewrite bool_decide_eq_true. intros ->. done. Qed.

Lemma normalized_same previous current : previous = normalized previous current -> fixed_part previous = fixed_part current.
Proof.
  intros E. assert (peer_hostinfo (mn_hostinfo previous) = peer_hostinfo (mn_hostinfo current)) as Eh.
  { assert (mn_hostinfo previous = mn_hostinfo (normalized previous current)) as Eh by (by rewrite <-E). revert Eh. clear E.
    unfold normalized. cbn [mn_hostinfo]. destruct (peer_hostinfo_equal (mn_hostinfo previous) (mn_hostinfo current)) eqn:Eq; [by apply peer_hostinfo_equal_true in Eq|].
    intros ->. done. }
  assert (fixed_part previous = fixed_part (normalized previous current)) as -> by (by rewrite <-E).
  unfold fixed_part, normalized. cbn [mn_id mn_stable_id mn_name mn_user mn_machine mn_addresses mn_allowed_ips mn_primary_routes mn_hostinfo mn_created mn_cap mn_tags mn_machine_authorized mn_cap_map mn_expired].
  destruct (peer_hostinfo_equal (mn_hostinfo previous) (mn_hostinfo current)); [by rewrite Eh|done].
Qed.

(** *** A patch *)

(** The fields of a patch: a patch was sent only where nothing else changed, and it has
    every field that changed. *)
Lemma patch_fields previous current p : peer_patch_if_only_patchable_fields_changed previous current = Some p ->
  pc_node_id p = mn_id current /\ fixed_part previous = fixed_part current /\
  pc_derp_region p = (if mn_home_derp previous =? mn_home_derp current then 0 else mn_home_derp current) /\
  (mn_home_derp previous <> mn_home_derp current -> mn_home_derp current <> 0) /\
  let keys_changed := negb (bool_decide (mn_key previous = mn_key current)) || negb (bool_decide (mn_disco_key previous = mn_disco_key current)) in
  pc_endpoints p = (if negb (bool_decide (mn_endpoints previous = mn_endpoints current)) || keys_changed then mn_endpoints current else []) /\
  pc_key p = (if keys_changed then Some (mn_key current) else None) /\
  pc_disco_key p = (if keys_changed then Some (default ZERO_DISCO_KEY (mn_disco_key current)) else None) /\
  pc_online p = (if bool_decide (mn_online previous = mn_online current) then None else mn_online current) /\
  pc_key_expiry p = (if keys_changed then Some (default GO_ZERO_TIME (mn_key_expiry current)) else if bool_decide (mn_key_expiry previous = mn_key_expiry current) then None else mn_key_expiry current) /\
  pc_last_seen p = None /\
  (keys_changed = false -> mn_key_expiry current = None -> mn_key_expiry previous = None).
Proof.
  unfold peer_patch_if_only_patchable_fields_changed. cbn zeta. set (keys := negb _ || negb _).
  destruct (negb _ && negb _ && negb _ && negb _ && negb keys); [done|].
  destruct (negb (_ =? _) && _) eqn:Ederp; [done|]. destruct (negb (bool_decide (mn_key_expiry _ = _)) && _ && _) eqn:Eexp; [done|].
  destruct (_ && (_ || _)); [done|]. destruct (negb (bool_decide (previous = _))) eqn:Enorm; [done|]. apply negb_false_iff, bool_decide_eq_true, normalized_same in Enorm.
  intros [= <-]. cbn [pc_node_id pc_derp_region pc_endpoints pc_key pc_disco_key pc_online pc_key_expiry pc_last_seen].
  split; [done|]. split; [done|]. split; [by destruct (_ =? _)|]. split; [lia|].
  split; [done|]. split; [done|]. split; [done|]. split; [by destruct (bool_decide (mn_online _ = _))|].
  split; [destruct keys; [done|]; by destruct (bool_decide (mn_key_expiry _ = _))|]. split; [done|].
  intros Hk Hn. rewrite Hk, Hn in Eexp. cbn [negb] in Eexp. rewrite (bool_decide_true (None = None)) in Eexp by done.
  rewrite !andb_true_r, negb_false_iff, bool_decide_eq_true in Eexp. done.
Qed.

(** What a client that shows [previous] shows after the patch. *)
Lemma patch_result previous current p q shown : peer_patch_if_only_patchable_fields_changed previous current = Some p -> q = p \/ q = force_online current p ->
  node_ok current -> same_peer shown previous ->
  let keys_changed := negb (bool_decide (mn_key previous = mn_key current)) || negb (bool_decide (mn_disco_key previous = mn_disco_key current)) in
  fixed_part (apply_patch (wire_patch q) shown) = fixed_part current /\
  patchable_part (apply_patch (wire_patch q) shown) =
    (mn_key current, if keys_changed && negb (is_Some_b (mn_key_expiry current)) then mn_key_expiry previous else mn_key_expiry current, mn_online current, mn_home_derp current,
     if keys_changed && negb (is_Some_b (mn_disco_key current)) then mn_disco_key previous else mn_disco_key current,
     if is_nil (mn_endpoints current) then mn_endpoints previous else mn_endpoints current).
Proof.
  intros Hp Hq (Hexp & Hdisco & Hkey & Honline) [Hfix Hpatch] keys_changed. apply patch_fields in Hp as (_ & Hpf & Ederp & Hderp & Eend & Ekey & Edisco & Eonline & Eexp & Eseen & Hclear).
  assert (pc_derp_region q = pc_derp_region p /\ pc_endpoints q = pc_endpoints p /\ pc_key q = pc_key p /\ pc_disco_key q = pc_disco_key p /\ pc_key_expiry q = pc_key_expiry p /\
    match pc_online q with Some o => Some o | None => mn_online previous end = mn_online current) as (Qderp & Qend & Qkey & Qdisco & Qexp & Qonline).
  { destruct Hq as [-> | ->]; cbn; split_and!; try done; [rewrite Eonline; destruct (bool_decide_reflect (mn_online previous = mn_online current)) as [Eq|]; [exact Eq|]|]; by destruct (mn_online current). }
  fold keys_changed in Eend, Ekey, Edisco, Eexp, Hclear. injection Hpatch as Skey Sexp Sonline Sderp Sdisco Send. split; [by rewrite <-Hpf|]. unfold patchable_part, apply_patch, wire_patch.
  cbn [mn_key mn_key_expiry mn_online mn_home_derp mn_disco_key mn_endpoints pc_key pc_key_expiry pc_online pc_derp_region pc_disco_key pc_endpoints].
  rewrite Qderp, Qend, Qkey, Qdisco, Qexp, Ederp, Eend, Ekey, Edisco, Eexp, Skey, Sexp, Sonline, Sderp, Sdisco, Send, Qonline.
  assert (keys_changed = false -> mn_key previous = mn_key current /\ mn_disco_key previous = mn_disco_key current) as Hkeys.
  { unfold keys_changed. rewrite orb_false_iff, !negb_false_iff, !bool_decide_eq_true. done. }
  clearbody keys_changed. f_equal; [f_equal; [f_equal; [f_equal; f_equal|]|]|].
  - destruct keys_changed; [by rewrite bool_decide_false|by destruct Hkeys].
  - destruct keys_changed; cbn [andb].
    + destruct (mn_key_expiry current) as [t|]; cbn [default is_Some_b negb nonzero_time id]; [destruct (Z.eqb_spec t GO_ZERO_TIME); [congruence|done]|done].
    + destruct (bool_decide_reflect (mn_key_expiry previous = mn_key_expiry current)) as [Eq|Hne]; [done|]. destruct (mn_key_expiry current) as [t|]; cbn [nonzero_time]; [destruct (Z.eqb_spec t GO_ZERO_TIME); [congruence|done]|by rewrite Hclear].
  - destruct (Z.eqb_spec (mn_home_derp previous) (mn_home_derp current)) as [Eq|Hne]; [done|]. by destruct (Z.eqb_spec (mn_home_derp current) 0); [destruct (Hderp Hne)|].
  - destruct keys_changed; cbn [andb].
    + destruct (mn_disco_key current) as [k|]; cbn [default is_Some_b negb id]; [rewrite bool_decide_false; [done|]; intros ->; by apply Hdisco|by rewrite bool_decide_true].
    + by apply Hkeys.
  - destruct (bool_decide_reflect (mn_endpoints previous = mn_endpoints current)) as [Eq|Hne]; cbn [negb orb].
    + rewrite Eq. destruct keys_changed; [|by destruct (mn_endpoints current)]. destruct (mn_endpoints current); done.
    + destruct (mn_endpoints current); done.
Qed.

Lemma patch_same previous current p q shown :
  peer_patch_if_only_patchable_fields_changed previous current = Some p -> q = p \/ q = force_online current p -> node_ok current -> same_peer shown previous ->
  (same_peer (apply_patch (wire_patch q) shown) current <-> lossy_patch previous current = false).
Proof.
  intros Hp Hq Hok Hs. destruct (patch_result previous current p q shown Hp Hq Hok Hs) as [Hf Hr]. unfold same_peer. rewrite Hf, Hr. clear.
  unfold patchable_part, lossy_patch. set (keys := negb _ || negb _). clearbody keys.
  destruct (mn_endpoints current) eqn:Ee, (mn_endpoints previous) eqn:Ep, keys, (mn_key_expiry current) eqn:Exc, (mn_key_expiry previous) eqn:Exp,
    (mn_disco_key current) eqn:Edc, (mn_disco_key previous) eqn:Edp; cbn [is_nil is_Some_b negb andb orb]; (split; [|done]); intros [_ E]; done.
Qed.

(** A client that shows a peer as the server remembers it and receives a patch shows
    the peer as it is now, except if the patch had to clear a field: the patch of a
    node whose endpoints went away, or whose expiry or disco key went away together with
    a change of its keys, leaves the old value in place. *)
Theorem patch_exact previous current p shown :
  peer_patch_if_only_patchable_fields_changed previous current = Some p -> node_ok current -> same_peer shown previous ->
  (same_peer (apply_patch (wire_patch p) shown) current <-> lossy_patch previous current = false).
Proof. intros Hp. apply (patch_same _ _ p p _ Hp). by left. Qed.

(** *** The client's table *)

Lemma put_peers_out peers id : forall m, id ∉ mn_id <$> peers -> put_peers peers m !! id = m !! id.
Proof.
  unfold put_peers. induction peers as [|n peers IH]; intros m Hout; [done|]. cbn [fold_left]. rewrite fmap_cons, not_elem_of_cons in Hout. destruct Hout as [Hne Hout].
  rewrite IH by done. by rewrite lookup_insert_ne.
Qed.

Lemma put_peers_in peers n : forall m, NoDup (mn_id <$> peers) -> n ∈ peers -> put_peers peers m !! mn_id n = Some n.
Proof.
  induction peers as [|x peers IH]; intros m Hnd Hin; [by apply elem_of_nil in Hin|]. rewrite fmap_cons, NoDup_cons in Hnd. destruct Hnd as [Hx Hnd].
  apply elem_of_cons in Hin as [-> |Hin]; [|by apply IH].
  change (put_peers peers (<[mn_id x := x]> m) !! mn_id x = Some x). rewrite put_peers_out by done. by rewrite lookup_insert_eq.
Qed.

Lemma drop_peers_lookup {A} removed id : forall m : gmap Z A, drop_peers removed m !! id = if bool_decide (id ∈ removed) then None else m !! id.
Proof.
  unfold drop_peers. induction removed as [|x removed IH]; intros m; [by rewrite bool_decide_false by set_solver|]. cbn [fold_left]. rewrite IH.
  destruct (decide (id = x)) as [-> |Hne]; [rewrite lookup_delete_eq, (bool_decide_true (x ∈ x :: removed)) by set_solver; by case_bool_decide|].
  rewrite lookup_delete_ne by done. rewrite (bool_decide_ext (id ∈ x :: removed) (id ∈ removed)); [done|]. rewrite elem_of_cons. naive_solver.
Qed.

Lemma patch_peers_out ps id : forall m, id ∉ pc_node_id <$> ps -> patch_peers ps m !! id = m !! id.
Proof.
  unfold patch_peers. induction ps as [|p ps IH]; intros m Hout; [done|]. cbn [fold_left]. rewrite fmap_cons, not_elem_of_cons in Hout. destruct Hout as [Hne Hout].
  rewrite IH by done. by rewrite lookup_alter_ne.
Qed.

Lemma patch_peers_in ps p : forall m, NoDup (pc_node_id <$> ps) -> p ∈ ps -> patch_peers ps m !! pc_node_id p = apply_patch (wire_patch p) <$> m !! pc_node_id p.
Proof.
  induction ps as [|x ps IH]; intros m Hnd Hin; [by apply elem_of_nil in Hin|]. rewrite fmap_cons, NoDup_cons in Hnd. destruct Hnd as [Hx Hnd].
  change (patch_peers ps (alter (apply_patch (wire_patch x)) (pc_node_id x) m) !! pc_node_id p = apply_patch (wire_patch p) <$> m !! pc_node_id p).
  apply elem_of_cons in Hin as [-> |Hin].
  - rewrite patch_peers_out by done. by rewrite lookup_alter_eq.
  - rewrite IH by done. rewrite lookup_alter_ne; [done|]. intros E. apply Hx. rewrite E. by apply list_elem_of_fmap_2.
Qed.

(** *** The loop *)

(** What is sent of a peer, and whether it is remembered. *)
Definition sent_full (d : PeerDelta) : bool := match d with DeltaFull => true | _ => false end.
Definition sent_patch (d : PeerDelta) : option PeerChange := match d with DeltaOnline p | DeltaPatch p => Some p | _ => None end.
Definition recorded (d : PeerDelta) : bool := match d with DeltaPatch _ | DeltaFull => true | _ => false end.

Lemma delta_fold delta state peers : forall acc,
  let acc' := fold_left (delta_step delta state) peers acc in
  da_full acc' = da_full acc ++ List.filter (fun n => sent_full (delta n)) peers /\
  da_patches acc' = da_patches acc ++ omap (fun n => sent_patch (delta n)) peers /\
  (forall id, id ∉ mn_id <$> List.filter (fun n => recorded (delta n)) peers -> da_next acc' !! id = da_next acc !! id) /\
  (forall n, n ∈ peers -> recorded (delta n) = true -> is_Some (state !! mn_id n) -> da_next acc' !! mn_id n = state !! mn_id n).
Proof.
  induction peers as [|x peers IH]; intros acc; cbn [fold_left]; [cbn; rewrite !app_nil_r; split_and!; try done; intros n Hn; by apply elem_of_nil in Hn|].
  destruct (IH (delta_step delta state acc x)) as (Hf & Hp & Hout & Hin). cbn [List.filter omap list_omap].
  split; [rewrite Hf; unfold delta_step; destruct (delta x); cbn; rewrite <-?app_assoc; done|].
  split; [rewrite Hp; unfold delta_step; destruct (delta x); cbn; rewrite <-?app_assoc; done|].
  assert (forall id, (id = mn_id x -> recorded (delta x) = false) -> da_next (delta_step delta state acc x) !! id = da_next acc !! id) as Hkeep.
  { intros id Hne. unfold delta_step. destruct (delta x); try done; (destruct (decide (id = mn_id x)) as [E|E]; [by apply Hne in E|]; cbn [da_next]; destruct (state !! mn_id x); [|done]; by rewrite lookup_insert_ne). }
  split.
  - intros id Hid. destruct (recorded (delta x)) eqn:Er; [|rewrite Hout by done; apply Hkeep; done].
    rewrite fmap_cons, not_elem_of_cons in Hid. destruct Hid as [Hne Hid]. rewrite Hout by done. apply Hkeep. intros ->. done.
  - intros n Hn Hr Hs. destruct (decide (mn_id n ∈ mn_id <$> List.filter (fun n => recorded (delta n)) peers)) as [Hmem|Hmem].
    + apply list_elem_of_fmap in Hmem as (n' & E & Hn'). rewrite list_elem_of_In, filter_In, <-list_elem_of_In in Hn'. destruct Hn' as [Hn' Hr']. rewrite E. apply Hin; [done..|]. by rewrite <-E.
    + rewrite Hout by done. apply elem_of_cons in Hn as [-> |Hn].
      * unfold delta_step. destruct Hs as [c Hc]. rewrite Hc. destruct (delta x); try done; cbn [da_next]; by rewrite lookup_insert_eq.
      * destruct Hmem. apply list_elem_of_fmap. exists n. split; [done|]. rewrite list_elem_of_In, filter_In, <-list_elem_of_In. done.
Qed.

(** *** The view of the server *)

Lemma peer_state_lookup inp peers n : NoDup (mn_id <$> peers) -> n ∈ peers ->
  peer_state_from_nodes inp peers !! mn_id n = Some (map_state_node inp n (records_by_id (mi_snapshot inp) !! mn_id n)).
Proof.
  intros Hnd Hn. unfold peer_state_from_nodes. set (f := fun n : MapNode => _). apply elem_of_list_to_map_1.
  - change (NoDup (map fst (rev (map f peers)))). rewrite map_rev, map_map. rewrite <-rev_alt || idtac. apply NoDup_ListNoDup, List.NoDup_rev, NoDup_ListNoDup. done.
  - rewrite list_elem_of_In, <-in_rev, in_map_iff, <-?list_elem_of_In. exists n. split; [done|]. by apply list_elem_of_In.
Qed.

Lemma peer_state_dom inp peers id : id ∈ dom (peer_state_from_nodes inp peers) <-> id ∈ mn_id <$> peers.
Proof.
  unfold peer_state_from_nodes. set (f := fun n : MapNode => _). rewrite dom_list_to_map, elem_of_list_to_set. change (id ∈ map fst (rev (map f peers)) <-> id ∈ mn_id <$> peers).
  rewrite map_rev, map_map, list_elem_of_In, <-in_rev. symmetry. apply list_elem_of_In.
Qed.

Lemma peer_entry_ok inp key (r : MachineRecord) n : inputs_ok inp = true -> mi_snapshot inp !! key = Some r -> peer_entry inp (key, r) = Some n ->
  node_ok n /\ mn_id n = stable_node_id r.
Proof.
  intros Hok Hr. unfold peer_entry, peer_map_node. cbn [fst snd]. destruct (map_address_prefixes r) as [addresses|]; cbn [mbind option_bind]; [|done].
  destruct (select_routes_for_viewer _ _ _ _ _ _ _) as [selected allowed]. intros [= <-].
  unfold apply_selected_routes_to_map_node, apply_peer_cap_map_to_map_node, apply_address_shape_attrs_to_map_node.
  destruct (has_node_attr _ NODE_ATTR_DISABLE_IPV4); (split; [|done]); unfold node_ok;
    cbn [mn_key_expiry mn_disco_key mn_key mn_online set_routes_of set_caps set_addresses apply_transient_lifecycle set_lifecycle record_to_map_node].
  all: (split; [destruct (mr_expiry r) as [t|]; [unfold is_go_zero_expiry; destruct (Z.eqb_spec t GO_ZERO_TIME); [done|congruence]|done]|]).
  all: (split; [destruct (re_disco_key _) as [k|]; [destruct (bool_decide (k = _)); [done|]; cbn [orb]; case_bool_decide; [done|congruence]|done]|]).
  all: (split; [|done]).
  all: unfold inputs_ok in Hok; apply andb_true_iff in Hok as [_ Hok]; rewrite forallb_forall in Hok.
  all: assert (In (key, r) (map_to_list (mi_snapshot inp))) as Hin by (apply list_elem_of_In; by apply elem_of_map_to_list).
  all: apply Hok, negb_true_iff, bool_decide_eq_false in Hin; done.
Qed.

(** The visible peers are entries of records, with distinct ids. *)
Lemma visible_peers_ok inp allowed peers : inputs_ok inp = true -> visible_peers inp allowed = Some peers ->
  NoDup (mn_id <$> peers) /\ forall n, n ∈ peers -> node_ok n /\ exists key r, mi_snapshot inp !! key = Some r /\ peer_entry inp (key, r) = Some n.
Proof.
  intros Hok. unfold visible_peers, visible_peer_map_nodes. set (kvs := List.filter _ _). change (peer_map_node _ _ _ _ _ _ _ _ _ _) with (peer_entry inp).
  destruct (mapM (peer_entry inp) kvs) as [ns|] eqn:Ens; cbn [mbind option_bind]; [|done]. intros [= <-]. apply mapM_Some_1 in Ens.
  assert (forall kv, kv ∈ kvs -> mi_snapshot inp !! kv.1 = Some kv.2) as Hkvs.
  { intros [key r] Hin. unfold kvs in Hin. rewrite list_elem_of_In, filter_In, <-list_elem_of_In in Hin. destruct Hin as [Hin _]. by apply elem_of_map_to_list in Hin. }
  split.
  - rewrite sort_by_perm. assert (mn_id <$> ns = (fun kv => stable_node_id kv.2) <$> kvs) as ->.
    { clearbody kvs. revert Hkvs. induction Ens as [|[key r] n kvs ns He _ IH]; intros Hkvs; [done|]. rewrite !fmap_cons. f_equal.
      - pose proof (Hkvs (key, r) (list_elem_of_here _ _)) as Hr. by destruct (peer_entry_ok inp key r n Hok Hr He).
      - apply IH. intros kv Hin. apply Hkvs. by right. }
    unfold inputs_ok in Hok. apply andb_true_iff in Hok as [Hnd%bool_decide_eq_true _]. eapply sublist_NoDup; [exact Hnd|]. apply fmap_sublist, filter_sublist.
  - intros n Hn%sort_by_In. destruct (Forall2_elem_of_r _ _ _ _ Ens Hn) as ([key r] & Hin & He). apply Hkvs in Hin. cbn [fst snd] in Hin.
    split; [by destruct (peer_entry_ok inp key r n Hok Hin He)|by exists key, r].
Qed.

(** *** Peers *)

Definition peers_agree (shown : gmap Z MapNode) (remembered : gmap Z MapStateNode) : Prop := forall id, option_Forall2 same_peer (shown !! id) (ms_node <$> remembered !! id).

Lemma peer_delta_cases last options ff fo fi current n :
  match peer_delta last options ff fo fi current n with
  | DeltaNone => is_Some fi \/ exists previous, last !! mn_id n = Some previous /\ same_peer (ms_node previous) n
  | DeltaOnline p => p = online_patch n /\ exists previous, last !! mn_id n = Some previous /\ same_peer (ms_node previous) n
  | DeltaPatch p => exists previous q, last !! mn_id n = Some previous /\ peer_patch_if_only_patchable_fields_changed (ms_node previous) n = Some q /\ (p = q \/ p = force_online n q)
  | DeltaFull => True
  end.
Proof.
  unfold peer_delta. cbn zeta. destruct (negb _) eqn:Escope; [left; destruct fi; [by eexists|done]|]. destruct (_ || _); [done|].
  destruct (last !! mn_id n) as [previous|] eqn:El; [|done]. destruct (_ && map_nodes_equal_ignoring_last_seen _ _) eqn:Eq.
  - apply andb_true_iff in Eq as [_ Eq%equal_ignoring_last_seen]. destruct (bool_decide _); [|right]; eauto.
  - destruct (bool_decide _ && raw_peer_hostinfo_equal _ _); [|done]. destruct (peer_patch_if_only_patchable_fields_changed _ _) as [p|] eqn:Ep; [|done]. exists previous, p. split_and!; [done..|]. destruct (bool_decide _); auto.
Qed.

Lemma online_patch_same n shown : node_ok n -> same_peer shown n -> same_peer (apply_patch (wire_patch (online_patch n)) shown) n.
Proof.
  intros (_ & _ & _ & Ho) [Hf Hp]. split; [done|]. injection Hp as E1 E2 E3 E4 E5 E6. unfold patchable_part, apply_patch, wire_patch, online_patch.
  cbn [mn_key mn_key_expiry mn_online mn_home_derp mn_disco_key mn_endpoints pc_key pc_key_expiry pc_online pc_derp_region pc_disco_key pc_endpoints default nonzero_time is_nil Z.eqb id].
  rewrite E1, E2, E4, E5, E6. by destruct (mn_online n).
Qed.

Lemma omap_ids (f : MapNode -> option PeerChange) peers : (forall n p, f n = Some p -> pc_node_id p = mn_id n) -> sublist (pc_node_id <$> omap f peers) (mn_id <$> peers).
Proof.
  intros Hf. induction peers as [|n peers IH]; [constructor|]. cbn [omap list_omap]. rewrite fmap_cons. destruct (f n) as [p|] eqn:E; [|by constructor].
  rewrite fmap_cons, (Hf n p E). by constructor.
Qed.

Lemma elements_difference (a b : gset Z) id : id ∈ elements (a ∖ b) <-> id ∈ a /\ id ∉ b.
Proof. by rewrite elem_of_elements, elem_of_difference. Qed.

Lemma same_id (peers : list MapNode) a b : NoDup (mn_id <$> peers) -> a ∈ peers -> b ∈ peers -> mn_id a = mn_id b -> a = b.
Proof.
  intros Hnd Ha Hb E. apply list_elem_of_lookup in Ha as [i Hi]. apply list_elem_of_lookup in Hb as [j Hj].
  assert (i = j) as ->; [|congruence]. apply (NoDup_lookup _ i j (mn_id a) Hnd); rewrite list_lookup_fmap; [by rewrite Hi|by rewrite Hj, E].
Qed.

(** What a client shows after the deltas of the peers. *)
Lemma apply_deltas delta peers shown : NoDup (mn_id <$> peers) -> (forall n p, sent_patch (delta n) = Some p -> pc_node_id p = mn_id n) ->
  let after := patch_peers (omap (fun n => sent_patch (delta n)) peers) (put_peers (List.filter (fun n => sent_full (delta n)) peers) shown) in
  (forall id, id ∉ mn_id <$> peers -> after !! id = shown !! id) /\
  (forall n, n ∈ peers -> after !! mn_id n =
     match delta n with
     | DeltaFull => Some n
     | DeltaOnline p | DeltaPatch p => apply_patch (wire_patch p) <$> shown !! mn_id n
     | DeltaNone => shown !! mn_id n
     end).
Proof.
  intros Hnd Hid after. pose proof (omap_ids (fun n => sent_patch (delta n)) peers Hid) as Hps.
  assert (sublist (mn_id <$> List.filter (fun n => sent_full (delta n)) peers) (mn_id <$> peers)) as Hfs by (apply fmap_sublist, filter_sublist).
  assert (forall id n, n ∈ peers -> mn_id n = id -> sent_patch (delta n) = None -> id ∉ pc_node_id <$> omap (fun n => sent_patch (delta n)) peers) as Hno.
  { intros id n Hn <- Hs (p & E & (n' & Hn' & Hp)%list_elem_of_omap)%list_elem_of_fmap. rewrite (Hid n' p Hp) in E. by rewrite (same_id peers n n' Hnd Hn Hn' E), Hp in Hs. }
  assert (forall id n, n ∈ peers -> mn_id n = id -> sent_full (delta n) = false -> id ∉ mn_id <$> List.filter (fun n => sent_full (delta n)) peers) as Hnf.
  { intros id n Hn <- Hs (n' & E & Hn')%list_elem_of_fmap. rewrite list_elem_of_In, filter_In, <-list_elem_of_In in Hn'. destruct Hn' as [Hn' Hf].
    by rewrite (same_id peers n n' Hnd Hn Hn' E), Hf in Hs. }
  split.
  - intros id Hout. unfold after. rewrite patch_peers_out, put_peers_out; [done| |]; intros Hin; apply Hout; eapply elem_of_sublist; eauto.
  - intros n Hn. unfold after. destruct (delta n) as [|p|p|] eqn:Ed.
    1: rewrite patch_peers_out, put_peers_out; [done| |]; [eapply Hnf|eapply Hno]; rewrite ?Ed; done.
    3: { rewrite patch_peers_out by (eapply Hno; rewrite ?Ed; done). apply put_peers_in; [by eapply sublist_NoDup|]. rewrite list_elem_of_In, filter_In, <-list_elem_of_In, Ed. done. }
    all: rewrite <-(Hid n p) by (by rewrite Ed); rewrite patch_peers_in; [|by eapply sublist_NoDup|apply list_elem_of_omap; exists n; by rewrite Ed].
    all: rewrite put_peers_out; [done|]; eapply Hnf; [done| |by rewrite Ed]; symmetry; apply Hid; by rewrite Ed.
Qed.

Lemma lossless_patch inp st n previous p : lossless inp st = true -> (exists key r, mi_snapshot inp !! key = Some r /\ peer_entry inp (key, r) = Some n) ->
  ss_peers st !! mn_id n = Some previous -> peer_patch_if_only_patchable_fields_changed (ms_node previous) n = Some p -> lossy_patch (ms_node previous) n = false.
Proof.
  intros Hless (key & r & Hr & He) Hl Hp. unfold lossless in Hless. rewrite forallb_forall in Hless. apply elem_of_map_to_list, list_elem_of_In, Hless in Hr.
  rewrite He, Hl, Hp in Hr. cbn [is_Some_b andb] in Hr. by apply negb_true_iff in Hr.
Qed.

(** One peer: [before] is what the client shows. *)
Lemma delta_agrees inp st options ff fo fi sn n before :
  node_ok n -> lossless inp st = true -> (exists key r, mi_snapshot inp !! key = Some r /\ peer_entry inp (key, r) = Some n) ->
  option_Forall2 same_peer before (ms_node <$> ss_peers st !! mn_id n) ->
  match peer_delta (ss_peers st) options ff fo fi sn n with
  | DeltaNone => is_Some fi \/ option_Forall2 same_peer before (Some n)
  | DeltaOnline p => option_Forall2 same_peer (apply_patch (wire_patch p) <$> before) (Some n) /\ option_Forall2 same_peer (apply_patch (wire_patch p) <$> before) (ms_node <$> ss_peers st !! mn_id n)
  | DeltaPatch p => option_Forall2 same_peer (apply_patch (wire_patch p) <$> before) (Some n)
  | DeltaFull => True
  end.
Proof.
  intros Hok Hless Hentry Hb. pose proof (peer_delta_cases (ss_peers st) options ff fo fi sn n) as Hcase. destruct (peer_delta _ _ _ _ _ _ _) as [|p|p|]; [| | |done].
  - destruct Hcase as [Hfi|(previous & Hl & Hs)]; [by left|right]. rewrite Hl in Hb. cbn in Hb. inversion Hb as [x y Hxy|]; subst. constructor. by etrans.
  - destruct Hcase as (-> & previous & Hl & Hs). rewrite Hl in Hb |- *. cbn in Hb |- *. inversion Hb as [x y Hxy|]; subst. cbn.
    assert (same_peer (apply_patch (wire_patch (online_patch n)) x) n) as Hx by (apply online_patch_same; [done|by etrans]).
    split; constructor; [done|]. by etrans.
  - destruct Hcase as (previous & q & Hl & Hq & Heq). rewrite Hl in Hb. cbn in Hb. inversion Hb as [x y Hxy|]; subst. cbn. constructor.
    apply (patch_same _ n q p x Hq Heq Hok Hxy). by apply (lossless_patch inp st n previous q).
Qed.

(** The deltas of the peers bring a client that shows what is remembered to show what
    will be remembered. *)
Lemma peer_changes_agree inp st options ff fo fi allowed peers removed acc shown :
  inputs_ok inp = true -> lossless inp st = true -> visible_peers inp allowed = Some peers -> peer_changes inp st options ff fo fi peers = (removed, acc) ->
  peers_agree shown (ss_peers st) ->
  peers_agree (patch_peers (da_patches acc) (put_peers (da_full acc) (drop_peers removed shown))) (da_next acc).
Proof.
  intros Hok Hless Hvis. destruct (visible_peers_ok inp allowed peers Hok Hvis) as [Hnd Hpeers]. unfold peer_changes. cbn zeta.
  set (last := ss_peers st). set (state := peer_state_from_nodes inp peers). set (delta := fun peer : MapNode => match state !! mn_id peer with Some _ => _ | None => _ end).
  set (base := match fi with Some _ => last | None => state end). set (gone := elements _).
  intros Hc Hagree. pose proof (f_equal fst Hc) as Hr. pose proof (f_equal snd Hc) as Ha. cbn [fst snd] in Hr, Ha. subst removed acc. clear Hc.
  destruct (delta_fold delta state peers (mkDeltaAcc (drop_peers gone base) [] [])) as (Hfull & Hpatch & Hout & Hin). change (fold_left (fun m id => delete id m) gone base) with (drop_peers gone base).
  set (acc := fold_left _ peers _) in *. cbn [da_full da_patches da_next app] in Hfull, Hpatch, Hout. rewrite Hfull, Hpatch. clear Hfull Hpatch.
  assert (forall n, n ∈ peers -> exists sn, state !! mn_id n = Some sn /\ ms_node sn = n /\ delta n = peer_delta last options ff fo fi sn n) as Hstate.
  { intros n Hn. pose proof (peer_state_lookup inp peers n Hnd Hn) as E. fold state in E. exists (map_state_node inp n (records_by_id (mi_snapshot inp) !! mn_id n)). unfold delta. by rewrite E. }
  assert (forall n p, sent_patch (delta n) = Some p -> pc_node_id p = mn_id n) as Hid.
  { intros n p. unfold delta. destruct (state !! mn_id n) as [sn|]; [|done]. pose proof (peer_delta_cases last options ff fo fi sn n) as Hcase.
    destruct (peer_delta _ _ _ _ _ _ _) as [|q|q|]; cbn [sent_patch]; [done| | |done]; intros [= <-].
    - by destruct Hcase as [-> _].
    - destruct Hcase as (previous & q0 & _ & Hq & Heq). apply patch_fields in Hq as [Hq _]. by destruct Heq as [-> | ->]. }
  destruct (apply_deltas delta peers (drop_peers gone shown) Hnd Hid) as [Hafter_out Hafter]. intros id.
  assert (id ∈ gone <-> is_Some (last !! id) /\ id ∉ mn_id <$> peers) as Hgone.
  { unfold gone. rewrite elements_difference, elem_of_dom. unfold state. by rewrite peer_state_dom. }
  destruct (decide (id ∈ mn_id <$> peers)) as [(n & -> & Hn)%list_elem_of_fmap|Hid_out].
  - destruct (Hpeers n Hn) as [Hnok Hentry]. destruct (Hstate n Hn) as (sn & Hsn & Enode & Ed). rewrite (Hafter n Hn).
    assert (mn_id n ∉ gone) as Hng by (rewrite Hgone; intros [_ []]; by apply list_elem_of_fmap_2). rewrite drop_peers_lookup, bool_decide_false by done.
    pose proof (delta_agrees inp st options ff fo fi sn n (shown !! mn_id n) Hnok Hless Hentry (Hagree (mn_id n))) as Hd. fold last in Hd. rewrite <-Ed in Hd.
    assert (recorded (delta n) = false -> da_next acc !! mn_id n = base !! mn_id n) as Hkeep.
    { intros Hrec. rewrite Hout, drop_peers_lookup, bool_decide_false; [done..|]. intros (n' & E & Hn')%list_elem_of_fmap. rewrite list_elem_of_In, filter_In, <-list_elem_of_In in Hn'.
      destruct Hn' as [Hn' Hf]. by rewrite (same_id peers n n' Hnd Hn Hn' E), Hf in Hrec. }
    pose proof (Hin n Hn) as Hrecorded. rewrite Hsn in Hrecorded. unfold base in Hkeep.
    destruct (delta n) as [|p|p|].
    + rewrite Hkeep by done. destruct Hd as [[ids ->]|Hd]; [apply (Hagree (mn_id n))|]. destruct fi; [apply (Hagree (mn_id n))|]. rewrite Hsn. cbn. by rewrite Enode.
    + rewrite Hkeep by done. destruct fi; [apply Hd|]. rewrite Hsn. cbn. rewrite Enode. apply Hd.
    + rewrite Hrecorded by done. cbn. by rewrite Enode.
    + rewrite Hrecorded by done. cbn. rewrite Enode. by constructor.
  - rewrite Hafter_out by done. rewrite Hout by (intros Hx; apply Hid_out; eapply elem_of_sublist; [exact Hx|apply fmap_sublist, filter_sublist]).
    rewrite !drop_peers_lookup. case_bool_decide as Hg; [constructor|]. specialize (Hagree id). fold last in Hagree.
    assert (last !! id = None) as El. { destruct (last !! id) eqn:El; [|done]. destruct Hg. apply Hgone. by split; [eexists|]. }
    assert (base !! id = None) as ->; [|by rewrite El in Hagree].
    unfold base. destruct fi; [done|]. apply not_elem_of_dom. unfold state. by rewrite peer_state_dom.
Qed.

(** *** Streams *)

(** The client shows what the stream remembers. *)
Definition view_agrees (v : ClientView) (st : StreamState) : Prop :=
  peers_agree (cv_peers v) (ss_peers st) /\ cv_self v = ms_node <$> ss_self st /\ cv_ssh v = nsp_policy <$> ss_ssh st.

Lemma receive_app v a b : receive v (a ++ b) = receive (receive v a) b.
Proof. apply fold_left_app. Qed.

Lemma receive_removals removed v : receive v (build_peer_removal_chunk removed) = mkClient (drop_peers removed (cv_peers v)) (cv_self v) (cv_ssh v).
Proof. destruct v. by destruct removed. Qed.

Lemma self_node_delta_spec rs current last : rs_node rs = None \/ rs_node rs = ms_node <$> current ->
  exists node, (self_node_delta rs current last).1 = with_node rs node /\
  match node with Some n => Some n | None => ms_node <$> last end = ms_node <$> (self_node_delta rs current last).2.
Proof.
  intros Hrs. unfold self_node_delta. destruct (rs_node rs) as [n|] eqn:En.
  - destruct current as [c|]; [|by destruct Hrs]. destruct Hrs as [|[= ->]]; [done|]. destruct (match last with Some _ => _ | None => _ end); cbn [fst snd].
    + by exists None.
    + exists (Some (ms_node c)). split; [rewrite <-En; by destruct rs|done].
  - exists None. split; [rewrite <-En; by destruct rs|done].
Qed.

Lemma ssh_policy_delta_spec current last : match ssh_policy_delta current last with Some p => Some p | None => nsp_policy <$> last end =
  nsp_policy <$> (if is_Some_b (ssh_policy_delta current last) then current else last).
Proof. unfold ssh_policy_delta. destruct current as [c|]; [|done]. by case_bool_decide. Qed.

(** An incremental update keeps the client and the stream in agreement. *)
Lemma delta_chunk_agrees inp st options ff fo fi frames st' v : inputs_ok inp = true -> lossless inp st = true -> view_agrees v st ->
  rebuild_peer_delta_chunk inp st options ff fo fi = Some (Some (frames, st')) -> view_agrees (receive v frames) st'.
Proof.
  intros Hok Hless (Hpeers & Hself & Hssh). unfold rebuild_peer_delta_chunk. destruct (negb (mi_present inp)); [intros [= <- <-]; done|]. cbn zeta.
  destruct (self_node inp) as [own|]; cbn [mbind option_bind]; [|done]. set (current := self_state inp <$> own). set (allowed := allowed_ids _ inp st).
  destruct (visible_peers inp allowed) as [peers|] eqn:Evis; cbn [mbind option_bind]; [|done].
  destruct (peer_changes inp st options ff fo fi peers) as [removed acc] eqn:Ech. pose proof (peer_changes_agree inp st options ff fo fi allowed peers removed acc (cv_peers v) Hok Hless Evis Ech Hpeers) as Hnext.
  destruct (negb _ && negb _ && negb _ && _); [done|]. set (pure := _ && _ && _). set (policy := bool_decide _). set (dns := include_dns_config _ || _). set (self := include_self_node _ || _).
  set (ssh := if pure then None else Some (mi_ssh inp)). set (rs := delta_frame _ _ _ _ _ _ _). set (first := if policy && dns then _ else ([], ss_self st)).
  assert (exists n1, receive v first.1 = mkClient (cv_peers v) n1 (cv_ssh v) /\ n1 = ms_node <$> first.2) as (n1 & Hfirst & Hn1).
  { unfold first. destruct (policy && dns); [|exists (cv_self v); split; [by destruct v|done]].
    destruct (self_node_delta_spec (dns_frame inp current) current (ss_self st)) as (node & Hrs & Hnode); [by right|].
    destruct (self_node_delta (dns_frame inp current) current (ss_self st)) as [rs' next]. cbn [fst snd] in *. subst rs'. eexists. split; [done|]. cbn. by rewrite Hself. }
  destruct first as [f1 self1]. cbn [fst snd] in Hfirst, Hn1.
  destruct (self_node_delta_spec rs current self1) as (node & Hrs & Hnode); [unfold rs, delta_frame; cbn [rs_node]; destruct self; auto|].
  destruct (self_node_delta rs current self1) as [rs3 self2]. cbn [fst snd] in Hrs, Hnode. subst rs3. intros Hc.
  apply (f_equal (fun o => match o with Some (Some c) => c | _ => (frames, st') end)) in Hc. cbn beta iota in Hc.
  pose proof (f_equal fst Hc) as Hf. pose proof (f_equal snd Hc) as Hs. cbn [fst snd] in Hf, Hs. subst frames st'. clear Hc.
  rewrite !receive_app, Hfirst, receive_removals. cbn [cv_peers cv_self cv_ssh]. unfold receive. cbn [fold_left]. unfold rs, delta_frame. destruct (split_peer_removals options).
  all: split; [exact Hnext|]; cbn -[ssh_policy_delta]; (split; [by rewrite <-Hnode, Hn1|]); rewrite Hssh; apply ssh_policy_delta_spec.
Qed.

Lemma put_peers_agree inp allowed peers : inputs_ok inp = true -> visible_peers inp allowed = Some peers -> peers_agree (put_peers peers ∅) (peer_state_from_nodes inp peers).
Proof.
  intros Hok Hvis id. destruct (visible_peers_ok inp allowed peers Hok Hvis) as [Hnd _]. destruct (decide (id ∈ mn_id <$> peers)) as [(n & -> & Hn)%list_elem_of_fmap|Hout].
  - rewrite put_peers_in, peer_state_lookup by done. by constructor.
  - rewrite put_peers_out by done. assert (peer_state_from_nodes inp peers !! id = None) as -> by (apply not_elem_of_dom; by rewrite peer_state_dom). constructor.
Qed.

(** A full map, before or after the removals. *)
Lemma full_map_agrees inp allowed peers removed shown : inputs_ok inp = true -> visible_peers inp allowed = Some peers ->
  (forall id, id ∈ removed -> id ∉ dom (peer_state_from_nodes inp peers)) -> (forall id, is_Some (shown !! id) -> id ∉ dom (peer_state_from_nodes inp peers) -> id ∈ removed) ->
  let replace m := match peers with [] => m | _ => put_peers peers ∅ end in
  peers_agree (replace (drop_peers removed shown)) (peer_state_from_nodes inp peers) /\ peers_agree (drop_peers removed (replace shown)) (peer_state_from_nodes inp peers).
Proof.
  intros Hok Hvis Hrem Hall replace. pose proof (put_peers_agree inp allowed peers Hok Hvis) as Hput.
  assert (peers = [] -> peers_agree (drop_peers removed shown) (peer_state_from_nodes inp peers)) as Hempty.
  { intros -> id. rewrite drop_peers_lookup. case_bool_decide as Hin; [constructor|]. destruct (shown !! id) as [n|] eqn:E; [|constructor].
    destruct Hin. apply Hall; [by eexists|]. rewrite peer_state_dom. cbn. set_solver. }
  unfold replace. destruct peers as [|n peers]; [split; by apply Hempty|]. split; [done|]. intros id. rewrite drop_peers_lookup. case_bool_decide as Hin; [|apply Hput].
  apply Hrem, not_elem_of_dom in Hin. rewrite Hin. constructor.
Qed.

Lemma agree_dom shown remembered id : peers_agree shown remembered -> is_Some (shown !! id) <-> id ∈ dom remembered.
Proof. intros Hagree. rewrite elem_of_dom. specialize (Hagree id). destruct (shown !! id), (remembered !! id); inversion Hagree; split; intros [? ?]; try done; by eexists. Qed.

(** A full rebuild keeps the client and the stream in agreement, and shows the client
    every peer of the view. *)
Lemma full_chunk_agrees inp st frames st' v : inputs_ok inp = true -> view_agrees v st -> rebuild_map_chunk inp st = Some (frames, st') -> view_agrees (receive v frames) st'.
Proof.
  intros Hok (Hpeers & Hself & Hssh). unfold rebuild_map_chunk. destruct (negb (mi_present inp)); [intros [= <- <-]; done|]. cbn zeta.
  destruct (self_node inp) as [[own|]|]; cbn [mbind option_bind]; [|intros [= <- <-]; done|done]. set (allowed := allowed_ids _ inp st).
  destruct (visible_peers inp allowed) as [peers|] eqn:Evis; cbn [mbind option_bind]; [|done]. set (removed := elements _). set (rs := full_response _ _ _ _ _ _).
  destruct (full_map_agrees inp allowed peers removed (cv_peers v) Hok Evis) as [Hfull _].
  { intros id. unfold removed. rewrite elements_difference. by intros [_ ?]. }
  { intros id Hid Hout. unfold removed. rewrite elements_difference. split; [by apply (agree_dom _ _ id Hpeers)|done]. }
  destruct (self_node_delta_spec rs (Some (self_state inp own)) (ss_self st)) as (node & Hrs & Hnode); [by right|].
  destruct (self_node_delta rs _ _) as [rs3 self2]. cbn [fst snd] in Hrs, Hnode. subst rs3. intros Hc.
  apply (f_equal (fun o => match o with Some c => c | _ => (frames, st') end)) in Hc. cbn beta iota in Hc.
  pose proof (f_equal fst Hc) as Hf. pose proof (f_equal snd Hc) as Hs. cbn [fst snd] in Hf, Hs. subst frames st'. clear Hc.
  rewrite receive_app, receive_removals. unfold receive. cbn [fold_left]. unfold rs, full_response.
  split; [clear -Hfull; destruct peers; exact Hfull|]; cbn -[ssh_policy_delta]; split; [by rewrite Hself, <-Hnode|]; rewrite Hssh; apply ssh_policy_delta_spec.
Qed.

Lemma batch_chunk_agrees inp st changes frames st' v : inputs_ok inp = true -> lossless inp st = true -> view_agrees v st ->
  rebuild_map_batch_chunk inp st changes = Some (Some (frames, st')) -> view_agrees (receive v frames) st'.
Proof.
  intros Hok Hless Hv. unfold rebuild_map_batch_chunk. destruct (is_nil _); [done|]. destruct (forallb _ _); [done|].
  destruct (map_batch_requires_full_response _); [|by apply delta_chunk_agrees]. destruct (rebuild_map_chunk inp st) as [c|] eqn:E; [|done].
  cbn. intros [= ->]. by apply (full_chunk_agrees inp st).
Qed.

Lemma stream_step_agrees inp event st frames st' v : inputs_ok inp = true -> lossless inp st = true -> view_agrees v st ->
  stream_step inp event st = Some (Some (frames, st')) -> view_agrees (receive v frames) st'.
Proof.
  intros Hok Hless Hv. assert (forall c, Some <$> rebuild_map_chunk inp st = Some (Some c) -> rebuild_map_chunk inp st = Some c) as Hfull by (intros c; by destruct (rebuild_map_chunk inp st) as [?|]; [intros [= ->]|]).
  assert (view_agrees (mkClient (cv_peers v) (cv_self v) (cv_ssh v)) st) as Hv' by (by destruct v).
  destruct event as [changes| |changes| | | |request|]; cbn [stream_step].
  - by apply batch_chunk_agrees.
  - intros E%Hfull. by apply (full_chunk_agrees inp st).
  - destruct (mi_batcher inp); [done|]. destruct (rebuild_map_batch_chunk inp st changes) as [[c|]|] eqn:E; [| |done]; [intros [= ->]; by apply (batch_chunk_agrees inp st changes)|]. by apply delta_chunk_agrees.
  - destruct (mi_batcher inp); [done|]. by apply delta_chunk_agrees.
  - intros E%Hfull. by apply (full_chunk_agrees inp st).
  - unfold build_derp_map_chunk. destruct (negb _); intros [= <- <-]; done.
  - intros [= <- <-]. done.
  - intros [= <- <-]. done.
Qed.

Lemma initial_chunk_agrees inp ping delivered frames st v : inputs_ok inp = true -> (forall id, is_Some (cv_peers v !! id) -> id ∈ delivered) ->
  initial_chunk inp ping delivered = Some (Some (frames, st)) -> view_agrees (receive v frames) st.
Proof.
  intros Hok Hdel. unfold initial_chunk. cbn zeta. destruct (self_node inp) as [[own|]|]; cbn [mbind option_bind]; [|done..]. set (allowed := allowed_ids _ inp _).
  destruct (visible_peers inp allowed) as [peers|] eqn:Evis; cbn [mbind option_bind]; [|done]. set (removed := elements _). intros [= <- <-].
  destruct (full_map_agrees inp allowed peers removed (cv_peers v) Hok Evis) as [_ Hfull].
  { intros id. unfold removed. rewrite elements_difference. by intros [_ ?]. }
  { intros id Hid Hout. unfold removed. rewrite elements_difference. split; [by apply Hdel|done]. }
  change (receive v (?f :: ?r)) with (receive (apply_frame v f) r). rewrite receive_removals. split; [clear -Hfull; destruct peers; exact Hfull|done].
Qed.

(** A stream over a sequence of wakes, each with what it reads. *)
Fixpoint stream_run (steps : list (MapInputs * StreamEvent)) (st : StreamState) : option (list MapResponse * StreamState) :=
  match steps with
  | [] => Some ([], st)
  | (inp, event) :: rest =>
      match stream_step inp event st with
      | None => None
      | Some None => stream_run rest st
      | Some (Some (frames, st')) => match stream_run rest st' with Some (more, last) => Some (frames ++ more, last) | None => None end
      end
  end.

Fixpoint steps_ok (steps : list (MapInputs * StreamEvent)) (st : StreamState) : bool :=
  match steps with
  | [] => true
  | (inp, event) :: rest =>
      inputs_ok inp && lossless inp st &&
      match stream_step inp event st with
      | None => true
      | Some None => steps_ok rest st
      | Some (Some (_, st')) => steps_ok rest st'
      end
  end.

Lemma stream_run_agrees steps : forall st frames st' v, steps_ok steps st = true -> view_agrees v st -> stream_run steps st = Some (frames, st') -> view_agrees (receive v frames) st'.
Proof.
  induction steps as [|[inp event] steps IH]; intros st frames st' v; cbn [stream_run steps_ok]; [intros _ Hv [= <- <-]; done|].
  rewrite !andb_true_iff. intros [[Hok Hless] Hrest] Hv. destruct (stream_step inp event st) as [[[fs st1]|]|] eqn:E; [| |done].
  - destruct (stream_run steps st1) as [[gs st2]|] eqn:Er; [|done]. intros [= <- <-]. rewrite receive_app. apply (IH st1); [done| |done]. by apply (stream_step_agrees inp event st).
  - by apply IH.
Qed.


(** *** Refreshes *)

(** Without a scope, what is remembered is the whole view. *)
Lemma unscoped_next inp st options ff fo allowed peers removed acc : inputs_ok inp = true -> visible_peers inp allowed = Some peers ->
  peer_changes inp st options ff fo None peers = (removed, acc) -> da_next acc = peer_state_from_nodes inp peers.
Proof.
  intros Hok Hvis. destruct (visible_peers_ok inp allowed peers Hok Hvis) as [Hnd _]. unfold peer_changes. cbn zeta. set (state := peer_state_from_nodes inp peers).
  set (delta := fun peer : MapNode => match state !! mn_id peer with Some _ => _ | None => _ end). set (gone := elements _). change (fold_left (fun m id => delete id m) gone state) with (drop_peers gone state).
  intros Hc. apply (f_equal snd) in Hc. cbn [snd] in Hc. subst acc.
  destruct (delta_fold delta state peers (mkDeltaAcc (drop_peers gone state) [] [])) as (_ & _ & Hout & Hin). set (acc := fold_left _ peers _) in *. cbn [da_next] in Hout.
  apply map_eq. intros id. destruct (decide (id ∈ mn_id <$> List.filter (fun n => recorded (delta n)) peers)) as [(n & -> & Hn)%list_elem_of_fmap|Hid].
  - rewrite list_elem_of_In, filter_In, <-list_elem_of_In in Hn. destruct Hn as [Hn Hrec]. apply Hin; [done..|]. unfold state. by rewrite (peer_state_lookup inp peers n Hnd Hn).
  - rewrite Hout by done. rewrite drop_peers_lookup. case_bool_decide as Hg; [|done]. unfold gone in Hg. rewrite elements_difference in Hg. symmetry. by apply not_elem_of_dom, Hg.
Qed.

(** The node itself as it is now, up to what [self_nodes_equal] does not compare. *)
Definition self_current (own : option MapNode) (inp : MapInputs) (last : option MapStateNode) : Prop :=
  forall n, own = Some n -> last = Some (self_state inp n) \/ exists p, last = Some p /\ self_nodes_equal p (self_state inp n) = true.

Lemma self_node_delta_current rs own inp last : rs_node rs <> None \/ self_current own inp last ->
  self_current own inp (self_node_delta rs (self_state inp <$> own) last).2.
Proof.
  intros Hrs n ->. cbn [fmap option_fmap option_map]. unfold self_node_delta. destruct (rs_node rs) as [m|].
  - destruct last as [p|]; [|by left]. destruct (self_nodes_equal p _) eqn:E; [right; by exists p|by left].
  - destruct Hrs as [|Hcur]; [done|]. by apply Hcur.
Qed.

Lemma unchanged_self_current own inp last : self_node_changed (self_state inp <$> own) last = false -> self_current own inp last.
Proof. intros Hch n ->. cbn in Hch. destruct last as [p|]; [|done]. apply negb_false_iff in Hch. right. by exists p. Qed.

(** An unscoped update leaves the stream remembering the whole view. *)
Lemma unscoped_delta_current inp st options ff fo outcome : inputs_ok inp = true -> mi_present inp = true ->
  rebuild_peer_delta_chunk inp st options ff fo None = Some outcome ->
  exists own peers, self_node inp = Some own /\ visible_peers inp (allowed_ids (use_incremental_empty_acl_semantics options) inp st) = Some peers /\
  match outcome with
  | Some (_, st') => ss_peers st' = peer_state_from_nodes inp peers /\ self_current own inp (ss_self st')
  | None => exists acc, peer_changes inp st options ff fo None peers = ([], acc) /\ da_full acc = [] /\ da_patches acc = [] /\ self_current own inp (ss_self st)
  end.
Proof.
  intros Hok Hpres. unfold rebuild_peer_delta_chunk. rewrite Hpres. cbn [negb]. cbn zeta. destruct (self_node inp) as [own|]; cbn [mbind option_bind]; [|done]. set (allowed := allowed_ids _ inp st).
  destruct (visible_peers inp allowed) as [peers|] eqn:Evis; cbn [mbind option_bind]; [|done]. destruct (peer_changes inp st options ff fo None peers) as [removed acc] eqn:Ech.
  set (policy := bool_decide _). set (dns := include_dns_config _ || _). set (self := include_self_node _ || _).
  pose proof (unscoped_next inp st options ff fo allowed peers removed acc Hok Evis Ech) as Hnext. set (current := self_state inp <$> own) in *.
  assert (self = false -> self_current own inp (ss_self st)) as Hself by (intros Hs; apply unchanged_self_current; unfold self in Hs; by apply orb_false_iff in Hs as [_ Hs]).
  destruct (negb policy && negb dns && negb self && _) eqn:Equiet.
  - intros Ho. apply (f_equal (fun o => match o with Some x => x | None => outcome end)) in Ho. cbn beta iota in Ho. subst outcome. exists own, peers. split_and!; [done..|]. exists acc.
    rewrite !andb_true_iff, !negb_true_iff in Equiet. destruct Equiet as [[_ Hs] [[Hf Hr] Hp]]. destruct removed, (da_full acc), (da_patches acc); try done. split_and!; auto.
  - set (pure := _ && _ && _). set (rs := delta_frame _ _ _ _ _ _ _). set (first := if policy && dns then _ else ([], ss_self st)).
    assert (self_current own inp first.2 \/ (first.2 = ss_self st /\ rs_node rs <> None) \/ own = None) as Hfirst.
    { unfold first. destruct (policy && dns).
      - destruct own as [n|]; [left|by right; right]. assert (self_current (Some n) inp (self_node_delta (dns_frame inp current) current (ss_self st)).2) as Hc by (apply self_node_delta_current; by left).
        by destruct (self_node_delta (dns_frame inp current) current (ss_self st)).
      - cbn [snd]. destruct self eqn:Es; [right|left; by apply Hself]. destruct own as [n|]; [left|by right]. done. }
    destruct first as [f1 self1]. cbn [snd] in Hfirst. assert (self_current own inp (self_node_delta rs current self1).2) as Hlast.
    { apply self_node_delta_current. destruct Hfirst as [Hf|[[-> Hn]| ->]]; [by right|by left|right; by intros n]. }
    destruct (self_node_delta rs current self1) as [rs3 self2]. intros Ho. apply (f_equal (fun o => match o with Some x => x | None => outcome end)) in Ho. cbn beta iota in Ho. subst outcome.
    exists own, peers. done.
Qed.

(** The wakes that refresh a stream's whole view, and whether peers shown before stay. *)
Definition refreshes (inp : MapInputs) (event : StreamEvent) : option bool :=
  match event with
  | BatchLagged | DnsChanged => Some false
  | PolicyChanged => if mi_batcher inp then None else Some false
  | RegistryChanged [] => if mi_batcher inp then None else Some true
  | _ => None
  end.

(** The client shows the view as it is now. *)
Definition up_to_date (inp : MapInputs) (allowed : option (gset Z)) (own : MapNode) (v : ClientView) : Prop :=
  exists peers, visible_peers inp allowed = Some peers /\ peers_agree (cv_peers v) (peer_state_from_nodes inp peers) /\
  exists shown, cv_self v = Some (ms_node shown) /\ (shown = self_state inp own \/ self_nodes_equal shown (self_state inp own) = true).

Definition after (v : ClientView) (outcome : option (list MapResponse * StreamState)) : ClientView := match outcome with Some (frames, _) => receive v frames | None => v end.

Lemma self_current_shown own inp last v : self_current (Some own) inp last -> cv_self v = ms_node <$> last ->
  exists shown, cv_self v = Some (ms_node shown) /\ (shown = self_state inp own \/ self_nodes_equal shown (self_state inp own) = true).
Proof. intros Hcur Hv. destruct (Hcur own eq_refl) as [-> |(p & -> & Hp)]; eexists; (split; [exact Hv|]); auto. Qed.

Lemma delta_refresh inp st options ff fo outcome own v : inputs_ok inp = true -> lossless inp st = true -> mi_present inp = true -> self_node inp = Some (Some own) -> view_agrees v st ->
  rebuild_peer_delta_chunk inp st options ff fo None = Some outcome -> up_to_date inp (allowed_ids (use_incremental_empty_acl_semantics options) inp st) own (after v outcome).
Proof.
  intros Hok Hless Hpres Hown Hv Hstep. destruct (unscoped_delta_current inp st options ff fo outcome Hok Hpres Hstep) as (own' & peers & E & Hvis & Hout).
  rewrite Hown in E. injection E as <-. exists peers. split; [done|]. destruct outcome as [[frames st']|]; cbn [after].
  - destruct Hout as [<- Hself]. pose proof (delta_chunk_agrees inp st options ff fo None frames st' v Hok Hless Hv Hstep) as (Hp & Hs & _). split; [done|]. by eapply self_current_shown.
  - destruct Hout as (acc & Hch & Hf & Hpt & Hself). destruct Hv as (Hp & Hs & _). split; [|by eapply self_current_shown].
    pose proof (peer_changes_agree inp st options ff fo None _ peers [] acc (cv_peers v) Hok Hless Hvis Hch Hp) as Hnext. rewrite Hf, Hpt in Hnext.
    by rewrite (unscoped_next inp st options ff fo _ peers [] acc Hok Hvis Hch) in Hnext.
Qed.

Lemma full_refresh inp st c own v : inputs_ok inp = true -> mi_present inp = true -> self_node inp = Some (Some own) -> view_agrees v st ->
  rebuild_map_chunk inp st = Some c -> up_to_date inp (allowed_ids false inp st) own (after v (Some c)).
Proof.
  intros Hok Hpres Hown Hv Hstep. destruct c as [frames st']. pose proof (full_chunk_agrees inp st frames st' v Hok Hv Hstep) as (Hp & Hs & _). cbn [after].
  unfold rebuild_map_chunk in Hstep. rewrite Hpres, Hown in Hstep. cbn [negb mbind option_bind] in Hstep. cbn zeta in Hstep.
  destruct (visible_peers inp (allowed_ids false inp st)) as [peers|] eqn:Evis; cbn [mbind option_bind] in Hstep; [|done]. exists peers. split; [done|].
  set (rs := full_response _ _ _ _ _ _) in Hstep. assert (self_current (Some own) inp (self_node_delta rs (Some (self_state inp own)) (ss_self st)).2) as Hcur.
  { apply (self_node_delta_current rs (Some own)). by left. }
  destruct (self_node_delta rs _ _) as [rs3 self2]. apply (f_equal (fun o => match o with Some x => snd x | None => st' end)) in Hstep. cbn [snd] in Hstep. subst st'.
  split; [done|]. by eapply self_current_shown.
Qed.

(** A change of the policy or of the DNS settings, a batch the stream missed, and a
    change of the registry of which no details are left bring the client up to date
    (where changes do not come in batches): it shows exactly the peers its view now holds, each as it is now, and of itself what is
    current.  This holds also when nothing is sent. *)
Theorem refresh_is_current inp event incremental st outcome own v :
  refreshes inp event = Some incremental -> stream_step inp event st = Some outcome -> inputs_ok inp = true -> lossless inp st = true -> mi_present inp = true ->
  self_node inp = Some (Some own) -> view_agrees v st -> up_to_date inp (allowed_ids incremental inp st) own (after v outcome).
Proof.
  intros Href Hstep Hok Hless Hpres Hown Hv.
  assert (Some <$> rebuild_map_chunk inp st = Some outcome -> up_to_date inp (allowed_ids false inp st) own (after v outcome)) as Hfull.
  { destruct (rebuild_map_chunk inp st) as [c|] eqn:E; [|done]. intros [= <-]. by apply full_refresh. }
  destruct event as [changes| |[|change changes]| | | |request|]; try done; cbn [refreshes stream_step] in Href, Hstep; try (destruct (mi_batcher inp); [done|]); injection Href as <-.
  - by apply Hfull.
  - by apply (delta_refresh inp st registry_change ∅ ∅).
  - by apply (delta_refresh inp st policy_change ∅ ∅).
  - by apply Hfull.
Qed.

End delta.

Module DeltaExamples.

Import ViewExamples.

#[export] Instance plain_wire : WireTypes :=
  {| RawHostinfo := HostInfo; DnsConfig := Z; PacketFilters := Z; DerpMap := Z; SshPolicy := Z; PingRequest := Z; ssh_policy_eq_dec := Z.eq_dec |}.

#[export] Instance plain_values : HostValues :=
  {| projection_value h := h; raw_peer_hostinfo_equal := peer_hostinfo_equal; raw_node_hostinfo_equal a b := bool_decide (a = b) |}.

(** What the laptop's stream reads: no policy is loaded. *)
Definition open_policy : PolicyStore := mkPolicyStore (fun _ _ => None) None (fun _ _ _ _ _ => None) (fun _ _ _ _ => None) (fun _ _ => []) (fun _ routes => routes).

Definition inputs (now : Z) (policy : PolicyStore) (snapshot : gmap string (@MachineRecord HostInfo)) (ssh : Z) : MapInputs :=
  mkInputs true false now snapshot "aa" "net.example" primaries {[ 1 := true; 2 := true ]} policy 113 true false true host_info_for_node 7 8 (mkNativeSsh ssh []) 9.

Definition first_inputs : MapInputs := inputs 1000 open_policy snapshot 50.

Definition opened := default None (initial_chunk first_inputs None {[ 2; 9 ]}).
Definition opened_frames : list MapResponse := default [] (fst <$> opened).
Definition opened_state : StreamState := default (mkStream None ∅ ∅ None) (snd <$> opened).

(** The phone gets endpoints and another DERP region, the router goes away. *)
Definition moved : gmap string (@MachineRecord HostInfo) := {[ "aa"%string := laptop; "cc"%string := machine 3 0x64400003 "cc" "phone" [] ["5.6.7.8:1"%string] 4 310 ]}.

Definition steps : list (MapInputs * StreamEvent) :=
  [(inputs 1100 open_policy moved 50, RegistryChanged []); (inputs 1100 open_policy moved 50, KeepaliveDue); (inputs 1200 laptop_policy moved 51, PolicyChanged)].

Definition ran := stream_run steps opened_state.
Definition ran_frames : list MapResponse := default [] (fst <$> ran).
Definition ran_state : StreamState := default (mkStream None ∅ ∅ None) (snd <$> ran).

Definition shape (rs : MapResponse) := (mn_id <$> rs_peers rs, mn_id <$> rs_peers_changed rs, rs_peers_removed rs, (fun p => (pc_node_id p, pc_derp_region p, pc_endpoints p)) <$> rs_peers_changed_patch rs, rs_ssh_policy rs).

(** The router is removed and the phone patched; the policy then hides the phone. *)
Example stream_frames : map shape (opened_frames ++ ran_frames) =
  [([2; 3], [], [], [], Some 50); ([], [], [9], [], None); ([], [], [2], [(3, 4, ["5.6.7.8:1"%string])], None); ([], [], [], [], None); ([], [], [3], [], None); ([], [], [], [], Some 51)].
Proof. vm_compute. reflexivity. Qed.

(** The router's endpoints go away: the patch has none, so the client keeps the old. *)
Definition router_gone_quiet : gmap string (@MachineRecord HostInfo) := {[ "aa"%string := laptop; "bb"%string := machine 2 0x64400002 "bb" "router" ["10.0.0.0/8"%string] [] 1 200 ]}.

Example endpoints_stay :
  let before := peer_entry first_inputs ("bb"%string, router) in
  let now := default None (head <$> visible_peers (inputs 1000 open_policy router_gone_quiet 50) None) in
  match before, now with
  | Some p, Some n => (pc_endpoints <$> peer_patch_if_only_patchable_fields_changed p n, lossy_patch p n, mn_endpoints n) = (Some [], true, [])
  | _, _ => False
  end.
Proof. vm_compute. reflexivity. Qed.

Lemma patch_exact_witness : exists previous current p, peer_entry first_inputs ("cc"%string, phone) = Some previous /\
  peer_entry (inputs 1100 open_policy moved 50) ("cc"%string, machine 3 0x64400003 "cc" "phone" [] ["5.6.7.8:1"%string] 4 310) = Some current /\
  peer_patch_if_only_patchable_fields_changed previous current = Some p /\ (same_peer (apply_patch (wire_patch p) previous) current <-> lossy_patch previous current = false).
Proof.
  eexists _, _, _. split; [vm_compute; reflexivity|]. split; [vm_compute; reflexivity|]. split; [vm_compute; reflexivity|].
  apply patch_exact; [vm_compute; reflexivity| |reflexivity]. repeat split; vm_compute; discriminate.
Defined.

Lemma opened_says : initial_chunk first_inputs None {[ 2; 9 ]} = Some (Some (opened_frames, opened_state)).
Proof. vm_compute. reflexivity. Qed.


Lemma opened_agrees : view_agrees (receive no_view opened_frames) opened_state.
Proof.
  apply (initial_chunk_agrees first_inputs None {[ 2; 9 ]}); [vm_compute; reflexivity| |apply opened_says].
  intros id [n Hn]. unfold no_view in Hn. cbn [cv_peers] in Hn. by rewrite lookup_empty in Hn.
Qed.

Definition own_now : option MapNode := default None (self_node (inputs 1200 laptop_policy moved 51)).

Lemma refresh_is_current_witness : exists own outcome, stream_step (inputs 1200 laptop_policy moved 51) PolicyChanged opened_state = Some outcome /\
  up_to_date (inputs 1200 laptop_policy moved 51) (allowed_ids false (inputs 1200 laptop_policy moved 51) opened_state) own (after (receive no_view opened_frames) outcome).
Proof.
  destruct own_now as [own|] eqn:Eown; [|vm_compute in Eown; discriminate Eown].
  destruct (stream_step (inputs 1200 laptop_policy moved 51) PolicyChanged opened_state) as [outcome|] eqn:Estep; [|vm_compute in Estep; discriminate Estep].
  exists own, outcome. split; [reflexivity|]. apply (refresh_is_current _ PolicyChanged false opened_state outcome own); [reflexivity|exact Estep|vm_compute; reflexivity|vm_compute; reflexivity|reflexivity| |apply opened_agrees].
  rewrite <-Eown. vm_compute. reflexivity.
Defined.

End DeltaExamples.
