(* ===== verification/MapRequest.v ===== *)
(** * MapRequest: what a node reports of itself
    (headscale-api/src/tailscale_wire/{map,mod,wire}.rs)

    A map request carries what a client says of itself: its disco key, its endpoints and
    its Hostinfo.  [map_request_update] is the part of [map_inner] that computes the
    changed record and whether peers are told; [map_runtime_update] is the write that
    merges it into a record that may have changed meanwhile.

    The approvals of the policy are the function [approves]; the retained Hostinfo
    values are compared as in [MapDelta].  Persisting the record is left out. *)

From stdpp Require Import base list gmap strings sets.
From Stdlib Require Import ZArith Lia.
From S2P Require Import Prelude Bytes Net GoNetip PrimaryRoutes GivenName MapChange MapBatcher Registry NodeStore NodeUpdates Sessions MapNodes MapView MapDelta.

Open Scope Z_scope.

(** How whole retained values compare and what a value without NetInfo takes over. *)
Class HostUpdates `{HostValues} := {
  raw_map_hostinfo_equal : RawHostinfo -> RawHostinfo -> bool;
  raw_is_null : RawHostinfo -> bool;
  raw_carry_netinfo : RawHostinfo -> RawHostinfo -> RawHostinfo;
}.

(** ** Comparisons *)

Definition endpoints_equal (previous current : list string) : bool :=
  (length previous =? length current)%nat && bool_decide (sort_by str_cmp previous = sort_by str_cmp current).

Definition endpoint_broadcast_worthy (previous current : list string) (types : list Z) : bool :=
  match previous with
  | [] => negb (is_nil current)
  | _ => existsb (fun '(i, e) => negb (bool_decide (e ∈ previous)) && negb (let t := default 0 (types !! i) in (t =? 2) || (t =? 4))) (imap pair current)
  end.

Section request.
Context `{HostUpdates} `{NetipText}.

Notation MachineRecord := (@MachineRecord HostInfo).
Notation Records := (gmap string MachineRecord).
Notation BoolUpdate := (@Update HostInfo NodeStoreBoolUpdateOutcome).

Definition host_info_for_map_update (current requested : HostInfo) : HostInfo :=
  match hi_net_info requested with None => with_net_info requested (hi_net_info current) | Some _ => requested end.

Definition hostinfo_preferred_derp (h : HostInfo) : Z := match hi_net_info h with Some n => preferred_derp n | None => 0 end.

(** ** What a request asks for *)

Record MapRequest := mkMapRequest {
  rq_disco_key : option string;
  rq_endpoints : option (list string);
  rq_endpoint_types : list Z;
  rq_hostinfo : option HostInfo;
}.

(** The errors a request is answered with. *)
Inductive MapUpdateError := InvalidRoutableIps (e : netip_error) | MissingHostinfoValue | InvalidApprovedRoutes (e : string).

Record MapUpdate := mkMapUpdate {
  mu_own : MachineRecord;
  mu_record_changed : bool;
  mu_reason : option MapChangeReason;
  mu_dns_metadata_changed : bool;
  mu_refresh_policy_inputs : bool;
  mu_hostinfo : option RawHostinfo;
}.

Definition replace_host_info (r : MachineRecord) (h : HostInfo) : MachineRecord :=
  let re := mr_reported r in
  mkRecord (mr_node_id r) (mr_node_key_hex r) (mr_machine_key_hex r) (mr_owner r) (mr_hostname r) (mr_ipv4 r) (mr_ipv6 r) (mr_expiry r) (mr_last_seen r) (mr_ephemeral r)
    (mr_forced_tags r) (hi_routable_ips h) (mr_approved_routes r)
    (mkReported (re_auth_key_id re) (if bool_decide (hi_hostname h = ""%string) then re_raw_hostname re else hi_hostname h) (hi_os h) (hi_os_version h) h (re_disco_key re)
       (re_endpoints re) (hostinfo_preferred_derp h) (re_created_at re) (hi_ssh_host_keys h) (re_register_method re)).

Definition with_disco_endpoints (r : MachineRecord) (disco : option string) (endpoints : list string) : MachineRecord :=
  let re := mr_reported r in
  mkRecord (mr_node_id r) (mr_node_key_hex r) (mr_machine_key_hex r) (mr_owner r) (mr_hostname r) (mr_ipv4 r) (mr_ipv6 r) (mr_expiry r) (mr_last_seen r) (mr_ephemeral r)
    (mr_forced_tags r) (mr_available_routes r) (mr_approved_routes r)
    (mkReported (re_auth_key_id re) (re_raw_hostname re) (re_os re) (re_os_version re) (re_host_info re) disco endpoints (re_home_derp re) (re_created_at re) (re_ssh_host_keys re) (re_register_method re)).

Definition with_approved (r : MachineRecord) (approved : list string) : MachineRecord :=
  mkRecord (mr_node_id r) (mr_node_key_hex r) (mr_machine_key_hex r) (mr_owner r) (mr_hostname r) (mr_ipv4 r) (mr_ipv6 r) (mr_expiry r) (mr_last_seen r) (mr_ephemeral r)
    (mr_forced_tags r) (mr_available_routes r) approved (mr_reported r).

Definition disco_of (key : option string) : string := default ZERO_DISCO_KEY key.

Definition requested_disco (req : MapRequest) : string :=
  match rq_disco_key req with Some k => if bool_decide (k = ""%string) then ZERO_DISCO_KEY else k | None => ZERO_DISCO_KEY end.

(** The disco key and the endpoints. *)
Definition update_disco (req : MapRequest) (u : MapUpdate) : MapUpdate :=
  let own := mu_own u in
  if bool_decide (disco_of (re_disco_key (mr_reported own)) = requested_disco req) then u
  else mkMapUpdate (with_disco_endpoints own (Some (requested_disco req)) (re_endpoints (mr_reported own))) true (Some NodeKeyRotated) (mu_dns_metadata_changed u) (mu_refresh_policy_inputs u) (mu_hostinfo u).

Definition update_endpoints (req : MapRequest) (u : MapUpdate) : MapUpdate :=
  let own := mu_own u in
  match rq_endpoints req with
  | None => u
  | Some endpoints =>
      if endpoints_equal (re_endpoints (mr_reported own)) endpoints then u
      else mkMapUpdate (with_disco_endpoints own (re_disco_key (mr_reported own)) endpoints) true
             (if endpoint_broadcast_worthy (re_endpoints (mr_reported own)) endpoints (rq_endpoint_types req) && bool_decide (mu_reason u = None) then Some EndpointDerpUpdate else mu_reason u)
             (mu_dns_metadata_changed u) (mu_refresh_policy_inputs u) (mu_hostinfo u)
  end.

Definition announced_route (route : string) : result string netip_error := if bool_decide (route = ""%string) then Ok ""%string else parse_prefix_text route.

Definition collect_routes (routes : list string) : result (list string) netip_error :=
  foldr (fun route acc => let? p := announced_route route in let? ps := acc in Ok (p :: ps)) (Ok []) routes.

(** The routes the policy approves at once. *)
Definition update_approved (approves : string -> bool -> bool) (announced : list string) (u : MapUpdate) : result MapUpdate string :=
  let own := mu_own u in
  let? approved := auto_approved_routes_for_node approves (negb (is_nil (address_strings own))) (mr_approved_routes own) announced in
  Ok (if bool_decide (mr_approved_routes own = approved) then u
      else mkMapUpdate (with_approved own approved) true (Some PolicyChange) (mu_dns_metadata_changed u) true (mu_hostinfo u)).

Definition update_hostinfo (approves : string -> bool -> bool) (previous_native : RawHostinfo) (requested_native : option RawHostinfo) (requested : HostInfo) (u : MapUpdate)
    : result MapUpdate MapUpdateError :=
  let own := mu_own u in
  let? announced := map_err InvalidRoutableIps (collect_routes (hi_routable_ips requested)) in
  let previous := host_info_for_node own in
  match requested_native with
  | None => Err MissingHostinfoValue
  | Some value =>
      let next_native := raw_carry_netinfo previous_native value in
      let h := host_info_for_map_update previous requested in
      let h := mkHostInfo (hi_hostname h) (hi_os h) (hi_os_version h) announced (hi_ssh_host_keys h) (hi_services h) (hi_location h) (hi_app_connector h) (hi_net_info h) (hi_rest h) in
      let hostinfo_changed := negb (raw_map_hostinfo_equal previous_native next_native) in
      let derp_changed := negb (hostinfo_preferred_derp previous =? hostinfo_preferred_derp h) in
      let routes_changed := negb (endpoints_equal (mr_available_routes own) announced) in
      let peer_changed := negb (raw_peer_hostinfo_equal previous_native next_native) in
      let u := mkMapUpdate own (mu_record_changed u) (mu_reason u) (mu_dns_metadata_changed u) (peer_changed || routes_changed) (mu_hostinfo u) in
      let? u := if hostinfo_changed && negb (is_nil announced) && (routes_changed || is_nil (mr_approved_routes own)) then map_err InvalidApprovedRoutes (update_approved approves announced u) else Ok u in
      Ok (if hostinfo_changed || derp_changed
          then mkMapUpdate (replace_host_info (mu_own u) h) true
                 (if bool_decide (mu_reason u = Some PolicyChange) then mu_reason u
                  else if peer_changed || (derp_changed && (hostinfo_preferred_derp h =? 0)) then Some NodeUpdated
                  else if derp_changed && negb (bool_decide (mu_reason u = Some NodeKeyRotated)) then Some EndpointDerpUpdate
                  else mu_reason u)
                 (raw_is_null previous_native || negb (bool_decide (hi_hostname previous = hi_hostname h)) || negb (bool_decide (hi_os previous = hi_os h)))
                 (mu_refresh_policy_inputs u) (Some next_native)
          else u)
  end.

Definition map_request_update (approves : string -> bool -> bool) (previous_native : RawHostinfo) (requested_native : option RawHostinfo) (req : MapRequest) (own : MachineRecord)
    : result MapUpdate MapUpdateError :=
  let u := update_endpoints req (update_disco req (mkMapUpdate own false None false false None)) in
  match rq_hostinfo req with
  | None => Ok u
  | Some requested => update_hostinfo approves previous_native requested_native requested u
  end.

(** ** The write *)

Definition policy_identity_without_routes_changed (before after : MachineRecord) : bool :=
  negb (bool_decide (ow_user_id (mr_owner before) = ow_user_id (mr_owner after))) ||
  (bool_decide (ow_user_id (mr_owner before) = None) && bool_decide (ow_user_id (mr_owner after) = None) && negb (bool_decide (ow_user (mr_owner before) = ow_user (mr_owner after)))) ||
  negb (bool_decide (mr_ipv4 before = mr_ipv4 after)) || negb (bool_decide (mr_ipv6 before = mr_ipv6 after)) || negb (bool_decide (mr_forced_tags before = mr_forced_tags after)).

Definition same_node (current before : MachineRecord) : bool :=
  bool_decide (mr_machine_key_hex current = mr_machine_key_hex before) &&
  match mr_node_id current, mr_node_id before with Some a, Some b => a =? b | _, _ => true end.

Definition names_of (records : Records) : gmap string chars := (fun r => to_chars (mr_hostname r)) <$> records.

(** The name after the write: a name derived from the client's follows it, any other
    stays. *)
Definition merged_hostname (records : Records) (key : string) (before proposed current : MachineRecord) (raw : string) : string :=
  let current_raw := re_raw_hostname (mr_reported current) in
  if bool_decide (mr_hostname current = mr_hostname before) && bool_decide (current_raw = re_raw_hostname (mr_reported before)) then
    if negb (bool_decide (raw = current_raw)) && negb (bool_decide (raw = ""%string)) && is_auto_derived_given_name (to_chars (mr_hostname current)) (to_chars current_raw)
    then match resolve_auto_given_name_from_snapshot (names_of records) key None (to_chars raw) with Some name => of_chars name | None => mr_hostname proposed end
    else mr_hostname proposed
  else mr_hostname current.

Definition merged_record (records : Records) (key : string) (before proposed current : MachineRecord) : MachineRecord :=
  let rp := mr_reported proposed in
  let rc := mr_reported current in
  let raw := if bool_decide (re_raw_hostname rc = re_raw_hostname (mr_reported before)) then re_raw_hostname rp else re_raw_hostname rc in
  mkRecord (match mr_node_id current with Some n => Some n | None => mr_node_id proposed end) (mr_node_key_hex current) (mr_machine_key_hex current) (mr_owner current)
    (merged_hostname records key before proposed current raw) (mr_ipv4 current) (mr_ipv6 current) (mr_expiry current) (Z.max (mr_last_seen current) (mr_last_seen proposed)) (mr_ephemeral current)
    (mr_forced_tags current) (mr_available_routes proposed)
    (if negb (policy_identity_without_routes_changed current before) && bool_decide (mr_approved_routes current = mr_approved_routes before) then mr_approved_routes proposed else mr_approved_routes current)
    (mkReported (re_auth_key_id rc) raw (re_os rp) (re_os_version rp) (host_info_for_node proposed) (re_disco_key rp) (re_endpoints rp) (re_home_derp rp) (re_created_at rc) (re_ssh_host_keys rp)
       (re_register_method rc)).

Definition client_state_changed (replaces_hostinfo : bool) (current next : MachineRecord) : bool :=
  let rc := mr_reported current in
  let rn := mr_reported next in
  replaces_hostinfo || negb (bool_decide (re_disco_key rc = re_disco_key rn)) || negb (bool_decide (re_endpoints rc = re_endpoints rn)) ||
  negb (bool_decide (host_info_for_node current = host_info_for_node next)) || negb (bool_decide (mr_hostname current = mr_hostname next)) ||
  negb (bool_decide (re_raw_hostname rc = re_raw_hostname rn)) || negb (bool_decide (mr_available_routes current = mr_available_routes next)) ||
  negb (bool_decide (mr_approved_routes current = mr_approved_routes next)) || negb (bool_decide (re_ssh_host_keys rc = re_ssh_host_keys rn)) ||
  negb (bool_decide (mr_node_id current = mr_node_id next)).

(** The retained Hostinfo value goes to a side table that is not modelled. *)
Definition map_runtime_update (before proposed : MachineRecord) (reason : option MapChangeReason) (replaces_hostinfo : bool) : option (string * BoolUpdate) :=
  let key := mr_node_key_hex before in
  if negb (bool_decide (mr_node_key_hex proposed = key)) then None
  else Some (key, fun records t =>
    match records !! key with
    | None => (records, t, unchanged false, Nothing)
    | Some current =>
        if negb (same_node current before) then (records, t, unchanged false, Nothing)
        else
          let next := merged_record records key before proposed current in
          let changed := client_state_changed replaces_hostinfo current next in
          let n := stable_node_id_for_key key next in
          (<[key := next]> records, t,
           mkBoolOutcome true (changed || negb (mr_last_seen current =? mr_last_seen next)) (if changed then (fun r => pending_origin r n) <$> reason else None)
             (if is_nil (active_approved_routes (mr_available_routes next) (mr_approved_routes next)) then Some n else None) None, Nothing)
    end).

Definition apply_map_runtime_update (attrs : list Z) (before proposed : MachineRecord) (reason : option MapChangeReason) (replaces_hostinfo : bool) (g : @MachineRegistry HostInfo)
    : option MachineRecord * @MachineRegistry HostInfo :=
  match map_runtime_update before proposed reason replaces_hostinfo with
  | None => (None, g)
  | Some (key, update) =>
      let '(outcome, _, g) := apply_nodestore_bool_update attrs update g in
      (if bo_applied outcome then rg_records g !! key else None, g)
  end.

(** ** Merging *)


(** ** Announcing *)

(** STUN endpoints, and those of the node's own STUN cache. *)
Definition is_stun (types : list Z) (i : nat) : bool := let t := default 0 (types !! i) in (t =? 2) || (t =? 4).

Lemma not_worthy previous current types : endpoint_broadcast_worthy previous current types = false ->
  (previous = [] -> current = []) /\ forall i e, current !! i = Some e -> e ∉ previous -> is_stun types i = true.
Proof.
  unfold endpoint_broadcast_worthy. destruct previous as [|p previous].
  - destruct current; [|done]. intros _. split; [done|]. intros i e Hi. by rewrite lookup_nil in Hi.
  - intros Hw. split; [done|]. intros i e Hi Hnew. apply not_true_iff_false in Hw. destruct (is_stun types i) eqn:Es; [done|]. destruct Hw. apply existsb_exists. exists (i, e). split.
    + apply list_elem_of_In, list_elem_of_lookup. exists i. by rewrite list_lookup_imap, Hi.
    + rewrite bool_decide_false by done. cbn [negb andb]. by apply negb_true_iff.
Qed.

(** What a request without Hostinfo leaves of a record. *)
Lemma simple_updates req own u : u = update_endpoints req (update_disco req (mkMapUpdate own false None false false None)) ->
  mu_hostinfo u = None /\ mu_reason u <> Some PolicyChange /\ (mu_record_changed u = false -> mu_own u = own /\ mu_reason u = None) /\
  (mu_reason u <> Some NodeKeyRotated -> disco_of (re_disco_key (mr_reported (mu_own u))) = disco_of (re_disco_key (mr_reported own))) /\
  (mu_reason u = None -> endpoint_broadcast_worthy (re_endpoints (mr_reported own)) (re_endpoints (mr_reported (mu_own u))) (rq_endpoint_types req) = false \/ mu_own u = own) /\
  mu_own u = with_disco_endpoints own (re_disco_key (mr_reported (mu_own u))) (re_endpoints (mr_reported (mu_own u))).
Proof.
  intros ->. unfold update_disco. cbn [mu_own mu_dns_metadata_changed mu_refresh_policy_inputs mu_hostinfo].
  assert (own = with_disco_endpoints own (re_disco_key (mr_reported own)) (re_endpoints (mr_reported own))) as Hown by (by destruct own as [???????????? ? []]).
  destruct (bool_decide_reflect (disco_of (re_disco_key (mr_reported own)) = requested_disco req)) as [Ed|Hd]; unfold update_endpoints;
    cbn [mu_own mu_dns_metadata_changed mu_refresh_policy_inputs mu_hostinfo mu_reason mu_record_changed mr_reported with_disco_endpoints re_endpoints re_disco_key].
  - destruct (rq_endpoints req) as [endpoints|]; [|by split_and!; auto]. destruct (endpoints_equal _ _); [by split_and!; auto|].
    cbn [mu_own mu_hostinfo mu_reason mu_record_changed mr_reported with_disco_endpoints re_endpoints re_disco_key]. destruct (endpoint_broadcast_worthy _ _ _) eqn:Ew; by split_and!; auto.
  - destruct (rq_endpoints req) as [endpoints|]; [destruct (endpoints_equal _ _)|]; cbn [mu_own mu_hostinfo mu_reason mu_record_changed mr_reported with_disco_endpoints re_endpoints re_disco_key];
      rewrite ?(bool_decide_false (Some NodeKeyRotated = None)), ?andb_false_r by done; split_and!; done.
Qed.

Lemma preferred_derp_of_node (r : MachineRecord) : hostinfo_preferred_derp (host_info_for_node r) = re_home_derp (mr_reported r).
Proof. unfold hostinfo_preferred_derp, host_info_for_node. cbn [hi_net_info]. destruct (hi_net_info _); [done|]. destruct (Z.eqb_spec (re_home_derp (mr_reported r)) 0); cbn; congruence. Qed.

Lemma update_approved_spec approves announced u u' : update_approved approves announced u = Ok u' -> u' = u \/ (mu_reason u' = Some PolicyChange /\ mu_record_changed u' = true).
Proof. unfold update_approved. rewrite result_bind_Ok. intros (approved & _ & [= <-]). case_bool_decide; [by left|by right]. Qed.

(** What a map request changes without announcing it, peers need not know: the disco
    key, DERP region and approved routes are the same, the Hostinfo is the same in all
    that peers read, no endpoints were gained but STUN ones, and none was gained from
    none.  A request that says nothing new leaves the record as it was. *)
Theorem unannounced_change_hidden approves previous_native requested_native req (own : MachineRecord) u :
  map_request_update approves previous_native requested_native req own = Ok u ->
  (mu_record_changed u = false -> mu_own u = own /\ mu_reason u = None) /\
  (mu_reason u = None ->
     disco_of (re_disco_key (mr_reported (mu_own u))) = disco_of (re_disco_key (mr_reported own)) /\ re_home_derp (mr_reported (mu_own u)) = re_home_derp (mr_reported own) /\
     mr_approved_routes (mu_own u) = mr_approved_routes own /\
     (re_endpoints (mr_reported own) = [] -> re_endpoints (mr_reported (mu_own u)) = []) /\
     (forall i e, re_endpoints (mr_reported (mu_own u)) !! i = Some e -> e ∉ re_endpoints (mr_reported own) -> is_stun (rq_endpoint_types req) i = true) /\
     match mu_hostinfo u with
     | Some next => raw_peer_hostinfo_equal previous_native next = true
     | None => host_info_for_node (mu_own u) = host_info_for_node own
     end).
Proof.
  unfold map_request_update. set (u0 := update_endpoints _ _). destruct (simple_updates req own u0 eq_refl) as (Hh0 & Hp0 & Hsame & Hdisco & Hend & Hown). clearbody u0.
  assert (mu_reason u0 = None -> (re_endpoints (mr_reported own) = [] -> re_endpoints (mr_reported (mu_own u0)) = []) /\
    forall i e, re_endpoints (mr_reported (mu_own u0)) !! i = Some e -> e ∉ re_endpoints (mr_reported own) -> is_stun (rq_endpoint_types req) i = true) as Hstun.
  { intros [Hw| ->]%Hend; [by apply not_worthy|]. split; [done|]. intros i e Hi Hnew. destruct Hnew. by eapply list_elem_of_lookup_2. }
  assert (re_home_derp (mr_reported (mu_own u0)) = re_home_derp (mr_reported own) /\ mr_approved_routes (mu_own u0) = mr_approved_routes own /\ host_info_for_node (mu_own u0) = host_info_for_node own)
    as (Hderp & Happ & Hhost) by (rewrite Hown; done).
  destruct (rq_hostinfo req) as [requested|]; [|intros [= <-]; split; [done|]; intros Hr; rewrite Hh0, Hr in *; destruct (Hstun eq_refl); split_and!; auto].
  unfold update_hostinfo. destruct (collect_routes _) as [announced|]; cbn [map_err result_bind]; [|done]. destruct requested_native as [value|]; [|done]. cbn zeta.
  set (next := raw_carry_netinfo _ _). set (h := mkHostInfo _ _ _ _ _ _ _ _ _ _). set (changed := negb (raw_map_hostinfo_equal _ _)). set (peer := negb (raw_peer_hostinfo_equal _ _)).
  set (derp := negb (_ =? _)). set (u1 := mkMapUpdate _ _ _ _ _ _). set (approving := _ && _ && _).
  rewrite result_bind_Ok. intros (u2 & Hu2 & Hu). assert (u2 = u1 \/ (mu_reason u2 = Some PolicyChange /\ mu_record_changed u2 = true)) as Hcase.
  { destruct approving; [|injection Hu2 as <-; by left]. destruct (update_approved approves announced u1) as [x|] eqn:Ea; [|done]. injection Hu2 as <-. by eapply update_approved_spec. }
  clear Hu2 approving. apply (f_equal (fun o => match o with Ok x => x | Err _ => u end)) in Hu. cbn beta iota in Hu. subst u. destruct (changed || derp).
  - cbn [mu_record_changed mu_reason mu_own mu_hostinfo]. split; [done|]. intros Hr. destruct Hcase as [-> |[Hpol _]]; [|by rewrite Hpol in Hr].
    rewrite bool_decide_false in Hr by done. cbn [u1 mu_reason mu_own] in Hr |- *. destruct peer eqn:Ep; [done|]. cbn [orb] in Hr. destruct derp eqn:Ed.
    + destruct (_ && _); [done|]. destruct (bool_decide_reflect (mu_reason u0 = Some NodeKeyRotated)) as [E|E]; [by rewrite E in Hr|done].
    + cbn [andb] in Hr. rewrite Hr in *. destruct (Hstun eq_refl). apply negb_false_iff, Z.eqb_eq in Ed. apply negb_false_iff in Ep.
      cbn [replace_host_info mr_reported re_disco_key re_home_derp mr_approved_routes re_endpoints]. rewrite <-Ed, preferred_derp_of_node. split_and!; auto.
  - split; [intros Hc; destruct Hcase as [-> |[_ Hrec]]; [by apply Hsame|by rewrite Hrec in Hc]|]. intros Hr. destruct Hcase as [-> |[Hpol _]]; [|by rewrite Hpol in Hr].
    cbn [u1 mu_reason mu_own mu_hostinfo] in Hr |- *. rewrite Hh0, Hr in *. destruct (Hstun eq_refl). split_and!; auto.
Qed.

End request.

Module RequestExamples.

Import ViewExamples DeltaExamples.

#[export] Instance plain_updates : HostUpdates :=
  {| raw_map_hostinfo_equal a b := bool_decide (a = b); raw_is_null _ := false;
     raw_carry_netinfo previous value := match hi_net_info value with None => with_net_info value (hi_net_info previous) | Some _ => value end |}.

Definition request (endpoints : list string) (types : list Z) : MapRequest := mkMapRequest (Some "discokey:ab"%string) (Some endpoints) types (Some (host "laptop")).

Definition laptop_value : @RawHostinfo plain_wire := host_info_for_node laptop.
Definition reported_value : @RawHostinfo plain_wire := host "laptop".

(** A STUN endpoint is stored quietly, a local one is announced. *)
Example stun_is_quiet :
  let outcome types := match map_request_update (fun _ _ => false) laptop_value (Some reported_value) (request ["1.2.3.4:1"; "9.9.9.9:1"]%string types) laptop with
                       | Ok u => (mu_record_changed u, mu_reason u)
                       | Err _ => (false, None)
                       end in
  outcome [0; 2] = (true, None) /\ outcome [0; 1] = (true, Some EndpointDerpUpdate).
Proof. split; vm_compute; reflexivity. Qed.

(** While a request of the laptop was handled, an admin renamed it and tagged it. *)
Definition proposed := replace_host_info (with_disco_endpoints laptop (Some "discokey:cd"%string) ["7.7.7.7:1"%string]) (host "laptop-new").

Definition renamed : @MachineRecord HostInfo :=
  mkRecord (mr_node_id laptop) (mr_node_key_hex laptop) (mr_machine_key_hex laptop) (mr_owner laptop) "bastion" (mr_ipv4 laptop) (mr_ipv6 laptop) (mr_expiry laptop) 150 (mr_ephemeral laptop)
    ["tag:prod"%string] (mr_available_routes laptop) (mr_approved_routes laptop) (mr_reported laptop).

Definition tables : Tables := rg_tables (registry_start snapshot None PrimaryRouteState_new None).

Definition update_of := default ("", fun records t => (records, t, unchanged false, Nothing))%string (map_runtime_update laptop proposed (Some NodeUpdated) false).

Example rename_survives :
  (fun r => (mr_hostname r, mr_forced_tags r, re_endpoints (mr_reported r), mr_last_seen r)) <$>
    ((update_of.2 (<["aa"%string := renamed]> snapshot) tables).1.1.1 !! "aa"%string) =
  Some ("bastion"%string, ["tag:prod"%string], ["7.7.7.7:1"%string], 150).
Proof. vm_compute. reflexivity. Qed.


Definition quiet_update := map_request_update (fun _ _ => false) laptop_value (Some reported_value) (request ["1.2.3.4:1"; "9.9.9.9:1"]%string [0; 2]) laptop.

Lemma quiet_update_reason : match quiet_update with Ok u => mu_reason u | Err _ => Some FullUpdate end = None.
Proof. vm_compute. reflexivity. Qed.

Lemma unannounced_change_hidden_witness : exists u, quiet_update = Ok u /\ mu_reason u = None /\ mr_approved_routes (mu_own u) = mr_approved_routes laptop.
Proof.
  pose proof quiet_update_reason as Hr. destruct quiet_update as [u|e] eqn:E; [|discriminate Hr]. exists u. split; [reflexivity|]. split; [exact Hr|].
  exact (proj1 (proj2 (proj2 (proj2 (unannounced_change_hidden _ _ _ _ laptop u E) Hr)))).
Defined.

End RequestExamples.
