(* ===== verification/ControlBase.v ===== *)
(** * ControlBase: the encrypted byte stream under the control protocol
    (headscale-api/src/tailscale_wire/{controlbase,be_transport}.rs)

    A client's connection is upgraded to messages with a type and a length; after the
    Noise handshake the messages are records, each sealed under the next counter, and a
    stream of plaintext runs over them.  [NoiseStream] and [BeNoiseStream] are the same
    state machine over two transports: here one [NoiseStream] over the class
    [Transport], of which [BeTransport] is an instance and the crate snow another.

    A socket is a script of what its polls return; a poll beyond the script is pending.
    ChaCha20Poly1305 is the class [Aead].  A buffer with its fill mark is the bytes that
    are filled. *)

From stdpp Require Import base list.
From Stdlib Require Import ZArith Lia.
From S2P Require Import Prelude Bytes.

Open Scope Z_scope.

(** ** Messages *)

Inductive MsgType := Initiation | Reply | ErrorMsg | RecordMsg.

#[export] Instance MsgType_eq_dec : EqDecision MsgType.
Proof. solve_decision. Defined.

Definition msg_byte (t : MsgType) : Z := match t with Initiation => 1 | Reply => 2 | ErrorMsg => 3 | RecordMsg => 4 end.

Inductive IoError := UnexpectedEof | InvalidData | InvalidInput | WriteZero | OtherError | SocketError.

Definition from_u8 (b : Z) : result MsgType IoError :=
  if b =? 1 then Ok Initiation else if b =? 2 then Ok Reply else if b =? 3 then Ok ErrorMsg else if b =? 4 then Ok RecordMsg else Err InvalidData.

Inductive FrameHeader := Regular (msg_type : MsgType) (len : Z) | InitiationHeader (protocol_version len : Z).

Definition read_exact (n : nat) (input : list Z) : result (list Z * list Z) IoError :=
  if (length input <? n)%nat then Err UnexpectedEof else Ok (take n input, drop n input).

Definition read_frame (input : list Z) : result (FrameHeader * list Z * list Z) IoError :=
  let? '(first, input) := read_exact 1 input in
  if byte_at first 0 =? 0 then
    let? '(rest, input) := read_exact 4 input in
    let proto := from_be_bytes [byte_at first 0; byte_at rest 0] in
    if negb (byte_at rest 1 =? msg_byte Initiation) then Err InvalidData
    else
      let n := from_be_bytes [byte_at rest 2; byte_at rest 3] in
      let? '(body, input) := read_exact (Z.to_nat n) input in
      Ok (InitiationHeader proto n, body, input)
  else
    let? mt := from_u8 (byte_at first 0) in
    if bool_decide (mt = Initiation) then Err InvalidData
    else
      let? '(rest, input) := read_exact 2 input in
      let n := from_be_bytes [byte_at rest 0; byte_at rest 1] in
      let? '(body, input) := read_exact (Z.to_nat n) input in
      Ok (Regular mt n, body, input).

(** What a write puts on the wire. *)
Definition write_frame (t : MsgType) (body : list Z) : result (list Z) IoError :=
  if u_max 16 <? len body then Err InvalidInput
  else if bool_decide (t = Initiation) then Err InvalidInput
  else Ok (msg_byte t :: to_be_bytes 2 (len body) ++ body).

Definition write_initiation (protocol_version : Z) (body : list Z) : result (list Z) IoError :=
  if u_max 16 <? len body then Err InvalidInput
  else Ok (to_be_bytes 2 protocol_version ++ msg_byte Initiation :: to_be_bytes 2 (len body) ++ body).

Definition write_reply (body : list Z) : result (list Z) IoError := write_frame Reply body.

(** ** Sockets *)

Inductive PollRead := ReadPends | ReadFails | Arrives (l : list Z).
Inductive PollWrite := WritePends | WriteFails | Accepts (n : nat).

(** One read of at most [cap] bytes: what has arrived is taken in part or whole, and
    nothing arriving is the end. *)
Inductive Polled := PolledPending | PolledError | PolledBytes (l : list Z).

Definition poll_inner (cap : nat) (script : list PollRead) : Polled * list PollRead :=
  match script with
  | [] => (PolledPending, [])
  | ReadPends :: t => (PolledPending, t)
  | ReadFails :: t => (PolledError, t)
  | Arrives l :: t => (PolledBytes (take cap l), match drop cap l with [] => t | rest => Arrives rest :: t end)
  end.

(** ** Transports *)

Class Transport := {
  TransportState : Type;
  encrypt : TransportState -> list Z -> result (list Z * TransportState) IoError;
  decrypt : TransportState -> list Z -> result (list Z * TransportState) IoError;
  max_plaintext : nat;
  body_refused : Z -> bool;
}.

Section stream.
Context `{Transport}.

Inductive ReadState := Header (filled : list Z) | Body (size : nat) (filled : list Z) | ServingPlaintext (buf : list Z) (pos : nat) | Eof.
Inductive WriteState := Idle | Flushing (buf : list Z) (pos : nat).

Record NoiseStream := mkNoiseStream { ns_transport : TransportState; ns_read : ReadState; ns_write : WriteState }.

Definition NoiseStream_new (t : TransportState) : NoiseStream := mkNoiseStream t (Header []) Idle.

Inductive ReadPoll := ReadPending | ReadError (e : IoError) | ReadReady (l : list Z).
Inductive WritePoll := WritePending | WriteError (e : IoError) | WriteReady (n : nat).

(** *** Reading *)

(** A full header: the next state, or the error. *)
Definition header_done (buf : list Z) : result ReadState IoError :=
  if negb (byte_at buf 0 =? msg_byte RecordMsg) then Err InvalidData
  else
    let n := from_be_bytes [byte_at buf 1; byte_at buf 2] in
    if n =? 0 then Ok (Header [])
    else if body_refused n then Err InvalidData
    else Ok (Body (Z.to_nat n) []).

(** Handing out plaintext. *)
Definition serve (cap : nat) (buf : list Z) (pos : nat) : list Z * ReadState :=
  let n := Nat.min (length buf - pos) cap in
  if (n =? 0)%nat then ([], ServingPlaintext buf pos)
  else (take n (drop pos buf), if (pos + n =? length buf)%nat then Header [] else ServingPlaintext buf (pos + n)).

(** The loop of [poll_read]; [None] is the end of the fuel. *)
Fixpoint poll_read (fuel : nat) (cap : nat) (script : list PollRead) (t : TransportState) (s : ReadState) : option (ReadPoll * list PollRead * TransportState * ReadState) :=
  match fuel with
  | O => None
  | S fuel =>
      match s with
      | Eof => Some (ReadReady [], script, t, Eof)
      | ServingPlaintext buf pos => let '(l, s) := serve cap buf pos in Some (ReadReady l, script, t, s)
      | Header filled =>
          match poll_inner (3 - length filled) script with
          | (PolledPending, script) => Some (ReadPending, script, t, Header filled)
          | (PolledError, script) => Some (ReadError SocketError, script, t, Header filled)
          | (PolledBytes [], script) => if is_nil filled then Some (ReadReady [], script, t, Eof) else Some (ReadError UnexpectedEof, script, t, Header filled)
          | (PolledBytes l, script) =>
              let filled := filled ++ l in
              if (length filled <? 3)%nat then poll_read fuel cap script t (Header filled)
              else match header_done filled with
                   | Err e => Some (ReadError e, script, t, Header [])
                   | Ok s => poll_read fuel cap script t s
                   end
          end
      | Body size filled =>
          match poll_inner (size - length filled) script with
          | (PolledPending, script) => Some (ReadPending, script, t, Body size filled)
          | (PolledError, script) => Some (ReadError SocketError, script, t, Body size filled)
          | (PolledBytes [], script) => Some (ReadError UnexpectedEof, script, t, Body size filled)
          | (PolledBytes l, script) =>
              let filled := filled ++ l in
              if (length filled <? size)%nat then poll_read fuel cap script t (Body size filled)
              else match decrypt t filled with
                   | Err _ => Some (ReadError InvalidData, script, t, Header [])
                   | Ok (plaintext, t) => poll_read fuel cap script t (ServingPlaintext plaintext 0)
                   end
          end
      end
  end.

(** Every turn of the loop takes a byte or an event from the script. *)
Definition script_size (script : list PollRead) : nat := list_sum (map (fun p => match p with Arrives l => S (length l) | _ => 1%nat end) script).

Definition read (cap : nat) (script : list PollRead) (s : NoiseStream) : option (ReadPoll * list PollRead * NoiseStream) :=
  match poll_read (2 + script_size script) cap script (ns_transport s) (ns_read s) with
  | Some (r, script, t, rs) => Some (r, script, mkNoiseStream t rs (ns_write s))
  | None => None
  end.

(** *** Writing *)

(** The loop over [WriteState::Flushing]: how it ends, the bytes that went out. *)
Inductive Flushed := FlushDone | FlushStuck (r : WritePoll) (pos : nat).

Fixpoint flush_loop (script : list PollWrite) (buf : list Z) (pos : nat) : Flushed * list PollWrite * list Z :=
  match script with
  | [] => (FlushStuck WritePending pos, [], [])
  | WritePends :: rest => (FlushStuck WritePending pos, rest, [])
  | WriteFails :: rest => (FlushStuck (WriteError SocketError) pos, rest, [])
  | Accepts n :: rest =>
      let n := Nat.min n (length buf - pos) in
      if (n =? 0)%nat then (FlushStuck (WriteError WriteZero) pos, rest, [])
      else if (pos + n =? length buf)%nat then (FlushDone, rest, take n (drop pos buf))
      else let '(r, rest, out) := flush_loop rest buf (pos + n) in (r, rest, take n (drop pos buf) ++ out)
  end.

Definition record_bytes (ciphertext : list Z) : list Z := msg_byte RecordMsg :: to_be_bytes 2 (len ciphertext mod 2 ^ 16) ++ ciphertext.

Definition finish_write (taken : nat) (script : list PollWrite) (t : TransportState) (rs : ReadState) (buf : list Z) (pos : nat) : WritePoll * list PollWrite * list Z * NoiseStream :=
  let '(r, script, out) := flush_loop script buf pos in
  match r with
  | FlushDone => (WriteReady taken, script, out, mkNoiseStream t rs Idle)
  | FlushStuck r pos => (r, script, out, mkNoiseStream t rs (Flushing buf pos))
  end.

Definition poll_write (script : list PollWrite) (bytes : list Z) (s : NoiseStream) : WritePoll * list PollWrite * list Z * NoiseStream :=
  let taken := Nat.min (length bytes) max_plaintext in
  match ns_write s with
  | Flushing buf pos => finish_write taken script (ns_transport s) (ns_read s) buf pos
  | Idle =>
      if is_nil bytes then (WriteReady 0, script, [], s)
      else match encrypt (ns_transport s) (take taken bytes) with
           | Err e => (WriteError OtherError, script, [], s)
           | Ok (ciphertext, t) => finish_write taken script t (ns_read s) (record_bytes ciphertext) 0
           end
  end.

(** The inner flush and shutdown are the socket's. *)
Definition poll_flush (script : list PollWrite) (s : NoiseStream) : WritePoll * list PollWrite * list Z * NoiseStream :=
  match ns_write s with
  | Idle => (WriteReady 0, script, [], s)
  | Flushing buf pos => finish_write 0 script (ns_transport s) (ns_read s) buf pos
  end.

End stream.

(** ** The transport with big-endian counters *)

Definition TAG_LEN : nat := 16.
Definition MAX_MESSAGE_SIZE : nat := 4096.
Definition MAX_CIPHERTEXT_PER_RECORD : nat := MAX_MESSAGE_SIZE - 3.
Definition MAX_PLAINTEXT_PER_RECORD : nat := MAX_CIPHERTEXT_PER_RECORD - TAG_LEN.

Inductive BeTransportError := Decrypt | ShortCiphertext (got : nat) | TooLong (got : nat) | NonceExhausted.

Class Aead := {
  seal : forall (key nonce plaintext : list Z), option (list Z);
  open : forall (key nonce ciphertext : list Z), option (list Z);
}.

Definition nonce_be (counter : Z) : list Z := replicate 4 0 ++ to_be_bytes 8 counter.

Record BeTransport := mkBeTransport { bt_send_key : list Z; bt_recv_key : list Z; bt_send_counter : Z; bt_recv_counter : Z }.

Definition BeTransport_new (send_key recv_key : list Z) : BeTransport := mkBeTransport send_key recv_key 0 0.
Definition from_split_initiator (k1 k2 : list Z) : BeTransport := BeTransport_new k1 k2.
Definition from_split_responder (k1 k2 : list Z) : BeTransport := BeTransport_new k2 k1.

Section be_transport.
Context `{Aead}.

(** [None] is the assertion. *)
Definition be_encrypt (t : BeTransport) (plaintext : list Z) : option (result (list Z * BeTransport) BeTransportError) :=
  if (MAX_PLAINTEXT_PER_RECORD <? length plaintext)%nat then None
  else Some (
    match seal (bt_send_key t) (nonce_be (bt_send_counter t)) plaintext with
    | None => Err Decrypt
    | Some ct =>
        match checked_add 64 (bt_send_counter t) 1 with
        | None => Err NonceExhausted
        | Some n => Ok (ct, mkBeTransport (bt_send_key t) (bt_recv_key t) n (bt_recv_counter t))
        end
    end).

Definition be_decrypt (t : BeTransport) (ciphertext : list Z) : result (list Z * BeTransport) BeTransportError :=
  if (length ciphertext <? TAG_LEN)%nat then Err (ShortCiphertext (length ciphertext))
  else if (MAX_CIPHERTEXT_PER_RECORD <? length ciphertext)%nat then Err (TooLong (length ciphertext))
  else
    match open (bt_recv_key t) (nonce_be (bt_recv_counter t)) ciphertext with
    | None => Err Decrypt
    | Some pt =>
        match checked_add 64 (bt_recv_counter t) 1 with
        | None => Err NonceExhausted
        | Some n => Ok (pt, mkBeTransport (bt_send_key t) (bt_recv_key t) (bt_send_counter t) n)
        end
    end.

(** The stream never offers more than a record takes, so that the assertion holds. *)
#[export] Instance be_transport : Transport := {|
  TransportState := BeTransport;
  encrypt t m := match be_encrypt t m with Some (Ok r) => Ok r | _ => Err OtherError end;
  decrypt t c := map_err (fun _ => InvalidData) (be_decrypt t c);
  max_plaintext := MAX_PLAINTEXT_PER_RECORD;
  body_refused n := Z.of_nat MAX_CIPHERTEXT_PER_RECORD <? n;
|}.
End be_transport.

(** ** Frames are read back *)

Lemma read_exact_app a b n : length a = n -> read_exact n (a ++ b) = Ok (a, b).
Proof.
  intros <-. unfold read_exact. rewrite length_app. destruct (Nat.ltb_spec (length a + length b) (length a)); [lia|]. by rewrite take_app_length, drop_app_length.
Qed.

Lemma read_exact_cons a b : read_exact 1 (a :: b) = Ok ([a], b).
Proof. apply (read_exact_app [a]). done. Qed.

Lemma two_bytes v : exists a b, to_be_bytes 2 v = [a; b].
Proof. pose proof (length_to_be_bytes 2 v) as Hl. destruct (to_be_bytes 2 v) as [|a [|b [|]]]; try done. by exists a, b. Qed.

Lemma len_bytes2 (body : list Z) : len body <= u_max 16 -> from_be_bytes (to_be_bytes 2 (len body)) = len body.
Proof. intros Hl. apply from_to_be_bytes. pose proof (len_nonneg body). change (u_max 16) with 65535 in Hl. change (256 ^ Z.of_nat 2) with 65536. lia. Qed.

(** A message that is written is read back with its type and body, and the bytes
    after it are left: replies, errors and records for every body that fits, and
    initiations for every protocol version below 256. *)
Theorem frame_round_trip t version body bytes rest :
  (write_frame t body = Ok bytes -> read_frame (bytes ++ rest) = Ok (Regular t (len body), body, rest)) /\
  (0 <= version < 256 -> write_initiation version body = Ok bytes -> read_frame (bytes ++ rest) = Ok (InitiationHeader version (len body), body, rest)).
Proof.
  split.
  - unfold write_frame. destruct (Z.ltb_spec (u_max 16) (len body)) as [|Hl]; [done|]. case_bool_decide as Ht; [done|]. intros Hw. apply (f_equal (fun r => match r with Ok b => b | Err _ => bytes end)) in Hw. cbn beta iota in Hw. subst bytes.
    pose proof (len_bytes2 body Hl) as Hn. destruct (two_bytes (len body)) as (a & b & E). rewrite E in Hn |- *. unfold read_frame. rewrite <-app_comm_cons, read_exact_cons. cbn [result_bind byte_at nth].
    assert (from_u8 (msg_byte t) = Ok t /\ (msg_byte t =? 0) = false) as [-> ->] by (by destruct t). cbn [result_bind]. rewrite bool_decide_false by done.
    rewrite <-app_assoc. rewrite (read_exact_app [a; b]) by done. cbn [result_bind byte_at nth]. rewrite Hn, read_exact_app by (unfold len; lia). done.
  - intros Hv. unfold write_initiation. destruct (Z.ltb_spec (u_max 16) (len body)) as [|Hl]; [done|]. intros Hw. apply (f_equal (fun r => match r with Ok b => b | Err _ => bytes end)) in Hw. cbn beta iota in Hw. subst bytes.
    pose proof (len_bytes2 body Hl) as Hn. destruct (two_bytes (len body)) as (a & b & E). rewrite E in Hn |- *.
    assert (to_be_bytes 2 version = [0; version]) as ->. { change (to_be_bytes 2 version) with [(version / 256) mod 256; (version / 1) mod 256]. rewrite Z.div_1_r, (Z.div_small version 256), (Z.mod_small version 256) by lia. done. }
    unfold read_frame. cbn [app]. rewrite read_exact_cons. cbn [result_bind byte_at nth Z.eqb].
    rewrite (read_exact_app [version; 1; a; b] (body ++ rest)) by done. cbn [result_bind byte_at nth Z.eqb negb msg_byte Pos.eqb].
    assert (from_be_bytes [0; version] = version) as ->; [unfold from_be_bytes; cbn; lia|]. rewrite Hn, read_exact_app by (unfold len; lia). done.
Qed.

(** ** The stream is a pipe *)

(** What the streams rely on: [paired a b] if [b] opens what [a] seals next; sealing and
    opening do not disturb each other. *)
Class TransportLaws `{Transport} := {
  paired : TransportState -> TransportState -> Prop;
  encrypt_opens : forall a b m c a', paired a b -> m <> [] -> (length m <= max_plaintext)%nat -> encrypt a m = Ok (c, a') ->
    exists b', decrypt b c = Ok (m, b') /\ paired a' b';
  encrypt_size : forall a m c a', m <> [] -> (length m <= max_plaintext)%nat -> encrypt a m = Ok (c, a') -> 0 < len c < 2 ^ 16 /\ body_refused (len c) = false;
  paired_decrypt : forall a b c m a', paired a b -> decrypt a c = Ok (m, a') -> paired a' b;
  paired_encrypt : forall a b m c b', paired a b -> encrypt b m = Ok (c, b') -> paired a b';
  duplex : forall b x y b1 c m b', encrypt b x = Ok (y, b1) -> decrypt b c = Ok (m, b') -> exists b1', decrypt b1 c = Ok (m, b1') /\ encrypt b' x = Ok (y, b1');
  max_plaintext_pos : (0 < max_plaintext)%nat;
}.

Section pipe.
Context `{TransportLaws}.

(** [records b w data a]: a receiver with transport [b] that is fed the records [w]
    hands out [data], and its transport is then paired with [a]. *)
Inductive records : TransportState -> list Z -> list Z -> TransportState -> Prop :=
| records_nil a b : paired a b -> records b [] [] a
| records_cons a b c m b' w data : decrypt b c = Ok (m, b') -> m <> [] -> 0 < len c < 2 ^ 16 -> body_refused (len c) = false -> records b' w data a ->
    records b (record_bytes c ++ w) (m ++ data) a.

(** The same for a receiver within a record. *)
Definition flows (b : TransportState) (rs : ReadState) (w data : list Z) (a : TransportState) : Prop :=
  match rs with
  | Header filled => (length filled < 3)%nat /\ records b (filled ++ w) data a
  | Body size filled => exists c m b' rest data', length c = size /\ (length filled < size)%nat /\ filled ++ w = c ++ rest /\ decrypt b c = Ok (m, b') /\ m <> [] /\
      data = m ++ data' /\ records b' rest data' a
  | ServingPlaintext buf pos => (pos < length buf)%nat /\ exists data', data = drop pos buf ++ data' /\ records b w data' a
  | Eof => False
  end.

Lemma records_snoc b w data a m c a' : records b w data a -> m <> [] -> (length m <= max_plaintext)%nat -> encrypt a m = Ok (c, a') ->
  records b (w ++ record_bytes c) (data ++ m) a'.
Proof.
  intros Hr Hm Hl He. induction Hr as [a b Hp|a b c0 m0 b' w data Hd Hm0 Hc0 Hb0 Hr IH].
  - destruct (encrypt_opens a b m c a' Hp Hm Hl He) as (b' & Hd & Hp'). destruct (encrypt_size a m c a' Hm Hl He) as [Hs Hb].
    cbn [app]. rewrite <-(app_nil_r (record_bytes c)), <-(app_nil_r m). by apply (records_cons a' b c m b'); [..|apply records_nil].
  - rewrite <-!app_assoc. apply (records_cons a' b c0 m0 b'); auto.
Qed.

Lemma records_sender b w data a a' : (forall x, paired a x -> paired a' x) -> records b w data a -> records b w data a'.
Proof. intros Ha Hr. induction Hr; [constructor; auto|econstructor; eauto]. Qed.

Lemma records_receiver b w data a x y b1 : records b w data a -> encrypt b x = Ok (y, b1) -> records b1 w data a.
Proof.
  intros Hr. revert b1. induction Hr as [a b Hp|a b c m b' w data Hd Hm Hc Hb Hr IH]; intros b1 He; [constructor; by eapply paired_encrypt|].
  destruct (duplex b x y b1 c m b' He Hd) as (b1' & Hd' & He'). apply (records_cons a b1 c m b1'); auto.
Qed.

Lemma flows_snoc b rs w data a m c a' : flows b rs w data a -> m <> [] -> (length m <= max_plaintext)%nat -> encrypt a m = Ok (c, a') ->
  flows b rs (w ++ record_bytes c) (data ++ m) a'.
Proof.
  intros Hf Hm Hl He. destruct rs as [filled|size filled|buf pos|]; [| | |done].
  - destruct Hf as [Hlen Hr]. split; [done|]. rewrite app_assoc. by apply (records_snoc b _ _ a).
  - destruct Hf as (c0 & m0 & b' & rest & data' & Hc & Hlt & E & Hd & Hm0 & -> & Hr). exists c0, m0, b', (rest ++ record_bytes c), (data' ++ m).
    split_and!; [done..| |done|done|by rewrite app_assoc|by apply (records_snoc b' _ _ a)]. by rewrite !app_assoc, E.
  - destruct Hf as [Hp (data' & -> & Hr)]. split; [done|]. exists (data' ++ m). split; [by rewrite app_assoc|]. by apply (records_snoc b _ _ a).
Qed.

Lemma flows_sender b rs w data a a' : (forall x, paired a x -> paired a' x) -> flows b rs w data a -> flows b rs w data a'.
Proof. intros Ha. destruct rs; cbn; [|naive_solver eauto using records_sender..]. intros [? ?]. split; [done|]. by eapply records_sender. Qed.

Lemma flows_receiver b rs w data a x y b1 : flows b rs w data a -> encrypt b x = Ok (y, b1) -> flows b1 rs w data a.
Proof.
  intros Hf He. destruct rs as [filled|size filled|buf pos|]; [| | |done].
  - destruct Hf. split; [done|]. by eapply records_receiver.
  - destruct Hf as (c0 & m0 & b' & rest & data' & Hc & Hlt & E & Hd & Hm0 & -> & Hr). destruct (duplex b x y b1 c0 m0 b' He Hd) as (b1' & Hd' & He').
    exists c0, m0, b1', rest, data'. split_and!; try done. by eapply records_receiver.
  - destruct Hf as [Hp (data' & -> & Hr)]. split; [done|]. exists data'. split; [done|]. by eapply records_receiver.
Qed.

(** *** Reading *)

(** The bytes a script brings.  While the peer is there, every arrival has some. *)
Definition arrived (script : list PollRead) : list Z := flat_map (fun p => match p with Arrives l => l | _ => [] end) script.
Definition live (script : list PollRead) : Prop := Forall (fun p => p <> Arrives []) script.
Definition only_arrivals (script : list PollRead) : Prop := Forall (fun p => exists l, p = Arrives l) script.

Lemma script_size_arrives l script : script_size (Arrives l :: script) = (S (length l) + script_size script)%nat.
Proof. done. Qed.

Lemma poll_inner_spec cap script p script' : (0 < cap)%nat -> live script -> poll_inner cap script = (p, script') ->
  live script' /\ (only_arrivals script -> only_arrivals script') /\
  match p with
  | PolledPending => arrived script = arrived script' /\ (only_arrivals script -> script' = [])
  | PolledError => arrived script = arrived script' /\ ~ only_arrivals script
  | PolledBytes l => l <> [] /\ (length l <= cap)%nat /\ arrived script = l ++ arrived script' /\ (script_size script' < script_size script)%nat
  end.
Proof.
  intros Hcap Hlive. destruct script as [|[| |l] script]; cbn [poll_inner]; [intros [= <- <-]; done| | |]; apply Forall_cons in Hlive as [Hp Hlive].
  - intros [= <- <-]. split; [done|]. split; [by intros [_ ?]%Forall_cons|]. split; [done|]. by intros [[l E] _]%Forall_cons.
  - intros [= <- <-]. split; [done|]. split; [by intros [_ ?]%Forall_cons|]. split; [done|]. by intros [[l E] _]%Forall_cons.
  - intros [= <- <-]. assert (l <> []) as Hl by (intros ->; done). assert (take cap l <> []) as Ht by (destruct l, cap; done || lia).
    destruct (drop cap l) as [|x rest] eqn:Ed.
    + split; [done|]. split; [by intros [_ ?]%Forall_cons|]. assert (take cap l = l) as ->. { rewrite <-(take_drop cap l) at 2. by rewrite Ed, app_nil_r. }
      split_and!; [done| |done|rewrite script_size_arrives; lia]. assert (length (drop cap l) = 0%nat) as E by (by rewrite Ed). rewrite length_drop in E. lia.
    + split; [constructor; [intros [=]|done]|]. split; [intros [? ?]%Forall_cons; constructor; eauto|]. rewrite <-Ed.
      split_and!; [done|rewrite length_take; lia| |].
      * change (l ++ arrived script = take cap l ++ drop cap l ++ arrived script). by rewrite app_assoc, take_drop.
      * rewrite !script_size_arrives, length_drop. destruct l; [done|]. cbn [length]. lia.
Qed.

Lemma record_split c w filled v : length filled = 3%nat -> 0 < len c < 2 ^ 16 -> record_bytes c ++ w = filled ++ v ->
  byte_at filled 0 = msg_byte RecordMsg /\ from_be_bytes [byte_at filled 1; byte_at filled 2] = len c /\ v = c ++ w.
Proof.
  intros Hl Hc E. unfold record_bytes in E. rewrite Z.mod_small in E by lia. destruct (two_bytes (len c)) as (x & y & Exy). rewrite Exy in E. destruct filled as [|p [|q [|r [|]]]]; try done.
  cbn in E. injection E as <- <- <- E. split; [done|]. split; [|done]. cbn [byte_at nth]. rewrite <-Exy. apply from_to_be_bytes. change (256 ^ Z.of_nat 2) with (2 ^ 16). lia.
Qed.

Lemma records_nonempty b w data a : records b w data a -> w <> [] -> exists c m b' w' data', w = record_bytes c ++ w' /\ data = m ++ data' /\ decrypt b c = Ok (m, b') /\ m <> [] /\
  0 < len c < 2 ^ 16 /\ body_refused (len c) = false /\ records b' w' data' a.
Proof. intros Hr Hw. destruct Hr as [|a b c m b' w data]; [done|]. exists c, m, b', w, data. done. Qed.

Lemma serve_flows cap b buf pos w data a l rs : flows b (ServingPlaintext buf pos) w data a -> serve cap buf pos = (l, rs) ->
  exists data', data = l ++ data' /\ flows b rs w data' a /\ ((0 < cap)%nat -> l <> []).
Proof.
  intros [Hpos (data' & -> & Hr)]. unfold serve. destruct (Nat.eqb_spec (Nat.min (length buf - pos) cap) 0) as [Hn|Hn].
  - intros [= <- <-]. exists (drop pos buf ++ data'). split; [done|]. split; [|lia]. split; [done|]. by exists data'.
  - intros [= <- <-]. set (n := Nat.min (length buf - pos) cap) in *. exists (drop n (drop pos buf) ++ data'). split; [by rewrite app_assoc, take_drop|]. split.
    + destruct (Nat.eqb_spec (pos + n) (length buf)) as [E|E].
      * split; [cbn; lia|]. rewrite drop_drop, drop_ge by lia. done.
      * split; [lia|]. exists data'. by rewrite drop_drop.
    + intros _ E. apply (f_equal length) in E. rewrite length_take, length_drop in E. cbn in E. lia.
Qed.

(** A read returns, hands out the next bytes due, and keeps the rest in order. *)
Lemma poll_read_flows fuel : forall cap script b rs rest data a,
  flows b rs (arrived script ++ rest) data a -> live script -> (script_size script + (match rs with ServingPlaintext _ _ => 1 | _ => 2 end) <= fuel)%nat ->
  exists r script' b' rs' l data', poll_read fuel cap script b rs = Some (r, script', b', rs') /\ live script' /\ data = l ++ data' /\ flows b' rs' (arrived script' ++ rest) data' a /\
  match r with
  | ReadReady l' => l' = l /\ ((0 < cap)%nat -> l <> [])
  | ReadPending => l = [] /\ (only_arrivals script -> script' = []) /\ (forall buf pos, rs' <> ServingPlaintext buf pos)
  | ReadError e => l = [] /\ e = SocketError /\ ~ only_arrivals script
  end.
Proof.
  induction fuel as [|fuel IH]; intros cap script b rs rest data a Hf Hlive Hfuel; [destruct rs; lia|].
  destruct rs as [filled|size filled|buf pos|]; cbn [poll_read]; [| | |done].
  - pose proof Hf as [Hlen Hr]. destruct (poll_inner (3 - length filled) script) as [p script1] eqn:Ep. apply poll_inner_spec in Ep as (Hlive1 & Honly & Hp); [|lia|done].
    destruct p as [| |[|x l]].
    + destruct Hp as [Ea Hdone]. exists ReadPending, script1, b, (Header filled), [], data. rewrite <-Ea. done.
    + destruct Hp as [Ea Hno]. exists (ReadError SocketError), script1, b, (Header filled), [], data. rewrite <-Ea. done.
    + by destruct Hp.
    + destruct Hp as (_ & Hcap & Ea & Hsize). rewrite Ea, <-app_assoc, (app_assoc filled) in Hr. set (got := filled ++ x :: l) in *.
      assert (length got <= 3)%nat as Hgot by (unfold got; rewrite length_app; lia).
      destruct (Nat.ltb_spec (length got) 3) as [Hlt|Hge].
      * edestruct (IH cap script1 b (Header got) rest data a) as (r & s' & b' & rs' & l' & d' & E & Hrest); [done|done|lia|]. exists r, s', b', rs', l', d'. split; [done|]. destruct r; naive_solver.
      * destruct (records_nonempty _ _ _ _ Hr) as (c & m & b' & w' & data' & Ew & -> & Hd & Hm & Hc & Hb & Hr'); [unfold got; by destruct filled|].
        destruct (record_split c w' got (arrived script1 ++ rest)) as (Htype & Hn & Ev); [lia|done|done|]. unfold header_done. rewrite Htype, Hn, Hb, Z.eqb_refl. cbn [negb].
        destruct (Z.eqb_spec (len c) 0); [lia|].
        edestruct (IH cap script1 b (Body (Z.to_nat (len c)) []) rest (m ++ data') a) as (r & s' & b2 & rs' & l' & d' & E & Hrest); [|done|lia|].
        { exists c, m, b', w', data'. unfold len in *. split_and!; try done; cbn; lia. }
        exists r, s', b2, rs', l', d'. split; [done|]. destruct r; naive_solver.
  - pose proof Hf as (c & m & b' & w & data' & Hc & Hlt & Ew & Hd & Hm & -> & Hr). destruct (poll_inner (size - length filled) script) as [p script1] eqn:Ep.
    apply poll_inner_spec in Ep as (Hlive1 & Honly & Hp); [|lia|done]. destruct p as [| |[|x l]].
    + destruct Hp as [Ea Hdone]. exists ReadPending, script1, b, (Body size filled), [], (m ++ data'). rewrite <-Ea. done.
    + destruct Hp as [Ea Hno]. exists (ReadError SocketError), script1, b, (Body size filled), [], (m ++ data'). rewrite <-Ea. done.
    + by destruct Hp.
    + destruct Hp as (_ & Hcap & Ea & Hsize). rewrite Ea, <-app_assoc, (app_assoc filled) in Ew. set (got := filled ++ x :: l) in *.
      assert (length got <= size)%nat as Hgot by (unfold got; rewrite length_app; lia). destruct (Nat.ltb_spec (length got) size) as [Hlt'|Hge].
      * edestruct (IH cap script1 b (Body size got) rest (m ++ data') a) as (r & s' & b2 & rs' & l' & d' & E & Hrest); [|done|lia|].
        { exists c, m, b', w, data'. done. }
        exists r, s', b2, rs', l', d'. split; [done|]. destruct r; naive_solver.
      * apply app_inj_1 in Ew as [Eg Ev]; [|lia]. rewrite Eg, Hd.
        edestruct (IH cap script1 b' (ServingPlaintext m 0) rest (m ++ data') a) as (r & s' & b2 & rs' & l' & d' & E & Hrest); [|done|lia|].
        { split; [destruct m; [done|cbn; lia]|]. exists data'. by rewrite Ev. }
        exists r, s', b2, rs', l', d'. split; [done|]. destruct r; naive_solver.
  - destruct (serve cap buf pos) as [l rs'] eqn:Es. destruct (serve_flows _ _ _ _ _ _ _ _ _ Hf Es) as (data' & -> & Hf' & Hl). exists (ReadReady l), script, b, rs', l, data'. done.
Qed.

(** *** Two ends *)

(** One direction of a connection: the sender [pp_a] and the receiver [pp_b], what is on
    the way, the bytes the sender's caller has on offer, and all the sender accepted and
    the receiver handed out. *)
Record Pipe := mkPipe { pp_a : NoiseStream; pp_b : NoiseStream; pp_wire : list Z; pp_offer : option (list Z); pp_written : list Z; pp_read : list Z }.

(** A write that did not finish is polled again with the same bytes, and flushed only
    after it finished.  Both ends may use the other direction at any time. *)
Inductive pipe_step : Pipe -> Pipe -> Prop :=
| step_write a b wire offer written got script bytes r script' out a' :
    offer = None \/ offer = Some bytes -> bytes <> [] -> poll_write script bytes a = (r, script', out, a') ->
    pipe_step (mkPipe a b wire offer written got)
      (mkPipe a' b (wire ++ out) (match r with WriteReady _ => None | _ => Some bytes end) (match r with WriteReady n => written ++ take n bytes | _ => written end) got)
| step_flush a b wire written got script r script' out a' : poll_flush script a = (r, script', out, a') ->
    pipe_step (mkPipe a b wire None written got) (mkPipe a' b (wire ++ out) None written got)
| step_read a b rest offer written got cap script r script' b' : live script -> read cap script b = Some (r, script', b') ->
    pipe_step (mkPipe a b (arrived script ++ rest) offer written got) (mkPipe a b' (arrived script' ++ rest) offer written (match r with ReadReady l => got ++ l | _ => got end))
| step_back_read a b wire offer written got cap script r script' a' : read cap script a = Some (r, script', a') ->
    pipe_step (mkPipe a b wire offer written got) (mkPipe a' b wire offer written got)
| step_back_write a b wire offer written got script bytes r script' out b' : poll_write script bytes b = (r, script', out, b') ->
    pipe_step (mkPipe a b wire offer written got) (mkPipe a b' wire offer written got)
| step_back_flush a b wire offer written got script r script' out b' : poll_flush script b = (r, script', out, b') ->
    pipe_step (mkPipe a b wire offer written got) (mkPipe a b' wire offer written got).

Inductive pipe_reachable (ta tb : TransportState) : Pipe -> Prop :=
| pipe_start : pipe_reachable ta tb (mkPipe (NoiseStream_new ta) (NoiseStream_new tb) [] None [] [])
| pipe_next p q : pipe_reachable ta tb p -> pipe_step p q -> pipe_reachable ta tb q.

Definition unsent (a : NoiseStream) : list Z := match ns_write a with Idle => [] | Flushing buf pos => drop pos buf end.
Definition sealed (a : NoiseStream) (offer : option (list Z)) : list Z := match ns_write a with Idle => [] | Flushing _ _ => take max_plaintext (default [] offer) end.

Definition pipe_ok (p : Pipe) : Prop :=
  (exists data, pp_written p ++ sealed (pp_a p) (pp_offer p) = pp_read p ++ data /\
     flows (ns_transport (pp_b p)) (ns_read (pp_b p)) (pp_wire p ++ unsent (pp_a p)) data (ns_transport (pp_a p))) /\
  match ns_write (pp_a p) with Idle => True | Flushing buf pos => (pos < length buf)%nat /\ pp_offer p <> None end.

Lemma flush_loop_spec script : forall buf pos r script' out, (pos < length buf)%nat -> flush_loop script buf pos = (r, script', out) ->
  match r with
  | FlushDone => out = drop pos buf
  | FlushStuck p pos' => (pos' < length buf)%nat /\ drop pos buf = out ++ drop pos' buf /\ (forall n, p <> WriteReady n)
  end.
Proof.
  induction script as [|[| |n] script IH]; intros buf pos r script' out Hpos; cbn [flush_loop]; [intros [= <- <- <-]; done..|]. set (k := Nat.min n _).
  destruct (Nat.eqb_spec k 0); [intros [= <- <- <-]; done|]. destruct (Nat.eqb_spec (pos + k) (length buf)) as [E|E].
  - intros [= <- <- <-]. apply take_ge. rewrite length_drop. lia.
  - destruct (flush_loop script buf (pos + k)) as [[r0 s0] out0] eqn:El. intros [= <- <- <-]. specialize (IH buf (pos + k)%nat r0 s0 out0). destruct r0 as [|p pos'].
    + rewrite IH by (lia || done). by rewrite <-drop_drop, take_drop.
    + destruct IH as (Hp & Hd & Hr); [lia|done|]. split; [done|]. split; [|done]. by rewrite <-app_assoc, <-Hd, <-drop_drop, take_drop.
Qed.

Lemma finish_write_spec n script t rs buf pos r script' out a' : (pos < length buf)%nat -> finish_write n script t rs buf pos = (r, script', out, a') ->
  ns_transport a' = t /\ ns_read a' = rs /\ drop pos buf = out ++ unsent a' /\
  match r with WriteReady m => m = n /\ ns_write a' = Idle | _ => exists pos', ns_write a' = Flushing buf pos' /\ (pos' < length buf)%nat end.
Proof.
  intros Hpos. unfold finish_write. destruct (flush_loop script buf pos) as [[r0 s0] out0] eqn:El. apply flush_loop_spec in El; [|done]. destruct r0 as [|p pos'].
  - intros [= <- <- <- <-]. cbn. rewrite app_nil_r. done.
  - destruct El as (Hp & Hd & Hr). intros [= <- <- <- <-]. split_and!; [done..|]. destruct p; [by exists pos'|by exists pos'|by destruct (Hr n0)].
Qed.

Lemma record_bytes_nonempty c : record_bytes c <> [].
Proof. done. Qed.

Lemma record_bytes_length c : (0 < length (record_bytes c))%nat.
Proof. unfold record_bytes. cbn. lia. Qed.

(** Reading does not disturb what is sent. *)
Lemma poll_read_paired fuel : forall cap script t s r script' t' s' b, paired t b -> poll_read fuel cap script t s = Some (r, script', t', s') -> paired t' b.
Proof.
  induction fuel as [|fuel IH]; intros cap script t s r script' t' s' b Hp; cbn [poll_read]; [done|]. destruct s as [filled|size filled|buf pos|].
  - destruct (poll_inner _ _) as [[| |[|x l]] s1]; [by intros [= <- <- <- <-]..|destruct (is_nil filled); by intros [= <- <- <- <-]|].
    destruct (_ <? _)%nat; [by apply IH|]. destruct (header_done _); [by apply IH|by intros [= <- <- <- <-]].
  - destruct (poll_inner _ _) as [[| |[|x l]] s1]; [by intros [= <- <- <- <-]..|]. destruct (_ <? _)%nat; [by apply IH|].
    destruct (decrypt t (filled ++ x :: l)) as [[m t1]|] eqn:Ed; [|by intros [= <- <- <- <-]]. apply IH. by eapply paired_decrypt.
  - destruct (serve cap buf pos). by intros [= <- <- <- <-].
  - by intros [= <- <- <- <-].
Qed.

Lemma finish_write_keeps n script t rs buf pos : let '(_, _, _, a') := finish_write n script t rs buf pos in ns_transport a' = t /\ ns_read a' = rs.
Proof. unfold finish_write. destruct (flush_loop script buf pos) as [[[|p pos'] s0] out0]; done. Qed.

Lemma poll_write_keeps script bytes s r script' out s' : poll_write script bytes s = (r, script', out, s') ->
  ns_read s' = ns_read s /\ (ns_transport s' = ns_transport s \/ exists x y, encrypt (ns_transport s) x = Ok (y, ns_transport s')).
Proof.
  unfold poll_write. cbn zeta. destruct (ns_write s) as [|buf pos].
  - destruct (is_nil bytes); [intros [= <- <- <- <-]; auto|]. destruct (encrypt _ _) as [[c t]|] eqn:Ee; [|intros [= <- <- <- <-]; auto].
    pose proof (finish_write_keeps (Nat.min (length bytes) max_plaintext) script t (ns_read s) (record_bytes c) 0) as Hk. intros E. rewrite E in Hk. destruct Hk as [Ht Hr]. split; [done|]. right. rewrite Ht. eauto.
  - pose proof (finish_write_keeps (Nat.min (length bytes) max_plaintext) script (ns_transport s) (ns_read s) buf pos) as Hk. intros E. rewrite E in Hk. destruct Hk. auto.
Qed.

Lemma poll_flush_keeps script s r script' out s' : poll_flush script s = (r, script', out, s') -> ns_read s' = ns_read s /\ ns_transport s' = ns_transport s.
Proof.
  unfold poll_flush. destruct (ns_write s) as [|buf pos]; [intros [= <- <- <- <-]; done|].
  pose proof (finish_write_keeps 0 script (ns_transport s) (ns_read s) buf pos) as Hk. intros E. rewrite E in Hk. naive_solver.
Qed.

Lemma take_min (bytes : list Z) : take (Nat.min (length bytes) max_plaintext) bytes = take max_plaintext bytes.
Proof. destruct (Nat.min_spec (length bytes) max_plaintext) as [[Hlt ->]|[Hle ->]]; [rewrite !take_ge by lia; done|done]. Qed.

(** A write of the bytes on offer. *)
Lemma write_ok a b wire offer written got script bytes r script' out a' : pipe_ok (mkPipe a b wire offer written got) -> offer = None \/ offer = Some bytes -> bytes <> [] ->
  poll_write script bytes a = (r, script', out, a') ->
  pipe_ok (mkPipe a' b (wire ++ out) (match r with WriteReady _ => None | _ => Some bytes end) (match r with WriteReady n => written ++ take n bytes | _ => written end) got).
Proof.
  intros [(data & Eq & Hf) Hw] Hoffer Hbytes. cbn [pp_a pp_b pp_wire pp_offer pp_written pp_read] in *. unfold poll_write. cbn zeta. set (n := Nat.min (length bytes) max_plaintext).
  assert (length (take n bytes) <= max_plaintext)%nat as Hlen by (rewrite length_take; lia). assert (take n bytes <> []) as Hne.
  { intros E. apply (f_equal length) in E. rewrite length_take in E. pose proof max_plaintext_pos as Hpos. unfold n in E. destruct bytes; [done|]. cbn [length] in E. lia. }
  assert (forall t buf pos data', (pos < length buf)%nat -> finish_write n script t (ns_read a) buf pos = (r, script', out, a') -> written ++ take n bytes = got ++ data' ->
    flows (ns_transport b) (ns_read b) (wire ++ drop pos buf) data' t ->
    pipe_ok (mkPipe a' b (wire ++ out) (match r with WriteReady _ => None | _ => Some bytes end) (match r with WriteReady m => written ++ take m bytes | _ => written end) got)) as Hfinish.
  { intros t buf pos data' Hpos E Heq Hflow. apply finish_write_spec in E as (Ht & _ & Hd & Hr); [|done]. split.
    - exists data'. cbn [pp_a pp_b pp_wire pp_offer pp_written pp_read]. rewrite <-app_assoc, <-Hd, Ht. split; [|done]. unfold sealed. destruct r as [|e|m].
      + destruct Hr as (pos' & -> & _). by rewrite <-take_min.
      + destruct Hr as (pos' & -> & _). by rewrite <-take_min.
      + destruct Hr as [-> ->]. by rewrite app_nil_r.
    - cbn [pp_a pp_offer]. destruct r as [|e|m]; [destruct Hr as (pos' & -> & Hpos')..|by destruct Hr as [_ ->]]; done. }
  destruct (ns_write a) as [|buf pos] eqn:Ea.
  - destruct (is_nil bytes) eqn:En; [by destruct bytes|]. unfold sealed, unsent in Eq, Hf. rewrite Ea, app_nil_r in Eq, Hf. destruct (encrypt (ns_transport a) (take n bytes)) as [[c t]|e] eqn:Ee.
    + intros E. apply (Hfinish t (record_bytes c) 0%nat (data ++ take n bytes)); [apply record_bytes_length|done|by rewrite app_assoc, Eq|]. by apply (flows_snoc _ _ _ _ (ns_transport a)).
    + intros [= <- <- <- <-]. split; [|cbn [pp_a]; by rewrite Ea]. exists data. cbn [pp_a pp_b pp_wire pp_offer pp_written pp_read]. unfold sealed, unsent. by rewrite Ea, !app_nil_r.
  - destruct Hw as [Hpos Hoff]. destruct Hoffer as [-> | ->]; [done|]. intros E. unfold sealed, unsent in Eq, Hf. rewrite Ea in Eq, Hf. cbn [default id] in Eq.
    apply (Hfinish (ns_transport a) buf pos data); [done|done|unfold n; by rewrite take_min|done].
Qed.

Lemma pipe_step_ok p q : pipe_ok p -> pipe_step p q -> pipe_ok q.
Proof.
  intros Hok Hstep. destruct Hstep as [a b wire offer written got script bytes r script' out a' Hoffer Hne Hpoll|a b wire written got script r script' out a' Hpoll
    |a b rest offer written got cap script r script' b' Hlive Hread|a b wire offer written got cap script r script' a' Hread|a b wire offer written got script bytes r script' out b' Hpoll
    |a b wire offer written got script r script' out b' Hpoll].
  - by eapply write_ok.
  - destruct Hok as [Hdata Hw]. cbn [pp_a pp_offer] in Hw. unfold poll_flush in Hpoll. destruct (ns_write a) as [|buf pos] eqn:Ea; [|by destruct Hw].
    injection Hpoll as <- <- <- <-. rewrite app_nil_r. split; [done|]. cbn [pp_a]. by rewrite Ea.
  - destruct Hok as [(data & Eq & Hf) Hw]. cbn [pp_a pp_b pp_wire pp_offer pp_written pp_read] in *. unfold read in Hread. rewrite <-app_assoc in Hf.
    destruct (poll_read_flows (2 + script_size script) cap script _ _ _ _ _ Hf Hlive) as (r0 & s0 & t0 & rs0 & l & data' & E & _ & -> & Hf' & Hr); [destruct (ns_read b); lia|].
    rewrite E in Hread. injection Hread as <- <- <-. split; [|done]. exists data'. cbn [pp_a pp_b pp_wire pp_offer pp_written pp_read ns_transport ns_read]. rewrite <-(app_assoc _ rest). split; [|done].
    rewrite Eq. destruct r0; [by destruct Hr as [-> _]..|]. destruct Hr as [-> _]. by rewrite app_assoc.
  - destruct Hok as [(data & Eq & Hf) Hw]. cbn [pp_a pp_b pp_wire pp_offer pp_written pp_read] in *. unfold read in Hread. destruct (poll_read _ _ _ _ _) as [[[[r0 s0] t0] rs0]|] eqn:E; [|done].
    injection Hread as <- <- <-. split; [|done]. exists data. split; [done|]. cbn [pp_a pp_b pp_wire ns_transport]. eapply flows_sender; [|exact Hf]. intros x Hx. by eapply poll_read_paired.
  - destruct Hok as [(data & Eq & Hf) Hw]. split; [|done]. exists data. split; [done|]. cbn [pp_a pp_b pp_wire] in *. apply poll_write_keeps in Hpoll as [-> [-> |(x & y & Ee)]]; [done|]. by eapply flows_receiver.
  - destruct Hok as [(data & Eq & Hf) Hw]. split; [|done]. exists data. split; [done|]. cbn [pp_a pp_b pp_wire] in *. by apply poll_flush_keeps in Hpoll as [-> ->].
Qed.

Lemma pipe_reachable_ok ta tb p : paired ta tb -> pipe_reachable ta tb p -> pipe_ok p.
Proof.
  intros Hp. induction 1 as [|p q Hreach IH Hstep]; [|by eapply pipe_step_ok]. split; [|done]. exists []. split; [done|]. cbn. split; [lia|]. by constructor.
Qed.

(** Nothing is due to a receiver that has taken everything in. *)
Lemma flows_empty b rs data a : flows b rs [] data a -> (forall buf pos, rs <> ServingPlaintext buf pos) -> data = [].
Proof.
  destruct rs as [filled|size filled|buf pos|]; cbn [flows]; [| |intros _ Hns; by destruct (Hns buf pos)|done].
  - rewrite app_nil_r. intros [Hlen Hr] _. destruct filled as [|x filled]; [by inversion Hr|]. exfalso.
    destruct (records_nonempty _ _ _ _ Hr) as (c & m & b' & w' & data' & E & _); [done|]. apply (f_equal length) in E. unfold record_bytes in E. destruct (two_bytes (len c mod 2 ^ 16)) as (p & q & Epq).
    rewrite Epq in E. cbn in E, Hlen. lia.
  - intros (c & m & b' & rest & data' & Hc & Hlt & E & _) _. apply (f_equal length) in E. rewrite !length_app in E. cbn in E. lia.
Qed.

Definition deliver (w : list Z) : list PollRead := match w with [] => [] | _ => [Arrives w] end.

Lemma deliver_spec w : arrived (deliver w) = w /\ live (deliver w) /\ only_arrivals (deliver w).
Proof. destruct w as [|x w]; [by split_and!; constructor|]. split_and!; [apply app_nil_r|by repeat constructor|repeat constructor; by eexists]. Qed.

(** C10. The encrypted stream is a pipe, whatever the two sockets do: however a record is
    cut into reads and writes, with pending and failing polls in between and both
    directions in use, the receiver hands out exactly the bytes the sender accepted, in
    order, nothing twice and nothing invented; a read to which all bytes on the way have
    arrived hands out some, unless all that was written has been read. *)
Theorem noise_stream_is_pipe ta tb p : paired ta tb -> pipe_reachable ta tb p ->
  (exists data, pp_written p ++ sealed (pp_a p) (pp_offer p) = pp_read p ++ data) /\
  (forall cap, (0 < cap)%nat -> ns_write (pp_a p) = Idle -> exists r script' b', read cap (deliver (pp_wire p)) (pp_b p) = Some (r, script', b') /\
     ((exists l, r = ReadReady l /\ l <> []) \/ (r = ReadPending /\ pp_read p = pp_written p))).
Proof.
  intros Hp Hreach. destruct (pipe_reachable_ok ta tb p Hp Hreach) as [(data & Eq & Hf) _]. split; [by exists data|]. intros cap Hcap Hidle.
  unfold sealed, unsent in Eq, Hf. rewrite Hidle, app_nil_r in Eq, Hf. destruct (deliver_spec (pp_wire p)) as (Ea & Hlive & Honly). rewrite <-Ea, <-(app_nil_r (arrived _)) in Hf.
  destruct (poll_read_flows (2 + script_size (deliver (pp_wire p))) cap _ _ _ _ _ _ Hf Hlive) as (r & s' & b' & rs' & l & data' & E & _ & -> & Hf' & Hr); [destruct (ns_read _); lia|].
  exists r, s', (mkNoiseStream b' rs' (ns_write (pp_b p))). split; [unfold read; by rewrite E|]. destruct r as [|e|l'].
  - right. split; [done|]. destruct Hr as (-> & Hs & Hns). rewrite (Hs Honly) in Hf'. apply flows_empty in Hf' as ->; [|done]. by rewrite app_nil_r in Eq.
  - by destruct Hr as (_ & _ & []).
  - left. exists l'. destruct Hr as [-> Hl]. auto.
Qed.

End pipe.

(** ** The big-endian transport discharges the laws *)

Class AeadLaws `{Aead} : Prop := {
  seal_opens : forall key nonce m c, seal key nonce m = Some c -> open key nonce c = Some m;
  seal_size : forall key nonce m c, seal key nonce m = Some c -> length c = (length m + TAG_LEN)%nat;
}.

Section be_laws.
Context `{AeadLaws}.

#[export] Instance be_transport_laws : TransportLaws.
Proof.
  refine {| paired := fun a b : @TransportState be_transport => bt_send_key a = bt_recv_key b /\ bt_send_counter a = bt_recv_counter b |}.
  - intros a b m c a' [Hk Hn] Hm Hl. cbn [encrypt decrypt be_transport max_plaintext] in *. unfold be_encrypt, be_decrypt. destruct (Nat.ltb_spec MAX_PLAINTEXT_PER_RECORD (length m)); [done|].
    destruct (seal _ _ m) as [ct|] eqn:Es; [|done]. destruct (checked_add 64 _ 1) as [n|] eqn:En; [|done]. intros [= <- <-]. pose proof (seal_size _ _ _ _ Es) as Hs. apply seal_opens in Es.
    destruct (Nat.ltb_spec (length ct) TAG_LEN); [lia|]. destruct (Nat.ltb_spec MAX_CIPHERTEXT_PER_RECORD (length ct)) as [Hbig|_]; [change MAX_CIPHERTEXT_PER_RECORD with 4093%nat in Hbig; change MAX_PLAINTEXT_PER_RECORD with 4077%nat in Hl; change TAG_LEN with 16%nat in Hs; lia|].
    rewrite <-Hk, <-Hn, Es, En. eexists. done.
  - intros a m c a' Hm Hl. cbn [encrypt be_transport max_plaintext body_refused] in *. unfold be_encrypt. destruct (Nat.ltb_spec MAX_PLAINTEXT_PER_RECORD (length m)); [done|].
    destruct (seal _ _ m) as [ct|] eqn:Es; [|done]. destruct (checked_add 64 _ 1) as [n|]; [|done]. intros [= <- <-]. apply seal_size in Es. unfold len. rewrite Es.
    change MAX_PLAINTEXT_PER_RECORD with 4077%nat in Hl. change MAX_CIPHERTEXT_PER_RECORD with 4093%nat. change TAG_LEN with 16%nat. split; [lia|]. apply Z.ltb_ge. lia.
  - intros a b c m a' Hp. cbn [decrypt be_transport]. unfold be_decrypt. destruct (_ <? _)%nat; [done|]. destruct (_ <? _)%nat; [done|]. destruct (open _ _ c); [|done].
    destruct (checked_add 64 _ 1); [|done]. intros [= <- <-]. done.
  - intros a b m c b' Hp. cbn [encrypt be_transport]. unfold be_encrypt. destruct (_ <? _)%nat; [done|]. destruct (seal _ _ m); [|done]. destruct (checked_add 64 _ 1); [|done]. intros [= <- <-]. done.
  - intros b x y b1 c m b'. cbn [encrypt decrypt be_transport]. unfold be_encrypt, be_decrypt. destruct (_ <? length x)%nat eqn:Ex; [done|]. destruct (seal _ _ x) eqn:Es; [|done].
    destruct (checked_add 64 (bt_send_counter b) 1) as [n|] eqn:En; [|done]. intros [= <- <-]. destruct (length c <? TAG_LEN)%nat; [done|]. destruct (_ <? length c)%nat; [done|].
    cbn [bt_recv_key bt_recv_counter bt_send_key bt_send_counter]. destruct (open _ _ c); [|done]. destruct (checked_add 64 (bt_recv_counter b) 1) as [k|] eqn:Ek; [|done]. intros [= <- <-].
    eexists. split; [done|]. cbn [bt_recv_key bt_recv_counter bt_send_key bt_send_counter]. by rewrite ?Es, En.
  - cbn [max_plaintext be_transport]. change MAX_PLAINTEXT_PER_RECORD with 4077%nat. lia.
Defined.

(** The nonces under which a sender seals a sequence of records. *)
Fixpoint nonces_used (t : BeTransport) (ms : list (list Z)) : list (list Z) :=
  match ms with
  | [] => []
  | m :: rest => match be_encrypt t m with Some (Ok (_, t')) => nonce_be (bt_send_counter t) :: nonces_used t' rest | _ => [] end
  end.

Lemma nonce_be_inj a b : 0 <= a < 2 ^ 64 -> 0 <= b < 2 ^ 64 -> nonce_be a = nonce_be b -> a = b.
Proof.
  intros Ha Hb E. unfold nonce_be in E. apply app_inv_head in E. apply (f_equal from_be_bytes) in E. rewrite !from_to_be_bytes in E; [done|..]; change (256 ^ Z.of_nat 8) with (2 ^ 64); done.
Qed.

Lemma nonces_used_from ms : forall t nonce, 0 <= bt_send_counter t -> nonce ∈ nonces_used t ms -> exists n, bt_send_counter t <= n < 2 ^ 64 /\ nonce = nonce_be n.
Proof.
  induction ms as [|m ms IH]; intros t nonce Ht; cbn [nonces_used]; [by intros ?%elem_of_nil|]. unfold be_encrypt. destruct (_ <? _)%nat; [by intros ?%elem_of_nil|].
  destruct (seal _ _ m); [|by intros ?%elem_of_nil]. unfold checked_add. destruct (Z.leb_spec (bt_send_counter t + 1) (u_max 64)) as [Hle|]; [|by intros ?%elem_of_nil].
  change (u_max 64) with (2 ^ 64 - 1) in Hle. intros [-> |Hin]%elem_of_cons; [exists (bt_send_counter t); split; [lia|done]|].
  apply IH in Hin as (n & Hn & ->); cbn [bt_send_counter] in *; [|lia]. exists n. split; [lia|done].
Qed.


End be_laws.

Module ControlBaseExamples.

(** A cipher for the examples: the plaintext with the nonce and the key's first bytes. *)
Definition tag_of (key nonce : list Z) : list Z := take 16 (nonce ++ take 4 key ++ replicate 16 0).

#[export] Instance toy_aead : Aead := {|
  seal key nonce m := Some (m ++ tag_of key nonce);
  open key nonce c := if bool_decide (drop (length c - 16) c = tag_of key nonce) then Some (take (length c - 16) c) else None;
|}.

Lemma length_tag_of key nonce : length (tag_of key nonce) = 16%nat.
Proof. unfold tag_of. rewrite length_take, !length_app, length_replicate. lia. Qed.

#[export] Instance toy_aead_laws : AeadLaws.
Proof.
  split.
  - intros key nonce m c [= <-]. unfold open, toy_aead. rewrite length_app, length_tag_of, Nat.add_sub, drop_app_length, take_app_length. by rewrite bool_decide_true.
  - intros key nonce m c [= <-]. by rewrite length_app, length_tag_of.
Qed.

Definition k1 : list Z := replicate 32 7.
Definition k2 : list Z := replicate 32 9.

Definition client : NoiseStream := NoiseStream_new (from_split_initiator k1 k2).
Definition server : NoiseStream := NoiseStream_new (from_split_responder k1 k2).

Definition wrote := poll_write [Accepts 2; WritePends] [104; 105] client.
Definition rewrote := poll_write [Accepts 90] [104; 105] wrote.2.

(** A write that stops in the middle of its record and goes on. *)
Definition half : Pipe := mkPipe wrote.2 server wrote.1.2 (Some [104; 105]) [] [].
Definition whole : Pipe := mkPipe rewrote.2 server (wrote.1.2 ++ rewrote.1.2) None [104; 105] [].

Example write_resumes : (wrote.1.1.1, rewrote.1.1.1, length (pp_wire half), length (pp_wire whole)) = (WritePending, WriteReady 2, 2%nat, 21%nat).
Proof. vm_compute. reflexivity. Qed.

Lemma whole_reachable : pipe_reachable (ns_transport client) (ns_transport server) whole.
Proof.
  eapply (pipe_next _ _ half).
  - eapply (pipe_next _ _ (mkPipe client server [] None [] [])); [apply pipe_start|].
    exact (step_write client server [] None [] [] [Accepts 2; WritePends] [104; 105] _ _ _ _ (or_introl eq_refl) ltac:(discriminate) eq_refl).
  - exact (step_write wrote.2 server wrote.1.2 (Some [104; 105]) [] [] [Accepts 90] [104; 105] _ _ _ _ (or_intror eq_refl) ltac:(discriminate) eq_refl).
Qed.

Lemma noise_stream_is_pipe_witness : exists r script' b', read 10 (deliver (pp_wire whole)) (pp_b whole) = Some (r, script', b') /\
  ((exists l, r = ReadReady l /\ l <> []) \/ (r = ReadPending /\ pp_read whole = pp_written whole)).
Proof.
  apply (noise_stream_is_pipe (ns_transport client) (ns_transport server) whole); [split; reflexivity|apply whole_reachable|lia|reflexivity].
Defined.

Example server_reads : fst <$> (fst <$> read 10 (deliver (pp_wire whole)) server) = Some (ReadReady [104; 105]).
Proof. vm_compute. reflexivity. Qed.

(** Polled again with other bytes, the write reports those as written although only the
    first ones go out. *)
Example other_bytes_lost : let '(r, _, out, _) := poll_write [Accepts 90] [1; 2; 3; 4] wrote.2 in r = WriteReady 4 /\ wrote.1.2 ++ out = wrote.1.2 ++ rewrote.1.2.
Proof. vm_compute. done. Qed.

(** Flushed before it is polled again, the write is sent twice. *)
Example flushed_write_repeats :
  let flushed := poll_flush [Accepts 90] wrote.2 in
  let again := poll_write [Accepts 90] [104; 105] flushed.2 in
  (again.1.1.1, length (wrote.1.2 ++ flushed.1.2), length again.1.2) = (WriteReady 2, 21%nat, 21%nat).
Proof. vm_compute. reflexivity. Qed.

(** A record with an empty plaintext ends the stream for its reader. *)
Example empty_record_ends :
  let c := tag_of k1 (nonce_be 0) in
  (fun x => x.1.1) <$> read 10 [Arrives (record_bytes c ++ wrote.1.2)] server = Some (ReadReady []).
Proof. vm_compute. reflexivity. Qed.

Lemma frame_round_trip_example : read_frame (default [] (result_ok (write_frame Reply [5; 6])) ++ [9]) = Ok (Regular Reply 2, [5; 6], [9]).
Proof. vm_compute. reflexivity. Qed.

End ControlBaseExamples.
