(* ===== verification/GoJson.v ===== *)
(** * GoJson: JSON texts, the cursor and Go's scanner
    (headscale-api-acl/src/go_json.rs, go_json/scanner.rs)

    Two readers of JSON live side by side: the [Cursor], which cuts values out of a
    text, and the scanner of Go's encoding/json, which steps over it byte by byte.
    [json] is the grammar.  The cursor accepts exactly the grammar up to its depth, and
    the scanner accepts exactly what the cursor accepts.

    A cursor is the bytes it has not read; a [Raw] is the bytes it stands for.  The text
    of a scanner's error is its byte and its context. *)

From stdpp Require Import base list.
From Stdlib Require Import ZArith Lia.
From S2P Require Import Prelude Bytes.

Open Scope Z_scope.

Notation QUOTE := 34.
Notation BACKSLASH := 92.
Notation LBRACKET := 91.
Notation RBRACKET := 93.
Notation LBRACE := 123.
Notation RBRACE := 125.
Notation COMMA := 44.
Notation COLON := 58.
Notation MINUS := 45.
Notation PLUS := 43.
Notation DOT := 46.
Notation SPACE := 32.

Definition true_text : list Z := [116; 114; 117; 101].
Definition false_text : list Z := [102; 97; 108; 115; 101].
Definition null_text : list Z := [110; 117; 108; 108].

(** ** The cursor *)

Inductive JsonError := InvalidJson.

Definition space (b : Z) : bool := (b =? SPACE) || (b =? 9) || (b =? 10) || (b =? 13).
Definition is_digit (b : Z) : bool := (48 <=? b) && (b <=? 57).
Definition is_hexdigit (b : Z) : bool := is_digit b || ((65 <=? b) && (b <=? 70)) || ((97 <=? b) && (b <=? 102)).

(** [Cursor::space]. *)
Fixpoint skip_space (l : list Z) : list Z :=
  match l with
  | b :: t => if space b then skip_space t else l
  | [] => []
  end.

Definition trim (l : list Z) : list Z := rev (skip_space (rev (skip_space l))).

(** [Cursor::take]. *)
Definition take_byte (b : Z) (l : list Z) : result (list Z) JsonError :=
  match l with
  | x :: t => if x =? b then Ok t else Err InvalidJson
  | [] => Err InvalidJson
  end.

(** [Cursor::done]. *)
Definition cursor_done (l : list Z) : result unit JsonError := match skip_space l with [] => Ok tt | _ => Err InvalidJson end.

Definition simple_escape (e : Z) : bool :=
  (e =? QUOTE) || (e =? BACKSLASH) || (e =? 47) || (e =? 98) || (e =? 102) || (e =? 110) || (e =? 114) || (e =? 116).

(** The loop of [Cursor::quoted] after the opening quote: what it reads and the rest. *)
Fixpoint quoted_loop (l : list Z) : result (list Z * list Z) JsonError :=
  match l with
  | [] => Err InvalidJson
  | b :: t =>
      if b =? QUOTE then Ok ([b], t)
      else if b =? BACKSLASH then
        match t with
        | [] => Err InvalidJson
        | e :: t =>
            if simple_escape e then let? '(c, r) := quoted_loop t in Ok (b :: e :: c, r)
            else if e =? 117 then
              match t with
              | h1 :: h2 :: h3 :: h4 :: t =>
                  if forallb is_hexdigit [h1; h2; h3; h4] then let? '(c, r) := quoted_loop t in Ok (b :: e :: h1 :: h2 :: h3 :: h4 :: c, r)
                  else Err InvalidJson
              | _ => Err InvalidJson
              end
            else Err InvalidJson
        end
      else if b <=? 31 then Err InvalidJson
      else let? '(c, r) := quoted_loop t in Ok (b :: c, r)
  end.

Definition quoted (l : list Z) : result (list Z * list Z) JsonError :=
  let? t := take_byte QUOTE l in
  let? '(c, r) := quoted_loop t in
  Ok (QUOTE :: c, r).

Fixpoint skip_digits (l : list Z) : list Z :=
  match l with
  | b :: t => if is_digit b then skip_digits t else l
  | [] => []
  end.

(** [Cursor::digits]. *)
Definition digits (l : list Z) : result (list Z) JsonError :=
  match l with
  | b :: t => if is_digit b then Ok (skip_digits t) else Err InvalidJson
  | [] => Err InvalidJson
  end.

Definition peek_is (p : Z -> bool) (l : list Z) : bool := match l with b :: _ => p b | [] => false end.

(** [Cursor::number]. *)
Definition number (l : list Z) : result (list Z) JsonError :=
  let l := if peek_is (Z.eqb MINUS) l then drop 1 l else l in
  let? l := (match l with
             | b :: t => if b =? 48 then Ok t else if is_digit b then digits l else Err InvalidJson
             | [] => Err InvalidJson
             end) in
  let? l := (if peek_is (Z.eqb DOT) l then digits (drop 1 l) else Ok l) in
  if peek_is (fun b => (b =? 101) || (b =? 69)) l then
    let l := drop 1 l in
    digits (if peek_is (fun b => (b =? PLUS) || (b =? MINUS)) l then drop 1 l else l)
  else Ok l.

(** [Cursor::literal]. *)
Fixpoint literal (text l : list Z) : result (list Z) JsonError :=
  match text with
  | [] => Ok l
  | c :: text => match l with b :: t => if b =? c then literal text t else Err InvalidJson | [] => Err InvalidJson end
  end.

Inductive Frame := ArrayFirst | ArrayComma | ObjectFirst | ObjectKey | ObjectColon | ObjectComma.

Definition MAX_DEPTH : nat := Z.to_nat 10000.

(** The part of the loop of [value_with_depth] under [if value]; the last frame is the
    head. *)
Definition begin_value (max_depth : option nat) (frames : list Frame) (l : list Z) : result (list Frame * list Z) JsonError :=
  let l := skip_space l in
  match l with
  | [] => Err InvalidJson
  | b :: t =>
      if (b =? LBRACKET) || (b =? LBRACE) then
        if match max_depth with Some limit => (limit <=? length frames)%nat | None => false end then Err InvalidJson
        else Ok ((if b =? LBRACKET then ArrayFirst else ObjectFirst) :: frames, t)
      else if b =? QUOTE then let? '(_, l) := quoted l in Ok (frames, l)
      else if (b =? MINUS) || is_digit b then let? l := number l in Ok (frames, l)
      else if b =? 116 then let? l := literal true_text l in Ok (frames, l)
      else if b =? 102 then let? l := literal false_text l in Ok (frames, l)
      else if b =? 110 then let? l := literal null_text l in Ok (frames, l)
      else Err InvalidJson
  end.

(** The rest of the loop, over the last frame: [None] returns. *)
Definition frame_step (frames : list Frame) (l : list Z) : result (option (bool * list Frame * list Z)) JsonError :=
  match frames with
  | [] => Ok None
  | frame :: outer =>
      let l := skip_space l in
      match frame with
      | ArrayFirst => if peek_is (Z.eqb RBRACKET) l then Ok (Some (false, outer, drop 1 l)) else Ok (Some (true, ArrayComma :: outer, l))
      | ArrayComma =>
          if peek_is (Z.eqb COMMA) l then Ok (Some (true, frames, drop 1 l))
          else if peek_is (Z.eqb RBRACKET) l then Ok (Some (false, outer, drop 1 l))
          else Err InvalidJson
      | ObjectFirst =>
          if peek_is (Z.eqb RBRACE) l then Ok (Some (false, outer, drop 1 l))
          else let? '(_, l) := quoted l in Ok (Some (false, ObjectColon :: outer, l))
      | ObjectKey => let? '(_, l) := quoted l in Ok (Some (false, ObjectColon :: outer, l))
      | ObjectColon => let? l := take_byte COLON l in Ok (Some (true, ObjectComma :: outer, l))
      | ObjectComma =>
          if peek_is (Z.eqb COMMA) l then Ok (Some (false, ObjectKey :: outer, drop 1 l))
          else if peek_is (Z.eqb RBRACE) l then Ok (Some (false, outer, drop 1 l))
          else Err InvalidJson
      end
  end.

(** The loop; [None] is the end of the fuel. *)
Fixpoint value_loop (max_depth : option nat) (fuel : nat) (value : bool) (frames : list Frame) (l : list Z) : option (result (list Z) JsonError) :=
  match fuel with
  | O => None
  | S fuel =>
      match (if value then begin_value max_depth frames l else Ok (frames, l)) with
      | Err e => Some (Err e)
      | Ok (frames, l) =>
          match frame_step frames l with
          | Err e => Some (Err e)
          | Ok None => Some (Ok l)
          | Ok (Some (value, frames, l)) => value_loop max_depth fuel value frames l
          end
      end
  end.

(** A turn reads a byte, or starts the first element of an array. *)
Definition value_fuel (l : list Z) : nat := 2 + 2 * length l.

Definition value_with_depth (max_depth : option nat) (l : list Z) : result (list Z * list Z) JsonError :=
  let l := skip_space l in
  let? rest := default (Err InvalidJson) (value_loop max_depth (value_fuel l) true [] l) in
  Ok (take (length l - length rest) l, rest).

Definition cursor_value (l : list Z) : result (list Z * list Z) JsonError := value_with_depth (Some MAX_DEPTH) l.
Definition value_unbounded (l : list Z) : result (list Z * list Z) JsonError := value_with_depth None l.

Definition validate_with_depth (l : list Z) (max_depth : nat) : result unit JsonError :=
  let? '(_, l) := value_with_depth (Some max_depth) l in
  cursor_done l.

Definition validate (l : list Z) : result unit JsonError := validate_with_depth l MAX_DEPTH.

(** ** Arrays and objects *)

Fixpoint array_loop (fuel : nat) (l : list Z) : result (list (list Z)) JsonError :=
  match fuel with
  | O => Err InvalidJson
  | S fuel =>
      let? '(v, l) := cursor_value l in
      let l := skip_space l in
      if peek_is (Z.eqb RBRACKET) l then Ok [v]
      else
        let? l := take_byte COMMA l in
        let? rest := array_loop fuel l in
        Ok (v :: rest)
  end.

Definition array (bytes : list Z) : result (list (list Z)) JsonError :=
  let? _ := validate bytes in
  let? l := take_byte LBRACKET (trim bytes) in
  let l := skip_space l in
  if peek_is (Z.eqb RBRACKET) l then Ok [] else array_loop (S (length l)) l.

(** ** The grammar *)

Definition blank (l : list Z) : Prop := Forall (fun b => space b = true) l.

Inductive string_char : list Z -> Prop :=
| char_plain b : 31 < b -> b <> QUOTE -> b <> BACKSLASH -> string_char [b]
| char_escape e : simple_escape e = true -> string_char [BACKSLASH; e]
| char_unicode h1 h2 h3 h4 : forallb is_hexdigit [h1; h2; h3; h4] = true -> string_char [BACKSLASH; 117; h1; h2; h3; h4].

Definition string_text (l : list Z) : Prop := exists chars, Forall string_char chars /\ l = QUOTE :: concat chars ++ [QUOTE].

Definition digits_text (l : list Z) : Prop := l <> [] /\ Forall (fun b => is_digit b = true) l.
Definition int_text (l : list Z) : Prop := l = [48] \/ (digits_text l /\ head l <> Some 48).
Definition frac_text (l : list Z) : Prop := l = [] \/ exists ds, digits_text ds /\ l = DOT :: ds.
Definition exp_text (l : list Z) : Prop := l = [] \/ exists e sign ds, (e = 101 \/ e = 69) /\ (sign = [] \/ sign = [PLUS] \/ sign = [MINUS]) /\ digits_text ds /\ l = e :: sign ++ ds.

Inductive number_text : list Z -> Prop :=
| number_of sign int frac exp : sign = [] \/ sign = [MINUS] -> int_text int -> frac_text frac -> exp_text exp -> number_text (sign ++ int ++ frac ++ exp).

Definition scalar (l : list Z) : Prop := string_text l \/ number_text l \/ l = true_text \/ l = false_text \/ l = null_text.

(** The values that nest at most [d] deep. *)
Inductive json : nat -> list Z -> Prop :=
| json_scalar d l : scalar l -> json d l
| json_empty_array d w : blank w -> json (S d) (LBRACKET :: w ++ [RBRACKET])
| json_array d l : elements d l -> json (S d) (LBRACKET :: l ++ [RBRACKET])
| json_empty_object d w : blank w -> json (S d) (LBRACE :: w ++ [RBRACE])
| json_object d l : members d l -> json (S d) (LBRACE :: l ++ [RBRACE])
with elements : nat -> list Z -> Prop :=
| elements_one d w v w' : blank w -> json d v -> blank w' -> elements d (w ++ v ++ w')
| elements_cons d w v w' l : blank w -> json d v -> blank w' -> elements d l -> elements d (w ++ v ++ w' ++ COMMA :: l)
with members : nat -> list Z -> Prop :=
| members_one d l : member d l -> members d l
| members_cons d l l' : member d l -> members d l' -> members d (l ++ COMMA :: l')
with member : nat -> list Z -> Prop :=
| member_of d w s w1 w2 v w' : blank w -> string_text s -> blank w1 -> blank w2 -> json d v -> blank w' -> member d (w ++ s ++ w1 ++ COLON :: w2 ++ v ++ w').

Scheme json_mut := Induction for json Sort Prop
with elements_mut := Induction for elements Sort Prop
with members_mut := Induction for members Sort Prop
with member_mut := Induction for member Sort Prop.
Combined Scheme json_elements_members_ind from json_mut, elements_mut, members_mut, member_mut.

Definition json_text (d : nat) (l : list Z) : Prop := exists w v w', blank w /\ json d v /\ blank w' /\ l = w ++ v ++ w'.

(** ** The parts of a value *)

Lemma blank_app w w' : blank w -> blank w' -> blank (w ++ w').
Proof. apply Forall_app_2. Qed.

Lemma skip_space_split l : exists w, blank w /\ l = w ++ skip_space l /\ peek_is space (skip_space l) = false.
Proof.
  induction l as [|b l (w & Hw & E & Hp)]; [by exists []; repeat constructor|]. cbn [skip_space]. destruct (space b) eqn:Eb.
  - exists (b :: w). split; [by constructor|]. split; [by cbn; f_equal|done].
  - exists []. split; [constructor|]. by split.
Qed.

Lemma skip_space_blank w l : blank w -> skip_space (w ++ l) = skip_space l.
Proof. induction 1 as [|b w Hb _ IH]; [done|]. cbn. by rewrite Hb. Qed.

Lemma skip_space_id l : peek_is space l = false -> skip_space l = l.
Proof. destruct l as [|b l]; [done|]. cbn. by intros ->. Qed.

Lemma skip_space_idem l : skip_space (skip_space l) = skip_space l.
Proof. destruct (skip_space_split l) as (w & _ & _ & Hp). by apply skip_space_id. Qed.

Lemma length_skip_space l : (length (skip_space l) <= length l)%nat.
Proof. destruct (skip_space_split l) as (w & _ & E & _). rewrite E at 2. rewrite length_app. lia. Qed.

Lemma cursor_done_Ok l : cursor_done l = Ok tt <-> blank l.
Proof.
  unfold cursor_done. destruct (skip_space_split l) as (w & Hw & E & Hp). split.
  - destruct (skip_space l); [|done]. rewrite app_nil_r in E. by subst.
  - intros Hl. rewrite <-(app_nil_r l), skip_space_blank by done. done.
Qed.

Lemma quoted_loop_sound n : forall l c r, (length l <= n)%nat -> quoted_loop l = Ok (c, r) -> l = c ++ r /\ exists chars, Forall string_char chars /\ c = concat chars ++ [QUOTE].
Proof.
  induction n as [|n IH]; intros [|b t] c r Hn; try (cbn in *; (done || lia)). cbn [quoted_loop]. cbn in Hn. destruct (Z.eqb_spec b QUOTE) as [-> |Hq].
  { intros [= <- <-]. split; [done|]. by exists []. }
  destruct (Z.eqb_spec b BACKSLASH) as [-> |Hb].
  - destruct t as [|e t]; [done|]. destruct (simple_escape e) eqn:Ee.
    + intros ([c' r'] & Hrec & [= <- <-])%result_bind_Ok. apply IH in Hrec as (-> & chars & Hc & ->); [|cbn in Hn; lia]. split; [done|]. exists ([BACKSLASH; e] :: chars). split; [constructor; [by constructor|done]|done].
    + destruct (Z.eqb_spec e 117) as [-> |]; [|done]. destruct t as [|h1 [|h2 [|h3 [|h4 t]]]]; try done. destruct (forallb is_hexdigit [h1; h2; h3; h4]) eqn:Eh; [|done].
      intros ([c' r'] & Hrec & [= <- <-])%result_bind_Ok. apply IH in Hrec as (-> & chars & Hc & ->); [|cbn in Hn; lia]. split; [done|].
      exists ([BACKSLASH; 117; h1; h2; h3; h4] :: chars). split; [constructor; [by constructor|done]|done].
  - destruct (Z.leb_spec b 31); [done|]. intros ([c' r'] & Hrec & [= <- <-])%result_bind_Ok. apply IH in Hrec as (-> & chars & Hc & ->); [|lia]. split; [done|].
    exists ([b] :: chars). split; [constructor; [by constructor|done]|done].
Qed.

Lemma quoted_loop_complete chars r : Forall string_char chars -> quoted_loop (concat chars ++ QUOTE :: r) = Ok (concat chars ++ [QUOTE], r).
Proof.
  induction 1 as [|x chars Hx _ IH]; [done|]. destruct Hx as [b Hb Hq Hs|e He|h1 h2 h3 h4 Hh]; cbn [concat app quoted_loop].
  - destruct (Z.eqb_spec b QUOTE); [done|]. destruct (Z.eqb_spec b BACKSLASH); [done|]. destruct (Z.leb_spec b 31); [lia|]. by rewrite IH.
  - change (BACKSLASH =? QUOTE) with false. rewrite Z.eqb_refl. rewrite He, IH. done.
  - change (BACKSLASH =? QUOTE) with false. rewrite Z.eqb_refl. change (simple_escape 117) with false. rewrite Hh, Z.eqb_refl, IH. done.
Qed.

Lemma take_byte_Ok b l r : take_byte b l = Ok r <-> l = b :: r.
Proof. destruct l as [|x t]; cbn; [split; [done|by inversion 1]|]. destruct (Z.eqb_spec x b) as [-> |]; split; [by intros [= ->]|by intros [= ->]|done|by intros [= -> ->]]. Qed.

Lemma quoted_sound l c r : quoted l = Ok (c, r) -> string_text c /\ l = c ++ r.
Proof.
  unfold quoted. intros (t & Ht & ([c' r'] & Hq & [= <- <-])%result_bind_Ok)%result_bind_Ok. apply take_byte_Ok in Ht as ->.
  apply (quoted_loop_sound _ _ _ _ (le_n _)) in Hq as (-> & chars & Hc & ->). split; [by exists chars|done].
Qed.

Lemma quoted_complete s r : string_text s -> quoted (s ++ r) = Ok (s, r).
Proof.
  intros (chars & Hc & ->). unfold quoted. cbn [app take_byte]. rewrite Z.eqb_refl. cbn [result_bind]. rewrite <-app_assoc. cbn [app]. by rewrite quoted_loop_complete.
Qed.

Lemma skip_digits_split l : exists ds, Forall (fun b => is_digit b = true) ds /\ l = ds ++ skip_digits l /\ peek_is is_digit (skip_digits l) = false.
Proof.
  induction l as [|b l (w & Hw & E & Hp)]; [by exists []; repeat constructor|]. cbn [skip_digits]. destruct (is_digit b) eqn:Eb.
  - exists (b :: w). split; [by constructor|]. split; [by cbn; f_equal|done].
  - exists []. split; [constructor|]. by split.
Qed.

Lemma digits_sound l r : digits l = Ok r -> exists ds, digits_text ds /\ l = ds ++ r /\ peek_is is_digit r = false.
Proof.
  destruct l as [|b t]; [done|]. cbn. destruct (is_digit b) eqn:Eb; [|done]. intros [= <-]. destruct (skip_digits_split t) as (ds & Hds & E & Hp).
  exists (b :: ds). split; [split; [done|by constructor]|]. split; [by cbn; f_equal|done].
Qed.

Lemma skip_digits_app ds r : Forall (fun b => is_digit b = true) ds -> peek_is is_digit r = false -> skip_digits (ds ++ r) = r.
Proof. intros Hds Hr. induction Hds as [|b ds Hb _ IH]; cbn; [|by rewrite Hb]. destruct r as [|b r]; [done|]. cbn in Hr |- *. by rewrite Hr. Qed.

Lemma digits_complete ds r : digits_text ds -> peek_is is_digit r = false -> digits (ds ++ r) = Ok r.
Proof. intros [Hne Hds] Hr. destruct Hds as [|b ds Hb Hds]; [done|]. cbn. rewrite Hb. by rewrite skip_digits_app. Qed.

(** What may not follow a number that has ended. *)
Definition continues (b : Z) : bool := is_digit b || (b =? DOT) || (b =? 101) || (b =? 69).

Lemma peek_digit_head l : peek_is is_digit l = false -> forall b, is_digit b = true -> peek_is (Z.eqb b) l = false.
Proof. destruct l as [|x l]; [done|]. cbn. intros Hx b Hb. destruct (Z.eqb_spec b x) as [-> |]; [congruence|done]. Qed.

Lemma peek_weaken (p q : Z -> bool) l : (forall b, q b = true -> p b = true) -> peek_is p l = false -> peek_is q l = false.
Proof. intros Himp. destruct l as [|b l]; [done|]. cbn. intros Hp. destruct (q b) eqn:E; [|done]. by rewrite (Himp b E) in Hp. Qed.

Lemma peek_true b l : peek_is (Z.eqb b) l = true -> l = b :: drop 1 l.
Proof. destruct l as [|x l]; [done|]. cbn. by intros ->%Z.eqb_eq. Qed.

Definition int_part (l : list Z) : result (list Z) JsonError :=
  match l with
  | b :: t => if b =? 48 then Ok t else if is_digit b then digits l else Err InvalidJson
  | [] => Err InvalidJson
  end.

Definition frac_part (l : list Z) : result (list Z) JsonError := if peek_is (Z.eqb DOT) l then digits (drop 1 l) else Ok l.

Definition exp_part (l : list Z) : result (list Z) JsonError :=
  if peek_is (fun b => (b =? 101) || (b =? 69)) l then
    let l := drop 1 l in digits (if peek_is (fun b => (b =? PLUS) || (b =? MINUS)) l then drop 1 l else l)
  else Ok l.

Lemma number_parts l : number l = result_bind (int_part (if peek_is (Z.eqb MINUS) l then drop 1 l else l)) (fun l => result_bind (frac_part l) exp_part).
Proof. reflexivity. Qed.

Lemma int_part_sound l r : int_part l = Ok r -> exists v, int_text v /\ l = v ++ r.
Proof.
  destruct l as [|b t]; [done|]. unfold int_part. destruct (Z.eqb_spec b 48) as [-> |Hb]; [intros [= <-]; exists [48]; split; [by left|done]|]. destruct (is_digit b); [|done].
  intros (ds & Hds & E & _)%digits_sound. exists ds. split; [|done]. right. split; [done|]. destruct Hds as [Hne _]. destruct ds as [|x ds]; [done|]. injection E as -> _. by intros [= ->].
Qed.

Lemma int_part_complete v r : int_text v -> peek_is is_digit r = false -> int_part (v ++ r) = Ok r.
Proof.
  intros [-> |[Hds Hh]] Hr; [done|]. pose proof Hds as [Hne Hall]. destruct v as [|b v]; [done|]. unfold int_part. cbn [app]. destruct (Z.eqb_spec b 48) as [-> |]; [done|].
  rewrite (Forall_inv Hall). by apply (digits_complete (b :: v)).
Qed.

Lemma frac_part_sound l r : frac_part l = Ok r -> exists v, frac_text v /\ l = v ++ r.
Proof.
  unfold frac_part. destruct (peek_is (Z.eqb DOT) l) eqn:E; [|intros [= ->]; exists []; split; [by left|done]]. apply peek_true in E. intros (ds & Hds & Ed & _)%digits_sound.
  exists (DOT :: ds). split; [right; by exists ds|]. rewrite E, Ed. done.
Qed.

Lemma frac_part_complete v r : frac_text v -> peek_is (fun b => is_digit b || (b =? DOT)) r = false -> frac_part (v ++ r) = Ok r.
Proof.
  intros Hv Hr. unfold frac_part. destruct Hv as [-> |(ds & Hds & ->)]; cbn [app].
  - assert (peek_is (Z.eqb DOT) r = false) as ->; [|done]. eapply peek_weaken; [|exact Hr]. by intros b <-%Z.eqb_eq.
  - cbn [peek_is drop]. rewrite Z.eqb_refl. apply digits_complete; [done|]. eapply peek_weaken; [|exact Hr]. cbv beta. by intros b ->.
Qed.

Lemma exp_part_sound l r : exp_part l = Ok r -> exists v, exp_text v /\ l = v ++ r.
Proof.
  unfold exp_part. destruct l as [|e l]; [intros [= <-]; exists []; split; [by left|done]|]. change (drop 1 (e :: l)) with l. change (peek_is (fun b => (b =? 101) || (b =? 69)) (e :: l)) with ((e =? 101) || (e =? 69)). cbv zeta. destruct ((e =? 101) || (e =? 69)) eqn:Ee; [|intros [= <-]; exists []; split; [by left|done]].
  intros (ds & Hds & Ed & _)%digits_sound. destruct (peek_is (fun b => (b =? PLUS) || (b =? MINUS)) l) eqn:Es.
  - destruct l as [|s l]; [done|]. cbn in Es. change (drop 1 (s :: l)) with l in Ed. exists (e :: [s] ++ ds). split; [|cbn; by rewrite Ed]. right. exists e, [s], ds. apply orb_true_iff in Ee as [->%Z.eqb_eq| ->%Z.eqb_eq]; apply orb_true_iff in Es as [->%Z.eqb_eq| ->%Z.eqb_eq]; auto 10.
  - exists (e :: [] ++ ds). split; [|cbn; by rewrite Ed]. right. exists e, [], ds. apply orb_true_iff in Ee as [->%Z.eqb_eq| ->%Z.eqb_eq]; auto 10.
Qed.

Lemma exp_part_complete v r : exp_text v -> peek_is (fun b => is_digit b || (b =? 101) || (b =? 69)) r = false -> exp_part (v ++ r) = Ok r.
Proof.
  intros Hv Hr. unfold exp_part. destruct Hv as [-> |(e & sign & ds & He & Hs & Hds & ->)]; cbn [app].
  - assert (peek_is (fun b => (b =? 101) || (b =? 69)) r = false) as ->; [|done]. eapply peek_weaken; [|exact Hr]. cbv beta. intros b Hb. by rewrite <-orb_assoc, Hb, orb_true_r.
  - change (drop 1 (e :: (sign ++ ds) ++ r)) with ((sign ++ ds) ++ r). change (peek_is (fun b => (b =? 101) || (b =? 69)) (e :: (sign ++ ds) ++ r)) with ((e =? 101) || (e =? 69)). cbv zeta. replace ((e =? 101) || (e =? 69)) with true by (destruct He as [-> | ->]; done). rewrite <-app_assoc.
    assert (peek_is is_digit r = false) as Hr'. { eapply peek_weaken; [|exact Hr]. cbv beta. by intros b ->. }
    destruct Hs as [-> |[-> | ->]]; [cbn [app]|by apply digits_complete|by apply digits_complete].
    destruct Hds as [Hne Hall]. destruct ds as [|d ds]; [done|]. change (peek_is (fun b => (b =? PLUS) || (b =? MINUS)) ((d :: ds) ++ r)) with ((d =? PLUS) || (d =? MINUS)). replace ((d =? PLUS) || (d =? MINUS)) with false; [by apply (digits_complete (d :: ds))|].
    pose proof (Forall_inv Hall) as Hd. unfold is_digit in Hd. symmetry. apply orb_false_iff. split; apply Z.eqb_neq; lia.
Qed.

Lemma number_sound l r : number l = Ok r -> exists v, number_text v /\ l = v ++ r.
Proof.
  rewrite number_parts. intros (l1 & (v1 & H1 & E1)%int_part_sound & (l2 & (v2 & H2 & ->)%frac_part_sound & (v3 & H3 & ->)%exp_part_sound)%result_bind_Ok)%result_bind_Ok.
  destruct (peek_is (Z.eqb MINUS) l) eqn:Em.
  - apply peek_true in Em. exists ([MINUS] ++ v1 ++ v2 ++ v3). split; [constructor; auto|]. rewrite Em, E1, <-!app_assoc. done.
  - exists ([] ++ v1 ++ v2 ++ v3). split; [constructor; auto|]. by rewrite E1, <-!app_assoc.
Qed.

Lemma frac_head v : frac_text v -> v = [] \/ exists ds, v = DOT :: ds.
Proof. intros [-> |(ds & _ & ->)]; [by left|right; by eexists]. Qed.

Lemma exp_head v : exp_text v -> v = [] \/ exists ds, v = 101 :: ds \/ v = 69 :: ds.
Proof. intros [-> |(e & s & ds & [-> | ->] & _ & _ & ->)]; [by left|right..]; eexists; [by left|by right]. Qed.

Lemma number_complete v r : number_text v -> peek_is continues r = false -> number (v ++ r) = Ok r.
Proof.
  intros [sign int frac exp Hs Hi Hf He] Hr. rewrite number_parts.
  assert (peek_is (fun b => is_digit b || (b =? DOT)) (exp ++ r) = false) as H1.
  { destruct (exp_head _ He) as [-> |(ds & [-> | ->])]; [|done|done]. eapply peek_weaken; [|exact Hr]. unfold continues. intros b Hb. by rewrite Hb. }
  assert (peek_is is_digit (frac ++ exp ++ r) = false) as H2.
  { destruct (frac_head _ Hf) as [-> |(ds & ->)]; [|done]. eapply peek_weaken; [|exact H1]. cbv beta. by intros b ->. }
  replace (if peek_is (Z.eqb MINUS) ((sign ++ int ++ frac ++ exp) ++ r) then drop 1 ((sign ++ int ++ frac ++ exp) ++ r) else (sign ++ int ++ frac ++ exp) ++ r) with (int ++ frac ++ exp ++ r).
  - rewrite int_part_complete by done. cbn [result_bind]. rewrite frac_part_complete by done. cbn [result_bind]. apply exp_part_complete; [done|].
    eapply peek_weaken; [|exact Hr]. unfold continues. intros b. destruct (is_digit b), (b =? DOT); done.
  - destruct Hs as [-> | ->]; cbn [app peek_is drop]; rewrite <-!app_assoc; [|done]. destruct int as [|d int].
    { destruct Hi as [|[[] _]]; done. }
    cbn [app peek_is]. destruct (Z.eqb_spec MINUS d) as [<- |]; [|done]. destruct Hi as [|[[_ Hall] _]]; [done|]. by apply Forall_inv in Hall.
Qed.

Lemma literal_Ok text l r : literal text l = Ok r <-> l = text ++ r.
Proof.
  revert l. induction text as [|c text IH]; intros l; cbn; [split; [by intros [= ->]|by intros ->]|]. destruct l as [|b t]; [split; [done|by inversion 1]|].
  destruct (Z.eqb_spec b c) as [-> |]; [|split; [done|by inversion 1]]. rewrite IH. split; [by intros ->|by inversion 1].
Qed.

(** ** The cursor accepts the grammar *)

Lemma json_mono_all :
  (forall d l, json d l -> forall d', (d <= d')%nat -> json d' l) /\ (forall d l, elements d l -> forall d', (d <= d')%nat -> elements d' l) /\
  (forall d l, members d l -> forall d', (d <= d')%nat -> members d' l) /\ (forall d l, member d l -> forall d', (d <= d')%nat -> member d' l).
Proof.
  apply json_elements_members_ind; intros; try (destruct d' as [|d']; [lia|]);
    eauto using json_scalar, json_empty_array, json_empty_object, members_one, members_cons, member_of, elements_one, elements_cons with lia.
  - apply json_array. eauto with lia.
  - apply json_object. eauto with lia.
Qed.

Section loop.
Context (limit : option nat).

(** A value that nests [d] deep fits under [n] open frames. *)
Definition room (n d : nat) : Prop := match limit with Some m => (n + d <= m)%nat | None => True end.

Lemma room_S n d : room (S n) d <-> room n (S d).
Proof. unfold room. destruct limit; [|done]. by rewrite Nat.add_succ_r. Qed.

Lemma room_max n d d' : room n d -> room n d' -> room n (Nat.max d d').
Proof. unfold room. destruct limit; lia. Qed.

Definition at_room (p : nat -> list Z -> Prop) (n : nat) (l : list Z) : Prop := exists d, room n d /\ p d l.

(** Two parts under the same frames share a depth. *)
Lemma at_room_pair (p q : nat -> list Z -> Prop) n l l' :
  (forall d l, p d l -> forall d', (d <= d')%nat -> p d' l) -> (forall d l, q d l -> forall d', (d <= d')%nat -> q d' l) ->
  at_room p n l -> at_room q n l' -> exists d, room n d /\ p d l /\ q d l'.
Proof.
  intros Hp Hq (d & Hd & Hl) (d' & Hd' & Hl'). exists (Nat.max d d'). split; [by apply room_max|]. split; [by apply (Hp d); [|lia]|by apply (Hq d'); [|lia]].
Qed.

Definition bracketed (close : Z) (p : nat -> list Z -> Prop) (n : nat) (l rest : list Z) : Prop :=
  exists inner, l = inner ++ close :: rest /\ (blank inner \/ at_room p n inner).

(** What follows a value inside its array or object. *)
Definition tail_of (close : Z) (p : nat -> list Z -> Prop) (n : nat) (l rest : list Z) : Prop :=
  exists w tail, l = w ++ tail ++ close :: rest /\ blank w /\ (tail = [] \/ exists more, tail = COMMA :: more /\ at_room p n more).

(** What a cursor with the frame [f] last reads until the frame is closed. *)
Definition frame_text (f : Frame) (n : nat) (l rest : list Z) : Prop :=
  match f with
  | ArrayFirst => bracketed RBRACKET elements n l rest
  | ArrayComma => tail_of RBRACKET elements n l rest
  | ObjectFirst => bracketed RBRACE members n l rest
  | ObjectKey => exists inner, l = inner ++ RBRACE :: rest /\ at_room members n inner
  | ObjectColon => exists w w' v l', l = w ++ COLON :: w' ++ v ++ l' /\ blank w /\ blank w' /\ at_room json n v /\ tail_of RBRACE members n l' rest
  | ObjectComma => tail_of RBRACE members n l rest
  end.

Definition value_sound (fuel : nat) : Prop := forall fs l r, room (length fs) 0 -> value_loop limit fuel true fs l = Some (Ok r) ->
  exists w v rest f', l = w ++ v ++ rest /\ blank w /\ at_room json (length fs) v /\ (f' <= fuel)%nat /\ value_loop limit f' false fs rest = Some (Ok r).

Definition frame_sound (fuel : nat) : Prop := forall f fs l r, room (S (length fs)) 0 -> value_loop limit fuel false (f :: fs) l = Some (Ok r) ->
  exists rest f', frame_text f (S (length fs)) l rest /\ (f' < fuel)%nat /\ value_loop limit f' false fs rest = Some (Ok r).

Lemma loop_frame fuel f fs l : value_loop limit (S fuel) false (f :: fs) l =
  match frame_step (f :: fs) l with Err e => Some (Err e) | Ok None => Some (Ok l) | Ok (Some (value, frames, l)) => value_loop limit fuel value frames l end.
Proof. reflexivity. Qed.

Lemma loop_value fuel fs l : value_loop limit (S fuel) true fs l =
  match begin_value limit fs l with Err e => Some (Err e) | Ok (fs, l) => value_loop limit (S fuel) false fs l end.
Proof. cbn [value_loop]. by destruct (begin_value limit fs l) as [[fs' l']|]. Qed.

Lemma begin_value_sound fs l fs' l' : begin_value limit fs l = Ok (fs', l') ->
  (exists w v, l = w ++ v ++ l' /\ blank w /\ scalar v /\ fs' = fs) \/
  (exists w, blank w /\ room (length fs) 1 /\ ((l = w ++ LBRACKET :: l' /\ fs' = ArrayFirst :: fs) \/ (l = w ++ LBRACE :: l' /\ fs' = ObjectFirst :: fs))).
Proof.
  unfold begin_value. destruct (skip_space_split l) as (w & Hw & E & _). destruct (skip_space l) as [|b t]; [done|].
  destruct ((b =? LBRACKET) || (b =? LBRACE)) eqn:Eb.
  { intros Hg. right. exists w. split; [done|]. unfold room. destruct (match limit with Some limit => _ | None => false end) eqn:El; [done|].
    split; [destruct limit; [apply Nat.leb_gt in El; lia|done]|]. destruct (Z.eqb_spec b LBRACKET) as [-> |]; [left; by injection Hg as <- <-|right]. apply Z.eqb_eq in Eb as ->. by injection Hg as <- <-. }
  intros Hs. left. rewrite E. clear E.
  assert (forall v, b :: t = v ++ l' -> scalar v -> fs' = fs -> exists w0 v0, w ++ b :: t = w0 ++ v0 ++ l' /\ blank w0 /\ scalar v0 /\ fs' = fs) as Hdone by (intros v -> ? ?; by exists w, v).
  destruct (b =? QUOTE); [|destruct ((b =? MINUS) || is_digit b)].
  - apply result_bind_Ok in Hs as ([c r] & [Hc E]%quoted_sound & [= -> ->]). apply (Hdone c); [done|by left|done].
  - apply result_bind_Ok in Hs as (r & (v & Hv & E)%number_sound & [= -> ->]). apply (Hdone v); [done|by right; left|done].
  - destruct (b =? 116); [|destruct (b =? 102); [|destruct (b =? 110); [|done]]]; apply result_bind_Ok in Hs as (r & E%literal_Ok & [= -> ->]); eapply Hdone; [done| |done|done| |done|done| |done]; unfold scalar; auto.
Qed.

Lemma bracketed_json (open close : Z) (p : nat -> list Z -> Prop) n l rest : room n 1 ->
  (forall d w, blank w -> json (S d) (open :: w ++ [close])) -> (forall d l, p d l -> json (S d) (open :: l ++ [close])) ->
  bracketed close p (S n) l rest -> exists v, open :: l = v ++ rest /\ at_room json n v.
Proof.
  intros Hroom He Hp (inner & -> & Hi). exists (open :: inner ++ [close]). split; [cbn; by rewrite <-app_assoc|]. destruct Hi as [Hw|(d & Hd & Hi)].
  - exists 1%nat. split; [done|]. by apply He.
  - exists (S d). split; [by apply room_S|]. by apply Hp.
Qed.

Lemma value_sound_from fuel : frame_sound fuel -> value_sound fuel.
Proof.
  intros Hframe fs l r Hfs. destruct fuel as [|fuel]; [done|]. rewrite loop_value. destruct (begin_value limit fs l) as [[fs' l']|e] eqn:Eb; [|done].
  apply begin_value_sound in Eb as [(w & v & -> & Hw & Hv & ->)|(w & Hw & Hroom & Hopen)]; intros Hl.
  - exists w, v, l', (S fuel). split_and!; try done. exists 0%nat. split; [done|by constructor].
  - assert (exists v rest f', l = w ++ v ++ rest /\ at_room json (length fs) v /\ (f' <= S fuel)%nat /\ value_loop limit f' false fs rest = Some (Ok r)) as (v & rest & f' & -> & ? & ? & ?); [|by exists w, v, rest, f'].
    destruct Hopen as [[-> ->]|[-> ->]]; apply Hframe in Hl as (rest & f' & Ht & Hf & Hl); try by apply room_S.
    + apply (bracketed_json LBRACKET) in Ht as (v & E & Hv); [|done|apply json_empty_array|apply json_array]. exists v, rest, f'. rewrite E. split_and!; try done. lia.
    + apply (bracketed_json LBRACE) in Ht as (v & E & Hv); [|done|apply json_empty_object|apply json_object]. exists v, rest, f'. rewrite E. split_and!; try done. lia.
Qed.

(** The next value and what follows it, as the elements of an array. *)
Lemma elements_tail n w v l rest : blank w -> at_room json n v -> tail_of RBRACKET elements n l rest ->
  exists inner, w ++ v ++ l = inner ++ RBRACKET :: rest /\ at_room elements n inner.
Proof.
  intros Hw Hv (w' & tail & -> & Hw' & [-> |(more & -> & Hmore)]).
  - exists (w ++ v ++ w'). split; [by rewrite <-!app_assoc|]. destruct Hv as (d & Hd & Hv). exists d. split; [done|by constructor].
  - exists (w ++ v ++ w' ++ COMMA :: more). split; [by rewrite <-!app_assoc|]. destruct (at_room_pair json elements n v more) as (d & Hd & Hj & He); [apply json_mono_all..|done|done|].
    exists d. split; [done|by constructor].
Qed.

(** A key and what follows it, as the members of an object. *)
Lemma members_tail n w s l rest : blank w -> string_text s -> frame_text ObjectColon n l rest -> exists inner, w ++ s ++ l = inner ++ RBRACE :: rest /\ at_room members n inner.
Proof.
  intros Hw Hs (w1 & w2 & v & l' & -> & Hw1 & Hw2 & Hv & w' & tail & -> & Hw' & [-> |(more & -> & Hmore)]).
  - exists (w ++ s ++ w1 ++ COLON :: w2 ++ v ++ w'). split; [by rewrite <-!app_assoc; cbn; rewrite <-!app_assoc|]. destruct Hv as (d & Hd & Hv). exists d. split; [done|by do 2 constructor].
  - exists ((w ++ s ++ w1 ++ COLON :: w2 ++ v ++ w') ++ COMMA :: more). split; [by rewrite <-!app_assoc; cbn; rewrite <-!app_assoc|].
    destruct (at_room_pair json members n v more) as (d & Hd & Hj & Hm); [apply json_mono_all..|done|done|]. exists d. split; [done|]. constructor; [by constructor|done].
Qed.

Lemma tail_end close p n w rest : blank w -> tail_of close p n (w ++ close :: rest) rest.
Proof. intros Hw. exists w, []. auto. Qed.

Lemma tail_more close p n w l rest : blank w -> (exists inner, l = inner ++ close :: rest /\ at_room p n inner) -> tail_of close p n (w ++ COMMA :: l) rest.
Proof. intros Hw (inner & -> & Hi). exists w, (COMMA :: inner). split; [done|]. split; [done|]. right. by exists inner. Qed.

Section step.
Context (fuel : nat) (Hframe : forall f', (f' <= fuel)%nat -> frame_sound f') (fs : list Frame) (Hroom : room (S (length fs)) 0).

Lemma array_value_sound l r : value_loop limit fuel true (ArrayComma :: fs) l = Some (Ok r) ->
  exists inner rest f', l = inner ++ RBRACKET :: rest /\ at_room elements (S (length fs)) inner /\ (f' <= fuel)%nat /\ value_loop limit f' false fs rest = Some (Ok r).
Proof.
  intros (w & v & l' & f1 & -> & Hw & Hv & Hf1 & Hl)%(value_sound_from fuel (Hframe fuel (le_n _))); [|done].
  apply (Hframe f1 Hf1) in Hl as (rest & f2 & Ht & Hf2 & Hl); [|done]. destruct (elements_tail _ _ _ _ _ Hw Hv Ht) as (inner & E & Hi). exists inner, rest, f2. split_and!; try done. lia.
Qed.

Lemma object_value_sound l r : value_loop limit fuel true (ObjectComma :: fs) l = Some (Ok r) ->
  exists w v l' rest f', l = w ++ v ++ l' /\ blank w /\ at_room json (S (length fs)) v /\ tail_of RBRACE members (S (length fs)) l' rest /\ (f' <= fuel)%nat /\ value_loop limit f' false fs rest = Some (Ok r).
Proof.
  intros (w & v & l' & f1 & -> & Hw & Hv & Hf1 & Hl)%(value_sound_from fuel (Hframe fuel (le_n _))); [|done].
  apply (Hframe f1 Hf1) in Hl as (rest & f2 & Ht & Hf2 & Hl); [|done]. exists w, v, l', rest, f2. split_and!; try done. lia.
Qed.

Lemma object_key_sound w l c l' r : blank w -> quoted l = Ok (c, l') -> value_loop limit fuel false (ObjectColon :: fs) l' = Some (Ok r) ->
  exists inner rest f', w ++ l = inner ++ RBRACE :: rest /\ at_room members (S (length fs)) inner /\ (f' <= fuel)%nat /\ value_loop limit f' false fs rest = Some (Ok r).
Proof.
  intros Hw [Hs ->]%quoted_sound. intros (rest & f2 & Ht & Hf2 & Hl)%(Hframe fuel (le_n _)); [|done].
  destruct (members_tail _ _ _ _ _ Hw Hs Ht) as (inner & E & Hi). exists inner, rest, f2. split_and!; try done. lia.
Qed.
End step.

Lemma frame_sound_all fuel : frame_sound fuel.
Proof.
  induction fuel as [fuel IH] using lt_wf_ind. destruct fuel as [|fuel]; [done|]. assert (forall f', (f' <= fuel)%nat -> frame_sound f') as IH' by (intros; apply IH; lia).
  intros f fs l r Hroom. rewrite loop_frame. unfold frame_step. destruct (skip_space_split l) as (w & Hw & E & _). destruct f.
  - destruct (peek_is (Z.eqb RBRACKET) (skip_space l)) eqn:Ep.
    + apply peek_true in Ep. intros Hl. exists (drop 1 (skip_space l)), fuel. split_and!; try done; [|lia]. exists w. rewrite E at 1. rewrite Ep at 1. auto.
    + intros (inner & rest & f' & Ei & Hi & Hf & Hl)%array_value_sound; [|done..]. exists rest, f'. split_and!; try done; [|lia].
      destruct Hi as (d & Hd & Hi). exists (w ++ inner). split; [by rewrite E, Ei, app_assoc|]. right. exists d. split; [done|].
      inversion Hi; subst; rewrite (app_assoc w); [apply elements_one|apply elements_cons]; auto using blank_app.
  - destruct (peek_is (Z.eqb COMMA) (skip_space l)) eqn:Ec; [|destruct (peek_is (Z.eqb RBRACKET) (skip_space l)) eqn:Ep; [|done]].
    + apply peek_true in Ec. intros (inner & rest & f' & Ei & Hi & Hf & Hl)%array_value_sound; [|done..]. exists rest, f'. split_and!; try done; [|lia]. rewrite E, Ec. apply tail_more; [done|by exists inner].
    + apply peek_true in Ep. intros Hl. exists (drop 1 (skip_space l)), fuel. split_and!; try done; [|lia]. rewrite E at 1. rewrite Ep at 1. by apply tail_end.
  - destruct (peek_is (Z.eqb RBRACE) (skip_space l)) eqn:Ep.
    + apply peek_true in Ep. intros Hl. exists (drop 1 (skip_space l)), fuel. split_and!; try done; [|lia]. exists w. rewrite E at 1. rewrite Ep at 1. auto.
    + destruct (quoted (skip_space l)) as [[c l']|] eqn:Eq; [|done]. intros (inner & rest & f' & Ei & Hi & Hf & Hl)%(object_key_sound fuel IH' fs Hroom w _ _ _ _ Hw Eq). exists rest, f'. split_and!; try done; [|lia]. exists inner. rewrite E. auto.
  - destruct (quoted (skip_space l)) as [[c l']|] eqn:Eq; [|done]. intros (inner & rest & f' & Ei & Hi & Hf & Hl)%(object_key_sound fuel IH' fs Hroom w _ _ _ _ Hw Eq). exists rest, f'. split_and!; try done; [|lia]. exists inner. rewrite E. auto.
  - destruct (take_byte COLON (skip_space l)) as [l'|] eqn:Et; [|done]. apply take_byte_Ok in Et. intros (w' & v & l2 & rest & f' & -> & Hw' & Hv & Ht & Hf & Hl)%object_value_sound; [|done..].
    exists rest, f'. split_and!; try done; [|lia]. exists w, w', v, l2. rewrite E, Et. auto.
  - destruct (peek_is (Z.eqb COMMA) (skip_space l)) eqn:Ec; [|destruct (peek_is (Z.eqb RBRACE) (skip_space l)) eqn:Ep; [|done]].
    + apply peek_true in Ec. intros (rest & f' & (inner & Ei & Hi) & Hf & Hl)%(IH' fuel (le_n _)); [|done]. exists rest, f'. split_and!; try done; [|lia]. rewrite E, Ec. apply tail_more; [done|by exists inner].
    + apply peek_true in Ep. intros Hl. exists (drop 1 (skip_space l)), fuel. split_and!; try done; [|lia]. rewrite E at 1. rewrite Ep at 1. by apply tail_end.
Qed.

(** *** Enough fuel *)

Lemma scalar_head v : scalar v -> exists b t, v = b :: t /\ space b = false /\ (b =? RBRACKET) = false /\ (b =? RBRACE) = false.
Proof.
  assert (forall b t, space b = false -> (b =? RBRACKET) = false -> (b =? RBRACE) = false -> exists b' t', b :: t = b' :: t' /\ space b' = false /\ (b' =? RBRACKET) = false /\ (b' =? RBRACE) = false) as Hb by eauto 10.
  intros [(chars & _ & ->)|[Hn|[-> |[-> | ->]]]]; try by apply Hb. destruct Hn as [sign int frac exp [-> | ->] Hi _ _]; [|by apply Hb].
  assert (exists b t, int = b :: t /\ is_digit b = true) as (b & t & -> & Hd).
  { destruct Hi as [-> |[[Hne Hall] _]]; [by exists 48, []|]. destruct int as [|b t]; [done|]. exists b, t. by split; [|apply (Forall_inv Hall)]. }
  apply Hb; unfold is_digit, space in *; repeat rewrite ?orb_false_iff, ?Z.eqb_neq; lia.
Qed.

Lemma begin_value_length fs l fs' l' : begin_value limit fs l = Ok (fs', l') -> (length l' < length l)%nat.
Proof.
  intros [(w & v & -> & _ & (b & t & -> & _)%scalar_head & _)|(w & _ & _ & [[-> _]|[-> _]])]%begin_value_sound; rewrite !length_app; cbn; rewrite ?length_app; lia.
Qed.

Definition turn_size (value : bool) (l : list Z) : nat := 2 * length l + if value then 0 else 1.

Lemma peek_length p l : peek_is p l = true -> (length (drop 1 l) < length l)%nat.
Proof. destruct l; [done|]. cbn. rewrite drop_0. lia. Qed.

Lemma quoted_length l c r : quoted l = Ok (c, r) -> (length r < length l)%nat.
Proof. intros [(chars & _ & ->) ->]%quoted_sound. rewrite !length_app. cbn. lia. Qed.

Lemma frame_step_size fs l value fs' l' : frame_step fs l = Ok (Some (value, fs', l')) -> (turn_size value l' < turn_size false l)%nat.
Proof.
  destruct fs as [|f fs]; [done|]. unfold frame_step, turn_size. pose proof (length_skip_space l) as Hsk.
  assert (forall r : list Z, (length r < length (skip_space l))%nat -> (2 * length r + (if value then 0 else 1) < 2 * length l + 1)%nat) as Hless by (intros; destruct value; lia).
  destruct f; repeat match goal with |- context [peek_is ?p ?k] => destruct (peek_is p k) eqn:?; cbv iota end; try done;
    try (intros (? & H & E)%result_bind_Ok; destruct_and?);
    try (intros [= <- _ <-]; by apply Hless, (peek_length _ _ ltac:(eassumption))).
  - intros [= <- _ <-]. lia.
  - destruct x as [c r]. injection E as <- _ <-. by apply Hless, (quoted_length _ c).
  - destruct x as [c r]. injection E as <- _ <-. by apply Hless, (quoted_length _ c).
  - apply take_byte_Ok in H. injection E as <- _ <-. apply Hless. rewrite H. cbn. lia.
Qed.

Lemma value_loop_enough fuel : forall value fs l, (turn_size value l < fuel)%nat -> value_loop limit fuel value fs l <> None.
Proof.
  induction fuel as [|fuel IH]; intros value fs l Hf; [lia|]. cbn [value_loop].
  assert (forall fs1 l1, (turn_size false l1 <= turn_size value l)%nat -> match frame_step fs1 l1 with Err e => Some (Err e) | Ok None => Some (Ok l1) | Ok (Some (value, frames, l)) => value_loop limit fuel value frames l end <> None) as Hstep.
  { intros fs1 l1 Hle. destruct (frame_step fs1 l1) as [[[[value' fs2] l2]|]|] eqn:Es; try done. apply frame_step_size in Es. apply IH. lia. }
  destruct value; [|by apply Hstep]. destruct (begin_value limit fs l) as [[fs1 l1]|] eqn:Eb; [|done]. apply begin_value_length in Eb. apply Hstep. unfold turn_size. lia.
Qed.

(** *** Completeness *)

Definition runs (value : bool) (fs : list Frame) (l : list Z) (r : result (list Z) JsonError) : Prop := exists fuel, value_loop limit fuel value fs l = Some r.

Lemma value_loop_mono fuel : forall fuel' value fs l r, (fuel <= fuel')%nat -> value_loop limit fuel value fs l = Some r -> value_loop limit fuel' value fs l = Some r.
Proof.
  induction fuel as [|fuel IH]; [done|]. intros [|fuel'] value fs l r Hle; [lia|]. cbn [value_loop]. destruct (if value then _ else _) as [[fs1 l1]|]; [|done].
  destruct (frame_step fs1 l1) as [[[[value' fs2] l2]|]|]; try done. apply IH. lia.
Qed.

Lemma runs_value value fs l r : runs value fs l r -> value_loop limit (value_fuel l) value fs l = Some r.
Proof.
  intros [fuel Hf]. destruct (value_loop limit (value_fuel l) value fs l) as [r'|] eqn:E.
  - apply (value_loop_mono _ (Nat.max fuel (value_fuel l))) in E, Hf; [congruence|lia..].
  - apply value_loop_enough in E; [done|]. unfold turn_size, value_fuel. destruct value; lia.
Qed.

Lemma runs_frame f fs l value fs' l' r : frame_step (f :: fs) l = Ok (Some (value, fs', l')) -> runs value fs' l' r -> runs false (f :: fs) l r.
Proof. intros Hs [fuel Hf]. exists (S fuel). by rewrite loop_frame, Hs. Qed.

Lemma runs_begin fs l fs' l' r : begin_value limit fs l = Ok (fs', l') -> runs false fs' l' r -> runs true fs l r.
Proof. intros Hb [[|fuel] Hf]; [done|]. exists (S fuel). by rewrite loop_value, Hb. Qed.

Lemma runs_skip w fs l r : blank w -> runs true fs l r -> runs true fs (w ++ l) r.
Proof.
  intros Hw [[|fuel] Hf]; [done|]. exists (S fuel). rewrite loop_value in Hf |- *. replace (begin_value limit fs (w ++ l)) with (begin_value limit fs l); [done|].
  unfold begin_value. by rewrite skip_space_blank.
Qed.

Lemma runs_skipped fs l r : runs true fs l r -> runs true fs (skip_space l) r.
Proof.
  intros [[|fuel] Hf]; [done|]. exists (S fuel). rewrite loop_value in Hf |- *. replace (begin_value limit fs (skip_space l)) with (begin_value limit fs l); [done|].
  unfold begin_value. by rewrite skip_space_idem.
Qed.

Lemma frame_step_goes_on f fs l : frame_step (f :: fs) l <> Ok None.
Proof.
  unfold frame_step. generalize (skip_space l). clear l. intros l.
  destruct f; repeat match goal with |- context [peek_is ?p l] => destruct (peek_is p l); cbv iota end; try done;
    [destruct (quoted l) as [[]|]|destruct (quoted l) as [[]|]|destruct (take_byte COLON l)]; done.
Qed.

(** Blanks after a value belong to its frame. *)
Lemma runs_frame_skip w f fs l r : blank w -> runs false (f :: fs) l r -> runs false (f :: fs) (w ++ l) r.
Proof.
  intros Hw [[|fuel] Hf]; [done|]. exists (S fuel). rewrite loop_frame in Hf |- *. replace (frame_step (f :: fs) (w ++ l)) with (frame_step (f :: fs) l).
  - destruct (frame_step (f :: fs) l) as [[[[? ?] ?]|]|] eqn:E; try done. by apply frame_step_goes_on in E.
  - unfold frame_step. by rewrite skip_space_blank.
Qed.

Lemma begin_scalar v fs rest : scalar v -> peek_is continues rest = false -> begin_value limit fs (v ++ rest) = Ok (fs, rest).
Proof.
  intros Hv Hr. destruct (scalar_head v Hv) as (b & t & -> & Hsp & _ & _). unfold begin_value. rewrite skip_space_id by done. cbn [app].
  destruct Hv as [Hs|[Hn|Hl]].
  - pose proof (quoted_complete _ rest Hs) as Hq. destruct Hs as (chars & _ & [= -> ->]). cbn [app] in Hq. by rewrite Hq.
  - pose proof (number_complete _ rest Hn Hr) as Hq. cbn [app] in Hq. assert ((b =? MINUS) || is_digit b = true) as Hb.
    { inversion Hn as [sign int frac exp Hs Hi Hf He E]. destruct Hs as [-> | ->]; [|by injection E as <- _]. destruct Hi as [-> |[[Hne Hall] _]]; [by injection E as <- _|].
      destruct int as [|d int]; [done|]. injection E as <- _. by rewrite (Forall_inv Hall), orb_true_r. }
    assert ((b =? LBRACKET) || (b =? LBRACE) = false /\ (b =? QUOTE) = false) as [-> ->].
    { unfold is_digit in Hb. repeat rewrite ?orb_false_iff, ?Z.eqb_neq. lia. }
    rewrite Hb, Hq. done.
  - destruct Hl as [[= -> ->]|[[= -> ->]|[= -> ->]]]; done.
Qed.

Lemma json_head d v : json d v -> exists b t, v = b :: t /\ space b = false /\ (b =? RBRACKET) = false /\ (b =? RBRACE) = false.
Proof. intros Hv. destruct Hv; [by apply scalar_head|eauto 10..]. Qed.

Lemma elements_head d l : elements d l -> exists w b t, l = w ++ b :: t /\ blank w /\ space b = false /\ (RBRACKET =? b) = false.
Proof. intros Hl. destruct Hl as [? ? v ? Hw (b & t & -> & Hb & Hc & _)%json_head|? ? v ? ? Hw (b & t & -> & Hb & Hc & _)%json_head]; rewrite Z.eqb_sym in Hc; eauto 10. Qed.

Lemma members_head d l : members d l -> exists w s t, l = w ++ s ++ t /\ blank w /\ string_text s.
Proof. intros Hl. destruct Hl as [? ? Hm|? ? ? Hm _]; destruct Hm; [eauto 10|]. exists w, s. rewrite <-!app_assoc. eauto. Qed.

Lemma skip_to w b t : blank w -> space b = false -> skip_space (w ++ b :: t) = b :: t.
Proof. intros Hw Hb. rewrite skip_space_blank by done. by apply skip_space_id. Qed.

Lemma blank_continues w l : blank w -> peek_is continues l = false -> peek_is continues (w ++ l) = false.
Proof.
  intros Hw Hl. destruct Hw as [|b w Hb _]; [done|]. cbn. unfold space, continues, is_digit in *. repeat rewrite ?orb_true_iff, ?Z.eqb_eq in Hb.
  repeat rewrite ?orb_false_iff, ?andb_false_iff, ?Z.eqb_neq, ?Z.leb_gt. lia.
Qed.

Lemma key_runs w s f fs l r : f = ObjectFirst \/ f = ObjectKey -> blank w -> string_text s -> runs false (ObjectColon :: fs) l r -> runs false (f :: fs) (w ++ s ++ l) r.
Proof.
  intros Hf Hw Hs Hr. pose proof (quoted_complete s l Hs) as Hq. eapply runs_frame; [|exact Hr]. unfold frame_step. rewrite skip_space_blank by done.
  destruct Hs as (chars & _ & ->). cbn [app] in Hq |- *. rewrite skip_space_id by done. destruct Hf as [-> | ->]; cbn [peek_is]; [change (RBRACE =? QUOTE) with false; cbv iota|]; by rewrite Hq.
Qed.

Lemma open_runs (b : Z) f fs l r : (b = LBRACKET /\ f = ArrayFirst) \/ (b = LBRACE /\ f = ObjectFirst) -> room (length fs) 1 -> runs false (f :: fs) l r -> runs true fs (b :: l) r.
Proof.
  intros Hb Hroom. apply runs_begin. unfold begin_value, room in *. rewrite skip_space_id by (by destruct Hb as [[-> _]|[-> _]]).
  replace (match limit with Some limit => _ | None => false end) with false by (destruct limit; [symmetry; apply Nat.leb_gt; lia|done]). by destruct Hb as [[-> ->]|[-> ->]].
Qed.

(** Closing a frame after blanks. *)
Lemma close_runs close f fs w rest r : (close = RBRACKET /\ (f = ArrayFirst \/ f = ArrayComma)) \/ (close = RBRACE /\ (f = ObjectFirst \/ f = ObjectComma)) ->
  blank w -> runs false fs rest r -> runs false (f :: fs) (w ++ close :: rest) r.
Proof.
  intros Hc Hw. apply runs_frame. unfold frame_step. rewrite skip_to by (done || by destruct Hc as [[-> _]|[-> _]]). by destruct Hc as [[-> [-> | ->]]|[-> [-> | ->]]].
Qed.

Lemma comma_runs f value f' fs w rest r : (f = ArrayComma /\ f' = ArrayComma /\ value = true) \/ (f = ObjectComma /\ f' = ObjectKey /\ value = false) ->
  blank w -> runs value (f' :: fs) rest r -> runs false (f :: fs) (w ++ COMMA :: rest) r.
Proof.
  intros Hc Hw. apply runs_frame. unfold frame_step. rewrite skip_to by done. by destruct Hc as [(-> & -> & ->)|(-> & -> & ->)].
Qed.

Lemma room_le n d d' : (d' <= d)%nat -> room n d -> room n d'.
Proof. unfold room. destruct limit; [lia|done]. Qed.

Lemma first_element_runs fs l rest r : (exists w b t, l = w ++ b :: t /\ blank w /\ space b = false /\ (RBRACKET =? b) = false) ->
  runs true (ArrayComma :: fs) (l ++ rest) r -> runs false (ArrayFirst :: fs) (l ++ rest) r.
Proof.
  intros (w & b & t & -> & Hw & Hb & Hc) Hr%runs_skipped. eapply runs_frame; [|exact Hr]. unfold frame_step. rewrite <-app_assoc. cbn [app]. rewrite skip_to by done. cbn [peek_is]. by rewrite Hc.
Qed.

Lemma json_runs :
  (forall d v, json d v -> forall fs rest r, room (length fs) d -> peek_is continues rest = false -> runs false fs rest r -> runs true fs (v ++ rest) r) /\
  (forall d l, elements d l -> forall fs rest r, room (S (length fs)) d -> runs false fs rest r -> runs true (ArrayComma :: fs) (l ++ RBRACKET :: rest) r) /\
  (forall d l, members d l -> forall f fs rest r, f = ObjectFirst \/ f = ObjectKey -> room (S (length fs)) d -> runs false fs rest r -> runs false (f :: fs) (l ++ RBRACE :: rest) r) /\
  (forall d l, member d l -> forall f fs rest r, f = ObjectFirst \/ f = ObjectKey -> room (S (length fs)) d -> peek_is continues rest = false -> runs false (ObjectComma :: fs) rest r -> runs false (f :: fs) (l ++ rest) r).
Proof.
  apply json_elements_members_ind.
  - intros d l Hl fs rest r _ Hc. by apply runs_begin, begin_scalar.
  - intros d w Hw fs rest r Hroom _ Hr. cbn [app]. rewrite <-app_assoc. eapply open_runs; [by left|by eapply room_le; [|exact Hroom]; lia|]. apply close_runs; auto.
  - intros d l Hl IH fs rest r Hroom _ Hr. cbn [app]. rewrite <-app_assoc. eapply open_runs; [by left|by eapply room_le; [|exact Hroom]; lia|].
    apply first_element_runs; [by eapply elements_head|]. apply IH; [by apply room_S|done].
  - intros d w Hw fs rest r Hroom _ Hr. cbn [app]. rewrite <-app_assoc. eapply open_runs; [by right|by eapply room_le; [|exact Hroom]; lia|]. apply close_runs; auto.
  - intros d l Hl IH fs rest r Hroom _ Hr. cbn [app]. rewrite <-app_assoc. eapply open_runs; [by right|by eapply room_le; [|exact Hroom]; lia|]. apply IH; [by left|by apply room_S|done].
  - intros d w v w' Hw Hv IH Hw' fs rest r Hroom Hr. rewrite <-!app_assoc. apply runs_skip; [done|]. apply IH; [done|by apply blank_continues|]. apply close_runs; auto.
  - intros d w v w' l Hw Hv IH Hw' Hl IHl fs rest r Hroom Hr. rewrite <-!app_assoc. apply runs_skip; [done|]. apply IH; [done|by apply blank_continues|]. cbn [app]. eapply comma_runs; [by left|done|]. by apply IHl.
  - intros d l Hl IH f fs rest r Hf Hroom Hr. apply IH; [done..|]. apply (close_runs RBRACE _ _ []); auto. by constructor.
  - intros d l l' Hl IH Hl' IH' f fs rest r Hf Hroom Hr. rewrite <-app_assoc. apply IH; [done..|]. cbn [app]. apply (comma_runs _ false ObjectKey _ []); [by right|by constructor|]. apply IH'; auto.
  - intros d w s w1 w2 v w' Hw Hs Hw1 Hw2 Hv IH Hw' f fs rest r Hf Hroom Hc Hr. rewrite <-!app_assoc. apply key_runs; [done..|]. apply (runs_frame _ _ _ true (ObjectComma :: fs) (w2 ++ v ++ w' ++ rest)); [|apply runs_skip; [exact Hw2|]; apply IH; [done|by apply blank_continues|]].
    + unfold frame_step. cbn [app]. rewrite skip_to by done. cbn [take_byte]. rewrite Z.eqb_refl. cbn [result_bind]. by rewrite <-!app_assoc.
    + by apply runs_frame_skip.
Qed.
End loop.

Lemma take_front (v rest : list Z) : take (length (v ++ rest) - length rest) (v ++ rest) = v.
Proof. rewrite length_app, Nat.add_sub. apply take_app_length. Qed.

Lemma value_with_depth_sound limit l v rest : value_with_depth limit l = Ok (v, rest) -> exists w, blank w /\ l = w ++ v ++ rest /\ at_room limit json 0 v.
Proof.
  unfold value_with_depth. destruct (skip_space_split l) as (w & Hw & E & _). intros (r & Hl & [= <- <-])%result_bind_Ok.
  destruct (value_loop _ _ _ _ _) as [res|] eqn:Er; [|done]. cbn in Hl. subst res. apply value_sound_from in Er as (w' & v & rest & f' & Es & Hw' & Hv & _ & Hr); [|apply frame_sound_all|unfold room; destruct limit; [cbn; lia|done]].
  destruct f' as [|f']; [done|]. injection Hr as <-. assert (w' = []) as ->.
  { destruct (skip_space_split l) as (_ & _ & _ & Hp). rewrite Es in Hp. destruct Hw' as [|b w' Hb _]; [done|]. cbn in Hp. congruence. }
  cbn in Es. exists w. split; [done|]. rewrite E at 1. rewrite Es, take_front. done.
Qed.

Lemma value_with_depth_complete limit d w v rest : blank w -> json d v -> room limit 0 d -> peek_is continues rest = false -> value_with_depth limit (w ++ v ++ rest) = Ok (v, rest).
Proof.
  intros Hw Hv Hroom Hr. destruct (json_head d v Hv) as (b & t & -> & Hb & _). unfold value_with_depth. cbn [app]. rewrite skip_to by done. rewrite (runs_value limit true [] (b :: t ++ rest) (Ok rest)).
  - cbn [default id result_bind]. pose proof (take_front (b :: t) rest) as Hf. cbn [app] in Hf. by rewrite Hf.
  - apply (proj1 (json_runs limit) d (b :: t) Hv); [done..|]. by exists 1%nat.
Qed.

Lemma json_value_exact limit l v rest : peek_is continues rest = false -> value_with_depth limit l = Ok (v, rest) <-> exists w, blank w /\ l = w ++ v ++ rest /\ at_room limit json 0 v.
Proof.
  intros Hr. split; [apply value_with_depth_sound|]. intros (w & Hw & -> & d & Hroom & Hv). by apply (value_with_depth_complete limit d).
Qed.

Lemma validate_with_depth_exact l m : validate_with_depth l m = Ok tt <-> json_text m l.
Proof.
  unfold validate_with_depth. split.
  - intros ([v rest] & (w & Hw & -> & d & Hd & Hv)%value_with_depth_sound & Hr%cursor_done_Ok)%result_bind_Ok. exists w, v, rest. split_and!; try done. by apply (proj1 json_mono_all d); [|].
  - intros (w & v & w' & Hw & Hv & Hw' & ->). rewrite (value_with_depth_complete (Some m) m); [by apply cursor_done_Ok|done|done|cbn; lia|]. rewrite <-(app_nil_r w'). by apply blank_continues.
Qed.
