(* ===== verification/GoScanner.v ===== *)
(** * GoScanner: Go's JSON scanner (headscale-api-acl/src/go_json/scanner.rs)

    The scanner sees one byte at a time.  Some states hand their byte on to another
    state ([Again]); the others finish with it ([Stop]).  A step that fails still leaves
    the scanner in a state, which [first_raw_value] looks at.  The text of an error is
    its byte and its context. *)

From stdpp Require Import base list.
From Stdlib Require Import ZArith Lia.
From S2P Require Import Prelude Bytes GoJson.

Open Scope Z_scope.

Inductive State :=
| BeginValue | BeginValueOrEmpty | BeginString | BeginStringOrEmpty
| InString | Escape | Unicode (remaining : nat)
| Negative | Zero | Integer | Dot | Fraction | Exponent | ExponentSign | ExponentDigits
| Literal (text : list Z) (next : nat)
| EndValue | EndTop.

Inductive ScanFrame := KeyFrame | ValueFrame | ArrayFrame.

Record Scanner := mkScanner { sc_state : State; sc_frames : list ScanFrame; sc_end_top : bool }.

Definition Scanner_default : Scanner := mkScanner BeginValue [] false.

Inductive Context :=
| LookingForValue | LookingForKey | InStringLiteral | InEscape | InUnicodeEscape
| InNumber | AfterDot | InExponent | InLiteral (text : list Z) (expected : Z)
| AfterKey | AfterMember | AfterElement | AfterTop | ExceededDepth.

Inductive ScanError := InvalidCharacter (b : Z) (c : Context) | UnexpectedEnd | UnexpectedEofError.

(** One turn of the loop of [step]: the byte is used up, with or without an error, or
    goes to the new state. *)
Inductive Turn := Again (s : Scanner) | Stop (s : Scanner) (e : option ScanError).

Definition with_state (s : Scanner) (st : State) : Scanner := mkScanner st (sc_frames s) (sc_end_top s).
Definition with_last (s : Scanner) (st : State) (f : ScanFrame) : Scanner := mkScanner st (f :: drop 1 (sc_frames s)) (sc_end_top s).

Definition used (s : Scanner) : Turn := Stop s None.
Definition fails (s : Scanner) (b : Z) (c : Context) : Turn := Stop s (Some (InvalidCharacter b c)).

(** [push], and the state that follows it. *)
Definition push (s : Scanner) (b : Z) (f : ScanFrame) (st : State) : Turn :=
  let frames := f :: sc_frames s in
  if (MAX_DEPTH <? length frames)%nat then fails (mkScanner (sc_state s) frames (sc_end_top s)) b ExceededDepth
  else used (mkScanner st frames (sc_end_top s)).

Definition pop (s : Scanner) : Scanner :=
  match drop 1 (sc_frames s) with
  | [] => mkScanner EndTop [] true
  | frames => mkScanner EndValue frames (sc_end_top s)
  end.

Definition begin_turn (s : Scanner) (b : Z) : Turn :=
  if b =? LBRACE then push s b KeyFrame BeginStringOrEmpty
  else if b =? LBRACKET then push s b ArrayFrame BeginValueOrEmpty
  else if b =? QUOTE then used (with_state s InString)
  else if b =? MINUS then used (with_state s Negative)
  else if b =? 48 then used (with_state s Zero)
  else if is_digit b then used (with_state s Integer)
  else if b =? 116 then used (with_state s (Literal true_text 1))
  else if b =? 102 then used (with_state s (Literal false_text 1))
  else if b =? 110 then used (with_state s (Literal null_text 1))
  else fails s b LookingForValue.

Definition end_value_turn (s : Scanner) (b : Z) : Turn :=
  match sc_frames s with
  | [] => Again (mkScanner EndTop [] true)
  | frame :: _ =>
      if space b then used s
      else match frame with
           | KeyFrame => if b =? COLON then used (with_last s BeginValue ValueFrame) else fails s b AfterKey
           | ValueFrame => if b =? COMMA then used (with_last s BeginString KeyFrame) else if b =? RBRACE then used (pop s) else fails s b AfterMember
           | ArrayFrame => if b =? COMMA then used (with_state s BeginValue) else if b =? RBRACKET then used (pop s) else fails s b AfterElement
           end
  end.

Definition turn (s : Scanner) (b : Z) : Turn :=
  match sc_state s with
  | BeginValueOrEmpty => if space b then used s else Again (with_state s (if b =? RBRACKET then EndValue else BeginValue))
  | BeginValue => if space b then used s else begin_turn s b
  | BeginStringOrEmpty => if space b then used s else if b =? RBRACE then Again (with_last s EndValue ValueFrame) else Again (with_state s BeginString)
  | BeginString => if space b then used s else if b =? QUOTE then used (with_state s InString) else fails s b LookingForKey
  | InString =>
      if b =? QUOTE then used (with_state s EndValue) else if b =? BACKSLASH then used (with_state s Escape)
      else if b <=? 31 then fails s b InStringLiteral else used s
  | Escape => if simple_escape b then used (with_state s InString) else if b =? 117 then used (with_state s (Unicode 4)) else fails s b InEscape
  | Unicode n => if negb (is_hexdigit b) then fails s b InUnicodeEscape else used (with_state s (if (n =? 1)%nat then InString else Unicode (n - 1)))
  | Negative => if b =? 48 then used (with_state s Zero) else if is_digit b then used (with_state s Integer) else fails s b InNumber
  | Integer => if is_digit b then used s else Again (with_state s Zero)
  | Zero => if b =? DOT then used (with_state s Dot) else if (b =? 101) || (b =? 69) then used (with_state s Exponent) else Again (with_state s EndValue)
  | Dot => if is_digit b then used (with_state s Fraction) else fails s b AfterDot
  | Fraction => if is_digit b then used s else if (b =? 101) || (b =? 69) then used (with_state s Exponent) else Again (with_state s EndValue)
  | Exponent => if (b =? PLUS) || (b =? MINUS) then used (with_state s ExponentSign) else Again (with_state s ExponentSign)
  | ExponentSign => if is_digit b then used (with_state s ExponentDigits) else fails s b InExponent
  | ExponentDigits => if is_digit b then used s else Again (with_state s EndValue)
  | Literal text next =>
      let expected := byte_at text next in
      if negb (b =? expected) then fails s b (InLiteral text expected)
      else used (with_state s (if (next + 1 =? length text)%nat then EndValue else Literal text (next + 1)))
  | EndValue => end_value_turn s b
  | EndTop => if space b then used s else fails s b AfterTop
  end.

(** At most four turns: an integer's end is a number's end, a value's end and, at the
    top, the end. *)
Fixpoint turns (fuel : nat) (s : Scanner) (b : Z) : option (Scanner * option ScanError) :=
  match fuel with
  | O => None
  | S fuel => match turn s b with Again s => turns fuel s b | Stop s e => Some (s, e) end
  end.

Definition step (s : Scanner) (b : Z) : Scanner * option ScanError := default (s, None) (turns 4 s b).

Fixpoint scan (s : Scanner) (l : list Z) : result Scanner ScanError :=
  match l with
  | [] => Ok s
  | b :: l => match step s b with (s, None) => scan s l | (_, Some e) => Err e end
  end.

Definition check_valid (l : list Z) : result unit ScanError :=
  let? s := scan Scanner_default l in
  if sc_end_top s then Ok tt
  else
    let? s := scan s [SPACE] in
    if sc_end_top s then Ok tt else Err UnexpectedEnd.

(** The loop of [first_raw_value] over the bytes from the first that is not blank; [n] is
    how many it has read. *)
Fixpoint raw_loop (s : Scanner) (bytes : list Z) (n : nat) (l : list Z) : result (option (list Z)) ScanError :=
  match l with
  | [] => if sc_end_top (step s SPACE).1 then Ok (Some bytes) else Err UnexpectedEofError
  | b :: l =>
      let inside := negb (is_nil (sc_frames s)) in
      let '(s, e) := step s b in
      if sc_end_top s then Ok (Some (take (if inside then n + 1 else n) bytes))
      else match e with Some e => Err e | None => raw_loop s bytes (n + 1) l end
  end.

Definition first_raw_value (bytes : list Z) : result (option (list Z)) ScanError :=
  match skip_space bytes with
  | [] => Ok None
  | bytes => raw_loop Scanner_default bytes 0 bytes
  end.

(** ** A step ends *)

Definition loop_rank (st : State) : nat :=
  match st with
  | EndValue | BeginValue | BeginString | ExponentSign => 1
  | Zero | Fraction | ExponentDigits | BeginValueOrEmpty | BeginStringOrEmpty | Exponent => 2
  | Integer => 3
  | _ => 0
  end.

Lemma turn_rank s b s' : turn s b = Again s' -> (loop_rank (sc_state s') < loop_rank (sc_state s))%nat.
Proof.
  unfold turn, begin_turn, push, end_value_turn, used, fails. destruct s as [[] frames e]; cbn [sc_state sc_frames with_state with_last loop_rank];
    repeat match goal with |- (if ?c then _ else _) = _ -> _ => destruct c | |- match ?f with _ => _ end = _ -> _ => destruct f end; try done; intros [= <-]; try (cbn; lia).
  destruct (b =? RBRACKET); cbn; lia.
Qed.

Lemma turns_enough fuel : forall s b, (loop_rank (sc_state s) < fuel)%nat -> turns fuel s b <> None.
Proof.
  induction fuel as [|fuel IH]; intros s b Hr; [lia|]. cbn [turns]. destruct (turn s b) as [s'|s' e] eqn:Et; [|done]. apply turn_rank in Et. apply IH. lia.
Qed.

Lemma turns_mono fuel : forall s b r, turns fuel s b = Some r -> turns (S fuel) s b = Some r.
Proof.
  induction fuel as [|fuel IH]; intros s b r Hr; [done|]. cbn [turns] in Hr. change (turns (S (S fuel)) s b) with (match turn s b with Again s => turns (S fuel) s b | Stop s e => Some (s, e) end).
  destruct (turn s b); [by apply IH|done].
Qed.

Lemma step_turn s b : step s b = match turn s b with Again s => step s b | Stop s e => (s, e) end.
Proof.
  unfold step. change (turns 4 s b) with (match turn s b with Again s => turns 3 s b | Stop s e => Some (s, e) end) at 1. destruct (turn s b) as [s'|s' e] eqn:Et; [|done].
  destruct (turns 3 s' b) as [r|] eqn:E3; [by rewrite (turns_mono _ _ _ _ E3)|]. apply turn_rank in Et. apply turns_enough in E3; [done|].
  destruct (sc_state s) eqn:Es; cbn [loop_rank] in Et; lia.
Qed.

(** ** The scanner reads as the cursor does *)

Definition accepts (s : Scanner) (l : list Z) : bool := match scan s (l ++ [SPACE]) with Ok s => sc_end_top s | Err _ => false end.

Definition at_end (s : Scanner) : Prop := sc_end_top s = true -> sc_state s = EndTop.

Lemma turn_at_end s b : at_end s -> match turn s b with Again s' => at_end s' | Stop s' _ => at_end s' end.
Proof.
  unfold at_end. destruct s as [st frames []]; cbn [sc_end_top sc_state]; intros Hs.
  - rewrite (Hs eq_refl). unfold turn. cbn [sc_state]. by destruct (space b).
  - unfold turn, begin_turn, push, end_value_turn, used, fails, pop. destruct st; cbn [sc_state sc_frames with_state with_last sc_end_top];
      repeat match goal with |- match (if ?c then _ else _) with _ => _ end => destruct c | |- match (match ?f with _ => _ end) with _ => _ end => destruct f end; try done.
    all: cbn; try done. all: by destruct frames.
Qed.

Lemma step_at_end s b s' e : at_end s -> step s b = (s', e) -> at_end s'.
Proof.
  unfold step. intros Hs. destruct (turns 4 s b) as [r|] eqn:Et; cbn; [|by intros [= <- <-]]. intros ->. revert s Hs Et. generalize 4%nat.
  induction n as [|n IH]; intros s Hs; [done|]. cbn [turns]. pose proof (turn_at_end s b Hs) as Ht. destruct (turn s b); [by apply IH|]. by intros [= <- <-].
Qed.

Lemma scan_app s l k : scan s (l ++ k) = result_bind (scan s l) (fun s => scan s k).
Proof. revert s. induction l as [|b l IH]; intros s; [done|]. cbn [app scan]. destruct (step s b) as [s' [e|]]; [done|]. apply IH. Qed.

Lemma scan_at_end l : forall s s', at_end s -> scan s l = Ok s' -> at_end s'.
Proof.
  induction l as [|b l IH]; intros s s' Hs; cbn [scan]; [by intros [= <-]|]. destruct (step s b) as [s1 [e|]] eqn:E; [done|]. apply IH. by eapply step_at_end.
Qed.

Lemma check_valid_accepts l : check_valid l = Ok tt <-> accepts Scanner_default l = true.
Proof.
  unfold check_valid, accepts. rewrite scan_app. destruct (scan Scanner_default l) as [s|e] eqn:E; cbn [result_bind]; [|done].
  apply scan_at_end in E; [|done]. destruct (sc_end_top s) eqn:Et.
  - split; [|done]. intros _. destruct s as [st fs et]. cbn in Et. subst et. specialize (E eq_refl). cbn in E. subst st. reflexivity.
  - destruct (scan s [SPACE]) as [s'|]; cbn [result_bind]; [|done]. by destruct (sc_end_top s').
Qed.

Section tokens.
Context (fs : list ScanFrame).

Notation within st := (mkScanner st fs false).

Lemma scan_used st b st' l : turn (within st) b = used (within st') -> scan (within st) (b :: l) = scan (within st') l.
Proof. intros Ht. cbn [scan]. rewrite step_turn, Ht. done. Qed.

Lemma scan_again st b s' l : turn (within st) b = Again s' -> scan (within st) (b :: l) = scan s' (b :: l).
Proof. intros Ht. cbn [scan]. by rewrite step_turn, Ht. Qed.

Lemma accepts_used st b st' l : turn (within st) b = used (within st') -> accepts (within st) (b :: l) = accepts (within st') l.
Proof. intros Ht. unfold accepts. cbn [app]. by rewrite (scan_used _ _ _ _ Ht). Qed.

Lemma accepts_again st b s' l : turn (within st) b = Again s' -> accepts (within st) (b :: l) = accepts s' (b :: l).
Proof. intros Ht. unfold accepts. cbn [app]. by rewrite (scan_again _ _ _ _ Ht). Qed.

Lemma accepts_fails st b c l : turn (within st) b = fails (within st) b c -> accepts (within st) (b :: l) = false.
Proof. intros Ht. unfold accepts. cbn [app scan]. by rewrite step_turn, Ht. Qed.

(** The scanner and the cursor read the same token: up to the end of a value, or both
    refuse it. *)
Definition reads (st : State) (l : list Z) (r : result (list Z) JsonError) : Prop :=
  match r with
  | Ok rest => scan (within st) (l ++ [SPACE]) = scan (within EndValue) (rest ++ [SPACE])
  | Err _ => accepts (within st) l = false
  end.

Lemma reads_used st b st' l r : turn (within st) b = used (within st') -> reads st' l r -> reads st (b :: l) r.
Proof. intros Ht. unfold reads. destruct r; [cbn [app]; by rewrite (scan_used _ _ _ _ Ht)|by rewrite (accepts_used _ _ _ _ Ht)]. Qed.

Lemma reads_again st b st' l r : turn (within st) b = Again (within st') -> reads st' (b :: l) r -> reads st (b :: l) r.
Proof. intros Ht. unfold reads. destruct r; [cbn [app]; by rewrite (scan_again _ _ _ _ Ht)|by rewrite (accepts_again _ _ _ _ Ht)]. Qed.

Lemma reads_fails st b c l e : turn (within st) b = fails (within st) b c -> reads st (b :: l) (Err e).
Proof. apply accepts_fails. Qed.

Lemma reads_nothing st e : (exists st', turn (within st) SPACE = used (within st')) \/ (exists c, turn (within st) SPACE = fails (within st) SPACE c) -> reads st [] (Err e).
Proof. unfold reads, accepts. cbn [app scan]. rewrite step_turn. intros [(st' & ->)|(c & ->)]; done. Qed.

(** Reading on after a prefix that [quoted_loop] puts back in front. *)
Lemma map_fst_bind (f : list Z -> list Z) (r : result (list Z * list Z) JsonError) : result_map snd (result_bind r (fun '(c, r) => Ok (f c, r))) = result_map snd r.
Proof. by destruct r as [[]|]. Qed.

Lemma hex_reads k h l r : is_hexdigit h = true -> reads (if (k =? 1)%nat then InString else Unicode (k - 1)) l r -> reads (Unicode k) (h :: l) r.
Proof. intros Hh. apply reads_used. unfold turn. cbn [sc_state]. by rewrite Hh. Qed.

Lemma hex_refused k l e : (length l < k \/ existsb (fun h => negb (is_hexdigit h)) (take k l) = true)%nat -> reads (Unicode k) l (Err e).
Proof.
  revert l. induction k as [|k IH]; intros l Hk; [destruct Hk; [lia|by destruct l]|]. destruct l as [|h l]; [apply reads_nothing; right; by eexists|].
  destruct (is_hexdigit h) eqn:Eh; [|by apply (reads_fails _ _ InUnicodeEscape); unfold turn; cbn [sc_state]; rewrite Eh].
  apply hex_reads; [done|]. cbn [take existsb length] in Hk. rewrite Eh in Hk. cbn [negb orb] in Hk. destruct k as [|k]; [destruct Hk; [lia|by destruct l]|]. cbn [Nat.eqb Nat.sub]. apply IH. destruct Hk; [left; lia|by right].
Qed.

Lemma string_reads n : forall l, (length l <= n)%nat -> reads InString l (result_map snd (quoted_loop l)).
Proof.
  induction n as [|n IH]; intros [|b l] Hn; [|cbn in Hn; lia| |]; try (apply reads_nothing; left; by eexists).
  cbn [quoted_loop]. cbn in Hn. destruct (b =? QUOTE) eqn:Eq.
  { apply (reads_used _ _ EndValue); [unfold turn; cbn [sc_state]; by rewrite Eq|done]. }
  destruct (b =? BACKSLASH) eqn:Eb.
  - apply (reads_used _ _ Escape); [unfold turn; cbn [sc_state]; by rewrite Eq, Eb|]. destruct l as [|e l]; [apply reads_nothing; right; by eexists|]. cbn in Hn. destruct (simple_escape e) eqn:Ee.
    + apply (reads_used _ _ InString); [unfold turn; cbn [sc_state]; by rewrite Ee|]. rewrite map_fst_bind. apply IH. lia.
    + destruct (e =? 117) eqn:Eu; [|by apply (reads_fails _ _ InEscape); unfold turn; cbn [sc_state]; rewrite Ee, Eu].
      apply (reads_used _ _ (Unicode 4)); [unfold turn; cbn [sc_state]; by rewrite Ee, Eu|].
      destruct l as [|h1 [|h2 [|h3 [|h4 l]]]]; try (apply hex_refused; left; cbn; lia). destruct (forallb is_hexdigit [h1; h2; h3; h4]) eqn:Eh.
      * cbn in Eh. repeat (apply andb_true_iff in Eh as [? Eh]). repeat (apply hex_reads; [done|]; cbn [Nat.eqb Nat.sub]). rewrite map_fst_bind. apply IH. cbn in Hn. lia.
      * apply hex_refused. right. cbn [forallb take existsb] in Eh |- *. by destruct (is_hexdigit h1), (is_hexdigit h2), (is_hexdigit h3), (is_hexdigit h4).
  - destruct (b <=? 31) eqn:El; [by apply (reads_fails _ _ InStringLiteral); unfold turn; cbn [sc_state]; rewrite Eq, Eb, El|].
    apply (reads_used _ _ InString); [unfold turn; cbn [sc_state]; by rewrite Eq, Eb, El|]. rewrite map_fst_bind. apply IH. lia.
Qed.

(** *** Numbers and literals *)

Ltac scanner_turn := unfold turn; cbn [sc_state]; repeat match goal with H : _ = true |- _ => rewrite H | H : _ = false |- _ => rewrite H end; try done.

Lemma digits_read st l r : (forall b, is_digit b = true -> turn (within st) b = used (within st)) -> reads st (skip_digits l) r -> reads st l r.
Proof.
  intros Hst. induction l as [|b l IH]; [done|]. cbn [skip_digits]. destruct (is_digit b) eqn:Eb; [|done]. intros Hr. apply (reads_used _ _ st); [by apply Hst|]. by apply IH.
Qed.

(** The next byte goes on to another state. *)
Lemma reads_hand_on st st' l r : (forall b, head (l ++ [SPACE]) = Some b -> turn (within st) b = Again (within st')) -> reads st' l r -> reads st l r.
Proof.
  intros Hst. unfold reads, accepts. assert (scan (within st) (l ++ [SPACE]) = scan (within st') (l ++ [SPACE])) as ->; [|done]. destruct l as [|b l]; cbn [app]; by apply scan_again, Hst.
Qed.

Lemma reads_end st l : (forall b, head (l ++ [SPACE]) = Some b -> turn (within st) b = Again (within EndValue)) -> reads st l (Ok l).
Proof. intros Hst. by apply (reads_hand_on _ EndValue). Qed.

Lemma head_peek (p : Z -> bool) l b : p SPACE = false -> peek_is p l = false -> head (l ++ [SPACE]) = Some b -> p b = false.
Proof. intros Hs. destruct l as [|x l]; cbn; intros Hp [= <-]; done. Qed.

(** After the point or the exponent's sign: some digits and the states that follow. *)
Lemma some_digits_read st st' l (k : list Z -> result (list Z) JsonError) :
  (forall b, is_digit b = true -> turn (within st) b = used (within st')) -> (forall b, is_digit b = false -> exists c, turn (within st) b = fails (within st) b c) ->
  (forall b, is_digit b = true -> turn (within st') b = used (within st')) -> (forall r, peek_is is_digit r = false -> reads st' r (k r)) -> reads st l (result_bind (digits l) k).
Proof.
  intros Hd Hnd Hst Hk. destruct l as [|b l]; [apply reads_nothing; right; by apply Hnd|]. cbn [digits]. destruct (is_digit b) eqn:Eb; cbn [result_bind].
  - apply (reads_used _ _ st'); [by apply Hd|]. apply digits_read; [done|]. apply Hk. by destruct (skip_digits_split l) as (_ & _ & _ & ?).
  - destruct (Hnd b Eb) as (c & Hc). by apply (reads_fails _ _ c).
Qed.

Lemma exponent_reads l : reads Exponent l (digits (if peek_is (fun b => (b =? PLUS) || (b =? MINUS)) l then drop 1 l else l)).
Proof.
  assert (forall l, reads ExponentSign l (digits l)) as Hsign.
  { intros k. replace (digits k) with (result_bind (digits k) Ok) by (by destruct (digits k)). apply (some_digits_read _ ExponentDigits); intros b Hb; try by scanner_turn.
    - exists InExponent. by scanner_turn.
    - apply reads_end. intros x Hx. apply (head_peek is_digit) in Hx; [|done..]. by scanner_turn. }
  destruct (peek_is (fun b => (b =? PLUS) || (b =? MINUS)) l) eqn:Ep.
  - destruct l as [|b l]; [done|]. cbn [peek_is] in Ep. apply (reads_used _ _ ExponentSign); [by scanner_turn|apply Hsign].
  - apply (reads_hand_on _ ExponentSign); [|apply Hsign]. intros x Hx. apply (head_peek (fun b => (b =? PLUS) || (b =? MINUS))) in Hx; [|done..]. cbv beta in Hx. by scanner_turn.
Qed.

Lemma exp_reads st l : (forall b, (b =? 101) || (b =? 69) = true -> turn (within st) b = used (within Exponent)) ->
  (forall b, head (l ++ [SPACE]) = Some b -> (b =? 101) || (b =? 69) = false -> turn (within st) b = Again (within EndValue)) -> reads st l (exp_part l).
Proof.
  intros He Hend. unfold exp_part. destruct (peek_is (fun b => (b =? 101) || (b =? 69)) l) eqn:Ep.
  - destruct l as [|b l]; [done|]. cbn [peek_is] in Ep. apply (reads_used _ _ Exponent); [by apply He|]. apply exponent_reads.
  - apply reads_end. intros b Hb. apply Hend; [done|]. by apply (head_peek (fun b => (b =? 101) || (b =? 69)) l).
Qed.

Lemma number_rest_reads l : reads Zero l (result_bind (frac_part l) exp_part).
Proof.
  unfold frac_part. destruct (peek_is (Z.eqb DOT) l) eqn:Ep.
  - apply peek_true in Ep. rewrite Ep. change (drop 1 (DOT :: drop 1 l)) with (drop 1 l). apply (reads_used _ _ Dot); [done|]. apply (some_digits_read _ Fraction).
    + intros b Hb. by scanner_turn.
    + intros b Hb. exists AfterDot. by scanner_turn.
    + intros b Hb. by scanner_turn.
    + intros r Hr. apply exp_reads.
      * intros b Hb. assert (is_digit b = false) by (apply orb_true_iff in Hb as [->%Z.eqb_eq| ->%Z.eqb_eq]; done). by scanner_turn.
      * intros b Hb He. apply (head_peek is_digit) in Hb; [|done..]. by scanner_turn.
  - apply exp_reads.
    + intros b Hb. assert ((b =? DOT) = false) by (apply orb_true_iff in Hb as [->%Z.eqb_eq| ->%Z.eqb_eq]; done). by scanner_turn.
    + intros b Hb He. apply (head_peek (Z.eqb DOT)) in Hb; [|done..]. rewrite Z.eqb_sym in Hb. by scanner_turn.
Qed.

Lemma integer_reads l : reads Integer l (result_bind (frac_part (skip_digits l)) exp_part).
Proof.
  apply digits_read; [intros b Hb; by scanner_turn|]. destruct (skip_digits_split l) as (_ & _ & _ & Hp). apply (reads_hand_on _ Zero); [|apply number_rest_reads].
  intros b Hb. apply (head_peek is_digit) in Hb; [|done..]. by scanner_turn.
Qed.

Lemma number_reads b l : (b =? MINUS) || is_digit b = true -> reads BeginValue (b :: l) (number (b :: l)).
Proof.
  intros Hb. rewrite number_parts. assert (space b = false /\ (b =? LBRACE) = false /\ (b =? LBRACKET) = false /\ (b =? QUOTE) = false) as (? & ? & ? & ?).
  { apply orb_true_iff in Hb as [->%Z.eqb_eq|Hd]; [done|]. unfold is_digit, space in *. repeat rewrite ?orb_false_iff, ?Z.eqb_neq. lia. }
  assert (forall st x k, turn (within st) x = (if x =? 48 then used (within Zero) else if is_digit x then used (within Integer) else turn (within st) x) -> (is_digit x = false -> exists c, turn (within st) x = fails (within st) x c) ->
    reads st (x :: k) (result_bind (int_part (x :: k)) (fun l => result_bind (frac_part l) exp_part))) as Hint.
  { intros st x k Ht Hf. unfold int_part. destruct (x =? 48) eqn:Ez; [apply (reads_used _ _ Zero); [done|apply number_rest_reads]|]. destruct (is_digit x) eqn:Ed.
    - cbn [digits]. rewrite Ed. cbn [result_bind]. apply (reads_used _ _ Integer); [done|apply integer_reads].
    - destruct (Hf eq_refl) as (c & Hc). by apply (reads_fails _ _ c). }
  cbn [peek_is]. rewrite Z.eqb_sym. destruct (b =? MINUS) eqn:Em.
  - cbn [drop]. apply (reads_used _ _ Negative); [unfold turn, begin_turn; cbn [sc_state]; by scanner_turn|]. destruct l as [|x k]; [apply reads_nothing; right; by eexists|].
    apply Hint; [unfold turn; cbn [sc_state]; by destruct (x =? 48), (is_digit x)|]. intros Hx. exists InNumber. assert ((x =? 48) = false) by (destruct (Z.eqb_spec x 48) as [-> |]; done). by scanner_turn.
  - cbn [orb] in Hb. apply Hint; [|congruence]. unfold turn, begin_turn. cbn [sc_state]. by scanner_turn.
Qed.

Lemma literal_reads text n l : (n < length text)%nat -> reads (Literal text n) l (literal (drop n text) l).
Proof.
  revert n l. assert (forall k n l, k = (length text - n)%nat -> (n < length text)%nat -> reads (Literal text n) l (literal (drop n text) l)) as H; [|intros n l; by apply (H _ n l eq_refl)].
  induction k as [|k IH]; intros n l Hk Hn; [lia|]. assert (drop n text = byte_at text n :: drop (S n) text) as ->.
  { unfold byte_at. clear IH Hk. revert text Hn. induction n as [|n IHn]; intros [|x t] Hn; cbn in *; [lia|done|lia|]. apply IHn. lia. }
  cbn [literal]. destruct l as [|b l].
  - apply reads_nothing. unfold turn. cbn [sc_state]. destruct (negb (SPACE =? byte_at text n)); [right; by eexists|left]. eexists. done.
  - destruct (b =? byte_at text n) eqn:Eb; [|by apply (reads_fails _ _ (InLiteral text (byte_at text n))); scanner_turn].
    apply (reads_used _ _ (if (n + 1 =? length text)%nat then EndValue else Literal text (n + 1))); [by scanner_turn|]. rewrite Nat.add_1_r. destruct (Nat.eqb_spec (S n) (length text)) as [E|].
    + rewrite E, drop_all. done.
    + apply IH; lia.
Qed.
End tokens.

(** *** The simulation *)

Definition frame_of (f : Frame) : ScanFrame :=
  match f with ArrayFirst | ArrayComma => ArrayFrame | ObjectFirst | ObjectKey | ObjectColon => KeyFrame | ObjectComma => ValueFrame end.

Definition state_of (value : bool) (fs : list Frame) : State :=
  if value then BeginValue
  else match fs with
       | ArrayFirst :: _ => BeginValueOrEmpty
       | ObjectFirst :: _ => BeginStringOrEmpty
       | ObjectKey :: _ => BeginString
       | _ => EndValue
       end.

Definition image (value : bool) (fs : list Frame) : Scanner := mkScanner (state_of value fs) (map frame_of fs) false.

(** A frame that waits for the value inside it to end. *)
Definition waiting (f : Frame) : Prop := f = ArrayComma \/ f = ObjectComma.
Definition stacked (value : bool) (fs : list Frame) : Prop := Forall waiting (if value then fs else drop 1 fs).

Lemma waiting_image fs : Forall waiting fs -> image false fs = mkScanner EndValue (map frame_of fs) false.
Proof. intros [|f fs' [-> | ->] _]; done. Qed.

(** The scanner of one state of the cursor reads as the scanner of the next. *)
Definition leads (s : Scanner) (l : list Z) (r : result (Scanner * list Z) JsonError) : Prop :=
  match r with
  | Ok (s', rest) => accepts s l = accepts s' rest
  | Err _ => accepts s l = false
  end.

Lemma reads_leads fs st l (r : result (list Z) JsonError) : reads fs st l r -> leads (mkScanner st fs false) l (result_map (fun rest => (mkScanner EndValue fs false, rest)) r).
Proof. destruct r; [|done]. unfold reads, leads, accepts. cbn [result_map result_bind]. by intros ->. Qed.

Definition skips (s : Scanner) : Prop := sc_end_top s = false /\ forall b, space b = true -> turn s b = used s.

Lemma skips_scan s l k : skips s -> scan s (l ++ k) = scan s (skip_space l ++ k).
Proof.
  intros [_ Hs]. induction l as [|b l IH]; [done|]. cbn [skip_space]. destruct (space b) eqn:Eb; [|done]. rewrite <-IH. cbn [app scan]. by rewrite step_turn, (Hs b Eb).
Qed.

Lemma skips_leads s l r : skips s -> leads s (skip_space l) r -> leads s l r.
Proof. intros Hs. unfold leads, accepts. by rewrite (skips_scan s l _ Hs). Qed.

Lemma skips_nil s e : skips s -> leads s [] (Err e).
Proof. intros [He Hs]. unfold leads, accepts. cbn [app scan]. rewrite step_turn, (Hs SPACE eq_refl). done. Qed.

Lemma image_skips value fs : value = true \/ fs <> [] -> skips (image value fs).
Proof.
  intros Hv. split; [done|]. intros b Hb. unfold image, turn, state_of. cbn [sc_state]. destruct value; [by rewrite Hb|]. destruct Hv as [|Hne]; [done|]. destruct fs as [|f fs]; [done|].
  destruct f; cbn [map]; unfold end_value_turn; cbn [sc_frames frame_of]; by rewrite Hb.
Qed.

Lemma leads_used s b s' l : turn s b = used s' -> leads s (b :: l) (Ok (s', l)).
Proof. intros Ht. unfold leads, accepts. cbn [app scan]. by rewrite step_turn, Ht. Qed.

Lemma leads_again s b s' l r : turn s b = Again s' -> leads s' (b :: l) r -> leads s (b :: l) r.
Proof. intros Ht. unfold leads, accepts. cbn [app scan]. by rewrite (step_turn s), Ht. Qed.

Lemma leads_fails s b c l e s' : turn s b = fails s' b c -> leads s (b :: l) (Err e).
Proof. intros Ht. unfold leads, accepts. cbn [app scan]. by rewrite step_turn, Ht. Qed.

(** Closing the outermost frame takes the scanner to the top at once. *)
Lemma end_top_scan b l : scan (mkScanner EndValue [] false) (b :: l) = scan (mkScanner EndTop [] true) (b :: l).
Proof. cbn [scan]. by rewrite step_turn. Qed.

Lemma pop_leads st f fs b l : Forall waiting fs -> turn (mkScanner st (f :: map frame_of fs) false) b = used (pop (mkScanner st (f :: map frame_of fs) false)) ->
  leads (mkScanner st (f :: map frame_of fs) false) (b :: l) (Ok (image false fs, l)).
Proof.
  intros Hw Ht. rewrite waiting_image by done. unfold leads, accepts. cbn [app scan]. rewrite step_turn, Ht. unfold used, pop. cbn [sc_frames drop]. destruct fs as [|g fs]; [|done]. cbn [map].
  destruct l as [|x l]; cbn [app]; by rewrite end_top_scan.
Qed.

Lemma begin_value_leads fs l : stacked true fs ->
  leads (image true fs) l (result_map (fun '(fs', l') => (image false fs', l')) (begin_value (Some MAX_DEPTH) fs l)).
Proof.
  intros Hw. apply skips_leads; [apply image_skips; by left|]. destruct (skip_space_split l) as (_ & _ & _ & Hp). unfold begin_value. destruct (skip_space l) as [|b t]; [apply skips_nil, image_skips; by left|].
  cbn in Hp. assert (forall r : result (list Z) JsonError, reads (map frame_of fs) BeginValue (b :: t) r -> leads (image true fs) (b :: t) (result_map (fun '(fs', l') => (image false fs', l')) (result_bind r (fun l => Ok (fs, l))))) as Hscalar.
  { intros r Hr%reads_leads. destruct r; [|done]. cbn [result_bind result_map] in *. by rewrite waiting_image. }
  assert (turn (image true fs) b = begin_turn (image true fs) b) as Ht by (unfold turn, image; cbn [sc_state state_of]; by rewrite Hp).
  destruct ((b =? LBRACKET) || (b =? LBRACE)) eqn:Eo.
  { unfold image in Ht. unfold begin_turn, push in Ht. cbn [sc_frames sc_state sc_end_top length state_of] in Ht. rewrite length_map in Ht.
    destruct (Nat.leb_spec MAX_DEPTH (length fs)).
    - replace (MAX_DEPTH <? S (length fs))%nat with true in Ht by (symmetry; apply Nat.ltb_lt; lia). destruct (b =? LBRACE) eqn:Eb; [eapply leads_fails; exact Ht|]. rewrite orb_false_r in Eo. rewrite Eo in Ht. eapply leads_fails. exact Ht.
    - replace (MAX_DEPTH <? S (length fs))%nat with false in Ht by (symmetry; apply Nat.ltb_ge; lia). destruct (b =? LBRACE) eqn:Eb.
      + apply Z.eqb_eq in Eb as ->. by apply leads_used.
      + rewrite orb_false_r in Eo. rewrite Eo in Ht |- *. by apply leads_used. }
  apply orb_false_iff in Eo as [E1 E2]. destruct (b =? QUOTE) eqn:Eq.
  - unfold quoted. apply Z.eqb_eq in Eq as ->. cbn [take_byte]. rewrite Z.eqb_refl. cbn [result_bind].
    pose proof (Hscalar (result_map snd (quoted_loop t))) as Hs. destruct (quoted_loop t) as [[c r]|] eqn:Er; apply Hs; (apply (reads_used _ _ _ InString); [done|]); pose proof (string_reads (map frame_of fs) _ t (le_n _)) as Hr; by rewrite Er in Hr.
  - destruct ((b =? MINUS) || is_digit b) eqn:En; [by apply Hscalar, number_reads|]. apply orb_false_iff in En as [Em Ed]. assert ((b =? 48) = false) as Ez by (destruct (Z.eqb_spec b 48) as [-> |]; done).
    assert (forall text n, turn (image true fs) b = used (with_state (image true fs) (Literal (b :: text) 1)) -> (1 < length (b :: text))%nat -> n = literal (b :: text) (b :: t) -> leads (image true fs) (b :: t) (result_map (fun '(fs', l') => (image false fs', l')) (result_bind n (fun l => Ok (fs, l))))) as Hlit.
    { intros text n Hu Hlen ->. apply Hscalar. cbn [literal]. rewrite Z.eqb_refl. apply (reads_used _ _ _ (Literal (b :: text) 1)); [exact Hu|]. by apply (literal_reads _ (b :: text) 1). }
    unfold begin_turn in Ht. rewrite E1, E2, Eq, Em, Ez, Ed in Ht.
    destruct (b =? 116) eqn:Et; [apply Z.eqb_eq in Et as ->; apply (Hlit [114; 117; 101]); [exact Ht|cbn; lia|done]|]. destruct (b =? 102) eqn:Ef; [apply Z.eqb_eq in Ef as ->; apply (Hlit [97; 108; 115; 101]); [exact Ht|cbn; lia|done]|].
    destruct (b =? 110) eqn:En; [apply Z.eqb_eq in En as ->; apply (Hlit [117; 108; 108]); [exact Ht|cbn; lia|done]|]. by eapply leads_fails.
Qed.

(** The next state of the loop, as a scanner. *)
Definition next_image (o : option (bool * list Frame * list Z)) (l : list Z) : Scanner * list Z :=
  match o with Some (value, fs, l) => (image value fs, l) | None => (mkScanner EndValue [] false, l) end.

Lemma key_leads fs b t : space b = false ->
  leads (mkScanner BeginString (KeyFrame :: map frame_of fs) false) (b :: t) (result_map (fun '(_, l) => (image false (ObjectColon :: fs), l)) (quoted (b :: t))).
Proof.
  intros Hb. unfold quoted. cbn [take_byte]. destruct (b =? QUOTE) eqn:Eq; [|apply (leads_fails _ _ LookingForKey _ _ (mkScanner BeginString (KeyFrame :: map frame_of fs) false)); unfold turn; cbn [sc_state]; by rewrite Hb, Eq].
  cbn [result_bind]. pose proof (string_reads (KeyFrame :: map frame_of fs) _ t (le_n _)) as Hr. apply Z.eqb_eq in Eq as ->.
  apply (reads_used _ BeginString QUOTE) in Hr; [|done]. apply reads_leads in Hr. by destruct (quoted_loop t) as [[c r]|].
Qed.

Lemma frame_step_leads f fs l : stacked false (f :: fs) -> leads (image false (f :: fs)) l (result_map (fun o => next_image o l) (frame_step (f :: fs) l)).
Proof.
  intros Hw. change (Forall waiting fs) in Hw. apply skips_leads; [apply image_skips; by right|]. destruct (skip_space_split l) as (_ & _ & _ & Hp). unfold frame_step.
  destruct (skip_space l) as [|b t] eqn:El.
  { destruct f; cbn [peek_is result_map result_bind next_image quoted take_byte]; try (apply skips_nil, image_skips; by right). unfold leads. rewrite (skips_nil _ InvalidJson (image_skips true (ArrayComma :: fs) (or_introl eq_refl))). apply (skips_nil _ InvalidJson), image_skips. by right. }
  cbn in Hp. change (peek_is ?p (b :: t)) with (p b). cbn [peek_is].
  destruct f; unfold image; cbn [state_of map frame_of].
  - rewrite Z.eqb_sym. destruct (b =? RBRACKET) eqn:Ec.
    + apply (leads_again _ _ (mkScanner EndValue (ArrayFrame :: map frame_of fs) false)); [unfold turn; cbn [sc_state]; by rewrite Hp, Ec|]. apply Z.eqb_eq in Ec as ->. by apply pop_leads.
    + apply (leads_again _ _ (mkScanner BeginValue (ArrayFrame :: map frame_of fs) false)); [unfold turn; cbn [sc_state]; by rewrite Hp, Ec|]. done.
  - rewrite Z.eqb_sym. destruct (b =? COMMA) eqn:Ec; [apply Z.eqb_eq in Ec as ->; by apply leads_used|]. rewrite Z.eqb_sym. destruct (b =? RBRACKET) eqn:Er.
    + apply Z.eqb_eq in Er as ->. by apply pop_leads.
    + eapply (leads_fails _ _ AfterElement). unfold turn, end_value_turn. cbn [sc_state sc_frames]. by rewrite Hp, Ec, Er.
  - rewrite Z.eqb_sym. destruct (b =? RBRACE) eqn:Ec.
    + apply (leads_again _ _ (mkScanner EndValue (ValueFrame :: map frame_of fs) false)); [unfold turn; cbn [sc_state]; by rewrite Hp, Ec|]. apply Z.eqb_eq in Ec as ->. by apply pop_leads.
    + apply (leads_again _ _ (mkScanner BeginString (KeyFrame :: map frame_of fs) false)); [unfold turn; cbn [sc_state]; by rewrite Hp, Ec|].
      pose proof (key_leads fs b t Hp) as Hk. destruct (quoted (b :: t)) as [[c r]|]; exact Hk.
  - pose proof (key_leads fs b t Hp) as Hk. destruct (quoted (b :: t)) as [[c r]|]; exact Hk.
  - cbn [take_byte]. destruct (b =? COLON) eqn:Ec; [apply Z.eqb_eq in Ec as ->; by apply leads_used|]. eapply (leads_fails _ _ AfterKey). unfold turn, end_value_turn. cbn [sc_state sc_frames]. by rewrite Hp, Ec.
  - rewrite Z.eqb_sym. destruct (b =? COMMA) eqn:Ec; [apply Z.eqb_eq in Ec as ->; by apply leads_used|]. rewrite Z.eqb_sym. destruct (b =? RBRACE) eqn:Er.
    + apply Z.eqb_eq in Er as ->. by apply pop_leads.
    + eapply (leads_fails _ _ AfterMember). unfold turn, end_value_turn. cbn [sc_state sc_frames]. by rewrite Hp, Ec, Er.
Qed.

Lemma begin_value_stacked fs l fs' l' : stacked true fs -> begin_value (Some MAX_DEPTH) fs l = Ok (fs', l') -> stacked false fs'.
Proof.
  intros Hs [(w & v & _ & _ & _ & ->)|(w & _ & _ & [[_ ->]|[_ ->]])]%begin_value_sound; unfold stacked in *; [|cbn; by rewrite drop_0..]. by apply Forall_drop.
Qed.

Lemma frame_step_stacked f fs l value fs' l' : stacked false (f :: fs) -> frame_step (f :: fs) l = Ok (Some (value, fs', l')) -> stacked value fs'.
Proof.
  unfold stacked. cbn [drop]. rewrite drop_0. intros Hs. unfold frame_step. generalize (skip_space l). clear l. intros l.
  assert (Forall waiting (drop 1 fs)) as Hd by by apply Forall_drop.
  destruct f; repeat match goal with |- context [peek_is ?p l] => destruct (peek_is p l); cbv iota end; try done;
    try (intros [= <- <- _]; cbn; rewrite ?drop_0; repeat constructor; try done; by (left + right));
    [destruct (quoted l) as [[]|]|destruct (quoted l) as [[]|]|destruct (take_byte COLON l)]; try done; intros [= <- <- _]; cbn; rewrite ?drop_0; [done|done|]. by constructor; [right|].
Qed.

Lemma value_loop_leads fuel : forall value fs l r, stacked value fs -> value_loop (Some MAX_DEPTH) fuel value fs l = Some r ->
  leads (image value fs) l (result_map (fun rest => (mkScanner EndValue [] false, rest)) r).
Proof.
  induction fuel as [|fuel IH]; [done|]. intros value fs l r Hs. cbn [value_loop].
  assert (forall fs1 l1, stacked false fs1 -> match frame_step fs1 l1 with Err e => Some (Err e) | Ok None => Some (Ok l1) | Ok (Some (value, frames, l)) => value_loop (Some MAX_DEPTH) fuel value frames l end = Some r ->
    leads (image false fs1) l1 (result_map (fun rest => (mkScanner EndValue [] false, rest)) r)) as Hstep.
  { intros fs1 l1 Hs1. destruct fs1 as [|f fs1]; [by intros [= <-]|]. pose proof (frame_step_leads f fs1 l1 Hs1) as Hl. destruct (frame_step (f :: fs1) l1) as [[[[value' fs2] l2]|]|] eqn:Ef.
    - intros Hr. apply IH in Hr; [|by eapply frame_step_stacked]. unfold leads in *. cbn [result_map result_bind next_image] in *. by rewrite Hl.
    - by apply frame_step_goes_on in Ef.
    - by intros [= <-]. }
  destruct value; [|by apply Hstep]. pose proof (begin_value_leads fs l Hs) as Hl. destruct (begin_value (Some MAX_DEPTH) fs l) as [[fs1 l1]|] eqn:Eb.
  - intros Hr. apply Hstep in Hr; [|by eapply begin_value_stacked]. unfold leads in *. cbn [result_map result_bind] in *. by rewrite Hl.
  - by intros [= <-].
Qed.

Lemma top_accepts l : accepts (mkScanner EndValue [] false) l = true <-> blank l.
Proof.
  assert (forall l, accepts (mkScanner EndTop [] true) l = true <-> blank l) as Htop.
  { intros k. unfold accepts. induction k as [|b k IH]; [split; [constructor|done]|]. cbn [app scan]. rewrite step_turn. unfold turn. cbn [sc_state]. destruct (space b) eqn:Eb; unfold used, fails.
    - rewrite IH. split; [by constructor|by inversion 1].
    - split; [done|]. inversion 1. congruence. }
  rewrite <-Htop. unfold accepts. destruct l as [|b l]; cbn [app]; by rewrite end_top_scan.
Qed.

Lemma check_valid_validate l : check_valid l = Ok tt <-> validate l = Ok tt.
Proof.
  rewrite check_valid_accepts. unfold validate, validate_with_depth, value_with_depth.
  assert (accepts Scanner_default l = accepts (image true []) (skip_space l)) as ->.
  { unfold accepts. change Scanner_default with (image true []). rewrite (skips_scan _ l); [done|]. apply image_skips. by left. }
  generalize (skip_space l). clear l. intros l. destruct (value_loop (Some MAX_DEPTH) (value_fuel l) true [] l) as [r|] eqn:E.
  - apply value_loop_leads in E; [|constructor]. cbn [default id]. destruct r as [rest|e]; cbn [result_bind result_map leads] in *; [|by rewrite E].
    by rewrite cursor_done_Ok, <-top_accepts, E.
  - apply value_loop_enough in E; [done|]. unfold turn_size, value_fuel. lia.
Qed.

Lemma check_valid_json l : check_valid l = Ok tt <-> json_text MAX_DEPTH l.
Proof. rewrite check_valid_validate. apply validate_with_depth_exact. Qed.

(** C30. Both readers of JSON, the cursor that cuts out tokens and Go's scanner that steps
    over bytes, accept exactly the grammar: a value between blanks that nests at most
    10,000 deep. *)
Theorem json_readers_exact l : (check_valid l = Ok tt <-> json_text MAX_DEPTH l) /\ (validate l = Ok tt <-> json_text MAX_DEPTH l).
Proof. split; [apply check_valid_json|apply validate_with_depth_exact]. Qed.
