(* ===== verification/HuJson.v ===== *)
(** * HuJson: JSON with comments and trailing commas
    (headscale-api-acl/src/go_hujson.rs, [standardize])

    Policies are written in HuJSON.  [standardize] turns a text into JSON of the same
    length: comments and trailing commas become blanks, so that positions stay.  [hujson]
    is the grammar as a relation between the two texts; the routine computes exactly that
    relation, and the result is JSON.

    The text of an error is its line, its column and its message; the quoting of the
    offending character is left out. *)

From stdpp Require Import base list.
From Stdlib Require Import ZArith Lia.
From S2P Require Import Prelude Bytes Utf8 GoJson GoScanner.

Open Scope Z_scope.

Notation SLASH := 47.
Notation STAR := 42.
Notation NEWLINE := 10.

Inductive Message :=
| CommentEof | CommentUtf8 | StringEof | ValueEof | NameEof | ObjectEof | ArrayEof
| BadLiteral (text : list Z) | BadStart (b : Z) | BadName (b : Z) | BadColon (b : Z) | BadAfterMember (b : Z) | BadAfterElement (b : Z) | BadAfterTop (b : Z).

Record HuError := mkHuError { he_line : nat; he_column : nat; he_message : Message }.

Record Parser := mkParser { p_raw : list Z; p_out : list Z; p_at : nat }.

Definition count_newlines (l : list Z) : nat := length (List.filter (Z.eqb NEWLINE) l).

(** How many bytes follow the last newline. *)
Fixpoint since_newline (n : nat) (l : list Z) : nat :=
  match l with
  | [] => n
  | b :: l => since_newline (if b =? NEWLINE then 0 else S n) l
  end.

Definition error_at (p : Parser) (at_ : nat) (m : Message) : HuError :=
  let before := take at_ (p_raw p) in
  mkHuError (1 + count_newlines before) (since_newline 0 before + 1) m.

Definition rest_of (p : Parser) : list Z := drop (p_at p) (p_raw p).
Definition advance (p : Parser) (n : nat) : Parser := mkParser (p_raw p) (p_out p) (p_at p + n).

(** [position] of the newline and of the end of a block. *)
Fixpoint find_newline (l : list Z) : option nat :=
  match l with
  | [] => None
  | b :: l => if b =? NEWLINE then Some 0%nat else S <$> find_newline l
  end.

Fixpoint find_close (l : list Z) : option nat :=
  match l with
  | b :: ((c :: _) as t) => if (b =? STAR) && (c =? SLASH) then Some 0%nat else S <$> find_close t
  | _ => None
  end.

Definition blank_byte (b : Z) : Z := if space b then b else SPACE.

(** [out[start..end]] blanked. *)
Definition blank_range (start finish : nat) (l : list Z) : list Z := take start l ++ map blank_byte (slice start finish l) ++ drop finish l.

Definition comment_end (line : bool) (body : list Z) : option nat :=
  if line then (fun n => n + 1)%nat <$> find_newline body else (fun n => n + 2)%nat <$> find_close body.

Definition starts_comment (l : list Z) : bool := match l with b :: c :: _ => (b =? SLASH) && ((c =? SLASH) || (c =? STAR)) | _ => false end.

(** The loop of [extra]; [None] is the end of the fuel. *)
Fixpoint extra_loop (fuel : nat) (p : Parser) : option (result Parser HuError) :=
  match fuel with
  | O => None
  | S fuel =>
      let rest := rest_of p in
      if peek_is space rest then extra_loop fuel (advance p 1)
      else if starts_comment rest then
        match comment_end (byte_at rest 1 =? SLASH) (drop 2 rest) with
        | None => Some (Err (error_at p (p_at p) CommentEof))
        | Some n =>
            let finish := (p_at p + 2 + n)%nat in
            if negb (utf8_valid (slice (p_at p) finish (p_raw p))) then Some (Err (error_at p (p_at p) CommentUtf8))
            else extra_loop fuel (mkParser (p_raw p) (blank_range (p_at p) finish (p_out p)) finish)
        end
      else Some (Ok p)
  end.

Definition extra (p : Parser) : result Parser HuError := default (Ok p) (extra_loop (S (length (rest_of p))) p).

(** The loop of [literal] over a string, after the opening quote: how many bytes up to
    the closing one. *)
Fixpoint string_end (escaped : bool) (l : list Z) : option nat :=
  match l with
  | [] => None
  | b :: l =>
      if escaped then S <$> string_end false l
      else if b =? BACKSLASH then S <$> string_end true l
      else if b =? QUOTE then Some 1%nat
      else S <$> string_end false l
  end.

Definition is_word (b : Z) : bool :=
  is_digit b || ((65 <=? b) && (b <=? 90)) || ((97 <=? b) && (b <=? 122)) || (b =? MINUS) || (b =? PLUS) || (b =? DOT).

Fixpoint word_length (l : list Z) : nat := match l with b :: l => if is_word b then S (word_length l) else 0 | [] => 0 end.

Definition hu_literal (p : Parser) (start : nat) (is_string : bool) : result Parser HuError :=
  let rest := rest_of p in
  let? n := (if is_string then
               match string_end false (drop 1 rest) with
               | None => Err (error_at p (length (p_raw p)) StringEof)
               | Some n => Ok (S n)
               end
             else if (word_length rest =? 0)%nat then Err (error_at p start (BadStart (byte_at rest 0)))
             else Ok (word_length rest)) in
  let p := advance p n in
  let text := slice start (p_at p) (p_raw p) in
  if is_ok (check_valid text) then Ok p else Err (error_at p start (BadLiteral text)).

Inductive Task :=
| TValue (name : bool)
| TFinish (start : nat) (kind : Z) (name : bool)
| ObjectNext (comma : option nat)
| TObjectColon
| ObjectAfter
| ArrayNext (comma : option nat)
| ArrayAfter
| TEnd.

(** A comma that turns out to be the last is blanked. *)
Definition blank_comma (p : Parser) (comma : option nat) : Parser :=
  match comma with
  | Some i => mkParser (p_raw p) (<[i := SPACE]> (p_out p)) (p_at p)
  | None => p
  end.

Definition next_step (object : bool) (comma : option nat) (p : Parser) : result (list Task * Parser) HuError :=
  let? p := extra p in
  if peek_is (Z.eqb (if object then RBRACE else RBRACKET)) (rest_of p) then Ok ([], advance (blank_comma p comma) 1)
  else Ok (if object then [TValue true; TObjectColon] else [TValue false; ArrayAfter], p).

Definition after_step (object : bool) (p : Parser) : result (list Task * Parser) HuError :=
  match rest_of p with
  | [] => Err (error_at p (p_at p) (if object then ObjectEof else ArrayEof))
  | b :: _ =>
      if b =? COMMA then Ok ([if object then ObjectNext (Some (p_at p)) else ArrayNext (Some (p_at p))], advance p 1)
      else if b =? (if object then RBRACE else RBRACKET) then Ok ([], advance p 1)
      else Err (error_at p (p_at p) (if object then BadAfterMember b else BadAfterElement b))
  end.

Definition value_step (name : bool) (p : Parser) : result (list Task * Parser) HuError :=
  let? p := extra p in
  let start := p_at p in
  match rest_of p with
  | [] => Err (error_at p start ValueEof)
  | kind :: _ =>
      let finish := TFinish start kind name in
      if kind =? LBRACE then Ok ([ObjectNext None; finish], advance p 1)
      else if kind =? LBRACKET then Ok ([ArrayNext None; finish], advance p 1)
      else if (kind =? RBRACE) || (kind =? RBRACKET) then Err (error_at p start (BadStart kind))
      else let? p := hu_literal p start (kind =? QUOTE) in Ok ([finish], p)
  end.

(** One task: the tasks it pushes, the next first. *)
Definition task_step (t : Task) (p : Parser) : result (list Task * Parser) HuError :=
  match t with
  | TValue name => value_step name p
  | TFinish start kind name =>
      let? p := extra p in
      if name && negb (kind =? QUOTE) then Err (error_at p start (BadName kind)) else Ok ([], p)
  | ObjectNext comma => next_step true comma p
  | TObjectColon =>
      match rest_of p with
      | [] => Err (error_at p (p_at p) NameEof)
      | b :: _ => if b =? COLON then Ok ([TValue false; ObjectAfter], advance p 1) else Err (error_at p (p_at p) (BadColon b))
      end
  | ObjectAfter => after_step true p
  | ArrayNext comma => next_step false comma p
  | ArrayAfter => after_step false p
  | TEnd =>
      match rest_of p with
      | [] => Ok ([], p)
      | b :: _ => Err (error_at p (p_at p) (BadAfterTop b))
      end
  end.

Fixpoint task_loop (fuel : nat) (tasks : list Task) (p : Parser) : option (result (list Z) HuError) :=
  match fuel with
  | O => None
  | S fuel =>
      match tasks with
      | [] => Some (Ok (p_out p))
      | t :: tasks =>
          match task_step t p with
          | Err e => Some (Err e)
          | Ok (pushed, p) => task_loop fuel (pushed ++ tasks) p
          end
      end
  end.

(** Every byte is worth four tasks. *)
Definition standardize (raw : list Z) : result (list Z) HuError :=
  default (Ok raw) (task_loop (4 * length raw + 4) [TValue false; TEnd] (mkParser raw raw 0)).

(** ** The grammar *)

Inductive comment : list Z -> Prop :=
| line_comment body : NEWLINE ∉ body -> comment (SLASH :: SLASH :: body ++ [NEWLINE])
| block_comment body : (forall a b, body ++ [STAR] <> a ++ STAR :: SLASH :: b) -> comment (SLASH :: STAR :: body ++ [STAR; SLASH]).

(** What may stand between tokens, and what is left of it. *)
Inductive gap : list Z -> list Z -> Prop :=
| gap_nil : gap [] []
| gap_blank b g g' : space b = true -> gap g g' -> gap (b :: g) (b :: g')
| gap_comment c g g' : comment c -> utf8 c -> gap g g' -> gap (c ++ g) (map blank_byte c ++ g').

Definition opens (object : bool) : Z := if object then LBRACE else LBRACKET.
Definition closes (object : bool) : Z := if object then RBRACE else RBRACKET.

Inductive hujson : list Z -> list Z -> Prop :=
| hu_scalar l : scalar l -> hujson l l
| hu_empty o g g' : gap g g' -> hujson (opens o :: g ++ [closes o]) (opens o :: g' ++ [closes o])
| hu_container o l l' : items o l l' -> hujson (opens o :: l ++ [closes o]) (opens o :: l' ++ [closes o])
with items : bool -> list Z -> list Z -> Prop :=
| items_one o l l' : item o l l' -> items o l l'
| items_comma o l l' g g' : item o l l' -> gap g g' -> items o (l ++ COMMA :: g) (l' ++ SPACE :: g')
| items_cons o l l' k k' : item o l l' -> items o k k' -> items o (l ++ COMMA :: k) (l' ++ COMMA :: k')
with item : bool -> list Z -> list Z -> Prop :=
| element g g' v v' h h' : gap g g' -> hujson v v' -> gap h h' -> item false (g ++ v ++ h) (g' ++ v' ++ h')
| hu_member g g' s h h' l l' : gap g g' -> string_text s -> gap h h' -> item false l l' -> item true (g ++ s ++ h ++ COLON :: l) (g' ++ s ++ h' ++ COLON :: l').

Scheme hujson_mut := Induction for hujson Sort Prop
with items_mut := Induction for items Sort Prop
with item_mut := Induction for item Sort Prop.
Combined Scheme hujson_items_ind from hujson_mut, items_mut, item_mut.

(** ** Positions as splits of the text *)

(** The parser between [pre], of which [opre] is left, and [rest]. *)
Definition between (pre opre rest : list Z) : Parser := mkParser (pre ++ rest) (opre ++ rest) (length pre).

Lemma rest_between pre opre rest : rest_of (between pre opre rest) = rest.
Proof. unfold rest_of, between. cbn. by rewrite drop_app_length. Qed.

Lemma advance_between pre opre x rest : advance (between pre opre (x ++ rest)) (length x) = between (pre ++ x) (opre ++ x) rest.
Proof. unfold advance, between. cbn. by rewrite length_app, <-!app_assoc. Qed.

Lemma advance_one pre opre b rest : advance (between pre opre (b :: rest)) 1 = between (pre ++ [b]) (opre ++ [b]) rest.
Proof. apply (advance_between pre opre [b] rest). Qed.

Lemma slice_between pre opre x rest : slice (length pre) (length pre + length x) (p_raw (between pre opre (x ++ rest))) = x.
Proof. unfold slice, between. cbn. rewrite drop_app_length, Nat.add_comm, Nat.add_sub. apply take_app_length. Qed.

Lemma blank_between pre opre x rest : length opre = length pre ->
  mkParser (p_raw (between pre opre (x ++ rest))) (blank_range (length pre) (length pre + length x) (p_out (between pre opre (x ++ rest)))) (length pre + length x) = between (pre ++ x) (opre ++ map blank_byte x) rest.
Proof.
  intros Hl. unfold between, blank_range, slice. cbn [p_raw p_out]. rewrite <-Hl, take_app_length, drop_app_length, (Nat.add_comm (length opre)), Nat.add_sub, take_app_length.
  rewrite (app_assoc opre x rest), (drop_app_length' (opre ++ x)) by (rewrite length_app; lia). rewrite length_app, <-!app_assoc. f_equal. lia.
Qed.

Lemma comma_between pre opre rest : length opre = length pre -> blank_comma (between pre opre rest) None = between pre opre rest.
Proof. done. Qed.

Lemma blank_comma_between pre a g rest : blank_comma (between pre (a ++ COMMA :: g) rest) (Some (length a)) = between pre (a ++ SPACE :: g) rest.
Proof. unfold between. cbn. f_equal. rewrite <-!app_assoc. cbn. rewrite insert_app_r_alt by lia. by rewrite Nat.sub_diag. Qed.

(** ** Gaps *)

Definition stops (l : list Z) : Prop := peek_is space l = false /\ starts_comment l = false.

Lemma find_newline_spec body rest : NEWLINE ∉ body -> find_newline (body ++ NEWLINE :: rest) = Some (length body).
Proof.
  induction body as [|b body IH]; intros Hb; [done|]. apply not_elem_of_cons in Hb as [Hne Hb]. cbn. destruct (Z.eqb_spec b NEWLINE); [congruence|]. by rewrite IH.
Qed.

Lemma find_newline_sound l n : find_newline l = Some n -> exists body rest, l = body ++ NEWLINE :: rest /\ length body = n /\ NEWLINE ∉ body.
Proof.
  revert n. induction l as [|b l IH]; intros n; [done|]. cbn. destruct (Z.eqb_spec b NEWLINE) as [-> |Hne].
  - intros [= <-]. exists [], l. split_and!; [done..|apply not_elem_of_nil].
  - intros (m & Hm & ->)%fmap_Some. destruct (IH m Hm) as (body & rest & -> & <- & Hb). exists (b :: body), rest. split_and!; [done..|]. apply not_elem_of_cons. by split.
Qed.

Lemma find_close_spec body rest : (forall a b, body ++ [STAR] <> a ++ STAR :: SLASH :: b) -> find_close (body ++ STAR :: SLASH :: rest) = Some (length body).
Proof.
  induction body as [|x body IH]; intros Hb; [done|]. assert (find_close (body ++ STAR :: SLASH :: rest) = Some (length body)) as IH'.
  { apply IH. intros a b E. apply (Hb (x :: a) b). cbn. by rewrite E. }
  destruct body as [|c body]; cbn [app find_close] in *.
  - change (STAR =? SLASH) with false. rewrite andb_false_r. cbn. done.
  - destruct ((x =? STAR) && (c =? SLASH)) eqn:E; [|cbn in IH' |- *; by rewrite IH']. apply andb_true_iff in E as [->%Z.eqb_eq ->%Z.eqb_eq]. by destruct (Hb [] (body ++ [STAR])).
Qed.

Lemma find_close_sound l n : find_close l = Some n -> exists body rest, l = body ++ STAR :: SLASH :: rest /\ length body = n /\ (forall a b, body ++ [STAR] <> a ++ STAR :: SLASH :: b).
Proof.
  revert n. induction l as [|x l IH]; intros n; [done|]. destruct l as [|c l]; [done|]. change (find_close (x :: c :: l)) with (if (x =? STAR) && (c =? SLASH) then Some 0%nat else S <$> find_close (c :: l)).
  destruct ((x =? STAR) && (c =? SLASH)) eqn:E.
  - apply andb_true_iff in E as [->%Z.eqb_eq ->%Z.eqb_eq]. intros [= <-]. exists [], l. split_and!; [done..|]. intros a b Ea. apply (f_equal length) in Ea. rewrite !length_app in Ea. cbn in Ea. lia.
  - intros (m & Hm & ->)%fmap_Some. destruct (IH m Hm) as (body & rest & El & <- & Hb). exists (x :: body), rest. split_and!; [by rewrite El|done|].
    intros [|y a] b Ea; cbn in Ea; injection Ea as Ex Ea; [|by apply (Hb a b)]. subst x. destruct body as [|c' body]; [done|]. cbn in Ea, El. injection Ea as -> _. injection El as -> _. done.
Qed.

Lemma comment_end_spec c rest : comment c -> starts_comment (c ++ rest) = true /\ peek_is space (c ++ rest) = false /\
  comment_end (byte_at (c ++ rest) 1 =? SLASH) (drop 2 (c ++ rest)) = Some (length c - 2)%nat /\ (2 <= length c)%nat.
Proof.
  intros [body Hb|body Hb]; cbn [app starts_comment peek_is drop length]; rewrite <-app_assoc; split_and!; try done; try lia; unfold byte_at, comment_end; cbn [nth app drop]; rewrite ?drop_0.
  - rewrite Z.eqb_refl, find_newline_spec by done. cbn. f_equal. rewrite length_app. cbn. lia.
  - change (STAR =? SLASH) with false. rewrite find_close_spec by done. cbn. f_equal. rewrite length_app. cbn. lia.
Qed.

Lemma comment_end_sound l n : starts_comment l = true -> comment_end (byte_at l 1 =? SLASH) (drop 2 l) = Some n -> exists c rest, l = c ++ rest /\ comment c /\ length c = (2 + n)%nat.
Proof.
  destruct l as [|x [|y l]]; [done..|]. unfold byte_at, comment_end. cbn [starts_comment nth drop]. rewrite drop_0. intros [->%Z.eqb_eq Hy]%andb_true_iff. destruct (Z.eqb_spec y SLASH) as [-> |Hne].
  - intros (m & (body & rest & -> & <- & Hb)%find_newline_sound & ->)%fmap_Some. exists (SLASH :: SLASH :: body ++ [NEWLINE]), rest. split_and!; [cbn; by rewrite <-app_assoc|by constructor|cbn; rewrite length_app; cbn; lia].
  - cbn in Hy. apply Z.eqb_eq in Hy as ->. intros (m & (body & rest & -> & <- & Hb)%find_close_sound & ->)%fmap_Some. exists (SLASH :: STAR :: body ++ [STAR; SLASH]), rest. split_and!; [cbn; by rewrite <-app_assoc|by constructor|cbn; rewrite length_app; cbn; lia].
Qed.

Lemma gap_length g g' : gap g g' -> length g' = length g.
Proof. induction 1; cbn; [done|by f_equal|]. rewrite !length_app, length_map. by f_equal. Qed.

Lemma gap_is_blank g g' : gap g g' -> blank g'.
Proof.
  induction 1 as [|b g g' Hb _ IH|c g g' _ _ _ IH]; [constructor|by constructor|]. apply blank_app; [|done]. unfold blank. rewrite Forall_fmap. apply Forall_true. intros b. cbn. unfold blank_byte. by destruct (space b) eqn:E.
Qed.

Lemma extra_loop_sound fuel : forall pre opre rest p', length opre = length pre -> extra_loop fuel (between pre opre rest) = Some (Ok p') ->
  exists g g' rest', rest = g ++ rest' /\ gap g g' /\ p' = between (pre ++ g) (opre ++ g') rest' /\ stops rest'.
Proof.
  induction fuel as [|fuel IH]; intros pre opre rest p' Hl; [done|]. cbn [extra_loop]. rewrite rest_between. destruct (peek_is space rest) eqn:Esp.
  - destruct rest as [|b rest]; [done|]. cbn in Esp. rewrite advance_one. intros (g & g' & rest' & -> & Hg & -> & Hs)%IH; [|rewrite !length_app; cbn; lia].
    exists (b :: g), (b :: g'), rest'. rewrite <-!app_assoc. split_and!; try done. by constructor.
  - destruct (starts_comment rest) eqn:Ec; [|intros [= <-]; exists [], [], rest; rewrite !app_nil_r; split_and!; try done; constructor].
    destruct (comment_end _ _) as [n|] eqn:En; [|done]. destruct (comment_end_sound _ _ Ec En) as (c & rest' & -> & Hc & Hlen).
    change (p_at (between pre opre (c ++ rest'))) with (length pre). rewrite <-Nat.add_assoc, <-Hlen, slice_between, blank_between by done. destruct (utf8_valid c) eqn:Eu; [|done]. cbn [negb].
    intros (g & g' & rest2 & -> & Hg & -> & Hs)%IH; [|rewrite !length_app, length_map; lia]. exists (c ++ g), (map blank_byte c ++ g'), rest2. rewrite <-!app_assoc. split_and!; try done. constructor; [done|by apply utf8_valid_spec|done].
Qed.

Lemma extra_loop_enough fuel : forall pre opre rest, length opre = length pre -> (length rest < fuel)%nat -> extra_loop fuel (between pre opre rest) <> None.
Proof.
  induction fuel as [|fuel IH]; intros pre opre rest Hl Hf; [lia|]. cbn [extra_loop]. rewrite rest_between. destruct (peek_is space rest) eqn:Esp.
  - destruct rest as [|b rest]; [done|]. rewrite advance_one. apply IH; [rewrite !length_app; cbn; lia|cbn in Hf; lia].
  - destruct (starts_comment rest) eqn:Ec; [|done]. destruct (comment_end _ _) as [n|] eqn:En; [|done]. destruct (comment_end_sound _ _ Ec En) as (c & rest' & -> & Hc & Hlen).
    change (p_at (between pre opre (c ++ rest'))) with (length pre). rewrite <-Nat.add_assoc, <-Hlen, slice_between, blank_between by done. destruct (utf8_valid c); [|done]. cbn [negb].
    apply IH; [rewrite !length_app, length_map; lia|rewrite length_app in Hf; lia].
Qed.

Lemma extra_sound pre opre rest p' : length opre = length pre -> extra (between pre opre rest) = Ok p' ->
  exists g g' rest', rest = g ++ rest' /\ gap g g' /\ p' = between (pre ++ g) (opre ++ g') rest' /\ stops rest'.
Proof.
  intros Hl. unfold extra. rewrite rest_between. destruct (extra_loop _ _) as [r|] eqn:E.
  - cbn. intros ->. by eapply extra_loop_sound.
  - apply extra_loop_enough in E; [done|done|lia].
Qed.

Lemma extra_loop_complete g g' : gap g g' -> forall fuel pre opre rest, length opre = length pre -> (length (g ++ rest) < fuel)%nat -> stops rest ->
  extra_loop fuel (between pre opre (g ++ rest)) = Some (Ok (between (pre ++ g) (opre ++ g') rest)).
Proof.
  induction 1 as [|b g g' Hb Hg IH|c g g' Hc Hu Hg IH]; intros fuel pre opre rest Hl Hf Hs; (destruct fuel as [|fuel]; [lia|]); cbn [extra_loop]; rewrite rest_between.
  - destruct Hs as [Hs1 Hs2]. cbn [app]. by rewrite Hs1, Hs2, !app_nil_r.
  - cbn [app peek_is]. rewrite Hb, advance_one, IH; [by rewrite <-!app_assoc|rewrite !length_app; cbn; lia|cbn in Hf; lia|done].
  - rewrite <-app_assoc. destruct (comment_end_spec c (g ++ rest) Hc) as (-> & -> & -> & Hlen). change (p_at (between pre opre (c ++ g ++ rest))) with (length pre).
    replace (length pre + 2 + (length c - 2))%nat with (length pre + length c)%nat by lia. rewrite slice_between, blank_between by done. rewrite (proj2 (utf8_valid_spec c) Hu). cbn [negb].
    rewrite IH; [by rewrite <-!app_assoc|rewrite !length_app, length_map; lia|rewrite <-app_assoc, length_app in Hf; lia|done].
Qed.

Lemma extra_complete g g' pre opre rest : gap g g' -> length opre = length pre -> stops rest -> extra (between pre opre (g ++ rest)) = Ok (between (pre ++ g) (opre ++ g') rest).
Proof. intros Hg Hl Hs. unfold extra. rewrite rest_between. rewrite (extra_loop_complete g g') by (done || lia). done. Qed.

(** ** Literals *)

Lemma string_end_sound l : forall escaped n, string_end escaped l = Some n -> exists body rest, l = body ++ QUOTE :: rest /\ n = S (length body).
Proof.
  induction l as [|b l IH]; intros escaped n; [done|]. cbn. assert (forall e, S <$> string_end e l = Some n -> exists body rest, b :: l = body ++ QUOTE :: rest /\ n = S (length body)) as Hrec.
  { intros e (m & Hm & ->)%fmap_Some. destruct (IH e m Hm) as (body & rest & -> & ->). by exists (b :: body), rest. }
  destruct escaped; [apply Hrec|]. destruct (b =? BACKSLASH); [apply Hrec|]. destruct (Z.eqb_spec b QUOTE) as [-> |]; [|apply Hrec]. intros [= <-]. by exists [], l.
Qed.

Lemma hex_plain h rest : is_hexdigit h = true -> string_end false (h :: rest) = S <$> string_end false rest.
Proof.
  intros Hh. cbn. assert ((h =? BACKSLASH) = false /\ (h =? QUOTE) = false) as [-> ->]; [|done]. unfold is_hexdigit, is_digit in Hh. rewrite !Z.eqb_neq. lia.
Qed.

Lemma string_end_complete chars rest : Forall string_char chars -> string_end false (concat chars ++ QUOTE :: rest) = Some (S (length (concat chars))).
Proof.
  induction 1 as [|x chars Hx _ IH]; [done|]. cbn [concat]. rewrite <-app_assoc. destruct Hx as [b Hb Hq Hs|e He|h1 h2 h3 h4 Hh].
  - cbn [app string_end]. destruct (Z.eqb_spec b BACKSLASH); [done|]. destruct (Z.eqb_spec b QUOTE); [done|]. by rewrite IH.
  - cbn [app string_end]. by rewrite Z.eqb_refl, IH.
  - cbn in Hh. repeat (apply andb_true_iff in Hh as [? Hh]). change ([BACKSLASH; 117; h1; h2; h3; h4] ++ concat chars ++ QUOTE :: rest) with (BACKSLASH :: 117 :: h1 :: h2 :: h3 :: h4 :: concat chars ++ QUOTE :: rest).
    change (string_end false (BACKSLASH :: 117 :: ?l)) with (S <$> (S <$> string_end false l)). rewrite !hex_plain by done. by rewrite IH.
Qed.

Lemma word_length_spec l : exists w rest, l = w ++ rest /\ length w = word_length l /\ Forall (fun b => is_word b = true) w /\ peek_is is_word rest = false.
Proof.
  induction l as [|b l (w & rest & -> & Hl & Hw & Hr)]; [by exists [], []; repeat constructor|]. cbn. destruct (is_word b) eqn:Eb.
  - exists (b :: w), rest. split_and!; [done|cbn; by f_equal|by constructor|done].
  - exists [], (b :: w ++ rest). split_and!; [done..|constructor|done].
Qed.

Lemma word_length_app w rest : Forall (fun b => is_word b = true) w -> peek_is is_word rest = false -> word_length (w ++ rest) = length w.
Proof. intros Hw Hr. induction Hw as [|b w Hb _ IH]; cbn; [|by rewrite Hb, IH]. destruct rest as [|b rest]; [done|]. cbn in Hr |- *. by rewrite Hr. Qed.

Lemma word_not_space b : is_word b = true -> space b = false.
Proof. unfold is_word, is_digit, space. intros Hb. repeat rewrite ?orb_false_iff, ?Z.eqb_neq. repeat rewrite ?orb_true_iff, ?andb_true_iff, ?Z.eqb_eq in Hb. lia. Qed.

Lemma valid_scalar s : scalar s -> is_ok (check_valid s) = true.
Proof.
  intros Hs. assert (check_valid s = Ok tt) as ->; [|done]. apply check_valid_json. exists [], s, []. rewrite app_nil_r. split_and!; [constructor|by constructor|constructor|done].
Qed.

Lemma is_ok_unit {E} (r : result unit E) : is_ok r = true -> r = Ok tt.
Proof. by destruct r as [[]|]. Qed.

Lemma json_scalar_inv d v : json d v -> head v <> Some LBRACKET -> head v <> Some LBRACE -> scalar v.
Proof. intros [? ? Hs| | | |] H1 H2; [done|by destruct H1|by destruct H1|by destruct H2|by destruct H2]. Qed.

Lemma scalar_quote t : scalar (QUOTE :: t) -> string_text (QUOTE :: t).
Proof.
  intros [Hs|[Hn|[?|[?|?]]]]; [done| |done..]. inversion Hn as [sign int frac exp Hsg Hi _ _ E]. exfalso. destruct Hsg as [-> | ->]; [|done]. destruct Hi as [-> |[[Hne Hall] _]]; [done|].
  destruct int as [|x int]; [done|]. injection E as -> _. by apply Forall_inv in Hall.
Qed.

(** A tight text that is valid is its value. *)
Lemma valid_tight x : peek_is space x = false -> (forall y c, x = y ++ [c] -> space c = false) -> is_ok (check_valid x) = true -> exists d, json d x.
Proof.
  intros Hh Hl Hv%is_ok_unit. apply check_valid_json in Hv as (w & v & w' & Hw & Hj & Hw' & ->).
  assert (w = []) as ->. { destruct Hw as [|b w Hb _]; [done|]. cbn in Hh. congruence. }
  assert (w' = []) as ->; [|exists MAX_DEPTH; by rewrite app_nil_r]. destruct (@nil_or_length_pos _ w') as [|Hpos]; [done|]. destruct (exists_last (l := w')) as (y & c & ->); [by destruct w'|].
  apply Forall_app in Hw' as [_ Hc%Forall_inv]. rewrite (Hl (v ++ y) c) in Hc; [done|]. by rewrite <-app_assoc.
Qed.

Lemma string_valid body : is_ok (check_valid (QUOTE :: body ++ [QUOTE])) = true -> string_text (QUOTE :: body ++ [QUOTE]).
Proof.
  intros Hv. apply scalar_quote. destruct (valid_tight (QUOTE :: body ++ [QUOTE])) with (3 := Hv) as (d & Hj); [done| |by apply (json_scalar_inv d)].
  intros y c E. change (QUOTE :: body ++ [QUOTE]) with ((QUOTE :: body) ++ [QUOTE]) in E. apply app_inj_tail in E as [_ <-]. done.
Qed.

Lemma word_valid w : w <> [] -> Forall (fun b => is_word b = true) w -> is_ok (check_valid w) = true -> scalar w.
Proof.
  intros Hne Hw Hv. destruct (valid_tight w) with (3 := Hv) as (d & Hj).
  - destruct Hw as [|b w Hb _]; [done|]. by apply word_not_space.
  - intros y c ->. apply Forall_app in Hw as [_ Hc%Forall_inv]. by apply word_not_space.
  - destruct Hw as [|b w Hb _]; [done|]. apply (json_scalar_inv d); [done|..]; cbn; intros [= ->]; done.
Qed.

Lemma scalar_word s : scalar s -> string_text s \/ (s <> [] /\ Forall (fun b => is_word b = true) s /\ peek_is (Z.eqb QUOTE) s = false).
Proof.
  intros Hs. destruct (scalar_head s Hs) as (b & t & -> & _). destruct (Z.eqb_spec QUOTE b) as [<- |Hq]; [left; by apply scalar_quote|]. right. split; [done|]. split; [|cbn [peek_is]; by apply Z.eqb_neq].
  assert (forall ds, Forall (fun b => is_digit b = true) ds -> Forall (fun b => is_word b = true) ds) as Hd by (intros ds Hds; eapply Forall_impl; [exact Hds|]; cbv beta; intros x Hx; unfold is_word; by rewrite Hx).
  destruct Hs as [(chars & _ & [= -> _])|[Hn|[[= -> ->]|[[= -> ->]|[= -> ->]]]]]; [done| |by repeat constructor..]. destruct Hn as [sign int frac exp Hsg Hi Hf He].
  repeat apply Forall_app_2.
  - destruct Hsg as [-> | ->]; by repeat constructor.
  - destruct Hi as [-> |[[_ Hall] _]]; [by repeat constructor|by apply Hd].
  - destruct Hf as [-> |(ds & [_ Hds] & ->)]; [constructor|constructor; [done|by apply Hd]].
  - destruct He as [-> |(e & sg & ds & He & Hsign & [_ Hds] & ->)]; [constructor|]. constructor; [by destruct He as [-> | ->]|]. apply Forall_app_2; [destruct Hsign as [-> |[-> | ->]]; by repeat constructor|by apply Hd].
Qed.

Definition checked (p : Parser) (start n : nat) : result Parser HuError :=
  let p := advance p n in
  let text := slice start (p_at p) (p_raw p) in
  if is_ok (check_valid text) then Ok p else Err (error_at p start (BadLiteral text)).

Lemma checked_between pre opre s rest : exists e, checked (between pre opre (s ++ rest)) (length pre) (length s) = if is_ok (check_valid s) then Ok (between (pre ++ s) (opre ++ s) rest) else Err e.
Proof.
  unfold checked. rewrite <-(advance_between pre opre s rest). cbn [p_at p_raw advance]. change (p_at (between pre opre (s ++ rest))) with (length pre). rewrite slice_between. by eexists.
Qed.

Lemma hu_literal_string p start n : string_end false (drop 1 (rest_of p)) = Some n -> hu_literal p start true = checked p start (S n).
Proof. unfold hu_literal. by intros ->. Qed.

Lemma hu_literal_word p start : word_length (rest_of p) <> 0%nat -> hu_literal p start false = checked p start (word_length (rest_of p)).
Proof. unfold hu_literal. intros H%Nat.eqb_neq. by rewrite H. Qed.

Lemma hu_literal_sound pre opre b t p' : hu_literal (between pre opre (b :: t)) (length pre) (b =? QUOTE) = Ok p' ->
  exists s rest, b :: t = s ++ rest /\ scalar s /\ (b =? QUOTE = true -> string_text s) /\ p' = between (pre ++ s) (opre ++ s) rest.
Proof.
  destruct (b =? QUOTE) eqn:Eq.
  - apply Z.eqb_eq in Eq as ->. destruct (string_end false t) as [n|] eqn:En.
    + rewrite (hu_literal_string _ _ n) by by rewrite rest_between. apply string_end_sound in En as (body & rest & -> & ->).
      assert (QUOTE :: body ++ QUOTE :: rest = (QUOTE :: body ++ [QUOTE]) ++ rest) as -> by (cbn; by rewrite <-app_assoc). replace (S (S (length body))) with (length (QUOTE :: body ++ [QUOTE])) by (cbn; rewrite length_app; cbn; lia).
      destruct (checked_between pre opre (QUOTE :: body ++ [QUOTE]) rest) as [e ->]. destruct (is_ok (check_valid _)) eqn:Ev; [|done]. apply string_valid in Ev. intros [= <-]. eexists _, rest. split_and!; try done. by left.
    + unfold hu_literal. rewrite rest_between. cbn [drop]. rewrite drop_0, En. done.
  - destruct (word_length_spec (b :: t)) as (w & rest & E & Hl & Hw & Hr). destruct (Nat.eq_dec (word_length (b :: t)) 0) as [H0|H0].
    + unfold hu_literal. rewrite rest_between, H0. done.
    + rewrite hu_literal_word by by rewrite rest_between. rewrite rest_between, <-Hl, E. destruct (checked_between pre opre w rest) as [e ->]. destruct (is_ok (check_valid w)) eqn:Ev; [|done]. apply word_valid in Ev; [|by destruct w; [rewrite <-Hl in H0|]|done].
      intros [= <-]. by exists w, rest.
Qed.

Lemma hu_literal_complete pre opre s rest : scalar s -> string_text s \/ peek_is is_word rest = false ->
  hu_literal (between pre opre (s ++ rest)) (length pre) (peek_is (Z.eqb QUOTE) s) = Ok (between (pre ++ s) (opre ++ s) rest).
Proof.
  intros Hs Hr. destruct (checked_between pre opre s rest) as [e Hc]. rewrite (valid_scalar s Hs) in Hc. destruct (scalar_word s Hs) as [Ht|(Hne & Hw & Hq)].
  - destruct Ht as (chars & Hch & ->). cbn [peek_is]. rewrite Z.eqb_refl. rewrite (hu_literal_string _ _ (S (length (concat chars)))); [|rewrite rest_between; cbn [app drop]; rewrite drop_0, <-app_assoc; by apply string_end_complete].
    rewrite <-Hc. f_equal. cbn. rewrite length_app. cbn. lia.
  - rewrite Hq. destruct Hr as [(chars & _ & ->)|Hr]; [done|]. rewrite hu_literal_word; rewrite rest_between, word_length_app by done; [done|]. by destruct s.
Qed.

(** ** The tasks read the grammar *)

(** Appends to the right, in the goal and in a hypothesis. *)
Ltac norm_app := do 3 (rewrite <-?app_assoc; cbn [app]).
Ltac norm_app_in H := do 3 (rewrite <-?app_assoc in H; cbn [app] in H).

Lemma hujson_length :
  (forall l l', hujson l l' -> length l' = length l) /\ (forall o l l', items o l l' -> length l' = length l) /\ (forall o l l', item o l l' -> length l' = length l).
Proof.
  apply hujson_items_ind; intros; repeat match goal with H : gap _ _ |- _ => apply gap_length in H end; rewrite ?length_app; cbn; rewrite ?length_app; cbn; rewrite ?length_app; cbn; lia.
Qed.

Lemma gap_app g g' h h' : gap g g' -> gap h h' -> gap (g ++ h) (g' ++ h').
Proof. intros Hg Hh. induction Hg; cbn; [done|by constructor|]. rewrite <-!app_assoc. by constructor. Qed.

Lemma item_gap o g g' l l' : gap g g' -> item o l l' -> item o (g ++ l) (g' ++ l').
Proof. intros Hg [g1 g1' v v' h h' Hg1 Hv Hh|g1 g1' s h h' k k' Hg1 Hs Hh Hk]; rewrite !(app_assoc g), !(app_assoc g'); constructor; auto using gap_app. Qed.

(** What follows an item in its container. *)
Inductive tail (o : bool) : list Z -> list Z -> Prop :=
| tail_nil : tail o [] []
| tail_comma g g' : gap g g' -> tail o (COMMA :: g) (SPACE :: g')
| tail_items k k' : items o k k' -> tail o (COMMA :: k) (COMMA :: k').

Lemma items_of o l l' t t' : item o l l' -> tail o t t' -> items o (l ++ t) (l' ++ t').
Proof. intros Hl [|g g' Hg|k k' Hk]; [rewrite !app_nil_r|..]; by constructor. Qed.

Lemma tail_length o t t' : tail o t t' -> length t' = length t.
Proof. intros [|g g' Hg|k k' Hk]; cbn; [done|f_equal; by apply gap_length|f_equal; by apply (proj1 (proj2 hujson_length) o)]. Qed.

Definition Next (o : bool) (comma : option nat) : Task := if o then ObjectNext comma else ArrayNext comma.
Definition After (o : bool) : Task := if o then ObjectAfter else ArrayAfter.

(** A run of the tasks from a split of the text. *)
Definition reaches (fuel : nat) (ts : list Task) (pre opre rest out : list Z) : Prop :=
  length opre = length pre /\ task_loop fuel ts (between pre opre rest) = Some (Ok out).

Lemma reaches_task fuel t ts pre opre rest out : reaches fuel (t :: ts) pre opre rest out ->
  exists fuel' pushed p, fuel = S fuel' /\ length opre = length pre /\ task_step t (between pre opre rest) = Ok (pushed, p) /\ task_loop fuel' (pushed ++ ts) p = Some (Ok out).
Proof.
  intros [Hl Hr]. destruct fuel as [|fuel]; [done|]. cbn [task_loop] in Hr. destruct (task_step t _) as [[pushed p]|] eqn:E; [|done]. by exists fuel, pushed, p.
Qed.

Lemma finish_sound fuel start kind name ts pre opre rest out : reaches fuel (TFinish start kind name :: ts) pre opre rest out ->
  exists h h' rest' fuel', rest = h ++ rest' /\ gap h h' /\ (name = true -> kind = QUOTE) /\ (fuel' < fuel)%nat /\ reaches fuel' ts (pre ++ h) (opre ++ h') rest' out.
Proof.
  intros (f & pushed & p & -> & Hl & (p' & He & Hn)%result_bind_Ok & Hr)%reaches_task. apply extra_sound in He as (h & h' & rest' & -> & Hg & -> & _); [|done].
  destruct (name && negb (kind =? QUOTE)) eqn:E; [done|]. injection Hn as <- <-. exists h, h', rest', f.
  assert (name = true -> kind = QUOTE) as Hk by (intros ->; by destruct (Z.eqb_spec kind QUOTE)). assert (reaches f ts (pre ++ h) (opre ++ h') rest' out) as Hrun; [|repeat (split; [done || lia|]); done].
  split; [|done]. rewrite !length_app. apply gap_length in Hg. lia.
Qed.

Definition value_reads (fuel : nat) : Prop := forall name ts pre opre rest out, reaches fuel (TValue name :: ts) pre opre rest out ->
  exists g g' v v' h h' rest' fuel', rest = g ++ v ++ h ++ rest' /\ gap g g' /\ hujson v v' /\ gap h h' /\ (name = true -> string_text v /\ v' = v) /\ (fuel' < fuel)%nat /\
    reaches fuel' ts (pre ++ g ++ v ++ h) (opre ++ g' ++ v' ++ h') rest' out.

(** Where a container's closing is found: [opre'] is what is left of the text before. *)
Definition next_reads (fuel : nat) : Prop := forall o comma ts pre opre rest out, reaches fuel (Next o comma :: ts) pre opre rest out ->
  match comma with None => True | Some i => exists a, opre = a ++ [COMMA] /\ i = length a end ->
  exists l l' opre' rest' fuel', rest = l ++ closes o :: rest' /\ (fuel' < fuel)%nat /\ reaches fuel' ts (pre ++ l ++ [closes o]) (opre' ++ l' ++ [closes o]) rest' out /\
    ((items o l l' /\ opre' = opre) \/ (gap l l' /\ opre' = match comma with None => opre | Some i => take i opre ++ [SPACE] end)).

Definition after_reads (fuel : nat) : Prop := forall o ts pre opre rest out, reaches fuel (After o :: ts) pre opre rest out ->
  exists t t' rest' fuel', rest = t ++ closes o :: rest' /\ tail o t t' /\ (fuel' < fuel)%nat /\ reaches fuel' ts (pre ++ t ++ [closes o]) (opre ++ t' ++ [closes o]) rest' out.

Definition colon_reads (fuel : nat) : Prop := forall ts pre opre rest out, reaches fuel (TObjectColon :: ts) pre opre rest out ->
  exists l l' rest' fuel', rest = COLON :: l ++ rest' /\ item false l l' /\ (fuel' < fuel)%nat /\ reaches fuel' (ObjectAfter :: ts) (pre ++ COLON :: l) (opre ++ COLON :: l') rest' out.

Section tasks.
Context (fuel : nat) (Hvalue : forall f, (f <= fuel)%nat -> value_reads f) (Hnext : forall f, (f <= fuel)%nat -> next_reads f)
  (Hafter : forall f, (f <= fuel)%nat -> after_reads f) (Hcolon : forall f, (f <= fuel)%nat -> colon_reads f).

Lemma value_reads_S : value_reads (S fuel).
Proof.
  intros name ts pre opre rest out (f & pushed & p & [= <-] & Hl & (p' & He & Hs)%result_bind_Ok & Hr)%reaches_task. apply extra_sound in He as (g & g' & rest1 & -> & Hg & -> & Hst); [|done].
  pose proof (gap_length _ _ Hg) as Hgl. assert (length (opre ++ g') = length (pre ++ g)) as Hl1 by (rewrite !length_app; lia). rewrite rest_between in Hs. destruct rest1 as [|kind t]; [done|].
  change (p_at (between (pre ++ g) (opre ++ g') (kind :: t))) with (length (pre ++ g)) in Hs.
  assert (forall o, kind = opens o -> pushed = [Next o None; TFinish (length (pre ++ g)) kind name] -> p = advance (between (pre ++ g) (opre ++ g') (kind :: t)) 1 -> exists g0 g0' v v' h h' rest' fuel',
    g ++ kind :: t = g0 ++ v ++ h ++ rest' /\ gap g0 g0' /\ hujson v v' /\ gap h h' /\ (name = true -> string_text v /\ v' = v) /\ (fuel' < S fuel)%nat /\ reaches fuel' ts (pre ++ g0 ++ v ++ h) (opre ++ g0' ++ v' ++ h') rest' out) as Hopen.
  { intros o -> -> ->. rewrite advance_one in Hr. destruct (Hnext fuel (le_n _) o None (TFinish (length (pre ++ g)) (opens o) name :: ts) ((pre ++ g) ++ [opens o]) ((opre ++ g') ++ [opens o]) t out) as (l & l' & opre' & rest2 & f1 & -> & Hf1 & Hr1 & Hi); [split; [rewrite !length_app in *; cbn; lia|exact Hr]|done|].
    apply finish_sound in Hr1 as (h & h' & rest' & f2 & -> & Hh & Hn & Hf2 & Hr2). exists g, g', (opens o :: l ++ [closes o]), (opens o :: l' ++ [closes o]), h, h', rest', f2.
    assert (hujson (opens o :: l ++ [closes o]) (opens o :: l' ++ [closes o]) /\ opre' = (opre ++ g') ++ [opens o]) as [Hv ->] by (destruct Hi as [[? ->]|[? ->]]; split; by try constructor).
    split_and!; try done; [by norm_app|intros Ht; by destruct o; specialize (Hn Ht)|lia|]. norm_app_in Hr2. norm_app. exact Hr2. }
  destruct (Z.eqb_spec kind LBRACE) as [-> |]; [injection Hs as <- <-; by apply (Hopen true)|]. destruct (Z.eqb_spec kind LBRACKET) as [-> |]; [injection Hs as <- <-; by apply (Hopen false)|].
  destruct ((kind =? RBRACE) || (kind =? RBRACKET)); [done|]. apply result_bind_Ok in Hs as (p1 & (s & rest1 & E & Hsc & Hstr & ->)%hu_literal_sound & [= <- <-]). rewrite E.
  destruct (finish_sound fuel (length (pre ++ g)) kind name ts ((pre ++ g) ++ s) ((opre ++ g') ++ s) rest1 out) as (h & h' & rest' & f2 & -> & Hh & Hn & Hf2 & Hr2); [split; [rewrite !length_app in *; lia|exact Hr]|].
  exists g, g', s, s, h, h', rest', f2. rewrite <-!app_assoc in Hr2. split_and!; try done; [by constructor|intros Ht|lia]. split; [|done]. apply Hstr. by rewrite (Hn Ht).
Qed.

Lemma colon_reads_S : colon_reads (S fuel).
Proof.
  intros ts pre opre rest out (f & pushed & p & [= <-] & Hl & Hs & Hr)%reaches_task. unfold task_step in Hs. rewrite rest_between in Hs. destruct rest as [|b t]; [done|].
  destruct (Z.eqb_spec b COLON) as [-> |]; [|done]. injection Hs as <- <-. rewrite advance_one in Hr.
  destruct (Hvalue fuel (le_n _) false (ObjectAfter :: ts) (pre ++ [COLON]) (opre ++ [COLON]) t out) as (g & g' & v & v' & h & h' & rest' & f' & -> & Hg & Hv & Hh & _ & Hf & Hr'); [split; [rewrite !length_app; cbn; lia|exact Hr]|].
  exists (g ++ v ++ h), (g' ++ v' ++ h'), rest', f'. norm_app_in Hr'. split; [by norm_app|]. split; [by constructor|]. split; [lia|done].
Qed.

Lemma after_reads_S : after_reads (S fuel).
Proof.
  intros o ts pre opre rest out (f & pushed & p & [= <-] & Hl & Hs & Hr)%reaches_task. assert (after_step o (between pre opre rest) = Ok (pushed, p)) as Hs' by by destruct o. clear Hs. unfold after_step in Hs'. rewrite rest_between in Hs'.
  destruct rest as [|b t]; [done|]. destruct (Z.eqb_spec b COMMA) as [-> |].
  - injection Hs' as <- <-. rewrite advance_one in Hr. change (p_at (between pre opre (COMMA :: t))) with (length pre) in Hr. rewrite <-Hl in Hr.
    destruct (Hnext fuel (le_n _) o (Some (length opre)) ts (pre ++ [COMMA]) (opre ++ [COMMA]) t out) as (l & l' & opre' & rest' & f' & -> & Hf & Hr' & Hi).
    + split; [rewrite !length_app; cbn; lia|]. by destruct o.
    + by exists opre.
    + destruct Hi as [[Hi ->]|[Hi ->]].
      * exists (COMMA :: l), (COMMA :: l'), rest', f'. norm_app_in Hr'. norm_app. split; [done|]. split; [by constructor|]. split; [lia|done].
      * rewrite take_app_length in Hr'. exists (COMMA :: l), (SPACE :: l'), rest', f'. norm_app_in Hr'. norm_app. split; [done|]. split; [by constructor|]. split; [lia|done].
  - assert (b = closes o /\ pushed = [] /\ p = advance (between pre opre (b :: t)) 1) as (-> & -> & ->).
    { destruct (b =? (if o then RBRACE else RBRACKET)) eqn:Eb; [|done]. injection Hs' as <- <-. apply Z.eqb_eq in Eb as ->. by destruct o. }
    rewrite advance_one in Hr. exists [], [], t, fuel. split; [done|]. split; [constructor|]. split; [lia|]. split; [rewrite !length_app; cbn; lia|done].
Qed.

Lemma next_reads_S : next_reads (S fuel).
Proof.
  intros o comma ts pre opre rest out (f & pushed & p & [= <-] & Hl & Hs & Hr)%reaches_task Hcomma. assert (next_step o comma (between pre opre rest) = Ok (pushed, p)) as Hs' by by destruct o. clear Hs.
  apply result_bind_Ok in Hs' as (p' & He & Hs). apply extra_sound in He as (g & g' & rest1 & -> & Hg & -> & Hst); [|done]. pose proof (gap_length _ _ Hg) as Hgl.
  rewrite rest_between in Hs. change (if o then RBRACE else RBRACKET) with (closes o) in Hs. destruct (peek_is (Z.eqb (closes o)) rest1) eqn:Ep.
  - apply peek_true in Ep. injection Hs as <- <-. set (opre' := match comma with None => opre | Some i => take i opre ++ [SPACE] end).
    assert (blank_comma (between (pre ++ g) (opre ++ g') rest1) comma = between (pre ++ g) (opre' ++ g') rest1 /\ length opre' = length opre) as [Hb Hlo].
    { destruct comma as [i|]; [|done]. destruct Hcomma as (a & -> & ->). unfold opre'. rewrite take_app_length, !length_app, <-!app_assoc. split; [apply blank_comma_between|done]. }
    rewrite Hb, Ep, advance_one in Hr. exists g, g', opre', (drop 1 rest1), fuel. rewrite <-Ep. norm_app_in Hr. split; [done|]. split; [lia|]. split; [|by right].
    split; [rewrite !length_app; cbn; lia|done].
  - assert (reaches fuel (if o then TValue true :: TObjectColon :: ts else TValue false :: ArrayAfter :: ts) (pre ++ g) (opre ++ g') rest1 out) as Hr1 by (split; [rewrite !length_app; lia|destruct o; injection Hs as <- <-; exact Hr]).
    assert (exists l l' rest2 f', rest1 = l ++ rest2 /\ item o l l' /\ (f' < fuel)%nat /\ reaches f' (After o :: ts) ((pre ++ g) ++ l) ((opre ++ g') ++ l') rest2 out) as (l & l' & rest2 & f1 & -> & Hi & Hf1 & Hr2).
    { destruct o; apply Hvalue in Hr1 as (g1 & g1' & v & v' & h & h' & rest2 & f1 & -> & Hg1 & Hv & Hh & Hn & Hf1 & Hr1); [|lia| |lia].
      - destruct (Hn eq_refl) as [Hstr ->]. apply Hcolon in Hr1 as (l & l' & rest3 & f2 & -> & Hi & Hf2 & Hr2); [|lia]. exists (g1 ++ v ++ h ++ COLON :: l), (g1' ++ v ++ h' ++ COLON :: l'), rest3, f2.
        norm_app_in Hr2. split; [by norm_app|]. split; [by constructor|]. split; [lia|]. by norm_app.
      - exists (g1 ++ v ++ h), (g1' ++ v' ++ h'), rest2, f1. split; [by norm_app|]. split; [by constructor|]. by split; [lia|]. }
    apply Hafter in Hr2 as (t & t' & rest3 & f2 & -> & Ht & Hf2 & Hr3); [|lia]. exists (g ++ l ++ t), (g' ++ l' ++ t'), opre, rest3, f2. norm_app_in Hr3. split; [by norm_app|]. split; [lia|]. split; [by norm_app|]. left. split; [|done].
    rewrite !app_assoc. apply items_of; [by apply item_gap|done].
Qed.
End tasks.

Lemma tasks_read fuel : value_reads fuel /\ next_reads fuel /\ after_reads fuel /\ colon_reads fuel.
Proof.
  induction fuel as [fuel IH] using lt_wf_ind. destruct fuel as [|fuel].
  - split_and!; [intros ? ? ? ? ? ? [_ ?]|intros ? ? ? ? ? ? ? [_ ?]|intros ? ? ? ? ? ? [_ ?]|intros ? ? ? ? ? [_ ?]]; done.
  - assert (forall f, (f <= fuel)%nat -> value_reads f /\ next_reads f /\ after_reads f /\ colon_reads f) as IH' by (intros; apply IH; lia).
    split_and!; [apply value_reads_S|apply next_reads_S|apply after_reads_S|apply colon_reads_S]; intros; by apply IH'.
Qed.

(** ** Every text of the grammar is read *)

Lemma rest_advance p n : rest_of (advance p n) = drop n (rest_of p).
Proof. unfold rest_of, advance. cbn. by rewrite drop_drop. Qed.

Lemma extra_loop_shrinks fuel : forall p p', extra_loop fuel p = Some (Ok p') -> (length (rest_of p') <= length (rest_of p))%nat.
Proof.
  induction fuel as [|fuel IH]; intros p p'; [done|]. cbn [extra_loop]. destruct (peek_is space (rest_of p)).
  - intros H%IH. rewrite rest_advance, length_drop in H. lia.
  - destruct (starts_comment (rest_of p)); [|by intros [= <-]]. destruct (comment_end _ _) as [n|]; [|done]. destruct (negb _); [done|]. intros H%IH. unfold rest_of in *. cbn [p_raw p_at] in H. rewrite !length_drop in *. lia.
Qed.

Lemma extra_shrinks p p' : extra p = Ok p' -> (length (rest_of p') <= length (rest_of p))%nat.
Proof. unfold extra. destruct (extra_loop _ p) as [r|] eqn:E; cbn; [intros ->; by eapply extra_loop_shrinks|]. by intros [= <-]. Qed.

Definition weight (t : Task) : nat := match t with ObjectNext _ | ArrayNext _ => 3 | _ => 1 end.
Definition weights (ts : list Task) : nat := list_sum (map weight ts).

Lemma rest_shrinks p n b t : rest_of p = b :: t -> (0 < n)%nat -> (length (rest_of (advance p n)) < length (rest_of p))%nat.
Proof. intros E Hn. rewrite rest_advance, length_drop, E. cbn. lia. Qed.

Lemma blank_comma_rest p comma : rest_of (blank_comma p comma) = rest_of p.
Proof. by destruct comma. Qed.

Lemma task_step_shrinks t p pushed p' : task_step t p = Ok (pushed, p') -> (4 * length (rest_of p') + weights pushed < 4 * length (rest_of p) + weight t)%nat.
Proof.
  assert (forall o comma, next_step o comma p = Ok (pushed, p') -> (4 * length (rest_of p') + weights pushed < 4 * length (rest_of p) + 3)%nat) as Hnext.
  { intros o comma (p1 & H1%extra_shrinks & Hs)%result_bind_Ok. destruct (peek_is _ _) eqn:Ep; [|injection Hs as <- <-; destruct o; cbn; lia]. injection Hs as <- <-.
    destruct (rest_of p1) as [|b k] eqn:Er; [done|]. pose proof (rest_shrinks (blank_comma p1 comma) 1 b k) as Hlt. rewrite blank_comma_rest in Hlt. specialize (Hlt Er ltac:(lia)). rewrite Er in Hlt. change (weights []) with 0%nat. lia. }
  assert (forall o, after_step o p = Ok (pushed, p') -> (4 * length (rest_of p') + weights pushed < 4 * length (rest_of p) + 1)%nat) as Hafter.
  { intros o. unfold after_step. destruct (rest_of p) as [|b k] eqn:Er; [done|]. pose proof (rest_shrinks p 1 b k Er ltac:(lia)) as Hlt. rewrite Er in Hlt. destruct (b =? COMMA); [intros [= <- <-]; destruct o; cbn in *; lia|]. destruct (b =? _); [intros [= <- <-]; cbn in *; lia|done]. }
  destruct t; cbn [task_step weight]; try apply Hnext; try apply Hafter.
  - intros (p1 & H1%extra_shrinks & Hs)%result_bind_Ok. destruct (rest_of p1) as [|b k] eqn:Er; [done|]. pose proof (rest_shrinks p1 1 b k Er ltac:(lia)) as Hlt. rewrite Er in Hlt.
    destruct (b =? LBRACE); [injection Hs as <- <-; cbn in *; lia|]. destruct (b =? LBRACKET); [injection Hs as <- <-; cbn in *; lia|]. destruct (_ || _); [done|]. apply result_bind_Ok in Hs as (p2 & Hlit & [= <- <-]).
    assert (exists n, (0 < n)%nat /\ p2 = advance p1 n) as (n & Hn & ->).
    { unfold hu_literal in Hlit. apply result_bind_Ok in Hlit as (n & Hn & Hc). exists n. destruct (is_ok _); [|done]. injection Hc as <-. split; [|done]. destruct (b =? QUOTE); [destruct (string_end _ _); [|done]; injection Hn as <-; lia|].
      destruct (Nat.eqb_spec (word_length (rest_of p1)) 0); [done|]. injection Hn as <-. lia. }
    pose proof (rest_shrinks p1 n b k Er Hn) as Hlt2. rewrite Er in Hlt2. cbn in *. lia.
  - intros (p1 & H1%extra_shrinks & Hs)%result_bind_Ok. destruct (_ && _); [done|]. injection Hs as <- <-. cbn. lia.
  - destruct (rest_of p) as [|b k] eqn:Er; [done|]. pose proof (rest_shrinks p 1 b k Er ltac:(lia)) as Hlt. rewrite Er in Hlt. destruct (b =? COLON); [|done]. intros [= <- <-]. cbn in *. lia.
  - destruct (rest_of p) eqn:Er; [|done]. intros [= <- <-]. rewrite Er. cbn. lia.
Qed.

Lemma weights_app ts ks : weights (ts ++ ks) = (weights ts + weights ks)%nat.
Proof. unfold weights. by rewrite map_app, list_sum_app. Qed.

Lemma task_loop_enough fuel : forall ts p, (4 * length (rest_of p) + weights ts < fuel)%nat -> task_loop fuel ts p <> None.
Proof.
  induction fuel as [|fuel IH]; intros ts p Hf; [lia|]. cbn [task_loop]. destruct ts as [|t ts]; [done|]. destruct (task_step t p) as [[pushed p']|] eqn:E; [|done]. apply task_step_shrinks in E. apply IH.
  rewrite weights_app. change (weights (t :: ts)) with (weight t + weights ts)%nat in Hf. lia.
Qed.

Lemma task_loop_mono fuel : forall fuel' ts p r, (fuel <= fuel')%nat -> task_loop fuel ts p = Some r -> task_loop fuel' ts p = Some r.
Proof.
  induction fuel as [|fuel IH]; [done|]. intros [|fuel'] ts p r Hle; [lia|]. cbn [task_loop]. destruct ts as [|t ts]; [done|]. destruct (task_step t p) as [[pushed p']|]; [|done]. apply IH. lia.
Qed.

Definition task_runs (ts : list Task) (p : Parser) (out : list Z) : Prop := exists fuel, task_loop fuel ts p = Some (Ok out).

Lemma task_runs_step t ts p pushed p' out : task_step t p = Ok (pushed, p') -> task_runs (pushed ++ ts) p' out -> task_runs (t :: ts) p out.
Proof. intros Hs [fuel Hr]. exists (S fuel). cbn [task_loop]. by rewrite Hs. Qed.

Definition ends (l : list Z) : Prop := stops l /\ peek_is is_word l = false.

Lemma punct_ends b l : b = COMMA \/ b = COLON \/ (exists o, b = closes o) -> ends (b :: l).
Proof. intros [-> |[-> |([] & ->)]]; split; [split| |split| |split| |split|]; try done; by destruct l. Qed.

Lemma gap_not_word g g' l : gap g g' -> peek_is is_word l = false -> peek_is is_word (g ++ l) = false.
Proof.
  intros [|b h h' Hb _|c h h' Hc _ _] Hl; [done| |by destruct Hc]. cbn. destruct (is_word b) eqn:E; [|done]. apply word_not_space in E. congruence.
Qed.

Lemma hujson_head v v' : hujson v v' -> exists b t, v = b :: t /\ (b =? RBRACE) || (b =? RBRACKET) = false.
Proof.
  intros [l Hl|o g g' _|o l l' _]; [|exists (opens o); eexists; by destruct o..].
  destruct (scalar_word l Hl) as [(chars & _ & ->)|(Hne & Hw & _)]; [by eexists _, _|]. destruct Hw as [|b w Hb _]; [done|]. exists b, w. split; [done|].
  destruct (Z.eqb_spec b RBRACE) as [-> |]; [done|]. by destruct (Z.eqb_spec b RBRACKET) as [-> |].
Qed.

Lemma hujson_stops v v' l : hujson v v' -> stops (v ++ l).
Proof.
  intros [k Hk|o g g' _|o k k' _]; [|split; [by destruct o|cbn; by destruct o, ((g ++ [closes _]) ++ l)]|split; [by destruct o|cbn; by destruct o, ((k ++ [closes _]) ++ l)]].
  destruct (scalar_word k Hk) as [(chars & _ & ->)|(Hne & Hw & _)]; [split; [done|cbn; by destruct ((concat chars ++ [QUOTE]) ++ l)]|]. destruct Hw as [|b w Hb _]; [done|].
  split; [by apply word_not_space|]. cbn. destruct (w ++ l); [done|]. by destruct (Z.eqb_spec b SLASH) as [-> |].
Qed.

(** Finishing a value, and the value's own part of [TValue]. *)
Lemma finish_runs start kind name ts pre opre h h' rest out : length opre = length pre -> gap h h' -> stops rest -> (name = true -> kind = QUOTE) ->
  task_runs ts (between (pre ++ h) (opre ++ h') rest) out -> task_runs (TFinish start kind name :: ts) (between pre opre (h ++ rest)) out.
Proof.
  intros Hl Hh Hs Hn. apply (task_runs_step _ _ _ [] (between (pre ++ h) (opre ++ h') rest)). cbn [task_step]. rewrite (extra_complete h h') by done. cbn [result_bind]. destruct name; [|done]. by rewrite (Hn eq_refl).
Qed.

Lemma close_next_runs o comma g g' ts pre opre opre' rest out : length opre = length pre -> gap g g' -> match comma with None => opre' = opre | Some i => exists a, opre = a ++ [COMMA] /\ i = length a /\ opre' = a ++ [SPACE] end ->
  task_runs ts (between (pre ++ g ++ [closes o]) (opre' ++ g' ++ [closes o]) rest) out -> task_runs (Next o comma :: ts) (between pre opre (g ++ closes o :: rest)) out.
Proof.
  intros Hl Hg Hc. apply (task_runs_step _ _ _ [] (between (pre ++ g ++ [closes o]) (opre' ++ g' ++ [closes o]) rest)).
  assert (next_step o comma (between pre opre (g ++ closes o :: rest)) = Ok ([], between (pre ++ g ++ [closes o]) (opre' ++ g' ++ [closes o]) rest)) as Hs; [|by destruct o].
  unfold next_step. rewrite (extra_complete g g') by (done || (apply punct_ends; eauto)). cbn [result_bind]. rewrite rest_between. change (if o then RBRACE else RBRACKET) with (closes o). cbn [peek_is]. rewrite Z.eqb_refl.
  replace (blank_comma (between (pre ++ g) (opre ++ g') (closes o :: rest)) comma) with (between (pre ++ g) (opre' ++ g') (closes o :: rest)).
  - by rewrite advance_one, <-!app_assoc.
  - destruct comma as [i|]; [|by rewrite Hc]. destruct Hc as (a & -> & -> & ->). rewrite <-!app_assoc. symmetry. apply blank_comma_between.
Qed.

Lemma open_value_runs o name g g' l l' h h' ts pre opre rest out : length opre = length pre -> gap g g' -> length l' = length l -> gap h h' -> stops rest -> name = false ->
  (forall ts rest, task_runs ts (between ((pre ++ g ++ [opens o]) ++ l ++ [closes o]) ((opre ++ g' ++ [opens o]) ++ l' ++ [closes o]) rest) out -> task_runs (Next o None :: ts) (between (pre ++ g ++ [opens o]) (opre ++ g' ++ [opens o]) (l ++ closes o :: rest)) out) ->
  task_runs ts (between (pre ++ g ++ (opens o :: l ++ [closes o]) ++ h) (opre ++ g' ++ (opens o :: l' ++ [closes o]) ++ h') rest) out ->
  task_runs (TValue name :: ts) (between pre opre (g ++ (opens o :: l ++ [closes o]) ++ h ++ rest)) out.
Proof.
  intros Hl Hg Hll Hh Hs -> Hnext Hr. pose proof (gap_length _ _ Hg) as Hgl. eapply (task_runs_step _ _ _ [Next o None; TFinish (length (pre ++ g)) (opens o) false] (between (pre ++ g ++ [opens o]) (opre ++ g' ++ [opens o]) (l ++ closes o :: h ++ rest))).
  - cbn [task_step]. unfold value_step. rewrite (extra_complete g g'); [|done|done|split; [by destruct o|by cbn; destruct o, ((l ++ [closes _]) ++ h ++ rest)]]. cbn [result_bind]. rewrite rest_between. norm_app.
    change (p_at (between (pre ++ g) (opre ++ g') (opens o :: l ++ closes o :: h ++ rest))) with (length (pre ++ g)). rewrite advance_one, <-!app_assoc. by destruct o.
  - cbn [app]. apply Hnext. apply (finish_runs _ _ _ _ _ _ h h'); [rewrite !length_app in *; cbn; rewrite ?length_app; cbn; lia|done..|]. norm_app. norm_app_in Hr. exact Hr.
Qed.

Definition value_run (v v' : list Z) : Prop := forall g g' h h' name ts pre opre rest out, gap g g' -> gap h h' -> length opre = length pre -> ends rest -> (name = true -> string_text v) ->
  task_runs ts (between (pre ++ g ++ v ++ h) (opre ++ g' ++ v' ++ h') rest) out -> task_runs (TValue name :: ts) (between pre opre (g ++ v ++ h ++ rest)) out.

Definition items_run (o : bool) (l l' : list Z) : Prop := forall comma ts pre opre rest out, length opre = length pre ->
  task_runs ts (between (pre ++ l ++ [closes o]) (opre ++ l' ++ [closes o]) rest) out -> task_runs (Next o comma :: ts) (between pre opre (l ++ closes o :: rest)) out.

Definition item_run (o : bool) (l l' : list Z) : Prop :=
  (forall comma ts pre opre rest out, length opre = length pre -> ends rest -> task_runs (After o :: ts) (between (pre ++ l) (opre ++ l') rest) out -> task_runs (Next o comma :: ts) (between pre opre (l ++ rest)) out) /\
  (o = false -> forall ts pre opre rest out, length opre = length pre -> ends rest -> task_runs ts (between (pre ++ l) (opre ++ l') rest) out -> task_runs (TValue false :: ts) (between pre opre (l ++ rest)) out).

Lemma scalar_runs s : scalar s -> value_run s s.
Proof.
  intros Hs g g' h h' name ts pre opre rest out Hg Hh Hl [Hst Hw] Hn Hr. pose proof (gap_length _ _ Hg) as Hgl. destruct (hujson_head s s (hu_scalar s Hs)) as (b & t & -> & Hb).
  eapply (task_runs_step _ _ _ [TFinish (length (pre ++ g)) b name] (between ((pre ++ g) ++ (b :: t)) ((opre ++ g') ++ (b :: t)) (h ++ rest))).
  - cbn [task_step]. unfold value_step. rewrite (extra_complete g g') by (done || by apply (hujson_stops _ (b :: t)), hu_scalar). cbn [result_bind]. rewrite rest_between. cbn [app].
    change (p_at (between (pre ++ g) (opre ++ g') (b :: t ++ h ++ rest))) with (length (pre ++ g)). pose proof (hu_literal_complete (pre ++ g) (opre ++ g') (b :: t) (h ++ rest) Hs) as Hlit. cbn [peek_is app] in Hlit. rewrite Z.eqb_sym in Hlit.
    rewrite Hlit by (right; by eapply gap_not_word). cbn [result_bind]. rewrite Hb. assert ((b =? LBRACE) = false /\ (b =? LBRACKET) = false) as [-> ->]; [|done].
    destruct (scalar_word _ Hs) as [(chars & _ & [= -> _])|(_ & Hall & _)]; [done|]. apply Forall_inv in Hall. split; destruct (Z.eqb_spec b LBRACE), (Z.eqb_spec b LBRACKET); subst; done.
  - cbn [app]. apply (finish_runs _ _ _ _ _ _ h h'); [rewrite !length_app in *; lia|done..| |norm_app; norm_app_in Hr; exact Hr]. intros Ht. destruct (Hn Ht) as (chars & _ & [= -> _]). done.
Qed.

Lemma first_value_runs (o : bool) comma g g' v v' ts pre opre rest out : length opre = length pre -> gap g g' -> hujson v v' ->
  task_runs ((if o then [TValue true; TObjectColon] else [TValue false; ArrayAfter]) ++ ts) (between (pre ++ g) (opre ++ g') (v ++ rest)) out -> task_runs (Next o comma :: ts) (between pre opre (g ++ v ++ rest)) out.
Proof.
  intros Hl Hg Hv. apply task_runs_step. assert (next_step o comma (between pre opre (g ++ v ++ rest)) = Ok (if o then [TValue true; TObjectColon] else [TValue false; ArrayAfter], between (pre ++ g) (opre ++ g') (v ++ rest))) as Hs; [|by destruct o].
  unfold next_step. rewrite (extra_complete g g') by (done || by apply (hujson_stops v v')). cbn [result_bind]. rewrite rest_between. destruct (hujson_head v v' Hv) as (b & t & -> & Hb). cbn [app peek_is].
  apply orb_false_iff in Hb as [H1 H2]. rewrite Z.eqb_sym. by destruct o; rewrite ?H1, ?H2.
Qed.

Lemma after_close_runs o ts pre opre rest out : length opre = length pre -> task_runs ts (between (pre ++ [closes o]) (opre ++ [closes o]) rest) out -> task_runs (After o :: ts) (between pre opre (closes o :: rest)) out.
Proof.
  intros Hl. apply (task_runs_step _ _ _ [] (between (pre ++ [closes o]) (opre ++ [closes o]) rest)). assert (after_step o (between pre opre (closes o :: rest)) = Ok ([], between (pre ++ [closes o]) (opre ++ [closes o]) rest)) as Hs; [|by destruct o].
  unfold after_step. rewrite rest_between, advance_one. by destruct o.
Qed.

Lemma after_comma_runs o ts pre opre rest out : length opre = length pre -> task_runs (Next o (Some (length pre)) :: ts) (between (pre ++ [COMMA]) (opre ++ [COMMA]) rest) out -> task_runs (After o :: ts) (between pre opre (COMMA :: rest)) out.
Proof.
  intros Hl. apply (task_runs_step _ _ _ [Next o (Some (length pre))] (between (pre ++ [COMMA]) (opre ++ [COMMA]) rest)).
  assert (after_step o (between pre opre (COMMA :: rest)) = Ok ([Next o (Some (length pre))], between (pre ++ [COMMA]) (opre ++ [COMMA]) rest)) as Hs; [|by destruct o].
  unfold after_step. rewrite rest_between, advance_one, Z.eqb_refl. by destruct o.
Qed.

Lemma hujson_runs : (forall v v', hujson v v' -> value_run v v') /\ (forall o l l', items o l l' -> items_run o l l') /\ (forall o l l', item o l l' -> item_run o l l').
Proof.
  apply hujson_items_ind.
  - apply scalar_runs.
  - intros o k k' Hk g g' h h' name ts pre opre rest out Hg Hh Hl [Hst _] Hn Hr. eapply (open_value_runs o name g g' k k' h h'); [done|done|by apply gap_length|done|done| | |exact Hr].
    + destruct name; [|done]. by destruct (Hn eq_refl) as (chars & _ & E), o.
    + intros ts' rest' Hr'. apply (close_next_runs _ _ k k' _ _ _ (opre ++ g' ++ [opens o])); [apply gap_length in Hg; rewrite !length_app; cbn; lia|done..].
  - intros o k k' Hk IH g g' h h' name ts pre opre rest out Hg Hh Hl [Hst _] Hn Hr. eapply (open_value_runs o name g g' k k' h h'); [done|done|by apply (proj1 (proj2 hujson_length) o)|done|done| | |exact Hr].
    + destruct name; [|done]. by destruct (Hn eq_refl) as (chars & _ & E), o.
    + intros ts' rest' Hr'. apply IH; [apply gap_length in Hg; rewrite !length_app; cbn; lia|done].
  - intros o l l' Hl [IH _] comma ts pre opre rest out Hlen Hr. apply IH; [done|apply punct_ends; eauto|]. apply after_close_runs; [|norm_app; exact Hr].
    apply (proj2 (proj2 hujson_length)) in Hl. rewrite !length_app. lia.
  - intros o l l' g g' Hl [IH _] Hg comma ts pre opre rest out Hlen Hr. apply (proj2 (proj2 hujson_length)) in Hl. rewrite <-app_assoc. apply IH; [done|apply punct_ends; auto|].
    apply after_comma_runs; [rewrite !length_app; lia|]. apply (close_next_runs _ _ g g' _ _ _ ((opre ++ l') ++ [SPACE])); [rewrite !length_app; cbn; lia|done| |norm_app; norm_app_in Hr; exact Hr].
    exists (opre ++ l'). split_and!; try done. rewrite !length_app. lia.
  - intros o l l' k k' Hl [IH _] Hk IHk comma ts pre opre rest out Hlen Hr. apply (proj2 (proj2 hujson_length)) in Hl. rewrite <-app_assoc. apply IH; [done|apply punct_ends; auto|].
    apply after_comma_runs; [rewrite !length_app; lia|]. apply IHk; [rewrite !length_app; cbn; lia|]. norm_app. norm_app_in Hr. exact Hr.
  - intros g g' v v' h h' Hg Hv IH Hh. split.
    + intros comma ts pre opre rest out Hl He Hr. norm_app. apply (first_value_runs false _ g g' v v'); [done..|]. cbn [app].
      apply (IH [] [] h h'); [constructor|done|apply gap_length in Hg; rewrite !length_app; lia|done|done|]. norm_app. norm_app_in Hr. exact Hr.
    + intros _ ts pre opre rest out Hl He Hr. norm_app. apply (IH g g' h h'); [done..|]. norm_app. norm_app_in Hr. exact Hr.
  - intros g g' s h h' l l' Hg Hs Hh Hl [_ IH]. split; [|done]. intros comma ts pre opre rest out Hlen He Hr. norm_app. assert (scalar s) as Hsc by by left. pose proof (gap_length _ _ Hg) as Hgl. pose proof (gap_length _ _ Hh) as Hhl.
    apply (first_value_runs true _ g g' s s); [done|done|by constructor|]. cbn [app].
    apply (scalar_runs s Hsc [] [] h h'); [constructor|done|rewrite !length_app; lia|apply punct_ends; auto|done|]. cbn [app].
    apply (task_runs_step _ _ _ [TValue false; ObjectAfter] (between (((pre ++ g) ++ s ++ h) ++ [COLON]) (((opre ++ g') ++ s ++ h') ++ [COLON]) (l ++ rest))).
    + cbn [task_step]. rewrite rest_between. rewrite Z.eqb_refl. by rewrite advance_one.
    + cbn [app]. apply IH; [done|rewrite !length_app; cbn; lia|done|]. norm_app. norm_app_in Hr. exact Hr.
Qed.

(** ** Standard JSON *)

Lemma blank_gap w : blank w -> gap w w.
Proof. induction 1; by constructor. Qed.

Lemma json_hujson :
  (forall d v, json d v -> hujson v v) /\ (forall d l, elements d l -> items false l l) /\ (forall d l, members d l -> items true l l) /\ (forall d l, member d l -> item true l l).
Proof.
  apply json_elements_members_ind; intros.
  - by constructor.
  - by apply (hu_empty false), blank_gap.
  - by apply (hu_container false).
  - by apply (hu_empty true), blank_gap.
  - by apply (hu_container true).
  - apply items_one. constructor; auto using blank_gap.
  - rewrite !(app_assoc v), !(app_assoc w). apply items_cons; [|done]. rewrite <-!app_assoc. constructor; auto using blank_gap.
  - by apply items_one.
  - by apply items_cons.
  - apply hu_member; auto using blank_gap. constructor; auto using blank_gap.
Qed.

(** What is left of an item or of the items of a container. *)
Definition item_left (o : bool) (l' : list Z) : Prop :=
  exists d, if o then member d l' else exists w v w', l' = w ++ v ++ w' /\ blank w /\ json d v /\ blank w'.
Definition items_left (o : bool) (l' : list Z) : Prop := exists d, if o then members d l' else elements d l'.

Lemma item_left_blank o l w : item_left o l -> blank w -> item_left o (l ++ w).
Proof.
  intros [d Hd] Hw. exists d. destruct o.
  - destruct Hd as [d g s w1 w2 v w' Hg Hs Hw1 Hw2 Hv Hw']. norm_app. apply member_of; auto using blank_app.
  - destruct Hd as (g & v & w' & -> & Hg & Hv & Hw'). exists g, v, (w' ++ w). split_and!; [by norm_app|done|done|by apply blank_app].
Qed.

Lemma item_left_one o l : item_left o l -> items_left o l.
Proof. intros [d Hd]. exists d. destruct o; [by apply members_one|]. destruct Hd as (g & v & w' & -> & ? & ? & ?). by apply elements_one. Qed.

Lemma item_left_cons o l k : item_left o l -> items_left o k -> items_left o (l ++ COMMA :: k).
Proof.
  intros [d Hd] [d' Hd']. exists (Nat.max d d'). destruct json_mono_all as (Hj & He & Hms & Hm). destruct o.
  - apply members_cons; [apply (Hm d); [done|lia]|apply (Hms d'); [done|lia]].
  - destruct Hd as (g & v & w' & -> & ? & ? & ?). norm_app. apply elements_cons; [done|apply (Hj d); [done|lia]|done|apply (He d'); [done|lia]].
Qed.

Lemma hujson_left : (forall v v', hujson v v' -> exists d, json d v') /\ (forall o l l', items o l l' -> items_left o l') /\ (forall o l l', item o l l' -> item_left o l').
Proof.
  apply hujson_items_ind.
  - intros l Hl. exists 0%nat. by constructor.
  - intros [] g g' Hg; exists 1%nat; apply gap_is_blank in Hg; by constructor.
  - intros [] l l' _ [d Hd]; exists (S d); by constructor.
  - intros o l l' _. apply item_left_one.
  - intros o l l' g g' _ Hl Hg. apply item_left_one, item_left_blank; [done|]. constructor; [done|by eapply gap_is_blank].
  - intros o l l' k k' _ Hl _ Hk. by apply item_left_cons.
  - intros g g' v v' h h' Hg _ [d Hv] Hh. exists d, g', v', h'. split_and!; try done; by eapply gap_is_blank.
  - intros g g' s h h' l l' Hg Hs Hh _ (d & w & v & w' & -> & Hw & Hv & Hw'). exists d. apply member_of; try done; by eapply gap_is_blank.
Qed.

(** A document: a value between gaps, and what is left of it. *)
Definition document (raw out : list Z) : Prop := exists g g' v v' h h', gap g g' /\ hujson v v' /\ gap h h' /\ raw = g ++ v ++ h /\ out = g' ++ v' ++ h'.

Lemma standardize_sound raw out : standardize raw = Ok out -> document raw out.
Proof.
  unfold standardize. destruct (task_loop _ _ _) as [r|] eqn:E.
  - cbn. intros ->. destruct (tasks_read (4 * length raw + 4)) as (Hv & _). destruct (Hv false [TEnd] [] [] raw out) as (g & g' & v & v' & h & h' & rest & f & -> & Hg & Hhu & Hh & _ & _ & Hr); [by split|].
    apply reaches_task in Hr as (f1 & pushed & p & -> & Hl & Hs & Hr). cbn [task_step] in Hs. rewrite rest_between in Hs. destruct rest; [|done]. injection Hs as <- <-. destruct f1; [done|]. injection Hr as <-.
    exists g, g', v, v', h, h'. split_and!; try done; [by rewrite app_nil_r|by rewrite app_nil_r].
  - apply task_loop_enough in E; [done|]. cbn. unfold rest_of. cbn. rewrite drop_0. lia.
Qed.

Lemma standardize_complete raw out : document raw out -> standardize raw = Ok out.
Proof.
  intros (g & g' & v & v' & h & h' & Hg & Hv & Hh & -> & ->). assert (task_runs [TValue false; TEnd] (between [] [] (g ++ v ++ h ++ [])) (g' ++ v' ++ h')) as [f Hf].
  { apply (proj1 hujson_runs v v' Hv g g' h h'); try done. exists 2%nat. cbn [task_loop task_step]. rewrite rest_between. cbn. by rewrite app_nil_r. }
  rewrite app_nil_r in Hf. unfold standardize. destruct (task_loop (4 * length (g ++ v ++ h) + 4) [TValue false; TEnd] (mkParser (g ++ v ++ h) (g ++ v ++ h) 0)) as [r|] eqn:E.
  - apply (task_loop_mono _ (Nat.max f (4 * length (g ++ v ++ h) + 4))) in E, Hf; [|lia..]. change (mkParser (g ++ v ++ h) (g ++ v ++ h) 0) with (between [] [] (g ++ v ++ h)) in E. cbn. congruence.
  - apply task_loop_enough in E; [done|]. cbn. unfold rest_of. cbn. rewrite drop_0. lia.
Qed.

(** C31. Reading HuJSON is exact: a text is accepted, with a given result, exactly when it
    is a document of the grammar that blanks to that result; the result is JSON of the same
    length; and a text that is JSON already is left as it is. *)
Theorem standardize_exact raw out :
  (standardize raw = Ok out <-> document raw out) /\
  (standardize raw = Ok out -> length out = length raw /\ exists d, json_text d out) /\
  (forall d, json_text d raw -> standardize raw = Ok raw).
Proof.
  split; [split; [apply standardize_sound|apply standardize_complete]|]. split.
  - intros (g & g' & v & v' & h & h' & Hg & Hv & Hh & -> & ->)%standardize_sound. split.
    + rewrite !length_app, (gap_length _ _ Hg), (gap_length _ _ Hh). by rewrite (proj1 hujson_length _ _ Hv).
    + destruct (proj1 hujson_left v v' Hv) as [d Hd]. exists d, g', v', h'. split_and!; try done; by eapply gap_is_blank.
  - intros d (w & v & w' & Hw & Hv & Hw' & ->). apply standardize_complete. exists w, w, v, v, w', w'. split_and!; try done; try by apply blank_gap. by apply (proj1 json_hujson d).
Qed.

(** ** Examples *)

Module HuJsonExamples.

(** [\[1, // one], a newline, [/**/ 2,\]] keeps its length and loses its comments and its last comma. *)
Example comments_and_comma :
  standardize [91; 49; 44; 47; 47; 120; 10; 47; 42; 42; 47; 50; 44; 93] = Ok [91; 49; 44; 32; 32; 32; 10; 32; 32; 32; 32; 50; 32; 93].
Proof. vm_compute. reflexivity. Qed.

(** Two commas are refused where the second stands, and a comment that is not closed where it starts. *)
Example two_commas : standardize [91; 49; 44; 44; 93] = Err (mkHuError 1 4 (BadStart 44)).
Proof. vm_compute. reflexivity. Qed.

Example open_comment : standardize [10; 32; 47; 42; 42] = Err (mkHuError 2 2 CommentEof).
Proof. vm_compute. reflexivity. Qed.

End HuJsonExamples.
