(* ===== verification/Preauth.v ===== *)
(** * Preauth: pre-authentication keys
    (headscale-api/src/tailscale_wire/mod.rs, headscale-api/src/admin/preauth.rs)

    [PreauthRedeemer] is what the registration handler needs of a store of keys: to look a
    key up without consuming it, and to redeem it.  [InMemoryPreauthAdmin] is the store in
    memory, with the operations of its administration.

    Times are nanoseconds; the random bytes of a token are arguments.  [Chrono] stands for
    the crate of that name, of which only the range of times matters. *)

From stdpp Require Import base list gmap strings.
From Stdlib Require Import ZArith Lia Ascii.
From S2P Require Import Prelude Text Bytes Net GoNetip.

Open Scope Z_scope.

(** The latest time, and the time of a number of seconds where it is in range. *)
Class Chrono := { MAX_UTC : Z; from_timestamp : Z -> option Z }.

Definition timestamp (t : Z) : Z := t / 10 ^ 9.

(** ** Redemption *)

Inductive RedeemError := UnknownKey | KeyExpired | AlreadyUsed.

Record RegistrationRedeemError := mkRedeemError { rde_kind : RedeemError; rde_message : string }.

Definition redeem_error_from (kind : RedeemError) : RegistrationRedeemError :=
  mkRedeemError kind
    match kind with
    | UnknownKey => "invalid pre auth key"
    | KeyExpired => "authkey expired"
    | AlreadyUsed => "authkey already used"
    end.

Record RedeemOk := mkRedeemOk {
  ro_user : string;
  ro_user_id : option Z;
  ro_ephemeral : bool;
  ro_tags : list string;
  ro_auth_key_id : option Z;
}.

(** What the handler calls.  A lookup leaves the store alone. *)
Class PreauthRedeemer (P : Type) := {
  lookup_for_registration : P -> string -> result (option RedeemOk) RegistrationRedeemError;
  redeem_for_registration : Z -> P -> string -> result RedeemOk RegistrationRedeemError * P;
}.

(** ** The store in memory *)

Record PreauthAdminKey := mkKey {
  pk_id : Z;
  pk_key : string;
  pk_user : string;
  pk_created_at : Z;
  pk_created_at_precise : option Z;
  pk_expires_at : Z;
  pk_expires_at_precise : option Z;
  pk_reusable : bool;
  pk_ephemeral : bool;
  pk_tags : list string;
  pk_redemptions : Z;
}.

Record PreauthMintRequest := mkMint {
  pm_user : string;
  pm_ttl_secs : Z;
  pm_reusable : bool;
  pm_ephemeral : bool;
  pm_tags : list string;
}.

Inductive PreauthAdminError := UnknownPrefix (prefix : string) | Invalid (reason : string).

Notation InMemoryPreauthAdmin := (gmap string PreauthAdminKey).

Definition TOKEN_PREFIX : string := "hskey-auth-".
Definition TOKEN_PREFIX_LEN : nat := 12.
Definition URLSAFE : chars := to_chars "ABCDEFGHIJKLMNOPQRSTUVWXYZabcdefghijklmnopqrstuvwxyz0123456789_-".
Definition NEVER_EXPIRES_AT : Z := 2 ^ 63 - 1.

Definition generate_urlsafe (raw : list Z) : string := of_chars (map (fun b => nth (Z.to_nat (Z.land b 63)) URLSAFE "A"%char) raw).

Definition generate_preauth_key (prefix secret : list Z) : string := TOKEN_PREFIX +:+ generate_urlsafe prefix +:+ "-" +:+ generate_urlsafe secret.

Definition expiration_for_mint (now_unix ttl_secs : Z) (explicit_expiration : option Z) : option Z :=
  match explicit_expiration with
  | Some expiration => Some expiration
  | None =>
      if ttl_secs =? 0 then None
      else let expires_at := saturating_add 64 now_unix (Z.min (Z.max ttl_secs 60) (365 * 24 * 3600)) in
           Some (if expires_at <=? 2 ^ 63 - 1 then expires_at else 2 ^ 63 - 1)
  end.

Definition display_expires_at (expiration : option Z) : Z :=
  match expiration with
  | Some expiration => if 0 <=? expiration then expiration else 0
  | None => NEVER_EXPIRES_AT
  end.

(** [trim().is_empty()]: nothing but white space, in UTF-8. *)
Fixpoint white_space (l : list Z) : bool :=
  match l with
  | [] => true
  | 194 :: c :: l => ((c =? 133) || (c =? 160)) && white_space l
  | 225 :: 154 :: 128 :: l => white_space l
  | 226 :: 128 :: c :: l => (((128 <=? c) && (c <=? 138)) || (c =? 168) || (c =? 169) || (c =? 175)) && white_space l
  | 226 :: 129 :: 159 :: l => white_space l
  | 227 :: 128 :: 128 :: l => white_space l
  | c :: l => ((c =? 32) || ((9 <=? c) && (c <=? 13))) && white_space l
  end.

Definition blank_text (s : string) : bool := white_space (map chr (to_chars s)).

Definition max_id (keys : InMemoryPreauthAdmin) : Z := foldr Z.max 0 (map (fun kv => pk_id kv.2) (map_to_list keys)).

Section store.
Context `{Chrono}.

Definition mint_inner (now_unix precise_now : Z) (prefix secret : list Z) (req : PreauthMintRequest) (explicit_expiration precise_expiration : option Z)
    (keys : InMemoryPreauthAdmin) : result PreauthAdminKey PreauthAdminError * InMemoryPreauthAdmin :=
  if blank_text (pm_user req) && is_nil (pm_tags req) then (Err (Invalid "user must be non-empty unless acl_tags are provided"), keys)
  else
    let tags := sort_dedup (pm_tags req) in
    match List.find (fun tag => negb (starts_with "tag:" tag)) tags with
    | Some tag => (Err (Invalid ("auth-key tag is invalid: '" +:+ tag +:+ "' did not begin with 'tag:'")), keys)
    | None =>
        let explicit := match precise_expiration with Some t => Some (timestamp t) | None => explicit_expiration end in
        let expiration := expiration_for_mint now_unix (pm_ttl_secs req) explicit in
        let key := generate_preauth_key prefix secret in
        let rec := mkKey (saturating_add 64 (max_id keys) 1) key (pm_user req) (Z.max (timestamp precise_now) 0) (Some precise_now) (display_expires_at expiration)
                     (match precise_expiration with Some t => Some t | None => expiration ≫= from_timestamp end)
                     (pm_reusable req) (pm_ephemeral req) tags 0 in
        (Ok rec, <[key := rec]> keys)
    end.

Definition mint (now_unix precise_now : Z) (prefix secret : list Z) (req : PreauthMintRequest) := mint_inner now_unix precise_now prefix secret req None None.

Definition mint_with_expiration (now_unix precise_now : Z) (prefix secret : list Z) (req : PreauthMintRequest) (expiration : option Z) :=
  mint_inner now_unix precise_now prefix secret req expiration None.

Definition mint_with_precise_expiration (now_unix precise_now : Z) (prefix secret : list Z) (req : PreauthMintRequest) (expiration : option Z) :=
  mint_inner now_unix precise_now prefix secret req None expiration.

Definition expired_now (now : Z) (k : PreauthAdminKey) : PreauthAdminKey :=
  mkKey (pk_id k) (pk_key k) (pk_user k) (pk_created_at k) (pk_created_at_precise k) (Z.max (timestamp now) 0) (Some now) (pk_reusable k) (pk_ephemeral k) (pk_tags k) (pk_redemptions k).

Definition expire_by_prefix (now : Z) (prefix : string) (keys : InMemoryPreauthAdmin) : result unit PreauthAdminError * InMemoryPreauthAdmin :=
  if (String.length prefix <? 4)%nat then (Err (Invalid "prefix must be at least 4 chars"), keys)
  else match List.find (fun kv => starts_with prefix kv.1) (map_to_list keys) with
       | Some (k, key) => (Ok tt, <[k := expired_now now key]> keys)
       | None => (Err (UnknownPrefix prefix), keys)
       end.

Definition expire_by_id (now id : Z) (keys : InMemoryPreauthAdmin) : InMemoryPreauthAdmin :=
  match List.find (fun kv => pk_id kv.2 =? id) (map_to_list keys) with
  | Some (k, key) => <[k := expired_now now key]> keys
  | None => keys
  end.

Definition delete_by_id (id : Z) (keys : InMemoryPreauthAdmin) : InMemoryPreauthAdmin := filter (fun kv => pk_id kv.2 <> id) keys.

(** The latest first. *)
Definition list_keys (keys : InMemoryPreauthAdmin) : list PreauthAdminKey :=
  sort_by (fun a b => Z.compare (pk_created_at b) (pk_created_at a)) (map snd (map_to_list keys)).

Definition in_memory_key_to_redeem_ok (k : PreauthAdminKey) : RedeemOk :=
  mkRedeemOk (pk_user k) None (pk_ephemeral k) (pk_tags k) (if pk_id k <=? 2 ^ 63 - 1 then Some (pk_id k) else None).

Definition key_expired (now : Z) (k : PreauthAdminKey) : bool :=
  match pk_expires_at_precise k with
  | Some expiry => expiry <? now
  | None => negb (pk_expires_at k =? NEVER_EXPIRES_AT) && (pk_expires_at k <? Z.max (timestamp now) 0)
  end.

Definition redeem (now : Z) (keys : InMemoryPreauthAdmin) (key : string) : result RedeemOk RedeemError * InMemoryPreauthAdmin :=
  match keys !! key with
  | None => (Err UnknownKey, keys)
  | Some rec =>
      if key_expired now rec then (Err KeyExpired, keys)
      else if negb (pk_reusable rec) && (0 <? pk_redemptions rec) then (Err AlreadyUsed, keys)
      else
        let rec := if pk_reusable rec then rec
                   else mkKey (pk_id rec) (pk_key rec) (pk_user rec) (pk_created_at rec) (pk_created_at_precise rec) (pk_expires_at rec) (pk_expires_at_precise rec) (pk_reusable rec)
                          (pk_ephemeral rec) (pk_tags rec) (saturating_add 64 (pk_redemptions rec) 1) in
        (Ok (in_memory_key_to_redeem_ok rec), <[key := rec]> keys)
  end.

Definition lookup_key (keys : InMemoryPreauthAdmin) (key : string) : option RedeemOk := in_memory_key_to_redeem_ok <$> keys !! key.

(** The display form of a token, which is ASCII: the secret is not shown. *)
Definition key_prefix (key : string) : string :=
  match strip_prefix TOKEN_PREFIX key with
  | Some rest => if (TOKEN_PREFIX_LEN <=? String.length rest)%nat then TOKEN_PREFIX +:+ String.substring 0 TOKEN_PREFIX_LEN rest +:+ "-***" else key
  | None => key
  end.

(** The defaults of the trait. *)
#[export] Instance in_memory_redeemer : PreauthRedeemer InMemoryPreauthAdmin :=
  {| lookup_for_registration keys key := Ok (lookup_key keys key);
     redeem_for_registration now keys key := let '(r, keys) := redeem now keys key in (map_err redeem_error_from r, keys) |}.

(** ** One-time keys *)

Inductive KeyEvent :=
| Minted (now_unix precise_now : Z) (prefix secret : list Z) (req : PreauthMintRequest) (explicit_expiration precise_expiration : option Z)
| ExpiredByPrefix (now : Z) (prefix : string)
| ExpiredById (now id : Z)
| DeletedById (id : Z)
| Redeemed (now : Z) (key : string).

Definition key_step (e : KeyEvent) (keys : InMemoryPreauthAdmin) : InMemoryPreauthAdmin :=
  match e with
  | Minted now_unix precise_now prefix secret req explicit precise => (mint_inner now_unix precise_now prefix secret req explicit precise keys).2
  | ExpiredByPrefix now prefix => (expire_by_prefix now prefix keys).2
  | ExpiredById now id => expire_by_id now id keys
  | DeletedById id => delete_by_id id keys
  | Redeemed now key => (redeem now keys key).2
  end.

Definition token_of (e : KeyEvent) : option string := match e with Minted _ _ prefix secret _ _ _ => Some (generate_preauth_key prefix secret) | _ => None end.

(** How often a key is redeemed along a history. *)
Fixpoint redemptions_of (key : string) (events : list KeyEvent) (keys : InMemoryPreauthAdmin) : nat :=
  match events with
  | [] => 0
  | e :: events =>
      let won := match e with Redeemed now k => bool_decide (k = key) && is_ok (redeem now keys k).1 | _ => false end in
      (Nat.b2n won + redemptions_of key events (key_step e keys))%nat
  end.

(** A key that can still be redeemed, and one that no history redeems. *)
Definition spendable (k : PreauthAdminKey) : Prop := pk_reusable k = false /\ 0 <= pk_redemptions k.
Definition spent (keys : InMemoryPreauthAdmin) (key : string) : Prop := forall k, keys !! key = Some k -> pk_reusable k = false /\ 0 < pk_redemptions k.

Lemma find_records (p : string * PreauthAdminKey -> bool) keys kv : List.find p (map_to_list keys) = Some kv -> keys !! kv.1 = Some kv.2.
Proof. intros [Hin _]%find_some. apply elem_of_map_to_list. rewrite list_elem_of_In. by destruct kv. Qed.

(** A step other than a mint of this key or a redemption keeps its kind and its count. *)
Definition same_use (keys keys' : InMemoryPreauthAdmin) (key : string) : Prop :=
  forall k', keys' !! key = Some k' -> exists k, keys !! key = Some k /\ pk_reusable k' = pk_reusable k /\ pk_redemptions k' = pk_redemptions k.

Lemma same_use_refl keys key : same_use keys keys key.
Proof. intros k' E. by exists k'. Qed.

Lemma same_use_insert keys key k0 k' :
  keys !! k0 = Some k' -> forall now, same_use keys (<[k0 := expired_now now k']> keys) key.
Proof.
  intros E now k1. destruct (decide (k0 = key)) as [-> |Hne]; [rewrite lookup_insert_eq; intros [= <-]; by exists k'|rewrite lookup_insert_ne by done; intros E1; by exists k1].
Qed.

Lemma other_step_same_use e keys key : token_of e <> Some key -> match e with Redeemed _ k => k <> key | _ => True end -> same_use keys (key_step e keys) key.
Proof.
  destruct e as [now_unix precise_now prefix secret req explicit precise|now prefix|now id|id|now k]; cbn [token_of key_step]; intros Ht Hk.
  - unfold mint_inner. destruct (_ && _); [apply same_use_refl|]. destruct (List.find _ _); [apply same_use_refl|]. intros k'. cbn [snd]. rewrite lookup_insert_ne by congruence. intros E. by exists k'.
  - unfold expire_by_prefix. destruct (_ <? _)%nat; [apply same_use_refl|]. destruct (List.find _ _) as [[k0 k']|] eqn:E; [|apply same_use_refl]. apply find_records in E. by apply same_use_insert.
  - unfold expire_by_id. destruct (List.find _ _) as [[k0 k']|] eqn:E; [|apply same_use_refl]. apply find_records in E. by apply same_use_insert.
  - intros k' [E _]%map_lookup_filter_Some. by exists k'.
  - unfold redeem. destruct (keys !! k) as [rec|]; [|apply same_use_refl]. destruct (key_expired now rec); [apply same_use_refl|]. destruct (_ && _); [apply same_use_refl|].
    intros k'. cbn [snd]. rewrite lookup_insert_ne by done. intros E. by exists k'.
Qed.

Lemma redeem_spends now keys key k : keys !! key = Some k -> spendable k ->
  if is_ok (redeem now keys key).1 then pk_redemptions k = 0 /\ spent (redeem now keys key).2 key else (redeem now keys key).2 = keys.
Proof.
  intros E [Hr Hc]. unfold redeem. rewrite E, Hr. destruct (key_expired now k); [done|]. cbn [negb andb]. destruct (Z.ltb_spec 0 (pk_redemptions k)); [done|]. cbn [is_ok fst snd]. split; [lia|].
  intros k'. rewrite lookup_insert_eq. intros [= <-]. cbn. unfold saturating_add, u_max. lia.
Qed.

Lemma absent_never_redeemed now keys key : keys !! key = None -> redeem now keys key = (Err UnknownKey, keys).
Proof. unfold redeem. by intros ->. Qed.

Lemma spent_redeems_never events : forall keys key, spent keys key -> Forall (fun e => token_of e <> Some key) events -> redemptions_of key events keys = 0%nat.
Proof.
  induction events as [|e events IH]; intros keys key Hs Hall; [done|]. inversion Hall as [|? ? Ht Hrest]; subst. cbn [redemptions_of].
  assert (match e with Redeemed now k => bool_decide (k = key) && is_ok (redeem now keys k).1 | _ => false end = false /\ spent (key_step e keys) key) as [-> Hs'].
  { destruct (match e with Redeemed _ k => bool_decide (k = key) | _ => false end) eqn:Ek.
    - destruct e as [| | | |now k]; try done. apply bool_decide_eq_true in Ek as ->. rewrite bool_decide_true by done. cbn [key_step andb].
      destruct (keys !! key) as [k'|] eqn:E; [|rewrite (absent_never_redeemed now keys key E); split; [done|]; intros k1; cbn [snd]; by rewrite E].
      destruct (Hs k' E) as [Hr Hpos]. pose proof (redeem_spends now keys key k' E (conj Hr (Z.lt_le_incl _ _ Hpos))) as H1. destruct (is_ok _); [lia|]. by rewrite H1.
    - split; [destruct e as [| | | |now k]; try done; by rewrite Ek|]. intros k' E. destruct (other_step_same_use e keys key Ht) with k' as (k1 & E1 & -> & ->); [|done|by apply Hs].
      destruct e as [| | | |now k]; try done. by apply bool_decide_eq_false in Ek. }
  cbn. by apply IH.
Qed.

(** C37. A key that is not reusable is redeemed at most once, and not again once it was,
    whatever else happens to the store: keys are minted, expired, deleted and redeemed in
    any order and at any times, as long as its token is not given out a second time. *)
Theorem one_time_key_once keys key k events :
  keys !! key = Some k -> pk_reusable k = false -> 0 <= pk_redemptions k -> Forall (fun e => token_of e <> Some key) events ->
  (redemptions_of key events keys <= 1)%nat /\ (0 < pk_redemptions k -> redemptions_of key events keys = 0%nat).
Proof.
  intros E Hr Hc Hall. split; [|intros Hpos; apply spent_redeems_never; [|done]; intros k'; rewrite E; by intros [= <-]].
  assert (forall k', keys !! key = Some k' -> spendable k') as Hsp by (intros k'; rewrite E; by intros [= <-]). clear E Hr Hc k.
  revert keys Hsp. induction Hall as [|e events Ht Hrest IH]; intros keys Hsp; [cbn; lia|]. cbn [redemptions_of].
  destruct (match e with Redeemed _ k => bool_decide (k = key) | _ => false end) eqn:Ek.
  - destruct e as [| | | |now k]; try done. apply bool_decide_eq_true in Ek as ->. rewrite bool_decide_true by done. cbn [key_step andb].
    destruct (keys !! key) as [k'|] eqn:E; [|rewrite (absent_never_redeemed now keys key E); cbn; apply IH; intros k1; by rewrite E].
    pose proof (redeem_spends now keys key k' E (Hsp k' eq_refl)) as H1. destruct (is_ok _); [|rewrite H1; apply IH; intros k1; rewrite E; apply Hsp]. rewrite spent_redeems_never; [cbn; lia|by destruct H1|done].
  - assert (match e with Redeemed now k => bool_decide (k = key) && is_ok (redeem now keys k).1 | _ => false end = false) as -> by (destruct e as [| | | |now k]; try done; by rewrite Ek).
    cbn. apply IH. intros k' E. destruct (other_step_same_use e keys key Ht) with k' as (k1 & E1 & E2 & E3); [destruct e as [| | | |now k]; try done; by apply bool_decide_eq_false in Ek|done|].
    destruct (Hsp k1 E1) as [? ?]. split; [by rewrite E2|by rewrite E3].
Qed.

End store.

(** ** Examples *)

Module PreauthExamples.

#[export] Instance chrono : Chrono := {| MAX_UTC := 8210266876799 * 10 ^ 9; from_timestamp s := if (Z.abs s <=? 8210266876799) then Some (s * 10 ^ 9) else None |}.

Definition request : PreauthMintRequest := mkMint "alice" 600 false false ["tag:b"; "tag:a"; "tag:b"].

(** The token of these bytes. *)
Definition token : string := generate_preauth_key (repeat 1 12) (repeat 2 64).

Definition minted : InMemoryPreauthAdmin := (mint 1000 (1000 * 10 ^ 9) (repeat 1 12) (repeat 2 64) request ∅).2.

Definition key1 : PreauthAdminKey := mkKey 1 token "alice" 1000 (Some (1000 * 10 ^ 9)) 1600 (Some (1600 * 10 ^ 9)) false false ["tag:a"; "tag:b"] 0.

Example minted_key : minted = {[ token := key1 ]}.
Proof. vm_compute. reflexivity. Qed.

(** It works once, until it expires, and its display hides the secret. *)
Example redeemed_once : (redeem (1200 * 10 ^ 9) minted token).1 = Ok (mkRedeemOk "alice" None false ["tag:a"; "tag:b"] (Some 1)).
Proof. vm_compute. reflexivity. Qed.

Example not_redeemed_twice : (redeem (1300 * 10 ^ 9) (redeem (1200 * 10 ^ 9) minted token).2 token).1 = Err AlreadyUsed.
Proof. vm_compute. reflexivity. Qed.

Example expired_early : (redeem (1200 * 10 ^ 9) (expire_by_id (1100 * 10 ^ 9) 1 minted) token).1 = Err KeyExpired.
Proof. vm_compute. reflexivity. Qed.

Example secret_hidden : key_prefix token = "hskey-auth-BBBBBBBBBBBB-***"%string.
Proof. vm_compute. reflexivity. Qed.

Example untagged_without_user : (mint 0 0 [] [] (mkMint " " 0 false false []) ∅).1 = Err (Invalid "user must be non-empty unless acl_tags are provided").
Proof. vm_compute. reflexivity. Qed.

Lemma one_time_key_once_witness :
  (redemptions_of token [Redeemed (1200 * 10 ^ 9) token; ExpiredById (1250 * 10 ^ 9) 7; Redeemed (1300 * 10 ^ 9) token] minted <= 1)%nat.
Proof. apply (one_time_key_once minted token key1); [vm_compute; reflexivity|reflexivity|vm_compute; discriminate|repeat constructor; vm_compute; discriminate]. Defined.

End PreauthExamples.
