(* ===== verification/GoUrl.v ===== *)
(** * GoUrl: Go's URLs (headscale-api/src/go_url.rs)

    [parse_bytes] reads a URL as Go's net/url does, into its decoded parts and, where the
    canonical escaping differs from what was read, a hint; [as_bytes] prints it.  A URL
    that is printed is read back to the same parts, unless the printed path would read as
    something else ([printable]).

    Texts are lists of bytes.  An error is the reason, with the bytes the code quotes in
    its message.  The setting of GODEBUG (urlstrictcolons=0) that lets a host have several
    colons is the argument [legacy_colons]. *)

From stdpp Require Import base list strings sets.
From Stdlib Require Import ZArith Lia Ascii.
From S2P Require Import Prelude Bytes Net Utf8.

Open Scope Z_scope.

Notation PERCENT := 37.
Notation SLASH := 47.
Notation COLON := 58.
Notation QUESTION := 63.
Notation AT := 64.
Notation HASH := 35.
Notation STAR := 42.
Notation OPEN := 91.
Notation CLOSE := 93.

Inductive UrlError :=
| ControlCharacter | MissingScheme | ColonInFirstSegment | InvalidUserinfo | MissingBracket | InvalidPort (port : list Z)
| InvalidIpv6 | InvalidIpLiteral | InvalidEscape (text : list Z) | InvalidHostCharacter (b : Z).

(** ** Bytes *)

(** [b"..."] *)
Definition text (s : string) : list Z := map chr (String.list_ascii_of_string s).

Definition one_of (b : Z) (l : list Z) : bool := existsb (Z.eqb b) l.
Definition is_lower (b : Z) : bool := (97 <=? b) && (b <=? 122).
Definition is_upper (b : Z) : bool := (65 <=? b) && (b <=? 90).
Definition is_number (b : Z) : bool := (48 <=? b) && (b <=? 57).
Definition is_alphanumeric (b : Z) : bool := is_lower b || is_upper b || is_number b.
Definition lower (b : Z) : Z := if is_upper b then b + 32 else b.

Fixpoint begins (p l : list Z) : bool :=
  match p, l with
  | [], _ => true
  | a :: p, b :: l => (a =? b) && begins p l
  | _ :: _, [] => false
  end.

(** The text on both sides of the first, of the last [b]. *)
Fixpoint cut_first (b : Z) (l : list Z) : option (list Z * list Z) :=
  match l with
  | [] => None
  | c :: l => if c =? b then Some ([], l) else (fun xy => (c :: xy.1, xy.2)) <$> cut_first b l
  end.

Fixpoint cut_last (b : Z) (l : list Z) : option (list Z * list Z) :=
  match l with
  | [] => None
  | c :: l => match cut_last b l with
              | Some (x, y) => Some (c :: x, y)
              | None => if c =? b then Some ([], l) else None
              end
  end.

Definition cut (l : list Z) (b : Z) : list Z * list Z := default (l, []) (cut_first b l).

(** The text up to the first [/], and from there. *)
Fixpoint span_slash (l : list Z) : list Z * list Z :=
  match l with
  | [] => ([], [])
  | c :: t => if c =? SLASH then ([], l) else let '(x, y) := span_slash t in (c :: x, y)
  end.

(** ** Escapes *)

Inductive Mode := InPath | InHost | InZone | InUser | InFragment.

Definition host_mode (m : Mode) : bool := match m with InHost | InZone => true | _ => false end.

Definition should_escape (b : Z) (m : Mode) : bool :=
  if is_alphanumeric b || one_of b (text "-_.~") then false
  else if host_mode m && (one_of b (text "!$&'()*+,;=:[]<>") || (b =? 34)) then false
  else if one_of b (text "$&+,/:;=?@") then
    match m with
    | InPath => b =? QUESTION
    | InUser => one_of b (text "@/?:")
    | InFragment => false
    | _ => true
    end
  else negb (match m with InFragment => one_of b (text "!()*") | _ => false end).

Definition hex_digit (n : Z) : Z := if n <? 10 then 48 + n else 55 + n.

Definition escape_byte (m : Mode) (b : Z) : list Z :=
  if should_escape b m then [PERCENT; hex_digit (Z.shiftr b 4); hex_digit (Z.land b 15)] else [b].

Definition escape (l : list Z) (m : Mode) : list Z := flat_map (escape_byte m) l.

Definition hex (b : Z) : option Z :=
  if is_number b then Some (b - 48)
  else if (97 <=? b) && (b <=? 102) then Some (b - 97 + 10)
  else if (65 <=? b) && (b <=? 70) then Some (b - 65 + 10)
  else None.

Definition hex_pair (d e : Z) : option Z :=
  match hex d, hex e with Some a, Some b => Some (Z.lor (Z.shiftl a 4) b) | _, _ => None end.

(** An escaped byte that has to be written in another way. *)
Definition bad_escape (m : Mode) (v : Z) : bool :=
  match m with
  | InHost => (v <? 128) && negb (v =? PERCENT)
  | InZone => negb (v =? PERCENT) && negb (v =? 32) && should_escape v InHost
  | _ => false
  end.

Fixpoint unescape (l : list Z) (m : Mode) : result (list Z) UrlError :=
  match l with
  | [] => Ok []
  | b :: rest =>
      if b =? PERCENT then
        match rest with
        | d :: e :: rest' =>
            match hex_pair d e with
            | Some v => if bad_escape m v then Err (InvalidEscape [b; d; e]) else result_map (cons v) (unescape rest' m)
            | None => Err (InvalidEscape [b; d; e])
            end
        | _ => Err (InvalidEscape l)
        end
      else if host_mode m && (b <? 128) && should_escape b m then Err (InvalidHostCharacter b)
      else result_map (cons b) (unescape rest m)
  end.

(** The hint, where it is an encoding of the bytes; else the canonical one. *)
Definition escaped (l raw : list Z) (m : Mode) : list Z :=
  if negb (is_nil raw) && forallb (fun b => one_of b (text "!$&'()*+,;=:@[]%") || negb (should_escape b m)) raw &&
     match unescape raw m with Ok decoded => bool_decide (decoded = l) | Err _ => false end
  then raw else escape l m.

(** ** URLs *)

Record User := mkUser { us_username : list Z; us_password : option (list Z) }.

Definition encoded (u : User) : list Z :=
  escape (us_username u) InUser ++ match us_password u with Some p => COLON :: escape p InUser | None => [] end.

Record Url := mkUrl {
  u_scheme : list Z;
  u_opaque : list Z;
  u_user : option User;
  u_host : list Z;
  u_path : list Z;
  u_raw_path : list Z;
  u_force_query : bool;
  u_raw_query : list Z;
  u_fragment : list Z;
  u_raw_fragment : list Z;
  u_omit_host : bool;
}.

Definition with_fragment (u : Url) (fragment raw_fragment : list Z) : Url :=
  mkUrl (u_scheme u) (u_opaque u) (u_user u) (u_host u) (u_path u) (u_raw_path u) (u_force_query u) (u_raw_query u) fragment raw_fragment (u_omit_host u).

(** ** Reading *)

(** The scheme and what follows its colon, if there is one. *)
Fixpoint scheme_loop (first : bool) (l : list Z) : result (option (list Z * list Z)) UrlError :=
  match l with
  | [] => Ok None
  | b :: l =>
      if is_lower b || is_upper b || ((is_number b || one_of b (text "+-.")) && negb first)
      then result_map (fmap (fun xy => (b :: xy.1, xy.2))) (scheme_loop false l)
      else if b =? COLON then if first then Err MissingScheme else Ok (Some ([], l))
      else Ok None
  end.

Definition scheme (raw : list Z) : result (list Z * list Z) UrlError :=
  result_map (default ([], raw)) (scheme_loop true raw).

Definition valid_port (port : list Z) : bool :=
  match port with [] => true | b :: digits => (b =? COLON) && forallb is_number digits end.

(** The text before the first [%25], and from there. *)
Fixpoint cut_zone (l : list Z) : option (list Z * list Z) :=
  match l with
  | [] => None
  | c :: t => if begins (text "%25") l then Some ([], l) else (fun xy => (c :: xy.1, xy.2)) <$> cut_zone t
  end.

(** [parse::<Ipv6Addr>] *)
Definition is_ipv6 (l : list Z) : bool :=
  utf8_valid l && match read_ipv6_addr (map (fun b => ascii_of_N (Z.to_N b)) l) with Some (_, []) => true | _ => false end.

Definition unescape_literal (hostname : list Z) : result (list Z) UrlError :=
  match cut_zone hostname with
  | Some (address, zone) => let? a := unescape address InHost in let? z := unescape zone InZone in Ok (a ++ z)
  | None => unescape hostname InHost
  end.

Definition literal_ok (hostname : list Z) : bool :=
  let '(address, zone) := match cut_first PERCENT hostname with Some (a, z) => (a, Some z) | None => (hostname, None) end in
  negb (match zone with Some z => is_nil z | None => false end) && is_ipv6 address.

(** A host in brackets, without the first one. *)
Definition parse_literal (host : list Z) : result (list Z) UrlError :=
  match cut_last CLOSE host with
  | None => Err MissingBracket
  | Some (hostname, port) =>
      if negb (valid_port port) then Err (InvalidPort port)
      else let? port := unescape port InHost in
           let? hostname := unescape_literal hostname in
           if literal_ok hostname then Ok (OPEN :: hostname ++ CLOSE :: port) else Err InvalidIpv6
  end.

(** The port, with its colon, of a host that has one. *)
Definition port_text (legacy_colons : bool) (scheme host : list Z) : list Z :=
  match cut_first COLON host, cut_last COLON host with
  | Some (_, first), Some (_, last) =>
      let strict := bool_decide (scheme = text "http") || bool_decide (scheme = text "https") in
      let legacy := strict && negb (length first =? length last)%nat && legacy_colons in
      COLON :: (if strict && negb legacy then first else last)
  | _, _ => []
  end.

Definition parse_host (legacy_colons : bool) (scheme host : list Z) : result (list Z) UrlError :=
  match cut_last OPEN host with
  | Some ([], rest) => parse_literal rest
  | Some _ => Err InvalidIpLiteral
  | None =>
      let port := port_text legacy_colons scheme host in
      if negb (valid_port port) then Err (InvalidPort port) else unescape host InHost
  end.

Definition userinfo_byte (b : Z) : bool := is_alphanumeric b || one_of b (text "-._:~!$&'()*+,;=%@").

Definition parse_userinfo (userinfo : list Z) : result User UrlError :=
  if negb (forallb userinfo_byte userinfo) then Err InvalidUserinfo
  else match cut_first COLON userinfo with
       | Some (name, password) => let? name := unescape name InUser in let? password := unescape password InUser in Ok (mkUser name (Some password))
       | None => let? name := unescape userinfo InUser in Ok (mkUser name None)
       end.

Definition authority_parts (legacy_colons : bool) (scheme authority : list Z) : result (option User * list Z) UrlError :=
  let '(userinfo, host) := match cut_last AT authority with Some (u, h) => (Some u, h) | None => (None, authority) end in
  let? host := parse_host legacy_colons scheme host in
  match userinfo with
  | None => Ok (None, host)
  | Some userinfo => let? user := parse_userinfo userinfo in Ok (Some user, host)
  end.

(** Exactly one [?], at the end. *)
Definition lone_question (rest : list Z) : bool := bool_decide (last rest = Some QUESTION) && (length (List.filter (Z.eqb QUESTION) rest) =? 1)%nat.

Definition split_query (rest : list Z) : list Z * bool * list Z :=
  if lone_question rest then (take (length rest - 1) rest, true, []) else let '(path, query) := cut rest QUESTION in (path, false, query).

(** What follows the scheme starts with an authority. *)
Definition reads_authority (scheme rest : list Z) : bool := (negb (is_nil scheme) || negb (begins (text "///") rest)) && begins (text "//") rest.

Definition raw_hint (l decoded : list Z) (m : Mode) : list Z :=
  if bool_decide (escape decoded m = l) then [] else if utf8_valid l then l else [].

(** What follows the scheme, without the query. *)
Definition parse_rest (legacy_colons : bool) (scheme rest : list Z) (force_query : bool) (query : list Z) : result Url UrlError :=
  if negb (begins [SLASH] rest) && negb (is_nil scheme) then Ok (mkUrl scheme rest None [] [] [] force_query query [] [] false)
  else if negb (begins [SLASH] rest) && one_of COLON (span_slash rest).1 then Err ColonInFirstSegment
  else
    let? '(user, host, path, omit_host) :=
      if reads_authority scheme rest then
        let '(authority, path) := span_slash (drop 2 rest) in
        let? '(user, host) := authority_parts legacy_colons scheme authority in Ok (user, host, path, false)
      else Ok (None, [], rest, negb (is_nil scheme) && begins [SLASH] rest) in
    let? decoded := unescape path InPath in
    Ok (mkUrl scheme [] user host decoded (raw_hint path decoded InPath) force_query query [] [] omit_host).

Definition parse_inner (legacy_colons : bool) (raw : list Z) : result Url UrlError :=
  if existsb (fun b => (b <? 32) || (b =? 127)) raw then Err ControlCharacter
  else if bool_decide (raw = [STAR]) then Ok (mkUrl [] [] None [] [STAR] [] false [] [] [] false)
  else
    let? '(scheme, rest) := scheme raw in
    let '(rest, force_query, query) := split_query rest in
    parse_rest legacy_colons (map lower scheme) rest force_query query.

(** The error comes with the text it is about. *)
Definition parse_bytes (legacy_colons : bool) (raw : list Z) : result Url (list Z * UrlError) :=
  let '(source, fragment) := cut raw HASH in
  let? u := map_err (pair source) (parse_inner legacy_colons source) in
  if is_nil fragment then Ok u
  else let? decoded := map_err (pair raw) (unescape fragment InFragment) in
       Ok (with_fragment u decoded (raw_hint fragment decoded InFragment)).

(** ** Printing *)

Definition path_text (path raw : list Z) : list Z := if bool_decide (path = [STAR]) && is_nil raw then [STAR] else escaped path raw InPath.

Definition escaped_path (u : Url) : list Z := path_text (u_path u) (u_raw_path u).

(** The authority is printed, if only as an empty one. *)
Definition shows_authority (u : Url) : bool :=
  (negb (is_nil (u_scheme u)) || negb (is_nil (u_host u)) || bool_decide (is_Some (u_user u))) &&
  negb (u_omit_host u && is_nil (u_host u) && negb (bool_decide (is_Some (u_user u)))).

Definition authority_bytes (u : Url) : list Z :=
  if shows_authority u then
    (if negb (is_nil (u_host u)) || negb (is_nil (u_path u)) || bool_decide (is_Some (u_user u)) then [SLASH; SLASH] else []) ++
    match u_user u with Some user => encoded user ++ [AT] | None => [] end ++
    escape (u_host u) InHost
  else [].

Definition scheme_bytes (u : Url) : list Z := if is_nil (u_scheme u) then [] else u_scheme u ++ [COLON].

(** What follows the scheme, up to the query. *)
Definition middle_bytes (u : Url) : list Z :=
  if is_nil (u_opaque u) then
    let path := escaped_path u in
    authority_bytes u ++
    (if negb (is_nil path) && negb (begins [SLASH] path) && negb (is_nil (u_host u)) then [SLASH] else []) ++
    (if is_nil (scheme_bytes u ++ authority_bytes u ++ (if negb (is_nil path) && negb (begins [SLASH] path) && negb (is_nil (u_host u)) then [SLASH] else []))
        && one_of COLON (span_slash path).1 then [46; SLASH] else []) ++
    path
  else u_opaque u.

Definition as_bytes (u : Url) : list Z :=
  scheme_bytes u ++ middle_bytes u ++
  (if u_force_query u || negb (is_nil (u_raw_query u)) then QUESTION :: u_raw_query u else []) ++
  (if is_nil (u_fragment u) then [] else HASH :: escaped (u_fragment u) (u_raw_fragment u) InFragment).

(** The parts that are printed are read back: the printed path is not taken for an
    authority or a scheme, and a host in brackets is ASCII with one bracket. *)
Definition printable (u : Url) : bool :=
  (shows_authority u || negb (reads_authority (u_scheme u) (escaped_path u))) &&
  negb (is_nil (scheme_bytes u) && is_nil (authority_bytes u) && one_of COLON (span_slash (escaped_path u)).1) &&
  match u_host u with b :: h => negb (b =? OPEN) || forallb (fun c => (c <? 128) && negb (c =? OPEN)) h | [] => true end.

(** Equal but for the hints. *)
Definition same_parts (u v : Url) : Prop :=
  u_scheme v = u_scheme u /\ u_opaque v = u_opaque u /\ u_user v = u_user u /\ u_host v = u_host u /\ u_path v = u_path u /\
  u_force_query v = u_force_query u /\ u_raw_query v = u_raw_query u /\ u_fragment v = u_fragment u /\ u_omit_host v = u_omit_host u.

(** ** Lemmas on cutting *)

Lemma one_of_spec b l : one_of b l = true <-> b ∈ l.
Proof. unfold one_of. rewrite existsb_exists. setoid_rewrite Z.eqb_eq. setoid_rewrite <- list_elem_of_In. naive_solver. Qed.

Lemma one_of_false b l : one_of b l = false <-> b ∉ l.
Proof. rewrite <- not_true_iff_false, one_of_spec. done. Qed.

Lemma begins_app p l : begins p (p ++ l) = true.
Proof. induction p; [done|]. cbn. by rewrite Z.eqb_refl. Qed.

Lemma begins_spec p l : begins p l = true -> exists r, l = p ++ r.
Proof.
  revert l. induction p as [|a p IH]; [by eexists|]. intros [|b l]; [done|]. cbn. intros [<-%Z.eqb_eq [r ->]%IH]%andb_prop. by eexists.
Qed.

Lemma cut_first_none b l : cut_first b l = None <-> b ∉ l.
Proof.
  induction l as [|c l IH]; cbn; [split; [intros _; apply not_elem_of_nil|done]|]. rewrite not_elem_of_cons. destruct (Z.eqb_spec c b) as [->|]; [naive_solver|].
  rewrite fmap_None, IH. naive_solver.
Qed.

Lemma cut_first_some b l x y : cut_first b l = Some (x, y) <-> l = x ++ b :: y /\ b ∉ x.
Proof.
  revert x. induction l as [|c l IH]; intros x; cbn; [split; [done|]; intros [E _]; by destruct x|]. destruct (Z.eqb_spec c b) as [->|Hn].
  - split; [intros [= <- <-]; split; [done|apply not_elem_of_nil]|]. intros [E Hx]. destruct x as [|c' x]; [by injection E as ->|]. injection E as -> _. set_solver.
  - split.
    + intros ([x' y'] & E & [= -> ->])%fmap_Some. apply IH in E as [-> Hx]. split; [done|]. set_solver.
    + intros [E Hx]. destruct x as [|c' x]; [by injection E as ->|]. injection E as -> E. apply not_elem_of_cons in Hx as [_ Hx]. by rewrite (proj2 (IH x) (conj E Hx)).
Qed.

Lemma cut_first_app b x y : b ∉ x -> cut_first b (x ++ b :: y) = Some (x, y).
Proof. intros. by apply cut_first_some. Qed.

Lemma cut_last_none b l : cut_last b l = None <-> b ∉ l.
Proof.
  induction l as [|c l IH]; cbn; [split; [intros _; apply not_elem_of_nil|done]|]. rewrite not_elem_of_cons.
  destruct (cut_last b l) as [[]|]; [split; [done|]; intros [_ H]; by apply IH in H|]. destruct (Z.eqb_spec c b) as [->|]; naive_solver.
Qed.

Lemma cut_last_app b x y : b ∉ y -> cut_last b (x ++ b :: y) = Some (x, y).
Proof. intros Hy. induction x as [|c x IH]; cbn; [|by rewrite IH]. by rewrite (proj2 (cut_last_none b y) Hy), Z.eqb_refl. Qed.

Lemma cut_last_some b l x y : cut_last b l = Some (x, y) -> l = x ++ b :: y /\ b ∉ y.
Proof.
  revert x. induction l as [|c l IH]; intros x; cbn; [done|]. destruct (cut_last b l) as [[x' y']|] eqn:E.
  - intros [= <- <-]. destruct (IH x' eq_refl) as [-> ?]. done.
  - destruct (Z.eqb_spec c b) as [->|]; [|done]. intros [= <- <-]. split; [done|]. by apply cut_last_none.
Qed.

Lemma cut_app b x y : b ∉ x -> cut (x ++ b :: y) b = (x, y).
Proof. intros. unfold cut. by rewrite cut_first_app. Qed.

Lemma cut_none b x : b ∉ x -> cut x b = (x, []).
Proof. intros. unfold cut. by rewrite (proj2 (cut_first_none b x)). Qed.

Lemma span_slash_app x y : SLASH ∉ x -> (y = [] \/ begins [SLASH] y = true) -> span_slash (x ++ y) = (x, y).
Proof.
  intros Hx Hy. induction x as [|c x IH]; cbn.
  - destruct Hy as [->|Hy]; [done|]. apply begins_spec in Hy as [r ->]. done.
  - apply not_elem_of_cons in Hx as [? Hx]. destruct (Z.eqb_spec c SLASH); [done|]. by rewrite IH.
Qed.

Lemma span_slash_spec l : l = (span_slash l).1 ++ (span_slash l).2 /\ SLASH ∉ (span_slash l).1 /\ ((span_slash l).2 = [] \/ begins [SLASH] (span_slash l).2 = true).
Proof.
  induction l as [|c l IH]; cbn; [split_and!; [done|apply not_elem_of_nil|by left]|]. destruct (Z.eqb_spec c SLASH) as [->|Hn]; [split_and!; [done|apply not_elem_of_nil|by right]|].
  destruct (span_slash l) as [x y]. cbn in *. destruct IH as (-> & ? & ?). split_and!; [done|set_solver|done].
Qed.

(** ** Lemmas on escapes *)

Lemma byte_forall (P : Z -> bool) : forallb P (map Z.of_nat (seq 0 256)) = true -> forall b, byte_ok b -> P b = true.
Proof.
  intros H b Hb. rewrite forallb_forall in H. apply H, in_map_iff. exists (Z.to_nat b). unfold byte_ok in Hb. split; [lia|]. apply in_seq. lia.
Qed.

Definition unescaped_byte (m : Mode) (b : Z) : bool :=
  match escape_byte m b with
  | [c] => (c =? b) && negb (b =? PERCENT)
  | [p; d; e] => (p =? PERCENT) && match hex_pair d e with Some v => v =? b | None => false end
  | _ => false
  end.

Lemma unescape_escape_byte m b rest : byte_ok b -> bad_escape m b = false \/ should_escape b m = false ->
  unescape (escape_byte m b ++ rest) m = result_map (cons b) (unescape rest m).
Proof.
  intros Hb Hbad. assert (unescaped_byte m b = true) as E by (revert b Hb Hbad; intros b Hb _; destruct m; revert b Hb; apply byte_forall; vm_compute; reflexivity).
  unfold unescaped_byte in E. revert E. unfold escape_byte. destruct (should_escape b m) eqn:Es.
  - intros [_ E]%andb_prop. destruct Hbad as [Hbad|]; [|done]. cbn [app unescape]. rewrite Z.eqb_refl. destruct (hex_pair _ _) as [v|]; [|done]. apply Z.eqb_eq in E as ->. by rewrite Hbad.
  - intros [_ E]%andb_prop. apply negb_true_iff in E. cbn [app unescape]. by rewrite E, Es, andb_false_r.
Qed.

Lemma unescape_escape m l : Forall (fun b => byte_ok b /\ (bad_escape m b = false \/ should_escape b m = false)) l -> forall rest, unescape (escape l m ++ rest) m = result_map (app l) (unescape rest m).
Proof.
  induction 1 as [|b l [Hb Hbad] _ IH]; intros rest; cbn [escape flat_map app]; [by destruct (unescape rest m)|].
  fold (escape l m). rewrite <- app_assoc, unescape_escape_byte, IH by done. by destruct (unescape rest m).
Qed.

Lemma unescape_escape_soft m l : host_mode m = false -> bytes_ok l -> unescape (escape l m) m = Ok l.
Proof.
  intros Hm Hl. rewrite <- (app_nil_r (escape l m)), unescape_escape; [cbn; by rewrite app_nil_r|]. eapply Forall_impl; [exact Hl|]. intros b Hb. split; [done|]. left. by destruct m.
Qed.

(** No byte of an escaped text has a property that no escape of a byte has. *)
Lemma escape_avoids (P : Z -> bool) m l :
  forallb (fun b => negb (existsb P (escape_byte m b))) (map Z.of_nat (seq 0 256)) = true -> bytes_ok l -> existsb P (escape l m) = false.
Proof.
  intros HP. induction 1 as [|b l Hb _ IH]; [done|]. cbn [escape flat_map]. rewrite existsb_app. fold (escape l m). rewrite IH, orb_false_r.
  apply negb_true_iff. by apply (byte_forall (fun b => negb (existsb P (escape_byte m b))) HP).
Qed.

Lemma escape_app m l k : escape (l ++ k) m = escape l m ++ escape k m.
Proof. apply flat_map_app. Qed.

Lemma escape_plain m l : Forall (fun b => should_escape b m = false) l -> escape l m = l.
Proof. induction 1 as [|b l Hb _ IH]; [done|]. cbn [escape flat_map]. fold (escape l m). rewrite IH. unfold escape_byte. by rewrite Hb. Qed.

Lemma escape_nil m l : escape l m = [] <-> l = [].
Proof. split; [|by intros ->]. destruct l as [|b l]; [done|]. cbn [escape flat_map]. unfold escape_byte. by destruct (should_escape b m). Qed.

(** Bytes that only stand for themselves. *)
Definition plain (b : Z) : Prop := b <> PERCENT /\ hex b = None.

Lemma escape_keeps_out c m l : plain c -> bytes_ok l -> c ∉ l -> c ∉ escape l m.
Proof.
  intros [Hp Hh]. induction 1 as [|b l Hb _ IH]; [by intros; apply not_elem_of_nil|]. intros [Hn Hl]%not_elem_of_cons. cbn [escape flat_map]. fold (escape l m).
  rewrite elem_of_app. intros [Hc|Hc]; [|by apply IH].
  assert (forallb (fun c => (c =? b) || (c =? PERCENT) || bool_decide (is_Some (hex c))) (escape_byte m b) = true) as E
    by (clear Hn Hc; revert b Hb; destruct m; apply byte_forall; vm_compute; reflexivity).
  rewrite forallb_forall in E. specialize (E c). rewrite <- list_elem_of_In in E. specialize (E Hc). rewrite Hh in E. by rewrite (proj2 (Z.eqb_neq c b)), (proj2 (Z.eqb_neq c PERCENT)) in E.
Qed.

(** Unescaping looks at one byte or at three. *)
Lemma escape_ind (P : list Z -> Prop) : P [] -> (forall b l, P l -> (forall d e k, l = d :: e :: k -> P k) -> P (b :: l)) -> forall l, P l.
Proof.
  intros H0 H1 l. remember (length l) as n eqn:En. revert l En. induction (lt_wf n) as [n _ IH]. intros [|b l] ->; [done|].
  apply H1; [apply (IH (length l)); [cbn; lia|done]|]. intros d e k ->. apply (IH (length k)); [cbn; lia|done].
Qed.

Lemma result_map_Ok {A B E} (f : A -> B) (r : result A E) b : result_map f r = Ok b -> exists a, r = Ok a /\ b = f a.
Proof. destruct r; [|done]. intros [= <-]. by eexists. Qed.

Lemma unescape_split c m x y : plain c -> forall h, unescape (x ++ c :: y) m = Ok h ->
  exists x' y', unescape x m = Ok x' /\ unescape y m = Ok y' /\ h = x' ++ c :: y'.
Proof.
  intros [Hp Hh]. induction x as [|b l IH1 IH3] using escape_ind; intros h; cbn [app unescape].
  - rewrite (proj2 (Z.eqb_neq _ _) Hp). destruct (host_mode m && _ && _); [done|]. intros (y' & E & ->)%result_map_Ok. by exists [], y'.
  - destruct (b =? PERCENT).
    + destruct l as [|d [|e k]]; cbn [app].
      * destruct y as [|e k]; [done|]. unfold hex_pair. by rewrite Hh.
      * unfold hex_pair. rewrite Hh. by destruct (hex d).
      * destruct (hex_pair d e); [|done]. destruct (bad_escape m _); [done|]. intros (h' & (x' & y' & -> & Ey & ->)%(IH3 d e k eq_refl) & ->)%result_map_Ok. cbn. by eexists _, y'.
    + destruct (host_mode m && _ && _); [done|]. intros (h' & (x' & y' & -> & Ey & ->)%IH1 & ->)%result_map_Ok. cbn. by eexists _, y'.
Qed.

Lemma hex_pair_byte d e v : hex_pair d e = Some v -> byte_ok v.
Proof.
  assert (forall b a, hex b = Some a -> 0 <= a < 16) as Hr.
  { intros b a. unfold hex, is_number. repeat case_match; intros [= <-]; repeat match goal with H : _ && _ = true |- _ => apply andb_prop in H as [? ?] end; lia. }
  unfold hex_pair. destruct (hex d) as [a|] eqn:Ea; [|done]. destruct (hex e) as [b|] eqn:Eb; [|done]. apply Hr in Ea. apply Hr in Eb. intros [= <-].
  assert (forallb (fun a => forallb (fun b => bool_decide (byte_ok (Z.lor (Z.shiftl a 4) b))) (map Z.of_nat (seq 0 16))) (map Z.of_nat (seq 0 16)) = true) as E by (vm_compute; reflexivity).
  rewrite forallb_forall in E. specialize (E a). rewrite forallb_forall in E.
  apply (bool_decide_eq_true_1 _). apply E; apply in_map_iff; [exists (Z.to_nat a)|exists (Z.to_nat b)]; (split; [lia|apply in_seq; lia]).
Qed.

(** What unescaping lets through. *)
Definition let_through (m : Mode) (b : Z) : Prop := byte_ok b /\ (bad_escape m b = false \/ should_escape b m = false).

Lemma unescape_through m l : bytes_ok l -> forall h, unescape l m = Ok h -> Forall (fun b => byte_ok b /\ (bad_escape m b = false \/ should_escape b m = false \/ 128 <= b)) h.
Proof.
  induction l as [|b l IH1 IH3] using escape_ind; intros Hl h; cbn [unescape]; [by intros [= <-]|]. apply Forall_cons in Hl as [Hb Hl]. destruct (b =? PERCENT) eqn:Ep.
  - destruct l as [|d [|e k]]; [done..|]. destruct (hex_pair d e) as [v|] eqn:Ev; [|done]. destruct (bad_escape m v) eqn:Eb; [done|]. intros (h' & E & ->)%result_map_Ok.
    apply Forall_cons. split; [split; [by eapply hex_pair_byte|by left]|]. eapply (IH3 d e k); [done| |done]. by do 2 apply Forall_cons in Hl as [_ Hl].
  - destruct (host_mode m && (b <? 128) && should_escape b m) eqn:Ec; [done|]. intros (h' & E & ->)%result_map_Ok. apply Forall_cons. split; [|by eapply IH1].
    split; [done|]. apply andb_false_iff in Ec as [[Ec|Ec]%andb_false_iff|Ec]; [|right; right; lia|by right; left]. left. by destruct m.
Qed.

Lemma unescape_bytes m l h : bytes_ok l -> unescape l m = Ok h -> bytes_ok h.
Proof. intros Hl E. eapply Forall_impl; [by eapply unescape_through|]. by intros ? []. Qed.

Lemma unescape_host l h : bytes_ok l -> unescape l InHost = Ok h -> Forall (let_through InHost) h.
Proof.
  intros Hl E. eapply Forall_impl; [by eapply unescape_through|]. intros b [Hb [?|[?|?]]]; (split; [done|]); [by left|by right|]. left. cbn. by rewrite (proj2 (Z.ltb_ge b 128)).
Qed.

Lemma unescape_host_keeps_out c l : plain c -> c < 128 -> c ∉ l -> forall h, unescape l InHost = Ok h -> c ∉ h.
Proof.
  intros [Hp Hh] Hc. induction l as [|b l IH1 IH3] using escape_ind; intros Hl h; cbn [unescape]; [intros [= <-]; apply not_elem_of_nil|]. apply not_elem_of_cons in Hl as [Hn Hl].
  destruct (b =? PERCENT).
  - destruct l as [|d [|e k]]; [done..|]. destruct (hex_pair d e) as [v|]; [|done]. destruct (bad_escape InHost v) eqn:Eb; [done|]. intros (h' & E & ->)%result_map_Ok.
    apply not_elem_of_cons. split; [|eapply (IH3 d e k); [done|set_solver|done]]. intros <-. cbn in Eb. rewrite (proj2 (Z.ltb_lt _ _) Hc), (proj2 (Z.eqb_neq _ _) Hp) in Eb. done.
  - destruct (_ && _); [done|]. intros (h' & E & ->)%result_map_Ok. apply not_elem_of_cons. split; [done|by eapply IH1].
Qed.

Lemma unescape_escape_host l : Forall (let_through InHost) l -> unescape (escape l InHost) InHost = Ok l.
Proof. intros Hl. rewrite <- (app_nil_r (escape l InHost)), unescape_escape by done. cbn. by rewrite app_nil_r. Qed.

(** ** The host *)

Lemma escape_zone l : escape l InZone = escape l InHost.
Proof. done. Qed.

Lemma number_plain b : is_number b = true -> should_escape b InHost = false /\ b <> PERCENT /\ byte_ok b.
Proof. intros Hb. unfold should_escape, is_alphanumeric. rewrite Hb, orb_true_r. unfold is_number in Hb. apply andb_prop in Hb as [? ?]. unfold byte_ok. split_and!; [done|lia..]. Qed.

Lemma port_plain port : valid_port port = true -> Forall (fun b => should_escape b InHost = false /\ byte_ok b /\ b <> PERCENT /\ b <> CLOSE /\ b <> OPEN) port.
Proof.
  destruct port as [|b digits]; [by constructor|]. cbn. intros [->%Z.eqb_eq Hd]%andb_prop. apply Forall_cons. split; [by vm_compute|]. apply Forall_forall. intros c Hc.
  rewrite forallb_forall in Hd. rewrite list_elem_of_In in Hc. apply Hd in Hc. destruct (number_plain c Hc) as (? & ? & ?). unfold is_number in Hc. apply andb_prop in Hc as [? ?]. split_and!; [done..|lia|lia].
Qed.

Lemma port_escape port : valid_port port = true -> escape port InHost = port.
Proof. intros Hp. apply escape_plain. eapply Forall_impl; [by apply port_plain|]. by intros ? []. Qed.

Lemma port_unescape port : valid_port port = true -> unescape port InHost = Ok port.
Proof.
  intros Hp. rewrite <- (port_escape port Hp) at 1. apply unescape_escape_host. eapply Forall_impl; [by apply port_plain|]. intros ? (? & ? & _). split; [done|by right].
Qed.

Definition strict_scheme (scheme : list Z) : bool := bool_decide (scheme = text "http") || bool_decide (scheme = text "https").

Lemma port_text_choice legacy sch host :
  port_text legacy sch host = match cut_first COLON host, cut_last COLON host with Some (_, f), Some (_, l) => COLON :: (if strict_scheme sch && negb legacy then f else l) | _, _ => [] end.
Proof.
  unfold port_text. fold (strict_scheme sch). destruct (cut_first COLON host) as [[x f]|] eqn:Ef; [|done]. destruct (cut_last COLON host) as [[z l]|] eqn:El; [|done].
  apply cut_first_some in Ef as [Ef _]. apply cut_last_some in El as [El _]. destruct (strict_scheme sch); [|done]. destruct legacy; [|by rewrite andb_false_r]. cbn. rewrite andb_true_r.
  destruct (Nat.eqb_spec (length f) (length l)) as [Eq|]; [|done]. cbn. rewrite Ef in El. assert (length (COLON :: f) = length (COLON :: l)) as Hlen by (cbn; by rewrite Eq). destruct (app_inj_2 _ _ _ _ Hlen El) as [_ [= ->]]. done.
Qed.

Lemma colon_plain : plain COLON.
Proof. done. Qed.

(** The colons of a host are those of the text it was read from. *)
Lemma port_read_back legacy sch host h : bytes_ok host -> unescape host InHost = Ok h -> valid_port (port_text legacy sch host) = true ->
  valid_port (port_text legacy sch (escape h InHost)) = true.
Proof.
  intros Hb Hu. rewrite !port_text_choice. assert (bytes_ok h) as Hbh by (by eapply unescape_bytes).
  destruct (cut_first COLON host) as [[x f]|] eqn:Ef; [|intros _].
  2: { assert (COLON ∉ escape h InHost) as Hn by (apply escape_keeps_out; [done..|]; eapply unescape_host_keeps_out; [done..| |exact Hu]; by apply cut_first_none).
       by rewrite (proj2 (cut_first_none _ _) Hn). }
  destruct (cut_last COLON host) as [[z l]|] eqn:El; [|apply cut_last_none in El; apply cut_first_some in Ef as [-> _]; set_solver].
  apply cut_first_some in Ef as [Ef Hx]. apply cut_last_some in El as [El Hl].
  pose proof Hu as Hu1. rewrite Ef in Hu1. apply (unescape_split COLON _ _ _ colon_plain) in Hu1 as (x' & f' & Ux & Uf & Eh1).
  pose proof Hu as Hu2. rewrite El in Hu2. apply (unescape_split COLON _ _ _ colon_plain) in Hu2 as (z' & l' & Uz & Ul & Eh2).
  assert (COLON ∉ escape x' InHost) as Hx' by (apply escape_keeps_out; [done| |by apply (unescape_host_keeps_out COLON x)]; rewrite Eh1 in Hbh; by apply bytes_ok_app in Hbh as [? _]).
  assert (COLON ∉ escape l' InHost) as Hl' by (apply escape_keeps_out; [done| |by apply (unescape_host_keeps_out COLON l)]; rewrite Eh2 in Hbh; by apply bytes_ok_app in Hbh as [_ [_ ?]%Forall_cons]).
  replace (cut_first COLON (escape h InHost)) with (Some (escape x' InHost, escape f' InHost)) by (rewrite Eh1, escape_app; symmetry; by apply cut_first_app).
  replace (cut_last COLON (escape h InHost)) with (Some (escape z' InHost, escape l' InHost)) by (rewrite Eh2, escape_app; symmetry; by apply cut_last_app).
  assert (forall t t', unescape t InHost = Ok t' -> valid_port (COLON :: t) = true -> valid_port (COLON :: escape t' InHost) = true) as Hsame.
  { intros t t' Ut Hv. pose proof (port_unescape _ Hv) as E. cbn [unescape] in E. change (COLON =? PERCENT) with false in E. cbn [host_mode andb] in E.
    change (result_map (cons COLON) (unescape t InHost) = Ok (COLON :: t)) in E. rewrite Ut in E. injection E as ->. pose proof (port_escape _ Hv) as E.
    change (COLON :: escape t InHost = COLON :: t) in E. by rewrite E. }
  destruct (strict_scheme sch && negb legacy); by apply Hsame.
Qed.

Lemma unescape_escape_through m l : Forall (let_through m) l -> unescape (escape l m) m = Ok l.
Proof. intros Hl. rewrite <- (app_nil_r (escape l m)), unescape_escape by done. cbn. by rewrite app_nil_r. Qed.

Lemma cut_zone_none l : PERCENT ∉ l -> cut_zone l = None.
Proof.
  induction l as [|c l IH]; [done|]. intros [Hn Hl]%not_elem_of_cons. cbn [cut_zone]. change (text "%25") with [PERCENT; 50; 53]. cbn [begins]. rewrite (proj2 (Z.eqb_neq _ _) Hn). cbn. by rewrite IH.
Qed.

Lemma cut_zone_app p q : PERCENT ∉ p -> cut_zone (p ++ text "%25" ++ q) = Some (p, text "%25" ++ q).
Proof.
  induction p as [|c p IH]; [done|]. intros [Hn Hl]%not_elem_of_cons. cbn [cut_zone app]. change (text "%25") with [PERCENT; 50; 53] in *. cbn [begins]. rewrite (proj2 (Z.eqb_neq _ _) Hn). cbn [andb]. by rewrite IH.
Qed.

Lemma cut_zone_some l p z : cut_zone l = Some (p, z) -> l = p ++ z /\ exists q, z = text "%25" ++ q.
Proof.
  revert p. induction l as [|c l IH]; intros p; [done|]. cbn [cut_zone]. destruct (begins (text "%25") (c :: l)) eqn:E.
  - intros [= <- <-]. split; [done|]. by apply begins_spec in E.
  - intros ([p' z'] & E' & [= -> ->])%fmap_Some. apply IH in E' as [-> Hz]. done.
Qed.

Lemma host_ascii_plain b : let_through InHost b -> b < 128 -> b <> PERCENT -> should_escape b InHost = false.
Proof. intros [_ [Hb|?]] ? Hp; [|done]. cbn in Hb. by rewrite (proj2 (Z.ltb_lt b 128)), (proj2 (Z.eqb_neq _ _) Hp) in Hb. Qed.

Lemma host_ascii_zone b : let_through InHost b -> b < 128 -> let_through InZone b.
Proof. intros Hb Ha. split; [apply Hb|]. destruct (Z.eq_dec b PERCENT) as [->|Hp]; [by left|right]. exact (host_ascii_plain b Hb Ha Hp). Qed.

Notation ascii_only := (Forall (fun b => b < 128)).

Lemma zone_read_back p q : PERCENT ∉ p -> Forall (let_through InHost) p -> ascii_only p -> Forall (let_through InZone) q ->
  unescape_literal (escape (p ++ PERCENT :: q) InHost) = Ok (p ++ PERCENT :: q).
Proof.
  intros Hn Hp Ha Hq. assert (escape p InHost = p) as Ep.
  { apply escape_plain. rewrite !Forall_forall in *. intros b Hb. apply host_ascii_plain; [by apply Hp|by apply Ha|]. by intros ->. }
  rewrite escape_app, Ep. change (escape (PERCENT :: q) InHost) with (text "%25" ++ escape q InHost). unfold unescape_literal. rewrite cut_zone_app by done.
  pose proof (unescape_escape_host p Hp) as E. rewrite Ep in E. rewrite E. change (text "%25" ++ escape q InHost) with (escape (PERCENT :: q) InZone). cbn [result_bind].
  rewrite unescape_escape_through; [done|]. apply Forall_cons. split; [|done]. split; [done|by left].
Qed.

Lemma no_zone_read_back p : PERCENT ∉ p -> Forall (let_through InHost) p -> ascii_only p -> unescape_literal (escape p InHost) = Ok p.
Proof.
  intros Hn Hp Ha. assert (escape p InHost = p) as Ep.
  { apply escape_plain. rewrite !Forall_forall in *. intros b Hb. apply host_ascii_plain; [by apply Hp|by apply Ha|]. by intros ->. }
  rewrite Ep. unfold unescape_literal. rewrite cut_zone_none by done. rewrite <- Ep at 1. by apply unescape_escape_host.
Qed.

Lemma to_zone l : Forall (let_through InHost) l -> ascii_only l -> Forall (let_through InZone) l.
Proof. rewrite !Forall_forall. intros Hl Ha b Hb. apply host_ascii_zone; [by apply Hl|by apply Ha]. Qed.

(** An address, and perhaps a zone after a percent sign. *)
Lemma literal_shape hostname hn : bytes_ok hostname -> unescape_literal hostname = Ok hn -> ascii_only hn ->
  exists a z, hn = a ++ z /\ Forall (let_through InHost) a /\ (z = [] \/ exists z', z = PERCENT :: z' /\ Forall (let_through InZone) z').
Proof.
  intros Hb. unfold unescape_literal. destruct (cut_zone hostname) as [[p z]|] eqn:Ec.
  - apply cut_zone_some in Ec as [-> [q ->]]. apply bytes_ok_app in Hb as [Hb1 Hb2]. intros (a & Ea & (t & Et & [= <-])%result_bind_Ok)%result_bind_Ok Ha.
    apply Forall_app in Ha as [_ Ha]. pose proof (unescape_through _ _ Hb2 _ Et) as Hz. change (text "%25" ++ q) with (PERCENT :: 50 :: 53 :: q) in Et. cbn [unescape] in Et.
    change (PERCENT =? PERCENT) with true in Et. change (hex_pair 50 53) with (Some PERCENT) in Et. cbn iota in Et. change (bad_escape InZone PERCENT) with false in Et. cbn iota in Et.
    apply result_map_Ok in Et as (t' & Et & ->). exists a, (PERCENT :: t'). split_and!; [done|exact (unescape_host _ _ Hb1 Ea)|]. right. exists t'. split; [done|].
    apply Forall_cons in Ha as [_ Ha]. apply Forall_cons in Hz as [_ Hz]. rewrite !Forall_forall in *. intros b Hb. specialize (Ha b Hb). destruct (Hz b Hb) as [? [?|[?|?]]]; [by split; [|left]|by split; [|right]|lia].
  - intros Hu _. exists hn, []. rewrite app_nil_r. split_and!; [done|exact (unescape_host _ _ Hb Hu)|by left].
Qed.

Lemma literal_read_back hostname hn : bytes_ok hostname -> unescape_literal hostname = Ok hn -> ascii_only hn -> unescape_literal (escape hn InHost) = Ok hn.
Proof.
  intros Hb Hu Ha. destruct (literal_shape _ _ Hb Hu Ha) as (a & z & -> & Hla & Hz). apply Forall_app in Ha as [Ha Haz].
  destruct (cut_first PERCENT a) as [[p q]|] eqn:Ec.
  - apply cut_first_some in Ec as [-> Hn]. rewrite <- app_assoc. cbn [app]. apply Forall_app in Hla as [Hp [_ Hq]%Forall_cons]. apply Forall_app in Ha as [Hap [_ Haq]%Forall_cons].
    apply zone_read_back; [done..|]. apply Forall_app. split; [by apply to_zone|]. destruct Hz as [->|(z' & -> & Hz)]; [by constructor|]. apply Forall_cons. split; [split; [done|by left]|done].
  - apply cut_first_none in Ec. destruct Hz as [->|(z' & -> & Hz)]; [rewrite app_nil_r; by apply no_zone_read_back|by apply zone_read_back].
Qed.

(** A host is read back from its text. *)
Lemma host_read_back legacy sch host h : bytes_ok host -> parse_host legacy sch host = Ok h ->
  match h with b :: t => negb (b =? OPEN) || forallb (fun c => (c <? 128) && negb (c =? OPEN)) t | [] => true end = true -> parse_host legacy sch (escape h InHost) = Ok h.
Proof.
  intros Hb. unfold parse_host at 1. destruct (cut_last OPEN host) as [[[|x xs] rest]|] eqn:Eo; [|done|].
  - apply cut_last_some in Eo as [-> Ho]. apply Forall_cons in Hb as [_ Hb]. unfold parse_literal. destruct (cut_last CLOSE rest) as [[hostname port]|] eqn:Ec; [|done].
    apply cut_last_some in Ec as [-> Hc]. destruct (valid_port port) eqn:Hv; [|done]. cbn [negb]. rewrite port_unescape by done. cbn [result_bind]. apply bytes_ok_app in Hb as [Hbh _].
    intros (hn & Hu & E)%result_bind_Ok. destruct (literal_ok hn) eqn:Hl; [|done]. injection E as <-. rewrite Z.eqb_refl. cbn [negb orb]. intros Hall.
    assert (Forall (fun c => c < 128 /\ c <> OPEN) (hn ++ CLOSE :: port)) as Ha by (apply Forall_forall; intros c Hin; rewrite forallb_forall in Hall; rewrite list_elem_of_In in Hin; apply Hall in Hin; lia).
    apply Forall_app in Ha as [Ha _]. assert (ascii_only hn) as Hah by (eapply Forall_impl; [exact Ha|]; by intros ? []).
    change (OPEN :: hn ++ CLOSE :: port) with ([OPEN] ++ hn ++ [CLOSE] ++ port). rewrite !escape_app, (port_escape port) by done. change (escape [OPEN] InHost) with [OPEN]. change (escape [CLOSE] InHost) with [CLOSE].
    assert (OPEN ∉ escape hn InHost) as Hno.
    { apply escape_keeps_out; [done| |intros Hin; rewrite Forall_forall in Ha; by destruct (Ha OPEN Hin)]. destruct (literal_shape _ _ Hbh Hu Hah) as (a & z & -> & Hla & Hz). apply bytes_ok_app. split; [eapply Forall_impl; [exact Hla|by intros ? []]|].
      destruct Hz as [->|(z' & -> & Hz)]; [by constructor|]. apply Forall_cons. split; [done|]. eapply Forall_impl; [exact Hz|by intros ? []]. }
    pose proof (port_plain port Hv) as Hpp. rewrite Forall_forall in Hpp. unfold parse_host. cbn [app]. pose proof (cut_last_app OPEN [] (escape hn InHost ++ CLOSE :: port)) as El. cbn [app] in El. rewrite El; clear El.
    2: { intros [?|[?|Hin]%elem_of_cons]%elem_of_app; [done..|]. by destruct (Hpp _ Hin) as (_ & _ & _ & _ & ?). }
    unfold parse_literal. rewrite cut_last_app by (intros Hin; by destruct (Hpp _ Hin) as (_ & _ & _ & ? & _)). rewrite Hv. cbn [negb]. rewrite port_unescape by done. cbn [result_bind].
    rewrite (literal_read_back hostname) by done. cbn [result_bind]. by rewrite Hl.
  - apply cut_last_none in Eo. destruct (valid_port _) eqn:Hv; [|done]. cbn [negb]. intros Hu _. assert (bytes_ok h) as Hbh by (by eapply unescape_bytes).
    unfold parse_host. rewrite (proj2 (cut_last_none OPEN _)) by (apply escape_keeps_out; [done..|]; by apply (unescape_host_keeps_out OPEN host)).
    rewrite (port_read_back legacy sch host) by done. cbn [negb]. apply unescape_escape_host. exact (unescape_host _ _ Hb Hu).
Qed.

(** ** The authority *)

(** Control characters and the marks of query and fragment. *)
Definition structural (b : Z) : bool := (b <? 32) || (b =? 127) || (b =? QUESTION) || (b =? HASH).

Definition user_ok (u : option User) : Prop := match u with Some u => bytes_ok (us_username u) /\ bytes_ok (default [] (us_password u)) | None => True end.

Lemma userinfo_read_back user : user_ok (Some user) -> parse_userinfo (encoded user) = Ok user.
Proof.
  destruct user as [name password]. intros [Hn Hp]. cbn [us_username us_password default] in *. unfold parse_userinfo, encoded. cbn [us_username us_password].
  assert (forall l, bytes_ok l -> forallb userinfo_byte (escape l InUser) = true) as Hall.
  { induction 1 as [|b l Hb _ IH]; [done|]. cbn [escape flat_map]. rewrite forallb_app. fold (escape l InUser). rewrite IH, andb_true_r. revert b Hb. apply (byte_forall (fun b => forallb userinfo_byte (escape_byte InUser b))). vm_compute; reflexivity. }
  assert (forall l, bytes_ok l -> COLON ∉ escape l InUser) as Hcolon.
  { intros l Hl. apply one_of_false. apply (escape_avoids (Z.eqb COLON)); [vm_compute; reflexivity|done]. }
  destruct password as [p|].
  - rewrite forallb_app. cbn [forallb]. rewrite !Hall by done. change (userinfo_byte COLON) with true. cbn [andb negb]. rewrite cut_first_app by (by apply Hcolon). by rewrite !unescape_escape_soft.
  - rewrite app_nil_r, Hall by done. cbn [negb]. rewrite (proj2 (cut_first_none _ _)) by (by apply Hcolon). by rewrite unescape_escape_soft.
Qed.

Definition authority_text (user : option User) (host : list Z) : list Z := match user with Some user => encoded user ++ [AT] | None => [] end ++ escape host InHost.

Lemma authority_read_back legacy sch user host t : user_ok user -> bytes_ok t -> parse_host legacy sch t = Ok host -> bytes_ok host ->
  match host with b :: t => negb (b =? OPEN) || forallb (fun c => (c <? 128) && negb (c =? OPEN)) t | [] => true end = true ->
  authority_parts legacy sch (authority_text user host) = Ok (user, host).
Proof.
  intros Hu Ht Hp Hh Hl. unfold authority_parts, authority_text. assert (AT ∉ escape host InHost) as Ha by (apply one_of_false; apply (escape_avoids (Z.eqb AT)); [vm_compute; reflexivity|done]).
  destruct user as [user|]; cbn [app].
  - rewrite <- app_assoc. cbn [app]. rewrite cut_last_app by done. rewrite (host_read_back legacy sch t) by done. cbn [result_bind]. by rewrite userinfo_read_back.
  - rewrite (proj2 (cut_last_none _ _)) by done. by rewrite (host_read_back legacy sch t).
Qed.

Lemma authority_quiet user host : user_ok user -> bytes_ok host -> existsb (fun b => structural b || (b =? SLASH)) (authority_text user host) = false.
Proof.
  intros Hu Hh. assert (forall m l, m = InUser \/ m = InHost -> bytes_ok l -> existsb (fun b => structural b || (b =? SLASH)) (escape l m) = false) as He
    by (intros m l [-> | ->] Hl; (apply escape_avoids; [vm_compute; reflexivity|done])).
  unfold authority_text. rewrite existsb_app, (He InHost) by auto. rewrite orb_false_r. destruct user as [[name password]|]; [|done]. destruct Hu as [Hn Hp]. unfold encoded. rewrite !existsb_app. cbn [us_username us_password] in *.
  rewrite (He InUser) by auto. destruct password as [p|]; [|done]. cbn [existsb]. by rewrite (He InUser) by auto.
Qed.

(** ** Hints *)

Definition hint_ok (l raw : list Z) (m : Mode) : Prop := raw = [] \/ (utf8_valid raw = true /\ escape l m <> raw).

Lemma raw_hint_ok l decoded m : hint_ok decoded (raw_hint l decoded m) m.
Proof. unfold raw_hint. case_bool_decide; [by left|]. destruct (utf8_valid l) eqn:E; [right|left]; done. Qed.

Lemma escaped_cases l raw m : (escaped l raw m = raw /\ raw <> [] /\ unescape raw m = Ok l) \/ escaped l raw m = escape l m.
Proof.
  unfold escaped. destruct (_ && _) eqn:E; [left|by right]. apply andb_prop in E as [[E1 _]%andb_prop E2]. split_and!; [done|by destruct raw|]. destruct (unescape raw m); [|done]. by apply bool_decide_eq_true in E2 as ->.
Qed.

Lemma unescape_escaped l raw m : host_mode m = false -> bytes_ok l -> unescape (escaped l raw m) m = Ok l.
Proof. intros Hm Hl. destruct (escaped_cases l raw m) as [(-> & _ & ?)| ->]; [done|]. by apply unescape_escape_soft. Qed.

Lemma escaped_again l raw m : hint_ok l raw m -> escaped l (raw_hint (escaped l raw m) l m) m = escaped l raw m.
Proof.
  intros Hr. destruct (escaped_cases l raw m) as [(E & Hn & _)|E]; rewrite E.
  - destruct Hr as [?|[Hv He]]; [done|]. unfold raw_hint. rewrite bool_decide_false, Hv by done. exact E.
  - unfold raw_hint. rewrite bool_decide_true by done. done.
Qed.

Lemma unescape_star raw : unescape raw InPath = Ok [STAR] -> raw <> [] -> escaped [STAR] raw InPath = raw.
Proof.
  intros Hu Hn. unfold escaped. rewrite Hu, bool_decide_true by done. destruct raw as [|b raw]; [done|]. cbn [is_nil negb andb]. rewrite andb_true_r. cbn [unescape] in Hu.
  assert (forall k, unescape k InPath = Ok [] -> k = []) as Hnil.
  { intros [|c k]; [done|]. cbn [unescape]. destruct (c =? PERCENT); [|by intros (? & _ & ?)%result_map_Ok]. destruct k as [|d [|e k]]; [done..|]. destruct (hex_pair d e); [|done]. destruct (bad_escape _ _); [done|]. by intros (? & _ & ?)%result_map_Ok. }
  assert (forall d a, hex d = Some a -> should_escape d InPath = false) as Hhex.
  { intros d a Hd. unfold should_escape. replace (is_alphanumeric d) with true; [done|]. symmetry. unfold hex in Hd. unfold is_alphanumeric, is_lower, is_upper, is_number in *. repeat case_match; first [discriminate|lia]. }
  destruct (Z.eqb_spec b PERCENT) as [->|].
  - destruct raw as [|d [|e k]]; [done..|]. destruct (hex_pair d e) eqn:Eh; [|done]. destruct (bad_escape _ _); [done|]. apply result_map_Ok in Hu as (r & Hr & [= _ <-]). apply Hnil in Hr as ->.
    unfold hex_pair in Eh. destruct (hex d) eqn:Ed; [|done]. destruct (hex e) eqn:Ee; [|done]. cbn [forallb]. rewrite (Hhex d _ Ed), (Hhex e _ Ee). by rewrite !orb_true_r.
  - destruct (_ && _); [done|]. apply result_map_Ok in Hu as (r & Hr & [= <- <-]). apply Hnil in Hr as ->. done.
Qed.

Lemma path_text_again path raw : hint_ok path raw InPath -> (raw = [] \/ unescape raw InPath = Ok path) -> path_text path (raw_hint (path_text path raw) path InPath) = path_text path raw.
Proof.
  intros Hr Hd. unfold path_text. case_bool_decide as Ep; [|by apply escaped_again]. subst path. cbn [andb]. destruct raw as [|b raw]; [done|]. cbn [is_nil].
  destruct Hd as [|Hd]; [done|]. rewrite unescape_star by done. destruct Hr as [|[Hv He]]; [done|]. unfold raw_hint. rewrite bool_decide_false, Hv by done. cbn [is_nil]. by rewrite unescape_star.
Qed.

Lemma unescape_path_text path raw : bytes_ok path -> unescape (path_text path raw) InPath = Ok path.
Proof. intros Hb. unfold path_text. case_bool_decide as E; [subst path; cbn [andb]; destruct raw; [done|]|]; by apply unescape_escaped. Qed.

Lemma path_text_quiet path raw : bytes_ok path -> existsb structural raw = false -> existsb structural (path_text path raw) = false.
Proof.
  intros Hb Hr. unfold path_text. destruct (_ && _); [done|]. destruct (escaped_cases path raw InPath) as [(-> & _)| ->]; [done|]. apply escape_avoids; [vm_compute; reflexivity|done].
Qed.

Lemma path_text_absolute path raw : path = [] \/ begins [SLASH] path = true -> raw = [] \/ begins [SLASH] raw = true -> path_text path raw = [] \/ begins [SLASH] (path_text path raw) = true.
Proof.
  intros Hp Hr. unfold path_text. rewrite bool_decide_false by (intros ->; by destruct Hp). cbn [andb]. destruct (escaped_cases path raw InPath) as [(-> & Hn & _)| ->]; [by destruct Hr; [|right]|].
  destruct Hp as [->|[r ->]%begins_spec]; [by left|by right].
Qed.

(** ** The scheme and the query *)

Definition scheme_text (s : list Z) : bool :=
  match s with [] => false | b :: t => is_lower b && forallb (fun c => is_lower c || is_number c || one_of c (text "+-.")) t end.

Lemma scheme_loop_tail t rest : forallb (fun c => is_lower c || is_number c || one_of c (text "+-.")) t = true -> scheme_loop false (t ++ COLON :: rest) = Ok (Some (t, rest)).
Proof.
  induction t as [|c t IH]; [done|]. cbn [forallb]. intros [Hc Ht]%andb_prop. cbn [app scheme_loop]. replace (is_lower c || is_upper c || ((is_number c || one_of c (text "+-.")) && negb false)) with true; [by rewrite IH|].
  symmetry. cbn [negb]. rewrite andb_true_r. destruct (is_lower c), (is_upper c); [done..|]. exact Hc.
Qed.

Lemma scheme_read_back s rest : scheme_text s = true -> scheme (s ++ COLON :: rest) = Ok (s, rest) /\ map lower s = s.
Proof.
  destruct s as [|b t]; [done|]. cbn [scheme_text]. intros [Hb Ht]%andb_prop. split.
  - unfold scheme. cbn [app scheme_loop]. rewrite Hb. cbn [orb]. by rewrite scheme_loop_tail.
  - assert (forall c, is_lower c || is_number c || one_of c (text "+-.") = true -> lower c = c) as Hl.
    { intros c Hc. unfold lower. replace (is_upper c) with false; [done|]. symmetry. unfold is_upper, is_lower, is_number in *. apply orb_true_iff in Hc as [Hc|Hc]; [lia|]. apply one_of_spec in Hc.
      change (text "+-.") with [43; 45; 46] in Hc. repeat (apply elem_of_cons in Hc as [->|Hc]; [done|]). by apply elem_of_nil in Hc. }
    cbn [map]. f_equal; [apply Hl; by rewrite Hb|]. rewrite forallb_forall in Ht. clear -Hl Ht. induction t as [|c t IH]; [done|]. cbn [map]. f_equal; [apply Hl, Ht; by left|]. apply IH. intros; apply Ht. by right.
Qed.

Lemma scheme_loop_some first l s rest : scheme_loop first l = Ok (Some (s, rest)) -> l = s ++ COLON :: rest /\
  match s with [] => first = false | b :: t => (first = true -> is_lower b || is_upper b = true) end /\
  Forall (fun c => is_lower c || is_upper c || is_number c || one_of c (text "+-.") = true) s.
Proof.
  revert first s. induction l as [|b l IH]; intros first s; cbn [scheme_loop]; [done|]. destruct (is_lower b || is_upper b || _) eqn:E.
  - intros ([[s' r']|] & Es & [= -> ->])%result_map_Ok. apply IH in Es as (-> & _ & Hall). split_and!; [done|intros ->; by rewrite andb_false_r, orb_false_r in E|].
    apply Forall_cons. split; [|done]. destruct (is_lower b), (is_upper b); [done..|]. cbn [orb] in *. by apply andb_prop in E as [? _].
  - destruct (Z.eqb_spec b COLON) as [->|]; [|done]. destruct first; [done|]. intros [= <- <-]. split_and!; [done..|by constructor].
Qed.

Lemma scheme_reads raw s rest : scheme raw = Ok (s, rest) -> (s = [] /\ rest = raw) \/ (scheme_text (map lower s) = true /\ raw = s ++ COLON :: rest).
Proof.
  unfold scheme. intros ([[s' r']|] & E & [= -> ->])%result_map_Ok; [|by left]. right. apply scheme_loop_some in E as (-> & Hs & Hall). split; [|done].
  destruct s' as [|b t]; [done|]. cbn [map scheme_text]. specialize (Hs eq_refl). apply Forall_cons in Hall as [_ Hall]. apply andb_true_intro. split.
  - unfold lower, is_lower, is_upper in *. destruct ((65 <=? b) && (b <=? 90)) eqn:Eb; lia.
  - clear Hs. induction Hall as [|c t Hc _ IH]; [done|]. cbn [map forallb]. rewrite IH, andb_true_r. unfold lower. destruct (is_upper c) eqn:Eu; [|by rewrite orb_false_r in Hc].
    replace (is_lower (c + 32)) with true; [done|]. unfold is_lower, is_upper in *. lia.
Qed.

Lemma scheme_loop_relative first l tail : one_of COLON (span_slash l).1 = false -> tail = [] \/ begins [QUESTION] tail = true -> scheme_loop first (l ++ tail) = Ok None.
Proof.
  intros Hc Ht. revert first Hc. induction l as [|b l IH]; intros first.
  - intros _. destruct Ht as [->|[r ->]%begins_spec]; [done|]. by destruct first.
  - cbn [span_slash app scheme_loop]. destruct (Z.eqb_spec b SLASH) as [->|]; [by destruct first|]. destruct (span_slash l) as [x y]. cbn [fst one_of existsb]. intros [Hb Hx]%orb_false_iff.
    destruct (_ || _); [by rewrite IH|]. rewrite Z.eqb_sym, Hb. done.
Qed.

Lemma scheme_relative l tail : one_of COLON (span_slash l).1 = false -> tail = [] \/ begins [QUESTION] tail = true -> scheme (l ++ tail) = Ok ([], l ++ tail).
Proof. intros. unfold scheme. by rewrite scheme_loop_relative. Qed.

Lemma filter_question l : QUESTION ∉ l -> List.filter (Z.eqb QUESTION) l = [].
Proof. induction l as [|c l IH]; [done|]. intros [Hc Hl]%not_elem_of_cons. cbn [List.filter]. by rewrite (proj2 (Z.eqb_neq _ _) Hc), IH. Qed.

Lemma question_counted l : QUESTION ∈ l -> (1 <= length (List.filter (Z.eqb QUESTION) l))%nat.
Proof. induction l as [|c l IH]; [by intros ?%elem_of_nil|]. intros [<-|Hl]%elem_of_cons; cbn [List.filter]; [cbn; lia|]. destruct (QUESTION =? c); cbn; [lia|by apply IH]. Qed.

Definition query_text (force : bool) (query : list Z) : list Z := if force || negb (is_nil query) then QUESTION :: query else [].

Lemma query_read_back mid force query : QUESTION ∉ mid -> (force = true -> query = []) -> split_query (mid ++ query_text force query) = (mid, force, query).
Proof.
  intros Hm Hf. unfold split_query, query_text, lone_question. destruct force; cbn [orb].
  - rewrite Hf by done. rewrite last_snoc, List.filter_app, (filter_question mid) by done. cbn. rewrite length_app, Nat.add_sub, take_app_length. done.
  - destruct query as [|c query]; cbn [is_nil negb].
    + rewrite app_nil_r, filter_question by done. cbn. rewrite andb_false_r. by rewrite cut_none.
    + rewrite List.filter_app, (filter_question mid) by done. cbn [app List.filter]. rewrite Z.eqb_refl.
      replace (bool_decide _ && _) with false; [by rewrite cut_app|]. symmetry. apply andb_false_iff. case_bool_decide as El; [right|by left].
      apply Nat.eqb_neq. assert (QUESTION ∈ c :: query) as Hin; [|pose proof (question_counted _ Hin); cbn [length]; cbn [List.filter] in *; lia].
      rewrite last_app in El. replace (last (QUESTION :: c :: query)) with (last (c :: query)) in El by done.
      destruct (last (c :: query)) eqn:E; [injection El as ->; by apply last_Some_elem_of|]. by apply last_None in E.
Qed.

Lemma split_query_spec l rest force query : split_query l = (rest, force, query) -> l = rest ++ query_text force query /\ QUESTION ∉ rest /\ (force = true -> query = []).
Proof.
  unfold split_query, query_text. destruct (lone_question l) eqn:E.
  - intros [= <- <- <-]. unfold lone_question in E. apply andb_prop in E as [El%bool_decide_eq_true Ec%Nat.eqb_eq]. apply last_Some in El as [k ->].
    rewrite length_app, Nat.add_sub, take_app_length. split_and!; [done| |done]. intros Hin%question_counted. rewrite List.filter_app, length_app in Ec. cbn in Ec. lia.
  - unfold cut. destruct (cut_first QUESTION l) as [[x y]|] eqn:Ec; cbn.
    + apply cut_first_some in Ec as [-> Hx]. intros [= <- <- <-]. split_and!; [|done..]. destruct y as [|c y]; [|done]. exfalso. revert E. unfold lone_question.
      rewrite last_snoc, List.filter_app, filter_question by done. done.
    + apply cut_first_none in Ec. intros [= <- <- <-]. rewrite app_nil_r. done.
Qed.

(** ** What a URL that was read is like *)

Definition control (b : Z) : bool := (b <? 32) || (b =? 127).

Record read_url (legacy : bool) (u : Url) : Prop := mkReadUrl {
  ru_scheme : u_scheme u = [] \/ scheme_text (u_scheme u) = true;
  ru_opaque : u_opaque u <> [] -> u_scheme u <> [] /\ begins [SLASH] (u_opaque u) = false /\ u_user u = None /\ u_host u = [] /\ u_path u = [] /\ u_omit_host u = false;
  ru_opaque_quiet : existsb structural (u_opaque u) = false;
  ru_user : user_ok (u_user u);
  ru_host : exists t, bytes_ok t /\ parse_host legacy (u_scheme u) t = Ok (u_host u);
  ru_host_bytes : bytes_ok (u_host u);
  ru_path : bytes_ok (u_path u);
  ru_hint : hint_ok (u_path u) (u_raw_path u) InPath;
  ru_raw : u_raw_path u = [] \/ unescape (u_raw_path u) InPath = Ok (u_path u);
  ru_raw_quiet : existsb structural (u_raw_path u) = false;
  ru_absolute : u_scheme u <> [] \/ u_host u <> [] \/ u_user u <> None -> (u_path u = [] \/ begins [SLASH] (u_path u) = true) /\ (u_raw_path u = [] \/ begins [SLASH] (u_raw_path u) = true);
  ru_query : existsb control (u_raw_query u) = false /\ HASH ∉ u_raw_query u;
  ru_force : u_force_query u = true -> u_raw_query u = [];
  ru_omit : u_omit_host u = true -> u_scheme u <> [] /\ u_host u = [] /\ u_user u = None /\ begins [SLASH] (u_path u) = true;
}.

Lemma quiet_spec l : existsb structural l = false <-> existsb control l = false /\ QUESTION ∉ l /\ HASH ∉ l.
Proof.
  induction l as [|b l IH]; cbn [existsb]; [split; [intros _; split_and!; [done|apply not_elem_of_nil..]|done]|]. rewrite !not_elem_of_cons, !orb_false_iff, IH. unfold structural, control. rewrite !orb_false_iff, !Z.eqb_neq. naive_solver.
Qed.

Lemma unescape_hd l h : unescape (SLASH :: l) InPath = Ok h -> begins [SLASH] h = true.
Proof. cbn [unescape]. by intros (r & _ & ->)%result_map_Ok. Qed.

Lemma raw_hint_cases l d m : raw_hint l d m = [] \/ raw_hint l d m = l.
Proof. unfold raw_hint. repeat case_match; auto. Qed.

Lemma parse_host_bytes legacy sch t h : bytes_ok t -> parse_host legacy sch t = Ok h -> bytes_ok h.
Proof.
  intros Ht. unfold parse_host. destruct (cut_last OPEN t) as [[[|] rest]|] eqn:Eo; [|done|destruct (valid_port _); [by apply unescape_bytes|done]].
  apply cut_last_some in Eo as [-> _]. apply Forall_cons in Ht as [_ Ht]. unfold parse_literal. destruct (cut_last CLOSE rest) as [[hostname port]|] eqn:Ec; [|done]. apply cut_last_some in Ec as [-> _].
  destruct (valid_port port) eqn:Hv; [|done]. cbn [negb]. rewrite port_unescape by done. cbn [result_bind]. apply bytes_ok_app in Ht as [Ht _]. intros (hn & Hu & E)%result_bind_Ok. destruct (literal_ok hn); [|done]. injection E as <-.
  apply Forall_cons. split; [done|]. apply bytes_ok_app. split.
  - revert Hu. unfold unescape_literal. destruct (cut_zone hostname) as [[p z]|] eqn:Ez; [|by apply unescape_bytes]. apply cut_zone_some in Ez as [-> _]. apply bytes_ok_app in Ht as [Hp Hz].
    intros (a & Ea & (b & Eb & [= <-])%result_bind_Ok)%result_bind_Ok. apply bytes_ok_app. split; [exact (unescape_bytes _ _ _ Hp Ea)|exact (unescape_bytes _ _ _ Hz Eb)].
  - apply Forall_cons. split; [done|]. eapply Forall_impl; [by apply port_plain|]. by intros ? (_ & ? & _).
Qed.

Lemma authority_reads legacy sch t user host : bytes_ok t -> authority_parts legacy sch t = Ok (user, host) ->
  user_ok user /\ (exists t, bytes_ok t /\ parse_host legacy sch t = Ok host) /\ bytes_ok host.
Proof.
  intros Ht. unfold authority_parts. destruct (cut_last AT t) as [[ui h]|] eqn:Ea.
  - apply cut_last_some in Ea as [-> _]. apply bytes_ok_app in Ht as [Hui [_ Hh]%Forall_cons]. intros (host' & Eh & (us & Eu & [= <- <-])%result_bind_Ok)%result_bind_Ok.
    split; [|split; [by exists h|exact (parse_host_bytes _ _ _ _ Hh Eh)]]. revert Eu. unfold parse_userinfo. destruct (forallb _ _); [|done]. cbn [negb]. destruct (cut_first COLON ui) as [[n p]|] eqn:Ec.
    + apply cut_first_some in Ec as [-> _]. apply bytes_ok_app in Hui as [Hn [_ Hp]%Forall_cons]. intros (n' & En & (p' & Ep & [= <-])%result_bind_Ok)%result_bind_Ok. split; [exact (unescape_bytes _ _ _ Hn En)|exact (unescape_bytes _ _ _ Hp Ep)].
    + intros (n' & En & [= <-])%result_bind_Ok. split; [exact (unescape_bytes _ _ _ Hui En)|by constructor].
  - intros (host' & Eh & [= <- <-])%result_bind_Ok. split; [done|]. split; [by exists t|exact (parse_host_bytes _ _ _ _ Ht Eh)].
Qed.

Lemma path_reads (sch host : list Z) (user : option User) path decoded : bytes_ok path -> existsb structural path = false -> unescape path InPath = Ok decoded ->
  (sch <> [] \/ host <> [] \/ user <> None -> path = [] \/ begins [SLASH] path = true) ->
  bytes_ok decoded /\ hint_ok decoded (raw_hint path decoded InPath) InPath /\
  (raw_hint path decoded InPath = [] \/ unescape (raw_hint path decoded InPath) InPath = Ok decoded) /\ existsb structural (raw_hint path decoded InPath) = false /\
  (sch <> [] \/ host <> [] \/ user <> None -> (decoded = [] \/ begins [SLASH] decoded = true) /\ (raw_hint path decoded InPath = [] \/ begins [SLASH] (raw_hint path decoded InPath) = true)).
Proof.
  intros Hb Hq Hu Ha. destruct (raw_hint_cases path decoded InPath) as [E|E]; (split; [exact (unescape_bytes _ _ _ Hb Hu)|split; [apply raw_hint_ok|]]); rewrite E; (split_and!; [auto..|]).
  all: intros Hs; destruct (Ha Hs) as [->|Hp]; [injection Hu as <-; auto|]; apply begins_spec in Hp as [r ->]; apply unescape_hd in Hu; auto.
Qed.

(** The part of the text after the scheme. *)
Definition clean_text (l : list Z) : Prop := bytes_ok l /\ existsb control l = false /\ HASH ∉ l.

Lemma clean_app l k : clean_text (l ++ k) <-> clean_text l /\ clean_text k.
Proof. unfold clean_text. rewrite bytes_ok_app, existsb_app, orb_false_iff, not_elem_of_app. naive_solver. Qed.

Lemma clean_cons b l : clean_text (b :: l) -> clean_text l.
Proof. change (b :: l) with ([b] ++ l). by intros [_ ?]%clean_app. Qed.

Lemma clean_nil : clean_text [].
Proof. split_and!; [by constructor|done|apply not_elem_of_nil]. Qed.

Lemma clean_quiet l : clean_text l -> QUESTION ∉ l -> existsb structural l = false.
Proof. intros (_ & ? & ?) ?. by apply quiet_spec. Qed.

Lemma clean_span l : clean_text l -> clean_text (span_slash l).1 /\ clean_text (span_slash l).2.
Proof. destruct (span_slash_spec l) as (E & _). intros Hl. rewrite E in Hl. by apply clean_app. Qed.

Lemma scheme_parts raw s rest : clean_text raw -> scheme raw = Ok (s, rest) -> clean_text rest /\ (map lower s = [] \/ scheme_text (map lower s) = true).
Proof.
  intros Hc [[-> ->]|[Hs ->]]%scheme_reads; [by split; [|left]|]. apply clean_app in Hc as [_ Hc%clean_cons]. by split; [|right].
Qed.

Lemma query_parts l rest force query : clean_text l -> split_query l = (rest, force, query) ->
  clean_text rest /\ QUESTION ∉ rest /\ (existsb control query = false /\ HASH ∉ query) /\ (force = true -> query = []).
Proof.
  intros Hc (-> & Hq & Hf)%split_query_spec. apply clean_app in Hc as [Hr Hc]. split_and!; [done..| | |done].
  all: unfold query_text in Hc; destruct force; cbn [orb] in Hc; [rewrite Hf by done; first [done|apply not_elem_of_nil]|]; destruct query as [|c q]; [first [done|apply not_elem_of_nil]|]; by apply clean_cons in Hc as (_ & ? & ?).
Qed.

Lemma parse_inner_reads legacy raw u : clean_text raw -> parse_inner legacy raw = Ok u -> read_url legacy u /\ u_fragment u = [] /\ u_raw_fragment u = [].
Proof.
  intros Hc. unfold parse_inner. destruct (existsb _ raw); [done|]. assert (exists t, bytes_ok t /\ forall sch, parse_host legacy sch t = Ok []) as Hempty by (exists []; split; [by constructor|done]). destruct Hempty as (t0 & Ht0 & Hp0).
  case_bool_decide as Estar.
  { intros [= <-]. split; [|done]. split; cbn; try done; [by left|by exists t0|by constructor|repeat constructor; done|by left|by left|naive_solver|split; [done|apply not_elem_of_nil]]. }
  intros ([s rest0] & Es & E)%result_bind_Ok. destruct (scheme_parts _ _ _ Hc Es) as [Hc0 Hs]. revert E. generalize dependent (map lower s). clear Es. intros sch Hs.
  destruct (split_query rest0) as [[rest force] query] eqn:Eq. unfold parse_rest. destruct (query_parts _ _ _ _ Hc0 Eq) as (Hr & Hq & Hquery & Hforce). pose proof (clean_quiet rest Hr Hq) as Hquiet. clear Eq.
  destruct (negb (begins [SLASH] rest) && negb (is_nil sch)) eqn:Eo.
  { intros [= <-]. apply andb_prop in Eo as [Eb%negb_true_iff En]. split; [|done].
    split; cbn; try done; [by destruct sch|by exists t0|by constructor|by constructor|by left|by left|intros _; split; by left]. }
  destruct (negb (begins [SLASH] rest) && one_of COLON _) eqn:Ec; [done|]. clear Ec.
  intros ([[[user host] path] omit] & Ea & (decoded & Ed & [= <-])%result_bind_Ok)%result_bind_Ok.
  assert (clean_text path /\ QUESTION ∉ path /\ user_ok user /\ (exists t, bytes_ok t /\ parse_host legacy sch t = Ok host) /\ bytes_ok host /\
          (sch <> [] \/ host <> [] \/ user <> None -> path = [] \/ begins [SLASH] path = true) /\ (omit = true -> sch <> [] /\ host = [] /\ user = None /\ begins [SLASH] path = true)) as (Hcp & Hqp & Hu & Hh & Hhb & Habs & Homit).
  { destruct (reads_authority sch rest) eqn:Er.
    - apply andb_prop in Er as [_ [r ->]%begins_spec]. change (text "//") with [SLASH; SLASH] in *. cbn [drop app] in *. rewrite ?drop_0 in Ea. do 2 apply clean_cons in Hr. destruct (span_slash_spec r) as (Er & _ & Hsl). destruct (clean_span r Hr) as [Hca Hcp].
      destruct (span_slash r) as [authority path']. cbn [fst snd] in *. apply result_bind_Ok in Ea as ([user' host'] & Ea & [= <- <- <- <-]). destruct (authority_reads _ _ _ _ _ (proj1 Hca) Ea) as (? & ? & ?).
      split_and!; [done| |done..]. rewrite Er in Hq. set_solver.
    - injection Ea as <- <- <- <-. split_and!; [done..|by exists t0|by constructor| |].
      + intros [Hn|[?|?]]; [|done..]. right. destruct (begins [SLASH] rest); [done|]. by destruct sch.
      + intros [Hn Hb]%andb_prop. split_and!; [by destruct sch|done..]. }
  destruct (path_reads sch host user path decoded (proj1 Hcp) (clean_quiet _ Hcp Hqp) Ed Habs) as (Hbd & Hhint & Hraw & Hrq & Habs').
  split; [|done]. split; cbn; try done. intros Ho. destruct (Homit Ho) as (? & ? & ? & [r ->]%begins_spec). split_and!; [done..|]. by apply unescape_hd in Ed.
Qed.

(** ** Printing and reading *)

Lemma unescape_nil l m : unescape l m = Ok [] -> l = [].
Proof.
  destruct l as [|c k]; [done|]. cbn [unescape]. destruct (c =? PERCENT); [|destruct (_ && _); [done|]; by intros (? & _ & ?)%result_map_Ok].
  destruct k as [|d [|e k]]; [done..|]. destruct (hex_pair d e); [|done]. destruct (bad_escape _ _); [done|]. by intros (? & _ & ?)%result_map_Ok.
Qed.

Lemma scheme_text_control s : scheme_text s = true -> existsb control (s ++ [COLON]) = false /\ s <> [].
Proof.
  destruct s as [|b t]; [done|]. intros [Hb Ht]%andb_prop. split; [|done]. rewrite existsb_app. cbn [existsb]. apply orb_false_iff. split; [|done]. apply orb_false_iff. split.
  { unfold control, is_lower in *. lia. }
  induction t as [|c t IH]; [done|]. cbn [forallb existsb] in *. apply andb_prop in Ht as [Hc Ht]. apply orb_false_iff. split; [|by apply IH].
  apply orb_true_iff in Hc as [Hc|Hc]; [unfold control, is_lower, is_number in *; lia|]. apply one_of_spec in Hc. change (text "+-.") with [43; 45; 46] in Hc.
  repeat (apply elem_of_cons in Hc as [->|Hc]; [done|]). by apply elem_of_nil in Hc.
Qed.

Section printed.
Context (legacy : bool) (u : Url) (Hu : read_url legacy u) (Hp : printable u = true).

Notation ep := (escaped_path u).
Notation q := (query_text (u_force_query u) (u_raw_query u)).

Lemma ep_reads : unescape ep InPath = Ok (u_path u).
Proof. apply unescape_path_text, Hu. Qed.

Lemma ep_quiet : existsb structural ep = false.
Proof. apply path_text_quiet; apply Hu. Qed.

Lemma ep_again : path_text (u_path u) (raw_hint ep (u_path u) InPath) = ep.
Proof. apply path_text_again; apply Hu. Qed.

Lemma ep_absolute : u_scheme u <> [] \/ u_host u <> [] \/ u_user u <> None -> ep = [] \/ begins [SLASH] ep = true.
Proof. intros Hs. apply path_text_absolute; apply (ru_absolute _ _ Hu Hs). Qed.

Lemma ep_empty : u_path u = [] -> ep = [].
Proof. intros E. pose proof ep_reads as H. rewrite E in H. by apply unescape_nil in H. Qed.

Lemma scheme_cases : (u_scheme u = [] /\ scheme_bytes u = []) \/ (scheme_text (u_scheme u) = true /\ scheme_bytes u = u_scheme u ++ [COLON] /\ u_scheme u <> []).
Proof.
  unfold scheme_bytes. destruct (ru_scheme _ _ Hu) as [E|E]; [rewrite E; by left|right]. by destruct (u_scheme u).
Qed.

(** A text without a mark inside that starts with the printed scheme. *)
Lemma printed_step mid : existsb structural mid = false -> scheme_bytes u ++ mid ++ q <> [STAR] ->
  (u_scheme u = [] -> one_of COLON (span_slash mid).1 = false) -> parse_inner legacy (scheme_bytes u ++ mid ++ q) = parse_rest legacy (u_scheme u) mid (u_force_query u) (u_raw_query u).
Proof.
  intros (Hmc & Hmq & _)%quiet_spec Hstar Hcolon. unfold parse_inner. assert (existsb control q = false) as Hqc.
  { unfold query_text. destruct (_ || _); [|done]. cbn [existsb]. apply orb_false_iff. split; [done|apply (ru_query _ _ Hu)]. }
  assert (existsb control (scheme_bytes u) = false) as Hsc by (destruct scheme_cases as [[_ ->]|(E & -> & _)]; [done|by apply scheme_text_control]).
  change (existsb (fun b => (b <? 32) || (b =? 127))) with (existsb control). rewrite !existsb_app, Hsc, Hmc, Hqc. cbn [orb]. rewrite bool_decide_false by done.
  assert (scheme (scheme_bytes u ++ mid ++ q) = Ok (u_scheme u, mid ++ q) /\ map lower (u_scheme u) = u_scheme u) as [E1 E2].
  { destruct scheme_cases as [[E ->]|(E & -> & _)].
    - rewrite E. cbn [app]. split; [|done]. apply scheme_relative; [by apply Hcolon|]. unfold query_text. destruct (_ || _); [by right|by left].
    - rewrite <- app_assoc. cbn [app]. by apply scheme_read_back. }
  rewrite E1. cbn [result_bind]. rewrite query_read_back by (done || apply (ru_force _ _ Hu)). by rewrite E2.
Qed.

Notation reads_as u' := (u_scheme u' = u_scheme u /\ u_opaque u' = u_opaque u /\ u_user u' = u_user u /\ u_host u' = u_host u /\ u_path u' = u_path u /\
  u_force_query u' = u_force_query u /\ u_raw_query u' = u_raw_query u /\ u_omit_host u' = u_omit_host u /\ escaped_path u' = ep).

(** No authority and no path: the text is opaque, or empty. *)
Lemma printed_opaque : u_scheme u <> [] -> begins [SLASH] (u_opaque u) = false -> u_user u = None -> u_host u = [] -> u_path u = [] -> u_omit_host u = false ->
  exists u', parse_inner legacy (scheme_bytes u ++ u_opaque u ++ q) = Ok u' /\ reads_as u'.
Proof.
  intros Hs Ho Hus Hh Hpa Hom. destruct scheme_cases as [[? _]|(_ & Eb & _)]; [done|]. rewrite printed_step.
  - unfold parse_rest. rewrite Ho. destruct (u_scheme u); [done|]. cbn [negb andb is_nil]. eexists. split; [done|]. cbn. rewrite Hus, Hh, Hpa, Hom. split_and!; try done. by rewrite ep_empty.
  - apply Hu.
  - rewrite Eb, <- app_assoc. destruct (u_scheme u) as [|? [|]]; [done|by intros [=]|by intros [=]].
  - done.
Qed.

Lemma host_printable : match u_host u with b :: h => negb (b =? OPEN) || forallb (fun c => (c <? 128) && negb (c =? OPEN)) h | [] => true end = true.
Proof. by apply andb_prop in Hp as [_ ?]. Qed.

(** An authority, and an absolute path or none. *)
Lemma printed_authority : shows_authority u = true -> u_opaque u = [] -> (u_host u <> [] \/ u_path u <> [] \/ u_user u <> None) ->
  exists u', parse_inner legacy (scheme_bytes u ++ (SLASH :: SLASH :: authority_text (u_user u) (u_host u) ++ ep) ++ q) = Ok u' /\ reads_as u'.
Proof.
  intros Hsh Ho Hsome. pose proof (authority_quiet (u_user u) (u_host u) (ru_user _ _ Hu) (ru_host_bytes _ _ Hu)) as Hq. set (at_ := authority_text (u_user u) (u_host u)) in *.
  assert (existsb structural at_ = false /\ SLASH ∉ at_) as [Hat Hsl].
  { clear -Hq. induction at_ as [|b l IH]; [split; [done|apply not_elem_of_nil]|]. cbn [existsb] in *. apply orb_false_iff in Hq as [Hb Hl]. apply orb_false_iff in Hb as [Hb Hn]. apply IH in Hl as [H1 H2]. rewrite Hb, H1. split; [done|]. apply not_elem_of_cons. split; [lia|done]. }
  assert (u_scheme u <> [] \/ u_host u <> [] \/ u_user u <> None) as Hauth.
  { unfold shows_authority in Hsh. apply andb_prop in Hsh as [Hsh _]. apply orb_true_iff in Hsh as [[Hsh|Hsh]%orb_true_iff|Hsh]; [left; by destruct (u_scheme u)|right; left; by destruct (u_host u)|right; right]. apply bool_decide_eq_true in Hsh as [? ->]. done. }
  destruct (ru_host _ _ Hu) as (t & Ht & Hth). rewrite printed_step.
  - unfold parse_rest. cbn [begins]. rewrite Z.eqb_refl. cbn [negb andb].
    assert (reads_authority (u_scheme u) (SLASH :: SLASH :: at_ ++ ep) = true) as ->.
    { unfold reads_authority. change (text "//") with [SLASH; SLASH]. change (text "///") with [SLASH; SLASH; SLASH]. cbn [begins]. rewrite !Z.eqb_refl. cbn [andb]. rewrite andb_true_r. destruct (u_scheme u) eqn:Es; [|done]. cbn [is_nil negb orb].
      assert (at_ <> []) as Hne.
      { destruct Hauth as [?|Hauth]; [done|]. unfold at_, authority_text. destruct (u_user u); [by destruct (encoded _)|]. destruct Hauth as [Hh|?]; [|done]. by intros ?%escape_nil. }
      destruct at_ as [|b l]; [done|]. cbn [app]. apply not_elem_of_cons in Hsl as [Hsl _]. by rewrite (proj2 (Z.eqb_neq SLASH b)). }
    cbn [drop]. rewrite ?drop_0. rewrite span_slash_app by (done || by apply ep_absolute). unfold at_. rewrite (authority_read_back _ _ _ _ t) by (done || apply Hu || apply host_printable). cbn [result_bind].
    rewrite ep_reads. cbn [result_bind]. eexists. split; [done|]. cbn. split_and!; try done; [|apply ep_again].
    destruct (u_omit_host u) eqn:Eo; [|done]. destruct (ru_omit _ _ Hu Eo) as (_ & E1 & E2 & _). unfold shows_authority in Hsh. rewrite Eo, E1, E2 in Hsh. by rewrite andb_false_r in Hsh.
  - cbn [existsb]. rewrite existsb_app, Hat, ep_quiet. done.
  - intros E. assert (SLASH ∈ [STAR]) as Hin; [|by apply list_elem_of_singleton in Hin]. rewrite <- E. set_solver.
  - done.
Qed.

(** A path alone. *)
Lemma printed_path : shows_authority u = false -> u_opaque u = [] -> exists u', parse_inner legacy (scheme_bytes u ++ ep ++ q) = Ok u' /\ reads_as u'.
Proof.
  intros Hsh Ho. pose proof Hp as Hpr. unfold printable in Hpr. rewrite Hsh in Hpr. cbn [orb] in Hpr. apply andb_prop in Hpr as [[Hra%negb_true_iff Hcol%negb_true_iff]%andb_prop _].
  assert (authority_bytes u = []) as Ea by (unfold authority_bytes; by rewrite Hsh). rewrite Ea in Hcol. cbn [is_nil] in Hcol. rewrite andb_true_r in Hcol.
  assert (u_host u = [] /\ u_user u = None /\ (u_scheme u = [] /\ u_omit_host u = false \/ u_scheme u <> [] /\ u_omit_host u = true /\ begins [SLASH] ep = true)) as (Hh & Hus & Hsch).
  { unfold shows_authority in Hsh. apply andb_false_iff in Hsh as [Hsh|Hsh].
    - apply orb_false_iff in Hsh as [[H1 H2]%orb_false_iff H3]. destruct (u_scheme u) eqn:Es; [|done]. destruct (u_host u); [|done]. apply bool_decide_eq_false in H3. destruct (u_user u); [destruct H3; by eexists|]. split_and!; [done..|left].
      split; [done|]. destruct (u_omit_host u) eqn:Eo; [|done]. by destruct (ru_omit _ _ Hu Eo) as [? _].
    - apply negb_false_iff in Hsh. apply andb_prop in Hsh as [[Eo _]%andb_prop _]. destruct (ru_omit _ _ Hu Eo) as (E0 & E1 & E2 & E3). split_and!; [done..|right]. split_and!; [done..|].
      destruct ep_absolute as [E|?]; [by left| |done]. pose proof ep_reads as Er. rewrite E in Er. injection Er as Er. by rewrite <- Er in E3. }
  destruct (decide (scheme_bytes u ++ ep ++ q = [STAR])) as [Estar|Hstar].
  - destruct Hsch as [[Es Eo]|(_ & _ & Hb)]; [|apply begins_spec in Hb as [r Er]; assert (SLASH ∈ [STAR]) as Hin; [rewrite <- Estar, Er; set_solver|by apply list_elem_of_singleton in Hin]].
    unfold scheme_bytes in Estar |- *. rewrite Es in *. cbn [is_nil app] in *. rewrite Estar. assert (ep = [STAR] /\ q = []) as [E1 E2].
    { unfold query_text in *. destruct (_ || _); [|by rewrite app_nil_r in Estar]. destruct ep as [|b [|]]; by injection Estar. }
    unfold query_text in E2. destruct (u_force_query u); [done|]. destruct (u_raw_query u); [|done]. pose proof ep_reads as Er. rewrite E1 in Er. injection Er as Er.
    eexists. split; [done|]. cbn. rewrite E1, <- Er, Hh, Hus, Eo, Ho. done.
  - rewrite printed_step; [|apply ep_quiet|done|].
    + unfold parse_rest. rewrite Hra. destruct Hsch as [[Es Eo]|(Hs & Eo & Hb)].
      * unfold scheme_bytes in Hcol. rewrite Es in *. cbn [is_nil andb negb] in *. rewrite andb_false_r, Hcol, andb_false_r. cbn [result_bind]. rewrite ep_reads. cbn [result_bind]. eexists. split; [done|]. cbn. rewrite Hh, Hus, Eo, Ho. split_and!; try done. apply ep_again.
      * rewrite Hb. cbn [negb andb result_bind]. rewrite ep_reads. cbn [result_bind]. eexists. split; [done|]. cbn. rewrite Hh, Hus, Eo, Ho. split_and!; try done; [by destruct (u_scheme u)|apply ep_again].
    + intros Es. unfold scheme_bytes in Hcol. by rewrite Es in Hcol.
Qed.

Lemma authority_cases : (authority_bytes u = SLASH :: SLASH :: authority_text (u_user u) (u_host u) /\ shows_authority u = true /\ (u_host u <> [] \/ u_path u <> [] \/ u_user u <> None)) \/
  (authority_bytes u = [] /\ (shows_authority u = false \/ u_scheme u <> [] /\ u_host u = [] /\ u_path u = [] /\ u_user u = None)).
Proof.
  unfold authority_bytes. destruct (shows_authority u) eqn:Hsh; [|by right; split; [|left]]. unfold authority_text. destruct (_ || _) eqn:E.
  - left. split_and!; [done..|]. apply orb_true_iff in E as [[E|E]%orb_true_iff|E]; [left; by destruct (u_host u)|right; left; by destruct (u_path u)|right; right]. apply bool_decide_eq_true in E as [? ->]. done.
  - right. apply orb_false_iff in E as [[E1 E2]%orb_false_iff E3]. destruct (u_host u) eqn:Eh; [|done]. destruct (u_path u); [|done]. apply bool_decide_eq_false in E3. destruct (u_user u) eqn:Eu; [destruct E3; by eexists|].
    split; [done|right]. split_and!; [|done..]. unfold shows_authority in Hsh. rewrite Eh, Eu in Hsh. by destruct (u_scheme u).
Qed.

Lemma middle_eq : middle_bytes u = match u_opaque u with [] => authority_bytes u ++ ep | o => o end.
Proof.
  unfold middle_bytes. destruct (u_opaque u); [|done]. cbn [is_nil]. assert (negb (is_nil ep) && negb (begins [SLASH] ep) && negb (is_nil (u_host u)) = false) as ->.
  { destruct (u_host u) eqn:Eh; [by rewrite andb_false_r|]. destruct ep_absolute as [-> | ->]; [by right; left; rewrite Eh|done|by rewrite andb_false_r]. }
  cbn [app]. rewrite app_nil_r. pose proof Hp as Hpr. apply andb_prop in Hpr as [[_ Hcol%negb_true_iff]%andb_prop _].
  replace (is_nil (scheme_bytes u ++ authority_bytes u)) with (is_nil (scheme_bytes u) && is_nil (authority_bytes u)) by (by destruct (scheme_bytes u), (authority_bytes u)). by rewrite Hcol.
Qed.

Lemma printed_inner : exists u', parse_inner legacy (scheme_bytes u ++ middle_bytes u ++ q) = Ok u' /\ reads_as u'.
Proof.
  rewrite middle_eq. destruct (u_opaque u) as [|o os] eqn:Eo.
  - destruct authority_cases as [(E & Hsh & Hs)|[E [Hsh|(Hs & Hh & Hpa & Hus)]]]; rewrite E.
    + change ((SLASH :: SLASH :: authority_text (u_user u) (u_host u)) ++ ep) with (SLASH :: SLASH :: (authority_text (u_user u) (u_host u) ++ ep)). rewrite <- Eo. by apply printed_authority.
    + cbn [app]. rewrite <- Eo. by apply printed_path.
    + destruct (u_omit_host u) eqn:Em; [destruct (ru_omit _ _ Hu Em) as (_ & _ & _ & E4); by rewrite Hpa in E4|]. rewrite (ep_empty Hpa). cbn [app]. pose proof printed_opaque as Hpo. rewrite Em, Eo, (ep_empty Hpa) in Hpo. by apply Hpo.
  - destruct (ru_opaque _ _ Hu) as (H1 & H2 & H3 & H4 & H5 & H6); [by rewrite Eo|]. rewrite <- Eo. by apply printed_opaque.
Qed.

Lemma source_no_hash : HASH ∉ scheme_bytes u ++ middle_bytes u ++ q.
Proof.
  rewrite !not_elem_of_app. split_and!.
  - destruct scheme_cases as [[_ ->]|(E & -> & _)]; [apply not_elem_of_nil|]. rewrite not_elem_of_app. split; [|by intros ?%list_elem_of_singleton]. destruct (u_scheme u) as [|b t]; [done|]. apply andb_prop in E as [Hb Ht].
    apply not_elem_of_cons. split; [intros <-; done|]. intros Hin. rewrite forallb_forall in Ht. by specialize (Ht _ (proj1 (list_elem_of_In _ _) Hin)).
  - rewrite middle_eq. destruct (u_opaque u) eqn:Eo; [|rewrite <- Eo; by apply quiet_spec, Hu]. rewrite not_elem_of_app. split; [|by apply quiet_spec, ep_quiet].
    destruct authority_cases as [(-> & _)|[-> _]]; [|apply not_elem_of_nil]. pose proof (authority_quiet (u_user u) (u_host u) (ru_user _ _ Hu) (ru_host_bytes _ _ Hu)) as Hq.
    rewrite !not_elem_of_cons. split_and!; [done..|]. intros Hin. apply not_true_iff_false in Hq. apply Hq, existsb_exists. exists HASH. split; [by apply list_elem_of_In|done].
  - unfold query_text. destruct (_ || _); [|apply not_elem_of_nil]. apply not_elem_of_cons. split; [done|apply (ru_query _ _ Hu)].
Qed.

End printed.

Lemma read_with_fragment legacy u f r : read_url legacy u -> read_url legacy (with_fragment u f r).
Proof. intros []. by split. Qed.

(** A URL that was read: its parts up to the fragment, and the fragment with its hint. *)
Lemma parse_bytes_reads legacy raw u : bytes_ok raw -> parse_bytes legacy raw = Ok u ->
  read_url legacy u /\ bytes_ok (u_fragment u) /\ hint_ok (u_fragment u) (u_raw_fragment u) InFragment.
Proof.
  intros Hb. unfold parse_bytes. destruct (cut raw HASH) as [source fragment] eqn:Ec. assert (bytes_ok source /\ HASH ∉ source /\ bytes_ok fragment) as (Hs & Hh & Hf).
  { unfold cut in Ec. destruct (cut_first HASH raw) as [[x y]|] eqn:E; cbn in Ec; injection Ec as <- <-; [apply cut_first_some in E as [-> ?]; by apply bytes_ok_app in Hb as [? [_ ?]%Forall_cons]|].
    apply cut_first_none in E. split_and!; [done..|by constructor]. }
  intros (v & Ev & E)%result_bind_Ok. destruct (parse_inner legacy source) as [v'|] eqn:Ei; [|done]. injection Ev as ->.
  assert (clean_text source) as Hc by (split_and!; [done| |done]; unfold parse_inner in Ei; change (existsb (fun b => (b <? 32) || (b =? 127))) with (existsb control) in Ei; by destruct (existsb control source)).
  destruct (parse_inner_reads _ _ _ Hc Ei) as (Hr & Hf0 & Hr0). destruct (is_nil fragment).
  - injection E as <-. rewrite Hf0, Hr0. split_and!; [done|by constructor|by left].
  - apply result_bind_Ok in E as (d & Ed & [= <-]). split_and!; [by apply read_with_fragment| |apply raw_hint_ok]. destruct (unescape fragment InFragment) eqn:Eu; [|done]. injection Ed as ->. exact (unescape_bytes _ _ _ Hf Eu).
Qed.

Lemma as_bytes_same u v : same_parts u v -> escaped_path v = escaped_path u ->
  escaped (u_fragment v) (u_raw_fragment v) InFragment = escaped (u_fragment u) (u_raw_fragment u) InFragment -> as_bytes v = as_bytes u.
Proof.
  intros (E1 & E2 & E3 & E4 & E5 & E6 & E7 & E8 & E9) Hep Hfr. unfold as_bytes, middle_bytes, scheme_bytes, authority_bytes, shows_authority. by rewrite Hep, Hfr, E1, E2, E3, E4, E5, E6, E7, E8, E9.
Qed.

Lemma escaped_nonempty l raw m : l <> [] -> escaped l raw m <> [].
Proof. intros Hl. destruct (escaped_cases l raw m) as [(-> & ? & _)| ->]; [done|]. by rewrite escape_nil. Qed.

Lemma parse_inner_fragment legacy raw u : parse_inner legacy raw = Ok u -> u_fragment u = [] /\ u_raw_fragment u = [].
Proof.
  unfold parse_inner, parse_rest. destruct (existsb _ raw); [done|]. case_bool_decide; [by intros [= <-]|]. intros ([s rest] & _ & E)%result_bind_Ok. destruct (split_query rest) as [[r f] q].
  destruct (_ && _); [by injection E as <-|]. destruct (negb _ && one_of COLON _); [done|]. apply result_bind_Ok in E as ([[[user host] path] omit] & _ & (d & _ & [= <-])%result_bind_Ok). done.
Qed.


(** A URL with a host that is not in brackets is always printable. *)
Lemma with_host_printable legacy raw u : bytes_ok raw -> parse_bytes legacy raw = Ok u -> u_host u <> [] -> hd 0 (u_host u) <> OPEN -> printable u = true.
Proof.
  intros Hb Hparse Hh Ho. destruct (parse_bytes_reads _ _ _ Hb Hparse) as (Hr & _). assert (shows_authority u = true) as Hs.
  { unfold shows_authority. destruct (u_host u); [done|]. cbn. by rewrite orb_true_r, !andb_false_r. }
  unfold printable. rewrite Hs. unfold authority_bytes. rewrite Hs. destruct (u_host u) as [|b h]; [done|]. cbn in *. by rewrite (proj2 (Z.eqb_neq _ _) Ho), andb_false_r.
Qed.

(** ** A path below a URL *)

Lemma scheme_loop_app first l s r k : scheme_loop first l = Ok (Some (s, r)) -> scheme_loop first (l ++ k) = Ok (Some (s, r ++ k)).
Proof.
  revert first s. induction l as [|b l IH]; intros first s; cbn [scheme_loop app]; [done|]. destruct (_ || _).
  - intros ([[s' r']|] & E & [= -> ->])%result_map_Ok. by rewrite (IH _ _ E).
  - destruct (b =? COLON); [|done]. destruct first; [done|]. by intros [= <- <-].
Qed.

Lemma unescape_literal_path l : PERCENT ∉ l -> unescape l InPath = Ok l.
Proof. induction l as [|b l IH]; [done|]. intros [Hb Hl]%not_elem_of_cons. cbn [unescape]. rewrite Z.eqb_sym, (proj2 (Z.eqb_neq _ _) Hb). cbn. by rewrite IH. Qed.

(** The base of a URL: a scheme and perhaps an authority. *)
Definition is_base (legacy : bool) (base : list Z) : Prop :=
  HASH ∉ base /\ exists u, parse_bytes legacy base = Ok u /\ u_scheme u <> [] /\ u_opaque u = [] /\ u_path u = [] /\ u_raw_query u = [] /\ u_force_query u = false.

Lemma parse_rest_below legacy sch rest u tail : sch <> [] -> parse_rest legacy sch rest false [] = Ok u -> u_opaque u = [] -> u_path u = [] -> PERCENT ∉ tail ->
  begins [SLASH] tail = true -> begins (text "//") tail = false -> exists v, parse_rest legacy sch (rest ++ tail) false [] = Ok v /\ u_path v = tail.
Proof.
  intros Hs. unfold parse_rest. destruct sch as [|c sch]; [done|]. clear Hs. cbn [is_nil negb]. rewrite !andb_true_r. destruct (begins [SLASH] rest) eqn:Eb; cbn [negb andb].
  - intros E _ Hpa Hn Ht Ht2. unfold reads_authority in *. cbn [is_nil negb orb] in *. change (text "//") with [SLASH; SLASH] in *. apply begins_spec in Eb as [r ->]. cbn [app begins andb] in *. rewrite Z.eqb_refl. cbn [andb negb].
    destruct r as [|d r]; [by apply result_bind_Ok in E as ([[[? ?] p] ?] & [= <- <- <- <-] & (dec & Ed & [= <-])%result_bind_Ok); cbn in Hpa; subst dec; apply unescape_nil in Ed|].
    destruct (Z.eqb_spec SLASH d) as [<-|Hd].
    + cbn [andb drop app] in *. rewrite ?drop_0 in *. destruct (span_slash_spec r) as (Er & Hsl & _). destruct (span_slash r) as [a p]. cbn [fst snd] in *.
      apply result_bind_Ok in E as ([[[us h] p'] o] & E1 & (dec & Ed & [= <-])%result_bind_Ok). apply result_bind_Ok in E1 as ([us' h'] & Ea & [= <- <- <- <-]). cbn in Hpa. subst dec. apply unescape_nil in Ed as ->. rewrite app_nil_r in Er. subst r.
      rewrite span_slash_app by auto. rewrite Ea, Z.eqb_refl. cbn [result_bind andb]. rewrite unescape_literal_path by done. cbn [result_bind]. by eexists.
    + cbn [andb] in *. apply result_bind_Ok in E as ([[[? ?] p] ?] & [= <- <- <- <-] & (dec & Ed & [= <-])%result_bind_Ok). cbn in Hpa. subst dec. by apply unescape_nil in Ed.
  - intros [= <-]. cbn [u_opaque u_path]. intros -> _ Hn Ht Ht2. cbn [app]. rewrite Ht. cbn [negb andb]. unfold reads_authority. rewrite Ht2, andb_false_r. cbn [result_bind]. rewrite unescape_literal_path by done. cbn [result_bind]. by eexists.
Qed.

Lemma parse_below legacy base tail : is_base legacy base -> existsb structural tail = false -> PERCENT ∉ tail -> begins [SLASH] tail = true -> begins (text "//") tail = false ->
  exists v, parse_bytes legacy (base ++ tail) = Ok v /\ u_path v = tail.
Proof.
  intros (Hh & u & Hu & Hs & Ho & Hpa & Hq & Hf) (Hc & Htq & Hth)%quiet_spec Hn Ht Ht2. unfold parse_bytes in *. rewrite cut_none in Hu by done. rewrite cut_none by set_solver. cbn [is_nil] in *.
  destruct (parse_inner legacy base) as [w|] eqn:Ei; [|done]. cbn in Hu. injection Hu as ->. cut (exists v, parse_inner legacy (base ++ tail) = Ok v /\ u_path v = tail); [by intros (v & -> & ?); exists v|].
  unfold parse_inner in *. change (existsb (fun b => (b <? 32) || (b =? 127))) with (existsb control) in *. rewrite existsb_app, Hc, orb_false_r. destruct (existsb control base); [done|].
  destruct (bool_decide (base = [STAR])) eqn:Estar; [by injection Ei as <-|]. apply result_bind_Ok in Ei as ([s rest0] & Es & E). destruct (split_query rest0) as [[rest force] query] eqn:Eq.
  assert (force = false /\ query = [] /\ u_scheme u = map lower s) as (-> & -> & Esch).
  { revert E. unfold parse_rest. destruct (_ && negb (is_nil _)); [by intros [= <-]|]. destruct (negb _ && one_of COLON _); [done|]. intros ([[[? ?] ?] ?] & _ & (? & _ & [= <-])%result_bind_Ok)%result_bind_Ok. done. }
  apply split_query_spec in Eq as (-> & Hrq & _). cbn in Es. rewrite app_nil_r in Es. rewrite Esch in Hs.
  unfold scheme in Es. apply result_map_Ok in Es as ([[s' r']|] & El & [= -> ->]); [|done]. unfold scheme. rewrite (scheme_loop_app _ _ _ _ tail El). rewrite bool_decide_false.
  2: { intros E2. apply (f_equal (fun l => one_of SLASH l)) in E2. apply begins_spec in Ht as [r ->]. unfold one_of in E2. rewrite existsb_app in E2. cbn in E2. by rewrite orb_true_r in E2. }
  cbn [result_map result_bind default]. pose proof (query_read_back (r' ++ tail) false []) as Eq2. cbn in Eq2. rewrite app_nil_r in Eq2. cbn. rewrite Eq2 by (done || set_solver). by apply (parse_rest_below legacy _ r' u).
Qed.

Lemma parse_absolute legacy tail : existsb structural tail = false -> PERCENT ∉ tail -> begins [SLASH] tail = true -> begins (text "//") tail = false ->
  exists v, parse_bytes legacy tail = Ok v /\ u_path v = tail.
Proof.
  intros (Hc & Htq & Hth)%quiet_spec Hn Ht Ht2. unfold parse_bytes. rewrite cut_none by done. cbn [is_nil]. unfold parse_inner. change (existsb (fun b => (b <? 32) || (b =? 127))) with (existsb control). rewrite Hc.
  rewrite bool_decide_false by (intros ->; done). pose proof (scheme_relative tail []) as Es. rewrite app_nil_r in Es. rewrite Es by (auto; by apply begins_spec in Ht as [r ->]). cbn [result_bind map].
  pose proof (query_read_back tail false []) as Eq. cbn in Eq. rewrite app_nil_r in Eq. rewrite Eq by done. unfold parse_rest. rewrite Ht. cbn [negb andb]. unfold reads_authority. rewrite Ht2, andb_false_r. cbn [result_bind].
  rewrite unescape_literal_path by done. cbn. by eexists.
Qed.

Lemma text_app a b : text (a +:+ b) = text a ++ text b.
Proof. unfold text. induction a as [|c a IH]; [done|]. change (String c a +:+ b) with (String c (a +:+ b)). cbn [String.list_ascii_of_string map app]. by rewrite IH. Qed.

Lemma length_text a : length (text a) = String.length a.
Proof. unfold text. rewrite length_map. by induction a as [|c a IH]; [|cbn; rewrite IH]. Qed.

(** ** Examples *)

Module UrlExamples.

Definition printed (s : string) : option (list Z) := match parse_bytes false (text s) with Ok u => Some (as_bytes u) | Err _ => None end.

Example keeps_escapes : printed "HTTP://user:p%40ss@h%C3%A9:80/a%2Fb?x=1#f%20g" = Some (text "http://user:p%40ss@h%C3%A9:80/a%2Fb?x=1#f%20g").
Proof. vm_compute. reflexivity. Qed.

Example canonical_escapes : printed "https://[fe80::1%25en0]/a b" = Some (text "https://[fe80::1%25en0]/a%20b").
Proof. vm_compute. reflexivity. Qed.

(** What [printable] leaves out: the escaped slash is lost with the hint, and the path is
    printed as a host; a colon is kept from being a scheme by another path. *)
Example path_prints_as_host : printed "/%2Fx<" = Some (text "//x%3C").
Proof. vm_compute. reflexivity. Qed.

Example dot_is_added : printed "a%3A<" = Some (text "./a:%3C").
Proof. vm_compute. reflexivity. Qed.

Example zone_not_read_back : printed "http://[::1%25%5B]/" = Some (text "http://[::1%25[]/") /\ printed "http://[::1%25[]/" = None.
Proof. vm_compute. done. Qed.


End UrlExamples.
