(* ===== verification/Register.v ===== *)
(** * Register: the registration handler
    (headscale-api/src/tailscale_wire/{register,mod,wire}.rs)

    A client registers a node key under the machine key its connection proved: with a
    pre-authentication key, or interactively, in which case it is put into the cache of
    pending registrations.  The same handler logs nodes out, answers clients that are
    registered already, and answers those that come back after an interactive login.

    [WireState] is what the handler changes: the registry, the cache and the store of
    keys, which is any [PreauthRedeemer].  The server keeps its nodes in memory; the
    durable store and the side tables of the native store (feature "admin") are left
    out.  What the rest of the world answers to a request - clocks, the admission gate,
    the outcome of a wait, the policy, random numbers, retained Hostinfo values - is the
    record [Surroundings].  A request is handled in one piece, as the locks on its
    machine and node key have it. *)

From stdpp Require Import base list gmap strings sets.
From Stdlib Require Import ZArith Lia Ascii.
From S2P Require Import Prelude Text Bytes Utf8 Net GoUrl GoNetip PrimaryRoutes GivenName IpAlloc Registration MapChange MapBatcher Registry NodeStore NodeUpdates Sessions MapNodes MapView MapDelta MapRequest Preauth.

Open Scope Z_scope.

(** The tags a client asks for are among the fields of a Hostinfo the server else only
    passes on. *)
Class HostRequests `{HostTypes} := {
  rest_request_tags : HostRest -> list string;
  rest_with_request_tags : HostRest -> list string -> HostRest;
  host_rest_default : HostRest;
}.

Definition MIN_SUPPORTED_CAPABILITY_VERSION : Z := 113.
Definition AUTH_ID_PREFIX : string := "hskey-authreq-".
Definition REGISTRATION_ID_LENGTH : nat := 24.
Definition AUTH_ID_LENGTH : nat := String.length AUTH_ID_PREFIX + REGISTRATION_ID_LENGTH.

Definition strip_key_prefix (s : string) : option string :=
  match strip_prefix "mkey:" s with
  | Some rest => Some rest
  | None => match strip_prefix "nodekey:" s with Some rest => Some rest | None => strip_prefix "discokey:" s end
  end.

(** ** The follow-up URL *)

(** Every occurrence of the marker is removed. *)
Fixpoint remove_marker (fuel : nat) (marker l : list Z) : list Z :=
  match fuel, l with
  | S fuel, b :: rest => if begins marker l then remove_marker fuel marker (drop (length marker) l) else b :: remove_marker fuel marker rest
  | _, _ => l
  end.

(** One round for each byte is enough. *)
Lemma remove_marker_fuel marker fuel l : marker <> [] -> (length l <= fuel)%nat -> remove_marker fuel marker l = remove_marker (length l) marker l.
Proof.
  intros Hm. remember (length l) as n eqn:En. revert fuel l En.
  induction (lt_wf n) as [n _ IH]. intros fuel l En Hf. destruct l as [|b l]; [subst n; by destruct fuel|].
  destruct n as [|n]; [done|]. injection En as En. destruct fuel as [|fuel]; [lia|]. cbn [remove_marker]. destruct (begins _ _).
  - destruct marker as [|c marker]; [done|]. cbn [length]. rewrite skipn_cons. pose proof (length_drop l (length marker)) as Hd.
    rewrite (IH (length (drop (length marker) l))) by (rewrite ?Hd; lia). symmetry. apply (IH (length (drop (length marker) l))); [rewrite Hd; lia|done|rewrite Hd; lia].
  - f_equal. rewrite (IH n) by lia. done.
Qed.

Inductive FollowupError := InvalidFollowup | InvalidRegistrationId.

(** An id that is not UTF-8 names no entry. *)
Definition registration_id_from_followup (legacy_colons : bool) (followup : string) : result (option (list Z)) FollowupError :=
  match parse_bytes legacy_colons (text followup) with
  | Err _ => Err InvalidFollowup
  | Ok url =>
      let path := u_path url in
      let id := remove_marker (length path) (text "/register/") path in
      if negb (length id =? AUTH_ID_LENGTH)%nat || negb (begins (text AUTH_ID_PREFIX) id) then Err InvalidRegistrationId
      else let id := drop (String.length AUTH_ID_PREFIX) id in
           Ok (if utf8_valid id then Some id else None)
  end.

(** [trim_end_matches('/')]. *)
Definition trim_slashes (s : string) : string :=
  of_chars (rev ((fix skip (l : chars) := match l with c :: t => if Ascii.eqb c "/" then skip t else l | [] => [] end) (rev (to_chars s)))).

Definition auth_url_for_registration (public_control_url : option string) (id : string) : string :=
  match public_control_url with
  | Some url => if bool_decide (url = ""%string) then "/register/" +:+ AUTH_ID_PREFIX +:+ id else trim_slashes url +:+ "/register/" +:+ AUTH_ID_PREFIX +:+ id
  | None => "/register/" +:+ AUTH_ID_PREFIX +:+ id
  end.

Section register.
Context `{HostUpdates} `{!HostRequests} `{NetipText} `{Chrono} {P Oidc : Type} `{PreauthRedeemer P}.

Notation MachineRecord := (@MachineRecord HostInfo).
Notation Records := (gmap string MachineRecord).
Notation MachineRegistry := (@MachineRegistry HostInfo).
Notation BoolUpdate := (@Update HostInfo NodeStoreBoolUpdateOutcome).
Notation Cache := (@RegistrationCache MachineRecord RawHostinfo Oidc).

(** ** Requests and answers *)

Record RegisterRequest := mkRegisterRequest {
  rr_version : Z;
  rr_node_key : string;
  rr_auth : option string;
  rr_hostinfo : option HostInfo;
  rr_followup : option string;
  rr_ephemeral : bool;
  rr_expiry : option Z;
  rr_raw_hostinfo : RawHostinfo;
}.

Inductive RegisterError :=
| UnsupportedClient (version : Z) | PathMismatch
| NodeOfAnotherMachine | LogoutOfAnotherMachine | GateRefused (reason : string) | ExtendingKey
| BadFollowup (e : FollowupError) | TimedOut
| BadCredential (e : RegistrationRedeemError) | AmbiguousOwnership | BadTags (tags : list string) | NodeKeyInUse
| NoAddress (e : string) | BadRoutes (e : netip_error) | BadHostinfo (e : string)
| KeyExists | Interrupted | PolicyFailed (e : string) | ApprovalFailed (e : string)
| LogoutDeletion (e : string) | LogoutGone (n : Z) | LogoutPolicy (e : string).

Record SimpleUser := mkSimpleUser { su_id : Z; su_display_name : string; su_profile_pic_url : string; su_created : option Z }.
Record SimpleLogin := mkSimpleLogin { sl_id : Z; sl_provider : string; sl_login_name : string; sl_display_name : string; sl_profile_pic_url : string }.

Record RegisterResponse := mkResponse {
  rp_user : SimpleUser;
  rp_login : SimpleLogin;
  rp_node_key_expired : bool;
  rp_auth_url : string;
  rp_machine_authorized : bool;
  rp_error : option RegisterError;
}.

(** A response, or an answer with an HTTP status of its own. *)
Inductive Answer := Json (r : RegisterResponse) | BadRequest (e : RegisterError) | Unauthorized | ServerError (e : RegisterError).

Definition empty_simple_user : SimpleUser := mkSimpleUser 0 "" "" None.
Definition empty_simple_login : SimpleLogin := mkSimpleLogin 0 "" "" "" "".

Definition register_error_response (e : RegisterError) : Answer := Json (mkResponse empty_simple_user empty_simple_login false "" false (Some e)).

Definition node_key_expired_response : Answer := Json (mkResponse empty_simple_user empty_simple_login true "" false None).

Definition register_response_for_record (now : Z) (r : MachineRecord) : RegisterResponse :=
  let profile := tailscale_user_profile r in
  mkResponse (mkSimpleUser (up_id profile) (up_display_name profile) (up_profile_pic_url profile) (if is_tagged r then None else ow_created_at (mr_owner r)))
    (mkSimpleLogin (up_id profile) (if is_tagged r then ""%string else ow_provider (mr_owner r)) (up_login_name profile) (up_display_name profile) (up_profile_pic_url profile))
    (is_expired_at now r) "" true None.

Record Clock := mkClock { at_start : Z; at_check : Z; at_record : Z; at_change : Z; at_answer : Z }.

(** What the world answers: [sr_refresh] to the commit of a registration or a logout,
    [sr_refresh_approved] to the approval of routes. *)
Record Surroundings := mkSurroundings {
  sr_clock : Clock;
  sr_gate : option (string -> string -> option string -> result unit string);
  sr_wait : option (@RegistrationWaitOutcome MachineRecord);
  sr_legacy_colons : bool;
  sr_fresh_id : string;
  sr_source : option RegistrationSource;
  sr_draws4 : list (result (list Z) string);
  sr_draws6 : list (result (list Z) string);
  sr_refresh : PolicyAnswer;
  sr_refresh_approved : PolicyAnswer;
  sr_approves : MachineRecord -> string -> bool -> bool;
  sr_relay : MachineRecord -> bool;
  sr_hostinfo_of : MachineRecord -> RawHostinfo;
  sr_registration_value : RawHostinfo -> HostInfo -> option RawHostinfo -> result RawHostinfo string;
  sr_node_expiry : Z;
  sr_control_url : option string;
}.

Record WireState := mkWire { ws_machines : MachineRegistry; ws_cache : Cache; ws_preauth : P }.

Definition set_machines (s : WireState) (g : MachineRegistry) : WireState := mkWire g (ws_cache s) (ws_preauth s).
Definition set_preauth (s : WireState) (p : P) : WireState := mkWire (ws_machines s) (ws_cache s) p.

Definition register_response_for_live_record (sr : Surroundings) (r : MachineRecord) : Answer := Json (register_response_for_record (at_answer (sr_clock sr)) r).

(** ** The node a key belongs to *)

Definition of_machine (machine_key : string) (kv : string * MachineRecord) : bool := bool_decide (mr_machine_key_hex kv.2 = machine_key).

Definition owned_by (user : string) (user_id : option Z) (r : MachineRecord) : bool :=
  match user_id with Some id => bool_decide (ow_user_id (mr_owner r) = Some id) | None => bool_decide (ow_user (mr_owner r) = user) end.

(** A node of a user that a tagged key may convert. *)
Definition convertible (r : MachineRecord) : bool :=
  match ow_user_id (mr_owner r) with Some id => negb (id =? 0) | None => negb (bool_decide (ow_user (mr_owner r) = ""%string)) end.

(** At most one candidate, or the ownership is ambiguous. *)
Definition the_only (l : list (string * MachineRecord)) : result (option (string * MachineRecord)) RegisterError :=
  match l with [] => Ok None | [kv] => Ok (Some kv) | _ => Err AmbiguousOwnership end.

Definition existing_machine_for_preauth (records : Records) (machine_key user : string) (user_id : option Z) (tagged_key : bool)
    : result (option (string * MachineRecord)) RegisterError :=
  if bool_decide (user_id = None) && bool_decide (user = ""%string) && negb tagged_key then Ok None
  else
    let nodes := List.filter (of_machine machine_key) (map_to_list records) in
    let owned := if bool_decide (is_Some user_id) || (negb tagged_key && negb (bool_decide (user = ""%string)))
                 then List.filter (fun kv => negb (is_tagged kv.2) && owned_by user user_id kv.2) nodes else [] in
    match the_only owned with
    | Ok None =>
        match the_only (List.filter (fun kv => is_tagged kv.2) nodes) with
        | Ok None => if negb tagged_key || bool_decide (is_Some user_id) then Ok None else the_only (List.filter (fun kv => convertible kv.2) nodes)
        | found => found
        end
    | found => found
    end.

Definition existing_node_can_refresh_with_key (existing : MachineRecord) (key : RedeemOk) (now : Z) : bool :=
  if negb (is_tagged existing) && is_expired_at now existing then false
  else match ro_tags key with
       | [] => true
       | _ => let id := re_auth_key_id (mr_reported existing) in is_tagged existing && bool_decide (is_Some id) && bool_decide (id = ro_auth_key_id key)
       end.

Definition validate_registration_node_key (records : Records) (node_key machine_key : string) : bool :=
  match records !! node_key with Some r => bool_decide (mr_machine_key_hex r = machine_key) | None => true end.

(** ** Addresses *)

(** The registry's allocator is the server's; the search for an address always ends
    ([IpAlloc.allocation_exact]). *)
Definition allocate_registration_addresses (draws4 draws6 : list (result (list Z) string)) (g : MachineRegistry) : result (option Z * option Z) string * MachineRegistry :=
  match rg_allocator g ≫= fun a => allocate_addresses a draws4 draws6 with
  | None => (Err "allocating IPs: no IP prefixes enabled", g)
  | Some (r, a) =>
      let g := mkRegistry (rg_records g) (rg_tables g) (rg_primary g) (Some a) in
      (match r with
       | Err e => Err ("allocating IPs: " +:+ e)
       | Ok (None, None) => Err "allocating IPs: no IP prefixes enabled"
       | Ok ips => Ok ips
       end, g)
  end.

(** ** What a request says of the host *)

Record RegisterHostInfoParts := mkParts {
  pt_host_info : HostInfo;
  pt_hostname : string;
  pt_os : string;
  pt_os_version : string;
  pt_available_routes : list string;
  pt_ssh_host_keys : list string;
}.

Definition default_host_info : HostInfo := mkHostInfo "" "" "" [] [] [] None None None host_rest_default.

Definition with_routable_ips (h : HostInfo) (routes : list string) : HostInfo :=
  mkHostInfo (hi_hostname h) (hi_os h) (hi_os_version h) routes (hi_ssh_host_keys h) (hi_services h) (hi_location h) (hi_app_connector h) (hi_net_info h) (hi_rest h).

Definition register_hostinfo_parts (body : RegisterRequest) : result RegisterHostInfoParts netip_error :=
  let? available_routes := match rr_hostinfo body with Some h => collect_routes (hi_routable_ips h) | None => Ok [] end in
  let h := with_routable_ips (default default_host_info (rr_hostinfo body)) available_routes in
  Ok (mkParts h (hi_hostname h) (hi_os h) (hi_os_version h) available_routes (hi_ssh_host_keys h)).

Definition preserve_net_info_from_existing (h : HostInfo) (existing : option MachineRecord) : HostInfo :=
  match hi_net_info h with Some _ => h | None => with_net_info h (existing ≫= fun e => hi_net_info (host_info_for_node e)) end.

Definition requested_tags_for_body (body : RegisterRequest) : list string := match rr_hostinfo body with Some h => rest_request_tags (hi_rest h) | None => [] end.

Definition configured_node_expiry (nanos now : Z) : option Z := if nanos <=? 0 then None else Some (if now + nanos <=? MAX_UTC then now + nanos else MAX_UTC).

Definition effective_register_expiry (expiry default_expiry : option Z) : option Z :=
  match expiry with Some t => if is_go_zero_expiry t then default_expiry else Some t | None => default_expiry end.

(** ** The registered record *)

Definition registered_tags (existing : option MachineRecord) (redeemed : RedeemOk) : list string :=
  match existing with
  | None => ro_tags redeemed
  | Some e =>
      if negb (is_nil (ro_tags redeemed)) &&
         (negb (is_tagged e) || match ro_auth_key_id redeemed with Some id => negb (bool_decide (re_auth_key_id (mr_reported e) = Some id)) | None => false end)
      then ro_tags redeemed else mr_forced_tags e
  end.

Definition registered_owner (existing : option MachineRecord) (redeemed : RedeemOk) (tags : list string) : Owner :=
  let old := match existing with Some e => mr_owner e | None => no_owner end in
  mkOwner (if is_nil tags then ro_user redeemed else ""%string)
    (if is_nil tags then match ro_user_id redeemed with Some id => Some id | None => ow_user_id old end else None)
    (ow_display_name old) (ow_profile_pic_url old) (ow_provider old) (ow_created_at old).

Definition registered_expiry (sr : Surroundings) (body : RegisterRequest) (existing : option MachineRecord) (tags : list string) : option Z :=
  let now := at_record (sr_clock sr) in
  if is_nil tags then effective_register_expiry (rr_expiry body) (configured_node_expiry (sr_node_expiry sr) now)
  else match existing ≫= mr_expiry with Some t => if now <=? t then Some t else None | None => None end.

(** Of the reported state a known node keeps the disco key, the endpoints and, where the
    request has none, the network report. *)
Definition registered_report (sr : Surroundings) (parts : RegisterHostInfoParts) (redeemed : RedeemOk) (existing : option MachineRecord) : @Reported HostInfo :=
  let old := mr_reported <$> existing in
  let h := preserve_net_info_from_existing (pt_host_info parts) existing in
  let home_derp := match hi_net_info h with Some n => preferred_derp n | None => match old with Some o => re_home_derp o | None => 0 end end in
  mkReported (match ro_auth_key_id redeemed with Some id => Some id | None => old ≫= re_auth_key_id end) (pt_hostname parts) (pt_os parts) (pt_os_version parts) h
    (old ≫= re_disco_key) (match old with Some o => re_endpoints o | None => [] end) home_derp
    (match old with Some o => re_created_at o | None => at_record (sr_clock sr) end) (pt_ssh_host_keys parts) 1.

Definition registered_record (sr : Surroundings) (node_key machine_key : string) (body : RegisterRequest) (parts : RegisterHostInfoParts) (redeemed : RedeemOk)
    (existing : option (string * MachineRecord)) (ips : option Z * option Z) : MachineRecord :=
  let old := snd <$> existing in
  let tags := registered_tags old redeemed in
  let rec := mkRecord ((fun kv => stable_node_id_for_key kv.1 kv.2) <$> existing) node_key machine_key (registered_owner old redeemed tags)
               (match old with Some e => mr_hostname e | None => of_chars (sanitize_hostname_for_given_name (to_chars (pt_hostname parts))) end)
               ips.1 ips.2 (registered_expiry sr body old tags) (at_record (sr_clock sr)) (ro_ephemeral redeemed) tags (pt_available_routes parts)
               (match old with Some e => mr_approved_routes e | None => [] end) (registered_report sr parts redeemed old) in
  if is_tagged rec then clear_user_identity rec else rec.

(** ** The commit *)

Definition auth_completion_active_approved_routes_changed (existing : option MachineRecord) (rec : MachineRecord) : bool :=
  let active r := sort_by str_cmp (List.filter (fun route => bool_decide (route ∈ mr_approved_routes r)) (mr_available_routes r)) in
  match existing with Some existing => negb (bool_decide (active existing = active rec)) | None => negb (is_nil (active rec)) end.

Definition auth_completion_map_change_reason (now : Z) (existing : option MachineRecord) (rec : MachineRecord) (policy_changed : option bool) : MapChangeReason :=
  let local := match existing with Some e => policy_identity_without_routes_changed e rec || auth_completion_active_approved_routes_changed (Some e) rec | None => true end in
  if default local policy_changed then PolicyChange
  else match existing with
       | None => NodeAdded
       | Some e =>
           if bool_decide (is_expired_at now e = is_expired_at now rec) && bool_decide (mr_hostname e = mr_hostname rec) && peer_hostinfo_equal (host_info_for_node e) (host_info_for_node rec)
           then NodeKeyRotated else NodeAdded
       end.

Definition auth_completion_pending_change (reason : MapChangeReason) (n : Z) : PendingMapChange :=
  match reason with PolicyChange => pending_global PolicyChange | reason => pending_origin reason n end.

(** The old record of a registration may be replaced by the new one. *)
Definition continues_record (old record : MachineRecord) (old_id : Z) : bool :=
  bool_decide (mr_machine_key_hex old = mr_machine_key_hex record) && bool_decide (re_created_at (mr_reported old) = re_created_at (mr_reported record)) &&
  match mr_node_id record with Some id => id =? old_id | None => true end.

(** The new key is free, or names the node that is replaced. *)
Definition key_available (records : Records) (new_key : string) (record : MachineRecord) (old_id : option Z) : bool :=
  match records !! new_key with
  | None => true
  | Some target => bool_decide (mr_machine_key_hex target = mr_machine_key_hex record) && bool_decide (Some (stable_node_id_for_key new_key target) = old_id)
  end.

(** The name: kept, or the first free one derived from the host's. *)
Definition registered_name (records : Records) (new_key : string) (previous : option string) (existing : option MachineRecord) (record : MachineRecord) : string :=
  match existing with
  | Some old => mr_hostname old
  | None => match resolve_auto_given_name_from_snapshot (names_of records) new_key previous (to_chars (re_raw_hostname (mr_reported record))) with
            | Some name => of_chars name
            | None => mr_hostname record
            end
  end.

Definition commit_changes (now : Z) (hostinfo_of : MachineRecord -> RawHostinfo) (existing : option MachineRecord) (record : MachineRecord) (n : Z) (hostinfo : option RawHostinfo)
    : list PendingMapChange :=
  let reason := auth_completion_map_change_reason now existing record (Some false) in
  match existing, hostinfo with
  | Some old, Some next =>
      if bool_decide (reason = NodeKeyRotated) && negb (raw_peer_hostinfo_equal (hostinfo_of old) next) then [pending_origin NodeAdded n]
      else [auth_completion_pending_change reason n]
  | _, _ => [auth_completion_pending_change reason n]
  end.

Definition volatile_auth_registration_commit (now : Z) (hostinfo_of : MachineRecord -> RawHostinfo) (previous : option string) (record : MachineRecord) (hostinfo : option RawHostinfo)
    : BoolUpdate := fun records t =>
  let new_key := mr_node_key_hex record in
  let refused := (records, t, unchanged false, Nothing) in
  match previous, previous ≫= (fun key => records !! key) with
  | Some _, None => refused
  | _, existing =>
      let old_id := match previous, existing with Some key, Some old => Some (stable_node_id_for_key key old) | _, _ => None end in
      let fits := match existing, old_id with Some old, Some id => continues_record old record id | _, _ => true end in
      if negb fits then refused
      else
        let record := match old_id with Some _ => with_node_id record old_id | None => record end in
        if negb (key_available records new_key record old_id) then refused
        else
          let n := stable_node_id_for_key new_key record in
          let record := with_node_id (with_hostname record (registered_name records new_key previous existing record)) (Some n) in
          let next := match previous with Some key => rekeyed key new_key record records | None => <[new_key := record]> records end in
          (next, t, quiet_at n, GotRegistration record (commit_changes now hostinfo_of existing record n hostinfo)
                                  (bool_decide (auth_completion_map_change_reason now existing record None = PolicyChange)))
  end.

Definition finish_volatile_auth_registration (a : PolicyAnswer) (outcome : NodeStoreBoolUpdateOutcome) (captured : @Captured HostInfo) (published_key : string) (g : MachineRegistry)
    : result MachineRecord RegisterError * MachineRegistry :=
  if negb (bo_applied outcome) then (Err KeyExists, g)
  else match captured with
       | GotRegistration record changes local =>
           if node_key_still_maps_to_node_id (rg_records g) published_key (stable_node_id_for_key published_key record) then
             match pa_refresh a with
             | Err e => (Err (PolicyFailed e), g)
             | Ok changed => (Ok record, wake_waiters (pa_attrs a) (if default local changed then [pending_global PolicyChange] else changes) g)
             end
           else (Ok record, g)
       | _ => (Err Interrupted, g)
       end.

Definition commit_volatile_auth_registration (now : Z) (a : PolicyAnswer) (hostinfo_of : MachineRecord -> RawHostinfo) (previous : option string) (record : MachineRecord)
    (hostinfo : option RawHostinfo) (g : MachineRegistry) : result MachineRecord RegisterError * MachineRegistry :=
  let '(outcome, captured, g) := apply_nodestore_bool_update [] (volatile_auth_registration_commit now hostinfo_of previous record hostinfo) g in
  finish_volatile_auth_registration a outcome captured (mr_node_key_hex record) g.

Definition auto_approve_registered_routes (a : PolicyAnswer) (approves : string -> bool -> bool) (record : MachineRecord) (g : MachineRegistry) : result unit string * MachineRegistry :=
  match auto_approved_routes_for_node approves (negb (is_nil (address_strings record))) (mr_approved_routes record) (mr_available_routes record) with
  | Err e => (Err e, g)
  | Ok approved =>
      if bool_decide (approved = mr_approved_routes record) then (Ok tt, g)
      else
        let n := stable_node_id_for_key (mr_node_key_hex record) record in
        match apply_policy_route_approvals [(n, approved)] g with
        | ([], g) => (Err ("node no longer exists in NodeStore: " +:+ show_dec n), g)
        | (_, g) => match pa_refresh a with Err e => (Err e, g) | Ok _ => (Ok tt, wake_policy_change (pa_attrs a) None g) end
        end
  end.

(** ** The handlers *)

(** The credential: that of a node that is still allowed in is not consumed. *)
Definition credential (sr : Surroundings) (s : WireState) (node_key machine_key auth_key : string) : result RedeemOk RegisterError * P :=
  let p := ws_preauth s in
  match lookup_for_registration p auth_key with
  | Err e => (Err (BadCredential e), p)
  | Ok None => let '(r, p) := redeem_for_registration (at_check (sr_clock sr)) p auth_key in (map_err BadCredential r, p)
  | Ok (Some key) =>
      match existing_machine_for_preauth (rg_records (ws_machines s)) machine_key (ro_user key) (ro_user_id key) (negb (is_nil (ro_tags key))) with
      | Err e => (Err e, p)
      | Ok found =>
          if match found with Some (current_key, current) => bool_decide (current_key = node_key) && existing_node_can_refresh_with_key current key (at_check (sr_clock sr)) | None => false end
          then (Ok key, p)
          else let '(r, p) := redeem_for_registration (at_check (sr_clock sr)) p auth_key in (map_err BadCredential r, p)
      end
  end.

(** The addresses of a known node, or new ones. *)
Definition registration_addresses (sr : Surroundings) (existing : option (string * MachineRecord)) (g : MachineRegistry) : result (option Z * option Z) RegisterError * MachineRegistry :=
  match existing with
  | Some (_, e) => (Ok (mr_ipv4 e, mr_ipv6 e), g)
  | None => let '(r, g) := allocate_registration_addresses (sr_draws4 sr) (sr_draws6 sr) g in (map_err NoAddress r, g)
  end.

Definition commit_answer (e : RegisterError) : Answer := match e with PolicyFailed _ => ServerError e | _ => BadRequest e end.

(** From an accepted credential to the answer. *)
Definition register_redeemed (sr : Surroundings) (node_key machine_key : string) (body : RegisterRequest) (redeemed : RedeemOk) (g : MachineRegistry) : Answer * MachineRegistry :=
  match register_hostinfo_parts body with
  | Err e => (BadRequest (BadRoutes e), g)
  | Ok parts =>
      match existing_machine_for_preauth (rg_records g) machine_key (ro_user redeemed) (ro_user_id redeemed) (negb (is_nil (ro_tags redeemed))) with
      | Err e => (register_error_response e, g)
      | Ok existing =>
          if match existing with None => negb (is_nil (requested_tags_for_body body)) | Some _ => false end
          then (register_error_response (BadTags (requested_tags_for_body body)), g)
          else if negb (validate_registration_node_key (rg_records g) node_key machine_key) then (register_error_response NodeKeyInUse, g)
          else
            let '(ips, g) := registration_addresses sr existing g in
            match ips with
            | Err e => (register_error_response e, g)
            | Ok ips =>
                let rec := registered_record sr node_key machine_key body parts redeemed existing ips in
                match sr_registration_value sr (rr_raw_hostinfo body) (host_info_for_node rec) (sr_hostinfo_of sr ∘ snd <$> existing) with
                | Err e => (register_error_response (BadHostinfo e), g)
                | Ok value =>
                    let '(r, g) := commit_volatile_auth_registration (at_change (sr_clock sr)) (sr_refresh sr) (sr_hostinfo_of sr) (fst <$> existing) rec (Some value) g in
                    match r with
                    | Err e => (commit_answer e, g)
                    | Ok record =>
                        let '(approved, g) := auto_approve_registered_routes (sr_refresh_approved sr) (sr_approves sr record) record g in
                        (match approved with Err e => register_error_response (ApprovalFailed e) | Ok _ => register_response_for_live_record sr record end, g)
                    end
                end
            end
      end
  end.

Definition register_auth_key (sr : Surroundings) (s : WireState) (node_key machine_key : string) (body : RegisterRequest) : Answer * WireState :=
  let '(r, p) := credential sr s node_key machine_key (default ""%string (rr_auth body)) in
  let s := set_preauth s p in
  match r with
  | Err e => (register_error_response e, s)
  | Ok redeemed => let '(answer, g) := register_redeemed sr node_key machine_key body redeemed (ws_machines s) in (answer, set_machines s g)
  end.

Definition register_interactive (sr : Surroundings) (s : WireState) (node_key machine_key : string) (body : RegisterRequest) : Answer * WireState :=
  match register_hostinfo_parts body with
  | Err e => (BadRequest (BadRoutes e), s)
  | Ok parts =>
      let now := at_record (sr_clock sr) in
      let tags := requested_tags_for_body body in
      let expiry := match tags, rr_expiry body with [], Some t => if is_go_zero_expiry t then None else Some t | _, _ => None end in
      let home_derp := hostinfo_preferred_derp (pt_host_info parts) in
      let record := mkRecord None node_key machine_key no_owner (pt_hostname parts) None None expiry now (rr_ephemeral body) tags (pt_available_routes parts) []
                      (mkReported None (pt_hostname parts) (pt_os parts) (pt_os_version parts) (pt_host_info parts) None [] home_derp now (pt_ssh_host_keys parts) 0) in
      (Json (mkResponse empty_simple_user empty_simple_login false (auth_url_for_registration (sr_control_url sr) (sr_fresh_id sr)) false None),
       mkWire (ws_machines s) (insert_from_source now (ws_cache s) (sr_fresh_id sr) record (Some (rr_raw_hostinfo body)) (Some (default SourceUnknown (sr_source sr)))) (ws_preauth s))
  end.

Definition logout_existing_node (sr : Surroundings) (node_key : string) (original : MachineRecord) (expiry : Z) (g : MachineRegistry) : Answer * MachineRegistry :=
  match rg_records g !! node_key with
  | None => (node_key_expired_response, g)
  | Some record =>
      if negb (bool_decide (mr_machine_key_hex record = mr_machine_key_hex original)) then (register_error_response LogoutOfAnotherMachine, g)
      else if is_expired_at (at_check (sr_clock sr)) record then (node_key_expired_response, g)
      else if is_tagged record && negb (mr_ephemeral record) then (register_response_for_live_record sr record, g)
      else if mr_ephemeral record then
        let '(r, g) := try_delete (sr_refresh sr) node_key g in
        (match r with Err e => register_error_response (LogoutDeletion e) | Ok _ => node_key_expired_response end, g)
      else
        let n := stable_node_id_for_key node_key record in
        let expiry := Z.max expiry (at_record (sr_clock sr)) in
        match set_node_expiry_quiet (at_change (sr_clock sr)) n (Some expiry) g with
        | (None, g) => (register_error_response (LogoutGone n), g)
        | (Some (updated, online_changed), g) =>
            match pa_refresh (sr_refresh sr) with
            | Err e => (register_error_response (LogoutPolicy e), g)
            | Ok changed =>
                (register_response_for_live_record sr updated,
                 wake_node_expiry_change (pa_attrs (sr_refresh sr)) (sr_relay sr) n (bool_decide (changed = Some true)) online_changed g)
            end
        end
  end.

(** An expiry in the past asks for a logout. *)
Definition past_expiry (now : Z) (body : RegisterRequest) : option Z :=
  match rr_expiry body with Some t => if negb (is_go_zero_expiry t) && (t <? now) then Some t else None | None => None end.

Definition auth_key_of (body : RegisterRequest) : string := default ""%string (rr_auth body).

Definition is_logout_attempt (now : Z) (body : RegisterRequest) : bool := bool_decide (auth_key_of body = ""%string) && bool_decide (is_Some (past_expiry now body)).

Definition reported_hostname (body : RegisterRequest) : option string :=
  match rr_hostinfo body with Some h => if bool_decide (hi_hostname h = ""%string) then None else Some (hi_hostname h) | None => None end.

Definition admitted (sr : Surroundings) (node_key machine_key : string) (body : RegisterRequest) : result unit string :=
  if is_logout_attempt (at_start (sr_clock sr)) body then Ok tt
  else match sr_gate sr with Some gate => gate node_key machine_key (reported_hostname body) | None => Ok tt end.

(** The answer to a client that presents nothing but a known key. *)
Definition known_node_answer (sr : Surroundings) (machine_key : string) (body : RegisterRequest) (record : MachineRecord) : option Answer :=
  let now := at_start (sr_clock sr) in
  if negb (bool_decide (mr_machine_key_hex record = machine_key)) then Some (register_error_response NodeOfAnotherMachine)
  else if is_expired_at now record then Some node_key_expired_response
  else match rr_expiry body with
       | None => Some (register_response_for_live_record sr record)
       | Some t => if is_go_zero_expiry t then Some (register_response_for_live_record sr record) else if now <? t then Some (register_error_response ExtendingKey) else None
       end.

Definition register_followup (sr : Surroundings) (s : WireState) (node_key machine_key : string) (body : RegisterRequest) (followup : string) : Answer * WireState :=
  match registration_id_from_followup (sr_legacy_colons sr) followup with
  | Err e => (register_error_response (BadFollowup e), s)
  | Ok id =>
      match match id with Some _ => sr_wait sr | None => Some WaitMissing end with
      | None => (register_error_response TimedOut, s)
      | Some (WaitRegistered record) =>
          (if bool_decide (mr_machine_key_hex record = machine_key) then register_response_for_live_record sr record else register_error_response NodeOfAnotherMachine, s)
      | Some _ => register_interactive sr s node_key machine_key body
      end
  end.

Definition register_admitted (sr : Surroundings) (s : WireState) (node_key machine_key : string) (body : RegisterRequest) : Answer * WireState :=
  match match rr_auth body, rg_records (ws_machines s) !! node_key with None, Some record => known_node_answer sr machine_key body record | _, _ => None end with
  | Some answer => (answer, s)
  | None =>
      match rr_followup body with
      | Some (String _ _ as followup) => register_followup sr s node_key machine_key body followup
      | _ => if bool_decide (auth_key_of body = ""%string) then register_interactive sr s node_key machine_key body else register_auth_key sr s node_key machine_key body
      end
  end.

Definition register_inner_with_hostinfo (sr : Surroundings) (s : WireState) (node_key machine_key : string) (body : RegisterRequest) : Answer * WireState :=
  let now := at_start (sr_clock sr) in
  match past_expiry now body, rg_records (ws_machines s) !! node_key with
  | Some expiry, Some record =>
      if negb (bool_decide (mr_machine_key_hex record = machine_key)) then (register_error_response LogoutOfAnotherMachine, s)
      else if is_expired_at now record then (node_key_expired_response, s)
      else let '(answer, g) := logout_existing_node sr node_key record expiry (ws_machines s) in (answer, set_machines s g)
  | _, _ =>
      match admitted sr node_key machine_key body with
      | Err reason => (register_error_response (GateRefused reason), s)
      | Ok _ => register_admitted sr s node_key machine_key body
      end
  end.

Definition node_key_of (text : string) : string := default text (strip_key_prefix text).

(** [path] is the key of the URL, for the older route that has one. *)
Definition handle_register (sr : Surroundings) (s : WireState) (machine_key : option string) (path : option string) (body : RegisterRequest) : Answer * WireState :=
  match machine_key with
  | Some (String _ _ as machine_key) =>
      if rr_version body <? MIN_SUPPORTED_CAPABILITY_VERSION then (BadRequest (UnsupportedClient (rr_version body)), s)
      else if match path with Some path => negb (bool_decide (node_key_of path = node_key_of (rr_node_key body))) | None => false end then (BadRequest PathMismatch, s)
      else register_inner_with_hostinfo sr s (node_key_of (rr_node_key body)) machine_key body
  | _ => (Unauthorized, s)
  end.

(** ** What a request may do to the records *)

Notation node_id_at := stable_node_id_for_key.

Definition ids_distinct (records : Records) : Prop := forall k1 k2 r1 r2, records !! k1 = Some r1 -> records !! k2 = Some r2 -> node_id_at k1 r1 = node_id_at k2 r2 -> k1 = k2.
Definition names_distinct (records : Records) : Prop := forall k1 k2 r1 r2, records !! k1 = Some r1 -> records !! k2 = Some r2 -> mr_hostname r1 = mr_hostname r2 -> k1 = k2.

(** The id derived from a key is no other node's. *)
Definition id_unused (key : string) (records : Records) : Prop := forall k r, records !! k = Some r -> k <> key -> node_id_at k r <> stable_id_from_key key.

(** A record of a machine after a change that is not a new identity. *)
Record revises (m key : string) (r r' : MachineRecord) : Prop := mkRevises {
  rv_before : mr_machine_key_hex r = m;
  rv_after : mr_machine_key_hex r' = m;
  rv_name : mr_hostname r' = mr_hostname r;
  rv_id : node_id_at key r' = node_id_at key r;
}.

(** The changes of one request of machine [m] for the node key [k]. *)
Inductive change (m k : string) (records : Records) : Records -> Prop :=
| no_change : change m k records records
| removed key r : records !! key = Some r -> mr_machine_key_hex r = m -> change m k records (delete key records)
| revised key r r' : records !! key = Some r -> revises m key r r' -> change m k records (<[key := r']> records)
| joined r' : records !! k = None -> mr_machine_key_hex r' = m -> node_id_at k r' = stable_id_from_key k ->
    (Z.of_nat (size records) < 2 ^ 31 - 1 -> forall k1 r1, records !! k1 = Some r1 -> mr_hostname r1 <> mr_hostname r') -> change m k records (<[k := r']> records)
| replaced key old r' : records !! key = Some old -> mr_machine_key_hex old = m -> mr_machine_key_hex r' = m -> mr_hostname r' = mr_hostname old -> node_id_at k r' = node_id_at key old ->
    (forall target, records !! k = Some target -> mr_machine_key_hex target = m /\ node_id_at k target = node_id_at key old) -> change m k records (rekeyed key k r' records).

(** Nothing but records of this machine is touched. *)
Definition only_touches (m : string) (records records' : Records) : Prop :=
  forall key, records' !! key = records !! key \/
    ((forall r, records !! key = Some r -> mr_machine_key_hex r = m) /\ (forall r, records' !! key = Some r -> mr_machine_key_hex r = m)).

Lemma only_touches_refl m records : only_touches m records records.
Proof. intros key. by left. Qed.

Lemma only_touches_trans m a b c : only_touches m a b -> only_touches m b c -> only_touches m a c.
Proof.
  intros Hab Hbc key. destruct (Hab key) as [E|[HA HB]], (Hbc key) as [E'|[HC HD]].
  - left. congruence.
  - right. split; [by rewrite <-E|done].
  - right. split; [done|by rewrite E'].
  - by right.
Qed.

Lemma rekeyed_lookup (records : Records) key k r' k1 r1 :
  rekeyed key k r' records !! k1 = Some r1 <-> (k1 = k /\ r1 = r') \/ (k1 <> k /\ k1 <> key /\ records !! k1 = Some r1).
Proof.
  unfold rekeyed. rewrite lookup_insert_Some. destruct (bool_decide_reflect (key = k)) as [-> |Hne].
  - naive_solver.
  - rewrite lookup_delete_Some. naive_solver.
Qed.

Lemma change_touches m k records records' : change m k records records' -> only_touches m records records'.
Proof.
  destruct 1 as [|key r Hr Hm|key r r' Hr [Hb Ha _ _]|r' Hk Hm|key old r' Ho Hom Hm _ _ Ht]; intros k1; [by left|..].
  - destruct (decide (k1 = key)) as [-> |]; [|left; by rewrite lookup_delete_ne]. right. rewrite lookup_delete_eq. split; congruence.
  - destruct (decide (k1 = key)) as [-> |]; [|left; by rewrite lookup_insert_ne]. right. rewrite lookup_insert_eq. split; congruence.
  - destruct (decide (k1 = k)) as [-> |]; [|left; by rewrite lookup_insert_ne]. right. rewrite lookup_insert_eq. split; congruence.
  - destruct (decide (k1 = k)) as [-> |Hk]; [right; split; [by intros r [? _]%Ht|]|destruct (decide (k1 = key)) as [-> |Hkey]; [right; split; [congruence|]|left]].
    + intros r [[_ ->]|[? _]]%rekeyed_lookup; done.
    + intros r [[? _]|(_ & ? & _)]%rekeyed_lookup; done.
    + apply option_eq. intros r. rewrite rekeyed_lookup. naive_solver.
Qed.

Lemma insert_distinct {A} (f : string -> MachineRecord -> A) (records : Records) key r' :
  (forall k r, k <> key -> records !! k = Some r -> f k r <> f key r') -> (forall k1 k2 r1 r2, records !! k1 = Some r1 -> records !! k2 = Some r2 -> f k1 r1 = f k2 r2 -> k1 = k2) ->
  forall k1 k2 r1 r2, <[key := r']> records !! k1 = Some r1 -> <[key := r']> records !! k2 = Some r2 -> f k1 r1 = f k2 r2 -> k1 = k2.
Proof.
  intros Hfree Hu k1 k2 r1 r2 [[<- <-]|[Hn1 HA]]%lookup_insert_Some [[<- <-]|[Hn2 HB]]%lookup_insert_Some E; [done|..].
  - exfalso. by apply (Hfree k2 r2 (not_eq_sym Hn2) HB).
  - exfalso. by apply (Hfree k1 r1 (not_eq_sym Hn1) HA).
  - by eapply Hu.
Qed.

(** What a change keeps distinct: any field it keeps and gives a new node anew. *)
Lemma change_distinct {A} (f : string -> MachineRecord -> A) m k records records' :
  (forall key r r', revises m key r r' -> f key r' = f key r) ->
  (forall key old r', mr_hostname r' = mr_hostname old -> node_id_at k r' = node_id_at key old -> f k r' = f key old) ->
  (forall r', records !! k = None -> node_id_at k r' = stable_id_from_key k ->
     (Z.of_nat (size records) < 2 ^ 31 - 1 -> forall k1 r1, records !! k1 = Some r1 -> mr_hostname r1 <> mr_hostname r') ->
     forall k1 r1, records !! k1 = Some r1 -> f k1 r1 <> f k r') ->
  (forall k1 k2 r1 r2, records !! k1 = Some r1 -> records !! k2 = Some r2 -> f k1 r1 = f k2 r2 -> k1 = k2) -> change m k records records' ->
  forall k1 k2 r1 r2, records' !! k1 = Some r1 -> records' !! k2 = Some r2 -> f k1 r1 = f k2 r2 -> k1 = k2.
Proof.
  intros Hrev Hrep Hnew Hu Hc. destruct Hc as [|key r Hr Hm|key r r' Hr Hv|r' Hk Hm Hid Hname|key old r' Ho Hom Hm Hname Hid Ht].
  - done.
  - intros k1 k2 r1 r2 [_ HA]%lookup_delete_Some [_ HB]%lookup_delete_Some. by apply Hu.
  - apply insert_distinct; [|done]. intros k1 r1 Hk1 HA E. rewrite (Hrev key r r' Hv) in E. by apply Hk1, (Hu _ _ _ _ HA Hr).
  - apply insert_distinct; [|done]. intros k1 r1 _ HA. apply (Hnew r' Hk Hid Hname k1 r1 HA).
  - pose proof (Hrep key old r' Hname Hid) as E. unfold rekeyed. apply insert_distinct.
    + intros k1 r1 Hk1 HA. rewrite E. intros E1. destruct (bool_decide_reflect (key = k)) as [-> |Hne].
      * by apply Hk1, (Hu _ _ _ _ HA Ho).
      * apply lookup_delete_Some in HA as [Hk2 HA]. by apply Hk2, eq_sym, (Hu _ _ _ _ HA Ho).
    + destruct (bool_decide (key = k)); [done|]. intros k1 k2 r1 r2 [_ HA]%lookup_delete_Some [_ HB]%lookup_delete_Some. by apply Hu.
Qed.

Lemma ids_stay_distinct m k records records' : id_unused k records -> ids_distinct records -> change m k records records' -> ids_distinct records'.
Proof.
  intros Hun Hu Hc. unfold ids_distinct. eapply (change_distinct node_id_at m k records); [| | |exact Hu|exact Hc].
  - by intros key r r' [].
  - done.
  - intros r' Hk -> _ k1 r1 HA. apply (Hun k1 r1 HA). congruence.
Qed.

Lemma names_stay_distinct m k records records' :
  (records !! k = None -> Z.of_nat (size records) < 2 ^ 31 - 1) -> names_distinct records -> change m k records records' -> names_distinct records'.
Proof.
  intros Hsize Hu Hc. unfold names_distinct. eapply (change_distinct (fun _ r => mr_hostname r) m k records); [| | |exact Hu|exact Hc].
  - by intros key r r' [].
  - done.
  - intros r' Hk _ Hname. by apply Hname, Hsize.
Qed.

(** ** The steps are changes *)

Lemma bool_update_store attrs (u : BoolUpdate) (g : MachineRegistry) :
  let '(next, t, outcome, captured) := u (rg_records g) (rg_tables g) in
  exists g', apply_nodestore_bool_update attrs u g = (outcome, captured, g') /\ rg_records g' = (if bo_publish_snapshot outcome then next else rg_records g) /\ rg_allocator g' = rg_allocator g.
Proof.
  unfold apply_nodestore_bool_update, apply_nodestore_bool_update_direct. destruct (u _ _) as [[[next t] outcome] captured]. destruct (bo_publish_snapshot outcome), (bo_change outcome); by eexists.
Qed.

Lemma registered_name_fresh records k existing (record : MachineRecord) :
  existing = None -> records !! k = None -> Z.of_nat (size records) < 2 ^ 31 - 1 -> forall k1 r1, records !! k1 = Some r1 -> mr_hostname r1 <> registered_name records k None existing record.
Proof.
  intros -> Hk Hsize k1 r1 HA E. unfold registered_name in E. destruct (resolve_spec (names_of records) k None (to_chars (re_raw_hostname (mr_reported record)))) as (i & _ & Ei & Hfree & _).
  { unfold names_of. by rewrite map_size_fmap. }
  rewrite Ei in E. apply Bool.not_true_iff_false in Hfree. apply Hfree, name_taken_true. exists k1. split_and!; [congruence|done|].
  unfold names_of. rewrite lookup_fmap, HA. cbn. rewrite E. unfold to_chars, of_chars. by rewrite String.list_ascii_of_string_of_list_ascii.
Qed.

(** The commit: refused, and nothing changes, or the record is the one asked for with the
    identity it continues or a new one. *)
Lemma commit_spec now hostinfo_of previous record hostinfo (records : Records) t :
  let '(next, t', outcome, captured) := volatile_auth_registration_commit now hostinfo_of previous record hostinfo records t in
  (outcome = unchanged false /\ next = records) \/
  exists n name changes local, outcome = quiet_at n /\ captured = GotRegistration (with_node_id (with_hostname record name) (Some n)) changes local /\
  let record' := with_node_id (with_hostname record name) (Some n) in
  match previous with
  | None => records !! mr_node_key_hex record = None /\ n = node_id_at (mr_node_key_hex record) record /\ name = registered_name records (mr_node_key_hex record) None None record /\
            next = <[mr_node_key_hex record := record']> records
  | Some key => exists old, records !! key = Some old /\ mr_machine_key_hex old = mr_machine_key_hex record /\ n = node_id_at key old /\ name = mr_hostname old /\
                next = rekeyed key (mr_node_key_hex record) record' records /\
                forall target, records !! mr_node_key_hex record = Some target -> mr_machine_key_hex target = mr_machine_key_hex record /\ node_id_at (mr_node_key_hex record) target = n
  end.
Proof.
  unfold volatile_auth_registration_commit. destruct previous as [key|]; cbn [mbind option_bind].
  - destruct (records !! key) as [old|] eqn:Eo; [|by left]. destruct (continues_record old record (node_id_at key old)) eqn:Ec; [|by left]. cbn [negb].
    destruct (key_available _ _ _ _) eqn:Ea; [|by left]. cbn [negb]. right. eexists _, _, _, _. split; [done|]. split; [done|]. exists old. split; [done|].
    unfold continues_record in Ec. apply andb_true_iff in Ec as [[Em _]%andb_true_iff _]. apply bool_decide_eq_true in Em. split_and!; [done..|].
    intros target Et. unfold key_available in Ea. rewrite Et in Ea. apply andb_true_iff in Ea as [E1%bool_decide_eq_true E2%bool_decide_eq_true]. cbn in E1. by injection E2 as ->.
  - cbn [negb]. destruct (key_available _ _ _ _) eqn:Ea; [|by left]. cbn [negb]. right. eexists _, _, _, _. split; [done|]. split; [done|].
    unfold key_available in Ea. destruct (records !! mr_node_key_hex record) as [target|] eqn:Et; [|done]. by rewrite andb_comm in Ea.
Qed.

Lemma finish_registration_records a outcome captured key (g : MachineRegistry) :
  let '(r, g') := finish_volatile_auth_registration a outcome captured key g in
  rg_records g' = rg_records g /\ rg_allocator g' = rg_allocator g /\
  match r with
  | Ok record => bo_applied outcome = true /\ exists changes local, captured = GotRegistration record changes local
  | Err _ => True
  end.
Proof.
  unfold finish_volatile_auth_registration. destruct (bo_applied outcome); [|done]. cbn [negb]. destruct captured; try done. destruct (node_key_still_maps_to_node_id _ _ _); [|split_and!; eauto].
  destruct (pa_refresh a); split_and!; eauto.
Qed.

(** A commit is a change, and where it succeeds the record is in place. *)
Lemma commit_change m k now a hostinfo_of previous record hostinfo (g : MachineRegistry) :
  mr_machine_key_hex record = m -> mr_node_key_hex record = k -> (previous = None -> mr_node_id record = None) ->
  let '(r, g') := commit_volatile_auth_registration now a hostinfo_of previous record hostinfo g in
  change m k (rg_records g) (rg_records g') /\ rg_allocator g' = rg_allocator g /\
  match r with
  | Err _ => True
  | Ok record' => rg_records g' !! k = Some record' /\ exists n name, record' = with_node_id (with_hostname record name) (Some n) /\
      match previous with
      | None => rg_records g !! k = None /\ n = stable_id_from_key k /\ name = registered_name (rg_records g) k None None record /\ rg_records g' = <[k := record']> (rg_records g)
      | Some key => exists old, rg_records g !! key = Some old /\ n = node_id_at key old /\ name = mr_hostname old /\ rg_records g' = rekeyed key k record' (rg_records g)
      end
  end.
Proof.
  intros Hm Hk Hid. unfold commit_volatile_auth_registration. set (u := volatile_auth_registration_commit _ _ _ _ _). pose proof (commit_spec now hostinfo_of previous record hostinfo (rg_records g) (rg_tables g)) as Hs.
  pose proof (bool_update_store [] u g) as Hb. fold u in Hs. destruct (u (rg_records g) (rg_tables g)) as [[[next t'] outcome] captured]. destruct Hb as (g1 & -> & Hrec & Hall).
  pose proof (finish_registration_records a outcome captured (mr_node_key_hex record) g1) as Hf. destruct (finish_volatile_auth_registration _ _ _ _ _) as [r g']. destruct Hf as (Hrec' & Hall' & Hr).
  rewrite Hall', Hrec', Hrec. destruct Hs as [[-> ->]|(n & name & changes & local & -> & -> & Hs)].
  { split_and!; [constructor|done|]. destruct r; [|done]. by destruct Hr as [? _]. }
  cbn [quiet_at bo_publish_snapshot]. cbv zeta in Hs. set (record' := with_node_id (with_hostname record name) (Some n)) in *. rewrite Hk in Hs. split; [|split; [done|]].
  - destruct previous as [key|].
    + destruct Hs as (old & Eo & Em & En & Ename & -> & Ht). apply (replaced m k _ key old record'); try done; [congruence|]. intros target Et%Ht. destruct Et. split; congruence.
    + destruct Hs as (Ek & En & Ename & ->). apply joined; [done|done|cbn; rewrite En; unfold node_id_at; by rewrite Hid|]. cbn [record' with_node_id with_hostname mr_hostname]. rewrite Ename. by apply registered_name_fresh.
  - destruct r as [rec|]; [|done]. destruct Hr as (_ & changes' & local' & E). assert (rec = record') as -> by congruence. clear E. destruct previous as [key|].
    + destruct Hs as (old & Eo & Em & En & Ename & -> & Ht). split; [apply rekeyed_lookup; by left|]. exists n, name. split; [done|]. by exists old.
    + destruct Hs as (Ek & En & Ename & ->). split; [by rewrite lookup_insert_eq|]. exists n, name. split; [done|]. split_and!; try done. rewrite En. unfold node_id_at. by rewrite Hid.
Qed.

Lemma commit_approval_fold n routes (l : list (string * MachineRecord)) : forall next ids clear,
  let '(_, next', _, _) := fold_left approval_step l ({[n := routes]}, next, ids, clear) in
  next' = next \/ exists key r, (key, r) ∈ l /\ node_id_at key r = n /\ next' = <[key := with_approved_routes r routes]> next.
Proof.
  assert (forall (l : list (string * MachineRecord)) (next : Records) ids clear, fold_left approval_step l (∅ : gmap Z (list string), next, ids, clear) = (∅, next, ids, clear)) as Hdone.
  { clear l. induction l as [|kv l IH]; intros next ids clear; [done|]. cbn [fold_left approval_step]. rewrite lookup_empty. apply IH. }
  induction l as [|[key r] l IH]; intros next ids clear; cbn [fold_left]; [by left|]. unfold approval_step at 2. cbn [fst snd]. destruct (decide (node_id_at key r = n)) as [E|Hne].
  - rewrite E, lookup_singleton_eq, delete_singleton_eq, Hdone. right. exists key, r. split_and!; [by left|done..].
  - rewrite lookup_singleton_ne by done. specialize (IH next ids clear). destruct (fold_left _ _ _) as [[[? next'] ?] ?]. destruct IH as [?|(k1 & r1 & ? & ? & ?)]; [by left|right].
    exists k1, r1. split_and!; [by right|done..].
Qed.

(** Approving the routes of the record that was registered touches no other node, where
    ids are distinct. *)
Lemma approve_change m k a approves record (g : MachineRegistry) :
  ids_distinct (rg_records g) -> rg_records g !! k = Some record -> mr_machine_key_hex record = m -> mr_node_key_hex record = k ->
  let '(r, g') := auto_approve_registered_routes a approves record g in
  rg_allocator g' = rg_allocator g /\ exists approved, rg_records g' = <[k := with_approved_routes record approved]> (rg_records g).
Proof.
  intros Hu Hr Hm Hk. unfold auto_approve_registered_routes.
  assert (rg_records g = <[k := with_approved_routes record (mr_approved_routes record)]> (rg_records g)) as Hsame by (rewrite insert_id; [done|]; by destruct record).
  destruct (auto_approved_routes_for_node _ _ _ _) as [approved|e]; [|by eauto]. destruct (bool_decide (approved = _)); [by eauto|].
  unfold apply_policy_route_approvals, apply_nodestore_many_update, apply_nodestore_many_update_direct, approvals_update. rewrite Hk. cbn [rev app]. unfold list_to_map. cbn [foldr fst snd]. rewrite insert_empty.
  pose proof (commit_approval_fold (node_id_at k record) approved (map_to_list (rg_records g)) (rg_records g) [] []) as Hf. destruct (fold_left _ _ _) as [[[? next] ids] clear].
  cbn [mo_publish_snapshot mo_change mo_clear_unhealthy_route_states mo_final_presence_node_ids].
  assert (exists approved, next = <[k := with_approved_routes record approved]> (rg_records g)) as Hnext.
  { destruct Hf as [-> |(key & r & Hin%elem_of_map_to_list & Hid & ->)]; [by eauto|]. pose proof (Hu _ _ _ _ Hin Hr Hid) as ->. assert (r = record) as -> by congruence. by exists approved. }
  destruct (negb (is_nil (sort_by Z.compare ids))); destruct (sort_by Z.compare ids); try destruct (pa_refresh a); cbn; (split; [done|]); eauto.
Qed.

Lemma delete_change m k key a r (g : MachineRegistry) : rg_records g !! key = Some r -> mr_machine_key_hex r = m -> change m k (rg_records g) (rg_records (try_delete a key g).2).
Proof.
  intros Hr Hm. unfold try_delete, remove_node_quiet. rewrite Hr. unfold apply_nodestore_delete_direct. rewrite Hr. cbn [fmap option_fmap option_map].
  unfold finish_node_removal. destruct (pa_refresh a) as [[[]|]|]; cbn; by eapply removed.
Qed.

Lemma expiry_change m k key now n expiry r (g : MachineRegistry) :
  ids_distinct (rg_records g) -> rg_records g !! key = Some r -> mr_machine_key_hex r = m -> node_id_at key r = n ->
  change m k (rg_records g) (rg_records (set_node_expiry_quiet now n expiry g).2).
Proof.
  intros Hu Hr Hm Hid. unfold set_node_expiry_quiet. pose proof (bool_update_store [] (node_expiry_update n expiry now) g) as Hb. unfold node_expiry_update in Hb at 1.
  destruct (find_node (rg_records g) n) as [[k1 r1]|] eqn:Ef.
  - apply find_node_Some in Ef as [E1 Eid]. assert (k1 = key) as -> by (apply (Hu k1 key r1 r); congruence). assert (r1 = r) as -> by congruence.
    destruct (update_online_after_expiry _ _ _ _) as [changed st]. destruct Hb as (g' & -> & Hrec & _). cbn [snd]. rewrite Hrec. by eapply revised.
  - destruct Hb as (g' & -> & Hrec & _). cbn [snd]. rewrite Hrec. constructor.
Qed.

Lemma the_only_Some l kv : the_only l = Ok (Some kv) -> kv ∈ l.
Proof. destruct l as [|a [|b l]]; [done| |done]. intros [= ->]. by left. Qed.

Lemma existing_machine_found records m user user_id tagged key old :
  existing_machine_for_preauth records m user user_id tagged = Ok (Some (key, old)) -> records !! key = Some old /\ mr_machine_key_hex old = m.
Proof.
  unfold existing_machine_for_preauth. destruct (_ && _); [done|]. set (nodes := List.filter (of_machine m) (map_to_list records)).
  assert (forall l, sublist l nodes -> forall kv, the_only l = Ok (Some kv) -> records !! kv.1 = Some kv.2 /\ mr_machine_key_hex kv.2 = m) as Hin.
  { intros l Hl kv Hkv%the_only_Some. assert (kv ∈ nodes) as Hn by (eapply elem_of_sublist; eauto). unfold nodes in Hn. apply elem_of_filter_bool in Hn as [Hn Hm]. unfold of_machine in Hm. apply bool_decide_eq_true in Hm.
    split; [|done]. apply elem_of_map_to_list. by destruct kv. }
  set (owned := if _ : bool then _ else _). assert (sublist owned nodes) as Ho by (unfold owned; destruct (_ || _); [apply filter_sublist|apply sublist_nil_l]).
  destruct (the_only owned) as [[kv|]|e] eqn:E1; [|clear E1|done].
  { intros [= ->]. apply (Hin owned Ho (key, old) E1). }
  destruct (the_only (List.filter _ nodes)) as [[kv|]|e] eqn:E2; [|clear E2|done].
  { intros [= ->]. apply (Hin _ (filter_sublist _ _) (key, old) E2). }
  destruct (negb tagged || bool_decide (is_Some user_id)); [done|]. intros E. apply (Hin _ (filter_sublist _ _) (key, old) E).
Qed.

Lemma registered_record_keys sr k m body parts redeemed existing ips :
  let r := registered_record sr k m body parts redeemed existing ips in
  mr_machine_key_hex r = m /\ mr_node_key_hex r = k /\ mr_node_id r = ((fun kv => node_id_at kv.1 kv.2) <$> existing) /\ mr_ipv4 r = ips.1 /\ mr_ipv6 r = ips.2 /\
  mr_ephemeral r = ro_ephemeral redeemed /\ mr_forced_tags r = registered_tags (snd <$> existing) redeemed /\ mr_reported r = registered_report sr parts redeemed (snd <$> existing) /\
  (mr_forced_tags r <> [] -> mr_owner r = no_owner).
Proof.
  unfold registered_record. set (tags := registered_tags _ _). unfold is_tagged. cbn [mr_forced_tags]. destruct tags as [|t tags]; cbn; split_and!; done.
Qed.

Lemma registration_addresses_keep sr existing (g : MachineRegistry) : rg_records (registration_addresses sr existing g).2 = rg_records g.
Proof.
  unfold registration_addresses, allocate_registration_addresses. destruct existing as [[? ?]|]; [done|]. destruct (rg_allocator g ≫= _) as [[[[[] []]|] a]|]; done.
Qed.

(** An accepted credential: the registration is at most a commit and an approval. *)
Lemma register_redeemed_changes sr k m body redeemed (g : MachineRegistry) :
  ids_distinct (rg_records g) -> id_unused k (rg_records g) ->
  exists mid, change m k (rg_records g) mid /\ change m k mid (rg_records (register_redeemed sr k m body redeemed g).2).
Proof.
  intros Hu Hun. assert (exists mid, change m k (rg_records g) mid /\ change m k mid (rg_records g)) as Hnone by (exists (rg_records g); split; constructor).
  unfold register_redeemed. destruct (register_hostinfo_parts body) as [parts|]; [|exact Hnone]. destruct (existing_machine_for_preauth _ _ _ _ _) as [existing|] eqn:Ee; [|exact Hnone].
  destruct (match existing with None => _ | Some _ => _ end); [exact Hnone|]. destruct (negb (validate_registration_node_key _ _ _)); [exact Hnone|]. pose proof (registration_addresses_keep sr existing g) as Hk. destruct (registration_addresses sr existing g) as [[ips|] g1]; cbn [snd] in Hk; [|cbn [snd]; rewrite Hk; exact Hnone].
  set (rec := registered_record _ _ _ _ _ _ _ _). destruct (registered_record_keys sr k m body parts redeemed existing ips) as (Em & Ek & En & _). fold rec in Em, Ek, En.
  destruct (sr_registration_value _ _ _ _) as [value|]; [|cbn [snd]; rewrite Hk; exact Hnone].
  pose proof (commit_change m k (at_change (sr_clock sr)) (sr_refresh sr) (sr_hostinfo_of sr) (fst <$> existing) rec (Some value) g1 Em Ek) as Hc.
  destruct (commit_volatile_auth_registration _ _ _ _ _ _ _) as [[record|e] g2].
  - destruct Hc as (Hc & _ & Hr & n & name & Erec & _); [destruct existing; [done|by rewrite En]|]. rewrite Hk in Hc. exists (rg_records g2). split; [done|].
    pose proof (approve_change m k (sr_refresh_approved sr) (sr_approves sr record) record g2) as Ha. destruct (auto_approve_registered_routes _ _ _ _) as [approved g3]. cbn [snd].
    destruct Ha as [_ [routes ->]]; [by eapply ids_stay_distinct|done|by subst record|by subst record|]. eapply revised; [done|]. by subst record.
  - destruct Hc as (Hc & _ & _); [destruct existing; [done|by rewrite En]|]. rewrite Hk in Hc. exists (rg_records g2). split; [done|constructor].
Qed.

(** ** Whole requests *)

Notation records_of s := (rg_records (ws_machines s)).

Lemma register_interactive_machines sr s k m body : ws_machines (register_interactive sr s k m body).2 = ws_machines s.
Proof. unfold register_interactive. by destruct (register_hostinfo_parts body). Qed.

Lemma register_auth_key_machines sr s k m body :
  match (credential sr s k m (auth_key_of body)).1 with
  | Err _ => ws_machines (register_auth_key sr s k m body).2 = ws_machines s
  | Ok redeemed => ws_machines (register_auth_key sr s k m body).2 = (register_redeemed sr k m body redeemed (ws_machines s)).2
  end.
Proof. unfold register_auth_key, auth_key_of. destruct (credential _ _ _ _ _) as [[redeemed|e] p]; cbn; [|done]. by destruct (register_redeemed _ _ _ _ _ _). Qed.

(** Past the gate only an accepted credential changes the registry. *)
Lemma register_admitted_machines sr s k m body :
  ws_machines (register_admitted sr s k m body).2 = ws_machines s \/
  exists redeemed, auth_key_of body <> ""%string /\ (credential sr s k m (auth_key_of body)).1 = Ok redeemed /\
    ws_machines (register_admitted sr s k m body).2 = (register_redeemed sr k m body redeemed (ws_machines s)).2.
Proof.
  unfold register_admitted. destruct (match rr_auth body with None => _ | Some _ => _ end); [by left|].
  assert (forall (b : bool), (b = false -> auth_key_of body <> ""%string) ->
    let s' := (if b then register_interactive sr s k m body else register_auth_key sr s k m body).2 in
    ws_machines s' = ws_machines s \/ exists redeemed, auth_key_of body <> ""%string /\ (credential sr s k m (auth_key_of body)).1 = Ok redeemed /\
      ws_machines s' = (register_redeemed sr k m body redeemed (ws_machines s)).2) as Hlast.
  { intros [] Hb; cbn zeta; [left; apply register_interactive_machines|]. pose proof (register_auth_key_machines sr s k m body) as Ha. destruct (credential _ _ _ _ _).1 as [redeemed|]; [right|by left]. exists redeemed. auto. }
  destruct (rr_followup body) as [[|c f]|]; [| |]; [by apply Hlast; intros ?%bool_decide_eq_false| |by apply Hlast; intros ?%bool_decide_eq_false].
  left. unfold register_followup. destruct (registration_id_from_followup _) as [id|]; [|done]. destruct (match id with Some _ => _ | None => _ end) as [[r| | | |]|]; try done; apply register_interactive_machines.
Qed.

Lemma logout_change sr k m record expiry (g : MachineRegistry) :
  ids_distinct (rg_records g) -> rg_records g !! k = Some record -> mr_machine_key_hex record = m -> change m k (rg_records g) (rg_records (logout_existing_node sr k record expiry g).2).
Proof.
  intros Hu Hr Hm. unfold logout_existing_node. rewrite Hr. destruct (negb _); [constructor|]. destruct (is_expired_at _ _); [constructor|]. destruct (is_tagged record && _); [constructor|].
  destruct (mr_ephemeral record).
  - pose proof (delete_change m k k (sr_refresh sr) record g Hr Hm) as Hd. by destruct (try_delete _ _ _).
  - pose proof (expiry_change m k k (at_change (sr_clock sr)) (node_id_at k record) (Some (Z.max expiry (at_record (sr_clock sr)))) record g Hu Hr Hm eq_refl) as He.
    destruct (set_node_expiry_quiet _ _ _ _) as [[[updated online]|] g']; [|done]. by destruct (pa_refresh _).
Qed.

(** A request either logs its own node out, or it is admitted and its credential is
    accepted, or the registry stays as it is. *)
Inductive request_effect (sr : Surroundings) (s : WireState) (k m : string) (body : RegisterRequest) (s' : WireState) : Prop :=
| nothing_changes : ws_machines s' = ws_machines s -> request_effect sr s k m body s'
| logs_out expiry record : past_expiry (at_start (sr_clock sr)) body = Some expiry -> records_of s !! k = Some record -> mr_machine_key_hex record = m ->
    ws_machines s' = (logout_existing_node sr k record expiry (ws_machines s)).2 -> request_effect sr s k m body s'
| registers redeemed : admitted sr k m body = Ok tt -> auth_key_of body <> ""%string -> (credential sr s k m (auth_key_of body)).1 = Ok redeemed ->
    ws_machines s' = (register_redeemed sr k m body redeemed (ws_machines s)).2 -> request_effect sr s k m body s'.

Lemma register_inner_effect sr s k m body : request_effect sr s k m body (register_inner_with_hostinfo sr s k m body).2.
Proof.
  assert (request_effect sr s k m body (match admitted sr k m body with Err reason => (register_error_response (GateRefused reason), s) | Ok _ => register_admitted sr s k m body end).2) as Hin.
  { destruct (admitted sr k m body) as [[]|reason] eqn:Ea; [|by apply nothing_changes]. destruct (register_admitted_machines sr s k m body) as [E|(redeemed & ? & ? & ?)]; [by apply nothing_changes|by eapply registers]. }
  unfold register_inner_with_hostinfo. destruct (past_expiry _ _) as [expiry|] eqn:Ee; [|done]. destruct (records_of s !! k) as [record|] eqn:Er; [|done].
  destruct (bool_decide_reflect (mr_machine_key_hex record = m)) as [Em|]; cbn [negb]; [|by apply nothing_changes]. destruct (is_expired_at _ _); [by apply nothing_changes|].
  eapply (logs_out _ _ _ _ _ _ expiry record); [done..|]. by destruct (logout_existing_node _ _ _ _ _).
Qed.

Lemma handle_register_effect sr s machine_key path body :
  request_effect sr s (node_key_of (rr_node_key body)) (default ""%string machine_key) body (handle_register sr s machine_key path body).2.
Proof.
  unfold handle_register. destruct machine_key as [[|c m]|]; [by apply nothing_changes| |by apply nothing_changes]. destruct (_ <? _); [by apply nothing_changes|].
  destruct (match path with Some _ => _ | None => _ end); [by apply nothing_changes|]. apply register_inner_effect.
Qed.

Lemma effect_changes sr s k m body s' : ids_distinct (records_of s) -> id_unused k (records_of s) -> request_effect sr s k m body s' ->
  exists mid, change m k (records_of s) mid /\ change m k mid (records_of s').
Proof.
  intros Hu Hun [-> |expiry record _ Hr Hm -> |redeemed _ _ _ ->].
  - exists (records_of s). split; constructor.
  - exists (records_of s). split; [constructor|by apply logout_change].
  - by apply register_redeemed_changes.
Qed.


Lemma insert_size (records : Records) k r : (size (<[k := r]> records) <= S (size records))%nat.
Proof. rewrite map_size_insert. destruct (records !! k); cbn; lia. Qed.

Lemma delete_size (records : Records) k : (size (delete k records) <= size records)%nat.
Proof. rewrite map_size_delete. destruct (records !! k); cbn; lia. Qed.

Lemma change_size m k records records' : change m k records records' -> (size records' <= S (size records))%nat.
Proof.
  destruct 1 as [|key r Hr Hm|key r r' Hr Hv|r' Hk Hm Hid Hname|key old r' Ho Hom Hm Hname Hid Ht]; [lia|etransitivity; [apply delete_size|lia]|apply insert_size|apply insert_size|].
  unfold rekeyed. etransitivity; [apply insert_size|]. destruct (bool_decide _); [lia|]. pose proof (delete_size records key). lia.
Qed.

Lemma change_unused m k records records' : change m k records records' -> id_unused k records -> id_unused k records'.
Proof.
  intros Hc Hun k1 r1. destruct Hc as [|key r Hr Hm|key r r' Hr [_ _ _ Hid]|r' Hk Hm Hid Hname|key old r' Ho Hom Hm Hname Hid Ht].
  - apply Hun.
  - intros [_ HA]%lookup_delete_Some. by apply Hun.
  - intros [[<- <-]|[_ HA]]%lookup_insert_Some; [rewrite Hid|]; by apply Hun.
  - intros [[<- <-]|[_ HA]]%lookup_insert_Some; [done|]. by apply Hun.
  - intros [[-> ->]|(_ & _ & HA)]%rekeyed_lookup; [done|]. by apply Hun.
Qed.

(** C19. A registration keeps the names and the ids of the nodes distinct. *)
Theorem registration_keeps_distinct sr s machine_key path body :
  names_distinct (records_of s) -> ids_distinct (records_of s) -> id_unused (node_key_of (rr_node_key body)) (records_of s) -> Z.of_nat (size (records_of s)) < 2 ^ 31 - 2 ->
  let s' := (handle_register sr s machine_key path body).2 in names_distinct (records_of s') /\ ids_distinct (records_of s').
Proof.
  intros Hn Hu Hun Hsize. cbv zeta. destruct (effect_changes _ _ _ _ _ _ Hu Hun (handle_register_effect sr s machine_key path body)) as (mid & HA & HB).
  pose proof (change_size _ _ _ _ HA). split.
  - eapply (names_stay_distinct _ _ mid); [lia| |exact HB]. eapply (names_stay_distinct _ _ (records_of s)); [lia|done|exact HA].
  - eapply (ids_stay_distinct _ _ mid); [by eapply change_unused| |exact HB]. by eapply (ids_stay_distinct _ _ (records_of s)).
Qed.

(** ** The way back to a pending registration *)

Lemma remove_marker_none fuel m l : SLASH ∉ l -> remove_marker fuel (SLASH :: m) l = l.
Proof.
  revert l. induction fuel as [|fuel IH]; intros l Hl; [by destruct l|]. destruct l as [|b l]; [done|]. apply not_elem_of_cons in Hl as [Hb Hl]. cbn [remove_marker begins].
  rewrite (proj2 (Z.eqb_neq _ _) Hb). cbn [andb]. by rewrite IH.
Qed.

(** The bytes of an id: those of the URL-safe base64 alphabet. *)
Definition id_byte (b : Z) : bool := is_alphanumeric b || one_of b (text "-_").

Lemma id_bytes l : forallb id_byte l = true -> existsb structural l = false /\ PERCENT ∉ l /\ SLASH ∉ l /\ utf8_valid l = true.
Proof.
  intros Hl. assert (Forall (fun b => structural b = false /\ b <> PERCENT /\ b <> SLASH /\ 0 <= b < 128) l) as Ha.
  { apply Forall_forall. intros b Hb. rewrite forallb_forall in Hl. apply list_elem_of_In, Hl in Hb. unfold id_byte, is_alphanumeric, is_lower, is_upper, is_number in Hb. apply orb_true_iff in Hb as [Hb|Hb]; [unfold structural; lia|].
    apply one_of_spec in Hb. change (text "-_") with [45; 95] in Hb. repeat (apply elem_of_cons in Hb as [->|Hb]; [done|]). by apply elem_of_nil in Hb. }
  split_and!; [|intros Hin; rewrite Forall_forall in Ha; by destruct (Ha _ Hin) as (_ & ? & ? & _)..|].
  - clear Hl. induction Ha as [|b l [Hb _] _ IH]; [done|]. cbn. by rewrite Hb, IH.
  - apply utf8_valid_spec. clear Hl. induction Ha as [|b l (_ & _ & _ & Hb) _ IH]; [constructor|]. apply (utf8_char _ 1); [done| |done]. unfold utf8_step. cbn. by rewrite (proj2 (Z.ltb_lt b 128)) by lia.
Qed.

Lemma remove_marker_app fuel marker l : marker <> [] -> remove_marker (S fuel) marker (marker ++ l) = remove_marker fuel marker l.
Proof. destruct marker as [|b m]; [done|]. intros _. pose proof (begins_app (b :: m) l) as E. cbn [app] in E |- *. cbn [remove_marker]. rewrite E. f_equal. exact (drop_app_length (b :: m) l). Qed.

(** The path of a registration's page. *)
Definition register_path (id : string) : list Z := text "/register/" ++ text AUTH_ID_PREFIX ++ text id.

Lemma path_names_id id : forallb id_byte (text id) = true ->
  remove_marker (length (register_path id)) (text "/register/") (register_path id) = text AUTH_ID_PREFIX ++ text id.
Proof.
  intros (_ & _ & Hs & _)%id_bytes. unfold register_path at 2. change (length (register_path id)) with (S (length (drop 1 (register_path id)))). rewrite remove_marker_app by done.
  change (text "/register/") with (SLASH :: drop 1 (text "/register/")). apply remove_marker_none. rewrite not_elem_of_app. split; [|done]. by apply one_of_false.
Qed.

(** The server's own address, as it is configured, can be followed by a path. *)
Definition control_url_ok (sr : Surroundings) : Prop :=
  match sr_control_url sr with Some url => url = ""%string \/ is_base (sr_legacy_colons sr) (text (trim_slashes url)) | None => True end.

Lemma auth_url_path sr id : forallb id_byte (text id) = true -> control_url_ok sr ->
  exists v, parse_bytes (sr_legacy_colons sr) (text (auth_url_for_registration (sr_control_url sr) id)) = Ok v /\ u_path v = register_path id.
Proof.
  intros Hid Hc. destruct (id_bytes _ Hid) as (Hi1 & Hi2 & _). assert (existsb structural (register_path id) = false /\ PERCENT ∉ register_path id) as [Hq Hn].
  { unfold register_path. rewrite !existsb_app, Hi1, !not_elem_of_app. split; [done|]. split_and!; [by apply one_of_false..|done]. }
  unfold auth_url_for_registration. assert (exists v, parse_bytes (sr_legacy_colons sr) (text ("/register/" +:+ AUTH_ID_PREFIX +:+ id)) = Ok v /\ u_path v = register_path id) as Hplain.
  { rewrite !text_app. by apply parse_absolute. }
  unfold control_url_ok in Hc. destruct (sr_control_url sr) as [url|]; [|done]. case_bool_decide; [done|]. destruct Hc as [|Hb]; [done|]. rewrite text_app, text_app, text_app. by apply parse_below.
Qed.


(** ** What a registration with an auth key gives *)

(** The node [new] under key [k] continues [old]. *)
Record same_node_continued (key : string) (old new : MachineRecord) : Prop := mkContinued {
  co_id : mr_node_id new = Some (node_id_at key old);
  co_name : mr_hostname new = mr_hostname old;
  co_ipv4 : mr_ipv4 new = mr_ipv4 old;
  co_ipv6 : mr_ipv6 new = mr_ipv6 old;
  co_created : re_created_at (mr_reported new) = re_created_at (mr_reported old);
  co_disco : re_disco_key (mr_reported new) = re_disco_key (mr_reported old);
  co_endpoints : re_endpoints (mr_reported new) = re_endpoints (mr_reported old);
}.

(** The result of a registration over the registry [g]. *)
Record registration_result (sr : Surroundings) (k m : string) (body : RegisterRequest) (redeemed : RedeemOk) (existing : option (string * MachineRecord)) (g g' : MachineRegistry)
    (new : MachineRecord) : Prop := mkResult {
  gr_machine : mr_machine_key_hex new = m;
  gr_key : mr_node_key_hex new = k;
  gr_ephemeral : mr_ephemeral new = ro_ephemeral redeemed;
  gr_tags : mr_forced_tags new = registered_tags (snd <$> existing) redeemed;
  gr_owner : mr_forced_tags new <> [] -> mr_owner new = no_owner;
  gr_node : match existing with
            | Some (key, old) => same_node_continued key old new /\ rg_allocator g' = rg_allocator g /\ rg_records g' = rekeyed key k new (rg_records g)
            | None => mr_node_id new = Some (stable_id_from_key k) /\ requested_tags_for_body body = [] /\ rg_records g !! k = None /\
                (Z.of_nat (size (rg_records g)) < 2 ^ 31 - 1 -> forall k1 r1, rg_records g !! k1 = Some r1 -> mr_hostname r1 <> mr_hostname new) /\
                (exists a a', rg_allocator g = Some a /\ rg_allocator g' = Some a' /\ allocate_addresses a (sr_draws4 sr) (sr_draws6 sr) = Some (Ok (mr_ipv4 new, mr_ipv6 new), a')) /\
                rg_records g' = <[k := new]> (rg_records g)
            end;
}.

Lemma rekeyed_insert key k (r r' : MachineRecord) (records : Records) : <[k := r']> (rekeyed key k r records) = rekeyed key k r' records.
Proof. unfold rekeyed. by rewrite insert_insert_eq. Qed.

Lemma addresses_allocated sr existing ips (g g1 : MachineRegistry) : registration_addresses sr existing g = (Ok ips, g1) ->
  rg_records g1 = rg_records g /\
  match existing with
  | Some (_, e) => ips = (mr_ipv4 e, mr_ipv6 e) /\ rg_allocator g1 = rg_allocator g
  | None => exists a a', rg_allocator g = Some a /\ rg_allocator g1 = Some a' /\ allocate_addresses a (sr_draws4 sr) (sr_draws6 sr) = Some (Ok ips, a')
  end.
Proof.
  unfold registration_addresses, allocate_registration_addresses. destruct existing as [[key e]|]; [by intros [= <- <-]|].
  destruct (rg_allocator g) as [a|] eqn:Ea; cbn [mbind option_bind]; [|done]. destruct (allocate_addresses a _ _) as [[[[[v4|] [v6|]]|] a']|] eqn:Er; cbn; intros [= <- <-]; (split; [done|]); by exists a, a'.
Qed.

Lemma register_redeemed_exact sr k m body redeemed (g g' : MachineRegistry) r :
  ids_distinct (rg_records g) -> id_unused k (rg_records g) -> register_redeemed sr k m body redeemed g = (Json r, g') -> rp_error r = None ->
  exists existing new, existing_machine_for_preauth (rg_records g) m (ro_user redeemed) (ro_user_id redeemed) (negb (is_nil (ro_tags redeemed))) = Ok existing /\
    registration_result sr k m body redeemed existing g g' new.
Proof.
  intros Hu Hun. unfold register_redeemed, register_error_response. destruct (register_hostinfo_parts body) as [parts|]; [|done].
  destruct (existing_machine_for_preauth _ _ _ _ _) as [existing|] eqn:Ee; [|by intros [= <- _]]. destruct (match existing with None => _ | Some _ => _ end) eqn:Etags; [by intros [= <- _]|].
  destruct (negb (validate_registration_node_key _ _ _)); [by intros [= <- _]|]. destruct (registration_addresses sr existing g) as [[ips|] g1] eqn:Ea; [|by intros [= <- _]].
  apply addresses_allocated in Ea as [Hk Hips]. set (rec := registered_record _ _ _ _ _ _ _ _).
  destruct (registered_record_keys sr k m body parts redeemed existing ips) as (Em & Ek & En & E4 & E6 & Eeph & Et & Erep & Eown). fold rec in Em, Ek, En, E4, E6, Eeph, Et, Erep, Eown.
  destruct (sr_registration_value _ _ _ _) as [value|]; [|by intros [= <- _]].
  pose proof (commit_change m k (at_change (sr_clock sr)) (sr_refresh sr) (sr_hostinfo_of sr) (fst <$> existing) rec (Some value) g1 Em Ek) as Hc.
  destruct (commit_volatile_auth_registration _ _ _ _ _ _ _) as [[record|e] g2]; [|by destruct e].
  destruct Hc as (Hc & Hall & Hr & n & name & Erec & Hwhere); [destruct existing; [done|by rewrite En]|]. rewrite Hk in Hc, Hwhere.
  pose proof (approve_change m k (sr_refresh_approved sr) (sr_approves sr record) record g2) as Ha. destruct (auto_approve_registered_routes _ _ _ _) as [approved g3].
  destruct Ha as [Hall3 [routes Hrec3]]; [by eapply ids_stay_distinct|done|by subst record|by subst record|]. destruct approved as [[]|]; [|by intros [= <- _]]. intros [= _ <-] _.
  exists existing, (with_approved_routes record routes). split; [done|]. rewrite Erec in *. clear Erec Hr Hc. split; cbn; try done. rewrite Hrec3, Hall3, Hall. destruct existing as [[key old]|]; cbn [fmap option_fmap option_map fst snd] in *.
  - destruct Hwhere as (old' & Eo & -> & -> & ->). destruct (existing_machine_found _ _ _ _ _ _ _ Ee) as [Eold _]. assert (old' = old) as -> by congruence. destruct Hips as [-> Hall1].
    split_and!; [|done|apply rekeyed_insert]. split; cbn; try done; by rewrite Erep.
  - destruct Hwhere as (Hnone & -> & -> & ->). destruct (requested_tags_for_body body) as [|]; [|done]. split_and!; [done..| | |by rewrite insert_insert_eq].
    + intros Hsize. by apply registered_name_fresh.
    + destruct Hips as (a & a' & ? & ? & Hips). exists a, a'. split_and!; try done. rewrite E4, E6. by destruct ips.
Qed.


End register.

(** ** Examples *)

Module RegisterExamples.

Import ViewExamples DeltaExamples RequestExamples PreauthExamples.

#[export] Instance plain_requests : HostRequests := {| rest_request_tags _ := []; rest_with_request_tags r _ := r; host_rest_default := tt |}.

Notation Wire := (@WireState plain_host plain_wire InMemoryPreauthAdmin unit).
Notation Around := (@Surroundings plain_host plain_wire).

(** The store holds a reusable key of alice and one of bob. *)
Definition auth_key (id : Z) (token user : string) : PreauthAdminKey := mkKey id token user 0 None NEVER_EXPIRES_AT None true false [] 0.
Definition keys : InMemoryPreauthAdmin := {[ "alice-key"%string := auth_key 1 "alice-key" "alice"; "bob-key"%string := auth_key 2 "bob-key" "bob" ]}.

Definition addresses : option CidrIpAllocator := match from_cidrs_with_strategy "100.64.0.0/24" None Sequential with Ok a => Some a | Err _ => None end.

Definition empty_wire : Wire := mkWire (registry_start ∅ None PrimaryRouteState_new addresses) RegistrationCache_new keys.

Definition around : Around :=
  mkSurroundings (mkClock 1000 1001 1002 1003 1004) None None false "id" None [] [] (mkAnswer [] (Ok None)) (mkAnswer [] (Ok None)) (fun _ _ _ => false) (fun _ => false)
    host_info_for_node (fun requested _ _ => Ok requested) 0 None.

Definition refusing : Around :=
  mkSurroundings (mkClock 1000 1001 1002 1003 1004) (Some (fun _ _ _ => Err "not a member"%string)) None false "id" None [] [] (mkAnswer [] (Ok None)) (mkAnswer [] (Ok None))
    (fun _ _ _ => false) (fun _ => false) host_info_for_node (fun requested _ _ => Ok requested) 0 None.

Definition join (key token : string) : RegisterRequest := mkRegisterRequest 113 ("nodekey:" +:+ key) (Some token) (Some (host "laptop")) None false None (host "laptop").

Definition registers_as (s : Wire) (machine key token : string) : Answer * Wire := handle_register around s (Some machine) None (join key token).

Definition seen (s : Wire) := map (fun kv => (kv.1, mr_machine_key_hex kv.2, mr_hostname kv.2, mr_ipv4 kv.2)) (map_to_list (rg_records (ws_machines s))).
Definition ids (s : Wire) := map (fun kv => stable_node_id_for_key kv.1 kv.2) (map_to_list (rg_records (ws_machines s))).

(** Alice's machine joins, and goes on under another node key. *)
Definition joined1 : Wire := (registers_as empty_wire "m1" "k1" "alice-key").2.
Definition rotated : Wire := (registers_as joined1 "m1" "k2" "alice-key").2.

Example first_join : seen joined1 = [("k1", "m1", "laptop", Some 0x64400001)]%string.
Proof. vm_compute. reflexivity. Qed.

Example rotation_keeps : seen rotated = [("k2", "m1", "laptop", Some 0x64400001)]%string /\ ids rotated = ids joined1.
Proof. split; vm_compute; reflexivity. Qed.

(** Another machine gets another name and another address; a gate refuses it. *)
Example second_join : seen (registers_as rotated "m2" "k3" "bob-key").2 = [("k3", "m2", "laptop-1", Some 0x64400002); ("k2", "m1", "laptop", Some 0x64400001)]%string.
Proof. vm_compute. reflexivity. Qed.

(** What a refusal says. *)
Definition said (answer : Answer) : string :=
  match answer with
  | Json r => match rp_error r with Some (GateRefused reason) => "refused: " +:+ reason | Some (BadCredential e) => "refused: " +:+ rde_message e | Some _ => "error" | None => "fine" end
  | BadRequest KeyExists => "node key already exists"
  | _ => "status"
  end.

Example gate_refuses : said (handle_register refusing rotated (Some "m2"%string) None (join "k3" "bob-key")).1 = "refused: not a member"%string.
Proof. vm_compute. reflexivity. Qed.

Example bad_key_refused : said (registers_as rotated "m2" "k3" "guess").1 = "refused: invalid pre auth key"%string.
Proof. vm_compute. reflexivity. Qed.

(** The node key that was rotated away is free again, but the id derived from it is still
    that of the node: a second node comes to have the same id. *)
Example rotated_id_given_twice : match ids (registers_as rotated "m2" "k1" "bob-key").2 with [a; b] => a =? b | _ => false end = true.
Proof. vm_compute. reflexivity. Qed.

(** Bob's key on alice's machine with her node key: the commit refuses the node, and the
    address that was taken for it is not given back. *)
Example refused_address_lost :
  let used (s : Wire) := (fun a => size (fa_used a)) <$> (rg_allocator (ws_machines s) ≫= ca_ipv4) in
  let refused := registers_as joined1 "m1" "k1" "bob-key" in
  said refused.1 = "node key already exists"%string /\ seen refused.2 = seen joined1 /\ used joined1 = Some 3%nat /\ used refused.2 = Some 4%nat.
Proof. vm_compute. repeat split; reflexivity. Qed.

(** A client without a key is sent to a page. *)
Definition linked : Around :=
  mkSurroundings (mkClock 1000 1001 1002 1003 1004) None None false "AbCd_fghIjklMnop-rstUvwx" None [] [] (mkAnswer [] (Ok None)) (mkAnswer [] (Ok None)) (fun _ _ _ => false) (fun _ => false)
    host_info_for_node (fun requested _ _ => Ok requested) 0 (Some "https://vpn.example.org:8443/"%string).

Definition asks : RegisterRequest := mkRegisterRequest 113 "nodekey:k9" None (Some (host "laptop")) None false None (host "laptop").

Example page_of_registration : match (register_interactive linked empty_wire "k9" "m9" asks).1 with Json r => rp_auth_url r | _ => ""%string end
  = "https://vpn.example.org:8443/register/hskey-authreq-AbCd_fghIjklMnop-rstUvwx"%string.
Proof. vm_compute. reflexivity. Qed.

(** An address with a path of its own does not lead back. *)
Example base_path_not_followed : registration_id_from_followup false (auth_url_for_registration (Some "https://example.org/vpn"%string) "AbCd_fghIjklMnop-rstUvwx") = Err InvalidRegistrationId.
Proof. vm_compute. reflexivity. Qed.

Lemma new_cache_ok : cache_ok (@RegistrationCache_new (@MachineRecord HostInfo) RawHostinfo unit).
Proof.
  split; cbn; try done; [rewrite map_size_empty|..]; unfold REGISTRATION_CACHE_MAX_ENTRIES, REGISTRATION_CACHE_MAX_PENDING_PER_SOURCE; lia.
Qed.


(** The hypotheses of the theorems, by computation. *)
Definition unused_check (key : string) (records : gmap string (@MachineRecord HostInfo)) : bool :=
  forallb (fun kv => negb (stable_node_id_for_key kv.1 kv.2 =? stable_id_from_key key)) (map_to_list records).

Lemma unused_by_check key records : unused_check key records = true -> id_unused key records.
Proof.
  unfold unused_check. rewrite forallb_forall. intros Hall k r Hr _ E. apply elem_of_map_to_list, list_elem_of_In in Hr. apply Hall in Hr. cbn [fst snd] in Hr. rewrite E, Z.eqb_refl in Hr. done.
Qed.

Lemma rotated_key : dom (rg_records (ws_machines rotated)) = {[ "k2"%string ]}.
Proof. vm_compute. reflexivity. Qed.

Lemma rotated_one k r : rg_records (ws_machines rotated) !! k = Some r -> k = "k2"%string.
Proof. intros Hr%elem_of_dom_2. rewrite rotated_key in Hr. by apply elem_of_singleton in Hr. Qed.

Lemma rotated_ids : ids_distinct (rg_records (ws_machines rotated)).
Proof. intros k1 k2 r1 r2 Hr1%rotated_one Hr2%rotated_one _. congruence. Qed.

Lemma rotated_names : names_distinct (rg_records (ws_machines rotated)).
Proof. intros k1 k2 r1 r2 Hr1%rotated_one Hr2%rotated_one _. congruence. Qed.

Lemma rotated_unused : id_unused "k3" (rg_records (ws_machines rotated)).
Proof. apply unused_by_check. vm_compute. reflexivity. Qed.


Lemma registration_keeps_distinct_witness :
  names_distinct (rg_records (ws_machines (handle_register around rotated (Some "m2"%string) None (join "k3" "bob-key")).2)).
Proof.
  apply (registration_keeps_distinct around rotated (Some "m2"%string) None (join "k3" "bob-key") rotated_names rotated_ids rotated_unused). apply Z.ltb_lt. vm_compute. reflexivity.
Defined.

Lemma second_is_fine : said (register_auth_key around rotated "k3" "m2" (join "k3" "bob-key")).1 = "fine"%string.
Proof. vm_compute. reflexivity. Qed.


End RegisterExamples.
