(* ===== verification/WebRegister.v ===== *)
(** * WebRegister: completing an interactive registration
    (headscale-api/src/tailscale_wire/{web_registration,mod,wire}.rs)

    A node that registered without a key waits in the cache until somebody logs in for
    it.  [complete_volatile_web_registration] takes the pending record out of the cache,
    gives it its owner, checks the tags it asked for, and commits it as [Register] does;
    the verdict on the entry tells the waiting client.

    What the world answers is the record [WebSurroundings]; the policy's permission for a
    tag is a function of the node that is already known and the tag. *)

From stdpp Require Import base list gmap strings sets.
From Stdlib Require Import ZArith Lia.
From S2P Require Import Prelude Text Bytes Net GoNetip PrimaryRoutes GivenName IpAlloc Registration MapChange MapBatcher Registry NodeStore NodeUpdates Sessions MapNodes MapView MapDelta MapRequest Preauth Register.

Open Scope Z_scope.

Section web.
Context `{HostUpdates} `{!HostRequests} `{NetipText} `{Chrono} {P Oidc : Type}.

Notation MachineRecord := (@MachineRecord HostInfo).
Notation Records := (gmap string MachineRecord).
Notation MachineRegistry := (@MachineRegistry HostInfo).
Notation Wire := (@WireState _ _ P Oidc).

Record WebRegistrationUser := mkWebUser {
  wu_id : option Z;
  wu_name : string;
  wu_display_name : string;
  wu_profile_pic_url : string;
  wu_provider : string;
  wu_created_at : option Z;
}.

Inductive WebRegistrationError := SessionExpired | Store (e : RegisterError).

Record WebSurroundings := mkWebSurroundings {
  wb_lookup_at : Z;
  wb_expiry_at : Z;
  wb_record_at : Z;
  wb_change_at : Z;
  wb_configured : result unit string;
  wb_may_have_tag : option (string * MachineRecord) -> string -> bool;
  wb_draws4 : list (result (list Z) string);
  wb_draws6 : list (result (list Z) string);
  wb_refresh : PolicyAnswer;
  wb_refresh_approved : PolicyAnswer;
  wb_approves : MachineRecord -> string -> bool -> bool;
  wb_hostinfo_of : MachineRecord -> RawHostinfo;
  wb_registration_value : RawHostinfo -> HostInfo -> option RawHostinfo -> result RawHostinfo string;
  wb_expiry_nanos : Z;
}.

(** ** The node that goes on *)

Definition auth_path_existing_machine (records : Records) (machine_key user : string) (user_id : option Z) : result (option (string * MachineRecord)) RegisterError :=
  let matches := List.filter (of_machine machine_key) (map_to_list records) in
  let user_owned := List.filter (fun kv => negb (is_tagged kv.2) && owned_by user user_id kv.2) matches in
  let tagged := List.filter (fun kv => is_tagged kv.2) matches in
  if (1 <? length user_owned)%nat || (1 <? length tagged)%nat || (negb (is_nil user_owned) && negb (is_nil tagged)) || ((length tagged =? 1)%nat && (1 <? length matches)%nat)
  then Err AmbiguousOwnership
  else Ok (match user_owned with kv :: _ => Some kv | [] => head tagged end).

Definition registration_expiry (nanos : Z) (expiry : option Z) (tagged : bool) (now : Z) : option Z :=
  let missing := match expiry with Some t => t =? GO_ZERO_TIME | None => true end in
  if tagged || negb missing || (nanos <=? 0) then expiry else Some (if now + nanos <=? MAX_UTC then now + nanos else MAX_UTC).

(** The requested tags keep their number: those that fall away are cleared. *)
Definition compacted_tags (tags : list string) : list string := sort_dedup tags ++ repeat ""%string (length tags - length (sort_dedup tags)).

Definition compact_fresh_web_request_tags (h : HostInfo) : HostInfo :=
  mkHostInfo (hi_hostname h) (hi_os h) (hi_os_version h) (hi_routable_ips h) (hi_ssh_host_keys h) (hi_services h) (hi_location h) (hi_app_connector h) (hi_net_info h)
    (rest_with_request_tags (hi_rest h) (compacted_tags (rest_request_tags (hi_rest h)))).

(** The node of another user on this machine whose network report is carried over. *)
Definition other_users_node (records : Records) (machine_key user : string) (user_id : option Z) : option (string * MachineRecord) :=
  min_by_key (fun kv => stable_node_id_for_key kv.1 kv.2)
    (List.filter (fun kv => of_machine machine_key kv && negb (is_tagged kv.2) && negb (owned_by user user_id kv.2)) (map_to_list records)).

(** The record for a node that is known, before the last touches. *)
Definition continued_record (w : WebSurroundings) (pending : MachineRecord) (user : string) (register_method : Z) (key : string) (e : MachineRecord) : MachineRecord :=
  let re := mr_reported pending in
  let tags := mr_forced_tags pending in
  let untagged := is_tagged e && is_nil tags in
  let own := mr_owner pending in
  let old := mr_owner e in
  let h := match hi_net_info (re_host_info re) with Some _ => re_host_info re | None => with_net_info (re_host_info re) (hi_net_info (host_info_for_node e)) end in
  mkRecord (Some (stable_node_id_for_key key e)) (mr_node_key_hex pending) (mr_machine_key_hex pending)
    (mkOwner user (match ow_user_id own with Some id => Some id | None => ow_user_id old end) (or_text (ow_display_name own) (ow_display_name old))
       (or_text (ow_profile_pic_url own) (ow_profile_pic_url old)) (ow_provider own) (ow_created_at own))
    (mr_hostname pending) (mr_ipv4 e) (mr_ipv6 e)
    (if is_tagged e && negb (is_nil tags) then match mr_expiry e with Some t => if wb_expiry_at w <=? t then Some t else None | None => None end else mr_expiry pending)
    (mr_last_seen pending) (if untagged then false else mr_ephemeral e) tags (mr_available_routes pending) (mr_approved_routes e)
    (mkReported (if untagged then None else match re_auth_key_id re with Some id => Some id | None => re_auth_key_id (mr_reported e) end) (hi_hostname (re_host_info re)) (re_os re) (re_os_version re) h
       (re_disco_key re) (if is_nil (re_endpoints re) then re_endpoints (mr_reported e) else re_endpoints re) (hostinfo_preferred_derp h) (re_created_at (mr_reported e)) (re_ssh_host_keys re)
       (if untagged then register_method else re_register_method (mr_reported e))).

(** The record for a new node. *)
Definition fresh_record (w : WebSurroundings) (records : Records) (pending : MachineRecord) (user : string) (register_method : Z) : MachineRecord :=
  let re := mr_reported pending in
  let own := mr_owner pending in
  let h := match hi_net_info (re_host_info re) with
           | Some _ => re_host_info re
           | None => match other_users_node records (mr_machine_key_hex pending) user (ow_user_id own) with
                     | Some (_, node) => with_net_info (re_host_info re) (hi_net_info (host_info_for_node node))
                     | None => re_host_info re
                     end
           end in
  let h := if is_nil (mr_forced_tags pending) then h else compact_fresh_web_request_tags h in
  mkRecord (mr_node_id pending) (mr_node_key_hex pending) (mr_machine_key_hex pending)
    (mkOwner user (ow_user_id own) (ow_display_name own) (ow_profile_pic_url own) (ow_provider own) (ow_created_at own))
    (mr_hostname pending) (mr_ipv4 pending) (mr_ipv6 pending) (mr_expiry pending) (mr_last_seen pending) false (mr_forced_tags pending) (mr_available_routes pending) []
    (mkReported None (hi_hostname (re_host_info re)) (re_os re) (re_os_version re) h (re_disco_key re) (re_endpoints re) (re_home_derp re) (wb_record_at w) (re_ssh_host_keys re) register_method).

(** Owner of a tagged node, DERP region, last seen and expiry. *)
Definition finished_record (w : WebSurroundings) (r : MachineRecord) : MachineRecord :=
  let r := if is_nil (mr_forced_tags r) then r else clear_user_identity r in
  let re := mr_reported r in
  let now := wb_record_at w in
  mkRecord (mr_node_id r) (mr_node_key_hex r) (mr_machine_key_hex r) (mr_owner r) (mr_hostname r) (mr_ipv4 r) (mr_ipv6 r)
    (registration_expiry (wb_expiry_nanos w) (mr_expiry r) (is_tagged r) now) now (mr_ephemeral r) (mr_forced_tags r) (mr_available_routes r) (mr_approved_routes r)
    (mkReported (re_auth_key_id re) (re_raw_hostname re) (re_os re) (re_os_version re) (re_host_info re) (re_disco_key re) (re_endpoints re) (hostinfo_preferred_derp (re_host_info re))
       (re_created_at re) (re_ssh_host_keys re) (re_register_method re)).

Definition completed_record (w : WebSurroundings) (records : Records) (pending : MachineRecord) (user : string) (register_method : Z) (existing : option (string * MachineRecord)) : MachineRecord :=
  finished_record w match existing with Some (key, e) => continued_record w pending user register_method key e | None => fresh_record w records pending user register_method end.

(** The retained value whose NetInfo is carried over. *)
Definition preserved_value (w : WebSurroundings) (records : Records) (pending : MachineRecord) (user : string) (existing : option (string * MachineRecord)) : option RawHostinfo :=
  match existing with
  | Some (_, e) => Some (wb_hostinfo_of w e)
  | None => match hi_net_info (re_host_info (mr_reported pending)) with
            | Some _ => None
            | None => wb_hostinfo_of w ∘ snd <$> other_users_node records (mr_machine_key_hex pending) user (ow_user_id (mr_owner pending))
            end
  end.

Definition complete_web_registration_with_hostinfo (w : WebSurroundings) (pending : MachineRecord) (user : string) (register_method : Z) (requested : option RawHostinfo) (g : MachineRegistry)
    : result MachineRecord RegisterError * MachineRegistry :=
  let records := rg_records g in
  if negb (validate_registration_node_key records (mr_node_key_hex pending) (mr_machine_key_hex pending)) then (Err NodeKeyInUse, g)
  else match auth_path_existing_machine records (mr_machine_key_hex pending) user (ow_user_id (mr_owner pending)) with
       | Err e => (Err e, g)
       | Ok existing =>
           let record := completed_record w records pending user register_method existing in
           let value := match requested with
                        | None => Ok None
                        | Some requested => result_map Some (wb_registration_value w requested (host_info_for_node record) (preserved_value w records pending user existing))
                        end in
           match value with
           | Err e => (Err (BadHostinfo e), g)
           | Ok value => commit_volatile_auth_registration (wb_change_at w) (wb_refresh w) (wb_hostinfo_of w) (fst <$> existing) record value g
           end
       end.

(** ** The tags *)

(** [Ok] of the tags and whether there are any. *)
Definition validate_requested_tags_for_auth_path (may_have_tag : string -> bool) (tags : list string) : result (bool * list string) RegisterError :=
  match tags with
  | [] => Ok (false, [])
  | _ => match List.filter (fun tag => negb (may_have_tag tag)) tags with
         | [] => Ok (true, sort_dedup tags)
         | invalid => Err (BadTags invalid)
         end
  end.

(** ** The completion *)

Definition with_login (pending : MachineRecord) (user : WebRegistrationUser) (ips : option Z * option Z) (expiry : option Z) (tags : list string) : MachineRecord :=
  mkRecord (mr_node_id pending) (mr_node_key_hex pending) (mr_machine_key_hex pending)
    (mkOwner (wu_name user) (wu_id user) (wu_display_name user) (wu_profile_pic_url user) (wu_provider user) (wu_created_at user))
    (mr_hostname pending) ips.1 ips.2 expiry (mr_last_seen pending) (mr_ephemeral pending) tags (mr_available_routes pending) (mr_approved_routes pending) (mr_reported pending).

Definition web_addresses (w : WebSurroundings) (existing : option (string * MachineRecord)) (g : MachineRegistry) : result (option Z * option Z) RegisterError * MachineRegistry :=
  match existing with
  | Some (_, e) => (Ok (mr_ipv4 e, mr_ipv6 e), g)
  | None => let '(r, g) := allocate_registration_addresses (wb_draws4 w) (wb_draws6 w) g in (map_err NoAddress r, g)
  end.

(** What happens under the locks, up to the commit: the record and whether it is new. *)
Definition complete_pending (w : WebSurroundings) (pending : MachineRecord) (hostinfo : option RawHostinfo) (user : WebRegistrationUser) (node_expiry : option Z) (register_method : Z) (g : MachineRegistry)
    : result (MachineRecord * bool) RegisterError * MachineRegistry :=
  let records := rg_records g in
  if negb (validate_registration_node_key records (mr_node_key_hex pending) (mr_machine_key_hex pending)) then (Err NodeKeyInUse, g)
  else match auth_path_existing_machine records (mr_machine_key_hex pending) (wu_name user) (wu_id user) with
       | Err e => (Err e, g)
       | Ok existing =>
           match validate_requested_tags_for_auth_path (wb_may_have_tag w existing) (mr_forced_tags pending) with
           | Err e => (Err e, g)
           | Ok (requested_tags, tags) =>
               let expiry := if requested_tags then None else match node_expiry with Some t => Some t | None => mr_expiry pending end in
               let '(ips, g) := web_addresses w existing g in
               match ips with
               | Err e => (Err e, g)
               | Ok ips =>
                   let '(r, g) := complete_web_registration_with_hostinfo w (with_login pending user ips expiry tags) (wu_name user) register_method hostinfo g in
                   (result_map (fun record => (record, bool_decide (existing = None))) r, g)
               end
           end
       end.

Definition complete_volatile_web_registration (w : WebSurroundings) (id : string) (user : WebRegistrationUser) (node_expiry : option Z) (register_method : Z) (s : Wire)
    : result (MachineRecord * bool) WebRegistrationError * Wire :=
  match wb_configured w with
  | Err e => (Err (Store (PolicyFailed e)), s)
  | Ok _ =>
      let '(found, cache) := pending_registration_completion (wb_lookup_at w) (ws_cache s) id in
      match found with
      | None => (Err SessionExpired, mkWire (ws_machines s) cache (ws_preauth s))
      | Some (pending, hostinfo, completion) =>
          let '(r, g) := complete_pending w pending hostinfo user node_expiry register_method (ws_machines s) in
          match r with
          | Err e => (Err (Store e), mkWire g cache (ws_preauth s))
          | Ok (record, new_node) =>
              let cache := finish_registration cache completion record in
              let '(approved, g) := auto_approve_registered_routes (wb_refresh_approved w) (wb_approves w record) record g in
              (match approved with Err e => Err (Store (ApprovalFailed e)) | Ok _ => Ok (record, new_node) end, mkWire g cache (ws_preauth s))
          end
      end
  end.

(** ** What a completion does *)

Notation records_of s := (rg_records (ws_machines s)).
Notation node_id_at := stable_node_id_for_key.

Lemma auth_path_found records m user user_id key e :
  auth_path_existing_machine records m user user_id = Ok (Some (key, e)) -> records !! key = Some e /\ mr_machine_key_hex e = m.
Proof.
  unfold auth_path_existing_machine. destruct (_ || _); [done|]. set (matches := List.filter (of_machine m) _). intros [= E].
  assert (forall p l kv, List.filter p matches = kv :: l -> kv ∈ matches) as Hsub by (intros p l kv E'; apply (elem_of_filter_bool p matches kv); rewrite E'; by left).
  assert ((key, e) ∈ matches) as Hin.
  { destruct (List.filter _ matches) as [|kv l] eqn:Eo; [|injection E as ->; by eapply Hsub].
    destruct (List.filter (fun kv => is_tagged kv.2) matches) as [|kv l] eqn:Et; [done|]. injection E as ->. by eapply Hsub. }
  apply elem_of_filter_bool in Hin as [Hin Hm%bool_decide_eq_true]. by apply elem_of_map_to_list in Hin.
Qed.

Lemma completed_record_keys w records pending user method existing :
  let r := completed_record w records pending user method existing in
  mr_machine_key_hex r = mr_machine_key_hex pending /\ mr_node_key_hex r = mr_node_key_hex pending /\ mr_forced_tags r = mr_forced_tags pending /\
  mr_node_id r = match existing with Some (key, e) => Some (node_id_at key e) | None => mr_node_id pending end /\
  (mr_ipv4 r, mr_ipv6 r) = match existing with Some (_, e) => (mr_ipv4 e, mr_ipv6 e) | None => (mr_ipv4 pending, mr_ipv6 pending) end /\
  re_created_at (mr_reported r) = match existing with Some (_, e) => re_created_at (mr_reported e) | None => wb_record_at w end /\
  (mr_forced_tags pending <> [] -> mr_owner r = no_owner).
Proof.
  unfold completed_record, finished_record. destruct existing as [[key e]|]; cbn [continued_record fresh_record mr_forced_tags]; destruct (mr_forced_tags pending) as [|t tags] eqn:Et; cbn; rewrite ?Et; cbn; split_and!; done.
Qed.

Lemma web_addresses_keep w existing (g : MachineRegistry) : rg_records (web_addresses w existing g).2 = rg_records g.
Proof.
  unfold web_addresses, allocate_registration_addresses. destruct existing as [[? ?]|]; [done|]. destruct (rg_allocator g ≫= _) as [[[[[] []]|] a]|]; done.
Qed.

(** The identity of the completed node. *)
Definition web_identity (records : Records) (pending record : MachineRecord) (existing : option (string * MachineRecord)) : Prop :=
  match existing with
  | Some (key, e) => mr_node_id record = Some (node_id_at key e) /\ mr_hostname record = mr_hostname e /\ mr_ipv4 record = mr_ipv4 e /\ mr_ipv6 record = mr_ipv6 e /\
                     re_created_at (mr_reported record) = re_created_at (mr_reported e)
  | None => mr_node_id record = Some (stable_id_from_key (mr_node_key_hex pending)) /\
            (Z.of_nat (size records) < 2 ^ 31 - 1 -> forall k r, records !! k = Some r -> mr_hostname r <> mr_hostname record)
  end.

Lemma complete_web_spec w pending user method requested (g : MachineRegistry) :
  mr_node_id pending = None ->
  let '(r, g') := complete_web_registration_with_hostinfo w pending user method requested g in
  change (mr_machine_key_hex pending) (mr_node_key_hex pending) (rg_records g) (rg_records g') /\
  match r with
  | Err _ => True
  | Ok record => mr_machine_key_hex record = mr_machine_key_hex pending /\ mr_node_key_hex record = mr_node_key_hex pending /\ mr_forced_tags record = mr_forced_tags pending /\
      (mr_forced_tags record <> [] -> mr_owner record = no_owner) /\ rg_records g' !! mr_node_key_hex pending = Some record /\
      exists existing, auth_path_existing_machine (rg_records g) (mr_machine_key_hex pending) user (ow_user_id (mr_owner pending)) = Ok existing /\ web_identity (rg_records g) pending record existing
  end.
Proof.
  intros Hid. unfold complete_web_registration_with_hostinfo. destruct (negb _); [split; [constructor|done]|]. destruct (auth_path_existing_machine _ _ _ _) as [existing|] eqn:Ee; [|split; [constructor|done]].
  set (rec := completed_record _ _ _ _ _ _). destruct (completed_record_keys w (rg_records g) pending user method existing) as (Em & Ek & Et & En & Eip & Ec & Eo). fold rec in Em, Ek, Et, En, Eip, Ec, Eo. clearbody rec.
  destruct (match requested with None => _ | Some _ => _ end) as [value|]; [|split; [constructor|done]].
  pose proof (commit_change (mr_machine_key_hex pending) (mr_node_key_hex pending) (wb_change_at w) (wb_refresh w) (wb_hostinfo_of w) (fst <$> existing) rec value g Em Ek) as Hc.
  destruct (commit_volatile_auth_registration _ _ _ _ _ _ _) as [r g']. destruct Hc as (Hc & _ & Hr); [destruct existing; [done|by rewrite En]|]. split; [done|]. destruct r as [record|]; [|done].
  destruct Hr as (Hin & n & name & -> & Hwhere). cbn. split_and!; try done; [by rewrite Et|]. exists existing. split; [done|].
  destruct existing as [[key e]|]; cbn [fmap option_fmap option_map fst] in Hwhere.
  - destruct Hwhere as (old & Eold & -> & -> & _). destruct (auth_path_found _ _ _ _ _ _ Ee) as [Ekey _]. assert (old = e) as -> by congruence. cbn. by injection Eip as -> ->.
  - destruct Hwhere as (Hnone & -> & -> & _). split; [done|]. intros Hsize k r Hkr. by apply (registered_name_fresh (rg_records g) (mr_node_key_hex pending) None rec eq_refl Hnone Hsize k r).
Qed.

Lemma requested_tags_allowed may_have_tag tags any tags' : validate_requested_tags_for_auth_path may_have_tag tags = Ok (any, tags') ->
  (forall tag, tag ∈ tags' <-> tag ∈ tags) /\ forall tag, tag ∈ tags' -> may_have_tag tag = true.
Proof.
  unfold validate_requested_tags_for_auth_path. destruct tags as [|t tags]; [by intros [= _ <-]; set_solver|]. set (l := t :: tags).
  destruct (List.filter (fun tag => negb (may_have_tag tag)) l) as [|bad rest] eqn:E; [|done]. intros [= _ <-]. destruct (sort_dedup_spec l) as (_ & _ & Hin). split; [done|]. intros tag Htag%Hin.
  destruct (may_have_tag tag) eqn:Ea; [done|]. assert (tag ∈ List.filter (fun tag => negb (may_have_tag tag)) l) as Hbad by (apply elem_of_filter_bool; by rewrite Ea). rewrite E in Hbad. by apply elem_of_nil in Hbad.
Qed.

(** What a successful completion promises of its record. *)
Record completion_ok (w : WebSurroundings) (pending : MachineRecord) (user : WebRegistrationUser) (records : Records) (record : MachineRecord) : Prop := mkCompletionOk {
  ok_machine : mr_machine_key_hex record = mr_machine_key_hex pending;
  ok_key : mr_node_key_hex record = mr_node_key_hex pending;
  ok_owner : mr_forced_tags record <> [] -> mr_owner record = no_owner;
  ok_node : exists existing, auth_path_existing_machine records (mr_machine_key_hex pending) (wu_name user) (wu_id user) = Ok existing /\ web_identity records pending record existing /\
            (forall tag, tag ∈ mr_forced_tags record <-> tag ∈ mr_forced_tags pending) /\ forall tag, tag ∈ mr_forced_tags record -> wb_may_have_tag w existing tag = true;
}.

Lemma complete_pending_spec w pending hostinfo user node_expiry method (g : MachineRegistry) :
  mr_node_id pending = None ->
  let '(r, g') := complete_pending w pending hostinfo user node_expiry method g in
  change (mr_machine_key_hex pending) (mr_node_key_hex pending) (rg_records g) (rg_records g') /\
  match r with Err _ => True | Ok (record, _) => rg_records g' !! mr_node_key_hex pending = Some record /\ completion_ok w pending user (rg_records g) record end.
Proof.
  intros Hid. unfold complete_pending. destruct (negb _); [split; [constructor|done]|]. destruct (auth_path_existing_machine _ _ _ _) as [existing|] eqn:Ee; [|split; [constructor|done]].
  destruct (validate_requested_tags_for_auth_path _ _) as [[any tags]|] eqn:Et; [|split; [constructor|done]]. pose proof (web_addresses_keep w existing g) as Hk.
  destruct (web_addresses w existing g) as [[ips|] g1]; cbn [snd] in Hk; [|rewrite Hk; split; [constructor|done]].
  set (login := with_login _ _ _ _ _). pose proof (complete_web_spec w login (wu_name user) method hostinfo g1 Hid) as Hs. destruct (complete_web_registration_with_hostinfo _ _ _ _ _ _) as [r g'].
  cbn [login with_login mr_machine_key_hex mr_node_key_hex mr_owner ow_user_id mr_forced_tags] in Hs. rewrite Hk in Hs. destruct Hs as [Hc Hr]. split; [done|]. destruct r as [record|]; [|done]. cbn [result_map].
  destruct Hr as (Em & Ek & Etags & Eo & Hin & existing' & Ee' & Hwho). split; [done|]. rewrite Ee in Ee'. injection Ee' as <-. split; try done. exists existing. split; [done|]. split; [by destruct existing as [[]|]|].
  apply requested_tags_allowed in Et as [Hsame Hall]. rewrite Etags. done.
Qed.

Lemma pending_entry now (c : @RegistrationCache MachineRecord RawHostinfo Oidc) id pending hostinfo completion c' :
  pending_registration_completion now c id = (Some (pending, hostinfo, completion), c') ->
  exists p e, completion = (id, p) /\ rc_inner c' !! id = Some p /\ rc_heap c' !! p = Some e /\ en_outcome e = None.
Proof.
  unfold pending_registration_completion, entry_of, get_entry. set (c1 := (prune_expired now c).2). destruct (rc_inner c1 !! id) as [p|] eqn:Ei; [|done]. cbn.
  match goal with |- context [alter ?f p ?heap !! p] => destruct (alter f p heap !! p) as [e|] eqn:Ee end; cbn; [|done]. destruct (en_outcome e) eqn:Eo; [done|]. destruct (en_record e); cbn; [|done]. intros [= <- <- <- <-]. by exists p, e.
Qed.

(** The verdict of a finished registration, whose entry had none. *)
Lemma finish_verdict (c : @RegistrationCache MachineRecord RawHostinfo Oidc) id p e record :
  rc_inner c !! id = Some p -> rc_heap c !! p = Some e -> en_outcome e = None ->
  rc_inner (finish_registration c (id, p) record) !! id = None /\ en_outcome <$> rc_heap (finish_registration c (id, p) record) !! p = Some (Some (Registered record)).
Proof.
  intros Hi Hh Ho. unfold finish_registration, expire_if_current, decide_at. cbn [set_heap Registration.set_store rc_inner rc_heap]. rewrite bool_decide_true by done. cbn [snd Registration.set_store rc_inner rc_heap]. split; [by rewrite lookup_delete_eq|].
  rewrite !list_lookup_alter_eq, Hh. cbn. unfold expire, decide_entry. rewrite Ho. done.
Qed.


End web.

(** ** Examples *)

Module WebExamples.

Import ViewExamples DeltaExamples RequestExamples PreauthExamples RegisterExamples.

(** A second machine asks without a key, and bob logs in for it. *)
Definition waiting := (handle_register around rotated (Some "m2"%string) None (mkRegisterRequest 113 "nodekey:k3" None (Some (host "laptop")) None false None (host "laptop"))).2.

Definition bob : WebRegistrationUser := mkWebUser (Some 7) "bob" "Bob" "" "oidc" None.

Definition web : WebSurroundings :=
  mkWebSurroundings 1100 1101 1102 1103 (Ok tt) (fun _ _ => true) [] [] (mkAnswer [] (Ok None)) (mkAnswer [] (Ok None)) (fun _ _ _ => false) host_info_for_node (fun requested _ _ => Ok requested) 0.

Definition logged_in := complete_volatile_web_registration web "id" bob None 3 waiting.

Example login_completes :
  seen logged_in.2 = [("k3", "m2", "laptop-1", Some 0x64400002); ("k2", "m1", "laptop", Some 0x64400001)]%string /\ rc_inner (ws_cache logged_in.2) = ∅.
Proof. split; vm_compute; reflexivity. Qed.

(** The entry is gone: a second login finds nothing. *)
Example login_once : match (complete_volatile_web_registration web "id" bob None 3 logged_in.2).1 with Err SessionExpired => true | _ => false end = true.
Proof. vm_compute. reflexivity. Qed.

Definition found := pending_registration_completion 1100 (ws_cache waiting) "id".

Lemma found_pending :
  match found.1 with Some (r, _, _) => bool_decide (mr_node_id r = None) && bool_decide (mr_node_key_hex r = "k3"%string) | None => false end = true.
Proof. vm_compute. reflexivity. Qed.

Lemma waiting_machines : ws_machines waiting = ws_machines rotated.
Proof. reflexivity. Qed.


End WebExamples.
